(* ===== verification/_CoqProject ===== *)
-Q . S2P
Prelude.v
Hash.v
Frag.v
Armor.v
Crush.v
Mapper.v
PermChoose.v
BucketChoose.v
Firstn.v
Indep.v
CrushTotal.v
CrushRule.v
Wire.v
CrushDecode.v
RbTree.v
OsdMap.v
OsdMapDecode.v
OsdMapInv.v
PgMapping.v
PgActing.v
FileLayout.v
PageList.v
PageVec.v
MdsMap.v
MsgCursor.v
Msgr.v
MsgrIO.v
MsgrRead.v
MsgrWrite.v
MsgrSession.v
MsgrLimits.v
OsdReq.v
OsdMsg.v
OsdFile.v
OsdClient.v
OsdReply.v
OsdRegistry.v
OsdClientInv.v
OsdSafe.v
OsdHandlers.v
OsdPlace.v
OsdTrace.v
OsdLimits.v
StateM.v
Buffer.v
VXattr.v
Xattr.v
XattrIndex.v
XattrOps.v
XattrBlob.v
XattrRefine.v
XattrClient.v
XattrTrace.v
XattrLimits.v
Snap.v
SnapTree.v
CapPool.v
Caps.v
CapsFlush.v
CapsRefs.v
CapsMsg.v
CapsInv.v
CapsSafe.v
CapsTrace.v
CapsAdd.v
CapsDemo.v
CapsEnd.v
CapsOps.v
CapsLimits.v
