(* ===== verification/Prelude.v ===== *)
(** * The Ceph kernel client: a verification development

    This library models parts of the Linux kernel client of the Ceph storage
    system (src/net/ceph, src/fs/ceph, src/include/linux/ceph and
    src/include/linux/crush) and proves what they compute.  The definitions are
    translated from the C sources function by function and keep their names; a
    loop is a Fixpoint of its own, named after what it does.

    ** The program and its parts

    The client receives maps from the monitors (the OSD map with its CRUSH map,
    the MDS map), decodes them from messages and keeps them up to date with
    incremental updates.  To reach the bytes of a file it computes the object
    they are stored in from the file layout, the placement group of the object
    from a string hash and the size of its pool, and the OSDs of the placement
    group from the CRUSH map: a hierarchy of buckets that a rule searches
    pseudo-randomly, retrying on collisions and on devices that are out.  The
    raw set becomes the acting set when OSDs that are down are removed, a
    primary is chosen and temporary mappings are applied.

    A request for an object is encoded in a message, registered under a
    transaction id and sent over the connection to its primary; when the map
    changes or a connection breaks it is mapped and sent again, until a reply
    ends it.  The messenger numbers messages, writes them to the socket as it
    takes them, keeps them until they are acknowledged, and checks those that
    arrive.

    The files, in the order in which they are compiled:
    - Prelude.v: machine integers, outcomes, arrays, automation.
    - Hash.v: crush/hash.c (Module CrushHash) and ceph_hash.c (Module StrHash).
    - Frag.v: ceph_frag.h and fs/ceph/ceph_frag.c, directory fragments.
    - Armor.v: armor.c, base64.
    - Crush.v: crush.h and crush.c, the structures of a CRUSH map.
    - Mapper.v: crush/mapper.c, all of it: the bucket algorithms, the two
      searches and the rule interpreter.  Its theorems are in PermChoose.v (the
      permutation cache), BucketChoose.v (the bucket algorithms), Firstn.v and
      Indep.v (what the searches return), CrushTotal.v (that they return) and
      CrushRule.v (the rules).
    - Wire.v: decode.h, decoders and encoders, with the monad of the decoders.
    - CrushDecode.v: crush_decode of osdmap.c.
    - RbTree.v: the searches and insertions the client codes on red-black trees.
    - OsdMap.v: osdmap.h and the three trees of an OSD map.
    - OsdMapDecode.v: the decoders of osdmap.c, to osdmap_apply_incremental.
    - OsdMapInv.v: the invariant of the OSD map.
    - PgMapping.v: from an object to its acting set (osdmap.c, osdmap.h,
      rados.h); PgActing.v: its theorems.
    - FileLayout.v: ceph_fs.c and ceph_calc_file_object_mapping.
    - PageList.v: pagelist.c and pagelist.h.
    - PageVec.v: pagevec.c.
    - MdsMap.v: fs/ceph/mdsmap.c and mdsmap.h.
    - MsgCursor.v: the messages and data cursors of messenger.c.
    - Msgr.v, MsgrIO.v, MsgrRead.v: the rest of messenger.c: connections,
      output, input.  Its theorems are in MsgrWrite.v (the bytes written),
      MsgrSession.v (two ends of a session) and MsgrLimits.v.
    - OsdReq.v: the requests of osd_client.c, msgpool.c and snapshot.c; their
      theorems are in OsdMsg.v (the message) and OsdFile.v (file extents).
    - OsdClient.v: the registry of requests and the sessions of osd_client.c;
      OsdReply.v: what the OSD client receives.  OsdRegistry.v is the registry
      without messages and maps and its invariant; OsdClientInv.v shows that the
      operations of OsdClient.v refine it, OsdSafe.v that replies are decoded
      inside the message, OsdHandlers.v that the handlers keep the invariant,
      OsdPlace.v that the placement code is what the client relies on (class
      [Placement]), OsdTrace.v what holds over any sequence of events, and
      OsdLimits.v what does not.
    - StateM.v: the state monad and its rules (weakest preconditions).
    - Buffer.v: buffer.c, on a store of buffers and strings that are freed.
    - VXattr.v: the virtual attributes of fs/ceph/xattr.c; Xattr.v: the rest of
      it, with what inode.c and caps.c do to the attributes.  XattrIndex.v is the
      order of names and the abstract list, XattrOps.v the operations on the
      tree, XattrBlob.v the way from the blob to the tree and back and the
      invariant, XattrRefine.v and XattrClient.v the operations against their
      specification, XattrTrace.v sequences of operations and other threads, and
      XattrLimits.v what they rely on.
    - Snap.v: the snapshot realms of fs/ceph/snap.c, their hierarchy, their
      contexts and the messages that change them; SnapTree.v: its theorems.
    - CapPool.v: the pool of cap structures of fs/ceph/caps.c, with its theorems.
    - Caps.v, CapsFlush.v, CapsRefs.v, CapsMsg.v: the rest of caps.c, with what
      inode.c, snap.c and mds_client.c do to caps: issue and release, checks and
      flushes, references, messages.  The attributes and the realms are
      interfaces (classes [CapXattrs] and [Realms]), the environment is the class
      [CapsEnv].  CapsInv.v is the invariant and the logic of programs that may
      run out of fuel, CapsSafe.v, CapsTrace.v and CapsAdd.v show that the
      operations keep it; CapsDemo.v joins the caps with the realms of Snap.v on
      a concrete client, CapsEnd.v shows that ceph_check_caps ends, CapsOps.v is
      about any sequence of operations, and CapsLimits.v about what they do not
      stand.

    ** How the code is modelled

    Integers are [Z]; every conversion and every operation that can wrap in C is
    written with [u8], [u16], [u32], [u64], [s32] or [s64].  A function returns
    an [outcome]: a value, an errno, or a fault (an access outside an object, a
    NULL dereference, a BUG_ON, a division by zero, an oversized shift).
    Memory that several functions share is passed explicitly: the scratch
    vector of crush_do_rule is one list in which [w], [o] and [c] are offsets,
    and the permutation caches are fields of the buckets of the map, which is
    returned changed.  Decoders are functions of a state (the position in the
    message, the number of allocations so far, the object being filled), so
    that what they have stored when they fail is still there.

    Code that is not in the repository is a parameter: the allocator
    ([kmalloc_ok], [page_cache_alloc]), the balancing of red-black trees (the
    class [RbOps] of RbTree.v, with the law that it keeps the order of the
    nodes, and an instance), the user copies, the random numbers, the page
    size, the socket, the checksum, and the callbacks of a connection (record
    [ConOps] of Msgr.v).

    Fuel appears where a loop of the source is not bounded by a counter: the
    retries of the CRUSH searches (CrushTotal.v proves that the height of the
    hierarchy plus the retry limits suffice, on every acyclic map), the copies
    of PageList.v and PageVec.v (one iteration copies a byte at least) and the
    tree descents of a bucket (one per bit).  The loops of caps.c that release a
    lock and start again have fuel for the rounds they need when other threads
    leave them alone (CapsEnd.v), and [retries] more.  Running out of it is a fault, so
    that a theorem that says a function returns says that the fuel suffices.

    ** What the theorems show

    - Placement (CrushRule.v, PgActing.v): the rules the tools generate put the
      replicas of a placement group on distinct devices in distinct failure
      domains, for every well-formed map and whatever the caches hold; the
      acting set is the up part of that set with the right primary; growing a
      pool moves objects only to the new placement group.
    - The searches (Firstn.v, Indep.v, CrushTotal.v): what they return is
      distinct, of the right type, below the bucket and not out; they
      terminate; the result does not depend on the permutation caches, because
      the lazily computed permutation equals the full one (PermChoose.v).
    - Decoding (Wire.v, CrushDecode.v, OsdMapInv.v, MdsMap.v): encoding and
      decoding are inverse; decoders stay inside the message; the maps they
      build, and the map after an update that fails half way, are well-formed;
      the trees implement finite maps.
    - Data (FileLayout.v, PageList.v, PageVec.v, Armor.v, Frag.v): the striping
      of a file is injective and its extents exact; appends and copies store
      the bytes they should and no others; base64 is inverse; fragments
      partition the hash space.
    - Messages (MsgCursor.v, MsgrWrite.v, MsgrSession.v): cursors walk over
      exactly the payload; whatever the socket takes at a time, the bytes on
      the wire are the frames due, in order; a session delivers each message
      once and in order over faults, and can always deliver what is left.
    - Requests (OsdMsg.v, OsdFile.v, OsdTrace.v): a request is encoded in the
      layout the OSDs expect and covers the file extent it is for; over any
      sequence of events the handlers of the OSD client return and no request
      with a session is forgotten; after a reset requests are sent again in
      order.  Lingering requests are outside this invariant: kick_requests
      loses them (OsdLimits.v).
    - Extended attributes (XattrTrace.v): while the client has the capability to
      change them, any sequence of operations, flushes and updates gives the
      results of an association list, and a flush sends its encoding; whatever
      arrives while the lock is free, an operation works on the attributes of
      one moment and uses no memory that was freed.
    - Snapshot realms (SnapTree.v): rebuilding a realm gives every realm below
      it the context of the snapshots that apply to it, newest first, and leaves
      the hierarchy as it is.
    - Capabilities (CapPool.v, CapsOps.v, CapsEnd.v): whoever has reserved a cap
      structure gets it; after any sequence of operations and of messages other
      than migrations, among other threads that keep the invariant and remove no
      caps, every bit that is in use is implemented by a cap of the inode, so that
      the client has not returned it to the MDS, and no assertion fails; corrupt
      messages change nothing; ceph_check_caps returns whatever the attempts to
      take locks give.
    - Each of these has limits, which are theorems as well: inputs on which the
      code leaves its objects or returns what its comments exclude.

    ** What is not modelled

    Locks, memory reclamation, debug output and the module glue are left out,
    as are the destructors that only free memory.  Of messenger.c, the parsing
    of addresses and the DNS resolver are left out; of osd_client.c, the events
    of watch and notify, the set-up and the authorizer callbacks.  Of snap.c,
    flush_snaps is left out, and the inodes that a trace queues cap snapshots for
    are recorded there, not handed on to CapsRefs.v.  Of caps.c, the waits are left
    out (ceph_get_caps is one round of its wait, fsync ends where it would wait),
    with the references on snap contexts, ceph_encode_dentry_release and the strings
    for debugging; migrations are modelled, but no theorem is about them, since
    they remove caps and may leave bits in use behind.

    Not modelled are the sessions and requests of mds_client.c with the parsing of
    replies, the monitor client (mon_client.c), authentication (auth*.c) and the
    object requests of rbd.c: each is a state machine of its own, which the parts
    above only meet through the interfaces that are parameters here.  Code that
    only binds the client to the VFS, the page cache or the crypto API (super.c,
    dir.c, file.c, addr.c, crypto.c, ...) has little to state without models of
    those. *)
From Stdlib Require Export ZArith Znumtheory Lia.
From stdpp Require Export base tactics numbers option list.
Export ListNotations.

#[global] Open Scope Z_scope.

(** ** Machine integers

    An integer of the C program is a [Z]; a conversion to a w-bit type is the
    corresponding function below, written wherever C converts or wraps. *)
Definition u8 (x : Z) : Z := x mod 2 ^ 8.
Definition u16 (x : Z) : Z := x mod 2 ^ 16.
Definition u32 (x : Z) : Z := x mod 2 ^ 32.
Definition u64 (x : Z) : Z := x mod 2 ^ 64.
Definition s32 (x : Z) : Z := (x + 2 ^ 31) mod 2 ^ 32 - 2 ^ 31.
Definition s64 (x : Z) : Z := (x + 2 ^ 63) mod 2 ^ 64 - 2 ^ 63.

(** ** Outcomes

    A C function either returns a value ([Ret]), returns a negative errno
    ([Err], the positive errno number), or leaves the defined behaviour of the
    program ([Fault]): an access outside its object, a NULL dereference, a
    BUG_ON that fires, a division by zero, an oversized shift, or a loop that
    does not end within the fuel given to it. *)
Inductive fault : Type :=
  | OutOfBounds
  | NullPointer
  | BugOn
  | DivByZero
  | BadShift
  | OutOfFuel.

Inductive outcome (A : Type) : Type :=
  | Ret (a : A)
  | Err (e : Z)
  | Fault (f : fault).
Arguments Ret {A} a.
Arguments Err {A} e.
Arguments Fault {A} f.

(** Sequencing; the computation comes first so that its type is known when
    the rest is elaborated. *)
Definition obind {A B} (m : outcome A) (k : A -> outcome B) : outcome B :=
  match m with
  | Ret a => k a
  | Err e => Err e
  | Fault f => Fault f
  end.

Declare Scope ceph_scope.
Delimit Scope ceph_scope with ceph.
Notation "m ≫= k" := (obind m k) : ceph_scope.
Notation "x ← m ; k" := (obind m (fun x => k))
  (at level 20, m at level 100, k at level 200, only parsing) : ceph_scope.
Notation "' x ← m ; k" := (obind m (fun x => k))
  (at level 20, x pattern, m at level 100, k at level 200, only parsing) : ceph_scope.
#[global] Open Scope ceph_scope.

#[global] Instance fault_eq_dec : EqDecision fault.
Proof. solve_decision. Defined.

(** errno numbers, as in the kernel's errno headers *)
Definition ENOENT : Z := 2.
Definition EIO : Z := 5.
Definition EAGAIN : Z := 11.
Definition ENOMEM : Z := 12.
Definition EFAULT : Z := 14.
Definition EEXIST : Z := 17.
Definition EINVAL : Z := 22.
Definition ENOSPC : Z := 28.
Definition ERANGE : Z := 34.

(** ** Arrays

    A C array is a list together with its bounds: an access outside faults. *)
Definition rd {A} (l : list A) (i : Z) : outcome A :=
  if i <? 0 then Fault OutOfBounds
  else match l !! Z.to_nat i with
       | Some v => Ret v
       | None => Fault OutOfBounds
       end.

Definition wr {A} (l : list A) (i : Z) (v : A) : outcome (list A) :=
  if (0 <=? i) && (i <? Z.of_nat (length l)) then Ret (<[Z.to_nat i := v]> l)
  else Fault OutOfBounds.

(** A pointer that may be NULL. *)
Definition deref {A} (p : option A) : outcome A :=
  match p with
  | Some v => Ret v
  | None => Fault NullPointer
  end.

Definition bug_on (b : bool) : outcome unit :=
  if b then Fault BugOn else Ret tt.

(** ** Records

    [r <| p := v |>] is the record [r] with the field [p] replaced.  A record
    declares its fields once, as an instance of [Eta]; the update of a field is
    found by abstracting its projection there. *)
Class Eta (R : Type) : Type := eta : R -> R.
Class Field {R E : Type} (p : R -> E) : Type := over : (E -> E) -> R -> R.
Arguments over {R E} p {_} f r.

Ltac solve_field :=
  lazymatch goal with
  | |- @Field ?R ?E ?p =>
      let i := constr:(_ : Eta R) in
      let e := eval hnf in i in
      lazymatch eval pattern p in e with
      | ?F _ => let u := eval cbv beta in (fun f : E -> E => F (fun r => f (p r))) in exact u
      end
  end.
#[global] Hint Extern 1 (Field _) => solve_field : typeclass_instances.

Notation "r <| p ::= f |>" := (over p f r) (at level 1, f at level 99, left associativity) : ceph_scope.
Notation "r <| p := v |>" := (over p (fun _ => v) r) (at level 1, v at level 99, left associativity) : ceph_scope.

(** ** Automation *)
Create HintDb ceph discriminated.

Lemma bind_Ret {A B} (m : outcome A) (k : A -> outcome B) b :
  m ≫= k = Ret b <-> exists a, m = Ret a /\ k a = Ret b.
Proof. destruct m; cbn; naive_solver. Qed.

Lemma bind_Ret_eq {A B} (a : A) (k : A -> outcome B) : Ret a ≫= k = k a.
Proof. done. Qed.

(** [inv_outcome] decomposes every hypothesis that says a sequence of monadic
    steps returned a value. *)
Ltac inv_outcome_step :=
  match goal with
  | H : Ret _ = Ret _ |- _ => injection H as H; subst
  | H : Ret _ = Fault _ |- _ => discriminate H
  | H : Ret _ = Err _ |- _ => discriminate H
  | H : Fault _ = Ret _ |- _ => discriminate H
  | H : Err _ = Ret _ |- _ => discriminate H
  | H : _ ≫= _ = Ret _ |- _ =>
      let a := fresh "a" in let H1 := fresh "E" in
      apply bind_Ret in H; destruct H as (a & H1 & H)
  | H : _ /\ _ |- _ => destruct H
  | H : exists _, _ |- _ => destruct H
  | x : _ * _ |- _ => destruct x
  | x : unit |- _ => destruct x
  | H : (_, _) = (_, _) |- _ => injection H as H; subst
  end.
Ltac inv_outcome := repeat (inv_outcome_step; cbn beta iota in *).

(** [case_Zb] splits on the boolean comparisons of the goal. *)
Ltac case_Zb :=
  match goal with
  | |- context [?a =? ?b] => destruct (Z.eqb_spec a b)
  | |- context [?a <? ?b] => destruct (Z.ltb_spec a b)
  | |- context [?a <=? ?b] => destruct (Z.leb_spec a b)
  | H : context [?a =? ?b] |- _ => destruct (Z.eqb_spec a b)
  | H : context [?a <? ?b] |- _ => destruct (Z.ltb_spec a b)
  | H : context [?a <=? ?b] |- _ => destruct (Z.leb_spec a b)
  end; cbn [andb orb negb] in *.

(** ** Integers *)
Lemma u8_range x : 0 <= u8 x < 2 ^ 8.
Proof. apply Z.mod_pos_bound. lia. Qed.
Lemma u16_range x : 0 <= u16 x < 2 ^ 16.
Proof. apply Z.mod_pos_bound. lia. Qed.
Lemma u32_range x : 0 <= u32 x < 2 ^ 32.
Proof. apply Z.mod_pos_bound. lia. Qed.
Lemma u64_range x : 0 <= u64 x < 2 ^ 64.
Proof. apply Z.mod_pos_bound. lia. Qed.
Lemma s32_range x : - 2 ^ 31 <= s32 x < 2 ^ 31.
Proof. unfold s32. pose proof (Z.mod_pos_bound (x + 2 ^ 31) (2 ^ 32)). lia. Qed.

Lemma u8_small x : 0 <= x < 2 ^ 8 -> u8 x = x.
Proof. apply Z.mod_small. Qed.
Lemma u16_small x : 0 <= x < 2 ^ 16 -> u16 x = x.
Proof. apply Z.mod_small. Qed.
Lemma u32_small x : 0 <= x < 2 ^ 32 -> u32 x = x.
Proof. apply Z.mod_small. Qed.
Lemma u64_small x : 0 <= x < 2 ^ 64 -> u64 x = x.
Proof. apply Z.mod_small. Qed.
Lemma s32_small x : - 2 ^ 31 <= x < 2 ^ 31 -> s32 x = x.
Proof. intros. unfold s32. rewrite Z.mod_small; lia. Qed.
Lemma s64_small x : - 2 ^ 63 <= x < 2 ^ 63 -> s64 x = x.
Proof. intros. unfold s64. rewrite Z.mod_small; lia. Qed.

Lemma u32_idem x : u32 (u32 x) = u32 x.
Proof. apply u32_small, u32_range. Qed.

#[export] Hint Resolve u8_range u16_range u32_range u64_range s32_range : ceph.

Lemma land_ones_range a n : 0 <= n -> 0 <= Z.land a (Z.ones n) < 2 ^ n.
Proof. intros. rewrite Z.land_ones by done. apply Z.mod_pos_bound. lia. Qed.

Lemma testbit_high a n i : 0 <= a < 2 ^ n -> n <= i -> Z.testbit a i = false.
Proof.
  intros [Ha Hn] Hi.
  destruct (decide (a = 0)) as [->|]; [apply Z.bits_0|].
  assert (0 <= n) by (destruct (Z.le_gt_cases 0 n); [done|rewrite Z.pow_neg_r in Hn; lia]).
  apply Z.bits_above_log2; [done|].
  assert (Z.log2 a < n) by (apply Z.log2_lt_pow2; lia). lia.
Qed.

Lemma lor_range a b n : 0 <= n -> 0 <= a < 2 ^ n -> 0 <= b < 2 ^ n -> 0 <= Z.lor a b < 2 ^ n.
Proof.
  intros Hn Ha Hb. split; [apply Z.lor_nonneg; lia|].
  destruct (decide (Z.lor a b = 0)) as [->|]; [lia|].
  assert (0 <= Z.lor a b) by (apply Z.lor_nonneg; lia).
  apply Z.log2_lt_pow2; [lia|]. rewrite Z.log2_lor by lia.
  apply Z.max_lub_lt.
  - destruct (decide (a = 0)) as [->|]; [destruct (decide (n = 0)) as [->|]; cbn; try lia|].
    + assert (b = 0) by lia. subst. by cbn in *.
    + apply Z.log2_lt_pow2; lia.
  - destruct (decide (b = 0)) as [->|]; [destruct (decide (n = 0)) as [->|]; cbn; try lia|].
    + assert (a = 0) by lia. subst. by cbn in *.
    + apply Z.log2_lt_pow2; lia.
Qed.

Lemma lxor_range a b n : 0 <= n -> 0 <= a < 2 ^ n -> 0 <= b < 2 ^ n -> 0 <= Z.lxor a b < 2 ^ n.
Proof.
  intros Hn Ha Hb. assert (Hx : 0 <= Z.lxor a b) by (apply Z.lxor_nonneg; lia).
  split; [done|]. rewrite <- (Z.mod_small a (2 ^ n)), <- (Z.mod_small b (2 ^ n)) by done.
  rewrite <- !Z.land_ones by done.
  replace (Z.lxor _ _) with (Z.land (Z.lxor a b) (Z.ones n)).
  - rewrite Z.land_ones by done. apply Z.mod_pos_bound. lia.
  - apply Z.bits_inj'. intros i Hi. rewrite ?Z.land_spec, ?Z.lxor_spec, ?Z.land_spec.
    destruct (Z.testbit a i), (Z.testbit b i), (Z.testbit (Z.ones n) i); done.
Qed.

Lemma lor_disjoint a b n : 0 <= n -> 0 <= b < 2 ^ n -> Z.lor (a * 2 ^ n) b = a * 2 ^ n + b.
Proof.
  intros Hn Hb. symmetry. apply Z.add_nocarry_lor.
  apply Z.bits_inj'. intros i Hi. rewrite Z.land_spec, Z.bits_0, <- Z.shiftl_mul_pow2 by done.
  destruct (Z.lt_ge_cases i n).
  - by rewrite Z.shiftl_spec_low by done.
  - rewrite (testbit_high b n) by lia. apply andb_false_r.
Qed.

Lemma pow2_succ n : 0 < n -> 2 ^ n = 2 * 2 ^ (n - 1).
Proof. intros. rewrite <- Z.pow_succ_r by lia. f_equal. lia. Qed.

(** ** Arrays: laws of [rd] and [wr] *)
Section Arrays.
Context {A : Type}.
Implicit Types (l : list A) (i : Z) (v : A).

Lemma rd_Ret l i v :
  rd l i = Ret v <-> 0 <= i /\ l !! Z.to_nat i = Some v.
Proof.
  unfold rd. case_Zb; [naive_solver lia|].
  destruct (l !! Z.to_nat i); naive_solver.
Qed.

Lemma rd_range l i v : rd l i = Ret v -> 0 <= i < Z.of_nat (length l).
Proof. rewrite rd_Ret. intros [? H%lookup_lt_Some]. lia. Qed.

Lemma rd_total l i : 0 <= i < Z.of_nat (length l) -> exists v, rd l i = Ret v.
Proof.
  intros Hi. destruct (lookup_lt_is_Some_2 l (Z.to_nat i)) as [v Hv]; [lia|].
  exists v. apply rd_Ret. split; [lia|done].
Qed.

Lemma rd_elem l i v : rd l i = Ret v -> v ∈ l.
Proof. rewrite rd_Ret. intros [_ H]. by eapply list_elem_of_lookup_2. Qed.

Lemma wr_Ret l i v l' :
  wr l i v = Ret l' <-> 0 <= i < Z.of_nat (length l) /\ l' = <[Z.to_nat i := v]> l.
Proof. unfold wr. repeat case_Zb; naive_solver lia. Qed.

Lemma wr_total l i v :
  0 <= i < Z.of_nat (length l) -> wr l i v = Ret (<[Z.to_nat i := v]> l).
Proof. intros. by apply wr_Ret. Qed.

Lemma wr_length l i v l' : wr l i v = Ret l' -> length l' = length l.
Proof. rewrite wr_Ret. intros [_ ->]. apply length_insert. Qed.

Lemma rd_wr_eq l i v l' : wr l i v = Ret l' -> rd l' i = Ret v.
Proof.
  rewrite wr_Ret. intros [Hi ->]. apply rd_Ret. split; [lia|].
  apply list_lookup_insert_eq. lia.
Qed.

Lemma rd_wr_ne l i j v l' : wr l i v = Ret l' -> i <> j -> rd l' j = rd l j.
Proof.
  rewrite wr_Ret. intros [Hi ->] Hne. unfold rd. case_Zb; [done|].
  rewrite list_lookup_insert_ne by lia. done.
Qed.

Lemma rd_insert_ne l i j v : 0 <= i -> i <> j -> rd (<[Z.to_nat i := v]> l) j = rd l j.
Proof. intros. unfold rd. case_Zb; [done|]. by rewrite list_lookup_insert_ne by lia. Qed.

Lemma rd_insert_eq l i v :
  0 <= i < Z.of_nat (length l) -> rd (<[Z.to_nat i := v]> l) i = Ret v.
Proof. intros. apply rd_Ret. split; [lia|]. apply list_lookup_insert_eq. lia. Qed.

End Arrays.

Lemma rd_app_l {A} (l k : list A) i :
  i < Z.of_nat (length l) -> rd (l ++ k) i = rd l i.
Proof.
  intros. unfold rd. case_Zb; [done|]. rewrite lookup_app_l by lia. done.
Qed.

(** Access right after a prefix. *)
Lemma rd_at {A} (l k : list A) i v : i = Z.of_nat (length l) -> rd (l ++ v :: k) i = Ret v.
Proof. intros ->. apply rd_Ret. split; [lia|]. rewrite Nat2Z.id. by apply list_lookup_middle. Qed.

Lemma wr_at {A} (l k : list A) i v w :
  i = Z.of_nat (length l) -> wr (l ++ v :: k) i w = Ret (l ++ w :: k).
Proof.
  intros ->. rewrite wr_total by (rewrite length_app; cbn; lia). rewrite Nat2Z.id.
  by rewrite insert_app_r_alt, Nat.sub_diag by lia.
Qed.

(** The [n] entries of an array from [base] on. *)
Definition slice {A} (l : list A) (base n : Z) : list A :=
  take (Z.to_nat n) (drop (Z.to_nat base) l).

Section Slice.
Context {A : Type}.
Implicit Types (l : list A) (base n : Z).

Lemma slice_lookup l base n i v :
  0 <= base -> slice l base n !! i = Some v <->
  Z.of_nat i < n /\ rd l (base + Z.of_nat i) = Ret v.
Proof.
  intros Hb. unfold slice. rewrite lookup_take_Some, lookup_drop, rd_Ret.
  replace (Z.to_nat (base + Z.of_nat i)) with (Z.to_nat base + i)%nat by lia. naive_solver lia.
Qed.

(** A slice whose entries can all be read has [n] of them. *)
Lemma slice_length l base n :
  (forall i, 0 <= i < n -> exists v, rd l (base + i) = Ret v) ->
  length (slice l base n) = Z.to_nat n.
Proof.
  intros H. unfold slice. rewrite length_take, length_drop.
  destruct (Z.le_gt_cases n 0); [lia|].
  destruct (H (n - 1)) as [v Hv%rd_range]; [lia|]. destruct (H 0) as [w Hw%rd_range]; lia.
Qed.

Lemma slice_base l base n :
  (forall i, 0 <= i < n -> exists v, rd l (base + i) = Ret v) -> 0 <= base \/ n <= 0.
Proof.
  intros H. destruct (Z.le_gt_cases n 0); [by right|]. left.
  destruct (H 0) as [v Hv%rd_range]; lia.
Qed.

Lemma slice_insert_first l base n v :
  0 <= base < Z.of_nat (length l) -> 0 < n ->
  slice (<[Z.to_nat base := v]> l) base n = v :: slice l (base + 1) (n - 1).
Proof.
  intros Hb Hn. unfold slice. replace (Z.to_nat n) with (S (Z.to_nat (n - 1))) by lia.
  rewrite insert_take_drop by lia. rewrite drop_app_length' by (rewrite length_take; lia). cbn.
  do 3 f_equal. lia.
Qed.

Lemma slice_nil l base n : n <= 0 -> slice l base n = [].
Proof. intros. unfold slice. by replace (Z.to_nat n) with 0%nat by lia. Qed.

Lemma slice_ext l k b1 b2 n :
  0 <= b1 -> 0 <= b2 -> (forall i, 0 <= i < n -> rd l (b1 + i) = rd k (b2 + i)) ->
  slice l b1 n = slice k b2 n.
Proof.
  intros H1 H2 H. apply list_eq. intros i. apply option_eq. intros v. rewrite !slice_lookup by done.
  split; intros [Hi Hv]; (split; [done|]); [rewrite <- H|rewrite H]; (done || lia).
Qed.

Lemma slice_Forall (P : A -> Prop) l base n :
  (forall i, 0 <= i < n -> exists v, rd l (base + i) = Ret v /\ P v) -> Forall P (slice l base n).
Proof.
  intros H. destruct (slice_base l base n) as [Hb|Hn]; [naive_solver| |by rewrite slice_nil].
  apply Forall_lookup. intros i v. rewrite slice_lookup by done. intros [Hi Hv].
  destruct (H (Z.of_nat i)) as (w & Hw & HP); [lia|]. congruence.
Qed.

Lemma slice_NoDup l base n :
  (forall i, 0 <= i < n -> exists v, rd l (base + i) = Ret v /\
     forall j, 0 <= j < i -> rd l (base + j) <> Ret v) -> NoDup (slice l base n).
Proof.
  intros H. destruct (slice_base l base n) as [Hb|Hn];
    [intros i Hi; destruct (H i Hi) as (v & ? & _); eauto| |rewrite slice_nil by done; constructor].
  apply NoDup_alt. intros i j v. rewrite !slice_lookup by done. intros [Hi Hvi] [Hj Hvj].
  destruct (decide (i = j)) as [->|Hne]; [done|exfalso].
  destruct (H (Z.of_nat i)) as (w & Hw & Hfi); [lia|].
  destruct (H (Z.of_nat j)) as (w' & Hw' & Hfj); [lia|].
  assert (w = v /\ w' = v) as [-> ->] by (split; congruence).
  destruct (decide (i < j)%nat); [apply (Hfj (Z.of_nat i))|apply (Hfi (Z.of_nat j))]; (done || lia).
Qed.

Lemma slice_Forall2 (P : A -> A -> Prop) l b1 b2 n :
  (forall i, 0 <= i < n -> exists v w, rd l (b1 + i) = Ret v /\ rd l (b2 + i) = Ret w /\ P v w) ->
  Forall2 P (slice l b1 n) (slice l b2 n).
Proof.
  intros H.
  assert (H1 : forall i, 0 <= i < n -> exists v, rd l (b1 + i) = Ret v) by naive_solver.
  assert (H2 : forall i, 0 <= i < n -> exists v, rd l (b2 + i) = Ret v) by naive_solver.
  destruct (slice_base l b1 n H1) as [Hb1|Hn]; [|by rewrite !slice_nil].
  destruct (slice_base l b2 n H2) as [Hb2|Hn]; [|by rewrite !slice_nil].
  apply Forall2_same_length_lookup_2; [by rewrite !slice_length|].
  intros i v w. rewrite !slice_lookup by done. intros [Hi Hv] [_ Hw].
  destruct (H (Z.of_nat i)) as (v' & w' & Hv' & Hw' & HP); [lia|]. congruence.
Qed.

End Slice.
