(* ===== verification/Hash.v ===== *)
(** * Hash functions

    [Module CrushHash] models net/ceph/crush/hash.c (Robert Jenkins' 32-bit
    mix and the five-arity family built from it), [Module StrHash] models
    net/ceph/ceph_hash.c (the string hashes used to map object names to
    placement groups and names to directory fragments). *)
From S2P Require Import Prelude.

Module CrushHash.

Definition CRUSH_HASH_RJENKINS1 : Z := 0.
Definition crush_hash_seed : Z := 1315423911.

(** One assignment [a = a-b; a = a-c; a = a^(c>>n)] of the macro, and the
    variant that shifts left. *)
Definition mix_right (n a b c : Z) : Z :=
  Z.lxor (u32 (u32 (a - b) - c)) (Z.shiftr c n).
Definition mix_left (n a b c : Z) : Z :=
  Z.lxor (u32 (u32 (a - b) - c)) (u32 (Z.shiftl c n)).

Definition crush_hashmix (a b c : Z) : Z * Z * Z :=
  let a := mix_right 13 a b c in
  let b := mix_left 8 b c a in
  let c := mix_right 13 c a b in
  let a := mix_right 12 a b c in
  let b := mix_left 16 b c a in
  let c := mix_right 5 c a b in
  let a := mix_right 3 a b c in
  let b := mix_left 10 b c a in
  let c := mix_right 15 c a b in
  (a, b, c).

Definition crush_hash32_rjenkins1 (a : Z) : Z :=
  let a := u32 a in
  let hash := Z.lxor crush_hash_seed a in
  let b := a in
  let x := 231232 in
  let y := 1232 in
  let '(b, x, hash) := crush_hashmix b x hash in
  let '(y, a, hash) := crush_hashmix y a hash in
  hash.

Definition crush_hash32_rjenkins1_2 (a b : Z) : Z :=
  let a := u32 a in
  let b := u32 b in
  let hash := Z.lxor (Z.lxor crush_hash_seed a) b in
  let x := 231232 in
  let y := 1232 in
  let '(a, b, hash) := crush_hashmix a b hash in
  let '(x, a, hash) := crush_hashmix x a hash in
  let '(b, y, hash) := crush_hashmix b y hash in
  hash.

Definition crush_hash32_rjenkins1_3 (a b c : Z) : Z :=
  let a := u32 a in
  let b := u32 b in
  let c := u32 c in
  let hash := Z.lxor (Z.lxor (Z.lxor crush_hash_seed a) b) c in
  let x := 231232 in
  let y := 1232 in
  let '(a, b, hash) := crush_hashmix a b hash in
  let '(c, x, hash) := crush_hashmix c x hash in
  let '(y, a, hash) := crush_hashmix y a hash in
  let '(b, x, hash) := crush_hashmix b x hash in
  let '(y, c, hash) := crush_hashmix y c hash in
  hash.

Definition crush_hash32_rjenkins1_4 (a b c d : Z) : Z :=
  let a := u32 a in
  let b := u32 b in
  let c := u32 c in
  let d := u32 d in
  let hash := Z.lxor (Z.lxor (Z.lxor (Z.lxor crush_hash_seed a) b) c) d in
  let x := 231232 in
  let y := 1232 in
  let '(a, b, hash) := crush_hashmix a b hash in
  let '(c, d, hash) := crush_hashmix c d hash in
  let '(a, x, hash) := crush_hashmix a x hash in
  let '(y, b, hash) := crush_hashmix y b hash in
  let '(c, x, hash) := crush_hashmix c x hash in
  let '(y, d, hash) := crush_hashmix y d hash in
  hash.

Definition crush_hash32_rjenkins1_5 (a b c d e : Z) : Z :=
  let a := u32 a in
  let b := u32 b in
  let c := u32 c in
  let d := u32 d in
  let e := u32 e in
  let hash :=
    Z.lxor (Z.lxor (Z.lxor (Z.lxor (Z.lxor crush_hash_seed a) b) c) d) e in
  let x := 231232 in
  let y := 1232 in
  let '(a, b, hash) := crush_hashmix a b hash in
  let '(c, d, hash) := crush_hashmix c d hash in
  let '(e, x, hash) := crush_hashmix e x hash in
  let '(y, a, hash) := crush_hashmix y a hash in
  let '(b, x, hash) := crush_hashmix b x hash in
  let '(y, c, hash) := crush_hashmix y c hash in
  let '(d, x, hash) := crush_hashmix d x hash in
  let '(y, e, hash) := crush_hashmix y e hash in
  hash.

Definition crush_hash32 (type a : Z) : Z :=
  if type =? CRUSH_HASH_RJENKINS1 then crush_hash32_rjenkins1 a else 0.

Definition crush_hash32_2 (type a b : Z) : Z :=
  if type =? CRUSH_HASH_RJENKINS1 then crush_hash32_rjenkins1_2 a b else 0.

Definition crush_hash32_3 (type a b c : Z) : Z :=
  if type =? CRUSH_HASH_RJENKINS1 then crush_hash32_rjenkins1_3 a b c else 0.

Definition crush_hash32_4 (type a b c d : Z) : Z :=
  if type =? CRUSH_HASH_RJENKINS1 then crush_hash32_rjenkins1_4 a b c d else 0.

Definition crush_hash32_5 (type a b c d e : Z) : Z :=
  if type =? CRUSH_HASH_RJENKINS1 then crush_hash32_rjenkins1_5 a b c d e else 0.

(** The inverse of the mix: the assignments undone in reverse order. *)
Definition unmix_right (n a b c : Z) : Z :=
  u32 (u32 (Z.lxor a (Z.shiftr c n) + c) + b).
Definition unmix_left (n a b c : Z) : Z :=
  u32 (u32 (Z.lxor a (u32 (Z.shiftl c n)) + c) + b).

Definition crush_hashunmix (a b c : Z) : Z * Z * Z :=
  let c := unmix_right 15 c a b in
  let b := unmix_left 10 b c a in
  let a := unmix_right 3 a b c in
  let c := unmix_right 5 c a b in
  let b := unmix_left 16 b c a in
  let a := unmix_right 12 a b c in
  let c := unmix_right 13 c a b in
  let b := unmix_left 8 b c a in
  let a := unmix_right 13 a b c in
  (a, b, c).

End CrushHash.

Module StrHash.

Definition CEPH_STR_HASH_LINUX : Z := 1.
Definition CEPH_STR_HASH_RJENKINS : Z := 2.

(** The macro [mix] of ceph_hash.c has the body of [crush_hashmix]. *)
Definition mix (a b c : Z) : Z * Z * Z :=
  let a := CrushHash.mix_right 13 a b c in
  let b := CrushHash.mix_left 8 b c a in
  let c := CrushHash.mix_right 13 c a b in
  let a := CrushHash.mix_right 12 a b c in
  let b := CrushHash.mix_left 16 b c a in
  let c := CrushHash.mix_right 5 c a b in
  let a := CrushHash.mix_right 3 a b c in
  let b := CrushHash.mix_left 10 b c a in
  let c := CrushHash.mix_right 15 c a b in
  (a, b, c).

(** [x + (k[i] + (k[i+1] << 8) + (k[i+2] << 16) + (k[i+3] << 24))] *)
Definition add_word (str : list Z) (i x : Z) : outcome Z :=
  k0 ← rd str i;
  k1 ← rd str (i + 1);
  k2 ← rd str (i + 2);
  k3 ← rd str (i + 3);
  Ret (u32 (x + u32 (u32 (u32 (k0 + u32 (Z.shiftl k1 8)) + u32 (Z.shiftl k2 16))
                     + u32 (Z.shiftl k3 24)))).

(** The loop [while (len >= 12)]: it runs [len / 12] times. *)
Fixpoint rjenkins_loop (n : nat) (str : list Z) (k a b c : Z) : outcome (Z * Z * Z * Z) :=
  match n with
  | O => Ret (k, a, b, c)
  | S n =>
      a ← add_word str k a;
      b ← add_word str (k + 4) b;
      c ← add_word str (k + 8) c;
      let '(a, b, c) := mix a b c in
      rjenkins_loop n str (k + 12) a b c
  end.

(** One case of the fall-through switch: [x + (k[i] << sh)], done when
    more than [i] bytes are left. *)
Definition add_tail (str : list Z) (k len i sh x : Z) : outcome Z :=
  if i <? len then v ← rd str (k + i); Ret (u32 (x + u32 (Z.shiftl v sh)))
  else Ret x.

Definition ceph_str_hash_rjenkins (str : list Z) (length : Z) : outcome Z :=
  let length := u32 length in
  let a := 0x9e3779b9 in
  let b := a in
  let c := 0 in
  '(k, a, b, c) ← rjenkins_loop (Z.to_nat (length / 12)) str 0 a b c;
  let len := length mod 12 in
  let c := u32 (c + length) in
  c ← add_tail str k len 10 24 c;
  c ← add_tail str k len 9 16 c;
  c ← add_tail str k len 8 8 c;
  b ← add_tail str k len 7 24 b;
  b ← add_tail str k len 6 16 b;
  b ← add_tail str k len 5 8 b;
  b ← add_tail str k len 4 0 b;
  a ← add_tail str k len 3 24 a;
  a ← add_tail str k len 2 16 a;
  a ← add_tail str k len 1 8 a;
  a ← add_tail str k len 0 0 a;
  let '(a, b, c) := mix a b c in
  Ret c.

(** The loop [while (length--)]; [hash] is an [unsigned long] of [w] bits. *)
Fixpoint linux_loop (w : Z) (n : nat) (str : list Z) (i hash : Z) : outcome Z :=
  match n with
  | O => Ret hash
  | S n =>
      c ← rd str i;
      linux_loop w n str (i + 1)
        (((hash + Z.shiftl c 4 + Z.shiftr c 4) * 11) mod 2 ^ w)
  end.

Definition ceph_str_hash_linux_at (w : Z) (str : list Z) (length : Z) : outcome Z :=
  hash ← linux_loop w (Z.to_nat (u32 length)) str 0 0;
  Ret (u32 hash).

(** On the LP64 kernels the driver targets, [unsigned long] has 64 bits. *)
Definition ceph_str_hash_linux (str : list Z) (length : Z) : outcome Z :=
  ceph_str_hash_linux_at 64 str length.

Definition ceph_str_hash (type : Z) (s : list Z) (len : Z) : outcome Z :=
  if type =? CEPH_STR_HASH_LINUX then ceph_str_hash_linux s len
  else if type =? CEPH_STR_HASH_RJENKINS then ceph_str_hash_rjenkins s len
  else Ret (u32 (-1)).

End StrHash.

(** ** Facts about the mix *)
Import CrushHash.

Lemma lxor_cancel a b : Z.lxor (Z.lxor a b) b = a.
Proof. by rewrite Z.lxor_assoc, Z.lxor_nilpotent, Z.lxor_0_r. Qed.

Lemma u32_sub_add a b c : 0 <= a < 2 ^ 32 -> u32 (u32 (u32 (u32 (a - b) - c) + c) + b) = a.
Proof.
  intros Ha. unfold u32.
  rewrite Zplus_mod_idemp_l, Zminus_mod_idemp_l, <- Z.add_assoc, Zplus_mod_idemp_l.
  replace (a - b - c + (c + b)) with a by lia. by apply Z.mod_small.
Qed.

Lemma unmix_right_mix n a b c :
  0 <= a < 2 ^ 32 -> unmix_right n (mix_right n a b c) b c = a.
Proof. intros. unfold unmix_right, mix_right. rewrite lxor_cancel. by apply u32_sub_add. Qed.

Lemma unmix_left_mix n a b c :
  0 <= a < 2 ^ 32 -> unmix_left n (mix_left n a b c) b c = a.
Proof. intros. unfold unmix_left, mix_left. rewrite lxor_cancel. by apply u32_sub_add. Qed.

Lemma mix_right_range n a b c : 0 <= n -> 0 <= c < 2 ^ 32 -> 0 <= mix_right n a b c < 2 ^ 32.
Proof.
  intros Hn Hc. apply lxor_range; [lia|apply u32_range|].
  rewrite Z.shiftr_div_pow2 by done. split; [apply Z.div_pos; lia|].
  apply Z.le_lt_trans with c; [|lia]. apply Z.div_le_upper_bound; [lia|nia].
Qed.

Lemma mix_left_range n a b c : 0 <= mix_left n a b c < 2 ^ 32.
Proof. apply lxor_range; [lia|apply u32_range..]. Qed.

#[export] Hint Resolve mix_left_range : ceph.
#[export] Hint Extern 2 (0 <= mix_right _ _ _ _ < _) =>
  apply mix_right_range; [lia|] : ceph.

Lemma crush_hashmix_range a b c a' b' c' :
  0 <= b < 2 ^ 32 -> 0 <= c < 2 ^ 32 -> crush_hashmix a b c = (a', b', c') ->
  0 <= a' < 2 ^ 32 /\ 0 <= b' < 2 ^ 32 /\ 0 <= c' < 2 ^ 32.
Proof.
  unfold crush_hashmix. intros Hb Hc [= <- <- <-]. split; [|split]; eauto 20 with ceph.
Qed.

Lemma crush_hashmix_third_range a b c :
  0 <= snd (crush_hashmix a b c) < 2 ^ 32.
Proof. unfold crush_hashmix. cbn [snd]. eauto 20 with ceph. Qed.

(** The last word of every hash is the third word of a mix. *)
Ltac hash_range :=
  repeat match goal with
  | |- context [match crush_hashmix ?a ?b ?c with _ => _ end] =>
      let H := fresh "H" in
      pose proof (crush_hashmix_third_range a b c) as H;
      destruct (crush_hashmix a b c) as [[? ?] ?]; cbn [snd] in H
  end; done.

Section HashRange.
#[local] Opaque crush_hashmix.

Lemma crush_hash32_2_range t a b : 0 <= crush_hash32_2 t a b < 2 ^ 32.
Proof. unfold crush_hash32_2. case_Zb; [unfold crush_hash32_rjenkins1_2; hash_range|lia]. Qed.

Lemma crush_hash32_3_range t a b c : 0 <= crush_hash32_3 t a b c < 2 ^ 32.
Proof. unfold crush_hash32_3. case_Zb; [unfold crush_hash32_rjenkins1_3; hash_range|lia]. Qed.

Lemma crush_hash32_4_range t a b c d : 0 <= crush_hash32_4 t a b c d < 2 ^ 32.
Proof. unfold crush_hash32_4. case_Zb; [unfold crush_hash32_rjenkins1_4; hash_range|lia]. Qed.

End HashRange.

(** The mix is three rounds of the same shape; each is invertible. *)
Definition mix_round (i j k : Z) (t : Z * Z * Z) : Z * Z * Z :=
  let '(a, b, c) := t in
  let a := mix_right i a b c in
  let b := mix_left j b c a in
  let c := mix_right k c a b in
  (a, b, c).

Definition unmix_round (i j k : Z) (t : Z * Z * Z) : Z * Z * Z :=
  let '(a, b, c) := t in
  let c := unmix_right k c a b in
  let b := unmix_left j b c a in
  let a := unmix_right i a b c in
  (a, b, c).

Definition words (t : Z * Z * Z) : Prop :=
  let '(a, b, c) := t in 0 <= a < 2 ^ 32 /\ 0 <= b < 2 ^ 32 /\ 0 <= c < 2 ^ 32.

Lemma mix_round_words i j k t :
  0 <= i -> 0 <= k -> words t -> words (mix_round i j k t).
Proof.
  destruct t as [[a b] c]. cbn. intros Hi Hk (Ha & Hb & Hc).
  split; [by apply mix_right_range|]. split; [apply mix_left_range|].
  apply mix_right_range; [done|apply mix_left_range].
Qed.

Lemma unmix_round_mix i j k t : words t -> unmix_round i j k (mix_round i j k t) = t.
Proof.
  destruct t as [[a b] c]. cbn. intros (Ha & Hb & Hc).
  by rewrite unmix_right_mix, unmix_left_mix, unmix_right_mix by done.
Qed.

Lemma crush_hashmix_rounds a b c :
  crush_hashmix a b c =
  mix_round 3 10 15 (mix_round 12 16 5 (mix_round 13 8 13 (a, b, c))).
Proof. reflexivity. Qed.

Lemma crush_hashunmix_rounds a b c :
  crush_hashunmix a b c =
  unmix_round 13 8 13 (unmix_round 12 16 5 (unmix_round 3 10 15 (a, b, c))).
Proof. reflexivity. Qed.

(** ** Facts about the string hashes *)
Import StrHash.

Section Prefix.
Context (s junk : list Z).
Let n := Z.of_nat (length s).

Lemma add_word_prefix i x :
  0 <= i -> i + 4 <= n ->
  exists v, add_word (s ++ junk) i x = Ret v /\ add_word s i x = Ret v.
Proof.
  intros. unfold add_word. rewrite !rd_app_l by lia.
  destruct (rd_total s i) as [v0 ->]; [lia|].
  destruct (rd_total s (i + 1)) as [v1 ->]; [lia|].
  destruct (rd_total s (i + 2)) as [v2 ->]; [lia|].
  destruct (rd_total s (i + 3)) as [v3 ->]; [lia|].
  cbn. eauto.
Qed.

Lemma add_tail_prefix k len i sh x :
  0 <= k -> 0 <= i -> k + len <= n ->
  exists v, add_tail (s ++ junk) k len i sh x = Ret v /\ add_tail s k len i sh x = Ret v.
Proof.
  intros. unfold add_tail. case_Zb; [|eauto]. rewrite rd_app_l by lia.
  destruct (rd_total s (k + i)) as [v ->]; [lia|]. cbn. eauto.
Qed.

Lemma rjenkins_loop_prefix m k a b c :
  0 <= k -> k + 12 * Z.of_nat m <= n ->
  exists a' b' c',
    rjenkins_loop m (s ++ junk) k a b c = Ret (k + 12 * Z.of_nat m, a', b', c') /\
    rjenkins_loop m s k a b c = Ret (k + 12 * Z.of_nat m, a', b', c').
Proof.
  revert k a b c. induction m as [|m IH]; intros k a b c Hk Hn.
  { exists a, b, c. by rewrite Z.mul_0_r, Z.add_0_r. }
  cbn [rjenkins_loop].
  destruct (add_word_prefix k a) as (a1 & -> & ->); [lia..|]. cbn.
  destruct (add_word_prefix (k + 4) b) as (b1 & -> & ->); [lia..|]. cbn.
  destruct (add_word_prefix (k + 8) c) as (c1 & -> & ->); [lia..|].
  rewrite !bind_Ret_eq. destruct (mix a1 b1 c1) as [[a2 b2] c2].
  replace (k + 12 * Z.of_nat (S m)) with (k + 12 + 12 * Z.of_nat m) by lia.
  apply IH; lia.
Qed.

Lemma linux_loop_prefix w m i h :
  0 <= i -> i + Z.of_nat m <= n ->
  exists v, linux_loop w m (s ++ junk) i h = Ret v /\ linux_loop w m s i h = Ret v.
Proof.
  revert i h. induction m as [|m IH]; intros i h Hi Hn; cbn [linux_loop]; [eauto|].
  rewrite rd_app_l by lia. destruct (rd_total s i) as [v ->]; [lia|].
  rewrite !bind_Ret_eq. apply IH; lia.
Qed.

End Prefix.

Lemma mix_is_hashmix a b c : mix a b c = crush_hashmix a b c.
Proof. reflexivity. Qed.

#[local] Opaque mix.

Lemma rjenkins_prefix s junk :
  Z.of_nat (length s) < 2 ^ 32 ->
  exists h, 0 <= h < 2 ^ 32 /\
    ceph_str_hash_rjenkins (s ++ junk) (Z.of_nat (length s)) = Ret h /\
    ceph_str_hash_rjenkins s (Z.of_nat (length s)) = Ret h.
Proof.
  intros Hlen. unfold ceph_str_hash_rjenkins. rewrite u32_small by lia.
  set (n := Z.of_nat (length s)) in *.
  pose proof (Z.div_mod n 12 ltac:(lia)). pose proof (Z.mod_pos_bound n 12 ltac:(lia)).
  assert (0 <= n / 12) by (apply Z.div_pos; lia).
  destruct (rjenkins_loop_prefix s junk (Z.to_nat (n / 12)) 0 0x9e3779b9 0x9e3779b9 0)
    as (a & b & c & -> & ->); [lia..|].
  rewrite !bind_Ret_eq. rewrite !Z2Nat.id by lia.
  set (k := 0 + 12 * (n / 12)).
  repeat match goal with
  | |- context [add_tail (s ++ junk) k ?l ?i ?sh ?x ≫= _] =>
      destruct (add_tail_prefix s junk k l i sh x) as (? & -> & ->); [lia..|];
      rewrite !bind_Ret_eq
  end.
  rewrite mix_is_hashmix.
  match goal with |- context [crush_hashmix ?a ?b ?c] =>
    pose proof (crush_hashmix_third_range a b c) as Hr;
    destruct (crush_hashmix a b c) as [[? ?] h] end.
  cbn in Hr. eauto.
Qed.

Lemma linux_prefix w s junk :
  Z.of_nat (length s) < 2 ^ 32 ->
  exists h, 0 <= h < 2 ^ 32 /\
    ceph_str_hash_linux_at w (s ++ junk) (Z.of_nat (length s)) = Ret h /\
    ceph_str_hash_linux_at w s (Z.of_nat (length s)) = Ret h.
Proof.
  intros Hlen. unfold ceph_str_hash_linux_at. rewrite u32_small by lia.
  destruct (linux_loop_prefix s junk w (Z.to_nat (Z.of_nat (length s))) 0 0)
    as (v & -> & ->); [lia..|].
  cbn. exists (u32 v). split; [apply u32_range|done].
Qed.

Lemma u32_mod_pow2 w x : 32 <= w -> u32 (x mod 2 ^ w) = u32 x.
Proof.
  intros Hw. unfold u32. apply Z.mod_mod_divide.
  exists (2 ^ (w - 32)). rewrite <- Z.pow_add_r by lia. f_equal. lia.
Qed.

Lemma linux_loop_width w w' m s i h h' :
  32 <= w -> 32 <= w' -> u32 h = u32 h' ->
  match linux_loop w m s i h, linux_loop w' m s i h' with
  | Ret v, Ret v' => u32 v = u32 v'
  | Fault f, Fault f' => f = f'
  | _, _ => False
  end.
Proof.
  intros Hw Hw'. revert i h h'. induction m as [|m IH]; intros i h h' Hh; cbn [linux_loop]; [done|].
  destruct (rd s i) as [v|e|f] eqn:E; [|unfold rd in E; repeat case_match; done|done].
  rewrite !bind_Ret_eq. apply IH. rewrite !u32_mod_pow2 by done.
  unfold u32 in *. rewrite Zmult_mod, (Zmult_mod (h' + _ + _)). f_equal. f_equal.
  rewrite <- !Z.add_assoc, (Zplus_mod h), (Zplus_mod h'). by rewrite Hh.
Qed.

(** The mix of hash.c (and of ceph_hash.c) loses no information: undoing its
    nine assignments in reverse order recovers the three 32-bit words. *)
Theorem crush_hashmix_invertible a b c a' b' c' :
  0 <= a < 2 ^ 32 -> 0 <= b < 2 ^ 32 -> 0 <= c < 2 ^ 32 ->
  crush_hashmix a b c = (a', b', c') ->
  crush_hashunmix a' b' c' = (a, b, c).
Proof.
  intros Ha Hb Hc H. rewrite crush_hashunmix_rounds, <- H, crush_hashmix_rounds.
  assert (words (a, b, c)) by done.
  rewrite !unmix_round_mix; auto using mix_round_words with lia.
Qed.

Lemma crush_hashmix_invertible_witness :
  crush_hashmix 1 2 3 = (120349509, 1098030347, 3082062082) /\
  crush_hashunmix 120349509 1098030347 3082062082 = (1, 2, 3).
Proof.
  split; [vm_compute; reflexivity|].
  apply (crush_hashmix_invertible 1 2 3); [lia|lia|lia|vm_compute; reflexivity].
Defined.

(** The string hashes read exactly the bytes they are told to: on any input
    whose declared length fits the buffer they return a 32-bit value, and bytes
    past the declared length never influence it. *)
Theorem ceph_str_hash_reads_declared_bytes type s junk :
  Z.of_nat (length s) < 2 ^ 32 ->
  exists h, 0 <= h < 2 ^ 32 /\
    ceph_str_hash type (s ++ junk) (Z.of_nat (length s)) = Ret h /\
    ceph_str_hash type s (Z.of_nat (length s)) = Ret h.
Proof.
  intros Hlen. unfold ceph_str_hash.
  case_Zb; [by apply linux_prefix|]. case_Zb; [by apply rjenkins_prefix|].
  exists (u32 (-1)). split; [apply u32_range|done].
Qed.

Lemma ceph_str_hash_reads_declared_bytes_witness :
  ceph_str_hash 2 ([102; 111; 111] ++ [0; 7]) 3 = ceph_str_hash 2 [102; 111; 111] 3 /\
  ceph_str_hash 2 [102; 111; 111] 3 = Ret 2143417350.
Proof.
  split; [|vm_compute; reflexivity].
  destruct (ceph_str_hash_reads_declared_bytes 2 [102; 111; 111] [0; 7])
    as (h & _ & H1 & H2); [vm_compute; reflexivity|].
  exact (eq_trans H1 (eq_sym H2)).
Defined.

(** The dcache hash does not depend on the width of [unsigned long]: kernels
    with 32-bit and with 64-bit longs place a name in the same fragment. *)
Theorem ceph_str_hash_linux_width_independent w s len :
  32 <= w -> ceph_str_hash_linux_at w s len = ceph_str_hash_linux s len.
Proof.
  intros Hw. unfold ceph_str_hash_linux, ceph_str_hash_linux_at.
  pose proof (linux_loop_width w 64 (Z.to_nat (u32 len)) s 0 0 0 Hw ltac:(lia) eq_refl) as H.
  destruct (linux_loop w _ s 0 0), (linux_loop 64 _ s 0 0); cbn; try done; by f_equal.
Qed.
