(* ===== verification/Frag.v ===== *)
(** * Directory fragments

    Models include/linux/ceph/ceph_frag.h and fs/ceph/ceph_frag.c: a fragment
    packs a bit count (8 upper bits) and a prefix (24 lower bits) in a 32-bit
    word and denotes the 24-bit hash values that start with the prefix.  The C
    expressions are defined for bit counts up to 24 (beyond, the shifts are
    undefined); every theorem is about fragments in that range. *)
From S2P Require Import Prelude.

Definition ceph_frag_make (b v : Z) : Z :=
  Z.lor (u32 (Z.shiftl b 24))
        (Z.land (Z.land v (u32 (Z.shiftl 0xffffff (u32 (24 - b))))) 0xffffff).

Definition ceph_frag_bits (f : Z) : Z := Z.shiftr f 24.

Definition ceph_frag_value (f : Z) : Z := Z.land f 0xffffff.

Definition ceph_frag_mask (f : Z) : Z :=
  Z.land (u32 (Z.shiftl 0xffffff (u32 (24 - ceph_frag_bits f)))) 0xffffff.

Definition ceph_frag_mask_shift (f : Z) : Z := u32 (24 - ceph_frag_bits f).

Definition ceph_frag_contains_value (f v : Z) : bool :=
  Z.land v (ceph_frag_mask f) =? ceph_frag_value f.

Definition ceph_frag_contains_frag (f sub : Z) : bool :=
  (ceph_frag_bits f <=? ceph_frag_bits sub) &&
  (Z.land (ceph_frag_value sub) (ceph_frag_mask f) =? ceph_frag_value f).

Definition ceph_frag_parent (f : Z) : Z :=
  ceph_frag_make (u32 (ceph_frag_bits f - 1))
    (Z.land (ceph_frag_value f) (u32 (Z.shiftl (ceph_frag_mask f) 1))).

Definition ceph_frag_is_left_child (f : Z) : bool :=
  (0 <? ceph_frag_bits f) &&
  (Z.land (ceph_frag_value f) (Z.shiftr 0x1000000 (ceph_frag_bits f)) =? 0).

Definition ceph_frag_is_right_child (f : Z) : bool :=
  (0 <? ceph_frag_bits f) &&
  (Z.land (ceph_frag_value f) (Z.shiftr 0x1000000 (ceph_frag_bits f)) =? 1).

Definition ceph_frag_sibling (f : Z) : Z :=
  ceph_frag_make (ceph_frag_bits f)
    (Z.lxor (ceph_frag_value f) (Z.shiftr 0x1000000 (ceph_frag_bits f))).

Definition ceph_frag_left_child (f : Z) : Z :=
  ceph_frag_make (u32 (ceph_frag_bits f + 1)) (ceph_frag_value f).

Definition ceph_frag_right_child (f : Z) : Z :=
  ceph_frag_make (u32 (ceph_frag_bits f + 1))
    (Z.lor (ceph_frag_value f) (Z.shiftr 0x1000000 (u32 (1 + ceph_frag_bits f)))).

Definition ceph_frag_make_child (f by_ i : Z) : Z :=
  let newbits := s32 (ceph_frag_bits f + by_) in
  ceph_frag_make (u32 newbits)
    (Z.lor (ceph_frag_value f) (u32 (Z.shiftl i (24 - newbits)))).

Definition ceph_frag_is_leftmost (f : Z) : bool := ceph_frag_value f =? 0.

Definition ceph_frag_is_rightmost (f : Z) : bool :=
  ceph_frag_value f =? ceph_frag_mask f.

Definition ceph_frag_next (f : Z) : Z :=
  ceph_frag_make (ceph_frag_bits f)
    (u32 (ceph_frag_value f + Z.shiftr 0x1000000 (ceph_frag_bits f))).

Definition ceph_frag_compare (a b : Z) : Z :=
  let va := ceph_frag_value a in
  let vb := ceph_frag_value b in
  if va <? vb then -1 else
  if vb <? va then 1 else
  let va := ceph_frag_bits a in
  let vb := ceph_frag_bits b in
  if va <? vb then -1 else
  if vb <? va then 1 else
  0.

(** ** Abstract fragments

    The fragment with [b] bits and prefix [q] (a [b]-bit number). *)
Definition frag_of (b q : Z) : Z := b * 2 ^ 24 + q * 2 ^ (24 - b).
Definition frag_ok (b q : Z) : Prop := 0 <= b <= 24 /\ 0 <= q < 2 ^ b.
Definition valid_frag (f : Z) : Prop := exists b q, frag_ok b q /\ f = frag_of b q.

(** The hash values a fragment denotes: the 24-bit values with prefix [q]. *)
Definition frag_denotes (b q v : Z) : Prop := (v / 2 ^ (24 - b)) mod 2 ^ b = q.

(** ** Bit-level lemmas *)
Lemma frag_bits_cases (P : Z -> Prop) b :
  0 <= b <= 24 -> Forall P (seqZ 0 25) -> P b.
Proof. intros Hb HP. rewrite Forall_forall in HP. apply HP, elem_of_seqZ. lia. Qed.

Lemma frag_mask_eq b :
  0 <= b <= 24 ->
  Z.land (u32 (Z.shiftl 0xffffff (u32 (24 - b)))) 0xffffff = Z.shiftl (Z.ones b) (24 - b).
Proof. intros Hb. pattern b. apply frag_bits_cases; [done|]. repeat constructor. Qed.

Lemma land_shiftl_ones v b n :
  0 <= b -> 0 <= n ->
  Z.land v (Z.shiftl (Z.ones b) n) = (v / 2 ^ n) mod 2 ^ b * 2 ^ n.
Proof.
  intros. rewrite <- Z.shiftl_mul_pow2, <- Z.land_ones, <- Z.shiftr_div_pow2 by done.
  apply Z.bits_inj'. intros i Hi. rewrite Z.land_spec, !Z.shiftl_spec by done.
  destruct (Z.lt_ge_cases i n).
  - rewrite !(Z.testbit_neg_r _ (i - n)) by lia. by rewrite andb_false_r.
  - rewrite Z.land_spec, Z.shiftr_spec by lia. by replace (i - n + n) with i by lia.
Qed.

Lemma pow2_split b : 0 <= b <= 24 -> 2 ^ b * 2 ^ (24 - b) = 2 ^ 24.
Proof. intros. rewrite <- Z.pow_add_r by lia. f_equal. lia. Qed.

Lemma prefix_range b q : frag_ok b q -> 0 <= q * 2 ^ (24 - b) < 2 ^ 24.
Proof. intros [Hb Hq]. pose proof (pow2_split b Hb). nia. Qed.

Lemma frag_of_lor b q :
  frag_ok b q -> Z.lor (u32 (Z.shiftl b 24)) (q * 2 ^ (24 - b)) = frag_of b q.
Proof.
  intros Hok. pose proof (prefix_range b q Hok) as Hr. destruct Hok as [Hb Hq].
  rewrite u32_small by (rewrite Z.shiftl_mul_pow2 by lia; lia).
  unfold frag_of. rewrite <- (Z.shiftl_mul_pow2 b 24) by lia.
  symmetry. apply Z.add_nocarry_lor.
  apply Z.bits_inj'. intros i Hi. rewrite Z.land_spec, Z.bits_0.
  destruct (Z.lt_ge_cases i 24).
  - by rewrite Z.shiftl_spec_low by done.
  - rewrite (testbit_high (q * 2 ^ (24 - b)) 24) by lia. apply andb_false_r.
Qed.

(** ** The operations on abstract fragments *)
Lemma make_frag_of b v :
  0 <= b <= 24 -> ceph_frag_make b v = frag_of b ((v / 2 ^ (24 - b)) mod 2 ^ b).
Proof.
  intros Hb. unfold ceph_frag_make.
  rewrite <- Z.land_assoc, frag_mask_eq, land_shiftl_ones by lia.
  apply frag_of_lor. split; [done|]. apply Z.mod_pos_bound. lia.
Qed.

Lemma bits_frag_of b q : frag_ok b q -> ceph_frag_bits (frag_of b q) = b.
Proof.
  intros Hok. pose proof (prefix_range b q Hok). unfold ceph_frag_bits, frag_of.
  rewrite Z.shiftr_div_pow2, Z.div_add_l by lia. rewrite Z.div_small by lia. lia.
Qed.

Lemma value_frag_of b q : frag_ok b q -> ceph_frag_value (frag_of b q) = q * 2 ^ (24 - b).
Proof.
  intros Hok. pose proof (prefix_range b q Hok). unfold ceph_frag_value, frag_of.
  change 0xffffff with (Z.ones 24). rewrite Z.land_ones by lia.
  rewrite Z.add_comm, Z.mod_add by lia. by apply Z.mod_small.
Qed.

Lemma mask_frag_of b q :
  frag_ok b q -> ceph_frag_mask (frag_of b q) = Z.shiftl (Z.ones b) (24 - b).
Proof.
  intros Hok. unfold ceph_frag_mask. rewrite bits_frag_of by done.
  apply frag_mask_eq, Hok.
Qed.

Create Rewrite HintDb frag.
#[export] Hint Rewrite bits_frag_of value_frag_of mask_frag_of using done : frag.

Lemma valid_frag_of b q : frag_ok b q -> valid_frag (frag_of b q).
Proof. intros. by exists b, q. Qed.

Lemma frag_of_inj b q b' q' :
  frag_ok b q -> frag_ok b' q' -> frag_of b q = frag_of b' q' -> b = b' /\ q = q'.
Proof.
  intros H H' E. assert (b = b') as <-.
  { by rewrite <- (bits_frag_of b q), <- (bits_frag_of b' q'), E by done. }
  split; [done|]. destruct H as [Hb _]. unfold frag_of in E.
  apply (Z.mul_reg_r _ _ (2 ^ (24 - b))); lia.
Qed.

Lemma contains_frag_of b q v :
  frag_ok b q ->
  ceph_frag_contains_value (frag_of b q) v = true <-> frag_denotes b q v.
Proof.
  intros Hok. unfold ceph_frag_contains_value, frag_denotes. autorewrite with frag.
  rewrite land_shiftl_ones, Z.eqb_eq by (destruct Hok; lia).
  pose proof (Z.pow_pos_nonneg 2 (24 - b)). destruct Hok.
  split; [intros E; eapply Z.mul_reg_r, E; lia|congruence].
Qed.

Lemma shiftr_bit b : 0 <= b <= 24 -> Z.shiftr 0x1000000 b = 2 ^ (24 - b).
Proof. intros Hb. pattern b. apply frag_bits_cases; [done|]. repeat constructor. Qed.

Lemma left_child_frag_of b q :
  frag_ok b q -> b < 24 -> ceph_frag_left_child (frag_of b q) = frag_of (b + 1) (2 * q).
Proof.
  intros Hok Hb. unfold ceph_frag_left_child. autorewrite with frag. destruct Hok.
  rewrite u32_small, make_frag_of by lia. f_equal.
  replace (24 - b) with (24 - (b + 1) + 1) by lia. rewrite Z.pow_add_r by lia.
  replace (q * (2 ^ (24 - (b + 1)) * 2 ^ 1)) with (2 * q * 2 ^ (24 - (b + 1))) by lia.
  rewrite Z.div_mul, Z.mod_small by (rewrite ?Z.pow_add_r; lia). done.
Qed.

Lemma lor_low_bit q k : 0 <= q -> 0 <= k -> Z.lor (q * 2 ^ (k + 1)) (2 ^ k) = (2 * q + 1) * 2 ^ k.
Proof.
  intros. replace (q * 2 ^ (k + 1)) with (Z.shiftl (2 * q) k)
    by (rewrite Z.shiftl_mul_pow2, Z.pow_add_r by lia; lia).
  replace (2 ^ k) with (Z.shiftl 1 k) at 1 by (rewrite Z.shiftl_mul_pow2 by lia; lia).
  rewrite <- Z.shiftl_lor, Z.shiftl_mul_pow2 by lia. f_equal.
  destruct q; done.
Qed.

Lemma right_child_frag_of b q :
  frag_ok b q -> b < 24 -> ceph_frag_right_child (frag_of b q) = frag_of (b + 1) (2 * q + 1).
Proof.
  intros Hok Hb. unfold ceph_frag_right_child. autorewrite with frag. destruct Hok.
  rewrite !u32_small, make_frag_of, shiftr_bit by lia. f_equal.
  replace (24 - b) with (24 - (1 + b) + 1) by lia. rewrite lor_low_bit by lia.
  replace (24 - (b + 1)) with (24 - (1 + b)) by lia.
  rewrite Z.div_mul, Z.mod_small by (rewrite ?Z.pow_add_r; lia). done.
Qed.

Lemma frag_ok_left b q : frag_ok b q -> b < 24 -> frag_ok (b + 1) (2 * q).
Proof. intros [??] ?. split; [lia|]. rewrite Z.pow_add_r; lia. Qed.
Lemma frag_ok_right b q : frag_ok b q -> b < 24 -> frag_ok (b + 1) (2 * q + 1).
Proof. intros [??] ?. split; [lia|]. rewrite Z.pow_add_r; lia. Qed.
#[export] Hint Resolve frag_ok_left frag_ok_right valid_frag_of : ceph.

Lemma make_child_frag_of b q k i :
  frag_ok b q -> 0 <= k -> b + k <= 24 -> 0 <= i < 2 ^ k ->
  frag_ok (b + k) (q * 2 ^ k + i) /\
  ceph_frag_make_child (frag_of b q) k i = frag_of (b + k) (q * 2 ^ k + i).
Proof.
  intros Hok Hk Hbk Hi.
  assert (frag_ok (b + k) (q * 2 ^ k + i)) as Hok'.
  { destruct Hok. split; [lia|]. rewrite Z.pow_add_r by lia. nia. }
  split; [done|]. pose proof (prefix_range _ _ Hok') as Hr. destruct Hok, Hok'.
  assert (q * 2 ^ (24 - b) = q * 2 ^ k * 2 ^ (24 - (b + k))) as E.
  { rewrite <- Z.mul_assoc, <- Z.pow_add_r by lia. do 2 f_equal. lia. }
  pose proof (Z.pow_pos_nonneg 2 (24 - (b + k))).
  unfold ceph_frag_make_child. autorewrite with frag.
  rewrite s32_small, (u32_small (b + k)), make_frag_of by lia. f_equal.
  rewrite Z.shiftl_mul_pow2, u32_small by nia.
  replace (24 - b) with (k + (24 - (b + k))) by lia.
  rewrite lor_disjoint, Z.pow_add_r by (rewrite ?Z.pow_add_r; nia).
  replace (q * (2 ^ k * 2 ^ (24 - (b + k))) + i * 2 ^ (24 - (b + k)))
    with ((q * 2 ^ k + i) * 2 ^ (24 - (b + k))) by lia.
  rewrite Z.div_mul, Z.mod_small by lia. done.
Qed.

(** A fragment denotes an interval of the 24-bit space. *)
Lemma frag_denotes_interval b q v :
  0 <= b <= 24 ->
  frag_denotes b q v <-> q * 2 ^ (24 - b) <= v mod 2 ^ 24 < (q + 1) * 2 ^ (24 - b).
Proof.
  intros Hb. unfold frag_denotes.
  assert ((v / 2 ^ (24 - b)) mod 2 ^ b = v mod 2 ^ 24 / 2 ^ (24 - b)) as ->.
  { rewrite <- (pow2_split b), (Z.mul_comm (2 ^ b)), Z.rem_mul_r by lia.
    rewrite (Z.mul_comm (2 ^ (24 - b))), Z.div_add by lia.
    rewrite (Z.div_small (v mod _)); [lia|]. apply Z.mod_pos_bound. lia. }
  pose proof (Z.div_mod (v mod 2 ^ 24) (2 ^ (24 - b))).
  pose proof (Z.mod_pos_bound (v mod 2 ^ 24) (2 ^ (24 - b))). nia.
Qed.

Lemma contains_interval b q v :
  frag_ok b q ->
  ceph_frag_contains_value (frag_of b q) v = true <->
  q * 2 ^ (24 - b) <= v mod 2 ^ 24 < (q + 1) * 2 ^ (24 - b).
Proof. intros H. rewrite contains_frag_of by done. apply frag_denotes_interval, H. Qed.

Lemma contains_frag_test b q b' q' :
  frag_ok b q -> frag_ok b' q' ->
  ceph_frag_contains_frag (frag_of b q) (frag_of b' q') = true <->
  b <= b' /\ q * 2 ^ (24 - b) <= q' * 2 ^ (24 - b') < (q + 1) * 2 ^ (24 - b).
Proof.
  intros H H'. pose proof (contains_interval b q (q' * 2 ^ (24 - b')) H) as Hc.
  rewrite (Z.mod_small (q' * _)) in Hc by (by apply prefix_range).
  rewrite <- Hc. unfold ceph_frag_contains_frag, ceph_frag_contains_value.
  autorewrite with frag. rewrite andb_true_iff, Z.leb_le. done.
Qed.

Lemma frag_interval_nested b q b' q' :
  frag_ok b q -> frag_ok b' q' -> b <= b' ->
  q * 2 ^ (24 - b) <= q' * 2 ^ (24 - b') < (q + 1) * 2 ^ (24 - b) ->
  (q' + 1) * 2 ^ (24 - b') <= (q + 1) * 2 ^ (24 - b).
Proof.
  intros [? _] [? _] Hb. replace (24 - b) with (b' - b + (24 - b')) by lia.
  rewrite Z.pow_add_r, Z.mul_assoc by lia. intros [_ Hlt].
  assert (0 < 2 ^ (24 - b')) by (apply Z.pow_pos_nonneg; lia).
  rewrite Z.mul_assoc in *. apply Z.mul_lt_mono_pos_r in Hlt; [|done].
  apply Z.mul_le_mono_nonneg_r; lia.
Qed.

Lemma parent_frag_of b q :
  frag_ok b q -> 0 < b ->
  frag_ok (b - 1) (q / 2) /\ ceph_frag_parent (frag_of b q) = frag_of (b - 1) (q / 2).
Proof.
  intros Hok Hb. assert (frag_ok (b - 1) (q / 2)) as Hok'.
  { destruct Hok as [? Hq]. split; [lia|]. rewrite (pow2_succ b) in Hq by done.
    pose proof (Z.div_mod q 2). pose proof (Z.mod_pos_bound q 2). lia. }
  split; [done|]. unfold ceph_frag_parent. autorewrite with frag.
  destruct Hok as [? Hq], Hok' as [? Hq'].
  rewrite Z.shiftl_shiftl, (u32_small (b - 1)), make_frag_of by lia. f_equal.
  replace (24 - b + 1) with (24 - (b - 1)) by lia.
  rewrite u32_small.
  2:{ rewrite Z.shiftl_mul_pow2, Z.ones_equiv by lia.
      assert (2 ^ b * 2 ^ (24 - (b - 1)) = 2 ^ 25) by (rewrite <- Z.pow_add_r by lia; f_equal; lia).
      pose proof (Z.pow_pos_nonneg 2 b). pose proof (Z.pow_pos_nonneg 2 (24 - (b - 1))). nia. }
  rewrite land_shiftl_ones, Z.div_mul by lia.
  replace (24 - (b - 1)) with (24 - b + 1) by lia. rewrite Z.pow_add_r, <- Z.div_div by lia.
  rewrite Z.div_mul, Z.pow_1_r by lia. rewrite (Z.mod_small _ (2 ^ b)); [by apply Z.mod_small|].
  rewrite (pow2_succ b) by done. lia.
Qed.

Lemma land_prefix_bit q n : 0 <= n -> Z.land (q * 2 ^ n) (2 ^ n) = q mod 2 * 2 ^ n.
Proof.
  intros. rewrite <- (Z.mul_1_l (2 ^ n)) at 2.
  rewrite <- !Z.shiftl_mul_pow2, <- Z.shiftl_land by done.
  f_equal. by apply (Z.land_ones q 1).
Qed.

Lemma lxor_1_range q b : 0 < b -> 0 <= q < 2 ^ b -> 0 <= Z.lxor q 1 < 2 ^ b.
Proof. intros. apply lxor_range; [lia|done|]. rewrite (pow2_succ b) by done. lia. Qed.

Lemma sibling_frag_of b q :
  frag_ok b q -> 0 < b -> ceph_frag_sibling (frag_of b q) = frag_of b (Z.lxor q 1).
Proof.
  intros Hok Hb. unfold ceph_frag_sibling. autorewrite with frag. destruct Hok.
  rewrite make_frag_of, shiftr_bit by lia. f_equal.
  rewrite <- (Z.mul_1_l (2 ^ (24 - b))) at 2.
  rewrite <- !Z.shiftl_mul_pow2, <- Z.shiftl_lxor, Z.shiftl_mul_pow2 by lia.
  rewrite Z.div_mul by lia. apply Z.mod_small. by apply lxor_1_range.
Qed.

Lemma next_frag_of b q :
  frag_ok b q -> ceph_frag_next (frag_of b q) = frag_of b ((q + 1) mod 2 ^ b).
Proof.
  intros Hok. pose proof (prefix_range b q Hok). unfold ceph_frag_next. autorewrite with frag.
  destruct Hok as [Hb ?]. assert (2 ^ (24 - b) <= 2 ^ 24) by (apply Z.pow_le_mono_r; lia).
  rewrite make_frag_of, shiftr_bit, u32_small by lia. f_equal.
  replace (q * 2 ^ (24 - b) + 2 ^ (24 - b)) with ((q + 1) * 2 ^ (24 - b)) by lia.
  by rewrite Z.div_mul by lia.
Qed.

Lemma rightmost_frag_of b q :
  frag_ok b q -> ceph_frag_is_rightmost (frag_of b q) = (q =? 2 ^ b - 1).
Proof.
  intros Hok. unfold ceph_frag_is_rightmost. autorewrite with frag. destruct Hok.
  rewrite Z.shiftl_mul_pow2, Z.ones_equiv by lia. apply Z.b2z_inj. f_equal.
  destruct (Z.eqb_spec q (2 ^ b - 1)) as [->|]; [by rewrite Z.eqb_refl|].
  apply Z.eqb_neq. intros E. apply Z.mul_reg_r in E; [lia|]. lia.
Qed.

(** ** Properties *)

(** Splitting a fragment by [k] bits partitions it: each child of a valid
    fragment is valid, and every value the fragment contains is contained in
    exactly one child, every value it does not contain in none. *)
Theorem ceph_frag_make_child_partition f k v :
  valid_frag f -> 0 <= k -> ceph_frag_bits f + k <= 24 ->
  (forall i, 0 <= i < 2 ^ k -> valid_frag (ceph_frag_make_child f k i)) /\
  (ceph_frag_contains_value f v = true ->
   exists i, 0 <= i < 2 ^ k /\
     forall j, 0 <= j < 2 ^ k ->
       ceph_frag_contains_value (ceph_frag_make_child f k j) v = true <-> j = i) /\
  (ceph_frag_contains_value f v = false ->
   forall j, 0 <= j < 2 ^ k ->
     ceph_frag_contains_value (ceph_frag_make_child f k j) v = false).
Proof.
  intros (b & q & Hok & ->) Hk Hbk. autorewrite with frag in Hbk.
  assert (forall i, 0 <= i < 2 ^ k -> ceph_frag_contains_value (ceph_frag_make_child (frag_of b q) k i) v = true
    <-> (q * 2 ^ k + i) * 2 ^ (24 - (b + k)) <= v mod 2 ^ 24 < (q * 2 ^ k + i + 1) * 2 ^ (24 - (b + k))) as Hc.
  { intros i Hi. destruct (make_child_frag_of b q k i) as [Hok' ->]; [done..|]. by apply contains_interval. }
  assert (2 ^ (24 - b) = 2 ^ k * 2 ^ (24 - (b + k))) as E
    by (rewrite <- Z.pow_add_r by lia; f_equal; lia).
  pose proof (Z.pow_pos_nonneg 2 (24 - (b + k))) as Hp.
  split; [intros i Hi; destruct (make_child_frag_of b q k i) as [? ->]; eauto with ceph|].
  split.
  - rewrite contains_interval, E by done. intros Hv.
    pose proof (Z.div_mod (v mod 2 ^ 24) (2 ^ (24 - (b + k)))) as Hd.
    pose proof (Z.mod_pos_bound (v mod 2 ^ 24) (2 ^ (24 - (b + k)))) as Hm.
    set (t := v mod 2 ^ 24 / 2 ^ (24 - (b + k))) in *.
    exists (t - q * 2 ^ k). split; [nia|]. intros j Hj. rewrite Hc by done. nia.
  - rewrite <- not_true_iff_false, contains_interval, E by done. intros Hn j Hj.
    apply not_true_iff_false.
    rewrite Hc by done. intros Hv. apply Hn. clear Hn Hc. nia.
Qed.

Lemma ceph_frag_make_child_partition_witness :
  exists i, 0 <= i < 2 ^ 2 /\
    forall j, 0 <= j < 2 ^ 2 ->
      ceph_frag_contains_value (ceph_frag_make_child (frag_of 1 1) 2 j) 0xb00000 = true <-> j = i.
Proof.
  refine (proj1 (proj2 (ceph_frag_make_child_partition (frag_of 1 1) 2 0xb00000 _ _ _)) _).
  - exists 1, 1. repeat split; vm_compute; congruence.
  - lia.
  - vm_compute. congruence.
  - vm_compute. reflexivity.
Defined.

(** C35: The containment test on fragments is exactly inclusion of the value sets
    they denote. *)
Theorem ceph_frag_contains_frag_inclusion f g :
  valid_frag f -> valid_frag g ->
  ceph_frag_contains_frag f g = true <->
  (forall v, ceph_frag_contains_value g v = true -> ceph_frag_contains_value f v = true).
Proof.
  intros (b & q & H & ->) (b' & q' & H' & ->). rewrite contains_frag_test by done.
  setoid_rewrite contains_interval; [|done..]. split.
  - intros [Hb Hin] v Hv. pose proof (frag_interval_nested b q b' q' H H' Hb Hin). lia.
  - intros Hall. pose proof (prefix_range _ _ H') as Hr.
    assert ((q' + 1) * 2 ^ (24 - b') <= 2 ^ 24) as Hhi.
    { destruct H' as [? ?]. rewrite <- (pow2_split b') by done. nia. }
    destruct H as [Hb Hq], H' as [Hb' Hq'].
    pose proof (Z.pow_pos_nonneg 2 (24 - b')).
    pose proof (Hall (q' * 2 ^ (24 - b'))) as H1. rewrite Z.mod_small in H1 by done.
    pose proof (Hall ((q' + 1) * 2 ^ (24 - b') - 1)) as H2. rewrite Z.mod_small in H2 by lia.
    assert (2 ^ (24 - b') <= 2 ^ (24 - b)) as Hle by lia.
    apply Z.pow_le_mono_r_iff in Hle; lia.
Qed.

Lemma ceph_frag_contains_frag_inclusion_witness :
  ceph_frag_contains_value (frag_of 3 5) 0xa12345 = true /\
  ceph_frag_contains_value (frag_of 1 1) 0xa12345 = true.
Proof.
  split; [vm_compute; reflexivity|].
  refine (proj1 (ceph_frag_contains_frag_inclusion (frag_of 1 1) (frag_of 3 5) _ _) _ 0xa12345 _).
  - exists 1, 1. repeat split; vm_compute; congruence.
  - exists 3, 5. repeat split; vm_compute; congruence.
  - vm_compute. reflexivity.
  - vm_compute. reflexivity.
Defined.

(** The two children of a fragment have it as parent and are each other's
    siblings. *)
Theorem ceph_frag_children_parent_sibling f :
  valid_frag f -> ceph_frag_bits f < 24 ->
  ceph_frag_parent (ceph_frag_left_child f) = f /\
  ceph_frag_parent (ceph_frag_right_child f) = f /\
  ceph_frag_sibling (ceph_frag_left_child f) = ceph_frag_right_child f /\
  ceph_frag_sibling (ceph_frag_right_child f) = ceph_frag_left_child f /\
  ceph_frag_is_left_child (ceph_frag_left_child f) = true /\
  ceph_frag_is_left_child (ceph_frag_right_child f) = false.
Proof.
  intros (b & q & Hok & ->). autorewrite with frag. intros Hb.
  rewrite left_child_frag_of, right_child_frag_of by done.
  assert (frag_ok (b + 1) (2 * q)) as HL by auto with ceph.
  assert (frag_ok (b + 1) (2 * q + 1)) as HR by auto with ceph.
  destruct (parent_frag_of _ _ HL) as [_ ->]; [destruct Hok; lia|].
  destruct (parent_frag_of _ _ HR) as [_ ->]; [destruct Hok; lia|].
  rewrite !sibling_frag_of by (done || (destruct Hok; lia)).
  unfold ceph_frag_is_left_child. autorewrite with frag. destruct Hok as [Hb0 [Hq0 _]].
  rewrite !shiftr_bit, !land_prefix_bit by lia.
  replace (b + 1 - 1) with b by lia.
  replace (2 * q / 2) with q by (Z.div_mod_to_equations; lia).
  replace ((2 * q + 1) / 2) with q by (Z.div_mod_to_equations; lia).
  replace (Z.lxor (2 * q) 1) with (2 * q + 1) by (destruct q; [done|done|lia]).
  replace (Z.lxor (2 * q + 1) 1) with (2 * q) by (destruct q; [done|done|lia]).
  replace ((2 * q) mod 2) with 0 by (Z.div_mod_to_equations; lia).
  replace ((2 * q + 1) mod 2) with 1 by (Z.div_mod_to_equations; lia).
  split_and!; try done; destruct (Z.ltb_spec 0 (b + 1)); try lia.
Qed.

Lemma ceph_frag_children_parent_sibling_witness :
  ceph_frag_parent (ceph_frag_right_child (frag_of 3 5)) = frag_of 3 5.
Proof.
  refine (proj1 (proj2 (ceph_frag_children_parent_sibling (frag_of 3 5) _ _))).
  - exists 3, 5. repeat split; vm_compute; congruence.
  - vm_compute. reflexivity.
Defined.

(** [ceph_frag_is_right_child] compares the isolated prefix bit with 1, where
    the bit has weight [2^(24 - bits)]: no right child above the deepest level
    (24 bits) is recognised as one. *)
Theorem ceph_frag_is_right_child_misses f :
  valid_frag f -> ceph_frag_bits f < 23 ->
  ceph_frag_is_right_child (ceph_frag_right_child f) = false.
Proof.
  intros (b & q & Hok & ->). autorewrite with frag. intros Hb.
  rewrite right_child_frag_of by (done || lia).
  assert (frag_ok (b + 1) (2 * q + 1)) by (apply frag_ok_right; [done|lia]).
  unfold ceph_frag_is_right_child. autorewrite with frag. destruct Hok.
  rewrite shiftr_bit, land_prefix_bit by lia. apply andb_false_iff. right.
  apply Z.eqb_neq. rewrite (pow2_succ (24 - (b + 1))) by lia. lia.
Qed.

Lemma ceph_frag_is_right_child_misses_witness :
  ceph_frag_is_right_child (ceph_frag_right_child (frag_of 0 0)) = false.
Proof.
  apply (ceph_frag_is_right_child_misses (frag_of 0 0)).
  - exists 0, 0. repeat split; vm_compute; congruence.
  - vm_compute. reflexivity.
Defined.

(** Walking with [ceph_frag_next]: from a fragment that is not the rightmost
    one, the next fragment has the same bits and starts exactly where the
    fragment ends; from the rightmost it wraps to the leftmost. *)
Theorem ceph_frag_next_adjacent f :
  valid_frag f ->
  valid_frag (ceph_frag_next f) /\
  ceph_frag_bits (ceph_frag_next f) = ceph_frag_bits f /\
  (ceph_frag_is_rightmost f = false ->
   ceph_frag_value (ceph_frag_next f) = ceph_frag_value f + 2 ^ (24 - ceph_frag_bits f)) /\
  (ceph_frag_is_rightmost f = true -> ceph_frag_is_leftmost (ceph_frag_next f) = true).
Proof.
  intros (b & q & Hok & ->). rewrite next_frag_of, rightmost_frag_of by done.
  assert (frag_ok b ((q + 1) mod 2 ^ b)).
  { destruct Hok. split; [done|]. apply Z.mod_pos_bound. lia. }
  unfold ceph_frag_is_leftmost. autorewrite with frag. destruct Hok.
  split; [by apply valid_frag_of|]. split; [done|].
  case_Zb; split; try done; intros _.
  - subst q. replace (2 ^ b - 1 + 1) with (2 ^ b) by lia. by rewrite Z.mod_same by lia.
  - rewrite Z.mod_small by lia. lia.
Qed.

Lemma ceph_frag_next_adjacent_witness :
  ceph_frag_value (ceph_frag_next (frag_of 2 1)) = ceph_frag_value (frag_of 2 1) + 2 ^ (24 - 2).
Proof.
  refine (proj1 (proj2 (proj2 (ceph_frag_next_adjacent (frag_of 2 1) _))) _).
  - exists 2, 1. repeat split; vm_compute; congruence.
  - vm_compute. reflexivity.
Defined.
