(* ===== verification/Armor.v ===== *)
(** * Base64 armor

    Models net/ceph/armor.c.  The input [src, end) is a list of bytes; the
    bytes stored through [dst] are returned beside the result, in order. *)
From S2P Require Import Prelude.

Definition newline : Z := 10.
Definition equals : Z := 61.

(** "ABC...Zabc...z0123456789+/" *)
Definition pem_key : list Z :=
  seqZ 65 26 ++ seqZ 97 26 ++ seqZ 48 10 ++ [43; 47].

Definition encode_bits (c : Z) : outcome Z := rd pem_key c.

(** [-EINVAL] is [None]. *)
Definition decode_bits (c : Z) : option Z :=
  if (65 <=? c) && (c <=? 90) then Some (c - 65)
  else if (97 <=? c) && (c <=? 122) then Some (c - 97 + 26)
  else if (48 <=? c) && (c <=? 57) then Some (c - 48 + 52)
  else if c =? 43 then Some 62
  else if c =? 47 then Some 63
  else if c =? equals then Some 0
  else None.

(** The tail of the loop body: [olen += 4; line += 4; if (line == 64) ...]
    before the rest of the input is handled by [k]. *)
Definition end_group (line : Z) (k : Z -> outcome (list Z * Z)) : outcome (list Z * Z) :=
  let line := line + 4 in
  if line =? 64 then
    '(rest, olen) ← k 0;
    Ret (newline :: rest, olen + 4 + 1)
  else
    '(rest, olen) ← k line;
    Ret (rest, olen + 4).

Fixpoint armor_loop (src : list Z) (line : Z) : outcome (list Z * Z) :=
  match src with
  | [] => Ret ([], 0)
  | a :: src =>
      d0 ← encode_bits (Z.shiftr a 2);
      match src with
      | b :: src =>
          d1 ← encode_bits (Z.lor (Z.shiftl (Z.land a 3) 4) (Z.shiftr b 4));
          match src with
          | c :: src =>
              d2 ← encode_bits (Z.lor (Z.shiftl (Z.land b 15) 2) (Z.shiftr c 6));
              d3 ← encode_bits (Z.land c 63);
              '(rest, olen) ← end_group line (armor_loop src);
              Ret (d0 :: d1 :: d2 :: d3 :: rest, olen)
          | [] =>
              d2 ← encode_bits (Z.shiftl (Z.land b 15) 2);
              '(rest, olen) ← end_group line (armor_loop src);
              Ret (d0 :: d1 :: d2 :: equals :: rest, olen)
          end
      | [] =>
          d1 ← encode_bits (Z.shiftl (Z.land a 3) 4);
          '(rest, olen) ← end_group line (armor_loop src);
          Ret (d0 :: d1 :: equals :: equals :: rest, olen)
      end
  end.

(** The bytes stored and the value returned. *)
Definition ceph_armor (src : list Z) : outcome (list Z * Z) := armor_loop src 0.

Fixpoint unarmor_loop (src : list Z) (olen : Z) : outcome (list Z * Z) :=
  match src with
  | [] => Ret ([], olen)
  | s0 :: src1 =>
      if s0 =? newline then unarmor_loop src1 olen
      else match src1 with
      | s1 :: s2 :: s3 :: src4 =>
          match decode_bits s0, decode_bits s1, decode_bits s2, decode_bits s3 with
          | Some a, Some b, Some c, Some d =>
              let d0 := u8 (Z.lor (Z.shiftl a 2) (Z.shiftr b 4)) in
              if s2 =? equals then Ret ([d0], olen + 1) else
              let d1 := u8 (Z.lor (Z.shiftl (Z.land b 15) 4) (Z.shiftr c 2)) in
              if s3 =? equals then Ret ([d0; d1], olen + 2) else
              let d2 := u8 (Z.lor (Z.shiftl (Z.land c 3) 6) d) in
              '(rest, olen) ← unarmor_loop src4 (olen + 3);
              Ret (d0 :: d1 :: d2 :: rest, olen)
          | _, _, _, _ => Err EINVAL
          end
      | _ => Err EINVAL
      end
  end.

Definition ceph_unarmor (src : list Z) : outcome (list Z * Z) := unarmor_loop src 0.

(** ** Sextets *)
Definition is_byte (v : Z) : Prop := 0 <= v < 2 ^ 8.

Lemma sextet_cases (P : Z -> Prop) x : 0 <= x < 64 -> Forall P (seqZ 0 64) -> P x.
Proof. intros Hx HP. rewrite Forall_forall in HP. apply HP, elem_of_seqZ. lia. Qed.

Lemma encode_bits_spec x :
  0 <= x < 64 ->
  exists c, encode_bits x = Ret c /\ decode_bits c = Some x /\ c <> newline /\ c <> equals.
Proof.
  intros Hx. pattern x. apply sextet_cases; [done|].
  repeat (apply Forall_cons; split; [eexists; split; [reflexivity|]; by split_and!|]).
  apply Forall_nil_2.
Qed.

(** Shifts and masks of bytes as arithmetic, for [lia]. *)
Lemma shiftr_div a n m : 0 <= n -> 2 ^ n = m -> Z.shiftr a n = a / m.
Proof. intros ? <-. by apply Z.shiftr_div_pow2. Qed.
Lemma land_mod a n m k : 0 <= n -> Z.ones n = m -> 2 ^ n = k -> Z.land a m = a mod k.
Proof. intros ? <- <-. by apply Z.land_ones. Qed.
Lemma shiftl_lor a b n m :
  0 <= n -> 2 ^ n = m -> 0 <= b < m -> Z.lor (Z.shiftl a n) b = a * m + b.
Proof. intros ? <- ?. rewrite Z.shiftl_mul_pow2 by done. by apply lor_disjoint. Qed.
Lemma shiftl_mul a n m : 0 <= n -> 2 ^ n = m -> Z.shiftl a n = a * m.
Proof. intros ? <-. by apply Z.shiftl_mul_pow2. Qed.

Ltac bits_to_arith :=
  rewrite ?(shiftr_div _ 2 4), ?(shiftr_div _ 4 16), ?(shiftr_div _ 6 64) by done;
  rewrite ?(land_mod _ 2 3 4), ?(land_mod _ 4 15 16), ?(land_mod _ 6 63 64) by done;
  rewrite ?(shiftl_lor _ _ 4 16), ?(shiftl_lor _ _ 2 4), ?(shiftl_lor _ _ 6 64)
    by (done || (Z.div_mod_to_equations; lia));
  rewrite ?(shiftl_mul _ 4 16), ?(shiftl_mul _ 2 4) by done.

Lemma group3 a b c :
  is_byte a -> is_byte b -> is_byte c ->
  exists x0 x1 x2 x3,
    Z.shiftr a 2 = x0 /\
    Z.lor (Z.shiftl (Z.land a 3) 4) (Z.shiftr b 4) = x1 /\
    Z.lor (Z.shiftl (Z.land b 15) 2) (Z.shiftr c 6) = x2 /\
    Z.land c 63 = x3 /\
    0 <= x0 < 64 /\ 0 <= x1 < 64 /\ 0 <= x2 < 64 /\ 0 <= x3 < 64 /\
    u8 (Z.lor (Z.shiftl x0 2) (Z.shiftr x1 4)) = a /\
    u8 (Z.lor (Z.shiftl (Z.land x1 15) 4) (Z.shiftr x2 2)) = b /\
    u8 (Z.lor (Z.shiftl (Z.land x2 3) 6) x3) = c.
Proof.
  unfold is_byte. intros Ha Hb Hc.
  exists (a / 4), (a mod 4 * 16 + b / 16), (b mod 16 * 4 + c / 64), (c mod 64).
  bits_to_arith.
  do 4 (split; [done|]).
  split; [Z.div_mod_to_equations; lia|].
  split; [Z.div_mod_to_equations; lia|].
  split; [Z.div_mod_to_equations; lia|].
  split; [Z.div_mod_to_equations; lia|].
  unfold u8. split_and!; Z.div_mod_to_equations; lia.
Qed.

(** Output of one group, then of the rest: what the decoder does with it. *)
Lemma unarmor_group x0 x1 x2 x3 d0 d1 d2 d3 rest o :
  decode_bits d0 = Some x0 -> decode_bits d1 = Some x1 ->
  decode_bits d2 = Some x2 -> decode_bits d3 = Some x3 ->
  d0 <> newline -> d2 <> equals -> d3 <> equals ->
  unarmor_loop (d0 :: d1 :: d2 :: d3 :: rest) o =
  ('(r, olen) ← unarmor_loop rest (o + 3);
   Ret (u8 (Z.lor (Z.shiftl x0 2) (Z.shiftr x1 4)) ::
        u8 (Z.lor (Z.shiftl (Z.land x1 15) 4) (Z.shiftr x2 2)) ::
        u8 (Z.lor (Z.shiftl (Z.land x2 3) 6) x3) :: r, olen)).
Proof.
  intros E0 E1 E2 E3 H0 H2 H3. cbn [unarmor_loop].
  rewrite (proj2 (Z.eqb_neq d0 newline)), E0, E1, E2, E3 by done.
  by rewrite (proj2 (Z.eqb_neq d2 equals)), (proj2 (Z.eqb_neq d3 equals)) by done.
Qed.

Lemma unarmor_newline rest o : unarmor_loop (newline :: rest) o = unarmor_loop rest o.
Proof. reflexivity. Qed.

(** Number of groups, and of newlines when the current line already holds
    [line] characters. *)
Definition groups (n : Z) : Z := (n + 2) / 3.
Definition armored_len (line n : Z) : Z := 4 * groups n + (line / 4 + groups n) / 16.

Definition line_ok (line : Z) : Prop := 0 <= line < 64 /\ line mod 4 = 0.

(** What [armor_loop] promises on [src] from column [line]. *)
Definition armor_good (src : list Z) (line : Z) : Prop :=
  exists out,
    armor_loop src line = Ret (out, Z.of_nat (length out)) /\
    Z.of_nat (length out) = armored_len line (Z.of_nat (length src)) /\
    forall o, unarmor_loop out o = Ret (src, o + Z.of_nat (length src)).

Lemma end_group_good src line :
  line_ok line -> (forall l, line_ok l -> armor_good src l) ->
  exists rest,
    end_group line (armor_loop src) = Ret (rest, 4 + Z.of_nat (length rest)) /\
    4 + Z.of_nat (length rest) = armored_len line (Z.of_nat (length src) + 3) /\
    forall o, unarmor_loop rest o = Ret (src, o + Z.of_nat (length src)).
Proof.
  intros [Hl Hm] IH. unfold end_group, armored_len, groups.
  destruct (Z.eqb_spec (line + 4) 64).
  - destruct (IH 0) as (out & Ha & Hlen & Hu); [split; [lia|done]|]. rewrite Ha. cbn.
    exists (newline :: out). split; [do 2 f_equal; cbn [length]; lia|].
    split; [|intros o; by rewrite unarmor_newline].
    unfold armored_len, groups in Hlen. cbn [length]. Z.div_mod_to_equations; lia.
  - destruct (IH (line + 4)) as (out & Ha & Hlen & Hu).
    { split; Z.div_mod_to_equations; lia. }
    rewrite Ha. cbn. exists out. split; [do 2 f_equal; lia|]. split; [|done].
    unfold armored_len, groups in Hlen. Z.div_mod_to_equations; lia.
Qed.

Lemma armor_nil_good line : line_ok line -> armor_good [] line.
Proof.
  intros [Hl Hm]. exists []. split_and!; [done| |intros o; cbn; do 2 f_equal; lia].
  unfold armored_len, groups. cbn. Z.div_mod_to_equations; lia.
Qed.

Ltac encode_sextet x :=
  let c := fresh "c" in
  destruct (encode_bits_spec x) as (c & -> & ? & ? & ?); [done|]; cbn [obind].

Lemma armor_one_good a line : is_byte a -> line_ok line -> armor_good [a] line.
Proof.
  intros Ha Hl.
  destruct (group3 a 0 0) as (x0&x1&x2&x3&E0&E1&E2&E3&H0&H1&H2&H3&Da&Db&Dc);
    [done || (unfold is_byte; lia)..|].
  destruct (end_group_good [] line Hl armor_nil_good) as (rest & Hg & Hlen & _).
  cbn [armor_loop] in Hg.
  unfold armor_good. cbn [armor_loop]. rewrite Z.shiftr_0_l, Z.lor_0_r in E1. rewrite E0, E1.
  encode_sextet x0. encode_sextet x1. rewrite Hg. cbn [obind].
  eexists. split; [do 2 f_equal; cbn [length]; lia|]. split.
  { cbn [length] in *.
    change (armored_len line (Z.of_nat 0 + 3)) with (armored_len line (Z.of_nat 1)) in Hlen. lia. }
  intros o. cbn [unarmor_loop]. rewrite (proj2 (Z.eqb_neq c newline)) by done.
  repeat match goal with H : decode_bits _ = _ |- _ => rewrite H; clear H end.
  rewrite Da. done.
Qed.

Lemma armor_two_good a b line :
  is_byte a -> is_byte b -> line_ok line -> armor_good [a; b] line.
Proof.
  intros Ha Hb Hl.
  destruct (group3 a b 0) as (x0&x1&x2&x3&E0&E1&E2&E3&H0&H1&H2&H3&Da&Db&Dc);
    [done || (unfold is_byte; lia)..|].
  destruct (end_group_good [] line Hl armor_nil_good) as (rest & Hg & Hlen & _).
  cbn [armor_loop] in Hg.
  unfold armor_good. cbn [armor_loop]. rewrite Z.shiftr_0_l, Z.lor_0_r in E2. rewrite E0, E1, E2.
  encode_sextet x0. encode_sextet x1. encode_sextet x2. rewrite Hg. cbn [obind].
  eexists. split; [do 2 f_equal; cbn [length]; lia|]. split.
  { cbn [length] in *.
    change (armored_len line (Z.of_nat 0 + 3)) with (armored_len line (Z.of_nat 2)) in Hlen. lia. }
  intros o. cbn [unarmor_loop]. rewrite (proj2 (Z.eqb_neq c newline)), (proj2 (Z.eqb_neq c1 equals)) by done.
  repeat match goal with H : decode_bits _ = _ |- _ => rewrite H; clear H end.
  rewrite Da, Db. done.
Qed.

Lemma armor_three_good a b c src line :
  is_byte a -> is_byte b -> is_byte c -> line_ok line ->
  (forall l, line_ok l -> armor_good src l) -> armor_good (a :: b :: c :: src) line.
Proof.
  intros Ha Hb Hc Hl IH.
  destruct (group3 a b c) as (x0&x1&x2&x3&E0&E1&E2&E3&H0&H1&H2&H3&Da&Db&Dc);
    [done || (unfold is_byte; lia)..|].
  destruct (end_group_good src line Hl IH) as (rest & Hg & Hlen & Hu).
  unfold armor_good. cbn [armor_loop]. rewrite E0, E1, E2, E3.
  encode_sextet x0. encode_sextet x1. encode_sextet x2. encode_sextet x3. rewrite Hg. cbn [obind].
  eexists. split; [do 2 f_equal; cbn [length]; lia|]. split.
  - cbn [length] in *. rewrite !Nat2Z.inj_succ.
    replace (Z.succ (Z.succ (Z.succ (Z.of_nat (length src))))) with (Z.of_nat (length src) + 3) by lia.
    lia.
  - intros o. erewrite unarmor_group by done. rewrite Hu. cbn [obind].
    rewrite Da, Db, Dc. do 2 f_equal. cbn [length]. lia.
Qed.

Lemma armor_all_good src : Forall is_byte src -> forall line, line_ok line -> armor_good src line.
Proof.
  remember (length src) as n eqn:Hn. revert src Hn.
  induction (lt_wf n) as [n _ IH]. intros src -> Hb line Hl.
  destruct src as [|a [|b [|c src]]].
  - by apply armor_nil_good.
  - rewrite Forall_cons in Hb. destruct Hb as (? & _). auto using armor_one_good.
  - rewrite !Forall_cons in Hb. destruct Hb as (? & ? & _). auto using armor_two_good.
  - rewrite !Forall_cons in Hb. destruct Hb as (? & ? & ? & ?).
    apply armor_three_good; auto. intros l Hl'. eapply IH; eauto. cbn. lia.
Qed.

(** ** Properties *)

(** Decoding what was encoded gives back the input, of any length: armor
    always succeeds on bytes, and unarmor of its output returns the number of
    input bytes and stores exactly them. *)
Theorem ceph_unarmor_armor src :
  Forall is_byte src ->
  exists out olen,
    ceph_armor src = Ret (out, olen) /\
    ceph_unarmor out = Ret (src, Z.of_nat (length src)).
Proof.
  intros Hb. destruct (armor_all_good src Hb 0) as (out & Ha & _ & Hu); [split; [lia|done]|].
  exists out, (Z.of_nat (length out)). split; [done|]. apply Hu.
Qed.

Lemma ceph_unarmor_armor_witness :
  exists out olen,
    ceph_armor [1; 2; 255; 7] = Ret (out, olen) /\
    ceph_unarmor out = Ret ([1; 2; 255; 7], 4).
Proof. apply (ceph_unarmor_armor [1; 2; 255; 7]). repeat constructor; lia. Defined.

(** The encoder stores exactly the number of bytes it returns: four per
    started group of three, and a newline after every 16 groups.  This is the
    size the caller's buffer must have. *)
Theorem ceph_armor_output_length src :
  Forall is_byte src ->
  exists out,
    ceph_armor src = Ret (out, Z.of_nat (length out)) /\
    let g := groups (Z.of_nat (length src)) in
    Z.of_nat (length out) = 4 * g + g / 16.
Proof.
  intros Hb. destruct (armor_all_good src Hb 0) as (out & Ha & Hl & _); [split; [lia|done]|].
  exists out. split; [done|]. rewrite Hl. unfold armored_len. done.
Qed.

Lemma ceph_armor_output_length_witness :
  exists out,
    ceph_armor (seqZ 0 48) = Ret (out, Z.of_nat (length out)) /\
    let g := groups (Z.of_nat (length (seqZ 0 48))) in
    Z.of_nat (length out) = 4 * g + g / 16.
Proof.
  apply (ceph_armor_output_length (seqZ 0 48)). apply Forall_forall. intros x Hx.
  apply elem_of_seqZ in Hx. unfold is_byte. lia.
Defined.
