(* ===== verification/Crush.v ===== *)
(** * CRUSH maps

    The data of include/linux/crush/crush.h and the accessors of
    net/ceph/crush/crush.c.  A bucket pointer is an index into the map's
    [buckets] array; the array entries may be NULL ([None]).  The permutation
    cache of a bucket ([perm_x], [perm_n], [perm]) is mutable state. *)
From S2P Require Import Prelude.

Definition CRUSH_MAGIC : Z := 0x00010000.
Definition CRUSH_ITEM_UNDEF : Z := 0x7ffffffe.
Definition CRUSH_ITEM_NONE : Z := 0x7fffffff.

Record crush_rule_step := RuleStep { op : Z; arg1 : Z; arg2 : Z }.

Definition CRUSH_RULE_NOOP : Z := 0.
Definition CRUSH_RULE_TAKE : Z := 1.
Definition CRUSH_RULE_CHOOSE_FIRSTN : Z := 2.
Definition CRUSH_RULE_CHOOSE_INDEP : Z := 3.
Definition CRUSH_RULE_EMIT : Z := 4.
Definition CRUSH_RULE_CHOOSELEAF_FIRSTN : Z := 6.
Definition CRUSH_RULE_CHOOSELEAF_INDEP : Z := 7.
Definition CRUSH_RULE_SET_CHOOSE_TRIES : Z := 8.
Definition CRUSH_RULE_SET_CHOOSELEAF_TRIES : Z := 9.
Definition CRUSH_RULE_SET_CHOOSE_LOCAL_TRIES : Z := 10.
Definition CRUSH_RULE_SET_CHOOSE_LOCAL_FALLBACK_TRIES : Z := 11.
Definition CRUSH_RULE_SET_CHOOSELEAF_VARY_R : Z := 12.

Record crush_rule_mask := RuleMask {
  ruleset : Z; mask_type : Z; min_size : Z; max_size : Z }.

(** [steps] has [len] entries. *)
Record crush_rule := Rule {
  rule_len : Z; rule_mask : crush_rule_mask; steps : list crush_rule_step }.

Definition CRUSH_BUCKET_UNIFORM : Z := 1.
Definition CRUSH_BUCKET_LIST : Z := 2.
Definition CRUSH_BUCKET_TREE : Z := 3.
Definition CRUSH_BUCKET_STRAW : Z := 4.

(** The fields that follow the common header [struct crush_bucket h] in the
    four bucket types; a bucket whose [alg] is none of the four has none. *)
Inductive bucket_body : Type :=
  | UniformBody (item_weight : Z)
  | ListBody (item_weights sum_weights : list Z)
  | TreeBody (num_nodes : Z) (node_weights : list Z)
  | StrawBody (item_weights straws : list Z)
  | NoBody.

Record crush_bucket := Bucket {
  b_id : Z;
  b_type : Z;
  b_alg : Z;
  b_hash : Z;
  b_weight : Z;
  b_size : Z;
  b_items : list Z;
  b_perm_x : Z;
  b_perm_n : Z;
  b_perm : list Z;
  b_body : bucket_body }.

Definition set_perm (b : crush_bucket) (x n : Z) (p : list Z) : crush_bucket :=
  Bucket (b_id b) (b_type b) (b_alg b) (b_hash b) (b_weight b) (b_size b)
    (b_items b) x n p (b_body b).

Record crush_map := CrushMap {
  buckets : list (option crush_bucket);
  rules : list (option crush_rule);
  max_buckets : Z;
  max_rules : Z;
  max_devices : Z;
  choose_local_tries : Z;
  choose_local_fallback_tries : Z;
  choose_total_tries : Z;
  chooseleaf_descend_once : Z;
  chooseleaf_vary_r : Z }.

Definition set_buckets (m : crush_map) (bs : list (option crush_bucket)) : crush_map :=
  CrushMap bs (rules m) (max_buckets m) (max_rules m) (max_devices m)
    (choose_local_tries m) (choose_local_fallback_tries m) (choose_total_tries m)
    (chooseleaf_descend_once m) (chooseleaf_vary_r m).

Definition crush_calc_tree_node (i : Z) : Z := Z.shiftl (i + 1) 1 - 1.

(** [crush_get_bucket_item_weight]; reading the fields of another bucket type
    than the allocated one reads outside the object. *)
Definition crush_get_bucket_item_weight (b : crush_bucket) (p : Z) : outcome Z :=
  if b_size b <=? u32 p then Ret 0
  else if b_alg b =? CRUSH_BUCKET_UNIFORM then
    match b_body b with UniformBody w => Ret (s32 w) | _ => Fault OutOfBounds end
  else if b_alg b =? CRUSH_BUCKET_LIST then
    match b_body b with ListBody iw _ => w ← rd iw p; Ret (s32 w) | _ => Fault OutOfBounds end
  else if b_alg b =? CRUSH_BUCKET_TREE then
    match b_body b with
    | TreeBody _ nw => w ← rd nw (crush_calc_tree_node p); Ret (s32 w)
    | _ => Fault OutOfBounds
    end
  else if b_alg b =? CRUSH_BUCKET_STRAW then
    match b_body b with StrawBody iw _ => w ← rd iw p; Ret (s32 w) | _ => Fault OutOfBounds end
  else Ret 0.

(** The bucket a pointer [map->buckets[i]] denotes. *)
Definition get_bucket (m : crush_map) (i : Z) : outcome crush_bucket :=
  p ← rd (buckets m) i; deref p.

(** Store through the pointer [map->buckets[i]]. *)
Definition put_bucket (m : crush_map) (i : Z) (b : crush_bucket) : outcome crush_map :=
  bs ← wr (buckets m) i (Some b); Ret (set_buckets m bs).
