(* ===== verification/Mapper.v ===== *)
(** * The CRUSH mapping algorithm

    Models net/ceph/crush/mapper.c.  [Section BucketChoose] has the choose
    methods of the four bucket types, [Section Choose] the two searches
    ([crush_choose_firstn], [crush_choose_indep]) and the rule interpreter
    [crush_do_rule].  The bucket permutation caches are threaded through
    (the map is returned beside the result).  The scratch vector of
    [crush_do_rule] is one array [mem]; the pointers [out], [out2], [w], [o],
    [c] into it are offsets, so that writes past one of its three parts land in
    the next, as in C, and writes past its end fault.

    Loops the source bounds by data have that bound as their fuel.  The
    searches also take a fuel [fuel], counted per loop, because a map whose
    buckets contain each other makes the C code loop for ever. *)
From S2P Require Import Prelude.
From S2P Require Import Hash.
From S2P Require Import Crush.
Import CrushHash.

Fixpoint find_rule_loop (n : nat) (m : crush_map) (i ruleset_ type size : Z) : outcome Z :=
  match n with
  | O => Ret (-1)
  | S n =>
      r ← rd (rules m) i;
      match r with
      | Some r =>
          if (ruleset (rule_mask r) =? ruleset_) && (mask_type (rule_mask r) =? type) &&
             (min_size (rule_mask r) <=? size) && (size <=? max_size (rule_mask r))
          then Ret (s32 i)
          else find_rule_loop n m (i + 1) ruleset_ type size
      | None => find_rule_loop n m (i + 1) ruleset_ type size
      end
  end.

Definition crush_find_rule (m : crush_map) (ruleset_ type size : Z) : outcome Z :=
  find_rule_loop (Z.to_nat (max_rules m)) m 0 ruleset_ type size.

Section BucketChoose.

(** [for (; i < size; i++) perm[i] = i], [n] iterations *)
Fixpoint perm_fill (n : nat) (i : Z) (perm : list Z) : outcome (list Z) :=
  match n with
  | O => Ret perm
  | S n => perm ← wr perm i i; perm_fill n (i + 1) perm
  end.

(** [while (perm_n <= pr)], entered with [p = perm_n]; [n] iterations *)
Fixpoint perm_advance (n : nat) (b : crush_bucket) (x p : Z) (perm : list Z)
  : outcome (list Z * Z) :=
  match n with
  | O => Ret (perm, p)
  | S n =>
      perm ←
        (if p <? b_size b - 1 then
           let i := crush_hash32_3 (b_hash b) x (b_id b) p mod (b_size b - p) in
           if i =? 0 then Ret perm
           else
             t ← rd perm (p + i);
             v ← rd perm p;
             perm ← wr perm (p + i) v;
             wr perm p t
         else Ret perm);
      perm_advance n b x (p + 1) perm
  end.

(** From "calculate permutation up to pr" on, with the cache at [perm_n],
    [perm]. *)
Definition perm_finish (b : crush_bucket) (x pr perm_x perm_n : Z) (perm : list Z)
  : outcome (Z * crush_bucket) :=
  '(perm, perm_n) ← perm_advance (Z.to_nat (pr + 1 - perm_n)) b x perm_n perm;
  s ← rd perm pr;
  item ← rd (b_items b) s;
  Ret (item, set_perm b perm_x perm_n perm).

Definition bucket_perm_choose (b : crush_bucket) (x r : Z) : outcome (Z * crush_bucket) :=
  if b_size b =? 0 then Fault DivByZero else
  let pr := u32 r mod b_size b in
  if negb (b_perm_x b =? u32 x) || (b_perm_n b =? 0) then
    (* start a new permutation *)
    if pr =? 0 then
      let s := crush_hash32_3 (b_hash b) x (b_id b) 0 mod b_size b in
      perm ← wr (b_perm b) 0 s;
      item ← rd (b_items b) s;
      Ret (item, set_perm b (u32 x) 0xffff perm)
    else
      perm ← perm_fill (Z.to_nat (b_size b)) 0 (b_perm b);
      perm_finish b x pr (u32 x) 0 perm
  else if b_perm_n b =? 0xffff then
    (* clean up after the r=0 case above *)
    perm ← perm_fill (Z.to_nat (b_size b - 1)) 1 (b_perm b);
    p0 ← rd perm 0;
    perm ← wr perm p0 0;
    perm_finish b x pr (b_perm_x b) 1 perm
  else
    perm_finish b x pr (b_perm_x b) (b_perm_n b) (b_perm b).

Definition bucket_uniform_choose (b : crush_bucket) (x r : Z) : outcome (Z * crush_bucket) :=
  bucket_perm_choose b x r.

(** [for (i = size-1; i >= 0; i--)]: [n] is [i + 1] *)
Fixpoint list_choose_loop (n : nat) (b : crush_bucket) (iw sw : list Z) (x r : Z) : outcome Z :=
  match n with
  | O => rd (b_items b) 0
  | S n =>
      let i := Z.of_nat n in
      item ← rd (b_items b) i;
      let w := crush_hash32_4 (b_hash b) x item r (b_id b) in
      let w := Z.land w 0xffff in
      sum ← rd sw i;
      let w := u64 (w * sum) in
      let w := Z.shiftr w 16 in
      weight ← rd iw i;
      if w <? weight then Ret item
      else list_choose_loop n b iw sw x r
  end.

Definition bucket_list_choose (b : crush_bucket) (iw sw : list Z) (x r : Z) : outcome Z :=
  list_choose_loop (Z.to_nat (s32 (b_size b - 1) + 1)) b iw sw x r.

(** [height]: a 32-bit [n] other than 0 has fewer than 32 trailing zeros; for
    [n = 0] the C loop does not end. *)
Fixpoint height_loop (fuel : nat) (h n : Z) : outcome Z :=
  match fuel with
  | O => Fault OutOfFuel
  | S fuel =>
      if Z.land n 1 =? 0 then height_loop fuel (h + 1) (Z.shiftr n 1)
      else Ret h
  end.

Definition height (n : Z) : outcome Z := height_loop 32 0 n.

Definition left (x : Z) : outcome Z :=
  h ← height x;
  if h - 1 <? 0 then Fault BadShift else Ret (x - Z.shiftl 1 (h - 1)).

Definition right (x : Z) : outcome Z :=
  h ← height x;
  if h - 1 <? 0 then Fault BadShift else Ret (x + Z.shiftl 1 (h - 1)).

Definition terminal (x : Z) : bool := negb (Z.land x 1 =? 0).

(** [num_nodes] is a [__u8]: the tree has fewer than 8 levels. *)
Fixpoint tree_choose_loop (fuel : nat) (b : crush_bucket) (nw : list Z) (x r n : Z) : outcome Z :=
  match fuel with
  | O => Fault OutOfFuel
  | S fuel =>
      if terminal n then rd (b_items b) (Z.shiftr n 1)
      else
        w ← rd nw n;
        let t := u64 (crush_hash32_4 (b_hash b) x n r (b_id b) * w) in
        let t := Z.shiftr t 32 in
        l ← left n;
        wl ← rd nw l;
        if t <? wl then tree_choose_loop fuel b nw x r l
        else (rn ← right n; tree_choose_loop fuel b nw x r rn)
  end.

Definition bucket_tree_choose (b : crush_bucket) (num_nodes : Z) (nw : list Z) (x r : Z) : outcome Z :=
  tree_choose_loop 8 b nw x r (Z.shiftr num_nodes 1).

(** [for (i = 0; i < size; i++)], [n] iterations *)
Fixpoint straw_choose_loop (n : nat) (b : crush_bucket) (straws : list Z)
    (x r i high high_draw : Z) : outcome Z :=
  match n with
  | O => rd (b_items b) high
  | S n =>
      item ← rd (b_items b) i;
      let draw := crush_hash32_3 (b_hash b) x item r in
      let draw := Z.land draw 0xffff in
      straw ← rd straws i;
      let draw := u64 (draw * straw) in
      if (i =? 0) || (high_draw <? draw) then
        straw_choose_loop n b straws x r (i + 1) i draw
      else
        straw_choose_loop n b straws x r (i + 1) high high_draw
  end.

Definition bucket_straw_choose (b : crush_bucket) (straws : list Z) (x r : Z) : outcome Z :=
  straw_choose_loop (Z.to_nat (b_size b)) b straws x r 0 0 0.

Definition crush_bucket_choose (b : crush_bucket) (x r : Z) : outcome (Z * crush_bucket) :=
  _ ← bug_on (b_size b =? 0);
  if b_alg b =? CRUSH_BUCKET_UNIFORM then bucket_uniform_choose b x r
  else if b_alg b =? CRUSH_BUCKET_LIST then
    match b_body b with
    | ListBody iw sw => item ← bucket_list_choose b iw sw x r; Ret (item, b)
    | _ => Fault OutOfBounds
    end
  else if b_alg b =? CRUSH_BUCKET_TREE then
    match b_body b with
    | TreeBody nn nw => item ← bucket_tree_choose b nn nw x r; Ret (item, b)
    | _ => Fault OutOfBounds
    end
  else if b_alg b =? CRUSH_BUCKET_STRAW then
    match b_body b with
    | StrawBody _ straws => item ← bucket_straw_choose b straws x r; Ret (item, b)
    | _ => Fault OutOfBounds
    end
  else (item ← rd (b_items b) 0; Ret (item, b)).

End BucketChoose.

(** [is_out]: [weight] is the caller's vector, [weight_max] its length as the
    caller states it. *)
Definition is_out (weight : list Z) (weight_max item x : Z) : outcome bool :=
  if weight_max <=? item then Ret true
  else
    w ← rd weight item;
    if 0x10000 <=? w then Ret false
    else if w =? 0 then Ret true
    else if Z.land (crush_hash32_2 CRUSH_HASH_RJENKINS1 x item) 0xffff <? w then Ret false
    else Ret true.

(** ** crush_choose_firstn *)
Record firstn_args := FirstnArgs {
  fa_bucket : Z;              (* index of the bucket to choose from *)
  fa_numrep : Z;
  fa_type : Z;
  fa_out : Z;                 (* offset of out in the scratch vector *)
  fa_outpos : Z;
  fa_tries : Z;
  fa_recurse_tries : Z;
  fa_local_retries : Z;
  fa_local_fallback_retries : Z;
  fa_recurse_to_leaf : bool;
  fa_vary_r : Z;
  fa_out2 : option Z;         (* offset of out2, or NULL *)
  fa_parent_r : Z }.

(** The result of one pass through the inner loop body, up to the label
    [reject]. *)
Inductive firstn_pass :=
  | Got (item : Z)            (* accepted *)
  | Skip                      (* skip_rep = 1; break *)
  | Into (bucket : Z)         (* in = map->buckets[-1-item]; continue *)
  | Rejected (collide : bool).

(** What the code after the label [reject] decides. *)
Inductive retry := RetryBucket | RetryDescent | GiveUp.

(** How a search over one descent, or over all descents, ends. *)
Inductive descent := Chosen (item : Z) | SkipRep | Redescend (ftotal : Z).

(** [for (i = from; i < to; i++) if (out[i] == item) ...], [n] iterations *)
Fixpoint collides (n : nat) (mem : list Z) (out i item : Z) : outcome bool :=
  match n with
  | O => Ret false
  | S n =>
      v ← rd mem (out + i);
      if v =? item then Ret true else collides n mem out (i + 1) item
  end.

(** [if (item < 0) itemtype = map->buckets[-1-item]->type; else itemtype = 0] *)
Definition item_type (m : crush_map) (item : Z) : outcome Z :=
  if item <? 0 then b ← get_bucket m (-1 - item); Ret (b_type b) else Ret 0.

Section Choose.
Context (weight : list Z) (weight_max x : Z).

Section Firstn.
(** The recursive call of [crush_choose_firstn]. *)
Context (self : crush_map -> list Z -> firstn_args -> outcome (Z * crush_map * list Z)).
Context (a : firstn_args).

Definition firstn_choose_item (b : crush_bucket) (r flocal : Z) : outcome (Z * crush_bucket) :=
  if (0 <? fa_local_fallback_retries a) &&
     (Z.shiftr (b_size b) 1 <=? flocal) &&
     (fa_local_fallback_retries a <? flocal)
  then bucket_perm_choose b x r
  else crush_bucket_choose b x r.

(** [if (!collide && recurse_to_leaf) ...]: the new [reject]. *)
Definition firstn_leaf (m : crush_map) (mem : list Z) (collide : bool) (item outpos r : Z)
  : outcome (bool * crush_map * list Z) :=
  if negb collide && fa_recurse_to_leaf a then
    if item <? 0 then
      sub_r ←
        (if fa_vary_r a =? 0 then Ret 0
         else if 32 <=? fa_vary_r a - 1 then Fault BadShift
         else Ret (Z.shiftr r (fa_vary_r a - 1)));
      out2 ← deref (fa_out2 a);
      '(n, m, mem) ← self m mem
        (FirstnArgs (-1 - item) (outpos + 1) 0 out2 outpos (fa_recurse_tries a) 0
           (fa_local_retries a) (fa_local_fallback_retries a) false (fa_vary_r a) None sub_r);
      Ret (n <=? outpos, m, mem)
    else
      out2 ← deref (fa_out2 a);
      mem ← wr mem (out2 + outpos) item;
      Ret (false, m, mem)
  else Ret (false, m, mem).

Definition firstn_pass_body (m : crush_map) (mem : list Z) (in_ rep outpos ftotal flocal : Z)
  : outcome (firstn_pass * crush_map * list Z) :=
  b ← get_bucket m in_;
  let r := s32 (s32 (rep + fa_parent_r a) + ftotal) in
  if b_size b =? 0 then Ret (Rejected false, m, mem)
  else
    '(item, b) ← firstn_choose_item b r flocal;
    m ← put_bucket m in_ b;
    if max_devices m <=? item then Ret (Skip, m, mem)
    else
      itemtype ← item_type m item;
      if negb (itemtype =? fa_type a) then
        if (0 <=? item) || (max_buckets m <=? -1 - item) then Ret (Skip, m, mem)
        else Ret (Into (-1 - item), m, mem)
      else
        collide ← collides (Z.to_nat outpos) mem (fa_out a) 0 item;
        '(reject, m, mem) ← firstn_leaf m mem collide item outpos r;
        reject ←
          (if reject then Ret true
           else if itemtype =? 0 then is_out weight weight_max item x
           else Ret false);
        if reject || collide then Ret (Rejected collide, m, mem)
        else Ret (Got item, m, mem).

Definition reject_action (collide : bool) (in_size ftotal flocal : Z) : retry :=
  if collide && (flocal <=? fa_local_retries a) then RetryBucket
  else if (0 <? fa_local_fallback_retries a) &&
          (flocal <=? u32 (in_size + fa_local_fallback_retries a)) then RetryBucket
  else if ftotal <? fa_tries a then RetryDescent
  else GiveUp.

(** [do { ... } while (retry_bucket)] *)
Fixpoint firstn_inner (fuel : nat) (m : crush_map) (mem : list Z)
    (in_ rep outpos ftotal flocal : Z) : outcome (descent * crush_map * list Z) :=
  match fuel with
  | O => Fault OutOfFuel
  | S fuel =>
      '(res, m, mem) ← firstn_pass_body m mem in_ rep outpos ftotal flocal;
      match res with
      | Got item => Ret (Chosen item, m, mem)
      | Skip => Ret (SkipRep, m, mem)
      | Into in' => firstn_inner fuel m mem in' rep outpos ftotal flocal
      | Rejected collide =>
          let ftotal := u32 (ftotal + 1) in
          let flocal := u32 (flocal + 1) in
          b ← get_bucket m in_;
          match reject_action collide (b_size b) ftotal flocal with
          | RetryBucket => firstn_inner fuel m mem in_ rep outpos ftotal flocal
          | RetryDescent => Ret (Redescend ftotal, m, mem)
          | GiveUp => Ret (SkipRep, m, mem)
          end
      end
  end.

(** [do { ... } while (retry_descent)]: [None] when the replica is skipped *)
Fixpoint firstn_descents (n fuel : nat) (m : crush_map) (mem : list Z)
    (rep outpos ftotal : Z) : outcome (option Z * crush_map * list Z) :=
  match n with
  | O => Fault OutOfFuel
  | S n =>
      '(res, m, mem) ← firstn_inner fuel m mem (fa_bucket a) rep outpos ftotal 0;
      match res with
      | Chosen item => Ret (Some item, m, mem)
      | SkipRep => Ret (None, m, mem)
      | Redescend ftotal => firstn_descents n fuel m mem rep outpos ftotal
      end
  end.

(** [for (rep = outpos; rep < numrep; rep++)], [n] iterations left *)
Fixpoint firstn_reps (n fuel : nat) (m : crush_map) (mem : list Z) (rep outpos : Z)
  : outcome (Z * crush_map * list Z) :=
  match n with
  | O => Ret (outpos, m, mem)
  | S n =>
      '(res, m, mem) ← firstn_descents fuel fuel m mem rep outpos 0;
      match res with
      | None => firstn_reps n fuel m mem (rep + 1) outpos
      | Some item =>
          mem ← wr mem (fa_out a + outpos) item;
          firstn_reps n fuel m mem (rep + 1) (outpos + 1)
      end
  end.

End Firstn.

(** The recursive call has [recurse_to_leaf = 0], so that [depth] 2 is enough. *)
Fixpoint crush_choose_firstn (depth fuel : nat) (m : crush_map) (mem : list Z) (a : firstn_args)
  : outcome (Z * crush_map * list Z) :=
  match depth with
  | O => Fault OutOfFuel
  | S depth =>
      firstn_reps (crush_choose_firstn depth fuel) a
        (Z.to_nat (fa_numrep a - fa_outpos a)) fuel m mem (fa_outpos a) (fa_outpos a)
  end.

(** ** crush_choose_indep *)
Record indep_args := IndepArgs {
  ia_bucket : Z;
  ia_left : Z;
  ia_numrep : Z;
  ia_type : Z;
  ia_out : Z;
  ia_outpos : Z;
  ia_tries : Z;
  ia_recurse_tries : Z;
  ia_recurse_to_leaf : bool;
  ia_out2 : option Z;
  ia_parent_r : Z }.

(** The result of one pass through the body of [for (;;)]. *)
Inductive indep_pass :=
  | Placed                    (* out[rep] = item; left--; break *)
  | BadItem                   (* out[rep] = CRUSH_ITEM_NONE; left--; break *)
  | Unplaced                  (* break *)
  | IntoBucket (bucket : Z).  (* in = map->buckets[-1-item]; continue *)

(** [if (out2) out2[rep] = v] *)
Definition wr_out2 (mem : list Z) (out2 : option Z) (rep v : Z) : outcome (list Z) :=
  match out2 with
  | Some o => wr mem (o + rep) v
  | None => Ret mem
  end.

(** [for (; rep < endpos; rep++) out[rep] = out2[rep] = CRUSH_ITEM_UNDEF] *)
Fixpoint indep_init (n : nat) (mem : list Z) (out : Z) (out2 : option Z) (rep : Z)
  : outcome (list Z) :=
  match n with
  | O => Ret mem
  | S n =>
      mem ← wr mem (out + rep) CRUSH_ITEM_UNDEF;
      mem ← wr_out2 mem out2 rep CRUSH_ITEM_UNDEF;
      indep_init n mem out out2 (rep + 1)
  end.

(** The final loop: an undefined position becomes CRUSH_ITEM_NONE. *)
Fixpoint indep_finish (n : nat) (mem : list Z) (out : Z) (out2 : option Z) (rep : Z)
  : outcome (list Z) :=
  match n with
  | O => Ret mem
  | S n =>
      v ← rd mem (out + rep);
      mem ← (if v =? CRUSH_ITEM_UNDEF then wr mem (out + rep) CRUSH_ITEM_NONE else Ret mem);
      mem ←
        match out2 with
        | Some o =>
            v ← rd mem (o + rep);
            if v =? CRUSH_ITEM_UNDEF then wr mem (o + rep) CRUSH_ITEM_NONE else Ret mem
        | None => Ret mem
        end;
      indep_finish n mem out out2 (rep + 1)
  end.

Section Indep.
Context (self : crush_map -> list Z -> indep_args -> outcome (crush_map * list Z)).
Context (a : indep_args).

(** [r], which depends on the bucket reached; [numrep] and [ftotal] are
    multiplied as unsigned. *)
Definition indep_r (b : crush_bucket) (rep ftotal : Z) : outcome Z :=
  let r := s32 (rep + ia_parent_r a) in
  if b_alg b =? CRUSH_BUCKET_UNIFORM then
    if u32 (ia_numrep a) =? 0 then Fault DivByZero
    else if b_size b mod u32 (ia_numrep a) =? 0
    then Ret (s32 (r + u32 ((ia_numrep a + 1) * ftotal)))
    else Ret (s32 (r + u32 (ia_numrep a * ftotal)))
  else Ret (s32 (r + u32 (ia_numrep a * ftotal))).

(** [if (recurse_to_leaf) ...]: [false] when the loop is left without a leaf *)
Definition indep_leaf (m : crush_map) (mem : list Z) (item rep r : Z)
  : outcome (bool * crush_map * list Z) :=
  if ia_recurse_to_leaf a then
    out2 ← deref (ia_out2 a);
    if item <? 0 then
      '(m, mem) ← self m mem
        (IndepArgs (-1 - item) 1 (ia_numrep a) 0 out2 rep (ia_recurse_tries a) 0 false None r);
      v ← rd mem (out2 + rep);
      Ret (negb (v =? CRUSH_ITEM_NONE), m, mem)
    else
      mem ← wr mem (out2 + rep) item;
      Ret (true, m, mem)
  else Ret (true, m, mem).

(** [out[rep] = CRUSH_ITEM_NONE; if (out2) out2[rep] = CRUSH_ITEM_NONE] *)
Definition indep_bad (m : crush_map) (mem : list Z) (rep : Z)
  : outcome (indep_pass * crush_map * list Z) :=
  mem ← wr mem (ia_out a + rep) CRUSH_ITEM_NONE;
  mem ← wr_out2 mem (ia_out2 a) rep CRUSH_ITEM_NONE;
  Ret (BadItem, m, mem).

Definition indep_pass_body (m : crush_map) (mem : list Z) (in_ rep ftotal : Z)
  : outcome (indep_pass * crush_map * list Z) :=
  b ← get_bucket m in_;
  r ← indep_r b rep ftotal;
  if b_size b =? 0 then Ret (Unplaced, m, mem)
  else
    '(item, b) ← crush_bucket_choose b x r;
    m ← put_bucket m in_ b;
    if max_devices m <=? item then indep_bad m mem rep
    else
      itemtype ← item_type m item;
      if negb (itemtype =? ia_type a) then
        if (0 <=? item) || (max_buckets m <=? -1 - item) then indep_bad m mem rep
        else Ret (IntoBucket (-1 - item), m, mem)
      else
        collide ← collides (Z.to_nat (ia_left a)) mem (ia_out a) (ia_outpos a) item;
        if (collide : bool) then Ret (Unplaced, m, mem)
        else
          '(leaf, m, mem) ← indep_leaf m mem item rep r;
          if negb leaf then Ret (Unplaced, m, mem)
          else
            out_ ← (if itemtype =? 0 then is_out weight weight_max item x else Ret false);
            if (out_ : bool) then Ret (Unplaced, m, mem)
            else
              mem ← wr mem (ia_out a + rep) item;
              Ret (Placed, m, mem).

(** [for (;;)]: whether [left] was decremented *)
Fixpoint indep_descend (fuel : nat) (m : crush_map) (mem : list Z) (in_ rep ftotal : Z)
  : outcome (bool * crush_map * list Z) :=
  match fuel with
  | O => Fault OutOfFuel
  | S fuel =>
      '(res, m, mem) ← indep_pass_body m mem in_ rep ftotal;
      match res with
      | Placed | BadItem => Ret (true, m, mem)
      | Unplaced => Ret (false, m, mem)
      | IntoBucket in' => indep_descend fuel m mem in' rep ftotal
      end
  end.

(** [for (rep = outpos; rep < endpos; rep++)], [n] iterations left *)
Fixpoint indep_reps (n fuel : nat) (m : crush_map) (mem : list Z) (rep left ftotal : Z)
  : outcome (Z * crush_map * list Z) :=
  match n with
  | O => Ret (left, m, mem)
  | S n =>
      v ← rd mem (ia_out a + rep);
      if negb (v =? CRUSH_ITEM_UNDEF) then indep_reps n fuel m mem (rep + 1) left ftotal
      else
        '(dec, m, mem) ← indep_descend fuel m mem (ia_bucket a) rep ftotal;
        indep_reps n fuel m mem (rep + 1) (if (dec : bool) then left - 1 else left) ftotal
  end.

(** [for (ftotal = 0; left > 0 && ftotal < tries; ftotal++)] *)
Fixpoint indep_tries (n fuel : nat) (m : crush_map) (mem : list Z) (left ftotal : Z)
  : outcome (crush_map * list Z) :=
  match n with
  | O => Ret (m, mem)
  | S n =>
      if 0 <? left then
        '(left, m, mem) ←
          indep_reps (Z.to_nat (ia_left a)) fuel m mem (ia_outpos a) left ftotal;
        indep_tries n fuel m mem left (ftotal + 1)
      else Ret (m, mem)
  end.

End Indep.

Fixpoint crush_choose_indep (depth fuel : nat) (m : crush_map) (mem : list Z) (a : indep_args)
  : outcome (crush_map * list Z) :=
  match depth with
  | O => Fault OutOfFuel
  | S depth =>
      let n := Z.to_nat (ia_left a) in
      mem ← indep_init n mem (ia_out a) (ia_out2 a) (ia_outpos a);
      '(m, mem) ← indep_tries (crush_choose_indep depth fuel) a
        (Z.to_nat (ia_tries a)) fuel m mem (ia_left a) 0;
      mem ← indep_finish n mem (ia_out a) (ia_out2 a) (ia_outpos a);
      Ret (m, mem)
  end.

End Choose.

(** ** crush_do_rule *)

(** The local variables of [crush_do_rule] that change from step to step: the
    scratch vector, the offsets of [w] and [o] in it, [wsize], the result
    vector and its length, and the tunables a rule can override. *)
Record rule_state := RuleState {
  rs_map : crush_map;
  rs_mem : list Z;
  rs_w : Z;
  rs_o : Z;
  rs_wsize : Z;
  rs_result : list Z;
  rs_result_len : Z;
  rs_choose_tries : Z;
  rs_choose_leaf_tries : Z;
  rs_local_retries : Z;
  rs_local_fallback_retries : Z;
  rs_vary_r : Z }.

Definition rs_with_work (s : rule_state) (m : crush_map) (mem : list Z) (w o wsize : Z) :=
  RuleState m mem w o wsize (rs_result s) (rs_result_len s) (rs_choose_tries s)
    (rs_choose_leaf_tries s) (rs_local_retries s) (rs_local_fallback_retries s) (rs_vary_r s).
Definition rs_with_result (s : rule_state) (wsize : Z) (result : list Z) (len : Z) :=
  RuleState (rs_map s) (rs_mem s) (rs_w s) (rs_o s) wsize result len (rs_choose_tries s)
    (rs_choose_leaf_tries s) (rs_local_retries s) (rs_local_fallback_retries s) (rs_vary_r s).
Definition rs_with_tunables (s : rule_state) (tries leaf_tries local fallback vary_r : Z) :=
  RuleState (rs_map s) (rs_mem s) (rs_w s) (rs_o s) (rs_wsize s) (rs_result s)
    (rs_result_len s) tries leaf_tries local fallback vary_r.

Section DoRule.
Context (weight : list Z) (weight_max x result_max : Z) (fuel : nat).

(** One iteration of [for (i = 0; i < wsize; i++)] of a choose step; returns
    the new [osize]. *)
Definition choose_one (s : rule_state) (st : crush_rule_step) (firstn recurse_to_leaf : bool)
    (m : crush_map) (mem : list Z) (i osize : Z) : outcome (Z * crush_map * list Z) :=
  let c := result_max * 2 in
  let numrep := if arg1 st <=? 0 then s32 (arg1 st + result_max) else arg1 st in
  if numrep <=? 0 then Ret (osize, m, mem)
  else
    wi ← rd mem (rs_w s + i);
    _ ← rd (buckets m) (-1 - wi);
    if firstn then
      let recurse_tries :=
        if negb (rs_choose_leaf_tries s =? 0) then rs_choose_leaf_tries s
        else if negb (chooseleaf_descend_once m =? 0) then 1
        else rs_choose_tries s in
      '(n, m, mem) ← crush_choose_firstn weight weight_max x 2 fuel m mem
        (FirstnArgs (-1 - wi) numrep (arg2 st) (rs_o s + osize) 0
           (u32 (rs_choose_tries s)) (u32 recurse_tries) (u32 (rs_local_retries s))
           (u32 (rs_local_fallback_retries s)) recurse_to_leaf (u32 (rs_vary_r s))
           (Some (c + osize)) 0);
      Ret (osize + n, m, mem)
    else
      let recurse_tries :=
        if negb (rs_choose_leaf_tries s =? 0) then rs_choose_leaf_tries s else 1 in
      '(m, mem) ← crush_choose_indep weight weight_max x 2 fuel m mem
        (IndepArgs (-1 - wi) numrep numrep (arg2 st) (rs_o s + osize) 0
           (u32 (rs_choose_tries s)) (u32 recurse_tries) recurse_to_leaf
           (Some (c + osize)) 0);
      Ret (osize + numrep, m, mem).

Fixpoint choose_all (n : nat) (s : rule_state) (st : crush_rule_step)
    (firstn recurse_to_leaf : bool) (m : crush_map) (mem : list Z) (i osize : Z)
  : outcome (Z * crush_map * list Z) :=
  match n with
  | O => Ret (osize, m, mem)
  | S n =>
      '(osize, m, mem) ← choose_one s st firstn recurse_to_leaf m mem i osize;
      choose_all n s st firstn recurse_to_leaf m mem (i + 1) osize
  end.

(** [memcpy(o, c, n)] within the scratch vector *)
Fixpoint copy_mem (n : nat) (mem : list Z) (dst src : Z) : outcome (list Z) :=
  match n with
  | O => Ret mem
  | S n =>
      v ← rd mem src;
      mem ← wr mem dst v;
      copy_mem n mem (dst + 1) (src + 1)
  end.

Definition do_choose (s : rule_state) (st : crush_rule_step) (firstn recurse_to_leaf : bool)
  : outcome rule_state :=
  if rs_wsize s =? 0 then Ret s
  else
    '(osize, m, mem) ←
      choose_all (Z.to_nat (rs_wsize s)) s st firstn recurse_to_leaf (rs_map s) (rs_mem s) 0 0;
    mem ←
      (if recurse_to_leaf then copy_mem (Z.to_nat osize) mem (rs_o s) (result_max * 2)
       else Ret mem);
    Ret (rs_with_work s m mem (rs_o s) (rs_w s) osize).

(** [for (i = 0; i < wsize && result_len < result_max; i++)] *)
Fixpoint emit_loop (n : nat) (s : rule_state) (i : Z) (result : list Z) (len : Z)
  : outcome (list Z * Z) :=
  match n with
  | O => Ret (result, len)
  | S n =>
      if len <? result_max then
        v ← rd (rs_mem s) (rs_w s + i);
        result ← wr result len v;
        emit_loop n s (i + 1) result (len + 1)
      else Ret (result, len)
  end.

Definition do_step (s : rule_state) (st : crush_rule_step) : outcome rule_state :=
  if op st =? CRUSH_RULE_TAKE then
    mem ← wr (rs_mem s) (rs_w s) (arg1 st);
    Ret (rs_with_work s (rs_map s) mem (rs_w s) (rs_o s) 1)
  else if op st =? CRUSH_RULE_SET_CHOOSE_TRIES then
    Ret (if 0 <? arg1 st then
           rs_with_tunables s (arg1 st) (rs_choose_leaf_tries s) (rs_local_retries s)
             (rs_local_fallback_retries s) (rs_vary_r s)
         else s)
  else if op st =? CRUSH_RULE_SET_CHOOSELEAF_TRIES then
    Ret (if 0 <? arg1 st then
           rs_with_tunables s (rs_choose_tries s) (arg1 st) (rs_local_retries s)
             (rs_local_fallback_retries s) (rs_vary_r s)
         else s)
  else if op st =? CRUSH_RULE_SET_CHOOSE_LOCAL_TRIES then
    Ret (if 0 <=? arg1 st then
           rs_with_tunables s (rs_choose_tries s) (rs_choose_leaf_tries s) (arg1 st)
             (rs_local_fallback_retries s) (rs_vary_r s)
         else s)
  else if op st =? CRUSH_RULE_SET_CHOOSE_LOCAL_FALLBACK_TRIES then
    Ret (if 0 <=? arg1 st then
           rs_with_tunables s (rs_choose_tries s) (rs_choose_leaf_tries s)
             (rs_local_retries s) (arg1 st) (rs_vary_r s)
         else s)
  else if op st =? CRUSH_RULE_SET_CHOOSELEAF_VARY_R then
    Ret (if 0 <=? arg1 st then
           rs_with_tunables s (rs_choose_tries s) (rs_choose_leaf_tries s)
             (rs_local_retries s) (rs_local_fallback_retries s) (arg1 st)
         else s)
  else if (op st =? CRUSH_RULE_CHOOSELEAF_FIRSTN) || (op st =? CRUSH_RULE_CHOOSE_FIRSTN) then
    do_choose s st true (op st =? CRUSH_RULE_CHOOSELEAF_FIRSTN)
  else if (op st =? CRUSH_RULE_CHOOSELEAF_INDEP) || (op st =? CRUSH_RULE_CHOOSE_INDEP) then
    do_choose s st false (op st =? CRUSH_RULE_CHOOSELEAF_INDEP)
  else if op st =? CRUSH_RULE_EMIT then
    '(result, len) ←
      emit_loop (Z.to_nat (rs_wsize s)) s 0 (rs_result s) (rs_result_len s);
    Ret (rs_with_result s 0 result len)
  else Ret s.

(** [for (step = 0; step < rule->len; step++)], [n] iterations left *)
Fixpoint do_steps (n : nat) (r : crush_rule) (step : Z) (s : rule_state) : outcome rule_state :=
  match n with
  | O => Ret s
  | S n =>
      st ← rd (steps r) step;
      s ← do_step s st;
      do_steps n r (step + 1) s
  end.

(** [crush_do_rule]: the result vector and its length, and the map (whose
    permutation caches have changed). *)
Definition crush_do_rule (m : crush_map) (ruleno : Z) (result scratch : list Z)
  : outcome (list Z * Z * crush_map) :=
  if max_rules m <=? u32 ruleno then Ret (result, 0, m)
  else
    p ← rd (rules m) ruleno;
    r ← deref p;
    s ← do_steps (Z.to_nat (rule_len r)) r 0
      (RuleState m scratch 0 result_max 0 result 0
         (s32 (choose_total_tries m + 1)) 0 (s32 (choose_local_tries m))
         (s32 (choose_local_fallback_tries m)) (chooseleaf_vary_r m));
    Ret (rs_result s, rs_result_len s, rs_map s).

End DoRule.
