(* ===== verification/PermChoose.v ===== *)
(** * The bucket permutation cache

    [bucket_perm_choose] (mapper.c) computes a random permutation of a bucket
    lazily and caches its prefix in the bucket, with a special encoding of the
    common first choice.  This file states the permutation itself ([shuffle], a
    complete Fisher-Yates shuffle keyed by the hash) and shows that the cached,
    incremental routine always returns the entry of that shuffle. *)
From S2P Require Import Prelude.
From S2P Require Import Hash.
From S2P Require Import Crush.
From S2P Require Import Mapper.
Import CrushHash.

(** ** The reference permutation *)
Definition swap_at (l : list Z) (i j : nat) : list Z :=
  match l !! i, l !! j with
  | Some a, Some b => <[i := b]> (<[j := a]> l)
  | _, _ => l
  end.

(** The position swapped with position [p] when [p] entries are fixed. *)
Definition swap_target (b : crush_bucket) (x : Z) (p : nat) : nat :=
  if Z.of_nat p <? b_size b - 1 then
    (p + Z.to_nat (crush_hash32_3 (b_hash b) x (b_id b) (Z.of_nat p)
                     mod (b_size b - Z.of_nat p)))%nat
  else p.

(** The permutation of [0 .. size-1] with its first [k] entries drawn. *)
Fixpoint shuffle (b : crush_bucket) (x : Z) (k : nat) : list Z :=
  match k with
  | O => seqZ 0 (b_size b)
  | S p => swap_at (shuffle b x p) p (swap_target b x p)
  end.

(** The [r]-th choice: the item at the [r mod size]-th entry of the complete
    shuffle. *)
Definition perm_choose_ref (b : crush_bucket) (x r : Z) : option Z :=
  match shuffle b x (Z.to_nat (b_size b)) !! Z.to_nat (u32 r mod b_size b) with
  | Some s => b_items b !! Z.to_nat s
  | None => None
  end.

(** The cache holds a prefix of the shuffle for [perm_x]; the magic value
    0xffff says that only the first entry is valid. *)
Definition perm_cache_ok (b : crush_bucket) : Prop :=
  Z.of_nat (length (b_perm b)) = b_size b /\
  (b_perm_n b = 0 \/
   0 < b_size b /\ 0 <= b_perm_x b < 2 ^ 32 /\
   (b_perm_n b = 0xffff /\ b_perm b !! 0%nat = shuffle b (b_perm_x b) 1 !! 0%nat \/
    0 < b_perm_n b <= b_size b /\ b_perm b = shuffle b (b_perm_x b) (Z.to_nat (b_perm_n b)))).

(** Equality of buckets up to the cache. *)
Definition same_bucket (b b' : crush_bucket) : Prop :=
  b' = set_perm b (b_perm_x b') (b_perm_n b') (b_perm b').

(** ** Swaps *)
Lemma length_swap_at l i j : length (swap_at l i j) = length l.
Proof. unfold swap_at. repeat case_match; rewrite ?length_insert; done. Qed.

Lemma swap_at_same l i : swap_at l i i = l.
Proof.
  unfold swap_at. destruct (l !! i) as [v|] eqn:E; [|done].
  rewrite list_insert_insert_eq. by apply list_insert_id.
Qed.

Lemma swap_at_lookup l i j k :
  (i < length l)%nat -> (j < length l)%nat ->
  swap_at l i j !! k =
  if decide (k = i) then l !! j else if decide (k = j) then l !! i else l !! k.
Proof.
  intros Hi Hj. unfold swap_at.
  destruct (lookup_lt_is_Some_2 l i Hi) as [a Ha].
  destruct (lookup_lt_is_Some_2 l j Hj) as [b Hb]. rewrite Ha, Hb.
  rewrite !list_lookup_insert, length_insert.
  repeat case_decide; naive_solver.
Qed.

Lemma swap_at_Permutation l i j : swap_at l i j ≡ₚ l.
Proof.
  destruct (decide (i < length l)%nat) as [Hi|Hi].
  2:{ unfold swap_at. by rewrite (lookup_ge_None_2 l i) by lia. }
  destruct (decide (j < length l)%nat) as [Hj|Hj].
  2:{ unfold swap_at. rewrite (lookup_ge_None_2 l j) by lia. by case_match. }
  apply Permutation_inj. split; [apply length_swap_at|].
  exists (fun k => if decide (k = i) then j else if decide (k = j) then i else k).
  split.
  - intros k1 k2. repeat case_decide; congruence.
  - intros k. rewrite swap_at_lookup by done. by repeat case_decide.
Qed.

(** ** The shuffle *)
Section Shuffle.
Context (b : crush_bucket) (x : Z).
Implicit Types (k p : nat).

Lemma length_shuffle k : length (shuffle b x k) = Z.to_nat (b_size b).
Proof. induction k; cbn [shuffle]; rewrite ?length_swap_at; [apply length_seqZ|done]. Qed.

Lemma shuffle_Permutation k : shuffle b x k ≡ₚ seqZ 0 (b_size b).
Proof. induction k; cbn [shuffle]; [done|]. by rewrite swap_at_Permutation. Qed.

Lemma swap_target_range p :
  (p < Z.to_nat (b_size b))%nat -> (p <= swap_target b x p < Z.to_nat (b_size b))%nat.
Proof.
  intros Hp. unfold swap_target. case_Zb; [|lia].
  pose proof (Z.mod_pos_bound (crush_hash32_3 (b_hash b) x (b_id b) (Z.of_nat p))
                (b_size b - Z.of_nat p)). lia.
Qed.

(** Entries already drawn do not change any more. *)
Lemma shuffle_stable k p :
  (p < k)%nat -> (k <= Z.to_nat (b_size b))%nat ->
  shuffle b x k !! p = shuffle b x (S p) !! p.
Proof.
  induction k as [|k IH]; [lia|]. intros Hp Hk.
  destruct (decide (p = k)) as [->|]; [done|].
  rewrite <- IH by lia. cbn [shuffle]. pose proof (swap_target_range k).
  rewrite swap_at_lookup by (rewrite length_shuffle; lia).
  repeat case_decide; try lia. done.
Qed.

Lemma shuffle_entry_range k p s :
  shuffle b x k !! p = Some s -> 0 <= s < b_size b.
Proof.
  intros Hs%list_elem_of_lookup_2. rewrite shuffle_Permutation in Hs.
  apply elem_of_seqZ in Hs. lia.
Qed.

Lemma shuffle_entry k p :
  (p < Z.to_nat (b_size b))%nat -> exists s, shuffle b x k !! p = Some s.
Proof. intros. apply lookup_lt_is_Some_2. by rewrite length_shuffle. Qed.

(** The first entry, as the r = 0 shortcut computes it. *)
Lemma shuffle_first :
  0 < b_size b ->
  shuffle b x 1 !! 0%nat = Some (crush_hash32_3 (b_hash b) x (b_id b) 0 mod b_size b).
Proof.
  intros Hs. cbn [shuffle]. pose proof (swap_target_range 0) as Ht.
  rewrite swap_at_lookup by (rewrite length_seqZ; lia). rewrite decide_True by done.
  rewrite lookup_seqZ_lt by lia. f_equal. unfold swap_target. change (Z.of_nat 0) with 0. rewrite !Z.sub_0_r.
  pose proof (Z.mod_pos_bound (crush_hash32_3 (b_hash b) x (b_id b) 0) (b_size b)) as Hm.
  case_Zb; [lia|].
  replace (b_size b) with 1 in * by lia. lia.
Qed.

End Shuffle.

Lemma crush_hash32_3_u32 h x i p :
  crush_hash32_3 h (u32 x) i p = crush_hash32_3 h x i p.
Proof. unfold crush_hash32_3, crush_hash32_rjenkins1_3. by rewrite u32_idem. Qed.

Lemma shuffle_u32 b x k : shuffle b (u32 x) k = shuffle b x k.
Proof.
  induction k as [|k IH]; [done|]. cbn [shuffle]. rewrite IH. f_equal.
  unfold swap_target. by rewrite crush_hash32_3_u32.
Qed.

Lemma shuffle_set_perm b y n p x k : shuffle (set_perm b y n p) x k = shuffle b x k.
Proof.
  induction k as [|k IH]; [done|]. cbn [shuffle]. by rewrite IH.
Qed.

(** ** The loops of [bucket_perm_choose] *)
Lemma perm_fill_spec n i perm :
  0 <= i -> i + Z.of_nat n <= Z.of_nat (length perm) ->
  exists perm', perm_fill n i perm = Ret perm' /\ length perm' = length perm /\
    forall k, perm' !! k =
      if decide (i <= Z.of_nat k < i + Z.of_nat n) then Some (Z.of_nat k) else perm !! k.
Proof.
  revert i perm. induction n as [|n IH]; intros i perm Hi Hn; cbn [perm_fill].
  { exists perm. split_and!; [done..|]. intros k. rewrite decide_False by lia. done. }
  rewrite wr_total by lia. cbn [obind].
  destruct (IH (i + 1) (<[Z.to_nat i := i]> perm)) as (perm' & -> & Hlen & Hk);
    [lia|rewrite length_insert; lia|].
  exists perm'. split; [done|]. rewrite Hlen, length_insert. split; [done|].
  intros k. rewrite Hk, list_lookup_insert. repeat case_decide; try lia; f_equal; lia.
Qed.

Lemma perm_fill_identity b perm :
  0 <= b_size b -> Z.of_nat (length perm) = b_size b ->
  perm_fill (Z.to_nat (b_size b)) 0 perm = Ret (seqZ 0 (b_size b)).
Proof.
  intros Hs Hl. destruct (perm_fill_spec (Z.to_nat (b_size b)) 0 perm) as (p & -> & Hp & Hk);
    [lia..|]. f_equal. apply list_eq. intros k. rewrite Hk. case_decide.
  - rewrite lookup_seqZ_lt by lia. f_equal; lia.
  - rewrite lookup_seqZ_ge, lookup_ge_None_2 by lia. done.
Qed.

Lemma shuffle_1_lookup b x s k :
  0 < b_size b -> shuffle b x 1 !! 0%nat = Some s ->
  shuffle b x 1 !! k =
  if decide (k = 0%nat) then Some s else if decide (k = Z.to_nat s) then Some 0
  else seqZ 0 (b_size b) !! k.
Proof.
  intros Hs H0. pose proof (swap_target_range b x 0) as Ht.
  cbn [shuffle] in *. rewrite swap_at_lookup in * by (rewrite length_seqZ; lia).
  rewrite decide_True in H0 by done. rewrite lookup_seqZ_lt in H0 by lia.
  assert (swap_target b x 0 = Z.to_nat s) as E by (injection H0; lia). rewrite E in *.
  repeat case_decide; try done; rewrite lookup_seqZ_lt by lia; f_equal; injection H0; lia.
Qed.

Lemma perm_cleanup_spec b x perm :
  0 < b_size b -> Z.of_nat (length perm) = b_size b ->
  perm !! 0%nat = shuffle b x 1 !! 0%nat ->
  (perm ← perm_fill (Z.to_nat (b_size b - 1)) 1 perm; p0 ← rd perm 0; wr perm p0 0) =
  Ret (shuffle b x 1).
Proof.
  intros Hs Hl H0. destruct (shuffle_entry b x 1 0) as [s E]; [lia|].
  pose proof (shuffle_entry_range _ _ _ _ _ E) as Hr. rewrite E in H0.
  destruct (perm_fill_spec (Z.to_nat (b_size b - 1)) 1 perm) as (p & -> & Hp & Hk); [lia..|].
  cbn [obind]. assert (rd p 0 = Ret s) as ->.
  { apply rd_Ret. split; [done|]. rewrite Hk. by rewrite decide_False by lia. }
  cbn [obind]. rewrite wr_total by lia. f_equal. apply list_eq. intros k.
  rewrite list_lookup_insert, Hk, (shuffle_1_lookup b x s) by done.
  repeat case_decide; subst; try done; try lia.
  - f_equal. lia.
  - rewrite lookup_seqZ_lt by lia. done.
  - rewrite lookup_seqZ_ge, lookup_ge_None_2 by lia. done.
Qed.

Lemma perm_advance_spec n b x p :
  0 <= p -> p + Z.of_nat n <= b_size b ->
  perm_advance n b x p (shuffle b x (Z.to_nat p)) =
  Ret (shuffle b x (Z.to_nat p + n), p + Z.of_nat n).
Proof.
  revert p. induction n as [|n IH]; intros p Hp Hn; cbn [perm_advance].
  { by rewrite Nat.add_0_r, Z.add_0_r. }
  match goal with |- (?e ≫= _) = _ => assert (e = Ret (shuffle b x (Z.to_nat (p + 1)))) as -> end.
  2:{ cbn [obind]. rewrite IH by lia. do 2 f_equal; [f_equal; lia|lia]. }
  replace (Z.to_nat (p + 1)) with (S (Z.to_nat p)) by lia. cbn [shuffle]. unfold swap_target.
  rewrite Z2Nat.id by lia.
  destruct (Z.ltb_spec p (b_size b - 1)); [|by rewrite swap_at_same].
  set (i := crush_hash32_3 _ _ _ _ mod _).
  assert (0 <= i < b_size b - p) as Hi by (apply Z.mod_pos_bound; lia).
  destruct (Z.eqb_spec i 0) as [->|]; [by rewrite Nat.add_0_r, swap_at_same|].
  unfold swap_at.
  destruct (shuffle_entry b x (Z.to_nat p) (Z.to_nat p)) as [v Ev]; [lia|].
  destruct (shuffle_entry b x (Z.to_nat p) (Z.to_nat p + Z.to_nat i)) as [t Et]; [lia|].
  rewrite Ev, Et. rewrite (proj2 (rd_Ret _ (p + i) t)) by (rewrite Z2Nat.inj_add; [split; [lia|done]|lia..]).
  cbn [obind]. rewrite (proj2 (rd_Ret _ p v)) by (split; [lia|done]). cbn [obind].
  rewrite wr_total by (rewrite length_shuffle; lia). cbn [obind].
  rewrite wr_total by (rewrite length_insert, length_shuffle; lia).
  by rewrite Z2Nat.inj_add by lia.
Qed.

(** ** The routine returns the entry of the shuffle *)
Definition bucket_sized (b : crush_bucket) : Prop :=
  0 <= b_size b < 2 ^ 32 /\ Z.of_nat (length (b_items b)) = b_size b.

(** What a choose method promises: an item, and the same bucket with a valid
    cache. *)
Definition choose_good (b : crush_bucket) (res : outcome (Z * crush_bucket)) (item : Z) : Prop :=
  exists b', res = Ret (item, b') /\ same_bucket b b' /\ perm_cache_ok b'.

Lemma perm_cache_ok_set b x n :
  0 < n <= b_size b -> perm_cache_ok (set_perm b (u32 x) n (shuffle b x (Z.to_nat n))).
Proof.
  intros Hn. split; cbn [b_perm b_perm_n b_perm_x b_size set_perm].
  { rewrite length_shuffle. lia. }
  right. split; [lia|]. split; [apply u32_range|]. right. split; [done|].
  by rewrite shuffle_set_perm, shuffle_u32.
Qed.

Lemma perm_choose_ref_some b x r :
  0 < b_size b -> bucket_sized b ->
  let pr := u32 r mod b_size b in
  exists s item, shuffle b x (S (Z.to_nat pr)) !! Z.to_nat pr = Some s /\
    0 <= s < b_size b /\ rd (b_items b) s = Ret item /\ perm_choose_ref b x r = Some item.
Proof.
  intros Hs [Hr Hi] pr. assert (0 <= pr < b_size b) as Hpr by (apply Z.mod_pos_bound; lia).
  destruct (shuffle_entry b x (S (Z.to_nat pr)) (Z.to_nat pr)) as [s Es]; [lia|].
  pose proof (shuffle_entry_range _ _ _ _ _ Es) as Hsr.
  destruct (rd_total (b_items b) s) as [item Eit]; [lia|].
  exists s, item. split_and!; try done; try lia.
  unfold perm_choose_ref. fold pr. rewrite shuffle_stable, Es by lia.
  by apply rd_Ret in Eit as [_ ->].
Qed.

Lemma perm_finish_spec b x r n :
  0 < b_size b -> bucket_sized b -> 0 <= n <= b_size b ->
  exists item, perm_choose_ref b x r = Some item /\
    choose_good b
      (perm_finish b x (u32 r mod b_size b) (u32 x) n (shuffle b x (Z.to_nat n))) item.
Proof.
  intros Hs Hb Hn. destruct (perm_choose_ref_some b x r Hs Hb) as (s & item & Es & Hsr & Hit & Href).
  set (pr := u32 r mod b_size b) in *.
  assert (0 <= pr < b_size b) as Hpr by (apply Z.mod_pos_bound; lia).
  exists item. split; [done|]. unfold perm_finish. rewrite perm_advance_spec by lia. cbn [obind].
  set (n' := n + Z.of_nat (Z.to_nat (pr + 1 - n))).
  replace (Z.to_nat n + Z.to_nat (pr + 1 - n))%nat with (Z.to_nat n') by lia.
  assert (rd (shuffle b x (Z.to_nat n')) pr = Ret s) as ->.
  { apply rd_Ret. split; [lia|]. by rewrite shuffle_stable by lia. }
  cbn [obind]. rewrite Hit. cbn [obind]. eexists. split; [done|]. split; [done|].
  apply perm_cache_ok_set. lia.
Qed.

Lemma bucket_perm_choose_good b x r :
  0 < b_size b -> bucket_sized b -> perm_cache_ok b ->
  exists item, perm_choose_ref b x r = Some item /\
    choose_good b (bucket_perm_choose b x r) item.
Proof.
  intros Hs Hb [Hlen Hc]. pose proof Hb as [Hr Hi].
  unfold bucket_perm_choose. rewrite (proj2 (Z.eqb_neq _ 0)) by lia.
  destruct (negb (b_perm_x b =? u32 x) || (b_perm_n b =? 0)) eqn:Enew.
  - (* a new permutation *)
    destruct (Z.eqb_spec (u32 r mod b_size b) 0) as [E0|].
    + destruct (perm_choose_ref_some b x r Hs Hb) as (s & item & Es & Hsr & Hit & Href).
      rewrite E0 in Es. change (Z.to_nat 0) with 0%nat in Es.
      rewrite shuffle_first in Es by done. injection Es as Es. rewrite Es.
      exists item. split; [done|]. rewrite wr_total by lia. cbn [obind]. rewrite Hit. cbn [obind].
      eexists. split; [done|]. split; [done|].
      split; cbn [b_perm b_perm_n b_perm_x b_size set_perm]; [by rewrite length_insert|].
      right. split; [done|]. split; [apply u32_range|]. left. split; [done|].
      rewrite list_lookup_insert_eq by lia.
      rewrite shuffle_set_perm, shuffle_u32, shuffle_first by done. by rewrite Es.
    + rewrite perm_fill_identity by lia. cbn [obind].
      apply (perm_finish_spec b x r 0); [done..|lia].
  - apply orb_false_iff in Enew as [Ex%negb_false_iff%Z.eqb_eq En%Z.eqb_neq].
    destruct Hc as [?|(_ & _ & Hc)]; [lia|].
    rewrite Ex in Hc |- *. rewrite !shuffle_u32 in Hc.
    destruct (Z.eqb_spec (b_perm_n b) 0xffff) as [E|E].
    + (* clean up after the r = 0 shortcut *)
      pose proof (perm_cleanup_spec b x (b_perm b) Hs Hlen) as Hcl.
      assert (b_perm b !! 0%nat = shuffle b x 1 !! 0%nat) as H0.
      { destruct Hc as [[_ ?]|[? ->]]; [done|]. by rewrite shuffle_stable by lia. }
      specialize (Hcl H0).
      destruct (perm_fill (Z.to_nat (b_size b - 1)) 1 (b_perm b)) as [p| |]; try done. cbn [obind] in *.
      destruct (rd p 0) as [p0| |]; try done. cbn [obind] in *. rewrite Hcl. cbn [obind].
      apply (perm_finish_spec b x r 1); [done..|lia].
    + destruct Hc as [[? _]|[? ->]]; [lia|]. by apply perm_finish_spec; [..|lia].
Qed.

(** Over one period of [r] the choices are a permutation of the items. *)
Lemma perm_choose_ref_Permutation b x :
  bucket_sized b ->
  perm_choose_ref b x <$> seqZ 0 (b_size b) ≡ₚ Some <$> b_items b.
Proof.
  intros [Hr Hi].
  trans ((fun s => b_items b !! Z.to_nat s) <$> shuffle b x (Z.to_nat (b_size b))).
  - match goal with |- ?l ≡ₚ ?k => enough (l = k) as -> by done end. apply list_eq. intros k. rewrite !list_lookup_fmap.
    destruct (decide (Z.of_nat k < b_size b)) as [Hk|Hk].
    + rewrite lookup_seqZ_lt by done. cbn [fmap option_fmap option_map].
      unfold perm_choose_ref. rewrite Z.add_0_l, u32_small, Z.mod_small, Nat2Z.id by lia.
      destruct (shuffle_entry b x (Z.to_nat (b_size b)) k) as [s ->]; [lia|done].
    + rewrite lookup_seqZ_ge by lia. rewrite (lookup_ge_None_2 (shuffle _ _ _)); [done|].
      rewrite length_shuffle. lia.
  - rewrite shuffle_Permutation. match goal with |- ?l ≡ₚ ?k => enough (l = k) as -> by done end. apply list_eq. intros k.
    rewrite !list_lookup_fmap. destruct (decide (Z.of_nat k < b_size b)) as [Hk|Hk].
    + rewrite lookup_seqZ_lt by done. cbn [fmap option_fmap option_map]. rewrite Z.add_0_l, Nat2Z.id.
      destruct (lookup_lt_is_Some_2 (b_items b) k) as [v ->]; [lia|done].
    + rewrite lookup_seqZ_ge, (lookup_ge_None_2 (b_items b)) by lia. done.
Qed.

(** ** Properties *)

(** C28: The cached permutation choice is correct whatever was cached before: on a
    non-empty bucket whose cache is a valid prefix for some input (possibly the
    one-entry shortcut for r = 0), [bucket_perm_choose] returns the item at
    position [r mod size] of the complete shuffle for [x], leaves a valid cache,
    and changes nothing else in the bucket; and over [r = 0 .. size-1] the
    choices are a permutation of the bucket's items. *)
Theorem bucket_perm_choose_is_shuffle b x r :
  0 < b_size b -> bucket_sized b -> perm_cache_ok b ->
  (exists item b',
     bucket_perm_choose b x r = Ret (item, b') /\
     perm_choose_ref b x r = Some item /\
     same_bucket b b' /\ perm_cache_ok b') /\
  perm_choose_ref b x <$> seqZ 0 (b_size b) ≡ₚ Some <$> b_items b.
Proof.
  intros Hs Hb Hc. split; [|by apply perm_choose_ref_Permutation].
  destruct (bucket_perm_choose_good b x r Hs Hb Hc) as (item & Href & b' & H1 & H2 & H3).
  by exists item, b'.
Qed.

Definition perm_example : crush_bucket :=
  Bucket (-2) 1 CRUSH_BUCKET_UNIFORM 0 0x50000 5 [10; 11; 12; 13; 14] 7 0 [9; 9; 9; 9; 9]
    (UniformBody 0x10000).

Lemma bucket_perm_choose_is_shuffle_witness :
  exists item b', bucket_perm_choose perm_example 1 3 = Ret (item, b') /\
    perm_choose_ref perm_example 1 3 = Some item.
Proof.
  destruct (bucket_perm_choose_is_shuffle perm_example 1 3) as [(item & b' & H1 & H2 & _) _].
  - vm_compute. reflexivity.
  - repeat split; vm_compute; congruence.
  - split; [reflexivity|]. left. reflexivity.
  - exists item, b'. split; [exact H1|exact H2].
Defined.
