(* ===== verification/BucketChoose.v ===== *)
(** * The bucket choose methods

    Functional behaviour of the list, tree and straw choose methods of
    mapper.c, and what [crush_bucket_choose] promises to the searches: on a
    well-formed, non-empty bucket it returns an item of the bucket, the same
    whatever the permutation cache holds, and preserves well-formedness. *)
From S2P Require Import Prelude.
From S2P Require Import Hash.
From S2P Require Import Crush.
From S2P Require Import Mapper.
From S2P Require Import PermChoose.
Import CrushHash.

(** ** Straw buckets: the longest straw, the first one on a tie *)

(** The draw of an item: a 16-bit hash scaled by its straw length. *)
Definition straw_draw (b : crush_bucket) (x r item straw : Z) : Z :=
  u64 (Z.land (crush_hash32_3 (b_hash b) x item r) 0xffff * straw).

Definition straw_draws (b : crush_bucket) (straws : list Z) (x r : Z) : list Z :=
  zip_with (straw_draw b x r) (b_items b) straws.

(** [k] is the first index of a maximum of the first [n] entries of [l]. *)
Definition first_max (l : list Z) (n k : nat) (d : Z) : Prop :=
  (k < n)%nat /\ l !! k = Some d /\
  forall j dj, (j < n)%nat -> l !! j = Some dj -> dj <= d /\ ((j < k)%nat -> dj < d).

Lemma first_max_extend l n k d dn :
  first_max l n k d -> l !! n = Some dn ->
  if d <? dn then first_max l (S n) n dn else first_max l (S n) k d.
Proof.
  intros (Hk & Hd & Hmax) Hn. case_Zb.
  - split_and!; [lia|done|]. intros j dj Hj Hl. destruct (decide (j = n)) as [->|].
    + simplify_eq. lia.
    + destruct (Hmax j dj); [lia|done|]. lia.
  - split_and!; [lia|done|]. intros j dj Hj Hl. destruct (decide (j = n)) as [->|].
    + simplify_eq. split; lia.
    + apply Hmax; [lia|done].
Qed.

Section Straw.
Context (b : crush_bucket) (straws : list Z) (x r : Z).
Hypothesis Hitems : Z.of_nat (length (b_items b)) = b_size b.
Hypothesis Hstraws : Z.of_nat (length straws) = b_size b.

Let draws := straw_draws b straws x r.

Lemma straw_choose_loop_spec n i high hd :
  (i + n = Z.to_nat (b_size b))%nat -> (0 < i)%nat -> first_max draws i high hd ->
  exists k d item, first_max draws (Z.to_nat (b_size b)) k d /\
    b_items b !! k = Some item /\
    straw_choose_loop n b straws x r (Z.of_nat i) (Z.of_nat high) hd = Ret item.
Proof.
  revert i high hd. induction n as [|n IH]; intros i high hd Hn Hi Hmax; cbn [straw_choose_loop].
  - rewrite Nat.add_0_r in Hn. subst i. destruct Hmax as (Hk & Hd & Hm).
    destruct (lookup_lt_is_Some_2 (b_items b) high) as [item Hit]; [lia|].
    exists high, hd, item. split_and!; [done|done|]. apply rd_Ret. rewrite Nat2Z.id. split; [lia|done].
  - destruct (rd_total (b_items b) (Z.of_nat i)) as [item Hit]; [lia|].
    destruct (rd_total straws (Z.of_nat i)) as [straw Hst]; [lia|].
    rewrite Hit, Hst. cbn [obind]. rewrite (proj2 (Z.eqb_neq (Z.of_nat i) 0)) by lia. cbn [orb].
    apply rd_Ret in Hit as [_ Hit], Hst as [_ Hst]. rewrite Nat2Z.id in Hit, Hst.
    assert (draws !! i = Some (straw_draw b x r item straw)) as Hd
      by (apply lookup_zip_with_Some; eauto).
    pose proof (first_max_extend _ _ _ _ _ Hmax Hd) as Hext.
    fold (straw_draw b x r item straw).
    replace (Z.of_nat i + 1) with (Z.of_nat (S i)) by lia.
    destruct (hd <? straw_draw b x r item straw); apply IH; try lia; done.
Qed.

Lemma bucket_straw_choose_spec :
  0 < b_size b ->
  exists k d item, first_max draws (Z.to_nat (b_size b)) k d /\
    b_items b !! k = Some item /\ bucket_straw_choose b straws x r = Ret item.
Proof.
  intros Hs. unfold bucket_straw_choose.
  destruct (Z.to_nat (b_size b)) as [|n] eqn:En; [lia|]. cbn [straw_choose_loop].
  destruct (rd_total (b_items b) 0) as [item Hit]; [lia|].
  destruct (rd_total straws 0) as [straw Hst]; [lia|].
  rewrite Hit, Hst. cbn [obind]. cbn [Z.eqb orb].
  apply rd_Ret in Hit as [_ Hit], Hst as [_ Hst].
  rewrite <- En. apply (straw_choose_loop_spec n 1 0); [lia..|].
  split; [lia|]. split; [apply lookup_zip_with_Some; eauto|].
  intros j dj Hj Hl. assert (j = 0)%nat as -> by lia.
  apply lookup_zip_with_Some in Hl as (it & st & -> & H1 & H2).
  change (Z.to_nat 0) with 0%nat in *. simplify_eq. split; [done|lia].
Qed.
End Straw.

(** ** List buckets: the last item whose scaled draw falls in its weight *)

(** The test of the loop body at index [k]. *)
Definition list_accepts (b : crush_bucket) (iw sw : list Z) (x r : Z) (k : nat) : bool :=
  match b_items b !! k, iw !! k, sw !! k with
  | Some item, Some w, Some sum =>
      Z.shiftr (u64 (Z.land (crush_hash32_4 (b_hash b) x item r (b_id b)) 0xffff * sum)) 16 <? w
  | _, _, _ => false
  end.

Section ListBucket.
Context (b : crush_bucket) (iw sw : list Z) (x r : Z).
Hypothesis Hitems : Z.of_nat (length (b_items b)) = b_size b.
Hypothesis Hiw : Z.of_nat (length iw) = b_size b.
Hypothesis Hsw : Z.of_nat (length sw) = b_size b.

Lemma list_choose_loop_spec n :
  0 < b_size b -> (n <= Z.to_nat (b_size b))%nat ->
  exists k item, b_items b !! k = Some item /\ list_choose_loop n b iw sw x r = Ret item /\
    (forall j, (k < j < n)%nat -> list_accepts b iw sw x r j = false) /\
    (list_accepts b iw sw x r k = true \/ k = 0%nat).
Proof.
  intros Hs. induction n as [|n IH]; intros Hn; cbn [list_choose_loop].
  { destruct (rd_total (b_items b) 0) as [item Hit]; [lia|].
    exists 0%nat, item. rewrite Hit. apply rd_Ret in Hit as [_ Hit]. split_and!; [done..| |by right].
    intros; lia. }
  destruct (rd_total (b_items b) (Z.of_nat n)) as [item Hit]; [lia|].
  destruct (rd_total iw (Z.of_nat n)) as [w Hw]; [lia|].
  destruct (rd_total sw (Z.of_nat n)) as [sum Hsum]; [lia|].
  rewrite Hit, Hw, Hsum. cbn [obind].
  apply rd_Ret in Hit as [_ Hit], Hw as [_ Hw], Hsum as [_ Hsum]. rewrite Nat2Z.id in *.
  match goal with |- context [if ?t then _ else _] => destruct t eqn:E end.
  - exists n, item. split_and!; [done..|intros; lia|]. left. unfold list_accepts.
    by rewrite Hit, Hw, Hsum.
  - destruct IH as (k & it & H1 & H2 & H3 & H4); [lia|].
    exists k, it. split_and!; [done..| |done]. intros j Hj.
    destruct (decide (j = n)) as [->|]; [|apply H3; lia].
    unfold list_accepts. by rewrite Hit, Hw, Hsum.
Qed.

Lemma bucket_list_choose_spec :
  0 < b_size b < 2 ^ 31 ->
  exists k item, b_items b !! k = Some item /\ bucket_list_choose b iw sw x r = Ret item /\
    (forall j, (k < j)%nat -> list_accepts b iw sw x r j = false) /\
    (list_accepts b iw sw x r k = true \/ k = 0%nat).
Proof.
  intros Hs. unfold bucket_list_choose. rewrite s32_small by lia.
  replace (b_size b - 1 + 1) with (b_size b) by lia.
  destruct (list_choose_loop_spec (Z.to_nat (b_size b))) as (k & it & H1 & H2 & H3 & H4); [lia..|].
  exists k, it. split_and!; [done..| |done]. intros j Hj.
  destruct (decide (j < Z.to_nat (b_size b))%nat); [apply H3; lia|].
  unfold list_accepts. by rewrite lookup_ge_None_2 by lia.
Qed.
End ListBucket.

(** ** Tree buckets *)

(** The node of height [h] with index [q] among the nodes of its height; the
    leaves (height 0) carry the items. *)
Definition tree_node (h q : Z) : Z := 2 ^ h * (2 * q + 1).

(** The weight array of a tree of [2^k] nodes over [size] items: either every
    leaf has an item, or inner weights are the sums of their children, leaves
    without an item weigh nothing, and the root weighs something. *)
Definition tree_ok (num_nodes : Z) (nw : list Z) (size : Z) : Prop :=
  exists k, 1 <= k <= 7 /\ num_nodes = 2 ^ k /\ Z.of_nat (length nw) = num_nodes /\
    Forall (fun w => 0 <= w < 2 ^ 32) nw /\
    (2 ^ (k - 1) <= size \/
     (exists w, rd nw (tree_node (k - 1) 0) = Ret w /\ 0 < w) /\
     (forall h q w, 0 < h -> 0 <= q < 2 ^ (k - 1 - h) -> rd nw (tree_node h q) = Ret w ->
        exists wl wr, rd nw (tree_node (h - 1) (2 * q)) = Ret wl /\
          rd nw (tree_node (h - 1) (2 * q + 1)) = Ret wr /\ w = wl + wr) /\
     (forall q, size <= q < 2 ^ (k - 1) -> rd nw (tree_node 0 q) = Ret 0)).

Lemma tree_node_terminal q : 0 <= q -> terminal (tree_node 0 q) = true.
Proof.
  intros. unfold terminal, tree_node. rewrite (Z.land_ones _ 1) by lia.
  apply negb_true_iff, Z.eqb_neq. rewrite Z.pow_0_r, Z.mul_1_l, Z.pow_1_r.
  Z.div_mod_to_equations; lia.
Qed.

Lemma tree_node_even h q : 0 < h -> Z.land (tree_node h q) 1 = 0.
Proof.
  intros. rewrite (Z.land_ones _ 1) by lia. unfold tree_node. rewrite (pow2_succ h) by done.
  rewrite <- Z.mul_assoc, (Z.mul_comm 2). by apply Z.mod_mul.
Qed.

Lemma height_loop_spec fuel d h q :
  0 <= h < Z.of_nat fuel -> 0 <= q -> height_loop fuel d (tree_node h q) = Ret (d + h).
Proof.
  revert d h. induction fuel as [|fuel IH]; intros d h Hh Hq; [lia|]. cbn [height_loop].
  destruct (decide (h = 0)) as [->|].
  - pose proof (tree_node_terminal q Hq) as Ht. unfold terminal in Ht.
    apply negb_true_iff in Ht. rewrite Ht. f_equal. lia.
  - rewrite tree_node_even by lia. cbn [Z.eqb].
    replace (Z.shiftr (tree_node h q) 1) with (tree_node (h - 1) q).
    + rewrite IH by lia. f_equal. lia.
    + rewrite Z.shiftr_div_pow2, Z.pow_1_r by lia. unfold tree_node.
      symmetry. rewrite (pow2_succ h), <- Z.mul_assoc, (Z.mul_comm 2) by lia. by apply Z.div_mul.
Qed.

Lemma left_tree_node h q :
  0 < h < 32 -> 0 <= q -> left (tree_node h q) = Ret (tree_node (h - 1) (2 * q)).
Proof.
  intros Hh Hq. unfold left, height. rewrite height_loop_spec by lia. cbn [obind].
  rewrite Z.add_0_l, (proj2 (Z.ltb_ge _ 0)) by lia. f_equal.
  rewrite Z.shiftl_1_l. unfold tree_node. rewrite (pow2_succ h) by lia. lia.
Qed.

Lemma right_tree_node h q :
  0 < h < 32 -> 0 <= q -> right (tree_node h q) = Ret (tree_node (h - 1) (2 * q + 1)).
Proof.
  intros Hh Hq. unfold right, height. rewrite height_loop_spec by lia. cbn [obind].
  rewrite Z.add_0_l, (proj2 (Z.ltb_ge _ 0)) by lia. f_equal.
  rewrite Z.shiftl_1_l. unfold tree_node. rewrite (pow2_succ h) by lia. lia.
Qed.

(** The scaled draw at an inner node is below the node's weight. *)
Lemma tree_draw_lt t a b c d w :
  0 < w < 2 ^ 32 -> Z.shiftr (u64 (crush_hash32_4 t a b c d * w)) 32 < w.
Proof.
  intros Hw. pose proof (crush_hash32_4_range t a b c d) as Hh.
  rewrite u64_small by nia. rewrite Z.shiftr_div_pow2 by lia.
  apply Z.div_lt_upper_bound; nia.
Qed.

Section Tree.
Context (b : crush_bucket) (nw : list Z) (k x r : Z).
Hypothesis Hk : 1 <= k <= 7.
Hypothesis Hnw : Z.of_nat (length nw) = 2 ^ k.
Hypothesis Hrange : Forall (fun w => 0 <= w < 2 ^ 32) nw.
Hypothesis Hitems : Z.of_nat (length (b_items b)) = b_size b.
Hypothesis Hcons :
  2 ^ (k - 1) <= b_size b \/
  (forall h q w, 0 < h -> 0 <= q < 2 ^ (k - 1 - h) -> rd nw (tree_node h q) = Ret w ->
     exists wl wr, rd nw (tree_node (h - 1) (2 * q)) = Ret wl /\
       rd nw (tree_node (h - 1) (2 * q + 1)) = Ret wr /\ w = wl + wr) /\
  (forall q, b_size b <= q < 2 ^ (k - 1) -> rd nw (tree_node 0 q) = Ret 0).

Lemma tree_node_range h q : 0 <= h <= k - 1 -> 0 <= q < 2 ^ (k - 1 - h) -> 0 <= tree_node h q < 2 ^ k.
Proof.
  intros Hh Hq. unfold tree_node. pose proof (Z.pow_pos_nonneg 2 h ltac:(lia) ltac:(lia)).
  assert (2 ^ k = 2 ^ h * (2 * 2 ^ (k - 1 - h))) as ->.
  { rewrite <- (Z.pow_succ_r 2), <- Z.pow_add_r by lia. f_equal. lia. }
  split; [nia|]. apply Z.mul_lt_mono_pos_l; lia.
Qed.

(** Being on the way to an item: every leaf has one, or the node weighs
    something. *)
Definition on_path (h q : Z) : Prop :=
  2 ^ (k - 1) <= b_size b \/ exists w, rd nw (tree_node h q) = Ret w /\ 0 < w.

Lemma tree_choose_loop_spec fuel h q :
  0 <= h < Z.of_nat fuel -> h <= k - 1 -> 0 <= q < 2 ^ (k - 1 - h) -> on_path h q ->
  exists item, item ∈ b_items b /\ tree_choose_loop fuel b nw x r (tree_node h q) = Ret item.
Proof.
  revert h q. induction fuel as [|fuel IH]; intros h q Hh Hhk Hq Hp; [lia|]. cbn [tree_choose_loop].
  destruct (decide (h = 0)) as [->|].
  - rewrite tree_node_terminal by lia. destruct (rd_total (b_items b) q) as [item Hit].
    { rewrite Hitems. split; [lia|]. rewrite Z.sub_0_r in Hq.
      destruct Hp as [?|(w & Hw & Hpos)]; [lia|]. destruct Hcons as [?|[_ Hz]]; [lia|].
      destruct (Z.lt_ge_cases q (b_size b)); [done|]. rewrite Hz in Hw by lia. simplify_eq. lia. }
    exists item. split; [by eapply rd_elem|].
    replace (Z.shiftr (tree_node 0 q) 1) with q; [done|].
    rewrite Z.shiftr_div_pow2 by lia. unfold tree_node. Z.div_mod_to_equations; lia.
  - unfold terminal. rewrite tree_node_even by lia. cbn [Z.eqb negb].
    pose proof (tree_node_range h q) as Hn. destruct (rd_total nw (tree_node h q)) as [w Hw]; [lia|].
    assert (2 ^ (k - 1 - (h - 1)) = 2 * 2 ^ (k - 1 - h)) as E.
    { rewrite <- Z.pow_succ_r by lia. f_equal. lia. }
    pose proof (tree_node_range (h - 1) (2 * q)) as Hl. rewrite E in Hl.
    destruct (rd_total nw (tree_node (h - 1) (2 * q))) as [wl Hwl]; [lia|].
    rewrite Hw. cbn [obind]. rewrite left_tree_node by lia. cbn [obind]. rewrite Hwl. cbn [obind].
    rewrite right_tree_node by lia. cbn [obind].
    pose proof (proj1 (Forall_forall _ nw) Hrange w (rd_elem _ _ _ Hw)) as Hall.
    cbn beta in Hall.
    assert (forall wl', rd nw (tree_node (h - 1) (2 * q)) = Ret wl' -> wl' = wl) as Huniq by congruence.
    case_Zb; (apply IH; [lia|lia|lia|]); (destruct Hcons as [?|[Hsum _]]; [by left|]);
      (destruct Hp as [?|(w' & Hw' & Hpos)]; [by left|right]); rewrite Hw in Hw'; simplify_eq.
    + exists wl. split; [done|]. eapply Z.le_lt_trans; [|eassumption]. apply Z.shiftr_nonneg, u64_range.
    + destruct (Hsum h q w') as (wl' & wr & H1 & H2 & ->); [lia|lia|done|].
      apply Huniq in H1 as ->. exists wr. split; [done|].
      pose proof (tree_draw_lt (b_hash b) x (tree_node h q) r (b_id b) (wl + wr)). lia.
Qed.
End Tree.

(** ** Well-formed buckets *)

(** The fields after the header are those of the bucket's type. *)
Definition body_ok (b : crush_bucket) : Prop :=
  (b_alg b = CRUSH_BUCKET_LIST ->
   exists iw sw, b_body b = ListBody iw sw /\
     Z.of_nat (length iw) = b_size b /\ Z.of_nat (length sw) = b_size b) /\
  (b_alg b = CRUSH_BUCKET_TREE ->
   exists nn nw, b_body b = TreeBody nn nw /\ tree_ok nn nw (b_size b)) /\
  (b_alg b = CRUSH_BUCKET_STRAW ->
   exists iw st, b_body b = StrawBody iw st /\ Z.of_nat (length st) = b_size b).

Record bucket_ok (b : crush_bucket) : Prop := {
  bucket_ok_sized : bucket_sized b;
  bucket_ok_small : b_size b < 2 ^ 31;
  bucket_ok_cache : perm_cache_ok b;
  bucket_ok_body : body_ok b }.

Lemma same_bucket_fields b b' :
  same_bucket b b' ->
  b_id b' = b_id b /\ b_type b' = b_type b /\ b_alg b' = b_alg b /\ b_hash b' = b_hash b /\
  b_size b' = b_size b /\ b_items b' = b_items b /\ b_body b' = b_body b.
Proof. unfold same_bucket. intros ->. done. Qed.

Lemma same_bucket_refl b : same_bucket b b.
Proof. by destruct b. Qed.

Lemma same_bucket_sym b b' : same_bucket b b' -> same_bucket b' b.
Proof. unfold same_bucket. intros ->. by destruct b. Qed.

Lemma same_bucket_trans a b c : same_bucket a b -> same_bucket b c -> same_bucket a c.
Proof. unfold same_bucket. intros -> ->. done. Qed.

#[export] Instance same_bucket_equivalence : Equivalence same_bucket.
Proof.
  split; [exact same_bucket_refl|exact same_bucket_sym|exact same_bucket_trans].
Qed.

Lemma bucket_ok_same b b' :
  same_bucket b b' -> perm_cache_ok b' -> bucket_ok b -> bucket_ok b'.
Proof.
  intros Hsame Hc [H1 H2 _ H4].
  destruct (same_bucket_fields _ _ Hsame) as (Ei & Et & Ea & Eh & Es & Eit & Eb).
  split; unfold bucket_sized, body_ok in *; rewrite ?Ea, ?Es, ?Eit, ?Eb; done.
Qed.

Lemma shuffle_same b b' x k : same_bucket b b' -> shuffle b' x k = shuffle b x k.
Proof. intros ->. apply shuffle_set_perm. Qed.

Lemma perm_choose_ref_same b b' x r :
  same_bucket b b' -> perm_choose_ref b' x r = perm_choose_ref b x r.
Proof.
  intros Hs. unfold perm_choose_ref. rewrite (shuffle_same b b') by done.
  by destruct (same_bucket_fields _ _ Hs) as (_ & _ & _ & _ & -> & -> & _).
Qed.

(** The methods other than the permutation only read the bucket. *)
Section SetPerm.
Context (b : crush_bucket) (y n : Z) (p : list Z).
Let b' := set_perm b y n p.

Lemma list_choose_loop_set_perm k iw sw x r :
  list_choose_loop k b' iw sw x r = list_choose_loop k b iw sw x r.
Proof. induction k as [|k IH]; cbn [list_choose_loop]; [done|]. by rewrite IH. Qed.

Lemma tree_choose_loop_set_perm k nw x r i :
  tree_choose_loop k b' nw x r i = tree_choose_loop k b nw x r i.
Proof.
  revert i. induction k as [|k IH]; intros i; cbn [tree_choose_loop]; [done|].
  repeat (case_match || setoid_rewrite IH || done).
  destruct (rd nw i); cbn; try done. destruct (left i); cbn; try done.
  destruct (rd nw _); cbn; try done. rewrite IH. destruct (right i); cbn; try done. by rewrite IH.
Qed.

Lemma straw_choose_loop_set_perm k st x r i h hd :
  straw_choose_loop k b' st x r i h hd = straw_choose_loop k b st x r i h hd.
Proof.
  revert i h hd. induction k as [|k IH]; intros i h hd; cbn [straw_choose_loop]; [done|].
  cbn [b' b_items set_perm b_hash]. destruct (rd (b_items b) i); cbn; try done.
  destruct (rd st i); cbn; try done. by rewrite !IH.
Qed.

Lemma crush_bucket_choose_set_perm x r item :
  b_alg b <> CRUSH_BUCKET_UNIFORM ->
  crush_bucket_choose b x r = Ret (item, b) -> crush_bucket_choose b' x r = Ret (item, b').
Proof.
  intros Ha. unfold crush_bucket_choose. cbn [b' b_alg b_size b_body b_items set_perm].
  rewrite (proj2 (Z.eqb_neq _ CRUSH_BUCKET_UNIFORM)) by done.
  destruct (bug_on _); cbn [obind]; try done.
  unfold bucket_list_choose, bucket_tree_choose, bucket_straw_choose.
  cbn [b_size set_perm]. fold b'.
  repeat match goal with |- context [if ?t then _ else _] => destruct t end;
    try destruct (b_body b); intros H; inv_outcome; try done;
    rewrite ?list_choose_loop_set_perm, ?tree_choose_loop_set_perm, ?straw_choose_loop_set_perm;
    change (b_size b') with (b_size b);
    match goal with E : _ = Ret ?v |- _ => rewrite E end; done.
Qed.
End SetPerm.

Lemma crush_bucket_choose_other b x r :
  b_alg b <> CRUSH_BUCKET_UNIFORM -> 0 < b_size b -> bucket_ok b ->
  exists item, item ∈ b_items b /\
    forall b', same_bucket b b' -> crush_bucket_choose b' x r = Ret (item, b').
Proof.
  intros Ha Hs [[Hr Hi] H31 _ (HL & HT & HS)].
  enough (exists item, item ∈ b_items b /\ crush_bucket_choose b x r = Ret (item, b)) as (item & Hin & E).
  { exists item. split; [done|]. intros b' ->. by apply crush_bucket_choose_set_perm. }
  unfold crush_bucket_choose. rewrite (proj2 (Z.eqb_neq _ 0)) by lia. cbn [bug_on obind].
  rewrite (proj2 (Z.eqb_neq _ CRUSH_BUCKET_UNIFORM)) by done.
  destruct (Z.eqb_spec (b_alg b) CRUSH_BUCKET_LIST) as [E|].
  { destruct (HL E) as (iw & sw & -> & H1 & H2).
    destruct (bucket_list_choose_spec b iw sw x r) as (k & item & Hk & -> & _); [done..|lia|].
    exists item. split; [by eapply list_elem_of_lookup_2|done]. }
  destruct (Z.eqb_spec (b_alg b) CRUSH_BUCKET_TREE) as [E|].
  { destruct (HT E) as (nn & nw & -> & k & Hk & -> & Hlen & Hrg & Hw).
    unfold bucket_tree_choose. replace (Z.shiftr (2 ^ k) 1) with (tree_node (k - 1) 0).
    2:{ rewrite Z.shiftr_div_pow2, Z.pow_1_r by lia. unfold tree_node. rewrite (pow2_succ k) by lia.
        rewrite (Z.mul_comm 2 (2 ^ (k - 1))), Z.div_mul by lia. lia. }
    destruct (tree_choose_loop_spec b nw k x r Hk Hlen Hrg Hi) with (fuel := 8%nat) (h := k - 1) (q := 0)
      as (item & Hin & ->); [|lia|lia|rewrite Z.sub_diag; lia| |by exists item].
    - destruct Hw as [?|(_ & ? & ?)]; [by left|by right].
    - destruct Hw as [?|(? & _)]; [by left|by right]. }
  destruct (Z.eqb_spec (b_alg b) CRUSH_BUCKET_STRAW) as [E|].
  { destruct (HS E) as (iw & st & -> & H1).
    destruct (bucket_straw_choose_spec b st x r) as (k & d & item & _ & Hk & ->); [done..|].
    exists item. split; [by eapply list_elem_of_lookup_2|done]. }
  destruct (rd_total (b_items b) 0) as [item Hit]; [lia|]. rewrite Hit.
  exists item. split; [by eapply rd_elem|done].
Qed.

(** ** The promise to the searches *)

(** [f] is a choose method for [b]: it has one item of the bucket as its
    answer, whatever valid cache the bucket has, and keeps the bucket the same
    with a valid cache. *)
Definition chooses (f : crush_bucket -> outcome (Z * crush_bucket)) (b : crush_bucket) (item : Z) : Prop :=
  item ∈ b_items b /\
  forall b', same_bucket b b' -> perm_cache_ok b' -> choose_good b' (f b') item.

Lemma perm_choose_chooses b x r :
  0 < b_size b -> bucket_ok b -> exists item, chooses (fun b => bucket_perm_choose b x r) b item.
Proof.
  intros Hs [Hb _ Hc _]. destruct (bucket_perm_choose_good b x r Hs Hb Hc) as (item & Href & _).
  exists item. split.
  - unfold perm_choose_ref in Href. case_match; [|done]. by eapply list_elem_of_lookup_2.
  - intros b' Hsame Hc'.
    destruct (same_bucket_fields _ _ Hsame) as (_ & _ & _ & _ & Es & Eit & _).
    destruct (bucket_perm_choose_good b' x r) as (item' & Href' & Hg); [lia| |done|].
    { unfold bucket_sized in *. by rewrite Es, Eit. }
    rewrite (perm_choose_ref_same b b') in Href' by done. by simplify_eq.
Qed.

Lemma crush_bucket_choose_chooses b x r :
  0 < b_size b -> bucket_ok b -> exists item, chooses (fun b => crush_bucket_choose b x r) b item.
Proof.
  intros Hs Hok. destruct (decide (b_alg b = CRUSH_BUCKET_UNIFORM)) as [Ha|Ha].
  - destruct (perm_choose_chooses b x r Hs Hok) as (item & Hin & Hg). exists item.
    split; [done|]. intros b' Hsame Hc. specialize (Hg b' Hsame Hc).
    destruct (same_bucket_fields _ _ Hsame) as (_ & _ & Ea & _ & Es & _).
    unfold crush_bucket_choose. rewrite Es, Ea, Ha, (proj2 (Z.eqb_neq _ 0)) by lia. done.
  - destruct (crush_bucket_choose_other b x r Ha Hs Hok) as (item & Hin & Hg). exists item.
    split; [done|]. intros b' Hsame Hc. exists b'. by rewrite Hg.
Qed.

(** ** Properties *)

(** A straw bucket returns the item with the longest straw: its draw is at
    least every draw of the bucket and strictly longer than those before it. *)
Theorem bucket_straw_choose_longest b straws x r :
  0 < b_size b -> Z.of_nat (length (b_items b)) = b_size b ->
  Z.of_nat (length straws) = b_size b ->
  exists k d item,
    first_max (straw_draws b straws x r) (Z.to_nat (b_size b)) k d /\
    b_items b !! k = Some item /\ bucket_straw_choose b straws x r = Ret item.
Proof. intros Hs Hi Hst. by apply bucket_straw_choose_spec. Qed.

Definition straw_example : crush_bucket :=
  Bucket (-3) 1 CRUSH_BUCKET_STRAW 0 0x30000 3 [4; 5; 6] 0 0 [0; 0; 0]
    (StrawBody [0x10000; 0x10000; 0x10000] [0x10000; 0x8000; 0x10000]).

Lemma bucket_straw_choose_longest_witness :
  exists k d item,
    first_max (straw_draws straw_example [0x10000; 0x8000; 0x10000] 5 0) 3 k d /\
    b_items straw_example !! k = Some item /\
    bucket_straw_choose straw_example [0x10000; 0x8000; 0x10000] 5 0 = Ret item.
Proof. apply (bucket_straw_choose_longest straw_example); vm_compute; reflexivity. Defined.

(** C29: Every choose method, on a well-formed non-empty bucket, terminates and
    returns an item of the bucket; the item is a function of the bucket's
    contents and of the input, not of what earlier calls left in the
    permutation cache, and the bucket stays well-formed and otherwise the
    same.  (For trees: every descent ends at a leaf that carries an item.) *)
Theorem crush_bucket_choose_deterministic b x r :
  0 < b_size b -> bucket_ok b ->
  exists item, item ∈ b_items b /\
    forall b', same_bucket b b' -> perm_cache_ok b' ->
      exists b'', crush_bucket_choose b' x r = Ret (item, b'') /\
        same_bucket b b'' /\ bucket_ok b''.
Proof.
  intros Hs Hok. destruct (crush_bucket_choose_chooses b x r Hs Hok) as (item & Hin & Hg).
  exists item. split; [done|]. intros b' Hsame Hc.
  destruct (Hg b' Hsame Hc) as (b'' & E & Hsame' & Hc'). exists b''.
  assert (same_bucket b b'') by (by trans b').
  split; [done|]. split; [done|]. by apply (bucket_ok_same b).
Qed.

(** A tree of four nodes over two items, and one whose second leaf pair has a
    single item. *)
Definition tree_example : crush_bucket :=
  Bucket (-4) 1 CRUSH_BUCKET_TREE 0 0x30000 3 [7; 8; 9] 0 0 [0; 0; 0]
    (TreeBody 8 [0; 0x10000; 0x20000; 0x10000; 0x30000; 0x10000; 0x10000; 0]).

Lemma tree_example_ok : bucket_ok tree_example.
Proof.
  split; [repeat split; vm_compute; congruence|vm_compute; reflexivity|split; [reflexivity|by left]|].
  split; [discriminate|]. split; [|discriminate]. intros _. do 2 eexists. split; [reflexivity|].
  exists 3. split; [lia|]. split; [reflexivity|]. split; [reflexivity|].
  split; [repeat constructor; lia|]. right. split; [eexists; split; [reflexivity|lia]|]. split.
  - intros h q w Hh Hq. assert (h = 1 \/ h = 2 \/ 2 < h) as [-> | [-> | ?]] by lia.
    + assert (q = 0 \/ q = 1) as [-> | ->] by (change (2 ^ (3 - 1 - 1)) with 2 in Hq; lia);
        intros Hw; injection Hw as <-; vm_compute; eauto.
    + assert (q = 0) as -> by (change (2 ^ (3 - 1 - 2)) with 1 in Hq; lia).
      intros Hw; injection Hw as <-; vm_compute; eauto.
    + rewrite Z.pow_neg_r in Hq by lia. lia.
  - intros q Hq. change (2 ^ (3 - 1)) with 4 in Hq. cbn in Hq. assert (q = 3) as -> by lia. reflexivity.
Qed.

Lemma crush_bucket_choose_deterministic_witness :
  exists item, item ∈ b_items tree_example /\
    exists b'', crush_bucket_choose tree_example 77 2 = Ret (item, b'').
Proof.
  destruct (crush_bucket_choose_deterministic tree_example 77 2) as (item & Hin & H).
  - vm_compute. reflexivity.
  - exact tree_example_ok.
  - exists item. split; [exact Hin|].
    destruct (H tree_example) as (b'' & E & _); [reflexivity|exact (bucket_ok_cache _ tree_example_ok)|].
    exists b''. exact E.
Defined.
