(* ===== verification/Firstn.v ===== *)
(** * The depth-first search: what [crush_choose_firstn] returns

    Partial correctness of [crush_choose_firstn] of mapper.c, for any map: the
    items it stores are pairwise distinct, of the requested type, in the
    subtree of the start bucket, and (for devices) not out; with
    [recurse_to_leaf] each item has in [out2] a device of its own subtree, and
    these devices are distinct as well. *)
From S2P Require Import Prelude.
From S2P Require Import Hash.
From S2P Require Import Crush.
From S2P Require Import Mapper.
From S2P Require Import PermChoose.
From S2P Require Import BucketChoose.

(** ** Maps up to the permutation caches *)
Definition same_map (m m' : crush_map) : Prop :=
  Forall2 (option_Forall2 same_bucket) (buckets m) (buckets m') /\
  m' = set_buckets m (buckets m').

Lemma same_map_refl m : same_map m m.
Proof. split; [|by destruct m]. apply Forall_Forall2_diag, Forall_true. intros [b|]; constructor. done. Qed.

Lemma same_map_sym m m' : same_map m m' -> same_map m' m.
Proof.
  intros [H E]. split; [|rewrite E; by destruct m].
  apply Forall2_flip. eapply Forall2_impl; [done|]. intros p p'. destruct 1; constructor. by symmetry.
Qed.

Lemma same_map_trans m1 m2 m3 : same_map m1 m2 -> same_map m2 m3 -> same_map m1 m3.
Proof.
  intros [H1 E1] [H2 E2]. split; [|rewrite E2, E1; done].
  eapply Forall2_trans; [|exact H1|exact H2].
  intros p p' p''. destruct 1; inversion 1; subst; constructor. by etrans.
Qed.

#[export] Instance same_map_equivalence : Equivalence same_map.
Proof. split; [exact same_map_refl|exact same_map_sym|exact same_map_trans]. Qed.

Lemma same_map_get m m' i b' :
  same_map m m' -> get_bucket m' i = Ret b' ->
  exists b, get_bucket m i = Ret b /\ same_bucket b b'.
Proof.
  intros [H _]. unfold get_bucket. intros. inv_outcome.
  destruct a as [b''|]; cbn in *; [|done]. inv_outcome.
  apply rd_Ret in E as [Hi Hl]. destruct (Forall2_lookup_r _ _ _ _ _ H Hl) as (p & Hp & Hs).
  inversion Hs as [x y Hxy|]; subst. exists x. split; [|done].
  by rewrite (proj2 (rd_Ret (buckets m) i (Some x))).
Qed.

Lemma same_map_max_devices m m' : same_map m m' -> max_devices m' = max_devices m.
Proof. intros [_ ->]. done. Qed.

Lemma put_bucket_same m i b b' m' :
  get_bucket m i = Ret b -> same_bucket b b' -> put_bucket m i b' = Ret m' -> same_map m m'.
Proof.
  unfold get_bucket, put_bucket. intros Hg Hs Hp. inv_outcome.
  destruct a0 as [b0|]; cbn in *; [|done]. inv_outcome.
  apply wr_Ret in E as [Hi ->]. apply rd_Ret in E0 as [_ E0].
  split; cbn [buckets set_buckets]; [|done].
  rewrite <- (list_insert_id (buckets m) (Z.to_nat i) (Some b)) at 1 by done.
  apply Forall2_insert; [|by constructor]. apply same_map_refl.
Qed.

Lemma item_type_same m m' item t :
  same_map m m' -> item_type m' item = Ret t -> item_type m item = Ret t.
Proof.
  intros Hm. unfold item_type. case_match; [|done]. intros. inv_outcome.
  destruct (same_map_get _ _ _ _ Hm E) as (b & -> & Hs). cbn.
  by destruct (same_bucket_fields _ _ Hs) as (_ & -> & _).
Qed.

(** ** The subtree of a bucket *)

(** [item] occurs in bucket [i], or in a bucket that [i] contains. *)
Inductive under (m : crush_map) : Z -> Z -> Prop :=
  | under_here i b item :
      get_bucket m i = Ret b -> item ∈ b_items b -> under m i item
  | under_child i b c item :
      get_bucket m i = Ret b -> c ∈ b_items b -> c < 0 -> under m (-1 - c) item -> under m i item.

Lemma under_same m m' i item : same_map m m' -> under m' i item -> under m i item.
Proof.
  intros Hm. induction 1 as [i b item Hg Hin|i b c item Hg Hin Hc _ IH];
    destruct (same_map_get _ _ _ _ Hm Hg) as (b0 & Hg0 & Hs);
    destruct (same_bucket_fields _ _ Hs) as (_ & _ & _ & _ & _ & Eit & _); rewrite Eit in Hin.
  - by eapply under_here.
  - by eapply under_child.
Qed.

(** The start of a path is the index of a bucket. *)
Lemma under_start m i item : under m i item -> 0 <= i.
Proof.
  destruct 1 as [i b item Hg _|i b c item Hg _ _ _]; unfold get_bucket in Hg; inv_outcome;
    match goal with H : rd _ _ = Ret _ |- _ => apply rd_range in H; lia end.
Qed.

(** Extending a path at its end. *)
Lemma under_snoc m i c item :
  under m i c -> c < 0 -> under m (-1 - c) item -> under m i item.
Proof.
  induction 1 as [i b c Hg Hin|i b d c Hg Hin Hd _ IH]; intros Hc Hu.
  - by eapply under_child.
  - eapply under_child; eauto.
Qed.

(** ** Choosing from a bucket *)
Lemma bucket_perm_choose_same b x r item b' :
  bucket_perm_choose b x r = Ret (item, b') -> item ∈ b_items b /\ same_bucket b b'.
Proof.
  unfold bucket_perm_choose, perm_finish. intros H.
  repeat case_match; try done; inv_outcome; (split; [by eapply rd_elem|done]).
Qed.

Lemma list_choose_loop_in n b iw sw x r item :
  list_choose_loop n b iw sw x r = Ret item -> item ∈ b_items b.
Proof.
  induction n as [|n IH]; cbn [list_choose_loop]; intros H; [by eapply rd_elem|].
  inv_outcome. case_match; [|by apply IH]. inv_outcome. by eapply rd_elem.
Qed.

Lemma tree_choose_loop_in fuel b nw x r n item :
  tree_choose_loop fuel b nw x r n = Ret item -> item ∈ b_items b.
Proof.
  revert n. induction fuel as [|fuel IH]; intros n; cbn [tree_choose_loop]; [done|].
  case_match; [apply rd_elem|]. intros. inv_outcome. case_match; inv_outcome; by eapply IH.
Qed.

Lemma straw_choose_loop_in n b st x r i h hd item :
  straw_choose_loop n b st x r i h hd = Ret item -> item ∈ b_items b.
Proof.
  revert i h hd. induction n as [|n IH]; intros i h hd; cbn [straw_choose_loop]; [apply rd_elem|].
  intros. inv_outcome. case_match; by eapply IH.
Qed.

Lemma crush_bucket_choose_same b x r item b' :
  crush_bucket_choose b x r = Ret (item, b') -> item ∈ b_items b /\ same_bucket b b'.
Proof.
  unfold crush_bucket_choose, bucket_uniform_choose, bucket_list_choose, bucket_tree_choose,
    bucket_straw_choose. intros H. inv_outcome.
  repeat case_match; try done; inv_outcome;
    eauto using bucket_perm_choose_same;
    (split; [|apply same_bucket_refl]);
    eauto using list_choose_loop_in, tree_choose_loop_in, straw_choose_loop_in, rd_elem.
Qed.

Lemma firstn_choose_item_same x a b r fl item b' :
  firstn_choose_item x a b r fl = Ret (item, b') -> item ∈ b_items b /\ same_bucket b b'.
Proof.
  unfold firstn_choose_item. case_match; eauto using bucket_perm_choose_same, crush_bucket_choose_same.
Qed.

(** ** Postconditions *)
Section Post.
Context (weight : list Z) (weight_max x : Z).

(** [item] is a right choice for a search of type [type] from bucket [start]. *)
Definition accepted (m : crush_map) (type start item : Z) : Prop :=
  item_type m item = Ret type /\ item < max_devices m /\ under m start item /\
  (type = 0 -> is_out weight weight_max item x = Ret false).

Lemma accepted_same m m' type start item :
  same_map m m' -> accepted m' type start item -> accepted m type start item.
Proof.
  intros Hm (H1 & H2 & H3 & H4). rewrite (same_map_max_devices m m') in H2 by done.
  split_and!; eauto using item_type_same, under_same.
Qed.

(** The value at [base + i] differs from those at [base + j], [j < i]. *)
Definition fresh_at (mem : list Z) (base i v : Z) : Prop :=
  forall j, 0 <= j < i -> rd mem (base + j) <> Ret v.

(** The slots a call may write. *)
Definition last_pos (a : firstn_args) : Z := Z.max (fa_outpos a) (fa_numrep a).
Definition in_slots (base : Z) (a : firstn_args) (k : Z) : Prop :=
  base + fa_outpos a <= k < base + last_pos a.
Definition leaf_slots (a : firstn_args) (k : Z) : Prop :=
  fa_recurse_to_leaf a = true /\ exists o2, fa_out2 a = Some o2 /\ in_slots o2 a k.

(** [out] and [out2] are different arrays. *)
Definition args_ok (a : firstn_args) : Prop :=
  0 <= fa_outpos a /\
  (fa_recurse_to_leaf a = true -> forall o2, fa_out2 a = Some o2 ->
   o2 + last_pos a <= fa_out a \/ fa_out a + last_pos a <= o2).

Record firstn_post (a : firstn_args) (m m' : crush_map) (mem mem' : list Z) (n : Z) : Prop := {
  fp_map : same_map m m';
  fp_len : length mem' = length mem;
  fp_n : fa_outpos a <= n <= last_pos a;
  fp_items : forall i, fa_outpos a <= i < n ->
    exists v, rd mem' (fa_out a + i) = Ret v /\
      accepted m (fa_type a) (fa_bucket a) v /\ fresh_at mem' (fa_out a) i v;
  fp_leaves : fa_recurse_to_leaf a = true -> fa_type a <> 0 ->
    forall i, fa_outpos a <= i < n ->
    exists o2 v leaf, fa_out2 a = Some o2 /\ rd mem' (fa_out a + i) = Ret v /\
      rd mem' (o2 + i) = Ret leaf /\ accepted m 0 (-1 - v) leaf /\ fresh_at mem' o2 i leaf;
  fp_frame : forall k, ~ in_slots (fa_out a) a k -> ~ leaf_slots a k -> rd mem' k = rd mem k }.

Lemma collides_false n mem out i item :
  collides n mem out i item = Ret false ->
  forall j, i <= j < i + Z.of_nat n -> rd mem (out + j) <> Ret item.
Proof.
  revert i. induction n as [|n IH]; intros i; cbn [collides]; [lia|].
  intros. inv_outcome. case_Zb; [done|].
  destruct (decide (j = i)) as [->|]; [congruence|]. eapply IH; [done|lia].
Qed.

Section WithSelf.
Context (self : crush_map -> list Z -> firstn_args -> outcome (Z * crush_map * list Z)).
Context (a : firstn_args).
Hypothesis Hself : forall m mem a' n m' mem',
  fa_recurse_to_leaf a' = false -> args_ok a' ->
  self m mem a' = Ret (n, m', mem') -> firstn_post a' m m' mem mem' n.

(** Only the leaf slot of the current position may have changed. *)
Definition leaf_frame (outpos : Z) (mem mem' : list Z) : Prop :=
  length mem' = length mem /\
  forall k, (fa_recurse_to_leaf a = true -> forall o2, fa_out2 a = Some o2 -> k <> o2 + outpos) ->
    rd mem' k = rd mem k.

Lemma leaf_frame_refl outpos mem : leaf_frame outpos mem mem.
Proof. done. Qed.

Lemma leaf_frame_trans outpos mem1 mem2 mem3 :
  leaf_frame outpos mem1 mem2 -> leaf_frame outpos mem2 mem3 -> leaf_frame outpos mem1 mem3.
Proof. intros [H1 H2] [H3 H4]. split; [congruence|]. intros k Hk. by rewrite H4, H2. Qed.

(** A leaf found for [item] at position [outpos]. *)
Definition leaf_found (m : crush_map) (mem : list Z) (outpos item : Z) : Prop :=
  exists o2 leaf, fa_out2 a = Some o2 /\ rd mem (o2 + outpos) = Ret leaf /\
    accepted m 0 (-1 - item) leaf /\ fresh_at mem o2 outpos leaf.

Lemma firstn_leaf_post m mem collide item outpos r reject m' mem' :
  0 <= outpos ->
  firstn_leaf self a m mem collide item outpos r = Ret (reject, m', mem') ->
  same_map m m' /\ leaf_frame outpos mem mem' /\
  (reject = false -> collide = false -> fa_recurse_to_leaf a = true -> item < 0 ->
   leaf_found m mem' outpos item).
Proof.
  intros Hpos. unfold firstn_leaf.
  destruct (negb collide && fa_recurse_to_leaf a) eqn:Ec.
  2:{ intros. inv_outcome. split; [reflexivity|]. split; [done|]. intros _ -> Hr. by rewrite Hr in Ec. }
  apply andb_true_iff in Ec as [_ Hrec].
  destruct (Z.ltb_spec item 0) as [Hneg|Hneg].
  - destruct (fa_out2 a) as [o2|] eqn:Eo2; cbn [deref]; intros; inv_outcome;
      match type of Eo2 with _ = Some ?z => rename z into o2 end.
    match goal with H : self _ _ _ = Ret _ |- _ => apply Hself in H; [|done|split; [done|discriminate]] end.
    match goal with H : firstn_post _ _ _ _ _ _ |- _ =>
      destruct H as [Hm Hlen Hn Hitems _ Hframe] end. unfold last_pos in Hn. cbn in *.
    split; [done|]. split.
    + split; [done|]. intros k Hk. apply Hframe.
      * unfold in_slots, last_pos. cbn. specialize (Hk Hrec o2 Eo2). lia.
      * intros [? _]. done.
    + intros Hrej _ _ _. apply Z.leb_gt in Hrej.
      destruct (Hitems outpos) as (v & Hv & Hacc & Hfr); [lia|]. by exists o2, v.
  - destruct (fa_out2 a) as [o2|] eqn:Eo2; cbn [deref]; intros; inv_outcome;
      match type of Eo2 with _ = Some ?z => rename z into o2 end.
    split; [reflexivity|]. split; [|intros; lia].
    split; [by eapply wr_length|]. intros k Hk. eapply rd_wr_ne; [done|].
    specialize (Hk Hrec o2 Eo2). lia.
Qed.

(** One pass of the loop body. *)
Definition pass_post (m : crush_map) (mem : list Z) (in_ outpos : Z)
    (res : firstn_pass) (mem' : list Z) : Prop :=
  match res with
  | Got item =>
      accepted m (fa_type a) in_ item /\ fresh_at mem (fa_out a) outpos item /\
      (fa_recurse_to_leaf a = true -> fa_type a <> 0 -> leaf_found m mem' outpos item)
  | Into in' => exists item, under m in_ item /\ item < 0 /\ in' = -1 - item
  | _ => True
  end.

Lemma firstn_pass_post m mem in_ rep outpos ftotal flocal res m' mem' :
  0 <= outpos ->
  firstn_pass_body weight weight_max x self a m mem in_ rep outpos ftotal flocal = Ret (res, m', mem') ->
  same_map m m' /\ leaf_frame outpos mem mem' /\ pass_post m mem in_ outpos res mem'.
Proof.
  intros Hpos H. unfold firstn_pass_body in H. inv_outcome.
  destruct (b_size a0 =? 0); [by inv_outcome|]. inv_outcome.
  apply firstn_choose_item_same in E0 as [Hin Hsb].
  pose proof (put_bucket_same _ _ _ _ _ E Hsb E1) as Hm.
  assert (Hu : under m in_ z) by by eapply under_here.
  destruct (Z.leb_spec (max_devices a1) z) as [|Hdev]; [by inv_outcome|]. inv_outcome.
  pose proof (item_type_same _ _ _ _ Hm E0) as Hty.
  rewrite (same_map_max_devices m a1) in Hdev by done.
  destruct (Z.eqb_spec a2 (fa_type a)) as [->|]; cbn [negb] in H.
  - inv_outcome. apply firstn_leaf_post in E3 as (Hm' & Hf & Hleaf); [|done].
    assert (Hmm : same_map m c0) by by etrans.
    destruct (a3 || a2) eqn:Erej; inv_outcome; [done|].
    apply orb_false_iff in Erej as [-> ->]. destruct b; [by inv_outcome|].
    split; [done|]. split; [done|]. split_and!.
    + split_and!; try done. intros Ht. by rewrite Ht in E4.
    + intros j Hj. eapply collides_false; [exact E2|lia].
    + intros Hr Hne. destruct Hleaf as (o2 & leaf & ? & ? & Hacc & ?); try done.
      { destruct (Z.lt_ge_cases z 0) as [|Hge]; [done|]. contradict Hne.
        unfold item_type in Hty. rewrite (proj2 (Z.ltb_ge z 0)) in Hty by lia. by inv_outcome. }
      exists o2, leaf.
  split; [done|]. split; [done|]. split; [exact (accepted_same m a1 _ _ _ Hm Hacc)|done].
  - destruct ((0 <=? z) || _) eqn:Eneg; inv_outcome; [done|].
    apply orb_false_iff in Eneg as [Hneg%Z.leb_gt _]. split; [done|]. split; [done|]. by exists z.
Qed.

(** The bucket reached from the start bucket. *)
Definition reach (m : crush_map) (start in_ : Z) : Prop :=
  in_ = start \/ exists it, under m start it /\ it < 0 /\ in_ = -1 - it.

Lemma reach_under m start in_ item : reach m start in_ -> under m in_ item -> under m start item.
Proof. intros [-> | (it & Hit & Hn & ->)] Hu; [done|by eapply under_snoc]. Qed.

Hypothesis Hargs : args_ok a.

Lemma leaf_frame_out outpos mem mem' j :
  leaf_frame outpos mem mem' -> 0 <= j <= outpos -> outpos < last_pos a ->
  rd mem' (fa_out a + j) = rd mem (fa_out a + j).
Proof.
  intros [_ Hf] Hj Hl. apply Hf. intros Hr o2 Eo2. destruct Hargs as [_ Hd].
  specialize (Hd Hr o2 Eo2). lia.
Qed.

Lemma fresh_at_frame outpos mem mem' v :
  leaf_frame outpos mem mem' -> outpos < last_pos a -> 0 <= outpos ->
  fresh_at mem (fa_out a) outpos v -> fresh_at mem' (fa_out a) outpos v.
Proof. intros Hf Hl Hp Hfr j Hj. rewrite (leaf_frame_out outpos mem) by (done || lia). by apply Hfr. Qed.

(** What an accepted item satisfies, when it is stored at [outpos]. *)
Definition chosen_post (m : crush_map) (mem' : list Z) (outpos item : Z) : Prop :=
  accepted m (fa_type a) (fa_bucket a) item /\ fresh_at mem' (fa_out a) outpos item /\
  (fa_recurse_to_leaf a = true -> fa_type a <> 0 -> leaf_found m mem' outpos item).

Lemma leaf_found_same m m' mem outpos item :
  same_map m m' -> leaf_found m' mem outpos item -> leaf_found m mem outpos item.
Proof.
  intros Hm (o2 & leaf & ? & ? & ? & ?). exists o2, leaf.
  split; [done|]. split; [done|]. split; [by apply (accepted_same m m')|done].
Qed.

Lemma chosen_post_same m m' mem outpos item :
  same_map m m' -> chosen_post m' mem outpos item -> chosen_post m mem outpos item.
Proof.
  intros Hm (H1 & H2 & H3). split_and!; [by apply (accepted_same m m')|done|].
  intros. apply (leaf_found_same m m'); auto.
Qed.

Lemma firstn_inner_post fuel m0 m mem in_ rep outpos ftotal flocal res m' mem' :
  0 <= outpos -> outpos < last_pos a -> same_map m0 m -> reach m0 (fa_bucket a) in_ ->
  firstn_inner weight weight_max x self a fuel m mem in_ rep outpos ftotal flocal = Ret (res, m', mem') ->
  same_map m0 m' /\ leaf_frame outpos mem mem' /\
  (forall item, res = Chosen item -> chosen_post m0 mem' outpos item).
Proof.
  intros Hpos Hlast. revert m mem in_ ftotal flocal.
  induction fuel as [|fuel IH]; intros m mem in_ ftotal flocal Hm0 Hr H; [done|].
  cbn [firstn_inner] in H. inv_outcome.
  apply firstn_pass_post in E as (Hm & Hf & Hp); [|done].
  assert (Hm' : same_map m0 c) by by etrans.
  destruct f as [item| |in'|collide]; cbn [pass_post] in Hp.
  - destruct Hp as (Hacc & Hfr & Hleaf). injection H as <- <- <-.
    split; [done|]. split; [done|]. intros ? [= <-]. split_and!.
    + apply (accepted_same m0) in Hacc as (? & ? & ? & ?); [|done].
      split_and!; try done. by eapply reach_under.
    + by eapply fresh_at_frame.
    + intros. eapply (leaf_found_same m0 m); auto.
  - by inv_outcome.
  - destruct Hp as (it & Hu & Hn & ->).
    apply IH in H as (Hm1 & Hf1 & Hc1); [|done|].
    + split; [done|]. split; [by eapply leaf_frame_trans|done].
    + right. exists it. split; [|done]. eapply reach_under; [done|]. by apply (under_same m0 m).
  - inv_outcome. case_match; inv_outcome; try done.
    apply IH in H as (Hm1 & Hf1 & Hc1); [|done|done].
    split; [done|]. split; [by eapply leaf_frame_trans|done].
Qed.

Lemma firstn_descents_post n fuel m mem rep outpos ftotal res m' mem' :
  0 <= outpos -> outpos < last_pos a ->
  firstn_descents weight weight_max x self a n fuel m mem rep outpos ftotal = Ret (res, m', mem') ->
  same_map m m' /\ leaf_frame outpos mem mem' /\
  (forall item, res = Some item -> chosen_post m mem' outpos item).
Proof.
  intros Hpos Hlast. revert m mem ftotal.
  induction n as [|n IH]; intros m mem ftotal H; [done|]. cbn [firstn_descents] in H. inv_outcome.
  eapply firstn_inner_post in E as (Hm & Hf & Hc); [|done|done|reflexivity|by left].
  case_match; inv_outcome.
  - split; [done|]. split; [done|]. intros ? [= <-]. by apply Hc.
  - done.
  - apply IH in H as (Hm1 & Hf1 & Hc1). split; [by etrans|]. split; [by eapply leaf_frame_trans|].
    intros item ?. apply (chosen_post_same m c); auto.
Qed.

(** A search that stores nothing keeps the postcondition. *)
Lemma firstn_post_skip m0 m m' mem0 mem mem' outpos :
  firstn_post a m0 m mem0 mem outpos -> outpos < last_pos a ->
  same_map m m' -> leaf_frame outpos mem mem' -> firstn_post a m0 m' mem0 mem' outpos.
Proof.
  intros [Hm Hlen Hn Hit Hlf Hfr] Hlast Hm' Hf. destruct Hargs as [Hpos Hdis].
  assert (Ho : forall j, 0 <= j <= outpos -> rd mem' (fa_out a + j) = rd mem (fa_out a + j))
    by (intros; by eapply leaf_frame_out).
  split; [by etrans|destruct Hf; congruence|done| | |].
  - intros i Hi. destruct (Hit i Hi) as (v & Hv & Ha & Hfv). exists v.
    rewrite Ho by lia. split_and!; try apply Ha; [done|]. intros j Hj. rewrite Ho by lia. by apply Hfv.
  - intros Hr Ht i Hi. destruct (Hlf Hr Ht i Hi) as (o2 & v & lf & Eo & Hv & Hl & Ha & Hfl).
    assert (H2 : forall j, 0 <= j < outpos -> rd mem' (o2 + j) = rd mem (o2 + j)).
    { intros j Hj. apply Hf. intros _ o2' Eo'. rewrite Eo in Eo'. injection Eo' as <-. lia. }
    exists o2, v, lf. rewrite Ho, H2 by lia. split_and!; try done; try apply Ha.
    intros j Hj. rewrite H2 by lia. by apply Hfl.
  - intros k Hk1 Hk2. rewrite <- Hfr by done. apply Hf. intros Hr o2 Eo ->. apply Hk2.
    split; [done|]. exists o2. split; [done|]. unfold in_slots. lia.
Qed.

(** Storing the chosen item extends it. *)
Lemma firstn_post_store m0 m mem0 mem mem' outpos item :
  firstn_post a m0 m mem0 mem outpos -> outpos < last_pos a ->
  chosen_post m0 mem outpos item -> wr mem (fa_out a + outpos) item = Ret mem' ->
  firstn_post a m0 m mem0 mem' (outpos + 1).
Proof.
  intros [Hm Hlen Hn Hit Hlf Hfr] Hlast (Ha & Hfresh & Hleaf) Hw. destruct Hargs as [Hpos Hdis].
  assert (Ho : forall k, k <> fa_out a + outpos -> rd mem' k = rd mem k)
    by (intros; by eapply rd_wr_ne).
  assert (Hnew : rd mem' (fa_out a + outpos) = Ret item) by by eapply rd_wr_eq.
  assert (Hfro : forall i v, i <= outpos -> fresh_at mem (fa_out a) i v -> fresh_at mem' (fa_out a) i v).
  { intros i v Hi Hv j Hj. rewrite Ho by lia. by apply Hv. }
  split; [done|rewrite <- Hlen; by eapply wr_length|lia| | |].
  - intros i Hi. destruct (decide (i = outpos)) as [->|Hne].
    + exists item. split_and!; try apply Ha; [done|]. by apply Hfro.
    + destruct (Hit i) as (v & Hv & Hav & Hfv); [lia|]. exists v.
      rewrite Ho by lia. split_and!; try apply Hav; [done|]. apply Hfro; [lia|done].
  - intros Hr Ht i Hi.
    assert (Hi' : exists o2 v lf, fa_out2 a = Some o2 /\ rd mem' (fa_out a + i) = Ret v /\
        rd mem (o2 + i) = Ret lf /\ accepted m0 0 (-1 - v) lf /\ fresh_at mem o2 i lf).
    { destruct (decide (i = outpos)) as [->|Hne].
      - destruct Hleaf as (o2 & lf & ? & ? & ? & ?); [done|done|]. by exists o2, item, lf.
      - rewrite Ho by lia. apply Hlf; (done || lia). }
    destruct Hi' as (o2 & v & lf & Eo & Hv & Hl & Hav & Hfl). specialize (Hdis Hr o2 Eo).
    exists o2, v, lf. rewrite (Ho (o2 + i)) by lia. split_and!; try done; try apply Hav.
    intros j Hj. rewrite Ho by lia. by apply Hfl.
  - intros k Hk1 Hk2. rewrite <- Hfr by done. apply Ho. intros ->. apply Hk1. unfold in_slots. lia.
Qed.

Lemma firstn_reps_post n fuel m0 m mem0 mem rep outpos k m' mem' :
  firstn_post a m0 m mem0 mem outpos -> outpos + Z.of_nat n <= last_pos a ->
  firstn_reps weight weight_max x self a n fuel m mem rep outpos = Ret (k, m', mem') ->
  firstn_post a m0 m' mem0 mem' k.
Proof.
  revert m mem rep outpos. induction n as [|n IH]; intros m mem rep outpos Hp Hl H;
    cbn [firstn_reps] in H; [by inv_outcome|].
  assert (Hrange : 0 <= outpos < last_pos a).
  { destruct Hargs as [Hpos _]. pose proof (fp_n _ _ _ _ _ _ Hp). lia. }
  inv_outcome. apply firstn_descents_post in E as (Hm & Hf & Hc); [|lia|lia].
  assert (Hp1 : firstn_post a m0 c mem0 l outpos) by (eapply firstn_post_skip; eauto; lia).
  destruct o as [item|].
  - inv_outcome. eapply IH; [| |done]; [|lia]. eapply firstn_post_store; [done|lia| |done].
    apply (chosen_post_same m0 m); [apply (fp_map _ _ _ _ _ _ Hp)|by apply Hc].
  - eapply IH; [done| |done]. lia.
Qed.

Lemma firstn_post_init m mem : firstn_post a m m mem mem (fa_outpos a).
Proof.
  split; [reflexivity|done| |intros; lia|intros; lia|done]. unfold last_pos. lia.
Qed.

End WithSelf.

Lemma crush_choose_firstn_post depth fuel m mem a n m' mem' :
  args_ok a ->
  crush_choose_firstn weight weight_max x depth fuel m mem a = Ret (n, m', mem') ->
  firstn_post a m m' mem mem' n.
Proof.
  revert m mem a n m' mem'. induction depth as [|depth IH]; intros m mem a n m' mem' Ha H; [done|].
  cbn [crush_choose_firstn] in H. eapply firstn_reps_post; [| |by apply firstn_post_init| |exact H].
  - intros * _. apply IH.
  - done.
  - unfold last_pos. lia.
Qed.

End Post.

Section Result.
Context (weight : list Z) (weight_max x : Z).

Lemma firstn_post_items a m m' mem mem' n :
  fa_outpos a = 0 -> firstn_post weight weight_max x a m m' mem mem' n ->
  let items := slice mem' (fa_out a) n in
  Z.of_nat (length items) = n /\ NoDup items /\
  Forall (accepted weight weight_max x m (fa_type a) (fa_bucket a)) items.
Proof.
  intros Hpos [Hm Hlen Hn Hit Hlf Hfr] items. rewrite Hpos in *. split_and!.
  - unfold items. rewrite slice_length; [lia|]. naive_solver.
  - apply slice_NoDup. intros i Hi. destruct (Hit i Hi) as (v & Hv & _ & Hf). eauto.
  - apply slice_Forall. intros i Hi. destruct (Hit i Hi) as (v & Hv & Ha & _). eauto.
Qed.

Lemma firstn_post_leaves a m m' mem mem' n o2 :
  fa_outpos a = 0 -> fa_recurse_to_leaf a = true -> fa_type a <> 0 -> fa_out2 a = Some o2 ->
  firstn_post weight weight_max x a m m' mem mem' n ->
  let leaves := slice mem' o2 n in
  Z.of_nat (length leaves) = n /\ NoDup leaves /\
  Forall2 (fun item => accepted weight weight_max x m 0 (-1 - item)) (slice mem' (fa_out a) n) leaves.
Proof.
  intros Hpos Hr Ht Eo [Hm Hlen Hn Hit Hlf Hfr] leaves. rewrite Hpos in *.
  assert (H : forall i, 0 <= i < n -> exists v leaf, rd mem' (fa_out a + i) = Ret v /\
    rd mem' (o2 + i) = Ret leaf /\ accepted weight weight_max x m 0 (-1 - v) leaf /\
    fresh_at mem' o2 i leaf).
  { intros i Hi. destruct (Hlf Hr Ht i Hi) as (? & v & leaf & Eo' & ?). rewrite Eo in Eo'.
    injection Eo' as <-. by exists v, leaf. }
  split_and!.
  - unfold leaves. rewrite slice_length; [lia|]. naive_solver.
  - apply slice_NoDup. intros i Hi. destruct (H i Hi) as (v & leaf & ? & ? & ? & ?). eauto.
  - apply slice_Forall2. intros i Hi. destruct (H i Hi) as (v & leaf & ? & ? & ? & ?). eauto.
Qed.

End Result.

(** ** A small map: one root, three hosts, six devices *)
Definition straw_bucket (id type : Z) (items : list Z) : crush_bucket :=
  let n := length items in
  Bucket id type CRUSH_BUCKET_STRAW 0 (0x10000 * Z.of_nat n) (Z.of_nat n) items 0 0
    (repeat 0 n) (StrawBody (repeat 0x10000 n) (repeat 0x10000 n)).

Definition chooseleaf_rule (choose_op root arg1 type : Z) : crush_rule :=
  Rule 3 (RuleMask 0 1 1 10)
    [RuleStep CRUSH_RULE_TAKE root 0; RuleStep choose_op arg1 type;
     RuleStep CRUSH_RULE_EMIT 0 0].

Definition example_map : crush_map :=
  CrushMap
    [Some (straw_bucket (-1) 2 [-2; -3; -4]); Some (straw_bucket (-2) 1 [0; 1]);
     Some (straw_bucket (-3) 1 [2; 3]); Some (straw_bucket (-4) 1 [4; 5])]
    [Some (chooseleaf_rule CRUSH_RULE_CHOOSELEAF_FIRSTN (-1) 0 1);
     Some (chooseleaf_rule CRUSH_RULE_CHOOSELEAF_INDEP (-1) 0 1)] 4 2 6 2 5 19 0 0.

(** Device 3 is out. *)
Definition example_weight : list Z := [0x10000; 0x10000; 0x10000; 0; 0x8000; 0x10000].

Definition example_firstn_args : firstn_args :=
  FirstnArgs 0 3 1 3 0 20 20 2 5 true 0 (Some 6) 0.

(** ** Properties *)

(** C18: crush_choose_firstn: from an empty output vector ([outpos] = 0, [out] and
    [out2] different arrays), the [n] items it stores are pairwise distinct,
    each of the requested type, in the subtree of the start bucket and, when
    the type is a device, not out; when it recurses to leaves below items that
    are buckets, [out2] holds pairwise distinct devices, none of them out, the
    i-th one inside the i-th item.  The map is unchanged but for the
    permutation caches. *)
Theorem crush_choose_firstn_distinct weight weight_max x depth fuel m mem a n m' mem' :
  fa_outpos a = 0 -> args_ok a ->
  crush_choose_firstn weight weight_max x depth fuel m mem a = Ret (n, m', mem') ->
  let items := slice mem' (fa_out a) n in
  same_map m m' /\ n <= Z.max 0 (fa_numrep a) /\
  Z.of_nat (length items) = n /\ NoDup items /\
  Forall (accepted weight weight_max x m (fa_type a) (fa_bucket a)) items /\
  (forall o2, fa_recurse_to_leaf a = true -> fa_type a <> 0 -> fa_out2 a = Some o2 ->
   let leaves := slice mem' o2 n in
   NoDup leaves /\
   Forall2 (fun item => accepted weight weight_max x m 0 (-1 - item)) items leaves).
Proof.
  intros Hpos Ha H items. apply crush_choose_firstn_post in H as Hp; [|done].
  destruct (firstn_post_items _ _ _ _ _ _ _ _ _ Hpos Hp) as (H1 & H2 & H3).
  pose proof (fp_n _ _ _ _ _ _ _ _ _ Hp) as Hn. unfold last_pos in Hn. rewrite Hpos in Hn.
  split; [apply Hp|]. split; [lia|]. split_and!; [done..|].
  intros o2 Hr Ht Eo. by apply firstn_post_leaves with (o2 := o2) in Hp as (_ & ? & ?).
Qed.

Lemma crush_choose_firstn_distinct_witness :
  exists n m' mem',
    crush_choose_firstn example_weight 6 77 2 100 example_map (repeat 0 9) example_firstn_args
      = Ret (n, m', mem') /\ n = 3 /\ NoDup (slice mem' 3 3) /\ NoDup (slice mem' 6 3).
Proof.
  destruct (crush_choose_firstn example_weight 6 77 2 100 example_map (repeat 0 9)
    example_firstn_args) as [[[n m'] mem']| |] eqn:E; [|vm_compute in E; discriminate..].
  assert (n = 3) as -> by (vm_compute in E; congruence).
  exists 3, m', mem'. split; [done|].
  destruct (crush_choose_firstn_distinct example_weight 6 77 2 100 example_map (repeat 0 9)
    example_firstn_args 3 m' mem') as (_ & _ & _ & H1 & _ & H2).
  - reflexivity.
  - split; [cbn; lia|]. intros _ o2 [= <-]. right. vm_compute. discriminate.
  - exact E.
  - split; [reflexivity|]. split; [exact H1|]. apply H2; [reflexivity|discriminate|reflexivity].
Defined.
