(* ===== verification/Indep.v ===== *)
(** * The breadth-first search: what [crush_choose_indep] returns

    Partial correctness of [crush_choose_indep] of mapper.c: every position it
    is asked to fill holds CRUSH_ITEM_NONE or an item of the requested type in
    the subtree of the start bucket, no item is at two positions, and (with
    [recurse_to_leaf]) the leaf vector holds, position by position, a device
    of that item's subtree that is not out, or CRUSH_ITEM_NONE. *)
From S2P Require Import Prelude.
From S2P Require Import Crush.
From S2P Require Import Mapper.
From S2P Require Import PermChoose.
From S2P Require Import BucketChoose.
From S2P Require Import Firstn.

Section Post.
Context (weight : list Z) (weight_max x : Z).

(** The positions a call fills. *)
Definition in_range (a : indep_args) (i : Z) : Prop := ia_outpos a <= i < ia_outpos a + ia_left a.

(** [out] and [out2] do not overlap. *)
Definition iargs_ok (a : indep_args) : Prop :=
  forall o2 i j, ia_out2 a = Some o2 -> in_range a i -> in_range a j -> ia_out a + i <> o2 + j.

(** The slots a call may write. *)
Definition islot (a : indep_args) (k : Z) : Prop :=
  exists i, in_range a i /\ (k = ia_out a + i \/ exists o2, ia_out2 a = Some o2 /\ k = o2 + i).

Definition unset (v : Z) : Prop := v = CRUSH_ITEM_UNDEF \/ v = CRUSH_ITEM_NONE.

Record indep_post (a : indep_args) (m m' : crush_map) (mem mem' : list Z) : Prop := {
  ip_map : same_map m m';
  ip_len : length mem' = length mem;
  ip_items : forall i, in_range a i -> exists v, rd mem' (ia_out a + i) = Ret v /\
    (v = CRUSH_ITEM_NONE \/ accepted weight weight_max x m (ia_type a) (ia_bucket a) v);
  ip_distinct : forall i j v, in_range a i -> in_range a j -> i <> j ->
    rd mem' (ia_out a + i) = Ret v -> rd mem' (ia_out a + j) = Ret v -> v = CRUSH_ITEM_NONE;
  ip_leaves : ia_recurse_to_leaf a = true -> ia_type a <> 0 -> forall i, in_range a i ->
    exists o2 v leaf, ia_out2 a = Some o2 /\ rd mem' (ia_out a + i) = Ret v /\
      rd mem' (o2 + i) = Ret leaf /\
      (v = CRUSH_ITEM_NONE /\ leaf = CRUSH_ITEM_NONE \/
       accepted weight weight_max x m 0 (-1 - v) leaf);
  ip_frame : forall k, ~ islot a k -> rd mem' k = rd mem k }.

Section WithSelf.
Context (self : crush_map -> list Z -> indep_args -> outcome (crush_map * list Z)).
Context (a : indep_args) (m0 : crush_map) (mem0 : list Z).
Hypothesis Hself : forall m mem a' m' mem',
  max_devices m <= CRUSH_ITEM_UNDEF -> ia_recurse_to_leaf a' = false -> iargs_ok a' ->
  self m mem a' = Ret (m', mem') -> indep_post a' m m' mem mem'.
Hypothesis Hdev : max_devices m0 <= CRUSH_ITEM_UNDEF.
Hypothesis Hargs : iargs_ok a.

Lemma accepted_set type start v : accepted weight weight_max x m0 type start v -> ~ unset v.
Proof. intros (_ & Hv & _) [-> | ->]; unfold CRUSH_ITEM_UNDEF, CRUSH_ITEM_NONE in *; lia. Qed.

(** The leaf that goes with the value [v] of a position, during the search. *)
Definition leaf_rel (v leaf : Z) : Prop :=
  v = CRUSH_ITEM_UNDEF /\ unset leaf \/ v = CRUSH_ITEM_NONE /\ leaf = CRUSH_ITEM_NONE \/
  accepted weight weight_max x m0 0 (-1 - v) leaf.

Definition leaf_ok (mem : list Z) (i v : Z) : Prop :=
  ia_recurse_to_leaf a = true -> ia_type a <> 0 ->
  exists o2 leaf, ia_out2 a = Some o2 /\ rd mem (o2 + i) = Ret leaf /\ leaf_rel v leaf.

(** The invariant of the search. *)
Record indep_inv (m : crush_map) (mem : list Z) : Prop := {
  ii_map : same_map m0 m;
  ii_len : length mem = length mem0;
  ii_items : forall i, in_range a i -> exists v, rd mem (ia_out a + i) = Ret v /\
    (unset v \/ accepted weight weight_max x m0 (ia_type a) (ia_bucket a) v) /\ leaf_ok mem i v;
  ii_distinct : forall i j v, in_range a i -> in_range a j -> i <> j ->
    rd mem (ia_out a + i) = Ret v -> rd mem (ia_out a + j) = Ret v -> unset v;
  ii_frame : forall k, ~ islot a k -> rd mem k = rd mem0 k }.

(** Only the slots of position [rep] differ. *)
Definition only_at (rep : Z) (mem mem' : list Z) : Prop :=
  length mem' = length mem /\
  forall k, k <> ia_out a + rep -> (forall o2, ia_out2 a = Some o2 -> k <> o2 + rep) ->
    rd mem' k = rd mem k.

Lemma only_at_out rep mem mem' j :
  only_at rep mem mem' -> in_range a rep -> in_range a j -> j <> rep ->
  rd mem' (ia_out a + j) = rd mem (ia_out a + j).
Proof. intros [_ Hf] Hr Hj Hne. apply Hf; [lia|]. intros o2 Eo. by apply Hargs. Qed.

Lemma only_at_out2 rep mem mem' o2 j :
  only_at rep mem mem' -> in_range a rep -> in_range a j -> j <> rep -> ia_out2 a = Some o2 ->
  rd mem' (o2 + j) = rd mem (o2 + j).
Proof.
  intros [_ Hf] Hr Hj Hne Eo. apply Hf.
  - intros E. by apply (Hargs o2 rep j).
  - intros o2' Eo'. rewrite Eo in Eo'. injection Eo' as <-. lia.
Qed.

(** The new value of a position has to be legal, and new if it is an item. *)
Lemma indep_inv_update m m' mem mem' rep v :
  indep_inv m mem -> in_range a rep -> same_map m m' -> only_at rep mem mem' ->
  rd mem' (ia_out a + rep) = Ret v -> leaf_ok mem' rep v ->
  (unset v \/ accepted weight weight_max x m0 (ia_type a) (ia_bucket a) v /\
     forall j, in_range a j -> j <> rep -> rd mem (ia_out a + j) <> Ret v) ->
  indep_inv m' mem'.
Proof.
  intros [Hm Hlen Hit Hds Hfr] Hrep Hm' Hat Hv Hleaf Hnew. split; [by etrans|destruct Hat; congruence| | |].
  - intros i Hi. destruct (decide (i = rep)) as [->|Hne].
    + exists v. split; [done|]. split; [|done]. destruct Hnew as [?|[? _]]; [by left|by right].
    + destruct (Hit i Hi) as (w & Hw & Hok & Hlf). exists w.
      rewrite (only_at_out rep mem) by done. split; [done|]. split; [done|].
      intros Hr Ht. destruct (Hlf Hr Ht) as (o2 & leaf & Eo & Hl & Hrel). exists o2, leaf.
      by rewrite (only_at_out2 rep mem).
  - assert (Hone : forall j w, in_range a j -> j <> rep -> rd mem' (ia_out a + rep) = Ret w ->
      rd mem' (ia_out a + j) = Ret w -> unset w).
    { intros j w Hj Hne Hw Hjw. rewrite Hv in Hw. injection Hw as <-.
      destruct Hnew as [?|[_ Hn]]; [done|]. rewrite (only_at_out rep mem) in Hjw by done. by destruct (Hn j). }
    intros i j w Hi Hj Hij Hiw Hjw.
    destruct (decide (i = rep)) as [->|Hir]; [by apply (Hone j)|].
    destruct (decide (j = rep)) as [->|Hjr]; [by apply (Hone i)|].
    rewrite (only_at_out rep mem) in Hiw, Hjw by done. by apply (Hds i j).
  - intros k Hk. rewrite <- Hfr by done. apply Hat.
    + intros ->. apply Hk. exists rep. auto.
    + intros o2 Eo ->. apply Hk. exists rep. eauto.
Qed.

Lemma wr_out2_at mem o2 rep v mem' :
  wr_out2 mem o2 rep v = Ret mem' ->
  length mem' = length mem /\ (forall o, o2 = Some o -> rd mem' (o + rep) = Ret v) /\
  (forall k, (forall o, o2 = Some o -> k <> o + rep) -> rd mem' k = rd mem k).
Proof.
  unfold wr_out2. destruct o2 as [o|]; intros; inv_outcome; [|by split_and!].
  split_and!; [by eapply wr_length|intros ? [= <-]; by eapply rd_wr_eq|].
  intros k Hk. eapply rd_wr_ne; [done|]. specialize (Hk o eq_refl). lia.
Qed.

(** [indep_bad] *)
Lemma indep_bad_inv m mem rep res m' mem' :
  indep_inv m mem -> in_range a rep -> indep_bad a m mem rep = Ret (res, m', mem') ->
  res = BadItem /\ indep_inv m' mem'.
Proof.
  intros Hinv Hrep H. unfold indep_bad in H. inv_outcome. split; [done|].
  apply wr_out2_at in E0 as (Hl & Hnew & Hsame).
  eapply indep_inv_update with (rep := rep) (v := CRUSH_ITEM_NONE); try done.
  - split; [by rewrite Hl; eapply wr_length|]. intros k Hk1 Hk2. rewrite Hsame by done.
    eapply rd_wr_ne; [done|lia].
  - rewrite Hsame; [by eapply rd_wr_eq|]. intros o Eo. by apply (Hargs o rep rep).
  - intros Hr Ht. destruct (ii_items _ _ Hinv rep Hrep) as (v & _ & _ & Hlf).
    destruct (Hlf Hr Ht) as (o2 & leaf & Eo & _). exists o2, CRUSH_ITEM_NONE.
    split; [done|]. split; [by apply Hnew|]. right. by left.
  - left. by right.
Qed.

(** [indep_leaf] changes only the leaf slot of position [rep]. *)
Lemma indep_leaf_post m mem item rep r found m' mem' :
  same_map m0 m -> indep_leaf self a m mem item rep r = Ret (found, m', mem') ->
  same_map m m' /\ length mem' = length mem /\
  (forall k, (forall o2, ia_out2 a = Some o2 -> k <> o2 + rep) -> rd mem' k = rd mem k) /\
  (ia_recurse_to_leaf a = true -> item < 0 -> exists o2 leaf, ia_out2 a = Some o2 /\
     rd mem' (o2 + rep) = Ret leaf /\
     if found then accepted weight weight_max x m0 0 (-1 - item) leaf else leaf = CRUSH_ITEM_NONE).
Proof.
  intros Hm. unfold indep_leaf. destruct (ia_recurse_to_leaf a); [|intros; by inv_outcome].
  destruct (ia_out2 a) as [o2|]; cbn [deref]; [|done]. cbn [obind].
  destruct (Z.ltb_spec item 0); intros Hl; inv_outcome.
  - apply Hself in E as [Hm1 Hlen Hit _ _ Hfr]; [|by rewrite (same_map_max_devices m0 m)|done|done].
    split; [done|]. split; [done|]. split.
    + intros k Hk. apply Hfr. intros (i & Hi & [-> | (? & ? & _)]); [|done]. unfold in_range in Hi. cbn in *.
      apply (Hk o2); [done|lia].
    + intros _ _. destruct (Hit rep) as (v & Hv & Hor); [unfold in_range; cbn; lia|]. cbn in Hv, Hor.
      exists o2, v. split; [done|]. split; [done|]. rewrite E0 in Hv. injection Hv as <-.
      case_Zb; cbn; [done|]. destruct Hor as [?|Hacc]; [done|]. by apply (accepted_same _ _ _ m0 m).
  - split; [reflexivity|]. split; [by eapply wr_length|]. split; [|intros; lia].
    intros k Hk. eapply rd_wr_ne; [done|]. specialize (Hk o2 eq_refl). lia.
Qed.

(** A change of the map alone. *)
Lemma indep_inv_map m m' mem : indep_inv m mem -> same_map m m' -> indep_inv m' mem.
Proof. intros [? ? ? ? ?] ?. split; try done. by etrans. Qed.

(** Position [rep] after the leaf of [item] was looked for. *)
Lemma indep_place m m' mem mem1 item rep type t found :
  indep_inv m mem -> in_range a rep -> rd mem (ia_out a + rep) = Ret CRUSH_ITEM_UNDEF ->
  same_map m m' -> length mem1 = length mem ->
  (forall k, (forall o2, ia_out2 a = Some o2 -> k <> o2 + rep) -> rd mem1 k = rd mem k) ->
  (ia_recurse_to_leaf a = true -> item < 0 -> exists o2 leaf, ia_out2 a = Some o2 /\
     rd mem1 (o2 + rep) = Ret leaf /\
     if (found : bool) then accepted weight weight_max x m0 0 (-1 - item) leaf
     else leaf = CRUSH_ITEM_NONE) ->
  t = ia_type a -> type = ia_type a -> (t <> 0 -> item < 0) ->
  (found = false \/ t = 0 -> indep_inv m' mem1) /\
  (found = true -> accepted weight weight_max x m0 (ia_type a) (ia_bucket a) item ->
   (forall j, in_range a j -> rd mem (ia_out a + j) <> Ret item) ->
   forall mem2, wr mem1 (ia_out a + rep) item = Ret mem2 -> indep_inv m' mem2).
Proof.
  intros Hinv Hrep Hund Hm Hl Hfr Hleaf -> -> Htype. split.
  - intros Hor. eapply indep_inv_update with (rep := rep) (v := CRUSH_ITEM_UNDEF); try done.
    + split; [done|]. intros k _ Hk. by apply Hfr.
    + rewrite Hfr; [done|]. intros o Eo. by apply (Hargs o rep rep).
    + intros Hr Ht. destruct Hor as [->|?]; [|done].
      destruct (Hleaf Hr (Htype Ht)) as (o2 & leaf & Eo & Hlf & ->).
      exists o2, CRUSH_ITEM_NONE. split; [done|]. split; [done|]. left. split; [done|by right].
    + left. by left.
  - intros -> Hacc Hfresh mem2 Hw.
    eapply indep_inv_update with (rep := rep) (v := item); try done.
    + split; [rewrite <- Hl; by eapply wr_length|]. intros k Hk1 Hk2.
      rewrite (rd_wr_ne _ _ _ _ _ Hw) by lia. by apply Hfr.
    + by eapply rd_wr_eq.
    + intros Hr Ht. destruct (Hleaf Hr (Htype Ht)) as (o2 & leaf & Eo & Hlf & Ha).
      exists o2, leaf. split; [done|]. split; [|by do 2 right].
      rewrite (rd_wr_ne _ _ _ _ _ Hw); [done|]. by apply (Hargs o2 rep rep).
    + right. split; [done|]. intros j Hj _. by apply Hfresh.
Qed.

Lemma indep_pass_inv m mem in_ rep ftotal res m' mem' :
  indep_inv m mem -> in_range a rep -> rd mem (ia_out a + rep) = Ret CRUSH_ITEM_UNDEF ->
  reach m0 (ia_bucket a) in_ ->
  indep_pass_body weight weight_max x self a m mem in_ rep ftotal = Ret (res, m', mem') ->
  indep_inv m' mem' /\
  (forall in', res = IntoBucket in' -> mem' = mem /\ reach m0 (ia_bucket a) in').
Proof.
  intros Hinv Hrep Hund Hreach H. pose proof (ii_map _ _ Hinv) as Hm0.
  unfold indep_pass_body in H. inv_outcome. destruct (b_size a0 =? 0); [by inv_outcome|]. inv_outcome.
  apply crush_bucket_choose_same in E1 as [Hin Hsb].
  pose proof (put_bucket_same _ _ _ _ _ E Hsb E2) as Hm.
  pose proof (indep_inv_map _ _ _ Hinv Hm) as Hinv2.
  assert (Hm02 : same_map m0 a2) by by etrans.
  assert (Hu : under m0 (ia_bucket a) z).
  { eapply reach_under; [done|]. apply (under_same m0 m); [done|]. by eapply under_here. }
  destruct (Z.leb_spec (max_devices a2) z) as [|Hd].
  { apply indep_bad_inv in H as [-> ?]; [|done|done]. done. }
  inv_outcome. pose proof (item_type_same _ _ _ _ Hm02 E1) as Hty.
  rewrite (same_map_max_devices m0 a2) in Hd by done.
  destruct (Z.eqb_spec a3 (ia_type a)) as [Et|]; cbn [negb] in H.
  2:{ destruct ((0 <=? z) || _) eqn:Eneg.
      - apply indep_bad_inv in H as [-> ?]; [|done|done]. done.
      - inv_outcome. split; [done|]. intros ? [= <-]. split; [done|]. right. exists z.
        apply orb_false_iff in Eneg as [?%Z.leb_gt _]. done. }
  inv_outcome. destruct a4; [by inv_outcome|]. inv_outcome.
  apply indep_leaf_post in E4 as (Hm' & Hl & Hfr & Hleaf); [|done].
  assert (Hneg : a3 <> 0 -> z < 0).
  { intros Hne. destruct (Z.lt_ge_cases z 0) as [|Hge]; [done|]. contradict Hne.
    unfold item_type in Hty. rewrite (proj2 (Z.ltb_ge z 0)) in Hty by lia. by inv_outcome. }
  destruct (indep_place a2 c0 mem l z rep a3 a3 b) as [Hno Hyes]; try done.
  destruct b; cbn [negb] in H; [|inv_outcome; split; [by apply Hno; left|done]].
  inv_outcome. destruct a4; inv_outcome; (split; [|done]).
  - apply Hno. right. destruct (Z.eqb_spec (ia_type a) 0); [done|]. by inv_outcome.
  - eapply Hyes; [done| | |done].
    + split_and!; try done. intros Ht0. by rewrite Ht0 in E4.
    + intros j Hj. eapply collides_false; [exact E3|]. unfold in_range in Hj. lia.
Qed.

Lemma indep_descend_inv fuel m mem in_ rep ftotal dec m' mem' :
  indep_inv m mem -> in_range a rep -> rd mem (ia_out a + rep) = Ret CRUSH_ITEM_UNDEF ->
  reach m0 (ia_bucket a) in_ ->
  indep_descend weight weight_max x self a fuel m mem in_ rep ftotal = Ret (dec, m', mem') ->
  indep_inv m' mem'.
Proof.
  intros Hinv Hrep. revert m mem in_ Hinv. induction fuel as [|fuel IH]; intros m mem in_ Hinv Hund Hr H; [done|].
  cbn [indep_descend] in H. inv_outcome.
  apply indep_pass_inv in E as [Hinv1 Hinto]; try done.
  destruct i; inv_outcome; try done.
  destruct (Hinto _ eq_refl) as [-> Hr']. by eapply IH.
Qed.

Lemma indep_reps_inv n fuel m mem rep left ftotal left' m' mem' :
  indep_inv m mem -> (forall i, rep <= i < rep + Z.of_nat n -> in_range a i) ->
  indep_reps weight weight_max x self a n fuel m mem rep left ftotal = Ret (left', m', mem') ->
  indep_inv m' mem'.
Proof.
  revert m mem rep left. induction n as [|n IH]; intros m mem rep left Hinv Hr H;
    cbn [indep_reps] in H; [by inv_outcome|].
  inv_outcome. destruct (Z.eqb_spec a0 CRUSH_ITEM_UNDEF) as [->|]; cbn [negb] in H.
  - inv_outcome. apply indep_descend_inv in E0; [|done|apply Hr; lia|done|by left].
    eapply IH; [done| |done]. intros i Hi. apply Hr. lia.
  - eapply IH; [done| |done]. intros i Hi. apply Hr. lia.
Qed.

Lemma indep_tries_inv n fuel m mem left ftotal m' mem' :
  indep_inv m mem ->
  indep_tries weight weight_max x self a n fuel m mem left ftotal = Ret (m', mem') ->
  indep_inv m' mem'.
Proof.
  revert m mem left ftotal. induction n as [|n IH]; intros m mem left ftotal Hinv H;
    cbn [indep_tries] in H; [by inv_outcome|].
  destruct (0 <? left); inv_outcome; [|done].
  eapply IH; [|done]. eapply indep_reps_inv; [done| |done].
  intros i Hi. unfold in_range. lia.
Qed.

End WithSelf.

(** ** The first and the last loop *)
Definition positions (out : Z) (out2 : option Z) (rep : Z) (n : nat) (k : Z) : Prop :=
  exists i, rep <= i < rep + Z.of_nat n /\ (k = out + i \/ exists o2, out2 = Some o2 /\ k = o2 + i).

Lemma positions_S out out2 rep n k :
  ~ positions out out2 rep (S n) k ->
  ~ positions out out2 (rep + 1) n k /\ k <> out + rep /\ (forall o, out2 = Some o -> k <> o + rep).
Proof.
  intros H. split_and!.
  - intros (i & Hi & Hk). apply H. exists i. split; [lia|done].
  - intros ->. apply H. exists rep. split; [lia|by left].
  - intros o -> ->. apply H. exists rep. split; [lia|eauto].
Qed.

Definition disjoint_outs (out : Z) (out2 : option Z) (rep : Z) (n : nat) : Prop :=
  forall o2 i j, out2 = Some o2 -> rep <= i < rep + Z.of_nat n -> rep <= j < rep + Z.of_nat n ->
    out + i <> o2 + j.

Lemma indep_init_spec n mem out out2 rep mem' :
  disjoint_outs out out2 rep n -> indep_init n mem out out2 rep = Ret mem' ->
  length mem' = length mem /\
  (forall k, ~ positions out out2 rep n k -> rd mem' k = rd mem k) /\
  (forall k, positions out out2 rep n k -> rd mem' k = Ret CRUSH_ITEM_UNDEF).
Proof.
  revert mem rep. induction n as [|n IH]; intros mem rep Hd H; cbn [indep_init] in H.
  { inv_outcome. split_and!; try done. intros k (i & Hi & _). lia. }
  inv_outcome. apply wr_out2_at in E0 as (Hl & Hnew & Hsame).
  apply IH in H as (Hl' & Hfr & Hset); [|intros ? ? ? ? ? ?; apply Hd; (done || lia)].
  split_and!.
  - rewrite Hl', Hl. by eapply wr_length.
  - intros k (Hk1 & Hk2 & Hk3)%positions_S. rewrite Hfr, Hsame by done. eapply rd_wr_ne; [done|lia].
  - intros k (i & Hi & Hk).
    destruct (decide (i = rep)) as [->|]; [|apply Hset; exists i; split; [lia|done]].
    rewrite Hfr.
    + destruct Hk as [-> | (o2 & -> & ->)]; [|by apply Hnew].
      rewrite Hsame; [by eapply rd_wr_eq|]. intros o ->. apply Hd; (done || lia).
    + intros (j & Hj & Hkj).
      destruct Hk as [-> | (o2 & Eo & ->)], Hkj as [Hkj | (o2' & Eo' & Hkj)]; [lia| | |].
      * eapply (Hd o2' rep j); (done || lia).
      * eapply (Hd o2 j rep); (done || lia).
      * rewrite Eo in Eo'. injection Eo' as <-. lia.
Qed.


Definition none_if_undef (v : Z) : Z := if v =? CRUSH_ITEM_UNDEF then CRUSH_ITEM_NONE else v.

Lemma none_if_undef_NONE : none_if_undef CRUSH_ITEM_NONE = CRUSH_ITEM_NONE.
Proof. done. Qed.

Lemma finish_slot mem k mem' :
  (v ← rd mem k; if v =? CRUSH_ITEM_UNDEF then wr mem k CRUSH_ITEM_NONE else Ret mem) = Ret mem' ->
  length mem' = length mem /\ (forall j, j <> k -> rd mem' j = rd mem j) /\
  (forall v, rd mem k = Ret v -> rd mem' k = Ret (none_if_undef v)).
Proof.
  unfold none_if_undef. intros H. inv_outcome. case_Zb.
  - split_and!; [by eapply wr_length|intros; eapply rd_wr_ne; [done|lia]|].
    intros v Hv. rewrite E in Hv. injection Hv as <-. subst. rewrite Z.eqb_refl. by eapply rd_wr_eq.
  - inv_outcome. split_and!; try done. intros v Hv. rewrite E in Hv. injection Hv as <-.
    by rewrite (proj2 (Z.eqb_neq _ _)).
Qed.

Lemma indep_finish_spec n mem out out2 rep mem' :
  disjoint_outs out out2 rep n -> indep_finish n mem out out2 rep = Ret mem' ->
  length mem' = length mem /\
  (forall k, ~ positions out out2 rep n k -> rd mem' k = rd mem k) /\
  (forall k v, positions out out2 rep n k -> rd mem k = Ret v -> rd mem' k = Ret (none_if_undef v)).
Proof.
  revert mem rep. induction n as [|n IH]; intros mem rep Hd H; cbn [indep_finish] in H.
  { inv_outcome. split_and!; try done. intros k v (i & Hi & _). lia. }
  apply bind_Ret in H as (v1 & Hv1 & H). apply bind_Ret in H as (mem1 & Hm1 & H).
  apply bind_Ret in H as (mem2 & Hm2 & H).
  destruct (finish_slot mem (out + rep) mem1) as (Hl1 & Hs1 & Hn1); [by rewrite Hv1|].
  assert (length mem2 = length mem1 /\
    (forall j, (forall o, out2 = Some o -> j <> o + rep) -> rd mem2 j = rd mem1 j) /\
    (forall o v, out2 = Some o -> rd mem1 (o + rep) = Ret v -> rd mem2 (o + rep) = Ret (none_if_undef v)))
    as (Hl2 & Hs2 & Hn2).
  { destruct out2 as [o|]; [|by inv_outcome]. apply finish_slot in Hm2 as (? & Hs & Hn).
    split_and!; [done|intros j Hj; apply Hs; by apply Hj|intros ? v [= <-]; apply Hn]. }
  apply IH in H as (Hl' & Hfr & Hset); [|intros ? ? ? ? ? ?; apply Hd; (done || lia)].
  assert (Hne : forall o, out2 = Some o -> out + rep <> o + rep) by (intros; apply Hd; (done || lia)).
  split_and!; [congruence| |].
  - intros k (Hk1 & Hk2 & Hk3)%positions_S. by rewrite Hfr, Hs2, Hs1.
  - intros k v (i & Hi & Hk) Hv. destruct (decide (i = rep)) as [->|Hir].
    + rewrite Hfr.
      * destruct Hk as [-> | (o2 & Eo & ->)]; [rewrite Hs2 by done; by apply Hn1|].
        apply Hn2; [done|]. rewrite Hs1; [done|]. specialize (Hne o2 Eo). lia.
      * intros (j & Hj & Hkj).
        destruct Hk as [-> | (o2 & Eo & ->)], Hkj as [Hkj | (o2' & Eo' & Hkj)]; [lia| | |].
        -- eapply (Hd o2' rep j); (done || lia).
        -- eapply (Hd o2 j rep); (done || lia).
        -- rewrite Eo in Eo'. injection Eo' as <-. lia.
    + apply Hset; [exists i; split; [lia|done]|]. rewrite Hs2, Hs1; [done| |].
      * destruct Hk as [-> | (o2 & Eo & ->)]; [lia|]. intros E. eapply (Hd o2 rep i); (done || lia).
      * intros o Eo E. destruct Hk as [-> | (o2 & Eo2 & ->)].
        -- eapply (Hd o i rep); (done || lia).
        -- rewrite Eo in Eo2. injection Eo2 as <-. lia.
Qed.

Lemma indep_inv_init a m mem mem1 :
  iargs_ok a ->
  (ia_recurse_to_leaf a = true -> exists o2, ia_out2 a = Some o2) ->
  indep_init (Z.to_nat (ia_left a)) mem (ia_out a) (ia_out2 a) (ia_outpos a) = Ret mem1 ->
  indep_inv a m mem m mem1.
Proof.
  intros Ha Ho2 H. apply indep_init_spec in H as (Hl & Hfr & Hset).
  2:{ intros o2 i j Eo Hi Hj. apply Ha; unfold in_range; (done || lia). }
  assert (Hpos : forall i k, in_range a i ->
    (k = ia_out a + i \/ exists o2, ia_out2 a = Some o2 /\ k = o2 + i) -> rd mem1 k = Ret CRUSH_ITEM_UNDEF).
  { intros i k Hi Hk. apply Hset. exists i. unfold in_range in Hi. split; [lia|done]. }
  split; [reflexivity|done| | |].
  - intros i Hi. exists CRUSH_ITEM_UNDEF. split; [apply (Hpos i); auto|]. split; [left; by left|].
    intros Hr Ht. destruct (Ho2 Hr) as [o2 Eo]. exists o2, CRUSH_ITEM_UNDEF. split; [done|].
    split; [apply (Hpos i); eauto|]. left. split; [done|by left].
  - intros i j v Hi Hj _ Hv _. rewrite (Hpos i) in Hv by auto. injection Hv as <-. by left.
  - intros k Hk. apply Hfr. intros (i & Hi & Hor). apply Hk. exists i. unfold in_range. split; [lia|done].
Qed.

(** The last loop turns the invariant into the postcondition. *)
Lemma indep_post_finish a m m' mem mem1 mem' :
  max_devices m <= CRUSH_ITEM_UNDEF -> iargs_ok a -> indep_inv a m mem m' mem1 ->
  indep_finish (Z.to_nat (ia_left a)) mem1 (ia_out a) (ia_out2 a) (ia_outpos a) = Ret mem' ->
  indep_post a m m' mem mem'.
Proof.
  intros Hdev Ha [Hm Hl Hit Hds Hfr] H. apply indep_finish_spec in H as (Hl' & Hfr' & Hset).
  2:{ intros o2 i j Eo Hi Hj. apply Ha; unfold in_range; (done || lia). }
  assert (Hpos : forall i k v, in_range a i ->
    (k = ia_out a + i \/ exists o2, ia_out2 a = Some o2 /\ k = o2 + i) -> rd mem1 k = Ret v ->
    rd mem' k = Ret (none_if_undef v)).
  { intros i k v Hi Hk. apply Hset. exists i. unfold in_range in Hi. split; [lia|done]. }
  assert (Hacc : forall type start v, accepted weight weight_max x m type start v -> none_if_undef v = v).
  { intros type start v Hv. apply accepted_set in Hv; [|done]. unfold none_if_undef. case_Zb; [|done].
    subst. destruct Hv. by left. }
  assert (Hunset : forall v, unset v -> none_if_undef v = CRUSH_ITEM_NONE) by (intros v [-> | ->]; done).
  split; [done|congruence| | | |].
  - intros i Hi. destruct (Hit i Hi) as (v & Hv & Hok & _). exists (none_if_undef v).
    split; [apply (Hpos i); auto|]. destruct Hok as [Hu|Hok]; [by left; apply Hunset|].
    right. by rewrite (Hacc _ _ _ Hok).
  - intros i j v Hi Hj Hij Hiv Hjv.
    destruct (Hit i Hi) as (vi & Hvi & [Hui|Hai] & _); rewrite (Hpos i _ vi) in Hiv by auto; injection Hiv as <-;
      [by apply Hunset|].
    destruct (Hit j Hj) as (vj & Hvj & [Huj|Haj] & _); rewrite (Hpos j _ vj) in Hjv by auto; injection Hjv as Hjv;
      [rewrite <- Hjv; by apply Hunset|].
    rewrite (Hacc _ _ _ Hai), (Hacc _ _ _ Haj) in Hjv. subst vj.
    apply Hunset. by apply (Hds i j).
  - intros Hr Ht i Hi. destruct (Hit i Hi) as (v & Hv & Hok & Hlf).
    destruct (Hlf Hr Ht) as (o2 & leaf & Eo & Hleaf & Hrel).
    exists o2, (none_if_undef v), (none_if_undef leaf). split; [done|].
    split; [apply (Hpos i); auto|]. split; [apply (Hpos i); eauto|].
    destruct Hrel as [[-> Hu]|[[-> ->]|Hal]]; [left; split; [done|by apply Hunset]|by left|].
    rewrite (Hacc _ _ _ Hal). destruct Hok as [[-> | ->]|Hok]; [| |by rewrite (Hacc _ _ _ Hok); right].
    + exfalso. destruct Hal as (_ & _ & Hu & _). apply under_start in Hu.
      unfold CRUSH_ITEM_UNDEF in Hu. lia.
    + by right.
  - intros k Hk. rewrite Hfr', Hfr; [done|done|]. intros (i & Hi & Hor). apply Hk. exists i.
    unfold in_range. split; [lia|done].
Qed.

Lemma crush_choose_indep_post depth fuel m mem a m' mem' :
  max_devices m <= CRUSH_ITEM_UNDEF -> iargs_ok a ->
  (ia_recurse_to_leaf a = true -> exists o2, ia_out2 a = Some o2) ->
  crush_choose_indep weight weight_max x depth fuel m mem a = Ret (m', mem') ->
  indep_post a m m' mem mem'.
Proof.
  revert m mem a m' mem'. induction depth as [|depth IH]; intros m mem a m' mem' Hd Ha Ho2 H; [done|].
  cbn [crush_choose_indep] in H. inv_outcome.
  eapply indep_post_finish; [done|done| |done].
  eapply indep_tries_inv; [|done|done|by eapply indep_inv_init|done].
  intros m1 mem1 a' m1' mem1' Hd' Hr Ha'. apply IH; try done. by rewrite Hr.
Qed.

End Post.
