(* ===== verification/CrushTotal.v ===== *)
(** * Well-formed maps: the searches return, whatever the caches hold

    On a map whose buckets are well-formed and whose hierarchy is acyclic,
    [crush_choose_firstn] and [crush_choose_indep] return within the fuel
    given by the depth of the hierarchy and the retry limits, never leave the
    defined behaviour, and compute a result that does not depend on what the
    permutation caches hold. *)
From S2P Require Import Prelude.
From S2P Require Import Hash.
From S2P Require Import Crush.
From S2P Require Import Mapper.
From S2P Require Import PermChoose.
From S2P Require Import BucketChoose.
From S2P Require Import Firstn.

Definition caches_ok (m : crush_map) : Prop :=
  forall i b, get_bucket m i = Ret b -> perm_cache_ok b.

(** [m1] is [m] with other, valid permutation caches. *)
Definition good (m m1 : crush_map) : Prop := same_map m m1 /\ caches_ok m1.

(** [rank] decreases from a bucket to the buckets it contains; [H] bounds it. *)
Record map_ok (rank : Z -> nat) (H : nat) (maxsize : Z) (m : crush_map) : Prop := {
  mo_bucket : forall i b, get_bucket m i = Ret b ->
    bucket_ok b /\ b_type b <> 0 /\ b_size b <= maxsize /\ (rank i < H)%nat;
  mo_child : forall i b c, get_bucket m i = Ret b -> c ∈ b_items b -> c < 0 ->
    exists b', get_bucket m (-1 - c) = Ret b' /\ (rank (-1 - c)%Z < rank i)%nat }.

Lemma good_refl rank H maxsize m : map_ok rank H maxsize m -> good m m.
Proof.
  intros Hok. split; [reflexivity|]. intros i b Hb. apply (mo_bucket _ _ _ _ Hok i b Hb).
Qed.

Lemma good_get m m1 i b :
  good m m1 -> get_bucket m i = Ret b ->
  exists b1, get_bucket m1 i = Ret b1 /\ same_bucket b b1 /\ perm_cache_ok b1.
Proof.
  intros [Hs Hc] Hb. destruct (same_map_get m1 m i b) as (b1 & Hg & Hsb); [by symmetry|done|].
  exists b1. split; [done|]. split; [by symmetry|]. by eapply Hc.
Qed.

Lemma get_bucket_set m1 i j b bs :
  wr (buckets m1) i (Some b) = Ret bs -> get_bucket (set_buckets m1 bs) j =
  if decide (i = j) then Ret b else get_bucket m1 j.
Proof.
  intros Hw. unfold get_bucket. cbn [buckets set_buckets]. case_decide as E.
  - subst. by rewrite (rd_wr_eq _ _ _ _ Hw).
  - by rewrite (rd_wr_ne _ _ _ _ _ Hw).
Qed.

Lemma good_put m m1 i b b1 b' :
  good m m1 -> get_bucket m1 i = Ret b1 -> same_bucket b b1 -> same_bucket b b' -> perm_cache_ok b' ->
  exists m2, put_bucket m1 i b' = Ret m2 /\ good m m2.
Proof.
  intros [Hs Hc] Hg1 Hsb Hsb' Hc'.
  assert (Hi : 0 <= i < Z.of_nat (length (buckets m1))).
  { unfold get_bucket in Hg1. inv_outcome. by eapply rd_range. }
  destruct (put_bucket m1 i b') as [m2| |] eqn:Hp;
    [|unfold put_bucket in Hp; by rewrite (wr_total _ _ _ Hi) in Hp..].
  exists m2. split; [done|]. split.
  - etrans; [done|]. eapply put_bucket_same; [done| |done]. etrans; [by symmetry|done].
  - unfold put_bucket in Hp. inv_outcome. intros j b2. rewrite (get_bucket_set _ _ _ _ _ E).
    case_decide; [by intros [= <-]|apply Hc].
Qed.

(** Choosing from bucket [i]: the item does not depend on the caches. *)
Lemma good_choose m i b f item :
  get_bucket m i = Ret b -> chooses f b item ->
  forall m1, good m m1 -> exists b1 b2 m2, get_bucket m1 i = Ret b1 /\ same_bucket b b1 /\
    f b1 = Ret (item, b2) /\ put_bucket m1 i b2 = Ret m2 /\ good m m2.
Proof.
  intros Hb [_ Hc] m1 Hm1. destruct (good_get _ _ _ _ Hm1 Hb) as (b1 & Hg & Hs & Hc1).
  destruct (Hc b1 Hs Hc1) as (b2 & Hf & Hs2 & Hc2).
  destruct (good_put m m1 i b b1 b2) as (m2 & Hp & Hm2); try done; [by etrans|].
  by exists b1, b2, m2.
Qed.

Lemma good_fields m m1 :
  good m m1 -> max_devices m1 = max_devices m /\ max_buckets m1 = max_buckets m.
Proof. intros [[_ ->] _]. done. Qed.

Lemma good_item_type m m1 item t :
  good m m1 -> item_type m item = Ret t -> item_type m1 item = Ret t.
Proof. intros [Hs _]. apply item_type_same. by symmetry. Qed.

(** A computation on the map and the scratch vector that returns the same
    value and vector from every [m1] that is [good], and keeps it so. *)
Definition runs {A} (m : crush_map) (f : crush_map -> outcome (A * crush_map * list Z))
    (v : A) (mem' : list Z) : Prop :=
  forall m1, good m m1 -> exists m2, f m1 = Ret (v, m2, mem') /\ good m m2.

Lemma runs_Ret {A} m (v : A) mem : runs m (fun m1 => Ret (v, m1, mem)) v mem.
Proof. intros m1 H. by exists m1. Qed.

Lemma runs_bind {A B} m f (g : A -> crush_map -> list Z -> outcome (B * crush_map * list Z)) v mem' w mem'' :
  runs m f v mem' -> runs m (fun m1 => g v m1 mem') w mem'' ->
  runs m (fun m1 => '(v, m1, mem) ← f m1; g v m1 mem) w mem''.
Proof.
  intros Hf Hg m1 Hm1. destruct (Hf m1 Hm1) as (m2 & -> & Hm2). cbn [obind]. by apply Hg.
Qed.

Section Total.
Context (rank : Z -> nat) (H : nat) (maxsize : Z) (m : crush_map).
Hypothesis Hmap : map_ok rank H maxsize m.
Context (weight : list Z) (weight_max x : Z).
Hypothesis Hweight : weight_max <= Z.of_nat (length weight).

(** The array [base .. base + n) lies in the scratch vector. *)
Definition fits (base n len : Z) : Prop := 0 <= base /\ base + n <= len.

Lemma collides_total n mem out i item :
  fits (out + i) (Z.of_nat n) (Z.of_nat (length mem)) ->
  exists c, collides n mem out i item = Ret c.
Proof.
  revert i. induction n as [|n IH]; intros i [? ?]; cbn [collides]; [by eexists|].
  destruct (rd_total mem (out + i)) as [v ->]; [lia|]. cbn [obind].
  case_Zb; [by eexists|]. apply IH. split; lia.
Qed.

(** The type of an item of a bucket of the map. *)
Lemma item_type_total i b item :
  get_bucket m i = Ret b -> item ∈ b_items b ->
  exists t, item_type m item = Ret t /\ (t = 0 <-> 0 <= item).
Proof.
  intros Hb Hin. unfold item_type. case_Zb; [|by exists 0].
  destruct (mo_child _ _ _ _ Hmap i b item Hb Hin) as (b' & Hb' & _); [done|].
  rewrite Hb'. cbn [obind]. exists (b_type b'). split; [done|].
  destruct (mo_bucket _ _ _ _ Hmap _ _ Hb') as (_ & ? & _). lia.
Qed.

Lemma is_out_total item : 0 <= item -> exists o, is_out weight weight_max item x = Ret o.
Proof.
  intros Hi. unfold is_out. case_Zb; [by eexists|].
  destruct (rd_total weight item) as [w ->]; [lia|]. cbn [obind]. repeat case_match; by eexists.
Qed.

(** ** crush_choose_firstn *)

(** The most often a bucket of [maxsize] items is retried in place. *)
Definition local_bound (a : firstn_args) : Z :=
  Z.max (fa_local_retries a) (maxsize + fa_local_fallback_retries a).

Record firstn_args_ok (fuel : nat) (len : Z) (a : firstn_args) : Prop := {
  fk_bucket : exists b, get_bucket m (fa_bucket a) = Ret b;
  fk_pos : 0 <= fa_outpos a;
  fk_out : fits (fa_out a) (last_pos a) len;
  fk_out2 : fa_recurse_to_leaf a = true ->
    exists o2, fa_out2 a = Some o2 /\ fits o2 (last_pos a) len;
  fk_vary : fa_vary_r a <= 32;
  fk_nonneg : 0 <= fa_local_retries a /\ 0 <= fa_local_fallback_retries a /\
    0 <= fa_tries a /\ 0 <= fa_recurse_tries a;
  fk_wrap : Z.max (fa_tries a) (fa_recurse_tries a) + local_bound a + 2 <= 2 ^ 32;
  fk_fuel : Z.of_nat H + local_bound a + 2 <= Z.of_nat fuel /\
    fa_tries a < Z.of_nat fuel /\ fa_recurse_tries a < Z.of_nat fuel }.

Lemma firstn_choose_item_chooses a b r fl :
  0 < b_size b -> bucket_ok b -> exists item, chooses (fun b => firstn_choose_item x a b r fl) b item.
Proof.
  intros Hs Hb. unfold firstn_choose_item.
  destruct ((0 <? fa_local_fallback_retries a) && (Z.shiftr (b_size b) 1 <=? fl) &&
            (fa_local_fallback_retries a <? fl)) eqn:E.
  - destruct (perm_choose_chooses b x r Hs Hb) as (item & Hin & Hc). exists item. split; [done|].
    intros b' Hb' Hp. destruct (same_bucket_fields _ _ Hb') as (_ & _ & _ & _ & -> & _).
    rewrite E. by apply Hc.
  - destruct (crush_bucket_choose_chooses b x r Hs Hb) as (item & Hin & Hc). exists item. split; [done|].
    intros b' Hb' Hp. destruct (same_bucket_fields _ _ Hb') as (_ & _ & _ & _ & -> & _).
    rewrite E. by apply Hc.
Qed.

Section FirstnTotal.
Context (self : crush_map -> list Z -> firstn_args -> outcome (Z * crush_map * list Z)).
Context (fuel : nat) (len : Z) (a : firstn_args).
Hypothesis Hself : forall mem a', fa_recurse_to_leaf a = true -> Z.of_nat (length mem) = len ->
  fa_recurse_to_leaf a' = false -> firstn_args_ok fuel len a' ->
  exists n mem', runs m (fun m1 => self m1 mem a') n mem' /\ length mem' = length mem.
Hypothesis Ha : firstn_args_ok fuel len a.

Lemma firstn_leaf_total mem collide item outpos r :
  Z.of_nat (length mem) = len -> 0 <= outpos < last_pos a ->
  (item < 0 -> exists b, get_bucket m (-1 - item) = Ret b) ->
  exists rej mem', runs m (fun m1 => firstn_leaf self a m1 mem collide item outpos r) rej mem' /\
    length mem' = length mem.
Proof.
  intros Hlen Hpos Hch. destruct Ha as [_ _ _ Ho2 Hv Hn Hw Hf]. unfold firstn_leaf.
  destruct (negb collide && fa_recurse_to_leaf a) eqn:E; [|by exists false, mem; split; [apply runs_Ret|]].
  apply andb_true_iff in E as [_ Hr]. destruct (Ho2 Hr) as (o2 & Eo & Hfit). rewrite Eo. cbn [deref].
  destruct (Z.ltb_spec item 0).
  - assert (exists sub_r, (if fa_vary_r a =? 0 then Ret 0
         else if 32 <=? fa_vary_r a - 1 then Fault BadShift
         else Ret (Z.shiftr r (fa_vary_r a - 1))) = Ret sub_r) as [sub_r ->].
    { repeat case_Zb; try (by eexists); lia. }
    cbn [obind].
    edestruct Hself as (n & mem' & Hruns & Hl); [done|exact Hlen| |
      |exists (n <=? outpos), mem'; split; [|exact Hl]; eapply runs_bind; [exact Hruns|apply runs_Ret]].
    { done. }
    unfold last_pos, local_bound in *. split; unfold local_bound; cbn; try lia; try done.
    + by apply Hch.
    + unfold fits, last_pos in *. cbn. lia.
  - cbn [obind]. rewrite wr_total by (unfold fits in *; lia). cbn [obind].
    eexists _, _. split; [apply runs_Ret|]. apply length_insert.
Qed.

(** The body of a pass, after an item was chosen. *)
Definition firstn_judge (m : crush_map) (mem : list Z) (item outpos r : Z)
  : outcome (firstn_pass * crush_map * list Z) :=
  if max_devices m <=? item then Ret (Skip, m, mem)
  else
    itemtype ← item_type m item;
    if negb (itemtype =? fa_type a) then
      if (0 <=? item) || (max_buckets m <=? -1 - item) then Ret (Skip, m, mem)
      else Ret (Into (-1 - item), m, mem)
    else
      collide ← collides (Z.to_nat outpos) mem (fa_out a) 0 item;
      '(reject, m, mem) ← firstn_leaf self a m mem collide item outpos r;
      reject ←
        (if (reject : bool) then Ret true
         else if itemtype =? 0 then is_out weight weight_max item x
         else Ret false);
      if reject || collide then Ret (Rejected collide, m, mem)
      else Ret (Got item, m, mem).

Lemma firstn_judge_total mem in_ b item outpos r :
  get_bucket m in_ = Ret b -> item ∈ b_items b ->
  Z.of_nat (length mem) = len -> 0 <= outpos < last_pos a ->
  exists res mem', runs m (fun m1 => firstn_judge m1 mem item outpos r) res mem' /\
    length mem' = length mem /\
    (forall in', res = Into in' -> exists b', get_bucket m in' = Ret b' /\ (rank in' < rank in_)%nat).
Proof.
  intros Hb Hin Hlen Hpos. unfold firstn_judge, runs.
  destruct (item_type_total in_ b item Hb Hin) as (t & Ht & Ht0).
  pose proof (mo_child _ _ _ _ Hmap in_ b item Hb Hin) as Hchild.
  destruct (Z.leb_spec (max_devices m) item) as [Hd|Hd].
  { exists Skip, mem. split; [|done]. intros m1 Hm1.
    destruct (good_fields _ _ Hm1) as [-> _]. rewrite (proj2 (Z.leb_le _ _) Hd). by exists m1. }
  enough (exists res mem', length mem' = length mem /\
    (forall in', res = Into in' -> exists b', get_bucket m in' = Ret b' /\ (rank in' < rank in_)%nat) /\
    runs m (fun m1 => if negb (t =? fa_type a) then
      if (0 <=? item) || (max_buckets m1 <=? -1 - item) then Ret (Skip, m1, mem)
      else Ret (Into (-1 - item), m1, mem)
    else
      collide ← collides (Z.to_nat outpos) mem (fa_out a) 0 item;
      '(reject, m, mem) ← firstn_leaf self a m1 mem collide item outpos r;
      reject ←
        (if (reject : bool) then Ret true
         else if t =? 0 then is_out weight weight_max item x
         else Ret false);
      if reject || collide then Ret (Rejected collide, m, mem)
      else Ret (Got item, m, mem)) res mem') as (res & mem' & Hl & Hi & Hr).
  { exists res, mem'. split; [|done]. intros m1 Hm1. destruct (Hr m1 Hm1) as (m2 & He & Hm2).
    exists m2. split; [|done]. rewrite <- He. destruct (good_fields _ _ Hm1) as [-> _].
    by rewrite (proj2 (Z.leb_gt _ _) Hd), (good_item_type _ _ _ _ Hm1 Ht). }
  destruct (Z.eqb_spec t (fa_type a)) as [Et|Et]; cbn [negb].
  - destruct (collides_total (Z.to_nat outpos) mem (fa_out a) 0 item) as [c Hc].
    { destruct Ha as [_ _ Hout _ _ _ _ _]. unfold fits in *. lia. }
    destruct (firstn_leaf_total mem c item outpos r) as (rej & mem' & Hleaf & Hl); [done|done| |].
    { intros Hneg. destruct (Hchild Hneg) as (b' & ? & _). eauto. }
    assert (exists rej', (if rej then Ret true
      else if t =? 0 then is_out weight weight_max item x else Ret false) = Ret rej') as [rej' Hrej].
    { destruct rej; [by eexists|]. case_Zb; [|by eexists]. apply is_out_total. lia. }
    exists (if rej' || c then Rejected c else Got item), mem'. split; [done|].
    split; [by destruct (rej' || c)|]. intros m1 Hm1. rewrite Hc. cbn [obind].
    destruct (Hleaf m1 Hm1) as (m2 & -> & Hm2). cbn [obind]. rewrite Hrej. cbn [obind].
    exists m2. split; [by destruct (rej' || c)|done].
  - destruct ((0 <=? item) || (max_buckets m <=? -1 - item)) eqn:Eneg; eexists _, mem;
      (split; [done|]; split; cycle 1;
       [intros m1 Hm1; destruct (good_fields _ _ Hm1) as [_ ->]; rewrite Eneg; by exists m1|]); [done|].
    intros in' [= <-]. apply Hchild. apply orb_false_iff in Eneg as [?%Z.leb_gt _]. lia.
Qed.

Lemma firstn_pass_total mem in_ rep outpos ft fl b :
  get_bucket m in_ = Ret b -> Z.of_nat (length mem) = len -> 0 <= outpos < last_pos a ->
  exists res mem',
    runs m (fun m1 => firstn_pass_body weight weight_max x self a m1 mem in_ rep outpos ft fl) res mem' /\
    length mem' = length mem /\
    (forall in', res = Into in' -> exists b', get_bucket m in' = Ret b' /\ (rank in' < rank in_)%nat).
Proof.
  intros Hb Hlen Hpos. unfold firstn_pass_body. set (r := s32 _).
  destruct (mo_bucket _ _ _ _ Hmap _ _ Hb) as (Hbok & _ & Hsz & _).
  destruct (Z.eqb_spec (b_size b) 0) as [Hz|Hz].
  { exists (Rejected false), mem. split; [|done]. intros m1 Hm1.
    destruct (good_get _ _ _ _ Hm1 Hb) as (b1 & -> & Hs & _). cbn [obind].
    destruct (same_bucket_fields _ _ Hs) as (_ & _ & _ & _ & -> & _). rewrite Hz. by exists m1. }
  destruct (firstn_choose_item_chooses a b r fl) as (item & Hch); [|done|].
  { destruct Hbok as [[? _] _ _ _]. lia. }
  destruct (firstn_judge_total mem in_ b item outpos r) as (res & mem' & Hr & Hl); [done|apply Hch|done..|].
  exists res, mem'. split; [|done]. intros m1 Hm1.
  destruct (good_choose _ _ _ _ _ Hb Hch m1 Hm1) as (b1 & b2 & m2 & -> & Hs & Hf & Hp & Hm2).
  cbn [obind]. destruct (same_bucket_fields _ _ Hs) as (_ & _ & _ & _ & -> & _).
  rewrite (proj2 (Z.eqb_neq _ _) Hz), Hf. cbn [obind]. rewrite Hp. cbn [obind]. by apply Hr.
Qed.

(** When the code after [reject] retries the bucket, or the descent. *)
Lemma reject_action_bounds collide size ft fl :
  0 <= size <= maxsize -> 0 <= ft -> 0 <= fl ->
  match reject_action a collide size ft fl with
  | RetryBucket => fl <= local_bound a
  | RetryDescent => ft < fa_tries a
  | GiveUp => True
  end.
Proof.
  intros Hs Hft Hfl. destruct Ha as [_ _ _ _ _ Hn Hw _]. unfold reject_action, local_bound in *.
  rewrite (u32_small (size + _)) by lia.
  destruct collide; repeat case_Zb; cbn; try lia; done.
Qed.

Lemma firstn_inner_total f mem in_ rep outpos ft0 fl b :
  get_bucket m in_ = Ret b -> Z.of_nat (length mem) = len -> 0 <= outpos < last_pos a ->
  0 <= fl <= local_bound a -> 0 <= ft0 -> (ft0 = 0 \/ ft0 < fa_tries a) ->
  Z.of_nat (rank in_) + local_bound a - fl < Z.of_nat f ->
  exists res mem',
    runs m (fun m1 => firstn_inner weight weight_max x self a f m1 mem in_ rep outpos (ft0 + fl) fl) res mem' /\
    length mem' = length mem /\
    (forall ft, res = Redescend ft -> ft0 < ft < fa_tries a).
Proof.
  revert mem in_ fl b. induction f as [|f IH]; intros mem in_ fl b Hb Hlen Hpos Hfl Hft0 Hft Hf.
  { lia. }
  assert (Hw : ft0 + local_bound a + 1 < 2 ^ 32 /\ local_bound a + 1 < 2 ^ 32).
  { destruct Ha as [_ _ _ _ _ Hn Hw _]. lia. }
  destruct (firstn_pass_total mem in_ rep outpos (ft0 + fl) fl b Hb Hlen Hpos)
    as (res & mem1 & Hpass & Hl1 & Hinto).
  destruct (mo_bucket _ _ _ _ Hmap _ _ Hb) as ([[Hsz0 _] _ _ _] & _ & Hsz & _).
  destruct res as [item| |in'|c].
  - exists (Chosen item), mem1. split; [|done]. eapply runs_bind; [exact Hpass|apply runs_Ret].
  - exists SkipRep, mem1. split; [|done]. eapply runs_bind; [exact Hpass|apply runs_Ret].
  - destruct (Hinto in' eq_refl) as (b' & Hb' & Hrank).
    destruct (IH mem1 in' fl b') as (res & mem2 & Hr & Hl2 & Hre); [done|lia|done..|lia|].
    exists res, mem2. split; [|split; [lia|done]]. eapply runs_bind; [exact Hpass|exact Hr].
  - pose proof (reject_action_bounds c (b_size b) (ft0 + fl + 1) (fl + 1) ltac:(lia) ltac:(lia) ltac:(lia)) as Hact.
    cut (exists res mem', length mem' = length mem /\
      (forall ft, res = Redescend ft -> ft0 < ft < fa_tries a) /\
      runs m (fun m1 => match reject_action a c (b_size b) (ft0 + fl + 1) (fl + 1) with
        | RetryBucket => firstn_inner weight weight_max x self a f m1 mem1 in_ rep outpos (ft0 + fl + 1) (fl + 1)
        | RetryDescent => Ret (Redescend (ft0 + fl + 1), m1, mem1)
        | GiveUp => Ret (SkipRep, m1, mem1)
        end) res mem').
    { intros (res & mem2 & Hl2 & Hre & Hr). exists res, mem2. split; [|done].
      cbn [firstn_inner]. eapply runs_bind; [exact Hpass|]. intros m1 Hm1.
      destruct (good_get _ _ _ _ Hm1 Hb) as (b1 & -> & Hs & _). cbn [obind].
      destruct (same_bucket_fields _ _ Hs) as (_ & _ & _ & _ & -> & _).
      rewrite !u32_small by lia. by apply Hr. }
    destruct (reject_action a c (b_size b) (ft0 + fl + 1) (fl + 1)).
    + destruct (IH mem1 in_ (fl + 1) b) as (res & mem2 & Hr & Hl2 & Hre); [done|lia|done|lia|done..|lia|].
      exists res, mem2. rewrite Z.add_assoc in Hr. split; [lia|done].
    + eexists _, mem1. split; [done|]. split; [|apply runs_Ret]. intros ft [= <-]. lia.
    + eexists _, mem1. split; [done|]. split; [|apply runs_Ret]. done.
Qed.

Lemma firstn_descents_total n mem rep outpos ft :
  Z.of_nat (length mem) = len -> 0 <= outpos < last_pos a ->
  0 <= ft -> (ft = 0 \/ ft < fa_tries a) -> fa_tries a - ft < Z.of_nat n -> (0 < n)%nat ->
  exists res mem',
    runs m (fun m1 => firstn_descents weight weight_max x self a n fuel m1 mem rep outpos ft) res mem' /\
    length mem' = length mem.
Proof.
  intros Hlen Hpos. revert mem ft Hlen. induction n as [|n IH]; intros mem ft Hlen Hft0 Hft Hn Hn0; [lia|].
  destruct (fk_bucket _ _ _ Ha) as [b Hb]. destruct (mo_bucket _ _ _ _ Hmap _ _ Hb) as (Hbok & _ & Hms & Hrk).
  destruct (firstn_inner_total fuel mem (fa_bucket a) rep outpos ft 0 b) as (res & mem1 & Hr & Hl & Hre);
    try done; destruct Ha as [_ _ _ _ _ Hnn Hw Hf]; unfold local_bound in *; try lia.
  rewrite Z.add_0_r in Hr. cbn [firstn_descents]. destruct res as [item| |ft'].
  - exists (Some item), mem1. split; [|done]. eapply runs_bind; [exact Hr|apply runs_Ret].
  - exists None, mem1. split; [|done]. eapply runs_bind; [exact Hr|apply runs_Ret].
  - specialize (Hre ft' eq_refl).
    destruct (IH mem1 ft') as (res & mem2 & Hr2 & Hl2); [lia|lia|lia|lia|lia|].
    exists res, mem2. split; [|lia]. eapply runs_bind; [exact Hr|exact Hr2].
Qed.

Lemma firstn_reps_total n mem rep outpos :
  Z.of_nat (length mem) = len -> 0 <= outpos -> outpos + Z.of_nat n <= last_pos a ->
  exists k mem',
    runs m (fun m1 => firstn_reps weight weight_max x self a n fuel m1 mem rep outpos) k mem' /\
    length mem' = length mem.
Proof.
  revert mem rep outpos. induction n as [|n IH]; intros mem rep outpos Hlen Hpos Hl.
  { exists outpos, mem. split; [apply runs_Ret|done]. }
  destruct Ha as [_ Hp0 Hout _ _ Hnn _ Hf].
  destruct (firstn_descents_total fuel mem rep outpos 0) as (res & mem1 & Hr & Hl1); [done|lia..|].
  cbn [firstn_reps]. destruct res as [item|].
  - destruct (IH (<[Z.to_nat (fa_out a + outpos) := item]> mem1) (rep + 1) (outpos + 1))
      as (k & mem2 & Hr2 & Hl2); [rewrite length_insert; lia|lia..|].
    exists k, mem2. split; [|rewrite length_insert in Hl2; lia]. eapply runs_bind; [exact Hr|].
    cbn beta iota. rewrite wr_total by (unfold fits in Hout; lia). exact Hr2.
  - destruct (IH mem1 (rep + 1) outpos) as (k & mem2 & Hr2 & Hl2); [lia..|].
    exists k, mem2. split; [|lia]. eapply runs_bind; [exact Hr|exact Hr2].
Qed.

End FirstnTotal.

Lemma crush_choose_firstn_runs depth fuel mem a :
  firstn_args_ok fuel (Z.of_nat (length mem)) a ->
  (if fa_recurse_to_leaf a then 2 <= depth else 1 <= depth)%nat ->
  exists n mem',
    runs m (fun m1 => crush_choose_firstn weight weight_max x depth fuel m1 mem a) n mem' /\
    length mem' = length mem.
Proof.
  revert mem a. induction depth as [|depth IH]; intros mem a Ha Hd.
  { destruct (fa_recurse_to_leaf a); lia. }
  cbn [crush_choose_firstn]. eapply firstn_reps_total; [|exact Ha|done|apply Ha|].
  - intros mem' a' Hr Hl Hr' Ha'. apply IH; [by rewrite Hl|]. rewrite Hr in Hd. rewrite Hr'. lia.
  - unfold last_pos. lia.
Qed.

(** ** crush_choose_indep *)

(** [runs] for a computation without a value of its own. *)
Definition runs_mem (f : crush_map -> outcome (crush_map * list Z)) (mem' : list Z) : Prop :=
  forall m1, good m m1 -> exists m2, f m1 = Ret (m2, mem') /\ good m m2.

Record indep_args_ok (fuel : nat) (len : Z) (a : indep_args) : Prop := {
  ik_bucket : exists b, get_bucket m (ia_bucket a) = Ret b;
  ik_left : 0 <= ia_left a;
  ik_out : fits (ia_out a + ia_outpos a) (ia_left a) len;
  ik_out2 : forall o2, ia_out2 a = Some o2 -> fits (o2 + ia_outpos a) (ia_left a) len;
  ik_leaf : ia_recurse_to_leaf a = true -> exists o2, ia_out2 a = Some o2;
  ik_numrep : u32 (ia_numrep a) <> 0;
  ik_fuel : (H < fuel)%nat }.

Section IndepTotal.
Context (self : crush_map -> list Z -> indep_args -> outcome (crush_map * list Z)).
Context (fuel : nat) (len : Z) (a : indep_args).
Hypothesis Hself : forall mem a', ia_recurse_to_leaf a = true -> Z.of_nat (length mem) = len ->
  ia_recurse_to_leaf a' = false -> indep_args_ok fuel len a' ->
  exists mem', runs_mem (fun m1 => self m1 mem a') mem' /\ length mem' = length mem.
Hypothesis Ha : indep_args_ok fuel len a.

Definition position (rep : Z) : Prop := ia_outpos a <= rep < ia_outpos a + ia_left a.

Lemma wr_out2_total (mem : list Z) rep v :
  Z.of_nat (length mem) = len -> position rep ->
  exists mem', wr_out2 mem (ia_out2 a) rep v = Ret mem' /\ length mem' = length mem.
Proof.
  intros Hlen Hrep. unfold wr_out2. destruct (ia_out2 a) as [o|] eqn:Eo; [|by eexists].
  pose proof (ik_out2 _ _ _ Ha o Eo) as Hf. unfold fits, position in *. rewrite wr_total by lia.
  eexists. split; [done|apply length_insert].
Qed.

Lemma wr_out_total (mem : list Z) rep v :
  Z.of_nat (length mem) = len -> position rep ->
  exists mem', wr mem (ia_out a + rep) v = Ret mem' /\ length mem' = length mem.
Proof.
  intros Hlen Hrep. pose proof (ik_out _ _ _ Ha) as Hf. unfold fits, position in *.
  rewrite wr_total by lia. eexists. split; [done|apply length_insert].
Qed.

Lemma indep_bad_total (mem : list Z) rep :
  Z.of_nat (length mem) = len -> position rep ->
  exists mem', runs m (fun m1 => indep_bad a m1 mem rep) BadItem mem' /\ length mem' = length mem.
Proof.
  intros Hlen Hrep. unfold indep_bad.
  destruct (wr_out_total mem rep CRUSH_ITEM_NONE Hlen Hrep) as (mem1 & -> & Hl1). cbn [obind].
  destruct (wr_out2_total mem1 rep CRUSH_ITEM_NONE) as (mem2 & -> & Hl2); [lia|done|]. cbn [obind].
  exists mem2. split; [apply runs_Ret|lia].
Qed.

Lemma indep_leaf_total (mem : list Z) item rep r :
  Z.of_nat (length mem) = len -> position rep ->
  (item < 0 -> exists b, get_bucket m (-1 - item) = Ret b) ->
  exists found mem', runs m (fun m1 => indep_leaf self a m1 mem item rep r) found mem' /\
    length mem' = length mem.
Proof.
  intros Hlen Hrep Hch. unfold indep_leaf.
  destruct (ia_recurse_to_leaf a) eqn:Hr; [|exists true, mem; split; [apply runs_Ret|done]].
  destruct (ik_leaf _ _ _ Ha Hr) as [o2 Eo]. rewrite Eo. cbn [deref obind].
  pose proof (ik_out2 _ _ _ Ha o2 Eo) as Hf. unfold fits, position in *.
  destruct (Z.ltb_spec item 0) as [Hneg|Hneg].
  - destruct (Hself mem (IndepArgs (-1 - item) 1 (ia_numrep a) 0 o2 rep (ia_recurse_tries a) 0 false None r))
      as (mem1 & Hrun & Hl1); try done.
    { split; cbn; try done; [by apply Hch|split; lia|apply Ha|apply Ha]. }
    destruct (rd_total mem1 (o2 + rep)) as [v Hv]; [lia|].
    exists (negb (v =? CRUSH_ITEM_NONE)), mem1. split; [|done]. intros m1 Hm1.
    destruct (Hrun m1 Hm1) as (m2 & -> & Hm2). cbn [obind]. rewrite Hv. by exists m2.
  - rewrite wr_total by lia. cbn [obind]. eexists _, _. split; [apply runs_Ret|apply length_insert].
Qed.

(** The body of a pass, after an item was chosen. *)
Definition indep_judge (m : crush_map) (mem : list Z) (item rep r : Z)
  : outcome (indep_pass * crush_map * list Z) :=
  if max_devices m <=? item then indep_bad a m mem rep
  else
    itemtype ← item_type m item;
    if negb (itemtype =? ia_type a) then
      if (0 <=? item) || (max_buckets m <=? -1 - item) then indep_bad a m mem rep
      else Ret (IntoBucket (-1 - item), m, mem)
    else
      collide ← collides (Z.to_nat (ia_left a)) mem (ia_out a) (ia_outpos a) item;
      if (collide : bool) then Ret (Unplaced, m, mem)
      else
        '(leaf, m, mem) ← indep_leaf self a m mem item rep r;
        if negb leaf then Ret (Unplaced, m, mem)
        else
          out_ ← (if itemtype =? 0 then is_out weight weight_max item x else Ret false);
          if (out_ : bool) then Ret (Unplaced, m, mem)
          else
            mem ← wr mem (ia_out a + rep) item;
            Ret (Placed, m, mem).

Definition enters (in_ : Z) (res : indep_pass) : Prop :=
  forall in', res = IntoBucket in' -> exists b', get_bucket m in' = Ret b' /\ (rank in' < rank in_)%nat.

(** From the collision test on, for an item of the right type. *)
Lemma indep_try_total (mem : list Z) in_ b item t rep r :
  get_bucket m in_ = Ret b -> item ∈ b_items b -> (t = 0 <-> 0 <= item) ->
  Z.of_nat (length mem) = len -> position rep ->
  exists res mem', runs m (fun m =>
      collide ← collides (Z.to_nat (ia_left a)) mem (ia_out a) (ia_outpos a) item;
      if (collide : bool) then Ret (Unplaced, m, mem)
      else
        '(leaf, m, mem) ← indep_leaf self a m mem item rep r;
        if negb leaf then Ret (Unplaced, m, mem)
        else
          out_ ← (if t =? 0 then is_out weight weight_max item x else Ret false);
          if (out_ : bool) then Ret (Unplaced, m, mem)
          else
            mem ← wr mem (ia_out a + rep) item;
            Ret (Placed, m, mem)) res mem' /\
    length mem' = length mem /\ enters in_ res.
Proof.
  intros Hb Hin Ht Hlen Hrep.
  destruct (collides_total (Z.to_nat (ia_left a)) mem (ia_out a) (ia_outpos a) item) as [c ->].
  { pose proof (ik_out _ _ _ Ha) as Hf. pose proof (ik_left _ _ _ Ha). unfold fits in *. lia. }
  cbn [obind]. destruct c; [exists Unplaced, mem; split; [apply runs_Ret|done]|].
  destruct (indep_leaf_total mem item rep r Hlen Hrep) as (found & mem1 & Hrun & Hl1).
  { intros Hneg. destruct (mo_child _ _ _ _ Hmap in_ b item Hb Hin Hneg) as (b' & ? & _). eauto. }
  destruct found; cycle 1.
  { exists Unplaced, mem1. split; [|done]. eapply runs_bind; [exact Hrun|apply runs_Ret]. }
  assert (exists o, (if t =? 0 then is_out weight weight_max item x else Ret false) = Ret o) as [o ->].
  { destruct (Z.eqb_spec t 0); [|by eexists]. apply is_out_total. lia. }
  destruct (wr_out_total mem1 rep item) as (mem2 & Hw & Hl2); [lia|done|].
  exists (if o then Unplaced else Placed), (if o then mem1 else mem2).
  split; [|split; [destruct o; lia|by destruct o]].
  eapply runs_bind; [exact Hrun|]. cbn [negb obind]. rewrite Hw. destruct o; apply runs_Ret.
Qed.

Lemma indep_judge_total (mem : list Z) in_ b item rep r :
  get_bucket m in_ = Ret b -> item ∈ b_items b ->
  Z.of_nat (length mem) = len -> position rep ->
  exists res mem', runs m (fun m1 => indep_judge m1 mem item rep r) res mem' /\
    length mem' = length mem /\ enters in_ res.
Proof.
  intros Hb Hin Hlen Hrep. unfold indep_judge.
  destruct (item_type_total in_ b item Hb Hin) as (t & Ht & Ht0).
  destruct (indep_bad_total mem rep Hlen Hrep) as (memb & Hbad & Hlb).
  destruct (indep_try_total mem in_ b item t rep r Hb Hin Ht0 Hlen Hrep) as (res & mem1 & Htry & Hl1 & He).
  destruct (Z.leb_spec (max_devices m) item) as [Hd|Hd].
  { exists BadItem, memb. split; [|done]. intros m1 Hm1. destruct (good_fields _ _ Hm1) as [-> _].
    rewrite (proj2 (Z.leb_le _ _) Hd). by apply Hbad. }
  destruct (Z.eqb_spec t (ia_type a)) as [Et|Et].
  { exists res, mem1. split; [|done]. intros m1 Hm1. destruct (good_fields _ _ Hm1) as [-> _].
    rewrite (proj2 (Z.leb_gt _ _) Hd), (good_item_type _ _ _ _ Hm1 Ht). cbn [obind].
    rewrite (proj2 (Z.eqb_eq _ _) Et). by apply Htry. }
  exists (if (0 <=? item) || (max_buckets m <=? -1 - item) then BadItem else IntoBucket (-1 - item)),
    (if (0 <=? item) || (max_buckets m <=? -1 - item) then memb else mem).
  split; [|split; [by destruct (_ || _)|]].
  - intros m1 Hm1. destruct (good_fields _ _ Hm1) as [-> ->].
    rewrite (proj2 (Z.leb_gt _ _) Hd), (good_item_type _ _ _ _ Hm1 Ht). cbn [obind].
    rewrite (proj2 (Z.eqb_neq _ _) Et). cbn [negb]. destruct (_ || _); [by apply Hbad|by exists m1].
  - intros in'. destruct (_ || _) eqn:Eneg; [done|]. intros [= <-].
    apply orb_false_iff in Eneg as [?%Z.leb_gt _]. eapply mo_child; [done..|lia].
Qed.

Lemma indep_pass_total (mem : list Z) in_ b rep ft :
  get_bucket m in_ = Ret b -> Z.of_nat (length mem) = len -> position rep ->
  exists res mem',
    runs m (fun m1 => indep_pass_body weight weight_max x self a m1 mem in_ rep ft) res mem' /\
    length mem' = length mem /\ enters in_ res.
Proof.
  intros Hb Hlen Hrep. destruct (mo_bucket _ _ _ _ Hmap _ _ Hb) as (Hbok & _).
  assert (exists r, forall b1, same_bucket b b1 -> indep_r a b1 rep ft = Ret r) as [r Hr].
  { unfold indep_r. rewrite (proj2 (Z.eqb_neq (u32 (ia_numrep a)) 0)) by apply (ik_numrep _ _ _ Ha).
    eexists (if b_alg b =? CRUSH_BUCKET_UNIFORM then if b_size b mod u32 (ia_numrep a) =? 0
       then _ else _ else _).
    intros b1 Hs. destruct (same_bucket_fields _ _ Hs) as (_ & _ & -> & _ & -> & _).
    destruct (b_alg b =? CRUSH_BUCKET_UNIFORM); [destruct (_ =? 0)|]; reflexivity. }
  destruct (Z.eqb_spec (b_size b) 0) as [Hz|Hz].
  { exists Unplaced, mem. split; [|done]. intros m1 Hm1. unfold indep_pass_body.
    destruct (good_get _ _ _ _ Hm1 Hb) as (b1 & -> & Hs & _). cbn [obind]. rewrite (Hr b1 Hs). cbn [obind].
    destruct (same_bucket_fields _ _ Hs) as (_ & _ & _ & _ & -> & _). rewrite Hz. by exists m1. }
  destruct (crush_bucket_choose_chooses b x r) as (item & Hch); [|done|].
  { destruct Hbok as [[? _] _ _ _]. lia. }
  destruct (indep_judge_total mem in_ b item rep r) as (res & mem' & Hj & Hl); [done|apply Hch|done..|].
  exists res, mem'. split; [|done]. intros m1 Hm1. unfold indep_pass_body.
  destruct (good_choose _ _ _ _ _ Hb Hch m1 Hm1) as (b1 & b2 & m2 & -> & Hs & Hf & Hp & Hm2).
  cbn [obind]. rewrite (Hr b1 Hs). cbn [obind].
  destruct (same_bucket_fields _ _ Hs) as (_ & _ & _ & _ & -> & _).
  rewrite (proj2 (Z.eqb_neq _ _) Hz), Hf. cbn [obind]. rewrite Hp. cbn [obind]. by apply Hj.
Qed.

Lemma indep_descend_total f (mem : list Z) in_ b rep ft :
  get_bucket m in_ = Ret b -> Z.of_nat (length mem) = len -> position rep -> (rank in_ < f)%nat ->
  exists dec mem',
    runs m (fun m1 => indep_descend weight weight_max x self a f m1 mem in_ rep ft) dec mem' /\
    length mem' = length mem.
Proof.
  revert mem in_ b. induction f as [|f IH]; intros mem in_ b Hb Hlen Hrep Hf; [lia|].
  destruct (indep_pass_total mem in_ b rep ft Hb Hlen Hrep) as (res & mem1 & Hrun & Hl1 & He).
  cbn [indep_descend]. destruct res as [| | |in'].
  1-3: eexists _, mem1; (split; [|done]); eapply runs_bind; [exact Hrun|apply runs_Ret].
  destruct (He in' eq_refl) as (b' & Hb' & Hrank).
  destruct (IH mem1 in' b') as (dec & mem2 & Hrun2 & Hl2); [done|lia|done|lia|].
  exists dec, mem2. split; [|lia]. eapply runs_bind; [exact Hrun|exact Hrun2].
Qed.

Lemma indep_reps_total n (mem : list Z) rep left ft :
  Z.of_nat (length mem) = len -> (forall i, rep <= i < rep + Z.of_nat n -> position i) ->
  exists left' mem',
    runs m (fun m1 => indep_reps weight weight_max x self a n fuel m1 mem rep left ft) left' mem' /\
    length mem' = length mem.
Proof.
  revert mem rep left. induction n as [|n IH]; intros mem rep left Hlen Hpos.
  { exists left, mem. split; [apply runs_Ret|done]. }
  assert (Hnext : forall i, rep + 1 <= i < rep + 1 + Z.of_nat n -> position i) by (intros; apply Hpos; lia).
  assert (Hrep : position rep) by (apply Hpos; lia).
  cbn [indep_reps]. destruct (rd_total mem (ia_out a + rep)) as [v ->].
  { pose proof (ik_out _ _ _ Ha) as Hf. unfold fits, position in *. lia. }
  cbn [obind]. destruct (negb (v =? CRUSH_ITEM_UNDEF)); [by apply IH|].
  destruct (ik_bucket _ _ _ Ha) as [b Hb]. destruct (mo_bucket _ _ _ _ Hmap _ _ Hb) as (_ & _ & _ & Hrk).
  destruct (indep_descend_total fuel mem (ia_bucket a) b rep ft) as (dec & mem1 & Hrun & Hl1); try done.
  { pose proof (ik_fuel _ _ _ Ha). lia. }
  destruct (IH mem1 (rep + 1) (if dec then left - 1 else left)) as (left' & mem2 & Hrun2 & Hl2); [lia|done|].
  exists left', mem2. split; [|lia]. eapply runs_bind; [exact Hrun|exact Hrun2].
Qed.

Lemma indep_tries_total n (mem : list Z) left ft :
  Z.of_nat (length mem) = len ->
  exists mem',
    runs_mem (fun m1 => indep_tries weight weight_max x self a n fuel m1 mem left ft) mem' /\
    length mem' = length mem.
Proof.
  revert mem left ft. induction n as [|n IH]; intros mem left ft Hlen; cbn [indep_tries];
    [exists mem; split; [intros m1 ?; by exists m1|done]|].
  destruct (0 <? left); [|exists mem; split; [intros m1 ?; by exists m1|done]].
  destruct (indep_reps_total (Z.to_nat (ia_left a)) mem (ia_outpos a) left ft) as (l' & mem1 & Hrun & Hl1); [done| |].
  { unfold position. intros. lia. }
  destruct (IH mem1 l' (ft + 1)) as (mem2 & Hrun2 & Hl2); [lia|].
  exists mem2. split; [|lia]. intros m1 Hm1. destruct (Hrun m1 Hm1) as (m2 & -> & Hm2).
  cbn [obind]. by apply Hrun2.
Qed.

Lemma indep_init_total n (mem : list Z) rep :
  Z.of_nat (length mem) = len -> (forall i, rep <= i < rep + Z.of_nat n -> position i) ->
  exists mem', indep_init n mem (ia_out a) (ia_out2 a) rep = Ret mem' /\ length mem' = length mem.
Proof.
  revert mem rep. induction n as [|n IH]; intros mem rep Hlen Hpos; cbn [indep_init]; [by eexists|].
  destruct (wr_out_total mem rep CRUSH_ITEM_UNDEF) as (mem1 & -> & Hl1); [done|apply Hpos; lia|]. cbn [obind].
  destruct (wr_out2_total mem1 rep CRUSH_ITEM_UNDEF) as (mem2 & -> & Hl2); [lia|apply Hpos; lia|]. cbn [obind].
  destruct (IH mem2 (rep + 1)) as (mem3 & -> & Hl3); [lia|intros; apply Hpos; lia|].
  exists mem3. split; [done|lia].
Qed.

Lemma indep_finish_total n (mem : list Z) rep :
  Z.of_nat (length mem) = len -> (forall i, rep <= i < rep + Z.of_nat n -> position i) ->
  exists mem', indep_finish n mem (ia_out a) (ia_out2 a) rep = Ret mem' /\ length mem' = length mem.
Proof.
  revert mem rep. induction n as [|n IH]; intros mem rep Hlen Hpos; cbn [indep_finish]; [by eexists|].
  assert (Hrep : position rep) by (apply Hpos; lia).
  assert (Hslot : forall (mem : list Z) k, 0 <= k < Z.of_nat (length mem) -> exists mem',
    (v ← rd mem k; if v =? CRUSH_ITEM_UNDEF then wr mem k CRUSH_ITEM_NONE else Ret mem) = Ret mem' /\
    length mem' = length mem).
  { intros mem' k Hk. destruct (rd_total mem' k Hk) as [v ->]. cbn [obind].
    destruct (v =? CRUSH_ITEM_UNDEF); [|by eexists]. rewrite wr_total by done.
    eexists. split; [done|apply length_insert]. }
  pose proof (ik_out _ _ _ Ha) as Hf. unfold fits, position in *.
  destruct (Hslot mem (ia_out a + rep)) as (mem1 & Hs1 & Hl1); [lia|].
  destruct (rd mem (ia_out a + rep)); cbn [obind] in *; try done. rewrite Hs1. cbn [obind].
  assert (exists mem2, match ia_out2 a with
        | Some o =>
            v ← rd mem1 (o + rep);
            if v =? CRUSH_ITEM_UNDEF then wr mem1 (o + rep) CRUSH_ITEM_NONE else Ret mem1
        | None => Ret mem1
        end = Ret mem2 /\ length mem2 = length mem1) as (mem2 & -> & Hl2).
  { destruct (ia_out2 a) as [o|] eqn:Eo; [|by eexists]. apply Hslot.
    pose proof (ik_out2 _ _ _ Ha o Eo) as Hf2. unfold fits in Hf2. lia. }
  cbn [obind]. destruct (IH mem2 (rep + 1)) as (mem3 & -> & Hl3); [lia|intros; apply Hpos; lia|].
  exists mem3. split; [done|lia].
Qed.

End IndepTotal.

Lemma crush_choose_indep_runs depth fuel (mem : list Z) a :
  indep_args_ok fuel (Z.of_nat (length mem)) a ->
  (if ia_recurse_to_leaf a then 2 <= depth else 1 <= depth)%nat ->
  exists mem',
    runs_mem (fun m1 => crush_choose_indep weight weight_max x depth fuel m1 mem a) mem' /\
    length mem' = length mem.
Proof.
  revert mem a. induction depth as [|depth IH]; intros mem a Ha Hd.
  { destruct (ia_recurse_to_leaf a); lia. }
  assert (Hpos : forall i, ia_outpos a <= i < ia_outpos a + Z.of_nat (Z.to_nat (ia_left a)) -> position a i).
  { unfold position. pose proof (ik_left _ _ _ Ha). lia. }
  cbn [crush_choose_indep].
  destruct (indep_init_total _ _ _ Ha _ mem (ia_outpos a) eq_refl Hpos) as (mem1 & -> & Hl1). cbn [obind].
  destruct (indep_tries_total (crush_choose_indep weight weight_max x depth fuel) fuel
    (Z.of_nat (length mem)) a) with (n := Z.to_nat (ia_tries a)) (mem := mem1) (left := ia_left a) (ft := 0)
    as (mem2 & Hrun & Hl2); [|done|lia|].
  { intros mem' a' Hr Hl Hr' Ha'. apply IH; [by rewrite Hl|]. rewrite Hr in Hd. rewrite Hr'. lia. }
  destruct (indep_finish_total _ (Z.of_nat (length mem)) _ Ha (Z.to_nat (ia_left a)) mem2 (ia_outpos a))
    as (mem3 & Hfin & Hl3); [lia|done|].
  exists mem3. split; [|lia]. intros m1 Hm1. destruct (Hrun m1 Hm1) as (m2 & -> & Hm2). cbn [obind].
  rewrite Hfin. by exists m2.
Qed.

End Total.

(** ** The small map is well-formed *)
Lemma straw_bucket_ok id type items :
  Z.of_nat (length items) < 2 ^ 31 -> bucket_ok (straw_bucket id type items).
Proof.
  intros Hl. unfold straw_bucket. split.
  - split; cbn; [lia|done].
  - cbn. lia.
  - split; cbn; [by rewrite repeat_length|by left].
  - split; [discriminate|]. split; [discriminate|]. intros _. eexists _, _. split; [done|].
    cbn. by rewrite repeat_length.
Qed.

Definition example_rank (i : Z) : nat := if i =? 0 then 1%nat else 0%nat.

Lemma get_bucket_cases (l : list (option crush_bucket)) m i b :
  buckets m = l -> get_bucket m i = Ret b -> exists k, i = Z.of_nat k /\ l !! k = Some (Some b).
Proof.
  intros <- Hg. apply bind_Ret in Hg as (p & (Hi & Hl)%rd_Ret & Hp). destruct p; [|done].
  injection Hp as ->. exists (Z.to_nat i). split; [lia|done].
Qed.

Lemma example_map_ok : map_ok example_rank 2 3 example_map.
Proof.
  split.
  - intros i b (k & -> & Hk)%(get_bucket_cases _ _ _ _ eq_refl).
    do 4 (destruct k as [|k]; [injection Hk as <-; split;
      [apply straw_bucket_ok; vm_compute; reflexivity|split; [discriminate|split; [vm_compute; discriminate|vm_compute; lia]]]|]).
    done.
  - intros i b c (k & -> & Hk)%(get_bucket_cases _ _ _ _ eq_refl) Hin Hneg.
    destruct k as [|[|[|[|k]]]]; [injection Hk as <-; cbn in Hin..|done];
      repeat (apply elem_of_cons in Hin as [->|Hin]; [try lia|]); try (by apply not_elem_of_nil in Hin).
    all: eexists; split; [reflexivity|vm_compute; lia].
Qed.

(** ** Properties *)

(** C19: crush_choose_firstn terminates: on a well-formed, acyclic map, with room
    in the scratch vector and retry limits within the fuel, it returns, never
    faults, and the number of items, the items and the leaves it stores are the
    same whatever the permutation caches hold. *)
Theorem crush_choose_firstn_terminates rank H maxsize m weight weight_max x fuel (mem : list Z) a :
  map_ok rank H maxsize m -> weight_max <= Z.of_nat (length weight) ->
  firstn_args_ok H maxsize m fuel (Z.of_nat (length mem)) a ->
  exists n mem', forall m1, good m m1 ->
    exists m2, crush_choose_firstn weight weight_max x 2 fuel m1 mem a = Ret (n, m2, mem') /\ good m m2.
Proof.
  intros Hmap Hw Ha.
  destruct (crush_choose_firstn_runs rank H maxsize m Hmap weight weight_max x Hw 2 fuel mem a Ha)
    as (n & mem' & Hrun & _); [destruct (fa_recurse_to_leaf a); lia|]. by exists n, mem'.
Qed.

Lemma crush_choose_firstn_terminates_witness :
  exists n mem' m2,
    crush_choose_firstn example_weight 6 77 2 30 example_map (repeat 0 9) example_firstn_args
      = Ret (n, m2, mem').
Proof.
  destruct (crush_choose_firstn_terminates example_rank 2 3 example_map example_weight 6 77 30
    (repeat 0 9) example_firstn_args) as (n & mem' & Hrun).
  - exact example_map_ok.
  - vm_compute. discriminate.
  - split; try (vm_compute; repeat split; discriminate); [by eexists|].
    intros _. exists 6. split; [reflexivity|]. vm_compute. split; discriminate.
  - destruct (Hrun example_map (good_refl _ _ _ _ example_map_ok)) as (m2 & Hr & _). exists n, mem', m2. exact Hr.
Defined.

(** C20: crush_choose_indep terminates, likewise: the deepest descent takes as many
    steps as the hierarchy has levels. *)
Theorem crush_choose_indep_terminates rank H maxsize m weight weight_max x fuel (mem : list Z) a :
  map_ok rank H maxsize m -> weight_max <= Z.of_nat (length weight) ->
  indep_args_ok H m fuel (Z.of_nat (length mem)) a ->
  exists mem', forall m1, good m m1 ->
    exists m2, crush_choose_indep weight weight_max x 2 fuel m1 mem a = Ret (m2, mem') /\ good m m2.
Proof.
  intros Hmap Hw Ha.
  destruct (crush_choose_indep_runs rank H maxsize m Hmap weight weight_max x Hw 2 fuel mem a Ha)
    as (mem' & Hrun & _); [destruct (ia_recurse_to_leaf a); lia|]. by exists mem'.
Qed.

Definition example_indep_args : indep_args := IndepArgs 0 3 3 1 3 0 20 1 true (Some 6) 0.

Lemma crush_choose_indep_terminates_witness :
  exists mem' m2,
    crush_choose_indep example_weight 6 77 2 3 example_map (repeat 0 9) example_indep_args
      = Ret (m2, mem').
Proof.
  destruct (crush_choose_indep_terminates example_rank 2 3 example_map example_weight 6 77 3
    (repeat 0 9) example_indep_args) as (mem' & Hrun).
  - exact example_map_ok.
  - vm_compute. discriminate.
  - split; try (vm_compute; repeat split; discriminate).
    + by eexists.
    + intros o2 [= <-]. vm_compute. split; discriminate.
    + intros _. by exists 6.
    + lia.
  - destruct (Hrun example_map (good_refl _ _ _ _ example_map_ok)) as (m2 & Hr & _). exists mem', m2. exact Hr.
Defined.
