(* ===== verification/CrushRule.v ===== *)
(** * The rule interpreter

    Properties of [crush_do_rule] of mapper.c: the result vector is never
    overrun, and the rules the tools generate (take a root, choose leaves below
    distinct buckets of a type, emit) place the replicas in distinct failure
    domains, on every well-formed map and within the stated fuel. *)
From S2P Require Import Prelude.
From S2P Require Import Crush.
From S2P Require Import Mapper.
From S2P Require Import PermChoose.
From S2P Require Import BucketChoose.
From S2P Require Import Firstn.
From S2P Require Import Indep.
From S2P Require Import CrushTotal.

(** ** Copying *)
Lemma copy_mem_spec n mem dst src :
  0 <= dst -> dst + Z.of_nat n <= src -> src + Z.of_nat n <= Z.of_nat (length mem) ->
  exists mem', copy_mem n mem dst src = Ret mem' /\ length mem' = length mem /\
    (forall i, 0 <= i < Z.of_nat n -> rd mem' (dst + i) = rd mem (src + i)) /\
    (forall k, ~ (dst <= k < dst + Z.of_nat n) -> rd mem' k = rd mem k).
Proof.
  revert mem dst src. induction n as [|n IH]; intros mem dst src Hd Hds Hl; cbn [copy_mem].
  { exists mem. split_and!; try done. lia. }
  destruct (rd_total mem src) as [v Hv]; [lia|]. rewrite Hv. cbn [obind].
  destruct (wr mem dst v) as [mem1| |] eqn:Hw; [|rewrite wr_total in Hw by lia; done..]. cbn [obind].
  pose proof (wr_length _ _ _ _ Hw) as Hl1.
  destruct (IH mem1 (dst + 1) (src + 1)) as (mem2 & -> & Hl2 & Hcp & Hfr); [lia..|].
  exists mem2. split_and!; [done|lia| |].
  - intros i Hi. destruct (decide (i = 0)) as [->|].
    + rewrite Hfr by lia. rewrite !Z.add_0_r, Hv. by eapply rd_wr_eq.
    + replace (dst + i) with (dst + 1 + (i - 1)) by lia. rewrite Hcp by lia.
      replace (src + 1 + (i - 1)) with (src + i) by lia. eapply rd_wr_ne; [done|lia].
  - intros k Hk. rewrite Hfr by lia. eapply rd_wr_ne; [done|lia].
Qed.

Section Rule.
Context (weight : list Z) (weight_max x result_max : Z) (fuel : nat).

(** [emit_loop] copies as long as there is room. *)
Lemma emit_loop_spec n s i result len result' len' :
  emit_loop result_max n s i result len = Ret (result', len') ->
  len <= len' <= Z.max len result_max /\ length result' = length result /\
  (forall k, ~ (len <= k < len') -> rd result' k = rd result k).
Proof.
  revert i result len. induction n as [|n IH]; intros i result len; cbn [emit_loop]; intros He.
  { inv_outcome. split_and!; (done || lia). }
  destruct (Z.ltb_spec len result_max); inv_outcome; [|split_and!; (done || lia)].
  apply IH in He as (Hle & Hlen & Hfr). split_and!; [lia|lia| |].
  - rewrite Hlen. by eapply wr_length.
  - intros k Hk. rewrite Hfr by lia. eapply rd_wr_ne; [done|lia].
Qed.

Lemma emit_loop_total n s i result len :
  0 <= len -> len + Z.of_nat n <= result_max -> result_max <= Z.of_nat (length result) ->
  fits (rs_w s + i) (Z.of_nat n) (Z.of_nat (length (rs_mem s))) ->
  exists result', emit_loop result_max n s i result len = Ret (result', len + Z.of_nat n) /\
    (forall k, 0 <= k < Z.of_nat n -> rd result' (len + k) = rd (rs_mem s) (rs_w s + i + k)).
Proof.
  revert i result len. induction n as [|n IH]; intros i result len H0 Hn Hr Hf; cbn [emit_loop].
  { exists result. rewrite Z.add_0_r. split; [done|lia]. }
  unfold fits in Hf. rewrite (proj2 (Z.ltb_lt len result_max)) by lia.
  destruct (rd_total (rs_mem s) (rs_w s + i)) as [v Hv]; [lia|]. rewrite Hv. cbn [obind].
  destruct (wr result len v) as [r1| |] eqn:Hw; [|rewrite wr_total in Hw by lia; done..]. cbn [obind].
  pose proof (wr_length _ _ _ _ Hw) as Hl1.
  destruct (IH (i + 1) r1 (len + 1)) as (r2 & He & Hcp); [lia|lia|lia|unfold fits; lia|].
  rewrite He. exists r2. split; [do 2 f_equal; lia|]. intros k Hk. destruct (decide (k = 0)) as [->|].
  - destruct (emit_loop_spec _ _ _ _ _ _ _ He) as (_ & _ & Hfr). rewrite Hfr by lia.
    rewrite !Z.add_0_r, Hv. by eapply rd_wr_eq.
  - replace (len + k) with (len + 1 + (k - 1)) by lia. rewrite Hcp by lia. f_equal. lia.
Qed.

(** ** The result vector *)
Lemma do_step_result s st s' :
  do_step weight weight_max x result_max fuel s st = Ret s' ->
  rs_result_len s <= rs_result_len s' <= Z.max (rs_result_len s) result_max /\
  length (rs_result s') = length (rs_result s) /\
  (forall k, ~ (rs_result_len s <= k < rs_result_len s') -> rd (rs_result s') k = rd (rs_result s) k).
Proof.
  unfold do_step, do_choose. intros Hs.
  repeat (case_match; inv_outcome); cbn; try (split_and!; (done || lia)).
  by apply emit_loop_spec in E.
Qed.

Lemma do_steps_result n r step s s' :
  do_steps weight weight_max x result_max fuel n r step s = Ret s' ->
  rs_result_len s <= rs_result_len s' <= Z.max (rs_result_len s) result_max /\
  length (rs_result s') = length (rs_result s) /\
  (forall k, k < rs_result_len s \/ rs_result_len s' <= k -> rd (rs_result s') k = rd (rs_result s) k).
Proof.
  revert step s. induction n as [|n IH]; intros step s; cbn [do_steps]; intros Hs.
  { inv_outcome. split_and!; (done || lia). }
  inv_outcome. apply do_step_result in E0 as (H1 & H2 & H3). apply IH in Hs as (H4 & H5 & H6).
  split_and!; [lia|lia|congruence|]. intros k Hk. rewrite H6 by lia. apply H3. lia.
Qed.

(** ** The generated rules *)
Definition rule_numrep (arg1 : Z) : Z := if arg1 <=? 0 then s32 (arg1 + result_max) else arg1.

(** The arguments of the search such a rule starts. *)
Definition rule_firstn_args (m : crush_map) (root arg1 type : Z) : firstn_args :=
  FirstnArgs (-1 - root) (rule_numrep arg1) type result_max 0
    (u32 (s32 (choose_total_tries m + 1)))
    (u32 (if negb (chooseleaf_descend_once m =? 0) then 1 else s32 (choose_total_tries m + 1)))
    (u32 (s32 (choose_local_tries m))) (u32 (s32 (choose_local_fallback_tries m)))
    true (u32 (chooseleaf_vary_r m)) (Some (result_max * 2)) 0.

Definition rule_indep_args (m : crush_map) (root arg1 type : Z) : indep_args :=
  IndepArgs (-1 - root) (rule_numrep arg1) (rule_numrep arg1) type result_max 0
    (u32 (s32 (choose_total_tries m + 1))) (u32 1) true (Some (result_max * 2)) 0.

(** The state the emit step starts from. *)
Definition emit_state (m : crush_map) (mem result : list Z) (n : Z) : rule_state :=
  RuleState m mem result_max 0 n result 0 (s32 (choose_total_tries m + 1)) 0
    (s32 (choose_local_tries m)) (s32 (choose_local_fallback_tries m)) (chooseleaf_vary_r m).

Record rule_setting (m : crush_map) (choose_op ruleno root arg1 type : Z) (result scratch : list Z)
  : Prop := {
  rt_no : 0 <= ruleno < max_rules m /\ ruleno < 2 ^ 32;
  rt_rule : rd (rules m) ruleno = Ret (Some (chooseleaf_rule choose_op root arg1 type));
  rt_root : exists b, get_bucket m (-1 - root) = Ret b;
  rt_type : type <> 0;
  rt_max : 0 < result_max < 2 ^ 31;
  rt_numrep : 0 < rule_numrep arg1 <= result_max;
  rt_scratch : 3 * result_max <= Z.of_nat (length scratch);
  rt_result : result_max <= Z.of_nat (length result);
  rt_weight : weight_max <= Z.of_nat (length weight);
  rt_tries : 0 <= choose_total_tries m < 2 ^ 31 - 1;
  rt_devices : max_devices m <= CRUSH_ITEM_UNDEF }.

Lemma do_step_take s a b :
  do_step weight weight_max x result_max fuel s (RuleStep CRUSH_RULE_TAKE a b) =
  (mem ← wr (rs_mem s) (rs_w s) a; Ret (rs_with_work s (rs_map s) mem (rs_w s) (rs_o s) 1)).
Proof. done. Qed.

Lemma do_step_chooseleaf (fn : bool) s a b :
  let st := RuleStep (if fn then CRUSH_RULE_CHOOSELEAF_FIRSTN else CRUSH_RULE_CHOOSELEAF_INDEP) a b in
  do_step weight weight_max x result_max fuel s st = do_choose weight weight_max x result_max fuel s st fn true.
Proof. by destruct fn. Qed.

Lemma do_step_emit s a b :
  do_step weight weight_max x result_max fuel s (RuleStep CRUSH_RULE_EMIT a b) =
  ('(result, len) ← emit_loop result_max (Z.to_nat (rs_wsize s)) s 0 (rs_result s) (rs_result_len s);
   Ret (rs_with_result s 0 result len)).
Proof. done. Qed.


Lemma good_tunables m m1 :
  good m m1 ->
  choose_total_tries m1 = choose_total_tries m /\
  choose_local_tries m1 = choose_local_tries m /\
  choose_local_fallback_tries m1 = choose_local_fallback_tries m /\
  chooseleaf_descend_once m1 = chooseleaf_descend_once m /\
  chooseleaf_vary_r m1 = chooseleaf_vary_r m /\
  rules m1 = rules m /\ max_rules m1 = max_rules m.
Proof. intros [[_ ->] _]. done. Qed.

Definition chooseleaf_op (fn : bool) : Z :=
  if fn then CRUSH_RULE_CHOOSELEAF_FIRSTN else CRUSH_RULE_CHOOSELEAF_INDEP.

(** The state the choose step starts from. *)
Definition choose_state (m m1 : crush_map) (mem result : list Z) : rule_state :=
  RuleState m1 mem 0 result_max 1 result 0 (s32 (choose_total_tries m + 1)) 0
    (s32 (choose_local_tries m)) (s32 (choose_local_fallback_tries m)) (chooseleaf_vary_r m).

(** The three steps of the rule, from a map that differs in its caches. *)
Lemma rule_three_steps fn m m1 ruleno root arg1 type result scratch n m2 mem2 mem3 result' :
  rule_setting m (chooseleaf_op fn) ruleno root arg1 type result scratch -> good m m1 ->
  let mem1 := <[0%nat := root]> scratch in
  choose_one weight weight_max x result_max fuel (choose_state m m1 mem1 result)
    (RuleStep (chooseleaf_op fn) arg1 type) fn true m1 mem1 0 0 = Ret (n, m2, mem2) ->
  copy_mem (Z.to_nat n) mem2 result_max (result_max * 2) = Ret mem3 ->
  emit_loop result_max (Z.to_nat n) (emit_state m mem3 result n) 0 result 0 = Ret (result', n) ->
  crush_do_rule weight weight_max x result_max fuel m1 ruleno result scratch = Ret (result', n, m2).
Proof.
  intros [Hno Hrule [b Hroot] Ht Hmax Hnr Hsc Hre Hw Htr Hdv] Hm1 mem1 Hch Hcp Hem.
  destruct (good_tunables _ _ Hm1) as (E1 & E2 & E3 & E4 & E5 & E6 & E7).
  unfold crush_do_rule. rewrite E1, E2, E3, E5, E6, E7, u32_small, Hrule by lia.
  rewrite (proj2 (Z.leb_gt _ _)) by lia.
  cbn [obind deref chooseleaf_rule rule_len steps]. change (Z.to_nat 3) with 3%nat. cbn [do_steps].
  change (rd _ 0) with (Ret (RuleStep CRUSH_RULE_TAKE root 0)).
  change (rd _ (0 + 1)) with (Ret (RuleStep (chooseleaf_op fn) arg1 type)).
  change (rd _ (0 + 1 + 1)) with (Ret (RuleStep CRUSH_RULE_EMIT 0 0)).
  cbn [obind]. rewrite do_step_take. cbn [rs_mem rs_w]. rewrite wr_total by lia. cbn [obind].
  change (rs_with_work _ _ _ _ _ _) with (choose_state m m1 mem1 result).
  unfold chooseleaf_op. rewrite do_step_chooseleaf. unfold do_choose.
  change (rs_wsize (choose_state m m1 mem1 result)) with 1. change (1 =? 0) with false. cbn iota.
  change (Z.to_nat 1) with 1%nat. cbn [choose_all]. fold (chooseleaf_op fn).
  change (rs_map (choose_state m m1 mem1 result)) with m1.
  change (rs_mem (choose_state m m1 mem1 result)) with mem1. rewrite Hch. cbn [obind].
  change (rs_o (choose_state m m1 mem1 result)) with result_max. rewrite Hcp. cbn [obind].
  rewrite do_step_emit. unfold rs_with_work, choose_state.
  cbn [rs_map rs_mem rs_w rs_o rs_wsize rs_result rs_result_len rs_choose_tries
       rs_choose_leaf_tries rs_local_retries rs_local_fallback_retries rs_vary_r].
  set (s1 := RuleState _ _ _ _ _ _ _ _ _ _ _ _).
  assert (Hs1 : forall k i res len, emit_loop result_max k s1 i res len =
    emit_loop result_max k (emit_state m mem3 result n) i res len).
  { induction k as [|k IH]; intros i res len; cbn [emit_loop]; [done|].
    destruct (len <? result_max); [|done]. change (rs_w s1) with result_max. change (rs_mem s1) with mem3.
    cbn [emit_state rs_mem rs_w]. destruct (rd mem3 _); cbn [obind]; try done.
    destruct (wr res len _); cbn [obind]; auto. }
  by rewrite Hs1, Hem.
Qed.

Lemma choose_one_firstn m m1 root arg1 type result scratch n m2 mem2 :
  (exists b, get_bucket m (-1 - root) = Ret b) -> good m m1 -> 0 < rule_numrep arg1 ->
  (0 < length scratch)%nat ->
  let mem1 := <[0%nat := root]> scratch in
  crush_choose_firstn weight weight_max x 2 fuel m1 mem1 (rule_firstn_args m root arg1 type)
    = Ret (n, m2, mem2) ->
  choose_one weight weight_max x result_max fuel (choose_state m m1 mem1 result)
    (RuleStep CRUSH_RULE_CHOOSELEAF_FIRSTN arg1 type) true true m1 mem1 0 0 = Ret (n, m2, mem2).
Proof.
  intros [b Hroot] Hm1 Hnr Hsc mem1 Hch.
  destruct (good_get _ _ _ _ Hm1 Hroot) as (b1 & Hb1 & _).
  destruct (good_tunables _ _ Hm1) as (E1 & E2 & E3 & E4 & E5 & E6 & E7).
  apply bind_Ret in Hb1 as (p & Hp & _).
  unfold choose_one. cbn [choose_state rs_w rs_o rs_choose_tries rs_choose_leaf_tries rs_local_retries
    rs_local_fallback_retries rs_vary_r Crush.arg1 Crush.arg2].
  fold (rule_numrep arg1). rewrite (proj2 (Z.leb_gt _ _)) by lia.
  replace (rd mem1 (0 + 0)) with (Ret root) by (symmetry; apply (rd_insert_eq scratch 0 root); lia).
  cbn [obind]. rewrite Hp. cbn [obind].
  change (negb (0 =? 0)) with false. cbn iota. rewrite E4, !Z.add_0_r.
  unfold rule_firstn_args in Hch. rewrite Hch. done.
Qed.

Lemma choose_one_indep m m1 root arg1 type result scratch m2 mem2 :
  (exists b, get_bucket m (-1 - root) = Ret b) -> good m m1 -> 0 < rule_numrep arg1 ->
  (0 < length scratch)%nat ->
  let mem1 := <[0%nat := root]> scratch in
  crush_choose_indep weight weight_max x 2 fuel m1 mem1 (rule_indep_args m root arg1 type)
    = Ret (m2, mem2) ->
  choose_one weight weight_max x result_max fuel (choose_state m m1 mem1 result)
    (RuleStep CRUSH_RULE_CHOOSELEAF_INDEP arg1 type) false true m1 mem1 0 0
    = Ret (rule_numrep arg1, m2, mem2).
Proof.
  intros [b Hroot] Hm1 Hnr Hsc mem1 Hch.
  destruct (good_get _ _ _ _ Hm1 Hroot) as (b1 & Hb1 & _).
  apply bind_Ret in Hb1 as (p & Hp & _).
  unfold choose_one. cbn [choose_state rs_w rs_o rs_choose_tries rs_choose_leaf_tries Crush.arg1 Crush.arg2].
  fold (rule_numrep arg1). rewrite (proj2 (Z.leb_gt _ _)) by lia.
  replace (rd mem1 (0 + 0)) with (Ret root) by (symmetry; apply (rd_insert_eq scratch 0 root); lia).
  cbn [obind]. rewrite Hp. cbn [obind].
  change (negb (0 =? 0)) with false. cbn iota. rewrite !Z.add_0_r.
  unfold rule_indep_args in Hch. rewrite Hch. done.
Qed.

(** Copying the leaves and emitting them. *)
Lemma copy_emit m (mem2 result : list Z) n :
  3 * result_max <= Z.of_nat (length mem2) -> result_max <= Z.of_nat (length result) ->
  0 <= n <= result_max ->
  exists mem3 result',
    copy_mem (Z.to_nat n) mem2 result_max (result_max * 2) = Ret mem3 /\
    emit_loop result_max (Z.to_nat n) (emit_state m mem3 result n) 0 result 0 = Ret (result', n) /\
    (forall k, 0 <= k < n -> rd result' k = rd mem2 (result_max * 2 + k)).
Proof.
  intros Hl Hr Hn.
  destruct (copy_mem_spec (Z.to_nat n) mem2 result_max (result_max * 2)) as (mem3 & Hcp & Hl3 & Hval & _); [lia..|].
  destruct (emit_loop_total (Z.to_nat n) (emit_state m mem3 result n) 0 result 0) as (result' & Hem & Hres);
    [lia|lia|lia|unfold fits; cbn; lia|].
  exists mem3, result'. split; [done|]. split; [rewrite Hem; do 2 f_equal; lia|].
  intros k Hk. rewrite <- (Z.add_0_l k) at 1. rewrite Hres by lia. cbn [emit_state rs_mem rs_w].
  rewrite Z.add_0_r. apply Hval. lia.
Qed.

(** The limits on the tunables under which [fuel] is enough. *)
Record firstn_tunables_ok (H : nat) (maxsize : Z) (m : crush_map) : Prop := {
  ft_local : 0 <= choose_local_tries m < 2 ^ 31;
  ft_fallback : 0 <= choose_local_fallback_tries m < 2 ^ 31;
  ft_vary : 0 <= chooseleaf_vary_r m <= 32;
  ft_wrap : choose_total_tries m +
    Z.max (choose_local_tries m) (maxsize + choose_local_fallback_tries m) + 3 <= 2 ^ 32;
  ft_fuel : Z.of_nat H +
    Z.max (choose_local_tries m) (maxsize + choose_local_fallback_tries m) + 2 <= Z.of_nat fuel /\
    choose_total_tries m + 1 < Z.of_nat fuel }.

Lemma rule_firstn_args_ok H maxsize m choose_op ruleno root arg1 type result scratch :
  rule_setting m choose_op ruleno root arg1 type result scratch ->
  firstn_tunables_ok H maxsize m ->
  firstn_args_ok H maxsize m fuel (Z.of_nat (length scratch)) (rule_firstn_args m root arg1 type).
Proof.
  intros [Hno Hrule Hroot Ht Hmax Hnr Hsc Hre Hw Htr Hdv] [H1 H2 H3 H4 H5].
  unfold rule_firstn_args. rewrite !s32_small by lia. rewrite !u32_small by (try case_match; lia).
  split; unfold last_pos, local_bound, fits; cbn; try done; try lia; try (case_match; lia).
  intros _. eexists. split; [done|]. lia.
Qed.

Lemma rule_indep_args_ok H m choose_op ruleno root arg1 type result scratch :
  rule_setting m choose_op ruleno root arg1 type result scratch -> (H < fuel)%nat ->
  indep_args_ok H m fuel (Z.of_nat (length scratch)) (rule_indep_args m root arg1 type).
Proof.
  intros [Hno Hrule Hroot Ht Hmax Hnr Hsc Hre Hw Htr Hdv] Hf.
  split; unfold fits; cbn; try done; try lia.
  - intros o2 [= <-]. lia.
  - intros _. by eexists.
  - rewrite u32_small; lia.
Qed.

End Rule.

(** ** Properties *)
Section Properties.
Context (rank : Z -> nat) (H : nat) (maxsize : Z) (m : crush_map).
Context (weight : list Z) (weight_max x result_max : Z) (fuel : nat).

Lemma crush_do_rule_result ruleno result scratch result' len m' :
  crush_do_rule weight weight_max x result_max fuel m ruleno result scratch = Ret (result', len, m') ->
  0 <= len <= Z.max 0 result_max /\ length result' = length result /\
  (forall k, len <= k -> rd result' k = rd result k).
Proof.
  unfold crush_do_rule. case_match; intros; inv_outcome; [split_and!; (done || lia)|].
  match goal with Hs : do_steps _ _ _ _ _ _ _ _ _ = Ret _ |- _ =>
    apply do_steps_result in Hs as (H1 & H2 & H3) end. cbn in *.
  split_and!; [lia|lia|done|]. intros k Hk. apply H3. by right.
Qed.

(** The [n] devices of [result] are pairwise distinct, none is out, and each is
    inside its own one of [n] pairwise distinct buckets of type [type] (the
    failure domains) below [root]. *)
Definition separated (root type : Z) (result : list Z) (n : Z) : Prop :=
  exists domains,
    let devices := slice result 0 n in
    Z.of_nat (length devices) = n /\ NoDup devices /\ NoDup domains /\
    Forall (accepted weight weight_max x m type (-1 - root)) domains /\
    Forall2 (fun domain => accepted weight weight_max x m 0 (-1 - domain)) domains devices.

Lemma firstn_rule_separates ruleno root arg1 type result scratch :
  map_ok rank H maxsize m ->
  rule_setting weight weight_max result_max m CRUSH_RULE_CHOOSELEAF_FIRSTN
    ruleno root arg1 type result scratch ->
  firstn_tunables_ok fuel H maxsize m ->
  exists result' n,
    (forall m1, good m m1 -> exists m2, good m m2 /\
       crush_do_rule weight weight_max x result_max fuel m1 ruleno result scratch
         = Ret (result', n, m2)) /\
    0 <= n <= rule_numrep result_max arg1 /\ separated root type result' n.
Proof.
  intros Hmap Hset Htun. set (a := rule_firstn_args result_max m root arg1 type).
  pose proof (rt_max _ _ _ _ _ _ _ _ _ _ _ Hset) as Hmax.
  pose proof (rt_numrep _ _ _ _ _ _ _ _ _ _ _ Hset) as Hnr.
  pose proof (rt_scratch _ _ _ _ _ _ _ _ _ _ _ Hset) as Hsc.
  set (mem1 := <[0%nat := root]> scratch).
  assert (Hl1 : length mem1 = length scratch) by (unfold mem1; by rewrite length_insert).
  destruct (crush_choose_firstn_runs rank H maxsize m Hmap weight weight_max x
    (rt_weight _ _ _ _ _ _ _ _ _ _ _ Hset) 2 fuel mem1 a) as (n & mem2 & Hrun & Hl2).
  { rewrite Hl1. eapply rule_firstn_args_ok; eassumption. }
  { cbn. lia. }
  destruct (Hrun m (good_refl _ _ _ _ Hmap)) as (m2 & Hch & _).
  apply crush_choose_firstn_post in Hch as Hpost.
  2:{ split; [done|]. intros _ o2 [= <-]. unfold last_pos. cbn. lia. }
  destruct (firstn_post_items weight weight_max x a m m2 mem1 mem2 n eq_refl Hpost) as (_ & Hnd & Hacc).
  destruct (firstn_post_leaves weight weight_max x a m m2 mem1 mem2 n (result_max * 2) eq_refl eq_refl)
    as (Hlv & Hndl & Hall); [apply Hset|done|done|].
  pose proof (fp_n _ _ _ _ _ _ _ _ _ Hpost) as Hn. unfold last_pos in Hn. cbn in Hn.
  destruct (copy_emit result_max m mem2 result n) as (mem3 & result' & Hcp & Hem & Hval);
    [lia|apply Hset|lia|].
  exists result', n. split; [|split; [lia|exists (slice mem2 result_max n)]].
  - intros m1 Hm1. destruct (Hrun m1 Hm1) as (m1' & Hch1 & Hm1'). exists m1'. split; [done|].
    eapply (rule_three_steps _ _ _ _ _ true m m1); [exact Hset|done| |exact Hcp|exact Hem].
    apply choose_one_firstn; [apply Hset|done|lia|lia|exact Hch1].
  - assert (slice result' 0 n = slice mem2 (result_max * 2) n) as ->; [|done].
    apply slice_ext; [lia|lia|]. intros k Hk. rewrite Z.add_0_l. by apply Hval.
Qed.

(** Position [i] of the [n] of [result] holds CRUSH_ITEM_NONE or a device that is
    not out, inside the failure domain [domain i]; the failure domains of
    different positions are different buckets of type [type] below [root]. *)
Definition positional (root type : Z) (result : list Z) (n : Z) : Prop :=
  exists domain : Z -> Z,
    (forall i, 0 <= i < n -> exists v, rd result i = Ret v /\
       (v = CRUSH_ITEM_NONE \/
        accepted weight weight_max x m type (-1 - root) (domain i) /\
        accepted weight weight_max x m 0 (-1 - domain i) v)) /\
    (forall i j, 0 <= i < n -> 0 <= j < n -> i <> j ->
       domain i = domain j -> domain i = CRUSH_ITEM_NONE).

Lemma indep_rule_positional ruleno root arg1 type result scratch :
  map_ok rank H maxsize m ->
  rule_setting weight weight_max result_max m CRUSH_RULE_CHOOSELEAF_INDEP
    ruleno root arg1 type result scratch ->
  (H < fuel)%nat ->
  exists result',
    (forall m1, good m m1 -> exists m2, good m m2 /\
       crush_do_rule weight weight_max x result_max fuel m1 ruleno result scratch
         = Ret (result', rule_numrep result_max arg1, m2)) /\
    positional root type result' (rule_numrep result_max arg1).
Proof.
  intros Hmap Hset Hfuel. set (a := rule_indep_args result_max m root arg1 type).
  pose proof (rt_max _ _ _ _ _ _ _ _ _ _ _ Hset) as Hmax.
  pose proof (rt_numrep _ _ _ _ _ _ _ _ _ _ _ Hset) as Hnr.
  pose proof (rt_scratch _ _ _ _ _ _ _ _ _ _ _ Hset) as Hsc.
  set (n := rule_numrep result_max arg1) in *. set (mem1 := <[0%nat := root]> scratch).
  assert (Hl1 : length mem1 = length scratch) by (unfold mem1; by rewrite length_insert).
  destruct (crush_choose_indep_runs rank H maxsize m Hmap weight weight_max x
    (rt_weight _ _ _ _ _ _ _ _ _ _ _ Hset) 2 fuel mem1 a) as (mem2 & Hrun & Hl2).
  { rewrite Hl1. eapply rule_indep_args_ok; eassumption. }
  { cbn. lia. }
  destruct (Hrun m (good_refl _ _ _ _ Hmap)) as (m2 & Hch & _).
  apply crush_choose_indep_post in Hch as [_ _ Hit Hds Hlv _].
  2:{ apply Hset. }
  2:{ intros o2 i j [= <-]. unfold in_range. cbn. fold n. lia. }
  2:{ intros _. by eexists. }
  unfold in_range in *. cbn in Hit, Hds, Hlv. fold n in Hit, Hds, Hlv.
  destruct (copy_emit result_max m mem2 result n) as (mem3 & result' & Hcp & Hem & Hval);
    [lia|apply Hset|lia|].
  exists result'. split;
    [|exists (fun i => match rd mem2 (result_max + i) with Ret v => v | _ => CRUSH_ITEM_NONE end); split].
  - intros m1 Hm1. destruct (Hrun m1 Hm1) as (m1' & Hch1 & Hm1'). exists m1'. split; [done|].
    eapply (rule_three_steps _ _ _ _ _ false m m1); [exact Hset|done| |exact Hcp|exact Hem].
    apply choose_one_indep; [apply Hset|done|lia|lia|exact Hch1].
  - intros i Hi. destruct (Hlv eq_refl (rt_type _ _ _ _ _ _ _ _ _ _ _ Hset) i) as (o2 & v & leaf & [= <-] & Hv & Hleaf & Hor); [lia|].
    exists leaf. rewrite Hval, Hv by lia. split; [done|].
    destruct Hor as [[_ ->]|Hal]; [by left|]. destruct (Hit i) as (v' & Hv' & Hor); [lia|].
    rewrite Hv in Hv'. injection Hv' as <-. destruct Hor as [->|Hav]; [|by right].
    exfalso. destruct Hal as (_ & _ & Hu & _). apply under_start in Hu. unfold CRUSH_ITEM_NONE in Hu. lia.
  - intros i j Hi Hj Hij. destruct (Hit i) as (vi & Hvi & _); [lia|]. destruct (Hit j) as (vj & Hvj & _); [lia|].
    rewrite Hvi, Hvj. intros <-. apply (Hds i j); (done || lia).
Qed.

(** crush_do_rule: whatever the map and the rule do, at most [result_max]
    entries of the result vector are written, the returned length is that
    number, and the rest of the vector is as the caller left it. *)
Theorem crush_do_rule_result_bounded ruleno result scratch result' len m' :
  crush_do_rule weight weight_max x result_max fuel m ruleno result scratch = Ret (result', len, m') ->
  0 <= len <= Z.max 0 result_max /\ length result' = length result /\
  (forall k, len <= k -> rd result' k = rd result k).
Proof. apply crush_do_rule_result. Qed.

(** C14: crush_do_rule on a generated chooseleaf firstn rule: for every
    well-formed, acyclic map, whatever its permutation caches hold, the rule
    returns the same devices: at most [numrep] of them, pairwise distinct, none
    out, each inside its own one of as many pairwise distinct buckets of the
    rule's type (the failure domains) below the root. *)
Theorem chooseleaf_firstn_separates ruleno root arg1 type result scratch :
  map_ok rank H maxsize m ->
  rule_setting weight weight_max result_max m CRUSH_RULE_CHOOSELEAF_FIRSTN
    ruleno root arg1 type result scratch ->
  firstn_tunables_ok fuel H maxsize m ->
  exists result' n,
    (forall m1, good m m1 -> exists m2, good m m2 /\
       crush_do_rule weight weight_max x result_max fuel m1 ruleno result scratch
         = Ret (result', n, m2)) /\
    0 <= n <= rule_numrep result_max arg1 /\
    separated root type result' n.
Proof. apply firstn_rule_separates. Qed.

(** C15: crush_do_rule on a generated chooseleaf indep rule: for every well-formed,
    acyclic map, whatever its permutation caches hold, the rule fills exactly
    [numrep] positions; each holds CRUSH_ITEM_NONE or a device that is not out,
    inside the failure domain of its position, and the failure domains of
    different positions are different buckets of the rule's type below the
    root. *)
Theorem chooseleaf_indep_positional ruleno root arg1 type result scratch :
  map_ok rank H maxsize m ->
  rule_setting weight weight_max result_max m CRUSH_RULE_CHOOSELEAF_INDEP
    ruleno root arg1 type result scratch ->
  (H < fuel)%nat ->
  exists result',
    (forall m1, good m m1 -> exists m2, good m m2 /\
       crush_do_rule weight weight_max x result_max fuel m1 ruleno result scratch
         = Ret (result', rule_numrep result_max arg1, m2)) /\
    positional root type result' (rule_numrep result_max arg1).
Proof. apply indep_rule_positional. Qed.

End Properties.

Lemma crush_do_rule_result_bounded_witness :
  exists result' len m',
    crush_do_rule example_weight 6 77 3 100 example_map 0 (repeat 9 5) (repeat 0 9) = Ret (result', len, m') /\
    0 <= len <= 3 /\ rd result' 3 = Ret 9.
Proof.
  destruct (crush_do_rule example_weight 6 77 3 100 example_map 0 (repeat 9 5) (repeat 0 9))
    as [[[result' len] m']| |] eqn:E; [|vm_compute in E; discriminate..].
  exists result', len, m'. split; [done|].
  destruct (crush_do_rule_result_bounded example_map example_weight 6 77 3 100 0 (repeat 9 5)
    (repeat 0 9) result' len m' E) as (Hl & _ & Hk).
  split; [lia|]. rewrite Hk by lia. reflexivity.
Defined.

Lemma example_setting fn :
  rule_setting example_weight 6 3 example_map (chooseleaf_op fn) (if fn then 0 else 1) (-1) 0 1
    (repeat 0 3) (repeat 0 9).
Proof.
  split; [destruct fn; cbn; lia|by destruct fn|by eexists|done|lia|
    vm_compute; split; [reflexivity|discriminate]|done|done|done|cbn; lia|done].
Qed.

Lemma chooseleaf_firstn_separates_witness :
  exists result' n m2,
    crush_do_rule example_weight 6 77 3 30 example_map 0 (repeat 0 3) (repeat 0 9) = Ret (result', n, m2) /\
    NoDup (slice result' 0 n).
Proof.
  destruct (chooseleaf_firstn_separates example_rank 2 3 example_map example_weight 6 77 3 30
    0 (-1) 0 1 (repeat 0 3) (repeat 0 9)) as (result' & n & Hrun & _ & domains & _ & Hnd & _).
  - exact example_map_ok.
  - exact (example_setting true).
  - split; cbn; lia.
  - destruct (Hrun example_map (good_refl _ _ _ _ example_map_ok)) as (m2 & _ & Hr). exists result', n, m2.
    split; [exact Hr|exact Hnd].
Defined.

Lemma chooseleaf_indep_positional_witness :
  exists result' m2,
    crush_do_rule example_weight 6 77 3 3 example_map 1 (repeat 0 3) (repeat 0 9) = Ret (result', 3, m2).
Proof.
  destruct (chooseleaf_indep_positional example_rank 2 3 example_map example_weight 6 77 3 3
    1 (-1) 0 1 (repeat 0 3) (repeat 0 9)) as (result' & Hrun & _).
  - exact example_map_ok.
  - exact (example_setting false).
  - lia.
  - destruct (Hrun example_map (good_refl _ _ _ _ example_map_ok)) as (m2 & _ & Hr). exists result', m2. exact Hr.
Defined.

(** ** What the code does not guarantee *)
Definition one_rule_map (l : list crush_rule_step) : crush_map :=
  CrushMap (buckets example_map) [Some (Rule (Z.of_nat (length l)) (RuleMask 0 1 1 10) l)]
    4 1 6 2 5 19 0 0.

(** Two choose steps in a row that both ask for as many items as the result
    holds. *)
Definition chained_steps : list crush_rule_step :=
  [RuleStep CRUSH_RULE_TAKE (-1) 0; RuleStep CRUSH_RULE_CHOOSE_INDEP 0 1;
   RuleStep CRUSH_RULE_CHOOSE_INDEP 0 0; RuleStep CRUSH_RULE_EMIT 0 0].

(** crush_do_rule does not bound the items a choose step produces: with the
    scratch vector its comment asks for (3 * result_max entries), a rule that
    chooses [result_max] hosts and then [result_max] devices below each writes
    past the end of the vector, for every input of a range. *)
Theorem chained_choose_overruns_scratch :
  Forall (fun x =>
    crush_do_rule (repeat 0x10000 6) 6 x 3 100 (one_rule_map chained_steps) 0 (repeat 0 3) (repeat 0 9)
      = Fault OutOfBounds) (seqZ 0 16).
Proof. repeat (constructor; [vm_compute; reflexivity|]). constructor. Qed.

Definition chooseleaf_device_steps : list crush_rule_step :=
  [RuleStep CRUSH_RULE_TAKE (-1) 0; RuleStep CRUSH_RULE_CHOOSELEAF_INDEP 0 0;
   RuleStep CRUSH_RULE_EMIT 0 0].

(** crush_choose_indep stores a device in [out2] before it tests whether the
    device is out: a chooseleaf indep rule of type 0 returns device 5, whose
    weight is 0, and returns it at two positions. *)
Theorem chooseleaf_indep_device_returns_out :
  let weight := [0x10000; 0; 0x10000; 0; 0x10000; 0] in
  is_out weight 6 5 1 = Ret true /\
  exists m', crush_do_rule weight 6 1 5 100 (one_rule_map chooseleaf_device_steps) 0
    (repeat 0 5) (repeat 0 15) = Ret ([0; 2; 5; 5; 4], 5, m').
Proof. split; [reflexivity|]. eexists. vm_compute. reflexivity. Qed.
