(* ===== verification/Wire.v ===== *)
(** * Decoding and encoding wire data

    Models include/linux/ceph/decode.h.  A buffer is a list of bytes (each a
    [Z] below 256); a position pointer [*p] is an offset into it, and [end] is
    the offset of its last byte + 1.  Reading outside the buffer faults; it is
    the bounds checks ([ceph_decode_need]) that keep a decoder from doing so.

    [dec S A] is the monad of the decoders: it threads the position, the number
    of allocations made so far, and the object being filled in; all three are
    kept when an error is returned, as the C code keeps what it has stored.
    Whether an allocation succeeds is decided by an oracle [kmalloc_ok], which
    gets the number of the allocation and its size in bytes. *)
From S2P Require Import Prelude.

Record dst (S : Type) := Dst { d_pos : Z; d_allocs : nat; d_obj : S }.
Arguments Dst {S} _ _ _.
Arguments d_pos {S} _.
Arguments d_allocs {S} _.
Arguments d_obj {S} _.

Definition dec (S A : Type) : Type := dst S -> outcome A * dst S.

Section Monad.
Context {S : Type}.

Definition dret {A} (a : A) : dec S A := fun s => (Ret a, s).
Definition derr {A} (e : Z) : dec S A := fun s => (Err e, s).
Definition dfault {A} (f : fault) : dec S A := fun s => (Fault f, s).
Definition dlift {A} (o : outcome A) : dec S A := fun s => (o, s).

Definition dbind {A B} (m : dec S A) (k : A -> dec S B) : dec S B := fun s =>
  match m s with
  | (Ret a, s) => k a s
  | (Err e, s) => (Err e, s)
  | (Fault f, s) => (Fault f, s)
  end.

Definition get_pos : dec S Z := fun s => (Ret (d_pos s), s).
Definition set_pos (p : Z) : dec S unit := fun s => (Ret tt, Dst p (d_allocs s) (d_obj s)).

(** [*p += n] *)
Definition skip (n : Z) : dec S unit := fun s => (Ret tt, Dst (d_pos s + n) (d_allocs s) (d_obj s)).

Definition get_obj : dec S S := fun s => (Ret (d_obj s), s).
Definition put_obj (o : S) : dec S unit := fun s => (Ret tt, Dst (d_pos s) (d_allocs s) o).

End Monad.

Declare Scope dec_scope.
Delimit Scope dec_scope with dec.
Notation "x ⇐ m ; k" := (dbind m (fun x => k))
  (at level 20, m at level 100, k at level 200, only parsing) : dec_scope.
Notation "' x ⇐ m ; k" := (dbind m (fun x => k))
  (at level 20, x pattern, m at level 100, k at level 200, only parsing) : dec_scope.
#[global] Open Scope dec_scope.

(** ** Bytes *)

(** The value of little-endian bytes, and the [n] bytes of a value. *)
Fixpoint le_val (l : list Z) : Z :=
  match l with
  | [] => 0
  | b :: l => b + 256 * le_val l
  end.

Fixpoint le_bytes (n : nat) (v : Z) : list Z :=
  match n with
  | O => []
  | S n => v mod 256 :: le_bytes n (v / 256)
  end.

Definition byte (b : Z) : Prop := 0 <= b < 256.

(** [end >= *p && n <= end - *p], [n] unsigned *)
Definition ceph_has_room (p end_ n : Z) : bool := (p <=? end_) && (n <=? end_ - p).

Section Decode.
Context (buf : list Z) (kmalloc_ok : nat -> Z -> bool).
Context {S : Type}.

(** The [n] bytes at [*p]. *)
Fixpoint read_bytes (n : nat) (p : Z) : outcome (list Z) :=
  match n with
  | O => Ret []
  | Datatypes.S n => b ← rd buf p; l ← read_bytes n (p + 1); Ret (b :: l)
  end.

Definition ceph_decode_copy (n : Z) : dec S (list Z) :=
  p ⇐ get_pos;
  l ⇐ dlift (read_bytes (Z.to_nat n) p);
  _ ⇐ skip n;
  dret l.

Definition ceph_decode_64 : dec S Z := l ⇐ ceph_decode_copy 8; dret (le_val l).
Definition ceph_decode_32 : dec S Z := l ⇐ ceph_decode_copy 4; dret (le_val l).
Definition ceph_decode_16 : dec S Z := l ⇐ ceph_decode_copy 2; dret (le_val l).
Definition ceph_decode_8 : dec S Z := l ⇐ ceph_decode_copy 1; dret (le_val l).

(** [goto bad] with [bad] returning [-err] *)
Definition ceph_decode_need (end_ n err : Z) : dec S unit :=
  p ⇐ get_pos;
  if ceph_has_room p end_ n then dret tt else derr err.

Definition ceph_decode_64_safe (end_ err : Z) : dec S Z :=
  _ ⇐ ceph_decode_need end_ 8 err; ceph_decode_64.
Definition ceph_decode_32_safe (end_ err : Z) : dec S Z :=
  _ ⇐ ceph_decode_need end_ 4 err; ceph_decode_32.
Definition ceph_decode_16_safe (end_ err : Z) : dec S Z :=
  _ ⇐ ceph_decode_need end_ 2 err; ceph_decode_16.
Definition ceph_decode_8_safe (end_ err : Z) : dec S Z :=
  _ ⇐ ceph_decode_need end_ 1 err; ceph_decode_8.
Definition ceph_decode_copy_safe (end_ n err : Z) : dec S (list Z) :=
  _ ⇐ ceph_decode_need end_ n err; ceph_decode_copy n.

(** kmalloc, kzalloc, kcalloc and krealloc: whether [size] bytes were
    allocated.  A size of 0 succeeds (ZERO_SIZE_PTR). *)
Definition kmalloc (size : Z) : dec S bool := fun s =>
  (Ret ((size =? 0) || kmalloc_ok (d_allocs s) size),
   Dst (d_pos s) (Datatypes.S (d_allocs s)) (d_obj s)).

(** [if (ptr == NULL) return -ENOMEM] after an allocation *)
Definition kmalloc_or (size err : Z) : dec S unit :=
  ok ⇐ kmalloc size;
  if (ok : bool) then dret tt else derr err.

(** [n] repetitions of a decoder, in order *)
Fixpoint repeat_dec {A} (n : nat) (m : dec S A) : dec S (list A) :=
  match n with
  | O => dret []
  | Datatypes.S n => a ⇐ m; l ⇐ repeat_dec n m; dret (a :: l)
  end.

(** The string with its terminating 0; [*p] is only advanced on success. *)
Definition ceph_extract_encoded_string (end_ : Z) : dec S (list Z * Z) :=
  start ⇐ get_pos;
  let fail (e : Z) : dec S (list Z * Z) := (_ ⇐ set_pos start; derr e) in
  if negb (ceph_has_room start end_ 4) then fail ERANGE
  else
    len ⇐ ceph_decode_32;
    sp ⇐ get_pos;
    if negb (ceph_has_room sp end_ len) then fail ERANGE
    else
      ok ⇐ kmalloc (u32 (len + 1));
      if negb ok then fail ENOMEM
      else
        data ⇐ dlift (read_bytes (Z.to_nat len) sp);
        (* buf[0 .. len) and buf[len] lie in the u32 (len + 1) bytes allocated *)
        if u32 (len + 1) <=? len then dfault OutOfBounds
        else
          _ ⇐ set_pos (start + 4 + len);
          dret (data ++ [0], len).

End Decode.

(** ** Times and addresses *)

(** struct timespec and the wire's struct ceph_timespec (two 32-bit fields). *)
Record timespec := Timespec { tv_sec : Z; tv_nsec : Z }.

Definition ceph_decode_timespec (tv : timespec) : timespec := Timespec (tv_sec tv) (tv_nsec tv).
Definition ceph_encode_timespec (ts : timespec) : timespec :=
  Timespec (u32 (tv_sec ts)) (u32 (tv_nsec ts)).

(** ** Encoders: they overwrite the buffer at [*p] *)
Section Encode.

Fixpoint write_bytes (buf : list Z) (p : Z) (l : list Z) : outcome (list Z) :=
  match l with
  | [] => Ret buf
  | b :: l => buf ← wr buf p b; write_bytes buf (p + 1) l
  end.

(** An encoder returns the buffer and the new position. *)
Definition ceph_encode_copy (buf : list Z) (p : Z) (s : list Z) : outcome (list Z * Z) :=
  buf ← write_bytes buf p s; Ret (buf, p + Z.of_nat (length s)).

Definition ceph_encode_64 (buf : list Z) (p v : Z) : outcome (list Z * Z) :=
  ceph_encode_copy buf p (le_bytes 8 (u64 v)).
Definition ceph_encode_32 (buf : list Z) (p v : Z) : outcome (list Z * Z) :=
  ceph_encode_copy buf p (le_bytes 4 (u32 v)).
Definition ceph_encode_16 (buf : list Z) (p v : Z) : outcome (list Z * Z) :=
  ceph_encode_copy buf p (le_bytes 2 (u16 v)).
Definition ceph_encode_8 (buf : list Z) (p v : Z) : outcome (list Z * Z) :=
  ceph_encode_copy buf p (le_bytes 1 (u8 v)).

Definition ceph_encode_string (buf : list Z) (p end_ : Z) (s : list Z) : outcome (list Z * Z) :=
  let len := u32 (Z.of_nat (length s)) in
  _ ← bug_on (end_ <? p + 4 + len);
  '(buf, p) ← ceph_encode_32 buf p len;
  ceph_encode_copy buf p (take (Z.to_nat len) s).

(** [path]: NULL, or a string given without its terminating 0 *)
Definition ceph_encode_filepath (buf : list Z) (p end_ ino : Z) (path : option (list Z))
  : outcome (list Z * Z) :=
  let s := default [] path in
  let len := u32 (Z.of_nat (length s)) in
  _ ← bug_on (end_ <? p + 1 + 8 + 4 + len);
  '(buf, p) ← ceph_encode_8 buf p 1;
  '(buf, p) ← ceph_encode_64 buf p ino;
  '(buf, p) ← ceph_encode_32 buf p len;
  ceph_encode_copy buf p (take (Z.to_nat len) s).

Definition ceph_encode_need (p end_ n err : Z) : outcome unit :=
  if ceph_has_room p end_ n then Ret tt else Err err.

Definition ceph_encode_64_safe (buf : list Z) (p end_ v err : Z) : outcome (list Z * Z) :=
  _ ← ceph_encode_need p end_ 8 err; ceph_encode_64 buf p v.
Definition ceph_encode_32_safe (buf : list Z) (p end_ v err : Z) : outcome (list Z * Z) :=
  _ ← ceph_encode_need p end_ 4 err; ceph_encode_32 buf p v.
Definition ceph_encode_16_safe (buf : list Z) (p end_ v err : Z) : outcome (list Z * Z) :=
  _ ← ceph_encode_need p end_ 2 err; ceph_encode_16 buf p v.
Definition ceph_encode_8_safe (buf : list Z) (p end_ v err : Z) : outcome (list Z * Z) :=
  _ ← ceph_encode_need p end_ 1 err; ceph_encode_8 buf p v.
Definition ceph_encode_copy_safe (buf : list Z) (p end_ : Z) (s : list Z) (err : Z)
  : outcome (list Z * Z) :=
  _ ← ceph_encode_need p end_ (Z.of_nat (length s)) err; ceph_encode_copy buf p s.

(** [n] is the length of [s]. *)
Definition ceph_encode_string_safe (buf : list Z) (p end_ : Z) (s : list Z) (err : Z)
  : outcome (list Z * Z) :=
  _ ← ceph_encode_need p end_ (Z.of_nat (length s)) err;
  ceph_encode_string buf p end_ s.

End Encode.

(** ** Bytes: laws *)
Lemma le_val_le_bytes n v : 0 <= v < 256 ^ Z.of_nat n -> le_val (le_bytes n v) = v.
Proof.
  revert v. induction n as [|n IH]; intros v Hv; cbn [le_bytes le_val]; [lia|].
  rewrite Nat2Z.inj_succ, Z.pow_succ_r in Hv by lia.
  rewrite IH; [pose proof (Z.div_mod v 256); lia|]. Z.div_mod_to_equations. nia.
Qed.

Lemma length_le_bytes n v : length (le_bytes n v) = n.
Proof. revert v. induction n as [|n IH]; intros v; cbn; [done|]. by rewrite IH. Qed.

Lemma le_bytes_byte n v : Forall byte (le_bytes n v).
Proof.
  revert v. induction n as [|n IH]; intros v; cbn; constructor; [|done].
  pose proof (Z.mod_pos_bound v 256). unfold byte. lia.
Qed.

Lemma le_val_range l : Forall byte l -> 0 <= le_val l < 256 ^ Z.of_nat (length l).
Proof.
  induction 1 as [|b l Hb _ IH]; cbn [le_val length]; [lia|].
  rewrite Nat2Z.inj_succ, Z.pow_succ_r by lia. unfold byte in Hb. lia.
Qed.

Lemma read_bytes_Ret buf n p :
  0 <= p -> p + Z.of_nat n <= Z.of_nat (length buf) ->
  read_bytes buf n p = Ret (slice buf p (Z.of_nat n)).
Proof.
  revert p. induction n as [|n IH]; intros p Hp Hn; cbn [read_bytes]; [by rewrite slice_nil|].
  destruct (rd_total buf p) as [b Hb]; [lia|]. rewrite Hb, IH by lia. cbn [obind]. f_equal.
  apply rd_Ret in Hb as [_ Hb]. unfold slice. rewrite !Nat2Z.id.
  replace (Z.to_nat (p + 1)) with (S (Z.to_nat p)) by lia.
  by rewrite (drop_S buf b (Z.to_nat p)) by done.
Qed.

Lemma length_slice {A} (l : list A) p n :
  0 <= p -> 0 <= n -> p + n <= Z.of_nat (length l) -> Z.of_nat (length (slice l p n)) = n.
Proof. intros. unfold slice. rewrite length_take, length_drop. lia. Qed.

Lemma slice_byte l p n : Forall byte l -> Forall byte (slice l p n).
Proof. intros. by apply Forall_take, Forall_drop. Qed.

(** [data] stands at offset [p] of the buffer. *)
Definition holds_at (buf : list Z) (p : Z) (data : list Z) : Prop :=
  0 <= p /\ slice buf p (Z.of_nat (length data)) = data.

Lemma holds_at_length buf p data :
  holds_at buf p data -> data = [] \/ p + Z.of_nat (length data) <= Z.of_nat (length buf).
Proof.
  intros [Hp Hs]. apply (f_equal length) in Hs. unfold slice in Hs.
  rewrite length_take, length_drop in Hs. destruct data; [by left|right]. cbn in *. lia.
Qed.

Lemma holds_at_read buf p data : holds_at buf p data -> read_bytes buf (length data) p = Ret data.
Proof.
  intros H. pose proof (holds_at_length _ _ _ H) as Hl. destruct H as [Hp Hs].
  destruct Hl as [->|Hl]; [done|]. by rewrite read_bytes_Ret, Hs.
Qed.

Lemma holds_at_app buf p l1 l2 :
  holds_at buf p (l1 ++ l2) <-> holds_at buf p l1 /\ holds_at buf (p + Z.of_nat (length l1)) l2.
Proof.
  unfold holds_at, slice. rewrite length_app, Nat2Z.inj_add.
  split.
  - intros [Hp Hs]. rewrite Z2Nat.inj_add, Nat2Z.id, Nat2Z.id, <- take_take_drop in Hs by lia.
    apply app_inj_1 in Hs as [H1 H2].
    + rewrite !Nat2Z.id. split; [done|]. split; [lia|].
      rewrite Z2Nat.inj_add, Nat2Z.id, <- drop_drop by lia. done.
    + apply (f_equal length) in Hs. rewrite !length_app, !length_take, length_drop, length_drop in Hs.
      rewrite length_take, length_drop. lia.
  - intros [[Hp H1] [_ H2]]. split; [done|].
    rewrite Z2Nat.inj_add, Nat2Z.id, Nat2Z.id, <- take_take_drop by lia. rewrite Nat2Z.id in H1, H2.
    rewrite Z2Nat.inj_add, Nat2Z.id, <- drop_drop in H2 by lia. by rewrite H1, H2.
Qed.

Lemma holds_at_cons buf p b l :
  holds_at buf p (b :: l) <-> rd buf p = Ret b /\ holds_at buf (p + 1) l.
Proof.
  change (b :: l) with ([b] ++ l). rewrite holds_at_app. cbn [length]. change (Z.of_nat 1) with 1.
  assert (H1 : holds_at buf p [b] <-> rd buf p = Ret b); [|by rewrite H1].
  unfold holds_at. split.
  - intros [Hp Hs]. apply rd_Ret. split; [done|].
    assert (Hl : slice buf p 1 !! 0%nat = Some b) by (change (slice buf p 1 = [b]) in Hs; by rewrite Hs).
    apply slice_lookup in Hl as [_ Hl]; [|done]. rewrite Z.add_0_r in Hl. by apply rd_Ret in Hl as [_ ?].
  - intros H. pose proof (rd_range _ _ _ H). split; [lia|]. cbn [length]. change (Z.of_nat 1) with 1.
    apply rd_Ret in H as [_ H]. unfold slice. by rewrite (drop_S buf b) by done.
Qed.

Lemma write_bytes_spec buf p l buf' :
  write_bytes buf p l = Ret buf' ->
  length buf' = length buf /\ (0 <= p -> holds_at buf' p l) /\
  (forall k, ~ (p <= k < p + Z.of_nat (length l)) -> rd buf' k = rd buf k).
Proof.
  revert buf p. induction l as [|b l IH]; intros buf p; cbn [write_bytes]; intros H; inv_outcome.
  { by split_and!. }
  apply IH in H as (Hl & Hat & Hfr). split_and!.
  - rewrite Hl. by eapply wr_length.
  - intros Hp. apply holds_at_cons. split; [|by apply Hat; lia].
    rewrite Hfr by lia. by eapply rd_wr_eq.
  - cbn [length]. intros k Hk. rewrite Hfr by lia. eapply rd_wr_ne; [done|lia].
Qed.

Lemma write_bytes_total buf p l :
  0 <= p -> p + Z.of_nat (length l) <= Z.of_nat (length buf) ->
  exists buf', write_bytes buf p l = Ret buf'.
Proof.
  revert buf p. induction l as [|b l IH]; intros buf p Hp Hl; cbn [write_bytes]; [by eexists|].
  cbn [length] in Hl. rewrite wr_total by lia. cbn [obind]. apply IH; [lia|]. rewrite length_insert. lia.
Qed.

Lemma holds_at_frame buf buf' p l :
  holds_at buf p l -> length buf' = length buf ->
  (forall k, p <= k < p + Z.of_nat (length l) -> rd buf' k = rd buf k) -> holds_at buf' p l.
Proof.
  intros [Hp Hs] Hlen Hfr. split; [done|]. rewrite <- Hs at 2. apply slice_ext; [done|done|].
  intros i Hi. apply Hfr. lia.
Qed.

(** ** Decoding what stands in the buffer *)
Section DecodeAt.
Context {S : Type} (buf : list Z).
Implicit Types (s : dst S).

Definition advance s (n : Z) : dst S := Dst (d_pos s + n) (d_allocs s) (d_obj s).

Lemma ceph_decode_copy_at data s :
  holds_at buf (d_pos s) data ->
  ceph_decode_copy buf (Z.of_nat (length data)) s = (Ret data, advance s (Z.of_nat (length data))).
Proof.
  intros H. unfold ceph_decode_copy, dbind, get_pos, dlift, skip, dret.
  rewrite Nat2Z.id, (holds_at_read _ _ _ H). done.
Qed.

Lemma decode_le_at (n : nat) v s :
  holds_at buf (d_pos s) (le_bytes n v) -> 0 <= v < 256 ^ Z.of_nat n ->
  (l ⇐ ceph_decode_copy buf (Z.of_nat n); dret (le_val l)) s = (Ret v, advance s (Z.of_nat n)).
Proof.
  intros H Hv. unfold dbind. rewrite <- (length_le_bytes n v) at 1.
  rewrite (ceph_decode_copy_at _ _ H), length_le_bytes. by rewrite le_val_le_bytes.
Qed.

Lemma ceph_decode_64_at v s :
  holds_at buf (d_pos s) (le_bytes 8 v) -> 0 <= v < 2 ^ 64 -> ceph_decode_64 buf s = (Ret v, advance s 8).
Proof. intros. by apply (decode_le_at 8). Qed.
Lemma ceph_decode_32_at v s :
  holds_at buf (d_pos s) (le_bytes 4 v) -> 0 <= v < 2 ^ 32 -> ceph_decode_32 buf s = (Ret v, advance s 4).
Proof. intros. by apply (decode_le_at 4). Qed.
Lemma ceph_decode_16_at v s :
  holds_at buf (d_pos s) (le_bytes 2 v) -> 0 <= v < 2 ^ 16 -> ceph_decode_16 buf s = (Ret v, advance s 2).
Proof. intros. by apply (decode_le_at 2). Qed.
Lemma ceph_decode_8_at v s :
  holds_at buf (d_pos s) (le_bytes 1 v) -> 0 <= v < 2 ^ 8 -> ceph_decode_8 buf s = (Ret v, advance s 1).
Proof. intros. by apply (decode_le_at 1). Qed.

Lemma ceph_decode_need_at end_ n err s :
  d_pos s <= end_ -> n <= end_ - d_pos s -> ceph_decode_need end_ n err s = (Ret tt, s).
Proof.
  intros. unfold ceph_decode_need, dbind, get_pos, ceph_has_room.
  by rewrite !(proj2 (Z.leb_le _ _)) by lia.
Qed.

End DecodeAt.

Lemma dbind_Ret {S A B} (m : dec S A) (k : A -> dec S B) s a s' :
  m s = (Ret a, s') -> dbind m k s = k a s'.
Proof. unfold dbind. by intros ->. Qed.

(** ** Decoders and the data they accept

    [decodes m data a]: where [data] stands in the buffer, at least [slack]
    bytes before [end], the decoder [m] returns [a] and moves past it. *)
Section Decodes.
Context {S : Type} (buf : list Z) (end_ slack : Z) (kmalloc_ok : nat -> Z -> bool).
Hypothesis Hslack : 0 <= slack.

Definition decodes {A} (m : dec S A) (data : list Z) (a : A) : Prop :=
  forall s, holds_at buf (d_pos s) data -> d_pos s + Z.of_nat (length data) + slack <= end_ ->
    exists k, m s = (Ret a, Dst (d_pos s + Z.of_nat (length data)) (d_allocs s + k) (d_obj s)).

Lemma decodes_ret {A} (a : A) : decodes (dret a) [] a.
Proof. intros [p n o] _ _. exists 0%nat. unfold dret. cbn. by rewrite Z.add_0_r, Nat.add_0_r. Qed.

Lemma decodes_bind {A B} (m : dec S A) (k : A -> dec S B) d1 d2 a b :
  decodes m d1 a -> decodes (k a) d2 b -> decodes (dbind m k) (d1 ++ d2) b.
Proof.
  intros Hm Hk s [H1 H2]%holds_at_app He. rewrite length_app, Nat2Z.inj_add in *.
  destruct (Hm s H1) as [j Ej]; [lia|].
  destruct (Hk (Dst (d_pos s + Z.of_nat (length d1)) (d_allocs s + j) (d_obj s)) H2) as [j2 Ej2]; [cbn; lia|].
  exists (j + j2)%nat. rewrite (dbind_Ret _ _ _ _ _ Ej), Ej2. cbn. f_equal. f_equal; lia.
Qed.

(** A step that reads nothing. *)
Lemma decodes_bind_nil {A B} (m : dec S A) (k : A -> dec S B) d a b :
  decodes m [] a -> decodes (k a) d b -> decodes (dbind m k) d b.
Proof. apply (decodes_bind m k [] d). Qed.

Lemma decodes_last {A B} (m : dec S A) (k : A -> dec S B) d a b :
  decodes m d a -> decodes (k a) [] b -> decodes (dbind m k) d b.
Proof. intros. rewrite <- (app_nil_r d). by eapply decodes_bind. Qed.

(** A bounds check before the data it is about. *)
Lemma decodes_need {B} (k : unit -> dec S B) n err d b :
  n <= Z.of_nat (length d) + slack -> decodes (k tt) d b ->
  decodes (dbind (ceph_decode_need end_ n err) k) d b.
Proof.
  intros Hn Hk s H He. rewrite (dbind_Ret _ _ s tt s); [by apply Hk|].
  apply ceph_decode_need_at; lia.
Qed.

Lemma decodes_64 v : 0 <= v < 2 ^ 64 -> decodes (ceph_decode_64 buf) (le_bytes 8 v) v.
Proof.
  intros Hv s H _. exists 0%nat. rewrite (ceph_decode_64_at _ v) by done.
  unfold advance. by rewrite length_le_bytes, Nat.add_0_r.
Qed.
Lemma decodes_32 v : 0 <= v < 2 ^ 32 -> decodes (ceph_decode_32 buf) (le_bytes 4 v) v.
Proof.
  intros Hv s H _. exists 0%nat. rewrite (ceph_decode_32_at _ v) by done.
  unfold advance. by rewrite length_le_bytes, Nat.add_0_r.
Qed.
Lemma decodes_16 v : 0 <= v < 2 ^ 16 -> decodes (ceph_decode_16 buf) (le_bytes 2 v) v.
Proof.
  intros Hv s H _. exists 0%nat. rewrite (ceph_decode_16_at _ v) by done.
  unfold advance. by rewrite length_le_bytes, Nat.add_0_r.
Qed.
Lemma decodes_8 v : 0 <= v < 2 ^ 8 -> decodes (ceph_decode_8 buf) (le_bytes 1 v) v.
Proof.
  intros Hv s H _. exists 0%nat. rewrite (ceph_decode_8_at _ v) by done.
  unfold advance. by rewrite length_le_bytes, Nat.add_0_r.
Qed.
Lemma decodes_copy n data : Z.of_nat (length data) = n -> decodes (ceph_decode_copy buf n) data data.
Proof.
  intros <- s H _. exists 0%nat. rewrite (ceph_decode_copy_at _ data) by done.
  unfold advance. by rewrite Nat.add_0_r.
Qed.

Lemma decodes_8_safe v err : 0 <= v < 2 ^ 8 -> decodes (ceph_decode_8_safe buf end_ err) (le_bytes 1 v) v.
Proof. intros. apply decodes_need; [rewrite length_le_bytes; lia|by apply decodes_8]. Qed.
Lemma decodes_32_safe v err : 0 <= v < 2 ^ 32 -> decodes (ceph_decode_32_safe buf end_ err) (le_bytes 4 v) v.
Proof. intros. apply decodes_need; [rewrite length_le_bytes; lia|by apply decodes_32]. Qed.
Lemma decodes_64_safe v err : 0 <= v < 2 ^ 64 -> decodes (ceph_decode_64_safe buf end_ err) (le_bytes 8 v) v.
Proof. intros. apply decodes_need; [rewrite length_le_bytes; lia|by apply decodes_64]. Qed.
Lemma decodes_copy_safe n data err :
  Z.of_nat (length data) = n -> decodes (ceph_decode_copy_safe buf end_ n err) data data.
Proof. intros <-. apply decodes_need; [lia|by apply decodes_copy]. Qed.

Lemma decodes_repeat {A} (m : dec S A) (enc : A -> list Z) (l : list A) :
  Forall (fun a => decodes m (enc a) a) l ->
  decodes (repeat_dec (length l) m) (concat (enc <$> l)) l.
Proof.
  induction 1 as [|a l Ha _ IH]; [apply decodes_ret|]. cbn [length repeat_dec fmap list_fmap concat].
  eapply decodes_bind; [done|]. eapply decodes_last; [done|apply decodes_ret].
Qed.

Hypothesis Halloc : forall n size, kmalloc_ok n size = true.

Lemma decodes_kmalloc size err : decodes (kmalloc_or kmalloc_ok size err) [] tt.
Proof.
  intros s _ _. exists 1%nat. unfold kmalloc_or, kmalloc, dbind. rewrite Halloc, orb_true_r.
  unfold dret. cbn. by rewrite Z.add_0_r, Nat.add_1_r.
Qed.

End Decodes.

(** ** Properties *)

(** An encoder of one width: [ceph_encode_8] to [ceph_encode_64] store the
    value, reduced to their width, where the decoder of that width reads it
    back and ends at the same position; nothing else of the buffer changes. *)
Theorem ceph_encode_decode_int {S} (buf buf' : list Z) p p' v (obj : S) :
  let s := Dst p 0 obj in
  0 <= p ->
  (ceph_encode_64 buf p v = Ret (buf', p') -> ceph_decode_64 buf' s = (Ret (u64 v), Dst p' 0 obj)) /\
  (ceph_encode_32 buf p v = Ret (buf', p') -> ceph_decode_32 buf' s = (Ret (u32 v), Dst p' 0 obj)) /\
  (ceph_encode_16 buf p v = Ret (buf', p') -> ceph_decode_16 buf' s = (Ret (u16 v), Dst p' 0 obj)) /\
  (ceph_encode_8 buf p v = Ret (buf', p') -> ceph_decode_8 buf' s = (Ret (u8 v), Dst p' 0 obj)) /\
  (forall l, ceph_encode_copy buf p l = Ret (buf', p') ->
     forall k, ~ (p <= k < p') -> rd buf' k = rd buf k).
Proof.
  intros s Hp. unfold ceph_encode_64, ceph_encode_32, ceph_encode_16, ceph_encode_8, ceph_encode_copy.
  split_and!; intros; inv_outcome;
    match goal with H : write_bytes _ _ _ = Ret _ |- _ => apply write_bytes_spec in H as (Hl & Hat & Hfr) end;
    rewrite ?length_le_bytes;
    [apply ceph_decode_64_at|apply ceph_decode_32_at|apply ceph_decode_16_at|apply ceph_decode_8_at|
     by apply Hfr]; auto with ceph.
Qed.

Lemma ceph_encode_decode_int_witness :
  exists buf' p', ceph_encode_32 (repeat 0 8) 2 0x12345678 = Ret (buf', p') /\
    ceph_decode_32 buf' (Dst 2 0 tt) = (Ret 0x12345678, Dst p' 0 tt).
Proof.
  eexists _, _. split; [vm_compute; reflexivity|].
  apply (ceph_encode_decode_int (repeat 0 8) _ 2 _ 0x12345678 tt); [lia|vm_compute; reflexivity].
Defined.

(** ceph_encode_string followed by ceph_extract_encoded_string: when the
    string and its length word fit before [end] and the allocation succeeds,
    the encoder does not hit its BUG_ON and the decoder returns the string,
    terminated by 0, its length, and the position after it. *)
Theorem ceph_string_roundtrip {S} (buf str : list Z) p end_ kmalloc_ok (obj : S) :
  0 <= p -> p + 4 + Z.of_nat (length str) <= end_ -> end_ <= Z.of_nat (length buf) ->
  Z.of_nat (length str) < 2 ^ 32 - 1 ->
  kmalloc_ok 0%nat (Z.of_nat (length str) + 1) = true ->
  exists buf', ceph_encode_string buf p end_ str = Ret (buf', p + 4 + Z.of_nat (length str)) /\
    ceph_extract_encoded_string buf' kmalloc_ok end_ (Dst p 0 obj) =
      (Ret (str ++ [0], Z.of_nat (length str)), Dst (p + 4 + Z.of_nat (length str)) 1 obj).
Proof.
  intros Hp Hend Hbuf Hlen Hk. set (n := Z.of_nat (length str)) in *.
  unfold ceph_encode_string, ceph_encode_32, ceph_encode_copy. fold n.
  rewrite !(u32_small n), (proj2 (Z.ltb_ge _ _)) by lia. cbn [bug_on obind].
  destruct (write_bytes_total buf p (le_bytes 4 n)) as [b1 H1]; [done|rewrite length_le_bytes; lia|].
  rewrite H1. cbn [obind]. rewrite length_le_bytes, take_ge by lia. change (Z.of_nat 4) with 4.
  apply write_bytes_spec in H1 as (Hl1 & Hat1 & _).
  destruct (write_bytes_total b1 (p + 4) str) as [b2 H2]; [lia|lia|]. rewrite H2. cbn [obind].
  apply write_bytes_spec in H2 as (Hl2 & Hat2 & Hfr2).
  exists b2. split; [done|]. unfold ceph_extract_encoded_string.
  erewrite dbind_Ret by reflexivity. cbn [d_pos]. unfold ceph_has_room.
  rewrite !(proj2 (Z.leb_le _ _)) by lia. cbn [andb negb].
  erewrite dbind_Ret; [|apply (ceph_decode_32_at b2 n)]; [| |lia].
  2:{ cbn [d_pos]. eapply holds_at_frame; [by apply Hat1|done|]. rewrite length_le_bytes. intros. apply Hfr2. lia. }
  erewrite dbind_Ret by reflexivity. cbn [d_pos advance].
  rewrite !(proj2 (Z.leb_le _ _)) by lia. cbn [andb negb].
  erewrite dbind_Ret by reflexivity. cbn [d_pos d_allocs d_obj advance]. rewrite u32_small, Hk, orb_true_r by lia.
  cbn [negb]. erewrite dbind_Ret; [|unfold dlift; unfold n; rewrite Nat2Z.id, holds_at_read; [reflexivity|apply Hat2; lia]].
  fold n. rewrite (proj2 (Z.leb_gt _ _)) by lia. reflexivity.
Qed.

Lemma ceph_string_roundtrip_witness :
  exists buf', ceph_encode_string (repeat 0 12) 1 12 [104; 105] = Ret (buf', 7) /\
    ceph_extract_encoded_string buf' (fun _ _ => true) 12 (Dst 1 0 tt) = (Ret ([104; 105; 0], 2), Dst 7 1 tt).
Proof.
  apply (ceph_string_roundtrip (repeat 0 12) [104; 105] 1 12 (fun _ _ => true) tt);
    [lia|cbn; lia|cbn; lia|cbn; lia|reflexivity].
Defined.

(** ceph_encode_string_safe checks only the room for the characters: a string
    that fits while its length word does not is not refused with the error of
    the other _safe encoders but runs into the BUG_ON of ceph_encode_string. *)
Theorem ceph_encode_string_safe_bugs buf p end_ str err :
  0 <= p -> p + Z.of_nat (length str) <= end_ < p + 4 + Z.of_nat (length str) ->
  Z.of_nat (length str) < 2 ^ 32 ->
  ceph_encode_string_safe buf p end_ str err = Fault BugOn.
Proof.
  intros Hp Hend Hlen. unfold ceph_encode_string_safe, ceph_encode_need, ceph_has_room, ceph_encode_string.
  rewrite !(proj2 (Z.leb_le _ _)) by lia. cbn [andb obind]. rewrite u32_small by lia.
  by rewrite (proj2 (Z.ltb_lt _ _)) by lia.
Qed.

Lemma ceph_encode_string_safe_bugs_witness :
  ceph_encode_string_safe (repeat 0 4) 0 4 [97; 98] ERANGE = Fault BugOn.
Proof. apply ceph_encode_string_safe_bugs; cbn; lia. Defined.
