(* ===== verification/CrushDecode.v ===== *)
(** * Decoding a CRUSH map

    Models crush_decode and its helpers of net/ceph/osdmap.c.

    The variable [err] of crush_decode, which the label [bad] returns, is
    threaded explicitly: it starts at -EINVAL and the bucket decoders
    overwrite it, with 0 when they succeed.  [ERR_PTR(0)] is the NULL pointer.

    A bucket is allocated with the size of the struct for the [alg] word that
    precedes it, and filled in as the struct for the [alg] byte of its header;
    [cap] is the allocated size, and a store beyond it faults. *)
From S2P Require Import Prelude.
From S2P Require Import Wire.
From S2P Require Import Crush.

(** sizeof of the four bucket structs, and the offset of the end of their
    last pointer field, on a 64-bit machine *)
Definition sizeof_bucket (alg : Z) : option Z :=
  if alg =? CRUSH_BUCKET_UNIFORM then Some 48
  else if alg =? CRUSH_BUCKET_LIST then Some 56
  else if alg =? CRUSH_BUCKET_TREE then Some 56
  else if alg =? CRUSH_BUCKET_STRAW then Some 56
  else None.

(** What kzalloc leaves after the header. *)
Definition zero_body (alg : Z) : bucket_body :=
  if alg =? CRUSH_BUCKET_UNIFORM then UniformBody 0
  else if alg =? CRUSH_BUCKET_LIST then ListBody [] []
  else if alg =? CRUSH_BUCKET_TREE then TreeBody 0 []
  else StrawBody [] [].

Section CrushDecode.
Context (buf : list Z) (kmalloc_ok : nat -> Z -> bool).
Context {S : Type}.

(** kcalloc: the product must not overflow a size_t; [n] is converted to one. *)
Definition kcalloc_or (n size err : Z) : dec S unit :=
  if (2 ^ 64 - 1) / size <? u64 n then derr err else kmalloc_or kmalloc_ok (u64 n * size) err.

(** A store to bytes [.., off) of an object of [cap] bytes. *)
Definition store_in (cap off : Z) : dec S unit :=
  if off <=? cap then dret tt else dfault OutOfBounds.

Definition crush_decode_uniform_bucket (end_ size : Z) : dec S bucket_body :=
  _ ⇐ ceph_decode_need end_ (u32 (1 + size) * 4) EINVAL;
  w ⇐ ceph_decode_32 buf;
  dret (UniformBody w).

(** The loop body of the list and straw decoders: two words *)
Definition decode_pair : dec S (Z * Z) :=
  a ⇐ ceph_decode_32 buf; b ⇐ ceph_decode_32 buf; dret (a, b).

Definition crush_decode_list_bucket (end_ cap size : Z) : dec S bucket_body :=
  _ ⇐ store_in cap 48;
  _ ⇐ kcalloc_or size 4 ENOMEM;
  _ ⇐ store_in cap 56;
  _ ⇐ kcalloc_or size 4 ENOMEM;
  _ ⇐ ceph_decode_need end_ (u32 (2 * size) * 4) EINVAL;
  l ⇐ repeat_dec (Z.to_nat size) decode_pair;
  dret (ListBody l.*1 l.*2).

(** [num_nodes] is a byte of the struct. *)
Definition crush_decode_tree_bucket (end_ cap : Z) : dec S bucket_body :=
  v ⇐ ceph_decode_32_safe buf end_ EINVAL;
  let num_nodes := u8 v in
  _ ⇐ store_in cap 56;
  _ ⇐ kcalloc_or num_nodes 4 ENOMEM;
  _ ⇐ ceph_decode_need end_ (num_nodes * 4) EINVAL;
  nw ⇐ repeat_dec (Z.to_nat num_nodes) (ceph_decode_32 buf);
  dret (TreeBody num_nodes nw).

Definition crush_decode_straw_bucket (end_ cap size : Z) : dec S bucket_body :=
  _ ⇐ store_in cap 48;
  _ ⇐ kcalloc_or size 4 ENOMEM;
  _ ⇐ store_in cap 56;
  _ ⇐ kcalloc_or size 4 ENOMEM;
  _ ⇐ ceph_decode_need end_ (u32 (2 * size) * 4) EINVAL;
  l ⇐ repeat_dec (Z.to_nat size) decode_pair;
  dret (StrawBody l.*1 l.*2).

(** [switch (b->alg)]: the body, and the new [err] *)
Definition decode_body (end_ cap alloc_alg alg size err : Z) : dec S (bucket_body * Z) :=
  if alg =? CRUSH_BUCKET_UNIFORM then
    body ⇐ crush_decode_uniform_bucket end_ size; dret (body, 0)
  else if alg =? CRUSH_BUCKET_LIST then
    body ⇐ crush_decode_list_bucket end_ cap size; dret (body, 0)
  else if alg =? CRUSH_BUCKET_TREE then
    body ⇐ crush_decode_tree_bucket end_ cap; dret (body, 0)
  else if alg =? CRUSH_BUCKET_STRAW then
    body ⇐ crush_decode_straw_bucket end_ cap size; dret (body, 0)
  else dret (zero_body alloc_alg, err).

Definition decode_s32 : dec S Z := v ⇐ ceph_decode_32 buf; dret (s32 v).

(** One iteration of the bucket loop: [c->buckets[i]] and the new [err] *)
Definition decode_bucket (end_ err : Z) : dec S (option crush_bucket * Z) :=
  alg ⇐ ceph_decode_32_safe buf end_ err;
  if alg =? 0 then dret (None, err)
  else
    match sizeof_bucket alg with
    | None => derr EINVAL
    | Some cap =>
        _ ⇐ kmalloc_or kmalloc_ok cap ENOMEM;
        _ ⇐ ceph_decode_need end_ (4 * 4) err;
        id ⇐ decode_s32;
        type ⇐ ceph_decode_16 buf;
        balg ⇐ ceph_decode_8 buf;
        hash ⇐ ceph_decode_8 buf;
        weight ⇐ ceph_decode_32 buf;
        size ⇐ ceph_decode_32 buf;
        _ ⇐ kcalloc_or size 4 ENOMEM;
        _ ⇐ kcalloc_or size 4 ENOMEM;
        _ ⇐ ceph_decode_need end_ (size * 4) err;
        items ⇐ repeat_dec (Z.to_nat size) decode_s32;
        '(body, err) ⇐ decode_body end_ cap alg balg size err;
        dret (Some (Bucket id type balg hash weight size items 0 0
                      (repeat 0 (Z.to_nat size)) body), err)
    end.

Fixpoint decode_buckets (n : nat) (end_ err : Z) : dec S (list (option crush_bucket) * Z) :=
  match n with
  | O => dret ([], err)
  | Datatypes.S n =>
      '(b, err) ⇐ decode_bucket end_ err;
      '(bs, err) ⇐ decode_buckets n end_ err;
      dret (b :: bs, err)
  end.

Definition decode_step : dec S crush_rule_step :=
  op ⇐ ceph_decode_32 buf;
  arg1 ⇐ decode_s32;
  arg2 ⇐ decode_s32;
  dret (RuleStep op arg1 arg2).

(** One iteration of the rule loop *)
Definition decode_rule (end_ err : Z) : dec S (option crush_rule) :=
  yes ⇐ ceph_decode_32_safe buf end_ err;
  if yes =? 0 then dret None
  else
    len ⇐ ceph_decode_32_safe buf end_ err;
    _ ⇐ kmalloc_or kmalloc_ok (8 + len * 12) ENOMEM;
    mask ⇐ ceph_decode_copy_safe buf end_ 4 err;
    _ ⇐ ceph_decode_need end_ (u32 (len * 3) * 4) err;
    steps ⇐ repeat_dec (Z.to_nat len) decode_step;
    match mask with
    | [rs; ty; mi; ma] => dret (Some (Rule len (RuleMask rs ty mi ma) steps))
    | _ => dfault OutOfBounds
    end.

(** [while (len--)], [n] iterations left; the lengths are signed. *)
Fixpoint skip_names (n : nat) (end_ : Z) : dec S unit :=
  match n with
  | O => dret tt
  | Datatypes.S n =>
      _ ⇐ skip 4;
      strlen ⇐ ceph_decode_32_safe buf end_ EINVAL;
      _ ⇐ skip (s32 strlen);
      skip_names n end_
  end.

Definition skip_name_map (end_ : Z) : dec S unit :=
  len ⇐ ceph_decode_32_safe buf end_ EINVAL;
  skip_names (Z.to_nat len) end_.

(** [err < 0] after skip_name_map is not an error of crush_decode: [false]. *)
Definition try_skip_name_map (end_ : Z) : dec S bool := fun s =>
  match skip_name_map end_ s with
  | (Ret _, s) => (Ret true, s)
  | (Err _, s) => (Ret false, s)
  | (Fault f, s) => (Fault f, s)
  end.

Definition has_room (end_ n : Z) : dec S bool :=
  p ⇐ get_pos; dret (ceph_has_room p end_ n).

(** From "ignore trailing name maps" to the label [done]: the five tunables *)
Definition decode_tunables (end_ : Z) : dec S (Z * Z * Z * Z * Z) :=
  let default := dret (2, 5, 19, 0, 0) in
  ok ⇐ try_skip_name_map end_;
  if negb ok then default else
  ok ⇐ try_skip_name_map end_;
  if negb ok then default else
  ok ⇐ try_skip_name_map end_;
  if negb ok then default else
  ok ⇐ has_room end_ (3 * 4);
  if negb ok then default else
  local ⇐ ceph_decode_32 buf;
  fallback ⇐ ceph_decode_32 buf;
  total ⇐ ceph_decode_32 buf;
  ok ⇐ has_room end_ 4;
  if negb ok then dret (local, fallback, total, 0, 0) else
  once ⇐ ceph_decode_32 buf;
  ok ⇐ has_room end_ 1;
  if negb ok then dret (local, fallback, total, once, 0) else
  vary_r ⇐ ceph_decode_8 buf;
  dret (local, fallback, total, once, vary_r).

(** The whole function; an error carries the value of [err]. *)
Definition crush_decode_map (end_ : Z) : dec S crush_map :=
  _ ⇐ kmalloc_or kmalloc_ok 48 ENOMEM;
  _ ⇐ ceph_decode_need end_ (4 * 4) EINVAL;
  magic ⇐ ceph_decode_32 buf;
  if negb (magic =? CRUSH_MAGIC) then derr EINVAL
  else
    max_buckets ⇐ decode_s32;
    max_rules ⇐ ceph_decode_32 buf;
    max_devices ⇐ decode_s32;
    _ ⇐ kcalloc_or max_buckets 8 ENOMEM;
    _ ⇐ kcalloc_or max_rules 8 ENOMEM;
    '(bs, err) ⇐ decode_buckets (Z.to_nat max_buckets) end_ EINVAL;
    rs ⇐ repeat_dec (Z.to_nat max_rules) (decode_rule end_ err);
    '(local, fallback, total, once, vary_r) ⇐ decode_tunables end_;
    dret (CrushMap bs rs max_buckets max_rules max_devices local fallback total once vary_r).

(** [crush_decode(start, end)]: the returned pointer, [None] for NULL; the
    position of the caller does not move. *)
Definition crush_decode (start end_ : Z) : dec S (option crush_map) := fun s =>
  let back (s' : dst S) := Dst (d_pos s) (d_allocs s') (d_obj s) in
  match crush_decode_map end_ (Dst start (d_allocs s) (d_obj s)) with
  | (Ret c, s') => (Ret (Some c), back s')
  | (Err e, s') => (if e =? 0 then Ret None else Err e, back s')
  | (Fault f, s') => (Fault f, back s')
  end.

End CrushDecode.

(** ** The wire format of a CRUSH map *)
Definition encode_body (body : bucket_body) : list Z :=
  match body with
  | UniformBody w => le_bytes 4 w
  | ListBody iw sw => concat (zip_with (fun a b => le_bytes 4 a ++ le_bytes 4 b) iw sw)
  | TreeBody nn nw => le_bytes 4 nn ++ concat (le_bytes 4 <$> nw)
  | StrawBody iw st => concat (zip_with (fun a b => le_bytes 4 a ++ le_bytes 4 b) iw st)
  | NoBody => []
  end.

Definition encode_s32 (v : Z) : list Z := le_bytes 4 (u32 v).

Definition encode_bucket (p : option crush_bucket) : list Z :=
  match p with
  | None => le_bytes 4 0
  | Some b =>
      le_bytes 4 (b_alg b) ++ encode_s32 (b_id b) ++ le_bytes 2 (b_type b) ++
      le_bytes 1 (b_alg b) ++ le_bytes 1 (b_hash b) ++ le_bytes 4 (b_weight b) ++
      le_bytes 4 (b_size b) ++ concat (encode_s32 <$> b_items b) ++ encode_body (b_body b)
  end.

Definition encode_step (st : crush_rule_step) : list Z :=
  le_bytes 4 (op st) ++ encode_s32 (arg1 st) ++ encode_s32 (arg2 st).

Definition encode_rule (p : option crush_rule) : list Z :=
  match p with
  | None => le_bytes 4 0
  | Some r =>
      let k := rule_mask r in
      le_bytes 4 1 ++ le_bytes 4 (rule_len r) ++
      [ruleset k; mask_type k; min_size k; max_size k] ++ concat (encode_step <$> steps r)
  end.

(** A name map: pairs of an id and a string. *)
Definition encode_name (n : Z * list Z) : list Z :=
  encode_s32 n.1 ++ le_bytes 4 (Z.of_nat (length n.2)) ++ n.2.

Definition encode_name_map (l : list (Z * list Z)) : list Z :=
  le_bytes 4 (Z.of_nat (length l)) ++ concat (encode_name <$> l).

Definition encode_crush (m : crush_map) (types names rule_names : list (Z * list Z)) : list Z :=
  le_bytes 4 CRUSH_MAGIC ++ le_bytes 4 (max_buckets m) ++ le_bytes 4 (max_rules m) ++
  encode_s32 (max_devices m) ++
  concat (encode_bucket <$> buckets m) ++ concat (encode_rule <$> rules m) ++
  encode_name_map types ++ encode_name_map names ++ encode_name_map rule_names ++
  le_bytes 4 (choose_local_tries m) ++ le_bytes 4 (choose_local_fallback_tries m) ++
  le_bytes 4 (choose_total_tries m) ++ le_bytes 4 (chooseleaf_descend_once m) ++
  le_bytes 1 (chooseleaf_vary_r m).

(** The values the format can carry. *)
Definition is_u32 (v : Z) : Prop := 0 <= v < 2 ^ 32.
Definition is_s32 (v : Z) : Prop := - 2 ^ 31 <= v < 2 ^ 31.

Definition body_wire (b : crush_bucket) : Prop :=
  match b_body b with
  | UniformBody w => b_alg b = CRUSH_BUCKET_UNIFORM /\ is_u32 w
  | ListBody iw sw => b_alg b = CRUSH_BUCKET_LIST /\ Forall is_u32 iw /\ Forall is_u32 sw /\
      Z.of_nat (length iw) = b_size b /\ length sw = length iw
  | TreeBody nn nw => b_alg b = CRUSH_BUCKET_TREE /\ 0 <= nn < 256 /\ Forall is_u32 nw /\
      Z.of_nat (length nw) = nn
  | StrawBody iw st => b_alg b = CRUSH_BUCKET_STRAW /\ Forall is_u32 iw /\ Forall is_u32 st /\
      Z.of_nat (length iw) = b_size b /\ length st = length iw
  | NoBody => False
  end.

(** A bucket as it is when it was just decoded: its permutation cache is
    empty.  [follow] is what stands behind its items: the code asks for room
    for [1 + size] words after a uniform bucket's items, although one word
    follows. *)
Record bucket_wire (b : crush_bucket) : Prop := {
  bw_id : is_s32 (b_id b);
  bw_type : 0 <= b_type b < 2 ^ 16;
  bw_hash : 0 <= b_hash b < 2 ^ 8;
  bw_weight : is_u32 (b_weight b);
  bw_size : 0 <= b_size b < 2 ^ 31 /\ Z.of_nat (length (b_items b)) = b_size b;
  bw_items : Forall is_s32 (b_items b);
  bw_cache : b_perm_x b = 0 /\ b_perm_n b = 0 /\ b_perm b = repeat 0 (Z.to_nat (b_size b));
  bw_body : body_wire b }.

Definition step_wire (st : crush_rule_step) : Prop :=
  is_u32 (op st) /\ is_s32 (arg1 st) /\ is_s32 (arg2 st).

Definition rule_wire (r : crush_rule) : Prop :=
  0 <= rule_len r /\ rule_len r * 3 < 2 ^ 32 /\ Z.of_nat (length (steps r)) = rule_len r /\
  Forall step_wire (steps r).

Definition name_wire (n : Z * list Z) : Prop := Z.of_nat (length n.2) < 2 ^ 31.
Definition names_wire (l : list (Z * list Z)) : Prop :=
  Forall name_wire l /\ Z.of_nat (length l) < 2 ^ 32.

Section Roundtrip.
Context {S : Type} (buf : list Z) (end_ slack : Z) (kmalloc_ok : nat -> Z -> bool).
Hypothesis Hslack : 0 <= slack.
Hypothesis Halloc : forall n size, kmalloc_ok n size = true.
Local Abbreviation decodes := (decodes (S := S) buf end_ slack).

Lemma decodes_kcalloc n size err :
  0 <= n < 2 ^ 32 -> 0 < size < 2 ^ 32 -> decodes (kcalloc_or kmalloc_ok n size err) [] tt.
Proof.
  intros Hn Hs. unfold kcalloc_or. rewrite u64_small by lia.
  rewrite (proj2 (Z.ltb_ge _ _)); [by apply decodes_kmalloc|].
  apply Z.div_le_lower_bound; nia.
Qed.

Lemma s32_u32 v : is_s32 v -> s32 (u32 v) = v.
Proof.
  unfold is_s32, s32, u32. intros Hv. rewrite <- (Zplus_mod_idemp_l (v mod _)), Zmod_mod, Zplus_mod_idemp_l.
  rewrite Z.mod_small; lia.
Qed.

Lemma decodes_s32 v : is_s32 v -> decodes (decode_s32 buf) (encode_s32 v) v.
Proof.
  intros Hv. unfold decode_s32. eapply decodes_last; [apply decodes_32, u32_range|].
  rewrite s32_u32 by done. apply decodes_ret.
Qed.

Lemma decodes_store cap off : off <= cap -> decodes (store_in cap off) [] tt.
Proof. intros. unfold store_in. rewrite (proj2 (Z.leb_le _ _)) by done. apply decodes_ret. Qed.

Lemma length_concat_const {A} (f : A -> list Z) n (l : list A) :
  (forall a, length (f a) = n) -> length (concat (f <$> l)) = (n * length l)%nat.
Proof.
  intros Hf. induction l as [|a l IH]; cbn [fmap list_fmap concat length]; [lia|].
  rewrite length_app, Hf, IH. lia.
Qed.

Lemma decodes_u32s l n :
  n = length l -> Forall is_u32 l ->
  decodes (repeat_dec n (ceph_decode_32 buf)) (concat (le_bytes 4 <$> l)) l.
Proof.
  intros -> Hl. apply decodes_repeat. eapply Forall_impl; [done|]. intros v Hv. by apply decodes_32.
Qed.

Definition encode_pair (p : Z * Z) : list Z := le_bytes 4 p.1 ++ le_bytes 4 p.2.

Lemma encode_pairs (l1 l2 : list Z) :
  concat (zip_with (fun a b => le_bytes 4 a ++ le_bytes 4 b) l1 l2) = concat (encode_pair <$> zip l1 l2).
Proof. revert l2. induction l1 as [|a l1 IH]; intros [|b l2]; cbn; [done..|]. by rewrite IH. Qed.

(** The two arrays of a list or straw bucket. *)
Lemma decodes_pairs {B} (con : list Z -> list Z -> B) (l1 l2 : list Z) size cap err :
  Z.of_nat (length l1) = size -> length l2 = length l1 -> size < 2 ^ 31 -> 56 <= cap ->
  Forall is_u32 l1 -> Forall is_u32 l2 ->
  decodes (
    _ ⇐ store_in cap 48;
    _ ⇐ kcalloc_or kmalloc_ok size 4 ENOMEM;
    _ ⇐ store_in cap 56;
    _ ⇐ kcalloc_or kmalloc_ok size 4 ENOMEM;
    _ ⇐ ceph_decode_need end_ (u32 (2 * size) * 4) err;
    l ⇐ repeat_dec (Z.to_nat size) (decode_pair buf);
    dret (con l.*1 l.*2))
    (concat (zip_with (fun a b => le_bytes 4 a ++ le_bytes 4 b) l1 l2)) (con l1 l2).
Proof.
  intros Hl1 Hl2 Hs Hcap H1 H2. rewrite encode_pairs.
  do 2 (eapply decodes_bind_nil; [apply decodes_store; lia|];
        eapply decodes_bind_nil; [apply decodes_kcalloc; lia|]).
  assert (Hzip : length (zip l1 l2) = length l1) by (rewrite length_zip_with; lia).
  apply decodes_need; [done| |].
  { rewrite (length_concat_const encode_pair 8), Hzip.
    - rewrite u32_small by lia. lia.
    - intros p. unfold encode_pair. by rewrite length_app, !length_le_bytes. }
  replace (Z.to_nat size) with (length (zip l1 l2)) by lia.
  eapply decodes_last; [apply decodes_repeat with (enc := encode_pair)|].
  - apply Forall_lookup. intros i [a b] Hi. apply lookup_zip_with_Some in Hi as (a' & b' & [= -> ->] & Ha & Hb).
    unfold decode_pair, encode_pair. cbn [fst snd].
    eapply decodes_bind; [apply decodes_32; by eapply Forall_lookup_1 in H1|].
    eapply decodes_last; [apply decodes_32; by eapply Forall_lookup_1 in H2|apply decodes_ret].
  - cbn beta. rewrite fst_zip, snd_zip by lia. apply decodes_ret.
Qed.

Lemma decodes_body b err cap :
  bucket_wire b -> sizeof_bucket (b_alg b) = Some cap ->
  (b_alg b = CRUSH_BUCKET_UNIFORM -> b_size b * 4 <= slack) ->
  decodes (decode_body buf kmalloc_ok end_ cap (b_alg b) (b_alg b) (b_size b) err)
    (encode_body (b_body b)) (b_body b, 0).
Proof.
  intros Hb Hcap Hun. pose proof (bw_body _ Hb) as Hbody. pose proof (bw_size _ Hb) as [Hsz _].
  unfold body_wire in Hbody. unfold decode_body.
  destruct (b_body b) as [w|iw sw|nn nw|iw st|]; [destruct Hbody as [Ha Hw]| | | |done].
  - rewrite Ha in *. cbn [Z.eqb CRUSH_BUCKET_UNIFORM Pos.eqb]. eapply decodes_last; [|apply decodes_ret].
    unfold crush_decode_uniform_bucket. apply decodes_need; [done| |].
    + rewrite u32_small by lia. cbn [encode_body]. rewrite length_le_bytes. specialize (Hun eq_refl). lia.
    + eapply decodes_last; [by apply decodes_32|apply decodes_ret].
  - destruct Hbody as (Ha & H1 & H2 & H3 & H4). rewrite Ha in *. injection Hcap as <-.
    cbn [Z.eqb CRUSH_BUCKET_UNIFORM CRUSH_BUCKET_LIST Pos.eqb].
    eapply decodes_last; [|apply decodes_ret]. apply (decodes_pairs ListBody); (done || lia).
  - destruct Hbody as (Ha & H1 & H2 & H3). rewrite Ha in *. injection Hcap as <-.
    cbn [Z.eqb CRUSH_BUCKET_UNIFORM CRUSH_BUCKET_LIST CRUSH_BUCKET_TREE Pos.eqb].
    eapply decodes_last; [|apply decodes_ret]. unfold crush_decode_tree_bucket. cbn [encode_body].
    eapply decodes_bind; [apply decodes_32_safe; [done|lia]|]. cbn beta zeta. rewrite u8_small by lia.
    eapply decodes_bind_nil; [apply decodes_store; lia|].
    eapply decodes_bind_nil; [apply decodes_kcalloc; lia|]. apply decodes_need; [done| |].
    + rewrite (length_concat_const (le_bytes 4) 4) by apply length_le_bytes. lia.
    + eapply decodes_last; [apply decodes_u32s; [lia|done]|apply decodes_ret].
  - destruct Hbody as (Ha & H1 & H2 & H3 & H4). rewrite Ha in *. injection Hcap as <-.
    cbn [Z.eqb CRUSH_BUCKET_UNIFORM CRUSH_BUCKET_LIST CRUSH_BUCKET_TREE CRUSH_BUCKET_STRAW Pos.eqb].
    eapply decodes_last; [|apply decodes_ret]. apply (decodes_pairs StrawBody); (done || lia).
Qed.


Lemma bucket_wire_alg b :
  bucket_wire b -> 0 < b_alg b < 256 /\ exists cap, sizeof_bucket (b_alg b) = Some cap.
Proof.
  intros Hb. pose proof (bw_body _ Hb) as H. unfold body_wire in H.
  destruct (b_body b); [..|done]; destruct H as [-> _]; (split; [done|]); by eexists.
Qed.

(** What the bounds check of a uniform bucket needs to be there. *)
Definition uniform_room (p : option crush_bucket) : Prop :=
  forall b, p = Some b -> b_alg b = CRUSH_BUCKET_UNIFORM -> b_size b * 4 <= slack.

Definition opt_wire {A} (P : A -> Prop) (p : option A) : Prop :=
  match p with Some a => P a | None => True end.

(** [err] after a bucket: the decoders of the four types clear it. *)
Definition err_after (p : option crush_bucket) (err : Z) : Z :=
  match p with Some _ => 0 | None => err end.

Lemma decodes_bucket p err :
  opt_wire bucket_wire p -> uniform_room p ->
  decodes (decode_bucket buf kmalloc_ok end_ err) (encode_bucket p) (p, err_after p err).
Proof.
  intros Hp Hun. unfold decode_bucket. destruct p as [b|]; cbn [encode_bucket opt_wire err_after] in *.
  2:{ eapply decodes_last; [apply decodes_32_safe; [done|lia]|]. apply decodes_ret. }
  destruct (bucket_wire_alg b Hp) as (Halg & cap & Hcap).
  destruct (bw_size _ Hp) as [Hsz Hlen]. destruct (bw_cache _ Hp) as (Hpx & Hpn & Hpp).
  eapply decodes_bind; [apply decodes_32_safe; [done|lia]|].
  rewrite (proj2 (Z.eqb_neq _ 0)), Hcap by lia.
  eapply decodes_bind_nil; [by apply decodes_kmalloc|]. apply decodes_need; [done| |].
  { unfold encode_s32. rewrite !length_app, !length_le_bytes. lia. }
  eapply decodes_bind; [apply decodes_s32, Hp|].
  eapply decodes_bind; [apply decodes_16, Hp|].
  eapply decodes_bind; [apply decodes_8; lia|].
  eapply decodes_bind; [apply decodes_8, Hp|].
  eapply decodes_bind; [apply decodes_32, Hp|].
  eapply decodes_bind; [apply decodes_32; lia|].
  do 2 (eapply decodes_bind_nil; [apply decodes_kcalloc; lia|]).
  apply decodes_need; [done| |].
  { rewrite length_app, (length_concat_const encode_s32 4) by (intros; apply length_le_bytes). lia. }
  eapply decodes_bind.
  { replace (Z.to_nat (b_size b)) with (length (b_items b)) by lia.
    apply decodes_repeat. eapply Forall_impl; [apply Hp|]. apply decodes_s32. }
  eapply decodes_last; [apply decodes_body; [done|done|]|].
  { by apply Hun. }
  cbn beta iota. rewrite <- Hpp.
  replace (Bucket _ _ _ _ _ _ _ _ _ _ _) with b; [apply decodes_ret|].
  destruct b; cbn in *; congruence.
Qed.

Definition err_after_all (l : list (option crush_bucket)) (err : Z) : Z :=
  foldl (fun err p => err_after p err) err l.

Lemma decodes_buckets l err :
  Forall (opt_wire bucket_wire) l -> Forall uniform_room l ->
  decodes (decode_buckets buf kmalloc_ok (length l) end_ err) (concat (encode_bucket <$> l))
    (l, err_after_all l err).
Proof.
  intros Hl. revert err. induction Hl as [|p l Hp _ IH]; intros err Hun; [apply decodes_ret|].
  inversion Hun; subst. cbn [length decode_buckets fmap list_fmap concat].
  eapply decodes_bind; [by apply decodes_bucket|]. cbn beta iota.
  eapply decodes_last; [by apply IH|]. apply decodes_ret.
Qed.

Lemma decodes_step st : step_wire st -> decodes (decode_step buf) (encode_step st) st.
Proof.
  intros (H1 & H2 & H3). unfold decode_step, encode_step.
  eapply decodes_bind; [by apply decodes_32|]. eapply decodes_bind; [by apply decodes_s32|].
  eapply decodes_last; [by apply decodes_s32|]. destruct st. apply decodes_ret.
Qed.

Lemma decodes_rule p err :
  opt_wire rule_wire p -> decodes (decode_rule buf kmalloc_ok end_ err) (encode_rule p) p.
Proof.
  intros Hp. unfold decode_rule. destruct p as [r|]; cbn [encode_rule opt_wire] in *.
  2:{ eapply decodes_last; [apply decodes_32_safe; [done|lia]|]. apply decodes_ret. }
  destruct Hp as (H1 & H2 & H3 & H4).
  eapply decodes_bind; [apply decodes_32_safe; [done|lia]|]. change (1 =? 0) with false. cbn iota.
  eapply decodes_bind; [apply decodes_32_safe; [done|lia]|].
  eapply decodes_bind_nil; [by apply decodes_kmalloc|].
  eapply decodes_bind; [by apply decodes_copy_safe|]. apply decodes_need; [done| |].
  { rewrite (length_concat_const encode_step 12).
    - rewrite u32_small by lia. lia.
    - intros st. unfold encode_step, encode_s32. by rewrite !length_app, !length_le_bytes. }
  eapply decodes_last.
  { replace (Z.to_nat (rule_len r)) with (length (steps r)) by lia.
    apply decodes_repeat. eapply Forall_impl; [done|]. apply decodes_step. }
  destruct r as [? [] ?]. apply decodes_ret.
Qed.

Lemma decodes_skip d n : n = Z.of_nat (length d) -> decodes (skip n) d tt.
Proof. intros -> s _ _. exists 0%nat. unfold skip. by rewrite Nat.add_0_r. Qed.

Lemma decodes_names l :
  Forall name_wire l -> decodes (skip_names buf (length l) end_) (concat (encode_name <$> l)) tt.
Proof.
  induction 1 as [|[id str] l Hn _ IH]; [apply decodes_ret|].
  cbn [length skip_names fmap list_fmap concat]. unfold encode_name at 1. unfold name_wire in Hn. cbn [fst snd] in *.
  rewrite <- !app_assoc.
  eapply decodes_bind; [apply decodes_skip; unfold encode_s32; by rewrite length_le_bytes|].
  eapply decodes_bind; [apply decodes_32_safe; [done|lia]|].
  eapply decodes_bind; [apply decodes_skip; rewrite s32_small; lia|]. done.
Qed.

Lemma decodes_try_name_map l :
  names_wire l -> decodes (try_skip_name_map buf end_) (encode_name_map l) true.
Proof.
  intros [Hl Hn]. assert (H : decodes (skip_name_map buf end_) (encode_name_map l) tt).
  { unfold skip_name_map. eapply decodes_bind; [apply decodes_32_safe; [done|lia]|].
    rewrite Nat2Z.id. by apply decodes_names. }
  intros s H1 H2. destruct (H s H1 H2) as [k Hk]. exists k. unfold try_skip_name_map. by rewrite Hk.
Qed.

Lemma decodes_has_room {B} (k : bool -> dec S B) n d b :
  n <= Z.of_nat (length d) -> decodes (k true) d b -> decodes (dbind (has_room end_ n) k) d b.
Proof.
  intros Hn Hk s H1 H2. rewrite (dbind_Ret _ _ s true s); [by apply Hk|].
  unfold has_room, dbind, get_pos, dret, ceph_has_room. by rewrite !(proj2 (Z.leb_le _ _)) by lia.
Qed.

Lemma decodes_tunables l1 l2 l3 local fallback total once vary_r :
  names_wire l1 -> names_wire l2 -> names_wire l3 ->
  is_u32 local -> is_u32 fallback -> is_u32 total -> is_u32 once -> 0 <= vary_r < 2 ^ 8 ->
  decodes (decode_tunables buf end_)
    (encode_name_map l1 ++ encode_name_map l2 ++ encode_name_map l3 ++
     le_bytes 4 local ++ le_bytes 4 fallback ++ le_bytes 4 total ++ le_bytes 4 once ++ le_bytes 1 vary_r)
    (local, fallback, total, once, vary_r).
Proof.
  intros. unfold decode_tunables.
  do 3 (eapply decodes_bind; [by apply decodes_try_name_map|]; cbn [negb]).
  apply decodes_has_room; [rewrite !length_app, !length_le_bytes; lia|]. cbn [negb].
  do 3 (eapply decodes_bind; [by apply decodes_32|]).
  apply decodes_has_room; [rewrite !length_app, !length_le_bytes; lia|]. cbn [negb].
  eapply decodes_bind; [by apply decodes_32|].
  apply decodes_has_room; [rewrite !length_le_bytes; lia|]. cbn [negb].
  eapply decodes_last; [by apply decodes_8|]. apply decodes_ret.
Qed.

(** The maps the format carries. *)
Record map_wire (m : crush_map) : Prop := {
  mw_max_buckets : max_buckets m = Z.of_nat (length (buckets m)) /\ max_buckets m < 2 ^ 31;
  mw_max_rules : max_rules m = Z.of_nat (length (rules m)) /\ max_rules m < 2 ^ 32;
  mw_max_devices : is_s32 (max_devices m);
  mw_buckets : Forall (opt_wire bucket_wire) (buckets m);
  mw_rules : Forall (opt_wire rule_wire) (rules m);
  mw_tries : is_u32 (choose_local_tries m) /\ is_u32 (choose_local_fallback_tries m) /\
    is_u32 (choose_total_tries m) /\ is_u32 (chooseleaf_descend_once m);
  mw_vary : 0 <= chooseleaf_vary_r m < 2 ^ 8 }.

Lemma decodes_crush_map m l1 l2 l3 :
  map_wire m -> Forall uniform_room (buckets m) -> names_wire l1 -> names_wire l2 -> names_wire l3 ->
  decodes (crush_decode_map buf kmalloc_ok end_) (encode_crush m l1 l2 l3) m.
Proof.
  intros [[Hb Hb'] [Hr Hr'] Hd Hbs Hrs Ht Hv] Hun H1 H2 H3. unfold crush_decode_map, encode_crush.
  eapply decodes_bind_nil; [by apply decodes_kmalloc|]. apply decodes_need; [done| |].
  { unfold encode_s32. rewrite !length_app, !length_le_bytes. lia. }
  eapply decodes_bind; [apply decodes_32; done|]. change (negb _) with false. cbn iota.
  eapply decodes_bind.
  { replace (le_bytes 4 (max_buckets m)) with (encode_s32 (max_buckets m))
      by (unfold encode_s32; rewrite u32_small; [done|lia]).
    apply decodes_s32. unfold is_s32. lia. }
  eapply decodes_bind; [apply decodes_32; lia|].
  eapply decodes_bind; [by apply decodes_s32|].
  do 2 (eapply decodes_bind_nil; [apply decodes_kcalloc; lia|]).
  eapply decodes_bind.
  { replace (Z.to_nat (max_buckets m)) with (length (buckets m)) by lia. by apply decodes_buckets. }
  cbn beta iota. eapply decodes_bind.
  { replace (Z.to_nat (max_rules m)) with (length (rules m)) by lia.
    apply decodes_repeat. eapply Forall_impl; [done|]. intros p Hp. by apply decodes_rule. }
  eapply decodes_last; [apply decodes_tunables; (done || apply Ht)|].
  destruct m; cbn in *; subst. apply decodes_ret.
Qed.

End Roundtrip.

(** ** Bounds: a decoder that never reads past [end] *)
Section Safety.
Context {S : Type} (buf : list Z) (end_ : Z) (kmalloc_ok : nat -> Z -> bool).
Hypothesis Hbuf : end_ <= Z.of_nat (length buf).
Hypothesis Hbytes : Forall byte buf.

(** From a position with room for [n] bytes the decoder does not fault; when it
    returns [a] there is room for [r] bytes after the new position. *)
Definition safe {A} (n : Z) (m : dec S A) (post : A -> Z -> Prop) : Prop :=
  forall s, 0 <= d_pos s -> d_pos s + n <= end_ ->
    match m s with
    | (Ret a, s') => exists r, post a r /\ 0 <= d_pos s' /\ d_pos s' + r <= end_
    | (Err _, _) => True
    | (Fault _, _) => False
    end.

Lemma safe_ret {A} n (a : A) (post : A -> Z -> Prop) : post a n -> safe n (dret a) post.
Proof. intros H s Hp Hr. by exists n. Qed.

Lemma safe_err {A} n e (post : A -> Z -> Prop) : safe n (derr e) post.
Proof. by intros s Hp Hr. Qed.

Lemma safe_bind {A B} n (m : dec S A) (k : A -> dec S B) mid post :
  safe n m mid -> (forall a r, mid a r -> safe r (k a) post) -> safe n (dbind m k) post.
Proof.
  intros Hm Hk s Hp Hr. specialize (Hm s Hp Hr). unfold dbind.
  destruct (m s) as [[a|e|f] s']; [|done|done]. destruct Hm as (r & Hmid & Hp' & Hr'). by eapply Hk.
Qed.

Lemma safe_weaken {A} n n' (m : dec S A) (post post' : A -> Z -> Prop) :
  n <= n' -> (forall a r, post a r -> post' a r) -> safe n m post -> safe n' m post'.
Proof.
  intros Hn Hpost Hm s Hp Hr. specialize (Hm s Hp ltac:(lia)).
  destruct (m s) as [[a|e|f] s']; [|done|done]. destruct Hm as (r & ? & ?). eauto.
Qed.

Lemma safe_copy n k :
  0 <= k <= n ->
  safe n (ceph_decode_copy buf k)
    (fun l r => r = n - k /\ Z.of_nat (length l) = k /\ Forall byte l).
Proof.
  intros Hk s Hp Hr. unfold ceph_decode_copy, dbind, get_pos, dlift, skip, dret.
  rewrite read_bytes_Ret by lia. exists (n - k). cbn. rewrite Z2Nat.id by lia. split; [|lia].
  split; [done|]. split; [apply length_slice; lia|]. by apply slice_byte.
Qed.

Lemma safe_le n k :
  0 <= k <= n ->
  safe n (l ⇐ ceph_decode_copy buf k; dret (le_val l)) (fun v r => r = n - k /\ 0 <= v < 256 ^ k).
Proof.
  intros Hk. eapply safe_bind; [by apply safe_copy|]. intros l r (-> & Hl & Hb).
  apply safe_ret. split; [done|]. rewrite <- Hl. by apply le_val_range.
Qed.

Lemma safe_32 n : 4 <= n -> safe n (ceph_decode_32 buf) (fun v r => r = n - 4 /\ is_u32 v).
Proof. intros. apply (safe_le n 4). lia. Qed.

Lemma safe_s32 n : 4 <= n -> safe n (decode_s32 buf) (fun v r => r = n - 4).
Proof. intros. eapply safe_bind; [by apply safe_32|]. intros v r [-> _]. by apply safe_ret. Qed.

Lemma safe_need n k err : safe n (ceph_decode_need end_ k err) (fun _ r => r = Z.max n k).
Proof.
  intros s Hp Hr. unfold ceph_decode_need, dbind, get_pos, ceph_has_room, dret, derr.
  destruct (Z.leb_spec (d_pos s) end_); [|done]. destruct (Z.leb_spec k (end_ - d_pos s)); [|done].
  cbn. exists (Z.max n k). split; [done|]. lia.
Qed.

Lemma safe_32_safe n err :
  0 <= n -> safe n (ceph_decode_32_safe buf end_ err) (fun v r => 0 <= r /\ is_u32 v).
Proof.
  intros. eapply safe_bind; [apply safe_need|]. intros ? ? ->.
  eapply safe_weaken; [done| |apply safe_32; lia]. cbn. intros ? ? [-> ?]. split; [lia|done].
Qed.

Lemma safe_kmalloc n size err :
  safe n (kmalloc_or kmalloc_ok size err)
    (fun _ r => r = n /\ (size = 0 \/ exists k, kmalloc_ok k size = true)).
Proof.
  intros s Hp Hr. unfold kmalloc_or, kmalloc, dbind, dret, derr.
  destruct (Z.eqb_spec size 0); cbn; [exists n; split; [by split; [|left]|done]|].
  destruct (kmalloc_ok (d_allocs s) size) eqn:E; [|done].
  exists n. split; [|done]. split; [done|right; by eexists].
Qed.

Lemma safe_repeat {A} c k (m : dec S A) :
  0 <= c -> (forall n, c <= n -> safe n m (fun _ r => r = n - c)) ->
  forall n, c * Z.of_nat k <= n -> safe n (repeat_dec k m) (fun _ r => r = n - c * Z.of_nat k).
Proof.
  intros Hc Hm. induction k as [|k IH]; intros n Hn; cbn [repeat_dec].
  { apply safe_ret. lia. }
  eapply safe_bind; [apply Hm; lia|]. intros a r ->.
  eapply safe_bind; [apply IH; lia|]. intros l r ->. apply safe_ret. lia.
Qed.

Lemma safe_step n : 12 <= n -> safe n (decode_step buf) (fun _ r => r = n - 12).
Proof.
  intros. eapply safe_bind; [apply safe_32; lia|]. intros ? ? [-> _].
  eapply safe_bind; [apply safe_s32; lia|]. intros ? ? ->.
  eapply safe_bind; [apply safe_s32; lia|]. intros ? ? ->. apply safe_ret. lia.
Qed.

(** kmalloc serves no request of 2^32 bytes or more (KMALLOC_MAX_SIZE is
    smaller). *)
Hypothesis Hkmax : forall k size, kmalloc_ok k size = true -> size < 2 ^ 32.

Lemma safe_rule n err : 0 <= n -> safe n (decode_rule buf kmalloc_ok end_ err) (fun _ r => 0 <= r).
Proof.
  intros Hn. unfold decode_rule. eapply safe_bind; [by apply safe_32_safe|]. intros yes r1 [Hr1 _].
  destruct (yes =? 0); [by apply safe_ret|].
  eapply safe_bind; [by apply safe_32_safe|]. intros len r2 [Hr2 Hlen]. unfold is_u32 in Hlen.
  eapply safe_bind; [apply safe_kmalloc|]. intros [] r3 [-> Hk].
  assert (Hbound : len * 12 < 2 ^ 32) by (destruct Hk as [?|[k Hk]]; [lia|apply Hkmax in Hk; lia]).
  eapply safe_bind; [eapply safe_bind; [apply safe_need|]; intros ? ? ->; apply safe_copy; lia|].
  intros mask r4 (-> & Hmask & _).
  eapply safe_bind; [apply safe_need|]. intros ? ? ->. rewrite u32_small by lia.
  eapply safe_bind; [apply (safe_repeat 12); [lia|apply safe_step|lia]|]. intros steps r5 ->.
  do 5 (destruct mask as [|? mask]; cbn in Hmask; try lia). apply safe_ret. lia.
Qed.

Lemma safe_rules n err k :
  0 <= n -> safe n (repeat_dec k (decode_rule buf kmalloc_ok end_ err)) (fun _ r => 0 <= r).
Proof.
  revert n. induction k as [|k IH]; intros n Hn; cbn [repeat_dec]; [by apply safe_ret|].
  eapply safe_bind; [by apply safe_rule|]. intros ? r Hr.
  eapply safe_bind; [by apply IH|]. intros ? r' Hr'. by apply safe_ret.
Qed.

Lemma safe_kcalloc n k err :
  0 <= k < 2 ^ 32 -> safe n (kcalloc_or kmalloc_ok k 4 err) (fun _ r => r = n /\ k * 4 < 2 ^ 32).
Proof.
  intros Hk. unfold kcalloc_or. destruct (_ <? _); [apply safe_err|].
  eapply safe_weaken; [done| |apply safe_kmalloc]. cbn. rewrite u64_small by lia.
  intros _ r [-> [?|[j Hj]]]; (split; [done|]); [lia|]. by apply Hkmax in Hj.
Qed.

Lemma safe_pairs {B} (con : list Z -> list Z -> B) n cap size err :
  0 <= n -> 56 <= cap -> 0 <= size < 2 ^ 32 ->
  safe n (
    _ ⇐ store_in cap 48;
    _ ⇐ kcalloc_or kmalloc_ok size 4 ENOMEM;
    _ ⇐ store_in cap 56;
    _ ⇐ kcalloc_or kmalloc_ok size 4 ENOMEM;
    _ ⇐ ceph_decode_need end_ (u32 (2 * size) * 4) err;
    l ⇐ repeat_dec (Z.to_nat size) (decode_pair buf);
    dret (con l.*1 l.*2)) (fun _ r => 0 <= r).
Proof.
  intros Hn Hcap Hs.
  assert (Hst : forall off k, off <= 56 -> safe k (store_in (S := S) cap off) (fun _ r => r = k)).
  { intros. unfold store_in. rewrite (proj2 (Z.leb_le _ _)) by lia. by apply safe_ret. }
  eapply safe_bind; [apply Hst; lia|]. intros ? ? ->.
  eapply safe_bind; [by apply safe_kcalloc|]. intros ? ? [-> Hb].
  eapply safe_bind; [apply Hst; lia|]. intros ? ? ->.
  eapply safe_bind; [by apply safe_kcalloc|]. intros ? ? [-> _].
  eapply safe_bind; [apply safe_need|]. intros ? ? ->. rewrite u32_small by lia.
  eapply safe_bind.
  - apply (safe_repeat 8); [lia| |lia]. intros m Hm. unfold decode_pair.
    eapply safe_bind; [apply safe_32; lia|]. intros ? ? [-> _].
    eapply safe_bind; [apply safe_32; lia|]. intros ? ? [-> _]. apply safe_ret. lia.
  - intros l r ->. apply safe_ret. lia.
Qed.

Lemma safe_body n cap alg size err :
  0 <= n -> sizeof_bucket alg = Some cap -> 0 <= size < 2 ^ 32 - 1 ->
  safe n (decode_body buf kmalloc_ok end_ cap alg alg size err) (fun _ r => 0 <= r).
Proof.
  intros Hn Hcap Hs. unfold decode_body, sizeof_bucket in *.
  destruct (alg =? CRUSH_BUCKET_UNIFORM).
  { eapply safe_bind; [|intros ? r Hr; apply safe_ret; exact Hr]. unfold crush_decode_uniform_bucket.
    eapply safe_bind; [apply safe_need|]. intros ? ? ->. rewrite u32_small by lia.
    eapply safe_bind; [apply safe_32; lia|]. intros ? ? [-> _]. apply safe_ret. lia. }
  destruct (alg =? CRUSH_BUCKET_LIST).
  { eapply safe_bind; [|intros ? r Hr; apply safe_ret; exact Hr].
    apply (safe_pairs ListBody); [done|injection Hcap as <-; lia|lia]. }
  destruct (alg =? CRUSH_BUCKET_TREE).
  { injection Hcap as <-. eapply safe_bind; [|intros ? r Hr; apply safe_ret; exact Hr].
    unfold crush_decode_tree_bucket.
    eapply safe_bind; [by apply safe_32_safe|]. intros v r [Hr _]. pose proof (u8_range v).
    eapply safe_bind; [by apply safe_ret with (post := fun _ q => q = r)|]. intros ? ? ->.
    eapply safe_bind; [apply safe_kcalloc; lia|]. intros ? ? [-> _].
    eapply safe_bind; [apply safe_need|]. intros ? ? ->.
    eapply safe_bind; [apply (safe_repeat 4); [lia| |lia]|].
    - intros k Hk. eapply (safe_weaken k k); [done| |by apply safe_32]. by intros ? ? [-> _].
    - intros ? ? ->. apply safe_ret. lia. }
  destruct (alg =? CRUSH_BUCKET_STRAW); [|by apply safe_ret].
  eapply safe_bind; [|intros ? r Hr; apply safe_ret; exact Hr].
  apply (safe_pairs StrawBody); [done|injection Hcap as <-; lia|lia].
Qed.

(** [safe] from a known position, for the header of a bucket. *)
Definition safe_at {A} (p n : Z) (m : dec S A) (post : A -> Z -> Z -> Prop) : Prop :=
  forall s, d_pos s = p -> 0 <= p -> p + n <= end_ ->
    match m s with
    | (Ret a, s') => exists r, post a (d_pos s') r /\ 0 <= d_pos s' /\ d_pos s' + r <= end_
    | (Err _, _) => True
    | (Fault _, _) => False
    end.

Lemma safe_at_bind {A B} p n (m : dec S A) (k : A -> dec S B) mid post :
  safe_at p n m mid -> (forall a p' r, mid a p' r -> safe_at p' r (k a) post) ->
  safe_at p n (dbind m k) post.
Proof.
  intros Hm Hk s Hs Hp Hr. specialize (Hm s Hs Hp Hr). unfold dbind.
  destruct (m s) as [[a|e|f] s']; [|done|done]. destruct Hm as (r & Hmid & Hp' & Hr'). by eapply Hk.
Qed.

Lemma safe_at_safe {A} p n (m : dec S A) post :
  safe n m post -> safe_at p n m (fun a _ r => post a r).
Proof. intros Hm s <- Hp Hr. by apply Hm. Qed.

Lemma safe_at_le p n k :
  0 <= k <= n ->
  safe_at p n (l ⇐ ceph_decode_copy buf k; dret (le_val l))
    (fun v p' r => p' = p + k /\ r = n - k /\ v = le_val (slice buf p k) /\ 0 <= v < 256 ^ k).
Proof.
  intros Hk s <- Hp Hr. unfold ceph_decode_copy, dbind, get_pos, dlift, skip, dret.
  rewrite read_bytes_Ret by lia. exists (n - k). cbn. rewrite Z2Nat.id by lia. split; [|lia].
  split_and!; try done.
  - apply le_val_range. by apply slice_byte.
  - rewrite <- (length_slice buf (d_pos s) k) at 2 by lia. apply le_val_range. by apply slice_byte.
Qed.

Lemma safe_at_need p n k err :
  safe_at p n (ceph_decode_need end_ k err) (fun _ p' r => p' = p /\ r = Z.max n k).
Proof.
  intros s <- Hp Hr. unfold ceph_decode_need, dbind, get_pos, ceph_has_room, dret, derr.
  destruct (Z.leb_spec (d_pos s) end_); [|done]. destruct (Z.leb_spec k (end_ - d_pos s)); [|done].
  cbn. exists (Z.max n k). split; [done|]. lia.
Qed.

Lemma safe_at_kmalloc p n size err :
  safe_at p n (kmalloc_or kmalloc_ok size err) (fun _ p' r => p' = p /\ r = n).
Proof.
  intros s <- Hp Hr. unfold kmalloc_or, kmalloc, dbind, dret, derr.
  destruct ((size =? 0) || _); [|done]. by exists n.
Qed.

Lemma safe_at_s32 p n :
  4 <= n -> safe_at p n (decode_s32 buf) (fun _ p' r => p' = p + 4 /\ r = n - 4).
Proof.
  intros Hn. eapply safe_at_bind; [apply (safe_at_le _ _ 4); lia|]. intros v p' r (-> & -> & _).
  intros s Hs Hp Hr. exists (n - 4). unfold dret. rewrite Hs. split; [done|lia].
Qed.

Lemma safe_bucket p n err :
  0 <= n -> le_val (slice buf p 4) = le_val (slice buf (p + 10) 1) ->
  safe_at p n (decode_bucket buf kmalloc_ok end_ err) (fun _ _ r => 0 <= r).
Proof.
  intros Hn Halg. unfold decode_bucket.
  eapply safe_at_bind.
  { eapply safe_at_bind; [apply safe_at_need|]. intros ? ? ? [-> ->]. apply (safe_at_le p (Z.max n 4) 4). lia. }
  intros alg ? ? (-> & -> & Ev & _). destruct (alg =? 0).
  { apply safe_at_safe, safe_ret. lia. }
  destruct (sizeof_bucket alg) as [cap|] eqn:Hcap; [|apply (safe_at_safe _ _ _ (fun _ r => 0 <= r)), safe_err].
  eapply safe_at_bind; [apply safe_at_kmalloc|]. intros ? ? ? [-> ->].
  eapply safe_at_bind; [apply safe_at_need|]. intros ? ? ? [-> ->].
  eapply safe_at_bind; [apply safe_at_s32; lia|]. intros id ? ? [-> ->].
  eapply safe_at_bind; [apply (safe_at_le _ _ 2); lia|]. intros type ? ? (-> & -> & _).
  eapply safe_at_bind; [apply (safe_at_le _ _ 1); lia|]. intros balg ? ? (-> & -> & Eb & _).
  assert (balg = alg) as ->.
  { rewrite Eb, Ev, Halg. do 2 f_equal. lia. }
  apply safe_at_safe.
  eapply safe_bind; [apply (safe_le _ 1); lia|]. intros hash ? [-> _].
  eapply safe_bind; [apply safe_32; lia|]. intros weight ? [-> _].
  eapply safe_bind; [apply safe_32; lia|]. intros size ? [-> Hsize]. unfold is_u32 in Hsize.
  eapply safe_bind; [by apply safe_kcalloc|]. intros ? ? [-> Hb].
  eapply safe_bind; [by apply safe_kcalloc|]. intros ? ? [-> _].
  eapply safe_bind; [apply safe_need|]. intros ? ? ->.
  eapply safe_bind; [apply (safe_repeat 4); [lia|apply safe_s32|lia]|]. intros items ? ->.
  eapply safe_bind; [apply safe_body; (done || lia)|]. intros [body e] r Hr. by apply safe_ret.
Qed.

End Safety.

(** ** Properties *)


Definition wire_example : crush_map :=
  CrushMap
    [Some (Bucket (-1) 2 CRUSH_BUCKET_STRAW 0 0x20000 2 [-2; 2] 0 0 [0; 0]
             (StrawBody [0x10000; 0x10000] [0x10000; 0x10000]));
     Some (Bucket (-2) 1 CRUSH_BUCKET_UNIFORM 0 0x20000 2 [0; 1] 0 0 [0; 0] (UniformBody 0x10000));
     None]
    [None; Some (Rule 1 (RuleMask 0 1 1 10) [RuleStep CRUSH_RULE_TAKE (-1) 0])]
    3 2 3 2 5 50 1 0.

Lemma wire_example_ok : map_wire wire_example.
Proof.
  split; try (cbn; unfold is_s32, is_u32; lia).
  - repeat first [apply Forall_cons_2|apply Forall_nil_2]; cbn [opt_wire]; try exact I.
    all: split; unfold body_wire, is_s32, is_u32; cbn;
      repeat first [apply conj|apply Forall_cons_2|apply Forall_nil_2]; try lia; done.
  - apply Forall_cons_2; [done|]. apply Forall_cons_2; [|apply Forall_nil_2].
    split_and!; try (cbn; lia). apply Forall_cons_2; [|apply Forall_nil_2].
    unfold step_wire, is_u32, is_s32. cbn. unfold CRUSH_RULE_TAKE. lia.
Qed.




(** ** Where the decoder goes wrong *)

(** One bucket with no items, then the buffer ends where a second one is due. *)
Definition truncated_crush : list Z :=
  le_bytes 4 CRUSH_MAGIC ++ le_bytes 4 2 ++ le_bytes 4 0 ++ le_bytes 4 1 ++
  encode_bucket (Some (Bucket (-1) 1 CRUSH_BUCKET_UNIFORM 0 0 0 [] 0 0 [] (UniformBody 0))).

(** crush_decode of a map that is cut off after its first bucket: [err] was
    cleared by that bucket's decoder, so that the label [bad] returns
    ERR_PTR(0), which is NULL and not an error pointer. *)
Theorem crush_decode_truncated_returns_null :
  (crush_decode truncated_crush (fun _ _ => true) 0 (Z.of_nat (length truncated_crush)) (Dst 0 0 tt)).1
    = Ret None.
Proof. vm_compute. reflexivity. Qed.

(** The [alg] word says uniform, the header byte says straw. *)
Definition mismatched_crush : list Z :=
  le_bytes 4 CRUSH_MAGIC ++ le_bytes 4 1 ++ le_bytes 4 0 ++ le_bytes 4 1 ++
  le_bytes 4 CRUSH_BUCKET_UNIFORM ++ le_bytes 4 0xffffffff ++ le_bytes 2 1 ++
  le_bytes 1 CRUSH_BUCKET_STRAW ++ le_bytes 1 0 ++ le_bytes 4 0 ++ le_bytes 4 0.


(** A map of one uniform bucket with ten items. *)
Definition uniform_crush : crush_map :=
  CrushMap [Some (Bucket (-1) 1 CRUSH_BUCKET_UNIFORM 0 0xa0000 10 (seqZ 0 10) 0 0 (repeat 0 10)
                    (UniformBody 0x10000))] [] 1 0 10 2 5 50 1 0.

(** crush_decode_uniform_bucket asks for room for [1 + size] words but reads
    one: the complete encoding of a map that ends in a uniform bucket is
    refused as truncated. *)
Theorem crush_decode_uniform_overcheck :
  let data := encode_crush uniform_crush [] [] [] in
  (crush_decode data (fun _ _ => true) 0 (Z.of_nat (length data)) (Dst 0 0 tt)).1 = Err EINVAL.
Proof. vm_compute. reflexivity. Qed.

(** A name map with one entry whose length is -8: back to the entry's start. *)
Definition backwards_names : list Z := le_bytes 4 2 ++ le_bytes 4 0 ++ le_bytes 4 (u32 (-20)).

(** skip_name_map adds the length of a name, a signed int, to the position
    unchecked: a negative one moves it before the start of the buffer, where
    the next length is read. *)
Theorem skip_name_map_reads_before_start :
  (skip_name_map backwards_names (Z.of_nat (length backwards_names)) (Dst 0 0 tt)).1 = Fault OutOfBounds.
Proof. vm_compute. reflexivity. Qed.
