(* ===== verification/RbTree.v ===== *)
(** * Search trees on the kernel's red-black trees

    The client keeps its maps in red-black trees: it does the descents itself
    (compare keys, go left or right, link a node at the leaf reached) and calls
    the kernel's [rb_insert_color] and [rb_erase] to rebalance.  Those two are
    not part of this code: class [RbOps] states what the kernel documents of
    them, and the descents are proved against it.

    [search] and [link] are the two descents the sources repeat for every
    tree; a comparison function gives the sign of [new - old]. *)
From S2P Require Import Prelude.
From stdpp Require Import fin_maps gmap sorting.
#[local] Open Scope Z_scope.
#[local] Open Scope ceph_scope.

Inductive color := Red | Black.

(** struct rb_root: the nodes with their colors and entries. *)
Inductive tree (V : Type) : Type :=
  | Nil
  | Node (c : color) (l : tree V) (v : V) (r : tree V).
Arguments Nil {V}.
Arguments Node {V} _ _ _ _.

Inductive dir := L | R.

(** A node pointer: the path from the root to it. *)
Definition path : Type := list dir.

Fixpoint inorder {V} (t : tree V) : list V :=
  match t with
  | Nil => []
  | Node _ l v r => inorder l ++ v :: inorder r
  end.

(** The entry a pointer denotes. *)
Fixpoint at_path {V} (p : path) (t : tree V) {struct t} : option V :=
  match t, p with
  | Nil, _ => None
  | Node _ l v r, [] => Some v
  | Node _ l v r, L :: p => at_path p l
  | Node _ l v r, R :: p => at_path p r
  end.

(** A store through a node pointer. *)
Fixpoint update_path {V} (p : path) (w : V) (t : tree V) {struct t} : tree V :=
  match t, p with
  | Nil, _ => Nil
  | Node c l v r, [] => Node c l w r
  | Node c l v r, L :: p => Node c (update_path p w l) v r
  | Node c l v r, R :: p => Node c l v (update_path p w r)
  end.

(** The entries before and after a node, in order. *)
Fixpoint before {V} (p : path) (t : tree V) {struct t} : list V :=
  match t, p with
  | Nil, _ => []
  | Node _ l v r, [] => inorder l
  | Node _ l v r, L :: p => before p l
  | Node _ l v r, R :: p => inorder l ++ v :: before p r
  end.

Fixpoint after {V} (p : path) (t : tree V) {struct t} : list V :=
  match t, p with
  | Nil, _ => []
  | Node _ l v r, [] => inorder r
  | Node _ l v r, L :: p => after p l ++ v :: inorder r
  | Node _ l v r, R :: p => after p r
  end.

(** [rb_insert_color] rebalances after a node was linked and [rb_erase]
    unlinks a node; both keep the order of the other nodes. *)
Class RbOps := {
  rb_insert_color : forall {V}, path -> tree V -> tree V;
  rb_erase : forall {V}, path -> tree V -> tree V;
  rb_insert_color_inorder : forall V p (t : tree V), inorder (rb_insert_color p t) = inorder t;
  rb_erase_inorder : forall V p (t : tree V) v,
    at_path p t = Some v -> inorder (rb_erase p t) = before p t ++ after p t }.

(** ** The descents *)
Section Descend.
Context `{RbOps} {V K : Type} (cmp : K -> V -> Z).

(** [while (n) ...]: the node found, if any *)
Fixpoint search (t : tree V) (k : K) (p : path) : option (path * V) :=
  match t with
  | Nil => None
  | Node _ l v r =>
      if cmp k v <? 0 then search l k (p ++ [L])
      else if 0 <? cmp k v then search r k (p ++ [R])
      else Some (p, v)
  end.

(** [while ( *p ) ...] and [rb_link_node]: the tree with the new red leaf and the
    path to it, or [None] for -EEXIST *)
Fixpoint link (t : tree V) (k : K) (new : V) (p : path) : option (tree V * path) :=
  match t with
  | Nil => Some (Node Red Nil new Nil, p)
  | Node c l v r =>
      if cmp k v <? 0 then
        match link l k new (p ++ [L]) with
        | Some (l, p) => Some (Node c l v r, p)
        | None => None
        end
      else if 0 <? cmp k v then
        match link r k new (p ++ [R]) with
        | Some (r, p) => Some (Node c l v r, p)
        | None => None
        end
      else None
  end.

Definition tree_insert (t : tree V) (k : K) (new : V) : outcome (tree V) :=
  match link t k new [] with
  | Some (t, p) => Ret (rb_insert_color p t)
  | None => Err EEXIST
  end.

Definition tree_lookup (t : tree V) (k : K) : option (path * V) := search t k [].

End Descend.

(** [rb_first]: the leftmost node *)
Fixpoint rb_first {V} (t : tree V) (p : path) : option (path * V) :=
  match t with
  | Nil => None
  | Node _ Nil v _ => Some (p, v)
  | Node _ l _ _ => rb_first l (p ++ [L])
  end.

(** ** Order *)
Lemma inorder_path {V} p (t : tree V) v :
  at_path p t = Some v -> inorder t = before p t ++ v :: after p t.
Proof.
  revert p. induction t as [|c l IHl w r IHr]; intros p; [done|].
  destruct p as [|[|] p]; cbn; intros Hp.
  - by injection Hp as ->.
  - rewrite (IHl p Hp), <- app_assoc. done.
  - rewrite (IHr p Hp), <- app_assoc. done.
Qed.

Lemma inorder_update {V} p (t : tree V) v w :
  at_path p t = Some v -> inorder (update_path p w t) = before p t ++ w :: after p t.
Proof.
  revert p. induction t as [|c l IHl u r IHr]; intros p; [done|].
  destruct p as [|[|] p]; cbn; intros Hp; [done| |].
  - rewrite (IHl p Hp), <- app_assoc. done.
  - rewrite (IHr p Hp), <- app_assoc. done.
Qed.

(** Whatever the comparison, a descent returns a node of the tree. *)
Lemma search_at {V K} (cmp : K -> V -> Z) t k p q v :
  search cmp t k p = Some (q, v) -> exists q', q = p ++ q' /\ at_path q' t = Some v.
Proof.
  revert p. induction t as [|c l IHl w r IHr]; intros p; cbn [search]; [done|].
  destruct (cmp k w <? 0); [|destruct (0 <? cmp k w)].
  - intros (q' & -> & Hq)%IHl. exists (L :: q'). by rewrite <- app_assoc.
  - intros (q' & -> & Hq)%IHr. exists (R :: q'). by rewrite <- app_assoc.
  - intros [= <- <-]. exists []. by rewrite app_nil_r.
Qed.

Lemma tree_lookup_at {V K} (cmp : K -> V -> Z) t k p v :
  tree_lookup cmp t k = Some (p, v) -> at_path p t = Some v.
Proof. intros (q & -> & Hq)%search_at. done. Qed.

(** ** Refinement to finite maps *)
Section Refine.
Context `{Hrb : RbOps} {V K : Type} `{Countable K} (key : V -> K) (lt : K -> K -> Prop).
Context `{!StrictOrder lt} (cmp : K -> V -> Z).
Hypothesis lt_total : forall k1 k2, lt k1 k2 \/ k1 = k2 \/ lt k2 k1.

(** The comparison agrees with the order of the keys on the keys in use. *)
Context (valid : K -> Prop).
Hypothesis cmp_lt : forall k v, valid k -> valid (key v) -> cmp k v < 0 <-> lt k (key v).
Hypothesis cmp_gt : forall k v, valid k -> valid (key v) -> 0 < cmp k v <-> lt (key v) k.

(** The tree is ordered by key. *)
Definition ordered (t : tree V) : Prop :=
  StronglySorted (fun v w => lt (key v) (key w)) (inorder t) /\ Forall (fun v => valid (key v)) (inorder t).

(** The finite map the tree stands for. *)
Definition entries (l : list V) : gmap K V := list_to_map ((fun v => (key v, v)) <$> l).
Definition tree_map (t : tree V) : gmap K V := entries (inorder t).

Lemma sorted_app l1 l2 :
  StronglySorted (fun v w => lt (key v) (key w)) (l1 ++ l2) <->
  StronglySorted (fun v w => lt (key v) (key w)) l1 /\ StronglySorted (fun v w => lt (key v) (key w)) l2 /\
  forall v w, v ∈ l1 -> w ∈ l2 -> lt (key v) (key w).
Proof.
  induction l1 as [|a l1 IH]; cbn.
  - split; [intros H1; split_and!; [constructor|done|by intros ? ? ?%not_elem_of_nil]|by intros (_ & ? & _)].
  - split.
    + intros H1. apply StronglySorted_inv in H1 as [H1 H2]. apply IH in H1 as (H3 & H4 & H5).
      apply Forall_app in H2 as [H6 H7]. split_and!; [by constructor|done|].
      intros v w Hv Hw. apply elem_of_cons in Hv as [->|Hv]; [|by apply H5].
      by apply (proj1 (Forall_forall _ _) H7).
    + intros (H1 & H2 & H3). apply StronglySorted_inv in H1 as [H4 H5]. constructor.
      * apply IH. split_and!; [done|done|]. intros v w Hv Hw. apply H3; [by right|done].
      * apply Forall_app. split; [done|]. apply Forall_forall. intros w Hw. apply H3; [by left|done].
Qed.

Lemma sorted_NoDup l :
  StronglySorted (fun v w => lt (key v) (key w)) l -> NoDup (key <$> l).
Proof.
  induction 1 as [|v l Hs IH Hall]; [constructor|]. cbn. constructor; [|done].
  intros (w & Hk & Hw)%list_elem_of_fmap. apply (proj1 (Forall_forall _ _) Hall) in Hw.
  rewrite <- Hk in Hw. by apply (irreflexivity lt) in Hw.
Qed.

Lemma entries_lookup l k v :
  NoDup (key <$> l) -> entries l !! k = Some v <-> v ∈ l /\ key v = k.
Proof.
  intros Hnd. unfold entries. rewrite <- elem_of_list_to_map.
  - rewrite list_elem_of_fmap. split; [by intros (? & [= -> ->] & ?)|intros [? <-]; by exists v].
  - rewrite <- list_fmap_compose. done.
Qed.

Lemma tree_map_lookup t k v : ordered t -> tree_map t !! k = Some v <-> v ∈ inorder t /\ key v = k.
Proof. intros [Hs _]. apply entries_lookup. by apply sorted_NoDup. Qed.

Lemma tree_map_None t k : ordered t -> (forall v, v ∈ inorder t -> key v <> k) -> tree_map t !! k = None.
Proof.
  intros Ho Hn. apply eq_None_not_Some. intros [v Hv]. apply tree_map_lookup in Hv as [? ?]; [|done].
  by eapply Hn.
Qed.

Lemma ordered_node c l v r :
  ordered (Node c l v r) -> ordered l /\ ordered r /\ valid (key v) /\
  (forall w, w ∈ inorder l -> lt (key w) (key v)) /\ (forall w, w ∈ inorder r -> lt (key v) (key w)).
Proof.
  intros [(Hl & [Hr Hv]%StronglySorted_inv & Hlr)%sorted_app [Hvl [Hvv Hvr]%Forall_cons]%Forall_app].
  split_and!; [by split|by split|done|intros w Hw; apply Hlr; [done|by left]|].
  intros w Hw. by apply (proj1 (Forall_forall _ _) Hv).
Qed.

Lemma search_spec t k p :
  ordered t -> valid k ->
  match search cmp t k p with
  | Some (q, v) => (exists q', q = p ++ q' /\ at_path q' t = Some v) /\ key v = k
  | None => forall v, v ∈ inorder t -> key v <> k
  end.
Proof.
  intros Ho Hk. revert p. induction t as [|c l IHl v r IHr]; intros p; cbn [search inorder].
  { by intros v ?%not_elem_of_nil. }
  destruct (ordered_node _ _ _ _ Ho) as (Hol & Hor & Hv & Hl & Hr).
  destruct (Z.ltb_spec (cmp k v) 0) as [Hlt|Hge].
  - apply cmp_lt in Hlt; [|done|done]. specialize (IHl Hol (p ++ [L])).
    destruct (search cmp l k (p ++ [L])) as [[q w]|].
    + destruct IHl as [(q' & -> & Hq) ?]. split; [|done]. exists (L :: q'). by rewrite <- app_assoc.
    + intros w [Hw|[->|Hw]%elem_of_cons]%elem_of_app; [by apply IHl| |].
      * intros <-. by apply (irreflexivity lt) in Hlt.
      * intros E. apply Hr in Hw. rewrite E in Hw. apply (irreflexivity lt k). by etrans.
  - destruct (Z.ltb_spec 0 (cmp k v)) as [Hgt|Hle].
    + apply cmp_gt in Hgt; [|done|done]. specialize (IHr Hor (p ++ [R])).
      destruct (search cmp r k (p ++ [R])) as [[q w]|].
      * destruct IHr as [(q' & -> & Hq) ?]. split; [|done]. exists (R :: q'). by rewrite <- app_assoc.
      * intros w [Hw|[->|Hw]%elem_of_cons]%elem_of_app; [| |by apply IHr].
        -- intros E. apply Hl in Hw. rewrite E in Hw. apply (irreflexivity lt k). by etrans.
        -- intros <-. by apply (irreflexivity lt) in Hgt.
    + split; [exists []; split; [by rewrite app_nil_r|done]|].
      destruct (lt_total k (key v)) as [E|[E|E]]; [|done|].
      * apply cmp_lt in E; [lia|done|done].
      * apply cmp_gt in E; [lia|done|done].
Qed.

(** A descent finds exactly what the map holds. *)
Lemma lookup_refines t k :
  ordered t -> valid k -> snd <$> tree_lookup cmp t k = tree_map t !! k.
Proof.
  intros Ho Hk. unfold tree_lookup. pose proof (search_spec t k [] Ho Hk) as Hs.
  destruct (search cmp t k []) as [[q v]|]; cbn; symmetry.
  - destruct Hs as [(q' & -> & Hq) Hkey]. apply tree_map_lookup; [done|]. split; [|done].
    rewrite (inorder_path _ _ _ Hq). apply elem_of_app. right. by left.
  - by apply tree_map_None.
Qed.

Lemma lookup_at t k p v :
  ordered t -> valid k -> tree_lookup cmp t k = Some (p, v) -> at_path p t = Some v /\ key v = k.
Proof.
  intros Ho Hk. unfold tree_lookup. pose proof (search_spec t k [] Ho Hk) as Hs. intros E. rewrite E in Hs.
  by destruct Hs as [(q' & -> & Hq) Hkey].
Qed.

Lemma link_spec t k new p :
  ordered t -> valid k ->
  match link cmp t k new p with
  | Some (t', _) => exists l1 l2, inorder t = l1 ++ l2 /\ inorder t' = l1 ++ new :: l2 /\
      (forall v, v ∈ l1 -> lt (key v) k) /\ (forall v, v ∈ l2 -> lt k (key v))
  | None => exists v, v ∈ inorder t /\ key v = k
  end.
Proof.
  intros Ho Hk. revert p. induction t as [|c l IHl v r IHr]; intros p; cbn [link inorder].
  { exists [], []. split_and!; try done; by intros v ?%not_elem_of_nil. }
  destruct (ordered_node _ _ _ _ Ho) as (Hol & Hor & Hv & Hl & Hr).
  destruct (Z.ltb_spec (cmp k v) 0) as [Hlt|Hge].
  - apply cmp_lt in Hlt; [|done|done]. specialize (IHl Hol (p ++ [L])).
    destruct (link cmp l k new (p ++ [L])) as [[t' q]|].
    + destruct IHl as (l1 & l2 & E1 & E2 & H1 & H2). exists l1, (l2 ++ v :: inorder r). cbn.
      rewrite E1, E2, <- app_assoc. split_and!; try done.
      * by rewrite <- app_assoc.
      * intros w [Hw|[->|Hw]%elem_of_cons]%elem_of_app; [by apply H2|done|].
        apply Hr in Hw. by etrans.
    + destruct IHl as (w & Hw & Hkw). exists w. split; [|done]. apply elem_of_app. by left.
  - destruct (Z.ltb_spec 0 (cmp k v)) as [Hgt|Hle].
    + apply cmp_gt in Hgt; [|done|done]. specialize (IHr Hor (p ++ [R])).
      destruct (link cmp r k new (p ++ [R])) as [[t' q]|].
      * destruct IHr as (l1 & l2 & E1 & E2 & H1 & H2). exists (inorder l ++ v :: l1), l2. cbn.
        rewrite E1, E2, <- app_assoc. split_and!; try done.
        -- by rewrite <- app_assoc.
        -- intros w [Hw|[->|Hw]%elem_of_cons]%elem_of_app; [|done|by apply H1].
           apply Hl in Hw. by etrans.
      * destruct IHr as (w & Hw & Hkw). exists w. split; [|done]. apply elem_of_app. right. by right.
    + exists v. split; [apply elem_of_app; right; by left|].
      destruct (lt_total k (key v)) as [E|[E|E]]; [|done|].
      * apply cmp_lt in E; [lia|done|done].
      * apply cmp_gt in E; [lia|done|done].
Qed.

(** Trees with the same order of nodes stand for the same map. *)
Lemma ordered_inorder t t' : inorder t' = inorder t -> ordered t -> ordered t'.
Proof. unfold ordered. by intros ->. Qed.

Lemma sorted_insert l1 l2 v k :
  key v = k -> StronglySorted (fun v w => lt (key v) (key w)) (l1 ++ l2) ->
  (forall w, w ∈ l1 -> lt (key w) k) -> (forall w, w ∈ l2 -> lt k (key w)) ->
  StronglySorted (fun v w => lt (key v) (key w)) (l1 ++ v :: l2).
Proof.
  intros <- (H1 & H2 & H3)%sorted_app Hl1 Hl2. apply sorted_app. split_and!; [done| |].
  - constructor; [done|]. apply Forall_forall. exact Hl2.
  - intros a b Ha [->|Hb]%elem_of_cons; [by apply Hl1|by apply H3].
Qed.

Lemma entries_insert l1 l2 v k :
  key v = k -> NoDup (key <$> (l1 ++ v :: l2)) -> entries (l1 ++ v :: l2) = <[k := v]> (entries (l1 ++ l2)).
Proof.
  intros Hk Hnd. assert (Hp : l1 ++ v :: l2 ≡ₚ v :: l1 ++ l2) by (by rewrite Permutation_middle).
  assert (Hnd' : NoDup (key <$> (l1 ++ l2))).
  { rewrite Hp in Hnd. by apply NoDup_cons in Hnd as [_ ?]. }
  apply map_eq. intros j. apply option_eq. intros w. rewrite entries_lookup by done.
  rewrite lookup_insert_Some, entries_lookup by done. rewrite Hp, elem_of_cons.
  assert (k ∉ key <$> (l1 ++ l2)) as Hni.
  { rewrite Hp in Hnd. apply NoDup_cons in Hnd as [? _]. by rewrite <- Hk. }
  split.
  - intros [[->|Hw] Hj]; [left; split; congruence|]. right. split; [|done].
    intros ->. apply Hni, list_elem_of_fmap. exists w. split; congruence.
  - intros [[<- <-]|(Hne & Hw & Hj)]; split; auto.
Qed.

(** An insertion adds the entry, or reports that its key is taken. *)
Lemma insert_refines t k new :
  ordered t -> valid k -> key new = k ->
  match tree_map t !! k with
  | None => exists t', tree_insert cmp t k new = Ret t' /\ ordered t' /\ tree_map t' = <[k := new]> (tree_map t)
  | Some _ => tree_insert cmp t k new = Err EEXIST
  end.
Proof.
  intros Ho Hk Hkey. unfold tree_insert. pose proof (link_spec t k new [] Ho Hk) as Hl.
  destruct (link cmp t k new []) as [[t' p]|].
  - destruct Hl as (l1 & l2 & E1 & E2 & H1 & H2).
    assert (Hs : StronglySorted (fun v w => lt (key v) (key w)) (l1 ++ new :: l2)).
    { eapply sorted_insert; [done| |done|done]. destruct Ho as [Ho _]. by rewrite E1 in Ho. }
    rewrite tree_map_None; [|done|].
    2:{ intros v. rewrite E1. intros [Hv|Hv]%elem_of_app E;
          [apply H1 in Hv|apply H2 in Hv]; rewrite E in Hv; by apply (irreflexivity lt) in Hv. }
    exists (rb_insert_color p t'). split; [done|]. unfold ordered, tree_map.
    rewrite rb_insert_color_inorder, E2, E1. split.
    + split; [done|]. destruct Ho as [_ Hv]. rewrite E1 in Hv. apply Forall_app in Hv as [? ?].
      apply Forall_app. split; [done|]. constructor; [by rewrite Hkey|done].
    + apply entries_insert; [done|]. by apply sorted_NoDup.
  - destruct Hl as (v & Hv & Hkv). by rewrite (proj2 (tree_map_lookup t k v Ho)).
Qed.

Lemma entries_middle l1 l2 v w :
  key w = key v -> NoDup (key <$> (l1 ++ v :: l2)) ->
  entries (l1 ++ w :: l2) = <[key v := w]> (entries (l1 ++ v :: l2)) /\
  entries (l1 ++ l2) = delete (key v) (entries (l1 ++ v :: l2)).
Proof.
  intros Hkw Hnd.
  assert (Hf : key <$> (l1 ++ w :: l2) = key <$> (l1 ++ v :: l2)) by (rewrite !fmap_app; cbn; by rewrite Hkw).
  assert (Hni : entries (l1 ++ l2) !! key v = None).
  { apply eq_None_not_Some. intros [u Hu]. rewrite fmap_app in Hnd. cbn in Hnd.
    rewrite <- Permutation_middle, <- fmap_app in Hnd. apply NoDup_cons in Hnd as [Hn Hnd].
    apply entries_lookup in Hu as [Hu Hk]; [|done]. apply Hn, list_elem_of_fmap. by exists u. }
  rewrite (entries_insert l1 l2 w (key v)), (entries_insert l1 l2 v (key v)); [|done|done|done|by rewrite Hf].
  split; [by rewrite insert_insert_eq|]. by rewrite delete_insert_id.
Qed.

Lemma sorted_remove l1 l2 v :
  StronglySorted (fun v w => lt (key v) (key w)) (l1 ++ v :: l2) ->
  StronglySorted (fun v w => lt (key v) (key w)) (l1 ++ l2).
Proof.
  intros (H1 & [H2 _]%StronglySorted_inv & H3)%sorted_app. apply sorted_app. split_and!; [done|done|].
  intros a b Ha Hb. apply H3; [done|by right].
Qed.

(** Erasing a node removes its key. *)
Lemma erase_at t p v :
  ordered t -> at_path p t = Some v ->
  ordered (rb_erase p t) /\ tree_map (rb_erase p t) = delete (key v) (tree_map t).
Proof.
  intros [Hs Hv] Hp. unfold ordered, tree_map. rewrite (rb_erase_inorder _ _ _ _ Hp).
  rewrite (inorder_path _ _ _ Hp) in *. split.
  - split; [by eapply sorted_remove|]. apply Forall_app in Hv as [? [? ?]%Forall_cons]. by apply Forall_app.
  - apply (entries_middle _ _ v v); [done|]. by apply sorted_NoDup.
Qed.

(** A store through a node pointer that keeps the key replaces the entry. *)
Lemma update_at t p v w :
  ordered t -> at_path p t = Some v -> key w = key v ->
  ordered (update_path p w t) /\ tree_map (update_path p w t) = <[key v := w]> (tree_map t).
Proof.
  intros [Hs Hv] Hp Hw. unfold ordered, tree_map. rewrite (inorder_update _ _ _ w Hp).
  rewrite (inorder_path _ _ _ Hp) in *. split.
  - apply Forall_app in Hv as [? [? ?]%Forall_cons]. split.
    + pose proof Hs as (G1 & G2 & G3)%sorted_app. apply StronglySorted_inv in G2 as [_ G4].
      eapply sorted_insert; [exact Hw|by eapply sorted_remove| |].
      * intros u Hu. apply G3; [done|by left].
      * intros u Hu. by apply (proj1 (Forall_forall _ _) G4).
    + apply Forall_app. split; [done|]. constructor; [by rewrite Hw|done].
  - apply (entries_middle _ _ v w); [done|]. by apply sorted_NoDup.
Qed.

Lemma erase_refines t k p v :
  ordered t -> valid k -> tree_lookup cmp t k = Some (p, v) ->
  ordered (rb_erase p t) /\ tree_map (rb_erase p t) = delete k (tree_map t).
Proof.
  intros Ho Hk Hl. destruct (lookup_at _ _ _ _ Ho Hk Hl) as [Hp <-]. by apply erase_at.
Qed.

Lemma update_refines t k p v w :
  ordered t -> valid k -> tree_lookup cmp t k = Some (p, v) -> key w = k ->
  ordered (update_path p w t) /\ tree_map (update_path p w t) = <[k := w]> (tree_map t).
Proof.
  intros Ho Hk Hl Hw. destruct (lookup_at _ _ _ _ Ho Hk Hl) as [Hp <-]. by apply update_at.
Qed.

Lemma ordered_Nil : ordered Nil.
Proof. split; constructor. Qed.

Lemma tree_map_Nil : tree_map Nil = ∅.
Proof. done. Qed.

End Refine.

(** ** An instance: no rebalancing *)
Fixpoint join {V} (l r : tree V) : tree V :=
  match l with
  | Nil => r
  | Node c a v b => Node c a v (join b r)
  end.

Fixpoint plain_erase {V} (p : path) (t : tree V) {struct t} : tree V :=
  match t, p with
  | Nil, _ => Nil
  | Node c l v r, [] => join l r
  | Node c l v r, L :: p => Node c (plain_erase p l) v r
  | Node c l v r, R :: p => Node c l v (plain_erase p r)
  end.

Lemma inorder_join {V} (l r : tree V) : inorder (join l r) = inorder l ++ inorder r.
Proof. induction l as [|c a _ v b IH]; cbn; [done|]. by rewrite IH, <- app_assoc. Qed.

#[export, refine] Instance plain_rb : RbOps := {|
  rb_insert_color := fun _ _ t => t;
  rb_erase := fun _ => plain_erase |}.
Proof.
  - done.
  - intros V p t. revert p. induction t as [|c l IHl v r IHr]; intros p w; [done|].
    destruct p as [|[|] p]; cbn; intros Hp.
    + apply inorder_join.
    + rewrite (IHl p w Hp), <- app_assoc. done.
    + rewrite (IHr p w Hp), <- app_assoc. done.
Defined.
