(* ===== verification/OsdMap.v ===== *)
(** * The OSD map: data and trees

    The structures of include/linux/ceph/osdmap.h, and the operations on the
    three red-black trees of an OSD map (pg_temp, primary_temp, pg_pools) of
    net/ceph/osdmap.c, refined to finite maps. *)
From S2P Require Import Prelude.
From S2P Require Import Crush.
From S2P Require Import RbTree.
From stdpp Require Import gmap.
#[local] Open Scope Z_scope.
#[local] Open Scope ceph_scope.

Definition CEPH_PG_MAX_SIZE : Z := 16.
Definition CEPH_NOPOOL : Z := 2 ^ 64 - 1.
Definition CEPH_POOL_TYPE_REP : Z := 1.
Definition CEPH_POOL_TYPE_EC : Z := 3.
Definition CEPH_POOL_FLAG_HASHPSPOOL : Z := 1.
Definition CEPH_OSD_EXISTS : Z := 1.
Definition CEPH_OSD_UP : Z := 2.
Definition CEPH_OSD_IN : Z := 0x10000.
Definition CEPH_OSD_OUT : Z := 0.
Definition CEPH_OSD_MAX_PRIMARY_AFFINITY : Z := 0x10000.
Definition CEPH_OSD_DEFAULT_PRIMARY_AFFINITY : Z := 0x10000.

Record ceph_pg := Pg { pool : Z; seed : Z }.

(** [pi_name] is a string without its terminating 0, or NULL. *)
Record pg_pool_info := PoolInfo {
  pi_id : Z;
  pi_type : Z;
  pi_size : Z;
  pi_crush_ruleset : Z;
  pi_object_hash : Z;
  pi_pg_num : Z;
  pi_pgp_num : Z;
  pi_pg_num_mask : Z;
  pi_pgp_num_mask : Z;
  pi_read_tier : Z;
  pi_write_tier : Z;
  pi_flags : Z;
  pi_name : option (list Z) }.

(** struct ceph_pg_mapping, once for each member of its union *)
Record pg_temp_mapping := PgTemp { pt_pgid : ceph_pg; pt_osds : list Z }.
Record primary_temp_mapping := PrimaryTemp { pr_pgid : ceph_pg; pr_osd : Z }.

(** A timestamp and an address are kept as the bytes of their struct. *)
Record ceph_osdmap := OsdMap {
  om_fsid : list Z;
  om_epoch : Z;
  om_created : list Z;
  om_modified : list Z;
  om_flags : Z;
  om_max_osd : Z;
  om_osd_state : list Z;
  om_osd_weight : list Z;
  om_osd_addr : list (list Z);
  om_pg_temp : tree pg_temp_mapping;
  om_primary_temp : tree primary_temp_mapping;
  om_osd_primary_affinity : option (list Z);
  om_pg_pools : tree pg_pool_info;
  om_pool_max : Z;
  om_crush : option crush_map }.

(** ** Keys *)
Definition pg_key (p : ceph_pg) : Z * Z := (pool p, seed p).

Definition pgid_cmp (l r : ceph_pg) : Z :=
  if pool l <? pool r then -1
  else if pool r <? pool l then 1
  else if seed l <? seed r then -1
  else if seed r <? seed l then 1
  else 0.

(** The order of [pgid_cmp]. *)
Definition pg_lt (k1 k2 : Z * Z) : Prop := k1.1 < k2.1 \/ k1.1 = k2.1 /\ k1.2 < k2.2.

(** Trees are keyed by pairs; [key_pg] is the pgid of a key. *)
Definition key_pg (k : Z * Z) : ceph_pg := Pg k.1 k.2.

Section Trees.
Context `{RbOps}.

(** ** pg_temp and primary_temp *)
Definition pt_cmp (k : Z * Z) (m : pg_temp_mapping) : Z := pgid_cmp (key_pg k) (pt_pgid m).
Definition pr_cmp (k : Z * Z) (m : primary_temp_mapping) : Z := pgid_cmp (key_pg k) (pr_pgid m).

Definition insert_pg_temp (new : pg_temp_mapping) (root : tree pg_temp_mapping)
  : outcome (tree pg_temp_mapping) := tree_insert pt_cmp root (pg_key (pt_pgid new)) new.
Definition lookup_pg_temp (root : tree pg_temp_mapping) (pgid : ceph_pg)
  : option (path * pg_temp_mapping) := tree_lookup pt_cmp root (pg_key pgid).
Definition remove_pg_temp (root : tree pg_temp_mapping) (pgid : ceph_pg)
  : outcome (tree pg_temp_mapping) :=
  match lookup_pg_temp root pgid with
  | Some (p, _) => Ret (rb_erase p root)
  | None => Err ENOENT
  end.

Definition insert_primary_temp (new : primary_temp_mapping) (root : tree primary_temp_mapping)
  : outcome (tree primary_temp_mapping) := tree_insert pr_cmp root (pg_key (pr_pgid new)) new.
Definition lookup_primary_temp (root : tree primary_temp_mapping) (pgid : ceph_pg)
  : option (path * primary_temp_mapping) := tree_lookup pr_cmp root (pg_key pgid).
Definition remove_primary_temp (root : tree primary_temp_mapping) (pgid : ceph_pg)
  : outcome (tree primary_temp_mapping) :=
  match lookup_primary_temp root pgid with
  | Some (p, _) => Ret (rb_erase p root)
  | None => Err ENOENT
  end.

(** ** pg_pools: [id] is an s64; the insertion compares two of them, the
    lookup compares a u64 with one. *)
Definition pool_cmp_insert (id : Z) (pi : pg_pool_info) : Z :=
  if id <? pi_id pi then -1 else if pi_id pi <? id then 1 else 0.
Definition pool_cmp_lookup (id : Z) (pi : pg_pool_info) : Z :=
  if id <? u64 (pi_id pi) then -1 else if u64 (pi_id pi) <? id then 1 else 0.

Definition insert_pg_pool (root : tree pg_pool_info) (new : pg_pool_info)
  : outcome (tree pg_pool_info) := tree_insert pool_cmp_insert root (pi_id new) new.
Definition lookup_pg_pool (root : tree pg_pool_info) (id : Z) : option (path * pg_pool_info) :=
  tree_lookup pool_cmp_lookup root (u64 id).
Definition remove_pg_pool (root : tree pg_pool_info) (p : path) : tree pg_pool_info := rb_erase p root.

Definition ceph_pg_pool_by_id (map : ceph_osdmap) (id : Z) : option pg_pool_info :=
  snd <$> lookup_pg_pool (om_pg_pools map) id.

(** The name, or NULL. *)
Definition ceph_pg_pool_name_by_id (map : ceph_osdmap) (id : Z) : option (list Z) :=
  if id =? CEPH_NOPOOL then None
  else if 2 ^ 31 - 1 <? id then None
  else
    match lookup_pg_pool (om_pg_pools map) (s32 id) with
    | Some (_, pi) => pi_name pi
    | None => None
    end.

(** [rb_first], [rb_next]: the nodes in order *)
Fixpoint find_pool_name (l : list pg_pool_info) (name : list Z) : outcome Z :=
  match l with
  | [] => Err ENOENT
  | pi :: l =>
      match pi_name pi with
      | Some n => if decide (n = name) then Ret (s32 (pi_id pi)) else find_pool_name l name
      | None => find_pool_name l name
      end
  end.

Definition ceph_pg_poolid_by_name (map : ceph_osdmap) (name : list Z) : outcome Z :=
  find_pool_name (inorder (om_pg_pools map)) name.

End Trees.

(** ** OSD states *)
Definition ceph_osd_exists (map : ceph_osdmap) (osd : Z) : outcome bool :=
  if (0 <=? osd) && (osd <? om_max_osd map) then
    st ← rd (om_osd_state map) osd; Ret (negb (Z.land st CEPH_OSD_EXISTS =? 0))
  else Ret false.

Definition ceph_osd_is_up (map : ceph_osdmap) (osd : Z) : outcome bool :=
  e ← ceph_osd_exists map osd;
  if (e : bool) then
    st ← rd (om_osd_state map) osd; Ret (negb (Z.land st CEPH_OSD_UP =? 0))
  else Ret false.

Definition ceph_osd_is_down (map : ceph_osdmap) (osd : Z) : outcome bool :=
  up ← ceph_osd_is_up map osd; Ret (negb up).

Definition ceph_osdmap_flag (map : option ceph_osdmap) (flag : Z) : bool :=
  match map with
  | Some m => negb (Z.land (om_flags m) flag =? 0)
  | None => false
  end.

(** [osd] is an int, [max_osd] a u32: the comparison is unsigned. *)
Definition ceph_osd_addr (map : ceph_osdmap) (osd : Z) : outcome (option (list Z)) :=
  if om_max_osd map <=? u32 osd then Ret None
  else a ← rd (om_osd_addr map) osd; Ret (Some a).

Definition ceph_get_primary_affinity (map : ceph_osdmap) (osd : Z) : outcome Z :=
  _ ← bug_on (om_max_osd map <=? u32 osd);
  match om_osd_primary_affinity map with
  | None => Ret CEPH_OSD_DEFAULT_PRIMARY_AFFINITY
  | Some aff => rd aff osd
  end.

Definition ceph_can_shift_osds (pool : pg_pool_info) : outcome bool :=
  if pi_type pool =? CEPH_POOL_TYPE_REP then Ret true
  else if pi_type pool =? CEPH_POOL_TYPE_EC then Ret false
  else Fault BugOn.

(** ** Refinement *)
#[export] Instance pg_lt_strict : StrictOrder pg_lt.
Proof.
  split.
  - intros [a b]. unfold complement, pg_lt. cbn. lia.
  - intros [a b] [c d] [e f]. unfold pg_lt. cbn. lia.
Qed.

Lemma pg_lt_total k1 k2 : pg_lt k1 k2 \/ k1 = k2 \/ pg_lt k2 k1.
Proof.
  destruct k1 as [a b], k2 as [c d]. unfold pg_lt. cbn.
  destruct (Z.lt_trichotomy a c) as [?|[->|?]]; [tauto| |tauto].
  destruct (Z.lt_trichotomy b d) as [?|[->|?]]; tauto.
Qed.

Lemma pgid_cmp_spec k r :
  (pgid_cmp (key_pg k) r < 0 <-> pg_lt k (pg_key r)) /\
  (0 < pgid_cmp (key_pg k) r <-> pg_lt (pg_key r) k).
Proof.
  unfold pgid_cmp, key_pg, pg_lt, pg_key. cbn. repeat case_Zb; lia.
Qed.

Section Refinement.
Context `{RbOps}.

Definition pt_key (m : pg_temp_mapping) : Z * Z := pg_key (pt_pgid m).
Definition pr_key (m : primary_temp_mapping) : Z * Z := pg_key (pr_pgid m).

Definition pg_temp_ok (t : tree pg_temp_mapping) : Prop := ordered pt_key pg_lt (fun _ => True) t.
Definition primary_temp_ok (t : tree primary_temp_mapping) : Prop := ordered pr_key pg_lt (fun _ => True) t.

(** Pool ids on which the two comparisons agree. *)
Definition pool_id_ok (id : Z) : Prop := 0 <= id < 2 ^ 63.
Definition pg_pools_ok (t : tree pg_pool_info) : Prop := ordered pi_id Z.lt pool_id_ok t.

Definition pg_temp_map (t : tree pg_temp_mapping) : gmap (Z * Z) pg_temp_mapping := tree_map pt_key t.
Definition primary_temp_map (t : tree primary_temp_mapping) : gmap (Z * Z) primary_temp_mapping :=
  tree_map pr_key t.
Definition pg_pools_map (t : tree pg_pool_info) : gmap Z pg_pool_info := tree_map pi_id t.

Lemma pool_cmp_insert_spec id pi :
  (pool_cmp_insert id pi < 0 <-> id < pi_id pi) /\ (0 < pool_cmp_insert id pi <-> pi_id pi < id).
Proof. unfold pool_cmp_insert. repeat case_Zb; lia. Qed.

Lemma pool_cmp_lookup_spec id pi :
  pool_id_ok (pi_id pi) ->
  (pool_cmp_lookup id pi < 0 <-> id < pi_id pi) /\ (0 < pool_cmp_lookup id pi <-> pi_id pi < id).
Proof.
  unfold pool_id_ok, pool_cmp_lookup. intros Hid. rewrite u64_small by lia. repeat case_Zb; lia.
Qed.

Lemma Z_lt_total k1 k2 : k1 < k2 \/ k1 = k2 \/ k2 < k1.
Proof. lia. Qed.

Lemma pt_cmp_lt k m : True -> True -> pt_cmp k m < 0 <-> pg_lt k (pt_key m).
Proof. intros _ _. apply pgid_cmp_spec. Qed.
Lemma pt_cmp_gt k m : True -> True -> 0 < pt_cmp k m <-> pg_lt (pt_key m) k.
Proof. intros _ _. apply pgid_cmp_spec. Qed.
Lemma pr_cmp_lt k m : True -> True -> pr_cmp k m < 0 <-> pg_lt k (pr_key m).
Proof. intros _ _. apply pgid_cmp_spec. Qed.
Lemma pr_cmp_gt k m : True -> True -> 0 < pr_cmp k m <-> pg_lt (pr_key m) k.
Proof. intros _ _. apply pgid_cmp_spec. Qed.
Lemma pool_insert_lt id pi : pool_id_ok id -> pool_id_ok (pi_id pi) -> pool_cmp_insert id pi < 0 <-> id < pi_id pi.
Proof. intros _ _. apply pool_cmp_insert_spec. Qed.
Lemma pool_insert_gt id pi : pool_id_ok id -> pool_id_ok (pi_id pi) -> 0 < pool_cmp_insert id pi <-> pi_id pi < id.
Proof. intros _ _. apply pool_cmp_insert_spec. Qed.
Lemma pool_lookup_lt id pi : pool_id_ok id -> pool_id_ok (pi_id pi) -> pool_cmp_lookup id pi < 0 <-> id < pi_id pi.
Proof. intros _. apply pool_cmp_lookup_spec. Qed.
Lemma pool_lookup_gt id pi : pool_id_ok id -> pool_id_ok (pi_id pi) -> 0 < pool_cmp_lookup id pi <-> pi_id pi < id.
Proof. intros _. apply pool_cmp_lookup_spec. Qed.

Lemma lookup_pg_temp_refines t pgid :
  pg_temp_ok t -> snd <$> lookup_pg_temp t pgid = pg_temp_map t !! pg_key pgid.
Proof. intros. by apply (lookup_refines _ _ _ pg_lt_total _ pt_cmp_lt pt_cmp_gt). Qed.

Lemma lookup_primary_temp_refines t pgid :
  primary_temp_ok t -> snd <$> lookup_primary_temp t pgid = primary_temp_map t !! pg_key pgid.
Proof. intros. by apply (lookup_refines _ _ _ pg_lt_total _ pr_cmp_lt pr_cmp_gt). Qed.

Lemma lookup_pg_pool_refines t id :
  pg_pools_ok t -> pool_id_ok id -> snd <$> lookup_pg_pool t id = pg_pools_map t !! id.
Proof.
  intros Ht Hid. unfold lookup_pg_pool. rewrite u64_small by (unfold pool_id_ok in Hid; lia).
  by apply (lookup_refines _ _ _ Z_lt_total _ pool_lookup_lt pool_lookup_gt).
Qed.

Lemma insert_pg_temp_refines t new :
  pg_temp_ok t ->
  match pg_temp_map t !! pt_key new with
  | None => exists t', insert_pg_temp new t = Ret t' /\ pg_temp_ok t' /\
              pg_temp_map t' = <[pt_key new := new]> (pg_temp_map t)
  | Some _ => insert_pg_temp new t = Err EEXIST
  end.
Proof. intros. by apply (insert_refines _ _ _ pg_lt_total _ pt_cmp_lt pt_cmp_gt). Qed.

Lemma insert_primary_temp_refines t new :
  primary_temp_ok t ->
  match primary_temp_map t !! pr_key new with
  | None => exists t', insert_primary_temp new t = Ret t' /\ primary_temp_ok t' /\
              primary_temp_map t' = <[pr_key new := new]> (primary_temp_map t)
  | Some _ => insert_primary_temp new t = Err EEXIST
  end.
Proof. intros. by apply (insert_refines _ _ _ pg_lt_total _ pr_cmp_lt pr_cmp_gt). Qed.

Lemma insert_pg_pool_refines t new :
  pg_pools_ok t -> pool_id_ok (pi_id new) ->
  match pg_pools_map t !! pi_id new with
  | None => exists t', insert_pg_pool t new = Ret t' /\ pg_pools_ok t' /\
              pg_pools_map t' = <[pi_id new := new]> (pg_pools_map t)
  | Some _ => insert_pg_pool t new = Err EEXIST
  end.
Proof. intros. by apply (insert_refines _ _ _ Z_lt_total _ pool_insert_lt pool_insert_gt). Qed.

Lemma remove_pg_temp_refines t pgid :
  pg_temp_ok t ->
  match pg_temp_map t !! pg_key pgid with
  | None => remove_pg_temp t pgid = Err ENOENT
  | Some _ => exists t', remove_pg_temp t pgid = Ret t' /\ pg_temp_ok t' /\
                pg_temp_map t' = delete (pg_key pgid) (pg_temp_map t)
  end.
Proof.
  intros Ht. rewrite <- (lookup_pg_temp_refines t pgid Ht). unfold remove_pg_temp.
  destruct (lookup_pg_temp t pgid) as [[p m]|] eqn:E; cbn; [|done]. eexists. split; [done|].
  by apply (erase_refines _ _ _ pg_lt_total _ pt_cmp_lt pt_cmp_gt t _ p m).
Qed.

Lemma remove_primary_temp_refines t pgid :
  primary_temp_ok t ->
  match primary_temp_map t !! pg_key pgid with
  | None => remove_primary_temp t pgid = Err ENOENT
  | Some _ => exists t', remove_primary_temp t pgid = Ret t' /\ primary_temp_ok t' /\
                primary_temp_map t' = delete (pg_key pgid) (primary_temp_map t)
  end.
Proof.
  intros Ht. rewrite <- (lookup_primary_temp_refines t pgid Ht). unfold remove_primary_temp.
  destruct (lookup_primary_temp t pgid) as [[p m]|] eqn:E; cbn; [|done]. eexists. split; [done|].
  by apply (erase_refines _ _ _ pg_lt_total _ pr_cmp_lt pr_cmp_gt t _ p m).
Qed.

(** Removing, or storing through, the pool found. *)
Lemma remove_pg_pool_refines t id p pi :
  pg_pools_ok t -> pool_id_ok id -> lookup_pg_pool t id = Some (p, pi) ->
  pg_pools_ok (remove_pg_pool t p) /\ pg_pools_map (remove_pg_pool t p) = delete id (pg_pools_map t).
Proof.
  unfold lookup_pg_pool. intros Ht Hid Hl. rewrite u64_small in Hl by (unfold pool_id_ok in Hid; lia).
  by apply (erase_refines _ _ _ Z_lt_total _ pool_lookup_lt pool_lookup_gt t id p pi).
Qed.

Lemma update_pg_pool_refines t id p pi pi' :
  pg_pools_ok t -> pool_id_ok id -> lookup_pg_pool t id = Some (p, pi) -> pi_id pi' = id ->
  pg_pools_ok (update_path p pi' t) /\
  pg_pools_map (update_path p pi' t) = <[id := pi']> (pg_pools_map t).
Proof.
  unfold lookup_pg_pool. intros Ht Hid Hl Hpi. rewrite u64_small in Hl by (unfold pool_id_ok in Hid; lia).
  by apply (update_refines _ _ _ Z_lt_total _ pool_lookup_lt pool_lookup_gt t id p pi pi').
Qed.

End Refinement.

(** ** Properties *)

(** C30: The pg_temp tree of an OSD map implements a finite map from placement groups
    to mappings, whatever the balancing code does as long as it keeps the
    order of the nodes: the lookup finds what the map holds; an insertion
    adds, or fails with -EEXIST and changes nothing; a removal deletes, or
    fails with -ENOENT; and the tree stays ordered. *)
Theorem pg_temp_tree_refines_map `{RbOps} t pgid new :
  pg_temp_ok t ->
  snd <$> lookup_pg_temp t pgid = pg_temp_map t !! pg_key pgid /\
  match pg_temp_map t !! pt_key new with
  | None => exists t', insert_pg_temp new t = Ret t' /\ pg_temp_ok t' /\
              pg_temp_map t' = <[pt_key new := new]> (pg_temp_map t)
  | Some _ => insert_pg_temp new t = Err EEXIST
  end /\
  match pg_temp_map t !! pg_key pgid with
  | None => remove_pg_temp t pgid = Err ENOENT
  | Some _ => exists t', remove_pg_temp t pgid = Ret t' /\ pg_temp_ok t' /\
                pg_temp_map t' = delete (pg_key pgid) (pg_temp_map t)
  end.
Proof.
  intros Ht. split; [by apply lookup_pg_temp_refines|].
  split; [by apply insert_pg_temp_refines|by apply remove_pg_temp_refines].
Qed.

Definition example_pg_temp : tree pg_temp_mapping :=
  Node Black (Node Red Nil (PgTemp (Pg 1 3) [0; 2]) Nil) (PgTemp (Pg 1 5) [4]) Nil.

Lemma pg_temp_tree_refines_map_witness :
  exists t', remove_pg_temp example_pg_temp (Pg 1 5) = Ret t' /\ pg_temp_ok t' /\
    snd <$> lookup_pg_temp example_pg_temp (Pg 1 3) = Some (PgTemp (Pg 1 3) [0; 2]).
Proof.
  assert (Hok : pg_temp_ok example_pg_temp).
  { split; cbn; repeat constructor; cbn; unfold pg_lt; cbn; lia. }
  destruct (pg_temp_tree_refines_map example_pg_temp (Pg 1 5) (PgTemp (Pg 2 0) []) Hok) as (_ & _ & Hr).
  destruct (pg_temp_map example_pg_temp !! pg_key (Pg 1 5)) eqn:E; [|vm_compute in E; discriminate E].
  destruct Hr as (t' & Hr & Hok' & _). exists t'. split; [exact Hr|]. split; [exact Hok'|]. reflexivity.
Defined.

(** The pool tree is ordered by the signed id and searched by the unsigned one:
    a pool whose id has the top bit set is inserted but not found. *)
Theorem lookup_pg_pool_misses_high_ids :
  let pi id := PoolInfo id CEPH_POOL_TYPE_REP 3 0 0 8 8 7 7 (-1) (-1) 0 None in
  let t := Node Black (Node Red Nil (pi (-2)) Nil) (pi 1) Nil in
  s64 (2 ^ 64 - 2) = -2 /\ insert_pg_pool (Node Black Nil (pi 1) Nil) (pi (-2)) = Ret t /\
  lookup_pg_pool t (2 ^ 64 - 2) = None.
Proof. split_and!; reflexivity. Qed.
