(* ===== verification/OsdMapDecode.v ===== *)
(** * Decoding and updating the OSD map

    Models the decoders of net/ceph/osdmap.c: pools, pool names, pg_temp,
    primary_temp, primary affinity, the full map ([osdmap_decode],
    [ceph_osdmap_decode]) and the incremental update
    ([osdmap_apply_incremental]).  The decoders fill in the map that is the
    state of the monad, so that what they have stored when they return an error
    is still there. *)
From S2P Require Import Prelude.
From S2P Require Import Wire.
From S2P Require Import Crush.
From S2P Require Import CrushDecode.
From S2P Require Import RbTree.
From S2P Require Import OsdMap.

(** ** Stores to the fields of the map *)
Definition set_pg_pools (m : ceph_osdmap) (t : tree pg_pool_info) : ceph_osdmap :=
  OsdMap (om_fsid m) (om_epoch m) (om_created m) (om_modified m) (om_flags m) (om_max_osd m)
    (om_osd_state m) (om_osd_weight m) (om_osd_addr m) (om_pg_temp m) (om_primary_temp m)
    (om_osd_primary_affinity m) t (om_pool_max m) (om_crush m).
Definition set_pg_temp (m : ceph_osdmap) (t : tree pg_temp_mapping) : ceph_osdmap :=
  OsdMap (om_fsid m) (om_epoch m) (om_created m) (om_modified m) (om_flags m) (om_max_osd m)
    (om_osd_state m) (om_osd_weight m) (om_osd_addr m) t (om_primary_temp m)
    (om_osd_primary_affinity m) (om_pg_pools m) (om_pool_max m) (om_crush m).
Definition set_primary_temp (m : ceph_osdmap) (t : tree primary_temp_mapping) : ceph_osdmap :=
  OsdMap (om_fsid m) (om_epoch m) (om_created m) (om_modified m) (om_flags m) (om_max_osd m)
    (om_osd_state m) (om_osd_weight m) (om_osd_addr m) (om_pg_temp m) t
    (om_osd_primary_affinity m) (om_pg_pools m) (om_pool_max m) (om_crush m).
Definition set_affinity (m : ceph_osdmap) (a : option (list Z)) : ceph_osdmap :=
  OsdMap (om_fsid m) (om_epoch m) (om_created m) (om_modified m) (om_flags m) (om_max_osd m)
    (om_osd_state m) (om_osd_weight m) (om_osd_addr m) (om_pg_temp m) (om_primary_temp m)
    a (om_pg_pools m) (om_pool_max m) (om_crush m).
Definition set_osds (m : ceph_osdmap) (max : Z) (st w : list Z) (addr : list (list Z)) : ceph_osdmap :=
  OsdMap (om_fsid m) (om_epoch m) (om_created m) (om_modified m) (om_flags m) max st w addr
    (om_pg_temp m) (om_primary_temp m) (om_osd_primary_affinity m) (om_pg_pools m)
    (om_pool_max m) (om_crush m).
Definition set_header (m : ceph_osdmap) (fsid : list Z) (epoch : Z) (created modified : list Z) : ceph_osdmap :=
  OsdMap fsid epoch created modified (om_flags m) (om_max_osd m)
    (om_osd_state m) (om_osd_weight m) (om_osd_addr m) (om_pg_temp m) (om_primary_temp m)
    (om_osd_primary_affinity m) (om_pg_pools m) (om_pool_max m) (om_crush m).
Definition set_flags_max (m : ceph_osdmap) (flags pool_max : Z) : ceph_osdmap :=
  OsdMap (om_fsid m) (om_epoch m) (om_created m) (om_modified m) flags (om_max_osd m)
    (om_osd_state m) (om_osd_weight m) (om_osd_addr m) (om_pg_temp m) (om_primary_temp m)
    (om_osd_primary_affinity m) (om_pg_pools m) pool_max (om_crush m).
Definition set_crush (m : ceph_osdmap) (c : option crush_map) : ceph_osdmap :=
  OsdMap (om_fsid m) (om_epoch m) (om_created m) (om_modified m) (om_flags m) (om_max_osd m)
    (om_osd_state m) (om_osd_weight m) (om_osd_addr m) (om_pg_temp m) (om_primary_temp m)
    (om_osd_primary_affinity m) (om_pg_pools m) (om_pool_max m) c.

(** [map->osd_state = ...], one array at a time *)
Definition set_state (m : ceph_osdmap) (st : list Z) : ceph_osdmap :=
  set_osds m (om_max_osd m) st (om_osd_weight m) (om_osd_addr m).
Definition set_weight (m : ceph_osdmap) (w : list Z) : ceph_osdmap :=
  set_osds m (om_max_osd m) (om_osd_state m) w (om_osd_addr m).
Definition set_addr (m : ceph_osdmap) (a : list (list Z)) : ceph_osdmap :=
  set_osds m (om_max_osd m) (om_osd_state m) (om_osd_weight m) a.
Definition set_max (m : ceph_osdmap) (max : Z) : ceph_osdmap :=
  set_osds m max (om_osd_state m) (om_osd_weight m) (om_osd_addr m).

(** ** Placement group masks *)

(** [while (t)]: a 32-bit [t] is shifted at most 32 times *)
Fixpoint bits_loop (fuel : nat) (t b : Z) : Z :=
  match fuel with
  | O => b
  | S fuel => if t =? 0 then b else bits_loop fuel (Z.shiftr t 1) (b + 1)
  end.

Definition calc_bits_of (t : Z) : Z := bits_loop 32 (u32 t) 0.

(** [(1 << calc_bits_of(n-1)) - 1], an int *)
Definition pg_mask (n : Z) : outcome Z :=
  let b := calc_bits_of (n - 1) in
  if 32 <=? b then Fault BadShift else Ret (s32 (Z.shiftl 1 b - 1)).

Definition calc_pg_masks (pi : pg_pool_info) : outcome pg_pool_info :=
  m1 ← pg_mask (pi_pg_num pi);
  m2 ← pg_mask (pi_pgp_num pi);
  Ret (PoolInfo (pi_id pi) (pi_type pi) (pi_size pi) (pi_crush_ruleset pi) (pi_object_hash pi)
         (pi_pg_num pi) (pi_pgp_num pi) m1 m2 (pi_read_tier pi) (pi_write_tier pi) (pi_flags pi)
         (pi_name pi)).

(** The size of struct ceph_entity_addr, and ntohs of its ss_family, the bytes
    8 and 9, on a little-endian machine *)
Definition sizeof_addr : Z := 136.
Definition ceph_decode_addr (a : list Z) : list Z :=
  match a !! 8%nat, a !! 9%nat with
  | Some x, Some y => <[8%nat := y]> (<[9%nat := x]> a)
  | _, _ => a
  end.

(** The characters before the first 0: what kstrndup copies. *)
Fixpoint c_string (l : list Z) : list Z :=
  match l with
  | [] => []
  | c :: l => if c =? 0 then [] else c :: c_string l
  end.

Section Decode.
Context `{RbOps} (buf : list Z) (kmalloc_ok : nat -> Z -> bool).
Local Abbreviation odec := (dec ceph_osdmap).

Definition modify (f : ceph_osdmap -> ceph_osdmap) : odec unit := m ⇐ get_obj; put_obj (f m).

(** [while (n--) ...], [n] iterations left *)
Fixpoint times (n : nat) (body : odec unit) : odec unit :=
  match n with
  | O => dret tt
  | S n => _ ⇐ body; times n body
  end.

Definition ceph_decode_pgid (end_ : Z) : odec ceph_pg :=
  p ⇐ get_pos;
  if negb (ceph_has_room p end_ (1 + 8 + 4 + 4)) then derr EINVAL
  else
    version ⇐ ceph_decode_8 buf;
    if 1 <? version then derr EINVAL
    else
      pl ⇐ ceph_decode_64 buf;
      sd ⇐ ceph_decode_32 buf;
      _ ⇐ skip 4;
      dret (Pg pl sd).

(** [while (num--)] over the snaps of a pool *)
Definition skip_snap : odec unit :=
  _ ⇐ skip 8; _ ⇐ skip (1 + 1);
  len ⇐ ceph_decode_32 buf;
  skip len.

(** What decode_pool does between [pool_end = *p + len] and [*p = pool_end];
    nothing here checks for room. *)
Definition decode_pool_body (ev : Z) (pi : pg_pool_info) : odec pg_pool_info :=
  type ⇐ ceph_decode_8 buf;
  size ⇐ ceph_decode_8 buf;
  ruleset ⇐ ceph_decode_8 buf;
  hash ⇐ ceph_decode_8 buf;
  pg_num ⇐ ceph_decode_32 buf;
  pgp_num ⇐ ceph_decode_32 buf;
  _ ⇐ skip (4 + 4);
  _ ⇐ skip 4;
  _ ⇐ skip (8 + 4);
  num ⇐ ceph_decode_32 buf;
  _ ⇐ times (Z.to_nat num) skip_snap;
  num ⇐ ceph_decode_32 buf;
  _ ⇐ skip (u32 (num * (8 + 8)));
  _ ⇐ skip 8;
  flags ⇐ ceph_decode_64 buf;
  _ ⇐ skip 4;
  _ ⇐ (if 7 <=? ev then skip 1 else dret tt);
  _ ⇐ (if 8 <=? ev then skip (8 + 8) else dret tt);
  '(rt, wt) ⇐
    (if 9 <=? ev then
       num ⇐ ceph_decode_32 buf;
       _ ⇐ skip (u32 (num * 8));
       _ ⇐ skip 8;
       _ ⇐ skip 1;
       rt ⇐ ceph_decode_64 buf;
       wt ⇐ ceph_decode_64 buf;
       dret (s64 rt, s64 wt)
     else dret (-1, -1));
  dret (PoolInfo (pi_id pi) type size ruleset hash pg_num pgp_num (pi_pg_num_mask pi)
          (pi_pgp_num_mask pi) rt wt flags (pi_name pi)).

Definition decode_pool (end_ : Z) (pi : pg_pool_info) : odec pg_pool_info :=
  _ ⇐ ceph_decode_need end_ (2 + 4) EINVAL;
  ev ⇐ ceph_decode_8 buf;
  cv ⇐ ceph_decode_8 buf;
  if ev <? 5 then derr EINVAL
  else if 9 <? cv then derr EINVAL
  else
    len ⇐ ceph_decode_32 buf;
    _ ⇐ ceph_decode_need end_ len EINVAL;
    p ⇐ get_pos;
    pi ⇐ decode_pool_body ev pi;
    _ ⇐ set_pos (p + len);
    dlift (calc_pg_masks pi).

Definition set_name (pi : pg_pool_info) (name : list Z) : pg_pool_info :=
  PoolInfo (pi_id pi) (pi_type pi) (pi_size pi) (pi_crush_ruleset pi) (pi_object_hash pi)
    (pi_pg_num pi) (pi_pgp_num pi) (pi_pg_num_mask pi) (pi_pgp_num_mask pi) (pi_read_tier pi)
    (pi_write_tier pi) (pi_flags pi) (Some name).

Definition decode_pool_name (end_ : Z) : odec unit :=
  pl ⇐ ceph_decode_64_safe buf end_ EINVAL;
  len ⇐ ceph_decode_32_safe buf end_ EINVAL;
  _ ⇐ ceph_decode_need end_ len EINVAL;
  m ⇐ get_obj;
  _ ⇐ match lookup_pg_pool (om_pg_pools m) pl with
      | Some (q, pi) =>
          p ⇐ get_pos;
          chars ⇐ dlift (read_bytes buf (Z.to_nat len) p);
          let name := c_string chars in
          _ ⇐ kmalloc_or kmalloc_ok (Z.of_nat (length name) + 1) ENOMEM;
          put_obj (set_pg_pools m (update_path q (set_name pi name) (om_pg_pools m)))
      | None => dret tt
      end;
  skip len.

Definition decode_pool_names (end_ : Z) : odec unit :=
  num ⇐ ceph_decode_32_safe buf end_ EINVAL;
  times (Z.to_nat num) (decode_pool_name end_).

(** [for (i = from; i < to; i++) l[i] = v], [n] iterations *)
Fixpoint fill {A} (n : nat) (l : list A) (i : Z) (v : A) : outcome (list A) :=
  match n with
  | O => Ret l
  | S n => l ← wr l i v; fill n l (i + 1) v
  end.

(** The array after krealloc to [n] entries; grown entries are indeterminate
    ([d] here) until they are stored to. *)
Definition realloc {A} (l : list A) (n : Z) (d : A) : list A :=
  take (Z.to_nat n) l ++ replicate (Z.to_nat n - length l) d.

(** [max] is an int, converted to a size_t in the products *)
Definition osdmap_set_max_osd (max : Z) : odec unit :=
  m ⇐ get_obj;
  _ ⇐ kmalloc_or kmalloc_ok (u64 max) ENOMEM;
  _ ⇐ modify (fun m => set_state m (realloc (om_osd_state m) max 0));
  _ ⇐ kmalloc_or kmalloc_ok (u64 (max * 4)) ENOMEM;
  _ ⇐ modify (fun m => set_weight m (realloc (om_osd_weight m) max 0));
  _ ⇐ kmalloc_or kmalloc_ok (u64 (max * sizeof_addr)) ENOMEM;
  _ ⇐ modify (fun m => set_addr m (realloc (om_osd_addr m) max []));
  let old := s32 (om_max_osd m) in
  let n := Z.to_nat (max - old) in
  m ⇐ get_obj;
  st ⇐ dlift (fill n (om_osd_state m) old 0);
  w ⇐ dlift (fill n (om_osd_weight m) old CEPH_OSD_OUT);
  ad ⇐ dlift (fill n (om_osd_addr m) old (repeat 0 (Z.to_nat sizeof_addr)));
  _ ⇐ put_obj (set_osds m (om_max_osd m) st w ad);
  _ ⇐ match om_osd_primary_affinity m with
      | None => dret tt
      | Some aff =>
          _ ⇐ kmalloc_or kmalloc_ok (u64 (max * 4)) ENOMEM;
          aff ⇐ dlift (fill n (realloc aff max 0) old CEPH_OSD_DEFAULT_PRIMARY_AFFINITY);
          modify (fun m => set_affinity m (Some aff))
      end;
  modify (fun m => set_max m (u32 max)).

Definition OSDMAP_WRAPPER_COMPAT_VER : Z := 7.
Definition OSDMAP_CLIENT_DATA_COMPAT_VER : Z := 1.

Definition get_osdmap_client_data_v (end_ : Z) : odec Z :=
  struct_v ⇐ ceph_decode_8_safe buf end_ EINVAL;
  if 7 <=? struct_v then
    compat ⇐ ceph_decode_8_safe buf end_ EINVAL;
    if OSDMAP_WRAPPER_COMPAT_VER <? compat then derr EINVAL
    else
      _ ⇐ skip 4;
      struct_v ⇐ ceph_decode_8_safe buf end_ EINVAL;
      compat ⇐ ceph_decode_8_safe buf end_ EINVAL;
      if OSDMAP_CLIENT_DATA_COMPAT_VER <? compat then derr EINVAL
      else _ ⇐ skip 4; dret struct_v
  else
    _ ⇐ skip (-1);
    version ⇐ ceph_decode_16_safe buf end_ EINVAL;
    if version <? 6 then derr EINVAL else dret 0.

(** kzalloc of a struct ceph_pg_pool_info, and its id *)
Definition new_pool (id : Z) : pg_pool_info := PoolInfo (s64 id) 0 0 0 0 0 0 0 0 0 0 0 None.
Definition sizeof_pool_info : Z := 88.

(** decode_pool(p, end, pi), where [pi] points to the pool [id] of the tree *)
Definition decode_pool_at (end_ : Z) (q : path) (pi : pg_pool_info) : odec unit :=
  pi ⇐ decode_pool end_ pi;
  modify (fun m => set_pg_pools m (update_path q pi (om_pg_pools m))).

(** The pool to decode into: the one found, or a new one linked into the tree.
    The node pointer stays valid when the tree is rebalanced; here it is the
    path at which the new node is found again. *)
Definition pool_slot (incremental : bool) (pl : Z) : odec (path * pg_pool_info) :=
  m ⇐ get_obj;
  let fresh : odec (path * pg_pool_info) :=
    (_ ⇐ kmalloc_or kmalloc_ok sizeof_pool_info ENOMEM;
     t ⇐ dlift (insert_pg_pool (om_pg_pools m) (new_pool pl));
     _ ⇐ put_obj (set_pg_pools m t);
     dlift (deref (tree_lookup pool_cmp_insert t (s64 pl)))) in
  match lookup_pg_pool (om_pg_pools m) pl with
  | Some (q, pi) => if negb incremental then fresh else dret (q, pi)
  | None => fresh
  end.

Definition decode_one_pool (end_ : Z) (incremental : bool) : odec unit :=
  pl ⇐ ceph_decode_64_safe buf end_ EINVAL;
  '(q, pi) ⇐ pool_slot incremental pl;
  decode_pool_at end_ q pi.

Definition decode_pools_ (end_ : Z) (incremental : bool) : odec unit :=
  n ⇐ ceph_decode_32_safe buf end_ EINVAL;
  times (Z.to_nat n) (decode_one_pool end_ incremental).

Definition decode_pools (end_ : Z) : odec unit := decode_pools_ end_ false.
Definition decode_new_pools (end_ : Z) : odec unit := decode_pools_ end_ true.

(** sizeof(struct ceph_pg_mapping) *)
Definition sizeof_pg_mapping : Z := 48.

(** [ret = __remove_pg_mapping(...); BUG_ON(!incremental && ret != -ENOENT)] *)
Definition remove_or_bug {A} (incremental : bool) (removed : outcome A) (old : A) : outcome A :=
  match removed with
  | Ret t => if negb incremental then Fault BugOn else Ret t
  | Err _ => Ret old
  | Fault f => Fault f
  end.

Definition decode_one_pg_temp (end_ : Z) (incremental : bool) : odec unit :=
  pgid ⇐ ceph_decode_pgid end_;
  len ⇐ ceph_decode_32_safe buf end_ EINVAL;
  m ⇐ get_obj;
  t ⇐ dlift (remove_or_bug incremental (remove_pg_temp (om_pg_temp m) pgid) (om_pg_temp m));
  _ ⇐ put_obj (set_pg_temp m t);
  if negb incremental || (0 <? len) then
    _ ⇐ ceph_decode_need end_ (len * 4) EINVAL;
    if (2 ^ 32 - 1 - sizeof_pg_mapping) / 4 <? len then derr EINVAL
    else
      _ ⇐ kmalloc_or kmalloc_ok (sizeof_pg_mapping + len * 4) ENOMEM;
      osds ⇐ repeat_dec (Z.to_nat len) (decode_s32 buf);
      t ⇐ dlift (insert_pg_temp (PgTemp pgid osds) t);
      modify (fun m => set_pg_temp m t)
  else dret tt.

Definition decode_pg_temp_ (end_ : Z) (incremental : bool) : odec unit :=
  n ⇐ ceph_decode_32_safe buf end_ EINVAL;
  times (Z.to_nat n) (decode_one_pg_temp end_ incremental).

Definition decode_pg_temp (end_ : Z) : odec unit := decode_pg_temp_ end_ false.
Definition decode_new_pg_temp (end_ : Z) : odec unit := decode_pg_temp_ end_ true.

Definition decode_one_primary_temp (end_ : Z) (incremental : bool) : odec unit :=
  pgid ⇐ ceph_decode_pgid end_;
  osd ⇐ ceph_decode_32_safe buf end_ EINVAL;
  m ⇐ get_obj;
  t ⇐ dlift (remove_or_bug incremental (remove_primary_temp (om_primary_temp m) pgid)
               (om_primary_temp m));
  _ ⇐ put_obj (set_primary_temp m t);
  if negb incremental || negb (osd =? 2 ^ 32 - 1) then
    _ ⇐ kmalloc_or kmalloc_ok sizeof_pg_mapping ENOMEM;
    t ⇐ dlift (insert_primary_temp (PrimaryTemp pgid (s32 osd)) t);
    modify (fun m => set_primary_temp m t)
  else dret tt.

Definition decode_primary_temp_ (end_ : Z) (incremental : bool) : odec unit :=
  n ⇐ ceph_decode_32_safe buf end_ EINVAL;
  times (Z.to_nat n) (decode_one_primary_temp end_ incremental).

Definition decode_primary_temp (end_ : Z) : odec unit := decode_primary_temp_ end_ false.
Definition decode_new_primary_temp (end_ : Z) : odec unit := decode_primary_temp_ end_ true.

(** The vector is allocated and filled with the default on first use. *)
Definition set_primary_affinity (osd aff : Z) : odec unit :=
  m ⇐ get_obj;
  _ ⇐ dlift (bug_on (om_max_osd m <=? u32 osd));
  l ⇐ match om_osd_primary_affinity m with
      | Some l => dret l
      | None =>
          _ ⇐ kmalloc_or kmalloc_ok (om_max_osd m * 4) ENOMEM;
          dret (replicate (Z.to_nat (om_max_osd m)) CEPH_OSD_DEFAULT_PRIMARY_AFFINITY)
      end;
  l ⇐ dlift (wr l (s32 osd) aff);
  put_obj (set_affinity m (Some l)).

(** [for (i = 0; i < map->max_osd; i++)], [n] iterations left *)
Fixpoint decode_affinities (n : nat) (i : Z) : odec unit :=
  match n with
  | O => dret tt
  | S n =>
      aff ⇐ ceph_decode_32 buf;
      _ ⇐ set_primary_affinity i aff;
      decode_affinities n (i + 1)
  end.

Definition decode_primary_affinity (end_ : Z) : odec unit :=
  len ⇐ ceph_decode_32_safe buf end_ EINVAL;
  if len =? 0 then modify (fun m => set_affinity m None)
  else
    m ⇐ get_obj;
    if negb (len =? om_max_osd m) then derr EINVAL
    else
      _ ⇐ ceph_decode_need end_ (om_max_osd m * 4) EINVAL;
      decode_affinities (Z.to_nat (om_max_osd m)) 0.

Definition decode_new_affinity (end_ : Z) : odec unit :=
  osd ⇐ ceph_decode_32_safe buf end_ EINVAL;
  aff ⇐ ceph_decode_32_safe buf end_ EINVAL;
  set_primary_affinity osd aff.

Definition decode_new_primary_affinity (end_ : Z) : odec unit :=
  n ⇐ ceph_decode_32_safe buf end_ EINVAL;
  times (Z.to_nat n) (decode_new_affinity end_).

(** ** A full map *)

(** fsid, epoch, created, modified *)
Definition decode_header (end_ : Z) : odec unit :=
  _ ⇐ ceph_decode_need end_ (16 + 4 + 8 + 8) EINVAL;
  fsid ⇐ ceph_decode_copy buf 16;
  epoch ⇐ ceph_decode_32 buf;
  created ⇐ ceph_decode_copy buf 8;
  modified ⇐ ceph_decode_copy buf 8;
  modify (fun m => set_header m fsid epoch created modified).

(** osd_state, osd_weight, osd_addrs *)
Definition decode_osds (end_ : Z) : odec unit :=
  m ⇐ get_obj;
  let max := om_max_osd m in
  _ ⇐ ceph_decode_need end_ (3 * 4 + max * (1 + 4 + sizeof_addr)) EINVAL;
  n ⇐ ceph_decode_32 buf;
  if negb (n =? max) then derr EINVAL
  else
    st ⇐ ceph_decode_copy buf max;
    _ ⇐ modify (fun m => set_state m st);
    n ⇐ ceph_decode_32 buf;
    if negb (n =? max) then derr EINVAL
    else
      w ⇐ repeat_dec (Z.to_nat max) (ceph_decode_32 buf);
      _ ⇐ modify (fun m => set_weight m w);
      n ⇐ ceph_decode_32 buf;
      if negb (n =? max) then derr EINVAL
      else
        ad ⇐ repeat_dec (Z.to_nat max) (ceph_decode_copy buf sizeof_addr);
        modify (fun m => set_addr m (ceph_decode_addr <$> ad)).

Definition osdmap_decode (end_ : Z) : odec unit :=
  struct_v ⇐ get_osdmap_client_data_v end_;
  _ ⇐ decode_header end_;
  _ ⇐ decode_pools end_;
  _ ⇐ decode_pool_names end_;
  pool_max ⇐ ceph_decode_32_safe buf end_ EINVAL;
  _ ⇐ modify (fun m => set_flags_max m (om_flags m) pool_max);
  flags ⇐ ceph_decode_32_safe buf end_ EINVAL;
  _ ⇐ modify (fun m => set_flags_max m flags (om_pool_max m));
  max ⇐ ceph_decode_32_safe buf end_ EINVAL;
  _ ⇐ osdmap_set_max_osd (s32 max);
  _ ⇐ decode_osds end_;
  _ ⇐ decode_pg_temp end_;
  _ ⇐ (if 1 <=? struct_v then decode_primary_temp end_ else dret tt);
  _ ⇐ (if 2 <=? struct_v then decode_primary_affinity end_
       else modify (fun m => set_affinity m None));
  len ⇐ ceph_decode_32_safe buf end_ EINVAL;
  p ⇐ get_pos;
  c ⇐ crush_decode buf kmalloc_ok p (Z.min (p + len) end_);
  _ ⇐ modify (fun m => set_crush m c);
  set_pos end_.

(** What kzalloc leaves. *)
Definition zero_osdmap : ceph_osdmap :=
  OsdMap (repeat 0 16) 0 (repeat 0 8) (repeat 0 8) 0 0 [] [] [] Nil Nil None Nil 0 None.
Definition sizeof_osdmap : Z := 368.

(** The new map is decoded on its own; the state of the caller is kept. *)
Definition ceph_osdmap_decode (end_ : Z) : odec ceph_osdmap := fun s =>
  match kmalloc_or kmalloc_ok sizeof_osdmap ENOMEM s with
  | (Ret _, s1) =>
      let '(res, s2) := osdmap_decode end_ (Dst (d_pos s1) (d_allocs s1) zero_osdmap) in
      let back := Dst (d_pos s2) (d_allocs s2) (d_obj s) in
      match res with
      | Ret _ => (Ret (d_obj s2), back)
      | Err e => (Err e, back)
      | Fault f => (Fault f, back)
      end
  | (Err e, s1) => (Err e, s1)
  | (Fault f, s1) => (Fault f, s1)
  end.

(** ** An incremental update *)
Definition decode_old_pool (end_ : Z) : odec unit :=
  pl ⇐ ceph_decode_64_safe buf end_ EINVAL;
  m ⇐ get_obj;
  match lookup_pg_pool (om_pg_pools m) pl with
  | Some (q, _) => put_obj (set_pg_pools m (remove_pg_pool (om_pg_pools m) q))
  | None => dret tt
  end.

Definition decode_new_up (end_ : Z) : odec unit :=
  osd ⇐ ceph_decode_32_safe buf end_ EINVAL;
  addr ⇐ ceph_decode_copy_safe buf end_ sizeof_addr EINVAL;
  let addr := ceph_decode_addr addr in
  m ⇐ get_obj;
  _ ⇐ dlift (bug_on (om_max_osd m <=? osd));
  st ⇐ dlift (rd (om_osd_state m) osd);
  st ⇐ dlift (wr (om_osd_state m) osd (Z.lor st CEPH_OSD_UP));
  ad ⇐ dlift (wr (om_osd_addr m) osd addr);
  put_obj (set_addr (set_state m st) ad).

(** the state byte is read without a check for room *)
Definition decode_new_state (end_ : Z) : odec unit :=
  osd ⇐ ceph_decode_32_safe buf end_ EINVAL;
  x ⇐ ceph_decode_8 buf;
  let xorstate := if x =? 0 then CEPH_OSD_UP else x in
  m ⇐ get_obj;
  if osd <? om_max_osd m then
    st ⇐ dlift (rd (om_osd_state m) osd);
    st ⇐ dlift (wr (om_osd_state m) osd (Z.lxor st xorstate));
    put_obj (set_state m st)
  else dret tt.

Definition decode_new_weight (end_ : Z) : odec unit :=
  _ ⇐ ceph_decode_need end_ (4 * 2) EINVAL;
  osd ⇐ ceph_decode_32 buf;
  off ⇐ ceph_decode_32 buf;
  m ⇐ get_obj;
  if osd <? om_max_osd m then
    w ⇐ dlift (wr (om_osd_weight m) osd off);
    put_obj (set_weight m w)
  else dret tt.

(** [ceph_decode_32_safe(len); while (len--) ...] *)
Definition decode_list (end_ : Z) (body : odec unit) : odec unit :=
  len ⇐ ceph_decode_32_safe buf end_ EINVAL;
  times (Z.to_nat len) body.

(** "new crush?": the decoded map, if there is one *)
Definition decode_new_crush (end_ : Z) : odec (option crush_map) :=
  len ⇐ ceph_decode_32_safe buf end_ EINVAL;
  let len := s32 len in
  if 0 <? len then
    p ⇐ get_pos;
    c ⇐ crush_decode buf kmalloc_ok p (Z.min (p + len) end_);
    _ ⇐ skip len;
    dret c
  else dret None.

(** From "new flags?" on: the part that changes the map. *)
Definition apply_changes (end_ struct_v new_pool_max new_flags : Z) (modified : list Z)
    (newcrush : option crush_map) : odec unit :=
  _ ⇐ modify (fun m => set_flags_max m
        (if 0 <=? new_flags then u32 new_flags else om_flags m)
        (if 0 <=? new_pool_max then u32 new_pool_max else om_pool_max m));
  max ⇐ ceph_decode_32_safe buf end_ EINVAL;
  _ ⇐ (if 0 <=? s32 max then osdmap_set_max_osd (s32 max) else dret tt);
  _ ⇐ modify (fun m => set_header m (om_fsid m) (u32 (om_epoch m + 1)) (om_created m) modified);
  _ ⇐ modify (fun m => match newcrush with Some c => set_crush m (Some c) | None => m end);
  _ ⇐ decode_new_pools end_;
  _ ⇐ decode_pool_names end_;
  _ ⇐ decode_list end_ (decode_old_pool end_);
  _ ⇐ decode_list end_ (decode_new_up end_);
  _ ⇐ decode_list end_ (decode_new_state end_);
  _ ⇐ decode_list end_ (decode_new_weight end_);
  _ ⇐ decode_new_pg_temp end_;
  _ ⇐ (if 1 <=? struct_v then decode_new_primary_temp end_ else dret tt);
  _ ⇐ (if 2 <=? struct_v then decode_new_primary_affinity end_ else dret tt);
  set_pos end_.

(** The returned map: a new one ([Some]), or the one passed in, updated. *)
Definition osdmap_apply_incremental (end_ : Z) : odec (option ceph_osdmap) :=
  struct_v ⇐ get_osdmap_client_data_v end_;
  _ ⇐ ceph_decode_need end_ (16 + 4 + 8 + 8 + 4) EINVAL;
  fsid ⇐ ceph_decode_copy buf 16;
  epoch ⇐ ceph_decode_32 buf;
  m ⇐ get_obj;
  _ ⇐ dlift (bug_on (negb (epoch =? u32 (om_epoch m + 1))));
  modified ⇐ ceph_decode_copy buf 8;
  new_pool_max ⇐ ceph_decode_64 buf;
  new_flags ⇐ ceph_decode_32 buf;
  len ⇐ ceph_decode_32_safe buf end_ EINVAL;
  if 0 <? s32 len then
    p ⇐ get_pos;
    new ⇐ ceph_osdmap_decode (Z.min (p + s32 len) end_);
    dret (Some new)
  else
    newcrush ⇐ decode_new_crush end_;
    _ ⇐ apply_changes end_ struct_v (s64 new_pool_max) (s32 new_flags) modified newcrush;
    dret None.

End Decode.
