(* ===== verification/OsdMapInv.v ===== *)
(** * The invariant of the OSD map

    Every decoder of OsdMapDecode keeps the OSD map well-formed: the per-OSD
    arrays have [max_osd] entries and the trees are ordered.  A full decode
    establishes it, an incremental update preserves it, also when it ends in an
    error half way. *)
From S2P Require Import Prelude.
From S2P Require Import Wire.
From S2P Require Import Crush.
From S2P Require Import CrushDecode.
From S2P Require Import RbTree.
From S2P Require Import OsdMap.
From S2P Require Import OsdMapDecode.

(** ** Decoders that leave the map alone *)
Definition reads {S A} (m : dec S A) : Prop := forall s, d_obj (m s).2 = d_obj s.

Section Reads.
Context {S : Type} (buf : list Z) (kmalloc_ok : nat -> Z -> bool).

Lemma reads_bind {A B} (m : dec S A) (k : A -> dec S B) :
  reads m -> (forall a, reads (k a)) -> reads (dbind m k).
Proof.
  intros Hm Hk s. unfold dbind. specialize (Hm s).
  destruct (m s) as [[a|e|f] s']; cbn in *; [by rewrite Hk|done|done].
Qed.
Lemma reads_ret {A} (a : A) : reads (S := S) (dret a).
Proof. by intros s. Qed.
Lemma reads_err {A} e : reads (S := S) (A := A) (derr e).
Proof. by intros s. Qed.
Lemma reads_fault {A} f : reads (S := S) (A := A) (dfault f).
Proof. by intros s. Qed.
Lemma reads_lift {A} (o : outcome A) : reads (S := S) (dlift o).
Proof. by intros s. Qed.
Lemma reads_get_pos : reads (S := S) get_pos.
Proof. by intros s. Qed.
Lemma reads_set_pos p : reads (S := S) (set_pos p).
Proof. by intros s. Qed.
Lemma reads_skip n : reads (S := S) (skip n).
Proof. by intros s. Qed.
Lemma reads_get_obj : reads (S := S) get_obj.
Proof. by intros s. Qed.
Lemma reads_kmalloc size : reads (S := S) (kmalloc kmalloc_ok size).
Proof. by intros s. Qed.
End Reads.

Create HintDb reads.
#[export] Hint Resolve reads_ret reads_err reads_fault reads_lift reads_get_pos reads_set_pos
  reads_skip reads_get_obj reads_kmalloc : reads.

(** Decompose a decoder down to its primitive steps. *)
Ltac solve_reads :=
  repeat first
    [ solve [auto with reads]
    | apply reads_bind; [|intros ?]
    | match goal with
      | |- reads (match ?x with _ => _ end) => destruct x
      end ].

Section ReadsDecoders.
Context {S : Type} (buf : list Z) (kmalloc_ok : nat -> Z -> bool).

Lemma reads_copy n : reads (S := S) (ceph_decode_copy buf n).
Proof. unfold ceph_decode_copy. solve_reads. Qed.
Hint Resolve reads_copy : reads.
Lemma reads_8 : reads (S := S) (ceph_decode_8 buf).
Proof. unfold ceph_decode_8. solve_reads. Qed.
Lemma reads_16 : reads (S := S) (ceph_decode_16 buf).
Proof. unfold ceph_decode_16. solve_reads. Qed.
Lemma reads_32 : reads (S := S) (ceph_decode_32 buf).
Proof. unfold ceph_decode_32. solve_reads. Qed.
Lemma reads_64 : reads (S := S) (ceph_decode_64 buf).
Proof. unfold ceph_decode_64. solve_reads. Qed.
Lemma reads_need e n err : reads (S := S) (ceph_decode_need e n err).
Proof. unfold ceph_decode_need. solve_reads. Qed.
Hint Resolve reads_8 reads_16 reads_32 reads_64 reads_need : reads.
Lemma reads_8_safe e err : reads (S := S) (ceph_decode_8_safe buf e err).
Proof. unfold ceph_decode_8_safe. solve_reads. Qed.
Lemma reads_16_safe e err : reads (S := S) (ceph_decode_16_safe buf e err).
Proof. unfold ceph_decode_16_safe. solve_reads. Qed.
Lemma reads_32_safe e err : reads (S := S) (ceph_decode_32_safe buf e err).
Proof. unfold ceph_decode_32_safe. solve_reads. Qed.
Lemma reads_64_safe e err : reads (S := S) (ceph_decode_64_safe buf e err).
Proof. unfold ceph_decode_64_safe. solve_reads. Qed.
Lemma reads_copy_safe e n err : reads (S := S) (ceph_decode_copy_safe buf e n err).
Proof. unfold ceph_decode_copy_safe. solve_reads. Qed.
Lemma reads_kmalloc_or size err : reads (S := S) (kmalloc_or kmalloc_ok size err).
Proof. unfold kmalloc_or. solve_reads. Qed.
Lemma reads_repeat {A} n (m : dec S A) : reads m -> reads (repeat_dec n m).
Proof. intros Hm. induction n as [|n IH]; cbn [repeat_dec]; solve_reads. Qed.
Lemma reads_s32 : reads (S := S) (decode_s32 buf).
Proof. unfold decode_s32. solve_reads. Qed.

Lemma reads_crush_decode start e : reads (S := S) (crush_decode buf kmalloc_ok start e).
Proof.
  intros s. unfold crush_decode. destruct (crush_decode_map _ _ _ _) as [[a|er|f] s']; done.
Qed.
End ReadsDecoders.

#[export] Hint Resolve reads_copy reads_8 reads_16 reads_32 reads_64 reads_need reads_8_safe
  reads_16_safe reads_32_safe reads_64_safe reads_copy_safe reads_kmalloc_or reads_repeat reads_s32
  reads_crush_decode : reads.

(** ** The invariant *)
Record osdmap_ok (m : ceph_osdmap) : Prop := {
  ok_max : 0 <= om_max_osd m < 2 ^ 31;
  ok_state : Z.of_nat (length (om_osd_state m)) = om_max_osd m;
  ok_weight : Z.of_nat (length (om_osd_weight m)) = om_max_osd m;
  ok_addr : Z.of_nat (length (om_osd_addr m)) = om_max_osd m;
  ok_affinity : forall l, om_osd_primary_affinity m = Some l -> Z.of_nat (length l) = om_max_osd m;
  ok_pg_temp : pg_temp_ok (om_pg_temp m);
  ok_primary_temp : primary_temp_ok (om_primary_temp m);
  ok_pools : ordered pi_id Z.lt (fun _ => True) (om_pg_pools m) }.

Lemma zero_osdmap_ok : osdmap_ok zero_osdmap.
Proof. split; try done; apply ordered_Nil. Qed.

(** ** Triples: the map before, the value and the map after; an error leaves a
    well-formed map. *)
Definition hoare {A} (P : ceph_osdmap -> Prop) (m : dec ceph_osdmap A)
    (Q : A -> ceph_osdmap -> Prop) : Prop :=
  forall s, P (d_obj s) ->
    match m s with
    | (Ret a, s') => Q a (d_obj s')
    | (Err _, s') => osdmap_ok (d_obj s')
    | (Fault _, _) => True
    end.

Lemma hoare_bind {A B} P (m : dec ceph_osdmap A) (k : A -> dec ceph_osdmap B) Q R :
  hoare P m Q -> (forall a, hoare (Q a) (k a) R) -> hoare P (dbind m k) R.
Proof.
  intros Hm Hk s HP. specialize (Hm s HP). unfold dbind.
  destruct (m s) as [[a|e|f] s']; [|done|done]. by apply Hk.
Qed.

Lemma hoare_weaken {A} (P P' : ceph_osdmap -> Prop) (m : dec ceph_osdmap A) (Q Q' : A -> ceph_osdmap -> Prop) :
  (forall o, P' o -> P o) -> (forall a o, Q a o -> Q' a o) -> hoare P m Q -> hoare P' m Q'.
Proof.
  intros HP HQ Hm s Hs. specialize (Hm s (HP _ Hs)). destruct (m s) as [[a|e|f] s']; auto.
Qed.

(** Steps that only read. *)
Lemma hoare_reads {A} (P : ceph_osdmap -> Prop) (m : dec ceph_osdmap A) :
  reads m -> (forall o, P o -> osdmap_ok o) -> hoare P m (fun _ => P).
Proof.
  intros Hm HP s Hs. specialize (Hm s). destruct (m s) as [[a|e|f] s']; cbn in Hm.
  - by rewrite Hm.
  - rewrite Hm. by apply HP.
  - done.
Qed.

Lemma hoare_bind_reads {A B} (P : ceph_osdmap -> Prop) (m : dec ceph_osdmap A) (k : A -> dec ceph_osdmap B) R :
  reads m -> (forall o, P o -> osdmap_ok o) -> (forall a, hoare P (k a) R) -> hoare P (dbind m k) R.
Proof. intros Hm HP Hk. eapply hoare_bind; [by apply hoare_reads|done]. Qed.

Lemma hoare_get {B} (P : ceph_osdmap -> Prop) (k : ceph_osdmap -> dec ceph_osdmap B) R :
  (forall m, P m -> hoare (fun o => o = m) (k m) R) -> hoare P (dbind get_obj k) R.
Proof. intros Hk s HP. cbn. by apply Hk. Qed.

Lemma hoare_put (P : ceph_osdmap -> Prop) o (Q : unit -> ceph_osdmap -> Prop) :
  Q tt o -> hoare P (put_obj o) Q.
Proof. by intros HQ s _. Qed.

Lemma hoare_modify (P : ceph_osdmap -> Prop) f (Q : unit -> ceph_osdmap -> Prop) :
  (forall o, P o -> Q tt (f o)) -> hoare P (modify f) Q.
Proof. intros HQ s HP. cbn. by apply HQ. Qed.

Lemma hoare_ret {A} (P : ceph_osdmap -> Prop) (a : A) Q : (forall o, P o -> Q a o) -> hoare P (dret a) Q.
Proof. intros HQ s HP. by apply HQ. Qed.

Lemma hoare_lift {A} (P : ceph_osdmap -> Prop) (o : outcome A) (Q : A -> ceph_osdmap -> Prop) :
  (forall m, P m -> osdmap_ok m) -> (forall a m, o = Ret a -> P m -> Q a m) -> hoare P (dlift o) Q.
Proof. intros HP HQ s Hs. unfold dlift. destruct o; [by apply HQ|by apply HP|done]. Qed.

Lemma hoare_err {A} (P : ceph_osdmap -> Prop) e (Q : A -> ceph_osdmap -> Prop) :
  (forall o, P o -> osdmap_ok o) -> hoare P (derr e) Q.
Proof. intros HP s Hs. by apply HP. Qed.

Lemma hoare_times n body :
  hoare osdmap_ok body (fun _ => osdmap_ok) -> hoare osdmap_ok (times n body) (fun _ => osdmap_ok).
Proof.
  intros Hb. induction n as [|n IH]; cbn [times]; [by apply hoare_ret|].
  eapply hoare_bind; [done|]. by intros [].
Qed.

Lemma hoare_bind_lift {A B} (P : ceph_osdmap -> Prop) (o : outcome A) (k : A -> dec ceph_osdmap B) R :
  (forall m, P m -> osdmap_ok m) -> (forall a, o = Ret a -> hoare P (k a) R) -> hoare P (dbind (dlift o) k) R.
Proof.
  intros HP Hk s Hs. unfold dbind, dlift. destruct o as [a|e|f]; [by apply Hk|by apply HP|done].
Qed.

Lemma hoare_bind_put {B} (P : ceph_osdmap -> Prop) o (k : unit -> dec ceph_osdmap B) R :
  hoare (fun x => x = o) (k tt) R -> hoare P (dbind (put_obj o) k) R.
Proof. intros Hk s _. cbn. by apply Hk. Qed.

Lemma hoare_fact {A} (P : ceph_osdmap -> Prop) (m : dec ceph_osdmap A) R :
  (forall o, P o -> hoare (fun x => x = o) m R) -> hoare P m R.
Proof. intros Hm s Hs. by eapply Hm. Qed.

(** A step of [hoare osdmap_ok] that only reads. *)
Ltac read_step := apply hoare_bind_reads; [solve_reads|naive_solver|intros ?].

(** ** The map with one component replaced *)
Lemma set_pg_temp_ok m t : osdmap_ok m -> pg_temp_ok t -> osdmap_ok (set_pg_temp m t).
Proof. intros [? ? ? ? ? ? ? ?] ?. by split. Qed.
Lemma set_primary_temp_ok m t : osdmap_ok m -> primary_temp_ok t -> osdmap_ok (set_primary_temp m t).
Proof. intros [? ? ? ? ? ? ? ?] ?. by split. Qed.
Lemma set_pg_pools_ok m t :
  osdmap_ok m -> ordered pi_id Z.lt (fun _ => True) t -> osdmap_ok (set_pg_pools m t).
Proof. intros [? ? ? ? ? ? ? ?] ?. by split. Qed.
Lemma set_affinity_ok m l :
  osdmap_ok m -> (forall l', l = Some l' -> Z.of_nat (length l') = om_max_osd m) -> osdmap_ok (set_affinity m l).
Proof. intros [? ? ? ? ? ? ? ?] ?. by split. Qed.
Lemma set_state_ok m l :
  osdmap_ok m -> Z.of_nat (length l) = om_max_osd m -> osdmap_ok (set_state m l).
Proof. intros [? ? ? ? ? ? ? ?] ?. by split. Qed.
Lemma set_weight_ok m l :
  osdmap_ok m -> Z.of_nat (length l) = om_max_osd m -> osdmap_ok (set_weight m l).
Proof. intros [? ? ? ? ? ? ? ?] ?. by split. Qed.
Lemma set_addr_ok m l :
  osdmap_ok m -> Z.of_nat (length l) = om_max_osd m -> osdmap_ok (set_addr m l).
Proof. intros [? ? ? ? ? ? ? ?] ?. by split. Qed.
Lemma set_header_ok m a b c d : osdmap_ok m -> osdmap_ok (set_header m a b c d).
Proof. intros [? ? ? ? ? ? ? ?]. by split. Qed.
Lemma set_flags_max_ok m a b : osdmap_ok m -> osdmap_ok (set_flags_max m a b).
Proof. intros [? ? ? ? ? ? ? ?]. by split. Qed.
Lemma set_crush_ok m c : osdmap_ok m -> osdmap_ok (set_crush m c).
Proof. intros [? ? ? ? ? ? ? ?]. by split. Qed.

(** ** Trees *)
Section Trees.
Context `{RbOps}.

Lemma remove_pg_temp_ok t pgid t' : pg_temp_ok t -> remove_pg_temp t pgid = Ret t' -> pg_temp_ok t'.
Proof.
  intros Ht Hr. pose proof (remove_pg_temp_refines t pgid Ht) as Hs. rewrite Hr in Hs.
  destruct (pg_temp_map t !! _); [|done]. by destruct Hs as (? & [= <-] & ? & _).
Qed.
Lemma insert_pg_temp_ok t new t' : pg_temp_ok t -> insert_pg_temp new t = Ret t' -> pg_temp_ok t'.
Proof.
  intros Ht Hr. pose proof (insert_pg_temp_refines t new Ht) as Hs. rewrite Hr in Hs.
  destruct (pg_temp_map t !! _); [done|]. by destruct Hs as (? & [= <-] & ? & _).
Qed.
Lemma remove_primary_temp_ok t pgid t' :
  primary_temp_ok t -> remove_primary_temp t pgid = Ret t' -> primary_temp_ok t'.
Proof.
  intros Ht Hr. pose proof (remove_primary_temp_refines t pgid Ht) as Hs. rewrite Hr in Hs.
  destruct (primary_temp_map t !! _); [|done]. by destruct Hs as (? & [= <-] & ? & _).
Qed.
Lemma insert_primary_temp_ok t new t' :
  primary_temp_ok t -> insert_primary_temp new t = Ret t' -> primary_temp_ok t'.
Proof.
  intros Ht Hr. pose proof (insert_primary_temp_refines t new Ht) as Hs. rewrite Hr in Hs.
  destruct (primary_temp_map t !! _); [done|]. by destruct Hs as (? & [= <-] & ? & _).
Qed.

Lemma insert_pg_pool_ok t new t' :
  ordered pi_id Z.lt (fun _ => True) t -> insert_pg_pool t new = Ret t' ->
  ordered pi_id Z.lt (fun _ => True) t'.
Proof.
  intros Ht Hr. unfold insert_pg_pool in Hr.
  pose proof (insert_refines pi_id Z.lt pool_cmp_insert Z_lt_total (fun _ => True)
    (fun k v _ _ => proj1 (pool_cmp_insert_spec k v)) (fun k v _ _ => proj2 (pool_cmp_insert_spec k v))
    t (pi_id new) new Ht I eq_refl) as Hs. rewrite Hr in Hs.
  destruct (tree_map pi_id t !! _); [done|]. by destruct Hs as (? & [= <-] & ? & _).
Qed.

Lemma remove_or_bug_ok {A} (P : A -> Prop) inc (removed : outcome A) old t :
  (forall t', removed = Ret t' -> P t') -> P old -> remove_or_bug inc removed old = Ret t -> P t.
Proof.
  intros Hr Ho. unfold remove_or_bug. destruct removed as [t'|e|f]; [|by intros [= <-]|done].
  destruct (negb inc); [done|]. intros [= <-]. by apply Hr.
Qed.
End Trees.

Section Decoders.
Context `{RbOps} (buf : list Z) (kmalloc_ok : nat -> Z -> bool).

(** The allocations of a map's arrays succeed, and no allocation of half the
    address space does. *)
Hypothesis Hsmall : forall n size, 0 <= size < 2 ^ 40 -> kmalloc_ok n size = true.
Hypothesis Hlarge : forall n size, kmalloc_ok n size = true -> size < 2 ^ 62.

Local Abbreviation keeps := (fun m => hoare osdmap_ok m (fun _ => osdmap_ok)).

Lemma reads_pgid e : reads (ceph_decode_pgid buf e).
Proof. unfold ceph_decode_pgid. solve_reads. Qed.
Hint Resolve reads_pgid : reads.


Lemma keeps_pg_temp e inc : keeps (decode_one_pg_temp buf kmalloc_ok e inc).
Proof.
  unfold decode_one_pg_temp. read_step. read_step. apply hoare_get. intros m Hm.
  apply hoare_bind_lift; [naive_solver|]. intros t Ht.
  assert (Hok : pg_temp_ok t).
  { eapply (remove_or_bug_ok pg_temp_ok); [|apply Hm|exact Ht]. intros t'. apply remove_pg_temp_ok, Hm. }
  apply hoare_bind_put. pose proof (set_pg_temp_ok m t Hm Hok) as Hm'.
  destruct (negb inc || (0 <? a0)); [|apply hoare_ret; by intros ? ->].
  read_step. destruct (_ <? _); [apply hoare_err; by intros ? ->|]. read_step. read_step.
  apply hoare_bind_lift; [naive_solver|]. intros t' Ht'. apply hoare_modify. intros ? ->.
  apply set_pg_temp_ok; [done|]. by eapply insert_pg_temp_ok.
Qed.

Lemma keeps_primary_temp e inc : keeps (decode_one_primary_temp buf kmalloc_ok e inc).
Proof.
  unfold decode_one_primary_temp. read_step. read_step. apply hoare_get. intros m Hm.
  apply hoare_bind_lift; [naive_solver|]. intros t Ht.
  assert (Hok : primary_temp_ok t).
  { eapply (remove_or_bug_ok primary_temp_ok); [|apply Hm|exact Ht]. intros t'. apply remove_primary_temp_ok, Hm. }
  apply hoare_bind_put. pose proof (set_primary_temp_ok m t Hm Hok) as Hm'.
  destruct (negb inc || _); [|apply hoare_ret; by intros ? ->].
  read_step. apply hoare_bind_lift; [naive_solver|]. intros t' Ht'. apply hoare_modify. intros ? ->.
  apply set_primary_temp_ok; [done|]. by eapply insert_primary_temp_ok.
Qed.

Lemma reads_pool e pi : reads (decode_pool buf e pi).
Proof.
  assert (Htimes : forall n, reads (times n (skip_snap buf))).
  { unfold skip_snap. induction n as [|n IH]; cbn [times]; solve_reads. }
  unfold decode_pool, decode_pool_body. solve_reads.
Qed.
Hint Resolve reads_pool : reads.

(** decode_pool keeps the id. *)
Lemma decode_pool_id e pi s pi' s' : decode_pool buf e pi s = (Ret pi', s') -> pi_id pi' = pi_id pi.
Proof.
  assert (Hb : forall A B (m : dec ceph_osdmap A) (k : A -> dec ceph_osdmap B) s b s',
    dbind m k s = (Ret b, s') -> exists a s1, m s = (Ret a, s1) /\ k a s1 = (Ret b, s')).
  { intros A B m k s0 b s0'. unfold dbind. destruct (m s0) as [[a|?|?] s1]; naive_solver. }
  unfold decode_pool, decode_pool_body. intros Hd.
  repeat match goal with
    | H : (match ?x with _ => _ end) _ = (Ret _, _) |- _ => destruct x
    | H : derr _ _ = (Ret _, _) |- _ => discriminate H
    | H : dbind _ _ _ = (Ret _, _) |- _ => apply Hb in H; destruct H as (? & ? & ? & H)
    | H : dret _ _ = (Ret _, _) |- _ => injection H as <- <-
    end;
  match goal with H : dlift (calc_pg_masks _) _ = (Ret _, _) |- _ =>
    unfold dlift, calc_pg_masks in H; injection H as H _; inv_outcome; done end.
Qed.

Lemma keeps_one_pool e inc : keeps (decode_one_pool buf kmalloc_ok e inc).
Proof.
  unfold decode_one_pool. read_step.
  eapply hoare_bind with (Q := fun r o => osdmap_ok o /\ at_path r.1 (om_pg_pools o) = Some r.2).
  - unfold pool_slot. apply hoare_get. intros m Hm.
    assert (Hfresh : hoare (fun o => o = m)
      (_ ⇐ kmalloc_or kmalloc_ok sizeof_pool_info ENOMEM;
       t ⇐ dlift (insert_pg_pool (om_pg_pools m) (new_pool a));
       _ ⇐ put_obj (set_pg_pools m t);
       dlift (deref (tree_lookup pool_cmp_insert t (s64 a))))
      (fun r o => osdmap_ok o /\ at_path r.1 (om_pg_pools o) = Some r.2)).
    { read_step. apply hoare_bind_lift; [naive_solver|]. intros t Ht. apply hoare_bind_put.
      assert (Hok : osdmap_ok (set_pg_pools m t)).
      { apply set_pg_pools_ok; [done|]. eapply insert_pg_pool_ok; [apply Hm|exact Ht]. }
      apply hoare_lift; [by intros ? ->|]. intros [q pi] ? Hd ->. split; [done|].
      destruct (tree_lookup _ _ _) as [[q' pi']|] eqn:E; [|done]. injection Hd as -> ->.
      by apply tree_lookup_at in E. }
    destruct (lookup_pg_pool _ _) as [[q pi]|] eqn:E; [|done]. destruct (negb inc); [done|].
    apply hoare_ret. intros ? ->. split; [done|]. by apply tree_lookup_at in E.
  - intros [q pi]. cbn [fst snd]. unfold decode_pool_at. intros s [Hok Hat].
    unfold dbind. destruct (decode_pool buf e pi s) as [[pi'|er|f] s'] eqn:Ed; [|by rewrite <- (reads_pool e pi s), Ed in Hok|done].
    pose proof (reads_pool e pi s) as Hobj. rewrite Ed in Hobj. cbn in Hobj. cbn. rewrite Hobj.
    apply set_pg_pools_ok; [done|]. apply (update_at pi_id Z.lt (fun _ => True) _ q pi pi'); [apply Hok|done|].
    by eapply decode_pool_id.
Qed.

Lemma keeps_pool_name e : keeps (decode_pool_name buf kmalloc_ok e).
Proof.
  unfold decode_pool_name. read_step. read_step. read_step. apply hoare_get. intros m Hm.
  eapply hoare_bind with (Q := fun _ => osdmap_ok).
  2:{ intros ?. apply hoare_reads; [solve_reads|done]. }
  destruct (lookup_pg_pool _ _) as [[q pi]|] eqn:E; [|apply hoare_ret; by intros ? ->].
  read_step. apply hoare_bind_lift; [naive_solver|]. intros chars _. read_step.
  apply hoare_put. apply set_pg_pools_ok; [done|].
  apply (update_at pi_id Z.lt (fun _ => True) _ q pi); [apply Hm|by apply tree_lookup_at in E|done].
Qed.

Lemma keeps_old_pool e : keeps (decode_old_pool buf e).
Proof.
  unfold decode_old_pool. read_step. apply hoare_get. intros m Hm.
  destruct (lookup_pg_pool _ _) as [[q pi]|] eqn:E; [|apply hoare_ret; by intros ? ->].
  apply hoare_put. apply set_pg_pools_ok; [done|].
  apply (erase_at pi_id Z.lt (fun _ => True) _ q pi); [apply Hm|by apply tree_lookup_at in E].
Qed.

Lemma keeps_new_up e : keeps (decode_new_up buf e).
Proof.
  unfold decode_new_up. read_step. read_step. apply hoare_get. intros m Hm.
  do 4 (apply hoare_bind_lift; [naive_solver|]; intros ? ?).
  apply hoare_put. destruct Hm. apply set_addr_ok; [apply set_state_ok; [done|]|];
    (erewrite wr_length by done); done.
Qed.

Lemma keeps_new_state e : keeps (decode_new_state buf e).
Proof.
  unfold decode_new_state. read_step. read_step. apply hoare_get. intros m Hm.
  destruct (_ <? om_max_osd m); [|apply hoare_ret; by intros ? ->].
  do 2 (apply hoare_bind_lift; [naive_solver|]; intros ? ?).
  apply hoare_put. apply set_state_ok; [done|]. erewrite wr_length by done. apply Hm.
Qed.

Lemma keeps_new_weight e : keeps (decode_new_weight buf e).
Proof.
  unfold decode_new_weight. read_step. read_step. read_step. apply hoare_get. intros m Hm.
  destruct (_ <? om_max_osd m); [|apply hoare_ret; by intros ? ->].
  apply hoare_bind_lift; [naive_solver|]. intros w Hw.
  apply hoare_put. apply set_weight_ok; [done|]. erewrite wr_length by done. apply Hm.
Qed.

Lemma keeps_set_primary_affinity osd aff : keeps (set_primary_affinity kmalloc_ok osd aff).
Proof.
  unfold set_primary_affinity. apply hoare_get. intros m Hm.
  apply hoare_bind_lift; [naive_solver|]. intros _ _.
  eapply hoare_bind with (Q := fun l o => o = m /\ Z.of_nat (length l) = om_max_osd m).
  - destruct (om_osd_primary_affinity m) as [l|] eqn:E.
    + apply hoare_ret. intros ? ->. split; [done|]. by apply Hm.
    + read_step. apply hoare_ret. intros ? ->. split; [done|]. rewrite length_replicate.
      pose proof (ok_max _ Hm). lia.
  - intros l. apply hoare_fact. intros o [-> Hl]. apply hoare_bind_lift; [by intros ? ->|].
    intros l' Hw. apply hoare_put. apply set_affinity_ok; [done|]. intros ? [= <-].
    by erewrite wr_length.
Qed.

Lemma keeps_affinities n i : keeps (decode_affinities buf kmalloc_ok n i).
Proof.
  revert i. induction n as [|n IH]; intros i; cbn [decode_affinities]; [by apply hoare_ret|].
  read_step. eapply hoare_bind; [apply keeps_set_primary_affinity|]. intros ?. apply IH.
Qed.

Lemma keeps_primary_affinity e : keeps (decode_primary_affinity buf kmalloc_ok e).
Proof.
  unfold decode_primary_affinity. read_step. destruct (a =? 0).
  { apply hoare_modify. intros o Ho. by apply set_affinity_ok. }
  apply hoare_get. intros m Hm. destruct (negb _); [apply hoare_err; by intros ? ->|].
  read_step. eapply hoare_weaken; [| |apply keeps_affinities]; [by intros ? ->|done].
Qed.

Lemma keeps_times_list e body : keeps body -> keeps (decode_list buf e body).
Proof. intros Hb. unfold decode_list. read_step. by apply hoare_times. Qed.

(** osdmap_set_max_osd: new entries are initialised, old ones are kept. *)
Lemma fill_length {A} n (l : list A) i v l' : fill n l i v = Ret l' -> length l' = length l.
Proof.
  revert l i. induction n as [|n IH]; intros l i; cbn [fill]; intros Hf; inv_outcome; [done|].
  rewrite (IH _ _ Hf). by eapply wr_length.
Qed.

Lemma length_realloc {A} (l : list A) n d : 0 <= n -> Z.of_nat (length (realloc l n d)) = n.
Proof. intros. unfold realloc. rewrite length_app, length_take, length_replicate. lia. Qed.

Lemma hoare_kmalloc {B} (P : ceph_osdmap -> Prop) size (k : unit -> dec ceph_osdmap B) R :
  0 <= size < 2 ^ 40 -> hoare P (k tt) R -> hoare P (dbind (kmalloc_or kmalloc_ok size ENOMEM) k) R.
Proof.
  intros Hs Hk s HP. unfold dbind, kmalloc_or, kmalloc, dbind. rewrite Hsmall, orb_true_r by done. cbn.
  by apply Hk.
Qed.

Lemma fill_noerr {A} n (l : list A) i v e : fill n l i v <> Err e.
Proof.
  revert l i. induction n as [|n IH]; intros l i; cbn [fill]; [done|].
  unfold wr. destruct (_ && _); cbn; [apply IH|done].
Qed.

Lemma hoare_bind_fill {A B} (P : ceph_osdmap -> Prop) n (l : list A) i v (k : list A -> dec ceph_osdmap B) R :
  (forall l', length l' = length l -> hoare P (k l') R) -> hoare P (dbind (dlift (fill n l i v)) k) R.
Proof.
  intros Hk s Hs. unfold dbind, dlift. destruct (fill n l i v) as [l'|e|f] eqn:E; [|by apply fill_noerr in E|done].
  apply Hk; [|done]. by eapply fill_length.
Qed.

Lemma hoare_bind_modify {B} f (o : ceph_osdmap) (k : unit -> dec ceph_osdmap B) R :
  hoare (fun x => x = f o) (k tt) R -> hoare (fun x => x = o) (dbind (modify f) k) R.
Proof. intros Hk s Hs. cbn beta in Hs. cbn. apply Hk. cbn. by rewrite Hs. Qed.

Lemma set_max_negative max : - 2 ^ 31 <= max < 0 -> keeps (osdmap_set_max_osd kmalloc_ok max).
Proof.
  intros Hneg s Hs. unfold osdmap_set_max_osd.
  assert (Hu : u64 max = max + 2 ^ 64) by (unfold u64; rewrite <- (Z_mod_plus_full max 1), Z.mod_small; lia).
  rewrite Hu. unfold dbind, get_obj, kmalloc_or, kmalloc, dbind. rewrite (proj2 (Z.eqb_neq _ 0)) by lia. cbn [orb].
  destruct (kmalloc_ok _ _) eqn:E; [apply Hlarge in E; lia|]. done.
Qed.

Lemma keeps_set_max_osd max :
  - 2 ^ 31 <= max < 2 ^ 31 -> keeps (osdmap_set_max_osd kmalloc_ok max).
Proof.
  intros Hmax. destruct (Z.lt_ge_cases max 0) as [Hneg|Hnn]; [apply set_max_negative; lia|].
  unfold osdmap_set_max_osd. apply hoare_get. intros m Hm.
  rewrite !u64_small by (unfold sizeof_addr; lia).
  do 3 (apply hoare_kmalloc; [unfold sizeof_addr; lia|]; apply hoare_bind_modify).
  apply hoare_get. intros m3 ->. cbn [om_osd_state om_osd_weight om_osd_addr om_osd_primary_affinity
    set_state set_weight set_addr set_osds].
  apply hoare_bind_fill. intros st Hst. apply hoare_bind_fill. intros w Hw.
  apply hoare_bind_fill. intros ad Had. apply hoare_bind_put.
  assert (Hfin : forall aff, (forall l, aff = Some l -> Z.of_nat (length l) = max) ->
    osdmap_ok (set_max (set_affinity (set_osds m (om_max_osd m) st w ad) aff) (u32 max))).
  { intros aff Haff. destruct Hm. split; cbn; rewrite ?u32_small by lia; try done; try lia.
    - rewrite Hst. by apply length_realloc.
    - rewrite Hw. by apply length_realloc.
    - rewrite Had. by apply length_realloc. }
  destruct (om_osd_primary_affinity m) as [aff|] eqn:Eaff.
  - eapply hoare_bind with (Q := fun _ o => exists l, Z.of_nat (length l) = max /\
      o = set_affinity (set_osds m (om_max_osd m) st w ad) (Some l)).
    + apply hoare_kmalloc; [lia|]. apply hoare_bind_fill. intros l Hl. apply hoare_modify. intros ? ->.
      exists l. split; [|done]. rewrite Hl. by apply length_realloc.
    + intros []. apply hoare_modify. intros ? (l & Hl & ->). apply Hfin. by intros ? [= <-].
  - eapply hoare_bind with (Q := fun _ o => o = set_osds m (om_max_osd m) st w ad).
    + apply hoare_ret. by intros ? ->.
    + intros []. apply hoare_modify. intros ? ->. specialize (Hfin None ltac:(done)).
      unfold set_max, set_affinity, set_osds in *. cbn in *. by rewrite Eaff.
Qed.

(** ** The full map and the incremental update *)
Lemma read_bytes_length n p l : read_bytes buf n p = Ret l -> length l = n.
Proof.
  revert p l. induction n as [|n IH]; cbn [read_bytes]; intros p l Hr; inv_outcome; [done|].
  cbn. f_equal. by eapply IH.
Qed.

Lemma decode_copy_length n (s : dst ceph_osdmap) l s' :
  0 <= n -> ceph_decode_copy buf n s = (Ret l, s') -> Z.of_nat (length l) = n.
Proof.
  intros Hn. unfold ceph_decode_copy, dbind, get_pos, dlift, skip, dret.
  destruct (read_bytes buf (Z.to_nat n) (d_pos s)) as [l'|?|?] eqn:E; [|done|done]. intros [= <- _].
  apply read_bytes_length in E. lia.
Qed.

Lemma repeat_dec_length {A} (body : dec ceph_osdmap A) k s l s' :
  repeat_dec k body s = (Ret l, s') -> length l = k.
Proof.
  revert s l s'. induction k as [|k IH]; cbn [repeat_dec]; intros s l s'; [by intros [= <- _]|].
  unfold dbind. destruct (body s) as [[x|?|?] s1]; [|done|done].
  destruct (repeat_dec k body s1) as [[l1|?|?] s2] eqn:E; [|done|done].
  intros [= <- _]. cbn. f_equal. by eapply IH.
Qed.

(** A step that only reads, with a fact about the value read. *)
Lemma hoare_bind_value {A B} (body : dec ceph_osdmap A) (V : A -> Prop) o (k : A -> dec ceph_osdmap B) R :
  osdmap_ok o -> reads body -> (forall s a s', body s = (Ret a, s') -> V a) ->
  (forall a, V a -> hoare (fun x => x = o) (k a) R) -> hoare (fun x => x = o) (dbind body k) R.
Proof.
  intros Ho Hr HV Hk s Hs. cbn beta in Hs. specialize (Hr s). unfold dbind.
  destruct (body s) as [[a|?|?] s'] eqn:E; cbn in Hr; [|by rewrite Hr, Hs|done].
  apply Hk; [by eapply HV|]. cbn. congruence.
Qed.

Lemma keeps_decode_osds e : keeps (decode_osds buf e).
Proof.
  unfold decode_osds. apply hoare_get. intros m Hm. pose proof (ok_max _ Hm) as Hmx.
  set (V := fun A (l : list A) => Z.of_nat (length l) = om_max_osd m).
  read_step. read_step. destruct (negb _); [apply hoare_err; by intros ? ->|].
  apply (hoare_bind_value _ (V Z)); [done|solve_reads|intros; by eapply decode_copy_length; [lia|]|].
  intros st Hst. apply hoare_bind_modify.
  assert (Hm1 : osdmap_ok (set_state m st)) by by apply set_state_ok.
  read_step. destruct (negb _); [apply hoare_err; by intros ? ->|].
  apply (hoare_bind_value _ (V Z)); [done|solve_reads|intros ? ? ? Hr; apply repeat_dec_length in Hr; unfold V; lia|].
  intros w Hw. apply hoare_bind_modify.
  assert (Hm2 : osdmap_ok (set_weight (set_state m st) w)) by by apply set_weight_ok.
  read_step. destruct (negb _); [apply hoare_err; by intros ? ->|].
  apply (hoare_bind_value _ (V (list Z))); [done|solve_reads|intros ? ? ? Hr; apply repeat_dec_length in Hr; unfold V; lia|].
  intros ad Had. apply hoare_modify. intros ? ->. apply set_addr_ok; [done|]. by rewrite length_fmap.
Qed.

Lemma reads_client_data e : reads (get_osdmap_client_data_v buf e).
Proof. unfold get_osdmap_client_data_v. solve_reads. Qed.
Hint Resolve reads_client_data : reads.

Lemma keeps_header e : keeps (decode_header buf e).
Proof.
  unfold decode_header. do 5 read_step. apply hoare_modify. intros o Ho. by apply set_header_ok.
Qed.

Lemma keeps_pools e inc : keeps (decode_pools_ buf kmalloc_ok e inc).
Proof. unfold decode_pools_. read_step. apply hoare_times, keeps_one_pool. Qed.
Lemma keeps_pool_names e : keeps (decode_pool_names buf kmalloc_ok e).
Proof. unfold decode_pool_names. read_step. apply hoare_times, keeps_pool_name. Qed.
Lemma keeps_pg_temps e inc : keeps (decode_pg_temp_ buf kmalloc_ok e inc).
Proof. unfold decode_pg_temp_. read_step. apply hoare_times, keeps_pg_temp. Qed.
Lemma keeps_primary_temps e inc : keeps (decode_primary_temp_ buf kmalloc_ok e inc).
Proof. unfold decode_primary_temp_. read_step. apply hoare_times, keeps_primary_temp. Qed.
Lemma keeps_new_primary_affinity e : keeps (decode_new_primary_affinity buf kmalloc_ok e).
Proof.
  unfold decode_new_primary_affinity. read_step. apply hoare_times.
  unfold decode_new_affinity. read_step. read_step. apply keeps_set_primary_affinity.
Qed.

Lemma keeps_modify f : (forall o, osdmap_ok o -> osdmap_ok (f o)) -> keeps (modify f).
Proof. intros Hf. by apply hoare_modify. Qed.

(** A step that keeps the invariant, and the rest. *)
Ltac keep_step tac := eapply hoare_bind; [tac|]; intros ?.

Lemma keeps_osdmap_decode e : keeps (osdmap_decode buf kmalloc_ok e).
Proof.
  unfold osdmap_decode. read_step. keep_step ltac:(apply keeps_header).
  keep_step ltac:(apply keeps_pools). keep_step ltac:(apply keeps_pool_names). read_step.
  keep_step ltac:(apply keeps_modify; intros; by apply set_flags_max_ok). read_step.
  keep_step ltac:(apply keeps_modify; intros; by apply set_flags_max_ok). read_step.
  keep_step ltac:(apply keeps_set_max_osd, s32_range).
  keep_step ltac:(apply keeps_decode_osds). keep_step ltac:(apply keeps_pg_temps).
  eapply hoare_bind with (Q := fun _ => osdmap_ok);
    [destruct (1 <=? _); [apply keeps_primary_temps|by apply hoare_ret]|intros ?].
  eapply hoare_bind with (Q := fun _ => osdmap_ok);
    [destruct (2 <=? _); [apply keeps_primary_affinity|
      apply hoare_modify; intros o Ho; by apply set_affinity_ok]|intros ?].
  read_step. read_step. read_step.
  keep_step ltac:(apply keeps_modify; intros; by apply set_crush_ok).
  apply hoare_reads; [solve_reads|done].
Qed.

Lemma keeps_apply_changes e v npm nf md nc : keeps (apply_changes buf kmalloc_ok e v npm nf md nc).
Proof.
  unfold apply_changes. keep_step ltac:(apply keeps_modify; intros; by apply set_flags_max_ok).
  cbn beta. read_step.
  eapply hoare_bind with (Q := fun _ => osdmap_ok);
    [destruct (0 <=? _); [apply keeps_set_max_osd, s32_range|by apply hoare_ret]|intros ?].
  keep_step ltac:(apply keeps_modify; intros; by apply set_header_ok).
  eapply hoare_bind with (Q := fun _ => osdmap_ok);
    [apply hoare_modify; intros o Ho; destruct nc; [by apply set_crush_ok|done]|intros ?].
  keep_step ltac:(apply keeps_pools). keep_step ltac:(apply keeps_pool_names).
  keep_step ltac:(apply keeps_times_list, keeps_old_pool).
  keep_step ltac:(apply keeps_times_list, keeps_new_up).
  keep_step ltac:(apply keeps_times_list, keeps_new_state).
  keep_step ltac:(apply keeps_times_list, keeps_new_weight).
  keep_step ltac:(apply keeps_pg_temps).
  eapply hoare_bind with (Q := fun _ => osdmap_ok);
    [destruct (1 <=? _); [apply keeps_primary_temps|by apply hoare_ret]|intros ?].
  eapply hoare_bind with (Q := fun _ => osdmap_ok);
    [destruct (2 <=? _); [apply keeps_new_primary_affinity|by apply hoare_ret]|intros ?].
  apply hoare_reads; [solve_reads|done].
Qed.

(** A new map is well-formed; the old one is as it was. *)
Lemma ceph_osdmap_decode_spec e s :
  match ceph_osdmap_decode buf kmalloc_ok e s with
  | (Ret new, s') => osdmap_ok new /\ d_obj s' = d_obj s
  | (Err _, s') => d_obj s' = d_obj s
  | (Fault _, _) => True
  end.
Proof.
  unfold ceph_osdmap_decode. unfold kmalloc_or, kmalloc, dbind.
  destruct ((sizeof_osdmap =? 0) || _); [|done]. cbn [dret fst snd d_pos d_allocs d_obj].
  pose proof (keeps_osdmap_decode e (Dst (d_pos s) (S (d_allocs s)) zero_osdmap) zero_osdmap_ok) as Hk.
  cbn [dret]. destruct (osdmap_decode buf kmalloc_ok e _) as [[u|er|f] s2]; done.
Qed.

End Decoders.

(** ** Properties *)


(** A small incremental map: epoch 1, no full map, no new CRUSH map, two OSDs,
    the first one up. *)
Definition example_incremental : list Z :=
  le_bytes 2 6 ++ repeat 7 16 ++ le_bytes 4 1 ++ repeat 0 8 ++ le_bytes 8 (2 ^ 64 - 1) ++
  le_bytes 4 (2 ^ 32 - 1) ++ le_bytes 4 0 ++ le_bytes 4 0 ++ le_bytes 4 2 ++
  le_bytes 4 0 ++ le_bytes 4 0 ++ le_bytes 4 0 ++
  (le_bytes 4 1 ++ le_bytes 4 0 ++ repeat 0 8 ++ [0; 2] ++ repeat 0 126) ++
  (le_bytes 4 1 ++ le_bytes 4 1 ++ [1]) ++
  (le_bytes 4 1 ++ le_bytes 4 0 ++ le_bytes 4 0x10000) ++ le_bytes 4 0.


(** ** Network input that the decoders do not survive *)

(** A pool entry that claims no data: version 5, compat version 5, length 0. *)
Definition empty_pool : list Z := le_bytes 4 1 ++ le_bytes 8 1 ++ [5; 5] ++ le_bytes 4 0.

(** decode_pool checks the room for [len] bytes and then reads the fields of a
    pool whatever [len] is: a pool of length 0 at the end of the message makes
    it read past the end. *)
Theorem decode_pool_reads_past_end :
  (decode_pools empty_pool (fun _ _ => true) (Z.of_nat (length empty_pool)) (Dst 0 0 zero_osdmap)).1
    = Fault OutOfBounds.
Proof. vm_compute. reflexivity. Qed.

(** A full map with the same pgid twice in pg_temp. *)
Definition double_pg_temp : list Z :=
  le_bytes 4 2 ++
  ([1] ++ le_bytes 8 1 ++ le_bytes 4 5 ++ le_bytes 4 0 ++ le_bytes 4 1 ++ le_bytes 4 0) ++
  ([1] ++ le_bytes 8 1 ++ le_bytes 4 5 ++ le_bytes 4 0 ++ le_bytes 4 1 ++ le_bytes 4 0).

(** A full map that lists a placement group twice in pg_temp, or an affinity
    update for an OSD the map does not have, is not refused but hits a BUG_ON. *)
Theorem osdmap_decode_bugs_on_input :
  (decode_pg_temp double_pg_temp (fun _ _ => true) (Z.of_nat (length double_pg_temp))
     (Dst 0 0 zero_osdmap)).1 = Fault BugOn /\
  let aff := le_bytes 4 1 ++ le_bytes 4 0 ++ le_bytes 4 0 in
  (decode_new_primary_affinity aff (fun _ _ => true) (Z.of_nat (length aff)) (Dst 0 0 zero_osdmap)).1
    = Fault BugOn.
Proof. split; vm_compute; reflexivity. Qed.

(** A full map (version 6, empty) whose CRUSH map is cut off after a bucket. *)
Definition osdmap_with_bad_crush : list Z :=
  le_bytes 2 6 ++ repeat 7 16 ++ le_bytes 4 1 ++ repeat 0 16 ++
  le_bytes 4 0 ++ le_bytes 4 0 ++ le_bytes 4 0 ++ le_bytes 4 0 ++ le_bytes 4 0 ++
  le_bytes 4 0 ++ le_bytes 4 0 ++ le_bytes 4 0 ++ le_bytes 4 0 ++
  le_bytes 4 (Z.of_nat (length truncated_crush)) ++ truncated_crush.

(** Because crush_decode returns NULL for such a CRUSH map, the decode of the
    whole OSD map succeeds, with no CRUSH map in it. *)
Theorem ceph_osdmap_decode_accepts_null_crush :
  exists m s, ceph_osdmap_decode osdmap_with_bad_crush (fun _ _ => true)
    (Z.of_nat (length osdmap_with_bad_crush)) (Dst 0 0 zero_osdmap) = (Ret m, s) /\
    om_epoch m = 1 /\ om_crush m = None.
Proof. eexists _, _. split; [vm_compute; reflexivity|]. split; reflexivity. Qed.
