(* ===== verification/PgMapping.v ===== *)
(** * Mapping placement groups to OSDs

    Models ceph_stable_mod of include/linux/ceph/rados.h, the object names of
    osdmap.h, and the mapping functions of net/ceph/osdmap.c, from
    ceph_oloc_oid_to_pg to ceph_calc_pg_primary.

    [osds] is the caller's array; [fuel] is the fuel of the CRUSH search.  The
    CRUSH permutation caches change, so that the map is returned as well.
    [scratch] is what crush_scratch_ary holds. *)
From S2P Require Import Prelude.
From S2P Require Import Hash.
From S2P Require Import Wire.
From S2P Require Import Crush.
From S2P Require Import Mapper.
From S2P Require Import RbTree.
From S2P Require Import OsdMap.
From S2P Require Import OsdMapDecode.
Import CrushHash StrHash.

(** All three are ints. *)
Definition ceph_stable_mod (x b bmask : Z) : Z :=
  if Z.land x bmask <? b then Z.land x bmask else Z.land x (Z.shiftr bmask 1).

(** ** Object names *)
Definition CEPH_MAX_OID_NAME_LEN : Z := 100.

(** [oid_name] is the array of 100 chars. *)
Record ceph_object_id := Oid { oid_name : list Z; oid_name_len : Z }.

(** [name] is the string without its terminating 0; a longer one is cut. *)
Definition ceph_oid_set_name (oid : ceph_object_id) (name : list Z) : outcome ceph_object_id :=
  let len := s32 (Z.of_nat (length name)) in
  let len := if CEPH_MAX_OID_NAME_LEN <? u64 len then CEPH_MAX_OID_NAME_LEN else len in
  arr ← write_bytes (oid_name oid) 0 (take (Z.to_nat len) name);
  Ret (Oid arr len).

Definition ceph_oid_copy (dest src : ceph_object_id) : outcome ceph_object_id :=
  _ ← bug_on (CEPH_MAX_OID_NAME_LEN <? u64 (oid_name_len src));
  arr ← write_bytes (oid_name dest) 0 (take (Z.to_nat (oid_name_len src)) (oid_name src));
  Ret (Oid arr (oid_name_len src)).

Section Mapping.
Context `{RbOps}.

Definition ceph_oloc_oid_to_pg (map : ceph_osdmap) (oloc_pool : Z) (oid : ceph_object_id)
  : outcome ceph_pg :=
  match lookup_pg_pool (om_pg_pools map) oloc_pool with
  | None => Err EIO
  | Some (_, pi) =>
      seed ← ceph_str_hash (pi_object_hash pi) (oid_name oid) (oid_name_len oid);
      Ret (Pg (u64 oloc_pool) seed)
  end.

(** ** From a placement group to its raw set *)
Definition do_crush (map : ceph_osdmap) (scratch : list Z) (fuel : nat) (ruleno x : Z)
    (result : list Z) (result_max : Z) (weight : list Z) (weight_max : Z)
  : outcome (list Z * Z * ceph_osdmap) :=
  _ ← bug_on (CEPH_PG_MAX_SIZE <? result_max);
  c ← deref (om_crush map);
  '(result, len, c) ← crush_do_rule weight weight_max x result_max fuel c ruleno result scratch;
  Ret (result, len, set_crush map (Some c)).

Definition pg_to_raw_osds (map : ceph_osdmap) (scratch : list Z) (fuel : nat) (pool : pg_pool_info)
    (pps : Z) (osds : list Z) : outcome (list Z * Z * ceph_osdmap) :=
  c ← deref (om_crush map);
  ruleno ← crush_find_rule c (pi_crush_ruleset pool) (pi_type pool) (pi_size pool);
  if ruleno <? 0 then Err ENOENT
  else
    '(osds, len, map) ← do_crush map scratch fuel ruleno (s32 pps) osds
        (Z.min (pi_size pool) CEPH_PG_MAX_SIZE) (om_osd_weight map) (s32 (om_max_osd map));
    if len <? 0 then Err (- len) else Ret (osds, len, map).

(** ** Down OSDs *)

(** [for (i = 0; i < len; i++)] of a pool whose sets can shift, [n] iterations
    left: the array and [removed] *)
Fixpoint shift_down (n : nat) (map : ceph_osdmap) (osds : list Z) (i removed : Z)
  : outcome (list Z * Z) :=
  match n with
  | O => Ret (osds, removed)
  | S n =>
      osd ← rd osds i;
      down ← ceph_osd_is_down map osd;
      if (down : bool) then shift_down n map osds (i + 1) (removed + 1)
      else
        osds ← (if removed =? 0 then Ret osds else wr osds (i - removed) osd);
        shift_down n map osds (i + 1) removed
  end.

(** [for (i = len - 1; i >= 0; i--)] of the others: [n] is [i + 1] *)
Fixpoint blank_down (n : nat) (map : ceph_osdmap) (osds : list Z) (up_primary : Z)
  : outcome (list Z * Z) :=
  match n with
  | O => Ret (osds, up_primary)
  | S n =>
      let i := Z.of_nat n in
      osd ← rd osds i;
      down ← ceph_osd_is_down map osd;
      if (down : bool) then (osds ← wr osds i CRUSH_ITEM_NONE; blank_down n map osds up_primary)
      else blank_down n map osds osd
  end.

(** The array, the length of the up set and the up primary. *)
Definition raw_to_up_osds (map : ceph_osdmap) (pool : pg_pool_info) (osds : list Z) (len : Z)
  : outcome (list Z * Z * Z) :=
  shift ← ceph_can_shift_osds pool;
  if (shift : bool) then
    '(osds, removed) ← shift_down (Z.to_nat len) map osds 0 0;
    let len := len - removed in
    up_primary ← (if 0 <? len then rd osds 0 else Ret (-1));
    Ret (osds, len, up_primary)
  else
    '(osds, up_primary) ← blank_down (Z.to_nat len) map osds (-1);
    Ret (osds, len, up_primary).

(** ** Primary affinity *)

(** Whether some OSD of the set has a non-default affinity; [n] iterations left *)
Fixpoint any_affinity (n : nat) (aff osds : list Z) (i : Z) : outcome bool :=
  match n with
  | O => Ret false
  | S n =>
      osd ← rd osds i;
      if osd =? CRUSH_ITEM_NONE then any_affinity n aff osds (i + 1)
      else
        a ← rd aff osd;
        if negb (a =? CEPH_OSD_DEFAULT_PRIMARY_AFFINITY) then Ret true
        else any_affinity n aff osds (i + 1)
  end.

(** "Pick the primary": its position, or -1 *)
Fixpoint pick_primary (n : nat) (aff osds : list Z) (pps i pos : Z) : outcome Z :=
  match n with
  | O => Ret pos
  | S n =>
      osd ← rd osds i;
      if osd =? CRUSH_ITEM_NONE then pick_primary n aff osds pps (i + 1) pos
      else
        a ← rd aff osd;
        if (a <? CEPH_OSD_MAX_PRIMARY_AFFINITY) &&
           (a <=? Z.shiftr (crush_hash32_2 CRUSH_HASH_RJENKINS1 pps osd) 16)
        then pick_primary n aff osds pps (i + 1) (if pos <? 0 then i else pos)
        else Ret i
  end.

(** [for (i = pos; i > 0; i--) osds[i] = osds[i - 1]] *)
Fixpoint move_up (n : nat) (osds : list Z) : outcome (list Z) :=
  match n with
  | O => Ret osds
  | S n =>
      v ← rd osds (Z.of_nat n);
      osds ← wr osds (Z.of_nat n + 1) v;
      move_up n osds
  end.

Definition apply_primary_affinity (map : ceph_osdmap) (pps : Z) (pool : pg_pool_info)
    (osds : list Z) (len primary : Z) : outcome (list Z * Z) :=
  match om_osd_primary_affinity map with
  | None => Ret (osds, primary)
  | Some aff =>
      any ← any_affinity (Z.to_nat len) aff osds 0;
      if negb any then Ret (osds, primary)
      else
        pos ← pick_primary (Z.to_nat len) aff osds pps 0 (-1);
        if pos <? 0 then Ret (osds, primary)
        else
          primary ← rd osds pos;
          shift ← ceph_can_shift_osds pool;
          if shift && (0 <? pos) then
            osds ← move_up (Z.to_nat pos) osds;
            osds ← wr osds 0 primary;
            Ret (osds, primary)
          else Ret (osds, primary)
  end.

(** ** pg_temp and primary_temp *)

(** [for (i = 0; i < pg->pg_temp.len; i++)]: the array and [temp_len] *)
Fixpoint store_temps (l : list Z) (map : ceph_osdmap) (shift : outcome bool) (osds : list Z)
    (temp_len : Z) : outcome (list Z * Z) :=
  match l with
  | [] => Ret (osds, temp_len)
  | osd :: l =>
      down ← ceph_osd_is_down map osd;
      if (down : bool) then
        s ← shift;
        if (s : bool) then store_temps l map shift osds temp_len
        else
          osds ← wr osds temp_len CRUSH_ITEM_NONE;
          store_temps l map shift osds (temp_len + 1)
      else
        osds ← wr osds temp_len osd;
        store_temps l map shift osds (temp_len + 1)
  end.

(** The first entry that is not CRUSH_ITEM_NONE, or -1; [n] iterations left *)
Fixpoint first_osd (n : nat) (osds : list Z) (i : Z) : outcome Z :=
  match n with
  | O => Ret (-1)
  | S n =>
      osd ← rd osds i;
      if negb (osd =? CRUSH_ITEM_NONE) then Ret osd else first_osd n osds (i + 1)
  end.

Definition apply_temps (map : ceph_osdmap) (pool : pg_pool_info) (pgid : ceph_pg)
    (osds : list Z) (len primary : Z) : outcome (list Z * Z * Z) :=
  let sd := u32 (ceph_stable_mod (s32 (seed pgid)) (s32 (pi_pg_num pool)) (pi_pg_num_mask pool)) in
  let pgid := Pg (OsdMap.pool pgid) sd in
  '(osds, temp_len, temp_primary) ←
    match lookup_pg_temp (om_pg_temp map) pgid with
    | Some (_, pg) =>
        '(osds, temp_len) ← store_temps (pt_osds pg) map (ceph_can_shift_osds pool) osds 0;
        temp_primary ← first_osd (Z.to_nat temp_len) osds 0;
        Ret (osds, temp_len, temp_primary)
    | None => Ret (osds, len, primary)
    end;
  let temp_primary :=
    match lookup_primary_temp (om_primary_temp map) pgid with
    | Some (_, pg) => pr_osd pg
    | None => temp_primary
    end in
  Ret (osds, temp_len, temp_primary).

(** ** The acting set *)
Definition calc_pps (pool : pg_pool_info) (pgid : ceph_pg) : Z :=
  let m := ceph_stable_mod (s32 (seed pgid)) (s32 (pi_pgp_num pool)) (pi_pgp_num_mask pool) in
  if negb (Z.land (pi_flags pool) CEPH_POOL_FLAG_HASHPSPOOL =? 0)
  then crush_hash32_2 CRUSH_HASH_RJENKINS1 m (OsdMap.pool pgid)
  else u32 (m + u32 (OsdMap.pool pgid)).

(** The array, the length of the acting set, the acting primary and the map;
    on an error the primary is -1. *)
Definition ceph_calc_pg_acting (map : ceph_osdmap) (scratch : list Z) (fuel : nat) (pgid : ceph_pg)
    (osds : list Z) : outcome (list Z * Z * Z * ceph_osdmap) :=
  match lookup_pg_pool (om_pg_pools map) (OsdMap.pool pgid) with
  | None => Err ENOENT
  | Some (_, pool) =>
      let pps := calc_pps pool pgid in
      '(osds, len, map) ← pg_to_raw_osds map scratch fuel pool pps osds;
      '(osds, len, primary) ← raw_to_up_osds map pool osds len;
      '(osds, primary) ← apply_primary_affinity map pps pool osds len primary;
      '(osds, len, primary) ← apply_temps map pool pgid osds len primary;
      Ret (osds, len, primary, map)
  end.

(** The local array of 16 entries; its initial contents are [garbage]. *)
Definition ceph_calc_pg_primary (map : ceph_osdmap) (scratch garbage : list Z) (fuel : nat)
    (pgid : ceph_pg) : outcome Z :=
  match ceph_calc_pg_acting map scratch fuel pgid garbage with
  | Ret (_, _, primary, _) => Ret primary
  | Err _ => Ret (-1)
  | Fault f => Fault f
  end.

End Mapping.
