(* ===== verification/PgActing.v ===== *)
(** * The acting set of a placement group

    Properties of the mapping functions of net/ceph/osdmap.c: the stable hash
    of a placement group, the up set, the choice of the primary, the temporary
    mappings, and [ceph_calc_pg_acting] from the CRUSH rule to the acting set. *)
From S2P Require Import Prelude.
From S2P Require Import Hash.
From S2P Require Import Crush.
From S2P Require Import Mapper.
From S2P Require Import Firstn.
From S2P Require Import CrushTotal.
From S2P Require Import CrushRule.
From S2P Require Import RbTree.
From S2P Require Import OsdMap.
From S2P Require Import OsdMapDecode.
From S2P Require Import OsdMapInv.
From S2P Require Import PgMapping.
From stdpp Require Import gmap.
Import CrushHash StrHash.
#[local] Open Scope Z_scope.
#[local] Open Scope ceph_scope.

(** ** Placement group numbers *)
Lemma bits_loop_spec fuel t b :
  0 <= t < 2 ^ Z.of_nat fuel ->
  exists k, bits_loop fuel t b = b + k /\ 0 <= k <= Z.of_nat fuel /\ t < 2 ^ k /\
    (0 < k -> 2 ^ (k - 1) <= t).
Proof.
  revert t b. induction fuel as [|fuel IH]; intros t b Ht; cbn [bits_loop].
  { exists 0. change (2 ^ Z.of_nat 0) with 1 in Ht. cbn. lia. }
  destruct (Z.eqb_spec t 0) as [->|Hne]; [exists 0; cbn; lia|].
  rewrite Z.shiftr_div_pow2 by lia. change (2 ^ 1) with 2.
  assert (E : 2 ^ Z.of_nat (S fuel) = 2 * 2 ^ Z.of_nat fuel)
    by (rewrite Nat2Z.inj_succ, Z.pow_succ_r by lia; done).
  destruct (IH (t / 2) (b + 1)) as (k & -> & Hk & Hlt & Hge).
  { split; [apply Z.div_pos; lia|]. apply Z.div_lt_upper_bound; lia. }
  exists (k + 1). split; [lia|]. split; [lia|]. rewrite Z.pow_add_r by lia. change (2 ^ 1) with 2.
  pose proof (Z.div_mod t 2). pose proof (Z.mod_pos_bound t 2). split; [lia|]. intros _.
  replace (k + 1 - 1) with k by lia. destruct (decide (k = 0)) as [->|]; [cbn; lia|].
  rewrite (pow2_succ k) by lia. lia.
Qed.

(** The mask of [n] placement groups covers [n - 1] and no power of 2 more. *)
Lemma pg_mask_spec n m :
  1 <= n < 2 ^ 31 -> pg_mask n = Ret m ->
  exists k, 0 <= k <= 31 /\ m = Z.ones k /\ n <= 2 ^ k /\ (0 < k -> 2 ^ (k - 1) < n).
Proof.
  intros Hn. unfold pg_mask, calc_bits_of. rewrite u32_small by lia.
  destruct (bits_loop_spec 32 (n - 1) 0) as (k & -> & Hk & Hlt & Hge); [lia|].
  rewrite Z.add_0_l. destruct (Z.leb_spec 32 k); intros Hm; [done|]. injection Hm as <-.
  assert (k <= 31) by lia. exists k. split; [lia|]. rewrite Z.shiftl_1_l.
  pose proof (Z.pow_le_mono_r 2 k 31). pose proof (Z.pow_pos_nonneg 2 k).
  rewrite s32_small by lia. rewrite Z.ones_equiv. split_and!; [done|lia|]. intros Hk0. specialize (Hge Hk0). lia.
Qed.

Lemma shiftr_ones k : 0 < k -> Z.shiftr (Z.ones k) 1 = Z.ones (k - 1).
Proof.
  intros. rewrite Z.shiftr_div_pow2 by lia. rewrite Z.ones_div_pow2 by lia. done.
Qed.

(** [ceph_stable_mod] by remainders. *)
Lemma stable_mod_ones x n k :
  0 <= k -> n <= 2 ^ k -> (0 < k -> 2 ^ (k - 1) < n) -> 0 < n ->
  (x mod 2 ^ k < n /\ ceph_stable_mod x n (Z.ones k) = x mod 2 ^ k) \/
  (0 < k /\ n <= x mod 2 ^ k /\ ceph_stable_mod x n (Z.ones k) = x mod 2 ^ (k - 1)).
Proof.
  intros Hk Hn Hlow H0. unfold ceph_stable_mod. rewrite Z.land_ones by done.
  destruct (Z.ltb_spec (x mod 2 ^ k) n); [by left|right].
  destruct (decide (k = 0)) as [->|].
  - change (2 ^ 0) with 1 in *. rewrite Z.mod_1_r in *. lia.
  - rewrite shiftr_ones, Z.land_ones by lia. split_and!; (done || lia).
Qed.

Lemma stable_mod_range x n m :
  1 <= n < 2 ^ 31 -> pg_mask n = Ret m -> 0 <= ceph_stable_mod x n m < n.
Proof.
  intros Hn Hm. destruct (pg_mask_spec n m Hn Hm) as (k & Hk & -> & Hu & Hl).
  pose proof (Z.mod_pos_bound x (2 ^ k)). pose proof (Z.mod_pos_bound x (2 ^ (k - 1))).
  destruct (stable_mod_ones x n k) as [[? ->]|(? & ? & ->)]; lia.
Qed.

Lemma stable_mod_split x n m m' :
  1 <= n < 2 ^ 31 - 1 -> pg_mask n = Ret m -> pg_mask (n + 1) = Ret m' ->
  ceph_stable_mod x (n + 1) m' = ceph_stable_mod x n m \/ ceph_stable_mod x (n + 1) m' = n.
Proof.
  intros Hn Hm Hm'. destruct (pg_mask_spec n m ltac:(lia) Hm) as (k & Hk & -> & Hu & Hl).
  destruct (pg_mask_spec (n + 1) m' ltac:(lia) Hm') as (k' & Hk' & -> & Hu' & Hl').
  assert (Hcase : k' = k \/ k' = k + 1 /\ n = 2 ^ k).
  { destruct (Z.lt_trichotomy k' k) as [Hlt|[->|Hgt]]; [|by left|right].
    - pose proof (Z.pow_le_mono_r 2 k' (k - 1)). lia.
    - destruct (decide (k' = k + 1)) as [->|].
      + replace (k + 1 - 1) with k in Hl' by lia. lia.
      + pose proof (Z.pow_le_mono_r 2 (k + 1) (k' - 1)). pose proof (Z.pow_pos_nonneg 2 k).
        rewrite (Z.pow_add_r 2 k 1) in * by lia. lia. }
  pose proof (Z.mod_pos_bound x (2 ^ k)).
  destruct (stable_mod_ones x n k) as [[? ->]|(? & ? & ->)]; try lia;
  destruct (stable_mod_ones x (n + 1) k') as [[? ->]|(? & ? & ->)]; try lia;
  destruct Hcase as [->|[-> ->]]; try lia.
  - rewrite Z.pow_add_r in * by lia. change (2 ^ 1) with 2 in *.
    rewrite (Z.mul_comm (2 ^ k) 2) in *.
    pose proof (Z.mod_pos_bound x (2 * 2 ^ k)). pose proof (Z.div_mod x (2 * 2 ^ k)).
    destruct (Z.lt_ge_cases (x mod (2 * 2 ^ k)) (2 ^ k)); [left|lia].
    apply (Z.mod_unique_pos _ _ (2 * (x / (2 * 2 ^ k)))); [lia|].
    rewrite (Z.div_mod x (2 * 2 ^ k)) at 1 by lia. ring.
  - replace (k + 1 - 1) with k by lia. by left.
Qed.

(** ** The up set *)
Definition osd_up (map : ceph_osdmap) (osd : Z) : bool :=
  match ceph_osd_is_up map osd with Ret b => b | _ => false end.

(** An OSD that is down is left out, or leaves a hole. *)
Definition up_only (map : ceph_osdmap) (l : list Z) : list Z := filter (fun o => osd_up map o = true) l.
Definition up_or_none (map : ceph_osdmap) (o : Z) : Z := if osd_up map o then o else CRUSH_ITEM_NONE.
Definition up_set (map : ceph_osdmap) (shift : bool) (l : list Z) : list Z :=
  if shift then up_only map l else up_or_none map <$> l.

(** The first entry that is an OSD. *)
Definition is_osd (o : Z) : Prop := o <> CRUSH_ITEM_NONE.
#[export] Instance is_osd_dec o : Decision (is_osd o).
Proof. unfold is_osd. apply _. Defined.
Definition first_of (r : option (nat * Z)) : Z := default (-1) (snd <$> r).
Definition first_up (l : list Z) : Z := first_of (list_find is_osd l).

Section Up.
Context (map : ceph_osdmap) (Hok : osdmap_ok map).

Lemma max_osd_none : om_max_osd map <= CRUSH_ITEM_NONE.
Proof. pose proof (ok_max _ Hok). unfold CRUSH_ITEM_NONE. lia. Qed.

Lemma is_down_up osd : ceph_osd_is_down map osd = Ret (negb (osd_up map osd)).
Proof.
  unfold osd_up, ceph_osd_is_down. assert (exists b, ceph_osd_is_up map osd = Ret b) as [b ->]; [|done].
  unfold ceph_osd_is_up, ceph_osd_exists.
  destruct ((0 <=? osd) && (osd <? om_max_osd map)) eqn:E; [|by eexists].
  destruct (rd_total (om_osd_state map) osd) as [v ->].
  { rewrite (ok_state _ Hok). lia. }
  cbn [obind]. destruct (negb _); cbn [obind]; by eexists.
Qed.

Lemma osd_up_range osd : osd_up map osd = true -> 0 <= osd < om_max_osd map.
Proof.
  unfold osd_up, ceph_osd_is_up, ceph_osd_exists.
  destruct ((0 <=? osd) && (osd <? om_max_osd map)) eqn:E; [lia|done].
Qed.

Lemma up_only_cons o l :
  up_only map (o :: l) = if osd_up map o then o :: up_only map l else up_only map l.
Proof. unfold up_only. rewrite filter_cons. destruct (osd_up map o); by case_decide. Qed.

Lemma shift_down_spec rest : forall kept gap tail i removed,
  i = Z.of_nat (length kept + length gap) -> removed = Z.of_nat (length gap) ->
  exists gap', shift_down (length rest) map (kept ++ gap ++ rest ++ tail) i removed =
      Ret (kept ++ up_only map rest ++ gap' ++ tail, Z.of_nat (length gap')) /\
    (length (up_only map rest) + length gap' = length gap + length rest)%nat.
Proof.
  induction rest as [|o rest IH]; intros kept gap tail i removed Hi Hr; cbn [length shift_down].
  { exists gap. subst. split; [done|]. cbn. lia. }
  rewrite (app_assoc kept gap). cbn [app]. rewrite rd_at by (rewrite length_app; lia).
  cbn [obind]. rewrite is_down_up, up_only_cons. cbn [obind].
  destruct (osd_up map o); cbn [negb].
  - destruct (Z.eqb_spec removed 0) as [E|E].
    + destruct gap; [|cbn in *; lia]. cbn [obind app]. rewrite app_nil_r.
      destruct (IH (kept ++ [o]) [] tail (i + 1) removed) as (gap' & Hs & Hl);
        [rewrite length_app; cbn in *; lia|done|].
      rewrite <- !app_assoc in Hs. cbn [app] in Hs. rewrite Hs. exists gap'. split; [done|]. cbn in *. lia.
    + destruct gap as [|g gap]; [cbn in *; lia|].
      rewrite <- app_assoc. cbn [app]. rewrite wr_at by (cbn in *; lia). cbn [obind].
      destruct (IH (kept ++ [o]) (gap ++ [o]) tail (i + 1) removed) as (gap' & Hs & Hl);
        [rewrite !length_app; cbn in *; lia|rewrite length_app; cbn in *; lia|].
      rewrite <- !app_assoc in Hs. cbn [app] in Hs. rewrite Hs. exists gap'. split; [done|].
      rewrite length_app in Hl. cbn in *. lia.
  - rewrite <- app_assoc. destruct (IH kept (gap ++ [o]) tail (i + 1) (removed + 1)) as (gap' & Hs & Hl);
      [rewrite length_app; cbn in *; lia|rewrite length_app; cbn in *; lia|].
    rewrite <- !app_assoc in Hs. cbn [app] in Hs. rewrite Hs. exists gap'. split; [done|].
    rewrite length_app in Hl. cbn in *. lia.
Qed.

Lemma up_is_osd o : osd_up map o = true -> is_osd o.
Proof. intros Ho%osd_up_range. pose proof max_osd_none. unfold is_osd. lia. Qed.

Lemma first_up_only l : first_up (up_only map l) = default (-1) (head (up_only map l)).
Proof.
  unfold first_up. induction l as [|o l IH]; [done|]. rewrite up_only_cons.
  destruct (osd_up map o) eqn:E; [|done]. cbn.
  rewrite decide_True by (by apply up_is_osd). done.
Qed.

Lemma first_up_or_none l : first_up (up_or_none map <$> l) = default (-1) (head (up_only map l)).
Proof.
  unfold first_up. induction l as [|o l IH]; [done|]. rewrite up_only_cons.
  cbn [fmap list_fmap list_find]. assert (Eu : up_or_none map o = if osd_up map o then o else CRUSH_ITEM_NONE) by done.
  destruct (osd_up map o) eqn:E; rewrite Eu.
  - rewrite decide_True by (by apply up_is_osd). done.
  - rewrite decide_False by (unfold is_osd; tauto). rewrite <- IH. unfold first_of.
    by destruct (list_find is_osd (up_or_none map <$> l)) as [[]|].
Qed.

Lemma blank_down_spec l tail prim :
  blank_down (length l) map (l ++ tail) prim =
  Ret ((up_or_none map <$> l) ++ tail, default prim (head (up_only map l))).
Proof.
  revert tail prim. induction l as [|o l IH] using rev_ind; intros tail prim; [done|].
  rewrite length_app, Nat.add_comm. cbn [length Nat.add blank_down].
  rewrite <- app_assoc. cbn [app]. rewrite rd_at by done. cbn [obind].
  rewrite is_down_up. cbn [obind]. rewrite fmap_app. cbn [fmap list_fmap].
  assert (E : default prim (head (up_only map (l ++ [o]))) =
    default (if osd_up map o then o else prim) (head (up_only map l))).
  { unfold up_only. rewrite filter_app. cbn. destruct (osd_up map o);
      rewrite ?decide_True by done; rewrite ?decide_False by done;
      destruct (filter _ l); done. }
  rewrite E. unfold up_or_none at 2. destruct (osd_up map o); cbn [negb].
  - by rewrite IH, <- app_assoc.
  - rewrite wr_at by done. cbn [obind]. by rewrite IH, <- app_assoc.
Qed.

(** [raw_to_up_osds] on every branch. *)
Lemma raw_to_up_spec pool shift raw tail :
  ceph_can_shift_osds pool = Ret shift ->
  exists gap, raw_to_up_osds map pool (raw ++ tail) (Z.of_nat (length raw)) =
      Ret (up_set map shift raw ++ gap ++ tail, Z.of_nat (length (up_set map shift raw)),
           first_up (up_set map shift raw)) /\
    (length (up_set map shift raw) + length gap = length raw)%nat.
Proof.
  intros Hs. unfold raw_to_up_osds. rewrite Hs. cbn [obind]. rewrite Nat2Z.id.
  destruct shift; cbn [up_set].
  - destruct (shift_down_spec raw [] [] tail 0 0) as (gap & Hd & Hl); [done|done|].
    cbn [app] in Hd. rewrite Hd. cbn [obind]. exists gap. cbn in Hl. split; [|done].
    replace (Z.of_nat (length raw) - Z.of_nat (length gap)) with (Z.of_nat (length (up_only map raw))) by lia.
    rewrite first_up_only. destruct (up_only map raw) as [|o u] eqn:E; cbn [length head default]; [done|].
    rewrite (proj2 (Z.ltb_lt _ _)) by lia. done.
  - rewrite blank_down_spec. cbn [obind]. exists []. rewrite length_fmap, first_up_or_none. split; [done|]. cbn. lia.
Qed.

(** ** The primary *)

(** The draw of the placement group against the affinity of an OSD. *)
Definition rejected (aff : list Z) (pps osd : Z) : bool :=
  match rd aff osd with
  | Ret a => (a <? CEPH_OSD_MAX_PRIMARY_AFFINITY) &&
             (a <=? Z.shiftr (crush_hash32_2 CRUSH_HASH_RJENKINS1 pps osd) 16)
  | _ => false
  end.
Definition usable (aff : list Z) (pps osd : Z) : Prop := is_osd osd /\ rejected aff pps osd = false.
#[export] Instance usable_dec aff pps o : Decision (usable aff pps o).
Proof. unfold usable. apply _. Defined.

(** The first OSD that is not rejected, or the first one if all are. *)
Definition preferred (aff : list Z) (pps : Z) (l : list Z) : option (nat * Z) :=
  match list_find (usable aff pps) l with
  | Some r => Some r
  | None => list_find is_osd l
  end.

(** Every entry is a hole or has an affinity. *)
Definition indexes (aff l : list Z) : Prop :=
  Forall (fun o => is_osd o -> 0 <= o < Z.of_nat (length aff)) l.

Lemma list_find_ext {A} (P Q : A -> Prop) `{!forall x, Decision (P x)} `{!forall x, Decision (Q x)} l :
  Forall (fun x => P x <-> Q x) l -> list_find P l = list_find Q l.
Proof.
  induction 1 as [|x l Hx _ IH]; [done|]. cbn. repeat case_decide; try tauto. by rewrite IH.
Qed.

Lemma any_affinity_spec aff l : forall pre tail i,
  indexes aff l -> i = Z.of_nat (length pre) ->
  exists b, any_affinity (length l) aff (pre ++ l ++ tail) i = Ret b /\
    (b = false -> forall pps, Forall (fun o => is_osd o <-> usable aff pps o) l).
Proof.
  induction l as [|o l IH]; intros pre tail i Hl Hi; cbn [length any_affinity].
  { exists false. split; [done|]. intros. constructor. }
  apply Forall_cons in Hl as [Ho Hl]. cbn [app]. rewrite rd_at by done. cbn [obind].
  assert (Hrec : exists b, any_affinity (length l) aff (pre ++ o :: l ++ tail) (i + 1) = Ret b /\
    (b = false -> forall pps, Forall (fun o => is_osd o <-> usable aff pps o) l)).
  { destruct (IH (pre ++ [o]) tail (i + 1)) as (b & Hb & Hf); [done|rewrite length_app; cbn; lia|].
    rewrite <- app_assoc in Hb. eauto. }
  destruct Hrec as (b & Hb & Hf). unfold usable, is_osd in *.
  destruct (Z.eqb_spec o CRUSH_ITEM_NONE) as [->|Hne].
  - exists b. split; [done|]. intros E pps. constructor; [tauto|by apply Hf].
  - destruct (rd_total aff o) as [a Ha]; [by apply Ho|]. rewrite Ha. cbn [obind].
    destruct (Z.eqb_spec a CEPH_OSD_DEFAULT_PRIMARY_AFFINITY) as [->|]; cbn [negb].
    + exists b. split; [done|]. intros E pps. constructor; [|by apply Hf].
      split; [|tauto]. intros _. split; [done|]. unfold rejected. by rewrite Ha.
    + exists true. done.
Qed.

(** The position the loop ends with, from position [i] and [pos]. *)
Definition picked (aff : list Z) (pps : Z) (l : list Z) (i pos : Z) : Z :=
  match list_find (usable aff pps) l with
  | Some (k, _) => i + Z.of_nat k
  | None =>
      if pos <? 0 then
        match list_find is_osd l with Some (k, _) => i + Z.of_nat k | None => pos end
      else pos
  end.

Lemma pick_primary_spec aff pps l : forall pre tail i pos,
  indexes aff l -> i = Z.of_nat (length pre) ->
  pick_primary (length l) aff (pre ++ l ++ tail) pps i pos =
  Ret (picked aff pps l i pos).
Proof.
  induction l as [|o l IH]; intros pre tail i pos Hl Hi; cbn [length pick_primary].
  { unfold picked. cbn. by destruct (pos <? 0). }
  apply Forall_cons in Hl as [Ho Hl]. cbn [app]. rewrite rd_at by done. cbn [obind].
  assert (Hrec : forall pos, pick_primary (length l) aff (pre ++ o :: l ++ tail) pps (i + 1) pos
    = Ret (picked aff pps l (i + 1) pos)).
  { intros pos'. pose proof (IH (pre ++ [o]) tail (i + 1) pos' Hl) as E.
    rewrite <- app_assoc in E. apply E. rewrite length_app. cbn. lia. }
  unfold picked in *. cbn [list_find]. destruct (Z.eqb_spec o CRUSH_ITEM_NONE) as [->|Hne].
  - rewrite Hrec. rewrite !decide_False by (unfold usable, is_osd; tauto).
    destruct (list_find (usable aff pps) l) as [[k w]|]; cbn; [f_equal; lia|].
    destruct (pos <? 0); [|done]. destruct (list_find is_osd l) as [[k w]|]; cbn; [f_equal; lia|done].
  - destruct (rd_total aff o) as [a Ha]; [by apply Ho|]. rewrite Ha. cbn [obind].
    assert (Er : rejected aff pps o = (a <? CEPH_OSD_MAX_PRIMARY_AFFINITY) &&
      (a <=? Z.shiftr (crush_hash32_2 CRUSH_HASH_RJENKINS1 pps o) 16)) by (unfold rejected; by rewrite Ha).
    rewrite <- Er. destruct (rejected aff pps o) eqn:E.
    + rewrite Hrec. rewrite decide_False by (unfold usable; intros []; congruence).
      rewrite (decide_True (P := is_osd o)) by done.
      destruct (list_find (usable aff pps) l) as [[k w]|]; cbn; [f_equal; lia|].
      destruct (Z.ltb_spec pos 0); [|by rewrite (proj2 (Z.ltb_ge pos 0)) by lia].
      rewrite (proj2 (Z.ltb_ge i 0)) by lia. f_equal. lia.
    + rewrite decide_True by (split; done). f_equal. lia.
Qed.


Lemma move_up_spec l : forall v tail,
  move_up (length l) (l ++ v :: tail) = Ret (take 1 (l ++ [v]) ++ l ++ tail).
Proof.
  induction l as [|w l IH] using rev_ind; intros v tail; [done|].
  rewrite length_app, Nat.add_comm. cbn [length Nat.add move_up].
  rewrite <- !app_assoc. cbn [app]. rewrite rd_at by done. cbn [obind].
  replace (l ++ w :: v :: tail) with ((l ++ [w]) ++ v :: tail) by (by rewrite <- app_assoc).
  rewrite wr_at by (rewrite length_app; cbn; lia). cbn [obind]. rewrite <- app_assoc. cbn [app].
  rewrite IH. by destruct l.
Qed.

(** The set with the preferred primary moved to the front. *)
Definition move_front (r : option (nat * Z)) (l : list Z) : list Z :=
  match r with
  | Some (k, p) => p :: delete k l
  | None => l
  end.

Lemma move_front_spec k p l tail :
  l !! k = Some p ->
  (osds ← move_up k (l ++ tail); wr osds 0 p) = Ret (move_front (Some (k, p)) l ++ tail).
Proof.
  intros Hk. destruct (list_elem_of_split_length _ _ _ Hk) as (l1 & l2 & -> & ->).
  rewrite <- app_assoc. cbn [app]. rewrite move_up_spec. cbn [obind move_front].
  rewrite delete_middle. destruct l1 as [|h l1]; cbn [app take].
  - exact (wr_at [] (l2 ++ tail) 0 p p eq_refl).
  - rewrite <- app_assoc. exact (wr_at [] (h :: l1 ++ l2 ++ tail) 0 h p eq_refl).
Qed.

(** The affinity of every OSD that may be primary. *)
Definition affinities : list Z :=
  default (replicate (Z.to_nat (om_max_osd map)) CEPH_OSD_DEFAULT_PRIMARY_AFFINITY)
    (om_osd_primary_affinity map).

Lemma preferred_default pps l :
  Forall (fun o => is_osd o <-> usable affinities pps o) l ->
  preferred affinities pps l = list_find is_osd l.
Proof.
  intros Hf. unfold preferred. rewrite (list_find_ext (usable affinities pps) is_osd).
  - by destruct (list_find is_osd l).
  - eapply Forall_impl; [exact Hf|]. cbn. tauto.
Qed.

Lemma rejected_default pps osd :
  om_osd_primary_affinity map = None -> rejected affinities pps osd = false.
Proof.
  intros Ha. unfold rejected, affinities. rewrite Ha. cbn [default].
  destruct (rd _ osd) as [a| |] eqn:E; [|done..]. apply rd_elem in E.
  apply elem_of_replicate in E as [-> _]. done.
Qed.

Lemma move_front_id l :
  Forall is_osd l -> move_front (list_find is_osd l) l = l.
Proof. intros [|o l' Ho _]; [done|]. cbn. by rewrite decide_True. Qed.

(** What follows the choice of position [k]. *)
Lemma use_primary pool shift l tail primary k p :
  ceph_can_shift_osds pool = Ret shift -> l !! k = Some p ->
  (if 0 + Z.of_nat k <? 0 then Ret (l ++ tail, primary)
   else primary ← rd (l ++ tail) (0 + Z.of_nat k);
        shift ← ceph_can_shift_osds pool;
        if shift && (0 <? 0 + Z.of_nat k) then
          osds ← move_up (Z.to_nat (0 + Z.of_nat k)) (l ++ tail);
          osds ← wr osds 0 primary; Ret (osds, primary)
        else Ret (l ++ tail, primary)) =
  Ret ((if shift then move_front (Some (k, p)) l else l) ++ tail, first_of (Some (k, p))).
Proof.
  intros Hs Hk. rewrite Z.add_0_l, (proj2 (Z.ltb_ge _ _)), Nat2Z.id by lia.
  assert (rd (l ++ tail) (Z.of_nat k) = Ret p) as ->.
  { apply rd_Ret. split; [lia|]. rewrite Nat2Z.id. by apply lookup_app_l_Some. }
  cbn [obind]. rewrite Hs. cbn [obind]. destruct shift; cbn [andb]; [|done].
  destruct (Z.ltb_spec 0 (Z.of_nat k)).
  - pose proof (move_front_spec k p l tail Hk) as E.
    apply bind_Ret in E as (o1 & -> & E). cbn [obind]. rewrite E. done.
  - assert (k = 0%nat) as -> by lia. destruct l; [done|]. by injection Hk as ->.
Qed.

Lemma apply_primary_affinity_spec pps pool shift l tail :
  ceph_can_shift_osds pool = Ret shift ->
  Forall (fun o => is_osd o -> 0 <= o < om_max_osd map) l ->
  (shift = true -> Forall is_osd l) ->
  apply_primary_affinity map pps pool (l ++ tail) (Z.of_nat (length l)) (first_up l) =
  Ret ((if shift then move_front (preferred affinities pps l) l else l) ++ tail,
       first_of (preferred affinities pps l)).
Proof.
  intros Hs Hr Hsh. unfold apply_primary_affinity.
  assert (Hdef : preferred affinities pps l = list_find is_osd l ->
    Ret (l ++ tail, first_up l) =
    Ret ((if shift then move_front (preferred affinities pps l) l else l) ++ tail,
       first_of (preferred affinities pps l))).
  { intros ->. destruct shift; [rewrite move_front_id by auto|]; done. }
  destruct (om_osd_primary_affinity map) as [aff|] eqn:Ha.
  2:{ apply Hdef, preferred_default, Forall_forall. intros o _. unfold usable.
      rewrite rejected_default by done. tauto. }
  assert (Haff : affinities = aff) by (unfold affinities; by rewrite Ha).
  assert (Hi : indexes aff l).
  { eapply Forall_impl; [exact Hr|]. cbn. by rewrite (ok_affinity _ Hok aff Ha). }
  rewrite Nat2Z.id. destruct (any_affinity_spec aff l [] tail 0 Hi) as (b & Hb & Hf); [done|].
  cbn [app] in Hb. rewrite Hb. cbn [obind]. destruct b; cbn [negb].
  2:{ apply Hdef, preferred_default. rewrite Haff. by apply Hf. }
  pose proof (pick_primary_spec aff pps l [] tail 0 (-1) Hi eq_refl) as Hp.
  cbn [app] in Hp. rewrite Hp. cbn [obind]. rewrite Haff in *. unfold preferred, picked in *.
  change (-1 <? 0) with true. cbn iota.
  destruct (list_find (usable aff pps) l) as [[k p]|] eqn:Eu.
  - apply list_find_Some in Eu as (Hk & _). by apply use_primary.
  - destruct (list_find is_osd l) as [[k p]|] eqn:Ei.
    + apply list_find_Some in Ei as (Hk & _). by apply use_primary.
    + rewrite (proj2 (Z.ltb_lt _ _)) by lia. apply Hdef. done.
Qed.

(** ** Temporary mappings *)
Lemma store_temps_spec shift l : forall kept rest n,
  n = Z.of_nat (length kept) -> (length (up_set map shift l) <= length rest)%nat ->
  store_temps l map (Ret shift) (kept ++ rest) n =
  Ret (kept ++ up_set map shift l ++ drop (length (up_set map shift l)) rest,
       n + Z.of_nat (length (up_set map shift l))).
Proof.
  induction l as [|o l IH]; intros kept rest n Hn Hl; cbn [store_temps].
  { destruct shift; cbn; by rewrite Z.add_0_r, ?drop_0. }
  assert (Hput : forall w rest', rest = rest' -> (S (length (up_set map shift l)) <= length rest)%nat ->
    (osds ← wr (kept ++ rest') n w; store_temps l map (Ret shift) osds (n + 1)) =
    Ret (kept ++ (w :: up_set map shift l) ++ drop (S (length (up_set map shift l))) rest,
         n + Z.of_nat (S (length (up_set map shift l))))).
  { intros w rest' <- Hr. destruct rest as [|g rest]; [cbn in Hr; lia|]. rewrite wr_at by done.
    cbn [obind]. replace (kept ++ w :: rest) with ((kept ++ [w]) ++ rest) by (by rewrite <- app_assoc).
    rewrite IH by (rewrite ?length_app; cbn in *; lia). rewrite <- app_assoc. cbn [app drop]. do 2 f_equal. lia. }
  rewrite is_down_up. cbn [obind]. destruct shift; cbn [up_set fmap list_fmap] in *.
  - rewrite up_only_cons in *. destruct (osd_up map o); cbn [negb obind length] in *; auto.
  - unfold up_or_none at 1 3 5. destruct (osd_up map o); cbn [negb obind length] in *; auto.
Qed.

Lemma first_osd_spec l : forall pre tail i,
  i = Z.of_nat (length pre) -> first_osd (length l) (pre ++ l ++ tail) i = Ret (first_up l).
Proof.
  unfold first_up. induction l as [|o l IH]; intros pre tail i Hi; cbn [length first_osd]; [done|].
  cbn [app]. rewrite rd_at by done. cbn [obind list_find].
  destruct (Z.eqb_spec o CRUSH_ITEM_NONE) as [->|]; cbn [negb].
  - rewrite decide_False by (unfold is_osd; tauto).
    replace (pre ++ CRUSH_ITEM_NONE :: l ++ tail) with ((pre ++ [CRUSH_ITEM_NONE]) ++ l ++ tail)
      by (by rewrite <- app_assoc).
    rewrite IH by (rewrite length_app; cbn; lia). by destruct (list_find is_osd l) as [[]|].
  - by rewrite decide_True.
Qed.

(** The placement group of a raw one. *)
Definition raw_pg_to_pg (pi : pg_pool_info) (pgid : ceph_pg) : ceph_pg :=
  Pg (pool pgid)
     (u32 (ceph_stable_mod (s32 (seed pgid)) (s32 (pi_pg_num pi)) (pi_pg_num_mask pi))).

Definition temp_of (pi : pg_pool_info) (pgid : ceph_pg) : option pg_temp_mapping :=
  pg_temp_map (om_pg_temp map) !! pg_key (raw_pg_to_pg pi pgid).
Definition primary_temp_of (pi : pg_pool_info) (pgid : ceph_pg) : option primary_temp_mapping :=
  primary_temp_map (om_primary_temp map) !! pg_key (raw_pg_to_pg pi pgid).

(** The acting set and primary that an up set and primary become. *)
Definition acting_of (pi : pg_pool_info) (shift : bool) (pgid : ceph_pg) (up : list Z) : list Z :=
  match temp_of pi pgid with
  | Some pg => up_set map shift (pt_osds pg)
  | None => up
  end.
Definition primary_of (pi : pg_pool_info) (shift : bool) (pgid : ceph_pg) (primary : Z) : Z :=
  match primary_temp_of pi pgid with
  | Some pg => pr_osd pg
  | None =>
      match temp_of pi pgid with
      | Some pg => first_up (up_set map shift (pt_osds pg))
      | None => primary
      end
  end.

Lemma apply_temps_spec `{RbOps} pi shift pgid l tail primary :
  ceph_can_shift_osds pi = Ret shift ->
  (length (acting_of pi shift pgid l) <= length (l ++ tail))%nat ->
  exists tail',
    apply_temps map pi pgid (l ++ tail) (Z.of_nat (length l)) primary =
      Ret (acting_of pi shift pgid l ++ tail', Z.of_nat (length (acting_of pi shift pgid l)),
           primary_of pi shift pgid primary) /\
    length (acting_of pi shift pgid l ++ tail') = length (l ++ tail).
Proof.
  intros Hs Hl. unfold apply_temps. fold (raw_pg_to_pg pi pgid).
  pose proof (lookup_pg_temp_refines _ (raw_pg_to_pg pi pgid) (ok_pg_temp _ Hok)) as Ht.
  pose proof (lookup_primary_temp_refines _ (raw_pg_to_pg pi pgid) (ok_primary_temp _ Hok)) as Hp.
  unfold acting_of, primary_of, temp_of, primary_temp_of in *. rewrite <- Ht in *. rewrite <- Hp in *.
  destruct (lookup_pg_temp (om_pg_temp map) (raw_pg_to_pg pi pgid)) as [[pa pg]|]; cbn in Hl |- *.
  - rewrite Hs. pose proof (store_temps_spec shift (pt_osds pg) [] (l ++ tail) 0 eq_refl Hl) as E.
    cbn [app] in E. rewrite E. cbn [obind]. rewrite Z.add_0_l, Nat2Z.id.
    pose proof (first_osd_spec (up_set map shift (pt_osds pg)) []) as F. cbn [app] in F.
    rewrite F by done. cbn [obind]. eexists. split.
    + by destruct (lookup_primary_temp _ _) as [[]|].
    + rewrite length_app, length_drop. lia.
  - exists tail. split; [|done]. by destruct (lookup_primary_temp _ _) as [[]|].
Qed.

End Up.

(** ** The whole mapping *)
Lemma app_take {A} (l : list A) n : 0 <= n <= Z.of_nat (length l) ->
  l = slice l 0 n ++ drop (Z.to_nat n) l /\ Z.of_nat (length (slice l 0 n)) = n.
Proof.
  intros Hn. unfold slice. change (Z.to_nat 0) with 0%nat. rewrite drop_0. split; [by rewrite take_drop|]. rewrite length_take. lia.
Qed.

Lemma slice_app {A} (l k : list A) : slice (l ++ k) 0 (Z.of_nat (length l)) = l.
Proof. unfold slice. change (Z.to_nat 0) with 0%nat. rewrite drop_0. by rewrite Nat2Z.id, take_app_length. Qed.

Section Whole.
Context `{RbOps} (map : ceph_osdmap) (Hok : osdmap_ok map).

(** The up set with the primary in front, and the up primary. *)
Definition up_ordered (shift : bool) (pps : Z) (raw : list Z) : list Z :=
  let up := up_set map shift raw in
  if shift then move_front (preferred (affinities map) pps up) up else up.
Definition up_primary (shift : bool) (pps : Z) (raw : list Z) : Z :=
  first_of (preferred (affinities map) pps (up_set map shift raw)).

(** The acting set and its primary, from the raw set. *)
Definition acting_set (pi : pg_pool_info) (shift : bool) (pgid : ceph_pg) (raw : list Z) : list Z :=
  acting_of map pi shift pgid (up_ordered shift (calc_pps pi pgid) raw).
Definition acting_primary (pi : pg_pool_info) (shift : bool) (pgid : ceph_pg) (raw : list Z) : Z :=
  primary_of map pi shift pgid (up_primary shift (calc_pps pi pgid) raw).

Lemma up_set_range shift raw :
  Forall (fun o => is_osd o -> 0 <= o < om_max_osd map) (up_set map shift raw).
Proof.
  destruct shift; cbn [up_set].
  - apply Forall_forall. unfold up_only. intros o [Ho _]%list_elem_of_filter _. by apply osd_up_range.
  - apply Forall_fmap, Forall_forall. intros o _. unfold compose, up_or_none.
    destruct (osd_up map o) eqn:E; [intros _; by apply osd_up_range|done].
Qed.

Lemma up_only_osds raw : Forall is_osd (up_only map raw).
Proof.
  apply Forall_forall. unfold up_only. intros o [Ho _]%list_elem_of_filter. by eapply up_is_osd.
Qed.

Lemma preferred_lookup aff pps l k p : preferred aff pps l = Some (k, p) -> l !! k = Some p.
Proof.
  unfold preferred. destruct (list_find (usable aff pps) l) as [[k' p']|] eqn:E.
  - intros [= -> ->]. by apply list_find_Some in E as [? _].
  - intros [? _]%list_find_Some. done.
Qed.

Lemma move_front_perm r l : (forall k p, r = Some (k, p) -> l !! k = Some p) -> move_front r l ≡ₚ l.
Proof.
  destruct r as [[k p]|]; [|done]. intros Hr. cbn. symmetry. apply delete_Permutation. by apply Hr.
Qed.

Lemma up_ordered_perm shift pps raw : up_ordered shift pps raw ≡ₚ up_set map shift raw.
Proof.
  unfold up_ordered. destruct shift; [|done]. apply move_front_perm. apply preferred_lookup.
Qed.

Lemma pg_to_raw_osds_spec scratch fuel pi pps osds osds1 n map1 :
  CEPH_PG_MAX_SIZE <= Z.of_nat (length osds) ->
  pg_to_raw_osds map scratch fuel pi pps osds = Ret (osds1, n, map1) ->
  0 <= n <= Z.of_nat (length osds1) /\ length osds1 = length osds /\ exists c, map1 = set_crush map c.
Proof.
  intros Hl. unfold pg_to_raw_osds, do_crush. intros E. inv_outcome.
  destruct (a0 <? 0); [done|]. inv_outcome.
  match goal with E : (if _ then _ else _) = Ret _ |- _ => destruct (_ <? 0); [done|]; injection E as <- <- <- end.
  match goal with E : crush_do_rule _ _ _ _ _ _ _ _ _ = Ret _ |- _ =>
    apply crush_do_rule_result in E as (Hn & Hlen & _) end.
  rewrite Hlen. split; [|split; [done|by eexists]]. unfold CEPH_PG_MAX_SIZE in *. lia.
Qed.

(** From the raw set on, the code computes the acting set and primary. *)
Lemma acting_from_raw scratch fuel pgid path pi shift osds osds1 n map1 :
  CEPH_PG_MAX_SIZE <= Z.of_nat (length osds) ->
  lookup_pg_pool (om_pg_pools map) (pool pgid) = Some (path, pi) ->
  ceph_can_shift_osds pi = Ret shift ->
  pg_to_raw_osds map scratch fuel pi (calc_pps pi pgid) osds = Ret (osds1, n, map1) ->
  let acting := acting_set pi shift pgid (slice osds1 0 n) in
  (length acting <= length osds)%nat ->
  exists osds', ceph_calc_pg_acting map scratch fuel pgid osds =
      Ret (osds', Z.of_nat (length acting), acting_primary pi shift pgid (slice osds1 0 n), map1) /\
    length osds' = length osds /\ slice osds' 0 (Z.of_nat (length acting)) = acting.
Proof.
  intros Hl Hpool Hs Hraw acting Hfit. unfold ceph_calc_pg_acting. rewrite Hpool, Hraw. cbn [obind].
  destruct (pg_to_raw_osds_spec _ _ _ _ _ _ _ _ Hl Hraw) as (Hn & Hlen & c & ->).
  pose proof (set_crush_ok map c Hok) as Hok1. set (map1 := set_crush map c) in *.
  destruct (app_take osds1 n Hn) as [Hsplit Hrl].
  set (raw := slice osds1 0 n) in *. set (tail := drop (Z.to_nat n) osds1) in *.
  rewrite Hsplit, <- Hrl.
  destruct (raw_to_up_spec map1 Hok1 pi shift raw tail Hs) as (gap & -> & Hgap). cbn [obind].
  change (up_set map1 shift raw) with (up_set map shift raw) in *.
  set (up := up_set map shift raw) in *.
  rewrite (apply_primary_affinity_spec map1 Hok1 _ pi shift up (gap ++ tail) Hs (up_set_range shift raw)).
  2:{ intros ->. apply up_only_osds. }
  cbn [obind]. change (affinities map1) with (affinities map).
  assert (Hord : (if shift then move_front (preferred (affinities map) (calc_pps pi pgid) up) up else up)
    = up_ordered shift (calc_pps pi pgid) raw) by done.
  change (first_of (preferred (affinities map) (calc_pps pi pgid) up))
    with (up_primary shift (calc_pps pi pgid) raw).
  rewrite Hord. pose proof (Permutation_length (up_ordered_perm shift (calc_pps pi pgid) raw)) as Hpl.
  fold up in Hpl. rewrite <- Hpl.
  destruct (apply_temps_spec map1 Hok1 pi shift pgid (up_ordered shift (calc_pps pi pgid) raw)
    (gap ++ tail) (up_primary shift (calc_pps pi pgid) raw) Hs) as (tail' & Ht & Hlt).
  { change (acting_of map1 _ _ _ _) with acting. apply (f_equal length) in Hsplit.
    rewrite !length_app in *. lia. }
  change (acting_of map1 _ _ _ _) with acting in *. rewrite Ht. cbn [obind].
  eexists. split; [done|]. split; [|apply slice_app].
  rewrite Hlt. apply (f_equal length) in Hsplit. rewrite !length_app in *. lia.
Qed.

End Whole.

(** ** Separation *)
Lemma separated_domain weight weight_max x m root type result n :
  separated m weight weight_max x root type result n ->
  exists domain : Z -> Z,
    (forall d, d ∈ slice result 0 n ->
       accepted weight weight_max x m type (-1 - root) (domain d) /\
       accepted weight weight_max x m 0 (-1 - domain d) d) /\
    (forall d e, d ∈ slice result 0 n -> e ∈ slice result 0 n -> domain d = domain e -> d = e).
Proof.
  intros (domains & _ & Hnd & Hndd & Hacc & Hall). set (devices := slice result 0 n) in *.
  set (domain d := match list_find (eq d) devices with
                   | Some (i, _) => default 0 (domains !! i) | None => 0 end).
  assert (Hdom : forall d, d ∈ devices ->
    exists i, devices !! i = Some d /\ domains !! i = Some (domain d)).
  { intros d [i Hi]%list_elem_of_lookup. unfold domain.
    destruct (list_find_elem_of (eq d) devices d) as [[j d'] Hf]; [by eapply list_elem_of_lookup_2|done|].
    rewrite Hf. apply list_find_Some in Hf as (Hj & <- & _). exists j. split; [done|].
    destruct (Forall2_lookup_r _ _ _ _ _ Hall Hj) as (w & -> & _). done. }
  exists domain. split.
  - intros d Hd. destruct (Hdom d Hd) as (i & Hi & Hw). split.
    + by eapply Forall_lookup_1.
    + by eapply (Forall2_lookup_lr _ _ _ _ _ _ Hall).
  - intros d e Hd He E. destruct (Hdom d Hd) as (i & Hi & Hw). destruct (Hdom e He) as (j & Hj & Hv).
    rewrite E in Hw. assert (i = j) as -> by (by eapply NoDup_lookup). congruence.
Qed.

(** A replicated pool whose rule is a generated chooseleaf firstn rule. *)
Record replicated_setting (map : ceph_osdmap) (rank : Z -> nat) (H : nat) (maxsize : Z) (c : crush_map)
    (pi : pg_pool_info) (ruleno root type : Z) (osds scratch : list Z) (fuel : nat) : Prop := {
  rs_ok : osdmap_ok map;
  rs_crush : om_crush map = Some c;
  rs_map_ok : map_ok rank H maxsize c;
  rs_type : pi_type pi = CEPH_POOL_TYPE_REP;
  rs_rule : crush_find_rule c (pi_crush_ruleset pi) (pi_type pi) (pi_size pi) = Ret ruleno;
  rs_setting : rule_setting (om_osd_weight map) (om_max_osd map) (Z.min (pi_size pi) CEPH_PG_MAX_SIZE)
    c CRUSH_RULE_CHOOSELEAF_FIRSTN ruleno root 0 type osds scratch;
  rs_fuel : firstn_tunables_ok fuel H maxsize c;
  rs_osds : CEPH_PG_MAX_SIZE <= Z.of_nat (length osds) }.

Lemma pg_to_raw_separates map rank H maxsize c pi ruleno root type osds scratch fuel pps :
  replicated_setting map rank H maxsize c pi ruleno root type osds scratch fuel ->
  exists osds1 n c', pg_to_raw_osds map scratch fuel pi pps osds = Ret (osds1, n, set_crush map (Some c')) /\
    good c c' /\ 0 <= n <= pi_size pi /\
    separated c (om_osd_weight map) (om_max_osd map) (s32 pps) root type osds1 n.
Proof.
  intros [Hok Hc Hmap Ht Hr Hset Hf Ho].
  destruct (firstn_rule_separates rank H maxsize c (om_osd_weight map) (om_max_osd map) (s32 pps)
    (Z.min (pi_size pi) CEPH_PG_MAX_SIZE) fuel ruleno root 0 type osds scratch Hmap Hset Hf)
    as (osds1 & n & Hrun & Hn & Hsep).
  destruct (Hrun c (good_refl _ _ _ _ Hmap)) as (c' & Hg & Hdo).
  pose proof (rt_no _ _ _ _ _ _ _ _ _ _ _ Hset) as Hno.
  pose proof (rt_max _ _ _ _ _ _ _ _ _ _ _ Hset) as Hmax.
  exists osds1, n, c'. split; [|split; [done|split; [|done]]].
  - unfold pg_to_raw_osds, do_crush. rewrite Hc. cbn [deref obind]. rewrite Hr. cbn [obind].
    rewrite (proj2 (Z.ltb_ge ruleno 0)) by lia. rewrite (proj2 (Z.ltb_ge CEPH_PG_MAX_SIZE _)) by lia.
    cbn [bug_on obind]. rewrite (s32_small (om_max_osd map)) by (pose proof (ok_max _ Hok); lia).
    rewrite Hdo. cbn [obind]. rewrite (proj2 (Z.ltb_ge n 0)) by lia. done.
  - unfold rule_numrep in Hn. change (0 <=? 0) with true in Hn. cbn iota in Hn.
    rewrite Z.add_0_l, s32_small in Hn by lia. lia.
Qed.

Lemma primary_is_first map pps raw :
  osdmap_ok map ->
  let up := up_ordered map true pps raw in
  up = [] /\ up_primary map true pps raw = -1 \/ head up = Some (up_primary map true pps raw).
Proof.
  intros Hok. unfold up_ordered, up_primary. cbn [up_set].
  destruct (preferred (affinities map) pps (up_only map raw)) as [[k p]|] eqn:E; cbn; [by right|left].
  split; [|done]. unfold preferred in E. destruct (list_find (usable _ _) _); [done|].
  pose proof (up_only_osds map Hok raw) as Hall. destruct (up_only map raw) as [|o l]; [done|].
  apply Forall_cons in Hall as [Ho _]. cbn in E. by rewrite decide_True in E.
Qed.

(** ** Properties *)

(** C31: ceph_stable_mod with the masks of calc_pg_masks: every hash falls in one of
    the [n] placement groups, a placement group number is its own image, and
    when the pool grows from [n] to [n + 1] groups an object stays where it was
    or moves to the new group. *)
Theorem ceph_stable_mod_splits x n m m' :
  1 <= n < 2 ^ 31 - 1 -> pg_mask n = Ret m -> pg_mask (n + 1) = Ret m' ->
  0 <= ceph_stable_mod x n m < n /\
  (0 <= x < n -> ceph_stable_mod x n m = x) /\
  (ceph_stable_mod x (n + 1) m' = ceph_stable_mod x n m \/ ceph_stable_mod x (n + 1) m' = n).
Proof.
  intros Hn Hm Hm'. split; [apply stable_mod_range; (done || lia)|]. split; [|by apply stable_mod_split].
  intros Hx. destruct (pg_mask_spec n m ltac:(lia) Hm) as (k & Hk & -> & Hu & Hl).
  destruct (stable_mod_ones x n k ltac:(lia) Hu Hl ltac:(lia)) as [[_ ->]|(_ & Hge & _)].
  - by rewrite Z.mod_small by lia.
  - rewrite Z.mod_small in Hge by lia. lia.
Qed.

Lemma ceph_stable_mod_splits_witness :
  pg_mask 12 = Ret 15 /\ 0 <= ceph_stable_mod 0x3d 12 15 < 12.
Proof.
  split; [reflexivity|]. apply (ceph_stable_mod_splits 0x3d 12 15 15); [lia|reflexivity..].
Defined.

(** C21: ceph_calc_pg_acting after the CRUSH rule, on every branch: the raw set
    without the OSDs that are down (or with holes for them, in an erasure coded
    pool), with the OSD the primary affinities prefer as its primary (in front,
    in a replicated pool), replaced by the pg_temp mapping of the placement
    group and by its primary_temp, where there are such; the array holds it and
    no access leaves the array when the set fits. *)
Theorem ceph_calc_pg_acting_computes `{RbOps} map scratch fuel pgid path pi shift osds osds1 n map1 :
  osdmap_ok map -> CEPH_PG_MAX_SIZE <= Z.of_nat (length osds) ->
  lookup_pg_pool (om_pg_pools map) (pool pgid) = Some (path, pi) ->
  ceph_can_shift_osds pi = Ret shift ->
  pg_to_raw_osds map scratch fuel pi (calc_pps pi pgid) osds = Ret (osds1, n, map1) ->
  let acting := acting_set map pi shift pgid (slice osds1 0 n) in
  (length acting <= length osds)%nat ->
  exists osds', ceph_calc_pg_acting map scratch fuel pgid osds =
      Ret (osds', Z.of_nat (length acting), acting_primary map pi shift pgid (slice osds1 0 n), map1) /\
    length osds' = length osds /\ slice osds' 0 (Z.of_nat (length acting)) = acting.
Proof. intros Hok. by apply acting_from_raw. Qed.


(** ** Examples *)
Definition example_pool : pg_pool_info :=
  PoolInfo 1 CEPH_POOL_TYPE_REP 3 0 CEPH_STR_HASH_RJENKINS 8 8 7 7 (-1) (-1) CEPH_POOL_FLAG_HASHPSPOOL None.

(** OSD 1 is down, OSD 0 has half an affinity; group 1.5 is mapped to [temp]. *)
Definition example_osdmap (temp : list Z) : ceph_osdmap :=
  OsdMap (repeat 0 16) 7 (repeat 0 8) (repeat 0 8) 0 6 [3; 1; 3; 3; 3; 3] example_weight
    (repeat (repeat 0 136) 6) (Node Black Nil (PgTemp (Pg 1 5) temp) Nil) Nil
    (Some [0x8000; 0x10000; 0x10000; 0x10000; 0x10000; 0x10000])
    (Node Black Nil example_pool Nil) 1 (Some example_map).

Lemma example_osdmap_ok temp : osdmap_ok (example_osdmap temp).
Proof.
  split; try done; try (cbn; lia); try apply ordered_Nil.
  - intros l [= <-]. done.
  - split; repeat constructor.
  - split; repeat constructor.
Qed.

Lemma example_replicated temp :
  replicated_setting (example_osdmap temp) example_rank 2 3 example_map example_pool 0 (-1) 1
    (repeat 0 16) (repeat 0 48) 30.
Proof.
  split; [apply example_osdmap_ok|done|exact example_map_ok|done|reflexivity| |split; cbn; lia|done].
  split; [cbn; lia|done|by eexists|done|by vm_compute|
    vm_compute; split; [reflexivity|discriminate]|cbn; lia|cbn; lia|done|cbn; lia|done].
Qed.

Lemma ceph_calc_pg_acting_computes_witness :
  exists osds' primary map',
    ceph_calc_pg_acting (example_osdmap [4; 1; 2]) (repeat 0 48) 30 (Pg 1 5) (repeat 0 16)
      = Ret (osds', 2, primary, map') /\ slice osds' 0 2 = [4; 2] /\ primary = 4.
Proof.
  destruct (pg_to_raw_osds (example_osdmap [4; 1; 2]) (repeat 0 48) 30 example_pool
    (calc_pps example_pool (Pg 1 5)) (repeat 0 16)) as [[[osds1 n] map1]| |] eqn:E;
    [|vm_compute in E; discriminate..].
  destruct (ceph_calc_pg_acting_computes (example_osdmap [4; 1; 2]) (repeat 0 48) 30 (Pg 1 5) []
    example_pool true (repeat 0 16) osds1 n map1) as (osds' & Hrun & _ & Hs).
  - apply example_osdmap_ok.
  - vm_compute. discriminate.
  - reflexivity.
  - reflexivity.
  - exact E.
  - vm_compute. lia.
  - exists osds', 4, map1. split; [exact Hrun|]. split; [exact Hs|reflexivity].
Defined.


(** apply_temps copies a pg_temp mapping whatever its length is: nothing between
    the wire and the array bounds it by CEPH_PG_MAX_SIZE, and one of 17 OSDs
    makes ceph_calc_pg_primary write past the end of its array of 16. *)
Theorem apply_temps_overruns_array :
  ceph_calc_pg_primary (example_osdmap (repeat 2 17)) (repeat 0 48) (repeat 0 16) 30 (Pg 1 5)
    = Fault OutOfBounds.
Proof. vm_compute. reflexivity. Qed.
