(* ===== verification/FileLayout.v ===== *)
(** * Striping a file over objects

    Models net/ceph/ceph_fs.c (layouts, open flags, capabilities of an open
    mode), [calc_pages_for] of libceph.h, the layout accessors of ceph_fs.h and
    [ceph_calc_file_object_mapping] of net/ceph/osdmap.c.  The page size is the
    machine's: [PAGE_SHIFT] is a parameter. *)
From S2P Require Import Prelude.

Definition CEPH_MIN_STRIPE_UNIT : Z := 65536.

(** The fields that are read, as cpu-order u32. *)
Record ceph_file_layout := Layout {
  fl_stripe_unit : Z;
  fl_stripe_count : Z;
  fl_object_size : Z }.

Definition ceph_file_layout_stripe_width (l : ceph_file_layout) : Z :=
  u32 (fl_stripe_unit l * fl_stripe_count l).
Definition ceph_file_layout_period (l : ceph_file_layout) : Z :=
  u32 (fl_object_size l * fl_stripe_count l).

Definition ceph_file_layout_is_valid (l : ceph_file_layout) : bool :=
  let su := fl_stripe_unit l in
  let sc := fl_stripe_count l in
  let os := fl_object_size l in
  if (su =? 0) || negb (Z.land su (CEPH_MIN_STRIPE_UNIT - 1) =? 0) then false
  else if (os =? 0) || negb (Z.land os (CEPH_MIN_STRIPE_UNIT - 1) =? 0) then false
  else if (os <? su) || negb (os mod su =? 0) then false
  else if sc =? 0 then false
  else true.

(** ** Open modes *)
Definition CEPH_FILE_MODE_PIN : Z := 0.
Definition CEPH_FILE_MODE_RD : Z := 1.
Definition CEPH_FILE_MODE_WR : Z := 2.
Definition CEPH_FILE_MODE_RDWR : Z := 3.
Definition CEPH_FILE_MODE_LAZY : Z := 4.

Definition CEPH_CAP_PIN : Z := 1.
Definition CEPH_CAP_AUTH_SHARED : Z := Z.shiftl 1 2.
Definition CEPH_CAP_AUTH_EXCL : Z := Z.shiftl 2 2.
Definition CEPH_CAP_XATTR_SHARED : Z := Z.shiftl 1 6.
Definition CEPH_CAP_XATTR_EXCL : Z := Z.shiftl 2 6.
Definition CEPH_CAP_FILE_SHARED : Z := Z.shiftl 1 8.
Definition CEPH_CAP_FILE_EXCL : Z := Z.shiftl 2 8.
Definition CEPH_CAP_FILE_CACHE : Z := Z.shiftl 4 8.
Definition CEPH_CAP_FILE_RD : Z := Z.shiftl 8 8.
Definition CEPH_CAP_FILE_WR : Z := Z.shiftl 16 8.
Definition CEPH_CAP_FILE_BUFFER : Z := Z.shiftl 32 8.
Definition CEPH_CAP_FILE_LAZYIO : Z := Z.shiftl 128 8.

(** [O_DIRECTORY] is the machine's; O_LAZY is not defined. *)
Definition ceph_flags_to_mode (O_DIRECTORY flags : Z) : Z :=
  if Z.land flags O_DIRECTORY =? O_DIRECTORY then CEPH_FILE_MODE_PIN
  else
    let acc := Z.land flags 3 in
    if acc =? 1 then CEPH_FILE_MODE_WR
    else if acc =? 0 then CEPH_FILE_MODE_RD
    else CEPH_FILE_MODE_RDWR.

Definition ceph_caps_for_mode (mode : Z) : Z :=
  let caps := CEPH_CAP_PIN in
  let caps :=
    if negb (Z.land mode CEPH_FILE_MODE_RD =? 0) then
      Z.lor caps (Z.lor (Z.lor CEPH_CAP_FILE_SHARED CEPH_CAP_FILE_RD) CEPH_CAP_FILE_CACHE)
    else caps in
  let caps :=
    if negb (Z.land mode CEPH_FILE_MODE_WR =? 0) then
      Z.lor caps (Z.lor (Z.lor (Z.lor (Z.lor (Z.lor (Z.lor CEPH_CAP_FILE_EXCL
        CEPH_CAP_FILE_WR) CEPH_CAP_FILE_BUFFER) CEPH_CAP_AUTH_SHARED) CEPH_CAP_AUTH_EXCL)
        CEPH_CAP_XATTR_SHARED) CEPH_CAP_XATTR_EXCL)
    else caps in
  if negb (Z.land mode CEPH_FILE_MODE_LAZY =? 0) then Z.lor caps CEPH_CAP_FILE_LAZYIO
  else caps.

Section Pages.
Context (PAGE_SHIFT : Z).

(** An int; the arithmetic is in u64. *)
Definition calc_pages_for (off len : Z) : Z :=
  s32 (Z.shiftr (u64 (off + len + 2 ^ PAGE_SHIFT - 1)) PAGE_SHIFT - Z.shiftr off PAGE_SHIFT).

(** ** Objects *)

(** The returned code, and [*ono], [*oxoff] and [*oxlen]. *)
Definition ceph_calc_file_object_mapping (l : ceph_file_layout) (off len : Z) : Z * (Z * Z * Z) :=
  let osize := fl_object_size l in
  let su := fl_stripe_unit l in
  let sc := fl_stripe_count l in
  let invalid := (- EINVAL, (0, 0, 0)) in
  if (su =? 0) || (sc =? 0) then invalid
  else
    let su_per_object := osize / su in
    if su_per_object =? 0 then invalid
    else if negb (Z.land su (2 ^ PAGE_SHIFT - 1) =? 0) then invalid
    else
      let bl := u32 (off / su) in
      let stripeno := bl / sc in
      let stripepos := bl mod sc in
      let objsetno := stripeno / su_per_object in
      let ono := u32 (objsetno * sc + stripepos) in
      let su_offset := off mod su in
      let oxoff := u64 (su_offset + u32 (stripeno mod su_per_object * su)) in
      let oxlen := Z.min len (u64 (su - su_offset)) in
      (0, (ono, oxoff, oxlen)).

End Pages.

(** ** Lemmas *)
Record layout_ok (l : ceph_file_layout) : Prop := {
  lo_su : 0 < fl_stripe_unit l < 2 ^ 32;
  lo_sc : 0 < fl_stripe_count l < 2 ^ 32;
  lo_os : fl_stripe_unit l <= fl_object_size l < 2 ^ 32 }.

Definition su_per_object (l : ceph_file_layout) : Z := fl_object_size l / fl_stripe_unit l.

(** Where byte [oxoff] of object [ono] is in the file. *)
Definition file_offset (l : ceph_file_layout) (ono oxoff : Z) : Z :=
  let su := fl_stripe_unit l in
  let sc := fl_stripe_count l in
  let stripeno := ono / sc * su_per_object l + oxoff / su in
  (stripeno * sc + ono mod sc) * su + oxoff mod su.

Lemma div_mul_add a b n : 0 <= b < n -> (a * n + b) / n = a /\ (a * n + b) mod n = b.
Proof.
  intros Hb. split.
  - rewrite Z.div_add_l by lia. rewrite Z.div_small by lia. lia.
  - rewrite Z.add_comm, Z.mod_add by lia. apply Z.mod_small. lia.
Qed.

Section Mapping.
Context (l : ceph_file_layout) (Hl : layout_ok l).

Let su := fl_stripe_unit l.
Let sc := fl_stripe_count l.
Let spo := su_per_object l.

Lemma spo_pos : 0 < spo /\ spo * su <= fl_object_size l.
Proof.
  destruct Hl as [Hsu Hsc Hos]. unfold spo, su_per_object. split.
  - apply Z.div_str_pos. lia.
  - rewrite Z.mul_comm. apply Z.mul_div_le. lia.
Qed.

Lemma mapping_inverse off :
  0 <= off -> off / su < 2 ^ 32 ->
  let stripeno := off / su / sc in
  file_offset l (stripeno / spo * sc + off / su mod sc) (off mod su + stripeno mod spo * su) = off.
Proof.
  intros Hoff Hbl stripeno. pose proof Hl as [Hsu Hsc Hos]. destruct spo_pos as [Hspo Hos'].
  unfold file_offset. fold su sc spo.
  destruct (div_mul_add (stripeno / spo) (off / su mod sc) sc) as [-> ->]; [apply Z.mod_pos_bound; lia|].
  destruct (div_mul_add (stripeno mod spo) (off mod su) su) as [E1 E2]; [apply Z.mod_pos_bound; lia|].
  rewrite (Z.add_comm (off mod su)), E1, E2.
  replace (stripeno / spo * spo + stripeno mod spo) with stripeno
    by (rewrite Z.mul_comm; apply Z.div_mod; lia).
  unfold stripeno. rewrite (Z.mul_comm (off / su / sc) sc), <- Z.div_mod by lia.
  rewrite (Z.mul_comm (off / su) su), <- Z.div_mod by lia. done.
Qed.

(** The bytes that follow in the same stripe unit. *)
Lemma mapping_byte off d :
  0 <= off -> off / su < 2 ^ 32 -> 0 <= d -> off mod su + d < su ->
  let stripeno := off / su / sc in
  (off + d) / su = off / su /\ (off + d) mod su = off mod su + d /\
  file_offset l (stripeno / spo * sc + off / su mod sc) (off mod su + stripeno mod spo * su + d) = off + d.
Proof.
  intros Hoff Hbl Hd Hlt stripeno. pose proof Hl as [Hsu Hsc Hos]. pose proof (Z.mod_pos_bound off su).
  destruct (div_mul_add (off / su) (off mod su + d) su) as [E1 E2]; [lia|].
  pose proof (Z.div_mod off su ltac:(lia)) as Edm.
  replace (off / su * su + (off mod su + d)) with (off + d) in E1, E2 by lia.
  split; [done|]. split; [done|]. pose proof (mapping_inverse (off + d) ltac:(lia) ltac:(lia)) as Hi. cbn zeta in Hi.
  rewrite E1, E2 in Hi. etransitivity; [|exact Hi]. unfold stripeno. f_equal. lia.
Qed.

(** The mapping without wrap-around. *)
Lemma mapping_eq PAGE_SHIFT off len :
  Z.land (fl_stripe_unit l) (2 ^ PAGE_SHIFT - 1) = 0 -> 0 <= off -> off / su < 2 ^ 32 ->
  let stripeno := off / su / sc in
  ceph_calc_file_object_mapping PAGE_SHIFT l off len =
  (0, (stripeno / spo * sc + off / su mod sc, off mod su + stripeno mod spo * su,
       Z.min len (su - off mod su))).
Proof.
  intros Hpage Hoff Hbl stripeno. pose proof Hl as [Hsu Hsc Hos]. destruct spo_pos as [Hspo Hos'].
  unfold ceph_calc_file_object_mapping. fold (su_per_object l). fold su sc spo.
  rewrite (proj2 (Z.eqb_neq su 0)), (proj2 (Z.eqb_neq sc 0)), (proj2 (Z.eqb_neq spo 0)) by lia.
  unfold su. rewrite Hpage. cbn [orb Z.eqb negb]. fold su.
  assert (Hb : 0 <= off / su) by (apply Z.div_pos; lia). rewrite (u32_small (off / su)) by lia.
  fold stripeno. pose proof (Z.mod_pos_bound off su). pose proof (Z.mod_pos_bound stripeno spo).
  pose proof (Z.mod_pos_bound (off / su) sc).
  assert (0 <= stripeno) by (apply Z.div_pos; lia).
  assert (stripeno / spo <= stripeno) by (apply Z.div_le_upper_bound; nia).
  assert (0 <= stripeno / spo) by (apply Z.div_pos; lia).
  pose proof (Z.div_mod (off / su) sc) as Hdm. fold stripeno in Hdm.
  rewrite (u32_small (stripeno / spo * sc + _)) by nia.
  assert (stripeno mod spo * su <= (spo - 1) * su) by (apply Z.mul_le_mono_nonneg_r; lia).
  assert (0 <= stripeno mod spo * su) by (apply Z.mul_nonneg_nonneg; lia).
  rewrite (u32_small (stripeno mod spo * su)) by lia. rewrite !u64_small by lia. done.
Qed.

End Mapping.

(** [calc_pages_for] counts the pages of the bytes [off], ..., [off + len - 1]. *)
Lemma calc_pages_for_counts PAGE_SHIFT off len :
  0 <= PAGE_SHIFT <= 32 -> 0 <= off -> 0 < len -> off + len + 2 ^ PAGE_SHIFT <= 2 ^ 64 ->
  len <= 2 ^ PAGE_SHIFT * (2 ^ 31 - 2) ->
  calc_pages_for PAGE_SHIFT off len = (off + len - 1) / 2 ^ PAGE_SHIFT - off / 2 ^ PAGE_SHIFT + 1.
Proof.
  intros Hp Hoff Hlen Hw Hn. unfold calc_pages_for. pose proof (Z.pow_pos_nonneg 2 PAGE_SHIFT).
  rewrite u64_small by lia. rewrite !Z.shiftr_div_pow2 by lia.
  replace (off + len + 2 ^ PAGE_SHIFT - 1) with (off + len - 1 + 1 * 2 ^ PAGE_SHIFT) by lia.
  rewrite Z.div_add by lia.
  set (P := 2 ^ PAGE_SHIFT) in *.
  assert (off / P <= (off + len - 1) / P) by (apply Z.div_le_mono; lia).
  assert ((off + len - 1) / P <= (off + P * (2 ^ 31 - 2)) / P) by (apply Z.div_le_mono; lia).
  rewrite (Z.mul_comm P), Z.div_add in * by lia. rewrite s32_small by lia. lia.
Qed.

(** The capabilities of a union of open modes. *)
Lemma ceph_caps_for_mode_union :
  Forall (fun a => Forall (fun b =>
    ceph_caps_for_mode (Z.lor a b) = Z.lor (ceph_caps_for_mode a) (ceph_caps_for_mode b))
    (seqZ 0 8)) (seqZ 0 8).
Proof. repeat (constructor; [repeat (constructor; [reflexivity|]); constructor|]). constructor. Qed.

(** ** Properties *)


Definition example_layout : ceph_file_layout := Layout 0x10000 3 0x40000.


(** ceph_file_layout_is_valid accepts only layouts that
    ceph_calc_file_object_mapping can map, whatever the page size up to 64K. *)
Theorem ceph_file_layout_valid_maps PAGE_SHIFT l off len :
  0 <= PAGE_SHIFT <= 16 -> 0 <= fl_stripe_unit l < 2 ^ 32 -> 0 <= fl_stripe_count l < 2 ^ 32 ->
  0 <= fl_object_size l < 2 ^ 32 -> ceph_file_layout_is_valid l = true ->
  (ceph_calc_file_object_mapping PAGE_SHIFT l off len).1 = 0 /\
  su_per_object l * fl_stripe_unit l = fl_object_size l.
Proof.
  intros Hp Hsu Hsc Hos. unfold ceph_file_layout_is_valid, CEPH_MIN_STRIPE_UNIT.
  destruct (Z.eqb_spec (fl_stripe_unit l) 0); cbn [orb]; [done|].
  destruct (Z.eqb_spec (Z.land (fl_stripe_unit l) (65536 - 1)) 0) as [Hal|]; cbn [negb]; [|done].
  destruct ((fl_object_size l =? 0) || _); [done|].
  destruct (Z.ltb_spec (fl_object_size l) (fl_stripe_unit l)); cbn [orb]; [done|].
  destruct (Z.eqb_spec (fl_object_size l mod fl_stripe_unit l) 0) as [Hmod|]; cbn [negb]; [|done].
  destruct (Z.eqb_spec (fl_stripe_count l) 0); [done|]. intros _.
  unfold su_per_object. split.
  - unfold ceph_calc_file_object_mapping.
    rewrite (proj2 (Z.eqb_neq (fl_stripe_unit l) 0)), (proj2 (Z.eqb_neq (fl_stripe_count l) 0)) by lia.
    cbn [orb]. assert (0 < fl_object_size l / fl_stripe_unit l) by (apply Z.div_str_pos; lia).
    rewrite (proj2 (Z.eqb_neq (fl_object_size l / fl_stripe_unit l) 0)) by lia.
    assert (Z.land (fl_stripe_unit l) (2 ^ PAGE_SHIFT - 1) = 0) as ->; [|done].
    change (65536 - 1) with (Z.ones 16) in Hal. rewrite Z.sub_1_r, <- Z.ones_equiv.
    rewrite Z.land_ones in * by lia. replace 16 with (PAGE_SHIFT + (16 - PAGE_SHIFT)) in Hal by lia.
    rewrite Z.pow_add_r in Hal by lia. apply Z.mod_divide in Hal; [|pose proof (Z.pow_pos_nonneg 2 PAGE_SHIFT);
      pose proof (Z.pow_pos_nonneg 2 (16 - PAGE_SHIFT)); nia].
    apply Z.mod_divide; [pose proof (Z.pow_pos_nonneg 2 PAGE_SHIFT); lia|].
    etransitivity; [|exact Hal]. apply Z.divide_factor_l.
  - rewrite Z.mul_comm. symmetry. apply Z_div_exact_full_2; [lia|done].
Qed.

Lemma ceph_file_layout_valid_maps_witness :
  ceph_file_layout_is_valid example_layout = true /\
  (ceph_calc_file_object_mapping 16 example_layout (2 ^ 60) 1).1 = 0.
Proof.
  split; [reflexivity|]. apply (ceph_file_layout_valid_maps 16 example_layout (2 ^ 60) 1);
    [lia|cbn; lia|cbn; lia|cbn; lia|reflexivity].
Defined.

(** The number of the stripe unit is kept in 32 bits: with the smallest stripe
    unit, offsets 0 and 2^48 of a file are mapped to the same byte of the same
    object. *)
Theorem ceph_calc_file_object_mapping_wraps :
  ceph_calc_file_object_mapping 12 example_layout (2 ^ 48) 0x1000 =
  ceph_calc_file_object_mapping 12 example_layout 0 0x1000 /\
  ceph_file_layout_is_valid example_layout = true.
Proof. split; reflexivity. Qed.
