(* ===== verification/PageList.v ===== *)
(** * Page lists

    Models net/ceph/pagelist.c and include/linux/ceph/pagelist.h: a byte string
    that grows page by page, with a reserve of pages.  A page is its address
    ([page_addr]) and its bytes.  The page size is the machine's ([PAGE_SHIFT]),
    and [page_cache_alloc n] is what the n-th page allocation returns: the
    bytes of the page, or nothing.  Sizes are those of objects in memory, so
    that the size_t arithmetic of append does not wrap; the size given to
    reserve is the caller's. *)
From S2P Require Import Prelude.
From S2P Require Import Wire.

Record page := Page { page_addr : nat; page_bytes : list Z }.

(** [pl_mapped_tail] tells whether mapped_tail is set; it is then the address of
    the last page.  [pl_addr] is the address of the struct and [pl_allocs] counts
    the page allocations. *)
Record ceph_pagelist := PageList {
  pl_addr : Z;
  pl_head : list page;
  pl_mapped_tail : bool;
  pl_length : Z;
  pl_room : Z;
  pl_free_list : list page;
  pl_num_pages_free : Z;
  pl_refcnt : Z;
  pl_allocs : nat }.

(** [c_page_lru] is the last page, or [None] for the list head. *)
Record ceph_pagelist_cursor := Cursor { c_pl : Z; c_page_lru : option nat; c_room : Z }.

Definition ceph_pagelist_init (addr : Z) (allocs : nat) : ceph_pagelist :=
  PageList addr [] false 0 0 [] 0 1 allocs.

Definition ceph_pagelist_unmap_tail (pl : ceph_pagelist) : ceph_pagelist :=
  PageList (pl_addr pl) (pl_head pl) false (pl_length pl) (pl_room pl) (pl_free_list pl)
    (pl_num_pages_free pl) (pl_refcnt pl) (pl_allocs pl).

(** [while (!list_empty(&pl->free_list))]: the pages freed and the count left *)
Fixpoint free_pages (l : list page) (n : Z) : list nat * Z :=
  match l with
  | [] => ([], n)
  | p :: l => let '(freed, n) := free_pages l (n - 1) in (page_addr p :: freed, n)
  end.

Definition ceph_pagelist_free_reserve (pl : ceph_pagelist) : outcome (list nat * ceph_pagelist) :=
  let '(freed, n) := free_pages (pl_free_list pl) (pl_num_pages_free pl) in
  _ ← bug_on (negb (n =? 0));
  Ret (freed, PageList (pl_addr pl) (pl_head pl) (pl_mapped_tail pl) (pl_length pl) (pl_room pl) []
         n (pl_refcnt pl) (pl_allocs pl)).

(** The pages freed and the list, unless it is freed too. *)
Definition ceph_pagelist_release (pl : ceph_pagelist) : outcome (list nat * option ceph_pagelist) :=
  let refcnt := s32 (pl_refcnt pl - 1) in
  let pl := PageList (pl_addr pl) (pl_head pl) (pl_mapped_tail pl) (pl_length pl) (pl_room pl)
              (pl_free_list pl) (pl_num_pages_free pl) refcnt (pl_allocs pl) in
  if negb (refcnt =? 0) then Ret ([], Some pl)
  else
    let pl := ceph_pagelist_unmap_tail pl in
    '(freed, _) ← ceph_pagelist_free_reserve pl;
    Ret ((page_addr <$> pl_head pl) ++ freed, None).

Section PageList.
Context (PAGE_SHIFT : Z) (page_cache_alloc : nat -> option (list Z)).
Let PAGE_SIZE := 2 ^ PAGE_SHIFT.

(** What follows the choice of the page; the list on an error too. *)
Definition link_page (pl : ceph_pagelist) (p : option page) (free : list page) (nfree : Z)
    (allocs : nat) : outcome unit * ceph_pagelist :=
  match p with
  | None =>
      (Err ENOMEM, PageList (pl_addr pl) (pl_head pl) (pl_mapped_tail pl) (pl_length pl) (pl_room pl)
                     free nfree (pl_refcnt pl) allocs)
  | Some page =>
      (Ret tt, PageList (pl_addr pl) (pl_head pl ++ [page]) true (pl_length pl)
                 (pl_room pl + PAGE_SIZE) free nfree (pl_refcnt pl) allocs)
  end.

(** A new page, or the first of the reserve. *)
Definition ceph_pagelist_addpage (pl : ceph_pagelist) : outcome unit * ceph_pagelist :=
  if pl_num_pages_free pl =? 0 then
    link_page pl (Page (pl_allocs pl) <$> page_cache_alloc (pl_allocs pl)) (pl_free_list pl) 0
      (S (pl_allocs pl))
  else
    match pl_free_list pl with
    | [] => (Fault OutOfBounds, pl)
    | page :: free => link_page pl (Some page) free (pl_num_pages_free pl - 1) (pl_allocs pl)
    end.

(** [memcpy(pl->mapped_tail + (pl->length & ~PAGE_CACHE_MASK), buf, len)] *)
Definition copy_to_tail (pl : ceph_pagelist) (buf : list Z) : outcome ceph_pagelist :=
  match buf with
  | [] => Ret pl
  | _ =>
      if pl_mapped_tail pl then
        match last (pl_head pl) with
        | None => Fault NullPointer
        | Some p =>
            bytes ← write_bytes (page_bytes p) (Z.land (pl_length pl) (PAGE_SIZE - 1)) buf;
            Ret (PageList (pl_addr pl) (take (length (pl_head pl) - 1) (pl_head pl) ++ [Page (page_addr p) bytes])
                   true (pl_length pl) (pl_room pl) (pl_free_list pl) (pl_num_pages_free pl)
                   (pl_refcnt pl) (pl_allocs pl))
        end
      else Fault NullPointer
  end.

(** The copy of [buf], then [pl->length += len; pl->room -= len] *)
Definition append_to_tail (pl : ceph_pagelist) (buf : list Z) : outcome ceph_pagelist :=
  pl ← copy_to_tail pl buf;
  let n := Z.of_nat (length buf) in
  Ret (PageList (pl_addr pl) (pl_head pl) (pl_mapped_tail pl) (pl_length pl + n) (pl_room pl - n)
         (pl_free_list pl) (pl_num_pages_free pl) (pl_refcnt pl) (pl_allocs pl)).

Fixpoint append_loop (fuel : nat) (pl : ceph_pagelist) (buf : list Z) : outcome unit * ceph_pagelist :=
  match fuel with
  | O => (Fault OutOfFuel, pl)
  | S fuel =>
      if pl_room pl <? Z.of_nat (length buf) then
        let bit := Z.to_nat (pl_room pl) in
        match append_to_tail pl (take bit buf) with
        | Ret pl =>
            match ceph_pagelist_addpage pl with
            | (Ret _, pl) => append_loop fuel pl (drop bit buf)
            | (Err e, pl) => (Err e, pl)
            | (Fault f, pl) => (Fault f, pl)
            end
        | Err e => (Err e, pl)
        | Fault f => (Fault f, pl)
        end
      else
        match append_to_tail pl buf with
        | Ret pl => (Ret tt, pl)
        | Err e => (Err e, pl)
        | Fault f => (Fault f, pl)
        end
  end.

(** After the first, an iteration copies a page: the loop runs at most
    [length buf] times and its condition is tested once more. *)
Definition ceph_pagelist_append (pl : ceph_pagelist) (buf : list Z) : outcome unit * ceph_pagelist :=
  append_loop (S (length buf)) pl buf.

(** [while (space > pl->num_pages_free)], [n] iterations left *)
Fixpoint reserve_loop (n : nat) (pl : ceph_pagelist) : outcome unit * ceph_pagelist :=
  match n with
  | O => (Ret tt, pl)
  | S n =>
      match page_cache_alloc (pl_allocs pl) with
      | None =>
          (Err ENOMEM, PageList (pl_addr pl) (pl_head pl) (pl_mapped_tail pl) (pl_length pl) (pl_room pl)
             (pl_free_list pl) (pl_num_pages_free pl) (pl_refcnt pl) (S (pl_allocs pl)))
      | Some bytes =>
          reserve_loop n
            (PageList (pl_addr pl) (pl_head pl) (pl_mapped_tail pl) (pl_length pl) (pl_room pl)
               (pl_free_list pl ++ [Page (pl_allocs pl) bytes]) (pl_num_pages_free pl + 1)
               (pl_refcnt pl) (S (pl_allocs pl)))
      end
  end.

Definition ceph_pagelist_reserve (pl : ceph_pagelist) (space : Z) : outcome unit * ceph_pagelist :=
  if space <=? pl_room pl then (Ret tt, pl)
  else
    let space := space - pl_room pl in
    let space := Z.shiftr (u64 (space + PAGE_SIZE - 1)) PAGE_SHIFT in
    reserve_loop (Z.to_nat (space - pl_num_pages_free pl)) pl.

Definition ceph_pagelist_set_cursor (pl : ceph_pagelist) : ceph_pagelist_cursor :=
  Cursor (pl_addr pl) (page_addr <$> last (pl_head pl)) (pl_room pl).

(** [while (pl->head.prev != c->page_lru)], on the reversed list: the pages left
    and the pages moved, in order.  At the list head the loop would take the
    head for a page. *)
Fixpoint truncate_loop (rev_head : list page) (lru : option nat) : outcome (list page * list page) :=
  if decide (page_addr <$> head rev_head = lru) then Ret (rev_head, [])
  else
    match rev_head with
    | [] => Fault OutOfBounds
    | p :: l => '(kept, moved) ← truncate_loop l lru; Ret (kept, p :: moved)
    end.

Definition ceph_pagelist_truncate (pl : ceph_pagelist) (c : ceph_pagelist_cursor)
  : outcome ceph_pagelist :=
  if negb (pl_addr pl =? c_pl c) then Err EINVAL
  else
    let pl := ceph_pagelist_unmap_tail pl in
    '(kept, moved) ← truncate_loop (reverse (pl_head pl)) (c_page_lru c);
    Ret (PageList (pl_addr pl) (reverse kept) (match kept with [] => false | _ => true end)
           (pl_length pl) (c_room c) (pl_free_list pl ++ moved)
           (pl_num_pages_free pl + Z.of_nat (length moved)) (pl_refcnt pl) (pl_allocs pl)).

Definition ceph_pagelist_encode_64 (pl : ceph_pagelist) (v : Z) := ceph_pagelist_append pl (le_bytes 8 (u64 v)).
Definition ceph_pagelist_encode_32 (pl : ceph_pagelist) (v : Z) := ceph_pagelist_append pl (le_bytes 4 (u32 v)).
Definition ceph_pagelist_encode_16 (pl : ceph_pagelist) (v : Z) := ceph_pagelist_append pl (le_bytes 2 (u16 v)).
Definition ceph_pagelist_encode_8 (pl : ceph_pagelist) (v : Z) := ceph_pagelist_append pl (le_bytes 1 (u8 v)).
Definition ceph_pagelist_encode_string (pl : ceph_pagelist) (s : list Z) : outcome unit * ceph_pagelist :=
  match ceph_pagelist_encode_32 pl (Z.of_nat (length s)) with
  | (Ret _, pl) => match s with [] => (Ret tt, pl) | _ => ceph_pagelist_append pl s end
  | r => r
  end.

(** ** The byte string of a page list *)
Hypothesis Hshift : 0 <= PAGE_SHIFT < 64.
Hypothesis Halloc : forall n bytes, page_cache_alloc n = Some bytes -> Z.of_nat (length bytes) = PAGE_SIZE.

Definition whole (p : page) : Prop := Z.of_nat (length (page_bytes p)) = PAGE_SIZE.
Definition contents (l : list page) : list Z := concat (page_bytes <$> l).

(** [data] is what has been appended; the rest of the last page is the room. *)
Record pagelist_ok (pl : ceph_pagelist) (data : list Z) : Prop := {
  po_data : exists spare, contents (pl_head pl) = data ++ spare /\ Z.of_nat (length spare) = pl_room pl;
  po_length : pl_length pl = Z.of_nat (length data);
  po_room : pl_room pl <= PAGE_SIZE;
  po_head : Forall whole (pl_head pl);
  po_mapped : pl_mapped_tail pl = negb (bool_decide (pl_head pl = []));
  po_free : Forall whole (pl_free_list pl);
  po_num : pl_num_pages_free pl = Z.of_nat (length (pl_free_list pl)) }.

Lemma page_size_pos : 0 < PAGE_SIZE.
Proof. apply Z.pow_pos_nonneg; lia. Qed.

Lemma contents_app l k : contents (l ++ k) = contents l ++ contents k.
Proof. unfold contents. by rewrite fmap_app, concat_app. Qed.

Lemma contents_length l : Forall whole l -> Z.of_nat (length (contents l)) = PAGE_SIZE * Z.of_nat (length l).
Proof.
  unfold contents. induction 1 as [|p l Hp _ IH]; cbn; [lia|]. rewrite length_app. unfold whole in Hp. lia.
Qed.

Lemma pagelist_init_ok addr allocs : pagelist_ok (ceph_pagelist_init addr allocs) [].
Proof. pose proof page_size_pos. split; cbn; try done; try lia. by exists []. Qed.

Lemma write_bytes_at pre old post new p :
  p = Z.of_nat (length pre) -> length old = length new ->
  write_bytes (pre ++ old ++ post) p new = Ret (pre ++ new ++ post).
Proof.
  revert pre old p. induction new as [|b new IH]; intros pre old p Hp Hl; destruct old as [|o old]; try done.
  cbn [write_bytes app]. rewrite wr_at by done. cbn [obind].
  replace (pre ++ b :: old ++ post) with ((pre ++ [b]) ++ old ++ post) by (by rewrite <- app_assoc).
  rewrite IH by (rewrite ?length_app; cbn in *; lia). by rewrite <- app_assoc.
Qed.

(** Where the data ends in the last page. *)
Lemma tail_split ps p (data spare : list Z) :
  Forall whole (ps ++ [p]) -> contents (ps ++ [p]) = data ++ spare ->
  0 < Z.of_nat (length spare) <= PAGE_SIZE ->
  exists pre, data = contents ps ++ pre /\ page_bytes p = pre ++ spare /\
    Z.land (Z.of_nat (length data)) (PAGE_SIZE - 1) = Z.of_nat (length pre).
Proof.
  intros [Hps [Hp _]%Forall_cons]%Forall_app Hc Hs.
  pose proof (contents_length _ Hps) as Hcps. unfold whole in Hp.
  rewrite contents_app in Hc. unfold contents at 2 in Hc. cbn [fmap list_fmap concat] in Hc. rewrite app_nil_r in Hc.
  apply (f_equal length) in Hc as Hcl. rewrite !length_app in Hcl.
  exists (drop (length (contents ps)) data).
  apply (f_equal (drop (length (contents ps)))) in Hc as Hd. rewrite drop_app_length, drop_app_le in Hd by lia.
  apply (f_equal (take (length (contents ps)))) in Hc as Ht. rewrite take_app_length, take_app_le in Ht by lia.
  split_and!; [|done|].
  - rewrite Ht at 1. by rewrite take_drop.
  - unfold PAGE_SIZE. rewrite Z.sub_1_r, <- Z.ones_equiv, Z.land_ones by lia. fold PAGE_SIZE.
    symmetry. rewrite length_drop. apply (Z.mod_unique_pos _ _ (Z.of_nat (length ps))); lia.
Qed.

Lemma append_to_tail_ok pl data buf :
  pagelist_ok pl data -> Z.of_nat (length buf) <= pl_room pl ->
  exists pl', append_to_tail pl buf = Ret pl' /\ pagelist_ok pl' (data ++ buf) /\
    pl_room pl' = pl_room pl - Z.of_nat (length buf) /\
    pl_free_list pl' = pl_free_list pl /\ pl_num_pages_free pl' = pl_num_pages_free pl /\
    pl_allocs pl' = pl_allocs pl.
Proof.
  intros [(spare & Hc & Hs) Hlen Hroom Hhead Hmap Hfree Hnum] Hb. unfold append_to_tail.
  destruct (decide (buf = [])) as [->|Hne].
  { cbn [copy_to_tail obind]. eexists. split; [done|]. split; [|cbn; split_and!; (done || lia)].
    rewrite app_nil_r. split; cbn; try done; try lia. exists spare. split; [done|lia]. }
  assert (Hb0 : 0 < Z.of_nat (length buf)) by (destruct buf; [done|cbn; lia]).
  destruct (decide (pl_head pl = [])) as [Eh|Eh].
  { rewrite Eh in Hc. symmetry in Hc. apply app_nil in Hc as [_ ->]. cbn in Hs. lia. }
  rewrite bool_decide_false in Hmap by done. destruct (exists_last Eh) as (ps & p & Ep). rewrite Ep in *.
  destruct (tail_split ps p data spare Hhead Hc) as (pre & -> & Hpb & Hoff); [lia|].
  set (post := drop (length buf) spare).
  assert (Hspare : spare = take (length buf) spare ++ post) by (unfold post; by rewrite take_drop).
  assert (Hpost : (length buf + length post = length spare)%nat) by (unfold post; rewrite length_drop; lia).
  clearbody post.
  unfold copy_to_tail. rewrite Hmap. cbn [negb]. rewrite Ep, last_snoc, Hlen, Hoff, Hpb, Hspare.
  rewrite (write_bytes_at pre _ post buf) by (rewrite ?length_take; lia).
  destruct buf as [|b0 buf0] eqn:Eb; [done|]. rewrite <- Eb in *. cbn [obind].
  eexists. split; [done|]. split; [|cbn; split_and!; (done || lia)].
  rewrite length_app, Nat.add_sub, take_app_length.
  apply Forall_app in Hhead as [Hps [Hp _]%Forall_cons]. unfold whole in Hp. rewrite Hpb, length_app in Hp.
  split; cbn [pl_head pl_length pl_room pl_free_list pl_num_pages_free pl_mapped_tail]; try done.
  - exists post. rewrite contents_app. unfold contents at 2. cbn. rewrite app_nil_r, <- !app_assoc. split; [done|lia].
  - rewrite !length_app in *. lia.
  - lia.
  - apply Forall_app. split; [done|]. apply Forall_singleton. unfold whole. cbn. rewrite !length_app. lia.
  - rewrite bool_decide_false; [done|]. by destruct ps.
Qed.

Lemma addpage_ok pl data :
  pagelist_ok pl data -> pl_room pl = 0 ->
  let '(r, pl') := ceph_pagelist_addpage pl in
  pagelist_ok pl' data /\
  (r = Ret tt /\ pl_room pl' = PAGE_SIZE \/ r = Err ENOMEM /\ pl_num_pages_free pl = 0) /\
  (0 < pl_num_pages_free pl ->
     r = Ret tt /\ pl_num_pages_free pl' = pl_num_pages_free pl - 1 /\ pl_allocs pl' = pl_allocs pl).
Proof.
  intros [(spare & Hc & Hs) Hlen Hroom Hhead Hmap Hfree Hnum] Hr. pose proof page_size_pos as HP.
  assert (Hlink : forall p free nfree allocs, whole p -> Forall whole free -> nfree = Z.of_nat (length free) ->
    pagelist_ok (PageList (pl_addr pl) (pl_head pl ++ [p]) true (pl_length pl)
      (pl_room pl + PAGE_SIZE) free nfree (pl_refcnt pl) allocs) data).
  { intros p free nfree allocs Hp Hf Hn. split; cbn [pl_head pl_length pl_room pl_free_list
      pl_num_pages_free pl_mapped_tail]; try done; try lia.
    - exists (spare ++ page_bytes p). rewrite contents_app, Hc. unfold contents. cbn.
      rewrite app_nil_r, length_app, <- app_assoc. unfold whole in Hp. split; [done|lia].
    - apply Forall_app. split; [done|]. constructor; [done|constructor].
    - rewrite bool_decide_false; [done|]. by destruct (pl_head pl). }
  unfold ceph_pagelist_addpage. destruct (Z.eqb_spec (pl_num_pages_free pl) 0) as [E|E].
  - destruct (page_cache_alloc (pl_allocs pl)) as [bytes|] eqn:Ea; cbn [fmap option_fmap option_map link_page].
    + split; [apply Hlink; [by eapply Halloc|done|lia]|]. cbn. split; [left; split; [done|lia]|lia].
    + split; [|split; [by right|lia]]. split; cbn; try done; try lia. by exists spare.
  - destruct (pl_free_list pl) as [|p free]; [cbn in Hnum; lia|].
    apply Forall_cons in Hfree as [Hp Hf]. cbn [length] in Hnum. cbn [link_page].
    split; [apply Hlink; (done || lia)|]. cbn. split; [left; split; [done|lia]|]. intros _. split_and!; (done || lia).
Qed.

(** The loop of append: it appends all of [buf] or, without memory, a part; it
    does not allocate while the reserve suffices. *)
Lemma append_loop_ok fuel : forall pl data buf,
  pagelist_ok pl data -> (0 < fuel)%nat ->
  Z.of_nat (length buf) < Z.of_nat fuel + (if pl_room pl =? 0 then 0 else 1) ->
  let '(r, pl') := append_loop fuel pl buf in
  (r = Ret tt /\ pagelist_ok pl' (data ++ buf) \/
   r = Err ENOMEM /\ exists k, pagelist_ok pl' (data ++ take k buf)) /\
  (Z.of_nat (length buf) <= pl_room pl + PAGE_SIZE * pl_num_pages_free pl ->
     r = Ret tt /\ pl_allocs pl' = pl_allocs pl).
Proof.
  pose proof page_size_pos as HP.
  induction fuel as [|fuel IH]; intros pl data buf Hok Hf Hfuel; [lia|]. cbn [append_loop].
  assert (Hr0 : 0 <= pl_room pl) by (destruct (po_data _ _ Hok) as (spare & _ & <-); lia).
  destruct (Z.ltb_spec (pl_room pl) (Z.of_nat (length buf))) as [Hlt|Hge].
  2:{ destruct (append_to_tail_ok pl data buf Hok Hge) as (pl' & -> & Hok' & _ & _ & _ & Ha).
      split; [by left|done]. }
  set (bit := Z.to_nat (pl_room pl)).
  destruct (append_to_tail_ok pl data (take bit buf) Hok) as (pl1 & -> & Hok1 & Hr1 & _ & Hn1 & Ha1);
    [rewrite length_take; lia|].
  rewrite length_take in Hr1.
  pose proof (addpage_ok pl1 _ Hok1 ltac:(lia)) as Hadd.
  destruct (ceph_pagelist_addpage pl1) as [r pl2]. destruct Hadd as (Hok2 & Hcase & Hres).
  destruct Hcase as [[-> Hr2]|[-> Hn0]].
  - specialize (IH pl2 (data ++ take bit buf) (drop bit buf) Hok2).
    rewrite length_drop, Hr2, (proj2 (Z.eqb_neq PAGE_SIZE 0)) in IH by lia.
    destruct (Z.eqb_spec (pl_room pl) 0); destruct (append_loop fuel pl2 (drop bit buf)) as [r' pl3];
      (destruct IH as [IH1 IH2]; [lia|lia|]; split;
       [destruct IH1 as [[-> H3]|[-> (k & H3)]];
        [left; by rewrite <- app_assoc, take_drop in H3|
         right; split; [done|exists (bit + k)%nat; rewrite <- take_take_drop, app_assoc; exact H3]]
       |intros Hle; assert (0 < pl_num_pages_free pl) by nia;
        destruct Hres as (_ & Hn2 & Ha2); [lia|]; destruct IH2 as [-> ->]; [nia|]; split; [done|congruence]]).
  - split; [right; split; [done|by exists bit]|]. intros Hle. nia.
Qed.

Lemma reserve_loop_ok n : forall pl data,
  pagelist_ok pl data ->
  let '(r, pl') := reserve_loop n pl in
  pagelist_ok pl' data /\
  (r = Ret tt /\ pl_num_pages_free pl' = pl_num_pages_free pl + Z.of_nat n /\ pl_room pl' = pl_room pl \/
   r = Err ENOMEM).
Proof.
  induction n as [|n IH]; intros pl data Hok; cbn [reserve_loop].
  { split; [done|left; split_and!; (done || lia)]. }
  destruct Hok as [Hd Hlen Hroom Hhead Hmap Hfree Hnum].
  destruct (page_cache_alloc (pl_allocs pl)) as [bytes|] eqn:Ea; [|split; [by split|by right]].
  match goal with |- context [reserve_loop n ?q] => specialize (IH q data); destruct (reserve_loop n q) as [r pl'] end.
  destruct IH as (Hok' & Hr).
  - split; cbn; try done.
    + apply Forall_app. split; [done|]. constructor; [|constructor]. by eapply Halloc.
    + rewrite length_app. cbn. lia.
  - split; [done|]. destruct Hr as [(-> & Hn & Hrm)| -> ]; [left|by right]. cbn in Hn, Hrm.
    split_and!; (done || lia).
Qed.

Lemma reserve_ok pl data space :
  pagelist_ok pl data -> 0 <= space < 2 ^ 63 -> PAGE_SHIFT < 63 ->
  let '(r, pl') := ceph_pagelist_reserve pl space in
  pagelist_ok pl' data /\
  (r = Ret tt /\ space <= pl_room pl' + PAGE_SIZE * pl_num_pages_free pl' \/ r = Err ENOMEM).
Proof.
  intros Hok Hsp H63. pose proof page_size_pos as HP.
  assert (PAGE_SIZE <= 2 ^ 62) by (apply Z.pow_le_mono_r; lia).
  assert (Hn0 : 0 <= pl_num_pages_free pl) by (rewrite (po_num _ _ Hok); lia).
  assert (Hr0 : 0 <= pl_room pl) by (destruct (po_data _ _ Hok) as (spare & _ & <-); lia).
  unfold ceph_pagelist_reserve. destruct (Z.leb_spec space (pl_room pl)).
  { split; [done|left]. split; [done|nia]. }
  rewrite u64_small by lia. rewrite Z.shiftr_div_pow2 by lia. fold PAGE_SIZE.
  set (need := (space - pl_room pl + PAGE_SIZE - 1) / PAGE_SIZE).
  assert (Hneed : space - pl_room pl <= PAGE_SIZE * need).
  { unfold need. pose proof (Z.div_mod (space - pl_room pl + PAGE_SIZE - 1) PAGE_SIZE ltac:(lia)).
    pose proof (Z.mod_pos_bound (space - pl_room pl + PAGE_SIZE - 1) PAGE_SIZE HP). lia. }
  pose proof (reserve_loop_ok (Z.to_nat (need - pl_num_pages_free pl)) pl data Hok) as Hl.
  destruct (reserve_loop _ pl) as [r pl']. destruct Hl as (Hok' & Hr). split; [done|].
  destruct Hr as [(-> & Hn & Hrm)| -> ]; [left; split; [done|]|by right]. rewrite Hrm. nia.
Qed.

Lemma append_ok pl data buf :
  pagelist_ok pl data ->
  let '(r, pl') := ceph_pagelist_append pl buf in
  (r = Ret tt /\ pagelist_ok pl' (data ++ buf) \/
   r = Err ENOMEM /\ exists k, pagelist_ok pl' (data ++ take k buf)) /\
  (Z.of_nat (length buf) <= pl_room pl + PAGE_SIZE * pl_num_pages_free pl ->
     r = Ret tt /\ pl_allocs pl' = pl_allocs pl).
Proof. intros Hok. apply append_loop_ok; [done|lia|]. case_match; lia. Qed.

(** ** Properties *)

(** C33: ceph_pagelist_append refines appending to a byte string: it returns, never
    writes outside a page, and either all of the buffer has been appended or
    the allocation failed and a prefix of it has; the list is well-formed in
    both cases, so that the caller can go on or release it. *)
Theorem ceph_pagelist_append_appends pl data buf :
  pagelist_ok pl data ->
  let '(r, pl') := ceph_pagelist_append pl buf in
  r = Ret tt /\ pagelist_ok pl' (data ++ buf) \/
  r = Err ENOMEM /\ exists k, pagelist_ok pl' (data ++ take k buf).
Proof.
  intros Hok. pose proof (append_ok pl data buf Hok) as H. destruct (ceph_pagelist_append pl buf). apply H.
Qed.

(** ceph_pagelist_reserve: after a successful reservation of [space] bytes,
    appending up to [space] bytes succeeds and does not allocate. *)
Theorem ceph_pagelist_reserve_suffices pl data space buf pl1 :
  pagelist_ok pl data -> 0 <= space < 2 ^ 63 -> PAGE_SHIFT < 63 -> Z.of_nat (length buf) <= space ->
  ceph_pagelist_reserve pl space = (Ret tt, pl1) ->
  pagelist_ok pl1 data /\
  exists pl2, ceph_pagelist_append pl1 buf = (Ret tt, pl2) /\ pagelist_ok pl2 (data ++ buf) /\
    pl_allocs pl2 = pl_allocs pl1.
Proof.
  intros Hok Hsp H63 Hb Hres. pose proof (reserve_ok pl data space Hok Hsp H63) as Hr. rewrite Hres in Hr.
  destruct Hr as (Hok1 & [[_ Hle]|?]); [|done]. split; [done|].
  pose proof (append_ok pl1 data buf Hok1) as Ha. destruct (ceph_pagelist_append pl1 buf) as [r pl2].
  destruct Ha as [Hd Hfit]. destruct (Hfit ltac:(lia)) as [-> Hal]. exists pl2. split; [done|].
  destruct Hd as [[_ Hok2]|[? _]]; [by split|done].
Qed.

End PageList.

(** Pages of 8 bytes. *)
Definition small_pages (n : nat) : option (list Z) := if (n <? 4)%nat then Some (repeat 0 8) else None.

Lemma small_pages_whole n bytes : small_pages n = Some bytes -> Z.of_nat (length bytes) = 2 ^ 3.
Proof. unfold small_pages. case_match; [|done]. intros E. by injection E as <-. Qed.

Lemma ceph_pagelist_append_appends_witness :
  let '(r, pl) := ceph_pagelist_append 3 small_pages (ceph_pagelist_init 1 0) (seqZ 0 20) in
  r = Ret tt /\ pagelist_ok 3 pl (seqZ 0 20).
Proof.
  pose proof (ceph_pagelist_append_appends 3 small_pages ltac:(lia) small_pages_whole
    (ceph_pagelist_init 1 0) [] (seqZ 0 20) (pagelist_init_ok 3 ltac:(lia) 1 0)) as H.
  destruct (ceph_pagelist_append 3 small_pages (ceph_pagelist_init 1 0) (seqZ 0 20)) as [r pl] eqn:E.
  vm_compute in E. injection E as <- <-. destruct H as [H|[H _]]; [exact H|discriminate H].
Defined.

Lemma ceph_pagelist_reserve_suffices_witness :
  exists pl1 pl2, ceph_pagelist_reserve 3 small_pages (ceph_pagelist_init 1 0) 20 = (Ret tt, pl1) /\
    ceph_pagelist_append 3 small_pages pl1 (seqZ 0 17) = (Ret tt, pl2) /\ pl_allocs pl2 = pl_allocs pl1.
Proof.
  destruct (ceph_pagelist_reserve 3 small_pages (ceph_pagelist_init 1 0) 20) as [r pl1] eqn:E.
  assert (r = Ret tt) as -> by (vm_compute in E; congruence).
  destruct (ceph_pagelist_reserve_suffices 3 small_pages ltac:(lia) small_pages_whole
    (ceph_pagelist_init 1 0) [] 20 (seqZ 0 17) pl1) as (_ & pl2 & Ha & _ & Hal).
  - apply pagelist_init_ok. lia.
  - lia.
  - lia.
  - vm_compute. discriminate.
  - exact E.
  - exists pl1, pl2. split; [reflexivity|]. split; [exact Ha|exact Hal].
Defined.

(** ceph_pagelist_truncate resets the room of the last page to what it was at
    the cursor but not the length, which gives the offset of the next write:
    with a cursor at byte 2 of a page of 8, an append of 3 bytes, a truncation
    to the cursor and an append of the 6 bytes for which there is room, the
    copy runs past the end of the page. *)
Theorem ceph_pagelist_truncate_keeps_length :
  let pl1 := (ceph_pagelist_append 3 small_pages (ceph_pagelist_init 1 0) [1; 2]).2 in
  let pl2 := (ceph_pagelist_append 3 small_pages pl1 [3; 4; 5]).2 in
  exists pl3, ceph_pagelist_truncate pl2 (ceph_pagelist_set_cursor pl1) = Ret pl3 /\
    pl_length pl3 = 5 /\ pl_room pl3 = 6 /\
    (ceph_pagelist_append 3 small_pages pl3 (repeat 7 6)).1 = Fault OutOfBounds.
Proof. eexists. split; [vm_compute; reflexivity|]. vm_compute. split_and!; reflexivity. Qed.
