(* ===== verification/PageVec.v ===== *)
(** * Page vectors

    Models net/ceph/pagevec.c: vectors of pages, and copies between them and
    kernel or user memory.  A vector is the list of its pages' bytes.  The page
    size is the machine's ([PAGE_SHIFT]); the user copies, the allocator and
    get_user_pages are parameters: [copy_user n l] is the number of the [l]
    bytes that the n-th copy does not copy. *)
From S2P Require Import Prelude.
From S2P Require Import Wire.

(** ** Allocation and release *)

(** [for (i = 0; i < num_pages; i++)] over [pages[i]]: the pages, in order *)
Fixpoint take_pages (n : nat) (pages : list (list Z)) (i : Z) : outcome (list (list Z)) :=
  match n with
  | O => Ret []
  | S n => pg ← rd pages i; l ← take_pages n pages (i + 1); Ret (pg :: l)
  end.

(** The pages put, each with whether it is marked dirty. *)
Definition ceph_put_page_vector (pages : list (list Z)) (num_pages : Z) (dirty : bool)
  : outcome (list (list Z * bool)) :=
  l ← take_pages (Z.to_nat num_pages) pages 0; Ret ((fun pg => (pg, dirty)) <$> l).

(** The pages freed. *)
Definition ceph_release_page_vector (pages : list (list Z)) (num_pages : Z) : outcome (list (list Z)) :=
  take_pages (Z.to_nat num_pages) pages 0.

Section Vectors.
Context (kmalloc_ok : bool) (page_alloc : nat -> option (list Z)).

(** [for (i = 0; i < num_pages; i++)], [n] iterations left: the pages, or the
    pages that were allocated and are released when an allocation fails *)
Fixpoint alloc_pages_loop (n : nat) (pages : list (list Z)) : outcome (list (list Z) + list (list Z)) :=
  match n with
  | O => Ret (inl pages)
  | S n =>
      match page_alloc (length pages) with
      | None => l ← ceph_release_page_vector pages (Z.of_nat (length pages)); Ret (inr l)
      | Some p => alloc_pages_loop n (pages ++ [p])
      end
  end.

(** The vector, or the pages released before -ENOMEM is returned. *)
Definition ceph_alloc_page_vector (num_pages : Z) : outcome (list (list Z) + list (list Z)) :=
  if kmalloc_ok then alloc_pages_loop (Z.to_nat num_pages) [] else Ret (inr []).

(** [get_user_pages addr n]: a negative errno or the pages pinned, at most [n]. *)
Context (get_user_pages : Z -> Z -> Z + list (list Z)).

(** [while (got < num_pages)]: the pages pinned and [rc]; each iteration pins a
    page, [n] is [num_pages - got] *)
Fixpoint get_pages_loop (fuel : nat) (data num_pages PAGE_SIZE : Z) (pages : list (list Z))
  : outcome (list (list Z) * Z) :=
  match fuel with
  | O => Fault OutOfFuel
  | S fuel =>
      let got := Z.of_nat (length pages) in
      if got <? num_pages then
        match get_user_pages (data + got * PAGE_SIZE) (num_pages - got) with
        | inl rc => Ret (pages, rc)
        | inr l =>
            _ ← bug_on (Z.of_nat (length l) =? 0);
            get_pages_loop fuel data num_pages PAGE_SIZE (pages ++ l)
        end
      else Ret (pages, 0)
  end.

(** The vector, or the pages put and the code returned on a failure. *)
Definition ceph_get_direct_page_vector (data num_pages PAGE_SIZE : Z)
  : outcome (list (list Z) + list (list Z * bool) * Z) :=
  if kmalloc_ok then
    '(pages, rc) ← get_pages_loop (S (Z.to_nat num_pages)) data num_pages PAGE_SIZE [];
    if rc <? 0 then
      put ← ceph_put_page_vector pages (Z.of_nat (length pages)) false;
      Ret (inr (put, rc))
    else Ret (inl pages)
  else Ret (inr ([], - ENOMEM)).

(** Nothing leaks: a vector is returned whole, or all its pages are released. *)
Lemma take_pages_all pages : forall pre,
  take_pages (length pages) (pre ++ pages) (Z.of_nat (length pre)) = Ret pages.
Proof.
  induction pages as [|pg pages IH]; intros pre; cbn [length take_pages]; [done|].
  rewrite rd_at by done. cbn [obind].
  specialize (IH (pre ++ [pg])). rewrite <- app_assoc, length_app in IH. cbn [app length] in IH.
  replace (Z.of_nat (length pre) + 1) with (Z.of_nat (length pre + 1)) by lia. by rewrite IH.
Qed.

Lemma alloc_pages_loop_spec n : forall pages,
  (exists l, alloc_pages_loop n pages = Ret (inl (pages ++ l)) /\ length l = n) \/
  (exists l, alloc_pages_loop n pages = Ret (inr (pages ++ l)) /\
     page_alloc (length (pages ++ l)) = None /\ (length l < n)%nat).
Proof.
  induction n as [|n IH]; intros pages; cbn [alloc_pages_loop].
  { left. exists []. by rewrite app_nil_r. }
  destruct (page_alloc (length pages)) as [p|] eqn:E.
  - destruct (IH (pages ++ [p])) as [(l & Hl & Hn)|(l & Hl & Hn & Hlt)]; rewrite <- app_assoc in *; cbn [app] in *.
    + left. exists (p :: l). cbn. split; [done|lia].
    + right. exists (p :: l). cbn. split; [done|]. split; [done|lia].
  - right. exists []. rewrite app_nil_r. unfold ceph_release_page_vector. rewrite Nat2Z.id.
    pose proof (take_pages_all pages []) as Ht. cbn [app length] in Ht. change (Z.of_nat 0) with 0 in Ht.
    rewrite Ht. split; [done|]. split; [done|cbn; lia].
Qed.

End Vectors.

(** ** Copies *)
Section Copies.
Context (PAGE_SHIFT : Z).
Let PAGE_SIZE := 2 ^ PAGE_SHIFT.

(** [off & ~PAGE_CACHE_MASK] *)
Definition page_offset (off : Z) : Z := Z.land off (PAGE_SIZE - 1).

(** [while (left > 0)]: [data] is what is left; every iteration copies a byte. *)
Fixpoint copy_to_loop (fuel : nat) (pages : list (list Z)) (data : list Z) (i po : Z)
  : outcome (list (list Z)) :=
  match fuel with
  | O => Fault OutOfFuel
  | S fuel =>
      let left := Z.of_nat (length data) in
      if 0 <? left then
        let l := Z.min (u64 (PAGE_SIZE - po)) left in
        pg ← rd pages i;
        pg ← write_bytes pg po (take (Z.to_nat l) data);
        pages ← wr pages i pg;
        let po := po + l in
        if po =? PAGE_SIZE then copy_to_loop fuel pages (drop (Z.to_nat l) data) (i + 1) 0
        else copy_to_loop fuel pages (drop (Z.to_nat l) data) i po
      else Ret pages
  end.

Definition ceph_copy_to_page_vector (pages : list (list Z)) (data : list Z) (off : Z)
  : outcome (list (list Z)) :=
  copy_to_loop (S (length data)) pages data 0 (page_offset off).

(** [data] is what has been stored. *)
Fixpoint copy_from_loop (fuel : nat) (pages : list (list Z)) (data : list Z) (i po left : Z)
  : outcome (list Z) :=
  match fuel with
  | O => Fault OutOfFuel
  | S fuel =>
      if 0 <? left then
        let l := Z.min (u64 (PAGE_SIZE - po)) left in
        pg ← rd pages i;
        chunk ← read_bytes pg (Z.to_nat l) po;
        let po := po + l in
        if po =? PAGE_SIZE then copy_from_loop fuel pages (data ++ chunk) (i + 1) 0 (left - l)
        else copy_from_loop fuel pages (data ++ chunk) i po (left - l)
      else Ret data
  end.

Definition ceph_copy_from_page_vector (pages : list (list Z)) (off len : Z) : outcome (list Z) :=
  copy_from_loop (S (Z.to_nat len)) pages [] 0 (page_offset off) len.

(** *** User memory *)
Context (copy_user : nat -> Z -> Z).

(** copy_from_user fills what it does not copy with zeros. *)
Fixpoint user_to_loop (fuel n : nat) (pages : list (list Z)) (data : list Z) (i po left : Z)
  : outcome (list (list Z)) :=
  match fuel with
  | O => Fault OutOfFuel
  | S fuel =>
      if 0 <? left then
        let l := Z.min (PAGE_SIZE - po) left in
        let bad := copy_user n l in
        let got := Z.to_nat (l - bad) in
        pg ← rd pages i;
        pg ← write_bytes pg po (take got data ++ repeat 0 (Z.to_nat bad));
        pages ← wr pages i pg;
        if bad =? l then Err EFAULT
        else
          let po := po + (l - bad) in
          if po =? PAGE_SIZE then user_to_loop fuel (S n) pages (drop got data) (i + 1) 0 (left - (l - bad))
          else user_to_loop fuel (S n) pages (drop got data) i po (left - (l - bad))
      else Ret pages
  end.

(** [left] is an int. *)
Definition ceph_copy_user_to_page_vector (pages : list (list Z)) (data : list Z) (off : Z)
  : outcome (list (list Z)) :=
  user_to_loop (S (length data)) 0 pages data 0 (page_offset off) (s32 (Z.of_nat (length data))).

Fixpoint to_user_loop (fuel n : nat) (pages : list (list Z)) (data : list Z) (i po left : Z)
  : outcome (list Z) :=
  match fuel with
  | O => Fault OutOfFuel
  | S fuel =>
      if 0 <? left then
        let l := Z.min left (PAGE_SIZE - po) in
        let bad := copy_user n l in
        pg ← rd pages i;
        chunk ← read_bytes pg (Z.to_nat (l - bad)) po;
        if bad =? l then Err EFAULT
        else
          let po :=
            if negb (po =? 0) then
              if po + (l - bad) =? PAGE_SIZE then 0 else po + (l - bad)
            else po in
          to_user_loop fuel (S n) pages (data ++ chunk) (i + 1) po (left - (l - bad))
      else Ret data
  end.

Definition ceph_copy_page_vector_to_user (pages : list (list Z)) (off len : Z) : outcome (list Z) :=
  to_user_loop (S (Z.to_nat len)) 0 pages [] 0 (page_offset off) (s32 len).

(** ** Zeroing *)

(** [zero_user_segment(pages[i], start, end)] *)
Definition zero_segment (pages : list (list Z)) (i start end_ : Z) : outcome (list (list Z)) :=
  pg ← rd pages i;
  pg ← write_bytes pg start (repeat 0 (Z.to_nat (end_ - start)));
  wr pages i pg.

(** [while (len >= PAGE_CACHE_SIZE)], [n] iterations left, then the tail *)
Fixpoint zero_loop (n : nat) (pages : list (list Z)) (i len : Z) : outcome (list (list Z)) :=
  match n with
  | O => if negb (len =? 0) then zero_segment pages i 0 len else Ret pages
  | S n =>
      pages ← zero_segment pages i 0 PAGE_SIZE;
      zero_loop n pages (i + 1) (len - PAGE_SIZE)
  end.

Definition ceph_zero_page_vector_range (off len : Z) (pages : list (list Z)) : outcome (list (list Z)) :=
  let i := Z.shiftr off PAGE_SHIFT in
  let off := page_offset off in
  '(pages, i, len) ←
    (if negb (off =? 0) then
       let end_ := Z.min PAGE_SIZE (off + len) in
       pages ← zero_segment pages i off end_;
       Ret (pages, i + 1, len - (end_ - off))
     else Ret (pages, i, len));
  zero_loop (Z.to_nat (len / PAGE_SIZE)) pages i len.

(** ** The bytes of a vector *)
Hypothesis Hshift : 0 <= PAGE_SHIFT < 31.

Definition byte_at (pages : list (list Z)) (k : Z) : outcome Z :=
  pg ← rd pages (k / PAGE_SIZE); rd pg (k mod PAGE_SIZE).

Definition whole_pages (pages : list (list Z)) : Prop :=
  Forall (fun pg => Z.of_nat (length pg) = PAGE_SIZE) pages.

Definition vector_size (pages : list (list Z)) : Z := PAGE_SIZE * Z.of_nat (length pages).

Lemma page_size_range : 0 < PAGE_SIZE < 2 ^ 31.
Proof.
  split; [apply Z.pow_pos_nonneg; lia|]. unfold PAGE_SIZE. apply Z.pow_lt_mono_r; lia.
Qed.

Lemma page_offset_range off : 0 <= page_offset off < PAGE_SIZE.
Proof.
  unfold page_offset, PAGE_SIZE. rewrite Z.sub_1_r, <- Z.ones_equiv, Z.land_ones by lia.
  apply Z.mod_pos_bound, page_size_range.
Qed.

Lemma byte_at_page pages i j :
  0 <= j < PAGE_SIZE -> byte_at pages (i * PAGE_SIZE + j) = (pg ← rd pages i; rd pg j).
Proof.
  intros Hj. unfold byte_at. rewrite Z.div_add_l, Z.div_small, Z.add_0_r by lia.
  rewrite (Z.add_comm (i * PAGE_SIZE)), Z.mod_add, Z.mod_small by lia. done.
Qed.

Lemma page_total pages i :
  whole_pages pages -> 0 <= i < Z.of_nat (length pages) ->
  exists pg, rd pages i = Ret pg /\ Z.of_nat (length pg) = PAGE_SIZE.
Proof.
  intros Hw Hi. destruct (rd_total pages i Hi) as [pg Hpg]. exists pg. split; [done|].
  apply rd_elem in Hpg. by eapply (proj1 (Forall_forall _ _) Hw).
Qed.

Lemma holds_at_rd buf p data i : holds_at buf p data -> 0 <= i < Z.of_nat (length data) -> rd buf (p + i) = rd data i.
Proof.
  intros [Hp Hs] Hi. destruct (rd_total data i Hi) as [v Hv]. rewrite Hv.
  apply rd_Ret in Hv as [_ Hv]. rewrite <- Hs in Hv. apply slice_lookup in Hv as [_ Hv]; [|done].
  by rewrite Z2Nat.id in Hv by lia.
Qed.

(** [pages'] is [pages] with [data] stored at byte [o]. *)
Definition stored (pages pages' : list (list Z)) (o : Z) (data : list Z) : Prop :=
  length pages' = length pages /\ whole_pages pages' /\
  forall k, 0 <= k -> byte_at pages' k =
    if (o <=? k) && (k <? o + Z.of_nat (length data)) then rd data (k - o) else byte_at pages k.

Lemma stored_nil pages o : whole_pages pages -> stored pages pages o [].
Proof.
  intros. split; [done|]. split; [done|]. intros k Hk.
  destruct (Z.leb_spec o k); cbn [andb]; [|done]. by rewrite (proj2 (Z.ltb_ge _ _)) by (cbn; lia).
Qed.

(** A second store that covers the end [z] of the first. *)
Lemma stored_over pages1 pages2 pages3 o d1 z d2 :
  0 <= o -> stored pages1 pages2 o (d1 ++ z) -> (length z <= length d2)%nat ->
  stored pages2 pages3 (o + Z.of_nat (length d1)) d2 -> stored pages1 pages3 o (d1 ++ d2).
Proof.
  intros Ho (Hl1 & Hw1 & H1) Hz (Hl2 & Hw2 & H2). split; [congruence|]. split; [done|].
  intros k Hk. rewrite H2, H1 by done. rewrite !length_app, !Nat2Z.inj_add.
  destruct (Z.leb_spec (o + Z.of_nat (length d1)) k); cbn [andb].
  - destruct (Z.leb_spec o k); [|lia]. cbn [andb].
    destruct (Z.ltb_spec k (o + Z.of_nat (length d1) + Z.of_nat (length d2))).
    + destruct (Z.ltb_spec k (o + (Z.of_nat (length d1) + Z.of_nat (length d2)))); [|lia].
      unfold rd. rewrite !(proj2 (Z.ltb_ge _ _)) by lia. rewrite lookup_app_r by lia.
      by replace (Z.to_nat (k - (o + Z.of_nat (length d1)))) with (Z.to_nat (k - o) - length d1)%nat by lia.
    + destruct (Z.ltb_spec k (o + (Z.of_nat (length d1) + Z.of_nat (length d2)))); [lia|].
      by rewrite (proj2 (Z.ltb_ge k (o + (Z.of_nat (length d1) + Z.of_nat (length z))))) by lia.
  - destruct (Z.leb_spec o k); cbn [andb]; [|done].
    rewrite !(proj2 (Z.ltb_lt k _)) by lia. by rewrite !rd_app_l by lia.
Qed.

Lemma stored_app pages1 pages2 pages3 o d1 d2 :
  0 <= o -> stored pages1 pages2 o d1 -> stored pages2 pages3 (o + Z.of_nat (length d1)) d2 ->
  stored pages1 pages3 o (d1 ++ d2).
Proof. intros Ho H1. apply (stored_over _ _ _ _ _ []); [done|by rewrite app_nil_r|cbn; lia]. Qed.

(** One store within page [i]. *)
Lemma store_page pages i po data :
  whole_pages pages -> 0 <= i < Z.of_nat (length pages) -> 0 <= po ->
  po + Z.of_nat (length data) <= PAGE_SIZE ->
  exists pages', (forall B (k : list (list Z) -> outcome B),
      (pg ← rd pages i; pg ← write_bytes pg po data; pages ← wr pages i pg; k pages) = k pages') /\
    stored pages pages' (i * PAGE_SIZE + po) data.
Proof.
  intros Hw Hi Hpo Hfit. pose proof page_size_range as HP.
  destruct (page_total pages i Hw Hi) as (pg & Hpg & Hlen). setoid_rewrite Hpg. cbn [obind].
  destruct (write_bytes_total pg po data Hpo) as [pg' Hpg']; [lia|]. setoid_rewrite Hpg'. cbn [obind].
  apply write_bytes_spec in Hpg' as (Hl' & Hat & Hfr). specialize (Hat Hpo).
  exists (<[Z.to_nat i := pg']> pages). split; [intros B k; by rewrite (wr_total pages i pg' Hi)|].
  assert (Hwr := wr_total pages i pg' Hi). split; [apply length_insert|]. split.
  { apply Forall_insert; [done|]. lia. }
  intros k Hk. pose proof (Z.div_mod k PAGE_SIZE ltac:(lia)) as Hdm.
  pose proof (Z.mod_pos_bound k PAGE_SIZE ltac:(lia)) as Hmod.
  destruct (decide (k / PAGE_SIZE = i)) as [E|E].
  - unfold byte_at. rewrite E, (rd_wr_eq _ _ _ _ Hwr), Hpg. cbn [obind].
    destruct (Z.leb_spec (i * PAGE_SIZE + po) k); cbn [andb].
    + destruct (Z.ltb_spec k (i * PAGE_SIZE + po + Z.of_nat (length data))).
      * rewrite <- (holds_at_rd _ _ _ (k - (i * PAGE_SIZE + po)) Hat) by lia. f_equal. lia.
      * apply Hfr. lia.
    + apply Hfr. lia.
  - unfold byte_at. rewrite (rd_wr_ne _ _ _ _ _ Hwr) by done.
    destruct (Z.leb_spec (i * PAGE_SIZE + po) k); cbn [andb]; [|done].
    destruct (Z.ltb_spec k (i * PAGE_SIZE + po + Z.of_nat (length data))); [|done].
    exfalso. apply E. symmetry. apply (Z.div_unique_pos _ _ _ (k - i * PAGE_SIZE)); lia.
Qed.

(** [out] is what stands at byte [o]. *)
Definition loaded (pages : list (list Z)) (o : Z) (out : list Z) : Prop :=
  forall j, 0 <= j < Z.of_nat (length out) -> rd out j = byte_at pages (o + j).

Lemma loaded_app pages o d1 d2 :
  loaded pages o d1 -> loaded pages (o + Z.of_nat (length d1)) d2 -> loaded pages o (d1 ++ d2).
Proof.
  intros H1 H2 j Hj. rewrite length_app in Hj. destruct (Z.lt_ge_cases j (Z.of_nat (length d1))).
  - rewrite rd_app_l by done. apply H1. lia.
  - replace (o + j) with (o + Z.of_nat (length d1) + (j - Z.of_nat (length d1))) by lia.
    rewrite <- H2 by lia. unfold rd. rewrite !(proj2 (Z.ltb_ge _ _)) by lia. rewrite lookup_app_r by lia.
    by replace (Z.to_nat (j - Z.of_nat (length d1))) with (Z.to_nat j - length d1)%nat by lia.
Qed.

Lemma load_page pages i po l :
  whole_pages pages -> 0 <= i < Z.of_nat (length pages) -> 0 <= po -> 0 <= l -> po + l <= PAGE_SIZE ->
  exists chunk, (forall B (k : list Z -> outcome B),
      (pg ← rd pages i; chunk ← read_bytes pg (Z.to_nat l) po; k chunk) = k chunk) /\
    Z.of_nat (length chunk) = l /\ loaded pages (i * PAGE_SIZE + po) chunk.
Proof.
  intros Hw Hi Hpo Hl Hfit. destruct (page_total pages i Hw Hi) as (pg & Hpg & Hlen).
  assert (Hall : forall j, 0 <= j < l -> exists v, rd pg (po + j) = Ret v) by (intros; apply rd_total; lia).
  pose proof (slice_length pg po l Hall) as Hsl.
  exists (slice pg po l). split_and!; [|lia|].
  - intros B k. rewrite Hpg. cbn [obind]. rewrite <- Hsl, holds_at_read; [done|].
    split; [done|]. rewrite Hsl. by rewrite Z2Nat.id.
  - intros j Hj. rewrite <- Z.add_assoc, byte_at_page by lia. rewrite Hpg. cbn [obind].
    destruct (Hall j) as [v Hv]; [lia|]. rewrite Hv. apply rd_Ret. split; [lia|].
    apply slice_lookup; [done|]. rewrite Z2Nat.id by lia. split; [lia|done].
Qed.

(** Within a vector, a position has its page. *)
Lemma position_page pages i po n :
  0 <= i -> 0 <= po -> 0 < n -> i * PAGE_SIZE + po + n <= vector_size pages -> 0 <= i < Z.of_nat (length pages).
Proof. intros. pose proof page_size_range. unfold vector_size in *. nia. Qed.

Lemma copy_to_loop_spec fuel : forall pages data i po,
  whole_pages pages -> 0 <= i -> 0 <= po < PAGE_SIZE -> (length data < fuel)%nat ->
  i * PAGE_SIZE + po + Z.of_nat (length data) <= vector_size pages ->
  exists pages', copy_to_loop fuel pages data i po = Ret pages' /\ stored pages pages' (i * PAGE_SIZE + po) data.
Proof.
  pose proof page_size_range as HP.
  induction fuel as [|fuel IH]; intros pages data i po Hw Hi Hpo Hf Hfit; [lia|]. cbn [copy_to_loop].
  destruct (Z.ltb_spec 0 (Z.of_nat (length data))) as [Hpos|].
  2:{ exists pages. split; [done|]. destruct data; [|cbn in *; lia]. by apply stored_nil. }
  rewrite u64_small by lia. set (l := Z.min (PAGE_SIZE - po) (Z.of_nat (length data))).
  destruct (store_page pages i po (take (Z.to_nat l) data)) as (pages1 & Hst & Hs1);
    [done|eapply position_page; [done| |exact Hpos|exact Hfit]; lia|lia|rewrite length_take; lia|].
  rewrite Hst. pose proof Hs1 as (Hl1 & Hw1 & _).
  assert (Ho : i * PAGE_SIZE + po + Z.of_nat (length (take (Z.to_nat l) data)) = i * PAGE_SIZE + po + l)
    by (rewrite length_take; lia).
  assert (Hv : vector_size pages1 = vector_size pages) by (unfold vector_size; by rewrite Hl1).
  assert (Hnext : forall i' po', i' * PAGE_SIZE + po' = i * PAGE_SIZE + po + l -> 0 <= i' -> 0 <= po' < PAGE_SIZE ->
    exists pages', copy_to_loop fuel pages1 (drop (Z.to_nat l) data) i' po' = Ret pages' /\
      stored pages pages' (i * PAGE_SIZE + po) data).
  { intros i' po' E Hi' Hpo'. destruct (IH pages1 (drop (Z.to_nat l) data) i' po') as (pages' & Hc & Hs2);
      [done..|rewrite length_drop; lia|rewrite length_drop, Hv; lia|]. exists pages'. split; [done|].
    rewrite <- (take_drop (Z.to_nat l) data). eapply stored_app; [nia|exact Hs1|]. by rewrite Ho, <- E. }
  destruct (Z.eqb_spec (po + l) PAGE_SIZE); apply Hnext; lia.
Qed.

Lemma copy_from_loop_spec fuel : forall pages data i po left,
  whole_pages pages -> 0 <= i -> 0 <= po < PAGE_SIZE -> 0 <= left < Z.of_nat fuel ->
  i * PAGE_SIZE + po + left <= vector_size pages ->
  exists out, copy_from_loop fuel pages data i po left = Ret (data ++ out) /\
    Z.of_nat (length out) = left /\ loaded pages (i * PAGE_SIZE + po) out.
Proof.
  pose proof page_size_range as HP.
  induction fuel as [|fuel IH]; intros pages data i po left Hw Hi Hpo Hf Hfit; [lia|]. cbn [copy_from_loop].
  destruct (Z.ltb_spec 0 left) as [Hpos|].
  2:{ exists []. rewrite app_nil_r. split; [done|]. split; [cbn; lia|]. intros j Hj. cbn in Hj. lia. }
  rewrite u64_small by lia. set (l := Z.min (PAGE_SIZE - po) left).
  destruct (load_page pages i po l) as (chunk & Hld & Hcl & Hlo);
    [done|eapply position_page; [done| |exact Hpos|exact Hfit]; lia|lia|lia|lia|].
  rewrite Hld.
  assert (Hnext : forall i' po', i' * PAGE_SIZE + po' = i * PAGE_SIZE + po + l -> 0 <= i' -> 0 <= po' < PAGE_SIZE ->
    exists out, copy_from_loop fuel pages (data ++ chunk) i' po' (left - l) = Ret (data ++ out) /\
      Z.of_nat (length out) = left /\ loaded pages (i * PAGE_SIZE + po) out).
  { intros i' po' E Hi' Hpo'. destruct (IH pages (data ++ chunk) i' po' (left - l)) as (out & Hc & Hol & Hs2);
      [done|done|done|lia|lia|]. exists (chunk ++ out). rewrite app_assoc. split; [done|].
    split; [rewrite length_app; lia|]. apply loaded_app; [done|]. by rewrite Hcl, <- E. }
  destruct (Z.eqb_spec (po + l) PAGE_SIZE); apply Hnext; lia.
Qed.

Hypothesis Hcopy : forall n l, 0 <= copy_user n l <= Z.max 0 l.

Lemma user_to_loop_spec fuel : forall n pages data i po left,
  whole_pages pages -> 0 <= i -> 0 <= po < PAGE_SIZE -> left = Z.of_nat (length data) ->
  (length data < fuel)%nat -> i * PAGE_SIZE + po + left <= vector_size pages ->
  user_to_loop fuel n pages data i po left = Err EFAULT \/
  exists pages', user_to_loop fuel n pages data i po left = Ret pages' /\
    stored pages pages' (i * PAGE_SIZE + po) data.
Proof.
  pose proof page_size_range as HP.
  induction fuel as [|fuel IH]; intros n pages data i po left Hw Hi Hpo Hleft Hf Hfit; [lia|]. cbn [user_to_loop].
  destruct (Z.ltb_spec 0 left) as [Hpos|].
  2:{ right. exists pages. split; [done|]. destruct data; [|cbn in *; lia]. by apply stored_nil. }
  set (l := Z.min (PAGE_SIZE - po) left). pose proof (Hcopy n l) as Hbad. set (bad := copy_user n l) in *.
  set (got := Z.to_nat (l - bad)).
  assert (Htl : length (take got data) = got) by (rewrite length_take; lia).
  destruct (store_page pages i po (take got data ++ repeat 0 (Z.to_nat bad))) as (pages1 & Hst & Hs1);
    [done|eapply position_page; [done| |exact Hpos|exact Hfit]; lia|lia|rewrite length_app, repeat_length; lia|].
  rewrite Hst. pose proof Hs1 as (Hl1 & Hw1 & _). destruct (Z.eqb_spec bad l); [by left|].
  assert (Hv : vector_size pages1 = vector_size pages) by (unfold vector_size; by rewrite Hl1).
  assert (Hnext : forall i' po', i' * PAGE_SIZE + po' = i * PAGE_SIZE + po + (l - bad) -> 0 <= i' -> 0 <= po' < PAGE_SIZE ->
    let run := user_to_loop fuel (S n) pages1 (drop got data) i' po' (left - (l - bad)) in
    run = Err EFAULT \/ exists pages', run = Ret pages' /\ stored pages pages' (i * PAGE_SIZE + po) data).
  { intros i' po' E Hi' Hpo'.
    destruct (IH (S n) pages1 (drop got data) i' po' (left - (l - bad))) as [He|(pages' & Hc & Hs2)];
      [done..|rewrite length_drop; lia|rewrite length_drop; lia|lia|by left|]. right. exists pages'. split; [done|].
    rewrite <- (take_drop got data). eapply stored_over; [nia|exact Hs1|rewrite repeat_length, length_drop; lia|].
    rewrite Htl. replace (Z.of_nat got) with (l - bad) by lia. by rewrite <- E. }
  destruct (Z.eqb_spec (po + (l - bad)) PAGE_SIZE); apply Hnext; lia.
Qed.

(** A copy to user memory copies all or nothing. *)
Definition atomic_copy : Prop := forall n l, copy_user n l = 0 \/ copy_user n l = l.

Lemma to_user_loop_spec fuel : forall n pages data i po left,
  atomic_copy -> whole_pages pages -> 0 <= i -> 0 <= po < PAGE_SIZE -> 0 <= left < Z.of_nat fuel ->
  i * PAGE_SIZE + po + left <= vector_size pages ->
  to_user_loop fuel n pages data i po left = Err EFAULT \/
  exists out, to_user_loop fuel n pages data i po left = Ret (data ++ out) /\
    Z.of_nat (length out) = left /\ loaded pages (i * PAGE_SIZE + po) out.
Proof.
  pose proof page_size_range as HP.
  induction fuel as [|fuel IH]; intros n pages data i po left Hat Hw Hi Hpo Hf Hfit; [lia|]. cbn [to_user_loop].
  destruct (Z.ltb_spec 0 left) as [Hpos|].
  2:{ right. exists []. rewrite app_nil_r. split; [done|]. split; [cbn; lia|]. intros j Hj. cbn in Hj. lia. }
  set (l := Z.min left (PAGE_SIZE - po)). assert (Hlpos : 0 < l) by lia.
  assert (Hin : 0 <= i < Z.of_nat (length pages))
    by (eapply position_page; [done| |exact Hpos|exact Hfit]; lia).
  pose proof (Hcopy n l) as Hbad.
  destruct (load_page pages i po (l - copy_user n l)) as (chunk & Hld & Hcl & Hlo); [done|done|lia|lia|lia|].
  rewrite Hld. destruct (Hat n l) as [Hb|Hb]; rewrite Hb in *.
  2:{ rewrite Z.eqb_refl. by left. }
  rewrite (proj2 (Z.eqb_neq 0 l)) by lia. rewrite Z.sub_0_r in *.
  set (po' := if negb (po =? 0) then _ else _).
  assert (Hpo' : 0 <= po' < PAGE_SIZE /\ (left <> l -> po' = 0 /\ l = PAGE_SIZE - po)).
  { unfold po'. destruct (Z.eqb_spec po 0); cbn [negb]; [lia|]. destruct (Z.eqb_spec (po + l) PAGE_SIZE); lia. }
  destruct (decide (left = l)) as [E|E].
  - rewrite E, Z.sub_diag. destruct fuel; [lia|]. cbn [to_user_loop]. right. exists chunk. split_and!; (done || lia).
  - destruct (IH (S n) pages (data ++ chunk) (i + 1) po' (left - l)) as [He|(out & Hc & Hol & Hs2)];
      [done|done|lia|lia|lia|nia|by left|]. right. exists (chunk ++ out). rewrite app_assoc. split; [done|].
    split; [rewrite length_app; lia|]. apply loaded_app; [done|].
    replace (i * PAGE_SIZE + po + Z.of_nat (length chunk)) with ((i + 1) * PAGE_SIZE + po') by lia. done.
Qed.

Lemma zero_segment_spec pages i start end_ :
  whole_pages pages -> 0 <= i < Z.of_nat (length pages) -> 0 <= start <= end_ -> end_ <= PAGE_SIZE ->
  exists pages', zero_segment pages i start end_ = Ret pages' /\
    stored pages pages' (i * PAGE_SIZE + start) (repeat 0 (Z.to_nat (end_ - start))).
Proof.
  intros Hw Hi Hs He.
  destruct (store_page pages i start (repeat 0 (Z.to_nat (end_ - start)))) as (pages' & Hst & Hs1);
    [done|done|lia|rewrite repeat_length; lia|].
  exists pages'. split; [|done]. unfold zero_segment. rewrite <- (Hst _ Ret).
  destruct (rd pages i); cbn [obind]; [|done..]. destruct (write_bytes _ _ _); cbn [obind]; [|done..].
  by destruct (wr pages i _).
Qed.

Lemma zero_loop_spec n : forall pages i len,
  whole_pages pages -> 0 <= i -> 0 <= len -> len / PAGE_SIZE = Z.of_nat n ->
  i * PAGE_SIZE + len <= vector_size pages ->
  exists pages', zero_loop n pages i len = Ret pages' /\ stored pages pages' (i * PAGE_SIZE) (repeat 0 (Z.to_nat len)).
Proof.
  pose proof page_size_range as HP.
  induction n as [|n IH]; intros pages i len Hw Hi Hlen Hn Hfit; cbn [zero_loop];
    pose proof (Z.div_mod len PAGE_SIZE ltac:(lia)); pose proof (Z.mod_pos_bound len PAGE_SIZE ltac:(lia)).
  - destruct (Z.eqb_spec len 0) as [->|]; cbn [negb]; [exists pages; split; [done|by apply stored_nil]|].
    destruct (zero_segment_spec pages i 0 len) as (pages' & Hz & Hs);
      [done|eapply (position_page _ _ 0 len); lia|lia|lia|].
    exists pages'. rewrite Z.sub_0_r, Z.add_0_r in Hs. done.
  - destruct (zero_segment_spec pages i 0 PAGE_SIZE) as (pages1 & Hz & Hs1);
      [done|eapply (position_page _ _ 0 len); nia|lia|lia|].
    rewrite Hz. cbn [obind]. rewrite Z.sub_0_r, Z.add_0_r in Hs1. pose proof Hs1 as (Hl1 & Hw1 & _).
    destruct (IH pages1 (i + 1) (len - PAGE_SIZE)) as (pages2 & Hz2 & Hs2); [done|lia|nia| | |].
    + replace (len - PAGE_SIZE) with (len + (-1) * PAGE_SIZE) by lia. rewrite Z.div_add by lia. lia.
    + unfold vector_size in *. rewrite Hl1. lia.
    + exists pages2. split; [done|].
      replace (Z.to_nat len) with (Z.to_nat PAGE_SIZE + Z.to_nat (len - PAGE_SIZE))%nat by nia.
      rewrite repeat_app. eapply stored_app; [nia|exact Hs1|].
      rewrite repeat_length, Z2Nat.id by lia. by replace (i * PAGE_SIZE + PAGE_SIZE) with ((i + 1) * PAGE_SIZE) by lia.
Qed.

Lemma zero_range_spec off len pages :
  whole_pages pages -> 0 <= off -> 0 <= len -> off + len <= vector_size pages ->
  exists pages', ceph_zero_page_vector_range off len pages = Ret pages' /\
    stored pages pages' off (repeat 0 (Z.to_nat len)).
Proof.
  intros Hw Hoff Hlen Hfit. pose proof page_size_range as HP. unfold ceph_zero_page_vector_range.
  pose proof (page_offset_range off) as Hpo.
  assert (Heq : Z.shiftr off PAGE_SHIFT * PAGE_SIZE + page_offset off = off).
  { unfold page_offset. unfold PAGE_SIZE at 2. rewrite Z.sub_1_r, <- Z.ones_equiv, Z.land_ones by lia.
    rewrite Z.shiftr_div_pow2 by lia. fold PAGE_SIZE. rewrite Z.mul_comm. symmetry. apply Z.div_mod. lia. }
  assert (Hi0 : 0 <= Z.shiftr off PAGE_SHIFT) by (by apply Z.shiftr_nonneg).
  set (i := Z.shiftr off PAGE_SHIFT) in *. set (po := page_offset off) in *.
  assert (Hnn : forall x, 0 <= x -> x / PAGE_SIZE = Z.of_nat (Z.to_nat (x / PAGE_SIZE))).
  { intros x Hx. rewrite Z2Nat.id; [done|]. apply Z.div_pos; lia. }
  destruct (Z.eqb_spec po 0) as [E|E]; cbn [negb obind].
  - destruct (zero_loop_spec (Z.to_nat (len / PAGE_SIZE)) pages i len) as (pages' & Hz & Hs);
      [done|done|done|by apply Hnn|lia|].
    exists pages'. split; [done|]. by replace off with (i * PAGE_SIZE) by lia.
  - destruct (decide (len = 0)) as [->|Hl0].
    { destruct (zero_segment_spec pages i po (Z.min PAGE_SIZE (po + 0))) as (p1 & Hz & Hs1);
        [done|unfold vector_size in *; nia|lia|lia|]. rewrite Hz. cbn [obind].
      replace (Z.min PAGE_SIZE (po + 0) - po) with 0 in * by lia. rewrite Z.div_0_l by lia. cbn [Z.to_nat zero_loop].
      rewrite Z.sub_0_r. cbn [Z.eqb negb]. exists p1. split; [done|]. rewrite Heq in Hs1. exact Hs1. }
    set (end_ := Z.min PAGE_SIZE (po + len)).
    destruct (zero_segment_spec pages i po end_) as (pages1 & Hz & Hs1);
      [done|eapply (position_page _ _ po len); lia|lia|lia|].
    rewrite Hz. cbn [obind]. pose proof Hs1 as (Hl1 & Hw1 & _).
    destruct (decide (end_ = po + len)) as [Ee|Ee].
    { replace (len - (end_ - po)) with 0 by lia. rewrite Z.div_0_l by lia. cbn [Z.to_nat zero_loop Z.eqb negb].
      exists pages1. split; [done|]. rewrite Heq in Hs1. by replace (Z.to_nat (end_ - po)) with (Z.to_nat len) in Hs1 by lia. }
    destruct (zero_loop_spec (Z.to_nat ((len - (end_ - po)) / PAGE_SIZE)) pages1 (i + 1) (len - (end_ - po)))
      as (pages2 & Hz2 & Hs2); [done|lia|lia|apply Hnn; lia|unfold vector_size in *; rewrite Hl1; lia|].
    exists pages2. split; [done|].
    replace (Z.to_nat len) with (Z.to_nat (end_ - po) + Z.to_nat (len - (end_ - po)))%nat by lia.
    rewrite repeat_app. rewrite Heq in Hs1. eapply stored_app; [done|exact Hs1|].
    rewrite repeat_length, Z2Nat.id by lia. by replace (off + (end_ - po)) with ((i + 1) * PAGE_SIZE) by lia.
Qed.

(** ** Properties *)

(** C34: ceph_copy_to_page_vector and ceph_copy_from_page_vector: within the vector,
    the copy in changes the bytes of the range and no other, and the copy out
    of the same range returns the data; both return, whatever the offset. *)
Theorem ceph_page_vector_roundtrip pages data off :
  whole_pages pages -> page_offset off + Z.of_nat (length data) <= vector_size pages ->
  exists pages', ceph_copy_to_page_vector pages data off = Ret pages' /\
    stored pages pages' (page_offset off) data /\
    ceph_copy_from_page_vector pages' off (Z.of_nat (length data)) = Ret data.
Proof.
  intros Hw Hfit. pose proof (page_offset_range off) as Hpo.
  destruct (copy_to_loop_spec (S (length data)) pages data 0 (page_offset off)) as (pages' & Hc & Hs); [done|lia|done|lia|lia|].
  exists pages'. split; [done|]. split; [done|]. pose proof Hs as (Hl & Hw' & Hb).
  destruct (copy_from_loop_spec (S (Z.to_nat (Z.of_nat (length data)))) pages' [] 0 (page_offset off)
    (Z.of_nat (length data))) as (out & Hf & Hol & Hlo); [done|lia|done|lia|unfold vector_size in *; rewrite Hl; lia|].
  unfold ceph_copy_from_page_vector. rewrite Hf. cbn [app]. f_equal. apply list_eq_same_length with (length data); [done|lia|].
  intros k x y Hk Hx Hy. specialize (Hlo (Z.of_nat k) ltac:(lia)). rewrite Hb in Hlo by lia.
  rewrite (proj2 (Z.leb_le _ _)), (proj2 (Z.ltb_lt _ _)) in Hlo by lia. cbn [andb] in Hlo.
  replace (0 * PAGE_SIZE + page_offset off + Z.of_nat k - (0 * PAGE_SIZE + page_offset off)) with (Z.of_nat k) in Hlo by lia.
  unfold rd in Hlo. rewrite (proj2 (Z.ltb_ge (Z.of_nat k) 0)), Nat2Z.id, Hx, Hy in Hlo by lia. congruence.
Qed.

(** ceph_copy_user_to_page_vector: whatever part of each request the user copy
    leaves out, the function returns -EFAULT or has stored exactly the user's
    bytes; it never writes outside the range. *)
Theorem ceph_copy_user_to_page_vector_exact pages data off :
  whole_pages pages -> page_offset off + Z.of_nat (length data) <= vector_size pages ->
  Z.of_nat (length data) < 2 ^ 31 ->
  ceph_copy_user_to_page_vector pages data off = Err EFAULT \/
  exists pages', ceph_copy_user_to_page_vector pages data off = Ret pages' /\
    stored pages pages' (page_offset off) data.
Proof.
  intros Hw Hfit Hl. pose proof (page_offset_range off) as Hpo. unfold ceph_copy_user_to_page_vector.
  rewrite s32_small by lia.
  destruct (user_to_loop_spec (S (length data)) 0 pages data 0 (page_offset off) (Z.of_nat (length data)))
    as [He|(pages' & Hc & Hs)]; [done|lia|done|done|lia|lia|by left|right]. by exists pages'.
Qed.

End Copies.

(** Pages of 8 bytes. *)
Definition example_pages : list (list Z) := [repeat 1 8; repeat 2 8; repeat 3 8].

Lemma ceph_page_vector_roundtrip_witness :
  exists pages', ceph_copy_to_page_vector 3 example_pages (seqZ 10 13) 21 = Ret pages' /\
    ceph_copy_from_page_vector 3 pages' 21 13 = Ret (seqZ 10 13).
Proof.
  destruct (ceph_page_vector_roundtrip 3 ltac:(lia) example_pages (seqZ 10 13) 21) as (pages' & Ht & _ & Hf).
  - repeat (constructor; [reflexivity|]). constructor.
  - vm_compute. discriminate.
  - exists pages'. split; [exact Ht|exact Hf].
Defined.

(** Every other copy stops half way. *)
Definition half_copy (n : nat) (l : Z) : Z := if Nat.even n then Z.max 0 l / 2 else 0.

Lemma half_copy_range n l : 0 <= half_copy n l <= Z.max 0 l.
Proof.
  unfold half_copy. destruct (Nat.even n); [|lia].
  split; [apply Z.div_pos; lia|apply Z.div_le_upper_bound; lia].
Qed.

Lemma ceph_copy_user_to_page_vector_exact_witness :
  exists pages', ceph_copy_user_to_page_vector 3 half_copy example_pages (seqZ 10 13) 5 = Ret pages' /\
    pages' = [[1; 1; 1; 1; 1; 10; 11; 12]; [13; 14; 15; 16; 17; 18; 19; 20]; [21; 22; 3; 3; 3; 3; 3; 3]].
Proof.
  destruct (ceph_copy_user_to_page_vector_exact 3 half_copy ltac:(lia) half_copy_range
    example_pages (seqZ 10 13) 5) as [He|(pages' & Hr & _)].
  - repeat (constructor; [reflexivity|]). constructor.
  - vm_compute. discriminate.
  - vm_compute. reflexivity.
  - vm_compute in He. discriminate He.
  - exists pages'. split; [exact Hr|]. vm_compute in Hr. injection Hr as <-. reflexivity.
Defined.

(** ceph_copy_page_vector_to_user goes to the next page after every copy, also
    after one that copied only a part: it then returns success with bytes that
    are not those of the vector.  Here the first of two copies leaves out the
    last 3 bytes of page 0. *)
Theorem ceph_copy_page_vector_to_user_skips :
  ceph_copy_page_vector_to_user 3 (fun n _ => if (n =? 0)%nat then 3 else 0)
    [seqZ 0 8; seqZ 8 8; seqZ 16 8] 0 8 = Ret [0; 1; 2; 3; 4; 8; 9; 10].
Proof. vm_compute. reflexivity. Qed.
