(* ===== verification/MdsMap.v ===== *)
(** * The MDS map

    Models fs/ceph/mdsmap.c and include/linux/ceph/mdsmap.h: the decoder of an
    MDS map, its accessors and the choice of a random MDS.  [prandom] is the
    value prandom_u32 returns. *)
From S2P Require Import Prelude.
From S2P Require Import Wire.
From S2P Require Import CrushDecode.
From S2P Require Import OsdMapDecode.
From S2P Require Import OsdMapInv.

Definition CEPH_MDS_STATE_DNE : Z := 0.

(** An address is the bytes of its struct. *)
Record ceph_mds_info := MdsInfo {
  global_id : Z;
  mi_addr : list Z;
  state : Z;
  num_export_targets : Z;
  laggy : bool;
  export_targets : option (list Z) }.

(** [m_info] and [m_data_pg_pools] are NULL before they are allocated. *)
Record ceph_mdsmap := MdsMap {
  m_epoch : Z; m_client_epoch : Z; m_last_failure : Z;
  m_root : Z;
  m_session_timeout : Z;
  m_session_autoclose : Z;
  m_max_file_size : Z;
  m_max_mds : Z;
  m_info : option (list ceph_mds_info);
  m_num_data_pg_pools : Z;
  m_data_pg_pools : option (list Z);
  m_cas_pg_pool : Z }.

Definition zero_info : ceph_mds_info := MdsInfo 0 (repeat 0 136) 0 0 false None.
Definition zero_mdsmap : ceph_mdsmap := MdsMap 0 0 0 0 0 0 0 0 None 0 None 0.
Definition sizeof_mds_info : Z := 168.
Definition sizeof_mdsmap : Z := 72.

(** ** Accessors; [w] is an int and [m_max_mds] a u32 *)
Definition ceph_mdsmap_get_addr (m : ceph_mdsmap) (w : Z) : outcome (option (list Z)) :=
  if m_max_mds m <=? u32 w then Ret None
  else l ← deref (m_info m); i ← rd l w; Ret (Some (mi_addr i)).

Definition ceph_mdsmap_get_state (m : ceph_mdsmap) (w : Z) : outcome Z :=
  _ ← bug_on (w <? 0);
  if m_max_mds m <=? u32 w then Ret CEPH_MDS_STATE_DNE
  else l ← deref (m_info m); i ← rd l w; Ret (state i).

Definition ceph_mdsmap_is_laggy (m : ceph_mdsmap) (w : Z) : outcome bool :=
  if (0 <=? w) && (u32 w <? m_max_mds m) then
    l ← deref (m_info m); i ← rd l w; Ret (laggy i)
  else Ret false.

(** ** A random MDS *)
Fixpoint count_up (n : nat) (l : list ceph_mds_info) (i count : Z) : outcome Z :=
  match n with
  | O => Ret count
  | S n => info ← rd l i; count_up n l (i + 1) (if 0 <? state info then count + 1 else count)
  end.

(** [while (m->m_info[i].state <= 0) i++]: beyond the array the read faults *)
Fixpoint next_up (fuel : nat) (l : list ceph_mds_info) (i : Z) : outcome Z :=
  match fuel with
  | O => Fault OutOfFuel
  | S fuel =>
      info ← rd l i;
      if state info <=? 0 then next_up fuel l (i + 1) else Ret i
  end.

(** [for (i = 0; n > 0; i++, n--)] *)
Fixpoint pick_up (n : nat) (l : list ceph_mds_info) (i : Z) : outcome Z :=
  match n with
  | O => Ret i
  | S n => i ← next_up (S (length l)) l i; pick_up n l (i + 1)
  end.

Definition ceph_mdsmap_get_random_mds (prandom : Z) (m : ceph_mdsmap) : outcome Z :=
  single ←
    (if 1 =? m_max_mds m then l ← deref (m_info m); i ← rd l 0; Ret (0 <? state i) else Ret false);
  if (single : bool) then Ret 0
  else if m_max_mds m =? 0 then Ret (-1)
  else
    l ← deref (m_info m);
    n ← count_up (Z.to_nat (m_max_mds m)) l 0 0;
    if n =? 0 then Ret (-1) else pick_up (Z.to_nat (prandom mod n)) l 0.

(** ** Decoding *)
Section Decode.
Context (buf : list Z) (kmalloc_ok : nat -> Z -> bool).
Local Abbreviation mdec := (dec ceph_mdsmap).

Definition set_info (l : list ceph_mds_info) : mdec unit :=
  m ⇐ get_obj;
  put_obj (MdsMap (m_epoch m) (m_client_epoch m) (m_last_failure m) (m_root m) (m_session_timeout m)
    (m_session_autoclose m) (m_max_file_size m) (m_max_mds m) (Some l) (m_num_data_pg_pools m)
    (m_data_pg_pools m) (m_cas_pg_pool m)).

Definition set_data_pools (n : Z) (pools : list Z) (cas : Z) : mdec unit :=
  m ⇐ get_obj;
  put_obj (MdsMap (m_epoch m) (m_client_epoch m) (m_last_failure m) (m_root m) (m_session_timeout m)
    (m_session_autoclose m) (m_max_file_size m) (m_max_mds m) (m_info m) n (Some pools) cas).

(** The export targets are read where they stand, through a pointer of their own. *)
Definition read_export_targets (pexport num : Z) : mdec (list Z) :=
  p ⇐ get_pos;
  _ ⇐ set_pos pexport;
  l ⇐ repeat_dec (Z.to_nat num) (ceph_decode_32 buf);
  _ ⇐ set_pos p;
  dret l.

(** The stores to [m->m_info[mds]] *)
Definition store_info (mds gid st : Z) (addr laggy_since : list Z) (num pexport : Z) : mdec unit :=
  let lag := negb (le_val (take 4 laggy_since) =? 0) || negb (le_val (drop 4 laggy_since) =? 0) in
  targets ⇐ (if num =? 0 then dret None
             else
               _ ⇐ kcalloc_or kmalloc_ok num 4 ENOMEM;
               l ⇐ read_export_targets pexport num;
               dret (Some l));
  m ⇐ get_obj;
  l ⇐ dlift (deref (m_info m));
  l ⇐ dlift (wr l mds (MdsInfo gid addr st (s32 num) lag targets));
  set_info l.

(** The loop body: one entry of mds_info *)
Definition decode_mds_info (end_ : Z) : mdec unit :=
  _ ⇐ ceph_decode_need end_ (8 * 2 + 1 + 4) EINVAL;
  gid ⇐ ceph_decode_64 buf;
  infoversion ⇐ ceph_decode_8 buf;
  _ ⇐ skip 8;
  namelen ⇐ ceph_decode_32 buf;
  _ ⇐ skip namelen;
  _ ⇐ ceph_decode_need end_ (4 * 4 + 8 + sizeof_addr + 8) EINVAL;
  mds ⇐ ceph_decode_32 buf;
  inc ⇐ ceph_decode_32 buf;
  st ⇐ ceph_decode_32 buf;
  state_seq ⇐ ceph_decode_64 buf;
  addr ⇐ ceph_decode_copy buf sizeof_addr;
  let addr := ceph_decode_addr addr in
  laggy_since ⇐ ceph_decode_copy buf 8;
  _ ⇐ skip 4;
  namelen ⇐ ceph_decode_32_safe buf end_ EINVAL;
  _ ⇐ skip namelen;
  '(num, pexport) ⇐
    (if 2 <=? infoversion then
       num ⇐ ceph_decode_32_safe buf end_ EINVAL;
       p ⇐ get_pos;
       _ ⇐ skip (num * 4);
       dret (num, p)
     else dret (0, 0));
  m ⇐ get_obj;
  let mds := s32 mds in
  let st := s32 st in
  if (mds <? 0) || (m_max_mds m <=? mds) || (st <=? 0) then dret tt
  else store_info mds gid st addr laggy_since num pexport.

(** [for (i = 0; i < n; i++)], [n] iterations left *)
Fixpoint decode_mds_infos (n : nat) (end_ : Z) : mdec unit :=
  match n with
  | O => dret tt
  | S n => _ ⇐ decode_mds_info end_; decode_mds_infos n end_
  end.

Definition decode_data_pools (end_ : Z) : mdec unit :=
  n ⇐ ceph_decode_32_safe buf end_ EINVAL;
  let n := s32 n in
  _ ⇐ kcalloc_or kmalloc_ok n 8 ENOMEM;
  _ ⇐ ceph_decode_need end_ (u64 (8 * u64 (s32 (n + 1)))) EINVAL;
  pools ⇐ repeat_dec (Z.to_nat n) (ceph_decode_64 buf);
  cas ⇐ ceph_decode_64 buf;
  set_data_pools n pools cas.

Definition mdsmap_decode_body (end_ : Z) : mdec unit :=
  version ⇐ ceph_decode_16_safe buf end_ EINVAL;
  if 3 <? version then derr EINVAL
  else
    _ ⇐ ceph_decode_need end_ (8 * 4 + 8) EINVAL;
    epoch ⇐ ceph_decode_32 buf;
    client_epoch ⇐ ceph_decode_32 buf;
    last_failure ⇐ ceph_decode_32 buf;
    root ⇐ ceph_decode_32 buf;
    timeout ⇐ ceph_decode_32 buf;
    autoclose ⇐ ceph_decode_32 buf;
    max_file_size ⇐ ceph_decode_64 buf;
    max_mds ⇐ ceph_decode_32 buf;
    _ ⇐ put_obj (MdsMap epoch client_epoch last_failure root timeout autoclose max_file_size max_mds
                  None 0 None 0);
    _ ⇐ kcalloc_or kmalloc_ok max_mds sizeof_mds_info ENOMEM;
    _ ⇐ set_info (repeat zero_info (Z.to_nat max_mds));
    n ⇐ ceph_decode_32 buf;
    _ ⇐ decode_mds_infos (Z.to_nat (s32 n)) end_;
    decode_data_pools end_.

(** It reads [m->m_info[i].export_targets] for each [i < m_max_mds]. *)
Definition ceph_mdsmap_destroy (m : ceph_mdsmap) : outcome unit :=
  if m_max_mds m =? 0 then Ret tt else _ ← deref (m_info m); Ret tt.

Definition ceph_mdsmap_decode (end_ pos : Z) (allocs : nat) : outcome ceph_mdsmap * dst ceph_mdsmap :=
  match kmalloc_or kmalloc_ok sizeof_mdsmap ENOMEM (Dst pos allocs zero_mdsmap) with
  | (Ret _, s) =>
      match mdsmap_decode_body end_ s with
      | (Ret _, s) => (Ret (d_obj s), s)
      | (Err e, s) => ((_ ← ceph_mdsmap_destroy (d_obj s); Err e), s)
      | (Fault f, s) => (Fault f, s)
      end
  | (Err e, s) => (Err e, s)
  | (Fault f, s) => (Fault f, s)
  end.

End Decode.

(** ** Decoded maps are well-formed *)

(** What holds of the value and the object when a decoder returns. *)
Definition returns {S A} (P : S -> Prop) (m : dec S A) (Q : A -> S -> Prop) : Prop :=
  forall s a s', P (d_obj s) -> m s = (Ret a, s') -> Q a (d_obj s').

Section Returns.
Context {S : Type}.

Lemma returns_bind {A B} (P : S -> Prop) (m : dec S A) (k : A -> dec S B) Q R :
  returns P m Q -> (forall a, returns (Q a) (k a) R) -> returns P (dbind m k) R.
Proof.
  intros Hm Hk s b s' HP. unfold dbind. destruct (m s) as [[a|e|f] s1] eqn:E; [|done..].
  intros Hb. eapply Hk; [|done]. by eapply Hm.
Qed.

Lemma returns_reads {A} (P : S -> Prop) (m : dec S A) : reads m -> returns P m (fun _ => P).
Proof. intros Hm s a s' HP E. specialize (Hm s). rewrite E in Hm. cbn in Hm. by rewrite Hm. Qed.

Lemma returns_bind_reads {A B} (P : S -> Prop) (m : dec S A) (k : A -> dec S B) R :
  reads m -> (forall a, returns P (k a) R) -> returns P (dbind m k) R.
Proof. intros Hm Hk. eapply returns_bind; [by apply returns_reads|done]. Qed.

Lemma returns_bind_get {B} (P : S -> Prop) (k : S -> dec S B) R :
  (forall o, P o -> returns (fun o' => o' = o) (k o) R) -> returns P (dbind get_obj k) R.
Proof. intros Hk s b s' HP E. eapply (Hk (d_obj s)); [done| |exact E]. done. Qed.

Lemma returns_bind_lift {A B} (P : S -> Prop) (o : outcome A) (k : A -> dec S B) R :
  (forall a, o = Ret a -> returns P (k a) R) -> returns P (dbind (dlift o) k) R.
Proof.
  intros Hk s b s' HP. unfold dbind, dlift. destruct o as [a|e|f]; [|done..]. intros E. by eapply Hk.
Qed.

Lemma returns_put (P : S -> Prop) o (Q : unit -> S -> Prop) : Q tt o -> returns P (put_obj o) Q.
Proof. intros HQ s a s' _ [= <- <-]. done. Qed.

Lemma returns_ret {A} (P : S -> Prop) (a : A) Q : (forall o, P o -> Q a o) -> returns P (dret a) Q.
Proof. intros HQ s b s' HP [= <- <-]. by apply HQ. Qed.

End Returns.

Lemma reads_kcalloc_or {S} kmalloc_ok n size err : reads (S := S) (kcalloc_or kmalloc_ok n size err).
Proof. unfold kcalloc_or. solve_reads. Qed.
#[export] Hint Resolve reads_kcalloc_or : reads.

(** The array of MDSs has [m_max_mds] entries, of which none is in a negative
    state. *)
Definition info_ok (m : ceph_mdsmap) : Prop :=
  exists l, m_info m = Some l /\ length l = Z.to_nat (m_max_mds m) /\ Forall (fun i => 0 <= state i) l.

Definition mdsmap_ok (m : ceph_mdsmap) : Prop :=
  info_ok m /\ exists pools, m_data_pg_pools m = Some pools /\
    length pools = Z.to_nat (m_num_data_pg_pools m).

Section DecodeOk.
Context (buf : list Z) (kmalloc_ok : nat -> Z -> bool).

Lemma set_info_ok P l :
  (forall m, P m -> length l = Z.to_nat (m_max_mds m)) -> Forall (fun i => 0 <= state i) l ->
  returns P (set_info l) (fun _ => info_ok).
Proof.
  intros Hl Hf. apply returns_bind_get. intros m Hm. apply returns_put. exists l. split; [done|]. split; [exact (Hl m Hm)|done].
Qed.

Lemma read_export_targets_reads p n : reads (read_export_targets buf p n).
Proof. unfold read_export_targets. solve_reads. Qed.

Lemma store_info_ok mds gid st addr lag num pexport :
  0 <= st -> returns info_ok (store_info buf kmalloc_ok mds gid st addr lag num pexport) (fun _ => info_ok).
Proof.
  intros Hst. unfold store_info. apply returns_bind_reads.
  { destruct (num =? 0); [auto with reads|]. apply reads_bind; [auto with reads|intros _].
    apply reads_bind; [apply read_export_targets_reads|auto with reads]. }
  intros targets. apply returns_bind_get. intros m (l & Hm & Hl & Hf).
  apply returns_bind_lift. intros l0 Hl0. rewrite Hm in Hl0. injection Hl0 as <-.
  apply returns_bind_lift. intros l1 Hw. pose proof (wr_length _ _ _ _ Hw) as Hl1.
  apply set_info_ok; [intros ? ->; lia|]. apply wr_Ret in Hw as [_ ->]. by apply Forall_insert.
Qed.

Lemma decode_mds_info_ok e : returns info_ok (decode_mds_info buf kmalloc_ok e) (fun _ => info_ok).
Proof.
  unfold decode_mds_info. do 15 (apply returns_bind_reads; [solve_reads|intros ?]).
  apply returns_bind_reads; [solve_reads|intros ?].
  apply returns_bind_reads; [solve_reads|intros [num pexport]].
  apply returns_bind_get. intros m Hm. cbn zeta.
  destruct (_ || _) eqn:E; [apply returns_ret; by intros ? ->|].
  apply orb_false_iff in E as [_ E%Z.leb_gt].
  intros s b s' Hs. rewrite <- Hs in Hm. apply store_info_ok; [lia|done].
Qed.

Lemma decode_mds_infos_ok n e : returns info_ok (decode_mds_infos buf kmalloc_ok n e) (fun _ => info_ok).
Proof.
  induction n as [|n IH]; cbn [decode_mds_infos]; [by apply returns_ret|].
  eapply returns_bind; [apply decode_mds_info_ok|done].
Qed.

Lemma repeat_dec_ret_length {S A} n (body : dec S A) s l s' :
  repeat_dec n body s = (Ret l, s') -> length l = n.
Proof.
  revert s l s'. induction n as [|n IH]; intros s l s'; cbn [repeat_dec]; [by intros [= <- _]|].
  unfold dbind at 1. destruct (body s) as [[a|e|f] s1]; [|done..].
  unfold dbind. destruct (repeat_dec n body s1) as [[k|e|f] s2] eqn:E; [|done..].
  intros [= <- _]. cbn. f_equal. by eapply IH.
Qed.

Lemma decode_data_pools_ok e : returns info_ok (decode_data_pools buf kmalloc_ok e) (fun _ => mdsmap_ok).
Proof.
  unfold decode_data_pools. do 3 (apply returns_bind_reads; [solve_reads|intros ?]).
  apply (returns_bind _ _ _ (fun l m => info_ok m /\ length l = Z.to_nat (s32 a))).
  { intros s l s' Hs E. split; [|by eapply repeat_dec_ret_length].
    eapply (returns_reads info_ok (repeat_dec (Z.to_nat (s32 a)) (ceph_decode_64 buf))); [auto with reads|done|done]. }
  intros l. apply returns_bind_reads; [solve_reads|intros cas].
  apply returns_bind_get. intros m [(k & Hm & Hk & Hf) Hl]. apply returns_put. split; [by exists k|]. by exists l.
Qed.

Lemma mdsmap_decode_body_ok e :
  returns (fun _ => True) (mdsmap_decode_body buf kmalloc_ok e) (fun _ => mdsmap_ok).
Proof.
  unfold mdsmap_decode_body. apply returns_bind_reads; [solve_reads|intros version].
  destruct (3 <? version); [by intros s a s' _|].
  do 8 (apply returns_bind_reads; [solve_reads|intros ?]).
  apply returns_bind_reads; [solve_reads|intros max_mds].
  apply (returns_bind _ _ _ (fun _ m => m_max_mds m = max_mds)); [by apply returns_put|intros _].
  apply returns_bind_reads; [solve_reads|intros _].
  apply (returns_bind _ _ _ (fun _ => info_ok)); [apply set_info_ok|intros _].
  { intros m ->. apply repeat_length. }
  { apply Forall_forall. intros i Hi%list_elem_of_In%repeat_spec. by subst. }
  apply returns_bind_reads; [solve_reads|intros n].
  apply (returns_bind _ _ _ (fun _ => info_ok)); [apply decode_mds_infos_ok|intros _]. apply decode_data_pools_ok.
Qed.

Lemma ceph_mdsmap_decode_ok e pos allocs m s :
  ceph_mdsmap_decode buf kmalloc_ok e pos allocs = (Ret m, s) -> mdsmap_ok m.
Proof.
  unfold ceph_mdsmap_decode. destruct (kmalloc_or _ _ _ _) as [[u|er|f] s1]; [|done..].
  destruct (mdsmap_decode_body buf kmalloc_ok e s1) as [[v|er|f] s2] eqn:E; [| |done].
  - intros [= <- <-]. by eapply mdsmap_decode_body_ok.
  - destruct (ceph_mdsmap_destroy (d_obj s2)); done.
Qed.

End DecodeOk.

(** ** The random choice stays in range *)
Definition is_up (i : ceph_mds_info) : Prop := 0 < state i.
#[export] Instance is_up_dec i : Decision (is_up i).
Proof. unfold is_up. apply _. Defined.

Definition up_count (l : list ceph_mds_info) : nat := length (filter is_up l).

Lemma up_count_cons i l : up_count (i :: l) = ((if (0 <? state i)%Z then 1 else 0) + up_count l)%nat.
Proof.
  unfold up_count. rewrite filter_cons. unfold is_up. destruct (Z.ltb_spec 0 (state i)); case_decide; cbn; lia.
Qed.

Lemma count_up_spec l : forall pre i c,
  i = Z.of_nat (length pre) -> count_up (length l) (pre ++ l) i c = Ret (c + Z.of_nat (up_count l)).
Proof.
  induction l as [|x l IH]; intros pre i c Hi; cbn [length count_up]; [unfold up_count; cbn; f_equal; lia|].
  rewrite rd_at by done. cbn [obind]. replace (pre ++ x :: l) with ((pre ++ [x]) ++ l) by (by rewrite <- app_assoc).
  rewrite IH by (rewrite length_app; cbn; lia). rewrite up_count_cons. f_equal. destruct (0 <? state x); lia.
Qed.

(** From position [i], with an MDS that is up at or after it. *)
Lemma next_up_spec l : forall pre i fuel,
  i = Z.of_nat (length pre) -> (0 < up_count l)%nat -> (length l < fuel)%nat ->
  exists skipped x rest, l = skipped ++ x :: rest /\ 0 < state x /\ up_count l = S (up_count rest) /\
    next_up fuel (pre ++ l) i = Ret (i + Z.of_nat (length skipped)).
Proof.
  induction l as [|x l IH]; intros pre i fuel Hi Hc Hf; [by unfold up_count in Hc; cbn in Hc; lia|].
  destruct fuel as [|fuel]; [lia|]. cbn [next_up]. rewrite rd_at by done. cbn [obind].
  rewrite up_count_cons in Hc |- *. destruct (Z.ltb_spec 0 (state x)).
  - rewrite (proj2 (Z.leb_gt _ _)) by lia. exists [], x, l. split_and!; [done|done|lia|f_equal; cbn; lia].
  - rewrite (proj2 (Z.leb_le _ _)) by lia.
    destruct (IH (pre ++ [x]) (i + 1) fuel) as (sk & y & rest & -> & Hy & Hcnt & Hn);
      [rewrite length_app; cbn; lia|lia|cbn in Hf; lia|].
    exists (x :: sk), y, rest. rewrite <- app_assoc in Hn. cbn [app] in Hn. rewrite Hn.
    split_and!; [done|done|lia|f_equal; cbn; lia].
Qed.

Lemma pick_up_spec n : forall pre l i,
  i = Z.of_nat (length pre) -> (n < up_count l)%nat ->
  exists j, pick_up n (pre ++ l) i = Ret j /\ i <= j < i + Z.of_nat (length l).
Proof.
  induction n as [|n IH]; intros pre l i Hi Hc; cbn [pick_up].
  { exists i. split; [done|]. destruct l; [unfold up_count in Hc; cbn in Hc; lia|cbn; lia]. }
  destruct (next_up_spec l pre i (S (length (pre ++ l)))) as (sk & x & rest & -> & Hx & Hcnt & Hn);
    [done|lia|rewrite length_app; lia|]. rewrite Hn. cbn [obind].
  destruct (IH (pre ++ sk ++ [x]) rest (i + Z.of_nat (length sk) + 1)) as (j & Hj & Hr);
    [rewrite !length_app; cbn; lia|lia|].
  rewrite <- !app_assoc in Hj. cbn [app] in Hj. exists j. split; [done|].
  rewrite length_app. cbn. lia.
Qed.

(** The count and the pick. *)
Lemma choose_up prandom max l :
  length l = Z.to_nat max -> 0 <= max ->
  exists i, (if max =? 0 then Ret (-1) else
      n ← count_up (Z.to_nat max) l 0 0;
      if n =? 0 then Ret (-1) else pick_up (Z.to_nat (prandom mod n)) l 0) = Ret i /\
    (i = -1 /\ Forall (fun x => ~ is_up x) l \/ 0 <= i < max).
Proof.
  intros Hl Hmax. destruct (Z.eqb_spec max 0) as [->|].
  { exists (-1). split; [done|]. left. split; [done|]. by destruct l. }
  rewrite <- Hl. pose proof (count_up_spec l [] 0 0 eq_refl) as Hc. cbn [app] in Hc. rewrite Hc. cbn [obind].
  rewrite Z.add_0_l. destruct (Z.eqb_spec (Z.of_nat (up_count l)) 0) as [E|E].
  - exists (-1). split; [done|]. left. split; [done|]. apply Forall_forall. intros x Hx Hup.
    assert (x ∈ filter is_up l) as Hin by (by apply list_elem_of_filter).
    unfold up_count in E. destruct (filter is_up l); [by apply elem_of_nil in Hin|cbn in E; lia].
  - pose proof (Z.mod_pos_bound prandom (Z.of_nat (up_count l)) ltac:(lia)) as Hr.
    destruct (pick_up_spec (Z.to_nat (prandom mod Z.of_nat (up_count l))) [] l 0 eq_refl) as (j & Hj & Hjr); [lia|].
    cbn [app] in Hj. exists j. split; [done|]. right. lia.
Qed.

(** ** Properties *)


(** ceph_mdsmap_get_random_mds: on a decoded map, whatever the random number is,
    the search ends and stays inside the array; it returns -1 exactly when no
    MDS is up, and a rank of the map otherwise, which is up when all are. *)
Theorem ceph_mdsmap_get_random_mds_in_range prandom m l :
  mdsmap_ok m -> m_info m = Some l -> 0 <= m_max_mds m ->
  exists i, ceph_mdsmap_get_random_mds prandom m = Ret i /\
    (i = -1 /\ Forall (fun x => ~ is_up x) l \/ 0 <= i < m_max_mds m) /\
    (Forall is_up l -> 0 <= i -> exists x, rd l i = Ret x /\ is_up x).
Proof.
  intros [(l0 & Hm & Hl & _) _] Hm' Hmax. rewrite Hm' in Hm. injection Hm as <-.
  unfold ceph_mdsmap_get_random_mds. rewrite Hm'. cbn [deref obind].
  assert (Hall : forall i, 0 <= i < m_max_mds m -> Forall is_up l -> exists x, rd l i = Ret x /\ is_up x).
  { intros i Hi Hf. destruct (rd_total l i) as [x Hx]; [lia|]. exists x. split; [done|].
    apply rd_elem in Hx. by eapply (proj1 (Forall_forall _ _) Hf). }
  destruct (choose_up prandom (m_max_mds m) l Hl Hmax) as (i & Hrun & Hi).
  destruct (Z.eqb_spec 1 (m_max_mds m)) as [E|E]; cbn [obind].
  - destruct (rd_total l 0) as [x Hx]; [lia|]. rewrite Hx. cbn [obind]. destruct (0 <? state x).
    + exists 0. split; [done|]. split; [right; lia|]. intros Hf _. apply Hall; [lia|done].
    + exists i. split; [done|]. split; [done|]. intros Hf H0. apply Hall; [lia|done].
  - exists i. split; [done|]. split; [done|]. intros Hf H0. apply Hall; [lia|done].
Qed.

(** A map of two ranks with one MDS, rank 1, active. *)
Definition mds_entry (num : Z) (targets : list Z) : list Z :=
  le_bytes 8 4100 ++ [4] ++ repeat 0 8 ++ le_bytes 4 1 ++ [97] ++
  le_bytes 4 1 ++ le_bytes 4 2 ++ le_bytes 4 13 ++ le_bytes 8 3 ++ repeat 0 136 ++ repeat 0 8 ++ repeat 0 4 ++
  le_bytes 4 0 ++ le_bytes 4 num ++ targets.
Definition example_mdsmap_head : list Z :=
  le_bytes 2 3 ++ le_bytes 4 9 ++ repeat 0 20 ++ le_bytes 8 (2 ^ 40) ++ le_bytes 4 2 ++ le_bytes 4 1.
Definition example_mdsmap_bytes : list Z :=
  example_mdsmap_head ++ mds_entry 1 (le_bytes 4 0) ++ le_bytes 4 1 ++ le_bytes 8 5 ++ le_bytes 8 0.

Definition example_mdsmap : ceph_mdsmap :=
  match (ceph_mdsmap_decode example_mdsmap_bytes (fun _ _ => true) (Z.of_nat (length example_mdsmap_bytes)) 0 0).1 with
  | Ret m => m
  | _ => zero_mdsmap
  end.

Lemma example_mdsmap_decodes :
  exists s, ceph_mdsmap_decode example_mdsmap_bytes (fun _ _ => true)
    (Z.of_nat (length example_mdsmap_bytes)) 0 0 = (Ret example_mdsmap, s).
Proof. eexists. vm_compute. reflexivity. Qed.


Lemma ceph_mdsmap_get_random_mds_in_range_witness :
  exists i, ceph_mdsmap_get_random_mds 12345 example_mdsmap = Ret i /\ 0 <= i < 2.
Proof.
  destruct example_mdsmap_decodes as [s Hs]. apply ceph_mdsmap_decode_ok in Hs as Hok.
  destruct (m_info example_mdsmap) as [l|] eqn:El; [|vm_compute in El; discriminate El].
  destruct (ceph_mdsmap_get_random_mds_in_range 12345 example_mdsmap l) as (i & Hr & Hi & _).
  - exact Hok.
  - exact El.
  - vm_compute. discriminate.
  - exists i. split; [exact Hr|]. destruct Hi as [[-> _]|Hi]; [vm_compute in Hr; discriminate Hr|exact Hi].
Defined.

(** ceph_mdsmap_get_random_mds counts the MDSs that are up but does not look for
    one after the last it skips: with rank 1 up and rank 0 down it returns
    rank 0, for every random number. *)
Theorem ceph_mdsmap_get_random_mds_returns_down prandom :
  ceph_mdsmap_get_random_mds prandom example_mdsmap = Ret 0 /\
  ceph_mdsmap_get_state example_mdsmap 0 = Ret CEPH_MDS_STATE_DNE.
Proof.
  split; [|vm_compute; reflexivity].
  destruct (m_info example_mdsmap) as [l|] eqn:El; [|vm_compute in El; discriminate El].
  assert (Hc : count_up 2 l 0 0 = Ret 1) by (vm_compute in El; injection El as <-; reflexivity).
  unfold ceph_mdsmap_get_random_mds. rewrite El. assert (m_max_mds example_mdsmap = 2) as -> by (vm_compute; reflexivity).
  change (1 =? 2) with false. cbn [obind deref Z.eqb]. change (Z.to_nat 2) with 2%nat. rewrite Hc. cbn [obind Z.eqb].
  by rewrite Z.mod_1_r.
Qed.

(** ceph_mdsmap_decode reads the export targets of an MDS before it checks that
    the message holds them: a map that ends with an entry that declares one
    target makes it read past the end of the message. *)
Theorem ceph_mdsmap_decode_reads_past_end :
  let bytes := example_mdsmap_head ++ mds_entry 1 [] in
  (ceph_mdsmap_decode bytes (fun _ _ => true) (Z.of_nat (length bytes)) 0 0).1 = Fault OutOfBounds.
Proof. vm_compute. reflexivity. Qed.

(** When the allocation of the array of MDSs fails, the error path frees the
    export targets of each MDS of the array that was not allocated. *)
Theorem ceph_mdsmap_decode_nomem_faults :
  (ceph_mdsmap_decode example_mdsmap_bytes (fun n _ => (n =? 0)%nat)
     (Z.of_nat (length example_mdsmap_bytes)) 0 0).1 = Fault NullPointer.
Proof. vm_compute. reflexivity. Qed.
