(* ===== verification/MsgCursor.v ===== *)
(** * The data cursor of a message

    Models the data items of a message and the cursor that walks over them
    (struct ceph_msg_data and struct ceph_msg_data_cursor of messenger.h, and
    the ceph_msg_data_* functions of net/ceph/messenger.c).  A payload is a list
    of items, each a page array, a page list or a chain of bios; the cursor
    hands out pieces, each within one page, and is advanced by what the socket
    took or gave.

    A page is known by its address; the two arrays of the C code that may be
    NULL are options.  A pointer into a list (the current item, the current
    bio, the current page of a page list) is the rest of the list from there. *)
From S2P Require Import Prelude.
From S2P Require Import FileLayout.
From S2P Require Import PageList.

Record bio_vec := BioVec { bv_page : nat; bv_len : Z; bv_offset : Z }.

(** A bio is its vector: [bi_vcnt] is the length of the list. *)
Abbreviation bio := (list bio_vec).

Inductive ceph_msg_data : Type :=
  | DataNone
  | DataPages (pages : option (list (option nat))) (length : Z) (alignment : Z)
  | DataPagelist (pagelist : option (list nat * Z))
  | DataBio (bio : list bio) (bio_length : Z).

(** The union of a cursor, by the type of the current item. *)
Inductive cursor_pos : Type :=
  | PosNone
  | PosBio (bio : list bio) (vector_index : Z) (vector_offset : Z)
  | PosPages (page_offset : Z) (page_index : Z) (page_count : Z)
  | PosPagelist (page : list nat) (offset : Z).

(** [cu_data] is the current item followed by the items behind it. *)
Record ceph_msg_data_cursor := DataCursor {
  cu_total_resid : Z;
  cu_data : list ceph_msg_data;
  cu_resid : Z;
  cu_last_piece : bool;
  cu_need_crc : bool;
  cu_pos : cursor_pos }.

Definition USHRT_MAX : Z := 65535.
Definition SIZE_MAX : Z := 2 ^ 64 - 1.

Section Cursor.
Context (PAGE_SHIFT : Z).
Let PAGE_SIZE := 2 ^ PAGE_SHIFT.

(** [x & ~PAGE_MASK] *)
Definition in_page (x : Z) : Z := Z.land x (PAGE_SIZE - 1).

(** The cursor of an item is the cursor with [resid], [last_piece] and the
    position changed. *)
Definition set_item (c : ceph_msg_data_cursor) (resid : Z) (last : bool) (pos : cursor_pos)
  : ceph_msg_data_cursor :=
  DataCursor (cu_total_resid c) (cu_data c) resid last (cu_need_crc c) pos.

(** ** Bios *)
Definition ceph_msg_data_bio_cursor_init (c : ceph_msg_data_cursor) (b : list bio) (bio_length length : Z)
  : outcome ceph_msg_data_cursor :=
  match b with
  | [] => Fault BugOn
  | v :: _ =>
      _ ← bug_on (Z.of_nat (List.length v) =? 0);
      v0 ← rd v 0;
      Ret (set_item c (Z.min length bio_length) (length <=? bv_len v0) (PosBio b 0 0))
  end.

(** The page, and [*page_offset] and [*length]. *)
Definition ceph_msg_data_bio_next (c : ceph_msg_data_cursor) : outcome (option nat * Z * Z) :=
  match cu_pos c with
  | PosBio (v :: _) index off =>
      _ ← bug_on (Z.of_nat (List.length v) <=? index);
      bv ← rd v index;
      _ ← bug_on (bv_len bv <=? off);
      let page_offset := u32 (bv_offset bv + off) in
      _ ← bug_on (PAGE_SIZE <=? page_offset);
      let len := if cu_last_piece c then cu_resid c else bv_len bv - off in
      _ ← bug_on (cu_resid c <? len);
      _ ← bug_on (PAGE_SIZE <? page_offset + len);
      Ret (Some (bv_page bv), page_offset, len)
  | _ => Fault BugOn
  end.

Definition ceph_msg_data_bio_advance (c : ceph_msg_data_cursor) (bytes : Z)
  : outcome (ceph_msg_data_cursor * bool) :=
  match cu_pos c with
  | PosBio (v :: next) index off =>
      _ ← bug_on (Z.of_nat (List.length v) <=? index);
      bv ← rd v index;
      _ ← bug_on (cu_resid c <? bytes);
      let resid := cu_resid c - bytes in
      let off := u32 (off + bytes) in
      if off <? bv_len bv then Ret (set_item c resid (cu_last_piece c) (PosBio (v :: next) index off), false)
      else
        _ ← bug_on (negb (off =? bv_len bv));
        let index := u32 (index + 1) in
        let '(b, index) := if index =? Z.of_nat (List.length v) then (next, 0) else (v :: next, index) in
        if cu_last_piece c then Ret (set_item c resid true (PosBio b index 0), true)
        else
          _ ← bug_on (resid =? 0);
          match b with
          | [] => Fault BugOn
          | v :: _ =>
              bv ← rd v index;
              Ret (set_item c resid (resid <=? bv_len bv) (PosBio b index 0), true)
          end
  | _ => Fault BugOn
  end.

(** ** Page arrays *)
Definition ceph_msg_data_pages_cursor_init (c : ceph_msg_data_cursor)
    (pages : option (list (option nat))) (data_length alignment length : Z) : outcome ceph_msg_data_cursor :=
  _ ← bug_on (bool_decide (pages = None));
  _ ← bug_on (data_length =? 0);
  let resid := Z.min length data_length in
  let page_count := calc_pages_for PAGE_SHIFT alignment data_length in
  let page_offset := in_page alignment in
  _ ← bug_on (USHRT_MAX <? page_count);
  _ ← bug_on (SIZE_MAX - page_offset <? length);
  Ret (set_item c resid (u64 (page_offset + resid) <=? PAGE_SIZE)
         (PosPages page_offset 0 (u16 page_count))).

Definition ceph_msg_data_pages_next (c : ceph_msg_data_cursor) (pages : option (list (option nat)))
  : outcome (option nat * Z * Z) :=
  match cu_pos c with
  | PosPages off index count =>
      _ ← bug_on (count <=? index);
      _ ← bug_on (PAGE_SIZE <=? off);
      let len := if cu_last_piece c then cu_resid c else PAGE_SIZE - off in
      l ← deref pages;
      p ← rd l index;
      Ret (p, off, len)
  | _ => Fault BugOn
  end.

Definition ceph_msg_data_pages_advance (c : ceph_msg_data_cursor) (bytes : Z)
  : outcome (ceph_msg_data_cursor * bool) :=
  match cu_pos c with
  | PosPages off index count =>
      _ ← bug_on (PAGE_SIZE <? off + bytes);
      let resid := u64 (cu_resid c - bytes) in
      let off := in_page (off + bytes) in
      if (bytes =? 0) || negb (off =? 0) then
        Ret (set_item c resid (cu_last_piece c) (PosPages off index count), false)
      else if resid =? 0 then Ret (set_item c resid (cu_last_piece c) (PosPages off index count), false)
      else
        _ ← bug_on (count <=? index);
        Ret (set_item c resid (resid <=? PAGE_SIZE) (PosPages off (u16 (index + 1)) count), true)
  | _ => Fault BugOn
  end.

(** ** Page lists *)
Definition ceph_msg_data_pagelist_cursor_init (c : ceph_msg_data_cursor) (pl : option (list nat * Z))
    (length : Z) : outcome ceph_msg_data_cursor :=
  match pl with
  | None => Fault BugOn
  | Some (head, pl_len) =>
      if length =? 0 then Ret c
      else
        _ ← bug_on (bool_decide (head = []));
        let resid := Z.min length pl_len in
        Ret (set_item c resid (resid <=? PAGE_SIZE) (PosPagelist head 0))
  end.

Definition ceph_msg_data_pagelist_next (c : ceph_msg_data_cursor) (pl : option (list nat * Z))
  : outcome (option nat * Z * Z) :=
  match pl, cu_pos c with
  | Some (_, pl_len), PosPagelist (page :: _) offset =>
      _ ← bug_on (negb (u64 (offset + cu_resid c) =? pl_len));
      let page_offset := in_page offset in
      let len := if cu_last_piece c then cu_resid c else PAGE_SIZE - page_offset in
      Ret (Some page, page_offset, len)
  | _, _ => Fault BugOn
  end.

Definition ceph_msg_data_pagelist_advance (c : ceph_msg_data_cursor) (pl : option (list nat * Z))
    (bytes : Z) : outcome (ceph_msg_data_cursor * bool) :=
  match pl, cu_pos c with
  | Some (_, pl_len), PosPagelist page offset =>
      _ ← bug_on (negb (u64 (offset + cu_resid c) =? pl_len));
      _ ← bug_on (PAGE_SIZE <? in_page offset + bytes);
      let resid := u64 (cu_resid c - bytes) in
      let offset := u64 (offset + bytes) in
      if (bytes =? 0) || negb (in_page offset =? 0) then
        Ret (set_item c resid (cu_last_piece c) (PosPagelist page offset), false)
      else if resid =? 0 then Ret (set_item c resid (cu_last_piece c) (PosPagelist page offset), false)
      else
        match page with
        | _ :: ((_ :: _) as next) => Ret (set_item c resid (resid <=? PAGE_SIZE) (PosPagelist next offset), true)
        | _ => Fault BugOn
        end
  | _, _ => Fault BugOn
  end.

(** ** The cursor of the whole payload *)
Definition set_need_crc (c : ceph_msg_data_cursor) (b : bool) : ceph_msg_data_cursor :=
  DataCursor (cu_total_resid c) (cu_data c) (cu_resid c) (cu_last_piece c) b (cu_pos c).

Definition __ceph_msg_data_cursor_init (c : ceph_msg_data_cursor) : outcome ceph_msg_data_cursor :=
  let length := cu_total_resid c in
  c ← match cu_data c with
      | DataPagelist pl :: _ => ceph_msg_data_pagelist_cursor_init c pl length
      | DataPages pages dlen align :: _ => ceph_msg_data_pages_cursor_init c pages dlen align length
      | DataBio b blen :: _ => ceph_msg_data_bio_cursor_init c b blen length
      | DataNone :: _ => Ret c
      | [] => Fault NullPointer
      end;
  Ret (set_need_crc c true).

(** The cursor [c] of a message whose items are [data], [data_length] bytes. *)
Definition ceph_msg_data_cursor_init (c : ceph_msg_data_cursor) (data : list ceph_msg_data)
    (data_length length : Z) : outcome ceph_msg_data_cursor :=
  _ ← bug_on (length =? 0);
  _ ← bug_on (data_length <? length);
  _ ← bug_on (bool_decide (data = []));
  __ceph_msg_data_cursor_init
    (DataCursor length data (cu_resid c) (cu_last_piece c) (cu_need_crc c) (cu_pos c)).

(** The page, its [*page_offset] and [*length], and [*last_piece]. *)
Definition ceph_msg_data_next (c : ceph_msg_data_cursor) : outcome (nat * Z * Z * bool) :=
  '(page, page_offset, len) ←
    match cu_data c with
    | DataPagelist pl :: _ => ceph_msg_data_pagelist_next c pl
    | DataPages pages _ _ :: _ => ceph_msg_data_pages_next c pages
    | DataBio _ _ :: _ => ceph_msg_data_bio_next c
    | DataNone :: _ => Ret (None, 0, 0)
    | [] => Fault NullPointer
    end;
  match page with
  | None => Fault BugOn
  | Some page =>
      _ ← bug_on (PAGE_SIZE <? u64 (page_offset + len));
      _ ← bug_on (len =? 0);
      Ret (page, page_offset, len, cu_last_piece c)
  end.

(** The end of ceph_msg_data_advance: the next item, when this one is used up. *)
Definition advance_item (c : ceph_msg_data_cursor) (new_piece : bool)
  : outcome (ceph_msg_data_cursor * bool) :=
  if (cu_resid c =? 0) && negb (cu_total_resid c =? 0) then
    match cu_data c with
    | _ :: ((_ :: _) as next) =>
        c ← __ceph_msg_data_cursor_init
              (DataCursor (cu_total_resid c) next (cu_resid c) (cu_last_piece c) (cu_need_crc c) (cu_pos c));
        Ret (c, true)
    | _ => Fault BugOn
    end
  else Ret (c, new_piece).

Definition ceph_msg_data_advance (c : ceph_msg_data_cursor) (bytes : Z)
  : outcome (ceph_msg_data_cursor * bool) :=
  _ ← bug_on (cu_resid c <? bytes);
  '(c, new_piece) ←
    match cu_data c with
    | DataPagelist pl :: _ => ceph_msg_data_pagelist_advance c pl bytes
    | DataPages _ _ _ :: _ => ceph_msg_data_pages_advance c bytes
    | DataBio _ _ :: _ => ceph_msg_data_bio_advance c bytes
    | DataNone :: _ => Fault BugOn
    | [] => Fault NullPointer
    end;
  let c := DataCursor (u64 (cu_total_resid c - bytes)) (cu_data c) (cu_resid c) (cu_last_piece c)
             (cu_need_crc c) (cu_pos c) in
  '(c, new_piece) ← advance_item c new_piece;
  Ret (set_need_crc c new_piece, new_piece).

(** ** What the cursor should hand out

    A segment is a stretch of a page: address, offset and length.  An item is a
    sequence of segments; the pieces of [resid] bytes from offset [off] in the
    first segment on are the segments cut at both ends. *)
Definition seg : Type := nat * Z * Z.

Fixpoint pieces (segs : list seg) (off resid : Z) : list seg :=
  match segs with
  | [] => []
  | (p, b, l) :: segs =>
      if resid <=? l - off then [(p, b + off, resid)]
      else (p, b + off, l - off) :: pieces segs 0 (resid - (l - off))
  end.

Definition page_seg (p : nat) : seg := (p, 0, PAGE_SIZE).
Definition vec_seg (v : bio_vec) : seg := (bv_page v, bv_offset v, bv_len v).
Definition seg_len (s : seg) : Z := s.2.
Definition segs_len (l : list seg) : Z := foldr (fun s n => seg_len s + n) 0 l.

Definition item_segs (d : ceph_msg_data) : list seg :=
  match d with
  | DataPages (Some pages) _ _ => page_seg <$> omap id pages
  | DataPagelist (Some (pages, _)) => page_seg <$> pages
  | DataBio b _ => vec_seg <$> concat b
  | _ => []
  end.

Definition item_off (d : ceph_msg_data) : Z :=
  match d with
  | DataPages _ _ alignment => alignment
  | _ => 0
  end.

Definition item_len (d : ceph_msg_data) : Z :=
  match d with
  | DataPages _ len _ => len
  | DataPagelist (Some (_, len)) => len
  | DataBio _ len => len
  | _ => 0
  end.

(** The pieces of the first [n] bytes of a payload. *)
Fixpoint payload_pieces (data : list ceph_msg_data) (n : Z) : list seg :=
  match data with
  | [] => []
  | d :: data =>
      if n <=? 0 then []
      else pieces (item_segs d) (item_off d) (Z.min n (item_len d)) ++ payload_pieces data (n - item_len d)
  end.

(** A segment lies in its page. *)
Definition seg_ok (s : seg) : Prop := let '(_, b, l) := s in 0 <= b /\ 0 < l /\ b + l <= PAGE_SIZE.

(** An item whose memory holds the bytes it announces. *)
Definition item_ok (d : ceph_msg_data) : Prop :=
  0 < item_len d /\ item_off d + item_len d <= segs_len (item_segs d) /\ Forall seg_ok (item_segs d) /\
  match d with
  | DataPages (Some pages) len align =>
      0 <= align < PAGE_SIZE /\ Forall is_Some pages /\ align + len <= USHRT_MAX * PAGE_SIZE
  | DataPagelist _ => True
  | DataBio b _ => Forall (fun v => v <> [] /\ Z.of_nat (length v) < 2 ^ 16) b
  | _ => False
  end.

(** What the code asks of an item that is met with [n] bytes of the payload to
    go: a page list is used up, and a bio that is not the last item does not
    fit in its first vector. *)
Definition item_fits (d : ceph_msg_data) (n : Z) : Prop :=
  match d with
  | DataPagelist _ => item_len d <= n
  | DataBio ((v :: _) :: _) len => n <= len \/ bv_len v < len
  | _ => True
  end.

Fixpoint payload_ok (data : list ceph_msg_data) (n : Z) : Prop :=
  match data with
  | [] => n <= 0
  | d :: data => 0 < n -> item_ok d /\ item_fits d n /\ payload_ok data (n - item_len d)
  end.

(** ** The invariant of a cursor *)

(** The position stands at offset [off] of the first of the segments [segs]. *)
Definition pos_ok (d : ceph_msg_data) (pos : cursor_pos) (resid : Z) (segs : list seg) (off : Z) : Prop :=
  match d, pos with
  | DataPages (Some pages) _ _, PosPages po index count =>
      po = off /\ Forall is_Some pages /\ segs = page_seg <$> omap id (drop (Z.to_nat index) pages) /\
      0 <= index < count /\ count <= USHRT_MAX /\ index * PAGE_SIZE + off + resid <= count * PAGE_SIZE
  | DataPagelist (Some (_, len)), PosPagelist page offset =>
      off = offset mod PAGE_SIZE /\ 0 <= offset /\ segs = page_seg <$> page /\ offset + resid = len /\ len < 2 ^ 63
  | DataBio _ _, PosBio (v :: next) index o =>
      o = off /\ 0 <= index < Z.of_nat (length v) /\
      segs = vec_seg <$> (drop (Z.to_nat index) v ++ concat next) /\
      Forall (fun v => v <> [] /\ Z.of_nat (length v) < 2 ^ 16) (v :: next)
  | _, _ => False
  end.

(** The cursor [c] has the pieces [todo] to go. *)
Inductive cursor_ok (c : ceph_msg_data_cursor) (todo : list seg) : Prop :=
  | cursor_done : cu_resid c = 0 -> cu_total_resid c = 0 -> todo = [] -> cursor_ok c todo
  | cursor_at d rest s segs off :
      cu_data c = d :: rest ->
      0 < cu_resid c <= cu_total_resid c -> cu_total_resid c + PAGE_SIZE < 2 ^ 63 ->
      Forall seg_ok (s :: segs) -> 0 <= off < seg_len s -> off + cu_resid c <= segs_len (s :: segs) ->
      pos_ok d (cu_pos c) (cu_resid c) (s :: segs) off ->
      cu_last_piece c = (cu_resid c <=? seg_len s - off) ->
      payload_ok rest (cu_total_resid c - cu_resid c) ->
      todo = pieces (s :: segs) off (cu_resid c) ++ payload_pieces rest (cu_total_resid c - cu_resid c) ->
      cursor_ok c todo.

Hypothesis Hshift : 0 <= PAGE_SHIFT < 31.

#[local] Ltac cbn_cursor :=
  cbn [set_need_crc set_item cu_total_resid cu_data cu_resid cu_last_piece cu_need_crc cu_pos].

Lemma PAGE_SIZE_range : 0 < PAGE_SIZE <= 2 ^ 30.
Proof. split; [apply Z.pow_pos_nonneg; lia|apply Z.pow_le_mono_r; lia]. Qed.

Lemma in_page_mod x : in_page x = x mod PAGE_SIZE.
Proof.
  unfold in_page, PAGE_SIZE. rewrite <- Z.land_ones by lia. by rewrite Z.ones_equiv.
Qed.

Lemma seg_len_eq p b l : seg_len (p, b, l) = l.
Proof. done. Qed.

Lemma segs_len_app l k : segs_len (l ++ k) = segs_len l + segs_len k.
Proof. unfold segs_len. induction l as [|s l IH]; cbn; [done|]. rewrite IH. lia. Qed.

Lemma segs_len_pages l : segs_len (page_seg <$> l) = PAGE_SIZE * Z.of_nat (length l).
Proof. unfold segs_len. induction l as [|s l IH]; cbn [foldr fmap list_fmap length] in *; [lia|].
  rewrite IH. cbn. lia. Qed.

(** The first piece, and what is left after a part or the whole of it. *)
Lemma pieces_cons s segs off resid :
  pieces (s :: segs) off resid =
    (s.1.1, s.1.2 + off, Z.min resid (seg_len s - off)) ::
    (if resid <=? seg_len s - off then [] else pieces segs 0 (resid - (seg_len s - off))).
Proof.
  destruct s as [[p b] l]. cbn. case_Zb.
  - by rewrite Z.min_l by lia.
  - by rewrite Z.min_r by lia.
Qed.

Lemma omap_id_drop {A} (l : list (option A)) n :
  Forall is_Some l -> omap id (drop n l) = drop n (omap id l).
Proof.
  revert n. induction l as [|[a|] l IH]; intros [|n] Hl; try done; apply Forall_cons in Hl as [Hs Hl].
  - by apply (IH n).
  - by destruct Hs.
Qed.

Lemma omap_id_lookup {A} (l : list (option A)) i a :
  Forall is_Some l -> omap id l !! i = Some a -> l !! i = Some (Some a).
Proof.
  revert i. induction l as [|[b|] l IH]; intros [|i] Hl; try done; apply Forall_cons in Hl as [Hs Hl].
  - cbn. naive_solver.
  - by apply (IH i).
  - by destruct Hs.
  - by destruct Hs.
Qed.

Lemma pages_segs_cons pages index s segs :
  Forall is_Some pages -> 0 <= index ->
  s :: segs = page_seg <$> omap id (drop (Z.to_nat index) pages) ->
  exists p, rd pages index = Ret (Some p) /\ s = page_seg p /\
    segs = page_seg <$> omap id (drop (Z.to_nat (index + 1)) pages).
Proof.
  intros Hp Hi Hs. rewrite omap_id_drop in * by done.
  replace (Z.to_nat (index + 1)) with (Z.to_nat index + 1)%nat by lia. rewrite <- drop_drop.
  destruct (drop (Z.to_nat index) (omap id pages)) as [|p l] eqn:E; [done|].
  cbn in Hs. injection Hs as -> ->. exists p. split; [|done].
  apply rd_Ret. split; [done|]. apply omap_id_lookup; [done|].
  rewrite <- (Nat.add_0_r (Z.to_nat index)), <- lookup_drop, E. done.
Qed.

Lemma bio_segs_cons v next index s segs :
  0 <= index < Z.of_nat (length v) -> s :: segs = vec_seg <$> (drop (Z.to_nat index) v ++ concat next) ->
  exists bv, rd v index = Ret bv /\ s = vec_seg bv /\
    segs = vec_seg <$> (drop (Z.to_nat (index + 1)) v ++ concat next).
Proof.
  intros Hi Hs. replace (Z.to_nat (index + 1)) with (S (Z.to_nat index)) by lia.
  destruct (lookup_lt_is_Some_2 v (Z.to_nat index)) as [bv Hbv]; [lia|].
  rewrite (drop_S _ _ _ Hbv) in Hs. cbn in Hs. injection Hs as -> ->. exists bv.
  split; [|done]. apply rd_Ret. split; [lia|done].
Qed.

(** The item's function returns the first piece. *)
Lemma item_next_ok c d s segs off :
  Forall seg_ok (s :: segs) -> 0 < cu_resid c -> cu_resid c < 2 ^ 63 -> 0 <= off < seg_len s ->
  pos_ok d (cu_pos c) (cu_resid c) (s :: segs) off ->
  cu_last_piece c = (cu_resid c <=? seg_len s - off) ->
  match d with
  | DataPagelist pl => ceph_msg_data_pagelist_next c pl
  | DataPages pages _ _ => ceph_msg_data_pages_next c pages
  | DataBio _ _ => ceph_msg_data_bio_next c
  | DataNone => Ret (None, 0, 0)
  end = Ret (Some s.1.1, s.1.2 + off, Z.min (cu_resid c) (seg_len s - off)).
Proof.
  intros [Hs _]%Forall_cons Hr Hr2 Ho Hpos Hlast. pose proof PAGE_SIZE_range.
  destruct d as [|[pages|] len al|[[pl len]|]|b len]; cbn [pos_ok] in Hpos; try done.
  - unfold ceph_msg_data_pages_next. destruct (cu_pos c) as [| |po index count|]; try done.
    destruct Hpos as (-> & Hp & Hsegs & Hi & Hc & Hcov).
    destruct (pages_segs_cons pages index s segs) as (p & Hrd & -> & _); [done|lia|done|].
    unfold page_seg, seg_len in *; cbn in Ho, Hs, Hlast |- *. unfold bug_on.
    repeat case_Zb; try lia; cbn; rewrite Hrd; cbn; rewrite Hlast; repeat f_equal; lia.
  - unfold ceph_msg_data_pagelist_next. destruct (cu_pos c) as [| | |page offset]; try done.
    destruct Hpos as (-> & Ho2 & Hsegs & Heq & Hlen). destruct page as [|p page]; [done|].
    cbn in Hsegs. injection Hsegs as -> ->. cbn in Ho, Hs, Hlast |- *. rewrite in_page_mod.
    unfold bug_on. rewrite u64_small by lia. rewrite Heq, Z.eqb_refl. cbn.
    case_Zb; rewrite Hlast; repeat f_equal; lia.
  - unfold ceph_msg_data_bio_next. destruct (cu_pos c) as [|[|v next] index o| |]; try done.
    destruct Hpos as (-> & Hi & Hsegs & Hv).
    destruct (bio_segs_cons v next index s segs) as (bv & Hrd & -> & _); [done|done|].
    unfold vec_seg, seg_len in *; cbn in Ho, Hs, Hlast |- *. unfold bug_on.
    rewrite (proj2 (Z.leb_gt _ _)), bind_Ret_eq, Hrd by lia. cbn. rewrite u32_small by lia.
    destruct (Z.leb_spec (cu_resid c) (bv_len bv - off)); rewrite Hlast.
    all: repeat (case_Zb; cbn; try lia); repeat f_equal; lia.
Qed.

(** What is left of an item after [n] bytes of its first piece: nothing, the
    rest of the piece, or the segments behind it. *)
Inductive advanced (d : ceph_msg_data) (c : ceph_msg_data_cursor) (s : seg) (segs : list seg) (off n : Z)
    (c' : ceph_msg_data_cursor) : bool -> Prop :=
  | advanced_within :
      n < Z.min (cu_resid c) (seg_len s - off) ->
      pos_ok d (cu_pos c') (cu_resid c') (s :: segs) (off + n) ->
      cu_last_piece c' = (cu_resid c' <=? seg_len s - (off + n)) ->
      advanced d c s segs off n c' false
  | advanced_next s' segs' :
      n = seg_len s - off -> n < cu_resid c -> segs = s' :: segs' ->
      pos_ok d (cu_pos c') (cu_resid c') segs 0 ->
      cu_last_piece c' = (cu_resid c' <=? seg_len s') ->
      advanced d c s segs off n c' true
  | advanced_end b : n = cu_resid c -> advanced d c s segs off n c' b.

Lemma pages_advance_ok c pages len al s segs off n :
  Forall seg_ok (s :: segs) -> 0 < cu_resid c < 2 ^ 63 -> 0 <= off < seg_len s ->
  off + cu_resid c <= segs_len (s :: segs) ->
  pos_ok (DataPages (Some pages) len al) (cu_pos c) (cu_resid c) (s :: segs) off ->
  cu_last_piece c = (cu_resid c <=? seg_len s - off) ->
  0 < n <= Z.min (cu_resid c) (seg_len s - off) ->
  exists resid last pos new,
    ceph_msg_data_pages_advance c n = Ret (set_item c resid last pos, new) /\ resid = cu_resid c - n /\
    advanced (DataPages (Some pages) len al) c s segs off n (set_item c resid last pos) new.
Proof.
  intros [Hs Hsegs]%Forall_cons Hr Ho Htot Hpos Hlast Hn. pose proof PAGE_SIZE_range. cbn [pos_ok] in Hpos.
  unfold ceph_msg_data_pages_advance. destruct (cu_pos c) as [| |po index count|]; try done.
  destruct Hpos as (-> & Hp & Hsg & Hi & Hc & Hcov).
  destruct (pages_segs_cons pages index s segs) as (p & Hrd & -> & Hsg'); [done|lia|done|].
  unfold page_seg, seg_len in Ho, Hs, Hlast, Hn; cbn in Ho, Hs, Hlast, Hn. unfold bug_on.
  rewrite (proj2 (Z.ltb_ge _ _)), bind_Ret_eq by lia. rewrite u64_small, in_page_mod by lia.
  destruct (Z.eqb_spec n 0); [lia|]. cbn [orb].
  destruct (decide (off + n = PAGE_SIZE)) as [E|E].
  + rewrite E, Z.mod_same, Z.eqb_refl by lia. cbn [negb].
    destruct (Z.eqb_spec (cu_resid c - n) 0).
    * do 4 eexists. split; [done|]. split; [done|]. apply advanced_end. lia.
    * rewrite (proj2 (Z.leb_gt _ _)), bind_Ret_eq by lia. rewrite u16_small by (unfold USHRT_MAX in *; nia).
      do 4 eexists. split; [done|]. split; [done|].
      destruct segs as [|s' segs]; [unfold segs_len, seg_len in Htot; cbn in Htot; lia|].
      assert (s'.2 = PAGE_SIZE) as Hs'.
      { destruct (omap id (drop (Z.to_nat (index + 1)) pages)); [done|]. cbn in Hsg'. by injection Hsg' as -> _. }
      eapply advanced_next; [unfold page_seg, seg_len; cbn; lia|lia|done| |unfold seg_len; by rewrite Hs'].
      cbn. split; [done|]. split; [done|]. split; [done|]. nia.
  + rewrite Z.mod_small by lia. destruct (Z.eqb_spec (off + n) 0); [lia|]. cbn [negb].
    do 4 eexists. split; [done|]. split; [done|]. destruct (decide (n = cu_resid c)); [by apply advanced_end|].
    apply advanced_within; unfold page_seg, seg_len; cbn; [lia|repeat split; try done; lia|].
    rewrite Hlast. repeat case_Zb; try done; lia.
Qed.

Lemma pagelist_advance_ok c pl len s segs off n :
  Forall seg_ok (s :: segs) -> 0 < cu_resid c < 2 ^ 63 -> 0 <= off < seg_len s ->
  off + cu_resid c <= segs_len (s :: segs) ->
  pos_ok (DataPagelist (Some (pl, len))) (cu_pos c) (cu_resid c) (s :: segs) off ->
  cu_last_piece c = (cu_resid c <=? seg_len s - off) ->
  0 < n <= Z.min (cu_resid c) (seg_len s - off) ->
  exists resid last pos new,
    ceph_msg_data_pagelist_advance c (Some (pl, len)) n = Ret (set_item c resid last pos, new) /\ resid = cu_resid c - n /\
    advanced (DataPagelist (Some (pl, len))) c s segs off n (set_item c resid last pos) new.
Proof.
  intros [Hs Hsegs]%Forall_cons Hr Ho Htot Hpos Hlast Hn. pose proof PAGE_SIZE_range. cbn [pos_ok] in Hpos.
  unfold ceph_msg_data_pagelist_advance. destruct (cu_pos c) as [| | |page offset]; try done.
  destruct Hpos as (-> & Ho2 & Hsg & Heq & Hlen). destruct page as [|p page]; [done|].
  cbn in Hsg. injection Hsg as -> ->. unfold page_seg, seg_len in Ho, Hs, Hlast, Hn; cbn in Ho, Hs, Hlast, Hn.
  unfold bug_on. rewrite !in_page_mod. rewrite !u64_small by lia. rewrite Heq, Z.eqb_refl. cbn [negb].
  rewrite bind_Ret_eq, (proj2 (Z.ltb_ge _ _)), bind_Ret_eq by lia.
  destruct (Z.eqb_spec n 0); [lia|]. cbn [orb].
  assert ((offset + n) mod PAGE_SIZE = (offset mod PAGE_SIZE + n) mod PAGE_SIZE) as -> by
    (rewrite Zplus_mod_idemp_l; done).
  destruct (decide (offset mod PAGE_SIZE + n = PAGE_SIZE)) as [E|E].
  + rewrite E, Z.mod_same, Z.eqb_refl by lia. cbn [negb].
    destruct (Z.eqb_spec (cu_resid c - n) 0).
    * do 4 eexists. split; [done|]. split; [done|]. apply advanced_end. lia.
    * destruct page as [|p' page]; [unfold segs_len, seg_len in Htot; cbn in Htot; lia|].
      do 4 eexists. split; [done|]. split; [done|]. cbn [fmap list_fmap] in *.
      eapply advanced_next; [unfold page_seg, seg_len; cbn; lia|lia|done| |done].
      cbn. split; [|split; [lia|split; [reflexivity|split; [lia|lia]]]].
      rewrite <- Zplus_mod_idemp_l, E, Z.mod_same by lia. done.
  + rewrite Z.mod_small by lia. destruct (Z.eqb_spec (offset mod PAGE_SIZE + n) 0); [lia|]. cbn [negb].
    do 4 eexists. split; [done|]. split; [done|]. destruct (decide (n = cu_resid c)); [by apply advanced_end|].
    apply advanced_within; unfold page_seg, seg_len; cbn; [lia| |].
    * split; [rewrite <- Zplus_mod_idemp_l, (Z.mod_small (offset mod PAGE_SIZE + n)) by lia; done|].
      split; [lia|]. split; [done|]. split; lia.
    * rewrite Hlast. repeat case_Zb; try done; lia.
Qed.

Lemma bio_advance_ok c b len s segs off n :
  Forall seg_ok (s :: segs) -> 0 < cu_resid c < 2 ^ 63 -> 0 <= off < seg_len s ->
  off + cu_resid c <= segs_len (s :: segs) ->
  pos_ok (DataBio b len) (cu_pos c) (cu_resid c) (s :: segs) off ->
  cu_last_piece c = (cu_resid c <=? seg_len s - off) ->
  0 < n <= Z.min (cu_resid c) (seg_len s - off) ->
  exists resid last pos new,
    ceph_msg_data_bio_advance c n = Ret (set_item c resid last pos, new) /\ resid = cu_resid c - n /\
    advanced (DataBio b len) c s segs off n (set_item c resid last pos) new.
Proof.
  intros [Hs Hsegs]%Forall_cons Hr Ho Htot Hpos Hlast Hn. pose proof PAGE_SIZE_range. cbn [pos_ok] in Hpos.
  unfold ceph_msg_data_bio_advance. destruct (cu_pos c) as [|[|v next] index o| |]; try done.
  destruct Hpos as (-> & Hi & Hsg & Hv).
  destruct (bio_segs_cons v next index s segs) as (bv & Hrd & -> & Hsg'); [done|done|].
  unfold vec_seg, seg_len in Ho, Hs, Hlast, Hn; cbn in Ho, Hs, Hlast, Hn. unfold bug_on.
  rewrite (proj2 (Z.leb_gt _ _)), bind_Ret_eq, Hrd, bind_Ret_eq, (proj2 (Z.ltb_ge _ _)), bind_Ret_eq by lia.
  pose proof Hv as [[Hne Hvl] Hnext]%Forall_cons.
  rewrite !u32_small by lia. destruct (Z.ltb_spec (off + n) (bv_len bv)).
  { do 4 eexists. split; [done|]. split; [done|]. destruct (decide (n = cu_resid c)); [by apply advanced_end|].
    apply advanced_within; unfold vec_seg, seg_len; cbn; [lia|repeat split; (done || lia)|].
    rewrite Hlast. repeat case_Zb; try done; lia. }
  assert (off + n = bv_len bv) as E by lia. rewrite E, Z.eqb_refl. cbn [negb]. rewrite bind_Ret_eq.
  destruct (Z.leb_spec (cu_resid c) (bv_len bv - off)) as [Hl|Hl]; rewrite Hlast.
  { destruct (index + 1 =? Z.of_nat (length v)); do 4 eexists; (split; [done|]); (split; [done|]);
      apply advanced_end; lia. }
  destruct (Z.eqb_spec (cu_resid c - n) 0) as [?|Hz]; [lia|].
  destruct segs as [|s' segs]; [unfold segs_len, seg_len in Htot; cbn in Htot; lia|].
  assert (Hpos' : exists v' next' index', (if index + 1 =? Z.of_nat (length v) then (next, 0) else (v :: next, index + 1)) =
    (v' :: next', index') /\ 0 <= index' < Z.of_nat (length v') /\
    s' :: segs = vec_seg <$> (drop (Z.to_nat index') v' ++ concat next') /\
    Forall (fun v => v <> [] /\ Z.of_nat (length v) < 2 ^ 16) (v' :: next')).
  { destruct (Z.eqb_spec (index + 1) (Z.of_nat (length v))) as [Ei|Ei].
    - rewrite Ei, Nat2Z.id, drop_all in Hsg'. destruct next as [|v' next']; [done|].
      exists v', next', 0. apply Forall_cons in Hnext as Hn'. destruct Hn' as [[Hv' ?] _].
      destruct v' as [|x v']; [done|]. repeat split; try done; cbn; lia.
    - exists v, next, (index + 1). repeat split; try done; lia. }
  destruct Hpos' as (v' & next' & index' & -> & Hi' & Hsg2 & Hv2). cbn.
  destruct (bio_segs_cons v' next' index' s' segs) as (bv' & Hrd' & -> & _); [done|done|].
  rewrite Hrd'. cbn. do 4 eexists. split; [done|]. split; [done|].
  eapply advanced_next; [unfold vec_seg, seg_len; cbn; lia|lia|done| |done]. cbn.
  repeat split; (done || lia).
Qed.

Lemma item_advance_ok c d s segs off n :
  Forall seg_ok (s :: segs) -> 0 < cu_resid c < 2 ^ 63 -> 0 <= off < seg_len s ->
  off + cu_resid c <= segs_len (s :: segs) ->
  pos_ok d (cu_pos c) (cu_resid c) (s :: segs) off ->
  cu_last_piece c = (cu_resid c <=? seg_len s - off) ->
  0 < n <= Z.min (cu_resid c) (seg_len s - off) ->
  exists resid last pos new,
    match d with
    | DataPagelist pl => ceph_msg_data_pagelist_advance c pl n
    | DataPages _ _ _ => ceph_msg_data_pages_advance c n
    | DataBio _ _ => ceph_msg_data_bio_advance c n
    | DataNone => Fault BugOn
    end = Ret (set_item c resid last pos, new) /\ resid = cu_resid c - n /\
    advanced d c s segs off n (set_item c resid last pos) new.
Proof.
  intros. destruct d as [|[pages|] len al|[[pl len]|]|b len]; try done;
    [apply pages_advance_ok|apply pagelist_advance_ok|apply bio_advance_ok]; done.
Qed.

Lemma payload_nonpos data n : n <= 0 -> payload_ok data n /\ payload_pieces data n = [].
Proof. intros. destruct data as [|d data]; cbn; [done|]. case_Zb; [split; [lia|done]|lia]. Qed.

(** After the min of an item, what remains of the payload. *)
Lemma payload_rest data n m :
  payload_ok data (n - m) ->
  payload_ok data (n - Z.min n m) /\ payload_pieces data (n - Z.min n m) = payload_pieces data (n - m).
Proof.
  intros H. destruct (Z.le_gt_cases n m).
  - rewrite Z.min_l by lia. destruct (payload_nonpos data (n - n)), (payload_nonpos data (n - m)); try lia.
    split; [done|congruence].
  - by rewrite Z.min_r by lia.
Qed.

(** What __ceph_msg_data_cursor_init stores for one item. *)
Lemma item_init_ok c d n :
  item_ok d -> item_fits d n -> 0 < n -> n + PAGE_SIZE < 2 ^ 63 ->
  exists last pos s segs,
    match d with
    | DataPagelist pl => ceph_msg_data_pagelist_cursor_init c pl n
    | DataPages pages dlen align => ceph_msg_data_pages_cursor_init c pages dlen align n
    | DataBio b blen => ceph_msg_data_bio_cursor_init c b blen n
    | DataNone => Ret c
    end = Ret (set_item c (Z.min n (item_len d)) last pos) /\
    item_segs d = s :: segs /\ 0 <= item_off d < seg_len s /\
    pos_ok d pos (Z.min n (item_len d)) (s :: segs) (item_off d) /\
    last = (Z.min n (item_len d) <=? seg_len s - item_off d).
Proof.
  intros (Hlen & Htot & Hsegs & Hd) Hfits Hn Hn2. pose proof PAGE_SIZE_range.
  destruct (item_segs d) as [|s segs] eqn:Es.
  { exfalso. unfold segs_len in Htot. cbn in Htot. destruct d as [|[]| |]; cbn in *; lia || done. }
  destruct d as [|[pages|] len al|[[pl len]|]|b len]; try done; cbn [item_len item_off item_segs item_fits] in *.
  - destruct Hd as (Hal & Hp & Hmax). unfold ceph_msg_data_pages_cursor_init.
    assert (s.2 = PAGE_SIZE) by (destruct (omap id pages); [done|cbn in Es; by injection Es as <- _]).
    rewrite calc_pages_for_counts by (fold PAGE_SIZE; unfold USHRT_MAX in *; nia). fold PAGE_SIZE.
    rewrite (Z.div_small al), in_page_mod, Z.mod_small by lia.
    set (count := (al + len - 1) / PAGE_SIZE - 0 + 1).
    assert (al + len <= count * PAGE_SIZE).
    { pose proof (Z.mul_succ_div_gt (al + len - 1) PAGE_SIZE). unfold count. lia. }
    assert (0 < count <= USHRT_MAX).
    { split; [nia|]. enough (al + len - 1 < USHRT_MAX * PAGE_SIZE).
      { assert ((al + len - 1) / PAGE_SIZE < USHRT_MAX) by (apply Z.div_lt_upper_bound; lia). unfold count. lia. }
      lia. }
    unfold bug_on. rewrite bool_decide_eq_false_2 by done. rewrite bind_Ret_eq.
    rewrite (proj2 (Z.eqb_neq _ _)), bind_Ret_eq, (proj2 (Z.ltb_ge _ _)), bind_Ret_eq by lia.
    rewrite (proj2 (Z.ltb_ge _ _)), bind_Ret_eq by (unfold SIZE_MAX; lia).
    rewrite u64_small, u16_small by (unfold USHRT_MAX in *; lia).
    do 4 eexists. split; [done|]. split; [done|]. unfold seg_len. cbn.
    split; [lia|]. split; [repeat split; (done || lia)|]. repeat case_Zb; try done; lia.
  - unfold ceph_msg_data_pagelist_cursor_init, bug_on.
    rewrite (proj2 (Z.eqb_neq _ _)) by lia. destruct pl as [|p pl]; [done|].
    cbn in Es. injection Es as <- <-. rewrite bool_decide_eq_false_2, bind_Ret_eq by done.
    do 4 eexists. split; [done|]. split; [done|]. unfold page_seg, seg_len. cbn.
    split; [lia|]. rewrite Z.mod_0_l, Z.sub_0_r by lia. repeat split; (done || lia).
  - destruct b as [|v next]; [done|]. apply Forall_cons in Hd as Hd'. destruct Hd' as [[Hv Hvl] _].
    destruct v as [|v0 v]; [done|]. cbn in Es. injection Es as <- <-.
    unfold ceph_msg_data_bio_cursor_init, bug_on.
    rewrite (proj2 (Z.eqb_neq _ _)), bind_Ret_eq by (cbn; lia). cbn.
    apply Forall_cons in Hsegs as [Hs _]. cbn in Hs, Hfits.
    do 4 eexists. split; [done|]. split; [done|]. unfold vec_seg, seg_len. cbn.
    split; [lia|]. split; [repeat split; (done || lia)|]. repeat case_Zb; try done; lia.
Qed.

Lemma cursor_init_item c d rest n :
  payload_ok (d :: rest) n -> 0 < n -> n + PAGE_SIZE < 2 ^ 63 ->
  cu_total_resid c = n -> cu_data c = d :: rest ->
  exists c', __ceph_msg_data_cursor_init c = Ret c' /\ cu_total_resid c' = n /\ cu_need_crc c' = true /\
    cursor_ok c' (payload_pieces (d :: rest) n).
Proof.
  intros Hok Hn Hn2 Ht Hd. destruct (Hok Hn) as (Hi & Hf & Hr).
  unfold __ceph_msg_data_cursor_init. rewrite Hd, Ht.
  destruct (item_init_ok c d n) as (last & pos & s & segs & Hc & Hs & Ho & Hp & Hl); [done..|].
  destruct (payload_rest rest n (item_len d) Hr) as [Hr' Hpp]. destruct Hi as (Hlen & Htot & Hsegs & _).
  eexists. split; [by destruct d; rewrite Hc|]. split; [done|]. split; [done|].
  rewrite Hs in Hsegs, Htot.
  apply (cursor_at _ _ d rest s segs (item_off d));
    cbn_cursor; rewrite ?Ht; try done; try lia.
  cbn [payload_pieces]. rewrite (proj2 (Z.leb_gt _ _)), Hs, Hpp by lia. done.
Qed.

(** A cursor with pieces to go hands out the first one, which lies in its page. *)
Lemma data_next_ok c q todo :
  cursor_ok c (q :: todo) ->
  ceph_msg_data_next c = Ret (q, cu_last_piece c) /\ seg_ok q /\ seg_len q <= cu_resid c.
Proof.
  intros [?|d rest s segs off Hd Hr Ht Hsegs Ho Htot Hp Hl Hok Htodo]; [done|].
  rewrite pieces_cons in Htodo. cbn in Htodo. injection Htodo as -> ->.
  pose proof Hsegs as [Hs _]%Forall_cons. pose proof PAGE_SIZE_range. destruct s as [[p b] l].
  cbn in Hs, Ho |- *. split; [|cbn; lia].
  unfold ceph_msg_data_next. rewrite Hd.
  pose proof (item_next_ok c d (p, b, l) segs off) as Hnext. cbn in Hnext.
  destruct d; rewrite Hnext by (done || lia); cbn; unfold bug_on; rewrite u64_small by lia;
    repeat (case_Zb; try lia); cbn; done.
Qed.

Lemma cursor_resid c todo : cursor_ok c todo -> (cu_resid c = 0 <-> todo = []).
Proof.
  intros [H1 H2 H3|d rest s segs off Hd Hr Ht Hsegs Ho Htot Hp Hl Hok Htodo]; [done|].
  rewrite pieces_cons in Htodo. subst. split; [lia|done].
Qed.

Lemma advance_item_ok c d rest new :
  cu_data c = d :: rest -> cu_resid c = 0 -> 0 <= cu_total_resid c -> cu_total_resid c + PAGE_SIZE < 2 ^ 63 ->
  payload_ok rest (cu_total_resid c) ->
  exists c' b, advance_item c new = Ret (c', b) /\ cu_total_resid c' = cu_total_resid c /\
    (payload_pieces rest (cu_total_resid c) <> [] -> b = true) /\
    cursor_ok c' (payload_pieces rest (cu_total_resid c)).
Proof.
  intros Hd Hr Ht Hmax Hok. unfold advance_item. rewrite Hd, Hr, Z.eqb_refl. cbn [andb].
  destruct (Z.eqb_spec (cu_total_resid c) 0) as [E|E]; cbn [negb].
  - exists c, new. rewrite E. destruct (payload_nonpos rest 0) as [_ ->]; [done|].
    repeat split; try done. by apply cursor_done.
  - destruct rest as [|d' rest]; [cbn in Hok; lia|].
    edestruct (cursor_init_item (DataCursor (cu_total_resid c) (d' :: rest) (cu_resid c) (cu_last_piece c)
      (cu_need_crc c) (cu_pos c)) d' rest (cu_total_resid c)) as (c' & Hc & Ht' & Hn & Hok'); try done; [lia|].
    rewrite Hr in Hc. exists c', true. rewrite Hc. done.
Qed.

(** ceph_msg_data_advance is the advance of the item, then the next item. *)
Lemma data_advance_eq c d rest n resid last pos new :
  n <= cu_resid c -> cu_data c = d :: rest -> 0 <= cu_total_resid c - n < 2 ^ 64 ->
  match d with
  | DataPagelist pl => ceph_msg_data_pagelist_advance c pl n
  | DataPages _ _ _ => ceph_msg_data_pages_advance c n
  | DataBio _ _ => ceph_msg_data_bio_advance c n
  | DataNone => Fault BugOn
  end = Ret (set_item c resid last pos, new) ->
  ceph_msg_data_advance c n =
    ('(c, new) ← advance_item (DataCursor (cu_total_resid c - n) (d :: rest) resid last (cu_need_crc c) pos) new;
     Ret (set_need_crc c new, new)).
Proof.
  intros Hn Hd Ht Hadv. unfold ceph_msg_data_advance, bug_on.
  rewrite (proj2 (Z.ltb_ge _ _)), bind_Ret_eq, Hd by lia.
  destruct d; try done; rewrite Hadv; cbn; rewrite u64_small, Hd by lia; done.
Qed.

Lemma cursor_ok_need_crc c b todo : cursor_ok c todo -> cursor_ok (set_need_crc c b) todo.
Proof. intros [|]; [by apply cursor_done|by eapply cursor_at]. Qed.

(** Advancing by a part of the piece leaves the rest of it; advancing by all of
    it leaves the following pieces and asks for a new crc when there is one. *)
Lemma data_advance_ok c q todo n :
  cursor_ok c (q :: todo) -> 0 < n <= seg_len q ->
  exists c' new, ceph_msg_data_advance c n = Ret (c', new) /\ cu_need_crc c' = new /\
    cu_total_resid c' = cu_total_resid c - n /\
    (n < seg_len q -> new = false /\ cursor_ok c' ((q.1.1, q.1.2 + n, seg_len q - n) :: todo)) /\
    (n = seg_len q -> (todo <> [] -> new = true) /\ cursor_ok c' todo).
Proof.
  intros [?|d rest s segs off Hd Hr Ht Hsegs Ho Htot Hp Hl Hok Htodo] Hn; [done|].
  rewrite pieces_cons in Htodo. cbn [app] in Htodo. injection Htodo as -> Htodo.
  pose proof PAGE_SIZE_range. rewrite seg_len_eq in Hn.
  destruct (item_advance_ok c d s segs off n) as (resid & last & pos & new & Hadv & Hres & Hspec);
    try done; try lia.
  apply Forall_cons in Hsegs as Hs. destruct Hs as [Hs Hss].
  rewrite (data_advance_eq c d rest n resid last pos new) by (done || lia).
  set (c1 := DataCursor (cu_total_resid c - n) (d :: rest) resid last (cu_need_crc c) pos).
  rewrite !seg_len_eq. cbn [fst snd].
  destruct Hspec as [Hlt Hp' Hl'|s' segs' Hns Hlt Hsg Hp' Hl'|b He].
  - assert (Hai : advance_item c1 false = Ret (c1, false)).
    { unfold advance_item. cbn. rewrite (proj2 (Z.eqb_neq _ _)) by lia. done. }
    rewrite Hai. cbn. eexists _, _. split; [done|]. split; [done|]. split; [done|]. split; [|lia].
    intros _. split; [done|]. cbn in Hp', Hl'.
    apply (cursor_at _ _ d rest s segs (off + n)); unfold c1; cbn_cursor; try done; try lia.
    { by replace (cu_total_resid c - n - resid) with (cu_total_resid c - cu_resid c) by lia. }
    rewrite Htodo, pieces_cons. subst resid.
    replace (cu_total_resid c - n - (cu_resid c - n)) with (cu_total_resid c - cu_resid c) by lia.
    cbn [app]. f_equal; [f_equal; [f_equal; lia|lia]|]. f_equal. repeat case_Zb; try done; try lia. f_equal. lia.
  - assert (Hai : advance_item c1 true = Ret (c1, true)).
    { unfold advance_item. cbn. rewrite (proj2 (Z.eqb_neq _ _)) by lia. done. }
    rewrite Hai. cbn. eexists _, _. split; [done|]. split; [done|]. split; [done|]. split; [lia|].
    intros _. split; [done|]. cbn in Hp', Hl'. subst segs.
    apply (cursor_at _ _ d rest s' segs' 0); unfold c1; cbn_cursor; try done; try lia.
    + apply Forall_cons in Hss as [Hs' _]. destruct s' as [[??]?]. cbn in *. lia.
    + unfold segs_len in Htot |- *. cbn in Htot |- *. lia.
    + by rewrite Z.sub_0_r.
    + by replace (cu_total_resid c - n - resid) with (cu_total_resid c - cu_resid c) by lia.
    + rewrite Htodo, (proj2 (Z.leb_gt _ _)) by lia.
      replace (cu_total_resid c - n - resid) with (cu_total_resid c - cu_resid c) by lia.
      subst resid. by rewrite Hns.
  - subst n. assert (resid = 0) as -> by lia. rewrite (proj2 (Z.leb_le _ _)) in Htodo by lia. cbn [app] in Htodo.
    destruct (advance_item_ok c1 d rest b) as (c' & b' & Hc & Ht' & Hb & Hok'); try done; try (cbn; lia).
    cbn in Hb, Hok', Ht'. rewrite <- Htodo in Hb, Hok'.
    rewrite Hc. cbn. exists (set_need_crc c' b'), b'. split; [done|]. split; [done|]. split; [done|].
    split; [lia|]. intros _. split; [done|]. by apply cursor_ok_need_crc.
Qed.

(** ** The bytes of a payload, by their addresses *)
Definition span (s : seg) : list (nat * Z) := let '(p, b, l) := s in pair p <$> seqZ b l.

Definition item_addrs (d : ceph_msg_data) : list (nat * Z) :=
  take (Z.to_nat (item_len d)) (drop (Z.to_nat (item_off d)) (concat (span <$> item_segs d))).

Definition payload_addrs (data : list ceph_msg_data) : list (nat * Z) := concat (item_addrs <$> data).

Lemma span_length s : 0 <= seg_len s -> Z.of_nat (length (span s)) = seg_len s.
Proof. destruct s as [[p b] l]. cbn. intros. rewrite length_fmap, length_seqZ. lia. Qed.

Lemma spans_length segs :
  Forall seg_ok segs -> Z.of_nat (length (concat (span <$> segs))) = segs_len segs.
Proof.
  unfold segs_len. induction 1 as [|[[p b] l] segs Hs _ IH]; [done|]. cbn [fmap list_fmap concat foldr].
  cbn in Hs. rewrite length_app, Nat2Z.inj_add, IH, span_length; [done|cbn; lia].
Qed.

Lemma span_cut p b l off n :
  0 <= off -> 0 <= n -> off + n <= l ->
  take (Z.to_nat n) (drop (Z.to_nat off) (span (p, b, l))) = span (p, b + off, n).
Proof.
  intros. cbn. rewrite <- fmap_drop, <- fmap_take. f_equal.
  replace (seqZ b l) with (seqZ b off ++ seqZ (b + off) n ++ seqZ (b + off + n) (l - off - n)).
  { rewrite drop_app_length' by (rewrite length_seqZ; lia).
    by rewrite take_app_length' by (rewrite length_seqZ; lia). }
  rewrite <- seqZ_app by lia. replace (n + (l - off - n)) with (l - off) by lia.
  rewrite <- seqZ_app by lia. f_equal. lia.
Qed.

(** Pieces cover the bytes from the offset on. *)
Lemma pieces_span segs : forall off resid,
  Forall seg_ok segs -> 0 <= off -> 0 < resid -> off + resid <= segs_len segs ->
  match segs with s :: _ => off < seg_len s | [] => True end ->
  concat (span <$> pieces segs off resid) =
    take (Z.to_nat resid) (drop (Z.to_nat off) (concat (span <$> segs))).
Proof.
  induction segs as [|s segs IH]; intros off resid Hok Ho Hr Ht Hs.
  { unfold segs_len in Ht. cbn in Ht. lia. }
  apply Forall_cons in Hok as [Hs1 Hok]. rewrite pieces_cons. cbn [fmap list_fmap concat].
  assert (Hl : Z.of_nat (length (span s)) = seg_len s) by (apply span_length; lia).
  rewrite drop_app_le by lia. destruct s as [[p b] l]. rewrite seg_len_eq in *. cbn [fst snd].
  destruct (Z.leb_spec resid (l - off)).
  - rewrite Z.min_l by lia. cbn [fmap list_fmap concat]. rewrite app_nil_r, take_app_le.
    + by rewrite span_cut by lia.
    + rewrite length_drop. lia.
  - rewrite Z.min_r, IH; try done; try lia.
    + cbn [drop]. change (Z.to_nat 0) with 0%nat. rewrite drop_0.
      rewrite take_app_ge by (rewrite length_drop; lia). f_equal.
      * rewrite <- (span_cut p b l off (l - off)) by lia. apply take_ge. rewrite length_drop. lia.
      * f_equal. rewrite length_drop. lia.
    + unfold segs_len in *. cbn in Ht. lia.
    + destruct segs as [|[[??]?] segs]; [done|]. apply Forall_cons in Hok as [Hs2 _]. cbn in *. lia.
Qed.

Lemma item_addrs_length d : item_ok d -> 0 <= item_off d -> Z.of_nat (length (item_addrs d)) = item_len d.
Proof.
  intros (Hlen & Htot & Hsegs & _) Ho. unfold item_addrs. pose proof (spans_length _ Hsegs).
  rewrite length_take, length_drop. lia.
Qed.

Lemma item_off_ok d : item_ok d ->
  0 <= item_off d /\ match item_segs d with s :: _ => item_off d < seg_len s | [] => True end.
Proof.
  intros (Hlen & Htot & Hsegs & Hd). destruct d as [|[pages|] len al|[[pl len]|]|b len]; try done; cbn in *.
  - split; [lia|]. destruct (omap id pages); cbn; [done|]. lia.
  - split; [lia|]. destruct pl as [|p pl]; cbn; [done|]. apply PAGE_SIZE_range.
  - split; [lia|]. destruct (concat b) as [|v l]; cbn; [done|]. cbn in Hsegs.
    apply Forall_cons in Hsegs as [Hv _]. cbn in Hv. lia.
Qed.

Lemma payload_pieces_span data : forall n,
  payload_ok data n -> concat (span <$> payload_pieces data n) = take (Z.to_nat n) (payload_addrs data).
Proof.
  induction data as [|d data IH]; intros n Hok; cbn in Hok |- *; [by rewrite take_nil|].
  case_Zb. { by replace (Z.to_nat n) with 0%nat by lia. }
  destruct Hok as (Hi & Hf & Hok); [lia|]. rewrite fmap_app, concat_app, (IH _ Hok).
  destruct (item_off_ok d Hi) as [Ho Hos]. pose proof (item_addrs_length d Hi Ho) as Hlen.
  destruct Hi as (Hl & Htot & Hsegs & _). rewrite pieces_span by (done || lia).
  unfold payload_addrs. cbn [fmap list_fmap concat]. destruct (Z.le_gt_cases n (item_len d)).
  - rewrite Z.min_l by lia. replace (Z.to_nat (n - item_len d)) with 0%nat by lia.
    rewrite take_0, app_nil_r, take_app_le by lia. unfold item_addrs. rewrite take_take. f_equal. lia.
  - rewrite Z.min_r by lia. rewrite take_app_ge by lia. f_equal. f_equal. lia.
Qed.

(** ** Walking over a payload

    The loops of the senders and receivers, with the socket reduced to what it
    takes: in the i-th round [io i len] bytes of a piece of [len].  The result
    is the stretches handled. *)
Fixpoint transfer (fuel : nat) (io : nat -> Z -> Z) (i : nat) (c : ceph_msg_data_cursor) : outcome (list seg) :=
  match fuel with
  | O => Fault OutOfFuel
  | S fuel =>
      if cu_resid c =? 0 then Ret []
      else
        '(p, off, len, _) ← ceph_msg_data_next c;
        let n := io i len in
        '(c, _) ← ceph_msg_data_advance c n;
        l ← transfer fuel io (S i) c;
        Ret ((p, off, n) :: l)
  end.

Lemma transfer_ok io fuel : forall i c todo,
  (forall i len, 0 < len -> 0 < io i len <= len) ->
  cursor_ok c todo -> (Z.to_nat (cu_total_resid c) < fuel)%nat -> 0 <= cu_total_resid c ->
  exists l, transfer fuel io i c = Ret l /\ concat (span <$> l) = concat (span <$> todo).
Proof.
  induction fuel as [|fuel IH]; intros i c todo Hio Hok Hf Ht; [lia|]. cbn [transfer].
  destruct todo as [|q todo].
  { rewrite (proj2 (cursor_resid c [] Hok)) by done. by exists []. }
  destruct (Z.eqb_spec (cu_resid c) 0) as [E|E]; [by apply (cursor_resid c _ Hok) in E|].
  destruct (data_next_ok c q todo Hok) as (-> & Hq & Hl). destruct q as [[p off] len]. cbn in Hq, Hl.
  rewrite bind_Ret_eq. cbn beta iota zeta. assert (Hn : 0 < io i len <= len) by (apply Hio; lia).
  destruct (data_advance_ok c (p, off, len) todo (io i len) Hok Hn) as (c' & new & -> & _ & Ht' & Hlt & Heq).
  rewrite bind_Ret_eq. cbn beta iota zeta.
  assert (0 < cu_total_resid c).
  { destruct Hok as [? _ _|d rest s segs o _ Hr _ _ _ _ _ _ _ _]; [done|lia]. }
  assert (0 <= cu_total_resid c').
  { destruct Hok as [? _ _|d rest s segs o _ Hr _ _ _ _ _ _ _ _]; [done|lia]. }
  rewrite seg_len_eq in *. destruct (decide (io i len = len)) as [El|El].
  - destruct (Heq El) as [_ Hok']. destruct (IH (S i) c' todo) as (l & -> & Hspan); try done; [lia|].
    exists ((p, off, io i len) :: l). split; [done|]. cbn. by rewrite Hspan, El.
  - destruct (Hlt ltac:(lia)) as [_ Hok']. destruct (IH (S i) c' _ Hio Hok') as (l & -> & Hspan); [lia|done|].
    exists ((p, off, io i len) :: l). split; [done|]. cbn [fmap list_fmap concat]. rewrite Hspan.
    cbn. rewrite app_assoc. f_equal. rewrite <- fmap_app, <- seqZ_app by lia. f_equal. f_equal. lia.
Qed.

End Cursor.

(** ** Properties *)

(** C24: Whatever part of each piece the socket takes, the cursor walks over exactly
    the first [n] bytes of the payload, in order: ceph_msg_data_cursor_init,
    ceph_msg_data_next and ceph_msg_data_advance raise no BUG, and the loop ends. *)
Theorem ceph_msg_data_cursor_walks PAGE_SHIFT c data data_length n io :
  0 <= PAGE_SHIFT < 31 -> payload_ok PAGE_SHIFT data n -> 0 < n <= data_length -> n + 2 ^ PAGE_SHIFT < 2 ^ 63 ->
  (forall i len, 0 < len -> 0 < io i len <= len) ->
  exists c' l, ceph_msg_data_cursor_init PAGE_SHIFT c data data_length n = Ret c' /\
    transfer PAGE_SHIFT (S (Z.to_nat n)) io 0 c' = Ret l /\
    concat (span <$> l) = take (Z.to_nat n) (payload_addrs PAGE_SHIFT data).
Proof.
  intros Hs Hok Hn Hmax Hio. destruct data as [|d data]; [cbn in Hok; lia|].
  unfold ceph_msg_data_cursor_init, bug_on.
  rewrite (proj2 (Z.eqb_neq _ _)), (proj2 (Z.ltb_ge _ _)), bool_decide_eq_false_2 by (done || lia). cbn [obind].
  edestruct (cursor_init_item PAGE_SHIFT Hs
    (DataCursor n (d :: data) (cu_resid c) (cu_last_piece c) (cu_need_crc c) (cu_pos c)))
    as (c' & -> & Ht & _ & Hc); try done; [lia|].
  destruct (transfer_ok PAGE_SHIFT Hs io (S (Z.to_nat n)) 0 c' _ Hio Hc) as (l & Hl & Hspan); [lia|lia|].
  exists c', l. split; [done|]. split; [done|]. by rewrite Hspan, payload_pieces_span.
Qed.

Definition example_payload : list ceph_msg_data :=
  [DataPages (Some [Some 1%nat; Some 2%nat]) 10 5; DataBio [[BioVec 7 4 2; BioVec 8 8 0]; [BioVec 9 3 1]] 14;
   DataPagelist (Some ([3%nat; 4%nat], 9))].

Lemma ceph_msg_data_cursor_walks_witness :
  exists c' l,
    ceph_msg_data_cursor_init 3 (DataCursor 0 [] 0 false false PosNone) example_payload 33 33 = Ret c' /\
    transfer 3 34 (fun i len => if Nat.even i then 1 else len) 0 c' = Ret l /\
    concat (span <$> l) = take 33 (payload_addrs 3 example_payload).
Proof.
  apply (ceph_msg_data_cursor_walks 3 (DataCursor 0 [] 0 false false PosNone) example_payload 33 33
    (fun i len => if Nat.even i then 1 else len)); try lia.
  - unfold example_payload. cbn -[Z.mul Z.add USHRT_MAX]. unfold item_ok, seg_ok, item_fits, segs_len, USHRT_MAX.
    cbn. repeat split; try lia; repeat constructor; cbn; try lia; try done.
  - intros i len Hl. destruct (Nat.even i); lia.
Defined.

(** A limit: a bio that fits in its first vector, with another item behind it,
    stops the client.  ceph_msg_data_bio_cursor_init compares the bytes of the
    whole payload, not those of the item, with the first vector, so the piece is
    not taken for the last one; advancing over it then hits BUG_ON(!cursor->resid). *)
Theorem bio_before_item_bugs PAGE_SHIFT c p q len off len2 rest :
  0 <= PAGE_SHIFT < 31 -> 0 < len -> 0 <= off -> off + len <= 2 ^ PAGE_SHIFT -> 0 < len2 < 2 ^ 32 ->
  exists c',
    ceph_msg_data_cursor_init PAGE_SHIFT c (DataBio [[BioVec p len off]] len :: DataPages (Some [q]) len2 0 :: rest)
      (len + len2) (len + len2) = Ret c' /\
    ceph_msg_data_next PAGE_SHIFT c' = Ret (p, off, len, false) /\
    ceph_msg_data_advance PAGE_SHIFT c' len = Fault BugOn.
Proof.
  intros Hs Hl Ho Hp Hl2. assert (2 ^ PAGE_SHIFT <= 2 ^ 30) by (apply Z.pow_le_mono_r; lia).
  unfold ceph_msg_data_cursor_init, __ceph_msg_data_cursor_init, ceph_msg_data_bio_cursor_init, bug_on.
  rewrite (proj2 (Z.eqb_neq _ _)), Z.ltb_irrefl, bool_decide_eq_false_2 by (done || lia). cbn.
  change (Z.of_nat 1) with 1. change (Z.to_nat 0) with 0%nat. cbn.
  rewrite (proj2 (Z.leb_gt (len + len2) len)), (Z.min_r _ len) by lia.
  eexists. split; [done|]. split.
  - unfold ceph_msg_data_next, ceph_msg_data_bio_next, bug_on. cbn. change (Z.of_nat 1) with 1.
    change (Z.to_nat 0) with 0%nat. cbn. rewrite u32_small, Z.add_0_r, Z.sub_0_r by lia.
    pose proof (u64_small (off + len) ltac:(lia)). repeat (case_Zb; try lia; cbn). done.
  - unfold ceph_msg_data_advance, ceph_msg_data_bio_advance, bug_on. cbn. rewrite Z.ltb_irrefl.
    change (Z.of_nat 1) with 1. change (Z.to_nat 0) with 0%nat. cbn. rewrite ?Z.ltb_irrefl. cbn.
    rewrite Z.add_0_l, (u32_small len), Z.ltb_irrefl, Z.eqb_refl by lia. cbn. by rewrite Z.sub_diag.
Qed.

Lemma bio_before_item_bugs_witness :
  exists c',
    ceph_msg_data_cursor_init 12 (DataCursor 0 [] 0 false false PosNone)
      [DataBio [[BioVec 1 512 0]] 512; DataPages (Some [Some 2%nat]) 4096 0] 4608 4608 = Ret c' /\
    ceph_msg_data_next 12 c' = Ret (1%nat, 0, 512, false) /\
    ceph_msg_data_advance 12 c' 512 = Fault BugOn.
Proof. apply (bio_before_item_bugs 12 _ 1 (Some 2%nat) 512 0 4096 []); lia. Defined.
