(* ===== verification/Msgr.v ===== *)
(** * Connections: state and queues

    Models the structures of messenger.h and msgr.h and the part of
    net/ceph/messenger.c that does no I/O: flags, socket states, references,
    the outgoing queues, faults, opening and closing.  The I/O is in MsgrIO.v.

    [world] is the memory the messenger works on: one connection and its
    messenger, the messages (known by their addresses), the pages, the socket
    and a log of the calls that leave the model.  A freed message is no longer
    in the map: touching it faults.  Work queues, timers and locks are not
    modelled: queueing the connection's work is an event of the log. *)
From S2P Require Import Prelude.
From S2P Require Import Wire.
From S2P Require Import MsgCursor.
From stdpp Require Import gmap.
#[local] Open Scope Z_scope.
#[local] Open Scope ceph_scope.

(** ** Wire structures *)
Record ceph_entity_name := EntityName { en_type : Z; en_num : Z }.

Record ceph_msg_header := MsgHeader {
  h_seq : Z; h_tid : Z; h_type : Z; h_priority : Z; h_version : Z;
  h_front_len : Z; h_middle_len : Z; h_data_len : Z; h_data_off : Z;
  h_src : ceph_entity_name; h_reserved : Z; h_crc : Z }.
#[global] Instance ceph_msg_header_eta : Eta ceph_msg_header := fun h =>
  MsgHeader (h_seq h) (h_tid h) (h_type h) (h_priority h) (h_version h) (h_front_len h) (h_middle_len h)
    (h_data_len h) (h_data_off h) (h_src h) (h_reserved h) (h_crc h).

Record ceph_msg_footer := MsgFooter { f_front_crc : Z; f_middle_crc : Z; f_data_crc : Z; f_flags : Z }.
#[global] Instance ceph_msg_footer_eta : Eta ceph_msg_footer := fun f =>
  MsgFooter (f_front_crc f) (f_middle_crc f) (f_data_crc f) (f_flags f).

(** The packed structs, in memory and on the wire: the fields with their sizes. *)
Definition pack (fields : list (nat * Z)) : list Z := concat ((fun f => le_bytes f.1 f.2) <$> fields).

Definition header_fields (h : ceph_msg_header) : list (nat * Z) :=
  [(8%nat, h_seq h); (8%nat, h_tid h); (2%nat, h_type h); (2%nat, h_priority h); (2%nat, h_version h);
   (4%nat, h_front_len h); (4%nat, h_middle_len h); (4%nat, h_data_len h); (2%nat, h_data_off h);
   (1%nat, en_type (h_src h)); (8%nat, en_num (h_src h)); (4%nat, h_reserved h)].

(** [offsetof (struct ceph_msg_header, crc)] bytes *)
Definition header_body (h : ceph_msg_header) : list Z := pack (header_fields h).
Definition header_bytes (h : ceph_msg_header) : list Z := header_body h ++ le_bytes 4 (h_crc h).
Definition footer_bytes (f : ceph_msg_footer) : list Z :=
  pack [(4%nat, f_front_crc f); (4%nat, f_middle_crc f); (4%nat, f_data_crc f); (1%nat, f_flags f)].

Definition sizeof_header : Z := 53.
Definition sizeof_footer : Z := 13.

(** A field of [n] bytes at an offset of a packed struct. *)
Definition field (b : list Z) (off n : Z) : Z := le_val (slice b off n).

Definition header_of (b : list Z) : ceph_msg_header :=
  MsgHeader (field b 0 8) (field b 8 8) (field b 16 2) (field b 18 2) (field b 20 2) (field b 22 4)
    (field b 26 4) (field b 30 4) (field b 34 2) (EntityName (field b 36 1) (field b 37 8)) (field b 45 4)
    (field b 49 4).

Definition footer_of (b : list Z) : ceph_msg_footer :=
  MsgFooter (field b 0 4) (field b 4 4) (field b 8 4) (field b 12 1).

(** ** Messages *)

(** struct kvec and struct ceph_buffer: the memory at [iov_base], and [iov_len]. *)
Record kvec := Kvec { iov_base : list Z; iov_len : Z }.

Record ceph_msg := Msg {
  m_hdr : ceph_msg_header;
  m_footer : ceph_msg_footer;
  m_front : kvec;
  m_middle : option kvec;
  m_data_length : Z;
  m_data : list ceph_msg_data;
  m_cursor : ceph_msg_data_cursor;
  m_con : bool;
  m_kref : Z;
  m_more_to_follow : bool;
  m_needs_out_seq : bool;
  m_front_alloc_len : Z;
  m_pool : option nat }.
#[global] Instance ceph_msg_eta : Eta ceph_msg := fun m =>
  Msg (m_hdr m) (m_footer m) (m_front m) (m_middle m) (m_data_length m) (m_data m) (m_cursor m) (m_con m)
    (m_kref m) (m_more_to_follow m) (m_needs_out_seq m) (m_front_alloc_len m) (m_pool m).

(** What an entry of [out_kvec] points to; the bytes are read when they are
    sent. *)
Inductive kv_target : Type :=
  | KvTag (tag : Z)
  | KvTempAck
  | KvHeader (m : nat)
  | KvFront (m : nat)
  | KvMiddle (m : nat)
  | KvFooter (m : nat)
  | KvBanner
  | KvMyAddr
  | KvConnect
  | KvAuth (buf : list Z).

(** [iov_base = target + kv_off] *)
Record out_kvec_entry := KvEntry { kv_target_of : kv_target; kv_off : Z; kv_len : Z }.

(** ** The connection *)
Record ceph_connection := Con {
  c_sock_state : Z;
  c_sock : bool;
  c_peer_addr : list Z;
  c_peer_addr_for_me : list Z;
  c_flags : Z;
  c_state : Z;
  c_peer_name : ceph_entity_name;
  c_peer_features : Z;
  c_connect_seq : Z;
  c_peer_global_seq : Z;
  c_auth_retry : Z;
  c_auth_reply_buf : option (list Z);
  c_out_queue : list nat;
  c_out_sent : list nat;
  c_out_seq : Z;
  c_in_seq : Z;
  c_in_seq_acked : Z;
  c_in_banner : list Z;
  c_out_connect : list Z;
  c_in_reply : list Z;
  c_actual_peer_addr : list Z;
  c_out_msg : option nat;
  c_out_msg_done : bool;
  c_out_kvec : list out_kvec_entry;
  c_out_kvec_cur : Z;
  c_out_kvec_left : Z;
  c_out_skip : Z;
  c_out_kvec_bytes : Z;
  c_out_kvec_is_msg : bool;
  c_out_more : bool;
  c_out_temp_ack : Z;
  c_in_hdr : list Z;
  c_in_msg : option nat;
  c_in_front_crc : Z;
  c_in_middle_crc : Z;
  c_in_data_crc : Z;
  c_in_tag : Z;
  c_in_base_pos : Z;
  c_in_temp_ack : list Z;
  c_delay : Z }.
#[global] Instance ceph_connection_eta : Eta ceph_connection := fun c =>
  Con (c_sock_state c) (c_sock c) (c_peer_addr c) (c_peer_addr_for_me c) (c_flags c) (c_state c) (c_peer_name c)
    (c_peer_features c) (c_connect_seq c) (c_peer_global_seq c) (c_auth_retry c) (c_auth_reply_buf c)
    (c_out_queue c) (c_out_sent c) (c_out_seq c) (c_in_seq c) (c_in_seq_acked c) (c_in_banner c)
    (c_out_connect c) (c_in_reply c) (c_actual_peer_addr c) (c_out_msg c) (c_out_msg_done c) (c_out_kvec c)
    (c_out_kvec_cur c) (c_out_kvec_left c) (c_out_skip c) (c_out_kvec_bytes c) (c_out_kvec_is_msg c)
    (c_out_more c) (c_out_temp_ack c) (c_in_hdr c) (c_in_msg c) (c_in_front_crc c) (c_in_middle_crc c)
    (c_in_data_crc c) (c_in_tag c) (c_in_base_pos c) (c_in_temp_ack c) (c_delay c).

Record ceph_messenger := Messenger {
  mr_name : ceph_entity_name;
  mr_addr : list Z;
  mr_my_enc_addr : list Z;
  mr_stopping : bool;
  mr_nocrc : bool;
  mr_global_seq : Z;
  mr_supported_features : Z;
  mr_required_features : Z }.
#[global] Instance ceph_messenger_eta : Eta ceph_messenger := fun r =>
  Messenger (mr_name r) (mr_addr r) (mr_my_enc_addr r) (mr_stopping r) (mr_nocrc r) (mr_global_seq r)
    (mr_supported_features r) (mr_required_features r).

(** What a read of the socket finds: bytes that have arrived, or an error. *)
Inductive rx_event : Type :=
  | RxData (bytes : list Z)
  | RxErr (e : Z).

(** Calls that leave the model, in order. *)
Inductive event : Type :=
  | EvQueue (delay : Z)
  | EvCancel
  | EvDispatch (m : nat)
  | EvFree (m : nat)
  | EvWarn
  | EvFault
  | EvPeerReset
  | EvInvalidateAuthorizer.

(** [w_rx] is what the socket has for us, [w_room] how much each send takes
    (or an error), [w_socks] the results of creating and connecting sockets,
    [w_tx] the bytes sent, [w_refs] the references to the connection. *)
Record world := World {
  w_con : ceph_connection;
  w_msgr : ceph_messenger;
  w_msgs : gmap nat ceph_msg;
  w_mem : gmap nat (list Z);
  w_rx : list rx_event;
  w_room : list Z;
  w_socks : list (Z * Z);
  w_tx : list Z;
  w_refs : Z;
  w_log : list event }.
#[global] Instance world_eta : Eta world := fun w =>
  World (w_con w) (w_msgr w) (w_msgs w) (w_mem w) (w_rx w) (w_room w) (w_socks w) (w_tx w) (w_refs w) (w_log w).

(** ** Stateful computations *)
Definition M (A : Type) : Type := world -> outcome (A * world).

Definition ret {A} (a : A) : M A := fun w => Ret (a, w).
Definition bind {A B} (m : M A) (k : A -> M B) : M B := fun w => obind (m w) (fun '(a, w) => k a w).
Definition fail {A} (f : fault) : M A := fun _ => Fault f.
Definition lift {A} (o : outcome A) : M A := fun w => obind o (fun a => Ret (a, w)).
Definition gets {A} (f : world -> A) : M A := fun w => Ret (f w, w).
Definition getc {A} (f : ceph_connection -> A) : M A := fun w => Ret (f (w_con w), w).
Definition modw (f : world -> world) : M unit := fun w => Ret (tt, f w).
Definition modc (f : ceph_connection -> ceph_connection) : M unit := modw (fun w => w <| w_con ::= f |>).
Definition getm (m : nat) : M ceph_msg := fun w =>
  match w_msgs w !! m with Some x => Ret (x, w) | None => Fault NullPointer end.
Definition modm (m : nat) (f : ceph_msg -> ceph_msg) : M unit := fun w =>
  match w_msgs w !! m with
  | Some x => Ret (tt, w <| w_msgs := <[m := f x]> (w_msgs w) |>)
  | None => Fault NullPointer
  end.
Definition log (e : event) : M unit := modw (fun w => w <| w_log ::= fun l => l ++ [e] |>).
Definition bugon (b : bool) : M unit := lift (bug_on b).
Definition warnon (b : bool) : M unit := if b then log EvWarn else ret tt.
Definition when (b : bool) (m : M unit) : M unit := if b then m else ret tt.

Declare Scope msgr_scope.
Delimit Scope msgr_scope with msgr.
Notation "x ⟵ m ; k" := (bind m (fun x => k))
  (at level 20, m at level 100, k at level 200, only parsing) : msgr_scope.
Notation "' x ⟵ m ; k" := (bind m (fun x => k))
  (at level 20, x pattern, m at level 100, k at level 200, only parsing) : msgr_scope.
Notation "m ;; k" := (bind m (fun _ => k)) (at level 100, k at level 200, right associativity, only parsing) : msgr_scope.
#[global] Open Scope msgr_scope.

(** ** Flags *)
Definition CON_FLAG_LOSSYTX : Z := 0.
Definition CON_FLAG_KEEPALIVE_PENDING : Z := 1.
Definition CON_FLAG_WRITE_PENDING : Z := 2.
Definition CON_FLAG_SOCK_CLOSED : Z := 3.
Definition CON_FLAG_BACKOFF : Z := 4.

Definition con_flag_valid (f : Z) : bool :=
  (f =? CON_FLAG_LOSSYTX) || (f =? CON_FLAG_KEEPALIVE_PENDING) || (f =? CON_FLAG_WRITE_PENDING) ||
  (f =? CON_FLAG_SOCK_CLOSED) || (f =? CON_FLAG_BACKOFF).

Definition con_flag_clear (f : Z) : M unit :=
  bugon (negb (con_flag_valid f)) ;; modc (fun c => c <| c_flags ::= fun x => Z.clearbit x f |>).
Definition con_flag_set (f : Z) : M unit :=
  bugon (negb (con_flag_valid f)) ;; modc (fun c => c <| c_flags ::= fun x => Z.setbit x f |>).
Definition con_flag_test (f : Z) : M bool :=
  bugon (negb (con_flag_valid f)) ;; getc (fun c => Z.testbit (c_flags c) f).
Definition con_flag_test_and_clear (f : Z) : M bool :=
  bugon (negb (con_flag_valid f)) ;;
  b ⟵ getc (fun c => Z.testbit (c_flags c) f);
  modc (fun c => c <| c_flags ::= fun x => Z.clearbit x f |>) ;; ret b.
Definition con_flag_test_and_set (f : Z) : M bool :=
  bugon (negb (con_flag_valid f)) ;;
  b ⟵ getc (fun c => Z.testbit (c_flags c) f);
  modc (fun c => c <| c_flags ::= fun x => Z.setbit x f |>) ;; ret b.

(** ** Socket states *)
Definition CON_SOCK_STATE_NEW : Z := 0.
Definition CON_SOCK_STATE_CLOSED : Z := 1.
Definition CON_SOCK_STATE_CONNECTING : Z := 2.
Definition CON_SOCK_STATE_CONNECTED : Z := 3.
Definition CON_SOCK_STATE_CLOSING : Z := 4.

(** atomic_xchg of the state, with a warning unless the old one is expected *)
Definition sock_state_xchg (new : Z) (expected : list Z) : M unit :=
  old ⟵ getc c_sock_state;
  modc (fun c => c <| c_sock_state := new |>) ;;
  warnon (negb (bool_decide (old ∈ expected))).

Definition con_sock_state_init : M unit := sock_state_xchg CON_SOCK_STATE_CLOSED [CON_SOCK_STATE_NEW].
Definition con_sock_state_connecting : M unit :=
  sock_state_xchg CON_SOCK_STATE_CONNECTING [CON_SOCK_STATE_CLOSED].
Definition con_sock_state_connected : M unit :=
  sock_state_xchg CON_SOCK_STATE_CONNECTED [CON_SOCK_STATE_CONNECTING].
Definition con_sock_state_closing : M unit :=
  sock_state_xchg CON_SOCK_STATE_CLOSING
    [CON_SOCK_STATE_CONNECTING; CON_SOCK_STATE_CONNECTED; CON_SOCK_STATE_CLOSING].
Definition con_sock_state_closed : M unit :=
  sock_state_xchg CON_SOCK_STATE_CLOSED
    [CON_SOCK_STATE_CONNECTED; CON_SOCK_STATE_CLOSING; CON_SOCK_STATE_CONNECTING; CON_SOCK_STATE_CLOSED].

(** ** Connection states *)
Definition CON_STATE_CLOSED : Z := 1.
Definition CON_STATE_PREOPEN : Z := 2.
Definition CON_STATE_CONNECTING : Z := 3.
Definition CON_STATE_NEGOTIATING : Z := 4.
Definition CON_STATE_OPEN : Z := 5.
Definition CON_STATE_STANDBY : Z := 6.

Definition set_state (s : Z) : M unit := modc (fun c => c <| c_state := s |>).

(** ** References and work

    [ops->get] of the clients counts references to the object that holds the
    connection and fails when there are none left. *)
Definition ops_get : M bool := fun w =>
  if w_refs w =? 0 then Ret (false, w) else Ret (true, w <| w_refs ::= Z.succ |>).
Definition ops_put : M unit := modw (fun w => w <| w_refs ::= Z.pred |>).

Section Machine.
(** HZ, and whether the connection's work is already queued or pending *)
Context (HZ : Z) (work_queued : world -> bool).

Definition BASE_DELAY_INTERVAL : Z := HZ / 2.
Definition MAX_DELAY_INTERVAL : Z := 5 * 60 * HZ.
Definition EBUSY : Z := 16.

Definition queue_con_delay (delay : Z) : M Z :=
  ok ⟵ ops_get;
  if negb ok then ret (- ENOENT)
  else
    queued ⟵ gets work_queued;
    if (queued : bool) then ops_put ;; ret (- EBUSY)
    else log (EvQueue delay) ;; ret 0.

Definition queue_con : M unit := _ ⟵ queue_con_delay 0; ret tt.

Definition cancel_con : M unit :=
  queued ⟵ gets work_queued;
  when queued (log EvCancel ;; ops_put).

(** ** Messages: references *)
Definition kref_put (m : nat) (release : M unit) : M unit :=
  x ⟵ getm m;
  modm m (fun x => x <| m_kref ::= Z.pred |>) ;;
  if m_kref x - 1 =? 0 then release else ret tt.

Definition on_list (m : nat) (c : ceph_connection) : bool :=
  bool_decide (m ∈ c_out_queue c) || bool_decide (m ∈ c_out_sent c).

(** Dropping the middle and the data items touches only them; the message goes
    back to its pool or is freed. *)
Definition ceph_msg_release (m : nat) : M unit :=
  b ⟵ getc (on_list m);
  warnon b ;;
  log (EvFree m) ;; modw (fun w => w <| w_msgs ::= delete m |>).

Definition ceph_msg_put (m : nat) : M unit := kref_put m (ceph_msg_release m).
Definition ceph_msg_get (m : nat) : M unit := modm m (fun x => x <| m_kref ::= Z.succ |>).

(** list_del_init of a message *)
Definition list_del (m : nat) (c : ceph_connection) : ceph_connection :=
  c <| c_out_queue ::= filter (fun x => x <> m) |> <| c_out_sent ::= filter (fun x => x <> m) |>.

Definition ceph_msg_remove (m : nat) : M unit :=
  modc (list_del m) ;;
  x ⟵ getm m;
  bugon (negb (m_con x)) ;;
  ops_put ;;
  modm m (fun x => x <| m_con := false |>) ;;
  ceph_msg_put m.

(** [head] is one of the two lists of the connection. *)
Fixpoint ceph_msg_remove_list (fuel : nat) (head : ceph_connection -> list nat) : M unit :=
  match fuel with
  | O => fail OutOfFuel
  | S fuel =>
      l ⟵ getc head;
      match l with
      | [] => ret tt
      | m :: _ => ceph_msg_remove m ;; ceph_msg_remove_list fuel head
      end
  end.

(** Drop the message that is being received, as reset_connection and con_fault do. *)
Definition drop_in_msg : M unit :=
  o ⟵ getc c_in_msg;
  match o with
  | None => ret tt
  | Some m =>
      x ⟵ getm m;
      bugon (negb (m_con x)) ;;
      modm m (fun x => x <| m_con := false |>) ;;
      ceph_msg_put m ;;
      modc (fun c => c <| c_in_msg := None |>) ;;
      ops_put
  end.

(** ** Resetting, closing and opening *)
Definition reset_connection : M unit :=
  nq ⟵ getc (fun c => length (c_out_queue c));
  ceph_msg_remove_list (S nq) c_out_queue ;;
  ns ⟵ getc (fun c => length (c_out_sent c));
  ceph_msg_remove_list (S ns) c_out_sent ;;
  drop_in_msg ;;
  modc (fun c => c <| c_connect_seq := 0 |> <| c_out_seq := 0 |>) ;;
  o ⟵ getc c_out_msg;
  match o with
  | None => ret tt
  | Some m => ceph_msg_put m ;; modc (fun c => c <| c_out_msg := None |>)
  end ;;
  modc (fun c => c <| c_in_seq := 0 |> <| c_in_seq_acked := 0 |>).

Definition con_close_socket : M unit :=
  modc (fun c => c <| c_sock := false |>) ;;
  con_flag_clear CON_FLAG_SOCK_CLOSED ;;
  con_sock_state_closed.

Definition ceph_con_close : M unit :=
  set_state CON_STATE_CLOSED ;;
  con_flag_clear CON_FLAG_LOSSYTX ;;
  con_flag_clear CON_FLAG_KEEPALIVE_PENDING ;;
  con_flag_clear CON_FLAG_WRITE_PENDING ;;
  con_flag_clear CON_FLAG_BACKOFF ;;
  reset_connection ;;
  modc (fun c => c <| c_peer_global_seq := 0 |>) ;;
  cancel_con ;;
  con_close_socket.

Definition ceph_con_open (entity_type entity_num : Z) (addr : list Z) : M unit :=
  s ⟵ getc c_state;
  warnon (negb (s =? CON_STATE_CLOSED)) ;;
  set_state CON_STATE_PREOPEN ;;
  modc (fun c => c <| c_peer_name := EntityName (u8 entity_type) entity_num |> <| c_peer_addr := addr |>
                   <| c_delay := 0 |>) ;;
  queue_con.

Definition ceph_con_opened (c : ceph_connection) : bool := 0 <? c_connect_seq c.

(** memset to 0; the arrays are as long as those of the struct *)
#[local] Abbreviation zeros n := (repeat 0 n).
Definition zeroed_connection : ceph_connection :=
  Con CON_SOCK_STATE_NEW false (zeros 136) (zeros 136) 0 0 (EntityName 0 0) 0 0 0 0 None [] [] 0 0 0
    (zeros 30) (zeros 33) (zeros 26) (zeros 136) None false
    (repeat (KvEntry (KvTag 0) 0 0) 8) 0 0 0 0 false false 0 (zeros 53) None 0 0 0 0 0 (zeros 8) 0.

Definition ceph_con_init : M unit :=
  modc (fun _ => zeroed_connection) ;; con_sock_state_init ;; set_state CON_STATE_CLOSED.

Definition get_global_seq (gt : Z) : M Z :=
  modw (fun w => w <| w_msgr ::= fun r =>
    r <| mr_global_seq ::= fun g => u32 ((if g <? gt then gt else g) + 1) |> |>) ;;
  gets (fun w => mr_global_seq (w_msgr w)).

(** ** Faults *)
Definition con_fault : M unit :=
  s ⟵ getc c_state;
  warnon (negb ((s =? CON_STATE_CONNECTING) || (s =? CON_STATE_NEGOTIATING) || (s =? CON_STATE_OPEN))) ;;
  con_close_socket ;;
  lossy ⟵ con_flag_test CON_FLAG_LOSSYTX;
  if (lossy : bool) then set_state CON_STATE_CLOSED
  else
    drop_in_msg ;;
    modc (fun c => c <| c_out_queue := c_out_sent c ++ c_out_queue c |> <| c_out_sent := [] |>) ;;
    q ⟵ getc c_out_queue;
    ka ⟵ con_flag_test CON_FLAG_KEEPALIVE_PENDING;
    if bool_decide (q = []) && negb ka then
      con_flag_clear CON_FLAG_WRITE_PENDING ;; set_state CON_STATE_STANDBY
    else
      set_state CON_STATE_PREOPEN ;;
      modc (fun c => c <| c_delay ::= fun d =>
        if d =? 0 then BASE_DELAY_INTERVAL else if d <? MAX_DELAY_INTERVAL then d * 2 else d |>) ;;
      con_flag_set CON_FLAG_BACKOFF ;;
      queue_con.

(** ** Sending and revoking *)
Definition clear_standby : M unit :=
  s ⟵ getc c_state;
  when (s =? CON_STATE_STANDBY)
    (set_state CON_STATE_PREOPEN ;;
     modc (fun c => c <| c_connect_seq ::= fun x => u32 (x + 1) |>) ;;
     wp ⟵ con_flag_test CON_FLAG_WRITE_PENDING; warnon wp ;;
     ka ⟵ con_flag_test CON_FLAG_KEEPALIVE_PENDING; warnon ka).

(** The clients give the messenger one reference to the message. *)
Definition ceph_con_send (m : nat) : M unit :=
  name ⟵ gets (fun w => mr_name (w_msgr w));
  modm m (fun x => x <| m_hdr ::= fun h => h <| h_src := name |> |>) ;;
  x ⟵ getm m;
  bugon (negb (iov_len (m_front x) =? h_front_len (m_hdr x))) ;;
  modm m (fun x => x <| m_needs_out_seq := true |>) ;;
  s ⟵ getc c_state;
  if s =? CON_STATE_CLOSED then ceph_msg_put m
  else
    x ⟵ getm m;
    bugon (m_con x) ;;
    ok ⟵ ops_get;
    modm m (fun x => x <| m_con := ok |>) ;;
    bugon (negb ok) ;;
    b ⟵ getc (on_list m);
    bugon b ;;
    modc (fun c => c <| c_out_queue ::= fun q => q ++ [m] |>) ;;
    clear_standby ;;
    pending ⟵ con_flag_test_and_set CON_FLAG_WRITE_PENDING;
    when (negb pending) queue_con.

Definition ceph_msg_revoke (m : nat) : M unit :=
  x ⟵ getm m;
  if negb (m_con x) then ret tt
  else
    b ⟵ getc (on_list m);
    when b
      (modc (list_del m) ;;
       x ⟵ getm m;
       bugon (negb (m_con x)) ;;
       ops_put ;;
       modm m (fun x => x <| m_con := false |> <| m_hdr ::= fun h => h <| h_seq := 0 |> |>) ;;
       ceph_msg_put m) ;;
    o ⟵ getc c_out_msg;
    when (bool_decide (o = Some m))
      (modc (fun c => c <| c_out_msg := None |>) ;;
       is_msg ⟵ getc c_out_kvec_is_msg;
       when is_msg (modc (fun c => c <| c_out_skip := c_out_kvec_bytes c |> <| c_out_kvec_is_msg := false |>)) ;;
       modm m (fun x => x <| m_hdr ::= fun h => h <| h_seq := 0 |> |>) ;;
       ceph_msg_put m).

Definition CEPH_MSGR_TAG_READY : Z := 1.
Definition CEPH_MSGR_TAG_RESETSESSION : Z := 2.
Definition CEPH_MSGR_TAG_WAIT : Z := 3.
Definition CEPH_MSGR_TAG_RETRY_SESSION : Z := 4.
Definition CEPH_MSGR_TAG_RETRY_GLOBAL : Z := 5.
Definition CEPH_MSGR_TAG_CLOSE : Z := 6.
Definition CEPH_MSGR_TAG_MSG : Z := 7.
Definition CEPH_MSGR_TAG_ACK : Z := 8.
Definition CEPH_MSGR_TAG_KEEPALIVE : Z := 9.
Definition CEPH_MSGR_TAG_BADPROTOVER : Z := 10.
Definition CEPH_MSGR_TAG_BADAUTHORIZER : Z := 11.
Definition CEPH_MSGR_TAG_FEATURES : Z := 12.
Definition CEPH_MSGR_TAG_SEQ : Z := 13.

Definition ceph_msg_revoke_incoming (m : nat) : M unit :=
  x ⟵ getm m;
  if negb (m_con x) then ret tt
  else
    o ⟵ getc c_in_msg;
    when (bool_decide (o = Some m))
      (modc (fun c =>
         let h := header_of (c_in_hdr c) in
         c <| c_in_base_pos ::= fun p =>
           s32 (p - sizeof_header - h_front_len h - h_middle_len h - h_data_len h - sizeof_footer) |>) ;;
       ceph_msg_put m ;;
       modc (fun c => c <| c_in_msg := None |> <| c_in_tag := CEPH_MSGR_TAG_READY |>
                        <| c_in_seq ::= fun s => u64 (s + 1) |>)).

Definition ceph_con_keepalive : M unit :=
  clear_standby ;;
  ka ⟵ con_flag_test_and_set CON_FLAG_KEEPALIVE_PENDING;
  when (negb ka)
    (wp ⟵ con_flag_test_and_set CON_FLAG_WRITE_PENDING;
     when (negb wp) queue_con).

(** ** The socket's callbacks *)
Inductive tcp_state : Type := TCP_ESTABLISHED | TCP_CLOSE | TCP_CLOSE_WAIT | TCP_OTHER.

Definition ceph_sock_data_ready (sk_state : tcp_state) : M unit :=
  stopping ⟵ gets (fun w => mr_stopping (w_msgr w));
  if (stopping : bool) then ret tt
  else match sk_state with TCP_CLOSE_WAIT => ret tt | _ => queue_con end.

(** [enough]: sk_stream_wspace (sk) >= sk_stream_min_wspace (sk) *)
Definition ceph_sock_write_space (enough : bool) : M unit :=
  wp ⟵ con_flag_test CON_FLAG_WRITE_PENDING;
  when (wp && enough) queue_con.

Definition ceph_sock_state_change (sk_state : tcp_state) : M unit :=
  match sk_state with
  | TCP_CLOSE | TCP_CLOSE_WAIT =>
      con_sock_state_closing ;; con_flag_set CON_FLAG_SOCK_CLOSED ;; queue_con
  | TCP_ESTABLISHED => con_sock_state_connected ;; queue_con
  | TCP_OTHER => ret tt
  end.

(** ** Making messages *)
Definition CEPH_MSG_PRIO_DEFAULT : Z := 127.

(** [msg_ok] and [front_ok] tell whether the two allocations succeed. *)
Definition ceph_msg_new (msg_ok front_ok : bool) (type front_len : Z) : option ceph_msg :=
  if negb msg_ok then None
  else if negb (front_len =? 0) && negb front_ok then None
  else
    Some (Msg (MsgHeader 0 0 (u16 type) CEPH_MSG_PRIO_DEFAULT 0 (u32 front_len) 0 0 0 (EntityName 0 0) 0 0)
      (MsgFooter 0 0 0 0) (Kvec (repeat 0 (Z.to_nat front_len)) front_len) None 0 []
      (DataCursor 0 [] 0 false false PosNone) false 1 false false front_len None).

(** [data_ok]: the item could be allocated *)
Definition add_item (data_ok : bool) (d : ceph_msg_data) (len : Z) (x : ceph_msg) : outcome ceph_msg :=
  _ ← bug_on (negb data_ok);
  Ret (x <| m_data ::= fun l => l ++ [d] |> <| m_data_length ::= fun n => u64 (n + len) |>).

Definition ceph_msg_data_add_pages (PAGE_SHIFT : Z) (data_ok : bool) (x : ceph_msg)
    (pages : option (list (option nat))) (length alignment : Z) : outcome ceph_msg :=
  _ ← bug_on (bool_decide (pages = None));
  _ ← bug_on (length =? 0);
  add_item data_ok (DataPages pages length (u32 (in_page PAGE_SHIFT alignment))) length x.

Definition ceph_msg_data_add_pagelist (data_ok : bool) (x : ceph_msg) (pl : option (list nat * Z))
  : outcome ceph_msg :=
  match pl with
  | None => Fault BugOn
  | Some (_, len) => _ ← bug_on (len =? 0); add_item data_ok (DataPagelist pl) len x
  end.

Definition ceph_msg_data_add_bio (data_ok : bool) (x : ceph_msg) (b : list bio) (length : Z)
  : outcome ceph_msg :=
  _ ← bug_on (bool_decide (b = []));
  add_item data_ok (DataBio b length) length x.

End Machine.
