(* ===== verification/MsgrIO.v ===== *)
(** * Connections: reading and writing

    Models the I/O of net/ceph/messenger.c: the vectors of pending output, the
    writers and readers that resume where the socket stopped them, the
    handshake, try_write, try_read and con_work.

    The callbacks of a connection (struct ceph_connection_operations) are the
    class [ConOps]: they run without the connection's mutex and may change
    anything.  crc32c is the kernel's; page contents are in [w_mem]. *)
From S2P Require Import Prelude.
From S2P Require Import Wire.
From S2P Require Import OsdMapDecode.
From S2P Require Import MsgCursor.
From S2P Require Import Msgr.
From stdpp Require Import gmap.
#[local] Open Scope Z_scope.
#[local] Open Scope ceph_scope.
#[local] Open Scope msgr_scope.

Definition EBADMSG : Z := 74.
Definition EINPROGRESS : Z := 115.

(** struct ceph_auth_handshake *)
Record ceph_auth_handshake := AuthHandshake {
  authorizer_buf : list Z;
  authorizer_reply_buf : list Z }.

Class ConOps := {
  op_dispatch : nat -> world -> world;
  op_alloc_msg : ceph_msg_header -> world -> option nat * bool * world;
  (** the authorizer, or an error, and the protocol; None: no such callback *)
  op_get_authorizer : option (Z -> world -> (Z + option ceph_auth_handshake) * Z * world);
  op_peer_reset : world -> world;
  op_fault : world -> world;
  op_invalidate_authorizer : world -> world }.

(** "ceph v027" *)
Definition CEPH_BANNER : list Z := [99; 101; 112; 104; 32; 118; 48; 50; 55].

Definition CEPH_ENTITY_TYPE_MON : Z := 1.
Definition CEPH_ENTITY_TYPE_MDS : Z := 2.
Definition CEPH_ENTITY_TYPE_OSD : Z := 4.
Definition CEPH_ENTITY_TYPE_CLIENT : Z := 8.
Definition CEPH_OSDC_PROTOCOL : Z := 24.
Definition CEPH_MDSC_PROTOCOL : Z := 32.
Definition CEPH_MONC_PROTOCOL : Z := 15.
Definition CEPH_AUTH_UNKNOWN : Z := 0.
Definition CEPH_MSG_MAX_FRONT_LEN : Z := 16 * 1024 * 1024.
Definition CEPH_MSG_MAX_MIDDLE_LEN : Z := 16 * 1024 * 1024.
Definition CEPH_MSG_MAX_DATA_LEN : Z := 16 * 1024 * 1024.
Definition CEPH_MSG_FOOTER_COMPLETE : Z := 1.
Definition CEPH_MSG_FOOTER_NOCRC : Z := 2.
Definition CEPH_MSG_CONNECT_LOSSY : Z := 1.
Definition CEPH_FEATURE_RESERVED : Z := Z.shiftl 1 63.

Definition ceph_sanitize_features (features : Z) : Z :=
  if negb (Z.land features CEPH_FEATURE_RESERVED =? 0) then 0x1ffffffff else features.

(** ** Addresses

    A struct ceph_entity_addr is its 136 bytes: type, nonce at 4, and at 8 a
    sockaddr_storage whose family is in host order and whose port is not. *)
Definition AF_INET : Z := 2.
Definition AF_INET6 : Z := 10.

Definition addr_family (a : list Z) : Z := field a 8 2.
Definition addr_nonce (a : list Z) : Z := field a 4 4.

Definition addr_is_blank (a : list Z) : bool :=
  if addr_family a =? AF_INET then field a 12 4 =? 0
  else if addr_family a =? AF_INET6 then
    (field a 16 4 =? 0) && (field a 20 4 =? 0) && (field a 24 4 =? 0) && (field a 28 4 =? 0)
  else false.

Definition addr_port (a : list Z) : Z :=
  if (addr_family a =? AF_INET) || (addr_family a =? AF_INET6)
  then field a 10 1 * 256 + field a 11 1 else 0.

Definition addr_set_port (a : list Z) (p : Z) : list Z :=
  if (addr_family a =? AF_INET) || (addr_family a =? AF_INET6)
  then <[10%nat := u8 (u16 p / 256)]> (<[11%nat := u8 p]> a) else a.

Section IO.
Context (PAGE_SHIFT HZ : Z) (work_queued : world -> bool).
Context (crc32c : Z -> list Z -> Z).
Context (buffer_ok : world -> bool).
Context `{ConOps}.
Let PAGE_SIZE := 2 ^ PAGE_SHIFT.

(** ** The socket *)

(** The return value and the bytes stored; -EAGAIN is turned into 0. *)
Definition ceph_tcp_recvmsg (len : Z) : M (Z * list Z) :=
  s ⟵ getc c_sock;
  if negb s then fail NullPointer
  else
    rx ⟵ gets w_rx;
    match rx with
    | [] => ret (0, [])
    | RxErr e :: rx => modw (fun w => w <| w_rx := rx |>) ;; ret (if e =? EAGAIN then 0 else - e, [])
    | RxData l :: rx =>
        let n := Z.min len (Z.of_nat (length l)) in
        let rest := drop (Z.to_nat n) l in
        modw (fun w => w <| w_rx := if bool_decide (rest = []) then rx else RxData rest :: rx |>) ;;
        ret (n, take (Z.to_nat n) l)
    end.

(** [bytes] is all that is offered. *)
Definition ceph_tcp_sendmsg (bytes : list Z) : M Z :=
  s ⟵ getc c_sock;
  if negb s then fail NullPointer
  else
    room ⟵ gets w_room;
    match room with
    | [] => ret 0
    | r :: room =>
        modw (fun w => w <| w_room := room |>) ;;
        if r <=? 0 then ret (if r =? - EAGAIN then 0 else r)
        else
          let n := Z.min r (Z.of_nat (length bytes)) in
          modw (fun w => w <| w_tx ::= fun tx => tx ++ take (Z.to_nat n) bytes |>) ;; ret n
    end.

(** The [len] bytes at [off] of a page. *)
Definition page_bytes_at (page : nat) (off len : Z) : M (list Z) := fun w =>
  match w_mem w !! page with
  | None => Fault NullPointer
  | Some b => if Z.of_nat (length b) <? off + len then Fault OutOfBounds else Ret (slice b off len, w)
  end.

Definition ceph_tcp_sendpage (page : nat) (off len : Z) : M Z :=
  b ⟵ page_bytes_at page off len; ceph_tcp_sendmsg b.

Definition ceph_tcp_recvpage (page : nat) (off len : Z) : M Z :=
  bugon (PAGE_SIZE <? off + len) ;;
  '(r, b) ⟵ ceph_tcp_recvmsg len;
  mem ⟵ gets w_mem;
  match mem !! page with
  | None => fail NullPointer
  | Some p => p ⟵ lift (write_bytes p off b); modw (fun w => w <| w_mem := <[page := p]> mem |>) ;; ret r
  end.

(** The results of sock_create_kern and connect are those of the world. *)
Definition ceph_tcp_connect : M Z :=
  s ⟵ getc c_sock;
  bugon s ;;
  socks ⟵ gets w_socks;
  let '(create, connect, socks) :=
    match socks with (a, b) :: l => (a, b, l) | [] => (0, - EINPROGRESS, []) end in
  modw (fun w => w <| w_socks := socks |>) ;;
  if negb (create =? 0) then ret create
  else
    con_sock_state_connecting ;;
    if (connect <? 0) && negb (connect =? - EINPROGRESS) then ret connect
    else modc (fun c => c <| c_sock := true |>) ;; ret 0.

(** ** Pending output *)
Definition con_out_kvec_reset : M unit :=
  modc (fun c => c <| c_out_kvec_left := 0 |> <| c_out_kvec_bytes := 0 |> <| c_out_kvec_cur := 0 |>).

Definition con_out_kvec_add (size : Z) (t : kv_target) : M unit :=
  index ⟵ getc c_out_kvec_left;
  bugon (8 <=? index) ;;
  kv ⟵ getc c_out_kvec;
  kv ⟵ lift (wr kv index (KvEntry t 0 size));
  modc (fun c => c <| c_out_kvec := kv |> <| c_out_kvec_left ::= Z.succ |>
                   <| c_out_kvec_bytes ::= fun b => s32 (b + size) |>).

Definition target_bytes (t : kv_target) (w : world) : outcome (list Z) :=
  let of_msg m (f : ceph_msg -> list Z) := x ← deref (w_msgs w !! m); Ret (f x) in
  match t with
  | KvTag tag => Ret [tag]
  | KvTempAck => Ret (le_bytes 8 (c_out_temp_ack (w_con w)))
  | KvHeader m => of_msg m (fun x => header_bytes (m_hdr x))
  | KvFront m => of_msg m (fun x => iov_base (m_front x))
  | KvMiddle m => x ← deref (w_msgs w !! m); v ← deref (m_middle x); Ret (iov_base v)
  | KvFooter m => of_msg m (fun x => footer_bytes (m_footer x))
  | KvBanner => Ret CEPH_BANNER
  | KvMyAddr => Ret (mr_my_enc_addr (w_msgr w))
  | KvConnect => Ret (c_out_connect (w_con w))
  | KvAuth b => Ret b
  end.

Definition entry_bytes (w : world) (e : out_kvec_entry) : outcome (list Z) :=
  b ← target_bytes (kv_target_of e) w;
  if Z.of_nat (length b) <? kv_off e + kv_len e then Fault OutOfBounds else Ret (slice b (kv_off e) (kv_len e)).

Fixpoint entries_bytes (w : world) (l : list out_kvec_entry) : outcome (list Z) :=
  match l with
  | [] => Ret []
  | e :: l => b ← entry_bytes w e; bs ← entries_bytes w l; Ret (b ++ bs)
  end.

(** The entries from [out_kvec_cur] on. *)
Definition pending_entries (c : ceph_connection) : list out_kvec_entry :=
  slice (c_out_kvec c) (c_out_kvec_cur c) (c_out_kvec_left c).

(** ** Messages *)
Definition prepare_message_data (m : nat) (data_len : Z) : M unit :=
  bugon (data_len =? 0) ;;
  x ⟵ getm m;
  cu ⟵ lift (ceph_msg_data_cursor_init PAGE_SHIFT (m_cursor x) (m_data x) (m_data_length x) data_len);
  modm m (fun x => x <| m_cursor := cu |>).

(** [con->out_msg], which the callers have set *)
Definition out_msg : M nat := o ⟵ getc c_out_msg; lift (deref o).

Definition prepare_write_message_footer : M unit :=
  m ⟵ out_msg;
  v ⟵ getc c_out_kvec_left;
  modm m (fun x => x <| m_footer ::= fun f => f <| f_flags ::= fun g => Z.lor g CEPH_MSG_FOOTER_COMPLETE |> |>) ;;
  x ⟵ getm m;
  kv ⟵ getc c_out_kvec;
  kv ⟵ lift (wr kv v (KvEntry (KvFooter m) 0 sizeof_footer));
  modc (fun c => c <| c_out_kvec_is_msg := true |> <| c_out_kvec := kv |>
                   <| c_out_kvec_bytes ::= fun b => s32 (b + sizeof_footer) |>
                   <| c_out_kvec_left ::= Z.succ |> <| c_out_more := m_more_to_follow x |>
                   <| c_out_msg_done := true |>).

(** An ack of everything received, as the tag and the number. *)
Definition add_ack : M unit :=
  modc (fun c => c <| c_in_seq_acked := c_in_seq c |>) ;;
  con_out_kvec_add 1 (KvTag CEPH_MSGR_TAG_ACK) ;;
  modc (fun c => c <| c_out_temp_ack := c_in_seq_acked c |>) ;;
  con_out_kvec_add 8 KvTempAck.

(** The first of the queue becomes [out_msg], on the sent list and with its
    sequence number. *)
Definition take_out_msg : M nat :=
  q ⟵ getc c_out_queue;
  match q with
  | [] => fail BugOn
  | m :: q =>
      modc (fun c => c <| c_out_msg := Some m |>) ;;
      x ⟵ getm m;
      bugon (negb (m_con x)) ;;
      ceph_msg_get m ;;
      modc (fun c => c <| c_out_queue := q |> <| c_out_sent ::= fun s => s ++ [m] |>) ;;
      when (m_needs_out_seq x)
        (modc (fun c => c <| c_out_seq ::= fun s => u64 (s + 1) |>) ;;
         seq ⟵ getc c_out_seq;
         modm m (fun x => x <| m_hdr ::= fun h => h <| h_seq := seq |> |> <| m_needs_out_seq := false |>)) ;;
      ret m
  end.

(** crcs of the header, the front and the middle *)
Definition fill_crcs (m : nat) : M unit :=
  modm m (fun x =>
    x <| m_hdr ::= fun h => h <| h_crc := crc32c 0 (header_body h) |> |>
      <| m_footer := MsgFooter
           (crc32c 0 (take (Z.to_nat (iov_len (m_front x))) (iov_base (m_front x))))
           (match m_middle x with
            | Some v => crc32c 0 (take (Z.to_nat (iov_len v)) (iov_base v))
            | None => 0
            end) 0 0 |>).

Definition prepare_write_message : M unit :=
  con_out_kvec_reset ;;
  modc (fun c => c <| c_out_kvec_is_msg := true |> <| c_out_msg_done := false |>) ;;
  ack ⟵ getc (fun c => c_in_seq_acked c <? c_in_seq c);
  when ack add_ack ;;
  m ⟵ take_out_msg;
  x ⟵ getm m;
  warnon (negb (m_data_length x =? h_data_len (m_hdr x))) ;;
  bugon (negb (h_front_len (m_hdr x) =? iov_len (m_front x))) ;;
  con_out_kvec_add 1 (KvTag CEPH_MSGR_TAG_MSG) ;;
  con_out_kvec_add sizeof_header (KvHeader m) ;;
  con_out_kvec_add (iov_len (m_front x)) (KvFront m) ;;
  match m_middle x with
  | Some v => con_out_kvec_add (iov_len v) (KvMiddle m)
  | None => ret tt
  end ;;
  fill_crcs m ;;
  (if m_data_length x =? 0 then prepare_write_message_footer
   else prepare_message_data m (u32 (m_data_length x)) ;; modc (fun c => c <| c_out_more := true |>)) ;;
  con_flag_set CON_FLAG_WRITE_PENDING.

Definition prepare_write_ack : M unit :=
  modc (fun c => c <| c_in_seq_acked := c_in_seq c |>) ;;
  con_out_kvec_reset ;;
  con_out_kvec_add 1 (KvTag CEPH_MSGR_TAG_ACK) ;;
  modc (fun c => c <| c_out_temp_ack := c_in_seq_acked c |>) ;;
  con_out_kvec_add 8 KvTempAck ;;
  modc (fun c => c <| c_out_more := true |>) ;;
  con_flag_set CON_FLAG_WRITE_PENDING.

Definition prepare_write_seq : M unit :=
  modc (fun c => c <| c_in_seq_acked := c_in_seq c |>) ;;
  con_out_kvec_reset ;;
  modc (fun c => c <| c_out_temp_ack := c_in_seq_acked c |>) ;;
  con_out_kvec_add 8 KvTempAck ;;
  con_flag_set CON_FLAG_WRITE_PENDING.

Definition prepare_write_keepalive : M unit :=
  con_out_kvec_reset ;;
  con_out_kvec_add 1 (KvTag CEPH_MSGR_TAG_KEEPALIVE) ;;
  con_flag_set CON_FLAG_WRITE_PENDING.

(** ** The handshake, our side *)

(** The authorizer, if any, and its protocol. *)
Definition get_connect_authorizer : M (Z + (option ceph_auth_handshake * Z)) :=
  match op_get_authorizer with
  | None => ret (inr (None, CEPH_AUTH_UNKNOWN))
  | Some get =>
      retry ⟵ getc c_auth_retry;
      '(auth, proto) ⟵ (fun w => let '(auth, proto, w) := get retry w in Ret ((auth, proto), w));
      match auth with
      | inl e => ret (inl e)
      | inr auth =>
          s ⟵ getc c_state;
          if negb (s =? CON_STATE_NEGOTIATING) then ret (inl EAGAIN)
          else
            a ⟵ lift (deref auth);
            modc (fun c => c <| c_auth_reply_buf := Some (authorizer_reply_buf a) |>) ;;
            ret (inr (Some a, proto))
      end
  end.

Definition prepare_write_banner : M unit :=
  con_out_kvec_add 9 KvBanner ;;
  con_out_kvec_add 136 KvMyAddr ;;
  modc (fun c => c <| c_out_more := false |>) ;;
  con_flag_set CON_FLAG_WRITE_PENDING.

Definition prepare_write_connect : M Z :=
  global_seq ⟵ get_global_seq 0;
  type ⟵ getc (fun c => en_type (c_peer_name c));
  proto ⟵ (if type =? CEPH_ENTITY_TYPE_MON then ret CEPH_MONC_PROTOCOL
            else if type =? CEPH_ENTITY_TYPE_OSD then ret CEPH_OSDC_PROTOCOL
            else if type =? CEPH_ENTITY_TYPE_MDS then ret CEPH_MDSC_PROTOCOL
            else fail BugOn);
  features ⟵ gets (fun w => mr_supported_features (w_msgr w));
  cseq ⟵ getc c_connect_seq;
  let fields := [(8%nat, features); (4%nat, CEPH_ENTITY_TYPE_CLIENT); (4%nat, global_seq); (4%nat, cseq);
                 (4%nat, proto)] in
  modc (fun c => c <| c_out_connect := pack fields ++ slice (c_out_connect c) 24 8 ++ [0] |>) ;;
  auth ⟵ get_connect_authorizer;
  match auth with
  | inl e => ret (- e)
  | inr (auth, auth_proto) =>
      let buf := match auth with Some a => authorizer_buf a | None => [] end in
      modc (fun c => c <| c_out_connect :=
        pack fields ++ pack [(4%nat, auth_proto); (4%nat, Z.of_nat (length buf))] ++ [0] |>) ;;
      con_out_kvec_add 33 KvConnect ;;
      when (negb (bool_decide (buf = []))) (con_out_kvec_add (Z.of_nat (length buf)) (KvAuth buf)) ;;
      modc (fun c => c <| c_out_more := false |>) ;;
      con_flag_set CON_FLAG_WRITE_PENDING ;;
      ret 0
  end.

(** ** Writing *)

(** Skip the entries that [r] bytes have used up; the offset in the next one. *)
Fixpoint consume_entries (fuel : nat) (r : Z) : M Z :=
  match fuel with
  | O => fail OutOfFuel
  | S fuel =>
      kv ⟵ getc c_out_kvec;
      cur ⟵ getc c_out_kvec_cur;
      e ⟵ lift (rd kv cur);
      if kv_len e <=? r then
        left ⟵ getc c_out_kvec_left;
        bugon (left =? 0) ;;
        modc (fun c => c <| c_out_kvec_cur ::= Z.succ |> <| c_out_kvec_left ::= Z.pred |>) ;;
        consume_entries fuel (r - kv_len e)
      else ret r
  end.

Definition advance_entry (r : Z) : M unit :=
  kv ⟵ getc c_out_kvec;
  cur ⟵ getc c_out_kvec_cur;
  e ⟵ lift (rd kv cur);
  kv ⟵ lift (wr kv cur (KvEntry (kv_target_of e) (kv_off e + r) (kv_len e - r)));
  modc (fun c => c <| c_out_kvec := kv |>).

(** [while (con->out_kvec_bytes > 0)] *)
Fixpoint write_kvec_loop (fuel : nat) : M Z :=
  match fuel with
  | O => fail OutOfFuel
  | S fuel =>
      bytes ⟵ getc c_out_kvec_bytes;
      let done_ := modc (fun c => c <| c_out_kvec_left := 0 |> <| c_out_kvec_is_msg := false |>) ;; ret 1 in
      if bytes <=? 0 then done_
      else
        b ⟵ (fun w => b ← entries_bytes w (pending_entries (w_con w)); Ret (b, w));
        if Z.of_nat (length b) <? bytes then fail OutOfBounds
        else
          r ⟵ ceph_tcp_sendmsg (take (Z.to_nat bytes) b);
          if r <=? 0 then ret r
          else
            modc (fun c => c <| c_out_kvec_bytes ::= fun b => b - r |>) ;;
            bytes ⟵ getc c_out_kvec_bytes;
            if bytes =? 0 then done_
            else
              left ⟵ getc c_out_kvec_left;
              r ⟵ consume_entries (S (Z.to_nat left)) r;
              when (negb (r =? 0)) (advance_entry r) ;;
              write_kvec_loop fuel
  end.

Definition write_partial_kvec : M Z :=
  bytes ⟵ getc c_out_kvec_bytes; write_kvec_loop (S (Z.to_nat bytes)).

Definition ceph_crc32c_page (crc : Z) (page : nat) (off len : Z) : M Z :=
  b ⟵ page_bytes_at page off len; ret (crc32c crc b).

(** [while (cursor->resid)]: the code to return and the crc. *)
Fixpoint write_data_loop (fuel : nat) (m : nat) (do_datacrc : bool) (crc : Z) : M (Z * Z) :=
  match fuel with
  | O => fail OutOfFuel
  | S fuel =>
      x ⟵ getm m;
      let cu := m_cursor x in
      if cu_resid cu =? 0 then ret (1, crc)
      else
        '(page, off, len, _) ⟵ lift (ceph_msg_data_next PAGE_SHIFT cu);
        r ⟵ ceph_tcp_sendpage page off len;
        if r <=? 0 then ret (r, crc)
        else
          crc ⟵ (if do_datacrc && cu_need_crc cu then ceph_crc32c_page crc page off len else ret crc);
          '(cu, _) ⟵ lift (ceph_msg_data_advance PAGE_SHIFT cu r);
          modm m (fun x => x <| m_cursor := cu |>) ;;
          write_data_loop fuel m do_datacrc crc
  end.

Definition write_partial_message_data : M Z :=
  m ⟵ out_msg;
  x ⟵ getm m;
  if bool_decide (length (m_data x) = 0%nat) then ret (- EINVAL)
  else
    nocrc ⟵ gets (fun w => mr_nocrc (w_msgr w));
    let do_datacrc := negb nocrc in
    let set_data_crc crc :=
      when do_datacrc (modm m (fun x => x <| m_footer ::= fun f => f <| f_data_crc := crc |> |>)) in
    '(r, crc) ⟵ write_data_loop (S (Z.to_nat (cu_total_resid (m_cursor x)))) m do_datacrc
                 (if do_datacrc then f_data_crc (m_footer x) else 0);
    if r <=? 0 then set_data_crc crc ;; ret r
    else
      set_data_crc crc ;;
      when (negb do_datacrc)
        (modm m (fun x => x <| m_footer ::= fun f => f <| f_flags ::= fun g => Z.lor g CEPH_MSG_FOOTER_NOCRC |> |>)) ;;
      con_out_kvec_reset ;;
      prepare_write_message_footer ;;
      ret 1.

(** [while (con->out_skip > 0)] *)
Fixpoint write_skip_loop (fuel : nat) : M Z :=
  match fuel with
  | O => fail OutOfFuel
  | S fuel =>
      skip ⟵ getc c_out_skip;
      if skip <=? 0 then ret 1
      else
        r ⟵ ceph_tcp_sendmsg (repeat 0 (Z.to_nat (Z.min skip PAGE_SIZE)));
        if r <=? 0 then ret r
        else modc (fun c => c <| c_out_skip ::= fun s => s - r |>) ;; write_skip_loop fuel
  end.

Definition write_partial_skip : M Z := skip ⟵ getc c_out_skip; write_skip_loop (S (Z.to_nat skip)).

(** ** Preparing to read *)
Definition prepare_read_banner : M unit := modc (fun c => c <| c_in_base_pos := 0 |>).
Definition prepare_read_connect : M unit := modc (fun c => c <| c_in_base_pos := 0 |>).
Definition prepare_read_ack : M unit := modc (fun c => c <| c_in_base_pos := 0 |>).
Definition prepare_read_seq : M unit :=
  modc (fun c => c <| c_in_base_pos := 0 |> <| c_in_tag := CEPH_MSGR_TAG_SEQ |>).
Definition prepare_read_tag : M unit :=
  modc (fun c => c <| c_in_base_pos := 0 |> <| c_in_tag := CEPH_MSGR_TAG_READY |>).
Definition prepare_read_message : M unit :=
  o ⟵ getc c_in_msg;
  bugon (bool_decide (is_Some o)) ;;
  modc (fun c => c <| c_in_base_pos := 0 |> <| c_in_front_crc := 0 |> <| c_in_middle_crc := 0 |>
                   <| c_in_data_crc := 0 |>).

(** ** try_write

    The labels of the C function. *)
Inductive write_label : Type := More | MoreKvec | DoNext.

Definition write_open : M Z :=
  s ⟵ getc c_sock;
  bugon s ;;
  set_state CON_STATE_CONNECTING ;;
  con_out_kvec_reset ;;
  prepare_write_banner ;;
  prepare_read_banner ;;
  o ⟵ getc c_in_msg;
  bugon (bool_decide (is_Some o)) ;;
  modc (fun c => c <| c_in_tag := CEPH_MSGR_TAG_READY |>) ;;
  ceph_tcp_connect.

(** From [more_kvec] on: the label to continue at, or the code to return. *)
Definition write_pending : M (write_label + Z) :=
  skip ⟵ getc c_out_skip;
  r ⟵ (if skip =? 0 then ret 1 else write_partial_skip);
  if r <=? 0 then ret (inr r)
  else
    left ⟵ getc c_out_kvec_left;
    r ⟵ (if left =? 0 then ret 1 else write_partial_kvec);
    if r <=? 0 then ret (inr r)
    else
      o ⟵ getc c_out_msg;
      match o with
      | None => ret (inl DoNext)
      | Some m =>
          done_ ⟵ getc c_out_msg_done;
          if (done_ : bool) then
            ceph_msg_put m ;; modc (fun c => c <| c_out_msg := None |>) ;; ret (inl DoNext)
          else
            r ⟵ write_partial_message_data;
            if r =? 1 then ret (inl MoreKvec) else if r <=? 0 then ret (inr r) else ret (inl DoNext)
      end.

(** From [do_next] on: whether something was prepared. *)
Definition write_next : M bool :=
  s ⟵ getc c_state;
  let nothing := con_flag_clear CON_FLAG_WRITE_PENDING ;; ret false in
  if negb (s =? CON_STATE_OPEN) then nothing
  else
    q ⟵ getc c_out_queue;
    if negb (bool_decide (q = [])) then prepare_write_message ;; ret true
    else
      ack ⟵ getc (fun c => c_in_seq_acked c <? c_in_seq c);
      if (ack : bool) then prepare_write_ack ;; ret true
      else
        ka ⟵ con_flag_test_and_clear CON_FLAG_KEEPALIVE_PENDING;
        if (ka : bool) then prepare_write_keepalive ;; ret true else nothing.

Fixpoint try_write_loop (fuel : nat) (l : write_label) : M Z :=
  match fuel with
  | O => fail OutOfFuel
  | S fuel =>
      match l with
      | More =>
          s ⟵ getc c_state;
          if s =? CON_STATE_PREOPEN then
            r ⟵ write_open;
            if r <? 0 then ret r else try_write_loop fuel MoreKvec
          else try_write_loop fuel MoreKvec
      | MoreKvec =>
          n ⟵ write_pending;
          match n with inl l => try_write_loop fuel l | inr r => ret r end
      | DoNext =>
          more ⟵ write_next;
          if (more : bool) then try_write_loop fuel More else ret 0
      end
  end.

Definition try_write (fuel : nat) : M Z := try_write_loop fuel More.

End IO.
