(* ===== verification/MsgrRead.v ===== *)
(** * Connections: reading

    The readers of net/ceph/messenger.c, which resume where the last read of
    the socket ended, what they do with what they have read, and the work
    function of a connection. *)
From S2P Require Import Prelude.
From S2P Require Import Wire.
From S2P Require Import OsdMapDecode.
From S2P Require Import MsgCursor.
From S2P Require Import Msgr.
From S2P Require Import MsgrIO.
From stdpp Require Import gmap.
#[local] Open Scope Z_scope.
#[local] Open Scope ceph_scope.
#[local] Open Scope msgr_scope.

Section Read.
Context (PAGE_SHIFT HZ : Z) (work_queued : world -> bool).
Context (crc32c : Z -> list Z -> Z).
Context (buffer_ok : world -> bool).
Context `{ConOps}.

(** ** Resumable reads *)

(** An object of the connection or of a message, as the bytes it occupies. *)
Record object := Object { obj_get : M (list Z); obj_put : list Z -> M unit }.

Definition con_object (get : ceph_connection -> list Z) (put : list Z -> ceph_connection -> ceph_connection)
  : object := Object (getc get) (fun b => modc (put b)).

Fixpoint read_partial_loop (fuel : nat) (end_ size : Z) (o : object) : M Z :=
  match fuel with
  | O => fail OutOfFuel
  | S fuel =>
      pos ⟵ getc c_in_base_pos;
      if end_ <=? pos then ret 1
      else
        let left := end_ - pos in
        let have := size - left in
        '(r, b) ⟵ ceph_tcp_recvmsg left;
        old ⟵ obj_get o;
        new ⟵ lift (write_bytes old have b);
        obj_put o new ;;
        if r <=? 0 then ret r
        else modc (fun c => c <| c_in_base_pos ::= fun p => p + r |>) ;; read_partial_loop fuel end_ size o
  end.

Definition read_partial (end_ size : Z) (o : object) : M Z :=
  pos ⟵ getc c_in_base_pos; read_partial_loop (S (Z.to_nat (end_ - pos))) end_ size o.

(** [if (ret <= 0) goto out], where [out] returns it *)
Definition unless_done (m : M Z) (k : M Z) : M Z := r ⟵ m; if r <=? 0 then ret r else k.

(** ** The handshake, the peer's side *)
Definition read_partial_banner : M Z :=
  let s1 := 9 in
  unless_done (read_partial s1 s1 (con_object c_in_banner (fun b c => c <| c_in_banner := b |>)))
    (unless_done (read_partial (s1 + 136) 136
       (con_object c_actual_peer_addr (fun b c => c <| c_actual_peer_addr := b |>)))
       (read_partial (s1 + 136 + 136) 136
          (con_object c_peer_addr_for_me (fun b c => c <| c_peer_addr_for_me := b |>)))).

Definition reply_tag (b : list Z) : Z := field b 0 1.
Definition reply_features (b : list Z) : Z := field b 1 8.
Definition reply_global_seq (b : list Z) : Z := field b 9 4.
Definition reply_connect_seq (b : list Z) : Z := field b 13 4.
Definition reply_authorizer_len (b : list Z) : Z := field b 21 4.
Definition reply_flags (b : list Z) : Z := field b 25 1.

(** The buffer of the authorizer's reply; there is none before the first
    authorizer. *)
Definition auth_reply_object : object :=
  Object (o ⟵ getc c_auth_reply_buf; lift (deref o)) (fun b => modc (fun c => c <| c_auth_reply_buf := Some b |>)).

Definition read_partial_connect : M Z :=
  unless_done (read_partial 26 26 (con_object c_in_reply (fun b c => c <| c_in_reply := b |>)))
    (reply ⟵ getc c_in_reply;
     let size := s32 (reply_authorizer_len reply) in
     read_partial (s32 (26 + size)) size auth_reply_object).

Definition verify_hello (c : ceph_connection) : bool :=
  bool_decide (take 9 (c_in_banner c) = CEPH_BANNER).

(** 0, or -1 *)
Definition process_banner : M Z :=
  c ⟵ getc id;
  if negb (verify_hello c) then ret (-1)
  else
    modc (fun c => c <| c_actual_peer_addr ::= ceph_decode_addr |> <| c_peer_addr_for_me ::= ceph_decode_addr |>) ;;
    c ⟵ getc id;
    if negb (bool_decide (c_peer_addr c = c_actual_peer_addr c)) &&
       negb (addr_is_blank (c_actual_peer_addr c) &&
             (addr_nonce (c_actual_peer_addr c) =? addr_nonce (c_peer_addr c)))
    then ret (-1)
    else
      my ⟵ gets (fun w => mr_addr (w_msgr w));
      when (addr_is_blank my)
        (let addr := addr_set_port (take 8 my ++ drop 8 (c_peer_addr_for_me c)) (addr_port my) in
         modw (fun w => w <| w_msgr ::= fun r =>
           r <| mr_addr := addr |> <| mr_my_enc_addr := ceph_decode_addr addr |> |>)) ;;
      ret 0.

(** con_out_kvec_reset, prepare_write_connect, prepare_read_connect *)
Definition connect_again : M Z :=
  con_out_kvec_reset ;;
  r ⟵ prepare_write_connect;
  if r <? 0 then ret r else prepare_read_connect ;; ret 0.

(** The peer accepts: the session is open. *)
Definition session_ready (reply : list Z) (server_feat : Z) : M Z :=
  req_feat ⟵ gets (fun w => mr_required_features (w_msgr w));
  if negb (Z.land req_feat (Z.lnot server_feat) =? 0) then reset_connection ;; ret (-1)
  else
    s ⟵ getc c_state;
    warnon (negb (s =? CON_STATE_NEGOTIATING)) ;;
    modc (fun c => c <| c_state := CON_STATE_OPEN |> <| c_auth_retry := 0 |>
                     <| c_peer_global_seq := reply_global_seq reply |>
                     <| c_connect_seq ::= fun x => u32 (x + 1) |> <| c_peer_features := server_feat |>) ;;
    cseq ⟵ getc c_connect_seq;
    warnon (negb (cseq =? reply_connect_seq reply)) ;;
    when (negb (Z.land (reply_flags reply) CEPH_MSG_CONNECT_LOSSY =? 0)) (con_flag_set CON_FLAG_LOSSYTX) ;;
    modc (fun c => c <| c_delay := 0 |>) ;;
    (if reply_tag reply =? CEPH_MSGR_TAG_SEQ then prepare_write_seq ;; prepare_read_seq
     else prepare_read_tag) ;;
    ret 0.

Definition process_connect : M Z :=
  reply ⟵ getc c_in_reply;
  let server_feat := ceph_sanitize_features (reply_features reply) in
  let tag := reply_tag reply in
  if (tag =? CEPH_MSGR_TAG_FEATURES) || (tag =? CEPH_MSGR_TAG_BADPROTOVER) then reset_connection ;; ret (-1)
  else if tag =? CEPH_MSGR_TAG_BADAUTHORIZER then
    modc (fun c => c <| c_auth_retry ::= Z.succ |>) ;;
    retry ⟵ getc c_auth_retry;
    if retry =? 2 then ret (-1) else connect_again
  else if tag =? CEPH_MSGR_TAG_RESETSESSION then
    reset_connection ;;
    r ⟵ connect_again;
    if r <? 0 then ret r
    else
      log EvPeerReset ;; modw op_peer_reset ;;
      s ⟵ getc c_state;
      if negb (s =? CON_STATE_NEGOTIATING) then ret (- EAGAIN) else ret 0
  else if tag =? CEPH_MSGR_TAG_RETRY_SESSION then
    modc (fun c => c <| c_connect_seq := reply_connect_seq reply |>) ;; connect_again
  else if tag =? CEPH_MSGR_TAG_RETRY_GLOBAL then
    _ ⟵ get_global_seq (reply_global_seq reply); connect_again
  else if (tag =? CEPH_MSGR_TAG_SEQ) || (tag =? CEPH_MSGR_TAG_READY) then session_ready reply server_feat
  else ret (-1).

(** ** Acks *)
Definition read_partial_ack : M Z :=
  read_partial 8 8 (con_object c_in_temp_ack (fun b c => c <| c_in_temp_ack := b |>)).

(** [while (!list_empty(&con->out_sent))] *)
Fixpoint process_ack_loop (fuel : nat) (ack : Z) : M unit :=
  match fuel with
  | O => fail OutOfFuel
  | S fuel =>
      l ⟵ getc c_out_sent;
      match l with
      | [] => ret tt
      | m :: _ =>
          x ⟵ getm m;
          if ack <? h_seq (m_hdr x) then ret tt
          else ceph_msg_remove m ;; process_ack_loop fuel ack
      end
  end.

Definition process_ack : M unit :=
  ack ⟵ getc (fun c => le_val (c_in_temp_ack c));
  n ⟵ getc (fun c => length (c_out_sent c));
  process_ack_loop (S n) ack ;;
  prepare_read_tag.

(** ** Messages *)

(** One of the two kvecs of a message. *)
Record section := Section_ { sec_get : ceph_msg -> option kvec; sec_put : kvec -> ceph_msg -> ceph_msg }.
Definition front_section : section := Section_ (fun x => Some (m_front x)) (fun v x => x <| m_front := v |>).
Definition middle_section : section := Section_ m_middle (fun v x => x <| m_middle := Some v |>).

Fixpoint read_section_loop (fuel : nat) (m : nat) (s : section) (sec_len : Z) : M Z :=
  match fuel with
  | O => fail OutOfFuel
  | S fuel =>
      x ⟵ getm m;
      v ⟵ lift (deref (sec_get s x));
      if sec_len <=? iov_len v then ret 1
      else
        let left := sec_len - iov_len v in
        '(r, b) ⟵ ceph_tcp_recvmsg left;
        base ⟵ lift (write_bytes (iov_base v) (iov_len v) b);
        if r <=? 0 then modm m (sec_put s (Kvec base (iov_len v))) ;; ret r
        else modm m (sec_put s (Kvec base (iov_len v + r))) ;; read_section_loop fuel m s sec_len
  end.

(** [set_crc] stores the crc when the section is complete. *)
Definition read_partial_message_section (m : nat) (s : section) (sec_len : Z) (set_crc : Z -> M unit) : M Z :=
  unless_done (read_section_loop (S (Z.to_nat sec_len)) m s sec_len)
    (x ⟵ getm m;
     v ⟵ lift (deref (sec_get s x));
     when (iov_len v =? sec_len) (set_crc (crc32c 0 (take (Z.to_nat sec_len) (iov_base v)))) ;;
     ret 1).

Fixpoint read_data_loop (fuel : nat) (m : nat) (do_datacrc : bool) (crc : Z) : M (Z * Z) :=
  match fuel with
  | O => fail OutOfFuel
  | S fuel =>
      x ⟵ getm m;
      let cu := m_cursor x in
      if cu_resid cu =? 0 then ret (1, crc)
      else
        '(page, off, len, _) ⟵ lift (ceph_msg_data_next PAGE_SHIFT cu);
        r ⟵ ceph_tcp_recvpage PAGE_SHIFT page off len;
        if r <=? 0 then ret (r, crc)
        else
          crc ⟵ (if do_datacrc then ceph_crc32c_page crc32c crc page off r else ret crc);
          '(cu, _) ⟵ lift (ceph_msg_data_advance PAGE_SHIFT cu r);
          modm m (fun x => x <| m_cursor := cu |>) ;;
          read_data_loop fuel m do_datacrc crc
  end.

Definition read_partial_msg_data (m : nat) : M Z :=
  x ⟵ getm m;
  if bool_decide (length (m_data x) = 0%nat) then ret (- EIO)
  else
    do_datacrc ⟵ gets (fun w => negb (mr_nocrc (w_msgr w)));
    crc ⟵ getc c_in_data_crc;
    '(r, crc) ⟵ read_data_loop (S (Z.to_nat (cu_total_resid (m_cursor x)))) m do_datacrc
                 (if (do_datacrc : bool) then crc else 0);
    when do_datacrc (modc (fun c => c <| c_in_data_crc := crc |>)) ;;
    ret (if r <=? 0 then r else 1).

Definition ceph_alloc_middle (m : nat) : M Z :=
  x ⟵ getm m;
  let middle_len := s32 (h_middle_len (m_hdr x)) in
  bugon (middle_len =? 0) ;;
  bugon (bool_decide (is_Some (m_middle x))) ;;
  ok ⟵ gets buffer_ok;
  if negb ok then ret (- ENOMEM)
  else modm m (fun x => x <| m_middle := Some (Kvec (repeat 0 (Z.to_nat middle_len)) middle_len) |>) ;; ret 0.

(** The code to return, and [*skip]. *)
Definition ceph_con_in_msg_alloc : M (Z * bool) :=
  o ⟵ getc c_in_msg;
  bugon (bool_decide (is_Some o)) ;;
  hdr ⟵ getc (fun c => header_of (c_in_hdr c));
  '(msg, skip) ⟵ (fun w => let '(msg, skip, w) := op_alloc_msg hdr w in Ret ((msg, skip), w));
  s ⟵ getc c_state;
  if negb (s =? CON_STATE_OPEN) then
    match msg with Some m => ceph_msg_put m | None => ret tt end ;; ret (- EAGAIN, skip)
  else
    match msg with
    | None => ret (if (skip : bool) then 0 else - ENOMEM, skip)
    | Some m =>
        bugon skip ;;
        modc (fun c => c <| c_in_msg := Some m |>) ;;
        ok ⟵ ops_get;
        modm m (fun x => x <| m_con := ok |>) ;;
        bugon (negb ok) ;;
        modm m (fun x => x <| m_hdr := hdr |>) ;;
        x ⟵ getm m;
        if negb (h_middle_len hdr =? 0) && bool_decide (m_middle x = None) then
          r ⟵ ceph_alloc_middle m;
          when (r <? 0) (ceph_msg_put m ;; modc (fun c => c <| c_in_msg := None |>)) ;;
          ret (r, skip)
        else ret (0, skip)
    end.

(** What read_partial_message does with a sequence number. *)
Inductive seq_verdict : Type := SeqOld | SeqNext | SeqAhead.
Definition seq_check (in_seq seq : Z) : seq_verdict :=
  let d := s64 (s64 seq - s64 in_seq) in
  if d <? 1 then SeqOld else if 1 <? d then SeqAhead else SeqNext.

(** Skip what follows the header. *)
Definition skip_message (h : ceph_msg_header) : M unit :=
  modc (fun c =>
    c <| c_in_base_pos := s32 (- h_front_len h - h_middle_len h - h_data_len h - sizeof_footer) |>
      <| c_in_tag := CEPH_MSGR_TAG_READY |>).

(** Allocate the message for the header just read: [inl r] returns [r]. *)
Definition start_message (h : ceph_msg_header) : M (Z + nat) :=
  '(r, skip) ⟵ ceph_con_in_msg_alloc;
  if r <? 0 then ret (inl r)
  else
    o ⟵ getc c_in_msg;
    bugon (xorb (bool_decide (o = None)) skip) ;;
    skip ⟵ match o with
            | Some m =>
                x ⟵ getm m;
                if m_data_length x <? h_data_len h then
                  ceph_msg_put m ;; modc (fun c => c <| c_in_msg := None |>) ;; ret true
                else ret skip
            | None => ret skip
            end;
    if (skip : bool) then
      skip_message h ;;
      modc (fun c => c <| c_in_seq ::= fun s => u64 (s + 1) |>) ;;
      ret (inl 0)
    else
      o ⟵ getc c_in_msg;
      match o with
      | None => fail BugOn
      | Some m =>
          x ⟵ getm m;
          bugon (negb (m_con x)) ;;
          modm m (fun x =>
            x <| m_front ::= fun v => Kvec (iov_base v) 0 |>
              <| m_middle ::= fun o => (fun v => Kvec (iov_base v) 0) <$> o |>) ;;
          when (negb (h_data_len h =? 0)) (prepare_message_data PAGE_SHIFT m (h_data_len h)) ;;
          ret (inr m)
      end.

Definition footer_object (m : nat) : object :=
  Object (x ⟵ getm m; ret (footer_bytes (m_footer x)))
    (fun b => modm m (fun x => x <| m_footer := footer_of b |>)).

(** Front, middle, data and footer of the message [m]. *)
Definition read_message_body (h : ceph_msg_header) (m : nat) : M Z :=
  unless_done
    (read_partial_message_section m front_section (h_front_len h)
       (fun crc => modc (fun c => c <| c_in_front_crc := crc |>)))
    (x ⟵ getm m;
     unless_done
       (if bool_decide (m_middle x = None) then ret 1
        else read_partial_message_section m middle_section (h_middle_len h)
               (fun crc => modc (fun c => c <| c_in_middle_crc := crc |>)))
       (unless_done (if h_data_len h =? 0 then ret 1 else read_partial_msg_data m)
          (unless_done (read_partial (sizeof_header + sizeof_footer) sizeof_footer (footer_object m))
             (x ⟵ getm m;
              c ⟵ getc id;
              do_datacrc ⟵ gets (fun w => negb (mr_nocrc (w_msgr w)));
              let f := m_footer x in
              if negb (c_in_front_crc c =? f_front_crc f) then ret (- EBADMSG)
              else if negb (c_in_middle_crc c =? f_middle_crc f) then ret (- EBADMSG)
              else if do_datacrc && (Z.land (f_flags f) CEPH_MSG_FOOTER_NOCRC =? 0) &&
                      negb (c_in_data_crc c =? f_data_crc f) then ret (- EBADMSG)
              else ret 1)))).

Definition read_partial_message : M Z :=
  unless_done (read_partial sizeof_header sizeof_header (con_object c_in_hdr (fun b c => c <| c_in_hdr := b |>)))
    (b ⟵ getc c_in_hdr;
     let h := header_of b in
     if negb (crc32c 0 (take 49 b) =? h_crc h) then ret (- EBADMSG)
     else if CEPH_MSG_MAX_FRONT_LEN <? h_front_len h then ret (- EIO)
     else if CEPH_MSG_MAX_MIDDLE_LEN <? h_middle_len h then ret (- EIO)
     else if CEPH_MSG_MAX_DATA_LEN <? h_data_len h then ret (- EIO)
     else
       in_seq ⟵ getc c_in_seq;
       match seq_check in_seq (h_seq h) with
       | SeqOld => skip_message h ;; ret 0
       | SeqAhead => ret (- EBADMSG)
       | SeqNext =>
           o ⟵ getc c_in_msg;
           start ⟵ match o with Some m => ret (inr m) | None => start_message h end;
           match start with
           | inl r => ret r
           | inr m => read_message_body h m
           end
       end).

Definition process_message : M unit :=
  o ⟵ getc c_in_msg;
  m ⟵ lift (deref o);
  x ⟵ getm m;
  bugon (negb (m_con x)) ;;
  modm m (fun x => x <| m_con := false |>) ;;
  modc (fun c => c <| c_in_msg := None |>) ;;
  ops_put ;;
  modc (fun c => (if en_type (c_peer_name c) =? 0 then c <| c_peer_name := h_src (m_hdr x) |> else c)
                   <| c_in_seq ::= fun s => u64 (s + 1) |>) ;;
  log (EvDispatch m) ;; modw (op_dispatch m).

(** ** try_read

    Each round of [more]: [inl r] goes round again (with the value of [ret]),
    [inr r] returns. *)
Definition SKIP_BUF_SIZE : Z := 1024.

Definition read_connecting : M (Z + Z) :=
  r ⟵ read_partial_banner;
  if r <=? 0 then ret (inr r)
  else
    r ⟵ process_banner;
    if r <? 0 then ret (inr r)
    else
      set_state CON_STATE_NEGOTIATING ;;
      r ⟵ prepare_write_connect;
      if r <? 0 then ret (inr r) else prepare_read_connect ;; ret (inr r).

Definition read_negotiating : M (Z + Z) :=
  r ⟵ read_partial_connect;
  if r <=? 0 then ret (inr r)
  else
    r ⟵ process_connect;
    if r <? 0 then ret (inr r) else ret (inl r).

(** Discard input while [in_base_pos] is negative: [None] goes on. *)
Definition read_skip : M (option (Z + Z)) :=
  pos ⟵ getc c_in_base_pos;
  if 0 <=? pos then ret None
  else
    '(r, _) ⟵ ceph_tcp_recvmsg (Z.min SKIP_BUF_SIZE (- pos));
    if r <=? 0 then ret (Some (inr r))
    else
      modc (fun c => c <| c_in_base_pos ::= fun p => p + r |>) ;;
      pos ⟵ getc c_in_base_pos;
      if negb (pos =? 0) then ret (Some (inl r)) else ret None.

(** Read the next tag: [None] goes on. *)
Definition read_tag : M (option (Z + Z)) :=
  tag ⟵ getc c_in_tag;
  if negb (tag =? CEPH_MSGR_TAG_READY) then ret None
  else
    '(r, b) ⟵ ceph_tcp_recvmsg 1;
    match b with
    | [] => ret (Some (inr r))
    | tag :: _ =>
        modc (fun c => c <| c_in_tag := tag |>) ;;
        if r <=? 0 then ret (Some (inr r))
        else if tag =? CEPH_MSGR_TAG_MSG then prepare_read_message ;; ret None
        else if tag =? CEPH_MSGR_TAG_ACK then prepare_read_ack ;; ret None
        else if tag =? CEPH_MSGR_TAG_CLOSE then
          con_close_socket ;; set_state CON_STATE_CLOSED ;; ret (Some (inr r))
        else ret (Some (inr (-1)))
    end.

Definition read_tagged (r : Z) : M (Z + Z) :=
  tag ⟵ getc c_in_tag;
  if tag =? CEPH_MSGR_TAG_MSG then
    r ⟵ read_partial_message;
    if r <=? 0 then ret (inr (if r =? - EBADMSG then - EIO else r))
    else
      tag ⟵ getc c_in_tag;
      if tag =? CEPH_MSGR_TAG_READY then ret (inl r)
      else
        process_message ;;
        s ⟵ getc c_state;
        when (s =? CON_STATE_OPEN) prepare_read_tag ;;
        ret (inl r)
  else if (tag =? CEPH_MSGR_TAG_ACK) || (tag =? CEPH_MSGR_TAG_SEQ) then
    r ⟵ read_partial_ack;
    if r <=? 0 then ret (inr r) else process_ack ;; ret (inl r)
  else ret (inr r).

Definition read_open (r : Z) : M (Z + Z) :=
  s ⟵ read_skip;
  match s with
  | Some x => ret x
  | None =>
      t ⟵ read_tag;
      match t with
      | Some x => ret x
      | None => read_tagged r
      end
  end.

Fixpoint try_read_loop (fuel : nat) (r : Z) : M Z :=
  match fuel with
  | O => fail OutOfFuel
  | S fuel =>
      s ⟵ getc c_state;
      if negb ((s =? CON_STATE_CONNECTING) || (s =? CON_STATE_NEGOTIATING) || (s =? CON_STATE_OPEN)) then ret 0
      else
        sock ⟵ getc c_sock;
        bugon (negb sock) ;;
        n ⟵ (if s =? CON_STATE_CONNECTING then read_connecting
              else if s =? CON_STATE_NEGOTIATING then read_negotiating
              else read_open r);
        match n with inl r => try_read_loop fuel r | inr r => ret r end
  end.

Definition try_read (fuel : nat) : M Z := try_read_loop fuel (-1).

(** ** The work function *)
Definition con_sock_closed : M bool :=
  b ⟵ con_flag_test_and_clear CON_FLAG_SOCK_CLOSED;
  if negb b then ret false
  else
    s ⟵ getc c_state;
    bugon (negb ((CON_STATE_CLOSED <=? s) && (s <=? CON_STATE_STANDBY))) ;;
    ret true.

(** [delay]: round_jiffies_relative of the connection's delay *)
Definition con_backoff (round_jiffies : Z -> Z) : M bool :=
  b ⟵ con_flag_test_and_clear CON_FLAG_BACKOFF;
  if negb b then ret false
  else
    delay ⟵ getc c_delay;
    r ⟵ queue_con_delay work_queued (round_jiffies delay);
    when (negb (r =? 0)) (bugon (r =? - ENOENT) ;; con_flag_set CON_FLAG_BACKOFF) ;;
    ret true.

Definition con_fault_finish : M unit :=
  retry ⟵ getc c_auth_retry;
  when (negb (retry =? 0)) (log EvInvalidateAuthorizer ;; modw op_invalidate_authorizer) ;;
  log EvFault ;; modw op_fault.

(** Whether the loop of con_work ends in a fault. *)
Fixpoint con_work_loop (fuel : nat) (round_jiffies : Z -> Z) (io_fuel : nat) : M bool :=
  match fuel with
  | O => fail OutOfFuel
  | S fuel =>
      closed ⟵ con_sock_closed;
      if (closed : bool) then ret true
      else
        backoff ⟵ con_backoff round_jiffies;
        if (backoff : bool) then ret false
        else
          s ⟵ getc c_state;
          sock ⟵ getc c_sock;
          if s =? CON_STATE_STANDBY then ret false
          else if s =? CON_STATE_CLOSED then bugon sock ;; ret false
          else
            when (s =? CON_STATE_PREOPEN) (bugon sock) ;;
            r ⟵ try_read io_fuel;
            if r <? 0 then
              if r =? - EAGAIN then con_work_loop fuel round_jiffies io_fuel else ret true
            else
              r ⟵ try_write PAGE_SHIFT crc32c io_fuel;
              if r <? 0 then
                if r =? - EAGAIN then con_work_loop fuel round_jiffies io_fuel else ret true
              else ret false
  end.

Definition con_work (fuel : nat) (round_jiffies : Z -> Z) (io_fuel : nat) : M unit :=
  fault ⟵ con_work_loop fuel round_jiffies io_fuel;
  when fault (con_fault HZ work_queued) ;;
  when fault con_fault_finish ;;
  ops_put.

End Read.
