(* ===== verification/MsgrWrite.v ===== *)
(** * What a connection writes

    The bytes that try_write (MsgrIO.v) puts on the socket.  The output that is
    still pending, the frames of the queued messages, an ack and a keepalive
    form one stream of bytes; try_write moves a prefix of it to the socket,
    however the socket cuts it, and never loses, repeats or reorders a byte. *)
From S2P Require Import Prelude.
From S2P Require Import Wire.
From S2P Require Import MsgCursor.
From S2P Require Import Msgr.
From S2P Require Import MsgrIO.
From stdpp Require Import gmap.
#[local] Open Scope Z_scope.
#[local] Open Scope ceph_scope.
#[local] Open Scope msgr_scope.

(** ** Running a computation *)
Lemma bind_run {A B} (m : M A) (k : A -> M B) w a w' : m w = Ret (a, w') -> bind m k w = k a w'.
Proof. intros E. unfold bind. by rewrite E. Qed.

Lemma bind_assoc {A B C} (m : M A) (f : A -> M B) (k : B -> M C) w :
  bind (bind m f) k w = bind m (fun a => bind (f a) k) w.
Proof. unfold bind. by destruct (m w) as [[]| |]. Qed.

(** [run E] replaces a computation at the head of a sequence by its result. *)
Ltac run E := rewrite (bind_run _ _ _ _ _ E); cbn beta iota.
Ltac run1 :=
  match goal with
  | |- context [bind (getc ?f) ?k ?w] =>
      let v := eval cbn in (f (w_con w)) in rewrite (bind_run (getc f) k w v w eq_refl); cbn beta iota
  | |- context [bind (gets ?f) ?k ?w] =>
      let v := eval cbn in (f w) in rewrite (bind_run (gets f) k w v w eq_refl); cbn beta iota
  | |- context [bind ?m ?k ?w] => erewrite (bind_run m k w) by reflexivity; cbn beta iota
  end.

Lemma bugon_false b w : b = false -> bugon b w = Ret (tt, w).
Proof. by intros ->. Qed.

Lemma getm_eq m x w : w_msgs w !! m = Some x -> getm m w = Ret (x, w).
Proof. intros E. unfold getm. by rewrite E. Qed.

Lemma modm_eq m x f w :
  w_msgs w !! m = Some x -> modm m f w = Ret (tt, w <| w_msgs ::= <[m := f x]> |>).
Proof. intros E. unfold modm. by rewrite E. Qed.

Ltac run_getm E := erewrite (bind_run (getm _)) by (apply getm_eq; exact E); cbn beta iota.
Ltac run_modm E := erewrite (bind_run (modm _ _)) by (apply modm_eq; exact E); cbn beta iota.
Ltac run_bugon tac := erewrite (bind_run (bugon _)) by (apply bugon_false; tac); cbn beta iota.

(** Updates of the world in one canonical order: the connection, then the
    messages. *)
Lemma wcon_wcon f g w : w <| w_con ::= f |> <| w_con ::= g |> = w <| w_con ::= fun c => g (f c) |>.
Proof. by destruct w. Qed.
Lemma wmsgs_wcon f g w : w <| w_msgs ::= f |> <| w_con ::= g |> = w <| w_con ::= g |> <| w_msgs ::= f |>.
Proof. by destruct w. Qed.
Lemma wmsgs_wmsgs f g w : w <| w_msgs ::= f |> <| w_msgs ::= g |> = w <| w_msgs ::= fun c => g (f c) |>.
Proof. by destruct w. Qed.
Lemma wcon_ext f g w : f (w_con w) = g (w_con w) -> w <| w_con ::= f |> = w <| w_con ::= g |>.
Proof. intros E. destruct w. unfold over. cbn in E |- *. by rewrite E. Qed.
Lemma wmsgs_insert_ext m x y w : x = y -> w <| w_msgs ::= <[m := x]> |> = w <| w_msgs ::= <[m := y]> |>.
Proof. by intros ->. Qed.
Lemma wmsgs_insert m x y w :
  w <| w_msgs ::= <[m := x]> |> <| w_msgs ::= <[m := y]> |> = w <| w_msgs ::= <[m := y]> |>.
Proof.
  transitivity (w <| w_msgs := <[m := y]> (<[m := x]> (w_msgs w)) |>); [by destruct w|].
  rewrite insert_insert_eq. by destruct w.
Qed.

(** Pages of less than 2 GB. *)
Definition page_shift_ok (s : Z) : Prop := 0 <= s < 31.

Section Write.
Context (PAGE_SHIFT : Z) (crc32c : Z -> list Z -> Z).
Context `{ConOps}.
Hypothesis Hshift : page_shift_ok PAGE_SHIFT.
(** crc32c is computed byte by byte. *)
Hypothesis crc_app : forall c a b, crc32c (crc32c c a) b = crc32c c (a ++ b).
Hypothesis crc_nil : forall c, crc32c c [] = c.

(** ** Vectors of output *)

(** The output fields replaced, and what the socket has taken. *)
Definition upd_out (kv : list out_kvec_entry) (cur left bytes : Z) (is_msg : bool) (tx : list Z) (room : list Z)
    (w : world) : world :=
  w <| w_con ::= fun c =>
         c <| c_out_kvec := kv |> <| c_out_kvec_cur := cur |> <| c_out_kvec_left := left |>
           <| c_out_kvec_bytes := bytes |> <| c_out_kvec_is_msg := is_msg |> |>
    <| w_tx := tx |> <| w_room := room |>.

Lemma upd_out_idem kv cur left bytes im tx room kv' cur' left' bytes' im' tx' room' w :
  upd_out kv cur left bytes im tx room (upd_out kv' cur' left' bytes' im' tx' room' w) =
  upd_out kv cur left bytes im tx room w.
Proof. unfold upd_out. cbn. reflexivity. Qed.

Lemma target_bytes_upd t kv cur left bytes im tx room w :
  target_bytes t (upd_out kv cur left bytes im tx room w) = target_bytes t w.
Proof. destruct t; cbn; reflexivity. Qed.

Lemma entries_bytes_ext l : forall w w',
  (forall t, target_bytes t w' = target_bytes t w) -> entries_bytes w' l = entries_bytes w l.
Proof.
  induction l as [|e l IH]; intros w w' Ht; cbn; [done|]. unfold entry_bytes. rewrite Ht, (IH w w'); done.
Qed.

Lemma entry_bytes_length w e b :
  entry_bytes w e = Ret b -> 0 <= kv_off e -> 0 <= kv_len e -> Z.of_nat (length b) = kv_len e.
Proof.
  unfold entry_bytes. intros Hb Ho Hl. inv_outcome. case_Zb; [done|]. inv_outcome.
  unfold slice. rewrite length_take, length_drop. lia.
Qed.

Definition entry_ok (e : out_kvec_entry) : Prop := 0 <= kv_off e /\ 0 <= kv_len e.

(** The bytes [kb] are pending in the vector. *)
Record kv_ok (w : world) (kb : list Z) : Prop := {
  kv_entries : entries_bytes w (pending_entries (w_con w)) = Ret kb;
  kv_bytes : c_out_kvec_bytes (w_con w) = Z.of_nat (length kb);
  kv_range : 0 <= c_out_kvec_cur (w_con w) /\ 0 <= c_out_kvec_left (w_con w) /\
    c_out_kvec_cur (w_con w) + c_out_kvec_left (w_con w) <= 8;
  kv_size : length (c_out_kvec (w_con w)) = 8%nat;
  kv_all : Forall entry_ok (pending_entries (w_con w)) }.

Lemma pending_cons c e es :
  0 <= c_out_kvec_cur c -> pending_entries c = e :: es ->
  rd (c_out_kvec c) (c_out_kvec_cur c) = Ret e /\ 0 < c_out_kvec_left c /\
  slice (c_out_kvec c) (c_out_kvec_cur c + 1) (c_out_kvec_left c - 1) = es.
Proof.
  unfold pending_entries, slice. intros Hc He.
  destruct (Z.to_nat (c_out_kvec_left c)) as [|n] eqn:En; [done|].
  destruct (drop (Z.to_nat (c_out_kvec_cur c)) (c_out_kvec c)) as [|e' l] eqn:Ed; [done|].
  cbn in He. injection He as -> <-. split; [|split; [lia|]].
  - apply rd_Ret. split; [done|]. rewrite <- (Nat.add_0_r (Z.to_nat _)), <- lookup_drop, Ed. done.
  - replace (Z.to_nat (c_out_kvec_cur c + 1)) with (Z.to_nat (c_out_kvec_cur c) + 1)%nat by lia.
    rewrite <- drop_drop, Ed. cbn. f_equal. lia.
Qed.

(** Whole entries are used up, then the first of the others is cut. *)
Lemma consume_ok es : forall fuel w r kb,
  pending_entries (w_con w) = es -> entries_bytes w es = Ret kb -> Forall entry_ok es ->
  0 <= c_out_kvec_cur (w_con w) ->
  0 <= r < Z.of_nat (length kb) -> (length es < fuel)%nat ->
  exists cur left r' e es' b kb',
    consume_entries fuel r w =
      Ret (r', w <| w_con ::= fun c => c <| c_out_kvec_cur := cur |> <| c_out_kvec_left := left |> |>) /\
    slice (c_out_kvec (w_con w)) cur left = e :: es' /\ entry_ok e /\ Forall entry_ok es' /\ 0 <= r' < kv_len e /\
    0 <= cur /\ 0 < left /\ cur + left = c_out_kvec_cur (w_con w) + c_out_kvec_left (w_con w) /\
    entry_bytes w e = Ret b /\ entries_bytes w es' = Ret kb' /\ drop (Z.to_nat r) kb = drop (Z.to_nat r') b ++ kb'.
Proof.
  induction es as [|e es IH]; intros [|fuel] w r kb Hes Hkb Hok Hcur Hr Hf; cbn in Hf; try lia.
  { cbn in Hkb. injection Hkb as <-. cbn in Hr. lia. }
  destruct (pending_cons _ _ _ Hcur Hes) as (Hrd & Hleft & Htl).
  cbn in Hkb. apply bind_Ret in Hkb as (a & E & Hkb). apply bind_Ret in Hkb as (a0 & E2 & Hkb).
  injection Hkb as <-. apply Forall_cons in Hok as [He Hok].
  pose proof (entry_bytes_length _ _ _ E (proj1 He) (proj2 He)) as Hlen. rewrite length_app in Hr.
  cbn [consume_entries]. do 2 run1. rewrite (bind_run _ _ _ e w) by (unfold lift; by rewrite Hrd).
  destruct (Z.leb_spec (kv_len e) r) as [Hle|Hlt].
  - run1. rewrite (bind_run _ _ _ tt w) by (apply bugon_false, Z.eqb_neq; lia). run1.
    set (w1 := w <| w_con ::= fun c => c <| c_out_kvec_cur ::= Z.succ |> <| c_out_kvec_left ::= Z.pred |> |>).
    assert (Ht : forall t, target_bytes t w1 = target_bytes t w) by (intros []; reflexivity).
    destruct (IH fuel w1 (r - kv_len e) a0) as (cur & left & r' & e' & es' & b & kb' & Hrun & Hsl & He' & Hes' &
      Hr' & Hc & Hl & Hsum & Hb & Hkb' & Hdrop).
    + exact Htl.
    + by rewrite (entries_bytes_ext _ w w1 Ht).
    + done.
    + cbn. lia.
    + lia.
    + lia.
    + cbn in Hsum. exists cur, left, r', e', es', b, kb'. split; [exact Hrun|].
      split; [exact Hsl|]. repeat (split; [done || lia|]).
      rewrite (entries_bytes_ext _ w w1 Ht) in Hkb'. split; [done|].
      rewrite drop_app_ge by lia. rewrite <- Hdrop. f_equal. lia.
  - exists (c_out_kvec_cur (w_con w)), (c_out_kvec_left (w_con w)), r, e, es, a, a0.
    split; [unfold ret; do 2 f_equal; by destruct w as [[]]|].
    split; [exact Hes|]. repeat (split; [done || lia|]). rewrite drop_app_le by lia. done.
Qed.

(** The socket took [n] bytes in calls that left [room'] of what it will take. *)
Definition used (room : list Z) (n : nat) (room' : list Z) : Prop :=
  exists l, room = l ++ room' /\ Forall (fun x => 0 < x) l /\ (length l <= n)%nat.
(** It took [n] bytes and then refused more. *)
Definition stalled (room : list Z) (n : nat) : Prop :=
  exists room', used room n room' /\ Forall (fun x => x <= 0) (take 1 room').

Lemma used_refl room n : used room n room.
Proof. exists []. repeat split; [constructor|cbn; lia]. Qed.
Lemma used_mono a b n k : used a n b -> (n <= k)%nat -> used a k b.
Proof. intros (l & ? & ? & ?) ?. exists l. repeat split; [done..|lia]. Qed.
Lemma used_trans a b c n k : used a n b -> used b k c -> used a (n + k) c.
Proof.
  intros (l & -> & Hl & Hn) (l' & -> & Hl' & Hk). exists (l ++ l'). rewrite length_app, app_assoc.
  split; [done|]. split; [by apply Forall_app|lia].
Qed.
Lemma stalled_trans a b n k : used a n b -> stalled b k -> stalled a (n + k).
Proof. intros Hu (c & Hc & H0). exists c. split; [by eapply used_trans|done]. Qed.

(** A socket that takes at least a byte per call does not refuse within the
    calls it is good for. *)
Lemma stalled_long room n : Forall (fun x => 0 < x) room -> stalled room n -> (length room <= n)%nat.
Proof.
  intros Hall (room' & (l & -> & _ & Hn) & H0). apply Forall_app in Hall as [_ Hall].
  destruct room' as [|x room']; [rewrite length_app; cbn; lia|].
  apply Forall_cons in Hall as [Hx _]. cbn in H0. apply Forall_cons in H0 as [H0 _]. lia.
Qed.

(** What the socket does with the bytes offered. *)
Lemma sendmsg_ok bytes w :
  c_sock (w_con w) = true -> bytes <> [] ->
  exists r room tx,
    ceph_tcp_sendmsg bytes w = Ret (r, w <| w_tx := tx |> <| w_room := room |>) /\
    ((r <= 0 /\ tx = w_tx w /\ Forall (fun x => x <= 0) (take 1 (w_room w))) \/
     (0 < r <= Z.of_nat (length bytes) /\ tx = w_tx w ++ take (Z.to_nat r) bytes /\ used (w_room w) 1 room)).
Proof.
  intros Hs Hb. unfold ceph_tcp_sendmsg. run1. rewrite Hs. cbn [negb]. run1.
  destruct (w_room w) as [|r room] eqn:Er.
  { exists 0, [], (w_tx w). split; [unfold ret; rewrite <- Er; by destruct w|]. left. split; [done|]. by split. }
  run1. destruct (Z.leb_spec r 0).
  - exists (if r =? - EAGAIN then 0 else r), room, (w_tx w). split; [unfold ret; by destruct w|].
    left. split; [case_Zb; lia|]. split; [done|]. by repeat constructor.
  - run1. eexists _, _, _. split; [unfold ret; reflexivity|]. right. destruct bytes; [done|]. cbn [length].
    split; [lia|]. split; [done|]. exists [r]. by repeat constructor.
Qed.

Lemma kv_ok_entries w kb kv cur left bytes im tx room kb' :
  kv_ok w kb -> entries_bytes w (slice kv cur left) = Ret kb' -> bytes = Z.of_nat (length kb') ->
  0 <= cur -> 0 <= left -> cur + left <= 8 -> length kv = 8%nat -> Forall entry_ok (slice kv cur left) ->
  kv_ok (upd_out kv cur left bytes im tx room w) kb'.
Proof.
  intros Hk He Hb Hc Hl Hcl Hkv Hall. split; try done.
  - rewrite (entries_bytes_ext _ w); [done|]. intros t. apply target_bytes_upd.
Qed.

(** Cutting the first entry. *)
Lemma advance_entry_ok w cur left r e es b kb :
  0 <= cur -> 0 < left -> cur + left <= 8 -> length (c_out_kvec (w_con w)) = 8%nat ->
  slice (c_out_kvec (w_con w)) cur left = e :: es -> entry_ok e -> Forall entry_ok es -> 0 <= r < kv_len e ->
  entry_bytes w e = Ret b -> entries_bytes w es = Ret kb ->
  exists kv,
    when (negb (r =? 0)) (advance_entry r)
      (w <| w_con ::= fun c => c <| c_out_kvec_cur := cur |> <| c_out_kvec_left := left |> |>) =
    Ret (tt, w <| w_con ::= fun c => c <| c_out_kvec := kv |> <| c_out_kvec_cur := cur |> <| c_out_kvec_left := left |> |>) /\
    entries_bytes w (slice kv cur left) = Ret (drop (Z.to_nat r) b ++ kb) /\
    Forall entry_ok (slice kv cur left) /\ length kv = 8%nat.
Proof.
  intros Hc Hl Hcl Hk Hsl He Hes Hr Hb Hkb. destruct (Z.eqb_spec r 0) as [->|Hz]; cbn [negb when].
  { exists (c_out_kvec (w_con w)). split; [by destruct w as [[]]|].
    rewrite Hsl. cbn. rewrite Hb, Hkb. cbn. split; [done|]. split; [by constructor|done]. }
  set (c1 := (w_con w) <| c_out_kvec_cur := cur |> <| c_out_kvec_left := left |>).
  destruct (pending_cons c1 e es) as (Hrd & _ & Htl); [done|done|]. cbn in Hrd, Htl.
  set (e' := KvEntry (kv_target_of e) (kv_off e + r) (kv_len e - r)).
  exists (<[Z.to_nat cur := e']> (c_out_kvec (w_con w))). split; [|split].
  - unfold advance_entry. do 2 run1. cbn. unfold lift, bind. rewrite Hrd. cbn.
    rewrite wr_total by lia. cbn. by destruct w as [[]].
  - rewrite slice_insert_first, Htl by lia. cbn. rewrite Hkb.
    unfold entry_bytes in Hb |- *. cbn. apply bind_Ret in Hb as (tb & Htb & Hb). rewrite Htb. cbn.
    destruct (Z.ltb_spec (Z.of_nat (length tb)) (kv_off e + kv_len e)); [done|]. injection Hb as <-.
    rewrite (proj2 (Z.ltb_ge _ _)) by lia. cbn. do 2 f_equal. destruct He.
    unfold slice. rewrite skipn_firstn_comm, drop_drop. f_equal; [lia|]. f_equal. lia.
  - rewrite length_insert. split; [|done]. rewrite slice_insert_first, Htl by lia. constructor; [|done].
    destruct He. split; cbn; lia.
Qed.

(** write_partial_kvec sends a prefix of the pending bytes and keeps the rest. *)
Lemma write_kvec_ok fuel : forall w kb,
  kv_ok w kb -> c_sock (w_con w) = true -> (length kb < fuel)%nat ->
  exists r kv cur left bytes im n room, let w' := upd_out kv cur left bytes im (w_tx w ++ take n kb) room w in
    write_kvec_loop fuel w = Ret (r, w') /\ kv_ok w' (drop n kb) /\
    (n <= length kb)%nat /\
    ((r = 1 /\ drop n kb = [] /\ left = 0 /\ used (w_room w) n room) \/
     (r <= 0 /\ drop n kb <> [] /\ stalled (w_room w) n)).
Proof.
  induction fuel as [|fuel IH]; intros w kb Hkv Hs Hf; [lia|]. cbn [write_kvec_loop]. run1.
  pose proof (kv_bytes _ _ Hkv) as Hb. destruct (kv_range _ _ Hkv) as (Hc & Hl & Hcl).
  destruct (Z.leb_spec (c_out_kvec_bytes (w_con w)) 0) as [Hz|Hpos].
  { destruct kb; [|cbn in Hb; lia]. run1.
    exists 1, (c_out_kvec (w_con w)), (c_out_kvec_cur (w_con w)), 0, (c_out_kvec_bytes (w_con w)), false, 0%nat, (w_room w).
    cbn zeta. split; [|split].
    - unfold ret, upd_out. do 2 f_equal. rewrite take_nil, app_nil_r. by destruct w as [[]].
    - apply (kv_ok_entries w []); try done; try lia; try apply Hkv.
    - split; [done|]. left. repeat split. apply used_refl. }
  rewrite (bind_run _ _ _ kb w) by (cbn; rewrite (kv_entries _ _ Hkv); reflexivity).
  rewrite Hb, Z.ltb_irrefl, Nat2Z.id, take_ge by lia.
  assert (Hne : kb <> []) by (intros ->; cbn in Hb; lia).
  destruct (sendmsg_ok kb w Hs Hne) as (r & room & tx & Hsend & Hr). run Hsend.
  destruct Hr as [(Hr & -> & Hroom)|(Hr & -> & Hroom)].
  { rewrite (proj2 (Z.leb_le _ _)) by lia.
    exists r, (c_out_kvec (w_con w)), (c_out_kvec_cur (w_con w)), (c_out_kvec_left (w_con w)),
      (c_out_kvec_bytes (w_con w)), (c_out_kvec_is_msg (w_con w)), 0%nat, room. cbn zeta. rewrite take_0, drop_0, app_nil_r.
    split; [|split].
    - unfold ret, upd_out. do 2 f_equal. by destruct w as [[]].
    - apply (kv_ok_entries w kb); try done; try apply Hkv.
    - split; [lia|]. right. split; [done|]. split; [done|]. exists (w_room w). split; [apply used_refl|done]. }
  rewrite (proj2 (Z.leb_gt _ _)) by lia. do 2 run1. cbn -[take consume_entries].
  destruct (Z.eqb_spec (c_out_kvec_bytes (w_con w) - r) 0) as [Hz|Hz].
  { run1. exists 1, (c_out_kvec (w_con w)), (c_out_kvec_cur (w_con w)), 0, (c_out_kvec_bytes (w_con w) - r), false, (Z.to_nat r), room. cbn zeta.
    rewrite (drop_ge kb) by lia. split; [|split].
    - unfold ret, upd_out. by destruct w as [[]].
    - apply (kv_ok_entries w kb); try done; try apply Hkv; try lia.
    - split; [lia|]. left. repeat (split; [done|]). eapply used_mono; [exact Hroom|lia]. }
  run1. cbn -[take consume_entries].
  set (w1 := w <| w_tx := w_tx w ++ take (Z.to_nat r) kb |> <| w_room := room |>
               <| w_con ::= fun c => c <| c_out_kvec_bytes ::= fun b => b - r |> |>).
  assert (Ht1 : forall t, target_bytes t w1 = target_bytes t w) by (intros []; reflexivity).
  destruct (consume_ok (pending_entries (w_con w1)) (S (Z.to_nat (c_out_kvec_left (w_con w)))) w1 r kb)
    as (cur & left & r' & e & es & b & kb' & Hcons & Hsl & He & Hes & Hr' & Hcur & Hleft & Hsum & Hb1 & Hkb' & Hdrop).
  { done. }
  { rewrite (entries_bytes_ext _ w w1 Ht1). apply Hkv. }
  { apply Hkv. }
  { done. }
  { lia. }
  { unfold pending_entries, slice. rewrite length_take. cbn. lia. }
  run Hcons. cbn in Hsum.
  destruct (advance_entry_ok w1 cur left r' e es b kb') as (kv' & Hadv & Hkv' & Hall' & Hsize); try done; try lia.
  { apply Hkv. }
  run Hadv.
  set (w2 := upd_out kv' cur left (c_out_kvec_bytes (w_con w) - r) (c_out_kvec_is_msg (w_con w))
               (w_tx w ++ take (Z.to_nat r) kb) room w).
  assert (Hkv2 : kv_ok w2 (drop (Z.to_nat r) kb)).
  { apply (kv_ok_entries w kb); try done; try lia.
    - rewrite <- (entries_bytes_ext _ w w1 Ht1), Hkv', Hdrop. done.
    - rewrite length_drop. lia. }
  destruct (IH w2 _ Hkv2) as (r2 & kv2 & cur2 & left2 & bytes2 & im2 & n2 & room2 & Hrun & Hok & Hn2 & Hres); [done| |].
  { rewrite length_drop. lia. }
  exists r2, kv2, cur2, left2, bytes2, im2, (Z.to_nat r + n2)%nat, room2. cbn zeta.
  assert (Etx : w_tx w2 ++ take n2 (drop (Z.to_nat r) kb) = w_tx w ++ take (Z.to_nat r + n2) kb).
  { cbn -[take]. rewrite <- app_assoc. f_equal. by rewrite take_take_drop. }
  cbn zeta in Hrun, Hok. unfold w2 in Hrun, Hok. rewrite upd_out_idem in Hrun, Hok. fold w2 in Hrun, Hok.
  rewrite Etx in Hrun, Hok. rewrite drop_drop in Hok, Hres. rewrite length_drop in Hn2.
  split; [rewrite <- Hrun; f_equal|]. split; [done|]. split; [lia|].
  assert (Hu : used (w_room w) (Z.to_nat r) room) by (eapply used_mono; [exact Hroom|lia]).
  destruct Hres as [(Hr2 & Hd2 & Hl2 & Hu2)|(Hr2 & Hd2 & Hu2)]; [left|right]; repeat (split; [done|]).
  - eapply used_trans; [exact Hu|exact Hu2].
  - eapply stalled_trans; [exact Hu|exact Hu2].
Qed.

(** ** Data *)
Definition seg_bytes (mem : gmap nat (list Z)) (q : seg) : list Z :=
  match mem !! q.1.1 with Some b => slice b q.1.2 q.2 | None => [] end.
Definition segs_bytes (mem : gmap nat (list Z)) (l : list seg) : list Z := concat (seg_bytes mem <$> l).

(** The page is there and holds the segment. *)
Definition readable (mem : gmap nat (list Z)) (q : seg) : Prop :=
  exists b, mem !! q.1.1 = Some b /\ 0 <= q.1.2 /\ q.1.2 + q.2 <= Z.of_nat (length b).

Lemma page_bytes_ok w p o l :
  readable (w_mem w) (p, o, l) -> page_bytes_at p o l w = Ret (seg_bytes (w_mem w) (p, o, l), w).
Proof.
  intros (b & Hb & Ho & Hl). unfold page_bytes_at, seg_bytes. cbn in *. rewrite Hb.
  by rewrite (proj2 (Z.ltb_ge _ _)) by lia.
Qed.

Lemma seg_bytes_length mem q :
  readable mem q -> 0 <= q.2 -> Z.of_nat (length (seg_bytes mem q)) = q.2.
Proof.
  intros (b & Hb & Ho & Hl) Hq. unfold seg_bytes. rewrite Hb. unfold slice. rewrite length_take, length_drop. lia.
Qed.

Lemma seg_bytes_cut mem p o l n :
  readable mem (p, o, l) -> 0 <= n <= l ->
  seg_bytes mem (p, o, l) = take (Z.to_nat n) (seg_bytes mem (p, o, l)) ++ seg_bytes mem (p, o + n, l - n) /\
  readable mem (p, o + n, l - n).
Proof.
  intros (b & Hb & Ho & Hl) Hn. cbn in *. unfold seg_bytes, slice. cbn. rewrite Hb. split.
  - rewrite take_take, Nat.min_l by lia.
    replace (Z.to_nat (o + n)) with (Z.to_nat o + Z.to_nat n)%nat by lia. rewrite <- drop_drop.
    replace (Z.to_nat l) with (Z.to_nat n + Z.to_nat (l - n))%nat by lia. by rewrite take_take_drop.
  - exists b. cbn. split; [done|lia].
Qed.

(** What the crc still has to cover. *)
Definition to_crc (mem : gmap nat (list Z)) (cu : ceph_msg_data_cursor) (todo : list seg) : list Z :=
  segs_bytes mem (if cu_need_crc cu then todo else tail todo).

Definition upd_data (m : nat) (x : ceph_msg) (cu : ceph_msg_data_cursor) (tx room : list Z) (w : world) : world :=
  w <| w_msgs ::= <[m := x <| m_cursor := cu |>]> |> <| w_tx := tx |> <| w_room := room |>.

Lemma upd_data_id m x room w :
  w_msgs w !! m = Some x ->
  upd_data m x (m_cursor x) (w_tx w ++ []) room w = w <| w_room := room |>.
Proof.
  intros Hx. unfold upd_data. rewrite app_nil_r. replace (x <| m_cursor := m_cursor x |>) with x by by destruct x.
  change (w <| w_msgs ::= <[m := x]> |>) with (w <| w_msgs := <[m := x]> (w_msgs w) |>).
  rewrite insert_id by done. by destruct w.
Qed.

Lemma upd_data_upd m x cu cu' tx tx' room room' w :
  upd_data m (x <| m_cursor := cu |>) cu' tx' room' (upd_data m x cu tx room w) = upd_data m x cu' tx' room' w.
Proof.
  unfold upd_data. replace (x <| m_cursor := cu |> <| m_cursor := cu' |>) with (x <| m_cursor := cu' |>) by by destruct x.
  generalize (x <| m_cursor := cu |>), (x <| m_cursor := cu' |>). intros x1 x2.
  transitivity (w <| w_msgs := <[m := x2]> (<[m := x1]> (w_msgs w)) |> <| w_tx := tx' |> <| w_room := room' |>).
  - by destruct w.
  - rewrite insert_insert_eq. by destruct w.
Qed.

Lemma cursor_total_pos cu q todo : cursor_ok PAGE_SHIFT cu (q :: todo) -> seg_len q <= cu_total_resid cu.
Proof.
  intros Hok. destruct (data_next_ok PAGE_SHIFT Hshift cu q todo Hok) as (_ & _ & Hq).
  destruct Hok as [?|d rest s segs o _ Hr _ _ _ _ _ _ _ _]; [done|lia].
Qed.

(** The data loop sends a prefix of the data and keeps the cursor and the crc
    in step with it. *)
Lemma write_data_ok dc m fuel : forall w x todo crc,
  w_msgs w !! m = Some x -> cursor_ok PAGE_SHIFT (m_cursor x) todo -> Forall (readable (w_mem w)) todo ->
  c_sock (w_con w) = true -> (Z.to_nat (cu_total_resid (m_cursor x)) < fuel)%nat ->
  exists r crc' cu todo' sent room, let w' := upd_data m x cu (w_tx w ++ sent) room w in
    write_data_loop PAGE_SHIFT crc32c fuel m dc crc w = Ret ((r, crc'), w') /\
    cursor_ok PAGE_SHIFT cu todo' /\ Forall (readable (w_mem w)) todo' /\
    segs_bytes (w_mem w) todo = sent ++ segs_bytes (w_mem w) todo' /\
    (if dc then crc32c crc' (to_crc (w_mem w) cu todo') = crc32c crc (to_crc (w_mem w) (m_cursor x) todo)
     else crc' = crc) /\
    ((r = 1 /\ todo' = [] /\ used (w_room w) (length sent) room) \/
     (r <= 0 /\ todo' <> [] /\ stalled (w_room w) (length sent))).
Proof.
  induction fuel as [|fuel IH]; intros w x todo crc Hx Hok Hrd Hs Hf; [lia|]. cbn [write_data_loop].
  run (getm_eq _ _ _ Hx). destruct todo as [|q todo].
  { rewrite (proj2 (cursor_resid _ _ _ Hok) eq_refl). cbn [Z.eqb].
    exists 1, crc, (m_cursor x), [], [], (w_room w). cbn zeta. split.
    - rewrite upd_data_id by done. unfold ret. by destruct w.
    - split; [done|]. split; [done|]. split; [done|]. split; [by destruct dc|]. left. repeat split. apply used_refl. }
  destruct (Z.eqb_spec (cu_resid (m_cursor x)) 0) as [E|_]; [by apply (cursor_resid _ _ _ Hok) in E|].
  destruct (data_next_ok PAGE_SHIFT Hshift _ q todo Hok) as (Hnext & Hq & Hql). destruct q as [[p o] l].
  rewrite (bind_run _ _ _ (p, o, l, cu_last_piece (m_cursor x)) w) by (unfold lift; by rewrite Hnext). cbn beta iota.
  cbn in Hq, Hql. apply Forall_cons in Hrd as [Hrq Hrd].
  pose proof (seg_bytes_length _ _ Hrq ltac:(cbn; lia)) as Hlen. cbn [snd] in Hlen.
  unfold ceph_tcp_sendpage at 1. rewrite bind_assoc. run (page_bytes_ok w p o l Hrq).
  destruct (sendmsg_ok (seg_bytes (w_mem w) (p, o, l)) w Hs) as (r & room & tx & Hsend & Hr).
  { intros E. rewrite E in Hlen. cbn in Hlen. lia. }
  run Hsend. destruct Hr as [(Hr & -> & Hroom)|(Hr & -> & Hroom)].
  { rewrite (proj2 (Z.leb_le _ _)) by lia.
    exists r, crc, (m_cursor x), ((p, o, l) :: todo), [], room. cbn zeta. split.
    - rewrite upd_data_id by done. unfold ret. by destruct w.
    - split; [done|]. split; [by constructor|]. split; [done|]. split; [by destruct dc|]. right.
      split; [done|]. split; [done|]. exists (w_room w). split; [apply used_refl|done]. }
  rewrite (proj2 (Z.leb_gt _ _)) by lia. rewrite Hlen in Hr.
  set (w1 := w <| w_tx := w_tx w ++ take (Z.to_nat r) (seg_bytes (w_mem w) (p, o, l)) |> <| w_room := room |>).
  set (crc1 := if dc && cu_need_crc (m_cursor x) then crc32c crc (seg_bytes (w_mem w) (p, o, l)) else crc).
  rewrite (bind_run _ _ _ crc1 w1).
  2:{ unfold crc1. destruct (dc && cu_need_crc (m_cursor x)); [|done]. unfold ceph_crc32c_page, bind.
      by rewrite (page_bytes_ok w1 p o l). }
  destruct (data_advance_ok PAGE_SHIFT Hshift _ (p, o, l) todo r Hok Hr) as (cu & new & Hadv & Hnew & Htot & Hlt & Heq).
  rewrite (bind_run _ _ _ (cu, new) w1) by (unfold lift; by rewrite Hadv). cbn beta iota.
  run (modm_eq m x (fun x => x <| m_cursor := cu |>) w1 Hx).
  set (w2 := w1 <| w_msgs ::= _ |>). set (x2 := x <| m_cursor := cu |>).
  pose proof (cursor_total_pos _ _ _ Hok) as Hpos. cbn in Hpos.
  destruct (seg_bytes_cut (w_mem w) p o l r Hrq ltac:(lia)) as [Hcut Hrcut].
  (* what the cursor has to go now *)
  assert (Hnext' : exists todo1, cursor_ok PAGE_SHIFT cu todo1 /\ Forall (readable (w_mem w)) todo1 /\
    segs_bytes (w_mem w) ((p, o, l) :: todo) =
      take (Z.to_nat r) (seg_bytes (w_mem w) (p, o, l)) ++ segs_bytes (w_mem w) todo1 /\
    (dc = true -> crc32c crc1 (to_crc (w_mem w) cu todo1) =
      crc32c crc (to_crc (w_mem w) (m_cursor x) ((p, o, l) :: todo)))).
  { cbn [seg_len snd] in Hlt, Heq. destruct (decide (r = l)) as [->|Hne].
    - destruct (Heq eq_refl) as [Hnewt Hcu]. exists todo. split; [done|]. split; [done|]. split.
      + cbn. by rewrite take_ge by lia.
      + intros ->. unfold crc1, to_crc. cbn [andb tail]. rewrite Hnew.
        destruct todo as [|q' todo].
        * destruct (cu_need_crc (m_cursor x)), new; cbn; rewrite ?crc_nil, ?app_nil_r; done.
        * rewrite Hnewt by done. destruct (cu_need_crc (m_cursor x)); cbn; by rewrite ?crc_app.
    - destruct (Hlt ltac:(lia)) as [-> Hcu]. cbn in Hcu. exists ((p, o + r, l - r) :: todo). split; [done|].
      split; [by constructor|]. split.
      + cbn. rewrite app_assoc. by rewrite <- Hcut.
      + intros ->. unfold crc1, to_crc. cbn [andb tail]. rewrite Hnew.
        destruct (cu_need_crc (m_cursor x)); cbn; by rewrite ?crc_app. }
  destruct Hnext' as (todo1 & Hcu & Hrd1 & Hbytes & Hcrc1).
  destruct (IH w2 x2 todo1 crc1) as (r2 & crc2 & cu2 & todo2 & sent2 & room2 & Hrun & Hok2 & Hrd2 & Hb2 & Hc2 & Hres).
  { apply lookup_insert_eq. }
  { done. } { done. } { done. } { cbn. lia. }
  exists r2, crc2, cu2, todo2, (take (Z.to_nat r) (seg_bytes (w_mem w) (p, o, l)) ++ sent2), room2. cbn zeta.
  split; [|split; [done|split; [done|split; [|split]]]].
  - rewrite Hrun. do 2 f_equal. rewrite app_assoc. apply (upd_data_upd m x cu).
  - etransitivity; [exact Hbytes|]. rewrite <- app_assoc. f_equal. exact Hb2.
  - destruct dc; [|by rewrite Hc2; unfold crc1]. etransitivity; [exact Hc2|]. by apply Hcrc1.
  - rewrite length_app, length_take.
    assert (Hu : used (w_room w) (Z.to_nat r `min` length (seg_bytes (w_mem w) (p, o, l))) room)
      by (eapply used_mono; [exact Hroom|lia]).
    destruct Hres as [(Hr2 & Ht2 & Hu2)|(Hr2 & Ht2 & Hu2)]; [left|right]; repeat (split; [done|]).
    + eapply used_trans; [exact Hu|exact Hu2].
    + eapply stalled_trans; [exact Hu|exact Hu2].
Qed.

(** ** Frames *)
Definition kvec_bytes (v : kvec) : list Z := take (Z.to_nat (iov_len v)) (iov_base v).
Definition front_bytes (x : ceph_msg) : list Z := kvec_bytes (m_front x).
Definition middle_bytes (x : ceph_msg) : list Z :=
  match m_middle x with Some v => kvec_bytes v | None => [] end.
Definition data_bytes (mem : gmap nat (list Z)) (x : ceph_msg) : list Z :=
  if m_data_length x =? 0 then []
  else segs_bytes mem (payload_pieces PAGE_SHIFT (m_data x) (m_data_length x)).

(** The header and the sequence counter after the message was numbered. *)
Definition out_hdr (out_seq : Z) (x : ceph_msg) : ceph_msg_header :=
  if m_needs_out_seq x then (m_hdr x) <| h_seq := u64 (out_seq + 1) |> else m_hdr x.
Definition seq_after (out_seq : Z) (x : ceph_msg) : Z :=
  if m_needs_out_seq x then u64 (out_seq + 1) else out_seq.

Definition final_hdr (h : ceph_msg_header) : ceph_msg_header := h <| h_crc := crc32c 0 (header_body h) |>.
Definition final_footer (nocrc : bool) (mem : gmap nat (list Z)) (x : ceph_msg) : ceph_msg_footer :=
  MsgFooter (crc32c 0 (front_bytes x))
    (match m_middle x with Some v => crc32c 0 (kvec_bytes v) | None => 0 end)
    (if (m_data_length x =? 0) || nocrc then 0 else crc32c 0 (data_bytes mem x))
    (if (m_data_length x =? 0) || negb nocrc then CEPH_MSG_FOOTER_COMPLETE
     else Z.lor CEPH_MSG_FOOTER_NOCRC CEPH_MSG_FOOTER_COMPLETE).

(** The bytes of a message on the wire, with header [h]. *)
Definition msg_frame (nocrc : bool) (mem : gmap nat (list Z)) (h : ceph_msg_header) (x : ceph_msg) : list Z :=
  [CEPH_MSGR_TAG_MSG] ++ header_bytes (final_hdr h) ++ front_bytes x ++ middle_bytes x ++ data_bytes mem x ++
  footer_bytes (final_footer nocrc mem x).

Fixpoint frames (nocrc : bool) (mem : gmap nat (list Z)) (msgs : gmap nat ceph_msg) (out_seq : Z) (q : list nat)
  : list Z :=
  match q with
  | [] => []
  | m :: q =>
      match msgs !! m with
      | Some x => msg_frame nocrc mem (out_hdr out_seq x) x ++ frames nocrc mem msgs (seq_after out_seq x) q
      | None => []
      end
  end.

Definition ack_bytes (c : ceph_connection) : list Z :=
  if c_in_seq_acked c <? c_in_seq c then [CEPH_MSGR_TAG_ACK] ++ le_bytes 8 (c_in_seq c) else [].
Definition keepalive_bytes (c : ceph_connection) : list Z :=
  if Z.testbit (c_flags c) CON_FLAG_KEEPALIVE_PENDING then [CEPH_MSGR_TAG_KEEPALIVE] else [].

(** What is still to be written after the pending output. *)
Definition queue_stream (w : world) : list Z :=
  ack_bytes (w_con w) ++
  frames (mr_nocrc (w_msgr w)) (w_mem w) (w_msgs w) (c_out_seq (w_con w)) (c_out_queue (w_con w)) ++
  keepalive_bytes (w_con w).

(** ** The invariant of the writer *)
Definition kvec_ok (v : kvec) : Prop := 0 <= iov_len v <= Z.of_nat (length (iov_base v)) /\ iov_len v <= 2 ^ 24.

(** A message that can be sent: its lengths are right and its pages are there. *)
Record sendable (mem : gmap nat (list Z)) (x : ceph_msg) : Prop := {
  sb_front : kvec_ok (m_front x);
  sb_front_len : h_front_len (m_hdr x) = iov_len (m_front x);
  sb_middle : match m_middle x with Some v => kvec_ok v | None => True end;
  sb_con : m_con x = true;
  sb_data_len : m_data_length x = h_data_len (m_hdr x);
  sb_data : m_data_length x = 0 \/
    (0 < m_data_length x < 2 ^ 31 /\ payload_ok PAGE_SHIFT (m_data x) (m_data_length x) /\
     Forall (readable mem) (payload_pieces PAGE_SHIFT (m_data x) (m_data_length x))) }.

(** The bytes [s] of the current frame are still to be written. *)
Inductive pending_out (w : world) (s : list Z) : Prop :=
  | pending_kv kb :
      kv_ok w kb -> s = kb ->
      match c_out_msg (w_con w) with
      | Some m => c_out_msg_done (w_con w) = true /\ is_Some (w_msgs w !! m)
      | None => True
      end -> pending_out w s
  | pending_data m x kb todo :
      kv_ok w kb -> c_out_msg (w_con w) = Some m -> c_out_msg_done (w_con w) = false ->
      w_msgs w !! m = Some x -> m_data x <> [] ->
      cursor_ok PAGE_SHIFT (m_cursor x) todo -> Forall (readable (w_mem w)) todo ->
      s = kb ++ segs_bytes (w_mem w) todo ++
        footer_bytes (
          let f := m_footer x in
          let nocrc := mr_nocrc (w_msgr w) in
          MsgFooter (f_front_crc f) (f_middle_crc f)
            (if nocrc then f_data_crc f else crc32c (f_data_crc f) (to_crc (w_mem w) (m_cursor x) todo))
            (Z.lor (if nocrc then Z.lor (f_flags f) CEPH_MSG_FOOTER_NOCRC else f_flags f) CEPH_MSG_FOOTER_COMPLETE)) ->
      pending_out w s.

Record writer_ok (w : world) (s : list Z) : Prop := {
  wo_state : c_state (w_con w) = CON_STATE_OPEN;
  wo_sock : c_sock (w_con w) = true;
  wo_skip : c_out_skip (w_con w) = 0;
  wo_queue : NoDup (c_out_queue (w_con w));
  wo_out_msg : match c_out_msg (w_con w) with Some m => m ∉ c_out_queue (w_con w) | None => True end;
  wo_msgs : Forall (fun m => exists x, w_msgs w !! m = Some x /\ sendable (w_mem w) x) (c_out_queue (w_con w));
  wo_pending : pending_out w s }.

(** ** Preparing output *)

(** The vector holds exactly the entries [es]. *)
Record kv_list (c : ceph_connection) (es : list out_kvec_entry) : Prop := {
  kl_cur : c_out_kvec_cur c = 0;
  kl_left : c_out_kvec_left c = Z.of_nat (length es);
  kl_size : length (c_out_kvec c) = 8%nat;
  kl_entries : take (length es) (c_out_kvec c) = es;
  kl_bytes : c_out_kvec_bytes c = foldr (fun e n => kv_len e + n) 0 es;
  kl_bound : Forall (fun e => kv_off e = 0 /\ 0 <= kv_len e <= 2 ^ 24) es }.

Definition kv_add (size : Z) (t : kv_target) (c : ceph_connection) : ceph_connection :=
  c <| c_out_kvec := <[Z.to_nat (c_out_kvec_left c) := KvEntry t 0 size]> (c_out_kvec c) |>
    <| c_out_kvec_left ::= Z.succ |> <| c_out_kvec_bytes ::= fun b => s32 (b + size) |>.

Lemma con_out_kvec_add_eq size t w :
  0 <= c_out_kvec_left (w_con w) < 8 -> length (c_out_kvec (w_con w)) = 8%nat ->
  con_out_kvec_add size t w = Ret (tt, w <| w_con ::= kv_add size t |>).
Proof.
  intros Hl Hk. unfold con_out_kvec_add, bugon, bug_on, lift, bind, getc, modc, modw. cbn.
  rewrite (proj2 (Z.leb_gt _ _)) by lia. cbn. rewrite wr_total by lia. done.
Qed.

Lemma kv_len_sum es :
  Forall (fun e => kv_off e = 0 /\ 0 <= kv_len e <= 2 ^ 24) es ->
  0 <= foldr (fun e n => kv_len e + n) 0 es <= 2 ^ 24 * Z.of_nat (length es).
Proof. induction 1 as [|e es [_ He] _ IH]; cbn [foldr length]; lia. Qed.

Lemma kv_list_add c es size t :
  kv_list c es -> (length es < 8)%nat -> 0 <= size <= 2 ^ 24 -> kv_list (kv_add size t c) (es ++ [KvEntry t 0 size]).
Proof.
  intros [Hc Hl Hk He Hb Hbd] Hlen Hs. pose proof (kv_len_sum _ Hbd). split; cbn.
  - done.
  - rewrite length_app. cbn. lia.
  - by rewrite length_insert.
  - rewrite length_app, Hl, Nat2Z.id. cbn [length]. rewrite Nat.add_1_r.
    erewrite take_S_r by (apply list_lookup_insert_eq; lia). f_equal. by rewrite take_insert_ge by lia.
  - rewrite Hb, foldr_app. cbn. rewrite s32_small by lia. clear. induction es; cbn; lia.
  - apply Forall_app. split; [done|]. repeat constructor; cbn; lia.
Qed.

(** The pending bytes are those of the entries. *)
Lemma kv_list_ok w es kb :
  kv_list (w_con w) es -> (length es <= 8)%nat -> entries_bytes w es = Ret kb -> kv_ok w kb.
Proof.
  intros [Hc Hl Hk He Hb Hbd] Hlen Hkb.
  assert (Hp : pending_entries (w_con w) = es).
  { unfold pending_entries, slice. rewrite Hc, Hl, Nat2Z.id. by change (Z.to_nat 0) with 0%nat. }
  assert (Hall : Forall entry_ok es).
  { eapply Forall_impl; [exact Hbd|]. intros e [??]. split; lia. }
  split; rewrite ?Hp; try done; try lia.
  rewrite Hb. clear -Hkb Hall. revert kb Hkb. induction es as [|e es IH]; intros kb Hkb; cbn in Hkb.
  { by injection Hkb as <-. }
  apply bind_Ret in Hkb as (b & Eb & Hkb). apply bind_Ret in Hkb as (bs & Ebs & Hkb). injection Hkb as <-.
  apply Forall_cons in Hall as [[Ho Hl] Hall]. cbn. rewrite length_app, (IH Hall bs Ebs).
  pose proof (entry_bytes_length _ _ _ Eb Ho Hl). lia.
Qed.

Lemma kv_reset_ok w :
  length (c_out_kvec (w_con w)) = 8%nat ->
  exists c, con_out_kvec_reset w = Ret (tt, w <| w_con := c |>) /\ kv_list c [] /\
    c = (w_con w) <| c_out_kvec_left := 0 |> <| c_out_kvec_bytes := 0 |> <| c_out_kvec_cur := 0 |>.
Proof. intros Hk. eexists. split; [by destruct w|]. by split. Qed.

(** The ack that goes in front of a message. *)
Definition ack_con (c : ceph_connection) : ceph_connection :=
  kv_add 8 KvTempAck ((fun c => c <| c_out_temp_ack := c_in_seq_acked c |>)
    (kv_add 1 (KvTag CEPH_MSGR_TAG_ACK) (c <| c_in_seq_acked := c_in_seq c |>))).
Definition ack_entries (c : ceph_connection) : list out_kvec_entry :=
  if c_in_seq_acked c <? c_in_seq c then [KvEntry (KvTag CEPH_MSGR_TAG_ACK) 0 1; KvEntry KvTempAck 0 8] else [].
Definition maybe_ack (c : ceph_connection) : ceph_connection :=
  if c_in_seq_acked c <? c_in_seq c then ack_con c else c.

Lemma ack_con_list c :
  kv_list c [] -> kv_list (ack_con c) [KvEntry (KvTag CEPH_MSGR_TAG_ACK) 0 1; KvEntry KvTempAck 0 8].
Proof.
  intros Hk.
  assert (Hk1 : kv_list (c <| c_in_seq_acked := c_in_seq c |>) []) by (destruct Hk; by split).
  apply (kv_list_add _ _ 1 (KvTag CEPH_MSGR_TAG_ACK)) in Hk1; [|cbn; lia|lia]. cbn [app] in Hk1.
  unfold ack_con. apply (kv_list_add _ [_] 8 KvTempAck); [|cbn; lia|lia].
  revert Hk1. generalize (kv_add 1 (KvTag CEPH_MSGR_TAG_ACK) (c <| c_in_seq_acked := c_in_seq c |>)).
  intros c' Hk1. destruct Hk1. by split.
Qed.

Lemma add_ack_eq w : kv_list (w_con w) [] -> add_ack w = Ret (tt, w <| w_con ::= ack_con |>).
Proof.
  intros [? Hl Hs ? ?]. cbn in Hl. unfold add_ack. run1.
  erewrite bind_run; [|apply con_out_kvec_add_eq; cbn; lia]. run1.
  rewrite con_out_kvec_add_eq by (cbn; rewrite ?length_insert; lia). by rewrite !wcon_wcon.
Qed.

Lemma maybe_ack_ok w :
  kv_list (w_con w) [] ->
  when (c_in_seq_acked (w_con w) <? c_in_seq (w_con w)) add_ack w = Ret (tt, w <| w_con := maybe_ack (w_con w) |>) /\
  kv_list (maybe_ack (w_con w)) (ack_entries (w_con w)).
Proof.
  intros Hk. unfold maybe_ack, ack_entries. case_Zb; cbn [when].
  - split; [by apply add_ack_eq|by apply ack_con_list].
  - split; [|done]. unfold ret. do 2 f_equal. by destruct w.
Qed.

(** The message as it is when it has been numbered. *)
Definition taken (out_seq : Z) (x : ceph_msg) : ceph_msg :=
  x <| m_kref ::= Z.succ |> <| m_hdr := out_hdr out_seq x |> <| m_needs_out_seq := false |>.

Definition take_con (m : nat) (q : list nat) (x : ceph_msg) (c : ceph_connection) : ceph_connection :=
  c <| c_out_msg := Some m |> <| c_out_queue := q |> <| c_out_sent ::= fun s => s ++ [m] |>
    <| c_out_seq ::= fun s => seq_after s x |>.

Lemma take_out_msg_ok w m q x :
  c_out_queue (w_con w) = m :: q -> w_msgs w !! m = Some x -> m_con x = true ->
  take_out_msg w = Ret (m, w <| w_con ::= take_con m q x |> <| w_msgs ::= <[m := taken (c_out_seq (w_con w)) x]> |>).
Proof.
  intros Hq Hx Hcon. unfold take_out_msg. run1. rewrite Hq. run1. unfold ceph_msg_get.
  run_getm Hx. run_bugon ltac:(by rewrite Hcon). run_modm Hx. run1.
  unfold seq_after, taken, out_hdr, take_con. destruct (m_needs_out_seq x) eqn:En; cbn [when].
  - rewrite bind_assoc. run1. rewrite bind_assoc. run1.
    run_modm (lookup_insert_eq (w_msgs w) m (x <| m_kref ::= Z.succ |>)).
    unfold ret. rewrite !wmsgs_wcon, !wcon_wcon, wmsgs_insert. do 2 apply f_equal.
    erewrite wcon_ext; [apply wmsgs_insert_ext|]; [by destruct x|].
    cbn beta. unfold seq_after. rewrite En. reflexivity.
  - run1. unfold ret. rewrite !wmsgs_wcon, !wcon_wcon. do 2 apply f_equal.
    erewrite wcon_ext; [apply wmsgs_insert_ext|]; [destruct x; cbn in *; by subst|].
    cbn beta. unfold seq_after. rewrite En. reflexivity.
Qed.

Lemma kv_list_ext c c' es :
  kv_list c es -> c_out_kvec c' = c_out_kvec c -> c_out_kvec_cur c' = c_out_kvec_cur c ->
  c_out_kvec_left c' = c_out_kvec_left c -> c_out_kvec_bytes c' = c_out_kvec_bytes c -> kv_list c' es.
Proof. intros [] E1 E2 E3 E4. split; rewrite ?E1, ?E2, ?E3, ?E4; done. Qed.

(** The entries of a message. *)
Definition msg_entries (m : nat) (x : ceph_msg) : list out_kvec_entry :=
  [KvEntry (KvTag CEPH_MSGR_TAG_MSG) 0 1; KvEntry (KvHeader m) 0 sizeof_header;
   KvEntry (KvFront m) 0 (iov_len (m_front x))] ++
  match m_middle x with Some v => [KvEntry (KvMiddle m) 0 (iov_len v)] | None => [] end.

Definition add_msg_con (m : nat) (x : ceph_msg) (c : ceph_connection) : ceph_connection :=
  let c := kv_add (iov_len (m_front x)) (KvFront m) (kv_add sizeof_header (KvHeader m)
             (kv_add 1 (KvTag CEPH_MSGR_TAG_MSG) c)) in
  match m_middle x with Some v => kv_add (iov_len v) (KvMiddle m) c | None => c end.

(** The vector part of prepare_write_message. *)
Lemma add_msg_ok m x w es (k : M unit) :
  kv_list (w_con w) es -> (length es <= 2)%nat -> kvec_ok (m_front x) ->
  match m_middle x with Some v => kvec_ok v | None => True end ->
  (con_out_kvec_add 1 (KvTag CEPH_MSGR_TAG_MSG) ;;
   con_out_kvec_add sizeof_header (KvHeader m) ;;
   con_out_kvec_add (iov_len (m_front x)) (KvFront m) ;;
   match m_middle x with
   | Some v => con_out_kvec_add (iov_len v) (KvMiddle m)
   | None => ret tt
   end ;; k) w = k (w <| w_con ::= add_msg_con m x |>) /\
  kv_list (add_msg_con m x (w_con w)) (es ++ msg_entries m x).
Proof.
  intros Hk Hes [Hf Hf2] Hm. pose proof Hk as [_ Hl Hs _ _ _].
  pose proof (kv_list_add _ _ 1 (KvTag CEPH_MSGR_TAG_MSG) Hk ltac:(lia) ltac:(lia)) as Hk1.
  pose proof (kv_list_add _ _ sizeof_header (KvHeader m) Hk1 ltac:(rewrite length_app; cbn; lia)
    ltac:(unfold sizeof_header; lia)) as Hk2.
  pose proof (kv_list_add _ _ (iov_len (m_front x)) (KvFront m) Hk2 ltac:(rewrite !length_app; cbn; lia)
    ltac:(lia)) as Hk3.
  split.
  - erewrite bind_run; [|apply con_out_kvec_add_eq; cbn; lia].
    erewrite bind_run; [|apply con_out_kvec_add_eq; cbn; rewrite ?length_insert; lia].
    erewrite bind_run; [|apply con_out_kvec_add_eq; cbn; rewrite ?length_insert; lia].
    unfold add_msg_con. destruct (m_middle x) as [v|].
    + erewrite bind_run; [|apply con_out_kvec_add_eq; cbn; rewrite ?length_insert; lia].
      by rewrite !wcon_wcon.
    + run1. by rewrite !wcon_wcon.
  - unfold add_msg_con, msg_entries. cbn [app]. rewrite <- !app_assoc in Hk3. cbn [app] in Hk3.
    destruct (m_middle x) as [v|]; [|exact Hk3]. destruct Hm as [Hv Hv2].
    pose proof (kv_list_add _ _ (iov_len v) (KvMiddle m) Hk3 ltac:(rewrite !length_app; cbn; lia) ltac:(lia)) as Hk4.
    rewrite <- app_assoc in Hk4. exact Hk4.
Qed.

(** A message whose header and footer are filled in. *)
Definition with_crcs (x : ceph_msg) : ceph_msg :=
  x <| m_hdr ::= final_hdr |>
    <| m_footer := MsgFooter (crc32c 0 (front_bytes x))
         (match m_middle x with Some v => crc32c 0 (kvec_bytes v) | None => 0 end) 0 0 |>.

Lemma fill_crcs_eq m x w :
  w_msgs w !! m = Some x -> fill_crcs crc32c m w = Ret (tt, w <| w_msgs ::= <[m := with_crcs x]> |>).
Proof. intros Hx. unfold fill_crcs. by rewrite (modm_eq m x _ w Hx). Qed.

(** The bytes of the entries of a message. *)
Lemma msg_entries_bytes w m x y :
  w_msgs w !! m = Some y -> m_front y = m_front x -> m_middle y = m_middle x ->
  kvec_ok (m_front x) -> match m_middle x with Some v => kvec_ok v | None => True end ->
  entries_bytes w (msg_entries m x) =
    Ret ([CEPH_MSGR_TAG_MSG] ++ header_bytes (m_hdr y) ++ front_bytes x ++ middle_bytes x).
Proof.
  intros Hy Hf Hm [Hfo _] Hmo. unfold msg_entries, front_bytes, middle_bytes.
  assert (Hh : length (header_bytes (m_hdr y)) = 53%nat) by reflexivity.
  cbn [app entries_bytes]. unfold entry_bytes. cbn [kv_target_of kv_off kv_len target_bytes obind].
  rewrite Hy. cbn [deref obind]. rewrite Hh, Hf. change (Z.of_nat 53 <? 0 + sizeof_header) with false.
  cbn [Z.of_nat length Z.ltb Z.compare]. change (Z.of_nat 1 <? 0 + 1) with false. cbn iota.
  rewrite (proj2 (Z.ltb_ge _ _)) by lia.
  change (slice [CEPH_MSGR_TAG_MSG] 0 1) with [CEPH_MSGR_TAG_MSG].
  replace (slice (header_bytes (m_hdr y)) 0 sizeof_header) with (header_bytes (m_hdr y)) by reflexivity.
  unfold kvec_bytes, slice. change (Z.to_nat 0) with 0%nat. rewrite drop_0.
  destruct (m_middle x) as [v|] eqn:Ex; cbn [entries_bytes obind].
  - destruct Hmo as [Hv _]. unfold entry_bytes. cbn [kv_target_of kv_off kv_len target_bytes obind].
    rewrite Hy. cbn [deref obind]. rewrite Hm. cbn [deref obind]. rewrite (proj2 (Z.ltb_ge _ _)) by lia.
    cbn [obind]. unfold slice. change (Z.to_nat 0) with 0%nat. rewrite drop_0, app_nil_r. done.
  - done.
Qed.

Lemma entries_bytes_app w l k a b :
  entries_bytes w l = Ret a -> entries_bytes w k = Ret b -> entries_bytes w (l ++ k) = Ret (a ++ b).
Proof.
  revert a. induction l as [|e l IH]; intros a Hl Hk; cbn in Hl |- *; [by injection Hl as <-|].
  apply bind_Ret in Hl as (b1 & -> & Hl). apply bind_Ret in Hl as (b2 & E2 & Hl). injection Hl as <-.
  cbn. rewrite (IH b2 E2 Hk). cbn. by rewrite app_assoc.
Qed.

Lemma ack_entries_bytes w c :
  c_out_temp_ack (w_con w) = c_in_seq c \/ (c_in_seq_acked c <? c_in_seq c) = false ->
  entries_bytes w (ack_entries c) = Ret (ack_bytes c).
Proof.
  unfold ack_entries, ack_bytes. case_Zb; [|done]. intros [E|?]; [|done].
  cbn [entries_bytes]. unfold entry_bytes. cbn [kv_target_of target_bytes obind kv_off kv_len]. by rewrite E.
Qed.

Definition footer_con (m : nat) (more : bool) (c : ceph_connection) : ceph_connection :=
  c <| c_out_kvec_is_msg := true |>
    <| c_out_kvec := <[Z.to_nat (c_out_kvec_left c) := KvEntry (KvFooter m) 0 sizeof_footer]> (c_out_kvec c) |>
    <| c_out_kvec_bytes ::= fun b => s32 (b + sizeof_footer) |>
    <| c_out_kvec_left ::= Z.succ |> <| c_out_more := more |> <| c_out_msg_done := true |>.

Definition completed (x : ceph_msg) : ceph_msg :=
  x <| m_footer ::= fun f => f <| f_flags ::= fun g => Z.lor g CEPH_MSG_FOOTER_COMPLETE |> |>.

Lemma footer_ok w m x es :
  c_out_msg (w_con w) = Some m -> w_msgs w !! m = Some x -> kv_list (w_con w) es -> (length es < 8)%nat ->
  prepare_write_message_footer w =
    Ret (tt, w <| w_con ::= footer_con m (m_more_to_follow x) |> <| w_msgs ::= <[m := completed x]> |>) /\
  kv_list (footer_con m (m_more_to_follow x) (w_con w)) (es ++ [KvEntry (KvFooter m) 0 sizeof_footer]).
Proof.
  intros Hm Hx Hk Hes. pose proof Hk as [_ Hl Hs _ _ _]. split.
  - unfold prepare_write_message_footer, out_msg. rewrite bind_assoc. run1. rewrite Hm.
    run1. run1. run_modm Hx. run_getm (lookup_insert_eq (w_msgs w) m (completed x)). run1.
    erewrite bind_run; [|unfold lift; rewrite wr_total by lia; reflexivity].
    unfold modc, modw. do 2 apply f_equal. rewrite wmsgs_wcon. apply (f_equal (over w_msgs _)). by apply wcon_ext.
  - pose proof (kv_list_add _ _ sizeof_footer (KvFooter m) Hk ltac:(lia) ltac:(unfold sizeof_footer; lia)) as Hk'.
    eapply kv_list_ext; [exact Hk'|done..].
Qed.

Lemma footer_entry_bytes w m x :
  w_msgs w !! m = Some x ->
  entries_bytes w [KvEntry (KvFooter m) 0 sizeof_footer] = Ret (footer_bytes (m_footer x)).
Proof.
  intros Hx. cbn [entries_bytes]. unfold entry_bytes. cbn [kv_target_of target_bytes obind kv_off kv_len].
  rewrite Hx. reflexivity.
Qed.

(** What is left as it is while a frame is written. *)
Record keeps (w w' : world) : Prop := {
  k_state : c_state (w_con w') = c_state (w_con w);
  k_sock : c_sock (w_con w') = c_sock (w_con w);
  k_skip : c_out_skip (w_con w') = c_out_skip (w_con w);
  k_ack : ack_bytes (w_con w') = ack_bytes (w_con w);
  k_queue : c_out_queue (w_con w') = c_out_queue (w_con w);
  k_seq : c_out_seq (w_con w') = c_out_seq (w_con w);
  k_keepalive : keepalive_bytes (w_con w') = keepalive_bytes (w_con w);
  k_msgr : w_msgr w' = w_msgr w;
  k_mem : w_mem w' = w_mem w }.

#[local] Instance keeps_trans : Transitive keeps.
Proof. intros w1 w2 w3 H1 H2. destruct H1, H2. split; congruence. Qed.

Lemma flag_set_eq f w :
  con_flag_valid f = true -> con_flag_set f w = Ret (tt, w <| w_con ::= fun c => c <| c_flags ::= fun x => Z.setbit x f |> |>).
Proof. intros Hf. unfold con_flag_set. run_bugon ltac:(by rewrite Hf). done. Qed.

Lemma flag_clear_eq f w :
  con_flag_valid f = true ->
  con_flag_clear f w = Ret (tt, w <| w_con ::= fun c => c <| c_flags ::= fun x => Z.clearbit x f |> |>).
Proof. intros Hf. unfold con_flag_clear. run_bugon ltac:(by rewrite Hf). done. Qed.

Lemma flag_test_and_clear_eq f w :
  con_flag_valid f = true ->
  con_flag_test_and_clear f w =
    Ret (Z.testbit (c_flags (w_con w)) f, w <| w_con ::= fun c => c <| c_flags ::= fun x => Z.clearbit x f |> |>).
Proof. intros Hf. unfold con_flag_test_and_clear. run_bugon ltac:(by rewrite Hf). done. Qed.

Definition write_flag (c : ceph_connection) : ceph_connection :=
  c <| c_flags ::= fun x => Z.setbit x CON_FLAG_WRITE_PENDING |>.

Lemma keepalive_write_flag c c' : c_flags c' = c_flags c -> keepalive_bytes (write_flag c') = keepalive_bytes c.
Proof.
  intros E. unfold keepalive_bytes.
  change (c_flags (write_flag c')) with (Z.setbit (c_flags c') CON_FLAG_WRITE_PENDING).
  by rewrite E, Z.setbit_neq.
Qed.

Definition start_con (c : ceph_connection) : ceph_connection :=
  c <| c_out_kvec_left := 0 |> <| c_out_kvec_bytes := 0 |> <| c_out_kvec_cur := 0 |>
    <| c_out_kvec_is_msg := true |> <| c_out_msg_done := false |>.

(** The connection with the entries of the message [m], and the message. *)
Definition prepared_con (m : nat) (q : list nat) (x : ceph_msg) (c : ceph_connection) : ceph_connection :=
  add_msg_con m x (take_con m q x (maybe_ack (start_con c))).
Definition prepared_msg (out_seq : Z) (x : ceph_msg) : ceph_msg := with_crcs (taken out_seq x).

Lemma maybe_ack_facts c :
  c_state (maybe_ack c) = c_state c /\ c_sock (maybe_ack c) = c_sock c /\ c_out_skip (maybe_ack c) = c_out_skip c /\
  c_in_seq (maybe_ack c) = c_in_seq c /\ c_out_queue (maybe_ack c) = c_out_queue c /\
  c_out_seq (maybe_ack c) = c_out_seq c /\ c_flags (maybe_ack c) = c_flags c /\
  c_out_msg_done (maybe_ack c) = c_out_msg_done c /\
  (c_in_seq_acked (maybe_ack c) <? c_in_seq c) = false /\
  (c_out_temp_ack (maybe_ack c) = c_in_seq c \/ (c_in_seq_acked c <? c_in_seq c) = false).
Proof.
  unfold maybe_ack. destruct (c_in_seq_acked c <? c_in_seq c) eqn:E; cbn; [|tauto].
  rewrite Z.ltb_irrefl. tauto.
Qed.

(** prepare_write_message up to the ack in front of the message. *)
Lemma prepare_head w (k : M unit) :
  length (c_out_kvec (w_con w)) = 8%nat ->
  (con_out_kvec_reset ;;
   modc (fun c => c <| c_out_kvec_is_msg := true |> <| c_out_msg_done := false |>) ;;
   ack ⟵ getc (fun c => c_in_seq_acked c <? c_in_seq c);
   when ack add_ack ;; k) w = k (w <| w_con ::= fun c => maybe_ack (start_con c) |>) /\
  kv_list (maybe_ack (start_con (w_con w))) (ack_entries (w_con w)).
Proof.
  intros Hk. destruct (kv_reset_ok w Hk) as (c0 & Hreset & Hk0 & Hc0). run Hreset. run1. run1.
  set (w2 := w <| w_con := c0 |> <| w_con ::= _ |>).
  assert (Hw2 : w_con w2 = start_con (w_con w)) by (unfold w2; cbn; rewrite Hc0; reflexivity).
  assert (Hk2 : kv_list (w_con w2) []) by (eapply kv_list_ext; [exact Hk0|done..]).
  destruct (maybe_ack_ok w2 Hk2) as [Hack Hk3].
  change (c_in_seq_acked c0 <? c_in_seq c0) with (c_in_seq_acked (w_con w2) <? c_in_seq (w_con w2)). run Hack.
  change (ack_entries (w_con w)) with (ack_entries (start_con (w_con w))). rewrite Hw2 in Hk3 |- *. split; [|exact Hk3].
  by f_equal.
Qed.

Lemma take_con_list m q x c es : kv_list c es -> kv_list (take_con m q x c) es.
Proof. intros Hk. by eapply kv_list_ext. Qed.

Lemma con_over_con f w : w_con (w <| w_con ::= f |>) = f (w_con w).
Proof. done. Qed.
Lemma msgs_over_con f w : w_msgs (w <| w_con ::= f |>) = w_msgs w.
Proof. done. Qed.
Lemma con_over_msgs f w : w_con (w <| w_msgs ::= f |>) = w_con w.
Proof. done. Qed.

(** From there up to the point where the footer or the data follow. *)
Lemma prepare_tail w m q x es :
  c_out_queue (w_con w) = m :: q -> w_msgs w !! m = Some x -> sendable (w_mem w) x ->
  kv_list (w_con w) es -> (length es <= 2)%nat ->
  (m ⟵ take_out_msg;
   x ⟵ getm m;
   warnon (negb (m_data_length x =? h_data_len (m_hdr x))) ;;
   bugon (negb (h_front_len (m_hdr x) =? iov_len (m_front x))) ;;
   con_out_kvec_add 1 (KvTag CEPH_MSGR_TAG_MSG) ;;
   con_out_kvec_add sizeof_header (KvHeader m) ;;
   con_out_kvec_add (iov_len (m_front x)) (KvFront m) ;;
   match m_middle x with
   | Some v => con_out_kvec_add (iov_len v) (KvMiddle m)
   | None => ret tt
   end ;;
   fill_crcs crc32c m ;;
   (if m_data_length x =? 0 then prepare_write_message_footer
    else prepare_message_data PAGE_SHIFT m (u32 (m_data_length x)) ;; modc (fun c => c <| c_out_more := true |>)) ;;
   con_flag_set CON_FLAG_WRITE_PENDING) w =
  ((if m_data_length x =? 0 then prepare_write_message_footer
    else prepare_message_data PAGE_SHIFT m (u32 (m_data_length x)) ;; modc (fun c => c <| c_out_more := true |>)) ;;
   con_flag_set CON_FLAG_WRITE_PENDING)
    (w <| w_con ::= fun c => add_msg_con m x (take_con m q x c) |>
       <| w_msgs ::= <[m := prepared_msg (c_out_seq (w_con w)) x]> |>) /\
  kv_list (add_msg_con m x (take_con m q x (w_con w))) (es ++ msg_entries m x).
Proof.
  intros Hq Hx Hs Hk Hes.
  run (take_out_msg_ok w m q x Hq Hx (sb_con _ _ Hs)).
  set (w4 := w <| w_con ::= take_con m q x |> <| w_msgs ::= _ |>).
  assert (Hx4 : w_msgs w4 !! m = Some (taken (c_out_seq (w_con w)) x)) by apply lookup_insert_eq.
  assert (Hc4 : w_con w4 = take_con m q x (w_con w)) by apply con_over_msgs.
  run_getm Hx4.
  erewrite (bind_run (warnon _)).
  2:{ unfold warnon. cbn. unfold out_hdr. destruct (m_needs_out_seq x); cbn; rewrite (sb_data_len _ _ Hs), Z.eqb_refl; reflexivity. }
  cbn beta iota.
  run_bugon ltac:(cbn; unfold out_hdr; destruct (m_needs_out_seq x); cbn; rewrite (sb_front_len _ _ Hs), Z.eqb_refl; reflexivity).
  change (iov_len (m_front (taken (c_out_seq (w_con w)) x))) with (iov_len (m_front x)).
  change (m_middle (taken (c_out_seq (w_con w)) x)) with (m_middle x).
  change (m_data_length (taken (c_out_seq (w_con w)) x)) with (m_data_length x).
  assert (Hk4 : kv_list (w_con w4) es) by (rewrite Hc4; by apply take_con_list).
  match goal with |- context [bind (fill_crcs crc32c m) ?k] =>
    destruct (add_msg_ok m x w4 _ (bind (fill_crcs crc32c m) k) Hk4 Hes (sb_front _ _ Hs) (sb_middle _ _ Hs))
      as [Hadd Hk5] end.
  rewrite Hc4 in Hk5. split; [|exact Hk5]. rewrite Hadd. clear Hadd Hk5 Hk4.
  rewrite <- (msgs_over_con (add_msg_con m x)) in Hx4. pose proof (fill_crcs_eq _ _ _ Hx4) as Hfill.
  rewrite (bind_run (fill_crcs crc32c m) _ (w4 <| w_con ::= add_msg_con m x |>) _ _ Hfill).
  unfold w4. rewrite wmsgs_wcon, wmsgs_insert, wcon_wcon. reflexivity.
Qed.

(** prepare_write_message up to the point where the footer or the data follow. *)
Lemma prepare_start w m q x :
  c_out_queue (w_con w) = m :: q -> w_msgs w !! m = Some x -> sendable (w_mem w) x ->
  length (c_out_kvec (w_con w)) = 8%nat ->
  prepare_write_message PAGE_SHIFT crc32c w =
    ((if m_data_length x =? 0 then prepare_write_message_footer
      else prepare_message_data PAGE_SHIFT m (u32 (m_data_length x)) ;; modc (fun c => c <| c_out_more := true |>)) ;;
     con_flag_set CON_FLAG_WRITE_PENDING)
    (w <| w_con ::= prepared_con m q x |> <| w_msgs ::= <[m := prepared_msg (c_out_seq (w_con w)) x]> |>) /\
  kv_list (prepared_con m q x (w_con w)) (ack_entries (w_con w) ++ msg_entries m x).
Proof.
  intros Hq Hx Hs Hk. unfold prepare_write_message.
  match goal with |- context [bind take_out_msg ?k] =>
    destruct (prepare_head w (bind take_out_msg k) Hk) as [-> Hk1] end.
  destruct (maybe_ack_facts (start_con (w_con w))) as (_ & _ & _ & _ & Hqueue & Hseq & _).
  set (w1 := w <| w_con ::= fun c => maybe_ack (start_con c) |>).
  assert (Hc1 : w_con w1 = maybe_ack (start_con (w_con w))) by apply con_over_con.
  assert (Hq1 : c_out_queue (w_con w1) = m :: q) by (rewrite Hc1, Hqueue; exact Hq).
  assert (Hseq1 : c_out_seq (w_con w1) = c_out_seq (w_con w)) by (rewrite Hc1, Hseq; reflexivity).
  rewrite <- Hc1 in Hk1.
  destruct (prepare_tail w1 m q x _ Hq1 Hx Hs Hk1) as [-> Hk2].
  { unfold ack_entries. case_Zb; cbn; lia. }
  rewrite Hc1 in Hk2. split; [|exact Hk2]. rewrite Hseq1. unfold w1. by rewrite wcon_wcon.
Qed.

(** ** The end of prepare_write_message *)
Lemma kv_ok_ext w w' kb :
  kv_ok w kb -> (forall t, target_bytes t w' = target_bytes t w) ->
  c_out_kvec (w_con w') = c_out_kvec (w_con w) -> c_out_kvec_cur (w_con w') = c_out_kvec_cur (w_con w) ->
  c_out_kvec_left (w_con w') = c_out_kvec_left (w_con w) -> c_out_kvec_bytes (w_con w') = c_out_kvec_bytes (w_con w) ->
  kv_ok w' kb.
Proof.
  intros [E B R S A] Ht E1 E2 E3 E4. unfold pending_entries in *.
  split; unfold pending_entries; rewrite ?E1, ?E2, ?E3, ?E4; try done. by rewrite (entries_bytes_ext _ w).
Qed.

Definition flagged (w : world) : world := w <| w_con ::= write_flag |>.

Lemma flagged_keeps w : keeps w (flagged w).
Proof. split; try done. by apply keepalive_write_flag. Qed.

Lemma flagged_pending w s : pending_out w s -> pending_out (flagged w) s.
Proof.
  assert (Ht : forall t, target_bytes t (flagged w) = target_bytes t w) by (intros []; done).
  intros [kb Hk Hs Hm|m x kb todo Hk Ho Hd Hx Hne Hc Hr Hs].
  - apply (pending_kv _ _ kb); [|done..]. by eapply kv_ok_ext.
  - apply (pending_data _ _ m x kb todo); try done. by eapply kv_ok_ext.
Qed.

Lemma footer_pending w m y es kb :
  c_out_msg (w_con w) = Some m -> w_msgs w !! m = Some y -> kv_list (w_con w) es -> (length es < 8)%nat ->
  entries_bytes (w <| w_msgs ::= <[m := completed y]> |>) es = Ret kb ->
  exists w', prepare_write_message_footer w = Ret (tt, w') /\
    pending_out w' (kb ++ footer_bytes (m_footer (completed y))) /\ keeps w w' /\ (w_tx w' = w_tx w /\ w_room w' = w_room w) /\
    c_out_msg (w_con w') = Some m /\ w_msgs w' = <[m := completed y]> (w_msgs w).
Proof.
  intros Hm Hy Hk Hes Hkb. destruct (footer_ok w m y es Hm Hy Hk Hes) as [Hrun Hk'].
  eexists. split; [exact Hrun|]. set (w' := w <| w_con ::= _ |> <| w_msgs ::= _ |>).
  assert (Hy' : w_msgs w' !! m = Some (completed y)) by apply lookup_insert_eq.
  split; [|by repeat split].
  apply (pending_kv _ _ (kb ++ footer_bytes (m_footer (completed y)))); [|done|].
  - eapply (kv_list_ok w'); [exact Hk'|rewrite length_app; cbn; lia|].
    apply entries_bytes_app; [|by apply footer_entry_bytes].
    rewrite <- Hkb. apply entries_bytes_ext. by intros [].
  - change (c_out_msg (w_con w')) with (c_out_msg (w_con w)). rewrite Hm. split; [done|]. by rewrite Hy'.
Qed.

Lemma data_pending w m y es kb mem :
  w_mem w = mem -> c_out_msg (w_con w) = Some m -> c_out_msg_done (w_con w) = false ->
  w_msgs w !! m = Some y -> kv_list (w_con w) es -> (length es <= 8)%nat ->
  (forall cu, entries_bytes (w <| w_msgs ::= <[m := y <| m_cursor := cu |>]> |>) es = Ret kb) ->
  0 < m_data_length y < 2 ^ 31 -> payload_ok PAGE_SHIFT (m_data y) (m_data_length y) ->
  Forall (readable mem) (payload_pieces PAGE_SHIFT (m_data y) (m_data_length y)) ->
  f_data_crc (m_footer y) = 0 -> f_flags (m_footer y) = 0 ->
  exists w' cu,
    (prepare_message_data PAGE_SHIFT m (u32 (m_data_length y)) ;; modc (fun c => c <| c_out_more := true |>)) w = Ret (tt, w') /\
    pending_out w' (kb ++ data_bytes mem y ++
      footer_bytes (MsgFooter (f_front_crc (m_footer y)) (f_middle_crc (m_footer y))
        (if mr_nocrc (w_msgr w) then 0 else crc32c 0 (data_bytes mem y))
        (if mr_nocrc (w_msgr w) then Z.lor CEPH_MSG_FOOTER_NOCRC CEPH_MSG_FOOTER_COMPLETE else CEPH_MSG_FOOTER_COMPLETE))) /\
    keeps w w' /\ (w_tx w' = w_tx w /\ w_room w' = w_room w) /\
    c_out_msg (w_con w') = Some m /\ w_msgs w' = <[m := y <| m_cursor := cu |>]> (w_msgs w).
Proof.
  intros Hmem Hm Hd Hy Hk Hes Hkb Hlen Hp Hr Hcrc Hfl.
  assert (H2 : 2 ^ PAGE_SHIFT < 2 ^ 32) by (destruct Hshift; apply Z.pow_lt_mono_r; lia).
  destruct (m_data y) as [|d rest] eqn:Ed; [cbn in Hp; lia|].
  destruct (cursor_init_item PAGE_SHIFT Hshift
    (DataCursor (m_data_length y) (d :: rest) (cu_resid (m_cursor y)) (cu_last_piece (m_cursor y))
       (cu_need_crc (m_cursor y)) (cu_pos (m_cursor y))) d rest _ Hp) as (cu & Hcu & _ & Hneed & Hcok);
    [lia|lia|done|done|].
  exists (w <| w_msgs ::= <[m := y <| m_cursor := cu |>]> |> <| w_con ::= fun c => c <| c_out_more := true |> |>), cu.
  set (w' := w <| w_msgs ::= _ |> <| w_con ::= _ |>).
  assert (Hy' : w_msgs w' !! m = Some (y <| m_cursor := cu |>)) by apply lookup_insert_eq.
  split; [|split; [|by repeat split]].
  - unfold prepare_message_data. rewrite u32_small by lia. rewrite bind_assoc.
    run_bugon ltac:(apply Z.eqb_neq; lia). rewrite bind_assoc. run_getm Hy. rewrite bind_assoc.
    erewrite (bind_run (lift _) _ _ cu w).
    2:{ unfold lift, ceph_msg_data_cursor_init, bug_on. rewrite Ed.
        rewrite (proj2 (Z.eqb_neq _ _)), Z.ltb_irrefl, bool_decide_eq_false_2 by (done || lia). cbn [obind].
        rewrite Hcu. reflexivity. }
    run_modm Hy. reflexivity.
  - assert (Hdb : data_bytes mem y = segs_bytes mem (payload_pieces PAGE_SHIFT (d :: rest) (m_data_length y))).
    { unfold data_bytes. by rewrite (proj2 (Z.eqb_neq _ _)), Ed by lia. }
    apply (pending_data w' _ m (y <| m_cursor := cu |>) kb (payload_pieces PAGE_SHIFT (d :: rest) (m_data_length y)));
      try done.
    + eapply (kv_list_ok w'); [by eapply kv_list_ext|done|]. rewrite <- (Hkb cu). apply entries_bytes_ext. by intros [].
    + change (m_data (y <| m_cursor := cu |>)) with (m_data y). by rewrite Ed.
    + change (w_mem w') with (w_mem w). by rewrite Hmem.
    + cbn zeta. change (m_footer (y <| m_cursor := cu |>)) with (m_footer y). rewrite Hcrc, Hfl. unfold to_crc.
      change (m_cursor (y <| m_cursor := cu |>)) with cu. rewrite Hneed, Hdb.
      change (w_mem w') with (w_mem w). change (w_msgr w') with (w_msgr w). rewrite Hmem. destruct (mr_nocrc (w_msgr w)); done.
Qed.

Lemma prepared_facts m q x c :
  let c' := prepared_con m q x c in
  c_state c' = c_state c /\ c_sock c' = c_sock c /\ c_out_skip c' = c_out_skip c /\
  ack_bytes c' = [] /\ c_out_queue c' = q /\ c_out_seq c' = seq_after (c_out_seq c) x /\
  c_flags c' = c_flags c /\ c_out_msg c' = Some m /\ c_out_msg_done c' = false /\
  (c_out_temp_ack c' = c_in_seq c \/ (c_in_seq_acked c <? c_in_seq c) = false).
Proof.
  cbn zeta. unfold prepared_con.
  destruct (maybe_ack_facts (start_con c)) as (Es & Ek & Ep & Ei & _ & Eq & Ef & Ed & Ea & Et).
  change (c_in_seq_acked (start_con c)) with (c_in_seq_acked c) in *. change (c_in_seq (start_con c)) with (c_in_seq c) in *.
  change (c_state (start_con c)) with (c_state c) in *. change (c_sock (start_con c)) with (c_sock c) in *.
  change (c_out_skip (start_con c)) with (c_out_skip c) in *. change (c_out_seq (start_con c)) with (c_out_seq c) in *.
  change (c_flags (start_con c)) with (c_flags c) in *. change (c_out_msg_done (start_con c)) with false in *.
  revert Es Ek Ep Ei Eq Ef Ed Ea Et. generalize (maybe_ack (start_con c)) as d. intros d ?????????.
  unfold add_msg_con, ack_bytes. destruct (m_middle x); cbn; rewrite ?Ei, ?Ea, ?Eq; tauto.
Qed.

(** The bytes that go before the data. *)
Definition frame_head (h : ceph_msg_header) (x : ceph_msg) : list Z :=
  [CEPH_MSGR_TAG_MSG] ++ header_bytes (final_hdr h) ++ front_bytes x ++ middle_bytes x.

Lemma prepared_entries_bytes w c m x y :
  c_out_temp_ack (w_con w) = c_in_seq c \/ (c_in_seq_acked c <? c_in_seq c) = false ->
  w_msgs w !! m = Some y -> m_front y = m_front x -> m_middle y = m_middle x ->
  m_hdr y = final_hdr (out_hdr (c_out_seq c) x) -> sendable (w_mem w) x ->
  entries_bytes w (ack_entries c ++ msg_entries m x) =
    Ret (ack_bytes c ++ frame_head (out_hdr (c_out_seq c) x) x).
Proof.
  intros Ht Hy Hf Hm Hh Hs. apply entries_bytes_app; [by apply ack_entries_bytes|].
  rewrite (msg_entries_bytes w m x y Hy Hf Hm (sb_front _ _ Hs) (sb_middle _ _ Hs)). by rewrite Hh.
Qed.

(** The ack and the frame of [m] are the pending output of [w']. *)
Record prepares (w : world) (m : nat) (q : list nat) (x : ceph_msg) (w' : world) : Prop := {
  pr_pending : pending_out w' (ack_bytes (w_con w) ++
    msg_frame (mr_nocrc (w_msgr w)) (w_mem w) (out_hdr (c_out_seq (w_con w)) x) x);
  pr_state : c_state (w_con w') = c_state (w_con w);
  pr_sock : c_sock (w_con w') = c_sock (w_con w);
  pr_skip : c_out_skip (w_con w') = c_out_skip (w_con w);
  pr_ack : ack_bytes (w_con w') = [];
  pr_queue : c_out_queue (w_con w') = q;
  pr_seq : c_out_seq (w_con w') = seq_after (c_out_seq (w_con w)) x;
  pr_keepalive : keepalive_bytes (w_con w') = keepalive_bytes (w_con w);
  pr_msg : c_out_msg (w_con w') = Some m;
  pr_msgs : exists y, w_msgs w' = <[m := y]> (w_msgs w);
  pr_io : w_tx w' = w_tx w /\ w_room w' = w_room w;
  pr_mem : w_mem w' = w_mem w;
  pr_msgr : w_msgr w' = w_msgr w }.

(** prepare_write_message makes the ack and the frame of the first message of
    the queue the pending output. *)
Lemma prepare_write_message_ok w m q x :
  c_out_queue (w_con w) = m :: q -> w_msgs w !! m = Some x -> sendable (w_mem w) x ->
  length (c_out_kvec (w_con w)) = 8%nat ->
  exists w', prepare_write_message PAGE_SHIFT crc32c w = Ret (tt, w') /\ prepares w m q x w'.
Proof.
  intros Hq Hx Hs Hk. destruct (prepare_start w m q x Hq Hx Hs Hk) as [Hrun Hkl].
  destruct (prepared_facts m q x (w_con w)) as (Es & Ek & Ep & Ea & Eq & Esq & Ef & Em & Ed & Et).
  set (y := prepared_msg (c_out_seq (w_con w)) x) in Hrun.
  set (w1 := w <| w_con ::= prepared_con m q x |> <| w_msgs ::= <[m := y]> |>) in Hrun.
  assert (Hc1 : w_con w1 = prepared_con m q x (w_con w)) by apply con_over_msgs.
  assert (Hkeep : keepalive_bytes (w_con w1) = keepalive_bytes (w_con w)).
  { unfold keepalive_bytes. by rewrite Hc1, Ef. }
  assert (Hy : w_msgs w1 !! m = Some y) by apply lookup_insert_eq.
  assert (Hw1 : w_msgs w1 = <[m := y]> (w_msgs w)) by done.
  assert (Htx : w_tx w1 = w_tx w /\ w_room w1 = w_room w) by done. assert (Hmem : w_mem w1 = w_mem w) by done.
  assert (Hmsgr : w_msgr w1 = w_msgr w) by done.
  rewrite <- Hc1 in Hkl, Es, Ek, Ep, Ea, Eq, Esq, Em, Ed, Et. clear Hc1. clearbody w1. rewrite Hrun. clear Hrun.
  assert (Hes : (length (ack_entries (w_con w) ++ msg_entries m x) < 8)%nat).
  { rewrite length_app. unfold ack_entries, msg_entries. destruct (_ <? _), (m_middle x); cbn; lia. }
  assert (Hhd : forall y', m_front y' = m_front x -> m_middle y' = m_middle x ->
    m_hdr y' = final_hdr (out_hdr (c_out_seq (w_con w)) x) ->
    entries_bytes (w1 <| w_msgs ::= <[m := y']> |>) (ack_entries (w_con w) ++ msg_entries m x) =
      Ret (ack_bytes (w_con w) ++ frame_head (out_hdr (c_out_seq (w_con w)) x) x)).
  { intros y' H1 H2 H3. eapply prepared_entries_bytes; try done; [apply lookup_insert_eq|].
    change (w_mem (w1 <| w_msgs ::= <[m := y']> |>)) with (w_mem w1). by rewrite Hmem. }
  assert (Hfin : forall w2 y' s, pending_out w2 s -> keeps w1 w2 -> w_tx w2 = w_tx w1 /\ w_room w2 = w_room w1 ->
    c_out_msg (w_con w2) = Some m -> w_msgs w2 = <[m := y']> (w_msgs w1) ->
    s = ack_bytes (w_con w) ++ msg_frame (mr_nocrc (w_msgr w)) (w_mem w) (out_hdr (c_out_seq (w_con w)) x) x ->
    exists w', con_flag_set CON_FLAG_WRITE_PENDING w2 = Ret (tt, w') /\ prepares w m q x w').
  { intros w2 y' s Hp Hkp Ht2 Hm2 Hms ->. exists (flagged w2).
    split; [by apply flag_set_eq|].
    assert (Hkp2 : keeps w1 (flagged w2)) by (etransitivity; [exact Hkp|apply flagged_keeps]). destruct Hkp2.
    assert (Hm3 : c_out_msg (w_con (flagged w2)) = Some m) by exact Hm2.
    assert (Hms3 : w_msgs (flagged w2) = <[m := y']> (w_msgs w1)) by exact Hms.
    assert (Ht3 : w_tx (flagged w2) = w_tx w1 /\ w_room (flagged w2) = w_room w1) by exact Ht2.
    destruct Ht3, Htx. apply flagged_pending in Hp.
    constructor; try congruence; [exists y'|split; congruence]. by rewrite Hms3, Hw1, insert_insert_eq. }
  destruct (Z.eqb_spec (m_data_length x) 0) as [Hz|Hz].
  - destruct (footer_pending w1 m y _ _ Em Hy Hkl ltac:(lia) (Hhd (completed y) eq_refl eq_refl eq_refl))
      as (w2 & Hr2 & Hp2 & Hk2 & Ht2 & Hm2 & Hms2).
    rewrite (bind_run _ _ _ _ _ Hr2). eapply Hfin; try done.
    unfold msg_frame, frame_head, data_bytes, final_footer. rewrite Hz. cbn [Z.eqb orb].
    rewrite <- !app_assoc. done.
  - destruct (sb_data _ _ Hs) as [?|(Hl & Hp & Hr)]; [done|].
    destruct (data_pending w1 m y _ (ack_bytes (w_con w) ++ frame_head (out_hdr (c_out_seq (w_con w)) x) x) (w_mem w)
      Hmem Em Ed Hy Hkl ltac:(lia)) as (w2 & cu & Hr2 & Hp2 & Hk2 & Ht2 & Hm2 & Hms2); try done.
    { intros cu. by apply Hhd. }
    change (m_data_length y) with (m_data_length x) in Hr2.
    rewrite (bind_run _ _ _ _ _ Hr2). eapply Hfin; try done.
    unfold msg_frame, frame_head, final_footer. rewrite (proj2 (Z.eqb_neq _ _)) by done. cbn [orb].
    change (data_bytes (w_mem w) y) with (data_bytes (w_mem w) x). rewrite Hmsgr, <- !app_assoc.
    by destruct (mr_nocrc (w_msgr w)).
Qed.

(** ** The steps of try_write *)
Lemma msg_put_ok m x w :
  w_msgs w !! m = Some x ->
  exists msgs lg, ceph_msg_put m w = Ret (tt, w <| w_msgs := msgs |> <| w_log := lg |>) /\
    forall k, k <> m -> msgs !! k = w_msgs w !! k.
Proof.
  intros Hx. unfold ceph_msg_put, kref_put. run_getm Hx. run_modm Hx.
  set (msgs := <[m := x <| m_kref ::= Z.pred |>]> (w_msgs w)).
  assert (Hne : forall k, k <> m -> msgs !! k = w_msgs w !! k) by (intros k Hk; by apply lookup_insert_ne).
  case_Zb; [|exists msgs, (w_log w); split; [by destruct w|done]].
  unfold ceph_msg_release, warnon, log. run1.
  assert (Hne' : forall k, k <> m -> delete m msgs !! k = w_msgs w !! k).
  { intros k Hk. rewrite lookup_delete_ne by done. by apply Hne. }
  destruct (on_list m (w_con w)).
  - exists (delete m msgs), (w_log w ++ [EvWarn] ++ [EvFree m]). split; [|done].
    rewrite app_assoc. by destruct w.
  - exists (delete m msgs), (w_log w ++ [EvFree m]). split; [by destruct w|done].
Qed.

(** The messages of the queue stay as they are. *)
Definition same_msgs (w w' : world) : Prop :=
  forall m, m ∈ c_out_queue (w_con w) -> w_msgs w' !! m = w_msgs w !! m.

Lemma frames_ext nocrc mem msgs msgs' q : forall s,
  (forall m, m ∈ q -> msgs' !! m = msgs !! m) -> frames nocrc mem msgs' s q = frames nocrc mem msgs s q.
Proof.
  induction q as [|m q IH]; intros s Hm; cbn; [done|]. rewrite Hm by by left.
  destruct (msgs !! m); [|done]. rewrite IH; [done|]. intros k Hk. apply Hm. by right.
Qed.

Lemma queue_stream_ext w w' : keeps w w' -> same_msgs w w' -> queue_stream w' = queue_stream w.
Proof.
  intros [] Hm. unfold queue_stream. rewrite k_ack0, k_queue0, k_seq0, k_keepalive0, k_msgr0, k_mem0.
  by rewrite (frames_ext _ _ (w_msgs w) (w_msgs w')).
Qed.

Lemma writer_ok_ext w w' s s' :
  writer_ok w s -> keeps w w' -> same_msgs w w' -> pending_out w' s' ->
  match c_out_msg (w_con w') with Some m => c_out_msg (w_con w) = Some m | None => True end -> writer_ok w' s'.
Proof.
  intros [] [] Hm Hp Ho. split; rewrite ?k_state0, ?k_sock0, ?k_skip0, ?k_queue0, ?k_mem0; try done.
  - destruct (c_out_msg (w_con w')); [|done]. by rewrite Ho in wo_out_msg0.
  - apply Forall_forall. intros m Hin. rewrite Hm by done. by eapply Forall_forall in wo_msgs0.
Qed.

(** The vector that is pending, whatever follows it. *)
Lemma pending_kvec w s :
  pending_out w s -> exists kb rest, kv_ok w kb /\ s = kb ++ rest.
Proof.
  intros [kb Hk -> _|m x kb todo Hk _ _ _ _ _ _ ->]; exists kb; [exists []; by rewrite app_nil_r|by eexists].
Qed.

Lemma kv_left_0 w kb : kv_ok w kb -> c_out_kvec_left (w_con w) = 0 -> kb = [].
Proof. intros [E _ _ _ _] Hl. unfold pending_entries, slice in E. rewrite Hl in E. cbn in E. by injection E. Qed.

(** The output fields written by write_partial_kvec. *)
Lemma upd_out_keeps kv cur left bytes im tx room w : keeps w (upd_out kv cur left bytes im tx room w).
Proof. by split. Qed.

Lemma upd_out_pending kv cur left bytes im tx room w kb s kb' :
  pending_out w s -> kv_ok w kb -> kv_ok (upd_out kv cur left bytes im tx room w) kb' ->
  exists rest, s = kb ++ rest /\ pending_out (upd_out kv cur left bytes im tx room w) (kb' ++ rest).
Proof.
  intros [kb0 Hk -> Hm|m x kb0 todo Hk Ho Hd Hx Hne Hc Hr ->] Hk0 Hk';
    pose proof (kv_entries _ _ Hk) as E; rewrite (kv_entries _ _ Hk0) in E; injection E as <-.
  - exists []. rewrite !app_nil_r. split; [done|]. by apply (pending_kv _ _ kb').
  - eexists. split; [done|]. by apply (pending_data _ _ m x kb' todo).
Qed.

(** Nothing is pending in the vector. *)
Definition kv_empty (w : world) : Prop := kv_ok w [] /\ c_out_kvec_left (w_con w) = 0.

Lemma kv_empty_con w w' : w_con w' = w_con w -> kv_empty w -> kv_empty w'.
Proof.
  intros Hc [[E B R S A] L]. assert (Hp : pending_entries (w_con w) = []).
  { unfold pending_entries, slice. by rewrite L. }
  split; [|by rewrite Hc]. split; rewrite ?Hc, ?Hp; done.
Qed.

(** The vector part of write_pending. *)
Lemma write_vector_ok w s :
  writer_ok w s ->
  exists r w' sent rest,
    (left ⟵ getc c_out_kvec_left; if left =? 0 then ret 1 else write_partial_kvec) w = Ret (r, w') /\
    keeps w w' /\ w_msgs w' = w_msgs w /\ c_out_msg (w_con w') = c_out_msg (w_con w) /\
    c_out_msg_done (w_con w') = c_out_msg_done (w_con w) /\
    s = sent ++ rest /\ pending_out w' rest /\ w_tx w' = w_tx w ++ sent /\
    ((r = 1 /\ kv_empty w' /\ used (w_room w) (length sent) (w_room w')) \/
     (r <= 0 /\ rest <> [] /\ stalled (w_room w) (length sent))).
Proof.
  intros Hw. destruct (pending_kvec w s (wo_pending _ _ Hw)) as (kb & rest & Hk & Hs). run1.
  destruct (Z.eqb_spec (c_out_kvec_left (w_con w)) 0) as [Hz|Hz].
  { exists 1, w, [], s. pose proof (kv_left_0 _ _ Hk Hz) as ->. rewrite app_nil_r.
    split; [done|]. split; [by split|]. repeat (split; [done|]). split; [apply Hw|]. split; [done|].
    left. split; [done|]. split; [by split|]. apply used_refl. }
  unfold write_partial_kvec. run1. rewrite (kv_bytes _ _ Hk), Nat2Z.id.
  destruct (write_kvec_ok (S (length kb)) w kb Hk (wo_sock _ _ Hw) ltac:(lia))
    as (r & kv & cur & left & bytes & im & n & room & Hrun & Hk' & Hn & Hres). cbn zeta in Hrun, Hk'.
  destruct (upd_out_pending _ _ _ _ _ _ _ _ _ _ _ (wo_pending _ _ Hw) Hk Hk') as (rest' & Hs' & Hp').
  eexists r, _, (take n kb), (drop n kb ++ rest'). split; [exact Hrun|].
  split; [apply upd_out_keeps|]. repeat (split; [done|]). split; [by rewrite app_assoc, take_drop|].
  split; [exact Hp'|]. split; [done|]. rewrite length_take, Nat.min_l by done.
  destruct Hres as [(-> & Hd & -> & Hu)|(Hr & Hd & Hst)]; [left|right].
  - split; [done|]. split; [|done]. rewrite Hd in Hk'. by split.
  - split; [done|]. split; [|done]. intros E. by apply app_nil in E as [E _].
Qed.

(** The footer that the data bytes still to go lead to. *)
Definition data_footer (nocrc : bool) (mem : gmap nat (list Z)) (x : ceph_msg) (todo : list seg) : ceph_msg_footer :=
  let f := m_footer x in
  MsgFooter (f_front_crc f) (f_middle_crc f)
    (if nocrc then f_data_crc f else crc32c (f_data_crc f) (to_crc mem (m_cursor x) todo))
    (Z.lor (if nocrc then Z.lor (f_flags f) CEPH_MSG_FOOTER_NOCRC else f_flags f) CEPH_MSG_FOOTER_COMPLETE).

Lemma upd_data_keeps m x cu tx room w : keeps w (upd_data m x cu tx room w).
Proof. by split. Qed.

(** The data crc stored in the footer. *)
Definition with_data_crc (crc : Z) (x : ceph_msg) : ceph_msg :=
  x <| m_footer ::= fun f => f <| f_data_crc := crc |> |>.
Definition with_nocrc (x : ceph_msg) : ceph_msg :=
  x <| m_footer ::= fun f => f <| f_flags ::= fun g => Z.lor g CEPH_MSG_FOOTER_NOCRC |> |>.

Lemma msgs_keeps f w : keeps w (w <| w_msgs ::= f |>).
Proof. by split. Qed.

(** The same messages but for [m]. *)
Definition but (m : nat) (w w' : world) : Prop := forall k, k <> m -> w_msgs w' !! k = w_msgs w !! k.

Lemma but_trans m w1 w2 w3 : but m w1 w2 -> but m w2 w3 -> but m w1 w3.
Proof. intros H1 H2 k Hk. by rewrite H2, H1. Qed.
Lemma but_insert m y w : but m w (w <| w_msgs ::= <[m := y]> |>).
Proof. intros k Hk. by apply lookup_insert_ne. Qed.

(** The footer of a message whose data are out. *)
Lemma data_done w m y :
  c_out_msg (w_con w) = Some m -> w_msgs w !! m = Some y -> length (c_out_kvec (w_con w)) = 8%nat ->
  exists w', (con_out_kvec_reset ;; prepare_write_message_footer ;; ret 1) w = Ret (1, w') /\
    pending_out w' (footer_bytes (m_footer (completed y))) /\ keeps w w' /\
    (w_tx w' = w_tx w /\ w_room w' = w_room w) /\ c_out_msg (w_con w') = Some m /\ but m w w' /\
    c_out_msg_done (w_con w') = true.
Proof.
  intros Hm Hy Hk. destruct (kv_reset_ok w Hk) as (c & Hreset & Hkl & Hc).
  rewrite (bind_run con_out_kvec_reset _ _ _ _ Hreset). set (w1 := w <| w_con := c |>).
  assert (Hk1 : keeps w w1) by (split; subst c; done).
  assert (Hm1 : c_out_msg (w_con w1) = Some m) by (subst c; exact Hm).
  destruct (footer_ok w1 m y [] Hm1 Hy Hkl ltac:(cbn; lia)) as [Hrun _].
  destruct (footer_pending w1 m y [] [] Hm1 Hy Hkl ltac:(cbn; lia) eq_refl) as (w' & Hrun' & Hp & Hk2 & Htx & Hm2 & Hms).
  rewrite (bind_run prepare_write_message_footer _ _ _ _ Hrun'). exists w'. rewrite Hrun in Hrun'. injection Hrun' as Hw'.
  split; [done|]. split; [exact Hp|]. split; [by etransitivity|]. split; [exact Htx|]. split; [done|]. split.
  - intros k Hne. rewrite Hms. by apply lookup_insert_ne.
  - by rewrite <- Hw'.
Qed.

(** Storing what was computed in the footer; only the message changes. *)
Record only_msg (m : nat) (y : ceph_msg) (w w' : world) : Prop := {
  om_msg : w_msgs w' !! m = Some y;
  om_but : but m w w';
  om_con : w_con w' = w_con w;
  om_tx : w_tx w' = w_tx w;
  om_room : w_room w' = w_room w;
  om_mem : w_mem w' = w_mem w;
  om_msgr : w_msgr w' = w_msgr w }.

Lemma when_modm (b : bool) m x f w :
  w_msgs w !! m = Some x ->
  exists w', when b (modm m f) w = Ret (tt, w') /\ only_msg m (if b then f x else x) w w'.
Proof.
  intros Hx. destruct b; cbn [when].
  - rewrite (modm_eq m x f w Hx). eexists. split; [done|]. split; try done; [apply lookup_insert_eq|apply but_insert].
  - exists w. split; [done|]. by split.
Qed.

Lemma only_msg_keeps m y w w' : only_msg m y w w' -> keeps w w'.
Proof. intros []. split; congruence. Qed.

Lemma write_data_step w m x todo :
  kv_empty w -> c_out_msg (w_con w) = Some m -> c_out_msg_done (w_con w) = false ->
  w_msgs w !! m = Some x -> m_data x <> [] -> cursor_ok PAGE_SHIFT (m_cursor x) todo ->
  Forall (readable (w_mem w)) todo -> c_sock (w_con w) = true ->
  exists r w' sent rest,
    write_partial_message_data PAGE_SHIFT crc32c w = Ret (r, w') /\
    keeps w w' /\ but m w w' /\ c_out_msg (w_con w') = Some m /\
    segs_bytes (w_mem w) todo ++ footer_bytes (data_footer (mr_nocrc (w_msgr w)) (w_mem w) x todo) = sent ++ rest /\
    pending_out w' rest /\ w_tx w' = w_tx w ++ sent /\
    ((r = 1 /\ c_out_msg_done (w_con w') = true /\ used (w_room w) (length sent) (w_room w')) \/
     (r <= 0 /\ rest <> [] /\ stalled (w_room w) (length sent))).
Proof.
  intros Hk Hm Hd Hx Hne Hc Hr Hs. unfold write_partial_message_data, out_msg. rewrite bind_assoc. run1.
  rewrite Hm. run1. run_getm Hx. rewrite bool_decide_eq_false_2 by (by destruct (m_data x)).
  run1. set (nocrc := mr_nocrc (w_msgr w)).
  destruct (write_data_ok (negb nocrc) m (S (Z.to_nat (cu_total_resid (m_cursor x)))) w x todo
    (if negb nocrc then f_data_crc (m_footer x) else 0) Hx Hc Hr Hs ltac:(lia))
    as (r & crc & cu & todo' & sent & room & Hrun & Hc' & Hr' & Hsb & Hcrc & Hres). cbn zeta in Hrun.
  rewrite (bind_run _ _ _ _ _ Hrun). cbn beta iota.
  set (w1 := upd_data m x cu (w_tx w ++ sent) room w) in *.
  assert (Hx1 : w_msgs w1 !! m = Some (x <| m_cursor := cu |>)) by apply lookup_insert_eq.
  assert (Hk1 : keeps w w1) by apply upd_data_keeps. assert (Hb1 : but m w w1) by apply but_insert.
  assert (Hkv1 : kv_empty w1) by (by apply (kv_empty_con w)).
  destruct (when_modm (negb nocrc) m _ (with_data_crc crc) w1 Hx1) as (w2 & Hset & Ho2).
  unfold with_data_crc in Hset.
  set (y := if negb nocrc then with_data_crc crc (x <| m_cursor := cu |>) else x <| m_cursor := cu |>) in Ho2.
  assert (Hy : m_cursor y = cu /\ m_data y = m_data x /\ f_front_crc (m_footer y) = f_front_crc (m_footer x) /\
    f_middle_crc (m_footer y) = f_middle_crc (m_footer x) /\ f_flags (m_footer y) = f_flags (m_footer x) /\
    f_data_crc (m_footer y) = if nocrc then f_data_crc (m_footer x) else crc).
  { unfold y, with_data_crc. by destruct nocrc. }
  clearbody y. destruct Hy as (Yc & Yd & Y1 & Y2 & Y3 & Y4).
  assert (Hfoot : data_footer nocrc (w_mem w) x todo = data_footer nocrc (w_mem w) y todo').
  { unfold data_footer. rewrite Y1, Y2, Y3, Y4, Yc. destruct nocrc; cbn [negb] in Hcrc; [done|]. by rewrite Hcrc. }
  assert (Hkv2 : kv_empty w2) by (apply (kv_empty_con w1); [apply Ho2|done]).
  assert (Hk2 : keeps w w2) by (etransitivity; [exact Hk1|by eapply only_msg_keeps]).
  assert (Hb2 : but m w w2) by (eapply but_trans; [exact Hb1|apply Ho2]).
  assert (Hm2 : c_out_msg (w_con w2) = Some m) by (rewrite (om_con _ _ _ _ Ho2); exact Hm).
  assert (Hd2 : c_out_msg_done (w_con w2) = false) by (rewrite (om_con _ _ _ _ Ho2); exact Hd).
  destruct Ho2 as [Hy2 _ _ Htx2 Hroom2 Hmem2 Hmsgr2].
  change (w_tx w1) with (w_tx w ++ sent) in Htx2. change (w_room w1) with room in Hroom2.
  change (w_mem w1) with (w_mem w) in Hmem2. change (w_msgr w1) with (w_msgr w) in Hmsgr2.
  clearbody w1. destruct Hres as [(-> & -> & Hu)|(Hr0 & Hne' & Hst)].
  - cbn [Z.leb Z.compare]. rewrite (bind_run _ _ _ _ _ Hset).
    destruct (when_modm (negb (negb nocrc)) m _ with_nocrc w2 Hy2) as (w3 & Hset3 & Ho3).
    unfold with_nocrc in Hset3. rewrite (bind_run _ _ _ _ _ Hset3).
    set (z := if negb (negb nocrc) then with_nocrc y else y) in Ho3.
    assert (Hk3 : keeps w w3) by (etransitivity; [exact Hk2|by eapply only_msg_keeps]).
    assert (Hb3 : but m w w3) by (eapply but_trans; [exact Hb2|apply Ho3]).
    destruct Ho3 as [Hz3 _ Hc3 Htx3 Hroom3 Hmem3 Hmsgr3]. rewrite <- Hc3 in Hm2, Hd2.
    assert (Hkv3 : kv_empty w3) by (by apply (kv_empty_con w2)).
    destruct (data_done w3 m z Hm2 Hz3 ltac:(apply Hkv3)) as (w4 & Hrun4 & Hp4 & Hk4 & [Htx4 Hroom4] & Hm4 & Hb4 & Hd4).
    exists 1, w4, sent, (footer_bytes (m_footer (completed z))). split; [exact Hrun4|].
    split; [by etransitivity|]. split; [by eapply but_trans|]. split; [done|]. split.
    { rewrite Hsb, Hfoot. cbn [segs_bytes fmap list_fmap concat]. rewrite app_nil_r. do 2 f_equal.
      unfold data_footer, z, with_nocrc, completed, to_crc. cbn. rewrite Yc, Tauto.if_same. cbn. rewrite crc_nil.
      destruct nocrc; cbn; by destruct (m_footer y). }
    split; [done|]. split; [congruence|]. left. split; [done|]. split; [done|]. congruence.
  - rewrite (proj2 (Z.leb_le _ _)) by done. rewrite (bind_run _ _ _ _ _ Hset).
    exists r, w2, sent, (segs_bytes (w_mem w) todo' ++ footer_bytes (data_footer nocrc (w_mem w) y todo')).
    split; [done|]. split; [done|]. split; [done|]. split; [done|]. split; [by rewrite Hsb, Hfoot, app_assoc|]. split.
    { apply (pending_data w2 _ m y [] todo'); rewrite ?Yc, ?Hmem2, ?Hmsgr2; try done; [apply Hkv2|by rewrite Yd|].
      unfold data_footer. by rewrite Yc. }
    split; [done|]. right. split; [done|]. split; [|done]. intros E. apply app_nil in E as [_ E]. done.
Qed.

(** What a step of the writer has done with the pending bytes [s]. *)
Record wrote (w : world) (s : list Z) (w' : world) (sent rest : list Z) : Prop := {
  wr_ok : writer_ok w' rest;
  wr_keeps : keeps w w';
  wr_msgs : same_msgs w w';
  wr_split : s = sent ++ rest;
  wr_tx : w_tx w' = w_tx w ++ sent }.

Lemma same_msgs_but w w' m s :
  writer_ok w s -> c_out_msg (w_con w) = Some m -> but m w w' -> same_msgs w w'.
Proof.
  intros Hw Hm Hb k Hk. apply Hb. intros ->. pose proof (wo_out_msg _ _ Hw) as Ho. by rewrite Hm in Ho.
Qed.

Lemma same_msgs_trans w1 w2 w3 : keeps w1 w2 -> same_msgs w1 w2 -> same_msgs w2 w3 -> same_msgs w1 w3.
Proof. intros Hk H1 H2 m Hm. rewrite H2, H1; [done|done|]. by rewrite (k_queue _ _ Hk). Qed.

Lemma wrote_trans w1 s1 w2 sent1 rest1 w3 sent2 rest2 :
  wrote w1 s1 w2 sent1 rest1 -> wrote w2 rest1 w3 sent2 rest2 -> wrote w1 s1 w3 (sent1 ++ sent2) rest2.
Proof.
  intros [? K1 M1 E1 T1] [? K2 M2 E2 T2]. split; [done|by etransitivity|by eapply same_msgs_trans| |].
  - by rewrite E1, E2, app_assoc.
  - by rewrite T2, T1, app_assoc.
Qed.

(** The message is written: its reference goes. *)
Lemma put_out_msg_ok w m x :
  writer_ok w [] -> kv_empty w -> c_out_msg (w_con w) = Some m -> w_msgs w !! m = Some x ->
  exists w', (ceph_msg_put m ;; modc (fun c => c <| c_out_msg := None |>) ;; ret (inl DoNext : write_label + Z)) w
      = Ret (inl DoNext, w') /\
    wrote w [] w' [] [] /\ kv_empty w' /\ c_out_msg (w_con w') = None /\ w_room w' = w_room w.
Proof.
  intros Hw Hk Hm Hx. destruct (msg_put_ok m x w Hx) as (msgs & lg & Hput & Hne).
  rewrite (bind_run _ _ _ _ _ Hput). eexists. split; [reflexivity|].
  set (w' := w <| w_msgs := msgs |> <| w_log := lg |> <| w_con ::= _ |>).
  assert (Hkeep : keeps w w') by done. assert (Hb : but m w w') by done.
  assert (Hsm : same_msgs w w') by (by eapply same_msgs_but).
  assert (Hkv : kv_empty w').
  { destruct Hk as [[E B R S A] L]. assert (Hp : pending_entries (w_con w') = []).
    { change (pending_entries (w_con w')) with (pending_entries (w_con w)). unfold pending_entries, slice. by rewrite L. }
    split; [|done]. split; rewrite ?Hp; done. }
  split; [|done]. split; try done; [|by rewrite app_nil_r].
  eapply writer_ok_ext; try done. apply (pending_kv _ _ []); [apply Hkv|done|done].
Qed.

Lemma write_pending_ok w s :
  writer_ok w s ->
  exists o w' sent rest, write_pending PAGE_SHIFT crc32c w = Ret (o, w') /\ wrote w s w' sent rest /\
    match o with
    | inl DoNext => rest = [] /\ kv_empty w' /\ c_out_msg (w_con w') = None /\ used (w_room w) (length sent) (w_room w')
    | inl MoreKvec =>
        c_out_msg_done (w_con w) = false /\ c_out_msg_done (w_con w') = true /\ used (w_room w) (length sent) (w_room w')
    | inl More => False
    | inr r => r <= 0 /\ rest <> [] /\ stalled (w_room w) (length sent)
    end.
Proof.
  intros Hw. unfold write_pending. run1. rewrite (wo_skip _ _ Hw). cbn [Z.eqb]. run1. cbn [Z.leb Z.compare].
  destruct (write_vector_ok w s Hw) as (r & w1 & sent & rest & Hrun & Hk & Hms & Hm & Hd & Hs & Hp & Htx & Hres).
  rewrite <- bind_assoc, (bind_run _ _ _ _ _ Hrun). cbn beta.
  assert (Hw1 : wrote w s w1 sent rest).
  { split; try done; [|intros k _; by rewrite Hms]. eapply writer_ok_ext; try done; [intros k _; by rewrite Hms|].
    rewrite Hm. by destruct (c_out_msg (w_con w)). }
  destruct Hres as [(-> & Hkv & Hu)|(Hr & Hne & Hst)].
  2:{ rewrite (proj2 (Z.leb_le _ _)) by done. by exists (inr r), w1, sent, rest. }
  cbn [Z.leb Z.compare]. run1.
  pose proof (wr_ok _ _ _ _ _ Hw1) as Hok1. destruct Hp as [kb Hkb Hrest Ho|m x kb todo Hkb Ho Hdn Hx Hne Hc Hr Hrest].
  - pose proof (kv_left_0 _ _ Hkb (proj2 Hkv)) as ->. subst rest.
    destruct (c_out_msg (w_con w1)) as [m|] eqn:Em.
    + destruct Ho as [Hdn [x Hx]]. run1. rewrite Hdn.
      destruct (put_out_msg_ok w1 m x Hok1 Hkv Em Hx) as (w2 & Hrun2 & Hw2 & Hkv2 & Hm2 & Hr2).
      exists (inl DoNext), w2, (sent ++ []), []. split; [exact Hrun2|]. split; [by eapply wrote_trans|].
      rewrite app_nil_r. repeat (split; [done|]). by rewrite Hr2.
    + by exists (inl DoNext), w1, sent, [].
  - pose proof (kv_left_0 _ _ Hkb (proj2 Hkv)) as ->. rewrite Ho. run1. rewrite Hdn. cbn [app] in Hrest.
    destruct (write_data_step w1 m x todo Hkv Ho Hdn Hx Hne Hc Hr (wo_sock _ _ Hok1))
      as (r & w2 & sent2 & rest2 & Hrun2 & Hk2 & Hb2 & Hm2 & Hs2 & Hp2 & Htx2 & Hres2).
    rewrite (bind_run _ _ _ _ _ Hrun2). cbn beta.
    assert (Hsm : same_msgs w1 w2) by (by eapply same_msgs_but).
    assert (Hw2 : wrote w1 rest w2 sent2 rest2).
    { split; try done; [|by rewrite Hrest, <- Hs2]. eapply writer_ok_ext; try done. by rewrite Hm2. }
    pose proof (wrote_trans _ _ _ _ _ _ _ _ Hw1 Hw2) as Hw3.
    destruct Hres2 as [(-> & Hd2 & Hu2)|(Hr2 & Hne2 & Hst2)].
    + cbn [Z.eqb Pos.eqb]. exists (inl MoreKvec), w2, (sent ++ sent2), rest2. split; [done|]. split; [done|].
      split; [congruence|]. split; [done|]. rewrite length_app. by eapply used_trans.
    + rewrite (proj2 (Z.eqb_neq _ _)), (proj2 (Z.leb_le _ _)) by lia.
      exists (inr r), w2, (sent ++ sent2), rest2. split; [done|]. split; [done|]. split; [done|]. split; [done|].
      rewrite length_app. by eapply stalled_trans.
Qed.

(** ** What is written next *)
Definition queue_size (w : world) : nat :=
  length (c_out_queue (w_con w)) + (if c_in_seq_acked (w_con w) <? c_in_seq (w_con w) then 1 else 0) +
  (if Z.testbit (c_flags (w_con w)) CON_FLAG_KEEPALIVE_PENDING then 1 else 0).

Lemma ack_bytes_nil c : ack_bytes c = [] <-> (c_in_seq_acked c <? c_in_seq c) = false.
Proof. unfold ack_bytes. case_Zb; split; done. Qed.
Lemma keepalive_bytes_nil c : keepalive_bytes c = [] <-> Z.testbit (c_flags c) CON_FLAG_KEEPALIVE_PENDING = false.
Proof. unfold keepalive_bytes. by destruct (Z.testbit _ _). Qed.

Lemma next_message_ok w m q :
  writer_ok w [] -> kv_empty w -> c_out_queue (w_con w) = m :: q ->
  exists w' s', prepare_write_message PAGE_SHIFT crc32c w = Ret (tt, w') /\ writer_ok w' s' /\
    s' ++ queue_stream w' = queue_stream w /\ (queue_size w' < queue_size w)%nat /\
    w_tx w' = w_tx w /\ w_room w' = w_room w.
Proof.
  intros Hw Hk Hq. destruct Hw as [Hst Hso Hsk Hnd _ Hms _]. rewrite Hq in Hnd, Hms.
  apply NoDup_cons in Hnd as [Hnin Hnd]. apply Forall_cons in Hms as [(x & Hx & Hs) Hms].
  destruct (prepare_write_message_ok w m q x Hq Hx Hs ltac:(apply Hk)) as (w' & Hrun & Hpr).
  destruct Hpr as [Pp Ps Pk Psk Pa Pq Psq Pka Pm [y Pms] [Ptx Prm] Pmem Pmsgr].
  assert (Hne : forall k, k ∈ q -> w_msgs w' !! k = w_msgs w !! k).
  { intros k Hin. rewrite Pms. apply lookup_insert_ne. by intros ->. }
  exists w', (ack_bytes (w_con w) ++ msg_frame (mr_nocrc (w_msgr w)) (w_mem w) (out_hdr (c_out_seq (w_con w)) x) x).
  split; [done|]. split; [|split; [|split; [|done]]].
  - split; rewrite ?Pq, ?Pm, ?Pmem; try congruence. apply Forall_forall. intros k Hin. rewrite (Hne k Hin).
    by eapply Forall_forall in Hms.
  - unfold queue_stream. rewrite Pa, Pq, Psq, Pka, Pmem, Pmsgr, Hq. cbn [frames app]. rewrite Hx.
    rewrite (frames_ext _ _ (w_msgs w) (w_msgs w') q _ Hne). by rewrite <- !app_assoc.
  - unfold queue_size. rewrite Pq, Hq. apply ack_bytes_nil in Pa. rewrite Pa.
    assert (E : Z.testbit (c_flags (w_con w')) CON_FLAG_KEEPALIVE_PENDING =
      Z.testbit (c_flags (w_con w)) CON_FLAG_KEEPALIVE_PENDING).
    { revert Pka. unfold keepalive_bytes. by destruct (Z.testbit (c_flags (w_con w')) _), (Z.testbit (c_flags (w_con w)) _). }
    rewrite E. cbn [length]. destruct (_ <? _); lia.
Qed.

(** An ack or a keepalive by itself: [es] are its entries, [c] the connection. *)
Lemma next_small_ok w c es kb :
  writer_ok w [] -> c_out_queue (w_con w) = [] -> c_out_msg (w_con w) = None ->
  kv_list c es -> (length es <= 8)%nat -> entries_bytes (w <| w_con := c |>) es = Ret kb ->
  c_state c = c_state (w_con w) -> c_sock c = c_sock (w_con w) -> c_out_skip c = c_out_skip (w_con w) ->
  c_out_queue c = c_out_queue (w_con w) -> c_out_msg c = c_out_msg (w_con w) -> writer_ok (w <| w_con := c |>) kb.
Proof.
  intros Hw Hq Hm Hkl Hes Hkb Es Ek Ep Eq Em. destruct Hw. rewrite Hq in Eq. rewrite Hm in Em.
  split; change (w_con (w <| w_con := c |>)) with c; rewrite ?Es, ?Ek, ?Ep, ?Eq, ?Em; try done; [constructor|].
  apply (pending_kv _ _ kb); [by eapply kv_list_ok|done|]. change (w_con (w <| w_con := c |>)) with c. by rewrite Em.
Qed.

Definition reset_kvec (c : ceph_connection) : ceph_connection :=
  c <| c_out_kvec_left := 0 |> <| c_out_kvec_bytes := 0 |> <| c_out_kvec_cur := 0 |>.
Lemma reset_kvec_list c : length (c_out_kvec c) = 8%nat -> kv_list (reset_kvec c) [].
Proof. by split. Qed.

Lemma write_flag_list c es : kv_list c es -> kv_list (write_flag c) es.
Proof. intros []. by split. Qed.
Lemma out_more_list c es b : kv_list c es -> kv_list (c <| c_out_more := b |>) es.
Proof. intros []. by split. Qed.
Lemma temp_ack_list c es : kv_list c es -> kv_list (c <| c_out_temp_ack := c_in_seq_acked c |>) es.
Proof. intros []. by split. Qed.

Definition ack_alone (c : ceph_connection) : ceph_connection :=
  write_flag ((kv_add 8 KvTempAck
    ((fun c => c <| c_out_temp_ack := c_in_seq_acked c |>)
      (kv_add 1 (KvTag CEPH_MSGR_TAG_ACK) (reset_kvec (c <| c_in_seq_acked := c_in_seq c |>)))))
    <| c_out_more := true |>).

Lemma ack_alone_facts c :
  length (c_out_kvec c) = 8%nat ->
  let c' := ack_alone c in
  kv_list c' [KvEntry (KvTag CEPH_MSGR_TAG_ACK) 0 1; KvEntry KvTempAck 0 8] /\
  c_state c' = c_state c /\ c_sock c' = c_sock c /\ c_out_skip c' = c_out_skip c /\ c_out_queue c' = c_out_queue c /\
  c_out_msg c' = c_out_msg c /\ c_in_seq_acked c' = c_in_seq c /\ c_in_seq c' = c_in_seq c /\
  c_out_seq c' = c_out_seq c /\ c_out_temp_ack c' = c_in_seq c /\
  c_flags c' = Z.setbit (c_flags c) CON_FLAG_WRITE_PENDING.
Proof.
  intros Hk. cbn zeta. split; [|by repeat split]. unfold ack_alone. apply write_flag_list, out_more_list.
  apply (kv_list_add _ [_]); [|cbn; lia|lia]. apply temp_ack_list. apply (kv_list_add _ []); [|cbn; lia|lia].
  by apply reset_kvec_list.
Qed.

Lemma prepare_write_ack_eq w :
  length (c_out_kvec (w_con w)) = 8%nat -> prepare_write_ack w = Ret (tt, w <| w_con ::= ack_alone |>).
Proof.
  intros Hk. unfold prepare_write_ack, con_out_kvec_reset. run1. run1. rewrite wcon_wcon.
  assert (Ha : forall sz t v, (v = w <| w_con ::= fun c => reset_kvec (c <| c_in_seq_acked := c_in_seq c |>) |>) ->
     con_out_kvec_add sz t v = Ret (tt, v <| w_con ::= kv_add sz t |>)).
  { intros sz t v ->. apply con_out_kvec_add_eq; [cbn; lia|exact Hk]. }
  erewrite bind_run; [|apply Ha; reflexivity]. run1.
  erewrite bind_run; [|apply con_out_kvec_add_eq; [cbn; lia|cbn; by rewrite length_insert]]. run1.
  rewrite flag_set_eq by done. by rewrite !wcon_wcon.
Qed.

Lemma prepare_write_ack_ok w :
  writer_ok w [] -> kv_empty w -> c_out_queue (w_con w) = [] -> c_out_msg (w_con w) = None ->
  (c_in_seq_acked (w_con w) <? c_in_seq (w_con w)) = true ->
  exists w' s', prepare_write_ack w = Ret (tt, w') /\ writer_ok w' s' /\
    s' ++ queue_stream w' = queue_stream w /\ (queue_size w' < queue_size w)%nat /\
    w_tx w' = w_tx w /\ w_room w' = w_room w.
Proof.
  intros Hw Hk Hq Hm Ha. assert (Hk8 : length (c_out_kvec (w_con w)) = 8%nat) by apply Hk.
  exists (w <| w_con := ack_alone (w_con w) |>), (ack_bytes (w_con w)). split; [by apply prepare_write_ack_eq|].
  destruct (ack_alone_facts (w_con w) Hk8) as (Hkl & F1 & F2 & F3 & F4 & F5 & F6 & F7 & F8 & F9 & F10).
  revert Hkl F1 F2 F3 F4 F5 F6 F7 F8 F9 F10. generalize (ack_alone (w_con w)) as c. intros c **.
  assert (Hack : (c_in_seq_acked c <? c_in_seq c) = false) by (rewrite F6, F7; apply Z.ltb_irrefl).
  split; [|split; [|split; [|done]]].
  - eapply next_small_ok; try done; [cbn; lia|]. unfold ack_bytes. rewrite Ha, <- F9. reflexivity.
  - unfold queue_stream. change (w_con (w <| w_con := c |>)) with c. rewrite (proj2 (ack_bytes_nil c) Hack), F4, Hq.
    cbn [frames app]. unfold keepalive_bytes. by rewrite F10, Z.setbit_neq.
  - unfold queue_size. change (w_con (w <| w_con := c |>)) with c. rewrite Hack, Ha, F4, Hq, F10, Z.setbit_neq by done.
    cbn. lia.
Qed.

Definition keepalive_alone (c : ceph_connection) : ceph_connection :=
  write_flag (kv_add 1 (KvTag CEPH_MSGR_TAG_KEEPALIVE)
    (reset_kvec (c <| c_flags ::= fun x => Z.clearbit x CON_FLAG_KEEPALIVE_PENDING |>))).

Lemma keepalive_alone_facts c :
  length (c_out_kvec c) = 8%nat ->
  let c' := keepalive_alone c in
  kv_list c' [KvEntry (KvTag CEPH_MSGR_TAG_KEEPALIVE) 0 1] /\
  c_state c' = c_state c /\ c_sock c' = c_sock c /\ c_out_skip c' = c_out_skip c /\ c_out_queue c' = c_out_queue c /\
  c_out_msg c' = c_out_msg c /\ c_in_seq_acked c' = c_in_seq_acked c /\ c_in_seq c' = c_in_seq c /\
  Z.testbit (c_flags c') CON_FLAG_KEEPALIVE_PENDING = false.
Proof.
  intros Hk. cbn zeta. split; [|repeat (split; [done|])].
  - apply write_flag_list, (kv_list_add _ []); [|cbn; lia|lia]. by apply reset_kvec_list.
  - change (c_flags (keepalive_alone c))
      with (Z.setbit (Z.clearbit (c_flags c) CON_FLAG_KEEPALIVE_PENDING) CON_FLAG_WRITE_PENDING).
    rewrite Z.setbit_neq by done. apply Z.clearbit_eq.
Qed.

Lemma write_keepalive_eq w :
  length (c_out_kvec (w_con w)) = 8%nat ->
  prepare_write_keepalive (w <| w_con ::= fun c => c <| c_flags ::= fun x => Z.clearbit x CON_FLAG_KEEPALIVE_PENDING |> |>)
    = Ret (tt, w <| w_con ::= keepalive_alone |>).
Proof.
  intros Hk. unfold prepare_write_keepalive, con_out_kvec_reset. run1. rewrite wcon_wcon.
  erewrite bind_run; [|apply con_out_kvec_add_eq; [cbn; lia|exact Hk]].
  rewrite flag_set_eq by done. by rewrite !wcon_wcon.
Qed.

Lemma next_keepalive_ok w :
  writer_ok w [] -> kv_empty w -> c_out_queue (w_con w) = [] -> c_out_msg (w_con w) = None ->
  (c_in_seq_acked (w_con w) <? c_in_seq (w_con w)) = false ->
  Z.testbit (c_flags (w_con w)) CON_FLAG_KEEPALIVE_PENDING = true ->
  let w' := w <| w_con := keepalive_alone (w_con w) |> in
  writer_ok w' [CEPH_MSGR_TAG_KEEPALIVE] /\ [CEPH_MSGR_TAG_KEEPALIVE] ++ queue_stream w' = queue_stream w /\
  (queue_size w' < queue_size w)%nat.
Proof.
  intros Hw Hk Hq Hm Ha Hf. assert (Hk8 : length (c_out_kvec (w_con w)) = 8%nat) by apply Hk. cbn zeta.
  destruct (keepalive_alone_facts (w_con w) Hk8) as (Hkl & F1 & F2 & F3 & F4 & F5 & F6 & F7 & F8).
  revert Hkl F1 F2 F3 F4 F5 F6 F7 F8. generalize (keepalive_alone (w_con w)) as c. intros c **.
  split; [|split].
  - eapply next_small_ok; try done. cbn; lia.
  - unfold queue_stream, ack_bytes, keepalive_bytes. change (w_con (w <| w_con := c |>)) with c.
    by rewrite F6, F7, F4, F8, Ha, Hq, Hf.
  - unfold queue_size. change (w_con (w <| w_con := c |>)) with c. rewrite F6, F7, Ha, F4, Hq, F8, Hf. cbn. lia.
Qed.

(** The connection with nothing to write. *)
Definition idle_con (c : ceph_connection) : ceph_connection :=
  c <| c_flags ::= fun x => Z.clearbit x CON_FLAG_KEEPALIVE_PENDING |>
    <| c_flags ::= fun x => Z.clearbit x CON_FLAG_WRITE_PENDING |>.

Lemma idle_ok w :
  writer_ok w [] -> kv_empty w -> c_out_queue (w_con w) = [] -> c_out_msg (w_con w) = None ->
  (c_in_seq_acked (w_con w) <? c_in_seq (w_con w)) = false ->
  writer_ok (w <| w_con ::= idle_con |>) [] /\ queue_stream (w <| w_con ::= idle_con |>) = [] .
Proof.
  intros Hw Hk Hq Hm Ha. split.
  - destruct Hw. split; try done.
    apply (pending_kv _ _ []); [|done|by rewrite con_over_con; cbn; rewrite Hm].
    destruct Hk as [Hk _]. eapply kv_ok_ext; [exact Hk|by intros []|done..].
  - unfold queue_stream, ack_bytes, keepalive_bytes. rewrite con_over_con.
    change (c_flags (idle_con (w_con w)))
      with (Z.clearbit (Z.clearbit (c_flags (w_con w)) CON_FLAG_KEEPALIVE_PENDING) CON_FLAG_WRITE_PENDING).
    change (c_in_seq_acked (idle_con (w_con w)) <? c_in_seq (idle_con (w_con w)))
      with (c_in_seq_acked (w_con w) <? c_in_seq (w_con w)).
    change (c_out_queue (idle_con (w_con w))) with (c_out_queue (w_con w)).
    rewrite Ha, Hq. cbn [frames app]. rewrite Z.clearbit_neq by done. by rewrite Z.clearbit_eq.
Qed.

Lemma write_next_ok w :
  writer_ok w [] -> kv_empty w -> c_out_msg (w_con w) = None ->
  exists b w' s', write_next PAGE_SHIFT crc32c w = Ret (b, w') /\ writer_ok w' s' /\
    s' ++ queue_stream w' = queue_stream w /\ w_tx w' = w_tx w /\ w_room w' = w_room w /\
    if b then (queue_size w' < queue_size w)%nat else s' ++ queue_stream w' = [].
Proof.
  intros Hw Hk Hm. unfold write_next. run1. rewrite (wo_state _ _ Hw), Z.eqb_refl. cbn [negb]. run1.
  destruct (c_out_queue (w_con w)) as [|m q] eqn:Hq.
  2:{ rewrite bool_decide_eq_false_2 by done. cbn [negb].
      destruct (next_message_ok w m q Hw Hk Hq) as (w' & s' & Hrun & Hw' & Hst & Hsz & Htx & Hrm).
      rewrite (bind_run _ _ _ _ _ Hrun). by exists true, w', s'. }
  rewrite bool_decide_eq_true_2 by done. cbn [negb]. run1.
  destruct (c_in_seq_acked (w_con w) <? c_in_seq (w_con w)) eqn:Ha.
  { destruct (prepare_write_ack_ok w Hw Hk Hq Hm Ha) as (w' & s' & Hrun & Hw' & Hst & Hsz & Htx & Hrm).
    rewrite (bind_run _ _ _ _ _ Hrun). by exists true, w', s'. }
  rewrite (bind_run _ _ _ _ _ (flag_test_and_clear_eq CON_FLAG_KEEPALIVE_PENDING w eq_refl)).
  destruct (Z.testbit (c_flags (w_con w)) CON_FLAG_KEEPALIVE_PENDING) eqn:Hf.
  - rewrite (bind_run _ _ _ _ _ (write_keepalive_eq w ltac:(apply Hk))).
    destruct (next_keepalive_ok w Hw Hk Hq Hm Ha Hf) as (Hw' & Hst & Hsz).
    by eexists true, _, [CEPH_MSGR_TAG_KEEPALIVE].
  - destruct (idle_ok w Hw Hk Hq Hm Ha) as [Hw' Hst].
    erewrite bind_run by (by apply flag_clear_eq). rewrite wcon_wcon.
    exists false, (w <| w_con ::= idle_con |>), []. split; [reflexivity|]. split; [exact Hw'|]. rewrite Hst. cbn [app].
    split; [|done]. unfold queue_stream, ack_bytes, keepalive_bytes. by rewrite Ha, Hq, Hf.
Qed.

(** ** try_write *)

(** What is still to be written, in order. *)
Definition to_write (w : world) (s : list Z) : list Z := s ++ queue_stream w.

(** One round: the pending bytes, then the next frame. *)
Lemma write_round w s fuel :
  writer_ok w s ->
  exists w' s' sent, writer_ok w' s' /\ w_tx w' = w_tx w ++ sent /\ to_write w s = sent ++ to_write w' s' /\
    ((exists fuel', (fuel <= fuel')%nat /\
        try_write_loop PAGE_SHIFT crc32c (4 + fuel) More w = try_write_loop PAGE_SHIFT crc32c fuel' More w') /\
       (queue_size w' < queue_size w)%nat /\ used (w_room w) (length sent) (w_room w') \/
     exists r, try_write_loop PAGE_SHIFT crc32c (4 + fuel) More w = Ret (r, w') /\
       (r = 0 /\ to_write w' s' = [] \/ r <= 0 /\ s' <> [] /\ stalled (w_room w) (length sent))).
Proof.
  intros Hw. cbn [Nat.add].
  assert (Hmore : forall f, try_write_loop PAGE_SHIFT crc32c (S f) More w = try_write_loop PAGE_SHIFT crc32c f MoreKvec w).
  { intros f. cbn [try_write_loop]. run1. by rewrite (wo_state _ _ Hw). }
  rewrite Hmore. clear Hmore.
  (* from do_next on *)
  assert (Hnext : forall f w1 sent1, (fuel <= f)%nat -> wrote w s w1 sent1 [] -> kv_empty w1 ->
    c_out_msg (w_con w1) = None -> used (w_room w) (length sent1) (w_room w1) ->
    exists w' s' sent, writer_ok w' s' /\ w_tx w' = w_tx w ++ sent /\ to_write w s = sent ++ to_write w' s' /\
    ((exists fuel', (fuel <= fuel')%nat /\
        try_write_loop PAGE_SHIFT crc32c (S f) DoNext w1 = try_write_loop PAGE_SHIFT crc32c fuel' More w') /\
       (queue_size w' < queue_size w)%nat /\ used (w_room w) (length sent) (w_room w') \/
     exists r, try_write_loop PAGE_SHIFT crc32c (S f) DoNext w1 = Ret (r, w') /\
       (r = 0 /\ to_write w' s' = [] \/ r <= 0 /\ s' <> [] /\ stalled (w_room w) (length sent)))).
  { intros f w1 sent1 Hf Hw1 Hk Hm Hu. destruct (write_next_ok w1 (wr_ok _ _ _ _ _ Hw1) Hk Hm)
      as (b & w2 & s2 & Hrun & Hw2 & Hst & Htx & Hrm & Hb).
    assert (Hsz : queue_size w1 = queue_size w).
    { unfold queue_size. destruct (wr_keeps _ _ _ _ _ Hw1). rewrite k_queue0.
      revert k_ack0 k_keepalive0. unfold ack_bytes, keepalive_bytes.
      by destruct (_ <? _), (_ <? _), (Z.testbit _ _), (Z.testbit _ _). }
    exists w2, s2, sent1. split; [done|]. split; [by rewrite Htx, (wr_tx _ _ _ _ _ Hw1)|]. split.
    { unfold to_write. rewrite Hst, (queue_stream_ext w w1) by apply Hw1.
      pose proof (wr_split _ _ _ _ _ Hw1) as Es. by rewrite app_nil_r in Es; subst s. }
    cbn [try_write_loop]. rewrite (bind_run _ _ _ _ _ Hrun). destruct b.
    - left. split; [by exists f|]. split; [by rewrite <- Hsz|]. by rewrite Hrm.
    - right. exists 0. split; [done|]. by left. }
  destruct (write_pending_ok w s Hw) as (o & w1 & sent1 & rest1 & Hrun & Hw1 & Ho).
  cbn [try_write_loop]. rewrite (bind_run _ _ _ _ _ Hrun). cbn beta.
  assert (Hstop : forall w' sent rest r, wrote w s w' sent rest -> r <= 0 -> rest <> [] -> stalled (w_room w) (length sent) ->
    exists w'' s' sent', writer_ok w'' s' /\ w_tx w'' = w_tx w ++ sent' /\ to_write w s = sent' ++ to_write w'' s' /\
      ((exists fuel', (fuel <= fuel')%nat /\ ret r w' = try_write_loop PAGE_SHIFT crc32c fuel' More w'') /\
       (queue_size w'' < queue_size w)%nat /\ used (w_room w) (length sent') (w_room w'') \/
     exists r', ret r w' = Ret (r', w'') /\
       (r' = 0 /\ to_write w'' s' = [] \/ r' <= 0 /\ s' <> [] /\ stalled (w_room w) (length sent')))).
  { intros w' sent rest r Hw' Hr Hne Hst. exists w', rest, sent. split; [apply Hw'|]. split; [apply Hw'|]. split.
    - unfold to_write. rewrite (queue_stream_ext w w') by apply Hw'. by rewrite (wr_split _ _ _ _ _ Hw'), <- app_assoc.
    - right. exists r. split; [done|]. by right. }
  destruct o as [[]|r]; [done| | |].
  - destruct Ho as (Hd & Hd1 & Hu). pose proof (wr_ok _ _ _ _ _ Hw1) as Hok1.
    destruct (write_pending_ok w1 rest1 Hok1) as (o & w2 & sent2 & rest2 & Hrun2 & Hw2 & Ho).
    rewrite (bind_run _ _ _ _ _ Hrun2). cbn beta. pose proof (wrote_trans _ _ _ _ _ _ _ _ Hw1 Hw2) as Hw12.
    destruct o as [[]|r]; [done|by destruct Ho; congruence| |].
    + destruct Ho as (-> & Hk2 & Hm2 & Hu2). eapply Hnext; try done. rewrite length_app. by eapply used_trans.
    + destruct Ho as (Hr & Hne & Hst). eapply Hstop; try done. rewrite length_app. by eapply stalled_trans.
  - destruct Ho as (-> & Hk1 & Hm1 & Hu). apply (Hnext (S fuel) w1 sent1); try done. lia.
  - destruct Ho as (Hr & Hne & Hst). by eapply Hstop.
Qed.

Lemma try_write_ok n : forall w s fuel,
  writer_ok w s -> (queue_size w <= n)%nat -> (4 * n + 4 <= fuel)%nat ->
  exists r w' s' sent, try_write PAGE_SHIFT crc32c fuel w = Ret (r, w') /\ writer_ok w' s' /\
    w_tx w' = w_tx w ++ sent /\ to_write w s = sent ++ to_write w' s' /\
    (r = 0 /\ to_write w' s' = [] \/ r <= 0 /\ s' <> [] /\ stalled (w_room w) (length sent)).
Proof.
  unfold try_write. induction n as [|n IH]; intros w s fuel Hw Hn Hf;
    (destruct (write_round w s (fuel - 4) Hw) as (w1 & s1 & sent1 & Hw1 & Htx & Hst & Hres));
    (replace (4 + (fuel - 4))%nat with fuel in Hres by lia).
  - destruct Hres as [(_ & Hsz & _)|(r & Hrun & Hr)]; [lia|]. by exists r, w1, s1, sent1.
  - destruct Hres as [((f & Hfle & Hrun) & Hsz & Hu)|(r & Hrun & Hr)]; [|by exists r, w1, s1, sent1].
    destruct (IH w1 s1 f Hw1 ltac:(lia) ltac:(lia)) as (r & w2 & s2 & sent2 & Hrun2 & Hw2 & Htx2 & Hst2 & Hr2).
    exists r, w2, s2, (sent1 ++ sent2). rewrite Hrun, Hrun2. split; [done|]. split; [done|].
    split; [by rewrite Htx2, Htx, app_assoc|]. split; [by rewrite Hst, Hst2, app_assoc|].
    destruct Hr2 as [?|(Hr & Hne & Hstall)]; [by left|right]. split; [done|]. split; [done|].
    rewrite length_app. by eapply stalled_trans.
Qed.

End Write.

(** The kernel's crc32c runs over the bytes one after the other. *)
Definition crc_ok (crc32c : Z -> list Z -> Z) : Prop :=
  (forall c, crc32c c [] = c) /\ forall c a b, crc32c (crc32c c a) b = crc32c c (a ++ b).

(** C6: try_write conserves the output.  Let [to_write] be the bytes of the frame
    that is being written and then, in order, an ack that is due, the frames of
    the queued messages (each numbered by the connection, with its crcs, its
    data out of the pages and its footer) and a keepalive.  However the socket
    cuts it, what try_write sends is a prefix of [to_write], and what is then
    left to write is the rest: no byte is lost, repeated or reordered.  It
    returns 0 with nothing left, or what the socket returned when it stopped. *)
Theorem try_write_conserves PAGE_SHIFT crc32c w s fuel :
  page_shift_ok PAGE_SHIFT -> crc_ok crc32c -> writer_ok PAGE_SHIFT crc32c w s ->
  (4 * queue_size w + 4 <= fuel)%nat ->
  exists r w' s' sent,
    try_write PAGE_SHIFT crc32c fuel w = Ret (r, w') /\ writer_ok PAGE_SHIFT crc32c w' s' /\
    w_tx w' = w_tx w ++ sent /\
    to_write PAGE_SHIFT crc32c w s = sent ++ to_write PAGE_SHIFT crc32c w' s' /\
    (r = 0 /\ to_write PAGE_SHIFT crc32c w' s' = [] \/ r <= 0 /\ s' <> []).
Proof.
  intros Hs [Hn Ha] Hw Hf.
  destruct (try_write_ok PAGE_SHIFT crc32c Hs Ha Hn (queue_size w) w s fuel Hw (le_n _) Hf)
    as (r & w' & s' & sent & Hrun & Hw' & Htx & Hst & Hr).
  exists r, w', s', sent. repeat (split; [done|]). destruct Hr as [?|(? & ? & _)]; [by left|by right].
Qed.

(** C25: A socket that takes at least a byte of each call, for as many calls as there
    are bytes, gets them all: try_write returns 0 and [to_write] is on the wire. *)
Theorem try_write_drains PAGE_SHIFT crc32c w s fuel :
  page_shift_ok PAGE_SHIFT -> crc_ok crc32c -> writer_ok PAGE_SHIFT crc32c w s ->
  (4 * queue_size w + 4 <= fuel)%nat ->
  Forall (fun x => 0 < x) (w_room w) -> (length (to_write PAGE_SHIFT crc32c w s) <= length (w_room w))%nat ->
  exists w', try_write PAGE_SHIFT crc32c fuel w = Ret (0, w') /\
    w_tx w' = w_tx w ++ to_write PAGE_SHIFT crc32c w s /\ writer_ok PAGE_SHIFT crc32c w' [] /\
    to_write PAGE_SHIFT crc32c w' [] = [].
Proof.
  intros Hs [Hn Ha] Hw Hf Hroom Hlen.
  destruct (try_write_ok PAGE_SHIFT crc32c Hs Ha Hn (queue_size w) w s fuel Hw (le_n _) Hf)
    as (r & w' & s' & sent & Hrun & Hw' & Htx & Hst & [(-> & Hnil)|(Hr & Hne & Hstall)]).
  - pose proof Hnil as Hnil'. apply app_nil in Hnil' as [-> Hq]. exists w'.
    rewrite Hst, Hnil, app_nil_r. done.
  - apply stalled_long in Hstall; [|done]. rewrite Hst, length_app in Hlen. unfold to_write in Hlen.
    rewrite length_app in Hlen. destruct s'; [done|]. cbn in Hlen. lia.
Qed.

(** ** An example: two messages, the second with data in a page, an ack and a
    keepalive *)
Definition toy_crc (c : Z) (l : list Z) : Z := fold_left (fun a b => (a * 33 + b) mod 2 ^ 32) l c.

Lemma toy_crc_ok : crc_ok toy_crc.
Proof. split; [done|]. intros c a b. unfold toy_crc. by rewrite fold_left_app. Qed.

Definition example_msg (front : list Z) (data : list ceph_msg_data) (len : Z) : ceph_msg :=
  let n := Z.of_nat (length front) in
  Msg (MsgHeader 0 7 42 127 1 n 0 len 0 (EntityName 8 1) 0 0) (MsgFooter 0 0 0 0) (Kvec front n) None len data
    (DataCursor 0 [] 0 false false PosNone) true 1 false true n None.

Definition example_sender (room : list Z) : world :=
  World (zeroed_connection <| c_state := CON_STATE_OPEN |> <| c_sock := true |> <| c_out_queue := [1%nat; 2%nat] |>
           <| c_in_seq := 4 |> <| c_in_seq_acked := 3 |> <| c_flags := 2 |>)
    (Messenger (EntityName 8 1) [] [] false false 0 0 0)
    {[ 1%nat := example_msg [10; 11; 12] [] 0;
       2%nat := example_msg [20] [DataPages (Some [Some 5%nat; Some 6%nat]) 9 2] 9 ]}
    {[ 5%nat := [0; 1; 2; 3; 4; 5; 6; 7]; 6%nat := [8; 9; 10; 11; 12; 13; 14; 15] ]}
    [] room [] [] 1 [].

Lemma example_sender_ok room : writer_ok 3 toy_crc (example_sender room) [].
Proof.
  split; try done.
  - cbn. repeat constructor; set_solver.
  - repeat constructor; cbn; eexists; (split; [reflexivity|]).
    + split; cbn; try done; try (split; cbn; lia). by left.
    + split; cbn; try done; try (split; cbn; lia). right. split; [lia|]. split.
      * unfold item_ok, seg_ok, item_fits, segs_len, USHRT_MAX. cbn. repeat split; try lia; repeat constructor; cbn; try lia; done.
      * repeat constructor; cbn; [exists [0; 1; 2; 3; 4; 5; 6; 7]|exists [8; 9; 10; 11; 12; 13; 14; 15]];
          (split; [reflexivity|cbn; lia]).
  - by apply (pending_kv _ _ _ _ []).
Qed.

Lemma try_write_conserves_witness :
  exists r w' s' sent,
    try_write 3 toy_crc 20 (example_sender [5; 1; 100; 3; -11]) = Ret (r, w') /\ writer_ok 3 toy_crc w' s' /\
    w_tx w' = w_tx (example_sender [5; 1; 100; 3; -11]) ++ sent /\
    to_write 3 toy_crc (example_sender [5; 1; 100; 3; -11]) [] = sent ++ to_write 3 toy_crc w' s' /\
    (r = 0 /\ to_write 3 toy_crc w' s' = [] \/ r <= 0 /\ s' <> []).
Proof.
  apply (try_write_conserves 3 toy_crc (example_sender [5; 1; 100; 3; -11]) [] 20);
    [unfold page_shift_ok; lia|apply toy_crc_ok|apply example_sender_ok|cbn; lia].
Defined.

Lemma try_write_drains_witness :
  exists w', try_write 3 toy_crc 20 (example_sender (repeat 1 200)) = Ret (0, w') /\
    w_tx w' = w_tx (example_sender (repeat 1 200)) ++ to_write 3 toy_crc (example_sender (repeat 1 200)) [] /\
    writer_ok 3 toy_crc w' [] /\ to_write 3 toy_crc w' [] = [].
Proof.
  apply (try_write_drains 3 toy_crc (example_sender (repeat 1 200)) [] 20);
    [unfold page_shift_ok; lia|apply toy_crc_ok|apply example_sender_ok|cbn; lia| |].
  - repeat constructor.
  - vm_compute. lia.
Defined.
