(* ===== verification/MsgrSession.v ===== *)
(** * Sessions: messages are delivered once and in order

    The sequence numbers, the two lists of messages and the acks of
    net/ceph/messenger.c keep a session alive over faults of the socket.  This
    file puts a sender (the connection of Msgr.v, with ceph_con_send,
    prepare_write_message's numbering, process_ack and con_fault) and a receiver
    (the sequence check of read_partial_message and the counting of
    process_message) at the two ends of a link, and shows that what comes out is
    a FIFO queue. *)
From S2P Require Import Prelude.
From S2P Require Import Wire.
From S2P Require Import MsgCursor.
From S2P Require Import Msgr.
From S2P Require Import MsgrIO.
From S2P Require Import MsgrRead.
From S2P Require Import MsgrWrite.
From stdpp Require Import gmap.
#[local] Open Scope Z_scope.
#[local] Open Scope ceph_scope.
#[local] Open Scope msgr_scope.

(** ** What a computation leaves alone *)

(** What the session layer sees of the world. *)
Record view := View {
  v_queue : list nat;
  v_sent : list nat;
  v_seq : Z;
  v_in_msg : option nat;
  v_msgs : gmap nat ceph_msg }.

Definition view_of (w : world) : view :=
  View (c_out_queue (w_con w)) (c_out_sent (w_con w)) (c_out_seq (w_con w)) (c_in_msg (w_con w)) (w_msgs w).

(** The view stays the same. *)
Definition silent {A} (m : M A) : Prop :=
  forall w a w', m w = Ret (a, w') -> view_of w' = view_of w.

Create HintDb silent discriminated.

Lemma bind_Ret_inv {A B} (m : M A) (k : A -> M B) w b w' :
  bind m k w = Ret (b, w') -> exists a w1, m w = Ret (a, w1) /\ k a w1 = Ret (b, w').
Proof. unfold bind. destruct (m w) as [[a w1]| |]; [|done..]. intros E. by exists a, w1. Qed.

Lemma silent_bind {A B} (m : M A) (k : A -> M B) : silent m -> (forall a, silent (k a)) -> silent (bind m k).
Proof.
  intros Hm Hk w b w' (a & w1 & E1 & E2)%bind_Ret_inv. by rewrite (Hk a _ _ _ E2), (Hm _ _ _ E1).
Qed.

Lemma silent_ret {A} (a : A) : silent (ret a).
Proof. by intros w b w' [= -> ->]. Qed.
Lemma silent_gets {A} (f : world -> A) : silent (gets f).
Proof. by intros w b w' [= _ ->]. Qed.
Lemma silent_getc {A} (f : ceph_connection -> A) : silent (getc f).
Proof. by intros w b w' [= _ ->]. Qed.
Lemma silent_fail {A} f : silent (fail f : M A).
Proof. done. Qed.
Lemma silent_lift {A} (o : outcome A) : silent (lift o).
Proof. intros w b w'. unfold lift. destruct o; cbn; [|done..]. by intros [= _ ->]. Qed.
Lemma silent_bugon b : silent (bugon b).
Proof. apply silent_lift. Qed.
Lemma silent_log e : silent (log e).
Proof. by intros w b w' [= _ <-]. Qed.
Lemma silent_warnon b : silent (warnon b).
Proof. destruct b; [apply silent_log|apply silent_ret]. Qed.
Lemma silent_when b m : silent m -> silent (when b m).
Proof. destruct b; [done|intros _; apply silent_ret]. Qed.
Lemma silent_modc f :
  (forall c, c_out_queue (f c) = c_out_queue c /\ c_out_sent (f c) = c_out_sent c /\
     c_out_seq (f c) = c_out_seq c /\ c_in_msg (f c) = c_in_msg c) -> silent (modc f).
Proof.
  intros Hf w b w' [= _ <-]. destruct (Hf (w_con w)) as (E1 & E2 & E3 & E4). unfold view_of.
  cbn. by rewrite E1, E2, E3, E4.
Qed.
Lemma silent_getm m : silent (getm m).
Proof. intros w b w'. unfold getm. destruct (w_msgs w !! m); [|done]. by intros [= _ ->]. Qed.
#[export] Hint Resolve silent_ret silent_gets silent_getc silent_fail silent_lift silent_bugon silent_log
  silent_warnon silent_getm : silent.

(** Proves that a computation is silent, from its parts. *)
Ltac silence :=
  repeat first
    [ solve [eauto with silent]
    | apply silent_bind; [|intros ?]
    | apply silent_when
    | apply silent_modc; intros ?; repeat split
    | progress case_match ].

Lemma silent_flag_clear f : silent (con_flag_clear f).
Proof. unfold con_flag_clear. silence. Qed.
Lemma silent_flag_set f : silent (con_flag_set f).
Proof. unfold con_flag_set. silence. Qed.
Lemma silent_flag_test f : silent (con_flag_test f).
Proof. unfold con_flag_test. silence. Qed.
Lemma silent_flag_test_and_set f : silent (con_flag_test_and_set f).
Proof. unfold con_flag_test_and_set. silence. Qed.
Lemma silent_set_state s : silent (set_state s).
Proof. unfold set_state. silence. Qed.
Lemma silent_ops_get : silent ops_get.
Proof. intros w b w'. unfold ops_get. case_match; by intros [= _ <-]. Qed.
Lemma silent_ops_put : silent ops_put.
Proof. by intros w b w' [= _ <-]. Qed.
#[export] Hint Resolve silent_flag_clear silent_flag_set silent_flag_test silent_flag_test_and_set silent_set_state
  silent_ops_get silent_ops_put : silent.

(** Replaces the run of a silent computation by what it says of the view. *)
Lemma silent_view {A} (m : M A) w a w' : silent m -> m w = Ret (a, w') -> view_of w' = view_of w.
Proof. intros Hm. apply Hm. Qed.

Lemma modm_Ret m f w u w' :
  modm m f w = Ret (u, w') -> exists x, w_msgs w !! m = Some x /\ w' = w <| w_msgs := <[m := f x]> (w_msgs w) |>.
Proof. unfold modm. destruct (w_msgs w !! m) as [x|]; [|done]. intros [= _ <-]. by exists x. Qed.
Lemma getm_Ret m w x w' : getm m w = Ret (x, w') -> w_msgs w !! m = Some x /\ w' = w.
Proof. unfold getm. destruct (w_msgs w !! m); [|done]. by intros [= -> ->]. Qed.
Lemma bugon_Ret b w u w' : bugon b w = Ret (u, w') -> b = false /\ w' = w.
Proof. unfold bugon, lift, bug_on. destruct b; cbn; [done|]. by intros [= _ ->]. Qed.

Lemma getc_Ret {A} (f : ceph_connection -> A) w a w' : getc f w = Ret (a, w') -> a = f (w_con w) /\ w' = w.
Proof. by intros [= <- ->]. Qed.
Lemma gets_Ret {A} (f : world -> A) w a w' : gets f w = Ret (a, w') -> a = f w /\ w' = w.
Proof. by intros [= <- ->]. Qed.
Lemma modc_Ret f w u w' : modc f w = Ret (u, w') -> w' = w <| w_con ::= f |>.
Proof. by intros [= _ <-]. Qed.
Lemma msgs_view w f : view_of (w <| w_msgs ::= f |>) =
  let v := view_of w in View (v_queue v) (v_sent v) (v_seq v) (v_in_msg v) (f (v_msgs v)).
Proof. done. Qed.

(** Takes the run of a sequence apart. *)
Tactic Notation "step_in" hyp(H) "as" ident(E) :=
  let w := fresh "w" in let a := fresh "a" in
  apply bind_Ret_inv in H as (a & w & E & H);
  lazymatch type of E with
  | bugon _ _ = _ => apply bugon_Ret in E as [E ->]
  | getm _ _ = _ => apply getm_Ret in E as [E ->]
  | modm _ _ _ = _ => apply modm_Ret in E as (? & E & ->)
  | getc _ _ = _ => apply getc_Ret in E as [-> ->]
  | gets _ _ = _ => apply gets_Ret in E as [-> ->]
  | modc _ _ = _ => apply modc_Ret in E as ->
  | _ => idtac
  end.

Section Ops.
Context (HZ : Z) (work_queued : world -> bool).

Lemma silent_queue_con : silent (queue_con work_queued).
Proof. unfold queue_con, queue_con_delay. silence. Qed.
Lemma silent_clear_standby : silent clear_standby.
Proof. unfold clear_standby. silence. Qed.
Lemma silent_close_socket : silent con_close_socket.
Proof. unfold con_close_socket, con_sock_state_closed, sock_state_xchg. silence. Qed.
#[local] Hint Resolve silent_queue_con silent_clear_standby silent_close_socket : silent.

Definition sent_msg (name : ceph_entity_name) (x : ceph_msg) : ceph_msg :=
  x <| m_hdr ::= fun h => h <| h_src := name |> |> <| m_needs_out_seq := true |> <| m_con := true |>.

Lemma send_view m w w' :
  ceph_con_send work_queued m w = Ret (tt, w') -> c_state (w_con w) <> CON_STATE_CLOSED ->
  let v := view_of w in
  exists x, v_msgs v !! m = Some x /\ (m ∉ v_sent v) /\ (m ∉ v_queue v) /\
    view_of w' = View (v_queue v ++ [m]) (v_sent v) (v_seq v) (v_in_msg v)
      (<[m := sent_msg (mr_name (w_msgr w)) x]> (v_msgs v)).
Proof.
  intros H Hs. cbn zeta. unfold ceph_con_send in H.
  step_in H as E. step_in H as Ex. step_in H as E0. step_in H as E1. step_in H as E2.
  cbn in E0, E2. rewrite lookup_insert_eq in E0, E2. injection E0 as <-. injection E2 as <-.
  step_in H as E. cbn beta in H. rewrite (proj2 (Z.eqb_neq _ _)) in H by exact Hs.
  step_in H as E0. cbn in E0. rewrite lookup_insert_eq in E0. injection E0 as <-. step_in H as E2.
  step_in H as E3. apply silent_ops_get in E3. step_in H as E4. step_in H as E5. apply negb_false_iff in E5 as ->.
  step_in H as E. step_in H as E6. step_in H as E.
  apply silent_view in H as Htail; [|silence]. clear H.
  revert Htail Ex E3 E4 E6. unfold view_of. cbn. intros -> Ex [= Eq Es Esq Ei Em] E4 Hon.
  rewrite Eq, Es, Esq, Ei, Em in *. rewrite lookup_insert_eq in E4. injection E4 as <-.
  unfold on_list in Hon. apply orb_false_iff in Hon as [H1%bool_decide_eq_false H2%bool_decide_eq_false].
  cbn in H1, H2. rewrite Eq in H1. rewrite Es in H2. exists x. split; [done|]. split; [done|]. split; [done|].
  rewrite !insert_insert_eq. done.
Qed.

(** con_fault puts what was sent back in front of the queue. *)
Lemma fault_view w w' :
  con_fault HZ work_queued w = Ret (tt, w') -> c_state (w_con w') <> CON_STATE_CLOSED -> c_in_msg (w_con w) = None ->
  let v := view_of w in view_of w' = View (v_sent v ++ v_queue v) [] (v_seq v) None (v_msgs v).
Proof.
  intros H Hs Hi. cbn zeta. unfold con_fault in H. step_in H as E. step_in H as E0.
  apply silent_view in E0; [|silence]. step_in H as E1. apply silent_view in E1; [|silence]. step_in H as E2.
  apply silent_view in E2 as E3; [|silence]. rewrite E1, E0 in E3.
  destruct a1; [injection H as <-; by cbn in Hs|]. clear E0 E1.
  assert (Hi3 : c_in_msg (w_con w2) = None) by (change (v_in_msg (view_of w2) = None); by rewrite E3).
  step_in H as E4. unfold drop_in_msg in E4. step_in E4 as E5. rewrite Hi3 in E4. injection E4 as <- <-.
  step_in H as E6. step_in H as E7. step_in H as E8. apply silent_view in E8; [|silence].
  apply silent_view in H; [|silence].
  rewrite H, E8. revert E3. unfold view_of. cbn. intros [= -> -> -> _ ->]. by rewrite Hi3.
Qed.

Lemma put_view m w w' :
  ceph_msg_put m w = Ret (tt, w') ->
  let v := view_of w in exists msgs, (forall k, k <> m -> msgs !! k = v_msgs v !! k) /\
    view_of w' = View (v_queue v) (v_sent v) (v_seq v) (v_in_msg v) msgs.
Proof.
  intros H. cbn zeta. assert (Hx : is_Some (w_msgs w !! m)).
  { unfold ceph_msg_put, kref_put in H. step_in H as E. by rewrite E. }
  destruct Hx as [x Hx]. destruct (msg_put_ok m x w Hx) as (msgs & lg & E & Hk). rewrite E in H. injection H as <-.
  by exists msgs.
Qed.

Lemma remove_view m w w' :
  ceph_msg_remove m w = Ret (tt, w') ->
  let v := view_of w in exists msgs, (forall k, k <> m -> msgs !! k = v_msgs v !! k) /\
    view_of w' = View (filter (fun x => x <> m) (v_queue v)) (filter (fun x => x <> m) (v_sent v)) (v_seq v)
      (v_in_msg v) msgs.
Proof.
  intros H. cbn zeta. unfold ceph_msg_remove in H. step_in H as E. step_in H as E1. step_in H as E2.
  step_in H as E3. injection E3 as <- <-. step_in H as E4. apply put_view in H as (msgs & Hk & ->).
  exists msgs. split; [|done]. intros k Hne. rewrite Hk by done. cbn. by rewrite lookup_insert_ne.
Qed.

Lemma filter_ne_id (m : nat) (l : list nat) : m ∉ l -> filter (fun x => x <> m) l = l.
Proof.
  induction l as [|k l IH]; intros Hm; [done|]. apply not_elem_of_cons in Hm as [Hne Hm].
  rewrite filter_cons_True by done. by rewrite IH.
Qed.

(** process_ack drops the messages at the front of the sent list that are acked. *)
Lemma ack_view fuel : forall ack w w',
  process_ack_loop fuel ack w = Ret (tt, w') -> NoDup (c_out_sent (w_con w) ++ c_out_queue (w_con w)) ->
  let v := view_of w in
  exists n msgs, view_of w' = View (v_queue v) (drop n (v_sent v)) (v_seq v) (v_in_msg v) msgs /\
    Forall (fun m => exists x, v_msgs v !! m = Some x /\ h_seq (m_hdr x) <= ack) (take n (v_sent v)) /\
    (forall k, k ∉ take n (v_sent v) -> msgs !! k = v_msgs v !! k).
Proof.
  induction fuel as [|fuel IH]; intros ack w w' H Hnd; [done|]. cbn zeta. cbn [process_ack_loop] in H.
  step_in H as E. destruct (c_out_sent (w_con w)) as [|m l] eqn:Es.
  { injection H as <-. exists 0%nat, (w_msgs w). split; [done|]. by rewrite take_0. }
  step_in H as Ex. match type of Ex with _ = Some ?x => rename x into y end.
  destruct (Z.ltb_spec ack (h_seq (m_hdr y))) as [Hlt|Hle].
  { injection H as <-. exists 0%nat, (w_msgs w). split; [done|]. by rewrite take_0. }
  step_in H as Er. match type of Er with _ = Ret (?u, _) => destruct u end. apply remove_view in Er as (msgs & Hk & Hv).
  cbn [app] in Hnd. apply NoDup_cons in Hnd as [Hm Hnd]. apply not_elem_of_app in Hm as [Hm1 Hm2].
  unfold view_of in Hv at 2 3 4 5. cbn in Hv. rewrite Es in Hv.
  rewrite filter_cons_False, !filter_ne_id in Hv by (done || (intros Hf; by apply Hf)).
  assert (Hs1 : c_out_sent (w_con w0) = l) by (change (v_sent (view_of w0) = l); by rewrite Hv).
  assert (Hq1 : c_out_queue (w_con w0) = c_out_queue (w_con w)) by (change (v_queue (view_of w0) = c_out_queue (w_con w)); by rewrite Hv).
  destruct (IH ack w0 w' H) as (n & msgs' & Hv' & Hall & Hk').
  { by rewrite Hs1, Hq1. }
  rewrite Hv in Hv', Hall, Hk'. cbn in Hv', Hall, Hk'. exists (S n), msgs'. split; [|split].
  - rewrite Hv'. unfold view_of. cbn. by rewrite Es.
  - unfold view_of. cbn. rewrite Es. cbn. constructor; [by exists y|].
    apply Forall_forall. intros k Hin. eapply Forall_forall in Hall as (x & Hx & Hsq); [|exact Hin].
    exists x. split; [|done]. rewrite <- Hx. symmetry. apply Hk. intros ->. apply Hm1. apply elem_of_take in Hin as (i & Hi & _). by eapply list_elem_of_lookup_2.
  - unfold view_of. cbn. rewrite Es. cbn. intros k [Hne Hn]%not_elem_of_cons. rewrite Hk' by done. by apply Hk.
Qed.
End Ops.

(** ** The link

    The sender is a connection; the receiver is known by the number of the last
    message it has taken.  [s_wire] holds the frames on the way, each its
    sequence number and its message, and [s_acks] the acks on the way back.
    [s_submitted] and [s_delivered] record what was given to ceph_con_send and
    what the receiver took. *)
Record session := Session {
  s_w : world;
  s_wire : list (Z * nat);
  s_acks : list Z;
  s_in_seq : Z;
  s_submitted : list nat;
  s_delivered : list nat }.

Inductive session_event : Type := Submit (m : nat) | Deliver (m : nat).

(** An ack as it arrives, for process_ack. *)
Definition got_ack (a : Z) (w : world) : world := w <| w_con ::= fun c => c <| c_in_temp_ack := le_bytes 8 a |> |>.

Section Session.
Context (HZ : Z) (work_queued : world -> bool).

(** The steps of the two ends.  [step_other] is anything else the sender does,
    the handshake of a new socket for one; [step_fault] loses what is on the way
    in both directions. *)
Inductive step : session -> option session_event -> session -> Prop :=
  | step_submit w wire acks n sub del m w' :
      c_state (w_con w) <> CON_STATE_CLOSED -> Z.of_nat (length sub) + 1 < 2 ^ 63 ->
      ceph_con_send work_queued m w = Ret (tt, w') ->
      step (Session w wire acks n sub del) (Some (Submit m)) (Session w' wire acks n (sub ++ [m]) del)
  | step_write w wire acks n sub del m w' x :
      take_out_msg w = Ret (m, w') -> w_msgs w' !! m = Some x ->
      step (Session w wire acks n sub del) None (Session w' (wire ++ [(h_seq (m_hdr x), m)]) acks n sub del)
  | step_old w wire acks n sub del seq m :
      seq_check n seq = SeqOld ->
      step (Session w ((seq, m) :: wire) acks n sub del) None (Session w wire acks n sub del)
  | step_deliver w wire acks n sub del seq m :
      seq_check n seq = SeqNext ->
      step (Session w ((seq, m) :: wire) acks n sub del) (Some (Deliver m))
        (Session w wire acks (u64 (n + 1)) sub (del ++ [m]))
  | step_ack w wire acks n sub del :
      step (Session w wire acks n sub del) None (Session w wire (acks ++ [n]) n sub del)
  | step_got_ack w wire a acks n sub del w' :
      process_ack (got_ack a w) = Ret (tt, w') ->
      step (Session w wire (a :: acks) n sub del) None (Session w' wire acks n sub del)
  | step_fault w wire acks n sub del w' :
      con_fault HZ work_queued w = Ret (tt, w') -> c_state (w_con w') <> CON_STATE_CLOSED ->
      step (Session w wire acks n sub del) None (Session w' [] [] n sub del)
  | step_other w wire acks n sub del w' :
      view_of w' = view_of w -> step (Session w wire acks n sub del) None (Session w' wire acks n sub del).

(** Runs, with what was submitted and delivered on the way. *)
Inductive run : session -> list session_event -> session -> Prop :=
  | run_nil s : run s [] s
  | run_step s e s1 t s2 : step s e s1 -> run s1 t s2 -> run s (option_list e ++ t) s2.

(** ** The specification: a queue *)
Inductive fifo : list nat -> list session_event -> list nat -> Prop :=
  | fifo_nil q : fifo q [] q
  | fifo_submit q m t q' : fifo (q ++ [m]) t q' -> fifo q (Submit m :: t) q'
  | fifo_deliver q m t q' : fifo q t q' -> fifo (m :: q) (Deliver m :: t) q'.

(** ** The invariant *)

(** Frames number [p + 1] to [q] of the messages submitted. *)
Definition frames_on (sub : list nat) (p q : nat) : list (Z * nat) :=
  imap (fun i m => (Z.of_nat (p + i) + 1, m)) (take (q - p) (drop p sub)).

(** The message number [i + 1], [k] being the last one numbered. *)
Definition numbered (msgs : gmap nat ceph_msg) (k i m : nat) : Prop :=
  exists x, msgs !! m = Some x /\ m_con x = true /\
    if decide (i < k)%nat then m_needs_out_seq x = false /\ h_seq (m_hdr x) = Z.of_nat i + 1
    else m_needs_out_seq x = true.

(** [a] messages are acked, [q] written since the last fault, [p] of these off
    the wire, [k] numbered and [d] delivered. *)
Record session_at (s : session) (a p q k d : nat) : Prop := {
  sa_queue : v_queue (view_of (s_w s)) = drop q (s_submitted s);
  sa_sent : v_sent (view_of (s_w s)) = take (q - a) (drop a (s_submitted s));
  sa_seq : v_seq (view_of (s_w s)) = Z.of_nat k;
  sa_in_msg : v_in_msg (view_of (s_w s)) = None;
  sa_wire : s_wire s = frames_on (s_submitted s) p q;
  sa_in_seq : s_in_seq s = Z.of_nat d;
  sa_delivered : s_delivered s = take d (s_submitted s);
  sa_order : (a <= q)%nat /\ (p <= q)%nat /\ (q <= k)%nat /\ (k <= length (s_submitted s))%nat /\
    (a <= d)%nat /\ (p <= d)%nat /\ (d <= k)%nat;
  sa_bound : Z.of_nat (length (s_submitted s)) < 2 ^ 63;
  sa_acks : Forall (fun x => 0 <= x <= Z.of_nat d) (s_acks s);
  sa_msgs : forall i m, (a <= i)%nat -> s_submitted s !! i = Some m -> numbered (v_msgs (view_of (s_w s))) k i m;
  sa_nodup : NoDup (drop a (s_submitted s)) }.

Definition session_ok (s : session) : Prop := exists a p q k d, session_at s a p q k d.

(** The messages on their way through the session. *)
Definition in_flight (s : session) : list nat := drop (Z.to_nat (s_in_seq s)) (s_submitted s).

Lemma held s a p q k d :
  session_at s a p q k d ->
  v_sent (view_of (s_w s)) ++ v_queue (view_of (s_w s)) = drop a (s_submitted s).
Proof.
  intros [Hq Hs _ _ _ _ _ Ho _ _ _ _]. rewrite Hq, Hs.
  replace (drop q (s_submitted s)) with (drop (q - a) (drop a (s_submitted s))) by (rewrite drop_drop; f_equal; lia).
  apply take_drop.
Qed.

Lemma frames_on_app sub p q l : (q <= length sub)%nat -> frames_on (sub ++ l) p q = frames_on sub p q.
Proof.
  intros Hq. unfold frames_on. f_equal. destruct (decide (p <= q)%nat).
  - rewrite drop_app_le by lia. by rewrite take_app_le by (rewrite length_drop; lia).
  - replace (q - p)%nat with 0%nat by lia. done.
Qed.

Lemma frames_on_cons sub p q m :
  (p < q)%nat -> sub !! p = Some m -> frames_on sub p q = (Z.of_nat p + 1, m) :: frames_on sub (S p) q.
Proof.
  intros Hp Hm. unfold frames_on. rewrite (drop_S sub m p Hm). replace (q - p)%nat with (S (q - S p)) by lia.
  cbn [take imap]. rewrite Nat.add_0_r. f_equal. apply imap_ext. intros i x _. unfold compose. do 2 f_equal. lia.
Qed.

Lemma frames_on_snoc sub p q m :
  (p <= q)%nat -> sub !! q = Some m -> frames_on sub p (S q) = frames_on sub p q ++ [(Z.of_nat q + 1, m)].
Proof.
  intros Hp Hm. unfold frames_on. replace (S q - p)%nat with (S (q - p)) by lia.
  assert (Hl : drop p sub !! (q - p)%nat = Some m) by (rewrite lookup_drop; rewrite <- Hm; f_equal; lia).
  rewrite (take_S_r _ _ m Hl), imap_app. f_equal. cbn. apply lookup_lt_Some in Hl. rewrite length_take.
  do 3 f_equal. lia.
Qed.

Lemma frames_on_nil sub p q : (q <= p)%nat -> frames_on sub p q = [].
Proof. intros Hq. unfold frames_on. by replace (q - p)%nat with 0%nat by lia. Qed.

Lemma seq_check_small n seq :
  0 <= n < 2 ^ 63 -> 0 <= seq < 2 ^ 63 ->
  seq_check n seq = if seq <=? n then SeqOld else if seq =? n + 1 then SeqNext else SeqAhead.
Proof.
  intros Hn Hs. unfold seq_check. rewrite !(s64_small seq), !(s64_small n), s64_small by lia.
  destruct (Z.ltb_spec (seq - n) 1), (Z.leb_spec seq n), (Z.ltb_spec 1 (seq - n)), (Z.eqb_spec seq (n + 1)); (done || lia).
Qed.

(** One frame is written. *)
Lemma write_ok w wire acks n sub del a p q k d m w' x :
  session_at (Session w wire acks n sub del) a p q k d ->
  take_out_msg w = Ret (m, w') -> w_msgs w' !! m = Some x ->
  session_at (Session w' (wire ++ [(h_seq (m_hdr x), m)]) acks n sub del) a p (S q) (k `max` S q) d.
Proof.
  intros Hs Ht Hx. pose proof (held _ _ _ _ _ _ Hs) as Hheld.
  destruct Hs as [Hq Hse Hsq Hi Hw Hin Hdel Ho Hb Ha Hm Hnd].
  unfold view_of in *. cbn [s_w s_wire s_acks s_in_seq s_submitted s_delivered v_queue v_sent v_seq v_in_msg v_msgs] in *.
  destruct (c_out_queue (w_con w)) as [|m0 q0] eqn:Eq.
  { unfold take_out_msg in Ht. step_in Ht as E. by rewrite Eq in Ht. }
  assert (Hm0 : sub !! q = Some m0).
  { rewrite <- (Nat.add_0_r q), <- lookup_drop, <- Hq. done. }
  assert (Hq0 : q0 = drop (S q) sub).
  { rewrite (drop_S sub m0 q Hm0) in Hq. by injection Hq. }
  destruct (Hm q m0 ltac:(lia) Hm0) as (y & Hy & Hcon & Hnum).
  rewrite (take_out_msg_ok w m0 q0 y Eq Hy Hcon) in Ht. injection Ht as <- <-.
  cbn in Hx. rewrite lookup_insert_eq in Hx. injection Hx as <-.
  assert (Hnew : h_seq (m_hdr (taken (c_out_seq (w_con w)) y)) = Z.of_nat q + 1 /\
    seq_after (c_out_seq (w_con w)) y = Z.of_nat (k `max` S q)).
  { unfold taken, out_hdr, seq_after. cbn. destruct (decide (q < k)%nat) as [Hlt|Hge].
    - destruct Hnum as [-> Hseq]. cbn. rewrite Hseq, Hsq. split; [done|lia].
    - rewrite Hnum. cbn. rewrite Hsq. pose proof (lookup_lt_Some _ _ _ Hm0).
      rewrite u64_small by lia. split; lia. }
  destruct Hnew as [Hseq Hafter].
  assert (Hlen : (q < length sub)%nat) by (by eapply lookup_lt_Some).
  split; cbn -[taken seq_after frames_on]; try done; try lia.
  - rewrite Hse. replace (S q - a)%nat with (S (q - a)) by lia. symmetry. apply take_S_r.
    rewrite lookup_drop, <- Hm0. f_equal. lia.
  - by rewrite Hw, Hseq, (frames_on_snoc _ _ _ m0) by (done || lia).
  - intros i mi Hai Hmi. destruct (decide (mi = m0)) as [->|Hne].
    + assert (i = q) as ->.
      { assert (E1 : drop a sub !! (i - a)%nat = Some m0) by (rewrite lookup_drop, <- Hmi; f_equal; lia).
        assert (E2 : drop a sub !! (q - a)%nat = Some m0) by (rewrite lookup_drop, <- Hm0; f_equal; lia).
        pose proof (NoDup_lookup _ _ _ _ Hnd E1 E2). lia. }
      exists (taken (c_out_seq (w_con w)) y). rewrite lookup_insert_eq. split; [done|]. split; [done|].
      rewrite decide_True by lia. by split.
    + destruct (Hm i mi Hai Hmi) as (z & Hz & Hzc & Hzn). exists z. rewrite lookup_insert_ne by done.
      split; [done|]. split; [done|]. destruct (decide (i < k)%nat).
      * by rewrite decide_True by lia.
      * rewrite decide_False; [done|]. intros Hlt. apply Hne. assert (i = q) as -> by lia. congruence.
Qed.

Lemma submit_ok w wire acks n sub del a p q k d m w' :
  session_at (Session w wire acks n sub del) a p q k d ->
  c_state (w_con w) <> CON_STATE_CLOSED -> Z.of_nat (length sub) + 1 < 2 ^ 63 ->
  ceph_con_send work_queued m w = Ret (tt, w') ->
  session_at (Session w' wire acks n (sub ++ [m]) del) a p q k d.
Proof.
  intros Hs Hst Hlen Hsend. pose proof (held _ _ _ _ _ _ Hs) as Hheld.
  destruct (send_view work_queued m w w' Hsend Hst) as (x & Hx & Hm1 & Hm2 & Hv).
  destruct Hs as [Hq Hse Hsq Hi Hw Hin Hdel Ho Hb Ha Hm Hnd]. cbn [s_w s_wire s_acks s_in_seq s_submitted s_delivered] in *.
  assert (Hnew : m ∉ drop a sub) by (rewrite <- Hheld, not_elem_of_app; done).
  split; cbn [s_w s_wire s_acks s_in_seq s_submitted s_delivered]; rewrite ?Hv;
    cbn [v_queue v_sent v_seq v_in_msg v_msgs]; try done.
  - by rewrite Hq, drop_app_le by lia.
  - rewrite Hse, drop_app_le by lia. by rewrite take_app_le by (rewrite length_drop; lia).
  - by rewrite Hw, frames_on_app by lia.
  - by rewrite Hdel, take_app_le by lia.
  - rewrite length_app. cbn. lia.
  - rewrite length_app. cbn. lia.
  - intros i mi Hai Hmi. destruct (decide (i < length sub)%nat) as [Hlt|Hge].
    + rewrite lookup_app_l in Hmi by done. destruct (Hm i mi Hai Hmi) as (z & Hz & Hzc & Hzn).
      exists z. rewrite lookup_insert_ne; [done|]. intros <-. apply Hnew.
      apply (list_elem_of_lookup_2 _ (i - a)). rewrite lookup_drop, <- Hmi. f_equal. lia.
    + assert (i = length sub) as ->.
      { apply lookup_lt_Some in Hmi. rewrite length_app in Hmi. cbn in Hmi. lia. }
      rewrite list_lookup_middle in Hmi by done. injection Hmi as <-.
      exists (sent_msg (mr_name (w_msgr w)) x). rewrite lookup_insert_eq. split; [done|]. split; [done|].
      by rewrite decide_False by lia.
  - rewrite drop_app_le by lia. apply NoDup_app. split; [done|]. split; [|apply NoDup_singleton].
    intros y Hy ->%list_elem_of_singleton. done.
Qed.

(** Another view of the sender, everything else being the same. *)
Lemma session_at_view w w' wire acks n sub del a p q k d :
  view_of w' = view_of w ->
  session_at (Session w wire acks n sub del) a p q k d -> session_at (Session w' wire acks n sub del) a p q k d.
Proof. intros Hv []. split; cbn [s_w s_wire s_acks s_in_seq s_submitted s_delivered] in *; rewrite ?Hv; done. Qed.

Lemma fault_ok w wire acks n sub del a p q k d w' :
  session_at (Session w wire acks n sub del) a p q k d ->
  con_fault HZ work_queued w = Ret (tt, w') -> c_state (w_con w') <> CON_STATE_CLOSED ->
  session_at (Session w' [] [] n sub del) a a a k d.
Proof.
  intros Hs Hf Hst. pose proof (held _ _ _ _ _ _ Hs) as Hheld.
  destruct Hs as [Hq Hse Hsq Hi Hw Hin Hdel Ho Hb Ha Hm Hnd].
  pose proof (fault_view HZ work_queued w w' Hf Hst Hi) as Hv. cbn zeta in Hv.
  cbn [s_w s_wire s_acks s_in_seq s_submitted s_delivered] in *. rewrite Hheld in Hv.
  split; cbn [s_w s_wire s_acks s_in_seq s_submitted s_delivered]; rewrite ?Hv;
    cbn [v_queue v_sent v_seq v_in_msg v_msgs]; try done; try lia.
  - by rewrite Nat.sub_diag.
  - by rewrite frames_on_nil.
Qed.

Lemma process_ack_view x w w' :
  0 <= x < 2 ^ 64 -> process_ack (got_ack x w) = Ret (tt, w') -> NoDup (v_sent (view_of w) ++ v_queue (view_of w)) ->
  let v := view_of w in
  exists n msgs, view_of w' = View (v_queue v) (drop n (v_sent v)) (v_seq v) (v_in_msg v) msgs /\
    Forall (fun m => exists y, v_msgs v !! m = Some y /\ h_seq (m_hdr y) <= x) (take n (v_sent v)) /\
    (forall k, k ∉ take n (v_sent v) -> msgs !! k = v_msgs v !! k).
Proof.
  intros Hx H Hnd. cbn zeta. unfold process_ack in H. step_in H as E. step_in H as E. step_in H as Hl.
  match type of Hl with _ = Ret (?u, _) => destruct u end. apply silent_view in H as Hv; [|unfold prepare_read_tag; silence].
  apply ack_view in Hl as (n & msgs & Hv' & Hall & Hk); [|exact Hnd].
  change (c_in_temp_ack (w_con (got_ack x w))) with (le_bytes 8 x) in Hall. rewrite le_val_le_bytes in Hall by (cbn; lia).
  exists n, msgs. rewrite Hv, Hv'. done.
Qed.

Lemma got_ack_ok w wire x acks n sub del a p q k d w' :
  session_at (Session w wire (x :: acks) n sub del) a p q k d -> process_ack (got_ack x w) = Ret (tt, w') ->
  exists a', session_at (Session w' wire acks n sub del) a' p q k d.
Proof.
  intros Hs Hack. pose proof (held _ _ _ _ _ _ Hs) as Hheld.
  destruct Hs as [Hq Hse Hsq Hi Hw Hin Hdel Ho Hb Ha Hm Hnd].
  cbn [s_w s_wire s_acks s_in_seq s_submitted s_delivered] in *. apply Forall_cons in Ha as [Hx Ha].
  destruct (process_ack_view x w w' ltac:(lia) Hack ltac:(by rewrite Hheld)) as (r & msgs & Hv & Hall & Hk).
  assert (Hlen : length (v_sent (view_of w)) = (q - a)%nat) by (rewrite Hse, length_take, length_drop; lia).
  set (r' := (r `min` (q - a))%nat).
  assert (Htk : take r (v_sent (view_of w)) = take r' (drop a sub)).
  { rewrite Hse, take_take. f_equal. }
  assert (Hdr : drop r (v_sent (view_of w)) = take (q - (a + r')) (drop (a + r') sub)).
  { rewrite Hse, <- drop_drop, skipn_firstn_comm. unfold r'. destruct (Nat.min_spec r (q - a)) as [[? ->]|[? ->]].
    - f_equal. lia.
    - replace (q - a - r)%nat with 0%nat by lia. by replace (q - (a + (q - a)))%nat with 0%nat by lia. }
  rewrite Htk in Hall, Hk. rewrite Hdr in Hv.
  (* what was dropped had been delivered *)
  assert (Hd : (a + r' <= d)%nat).
  { destruct (decide (r' = 0%nat)) as [->|Hne]; [lia|].
    destruct (lookup_lt_is_Some_2 sub (a + r' - 1)) as [m0 Hm0]; [lia|].
    assert (Hin0 : m0 ∈ take r' (drop a sub)).
    { apply elem_of_take. exists (r' - 1)%nat. split; [|lia]. rewrite lookup_drop, <- Hm0. f_equal. lia. }
    eapply Forall_forall in Hall as (y & Hy & Hyx); [|exact Hin0].
    destruct (Hm (a + r' - 1)%nat m0 ltac:(lia) Hm0) as (z & Hz & _ & Hn). rewrite Hy in Hz. injection Hz as <-.
    rewrite decide_True in Hn by lia. destruct Hn as [_ Hn]. lia. }
  exists (a + r')%nat. split; cbn [s_w s_wire s_acks s_in_seq s_submitted s_delivered]; rewrite ?Hv;
    cbn [v_queue v_sent v_seq v_in_msg v_msgs]; try done; try lia.
  - intros i mi Hi' Hmi. destruct (Hm i mi ltac:(lia) Hmi) as (z & Hz & Hzn). exists z. split; [|done].
    rewrite Hk; [done|]. intros (j & Hj & Hjr)%elem_of_take. 
    assert (E2 : drop a sub !! (i - a)%nat = Some mi) by (rewrite lookup_drop, <- Hmi; f_equal; lia).
    pose proof (NoDup_lookup _ _ _ _ Hnd Hj E2). lia.
  - rewrite <- drop_drop. rewrite <- (take_drop r' (drop a sub)) in Hnd. by apply NoDup_app in Hnd as (_ & _ & ?).
Qed.

(** The first frame on the wire is an old one or the one expected. *)
Lemma wire_head w seq m wire acks n sub del a p q k d :
  session_at (Session w ((seq, m) :: wire) acks n sub del) a p q k d ->
  seq_check n seq <> SeqAhead /\
  (seq_check n seq = SeqOld -> session_at (Session w wire acks n sub del) a (S p) q k d) /\
  (seq_check n seq = SeqNext -> sub !! d = Some m /\
     session_at (Session w wire acks (u64 (n + 1)) sub (del ++ [m])) a (S p) q k (S d)).
Proof.
  intros [Hq Hse Hsq Hi Hw Hin Hdel Ho Hb Ha Hm Hnd].
  cbn [s_w s_wire s_acks s_in_seq s_submitted s_delivered] in *.
  assert (Hpq : (p < q)%nat).
  { destruct (decide (p < q)%nat); [done|]. by rewrite frames_on_nil in Hw by lia. }
  destruct (lookup_lt_is_Some_2 sub p) as [m0 Hm0]; [lia|].
  rewrite (frames_on_cons _ _ _ m0 Hpq Hm0) in Hw. injection Hw as -> -> Hw.
  rewrite seq_check_small by lia. rewrite Hin.
  destruct (Z.leb_spec (Z.of_nat p + 1) (Z.of_nat d)) as [Hold|Hnew].
  - split; [done|]. split; [intros _|done]. split; cbn [s_w s_wire s_acks s_in_seq s_submitted s_delivered]; try done; lia.
  - assert (p = d) as -> by lia. rewrite Z.eqb_refl. split; [done|]. split; [done|]. intros _. split; [done|].
    split; cbn [s_w s_wire s_acks s_in_seq s_submitted s_delivered]; try done; try lia.
    + rewrite u64_small by lia. lia.
    + rewrite Hdel. symmetry. by apply take_S_r.
    + eapply Forall_impl; [exact Ha|]. cbn. lia.
Qed.

Lemma in_flight_at s a p q k d : session_at s a p q k d -> in_flight s = drop d (s_submitted s).
Proof. intros [_ _ _ _ _ Hin _ _ _ _ _ _]. unfold in_flight. by rewrite Hin, Nat2Z.id. Qed.

(** Every step keeps the invariant and is a step of the queue. *)
Lemma step_ok s e s' : session_ok s -> step s e s' -> session_ok s' /\ fifo (in_flight s) (option_list e) (in_flight s').
Proof.
  intros (a & p & q & k & d & Hs) Hstep. rewrite (in_flight_at _ _ _ _ _ _ Hs).
  assert (Hd : (d <= length (s_submitted s))%nat) by (destruct (sa_order _ _ _ _ _ _ Hs) as (?&?&?&?&?&?&?); lia).
  destruct Hstep as [w wire acks n sub del m w' Hst Hlen Hsend|w wire acks n sub del m w' x Ht Hx
    |w wire acks n sub del seq m Hc|w wire acks n sub del seq m Hc|w wire acks n sub del
    |w wire x acks n sub del w' Hack|w wire acks n sub del w' Hf Hst|w wire acks n sub del w' Hv]; cbn [option_list].
  - pose proof (submit_ok _ _ _ _ _ _ _ _ _ _ _ _ _ Hs Hst Hlen Hsend) as Hs'.
    rewrite (in_flight_at _ _ _ _ _ _ Hs'). split; [by exists a, p, q, k, d|]. cbn in Hd |- *.
    rewrite drop_app_le by lia. apply fifo_submit, fifo_nil.
  - pose proof (write_ok _ _ _ _ _ _ _ _ _ _ _ _ _ _ Hs Ht Hx) as Hs'.
    rewrite (in_flight_at _ _ _ _ _ _ Hs'). split; [by eexists _, _, _, _, _|apply fifo_nil].
  - destruct (wire_head _ _ _ _ _ _ _ _ _ _ _ _ _ Hs) as (_ & Hold & _). specialize (Hold Hc).
    rewrite (in_flight_at _ _ _ _ _ _ Hold). split; [by eexists _, _, _, _, _|apply fifo_nil].
  - destruct (wire_head _ _ _ _ _ _ _ _ _ _ _ _ _ Hs) as (_ & _ & Hnext). destruct (Hnext Hc) as [Hm Hs'].
    rewrite (in_flight_at _ _ _ _ _ _ Hs'). split; [by eexists _, _, _, _, _|]. cbn [s_submitted].
    rewrite (drop_S sub m d Hm). apply fifo_deliver, fifo_nil.
  - assert (Hs' : session_at (Session w wire (acks ++ [n]) n sub del) a p q k d).
    { destruct Hs. split; cbn [s_w s_wire s_acks s_in_seq s_submitted s_delivered] in *; try done.
      apply Forall_app. split; [done|]. repeat constructor; lia. }
    rewrite (in_flight_at _ _ _ _ _ _ Hs'). split; [by eexists _, _, _, _, _|apply fifo_nil].
  - destruct (got_ack_ok _ _ _ _ _ _ _ _ _ _ _ _ _ Hs Hack) as [a' Hs'].
    rewrite (in_flight_at _ _ _ _ _ _ Hs'). split; [by eexists _, _, _, _, _|apply fifo_nil].
  - pose proof (fault_ok _ _ _ _ _ _ _ _ _ _ _ _ Hs Hf Hst) as Hs'.
    rewrite (in_flight_at _ _ _ _ _ _ Hs'). split; [by eexists _, _, _, _, _|apply fifo_nil].
  - pose proof (session_at_view _ _ _ _ _ _ _ _ _ _ _ _ Hv Hs) as Hs'.
    rewrite (in_flight_at _ _ _ _ _ _ Hs'). split; [by eexists _, _, _, _, _|apply fifo_nil].
Qed.

Lemma fifo_app q t1 q1 t2 q2 : fifo q t1 q1 -> fifo q1 t2 q2 -> fifo q (t1 ++ t2) q2.
Proof. intros H1 H2. induction H1; cbn; [done|apply fifo_submit; auto|apply fifo_deliver; auto]. Qed.

Lemma run_ok s t s' : session_ok s -> run s t s' -> session_ok s' /\ fifo (in_flight s) t (in_flight s').
Proof.
  intros Hs Hr. induction Hr as [s|s e s1 t s2 Hst _ IH]; [by split; [|apply fifo_nil]|].
  destruct (step_ok s e s1 Hs Hst) as [Hs1 Hf1]. destruct (IH Hs1) as [Hs2 Hf2]. split; [done|by eapply fifo_app].
Qed.

(** A connection that has sent nothing yet. *)
Record session_new (s : session) : Prop := {
  sn_view : exists msgs, view_of (s_w s) = View [] [] 0 None msgs;
  sn_rest : s_wire s = [] /\ s_acks s = [] /\ s_in_seq s = 0 /\ s_submitted s = [] /\ s_delivered s = [] }.

Lemma session_new_ok s : session_new s -> session_ok s /\ in_flight s = [].
Proof.
  intros [[msgs Hv] (Hw & Ha & Hi & Hs & Hd)]. split; [|unfold in_flight; by rewrite Hs, drop_nil].
  exists 0%nat, 0%nat, 0%nat, 0%nat, 0%nat.
  split; rewrite ?Hv, ?Hw, ?Ha, ?Hi, ?Hs, ?Hd; cbn; try done; try lia; constructor.
Qed.

(** ** Progress: without more faults everything gets through *)
Lemma run_app s t1 s1 t2 s2 : run s t1 s1 -> run s1 t2 s2 -> run s (t1 ++ t2) s2.
Proof. intros H1 H2. induction H1; [done|]. rewrite <- app_assoc. by eapply run_step; [|apply IHrun]. Qed.

Lemma write_all n : forall s a p q k d,
  session_at s a p q k d -> (length (s_submitted s) - q <= n)%nat ->
  exists s' k', run s [] s' /\ session_at s' a p (length (s_submitted s')) k' d /\ s_submitted s' = s_submitted s.
Proof.
  induction n as [|n IH]; intros s a p q k d Hs Hn.
  { exists s, k. split; [apply run_nil|]. destruct (sa_order _ _ _ _ _ _ Hs) as (?&?&?&?&?).
    by replace (length (s_submitted s)) with q by lia. }
  destruct (decide (q = length (s_submitted s))) as [->|Hne].
  { exists s, k. by split; [apply run_nil|]. }
  destruct s as [w wire acks m0 sub del]. pose proof Hs as [Hq _ _ _ _ _ _ Ho _ _ Hm _]. cbn in Hne, Hn, Ho.
  destruct (lookup_lt_is_Some_2 sub q) as [m Hsub]; [lia|].
  destruct (Hm q m ltac:(lia) Hsub) as (x & Hx & Hcon & _). unfold view_of in Hq. cbn in Hq. rewrite (drop_S sub m q Hsub) in Hq.
  pose proof (take_out_msg_ok w m _ x Hq Hx Hcon) as Ht.
  set (w' := w <| w_con ::= _ |> <| w_msgs ::= _ |>) in Ht.
  assert (Hx' : w_msgs w' !! m = Some (taken (c_out_seq (w_con w)) x)) by apply lookup_insert_eq.
  pose proof (write_ok _ _ _ _ _ _ _ _ _ _ _ _ _ _ Hs Ht Hx') as Hs'.
  destruct (IH _ _ _ _ _ _ Hs') as (s' & k' & Hrun & Hat & Hsub'); [cbn; lia|].
  exists s', k'. split; [|by split]. eapply (run_step _ None); [|exact Hrun]. by eapply step_write.
Qed.

Definition is_deliver (e : session_event) : Prop := match e with Deliver _ => True | Submit _ => False end.

Lemma receive_all : forall wire s a p q k d,
  session_at s a p q k d -> s_wire s = wire ->
  exists s' t p' d', run s t s' /\ Forall is_deliver t /\ session_at s' a p' q k d' /\ s_wire s' = [] /\ (q <= d')%nat /\
    s_submitted s' = s_submitted s.
Proof.
  induction wire as [|[seq m] wire IH]; intros s a p q k d Hs Hw.
  { exists s, [], p, d. split; [apply run_nil|]. split; [done|]. split; [done|]. split; [done|]. split; [|done].
    destruct (decide (p < q)%nat) as [Hlt|]; [|destruct (sa_order _ _ _ _ _ _ Hs) as (?&?&?&?&?&?&?); lia].
    exfalso. destruct (sa_order _ _ _ _ _ _ Hs) as (?&?&?&?&?&?&?).
    destruct (lookup_lt_is_Some_2 (s_submitted s) p) as [m Hm]; [lia|].
    rewrite (sa_wire _ _ _ _ _ _ Hs), (frames_on_cons _ _ _ m Hlt Hm) in Hw. done. }
  destruct s as [w wire0 acks n sub del]. cbn in Hw. subst wire0.
  destruct (wire_head _ _ _ _ _ _ _ _ _ _ _ _ _ Hs) as (Hah & Hold & Hnext).
  destruct (seq_check n seq) eqn:Ec; [|destruct (Hnext eq_refl) as [_ Hs']|done].
  - destruct (IH _ _ _ _ _ _ (Hold eq_refl) eq_refl) as (s' & t & p' & d' & Hrun & Hrest).
    exists s', t, p', d'. split; [|done]. eapply (run_step _ None); [|exact Hrun]. by apply step_old.
  - destruct (IH _ _ _ _ _ _ Hs' eq_refl) as (s' & t & p' & d' & Hrun & Hall & Hrest).
    exists s', (Deliver m :: t), p', d'. split; [|split; [by constructor|done]].
    eapply (run_step _ (Some (Deliver m))); [|exact Hrun]. by apply step_deliver.
Qed.

Lemma fifo_delivers q t q' : fifo q t q' -> q' = [] -> Forall is_deliver t -> t = Deliver <$> q.
Proof.
  induction 1 as [q|q m t q' _ IH|q m t q' _ IH]; intros Hq Hall.
  - by subst.
  - apply Forall_cons in Hall as [[] _].
  - apply Forall_cons in Hall as [_ Hall]. cbn. f_equal. by apply IH.
Qed.

Lemma progress s :
  session_ok s -> exists s', run s (Deliver <$> in_flight s) s' /\ in_flight s' = [] /\ s_submitted s' = s_submitted s.
Proof.
  intros (a & p & q & k & d & Hs). destruct (write_all _ s _ _ _ _ _ Hs (le_n _)) as (s1 & k1 & Hr1 & Hs1 & Hsub1).
  destruct (receive_all _ _ _ _ _ _ _ Hs1 eq_refl) as (s2 & t & p2 & d2 & Hr2 & Hall & Hs2 & _ & Hd & Hsub2).
  assert (Hfl : in_flight s2 = []).
  { rewrite (in_flight_at _ _ _ _ _ _ Hs2). apply drop_ge. rewrite Hsub2. lia. }
  pose proof (run_app _ _ _ _ _ Hr1 Hr2) as Hrun. cbn [app] in Hrun.
  destruct (run_ok s t s2 (ex_intro _ a (ex_intro _ p (ex_intro _ q (ex_intro _ k (ex_intro _ d Hs))))) Hrun) as [_ Hf].
  exists s2. rewrite <- (fifo_delivers _ _ _ Hf Hfl Hall). split; [done|]. split; [done|]. by rewrite Hsub2.
Qed.

End Session.




(** ** An example: two messages, a fault after the first is delivered, and the
    rest of the session *)
Definition world_after {A} (m : M A) (w : world) : world := match m w with Ret (_, w') => w' | _ => w end.

Definition idle_sender : world :=
  (example_sender []) <| w_con ::= fun c => c <| c_out_queue := [] |> |>
    <| w_msgs ::= fmap (fun x => x <| m_con := false |>) |>.

Definition not_queued : world -> bool := fun _ => false.
Definition fresh_session : session := Session idle_sender [] [] 0 [] [].
Definition both_sent : world :=
  world_after (ceph_con_send not_queued 1 ;; ceph_con_send not_queued 2) idle_sender.
Definition both_written : world := world_after (take_out_msg ;; take_out_msg) both_sent.
Definition after_fault : world := world_after (con_fault 100 not_queued) both_written.
Definition example_trace : list session_event := [Submit 1; Submit 2; Deliver 1].
Definition faulted_session : session := Session after_fault [] [] 1 [1%nat; 2%nat] [1%nat].

Lemma fresh_session_new : session_new fresh_session.
Proof. split; [by eexists|done]. Qed.

Lemma example_run : run 100 not_queued fresh_session example_trace faulted_session.
Proof.
  apply (run_step _ _ _ (Some (Submit 1)) (Session (world_after (ceph_con_send not_queued 1) idle_sender) [] [] 0 [1%nat] [])).
  { apply (step_submit _ _ _ _ _ _ []); [done|cbn; lia|vm_compute; reflexivity]. }
  apply (run_step _ _ _ (Some (Submit 2)) (Session both_sent [] [] 0 [1%nat; 2%nat] [])).
  { apply (step_submit _ _ _ _ _ _ [1%nat]); [done|cbn; lia|vm_compute; reflexivity]. }
  apply (run_step _ _ _ None (Session (world_after take_out_msg both_sent) [(1, 1%nat)] [] 0 [1%nat; 2%nat] [])).
  { apply (step_write _ _ _ [] _ _ _ _ _ _ (taken 0 (sent_msg (EntityName 8 1) (example_msg [10; 11; 12] [] 0))));
      vm_compute; reflexivity. }
  apply (run_step _ _ _ None (Session both_written [(1, 1%nat); (2, 2%nat)] [] 0 [1%nat; 2%nat] [])).
  { apply (step_write _ _ _ [(1, 1%nat)] _ _ _ _ _ _
      (taken 1 (sent_msg (EntityName 8 1) (example_msg [20] [DataPages (Some [Some 5%nat; Some 6%nat]) 9 2] 9))));
      vm_compute; reflexivity. }
  apply (run_step _ _ _ (Some (Deliver 1)) (Session both_written [(2, 2%nat)] [] 1 [1%nat; 2%nat] [1%nat])).
  { by apply (step_deliver _ _ _ _ _ 0 _ []). }
  apply (run_step _ _ _ None faulted_session); [|apply run_nil].
  apply step_fault; [vm_compute; reflexivity|]. vm_compute. done.
Qed.



