(* ===== verification/MsgrLimits.v ===== *)
(** * Limits of the messenger

    Runs of the model of net/ceph/messenger.c in which the code does not do what
    its comments say; each is evaluated on a small connection. *)
From S2P Require Import Prelude.
From S2P Require Import Wire.
From S2P Require Import OsdMapDecode.
From S2P Require Import MsgCursor.
From S2P Require Import Msgr.
From S2P Require Import MsgrIO.
From S2P Require Import MsgrRead.
From S2P Require Import MsgrWrite.
From S2P Require Import MsgrSession.
From stdpp Require Import gmap.
#[local] Open Scope Z_scope.
#[local] Open Scope ceph_scope.
#[local] Open Scope msgr_scope.

(** A client whose callbacks do nothing, with an authorizer of 4 bytes whose
    reply buffer holds 8. *)
#[local] Instance quiet_ops : ConOps := {|
  op_dispatch _ w := w;
  op_alloc_msg _ w := (None, true, w);
  op_get_authorizer := Some (fun _ w => (inr (Some (AuthHandshake [1; 2; 3; 4] (repeat 0 8))), 2, w));
  op_peer_reset w := w;
  op_fault w := w;
  op_invalidate_authorizer w := w |}.

Definition my_addr : list Z := repeat 77 136.

(** The second message of [example_sender], stopped in the middle of its data. *)
Definition data_message : ceph_msg := example_msg [20] [DataPages (Some [Some 5%nat; Some 6%nat]) 9 2] 9.
Definition stopped_in_data : world :=
  world_after (try_write 3 toy_crc 20)
    ((example_sender [1 + 53 + 1; 4])
       <| w_con ::= fun c => c <| c_out_queue := [2%nat] |> <| c_in_seq_acked := 4 |> <| c_flags := 0 |>
                               <| c_peer_name := EntityName 4 0 |> |>
       <| w_msgr ::= fun r => r <| mr_my_enc_addr := my_addr |> |>).

(** con_fault leaves [out_msg] alone, so the writer goes on with the data of the
    message right after the banner of the new connection, where the peer expects
    struct ceph_msg_connect. *)
Definition reconnected : world :=
  world_after (try_write 3 toy_crc 20)
    ((world_after (con_fault 100 not_queued) stopped_in_data) <| w_room := [1000; 1000] |> <| w_tx := [] |>).

Lemma fault_writes_data_after_banner :
  c_state (w_con stopped_in_data) = CON_STATE_OPEN /\
  c_state (w_con (world_after (con_fault 100 not_queued) stopped_in_data)) = CON_STATE_PREOPEN /\
  w_tx reconnected = CEPH_BANNER ++ my_addr ++ [6; 7].
Proof. by vm_compute. Qed.

(** ceph_msg_revoke of a message that is being written sets [out_skip] to the
    bytes of the vector that are pending, but leaves the vector pending: the
    zeros that stand for them are followed by the bytes themselves. *)
Definition stopped_in_header : world :=
  world_after (try_write 3 toy_crc 20)
    ((example_sender [10])
       <| w_con ::= fun c => c <| c_out_queue := [1%nat] |> <| c_in_seq_acked := 4 |> <| c_flags := 0 |> |>).
Definition revoked : world :=
  world_after (try_write 3 toy_crc 20)
    ((world_after (ceph_msg_revoke 1) (stopped_in_header <| w_msgs ::= alter (fun x => x <| m_kref := 3 |>) 1%nat |>))
       <| w_room := repeat 1000 20 |> <| w_tx := [] |>).

Lemma revoke_writes_zeros_and_bytes :
  c_out_kvec_bytes (w_con stopped_in_header) = 1 + 53 + 3 + 13 - 10 /\
  take 60 (w_tx revoked) = repeat 0 60 /\ length (w_tx revoked) = 120%nat.
Proof. by vm_compute. Qed.

(** read_partial_connect reads as many bytes as the peer announces into the
    buffer for the reply to the authorizer, whose length it does not look at. *)
Definition negotiating (authorizer_len : Z) : world :=
  (example_sender [])
    <| w_con ::= fun c => c <| c_state := CON_STATE_NEGOTIATING |> <| c_auth_reply_buf := Some (repeat 0 8) |> |>
    <| w_rx := [RxData ([CEPH_MSGR_TAG_READY] ++ repeat 0 20 ++ le_bytes 4 authorizer_len ++ [0] ++ repeat 9 100)] |>.

Lemma authorizer_reply_overruns_buffer :
  c_auth_reply_buf (w_con (world_after read_partial_connect (negotiating 8))) = Some (repeat 9 8) /\
  read_partial_connect (negotiating 9) = Fault OutOfBounds.
Proof. by vm_compute. Qed.

(** "Do not reset out_kvec, as sending our banner raced with receiving peer
    banner": prepare_write_connect adds its entries at index [out_kvec_left] of the
    array, not behind the entries that are pending.  When the socket has taken
    the banner and part of our address, the rest of the address is overwritten, and the vector holds fewer bytes than [out_kvec_bytes]
    says: the next send reads beyond it. *)
Definition peer_addr : list Z := repeat 0 8 ++ [0; 2] ++ repeat 5 126.
Definition racing : world :=
  world_after (try_write 3 toy_crc 20)
    (World (zeroed_connection <| c_state := CON_STATE_PREOPEN |> <| c_sock_state := CON_SOCK_STATE_CLOSED |>
              <| c_peer_name := EntityName 4 0 |> <| c_peer_addr := ceph_decode_addr peer_addr |>)
       (Messenger (EntityName 8 1) my_addr my_addr false false 0 0 0) ∅ ∅
       [RxData (CEPH_BANNER ++ peer_addr ++ my_addr)] [20] [] [] 1 []).
Definition raced : world :=
  world_after (try_read 3 toy_crc (fun _ => true) 20) (racing <| w_room := [1000; 1000] |>).

Lemma connect_overwrites_banner :
  w_tx racing = take 20 (CEPH_BANNER ++ my_addr) /\
  c_state (w_con raced) = CON_STATE_NEGOTIATING /\
  c_out_kvec_bytes (w_con raced) = (145 - 20) + 33 + 4 /\
  try_write 3 toy_crc 20 raced = Fault OutOfBounds.
Proof. by vm_compute. Qed.
