(* ===== verification/OsdReq.v ===== *)
(** * OSD requests

    Models the requests of net/ceph/osd_client.c up to the point where they are
    sent: the data and the operations of a request (osd_req_op_* ), its
    allocation, the mapping of a file extent onto an object
    (ceph_osdc_new_request), the encoding of the message
    (ceph_osdc_build_request, __send_request) and the decoding of redirects;
    with the snapshot contexts of net/ceph/snapshot.c and the message pools of
    net/ceph/msgpool.c. *)
From S2P Require Import Prelude.
From S2P Require Import Wire.
From S2P Require Import OsdMap.
From S2P Require Import PgMapping.
From S2P Require Import FileLayout.
From S2P Require Import PageList.
From S2P Require Import PageVec.
From S2P Require Import MsgCursor.
From S2P Require Import Msgr.

(** ** Snapshot contexts *)
Record ceph_snap_context := SnapContext { sc_nref : Z; sc_seq : Z; sc_snaps : list Z }.

Definition ceph_create_snap_context (ok : bool) (snap_count : Z) : option ceph_snap_context :=
  if negb ok then None else Some (SnapContext 1 0 (repeat 0 (Z.to_nat (u32 snap_count)))).

Definition ceph_get_snap_context (sc : option ceph_snap_context) : option ceph_snap_context :=
  match sc with
  | Some s => Some (SnapContext (sc_nref s + 1) (sc_seq s) (sc_snaps s))
  | None => None
  end.

(** What is left, and whether the context was freed. *)
Definition ceph_put_snap_context (sc : option ceph_snap_context) : option ceph_snap_context * bool :=
  match sc with
  | None => (None, false)
  | Some s =>
      if sc_nref s - 1 =? 0 then (None, true)
      else (Some (SnapContext (sc_nref s - 1) (sc_seq s) (sc_snaps s)), false)
  end.

(** ** Message pools

    The mempool of the kernel: [mp_free] messages are kept; when none is left a
    new one is allocated, and when that fails too the caller waits (None here). *)
Record ceph_msgpool := MsgPool { mp_id : nat; mp_type : Z; mp_front_len : Z; mp_size : nat; mp_free : list ceph_msg }.
#[global] Instance ceph_msgpool_eta : Eta ceph_msgpool := fun p =>
  MsgPool (mp_id p) (mp_type p) (mp_front_len p) (mp_size p) (mp_free p).

Definition msgpool_alloc (msg_ok front_ok : bool) (p : ceph_msgpool) : option ceph_msg :=
  (fun m => m <| m_pool := Some (mp_id p) |>) <$> ceph_msg_new msg_ok front_ok (mp_type p) (mp_front_len p).

(** The message goes back to the allocator. *)
Definition msgpool_free (m : ceph_msg) : ceph_msg := m <| m_pool := None |> <| m_kref ::= Z.pred |>.

(** mempool_create fills the pool; [oks] tells which allocations succeed. *)
Fixpoint fill_pool (n : nat) (oks : list bool) (p : ceph_msgpool) : option ceph_msgpool :=
  match n with
  | O => Some p
  | S n =>
      let ok := hd true oks in
      match msgpool_alloc ok ok p with
      | None => None
      | Some m => fill_pool n (tail oks) (p <| mp_free ::= cons m |>)
      end
  end.

Definition ceph_msgpool_init (id : nat) (type front_len : Z) (size : nat) (oks : list bool) : outcome ceph_msgpool :=
  match fill_pool size oks (MsgPool id type front_len size []) with
  | Some p => Ret p
  | None => Err ENOMEM
  end.

(** mempool_alloc tries the allocator first, then the messages kept. *)
Definition ceph_msgpool_get (msg_ok front_ok : bool) (p : ceph_msgpool) (front_len : Z)
  : option ceph_msg * ceph_msgpool :=
  if mp_front_len p <? front_len then (ceph_msg_new msg_ok front_ok (mp_type p) front_len, p)
  else
    match msgpool_alloc msg_ok front_ok p with
    | Some m => (Some m, p)
    | None =>
        match mp_free p with
        | m :: l => (Some m, p <| mp_free := l |>)
        | [] => (None, p)
        end
    end.

(** mempool_free keeps the message while the pool is not full. *)
Definition ceph_msgpool_put (p : ceph_msgpool) (m : ceph_msg) : ceph_msgpool * option ceph_msg :=
  let m := m <| m_front ::= fun v => Kvec (iov_base v) (mp_front_len p) |>
             <| m_hdr ::= fun h => h <| h_front_len := u32 (mp_front_len p) |> |> <| m_kref := 1 |> in
  if (length (mp_free p) <? mp_size p)%nat then (p <| mp_free ::= cons m |>, None) else (p, Some (msgpool_free m)).

(** ** Data of an operation *)
Inductive ceph_osd_data : Type :=
  | OsdDataNone
  | OsdDataPages (pages : option (list (option nat))) (length alignment : Z) (pages_from_pool own_pages : bool)
  | OsdDataPagelist (pagelist : option (list nat * Z))
  | OsdDataBio (bio : list bio) (bio_length : Z).

Definition ceph_osd_data_length (d : ceph_osd_data) : outcome Z :=
  match d with
  | OsdDataNone => Ret 0
  | OsdDataPages _ len _ _ _ => Ret len
  | OsdDataPagelist pl => '(_, len) ← deref pl; Ret (u64 len)
  | OsdDataBio _ len => Ret len
  end.

(** ** Operations *)
Definition CEPH_OSD_MAX_OP : Z := 3.
Definition CEPH_OSD_OP_READ : Z := 0x1201.
Definition CEPH_OSD_OP_STAT : Z := 0x1202.
Definition CEPH_OSD_OP_NOTIFY_ACK : Z := 0x1207.
Definition CEPH_OSD_OP_WRITE : Z := 0x2201.
Definition CEPH_OSD_OP_TRUNCATE : Z := 0x2203.
Definition CEPH_OSD_OP_ZERO : Z := 0x2204.
Definition CEPH_OSD_OP_DELETE : Z := 0x2205.
Definition CEPH_OSD_OP_STARTSYNC : Z := 0x2207.
Definition CEPH_OSD_OP_WATCH : Z := 0x220f.
Definition CEPH_OSD_OP_SETALLOCHINT : Z := 0x2223.
Definition CEPH_OSD_OP_CALL : Z := 0x1401.
Definition CEPH_OSD_OP_FLAG_FAILOK : Z := 2.

(** The codes of __CEPH_FORALL_OSD_OPS, as mode, type and numbers. *)
Definition osd_opcodes : list (Z * Z * list Z) :=
  [(0x1000, 0x200, [1; 2; 3; 4; 5; 6; 7; 8; 9; 10; 11; 12; 17; 18; 19; 20; 25; 27; 29; 30]);
   (0x2000, 0x200, [1; 2; 3; 4; 5; 6; 7; 8; 9; 11; 13; 14; 15; 21; 22; 23; 24; 26; 28; 35]);
   (0x3000, 0x200, [10; 34]); (0x8000, 0x200, [31; 32; 33]); (0x2000, 0x600, [1]); (0x1000, 0x600, [2; 3]);
   (0x1000, 0x300, [1; 2; 3]); (0x2000, 0x300, [1; 2; 3; 4]); (0x4000, 0, [1; 2; 3; 4; 5; 6; 7; 8; 9]);
   (0x2000, 0x100, [1; 2; 3; 4; 5; 6]); (0x1000, 0x400, [1]); (0x1000, 0x500, [1; 2; 3; 4])].

Definition osd_req_opcode_valid (opcode : Z) : bool :=
  existsb (fun '(mode, type, nrs) => existsb (fun nr => opcode =? Z.lor (Z.lor mode type) nr) nrs) osd_opcodes.

(** The union of struct ceph_osd_req_op: the member that was written last;
    [BodyZero] after the memset. *)
Inductive op_body : Type :=
  | BodyZero
  | BodyRaw (raw_data_in : ceph_osd_data)
  | BodyExtent (offset length truncate_size truncate_seq : Z) (osd_data : ceph_osd_data)
  | BodyCls (class_name method_name : list Z) (class_len method_len : Z)
      (request_info request_data response_data : ceph_osd_data)
  | BodyWatch (cookie ver flag : Z)
  | BodyHint (expected_object_size expected_write_size : Z).

Record ceph_osd_req_op := ReqOp { op_op : Z; op_flags : Z; op_payload_len : Z; op_union : op_body }.
#[global] Instance ceph_osd_req_op_eta : Eta ceph_osd_req_op := fun o =>
  ReqOp (op_op o) (op_flags o) (op_payload_len o) (op_union o).

(** Reading a member that is not the one written reads other data: here a
    fault.  Zeroed memory is a member of any kind. *)
Definition as_raw (b : op_body) : outcome ceph_osd_data :=
  match b with BodyZero => Ret OsdDataNone | BodyRaw d => Ret d | _ => Fault OutOfBounds end.
Definition as_extent (b : op_body) : outcome (Z * Z * Z * Z * ceph_osd_data) :=
  match b with
  | BodyZero => Ret (0, 0, 0, 0, OsdDataNone)
  | BodyExtent o l ts tq d => Ret (o, l, ts, tq, d)
  | _ => Fault OutOfBounds
  end.
Definition as_cls (b : op_body) : outcome (list Z * list Z * Z * Z * ceph_osd_data * ceph_osd_data * ceph_osd_data) :=
  match b with
  | BodyZero => Ret ([], [], 0, 0, OsdDataNone, OsdDataNone, OsdDataNone)
  | BodyCls c m cl ml i d r => Ret (c, m, cl, ml, i, d, r)
  | _ => Fault OutOfBounds
  end.
Definition as_watch (b : op_body) : outcome (Z * Z * Z) :=
  match b with BodyZero => Ret (0, 0, 0) | BodyWatch c v f => Ret (c, v, f) | _ => Fault OutOfBounds end.
Definition as_hint (b : op_body) : outcome (Z * Z) :=
  match b with BodyZero => Ret (0, 0) | BodyHint o w => Ret (o, w) | _ => Fault OutOfBounds end.

(** ** Requests

    The six pointers into the front of the message are offsets.  The parts of
    struct ceph_osd_request that the client uses once the request is registered
    are in OsdClient.v. *)
Record ceph_osd_request := OsdRequest {
  r_num_ops : Z;
  r_ops : list ceph_osd_req_op;
  r_flags : Z;
  r_request : ceph_msg;
  r_reply : ceph_msg;
  r_mempool : bool;
  r_base_pool : Z;
  r_base_oid : ceph_object_id;
  r_target_pool : Z;
  r_target_oid : ceph_object_id;
  r_snapid : Z;
  r_snapc : option ceph_snap_context;
  r_reassert_version : Z * Z;
  r_request_osdmap_epoch : Z;
  r_request_flags : Z;
  r_request_pool : Z;
  r_request_pgid : Z;
  r_request_attempts : Z;
  r_request_reassert_version : Z }.
#[global] Instance ceph_osd_request_eta : Eta ceph_osd_request := fun r =>
  OsdRequest (r_num_ops r) (r_ops r) (r_flags r) (r_request r) (r_reply r) (r_mempool r) (r_base_pool r)
    (r_base_oid r) (r_target_pool r) (r_target_oid r) (r_snapid r) (r_snapc r) (r_reassert_version r)
    (r_request_osdmap_epoch r) (r_request_flags r) (r_request_pool r) (r_request_pgid r) (r_request_attempts r)
    (r_request_reassert_version r).

Definition zero_op : ceph_osd_req_op := ReqOp 0 0 0 BodyZero.

(** The operation [which], after BUG_ON(which >= r_num_ops). *)
Definition req_op (req : ceph_osd_request) (which : Z) : outcome ceph_osd_req_op :=
  _ ← bug_on (r_num_ops req <=? which); rd (r_ops req) which.
Definition set_req_op (req : ceph_osd_request) (which : Z) (op : ceph_osd_req_op) : outcome ceph_osd_request :=
  ops ← wr (r_ops req) which op; Ret (req <| r_ops := ops |>).

Definition _osd_req_op_init (req : ceph_osd_request) (which opcode : Z) : outcome ceph_osd_req_op :=
  _ ← req_op req which;
  _ ← bug_on (negb (osd_req_opcode_valid opcode));
  Ret (ReqOp opcode 0 0 BodyZero).

Definition osd_req_op_init (req : ceph_osd_request) (which opcode : Z) : outcome ceph_osd_request :=
  op ← _osd_req_op_init req which opcode; set_req_op req which op.

Definition is_extent_opcode (opcode : Z) : bool :=
  (opcode =? CEPH_OSD_OP_READ) || (opcode =? CEPH_OSD_OP_WRITE) || (opcode =? CEPH_OSD_OP_DELETE) ||
  (opcode =? CEPH_OSD_OP_ZERO) || (opcode =? CEPH_OSD_OP_TRUNCATE).

Definition osd_req_op_extent_init (req : ceph_osd_request) (which opcode offset length truncate_size truncate_seq : Z)
  : outcome ceph_osd_request :=
  op ← _osd_req_op_init req which opcode;
  _ ← bug_on (negb (is_extent_opcode opcode));
  set_req_op req which
    (op <| op_union := BodyExtent offset length truncate_size truncate_seq OsdDataNone |>
        <| op_payload_len := u32 (if opcode =? CEPH_OSD_OP_WRITE then length else 0) |>).

Definition osd_req_op_extent_update (req : ceph_osd_request) (which length : Z) : outcome ceph_osd_request :=
  op ← req_op req which;
  '(off, previous, ts, tq, d) ← as_extent (op_union op);
  if length =? previous then Ret req
  else
    _ ← bug_on (previous <? length);
    set_req_op req which
      (op <| op_union := BodyExtent off length ts tq d |>
          <| op_payload_len ::= fun n => u32 (n - (previous - length)) |>).

Definition U8_MAX : Z := 255.

(** [class] and [method] are the strings; [pages] and the two results of
    ceph_pagelist_append, which are not looked at, are those of a list just
    initialised. *)
Definition osd_req_op_cls_init (list_ok : bool) (pages : list nat) (appended : Z) (req : ceph_osd_request)
    (which opcode : Z) (class method : list Z) : outcome ceph_osd_request :=
  op ← _osd_req_op_init req which opcode;
  _ ← bug_on (negb (opcode =? CEPH_OSD_OP_CALL));
  _ ← bug_on (negb list_ok);
  let cl := Z.of_nat (length class) in
  _ ← bug_on (U8_MAX <? cl);
  let ml := Z.of_nat (length method) in
  _ ← bug_on (U8_MAX <? ml);
  set_req_op req which
    (op <| op_union := BodyCls class method cl ml (OsdDataPagelist (Some (pages, appended))) OsdDataNone OsdDataNone |>
        <| op_payload_len := u32 (cl + ml) |>).

Definition osd_req_op_watch_init (req : ceph_osd_request) (which opcode cookie version flag : Z)
  : outcome ceph_osd_request :=
  op ← _osd_req_op_init req which opcode;
  _ ← bug_on (negb ((opcode =? CEPH_OSD_OP_NOTIFY_ACK) || (opcode =? CEPH_OSD_OP_WATCH)));
  set_req_op req which
    (op <| op_union := BodyWatch cookie version
             (if (opcode =? CEPH_OSD_OP_WATCH) && negb (flag =? 0) then 1 else 0) |>).

Definition osd_req_op_alloc_hint_init (req : ceph_osd_request) (which osz wsz : Z) : outcome ceph_osd_request :=
  op ← _osd_req_op_init req which CEPH_OSD_OP_SETALLOCHINT;
  set_req_op req which
    (op <| op_union := BodyHint osz wsz |> <| op_flags ::= fun f => Z.lor f CEPH_OSD_OP_FLAG_FAILOK |>).

(** The data of an operation. *)
Definition osd_req_op_raw_data_in_pages (req : ceph_osd_request) (which : Z) (pages : option (list (option nat)))
    (length alignment : Z) (from_pool own : bool) : outcome ceph_osd_request :=
  op ← req_op req which;
  _ ← as_raw (op_union op);
  set_req_op req which (op <| op_union := BodyRaw (OsdDataPages pages length alignment from_pool own) |>).

Definition set_extent_data (req : ceph_osd_request) (which : Z) (d : ceph_osd_data) : outcome ceph_osd_request :=
  op ← req_op req which;
  '(o, l, ts, tq, _) ← as_extent (op_union op);
  set_req_op req which (op <| op_union := BodyExtent o l ts tq d |>).

Definition osd_req_op_extent_osd_data_pages (req : ceph_osd_request) (which : Z) (pages : option (list (option nat)))
    (length alignment : Z) (from_pool own : bool) : outcome ceph_osd_request :=
  set_extent_data req which (OsdDataPages pages length alignment from_pool own).
Definition osd_req_op_extent_osd_data_pagelist (req : ceph_osd_request) (which : Z) (pl : option (list nat * Z))
  : outcome ceph_osd_request := set_extent_data req which (OsdDataPagelist pl).
Definition osd_req_op_extent_osd_data_bio (req : ceph_osd_request) (which : Z) (b : list bio) (len : Z)
  : outcome ceph_osd_request := set_extent_data req which (OsdDataBio b len).

Definition osd_req_op_cls_request_data_pagelist (req : ceph_osd_request) (which : Z) (pl : option (list nat * Z))
  : outcome ceph_osd_request :=
  op ← req_op req which;
  '(c, m, cl, ml, i, _, r) ← as_cls (op_union op);
  set_req_op req which (op <| op_union := BodyCls c m cl ml i (OsdDataPagelist pl) r |>).
Definition osd_req_op_cls_request_data_pages (req : ceph_osd_request) (which : Z) (pages : option (list (option nat)))
    (length alignment : Z) (from_pool own : bool) : outcome ceph_osd_request :=
  op ← req_op req which;
  '(c, m, cl, ml, i, _, r) ← as_cls (op_union op);
  set_req_op req which (op <| op_union := BodyCls c m cl ml i (OsdDataPages pages length alignment from_pool own) r |>).
Definition osd_req_op_cls_response_data_pages (req : ceph_osd_request) (which : Z) (pages : option (list (option nat)))
    (length alignment : Z) (from_pool own : bool) : outcome ceph_osd_request :=
  op ← req_op req which;
  '(c, m, cl, ml, i, d, _) ← as_cls (op_union op);
  set_req_op req which (op <| op_union := BodyCls c m cl ml i d (OsdDataPages pages length alignment from_pool own) |>).

Section Request.
Context (PAGE_SHIFT : Z).

(** [item_ok]: the data item of the message could be allocated *)
Definition ceph_osdc_msg_data_add (item_ok : bool) (m : ceph_msg) (d : ceph_osd_data) : outcome ceph_msg :=
  length ← ceph_osd_data_length d;
  match d with
  | OsdDataPages pages _ alignment _ _ =>
      if length =? 0 then Ret m else ceph_msg_data_add_pages PAGE_SHIFT item_ok m pages length alignment
  | OsdDataPagelist pl => _ ← bug_on (length =? 0); ceph_msg_data_add_pagelist item_ok m pl
  | OsdDataBio b _ => ceph_msg_data_add_bio item_ok m b length
  | OsdDataNone => Ret m
  end.

Definition add_request_data (item_ok : bool) (d : ceph_osd_data) (req : ceph_osd_request) : outcome ceph_osd_request :=
  m ← ceph_osdc_msg_data_add item_ok (r_request req) d; Ret (req <| r_request := m |>).
Definition add_reply_data (item_ok : bool) (d : ceph_osd_data) (req : ceph_osd_request) : outcome ceph_osd_request :=
  m ← ceph_osdc_msg_data_add item_ok (r_reply req) d; Ret (req <| r_reply := m |>).

(** ** struct ceph_osd_op

    Stores to fields of the packed struct at [p]: offset, size and value. *)
Definition sizeof_osd_op : Z := 38.

Fixpoint put_fields (buf : list Z) (p : Z) (fields : list (Z * nat * Z)) : outcome (list Z) :=
  match fields with
  | [] => Ret buf
  | (off, n, v) :: fields => buf ← write_bytes buf (p + off) (le_bytes n v); put_fields buf p fields
  end.

(** The request, the buffer with the operation at [dst], and the length of the
    data that go with the request. *)
Definition osd_req_encode_op (item_ok : bool) (req : ceph_osd_request) (buf : list Z) (dst which : Z)
  : outcome (ceph_osd_request * list Z * Z) :=
  src ← req_op req which;
  let code := op_op src in
  let finish req src buf len :=
    buf ← put_fields buf dst [(0, 2%nat, op_op src); (2, 4%nat, op_flags src); (34, 4%nat, op_payload_len src)];
    req ← set_req_op req which src;
    Ret (req, buf, len) in
  if negb (osd_req_opcode_valid code) then Ret (req, buf, 0)
  else if code =? CEPH_OSD_OP_STAT then
    d ← as_raw (op_union src);
    req ← add_reply_data item_ok d req;
    finish req src buf 0
  else if is_extent_opcode code then
    '(o, l, ts, tq, d) ← as_extent (op_union src);
    buf ← put_fields buf dst [(6, 8%nat, o); (14, 8%nat, l); (22, 8%nat, ts); (30, 4%nat, tq)];
    req ← (if code =? CEPH_OSD_OP_WRITE then add_request_data item_ok d req else add_reply_data item_ok d req);
    finish req src buf (if code =? CEPH_OSD_OP_WRITE then l else 0)
  else if code =? CEPH_OSD_OP_CALL then
    '(_, _, cl, ml, info, data, resp) ← as_cls (op_union src);
    buf ← put_fields buf dst [(6, 1%nat, cl); (7, 1%nat, ml)];
    req ← add_request_data item_ok info req;
    ilen ← match info with
           | OsdDataPagelist pl => '(_, len) ← deref pl; Ret len
           | _ => Fault BugOn
           end;
    dlen ← ceph_osd_data_length data;
    '(req, src, buf, len) ←
      (if dlen =? 0 then Ret (req, src, buf, ilen)
       else
         buf ← put_fields buf dst [(9, 4%nat, dlen)];
         req ← add_request_data item_ok data req;
         Ret (req, src <| op_payload_len ::= fun n => u32 (n + dlen) |>, buf, u64 (ilen + dlen)));
    req ← add_reply_data item_ok resp req;
    finish req src buf len
  else if code =? CEPH_OSD_OP_STARTSYNC then finish req src buf 0
  else if (code =? CEPH_OSD_OP_NOTIFY_ACK) || (code =? CEPH_OSD_OP_WATCH) then
    '(c, v, f) ← as_watch (op_union src);
    buf ← put_fields buf dst [(6, 8%nat, c); (14, 8%nat, v); (22, 1%nat, f)];
    finish req src buf 0
  else if code =? CEPH_OSD_OP_SETALLOCHINT then
    '(osz, wsz) ← as_hint (op_union src);
    buf ← put_fields buf dst [(6, 8%nat, osz); (14, 8%nat, wsz)];
    finish req src buf 0
  else Ret (req, buf, 0).

(** ** Allocation *)
Definition CEPH_MSG_OSD_OP : Z := 42.
Definition CEPH_MSG_OSD_OPREPLY : Z := 43.
Definition OSD_OP_FRONT_LEN : Z := 4096.
Definition OSD_OPREPLY_FRONT_LEN : Z := 512.

Definition num_snaps (sc : option ceph_snap_context) : Z :=
  match sc with Some s => Z.of_nat (length (sc_snaps s)) | None => 0 end.

Definition request_msg_size (snapc : option ceph_snap_context) (num_ops : Z) : Z :=
  (4 + 4 + 8 + 8 + 4 + 8) + (2 + 4 + 8 + 4 + 4) + (1 + 8 + 4 + 4) + (4 + CEPH_MAX_OID_NAME_LEN) +
  (2 + num_ops * sizeof_osd_op) + 8 + 8 + 8 * num_snaps snapc + 4.

Definition no_oid : ceph_object_id := Oid (repeat 0 (Z.to_nat CEPH_MAX_OID_NAME_LEN)) 0.

(** [mem n] tells whether the [n]th allocation succeeds; the pools are those of
    the client.  None: no request. *)
Definition ceph_osdc_alloc_request (mem : nat -> bool) (pool_op pool_reply : ceph_msgpool)
    (snapc : option ceph_snap_context) (num_ops : Z) (use_mempool : bool)
  : outcome (option ceph_osd_request * ceph_msgpool * ceph_msgpool) :=
  let num_ops := u32 num_ops in
  _ ← bug_on (CEPH_OSD_MAX_OP <? num_ops);
  if negb (mem 0%nat) then Ret (None, pool_op, pool_reply)
  else
    let '(reply, pool_reply) :=
      if use_mempool then ceph_msgpool_get (mem 1%nat) (mem 2%nat) pool_reply 0
      else (ceph_msg_new (mem 1%nat) (mem 2%nat) CEPH_MSG_OSD_OPREPLY OSD_OPREPLY_FRONT_LEN, pool_reply) in
    match reply with
    | None => Ret (None, pool_op, pool_reply)
    | Some reply =>
        let '(msg, pool_op) :=
          if use_mempool then ceph_msgpool_get (mem 3%nat) (mem 4%nat) pool_op 0
          else (ceph_msg_new (mem 3%nat) (mem 4%nat) CEPH_MSG_OSD_OP (request_msg_size snapc num_ops), pool_op) in
        match msg with
        | None => Ret (None, pool_op, pool_reply)
        | Some msg =>
            front ← write_bytes (iov_base (m_front msg)) 0 (repeat 0 (Z.to_nat (iov_len (m_front msg))));
            let msg := msg <| m_front ::= fun v => Kvec front (iov_len v) |> in
            Ret (Some (OsdRequest num_ops (repeat zero_op (Z.to_nat CEPH_OSD_MAX_OP)) 0 msg reply use_mempool
                   (-1) no_oid (-1) no_oid 0 None (0, 0) 0 0 0 0 0 0), pool_op, pool_reply)
        end
    end.

(** ** File extents *)

(** The code, the length that fits in the object, and the object's number,
    offset and length. *)
Definition calc_layout (l : ceph_file_layout) (off plen : Z) : Z * Z * (Z * Z * Z) :=
  let '(r, (objnum, objoff, objlen)) := ceph_calc_file_object_mapping PAGE_SHIFT l off plen in
  if r <? 0 then (r, plen, (objnum, objoff, objlen))
  else (0, if objlen <? plen then objlen else plen, (objnum, objoff, objlen)).

(** "%llx": the digits, most significant first *)
Definition hex_digit (d : Z) : Z := if d <? 10 then 48 + d else 87 + d.
Fixpoint hex_loop (fuel : nat) (n : Z) (acc : list Z) : list Z :=
  match fuel with
  | O => acc
  | S fuel =>
      let acc := hex_digit (n mod 16) :: acc in
      if n / 16 =? 0 then acc else hex_loop fuel (n / 16) acc
  end.
Definition hex (n : Z) : list Z := hex_loop 16 n [].
(** "%08llx" *)
Definition hex08 (n : Z) : list Z := repeat 48 (8 - length (hex n)) ++ hex n.

(** "%llx.%08llx" *)
Definition object_name (ino objnum : Z) : list Z := hex ino ++ [46] ++ hex08 objnum.

(** snprintf into name[CEPH_MAX_OID_NAME_LEN], and strlen of what it wrote *)
Definition set_object_name (name : list Z) : ceph_object_id :=
  let s := take (Z.to_nat (CEPH_MAX_OID_NAME_LEN - 1)) name in
  Oid (s ++ repeat 0 (Z.to_nat CEPH_MAX_OID_NAME_LEN - length s)) (Z.of_nat (length s)).

(** The truncation size that goes with an extent of the object at [objoff]. *)
Definition object_truncate_size (l : ceph_file_layout) (off objoff truncate_seq truncate_size : Z) : Z :=
  let object_base := u64 (off - objoff) in
  if (truncate_seq =? 1) && (truncate_size =? 2 ^ 64 - 1) then truncate_size
  else if truncate_size <=? object_base then 0
  else
    let t := truncate_size - object_base in
    if fl_object_size l <? t then fl_object_size l else t.

(** The request and the length, shortened to the object. *)
Definition ceph_osdc_new_request (mem : nat -> bool) (pool_op pool_reply : ceph_msgpool) (l : ceph_file_layout)
    (pg_pool ino off plen num_ops opcode flags : Z) (snapc : option ceph_snap_context)
    (truncate_seq truncate_size : Z) (use_mempool : bool) : outcome (ceph_osd_request * Z) :=
  _ ← bug_on (negb (is_extent_opcode opcode));
  '(o, _, _) ← ceph_osdc_alloc_request mem pool_op pool_reply snapc num_ops use_mempool;
  match o with
  | None => Err ENOMEM
  | Some req =>
      let req := req <| r_flags := flags |> in
      let '(r, plen, (objnum, objoff, objlen)) := calc_layout l off plen in
      if r <? 0 then Err (- r)
      else
        req ← osd_req_op_extent_init req 0 opcode objoff objlen
                (object_truncate_size l off objoff truncate_seq truncate_size) truncate_seq;
        req ← (if 1 <? num_ops then osd_req_op_init req 1 CEPH_OSD_OP_STARTSYNC else Ret req);
        Ret (req <| r_base_pool := pg_pool |> <| r_base_oid := set_object_name (object_name ino objnum) |>, plen)
  end.

(** ** The message *)
Definition CEPH_OSD_FLAG_ACK : Z := 0x1.
Definition CEPH_OSD_FLAG_ONDISK : Z := 0x4.
Definition CEPH_OSD_FLAG_RETRY : Z := 0x8.
Definition CEPH_OSD_FLAG_READ : Z := 0x10.
Definition CEPH_OSD_FLAG_WRITE : Z := 0x20.
Definition CEPH_OSD_FLAG_IGNORE_OVERLAY : Z := 0x20000.

Definition has_flag (flags f : Z) : bool := negb (Z.land flags f =? 0).

(** [for (i = 0; i < req->r_num_ops; i++)], from [i] on *)
Fixpoint encode_ops (item_ok : bool) (n : nat) (i : Z) (req : ceph_osd_request) (buf : list Z) (p data_len : Z)
  : outcome (ceph_osd_request * list Z * Z * Z) :=
  match n with
  | O => Ret (req, buf, p, data_len)
  | S n =>
      '(req, buf, len) ← osd_req_encode_op item_ok req buf p i;
      encode_ops item_ok n (i + 1) req buf (p + sizeof_osd_op) (u64 (data_len + len))
  end.

Fixpoint encode_snaps (snaps : list Z) (buf : list Z) (p : Z) : outcome (list Z * Z) :=
  match snaps with
  | [] => Ret (buf, p)
  | s :: snaps => '(buf, p) ← ceph_encode_64 buf p s; encode_snaps snaps buf p
  end.

Definition ceph_osdc_build_request (item_ok : bool) (req : ceph_osd_request) (off : Z)
    (snapc : option ceph_snap_context) (snap_id : Z) (mtime : option timespec) : outcome ceph_osd_request :=
  let req := req <| r_snapid := snap_id |> <| r_snapc := ceph_get_snap_context snapc |> in
  let msg := r_request req in
  let buf := iov_base (m_front msg) in
  '(buf, p) ← ceph_encode_32 buf 0 1;
  let epoch_at := p in let p := p + 4 in
  let flags_at := p in let p := p + 4 in
  buf ← (if has_flag (r_flags req) CEPH_OSD_FLAG_WRITE
         then t ← deref mtime;
              let t := ceph_encode_timespec t in
              put_fields buf p [(0, 4%nat, tv_sec t); (4, 4%nat, tv_nsec t)]
         else Ret buf);
  let p := p + 8 in
  let reassert_at := p in let p := p + 12 in
  '(buf, p) ← ceph_encode_8 buf p 4;
  '(buf, p) ← ceph_encode_8 buf p 4;
  '(buf, p) ← ceph_encode_32 buf p (8 + 4 + 4);
  let pool_at := p in let p := p + 8 in
  '(buf, p) ← ceph_encode_32 buf p (u32 (-1));
  '(buf, p) ← ceph_encode_32 buf p 0;
  '(buf, p) ← ceph_encode_8 buf p 1;
  let pgid_at := p in let p := p + (8 + 4) in
  '(buf, p) ← ceph_encode_32 buf p (u32 (-1));
  let oid := r_base_oid req in
  '(buf, p) ← ceph_encode_32 buf p (oid_name_len oid);
  name ← read_bytes (oid_name oid) (Z.to_nat (oid_name_len oid)) 0;
  '(buf, p) ← ceph_encode_copy buf p name;
  '(buf, p) ← ceph_encode_16 buf p (u16 (r_num_ops req));
  '(req, buf, p, data_len) ← encode_ops item_ok (Z.to_nat (r_num_ops req)) 0 req buf p 0;
  '(buf, p) ← ceph_encode_64 buf p (r_snapid req);
  '(buf, p) ← ceph_encode_64 buf p (match r_snapc req with Some s => sc_seq s | None => 0 end);
  '(buf, p) ← ceph_encode_32 buf p (num_snaps (r_snapc req));
  '(buf, p) ← encode_snaps (match r_snapc req with Some s => sc_snaps s | None => [] end) buf p;
  let attempts_at := p in let p := p + 4 in
  let msg := r_request req in
  let msg := if has_flag (r_flags req) CEPH_OSD_FLAG_WRITE
             then msg <| m_hdr ::= fun h => h <| h_data_off := Z.land off 0xffff |> |> else msg in
  _ ← bug_on (iov_len (m_front msg) <? p);
  let msg := msg <| m_hdr ::= fun h => h <| h_version := 4 |> <| h_data_len := u32 data_len |> <| h_front_len := u32 p |> |>
                 <| m_front := Kvec buf p |> in
  Ret (req <| r_request := msg |> <| r_request_osdmap_epoch := epoch_at |> <| r_request_flags := flags_at |>
           <| r_request_reassert_version := reassert_at |> <| r_request_pool := pool_at |>
           <| r_request_pgid := pgid_at |> <| r_request_attempts := attempts_at |>).

(** The stores of __send_request to the front of the message: what changes from
    one attempt to the next.  The attempts field has 4 bytes; 8 are stored. *)
Definition fill_request (epoch : Z) (pgid : ceph_pg) (req : ceph_osd_request) : outcome ceph_osd_request :=
  let buf := iov_base (m_front (r_request req)) in
  buf ← write_bytes buf (r_request_osdmap_epoch req) (le_bytes 4 epoch);
  buf ← write_bytes buf (r_request_flags req) (le_bytes 4 (r_flags req));
  buf ← write_bytes buf (r_request_pool req) (le_bytes 8 (u64 (r_target_pool req)));
  '(buf, p) ← ceph_encode_64 buf (r_request_pgid req) (OsdMap.pool pgid);
  '(buf, _) ← ceph_encode_32 buf p (OsdMap.seed pgid);
  buf ← write_bytes buf (r_request_attempts req) (le_bytes 8 1);
  buf ← write_bytes buf (r_request_reassert_version req)
          (le_bytes 4 (fst (r_reassert_version req)) ++ le_bytes 8 (snd (r_reassert_version req)));
  Ret (req <| r_request ::= fun m => m <| m_front ::= fun v => Kvec buf (iov_len v) |> |>).

End Request.

(** ** Redirects *)
Section Redirect.
Context {S : Type} (buf : list Z).

(** The pool; the rest must be what an older client understands. *)
Definition ceph_oloc_decode (end_ : Z) : dec S Z :=
  _ ⇐ ceph_decode_need end_ (1 + 1 + 4) EINVAL;
  struct_v ⇐ ceph_decode_8 buf;
  struct_cv ⇐ ceph_decode_8 buf;
  if struct_v <? 3 then derr EINVAL
  else if 6 <? struct_cv then derr EINVAL
  else
    len ⇐ ceph_decode_32 buf;
    _ ⇐ ceph_decode_need end_ len EINVAL;
    start ⇐ get_pos;
    pool ⇐ ceph_decode_64 buf;
    _ ⇐ skip 4;
    klen ⇐ ceph_decode_32 buf;
    if 0 <? klen then derr EINVAL
    else
      nlen ⇐ (if 5 <=? struct_v then ceph_decode_32 buf else dret 0);
      if 0 <? nlen then derr EINVAL
      else
        hash ⇐ (if 6 <=? struct_v then h ⇐ ceph_decode_64 buf; dret (s64 h) else dret (-1));
        if negb (hash =? -1) then derr EINVAL
        else _ ⇐ set_pos (start + len); dret (s64 pool).

Definition ceph_redirect_decode (end_ : Z) : dec S Z :=
  _ ⇐ ceph_decode_need end_ (1 + 1 + 4) EINVAL;
  struct_v ⇐ ceph_decode_8 buf;
  struct_cv ⇐ ceph_decode_8 buf;
  if 1 <? struct_cv then derr EINVAL
  else
    len ⇐ ceph_decode_32 buf;
    _ ⇐ ceph_decode_need end_ len EINVAL;
    start ⇐ get_pos;
    pool ⇐ ceph_oloc_decode end_;
    nlen ⇐ ceph_decode_32 buf;
    if 0 <? nlen then derr EINVAL
    else
      ilen ⇐ ceph_decode_32 buf;
      _ ⇐ skip ilen;
      _ ⇐ set_pos (start + len);
      dret pool.

End Redirect.
