(* ===== verification/OsdMsg.v ===== *)
(** * The message of an OSD request

    What ceph_osdc_build_request and __send_request (net/ceph/osd_client.c)
    leave in the front of the message: the wire format of MOSDOp, version 4.
    The format is written down once, as a concatenation of fields; the code
    writes it in two passes, through pointers into a buffer whose size was
    computed by ceph_osdc_alloc_request. *)
From S2P Require Import Prelude.
From S2P Require Import Wire.
From S2P Require Import OsdMap.
From S2P Require Import PgMapping.
From S2P Require Import FileLayout.
From S2P Require Import PageList.
From S2P Require Import MsgCursor.
From S2P Require Import Msgr.
From S2P Require Import OsdReq.

(** ** The wire format *)
Definition zeros (n : nat) : list Z := repeat 0 n.

(** The 28 bytes of the union of struct ceph_osd_op. *)
Definition op_body_bytes (b : op_body) (indata_len : Z) : list Z :=
  match b with
  | BodyZero | BodyRaw _ => zeros 28
  | BodyExtent o l ts tq _ => le_bytes 8 o ++ le_bytes 8 l ++ le_bytes 8 ts ++ le_bytes 4 tq
  | BodyCls _ _ cl ml _ _ _ => le_bytes 1 cl ++ le_bytes 1 ml ++ zeros 1 ++ le_bytes 4 indata_len ++ zeros 21
  | BodyWatch c v f => le_bytes 8 c ++ le_bytes 8 v ++ le_bytes 1 f ++ zeros 11
  | BodyHint o w => le_bytes 8 o ++ le_bytes 8 w ++ zeros 12
  end.

Definition data_size (d : ceph_osd_data) : Z :=
  match d with
  | OsdDataNone | OsdDataPagelist None => 0
  | OsdDataPages _ len _ _ _ => len
  | OsdDataPagelist (Some (_, len)) => u64 len
  | OsdDataBio _ len => len
  end.

(** The data sent after the parameters of a class method. *)
Definition indata (op : ceph_osd_req_op) : Z :=
  match op_union op with BodyCls _ _ _ _ _ d _ => data_size d | _ => 0 end.

Definition op_payload (op : ceph_osd_req_op) : Z :=
  if indata op =? 0 then op_payload_len op else u32 (op_payload_len op + indata op).

Definition op_bytes (op : ceph_osd_req_op) : list Z :=
  le_bytes 2 (op_op op) ++ le_bytes 4 (op_flags op) ++ op_body_bytes (op_union op) (indata op) ++
  le_bytes 4 (op_payload op).

(** The data an operation sends. *)
Definition op_data_len (op : ceph_osd_req_op) : Z :=
  match op_union op with
  | BodyExtent _ l _ _ _ => if op_op op =? CEPH_OSD_OP_WRITE then l else 0
  | BodyCls _ _ _ _ (OsdDataPagelist (Some (_, ilen))) d _ =>
      if data_size d =? 0 then ilen else u64 (ilen + data_size d)
  | _ => 0
  end.

Definition data_total (acc : Z) (ops : list ceph_osd_req_op) : Z :=
  fold_left (fun a op => u64 (a + op_data_len op)) ops acc.

Definition mtime_bytes (flags : Z) (mtime : option timespec) : list Z :=
  match mtime with
  | Some t => if has_flag flags CEPH_OSD_FLAG_WRITE then le_bytes 4 (u32 (tv_sec t)) ++ le_bytes 4 (u32 (tv_nsec t)) else zeros 8
  | None => zeros 8
  end.

Definition pg_bytes (pg : ceph_pg) : list Z := le_bytes 8 (u64 (pool pg)) ++ le_bytes 4 (u32 (seed pg)).

Definition snapc_snaps (sc : option ceph_snap_context) : list Z := match sc with Some s => sc_snaps s | None => [] end.
Definition snapc_seq (sc : option ceph_snap_context) : Z := match sc with Some s => sc_seq s | None => 0 end.

(** Everything up to the attempts. *)
Definition osd_op_front (epoch flags : Z) (mtime : list Z) (version : list Z) (tpool pg : list Z)
    (name : list Z) (ops : list ceph_osd_req_op) (snapid : Z) (sc : option ceph_snap_context) : list Z :=
  le_bytes 4 1 ++ le_bytes 4 epoch ++ le_bytes 4 flags ++ mtime ++ version ++
  (le_bytes 1 4 ++ le_bytes 1 4 ++ le_bytes 4 16 ++ tpool ++ le_bytes 4 (u32 (-1)) ++ le_bytes 4 0) ++
  (le_bytes 1 1 ++ pg ++ le_bytes 4 (u32 (-1))) ++
  (le_bytes 4 (Z.of_nat (length name)) ++ name) ++
  (le_bytes 2 (Z.of_nat (length ops)) ++ concat (op_bytes <$> ops)) ++
  le_bytes 8 (u64 snapid) ++ le_bytes 8 (u64 (snapc_seq sc)) ++
  le_bytes 4 (u32 (num_snaps sc)) ++ concat ((fun s => le_bytes 8 (u64 s)) <$> snapc_snaps sc).

(** ** Operations that can be encoded *)
Definition data_ready (d : ceph_osd_data) : Prop :=
  match d with
  | OsdDataNone => True
  | OsdDataPages pages len _ _ _ => len = 0 \/ pages <> None
  | OsdDataPagelist None => False
  | OsdDataPagelist (Some (_, len)) => 0 < len < 2 ^ 64
  | OsdDataBio b _ => b <> []
  end.

(** The member of the union is the one the opcode says: what the
    osd_req_op_*_init functions leave. *)
Definition op_ready (op : ceph_osd_req_op) : Prop :=
  match op_union op with
  | BodyZero => op_op op = CEPH_OSD_OP_STARTSYNC \/ op_op op = CEPH_OSD_OP_STAT
  | BodyRaw d => op_op op = CEPH_OSD_OP_STAT /\ data_ready d
  | BodyExtent _ _ _ _ d => is_extent_opcode (op_op op) = true /\ data_ready d
  | BodyCls _ _ _ _ i d r =>
      op_op op = CEPH_OSD_OP_CALL /\ data_ready d /\ data_ready r /\
      (exists pages len, i = OsdDataPagelist (Some (pages, len)) /\ 0 < len < 2 ^ 64)
  | BodyWatch _ _ _ => op_op op = CEPH_OSD_OP_NOTIFY_ACK \/ op_op op = CEPH_OSD_OP_WATCH
  | BodyHint _ _ => op_op op = CEPH_OSD_OP_SETALLOCHINT
  end.

(** ** Writing at the end of what is written *)
Abbreviation zlen l := (Z.of_nat (length l)).

Lemma zeros_split n k : (n <= k)%nat -> zeros k = zeros n ++ zeros (k - n).
Proof. intros. unfold zeros. rewrite <- repeat_app. f_equal. lia. Qed.

(** Overwriting a part of a buffer. *)
Lemma overwrite pre old post s p :
  p = zlen pre -> length old = length s -> write_bytes (pre ++ old ++ post) p s = Ret (pre ++ s ++ post).
Proof. by apply (write_bytes_at 1). Qed.

Lemma emit done k n s p :
  p = zlen done + Z.of_nat n -> (n + length s <= k)%nat ->
  write_bytes (done ++ zeros k) p s = Ret ((done ++ zeros n ++ s) ++ zeros (k - n - length s)).
Proof.
  intros -> Hk. rewrite (zeros_split n k), (zeros_split (length s) (k - n)) by lia.
  rewrite (app_assoc done (zeros n)).
  rewrite overwrite; [by rewrite <- !app_assoc|rewrite length_app; unfold zeros; rewrite repeat_length; lia|
    unfold zeros; by rewrite repeat_length].
Qed.

Lemma emit_copy done k n s p :
  p = zlen done + Z.of_nat n -> (n + length s <= k)%nat ->
  ceph_encode_copy (done ++ zeros k) p s =
  Ret ((done ++ zeros n ++ s) ++ zeros (k - n - length s), zlen (done ++ zeros n ++ s)).
Proof.
  intros Hp Hk. unfold ceph_encode_copy. rewrite (emit done k n s p Hp Hk). cbn [obind]. do 2 f_equal.
  rewrite !length_app. unfold zeros. rewrite repeat_length. lia.
Qed.

(** ** One operation *)
Lemma ceph_osdc_msg_data_add_ok PS m d :
  data_ready d ->
  exists m', ceph_osdc_msg_data_add PS true m d = Ret m' /\ m_front m' = m_front m /\ m_hdr m' = m_hdr m.
Proof.
  unfold ceph_osdc_msg_data_add. destruct d as [|pages len al fp own|[[pages len]|]|b len]; cbn [data_ready ceph_osd_data_length obind deref].
  - by exists m.
  - intros Hd. destruct (len =? 0) eqn:E; [by exists m|]. unfold ceph_msg_data_add_pages.
    rewrite bool_decide_eq_false_2 by (destruct Hd; [lia|done]). rewrite E. by eexists.
  - intros Hd. unfold ceph_msg_data_add_pagelist. rewrite u64_small by lia.
    assert ((len =? 0) = false) as -> by lia. by eexists.
  - done.
  - intros Hd. unfold ceph_msg_data_add_bio. rewrite bool_decide_eq_false_2 by done. by eexists.
Qed.

Lemma data_size_length d : data_ready d -> ceph_osd_data_length d = Ret (data_size d).
Proof. by destruct d as [| |[[]|]|]. Qed.

(** Stores to the fields of a block of the buffer. *)
Definition patch (blk : list Z) (fields : list (Z * nat * Z)) : list Z :=
  fold_left (fun b '(off, n, v) => take (Z.to_nat off) b ++ le_bytes n v ++ drop (Z.to_nat off + n) b) fields blk.

Definition fields_fit (len : nat) (fields : list (Z * nat * Z)) : bool :=
  forallb (fun '(off, n, _) => (0 <=? off) && (Z.to_nat off + n <=? len)%nat) fields.

Lemma put_fields_block pre blk post p fields :
  p = zlen pre -> fields_fit (length blk) fields = true ->
  put_fields (pre ++ blk ++ post) p fields = Ret (pre ++ patch blk fields ++ post).
Proof.
  intros Hp. revert blk. induction fields as [|[[off n] v] fields IH]; intros blk Hf; [done|].
  cbn [put_fields fields_fit forallb] in *. apply andb_prop in Hf as [Ho Hf].
  apply andb_prop in Ho as [Ho Hn]. apply Z.leb_le in Ho. apply Nat.leb_le in Hn.
  assert (E : pre ++ blk ++ post =
    (pre ++ take (Z.to_nat off) blk) ++ take n (drop (Z.to_nat off) blk) ++ drop (Z.to_nat off + n) blk ++ post).
  { rewrite <- (take_drop (Z.to_nat off) blk) at 1. rewrite <- (take_drop n (drop (Z.to_nat off) blk)) at 1.
    rewrite drop_drop. by rewrite <- !app_assoc. }
  rewrite E, overwrite, bind_Ret_eq;
    [|rewrite length_app, length_take; lia|rewrite length_take, length_drop, length_le_bytes; lia].
  replace (_ ++ _ ++ _ ++ post) with
    (pre ++ (take (Z.to_nat off) blk ++ le_bytes n v ++ drop (Z.to_nat off + n) blk) ++ post) by (by rewrite <- !app_assoc).
  rewrite IH; [done|]. rewrite !length_app, length_take, length_drop, length_le_bytes. revert Hf.
  by replace (_ `min` _ + _)%nat with (length blk) by lia.
Qed.

(** What a request keeps while its operations are encoded. *)
Record same_request (req req' : ceph_osd_request) : Prop := {
  sr_num : r_num_ops req' = r_num_ops req;
  sr_flags : r_flags req' = r_flags req;
  sr_front : m_front (r_request req') = m_front (r_request req);
  sr_hdr : m_hdr (r_request req') = m_hdr (r_request req);
  sr_snapid : r_snapid req' = r_snapid req;
  sr_snapc : r_snapc req' = r_snapc req;
  sr_len : length (r_ops req') = length (r_ops req) }.

Lemma same_request_trans a b c : same_request a b -> same_request b c -> same_request a c.
Proof. intros [] []. split; congruence. Qed.

Lemma add_request_data_ok PS d req :
  data_ready d -> exists req', add_request_data PS true d req = Ret req' /\ same_request req req' /\ r_ops req' = r_ops req.
Proof.
  intros Hd. destruct (ceph_osdc_msg_data_add_ok PS (r_request req) d Hd) as (m' & E & Hf & Hh).
  unfold add_request_data. rewrite E. eexists. split; [done|]. split; [|done]. split; try done.
Qed.

Lemma add_reply_data_ok PS d req :
  data_ready d -> exists req', add_reply_data PS true d req = Ret req' /\ same_request req req' /\ r_ops req' = r_ops req.
Proof.
  intros Hd. destruct (ceph_osdc_msg_data_add_ok PS (r_reply req) d Hd) as (m' & E & Hf & Hh).
  unfold add_reply_data. rewrite E. eexists. split; [done|]. split; [|done]. split; try done.
Qed.

Lemma set_req_op_ok req which op :
  0 <= which < zlen (r_ops req) ->
  set_req_op req which op = Ret (req <| r_ops := <[Z.to_nat which := op]> (r_ops req) |>).
Proof. intros. unfold set_req_op. by rewrite wr_total by done. Qed.

Lemma is_extent_valid code :
  is_extent_opcode code = true -> osd_req_opcode_valid code = true /\ (code =? CEPH_OSD_OP_STAT) = false.
Proof.
  unfold is_extent_opcode. rewrite !orb_true_iff, !Z.eqb_eq. 
  by intros [[[[-> | ->] | ->] | ->] | ->].
Qed.

Lemma length_patch blk fields : fields_fit (length blk) fields = true -> length (patch blk fields) = length blk.
Proof.
  revert blk. induction fields as [|[[off n] v] fields IH]; intros b Hf; [done|].
  cbn [patch fold_left fields_fit forallb] in *.
  apply andb_prop in Hf as [Ho Hf]. apply andb_prop in Ho as [Ho Hn]. apply Nat.leb_le in Hn.
  assert (E : length (take (Z.to_nat off) b ++ le_bytes n v ++ drop (Z.to_nat off + n) b) = length b)
    by (rewrite !length_app, length_take, length_drop, length_le_bytes; lia).
  unfold patch in IH. rewrite IH by (by rewrite E). done.
Qed.

(** The last part of osd_req_encode_op, after the stores [fields]. *)
Definition last_fields (src : ceph_osd_req_op) : list (Z * nat * Z) :=
  [(0, 2%nat, op_op src); (2, 4%nat, op_flags src); (34, 4%nat, op_payload_len src)].

Lemma finish_op req0 req which src op done fields rest (len : Z) :
  same_request req0 req -> r_ops req = r_ops req0 ->
  0 <= which < zlen (r_ops req0) -> fields_fit 38 fields = true ->
  patch (patch (zeros 38) fields) (last_fields src) = op_bytes op ->
  exists req',
    (buf ← put_fields (done ++ patch (zeros 38) fields ++ rest) (zlen done) (last_fields src);
     req ← set_req_op req which src;
     Ret (req, buf, len)) = Ret (req', (done ++ op_bytes op) ++ rest, len) /\
    same_request req0 req' /\
    (forall j, j <> Z.to_nat which -> r_ops req' !! j = r_ops req0 !! j).
Proof.
  intros Hs Ho Hw Hf Hp. rewrite <- Ho in Hw.
  rewrite put_fields_block, bind_Ret_eq by (by rewrite ?length_patch). rewrite Hp, set_req_op_ok by done.
  eexists. split; [by rewrite bind_Ret_eq, <- app_assoc|]. destruct Hs. split.
  - split; try done. cbn. by rewrite length_insert.
  - intros j Hj. cbn. rewrite list_lookup_insert_ne by done. by rewrite Ho.
Qed.

Lemma bug_on_false b : b = false -> bug_on b = Ret tt.
Proof. by intros ->. Qed.

Lemma same_request_refl req : same_request req req.
Proof. by split. Qed.

(** The branch of the switch, for a known opcode. *)
Ltac pick_op :=
  repeat (match goal with
    |- context [if ?b then _ else _] => first [change b with true | change b with false]
    end; cbv iota).

Lemma osd_req_encode_op_ok PS req op done k which :
  0 <= which < r_num_ops req -> r_ops req !! Z.to_nat which = Some op -> op_ready op -> (38 <= k)%nat ->
  exists req',
    osd_req_encode_op PS true req (done ++ zeros k) (zlen done) which =
      Ret (req', (done ++ op_bytes op) ++ zeros (k - 38), op_data_len op) /\
    same_request req req' /\
    (forall j, j <> Z.to_nat which -> r_ops req' !! j = r_ops req !! j).
Proof.
  intros Hw Hop Hr Hk. unfold osd_req_encode_op, req_op. rewrite (zeros_split 38 k) by done.
  assert (Hl : 0 <= which < zlen (r_ops req)) by (apply lookup_lt_Some in Hop; lia).
  rewrite bug_on_false, bind_Ret_eq by lia.
  rewrite (proj2 (rd_Ret _ _ op)), bind_Ret_eq by (split; [lia|done]). clear Hop.
  unfold op_ready in Hr. destruct op as [code fl pl u]. cbn [op_op op_flags op_payload_len op_union] in *.
  pose proof (finish_op req) as Hfin. cbv zeta.
  destruct u as [|d|o l ts tq d|cn mn cl ml i d r|c v f|o w]; cbn [as_raw as_extent as_cls as_watch as_hint obind] in *.
  - destruct Hr as [-> | ->]; pick_op;
      by apply (Hfin req which (ReqOp _ fl pl BodyZero) (ReqOp _ fl pl BodyZero) done [] _ 0 (same_request_refl req)).
  - destruct Hr as [-> Hd]. destruct (add_reply_data_ok PS d req Hd) as (req1 & E1 & Hs1 & Ho1).
    pick_op. rewrite E1, bind_Ret_eq. by apply (Hfin req1 which (ReqOp _ fl pl (BodyRaw d)) (ReqOp _ fl pl (BodyRaw d)) done []).
  - destruct Hr as [Hx Hd]. destruct (is_extent_valid code Hx) as [Hv Hst]. rewrite Hv, Hst, Hx. cbn [negb].
    rewrite put_fields_block, bind_Ret_eq by done. unfold op_data_len. cbn [op_union op_op].
    destruct (code =? CEPH_OSD_OP_WRITE) eqn:Ew.
    + destruct (add_request_data_ok PS d req Hd) as (req1 & E1 & Hs1 & Ho1). rewrite E1, bind_Ret_eq.
      by apply (Hfin req1 which (ReqOp code fl pl (BodyExtent o l ts tq d)) (ReqOp code fl pl (BodyExtent o l ts tq d))).
    + destruct (add_reply_data_ok PS d req Hd) as (req1 & E1 & Hs1 & Ho1). rewrite E1, bind_Ret_eq.
      by apply (Hfin req1 which (ReqOp code fl pl (BodyExtent o l ts tq d)) (ReqOp code fl pl (BodyExtent o l ts tq d))).
  - destruct Hr as (-> & Hd & Hrr & pages & ilen & -> & Hi). pick_op.
    rewrite put_fields_block, bind_Ret_eq by done.
    destruct (add_request_data_ok PS (OsdDataPagelist (Some (pages, ilen))) req) as (req1 & E1 & Hs1 & Ho1); [done|].
    rewrite E1, !bind_Ret_eq. cbn [deref obind]. rewrite (data_size_length d Hd), bind_Ret_eq.
    unfold op_data_len. cbn [op_union]. destruct (data_size d =? 0) eqn:E0.
    + rewrite bind_Ret_eq. destruct (add_reply_data_ok PS r req1 Hrr) as (req2 & E2 & Hs2 & Ho2).
      rewrite E2, bind_Ret_eq. apply Z.eqb_eq in E0.
      apply (Hfin req2 which (ReqOp _ fl pl (BodyCls cn mn cl ml (OsdDataPagelist (Some (pages, ilen))) d r))); try done;
        [by eapply same_request_trans|congruence|].
      unfold op_bytes, op_payload, indata, op_body_bytes. cbn [op_union op_op op_flags op_payload_len]. by rewrite E0.
    + rewrite put_fields_block, bind_Ret_eq by done.
      destruct (add_request_data_ok PS d req1 Hd) as (req2 & E2 & Hs2 & Ho2). rewrite E2, !bind_Ret_eq.
      destruct (add_reply_data_ok PS r req2 Hrr) as (req3 & E3 & Hs3 & Ho3). rewrite E3, bind_Ret_eq.
      apply (Hfin req3 which (ReqOp _ fl (u32 (pl + data_size d)) (BodyCls cn mn cl ml (OsdDataPagelist (Some (pages, ilen))) d r))
               _ done [(6, 1%nat, cl); (7, 1%nat, ml); (9, 4%nat, data_size d)]); try done;
        [by do 2 (eapply same_request_trans; [done|])|congruence|].
      unfold op_bytes, op_payload, indata, op_body_bytes. cbn [op_union op_op op_flags op_payload_len]. by rewrite E0.
  - destruct Hr as [-> | ->]; pick_op; rewrite put_fields_block, bind_Ret_eq by done;
      by apply (Hfin req which (ReqOp _ fl pl (BodyWatch c v f)) (ReqOp _ fl pl (BodyWatch c v f)) done _ _ 0 (same_request_refl req)).
  - subst code. pick_op. rewrite put_fields_block, bind_Ret_eq by done.
    by apply (Hfin req which (ReqOp _ fl pl (BodyHint o w)) (ReqOp _ fl pl (BodyHint o w)) done _ _ 0 (same_request_refl req)).
Qed.

(** ** All operations, and the snapshots *)
Lemma length_op_bytes op : op_ready op -> length (op_bytes op) = 38%nat.
Proof.
  intros _. unfold op_bytes. rewrite !length_app, !length_le_bytes.
  assert (length (op_body_bytes (op_union op) (indata op)) = 28%nat) as ->; [|done].
  by destruct (op_union op).
Qed.

Lemma encode_ops_ok PS ops : forall i req done k dl,
  Forall op_ready ops -> 0 <= i -> i + zlen ops <= r_num_ops req ->
  take (length ops) (drop (Z.to_nat i) (r_ops req)) = ops -> (38 * length ops <= k)%nat ->
  exists req',
    encode_ops PS true (length ops) i req (done ++ zeros k) (zlen done) dl =
      Ret (req', (done ++ concat (op_bytes <$> ops)) ++ zeros (k - 38 * length ops),
           zlen (done ++ concat (op_bytes <$> ops)), data_total dl ops) /\
    same_request req req'.
Proof.
  induction ops as [|op ops IH]; intros i req done k dl Hr Hi Hn Hops Hk.
  { exists req. cbn. rewrite !app_nil_r, Nat.sub_0_r. split; [done|apply same_request_refl]. }
  apply Forall_cons in Hr as [Hr1 Hr]. cbn [length] in *.
  assert (Hat : r_ops req !! Z.to_nat i = Some op).
  { rewrite <- (Nat.add_0_r (Z.to_nat i)), <- lookup_drop, <- (lookup_take_lt _ (S (length ops))) by lia. by rewrite Hops. }
  destruct (osd_req_encode_op_ok PS req op done k i) as (req1 & E1 & Hs1 & Ho1); [lia|done..|lia|].
  cbn [encode_ops]. rewrite E1, bind_Ret_eq.
  assert (Hp : zlen done + sizeof_osd_op = zlen (done ++ op_bytes op))
    by (rewrite length_app, length_op_bytes by done; unfold sizeof_osd_op; lia).
  rewrite Hp. destruct (IH (i + 1) req1 (done ++ op_bytes op) (k - 38)%nat (u64 (dl + op_data_len op))) as (req2 & E2 & Hs2).
  - done.
  - lia.
  - rewrite (sr_num _ _ Hs1). lia.
  - replace (Z.to_nat (i + 1)) with (S (Z.to_nat i)) by lia.
    rewrite (drop_S _ op) in Hops by done. cbn in Hops. injection Hops as Hops. rewrite <- Hops at 2.
    apply list_eq. intros j. destruct (decide (j < length ops)%nat); [|by rewrite !lookup_take_ge by lia].
    rewrite !lookup_take_lt, !lookup_drop by done. apply Ho1. lia.
  - lia.
  - exists req2. split; [|by eapply same_request_trans]. rewrite E2. cbn [fmap list_fmap concat].
    rewrite <- !app_assoc. by replace (k - 38 - 38 * length ops)%nat with (k - 38 * S (length ops))%nat by lia.
Qed.

Lemma encode_snaps_ok snaps : forall done k,
  (8 * length snaps <= k)%nat ->
  encode_snaps snaps (done ++ zeros k) (zlen done) =
    Ret ((done ++ concat ((fun s => le_bytes 8 (u64 s)) <$> snaps)) ++ zeros (k - 8 * length snaps),
         zlen (done ++ concat ((fun s => le_bytes 8 (u64 s)) <$> snaps))).
Proof.
  induction snaps as [|s snaps IH]; intros done k Hk.
  { cbn. by rewrite !app_nil_r, Nat.sub_0_r. }
  cbn [encode_snaps length fmap list_fmap concat] in *. unfold ceph_encode_64.
  rewrite (emit_copy done k 0), bind_Ret_eq by (rewrite ?length_le_bytes; lia). cbn [zeros repeat app].
  rewrite IH by (rewrite length_le_bytes; lia). rewrite length_le_bytes, <- !app_assoc.
  by replace (k - 0 - 8 - 8 * length snaps)%nat with (k - 8 * S (length snaps))%nat by lia.
Qed.

(** ** The message *)

(** A request ceph_osdc_alloc_request made and whose operations are set. *)
Record request_ready (req : ceph_osd_request) (snapc : option ceph_snap_context) (ops : list ceph_osd_req_op)
    (name : list Z) : Prop := {
  rr_num : r_num_ops req = zlen ops;
  rr_max : zlen ops <= CEPH_OSD_MAX_OP;
  rr_ops : take (length ops) (r_ops req) = ops;
  rr_ready : Forall op_ready ops;
  rr_name : take (Z.to_nat (oid_name_len (r_base_oid req))) (oid_name (r_base_oid req)) = name;
  rr_name_len : oid_name_len (r_base_oid req) = zlen name;
  rr_name_max : zlen name <= CEPH_MAX_OID_NAME_LEN;
  rr_name_fits : zlen name <= zlen (oid_name (r_base_oid req));
  rr_front : m_front (r_request req) =
    Kvec (zeros (Z.to_nat (request_msg_size snapc (zlen ops)))) (request_msg_size snapc (zlen ops)) }.

Lemma emit_mtime done k flags mtime :
  (16 <= k)%nat -> (has_flag flags CEPH_OSD_FLAG_WRITE = true -> mtime <> None) ->
  (if has_flag flags CEPH_OSD_FLAG_WRITE
   then t ← deref mtime;
        let t := ceph_encode_timespec t in
        put_fields (done ++ zeros k) (zlen done + 4 + 4) [(0, 4%nat, tv_sec t); (4, 4%nat, tv_nsec t)]
   else Ret (done ++ zeros k)) = Ret ((done ++ zeros 8 ++ mtime_bytes flags mtime) ++ zeros (k - 16)).
Proof.
  intros Hk Hm. rewrite (zeros_split 8 k), (zeros_split 8 (k - 8)) by lia.
  replace (k - 8 - 8)%nat with (k - 16)%nat by lia. unfold mtime_bytes.
  destruct (has_flag flags CEPH_OSD_FLAG_WRITE).
  - destruct mtime as [t|]; [|by specialize (Hm eq_refl)]. cbn [deref obind]. cbv zeta.
    rewrite (app_assoc done (zeros 8)), put_fields_block; [by rewrite <- !app_assoc|rewrite length_app; cbn; lia|done].
  - destruct mtime; by rewrite <- !app_assoc.
Qed.

Lemma length_mtime flags mtime : length (mtime_bytes flags mtime) = 8%nat.
Proof. unfold mtime_bytes. by destruct mtime, (has_flag flags CEPH_OSD_FLAG_WRITE). Qed.

Lemma length_zeros n : length (zeros n) = n.
Proof. apply repeat_length. Qed.

Ltac sizes := rewrite ?length_app, ?length_le_bytes, ?length_mtime, ?length_zeros; lia.

(** Emits at the end, after leaving out [n] bytes. *)
Ltac put n :=
  match goal with
  | |- context [ceph_encode_copy (?d ++ zeros ?k) ?p ?s] => rewrite (emit_copy d k n s p), bind_Ret_eq by sizes
  end.

Lemma build_request_front PS req off snapc snap_id mtime ops name :
  request_ready req snapc ops name -> (has_flag (r_flags req) CEPH_OSD_FLAG_WRITE = true -> mtime <> None) ->
  exists req1 front,
    front = osd_op_front 0 0 (mtime_bytes (r_flags req) mtime) (zeros 12) (zeros 8) (zeros 12) name ops snap_id snapc /\
    ceph_osdc_build_request PS true req off snapc snap_id mtime = Ret req1 /\
    m_front (r_request req1) = Kvec (front ++ zeros 4 ++ zeros (100 - length name)) (zlen front + 4) /\
    h_front_len (m_hdr (r_request req1)) = u32 (zlen front + 4) /\
    h_data_len (m_hdr (r_request req1)) = u32 (data_total 0 ops) /\
    (r_request_osdmap_epoch req1, r_request_flags req1, r_request_reassert_version req1, r_request_pool req1,
      r_request_pgid req1, r_request_attempts req1) = (4, 8, 20, 38, 55, zlen front) /\
    r_flags req1 = r_flags req.
Proof.
  intros [Hnum Hmax Hops Hready Hname Hnl Hnm Hnf Hfront] Hm. set (f0 := osd_op_front _ _ _ _ _ _ _ _ _ _).
  unfold ceph_osdc_build_request, ceph_encode_8, ceph_encode_16, ceph_encode_32, ceph_encode_64. cbv zeta.
  set (reqs := _ <| r_snapid := _ |> <| r_snapc := _ |>).
  change (r_request reqs) with (r_request req). change (r_flags reqs) with (r_flags req).
  change (r_base_oid reqs) with (r_base_oid req). change (r_num_ops reqs) with (r_num_ops req).
  rewrite Hfront. cbn [iov_base iov_len].
  assert (Hsz : Z.to_nat (request_msg_size snapc (zlen ops)) =
    (201 + 38 * length ops + 8 * length (snapc_snaps snapc))%nat).
  { unfold request_msg_size, num_snaps, snapc_snaps, CEPH_MAX_OID_NAME_LEN, sizeof_osd_op.
    destruct snapc; cbn [length]; lia. }
  rewrite Hsz. unfold CEPH_OSD_MAX_OP, CEPH_MAX_OID_NAME_LEN in *.
  set (k := (201 + _ + _)%nat).
  assert (Hk : (k = 201 + 38 * length ops + 8 * length (snapc_snaps snapc))%nat) by done. clearbody k.
  change (zeros k) with ([] ++ zeros k).
  rewrite (emit_copy [] k 0), bind_Ret_eq by (rewrite ?length_le_bytes; cbn; lia).
  rewrite emit_mtime, bind_Ret_eq by (rewrite ?length_le_bytes; done || lia).
  rewrite Hnum. assert (Hu16 : u16 (u16 (zlen ops)) = zlen ops) by (by rewrite (u16_small (zlen ops)), (u16_small (zlen ops)) by lia).
  assert (Hu32 : u32 (oid_name_len (r_base_oid req)) = zlen name) by (rewrite Hnl; apply u32_small; lia).
  rewrite Hu16, Hu32.
  put 12%nat. put 0%nat. put 0%nat. put 8%nat. put 0%nat. put 0%nat. put 12%nat. put 0%nat.
  rewrite read_bytes_Ret, bind_Ret_eq by lia. unfold slice. rewrite drop_0, Nat2Z.id, Hname.
  put 0%nat. put 0%nat.
  match goal with |- context [encode_ops _ _ _ _ _ (?d ++ zeros ?k) _ _] =>
    destruct (encode_ops_ok PS ops 0 reqs d k 0) as (req2 & E2 & Hs2) end;
    [done|lia|cbn; lia|done|sizes|].
  rewrite Nat2Z.id, E2, bind_Ret_eq. clear E2. destruct Hs2 as [_ Hfl2 Hfr2 _ Hid2 Hsc2 _].
  match goal with |- context [(?d ++ concat (op_bytes <$> ops)) ++ zeros ?k] =>
    remember d as D eqn:ED; remember k as K eqn:EK end.
  assert (HD : length (D ++ concat (op_bytes <$> ops)) = (77 + length name + 38 * length ops)%nat).
  { rewrite length_app. assert (Hc : length (concat (op_bytes <$> ops)) = (38 * length ops)%nat).
    { clear -Hready. induction Hready as [|op ops Hop _ IH]; cbn [fmap list_fmap concat length]; [done|].
      rewrite length_app, length_op_bytes, IH by done. lia. }
    rewrite Hc. clear EK. rewrite ED. rewrite ?length_app, ?length_le_bytes, ?length_mtime, ?length_zeros. cbn [length]. lia. }
  assert (HK : (K = k - (77 + length name + 38 * length ops))%nat) by (clear HD ED; rewrite EK, <- !Nat.sub_add_distr; f_equal; sizes).
  rewrite Hid2, Hsc2. change (r_snapid reqs) with snap_id.
  assert (Hsn : num_snaps (r_snapc reqs) = num_snaps snapc) by (by destruct snapc).
  assert (Hse : match r_snapc reqs with Some s => sc_seq s | None => 0 end = snapc_seq snapc) by (by destruct snapc).
  assert (Hss : match r_snapc reqs with Some s => sc_snaps s | None => [] end = snapc_snaps snapc) by (by destruct snapc).
  rewrite Hsn, Hse, Hss. clear EK. set (DO := D ++ _) in *.
  assert (Hrf : m_front (r_request reqs) = m_front (r_request req)) by done.
  assert (Hrfl : r_flags reqs = r_flags req) by done. clearbody reqs.
  do 3 (match goal with
  | |- context [ceph_encode_copy (?d ++ zeros ?k) ?p ?s] =>
     rewrite (emit_copy d k 0 s p), bind_Ret_eq by (rewrite ?length_app, ?length_le_bytes, ?length_zeros; lia)
  end).
  rewrite encode_snaps_ok, bind_Ret_eq by (rewrite ?length_le_bytes; lia).
  match goal with |- context [(?d ++ concat (_ <$> snapc_snaps snapc)) ++ zeros ?n] =>
    assert (Hf0 : d ++ concat ((fun s => le_bytes 8 (u64 s)) <$> snapc_snaps snapc) = f0) end.
  { unfold DO. rewrite ED. unfold f0, osd_op_front. rewrite <- !app_assoc. reflexivity. }
  rewrite !Hf0.
  assert (Hlen : length f0 = (97 + length name + 38 * length ops + 8 * length (snapc_snaps snapc))%nat).
  { rewrite <- Hf0, !length_app, HD, !length_le_bytes, length_zeros.
    assert (Hc : length (concat ((fun s => le_bytes 8 (u64 s)) <$> snapc_snaps snapc)) =
      (8 * length (snapc_snaps snapc))%nat) by (clear; induction (snapc_snaps snapc) as [|x l IH]; [done|];
        cbn [fmap list_fmap concat length]; rewrite length_app, length_le_bytes, IH; lia).
    rewrite Hc. lia. }
  rewrite ?length_le_bytes, Hfl2, <- !Nat.sub_add_distr.
  clear Hf0 HD. clearbody f0.
  match goal with |- context [if ?b then ?x else r_request req2] =>
    remember (if b then x else r_request req2) as msg2 eqn:Em end.
  assert (Hmf : m_front msg2 = m_front (r_request req)) by (rewrite Em, <- Hrf, <- Hfr2; clear; by case_match).
  clear Em. rewrite Hmf, Hfront. cbn [iov_len]. rewrite bug_on_false, bind_Ret_eq by lia.
  eexists _, f0. split; [done|]. split; [done|]. cbn -[zeros u32 Nat.sub].
  replace (length (le_bytes 4 (u32 1))) with 4%nat by done.
  split; [|split; [done|split; [done|split]]].
  - do 2 f_equal. clear -HK Hk Hnm. match goal with |- zeros ?n = _ => rewrite (zeros_split 4 n) by lia end.
    do 2 f_equal. lia.
  - rewrite ?length_app, ?length_le_bytes, ?length_mtime, ?length_zeros. cbn [length]. done.
  - by rewrite Hfl2.
Qed.

(** ** What each attempt changes *)
Section Stores.
Context (epoch flags : Z) (mtime ver tpool pg name tail : list Z) (ops : list ceph_osd_req_op) (snapid : Z)
  (sc : option ceph_snap_context).
Context (Hm : length mtime = 8%nat) (Hv : length ver = 12%nat) (Htp : length tpool = 8%nat) (Hpg : length pg = 12%nat).

Local Abbreviation front e f v t g := (osd_op_front e f mtime v t g name ops snapid sc ++ tail).

Lemma store_epoch e : write_bytes (front epoch flags ver tpool pg) 4 (le_bytes 4 e) = Ret (front e flags ver tpool pg).
Proof. unfold osd_op_front. rewrite <- !app_assoc. by apply (overwrite (le_bytes 4 1)). Qed.

Lemma store_flags f : write_bytes (front epoch flags ver tpool pg) 8 (le_bytes 4 f) = Ret (front epoch f ver tpool pg).
Proof.
  unfold osd_op_front. rewrite <- !app_assoc. rewrite !(app_assoc (le_bytes 4 1)).
  by apply (overwrite (le_bytes 4 1 ++ le_bytes 4 epoch)).
Qed.

Lemma store_version v : length v = 12%nat ->
  write_bytes (front epoch flags ver tpool pg) 20 v = Ret (front epoch flags v tpool pg).
Proof.
  intros Hl. pose (pre := le_bytes 4 1 ++ le_bytes 4 epoch ++ le_bytes 4 flags ++ mtime).
  assert (E : forall l, le_bytes 4 1 ++ le_bytes 4 epoch ++ le_bytes 4 flags ++ mtime ++ l = pre ++ l)
    by (intros; unfold pre; by rewrite <- !app_assoc).
  unfold osd_op_front. rewrite <- !app_assoc, !E. apply overwrite; [|lia]. unfold pre. sizes.
Qed.

Lemma store_pool t : length t = 8%nat ->
  write_bytes (front epoch flags ver tpool pg) 38 t = Ret (front epoch flags ver t pg).
Proof.
  intros Hl. pose (pre := le_bytes 4 1 ++ le_bytes 4 epoch ++ le_bytes 4 flags ++ mtime ++ ver ++
    le_bytes 1 4 ++ le_bytes 1 4 ++ le_bytes 4 16).
  assert (E : forall l, le_bytes 4 1 ++ le_bytes 4 epoch ++ le_bytes 4 flags ++ mtime ++ ver ++
    le_bytes 1 4 ++ le_bytes 1 4 ++ le_bytes 4 16 ++ l = pre ++ l) by (intros; unfold pre; by rewrite <- !app_assoc).
  unfold osd_op_front. rewrite <- !app_assoc, !E. apply overwrite; [|lia]. unfold pre. sizes.
Qed.

Lemma store_pg_at g g0 g1 post n : pg = g0 ++ g1 ++ post -> length g = length g1 -> n = 55 + zlen g0 ->
  write_bytes (front epoch flags ver tpool pg) n g = Ret (front epoch flags ver tpool (g0 ++ g ++ post)).
Proof.
  intros -> Hl ->. pose (pre := le_bytes 4 1 ++ le_bytes 4 epoch ++ le_bytes 4 flags ++ mtime ++ ver ++
    le_bytes 1 4 ++ le_bytes 1 4 ++ le_bytes 4 16 ++ tpool ++ le_bytes 4 (u32 (-1)) ++ le_bytes 4 0 ++ le_bytes 1 1 ++ g0).
  assert (E : forall l, le_bytes 4 1 ++ le_bytes 4 epoch ++ le_bytes 4 flags ++ mtime ++ ver ++
    le_bytes 1 4 ++ le_bytes 1 4 ++ le_bytes 4 16 ++ tpool ++ le_bytes 4 (u32 (-1)) ++ le_bytes 4 0 ++
    le_bytes 1 1 ++ g0 ++ l = pre ++ l) by (intros; unfold pre; by rewrite <- !app_assoc).
  unfold osd_op_front. rewrite <- !app_assoc, !E. apply overwrite; [|lia]. unfold pre. sizes.
Qed.

End Stores.

Lemma write_bytes_past buf s : forall p,
  0 <= p <= zlen buf -> zlen buf < p + zlen s -> write_bytes buf p s = Fault OutOfBounds.
Proof.
  revert buf. induction s as [|b s IH]; intros buf p Hp Hl; cbn [length] in Hl; [lia|]. cbn [write_bytes].
  destruct (decide (p < zlen buf)).
  - rewrite wr_total, bind_Ret_eq by lia. apply IH; rewrite length_insert; lia.
  - unfold wr. rewrite (proj2 (Z.ltb_ge _ _)) by lia. by rewrite andb_false_r.
Qed.

(** The last stores: 8 bytes at the attempts, then the version. *)
Definition version_bytes (v : Z * Z) : list Z := le_bytes 4 (fst v) ++ le_bytes 8 (snd v).

Lemma fill_request_upto req1 mtime epoch pgid (name tail : list Z) ops snapid sc :
  let front0 := osd_op_front 0 0 mtime (zeros 12) (zeros 8) (zeros 12) name ops snapid sc in
  let front1 v := osd_op_front epoch (r_flags req1) mtime v (le_bytes 8 (u64 (r_target_pool req1))) (pg_bytes pgid)
                  name ops snapid sc in
  length mtime = 8%nat ->
  iov_base (m_front (r_request req1)) = front0 ++ tail ->
  (r_request_osdmap_epoch req1, r_request_flags req1, r_request_reassert_version req1, r_request_pool req1,
    r_request_pgid req1, r_request_attempts req1) = (4, 8, 20, 38, 55, zlen front0) ->
  fill_request epoch pgid req1 =
    (buf ← write_bytes (front1 (zeros 12) ++ tail) (zlen front0) (le_bytes 8 1);
     buf ← write_bytes buf 20 (version_bytes (r_reassert_version req1));
     Ret (req1 <| r_request ::= fun m => m <| m_front ::= fun v => Kvec buf (iov_len v) |> |>)) /\
  (forall v, length v = 12%nat -> length (front1 v) = length front0).
Proof.
  intros front0 front1 Hm Hb [= He Hf Hr Hp Hg Ha]. split.
  - unfold fill_request, ceph_encode_64, ceph_encode_32, ceph_encode_copy. cbv zeta. rewrite Hb, He, Hf, Hr, Hp, Hg, Ha.
    unfold front0. rewrite store_epoch, bind_Ret_eq, store_flags, bind_Ret_eq.
    rewrite store_pool, bind_Ret_eq by (done || apply length_le_bytes). change (zeros 12) with (zeros 8 ++ zeros 4) at 2.
    rewrite store_pg_at with (g0 := []) (g1 := zeros 8) (post := zeros 4), bind_Ret_eq by (done || by rewrite length_le_bytes).
    rewrite length_le_bytes, bind_Ret_eq.
    rewrite store_pg_at with (g0 := le_bytes 8 (u64 (pool pgid))) (g1 := zeros 4) (post := []), bind_Ret_eq
      by (by rewrite ?length_le_bytes).
    rewrite bind_Ret_eq, app_nil_r. done.
  - intros v Hv. unfold front0, front1, osd_op_front, pg_bytes. rewrite !length_app, Hv, !length_le_bytes. done.
Qed.

(** C10: The message of a request, after ceph_osdc_build_request and the stores
    of __send_request, is exactly the wire format: the fields in order, the
    operations, the snapshots and one attempt; the front is as long as the
    header says and nothing was written outside the buffer that
    ceph_osdc_alloc_request sized, for names of at most 96 bytes. *)
Theorem osd_request_wire_format PS req off snapc snap_id mtime ops name epoch pgid tpool ver :
  request_ready req snapc ops name ->
  (has_flag (r_flags req) CEPH_OSD_FLAG_WRITE = true -> mtime <> None) ->
  zlen name <= 96 ->
  exists req1 req2,
    ceph_osdc_build_request PS true req off snapc snap_id mtime = Ret req1 /\
    fill_request epoch pgid (req1 <| r_target_pool := tpool |> <| r_reassert_version := ver |>) = Ret req2 /\
    let front := osd_op_front epoch (r_flags req) (mtime_bytes (r_flags req) mtime) (version_bytes ver)
                   (le_bytes 8 (u64 tpool)) (pg_bytes pgid) name ops snap_id snapc ++ le_bytes 4 1 in
    let msg := r_request req2 in
    iov_len (m_front msg) = zlen front /\
    take (length front) (iov_base (m_front msg)) = front /\
    h_front_len (m_hdr msg) = u32 (zlen front) /\
    h_data_len (m_hdr msg) = u32 (data_total 0 ops).
Proof.
  intros Hr Hm Hn. destruct (build_request_front PS req off snapc snap_id mtime ops name Hr Hm)
    as (req1 & front0 & Ef & Eb & Hfront & Hfl & Hdl & Hoffs & Hflags).
  set (req1' := req1 <| r_target_pool := tpool |> <| r_reassert_version := ver |>).
  destruct (fill_request_upto req1' (mtime_bytes (r_flags req) mtime) epoch pgid name
              (zeros 4 ++ zeros (100 - length name)) ops snap_id snapc) as [Efill Hlen].
  - apply length_mtime.
  - change (r_request req1') with (r_request req1). by rewrite Hfront, Ef.
  - rewrite <- Ef. exact Hoffs.
  - rewrite <- Ef in *. change (r_flags req1') with (r_flags req1) in *. rewrite Hflags in *.
    change (r_target_pool req1') with tpool in *. change (r_reassert_version req1') with ver in *.
    change (r_request req1') with (r_request req1) in *. exists req1.
    rewrite <- (Hlen (zeros 12)) in Efill by done.
    assert (Ez : zeros 4 ++ zeros (100 - length name) = zeros 8 ++ zeros (96 - length name)).
    { rewrite (zeros_split 4 (100 - length name)) by lia. by replace (100 - length name - 4)%nat with (96 - length name)%nat by lia. }
    rewrite Ez in Efill.
    rewrite overwrite, bind_Ret_eq in Efill by done.
    rewrite store_version, bind_Ret_eq in Efill by (done || apply length_mtime).
    eexists. split; [done|]. split; [exact Efill|]. cbv zeta.
    set (front1 := osd_op_front epoch _ _ (version_bytes ver) _ _ _ _ _ _) in *.
    assert (Hl1 : length (front1 ++ le_bytes 4 1) = (length front0 + 4)%nat) by
      (rewrite length_app, length_le_bytes; unfold front1; by rewrite Hlen).
    cbn -[le_bytes zeros front1 take u32]. rewrite Hl1.
    rewrite Hfront, Hfl, Hdl. cbn [iov_len]. split; [lia|].
    split; [|split; [f_equal; lia|done]].
    rewrite <- Hl1. change (le_bytes 8 1) with (le_bytes 4 1 ++ zeros 4).
    rewrite <- (app_assoc (le_bytes 4 1)), (app_assoc front1), take_app_le by done. by rewrite take_ge.
Qed.

(** A read of 4096 bytes of the first object of a file. *)
Definition example_pool : ceph_msgpool := MsgPool 0 CEPH_MSG_OSD_OP 4096 10 [].
Definition example_name : list Z := object_name 0x10000000000 0.
Definition example_ops : list ceph_osd_req_op := [ReqOp CEPH_OSD_OP_READ 0 0 (BodyExtent 0 4096 0 1 OsdDataNone)].
Definition example_request (oid : ceph_object_id) : ceph_osd_request :=
  let msg := Msg (MsgHeader 0 0 42 127 0 239 0 0 0 (EntityName 0 0) 0 0) (MsgFooter 0 0 0 0)
    (Kvec (zeros 239) 239) None 0 [] (DataCursor 0 [] 0 false false PosNone) false 1 false false 239 None in
  OsdRequest 1 (example_ops ++ repeat zero_op 2) CEPH_OSD_FLAG_READ msg msg false 3 oid (-1) no_oid 0 None (0, 0) 0 0 0 0 0 0.

Lemma example_request_ready oid name :
  take (Z.to_nat (oid_name_len oid)) (oid_name oid) = name -> oid_name_len oid = zlen name ->
  zlen name <= 100 -> zlen name <= zlen (oid_name oid) ->
  request_ready (example_request oid) None example_ops name.
Proof. intros. split; try done. by repeat constructor. Qed.

Lemma osd_request_wire_format_witness :
  exists req1 req2,
    ceph_osdc_build_request 12 true (example_request (set_object_name example_name)) 0 None (2 ^ 64 - 2) None = Ret req1 /\
    fill_request 77 (Pg 3 0x1234) (req1 <| r_target_pool := 3 |> <| r_reassert_version := (0, 0) |>) = Ret req2 /\
    iov_len (m_front (r_request req2)) = 159.
Proof.
  destruct (osd_request_wire_format 12 (example_request (set_object_name example_name)) 0 None (2 ^ 64 - 2) None
              example_ops example_name 77 (Pg 3 0x1234) 3 (0, 0)) as (req1 & req2 & E1 & E2 & Hl & _).
  - apply example_request_ready; vm_compute; congruence.
  - vm_compute. congruence.
  - vm_compute. congruence.
  - exists req1, req2. split; [exact E1|]. split; [exact E2|]. rewrite Hl. vm_compute. reflexivity.
Defined.

(** C39: The attempts at the end of the message have 4 bytes, and
    ceph_osdc_alloc_request makes room for 4; __send_request stores 8.  With a
    name of more than 96 bytes (100 are allowed) the store goes past the end of
    the buffer. *)
Theorem send_request_overruns_front PS req off snapc snap_id mtime ops name epoch pgid tpool ver :
  request_ready req snapc ops name ->
  (has_flag (r_flags req) CEPH_OSD_FLAG_WRITE = true -> mtime <> None) ->
  96 < zlen name ->
  exists req1,
    ceph_osdc_build_request PS true req off snapc snap_id mtime = Ret req1 /\
    fill_request epoch pgid (req1 <| r_target_pool := tpool |> <| r_reassert_version := ver |>) = Fault OutOfBounds.
Proof.
  intros Hr Hm Hn. destruct (build_request_front PS req off snapc snap_id mtime ops name Hr Hm)
    as (req1 & front0 & Ef & Eb & Hfront & _ & _ & Hoffs & _).
  set (req1' := req1 <| r_target_pool := tpool |> <| r_reassert_version := ver |>).
  destruct (fill_request_upto req1' (mtime_bytes (r_flags req) mtime) epoch pgid name
              (zeros 4 ++ zeros (100 - length name)) ops snap_id snapc) as [Efill Hlen].
  - apply length_mtime.
  - change (r_request req1') with (r_request req1). by rewrite Hfront, Ef.
  - rewrite <- Ef. exact Hoffs.
  - exists req1. split; [done|]. fold req1'. rewrite Efill, write_bytes_past; [done|..].
    + rewrite length_app, (Hlen (zeros 12)) by done. lia.
    + rewrite !length_app, (Hlen (zeros 12)), !length_zeros, length_le_bytes by done. lia.
Qed.

Lemma send_request_overruns_front_witness :
  exists req1,
    ceph_osdc_build_request 12 true (example_request (Oid (repeat 97 100) 100)) 0 None (2 ^ 64 - 2) None = Ret req1 /\
    fill_request 77 (Pg 3 0x1234) (req1 <| r_target_pool := 3 |> <| r_reassert_version := (0, 0) |>) = Fault OutOfBounds.
Proof.
  apply (send_request_overruns_front 12 (example_request (Oid (repeat 97 100) 100)) 0 None (2 ^ 64 - 2) None
           example_ops (repeat 97 100)).
  - apply example_request_ready; vm_compute; congruence.
  - vm_compute. congruence.
  - vm_compute. reflexivity.
Defined.
