(* ===== verification/OsdFile.v ===== *)
(** * Requests for the extent of a file

    Properties of ceph_osdc_new_request (net/ceph/osd_client.c): the name of the
    object, the part of the extent that the request covers, the truncation that
    goes with it; and the limits of the message of a request. *)
From stdpp Require Import sets.
From S2P Require Import Prelude.
From S2P Require Import Wire.
From S2P Require Import OsdMap.
From S2P Require Import PgMapping.
From S2P Require Import FileLayout.
From S2P Require Import MsgCursor.
From S2P Require Import Msgr.
From S2P Require Import OsdReq.
From S2P Require Import OsdMsg.

Local Open Scope Z_scope.
Local Open Scope ceph_scope.

(** ** Names of objects *)

(** The value of a string of hexadecimal digits. *)
Definition digit_val (c : Z) : Z := if c <? 58 then c - 48 else c - 87.
Fixpoint hex_val (s : list Z) : Z :=
  match s with
  | [] => 0
  | c :: s => digit_val c * 16 ^ Z.of_nat (length s) + hex_val s
  end.

Lemma hex_digit_val d : 0 <= d < 16 -> digit_val (hex_digit d) = d /\ hex_digit d <> 46.
Proof. intros Hd. unfold hex_digit, digit_val. repeat case_Zb; lia. Qed.

Lemma hex_loop_val fuel : forall n acc,
  0 <= n < 16 ^ Z.of_nat fuel ->
  hex_val (hex_loop fuel n acc) = n * 16 ^ Z.of_nat (length acc) + hex_val acc /\
  ((46 ∉ acc) -> (46 ∉ hex_loop fuel n acc)) /\
  (length (hex_loop fuel n acc) <= fuel + length acc)%nat.
Proof.
  induction fuel as [|fuel IH]; intros n acc Hn.
  { assert (n = 0) as -> by (cbn in Hn; lia). cbn. split; [lia|]. split; [done|lia]. }
  cbn [hex_loop]. pose proof (Z.mod_pos_bound n 16 ltac:(lia)) as Hm.
  destruct (hex_digit_val (n mod 16) Hm) as [Hv Hd].
  rewrite Nat2Z.inj_succ, Z.pow_succ_r in Hn by lia. pose proof (Z.div_mod n 16 ltac:(lia)) as Hdm.
  assert (Hacc : hex_val (hex_digit (n mod 16) :: acc) = n mod 16 * 16 ^ Z.of_nat (length acc) + hex_val acc)
    by (cbn [hex_val]; by rewrite Hv).
  case_Zb.
  - split; [rewrite Hacc; f_equal; f_equal; lia|]. split; [set_solver|cbn; lia].
  - destruct (IH (n / 16) (hex_digit (n mod 16) :: acc)) as (E & Hin & Hl).
    { split; [apply Z.div_pos; lia|apply Z.div_lt_upper_bound; lia]. }
    rewrite E, Hacc. cbn [length] in *. rewrite Nat2Z.inj_succ, Z.pow_succ_r by lia.
    split; [|split; [set_solver|lia]]. nia.
Qed.

Lemma hex_val_pad k s : hex_val (repeat 48 k ++ s) = hex_val s.
Proof. induction k as [|k IH]; [done|]. cbn. rewrite IH. lia. Qed.

Lemma hex_spec n : 0 <= n < 2 ^ 64 ->
  hex_val (hex n) = n /\ (46 ∉ hex n) /\ (length (hex n) <= 16)%nat /\ hex_val (hex08 n) = n /\ (length (hex08 n) <= 16)%nat.
Proof.
  intros Hn. destruct (hex_loop_val 16 n []) as (E & Hin & Hl); [cbn; lia|]. fold (hex n) in *.
  change (16 ^ Z.of_nat (@length Z [])) with 1 in E. change (hex_val []) with 0 in E. change (@length Z []) with 0%nat in Hl.
  split; [lia|]. split; [set_solver|]. split; [lia|]. unfold hex08. rewrite hex_val_pad, length_app, repeat_length.
  split; lia.
Qed.

(** What stands before and after the first dot. *)
Lemma split_dot (a b c d : list Z) : (46 ∉ a) -> (46 ∉ c) -> a ++ [46] ++ b = c ++ [46] ++ d -> a = c /\ b = d.
Proof.
  revert c. induction a as [|x a IH]; intros [|y c] Ha Hc E; cbn in E.
  - by simplify_eq.
  - simplify_eq. set_solver.
  - simplify_eq. set_solver.
  - simplify_eq. destruct (IH c) as [-> ->]; [set_solver..|done|done].
Qed.

Lemma length_object_name ino objnum : 0 <= ino < 2 ^ 64 -> 0 <= objnum < 2 ^ 64 -> (length (object_name ino objnum) <= 33)%nat.
Proof.
  intros Hi Ho. destruct (hex_spec ino Hi) as (_ & _ & H1 & _), (hex_spec objnum Ho) as (_ & _ & _ & _ & H2).
  unfold object_name. rewrite !length_app. cbn [length]. lia.
Qed.

(** Different inodes or different object numbers have different object
    names: the name the request carries determines both. *)
Theorem object_name_injective ino1 objnum1 ino2 objnum2 :
  0 <= ino1 < 2 ^ 64 -> 0 <= objnum1 < 2 ^ 64 -> 0 <= ino2 < 2 ^ 64 -> 0 <= objnum2 < 2 ^ 64 ->
  set_object_name (object_name ino1 objnum1) = set_object_name (object_name ino2 objnum2) ->
  ino1 = ino2 /\ objnum1 = objnum2.
Proof.
  intros Hi1 Ho1 Hi2 Ho2 E.
  destruct (hex_spec ino1 Hi1) as (V1 & D1 & _), (hex_spec ino2 Hi2) as (V2 & D2 & _).
  destruct (hex_spec objnum1 Ho1) as (_ & _ & _ & W1 & _), (hex_spec objnum2 Ho2) as (_ & _ & _ & W2 & _).
  pose proof (length_object_name ino1 objnum1 Hi1 Ho1). pose proof (length_object_name ino2 objnum2 Hi2 Ho2).
  unfold set_object_name in E. rewrite !take_ge in E by (unfold CEPH_MAX_OID_NAME_LEN; lia). injection E as E El.
  apply Nat2Z.inj in El. apply app_inj_1 in E as [E _]; [|done].
  unfold object_name in E. apply split_dot in E as [E1 E2]; [|done|done]. split; congruence.
Qed.

Lemma object_name_injective_witness :
  set_object_name (object_name 0x10000000000 0) = set_object_name (object_name 0x10000000000 0x0) /\
  take 20 (oid_name (set_object_name (object_name 0x10000000000 0))) =
    [49; 48; 48; 48; 48; 48; 48; 48; 48; 48; 48; 46; 48; 48; 48; 48; 48; 48; 48; 48] /\
  0x10000000000 = 2 ^ 40 /\ (0x10000000000 = 0x10000000000 /\ 0 = 0x0).
Proof.
  split; [reflexivity|]. split; [reflexivity|]. split; [reflexivity|].
  apply (object_name_injective 0x10000000000 0 0x10000000000 0x0); [lia..|reflexivity].
Defined.

(** ** Allocation *)
Definition all_ok (n : nat) : bool := true.

Lemma alloc_request_ok po pr snapc num_ops :
  0 <= num_ops <= CEPH_OSD_MAX_OP ->
  exists reply msg,
    m_front msg = Kvec (zeros (Z.to_nat (request_msg_size snapc num_ops))) (request_msg_size snapc num_ops) /\
    ceph_osdc_alloc_request all_ok po pr snapc num_ops false =
      Ret (Some (OsdRequest num_ops (repeat zero_op (Z.to_nat CEPH_OSD_MAX_OP)) 0 msg reply false
                   (-1) no_oid (-1) no_oid 0 None (0, 0) 0 0 0 0 0 0), po, pr).
Proof.
  unfold CEPH_OSD_MAX_OP. intros Hn. unfold ceph_osdc_alloc_request. rewrite u32_small by lia.
  rewrite bug_on_false, bind_Ret_eq by (unfold CEPH_OSD_MAX_OP; lia). cbn [all_ok negb].
  unfold ceph_msg_new. cbn [all_ok negb]. rewrite !andb_false_r. cbv iota. cbn [m_front iov_base iov_len].
  set (size := request_msg_size snapc num_ops).
  pose proof (overwrite [] (zeros (Z.to_nat size)) [] (zeros (Z.to_nat size)) 0 eq_refl eq_refl) as E.
  rewrite !app_nil_r in E. cbn [app] in E. unfold zeros in E. rewrite E, bind_Ret_eq. do 2 eexists. split. 2: reflexivity. reflexivity.
Qed.

Lemma rr_name_ok name : (length name < 100)%nat ->
  let oid := set_object_name name in
  take (Z.to_nat (oid_name_len oid)) (oid_name oid) = name /\ oid_name_len oid = zlen name /\
  length (oid_name oid) = 100%nat.
Proof.
  intros Hl oid. unfold oid, set_object_name. cbn [oid_name oid_name_len].
  rewrite (take_ge name) by (unfold CEPH_MAX_OID_NAME_LEN; lia).
  rewrite Nat2Z.id, take_app_length, length_app, repeat_length. unfold CEPH_MAX_OID_NAME_LEN. split; [done|]. split; lia.
Qed.

(** The operations of a request for an extent: the extent, and a startsync. *)
Definition extent_ops (opcode objoff objlen tsize tseq num_ops : Z) : list ceph_osd_req_op :=
  ReqOp opcode 0 (u32 (if opcode =? CEPH_OSD_OP_WRITE then objlen else 0)) (BodyExtent objoff objlen tsize tseq OsdDataNone) ::
  (if 1 <? num_ops then [ReqOp CEPH_OSD_OP_STARTSYNC 0 0 BodyZero] else []).

Lemma extent_ops_ready opcode off len tsize tseq num_ops :
  1 <= num_ops <= 2 -> is_extent_opcode opcode = true ->
  zlen (extent_ops opcode off len tsize tseq num_ops) = num_ops /\
  Forall op_ready (extent_ops opcode off len tsize tseq num_ops).
Proof.
  intros Hn Hop. unfold extent_ops. destruct (Z.ltb_spec 1 num_ops); (split; [cbn [length]; lia|]).
  - constructor; [done|]. constructor; [by left|constructor].
  - constructor; [done|constructor].
Qed.

Lemma osd_req_op_init_ok req which opcode :
  0 <= which < r_num_ops req -> r_num_ops req <= zlen (r_ops req) -> osd_req_opcode_valid opcode = true ->
  _osd_req_op_init req which opcode = Ret (ReqOp opcode 0 0 BodyZero) /\
  osd_req_op_init req which opcode =
    Ret (req <| r_ops := <[Z.to_nat which := ReqOp opcode 0 0 BodyZero]> (r_ops req) |>).
Proof.
  intros Hw Hn Hv. assert (E : _osd_req_op_init req which opcode = Ret (ReqOp opcode 0 0 BodyZero)).
  { unfold _osd_req_op_init, req_op. rewrite bug_on_false, bind_Ret_eq by lia.
    destruct (rd_total (r_ops req) which) as [o E]; [lia|]. rewrite E, bind_Ret_eq, Hv. done. }
  split; [done|]. unfold osd_req_op_init. rewrite E, bind_Ret_eq, set_req_op_ok by lia. done.
Qed.

Lemma osd_req_op_extent_init_ok req which opcode off len tsize tseq :
  0 <= which < r_num_ops req -> r_num_ops req <= zlen (r_ops req) -> is_extent_opcode opcode = true ->
  osd_req_op_extent_init req which opcode off len tsize tseq =
    Ret (req <| r_ops := <[Z.to_nat which := ReqOp opcode 0 (u32 (if opcode =? CEPH_OSD_OP_WRITE then len else 0))
                             (BodyExtent off len tsize tseq OsdDataNone)]> (r_ops req) |>).
Proof.
  intros Hw Hn Ho. destruct (is_extent_valid opcode Ho) as [Hv _]. unfold osd_req_op_extent_init.
  destruct (osd_req_op_init_ok req which opcode Hw Hn Hv) as [-> _]. rewrite bind_Ret_eq, Ho. cbn [negb bug_on].
  rewrite bind_Ret_eq, set_req_op_ok by lia. done.
Qed.

Section Layout.
Context (PAGE_SHIFT : Z) (l : ceph_file_layout) (Hl : layout_ok l)
  (Hpage : Z.land (fl_stripe_unit l) (2 ^ PAGE_SHIFT - 1) = 0).

Lemma calc_layout_ok off len :
  0 <= off -> off / fl_stripe_unit l < 2 ^ 32 -> 0 < len ->
  exists ono oxoff oxlen,
    calc_layout PAGE_SHIFT l off len = (0, oxlen, (ono, oxoff, oxlen)) /\
    ceph_calc_file_object_mapping PAGE_SHIFT l off len = (0, (ono, oxoff, oxlen)) /\
    0 <= ono < 2 ^ 64 /\ 0 < oxlen <= len /\
    (forall d, 0 <= d < oxlen -> file_offset l ono (oxoff + d) = off + d).
Proof.
  intros Hoff Hb Hlen. pose proof Hl as [Hsu Hsc Hos]. destruct (spo_pos l Hl) as [Hspo Hos'].
  unfold calc_layout. rewrite mapping_eq by done. cbn [Z.ltb Z.compare].
  set (su := fl_stripe_unit l) in *. set (sc := fl_stripe_count l) in *.
  pose proof (Z.mod_pos_bound off su ltac:(lia)). pose proof (Z.mod_pos_bound (off / su) sc ltac:(lia)).
  assert (0 <= off / su / sc / su_per_object l) by (repeat apply Z.div_pos; lia).
  assert (off / su / sc / su_per_object l * sc <= off / su).
  { transitivity (off / su / sc * sc); [|rewrite Z.mul_comm; apply Z.mul_div_le; lia].
    apply Z.mul_le_mono_nonneg_r; [lia|]. apply Z.div_le_upper_bound; [lia|].
    assert (0 <= off / su / sc) by (repeat apply Z.div_pos; lia). nia. }
  do 3 eexists. split; [|split; [done|]].
  - case_Zb; [done|]. do 2 f_equal. lia.
  - split; [lia|]. split; [lia|]. intros d Hd.
    by destruct (mapping_byte l Hl off d Hoff Hb ltac:(lia) ltac:(fold su; lia)) as (_ & _ & ?).
Qed.


(** C27: With a stripe count of 1, the truncation size that goes with a request
    keeps the bytes of the object that are below the new size of the file, and
    no others. *)
Theorem new_request_truncates_exactly off plen tseq tsize ono oxoff oxlen x :
  fl_stripe_count l = 1 -> fl_object_size l mod fl_stripe_unit l = 0 ->
  0 <= off < 2 ^ 64 -> off / fl_stripe_unit l < 2 ^ 32 -> 0 < plen -> 0 <= tsize < 2 ^ 64 - 1 ->
  ceph_calc_file_object_mapping PAGE_SHIFT l off plen = (0, (ono, oxoff, oxlen)) ->
  0 <= x < fl_object_size l ->
  x < object_truncate_size l off oxoff tseq tsize <-> file_offset l ono x < tsize.
Proof.
  intros Hsc1 Hmod Hoff Hb Hlen Hts Em Hx. pose proof Hl as [Hsu Hsc Hos]. destruct (spo_pos l Hl) as [Hspo _].
  rewrite mapping_eq in Em by (done || lia). cbn zeta in Em.
  set (su := fl_stripe_unit l) in *. rewrite Hsc1 in Em. set (spo := su_per_object l) in *.
  rewrite Z.div_1_r, Z.mod_1_r, Z.mul_1_r, Z.add_0_r in Em. injection Em as Eo Ex _.
  assert (Hos' : fl_object_size l = su * spo) by (unfold spo, su_per_object; fold su; apply Z.div_exact; [lia|done]).
  assert (Hbase : off = ono * fl_object_size l + oxoff).
  { pose proof (Z.div_mod off su ltac:(lia)). pose proof (Z.div_mod (off / su) spo ltac:(lia)). rewrite Hos'. nia. }
  assert (Hfo : file_offset l ono x = ono * fl_object_size l + x).
  { unfold file_offset. fold su. fold spo. rewrite Hsc1, Z.div_1_r, Z.mod_1_r.
    pose proof (Z.div_mod x su ltac:(lia)). rewrite Hos'. nia. }
  assert (0 <= ono) by (subst ono; repeat apply Z.div_pos; lia).
  assert (0 <= oxoff) by (subst oxoff; pose proof (Z.mod_pos_bound off su); pose proof (Z.mod_pos_bound (off / su) spo); nia).
  unfold object_truncate_size. rewrite Hfo. replace (off - oxoff) with (ono * fl_object_size l) by lia.
  rewrite u64_small by nia. rewrite (proj2 (Z.eqb_neq tsize (2 ^ 64 - 1))), andb_false_r by lia.
  repeat case_Zb; lia.
Qed.
End Layout.


Definition plain_layout : ceph_file_layout := Layout 0x400000 1 0x400000.

Lemma new_request_truncates_exactly_witness :
  object_truncate_size plain_layout 0x500000 0x100000 2 0x600000 = 0x200000 /\
  (0x1fffff < object_truncate_size plain_layout 0x500000 0x100000 2 0x600000 <->
   file_offset plain_layout 1 0x1fffff < 0x600000).
Proof.
  split; [reflexivity|].
  apply (new_request_truncates_exactly 12 plain_layout ltac:(split; vm_compute; split; congruence) eq_refl
           0x500000 0x1000 2 0x600000 1 0x100000 0x1000 0x1fffff);
    [reflexivity|reflexivity|lia|reflexivity|lia|lia|reflexivity|cbn; lia].
Defined.

(** ** Limits *)

(** With several objects per stripe, object_base is not the offset of the
    object: two requests for the same object carry different truncation sizes,
    and the first one lets the object keep bytes past the end of the file. *)
Theorem truncate_size_striped :
  let l := example_layout in
  let size := 0x30000 in
  (ceph_calc_file_object_mapping 12 l 0 0x1000, ceph_calc_file_object_mapping 12 l 0x30000 0x1000) =
    ((0, (0, 0, 0x1000)), (0, (0, 0x10000, 0x1000))) /\
  (object_truncate_size l 0 0 2 size, object_truncate_size l 0x30000 0x10000 2 size) = (0x30000, 0x10000) /\
  file_offset l 0 0x2ffff >= size.
Proof. split; [reflexivity|]. split; [reflexivity|]. vm_compute. congruence. Qed.

(** A request from the pool has a front of 4096 bytes whatever the snapshots:
    with many of them the message does not fit. *)
Theorem mempool_request_overruns :
  let snapc := Some (SnapContext 1 500 (repeat 7 500)) in
  let run mempool :=
    '(req, _) ← ceph_osdc_new_request 12 all_ok example_pool example_pool plain_layout 3 0x10000000000 0 4096 1
                  CEPH_OSD_OP_READ CEPH_OSD_FLAG_READ snapc 1 0x1000 mempool;
    ceph_osdc_build_request 12 true req 0 snapc (2 ^ 64 - 2) None in
  run true = Fault OutOfBounds /\ exists req, run false = Ret req.
Proof. split; [vm_compute; reflexivity|]. eexists. vm_compute. reflexivity. Qed.

(** The lengths in a redirect are checked against the end of the message, but
    the fields inside are read without a check: a redirect that says its object
    locator has no bytes is read past the end of the message. *)
Definition short_redirect : list Z := [1; 1; 6; 0; 0; 0; 3; 3; 0; 0; 0; 0].

Theorem redirect_decode_overreads :
  fst (ceph_redirect_decode short_redirect 12 (Dst 0 0%nat tt)) = Fault OutOfBounds.
Proof. reflexivity. Qed.
