(* ===== verification/OsdClient.v ===== *)
(** * The OSD client

    Models the bookkeeping of net/ceph/osd_client.c once a request is built: the
    registry of requests by transaction id, the sessions with the OSDs, the
    lists a request moves between (unsent, in flight, without target,
    lingering), and the handlers: ceph_osdc_start_request, cancel, handle_reply,
    osd_reset, handle_timeout, ceph_osdc_handle_map.

    A request has an address, its key in [oc_reqs]; a request that was freed is
    not there, and using it is a fault.  Sessions are kept by OSD number, as in
    osdc->osds; [r_osd] is that number.  An intrusive list is a list of
    addresses; unlinking an item that is in no list changes nothing.  What the
    client asks of the messenger, of the monitor client and of its callers is
    appended to [oc_log].  The fsid is that of
    the ceph_client.  The handlers run under request_mutex, one after the
    other; map_sem shows in the log where ceph_osdc_handle_map takes and
    releases it. *)
From stdpp Require Import gmap sorting.
From S2P Require Import Prelude.
From S2P Require Import Wire.
From S2P Require Import RbTree.
From S2P Require Import OsdMap.
From S2P Require Import OsdMapDecode.
From S2P Require Import PgMapping.
From S2P Require Import MsgCursor.
From S2P Require Import Msgr.
From S2P Require Import OsdReq.

Declare Scope osdc_scope.
Delimit Scope osdc_scope with osdc.
Local Open Scope Z_scope.
Local Open Scope ceph_scope.

(** ** State *)
Record osd_request := OReq {
  q_req : ceph_osd_request;
  q_tid : Z;
  q_osd : option Z;
  q_pgid : ceph_pg;
  q_pg_osds : list Z;
  q_num_pg_osds : Z;
  q_sent : Z;
  q_paused : bool;
  q_result : Z;
  q_reply_op_len : list Z;
  q_reply_op_result : list Z;
  q_got_reply : bool;
  q_linger : bool;
  q_kref : Z;
  q_callback : bool;
  q_unsafe_callback : bool;
  q_stamp : Z }.
#[global] Instance osd_request_eta : Eta osd_request := fun q =>
  OReq (q_req q) (q_tid q) (q_osd q) (q_pgid q) (q_pg_osds q) (q_num_pg_osds q) (q_sent q) (q_paused q) (q_result q)
    (q_reply_op_len q) (q_reply_op_result q) (q_got_reply q) (q_linger q) (q_kref q) (q_callback q)
    (q_unsafe_callback q) (q_stamp q).

(** struct ceph_osd; of its connection, the peer address and whether the peer
    ever answered (ceph_con_opened). *)
Record ceph_osd := Osd {
  o_ref : Z;
  o_incarnation : Z;
  o_requests : list nat;
  o_linger_requests : list nat;
  o_peer_addr : list Z;
  o_opened : bool;
  o_authorizer : bool;
  o_lru_ttl : Z }.
#[global] Instance ceph_osd_eta : Eta ceph_osd := fun o =>
  Osd (o_ref o) (o_incarnation o) (o_requests o) (o_linger_requests o) (o_peer_addr o) (o_opened o) (o_authorizer o)
    (o_lru_ttl o).

Inductive effect : Type :=
  | ConOpen (osd : Z) (addr : list Z)
  | ConClose (osd : Z)
  | ConSend (osd : Z) (req : nat) (tid : Z) (front : list Z)
  | ConKeepalive (osd : Z)
  | MsgRevoke (req : nat)
  | MsgRevokeIncoming (req : nat)
  | OsdFreed (osd : Z)
  | ReqFreed (req : nat)
  | TimeoutScheduled
  | TimeoutCancelled
  | RequestNextMap
  | GotMap (epoch : Z)
  | Callback (req : nat)
  | UnsafeCallback (req : nat) (unsafe : bool)
  | Complete (req : nat)
  | CompleteSafe (req : nat)
  | Corrupt
  | DownWrite | DowngradeWrite | UpRead | UpWrite.

Record osd_client := OsdClient {
  oc_map : option ceph_osdmap;
  oc_osds : gmap Z ceph_osd;
  oc_osd_lru : list Z;
  oc_last_tid : Z;
  oc_reqs : gmap nat osd_request;
  oc_requests : list (Z * nat);
  oc_req_lru : list nat;
  oc_req_unsent : list nat;
  oc_req_notarget : list nat;
  oc_req_linger : list nat;
  oc_num_requests : Z;
  oc_jiffies : Z;
  oc_have_fsid : bool;
  oc_fsid : list Z;
  oc_log : list effect }.
#[global] Instance osd_client_eta : Eta osd_client := fun c =>
  OsdClient (oc_map c) (oc_osds c) (oc_osd_lru c) (oc_last_tid c) (oc_reqs c) (oc_requests c) (oc_req_lru c)
    (oc_req_unsent c) (oc_req_notarget c) (oc_req_linger c) (oc_num_requests c) (oc_jiffies c)
    (oc_have_fsid c) (oc_fsid c) (oc_log c).

(** ** A monad of the client's state *)
Definition OM (A : Type) : Type := osd_client -> outcome (A * osd_client).
Definition oret {A} (a : A) : OM A := fun c => Ret (a, c).
Definition obnd {A B} (m : OM A) (k : A -> OM B) : OM B := fun c => '(a, c) ← m c; k a c.
Definition ofault {A} (f : fault) : OM A := fun _ => Fault f.
Definition olift {A} (o : outcome A) : OM A := fun c => a ← o; Ret (a, c).
Definition get_client : OM osd_client := fun c => Ret (c, c).
Definition modify (f : osd_client -> osd_client) : OM unit := fun c => Ret (tt, f c).

Notation "x ⟸ m ; k" := (obnd m (fun x => k)) (at level 20, m at level 100, k at level 200, right associativity) : osdc_scope.
Notation "' p ⟸ m ; k" := (obnd m (fun x => match x with p => k end))
  (at level 20, p pattern, m at level 100, k at level 200, right associativity) : osdc_scope.
Local Open Scope osdc_scope.

Fixpoint for_each {A} (l : list A) (f : A -> OM unit) : OM unit :=
  match l with
  | [] => oret tt
  | x :: l => _ ⟸ f x; for_each l f
  end.

Definition emit (e : effect) : OM unit := modify (fun c => c <| oc_log ::= fun l => l ++ [e] |>).

Definition get_req (q : nat) : OM osd_request := fun c => r ← deref (oc_reqs c !! q); Ret (r, c).
Definition mod_req (q : nat) (f : osd_request -> osd_request) : OM unit :=
  r ⟸ get_req q; modify (fun c => c <| oc_reqs ::= insert q (f r) |>).
Definition get_osd_ (o : Z) : OM ceph_osd := fun c => x ← deref (oc_osds c !! o); Ret (x, c).
Definition mod_osd (o : Z) (f : ceph_osd -> ceph_osd) : OM unit :=
  x ⟸ get_osd_ o; modify (fun c => c <| oc_osds ::= insert o (f x) |>).

(** ** Lists *)
Definition rem {A} `{EqDecision A} (x : A) (l : list A) : list A := filter (fun y => y <> x) l.
Definition mem {A} `{EqDecision A} (x : A) (l : list A) : bool := bool_decide (x ∈ l).

(** list_del_init(&req->r_req_lru_item): the item is in one of the three lists,
    or in none *)
Definition lru_item_del (q : nat) : OM unit :=
  modify (fun c => c <| oc_req_lru ::= rem q |> <| oc_req_unsent ::= rem q |> <| oc_req_notarget ::= rem q |>).
(** list_move_tail and list_move of the item *)
Definition to_req_lru (q : nat) : OM unit := _ ⟸ lru_item_del q; modify (fun c => c <| oc_req_lru ::= fun l => l ++ [q] |>).
Definition to_req_unsent (q : nat) : OM unit :=
  _ ⟸ lru_item_del q; modify (fun c => c <| oc_req_unsent ::= fun l => l ++ [q] |>).
Definition to_req_notarget (q : nat) : OM unit :=
  _ ⟸ lru_item_del q; modify (fun c => c <| oc_req_notarget ::= fun l => l ++ [q] |>).
Definition to_req_notarget_head (q : nat) : OM unit :=
  _ ⟸ lru_item_del q; modify (fun c => c <| oc_req_notarget ::= cons q |>).

(** r_osd_item and r_linger_osd_item *)
Definition on_osd (q : nat) (c : osd_client) : bool :=
  existsb (fun '(_, o) => mem q (o_requests o)) (map_to_list (oc_osds c)).
Definition on_linger_osd (q : nat) (c : osd_client) : bool :=
  existsb (fun '(_, o) => mem q (o_linger_requests o)) (map_to_list (oc_osds c)).
Definition osd_item_del (q : nat) : OM unit :=
  modify (fun c => c <| oc_osds ::= fmap (fun o : ceph_osd => o <| o_requests ::= rem q |>) |>).
Definition linger_osd_item_del (q : nat) : OM unit :=
  modify (fun c => c <| oc_osds ::= fmap (fun o : ceph_osd => o <| o_linger_requests ::= rem q |>) |>).

(** list_add_tail of an item that is already in a list corrupts both lists. *)
Definition osd_item_add (q : nat) (o : Z) : OM unit :=
  c ⟸ get_client;
  if on_osd q c then ofault BugOn else mod_osd o (fun x => x <| o_requests ::= fun l => l ++ [q] |>).
Definition linger_osd_item_add (q : nat) (o : Z) : OM unit :=
  c ⟸ get_client;
  if on_linger_osd q c then ofault BugOn else mod_osd o (fun x => x <| o_linger_requests ::= fun l => l ++ [q] |>).

(** ** Requests *)
Definition ceph_osdc_get_request (q : nat) : OM unit := mod_req q (fun r => r <| q_kref ::= Z.succ |>).

(** kref_put; ceph_osdc_release_request frees the request, its messages and its
    snapshot context *)
Definition ceph_osdc_put_request (q : nat) : OM unit :=
  r ⟸ get_req q;
  if q_kref r - 1 =? 0
  then _ ⟸ modify (fun c => c <| oc_reqs ::= delete q |>); _ ⟸ emit (MsgRevokeIncoming q); emit (ReqFreed q)
  else modify (fun c => c <| oc_reqs ::= insert q (r <| q_kref ::= Z.pred |>) |>).

(** The tree of requests, as the list of its entries in order. *)
Fixpoint insert_entry (tid : Z) (q : nat) (l : list (Z * nat)) : outcome (list (Z * nat)) :=
  match l with
  | [] => Ret [(tid, q)]
  | (t, x) :: l' =>
      if tid <? t then Ret ((tid, q) :: l)
      else if t <? tid then l' ← insert_entry tid q l'; Ret ((t, x) :: l')
      else Fault BugOn
  end.

Definition __insert_request (q : nat) : OM unit :=
  r ⟸ get_req q;
  c ⟸ get_client;
  l ⟸ olift (insert_entry (q_tid r) q (oc_requests c));
  modify (fun c => c <| oc_requests := l |>).

Definition __lookup_request (c : osd_client) (tid : Z) : option nat :=
  snd <$> List.find (fun '(t, _) => t =? tid) (oc_requests c).
Definition __lookup_request_ge (c : osd_client) (tid : Z) : option nat :=
  snd <$> List.find (fun '(t, _) => tid <=? t) (oc_requests c).

(** !RB_EMPTY_NODE(&req->r_node) *)
Definition registered (q : nat) (c : osd_client) : bool := mem q (snd <$> oc_requests c).

(** ** Sessions *)
Section Client.
Context (osd_idle_ttl osd_keepalive_timeout HZ : Z).

Definition create_osd : ceph_osd := Osd 1 1 [] [] [] false false 0.

(** atomic_inc_not_zero *)
Definition get_osd (o : Z) : OM bool :=
  x ⟸ get_osd_ o;
  if o_ref x =? 0 then oret false else _ ⟸ mod_osd o (fun x => x <| o_ref ::= Z.succ |>); oret true.

(** The session has been taken out of the tree: [x] is what is left of it. *)
Definition put_osd (o : Z) (x : ceph_osd) : OM unit :=
  if (o_ref x - 1 =? 0) && o_authorizer x then emit (OsdFreed o) else oret tt.

Definition __remove_osd (o : Z) : OM unit :=
  x ⟸ get_osd_ o;
  _ ⟸ modify (fun c => c <| oc_osds ::= delete o |> <| oc_osd_lru ::= rem o |>);
  _ ⟸ emit (ConClose o);
  put_osd o x.

Definition sorted_osds (c : osd_client) : list Z := merge_sort Z.le (fst <$> map_to_list (oc_osds c)).

Definition remove_all_osds : OM unit := c ⟸ get_client; for_each (sorted_osds c) __remove_osd.

Definition __move_osd_to_lru (o : Z) : OM unit :=
  c ⟸ get_client;
  if mem o (oc_osd_lru c) then ofault BugOn
  else
    _ ⟸ modify (fun c => c <| oc_osd_lru ::= fun l => l ++ [o] |>);
    mod_osd o (fun x => x <| o_lru_ttl := u64 (oc_jiffies c + osd_idle_ttl * HZ) |>).

Definition is_nil {A} (l : list A) : bool := match l with [] => true | _ => false end.

Definition maybe_move_osd_to_lru (o : Z) : OM unit :=
  x ⟸ get_osd_ o;
  if is_nil (o_requests x) && is_nil (o_linger_requests x) then __move_osd_to_lru o else oret tt.

Definition __remove_osd_from_lru (o : Z) : OM unit := modify (fun c => c <| oc_osd_lru ::= rem o |>).

Definition time_before (a b : Z) : bool := s64 (a - b) <? 0.

(** The loop stops at the first session that is not old. *)
Fixpoint remove_old (l : list Z) : OM unit :=
  match l with
  | [] => oret tt
  | o :: l =>
      c ⟸ get_client;
      x ⟸ get_osd_ o;
      if time_before (oc_jiffies c) (o_lru_ttl x) then oret tt else _ ⟸ __remove_osd o; remove_old l
  end.
Definition remove_old_osds : OM unit := c ⟸ get_client; remove_old (oc_osd_lru c).

(** osdc->osdmap->osd_addr[o] *)
Definition osd_addr (o : Z) : OM (list Z) :=
  c ⟸ get_client; map ⟸ olift (deref (oc_map c)); olift (rd (om_osd_addr map) o).

Definition osd_con_open (o : Z) (addr : list Z) : OM unit :=
  _ ⟸ mod_osd o (fun x => x <| o_peer_addr := addr |> <| o_opened := false |>); emit (ConOpen o addr).
Definition osd_con_close (o : Z) : OM unit := _ ⟸ mod_osd o (fun x => x <| o_opened := false |>); emit (ConClose o).

Definition ENODEV : Z := 19.
Definition EAGAIN : Z := 11.

Definition __reset_osd (o : Z) : OM Z :=
  x ⟸ get_osd_ o;
  if is_nil (o_requests x) && is_nil (o_linger_requests x) then _ ⟸ __remove_osd o; oret (- ENODEV)
  else
    addr ⟸ osd_addr o;
    if bool_decide (addr = o_peer_addr x) && negb (o_opened x) then
      c ⟸ get_client;
      _ ⟸ for_each (o_requests x) (fun q => mod_req q (fun r => r <| q_stamp := oc_jiffies c |>));
      oret (- EAGAIN)
    else
      _ ⟸ osd_con_close o;
      _ ⟸ osd_con_open o addr;
      _ ⟸ mod_osd o (fun x => x <| o_incarnation ::= fun i => s32 (i + 1) |>);
      oret 0.

Definition __insert_osd (o : Z) (x : ceph_osd) : OM unit :=
  c ⟸ get_client;
  match oc_osds c !! o with
  | Some _ => ofault BugOn
  | None => modify (fun c => c <| oc_osds ::= insert o x |>)
  end.
Definition __lookup_osd (c : osd_client) (o : Z) : option ceph_osd := oc_osds c !! o.

(** ** Registering *)
Definition __register_request (q : nat) : OM unit :=
  _ ⟸ modify (fun c => c <| oc_last_tid ::= fun t => u64 (t + 1) |>);
  c ⟸ get_client;
  let tid := oc_last_tid c in
  _ ⟸ mod_req q (fun r => r <| q_tid := tid |>
                            <| q_req ::= fun x => x <| r_request ::= fun m => m <| m_hdr ::= fun h => h <| h_tid := tid |> |> |> |>);
  _ ⟸ __insert_request q;
  _ ⟸ ceph_osdc_get_request q;
  _ ⟸ modify (fun c => c <| oc_num_requests ::= Z.succ |>);
  if oc_num_requests c + 1 =? 1 then emit TimeoutScheduled else oret tt.

Definition __unregister_request (q : nat) : OM unit :=
  c ⟸ get_client;
  if negb (registered q c) then oret tt
  else
    _ ⟸ modify (fun c => c <| oc_requests ::= filter (fun e => e.2 <> q) |> <| oc_num_requests ::= Z.pred |>);
    r ⟸ get_req q;
    _ ⟸ match q_osd r with
        | None => oret tt
        | Some o =>
            _ ⟸ emit (MsgRevoke q);
            _ ⟸ osd_item_del q;
            _ ⟸ maybe_move_osd_to_lru o;
            c ⟸ get_client;
            if on_linger_osd q c then oret tt else mod_req q (fun r => r <| q_osd := None |>)
        end;
    _ ⟸ lru_item_del q;
    _ ⟸ ceph_osdc_put_request q;
    if oc_num_requests c - 1 =? 0 then emit TimeoutCancelled else oret tt.

Definition __cancel_request (q : nat) : OM unit :=
  r ⟸ get_req q;
  if negb (q_sent r =? 0) && bool_decide (is_Some (q_osd r))
  then _ ⟸ emit (MsgRevoke q); mod_req q (fun r => r <| q_sent := 0 |>)
  else oret tt.

Definition __register_linger_request (q : nat) : OM unit :=
  _ ⟸ ceph_osdc_get_request q;
  _ ⟸ modify (fun c => c <| oc_req_linger ::= fun l => l ++ [q] |>);
  r ⟸ get_req q;
  match q_osd r with Some o => linger_osd_item_add q o | None => oret tt end.

Definition __unregister_linger_request (q : nat) : OM unit :=
  c ⟸ get_client;
  if negb (mem q (oc_req_linger c)) then oret tt
  else
    _ ⟸ modify (fun c => c <| oc_req_linger ::= rem q |>);
    r ⟸ get_req q;
    _ ⟸ match q_osd r with
        | None => oret tt
        | Some o =>
            _ ⟸ linger_osd_item_del q;
            _ ⟸ maybe_move_osd_to_lru o;
            c ⟸ get_client;
            if on_osd q c then oret tt else mod_req q (fun r => r <| q_osd := None |>)
        end;
    _ ⟸ lru_item_del q;
    ceph_osdc_put_request q.

Definition ceph_osdc_set_request_linger (q : nat) : OM unit :=
  mod_req q (fun r => if negb (q_linger r) then r <| q_linger := true |> else r).

(** ** Mapping *)
Context `{RbOps} (scratch : list Z) (fuel : nat) (garbage : list Z).

Definition CEPH_OSDMAP_FULL : Z := 2.
Definition CEPH_OSDMAP_PAUSERD : Z := 4.
Definition CEPH_OSDMAP_PAUSEWR : Z := 8.

Definition __req_should_be_paused (c : osd_client) (r : osd_request) : bool :=
  let pauserd := ceph_osdmap_flag (oc_map c) CEPH_OSDMAP_PAUSERD in
  let pausewr := ceph_osdmap_flag (oc_map c) CEPH_OSDMAP_PAUSEWR || ceph_osdmap_flag (oc_map c) CEPH_OSDMAP_FULL in
  has_flag (r_flags (q_req r)) CEPH_OSD_FLAG_READ && pauserd || has_flag (r_flags (q_req r)) CEPH_OSD_FLAG_WRITE && pausewr.

(** The target is the base unless it was set; whether to look at the tiers. *)
Definition set_target (x : ceph_osd_request) : outcome (ceph_osd_request * bool) :=
  let check := r_target_pool x =? -1 in
  let x := if check then x <| r_target_pool := r_base_pool x |> else x in
  if oid_name_len (r_target_oid x) =? 0
  then oid ← ceph_oid_copy (r_target_oid x) (r_base_oid x); Ret (x <| r_target_oid := oid |>, true)
  else Ret (x, check).

(** The cache tier of the target pool. *)
Definition set_tier (map : ceph_osdmap) (x : ceph_osd_request) : ceph_osd_request :=
  match ceph_pg_pool_by_id map (r_target_pool x) with
  | None => x
  | Some pi =>
      let x := if has_flag (r_flags x) CEPH_OSD_FLAG_READ && (0 <=? pi_read_tier pi)
               then x <| r_target_pool := pi_read_tier pi |> else x in
      if has_flag (r_flags x) CEPH_OSD_FLAG_WRITE && (0 <=? pi_write_tier pi)
      then x <| r_target_pool := pi_write_tier pi |> else x
  end.

(** The request, with its target, and the placement group or an error. *)
Definition __calc_request_pg (map : ceph_osdmap) (x : ceph_osd_request) : outcome (ceph_osd_request * (ceph_pg + Z)) :=
  '(x, check) ← set_target x;
  let x := if check && negb (has_flag (r_flags x) CEPH_OSD_FLAG_IGNORE_OVERLAY) then set_tier map x else x in
  match ceph_oloc_oid_to_pg map (r_target_pool x) (r_target_oid x) with
  | Ret pg => Ret (x, inl pg)
  | Err e => Ret (x, inr (- e))
  | Fault f => Fault f
  end.

(** The acting set, its length, its primary, and the map. *)
Definition calc_acting (map : ceph_osdmap) (pgid : ceph_pg) : outcome (list Z * Z * Z * ceph_osdmap) :=
  match ceph_calc_pg_acting map scratch fuel pgid garbage with
  | Ret (acting, num, o, map) => Ret (acting, num, o, map)
  | Err e => Ret (garbage, - e, -1, map)
  | Fault f => Fault f
  end.

Definition __enqueue_request (q : nat) : OM unit :=
  r ⟸ get_req q;
  match q_osd r with
  | Some o => _ ⟸ __remove_osd_from_lru o; _ ⟸ osd_item_add q o; to_req_unsent q
  | None => to_req_notarget q
  end.

(** The end of __map_request: the request leaves its session for that of [o].
    [osd_ok]: the memory for a session could be allocated *)
Definition move_request (osd_ok : bool) (q : nat) (o : Z) : OM Z :=
  r ⟸ get_req q;
  _ ⟸ (if bool_decide (is_Some (q_osd r)) then
         _ ⟸ __cancel_request q;
         _ ⟸ osd_item_del q;
         _ ⟸ linger_osd_item_del q;
         mod_req q (fun r => r <| q_osd := None |>)
       else oret tt);
  c ⟸ get_client;
  match __lookup_osd c o with
  | Some _ => _ ⟸ mod_req q (fun r => r <| q_osd := Some o |>); _ ⟸ __enqueue_request q; oret 1
  | None =>
      if o <? 0 then _ ⟸ __enqueue_request q; oret 1
      else if negb osd_ok then _ ⟸ to_req_notarget_head q; oret (- ENOMEM)
      else
        _ ⟸ mod_req q (fun r => r <| q_osd := Some o |>);
        _ ⟸ __insert_osd o create_osd;
        addr ⟸ osd_addr o;
        _ ⟸ osd_con_open o addr;
        _ ⟸ __enqueue_request q; oret 1
  end.

Definition __map_request (osd_ok : bool) (q : nat) (force_resend : bool) : OM Z :=
  c ⟸ get_client;
  map ⟸ olift (deref (oc_map c));
  r ⟸ get_req q;
  '(x, pg) ⟸ olift (__calc_request_pg map (q_req r));
  _ ⟸ mod_req q (fun r => r <| q_req := x |>);
  match pg with
  | inr err => _ ⟸ to_req_notarget_head q; oret err
  | inl pgid =>
      _ ⟸ mod_req q (fun r => r <| q_pgid := pgid |>);
      '(acting, num, o, map) ⟸ olift (calc_acting map pgid);
      _ ⟸ modify (fun c => c <| oc_map := Some map |>);
      let num := if num <? 0 then 0 else num in
      r ⟸ get_req q;
      let was_paused := q_paused r in
      let paused := __req_should_be_paused c r in
      _ ⟸ mod_req q (fun r => r <| q_paused := paused |>);
      let force_resend := force_resend || was_paused && negb paused in
      same ⟸ (if negb force_resend && bool_decide (q_osd r = Some o) then
                x ⟸ get_osd_ o;
                oret ((u32 (o_incarnation x) <=? q_sent r) && (q_num_pg_osds r =? num) &&
                      bool_decide (take (Z.to_nat num) (q_pg_osds r) = take (Z.to_nat num) acting))
              else oret false);
      if same || (bool_decide (q_osd r = None) && (o =? -1)) || paused
      then oret 0
      else
        _ ⟸ mod_req q (fun r => r <| q_pg_osds := take (Z.to_nat num) acting ++ drop (Z.to_nat num) (q_pg_osds r) |>
                                  <| q_num_pg_osds := num |>);
        move_request osd_ok q o
  end.

(** ** Sending *)
Definition __send_request (q : nat) : OM unit :=
  c ⟸ get_client;
  map ⟸ olift (deref (oc_map c));
  r ⟸ get_req q;
  o ⟸ olift (deref (q_osd r));
  x ⟸ olift (fill_request (om_epoch map) (q_pgid r) (q_req r));
  _ ⟸ mod_req q (fun r => r <| q_req := x |> <| q_stamp := oc_jiffies c |>);
  _ ⟸ to_req_lru q;
  osd ⟸ get_osd_ o;
  _ ⟸ mod_req q (fun r => r <| q_sent := u32 (o_incarnation osd) |>
                            <| q_req ::= fun x => x <| r_request ::= fun m => m <| m_kref ::= Z.succ |> |> |>);
  emit (ConSend o q (q_tid r) (take (Z.to_nat (iov_len (m_front (r_request x)))) (iov_base (m_front (r_request x))))).

Definition __send_queued : OM unit := c ⟸ get_client; for_each (oc_req_unsent c) __send_request.

Definition __ceph_osdc_start_request (osd_ok : bool) (q : nat) (nofail : bool) : OM Z :=
  _ ⟸ __register_request q;
  _ ⟸ mod_req q (fun r => r <| q_sent := 0 |> <| q_got_reply := false |>);
  rc ⟸ __map_request osd_ok q false;
  if rc <? 0 then
    if nofail then oret 0 else _ ⟸ __unregister_request q; oret rc
  else
    r ⟸ get_req q;
    match q_osd r with
    | None => _ ⟸ emit RequestNextMap; oret 0
    | Some _ => _ ⟸ __send_queued; oret 0
    end.

Definition ceph_osdc_start_request (osd_ok : bool) (q : nat) (nofail : bool) : OM Z :=
  __ceph_osdc_start_request osd_ok q nofail.

Definition ceph_osdc_cancel_request (q : nat) : OM unit :=
  r ⟸ get_req q;
  _ ⟸ (if q_linger r then __unregister_linger_request q else oret tt);
  __unregister_request q.

Definition complete_request (q : nat) : OM unit := emit (CompleteSafe q).

(** [interrupted]: the result of wait_for_completion_interruptible, 0 or an error *)
Definition ceph_osdc_wait_request (interrupted : Z) (q : nat) : OM Z :=
  if interrupted <? 0 then _ ⟸ ceph_osdc_cancel_request q; _ ⟸ complete_request q; oret interrupted
  else r ⟸ get_req q; oret (q_result r).

(** ** Resets *)
Definition __kick_linger_request (q : nat) : OM unit :=
  r ⟸ get_req q;
  _ ⟸ ceph_osdc_get_request q;
  c ⟸ get_client;
  _ ⟸ (if mem q (oc_req_linger c) then __unregister_linger_request q else __unregister_request q);
  _ ⟸ __register_request q;
  _ ⟸ ceph_osdc_put_request q;
  _ ⟸ mod_req q (fun x => x <| q_osd := q_osd r |>);
  __enqueue_request q.

(** The requests of the session that were sent, in order, up to the first that
    was not: those to resend, and the lingering ones. *)
Fixpoint collect_sent (l resend resend_linger : list nat) : OM (list nat * list nat) :=
  match l with
  | [] => oret (resend, resend_linger)
  | q :: l =>
      r ⟸ get_req q;
      if q_sent r =? 0 then oret (resend, resend_linger)
      else
        _ ⟸ lru_item_del q;
        if negb (q_linger r) then
          _ ⟸ mod_req q (fun r => r <| q_req ::= fun x => x <| r_flags ::= fun f => Z.lor f CEPH_OSD_FLAG_RETRY |> |>);
          collect_sent l (resend ++ [q]) resend_linger
        else collect_sent l resend (resend_linger ++ [q])
  end.

Definition __kick_osd_requests (o : Z) : OM unit :=
  err ⟸ __reset_osd o;
  if negb (err =? 0) then oret tt
  else
    x ⟸ get_osd_ o;
    '(resend, resend_linger) ⟸ collect_sent (o_requests x) [] [];
    _ ⟸ modify (fun c => c <| oc_req_unsent ::= fun l => resend ++ l |>);
    x ⟸ get_osd_ o;
    _ ⟸ for_each (o_linger_requests x) __kick_linger_request;
    for_each resend_linger __kick_linger_request.

Definition osd_reset (o : Z) : OM unit := _ ⟸ __kick_osd_requests o; __send_queued.

(** ** New maps *)
Definition reset_changed (o : Z) : OM unit :=
  c ⟸ get_client;
  map ⟸ olift (deref (oc_map c));
  x ⟸ get_osd_ o;
  up ⟸ olift (ceph_osd_is_up map o);
  same ⟸ (if up then addr ⟸ olift (ceph_osd_addr map o); addr ⟸ olift (deref addr); oret (bool_decide (o_peer_addr x = addr))
          else oret false);
  if same then oret tt else _ ⟸ __reset_osd o; oret tt.
Definition reset_changed_osds : OM unit := c ⟸ get_client; for_each (sorted_osds c) reset_changed.

(** One request of the first loop; the number of requests without OSD. *)
Definition kick_request (osd_ok force_resend force_resend_writes : bool) (q : nat) (needmap : Z) : OM Z :=
  r ⟸ get_req q;
  c ⟸ get_client;
  if q_linger r && negb (mem q (oc_req_linger c)) then
    _ ⟸ ceph_osdc_get_request q;
    _ ⟸ __unregister_request q;
    _ ⟸ __register_linger_request q;
    _ ⟸ ceph_osdc_put_request q;
    oret needmap
  else
    err ⟸ __map_request osd_ok q
            (force_resend || force_resend_writes && has_flag (r_flags (q_req r)) CEPH_OSD_FLAG_WRITE);
    if err <? 0 then oret needmap
    else
      r ⟸ get_req q;
      match q_osd r with
      | None => oret (needmap + 1)
      | Some _ =>
          _ ⟸ (if (0 <? err) && negb (q_linger r)
               then mod_req q (fun r => r <| q_req ::= fun x => x <| r_flags ::= fun f => Z.lor f CEPH_OSD_FLAG_RETRY |> |>)
               else oret tt);
          oret needmap
      end.

Fixpoint kick_registered (osd_ok force_resend force_resend_writes : bool) (l : list nat) (needmap : Z) : OM Z :=
  match l with
  | [] => oret needmap
  | q :: l =>
      needmap ⟸ kick_request osd_ok force_resend force_resend_writes q needmap;
      kick_registered osd_ok force_resend force_resend_writes l needmap
  end.

Fixpoint kick_linger (osd_ok force : bool) (l : list nat) (needmap : Z) : OM Z :=
  match l with
  | [] => oret needmap
  | q :: l =>
      err ⟸ __map_request osd_ok q force;
      if err <=? 0 then kick_linger osd_ok force l needmap
      else
        r ⟸ get_req q;
        match q_osd r with
        | None => kick_linger osd_ok force l (needmap + 1)
        | Some _ =>
            _ ⟸ __register_request q;
            _ ⟸ __unregister_linger_request q;
            kick_linger osd_ok force l needmap
        end
  end.

Definition kick_requests (osd_ok force_resend force_resend_writes : bool) : OM unit :=
  c ⟸ get_client;
  needmap ⟸ kick_registered osd_ok force_resend force_resend_writes (snd <$> oc_requests c) 0;
  c ⟸ get_client;
  needmap ⟸ kick_linger osd_ok (force_resend || force_resend_writes) (oc_req_linger c) needmap;
  _ ⟸ reset_changed_osds;
  if needmap =? 0 then oret tt else emit RequestNextMap.

(** ** Timeouts *)
Fixpoint slow_osds (keepalive : Z) (l : list nat) (slow : list Z) : OM (list Z) :=
  match l with
  | [] => oret slow
  | q :: l =>
      c ⟸ get_client;
      r ⟸ get_req q;
      if time_before (oc_jiffies c) (u64 (q_stamp r + keepalive)) then oret slow
      else
        match q_osd r with
        | None => ofault BugOn
        | Some o => slow_osds keepalive l (rem o slow ++ [o])
        end
  end.

Definition handle_timeout : OM unit :=
  _ ⟸ emit RequestNextMap;
  c ⟸ get_client;
  slow ⟸ slow_osds (osd_keepalive_timeout * HZ) (oc_req_lru c) [];
  _ ⟸ for_each slow (fun o => emit (ConKeepalive o));
  _ ⟸ emit TimeoutScheduled;
  __send_queued.

Definition handle_osds_timeout : OM unit := remove_old_osds.

End Client.
