(* ===== verification/OsdReply.v ===== *)
(** * What the OSD client receives

    handle_reply, get_reply and ceph_osdc_handle_map of net/ceph/osd_client.c:
    the messages are decoded from their bytes, and what they say is done to the
    registry of OsdClient.v. *)
From stdpp Require Import gmap.
From S2P Require Import Prelude.
From S2P Require Import Wire.
From S2P Require Import RbTree.
From S2P Require Import OsdMap.
From S2P Require Import OsdMapDecode.
From S2P Require Import PgMapping.
From S2P Require Import MsgCursor.
From S2P Require Import Msgr.
From S2P Require Import OsdReq.
From S2P Require Import OsdClient.
Local Open Scope Z_scope.
Local Open Scope ceph_scope.
Local Open Scope osdc_scope.

(** Runs a decoder at [p]; the object is only used by the decoders of maps. *)
Definition decode_at {A} (m : dec ceph_osdmap A) (p : Z) : outcome (A * Z) :=
  let '(r, s) := m (Dst p 0%nat zero_osdmap) in a ← r; Ret (a, d_pos s).

(** ** Replies *)
Section Decode.
Context `{RbOps} (buf : list Z) (kmalloc_ok : nat -> Z -> bool) (end_ : Z).

Record reply_head := ReplyHead { rh_flags : Z; rh_result : Z; rh_epoch : Z; rh_version : Z }.

(** Up to the lookup of the request; a negative object_len is a large size_t. *)
Definition decode_head : dec ceph_osdmap reply_head :=
  _ ⇐ ceph_decode_need end_ 4 EINVAL;
  object_len ⇐ ceph_decode_32 buf;
  _ ⇐ ceph_decode_need end_ (u64 (s32 object_len)) EINVAL;
  _ ⇐ skip (s32 object_len);
  _ ⇐ ceph_decode_pgid buf end_;
  _ ⇐ ceph_decode_need end_ (8 + 4 + 4 + 8 + 4) EINVAL;
  flags ⇐ ceph_decode_64 buf;
  result ⇐ ceph_decode_32 buf;
  epoch ⇐ ceph_decode_32 buf;
  version ⇐ ceph_decode_64 buf;
  _ ⇐ ceph_decode_32 buf;
  dret (ReplyHead (s32 flags) (s32 result) epoch version).

(** le32_to_cpu(op->payload_len) of each struct ceph_osd_op *)
Fixpoint decode_lens (n : nat) : dec ceph_osdmap (list Z) :=
  match n with
  | O => dret []
  | S n =>
      _ ⇐ skip (sizeof_osd_op - 4);
      len ⇐ ceph_decode_32 buf;
      l ⇐ decode_lens n;
      dret (s32 len :: l)
  end.

Fixpoint decode_results (n : nat) : dec ceph_osdmap (list Z) :=
  match n with
  | O => dret []
  | S n => r ⇐ ceph_decode_32 buf; l ⇐ decode_results n; dret (s32 r :: l)
  end.

(** numops, and the lengths of the data of the operations *)
Definition decode_ops (num_ops : Z) : dec ceph_osdmap (list Z) :=
  _ ⇐ ceph_decode_need end_ 4 EINVAL;
  numops ⇐ ceph_decode_32 buf;
  if CEPH_OSD_MAX_OP <? numops then derr EINVAL
  else if negb (numops =? num_ops) then derr EINVAL
  else
    _ ⇐ ceph_decode_need end_ (numops * sizeof_osd_op) EINVAL;
    decode_lens (Z.to_nat numops).

Definition decode_op_results (num_ops : Z) : dec ceph_osdmap (list Z) :=
  _ ⇐ ceph_decode_need end_ (4 + num_ops * 4) EINVAL;
  _ ⇐ ceph_decode_32 buf;
  decode_results (Z.to_nat num_ops).

(** The pool of the redirect, -1 for none. *)
Definition decode_redirect (version : Z) : dec ceph_osdmap Z :=
  if 6 <=? version then
    _ ⇐ skip (8 + 4);
    _ ⇐ skip 8;
    ceph_redirect_decode buf end_
  else dret (-1).

End Decode.

Section Client.
Context (osd_idle_ttl osd_keepalive_timeout HZ : Z) `{RbOps} (scratch : list Z) (fuel : nat) (garbage : list Z).

Definition complete_reply (q : nat) : OM unit :=
  r ⟸ get_req q; if q_callback r then emit (Callback q) else emit (Complete q).

Definition bad_put (q : nat) : OM unit :=
  _ ⟸ mod_req q (fun r => r <| q_result := - EIO |>);
  _ ⟸ __unregister_request osd_idle_ttl HZ q;
  _ ⟸ complete_reply q;
  _ ⟸ complete_request q;
  _ ⟸ ceph_osdc_put_request q;
  emit Corrupt.

(** From the redirect on: the reply is for [q]. *)
Definition finish_reply (osd_ok : bool) (q : nat) (h : reply_head) (bytes redirect : Z) : OM unit :=
  if negb (redirect =? -1) then
    _ ⟸ __unregister_request osd_idle_ttl HZ q;
    _ ⟸ mod_req q (fun r => r <| q_req ::= fun x => x <| r_target_pool := redirect |> |>);
    err ⟸ __ceph_osdc_start_request osd_idle_ttl HZ scratch fuel garbage osd_ok q true;
    if negb (err =? 0) then ofault BugOn else ceph_osdc_put_request q
  else
    r ⟸ get_req q;
    let already_completed := q_got_reply r in
    let ondisk := has_flag (rh_flags h) CEPH_OSD_FLAG_ONDISK in
    if already_completed && negb ondisk then ceph_osdc_put_request q
    else
      _ ⟸ (if already_completed then oret tt
           else mod_req q (fun r =>
                  r <| q_result := if rh_result h =? 0 then s32 bytes else rh_result h |>
                    <| q_req ::= fun x => x <| r_reassert_version := (rh_epoch h, rh_version h) |> |>
                    <| q_got_reply := true |>));
      _ ⟸ (if q_linger r && ondisk then __register_linger_request q else oret tt);
      _ ⟸ (if (rh_result h <? 0) || ondisk || negb (has_flag (rh_flags h) CEPH_OSD_FLAG_WRITE)
           then __unregister_request osd_idle_ttl HZ q else oret tt);
      _ ⟸ (if already_completed then oret tt
           else
             _ ⟸ (if q_unsafe_callback r && (0 <=? rh_result h) && negb ondisk then emit (UnsafeCallback q true) else oret tt);
             complete_reply q);
      _ ⟸ (if ondisk then
             _ ⟸ (if q_unsafe_callback r && already_completed then emit (UnsafeCallback q false) else oret tt);
             complete_request q
           else oret tt);
      ceph_osdc_put_request q.

(** The sum of the lengths, an int. *)
Definition payload_len (lens : list Z) : Z := fold_left (fun a len => s32 (a + len)) lens 0.

Definition store (lens old : list Z) : list Z := lens ++ drop (length lens) old.

Definition handle_reply (osd_ok : bool) (msg : ceph_msg) : OM unit :=
  let buf := iov_base (m_front msg) in
  let end_ := iov_len (m_front msg) in
  match decode_at (decode_head buf end_) 0 with
  | Fault f => ofault f
  | Err _ => emit Corrupt
  | Ret (h, p) =>
      c ⟸ get_client;
      match __lookup_request c (h_tid (m_hdr msg)) with
      | None => emit Corrupt
      | Some q =>
          _ ⟸ ceph_osdc_get_request q;
          r ⟸ get_req q;
          match decode_at (decode_ops buf end_ (r_num_ops (q_req r))) p with
          | Fault f => ofault f
          | Err _ => bad_put q
          | Ret (lens, p) =>
              _ ⟸ mod_req q (fun r => r <| q_reply_op_len ::= store lens |>);
              let bytes := h_data_len (m_hdr msg) in
              if negb (u32 (payload_len lens) =? bytes) then bad_put q
              else
                match decode_at (decode_op_results buf end_ (r_num_ops (q_req r))) p with
                | Fault f => ofault f
                | Err _ => bad_put q
                | Ret (results, p) =>
                    _ ⟸ mod_req q (fun r => r <| q_reply_op_result ::= store results |>);
                    match decode_at (decode_redirect buf end_ (h_version (m_hdr msg))) p with
                    | Fault f => ofault f
                    | Err _ => bad_put q
                    | Ret (redirect, _) => finish_reply osd_ok q h bytes redirect
                    end
                end
          end
      end
  end.

(** The reply message of the request, or a new one, for the messenger to read
    into; and whether to skip the message.  [front_ok]: memory for a new front.
    The operation is taken for an extent; of a class method, the bytes read are
    the unused length of its parameters, which is 0. *)
Definition get_reply (front_ok : bool) (hdr : ceph_msg_header) : OM (option ceph_msg * bool) :=
  c ⟸ get_client;
  match __lookup_request c (h_tid hdr) with
  | None => oret (None, true)
  | Some q =>
      r ⟸ get_req q;
      _ ⟸ emit (MsgRevokeIncoming q);
      let front_len := s32 (h_front_len hdr) in
      let reply := r_reply (q_req r) in
      let new := if m_front_alloc_len reply <? front_len
                 then ceph_msg_new front_ok front_ok CEPH_MSG_OSD_OPREPLY front_len else Some reply in
      match new with
      | None => oret (None, false)
      | Some reply =>
          _ ⟸ mod_req q (fun r => r <| q_req ::= fun x => x <| r_reply := reply <| m_kref ::= Z.succ |> |> |>);
          let short :=
            match r_ops (q_req r) with
            | op :: _ =>
                match op_union op with
                | BodyExtent _ _ _ _ (OsdDataPages (Some _) len _ _ _) => len <? s32 (h_data_len hdr)
                | _ => false
                end
            | [] => false
            end in
          if (0 <? s32 (h_data_len hdr)) && short
          then _ ⟸ mod_req q (fun r => r <| q_req ::= fun x => x <| r_reply := reply |> |>); oret (None, true)
          else oret (Some (reply <| m_kref ::= Z.succ |>), false)
      end
  end.

(** ** Maps *)
Definition ceph_check_fsid (fsid : list Z) : OM Z :=
  c ⟸ get_client;
  if oc_have_fsid c then oret (if bool_decide (oc_fsid c = fsid) then 0 else -1)
  else _ ⟸ modify (fun c => c <| oc_fsid := fsid |>); oret 0.

Section HandleMap.
Context (buf : list Z) (end_ : Z) (kmalloc_ok : nat -> Z -> bool) (osd_ok : bool).

(** The epoch and the length of a map, after which [p] is at the map. *)
Definition decode_map_head : dec ceph_osdmap (Z * Z) :=
  _ ⇐ ceph_decode_need end_ (2 * 4) EINVAL;
  epoch ⇐ ceph_decode_32 buf;
  maplen ⇐ ceph_decode_32 buf;
  _ ⇐ ceph_decode_need end_ maplen EINVAL;
  dret (epoch, maplen).

Definition is_full (c : osd_client) : bool := ceph_osdmap_flag (oc_map c) CEPH_OSDMAP_FULL.

(** The loop over the incremental maps: whether one was applied, the position
    after them and was_full; None is "goto bad".  The map is changed in place,
    and stays changed when an error is found. *)
Fixpoint inc_maps (n : nat) (p : Z) (newmap was_full : bool) : OM (option (bool * Z * bool)) :=
  match n with
  | O => oret (Some (newmap, p, was_full))
  | S n =>
      match decode_at decode_map_head p with
      | Fault f => ofault f
      | Err _ => oret None
      | Ret ((epoch, maplen), p) =>
          let next := p + maplen in
          c ⟸ get_client;
          match oc_map c with
          | Some map =>
              if u32 (om_epoch map + 1) =? epoch then
                let '(r, s) := osdmap_apply_incremental buf kmalloc_ok next (Dst p 0%nat map) in
                match r with
                | Fault f => ofault f
                | Err _ => _ ⟸ modify (fun c => c <| oc_map := Some (d_obj s) |>); oret None
                | Ret new =>
                    _ ⟸ modify (fun c => c <| oc_map := Some (default (d_obj s) new) |>);
                    c ⟸ get_client;
                    let was_full := was_full || is_full c in
                    _ ⟸ kick_requests osd_idle_ttl HZ scratch fuel garbage osd_ok false was_full;
                    inc_maps n next true was_full
                end
              else inc_maps n next newmap was_full
          | None => inc_maps n next newmap was_full
          end
      end
  end.

(** The loop over the full maps: only the last is taken, and only if it is
    newer. *)
Fixpoint full_maps (n : nat) (p : Z) (was_full : bool) : OM (option unit) :=
  match n with
  | O => oret (Some tt)
  | S n =>
      match decode_at decode_map_head p with
      | Fault f => ofault f
      | Err _ => oret None
      | Ret ((epoch, maplen), p) =>
          c ⟸ get_client;
          let skip_old := match oc_map c with Some map => epoch <=? om_epoch map | None => false end in
          if (0 <? n)%nat || skip_old then full_maps n (p + maplen) was_full
          else
            let '(r, s) := ceph_osdmap_decode buf kmalloc_ok (p + maplen) (Dst p 0%nat zero_osdmap) in
            match r with
            | Fault f => ofault f
            | Err _ => oret None
            | Ret new =>
                let skipped_map := match oc_map c with Some old => u32 (om_epoch old + 1) <? om_epoch new | None => false end in
                _ ⟸ modify (fun c => c <| oc_map := Some new |>);
                c ⟸ get_client;
                let was_full := was_full || is_full c in
                _ ⟸ kick_requests osd_idle_ttl HZ scratch fuel garbage osd_ok skipped_map was_full;
                full_maps n (d_pos s + maplen) was_full
            end
      end
  end.

Definition map_bad : OM unit := _ ⟸ emit Corrupt; emit UpWrite.

Definition map_done : OM unit :=
  _ ⟸ emit DowngradeWrite;
  c ⟸ get_client;
  map ⟸ olift (deref (oc_map c));
  _ ⟸ emit (GotMap (om_epoch map));
  _ ⟸ (if is_full c || ceph_osdmap_flag (oc_map c) CEPH_OSDMAP_PAUSERD || ceph_osdmap_flag (oc_map c) CEPH_OSDMAP_PAUSEWR
       then emit RequestNextMap else oret tt);
  _ ⟸ __send_queued;
  emit UpRead.

(** A decoder of the message, or "goto bad". *)
Definition or_bad {A} (m : dec ceph_osdmap A) (p : Z) (k : A * Z -> OM unit) : OM unit :=
  match decode_at m p with
  | Fault f => ofault f
  | Err _ => map_bad
  | Ret x => k x
  end.

Definition ceph_osdc_handle_map : OM unit :=
  or_bad (_ ⇐ ceph_decode_need end_ 16 EINVAL; ceph_decode_copy buf 16) 0 (fun '(fsid, p) =>
  ok ⟸ ceph_check_fsid fsid;
  if ok <? 0 then oret tt
  else
    _ ⟸ emit DownWrite;
    c ⟸ get_client;
    or_bad (ceph_decode_32_safe buf end_ EINVAL) p (fun '(nr_maps, p) =>
    r ⟸ inc_maps (Z.to_nat nr_maps) p false (is_full c);
    match r with
    | None => map_bad
    | Some (true, _, _) => map_done
    | Some (false, p, was_full) =>
        or_bad (ceph_decode_32_safe buf end_ EINVAL) p (fun '(nr_maps, p) =>
        r ⟸ full_maps (Z.to_nat nr_maps) p was_full;
        match r with
        | None => map_bad
        | Some _ => c ⟸ get_client; match oc_map c with None => map_bad | Some _ => map_done end
        end)
    end)).
End HandleMap.

End Client.
