(* ===== verification/OsdRegistry.v ===== *)
(** * The registry of requests, abstractly

    What the OSD client promises about its bookkeeping, without the messages
    and the maps: which requests are registered, which session each one
    belongs to, and which list each one waits in.  [view] forgets everything
    else of a client; the operations here are those of net/ceph/osd_client.c on
    what remains, and each keeps [view_ok].  OsdClientInv.v shows that the
    client does nothing else. *)
From stdpp Require Import gmap sets sorting.
From S2P Require Import Prelude.
From S2P Require Import OsdClient.
Local Open Scope Z_scope.
Local Open Scope ceph_scope.

Record rview := RView { v_tid : Z; v_osd : option Z; v_kref : Z }.
#[global] Instance rview_eta : Eta rview := fun r => RView (v_tid r) (v_osd r) (v_kref r).

Record view := View {
  v_tree : list (Z * nat);
  v_last : Z;
  v_num : Z;
  v_reqs : gmap nat rview;
  v_osds : gmap Z (list nat);
  v_idle : list Z;
  v_lru : list nat;
  v_unsent : list nat;
  v_notarget : list nat }.
#[global] Instance view_eta : Eta view := fun v =>
  View (v_tree v) (v_last v) (v_num v) (v_reqs v) (v_osds v) (v_idle v) (v_lru v) (v_unsent v) (v_notarget v).

(** Registered, and waiting in some list. *)
Definition reg (v : view) (q : nat) : Prop := q ∈ snd <$> v_tree v.
Definition waiting (v : view) : list nat := v_lru v ++ v_unsent v ++ v_notarget v.

Record view_ok (v : view) : Prop := {
  (* the tree is in order of transaction ids, which are those of the requests *)
  ok_sorted : StronglySorted Z.lt (fst <$> v_tree v);
  ok_tree : forall tid q, (tid, q) ∈ v_tree v -> tid <= v_last v /\ exists r, v_reqs v !! q = Some r /\ v_tid r = tid;
  ok_num : v_num v = Z.of_nat (length (v_tree v));
  (* a request is in one list at most, and only while it is registered *)
  ok_lists : NoDup (waiting v);
  ok_waiting : forall q, q ∈ waiting v -> reg v q;
  (* the sessions hold the requests that have them as their session *)
  ok_held : forall o l q, v_osds v !! o = Some l -> q ∈ l -> reg v q /\ exists r, v_reqs v !! q = Some r /\ v_osd r = Some o;
  ok_session : forall q r o, v_reqs v !! q = Some r -> v_osd r = Some o -> exists l, v_osds v !! o = Some l /\ q ∈ l;
  ok_session_nodup : forall o l, v_osds v !! o = Some l -> NoDup l;
  (* no request is forgotten: with a session, it is in flight or in a queue *)
  ok_queued : forall q r, v_reqs v !! q = Some r -> v_osd r <> None -> q ∈ waiting v;
  ok_target : forall q r, q ∈ v_lru v ++ v_unsent v -> v_reqs v !! q = Some r -> v_osd r <> None;
  (* idle sessions have no requests *)
  ok_idle : NoDup (v_idle v) /\ forall o, o ∈ v_idle v -> v_osds v !! o = Some [];
  (* requests that exist are referenced *)
  ok_kref : forall q r, v_reqs v !! q = Some r -> 0 < v_kref r }.

(** ** Lists *)
#[global] Arguments rem : simpl never.

Section Rem.
Context {A : Type} `{EqDecision A}.

Lemma elem_of_rem (x y : A) l : y ∈ rem x l <-> y <> x /\ y ∈ l.
Proof. unfold rem. by rewrite list_elem_of_filter. Qed.

Lemma rem_app (x : A) l k : rem x (l ++ k) = rem x l ++ rem x k.
Proof. apply filter_app. Qed.

Lemma NoDup_rem (x : A) l : NoDup l -> NoDup (rem x l).
Proof. apply NoDup_filter. Qed.

Lemma rem_not_in (x : A) l : x ∉ l -> rem x l = l.
Proof.
  induction l as [|y l IH]; [done|]. intros [Hne Hn]%not_elem_of_cons. unfold rem in *.
  rewrite filter_cons_True by done. by rewrite IH.
Qed.
End Rem.

Definition remove_entry (q : nat) (l : list (Z * nat)) : list (Z * nat) := filter (fun e => e.2 <> q) l.

Lemma elem_of_remove_entry q e l : e ∈ remove_entry q l <-> e.2 <> q /\ e ∈ l.
Proof. unfold remove_entry. by rewrite list_elem_of_filter. Qed.

Lemma reg_elem v q : reg v q <-> exists tid, (tid, q) ∈ v_tree v.
Proof.
  unfold reg. rewrite list_elem_of_fmap. split.
  - intros ([t x] & -> & Hin). by exists t.
  - intros [t Hin]. by exists (t, q).
Qed.

Lemma reg_lookup v q : view_ok v -> reg v q -> exists r, v_reqs v !! q = Some r.
Proof. intros Hok [tid Ht]%reg_elem. destruct (ok_tree v Hok tid q Ht) as (_ & r & Hr & _). by exists r. Qed.

Lemma unheld v q r : view_ok v -> v_reqs v !! q = Some r -> v_osd r = None -> forall o l, v_osds v !! o = Some l -> q ∉ l.
Proof.
  intros Hok Hr Ho o l Hl Hin. destruct (ok_held v Hok o l q Hl Hin) as (_ & r' & Hr' & Ho').
  rewrite Hr in Hr'. injection Hr' as <-. congruence.
Qed.

Lemma unregistered v q r : view_ok v -> v_reqs v !! q = Some r -> ~ reg v q ->
  v_osd r = None /\ q ∉ waiting v.
Proof.
  intros Hok Hr Hn. split; [|by intros ?%(ok_waiting v Hok)].
  destruct (v_osd r) as [o|] eqn:E; [|done]. exfalso. destruct (ok_session v Hok q r o Hr E) as (l & Hl & Hin).
  by destruct (ok_held v Hok o l q Hl Hin).
Qed.

(** Sorted lists without an entry. *)
Lemma sorted_remove_entry q l : StronglySorted Z.lt (fst <$> l) -> StronglySorted Z.lt (fst <$> remove_entry q l).
Proof.
  induction l as [|[t x] l IH]; [done|]. cbn [fmap list_fmap]. intros Hs. apply StronglySorted_inv in Hs as [Hs Hf].
  unfold remove_entry in *. rewrite filter_cons. case_decide; [|by apply IH]. cbn. constructor; [by apply IH|].
  rewrite Forall_forall in Hf |- *. intros y Hy. apply Hf. apply list_elem_of_fmap in Hy as (e & -> & He).
  apply list_elem_of_filter in He as [_ He]. apply list_elem_of_fmap. by exists e.
Qed.

(** ** Operations *)

(** Out of every list and of its session. *)
Definition unlink (q : nat) (v : view) : view :=
  v <| v_osds ::= fmap (rem q) |> <| v_reqs ::= alter (fun r : rview => r <| v_osd := None |>) q |>
    <| v_lru ::= rem q |> <| v_unsent ::= rem q |> <| v_notarget ::= rem q |>.

(** To the end of the queue of the session [o], which holds [l]. *)
Definition attach (q : nat) (o : Z) (l : list nat) (v : view) : view :=
  v <| v_osds ::= insert o (l ++ [q]) |> <| v_reqs ::= alter (fun r : rview => r <| v_osd := Some o |>) q |>
    <| v_unsent ::= fun u => u ++ [q] |> <| v_idle ::= rem o |>.

Definition relist (a b d : list nat) (v : view) : view := v <| v_lru := a |> <| v_unsent := b |> <| v_notarget := d |>.

(** Into the tree, with the next transaction id, and out of it. *)
Definition register (q : nat) (v : view) : view :=
  let tid := v_last v + 1 in
  v <| v_last := tid |> <| v_tree ::= fun l => l ++ [(tid, q)] |> <| v_num ::= Z.succ |>
    <| v_reqs ::= alter (fun r : rview => r <| v_tid := tid |>) q |>.
Definition erase (q : nat) (v : view) : view := v <| v_tree ::= remove_entry q |> <| v_num ::= Z.pred |>.

Definition set_kref (q : nat) (k : Z) (v : view) : view := v <| v_reqs ::= alter (fun r : rview => r <| v_kref := k |>) q |>.
Definition free (q : nat) (v : view) : view := v <| v_reqs ::= delete q |>.
Definition make_idle (o : Z) (v : view) : view := v <| v_idle ::= fun l => l ++ [o] |>.
Definition remove_osd (o : Z) (v : view) : view := v <| v_osds ::= delete o |> <| v_idle ::= rem o |>.

Lemma waiting_unlink q v : waiting (unlink q v) = rem q (waiting v).
Proof. unfold waiting. by rewrite !rem_app. Qed.

Lemma lookup_alter_Some {A} (f : A -> A) (m : gmap nat A) i j x :
  alter f i m !! j = Some x <-> exists y, m !! j = Some y /\ x = (if decide (j = i) then f y else y).
Proof.
  destruct (decide (j = i)) as [->|Hne].
  - rewrite lookup_alter_eq, fmap_Some. naive_solver.
  - rewrite lookup_alter_ne by done. naive_solver.
Qed.

Lemma relist_ok v a b d :
  view_ok v -> NoDup (a ++ b ++ d) -> (forall q, q ∈ a ++ b ++ d -> reg v q) ->
  (forall q, q ∈ waiting v -> q ∈ a ++ b ++ d) ->
  (forall q r, q ∈ a ++ b -> v_reqs v !! q = Some r -> v_osd r <> None) ->
  view_ok (relist a b d v).
Proof. intros [] Hn Hr Hw Ht. split; try done. intros q r Hq Ho. apply Hw. by eapply ok_queued0. Qed.

Lemma unlink_ok v q : view_ok v -> view_ok (unlink q v).
Proof.
  intros Hok. pose proof Hok as []. split; try done.
  - intros tid x Hin. destruct (ok_tree0 tid x Hin) as (Hl & r & Hr & Ht). split; [done|].
    exists (if decide (x = q) then r <| v_osd := None |> else r). split; [|by case_decide].
    apply lookup_alter_Some. by exists r.
  - rewrite waiting_unlink. by apply NoDup_rem.
  - intros x. rewrite waiting_unlink, elem_of_rem. intros [_ Hx]. by apply ok_waiting0.
  - intros o l x. cbn. rewrite lookup_fmap_Some. intros (l0 & <- & Hl). rewrite elem_of_rem. intros [Hne Hx].
    destruct (ok_held0 o l0 x Hl Hx) as (Hreg & r & Hr & Ho). split; [done|]. exists r. split; [|done].
    apply lookup_alter_Some. exists r. by rewrite decide_False.
  - intros x r o. cbn. rewrite lookup_alter_Some. intros (r0 & Hr & ->) Ho. case_decide; [done|].
    destruct (ok_session0 x r0 o Hr Ho) as (l & Hl & Hin). exists (rem q l). rewrite lookup_fmap, Hl. split; [done|].
    by apply elem_of_rem.
  - intros o l. cbn. rewrite lookup_fmap_Some. intros (l0 & <- & Hl). apply NoDup_rem. by eapply ok_session_nodup0.
  - intros x r. rewrite waiting_unlink. cbn. rewrite lookup_alter_Some. intros (r0 & Hr & ->) Ho. case_decide; [done|].
    apply elem_of_rem. split; [done|]. by eapply ok_queued0.
  - intros x r. cbn. rewrite <- rem_app, elem_of_rem, lookup_alter_Some. intros [Hne Hx] (r0 & Hr & ->).
    rewrite decide_False by done. by eapply ok_target0.
  - destruct ok_idle0 as [Hn Hi]. split; [done|]. intros o Ho. cbn. by rewrite lookup_fmap, (Hi o Ho).
  - intros x r. cbn. rewrite lookup_alter_Some. intros (r0 & Hr & ->). case_decide; by apply (ok_kref0 x r0).
Qed.

Lemma attach_ok v q r o l :
  view_ok v -> reg v q -> v_reqs v !! q = Some r -> v_osd r = None -> q ∉ waiting v -> default [] (v_osds v !! o) = l ->
  view_ok (attach q o l v).
Proof.
  intros Hok Hreg Hr Ho Hw Hl. pose proof (unheld v q r Hok Hr Ho) as Hun. pose proof Hok as [].
  assert (Hwl : waiting (attach q o l v) ≡ₚ q :: waiting v).
  { unfold waiting, attach. cbn. rewrite <- (app_assoc (v_unsent v) [q]), (app_assoc (v_lru v)). cbn [app].
    by rewrite <- Permutation_middle, <- app_assoc. }
  assert (Hql : q ∉ l).
  { destruct (v_osds v !! o) as [l'|] eqn:E; cbn in Hl; subst l; [by eapply Hun|set_solver]. }
  split; try done.
  - intros tid x Hin. destruct (ok_tree0 tid x Hin) as (Hlt & r0 & Hr0 & Ht). split; [done|].
    exists (if decide (x = q) then r0 <| v_osd := Some o |> else r0). split; [|by case_decide].
    apply lookup_alter_Some. by exists r0.
  - rewrite Hwl. by constructor.
  - intros x. rewrite Hwl. intros [->|Hx]%elem_of_cons; [done|by apply ok_waiting0].
  - intros o' l' x. cbn. rewrite lookup_insert_Some. intros [[<- <-]|[Hne Hl']].
    + rewrite elem_of_app, list_elem_of_singleton. intros [Hx| ->].
      * destruct (v_osds v !! o) as [l'|] eqn:E; cbn in Hl; subst l; [|set_solver].
        destruct (ok_held0 o l' x E Hx) as (Hrx & r0 & Hr0 & Ho0). split; [done|]. exists r0. split; [|done].
        apply lookup_alter_Some. exists r0. split; [done|]. by rewrite decide_False by (intros ->; done).
      * split; [done|]. exists (r <| v_osd := Some o |>). split; [|done]. apply lookup_alter_Some. exists r.
        by rewrite decide_True.
    + intros Hx. destruct (ok_held0 o' l' x Hl' Hx) as (Hrx & r0 & Hr0 & Ho0). split; [done|]. exists r0. split; [|done].
      apply lookup_alter_Some. exists r0. split; [done|]. rewrite decide_False; [done|]. intros ->. by eapply Hun.
  - intros x r' o'. cbn. rewrite lookup_alter_Some. intros (r0 & Hr0 & ->). case_decide as Hd.
    + subst x. cbn. intros [= <-]. exists (l ++ [q]). rewrite lookup_insert_eq. split; [done|]. set_solver.
    + intros Ho0. destruct (ok_session0 x r0 o' Hr0 Ho0) as (l' & Hl' & Hin).
      destruct (decide (o' = o)) as [->|Hne]; [|exists l'; by rewrite lookup_insert_ne].
      exists (l ++ [q]). rewrite lookup_insert_eq. split; [done|]. rewrite Hl' in Hl. cbn in Hl. subst. set_solver.
  - intros o' l'. cbn. rewrite lookup_insert_Some. intros [[<- <-]|[Hne Hl']]; [|by eapply ok_session_nodup0].
    apply NoDup_app. split; [|split; [set_solver|apply NoDup_singleton]].
    destruct (v_osds v !! o) as [l'|] eqn:E; cbn in Hl; subst l; [by eapply ok_session_nodup0|constructor].
  - intros x r'. rewrite Hwl, elem_of_cons. cbn. rewrite lookup_alter_Some. intros (r0 & Hr0 & ->) Hn.
    case_decide; [by left|right]. by eapply ok_queued0.
  - intros x r'. cbn. rewrite app_assoc, elem_of_app, list_elem_of_singleton, lookup_alter_Some.
    intros Hx (r0 & Hr0 & ->). case_decide; [done|]. destruct Hx; [by eapply ok_target0|done].
  - destruct ok_idle0 as [Hn Hi]. cbn. split; [by apply NoDup_rem|]. intros o'. rewrite elem_of_rem. intros [Hne Ho'].
    rewrite lookup_insert_ne by done. by apply Hi.
  - intros x r'. cbn. rewrite lookup_alter_Some. intros (r0 & Hr0 & ->). case_decide; by apply (ok_kref0 x r0).
Qed.

Lemma sorted_snoc (l : list (Z * nat)) tid q :
  StronglySorted Z.lt (fst <$> l) -> (forall t x, (t, x) ∈ l -> t < tid) -> StronglySorted Z.lt (fst <$> (l ++ [(tid, q)])).
Proof.
  rewrite fmap_app. intros Hs Hlt. apply StronglySorted_app_2; [|done|by repeat constructor].
  intros a b Ha Hb. apply list_elem_of_fmap in Ha as ([t x] & -> & Hin). apply list_elem_of_singleton in Hb as ->.
  by eapply Hlt.
Qed.

Lemma register_ok v q r :
  view_ok v -> v_reqs v !! q = Some r -> ~ reg v q -> view_ok (register q v).
Proof.
  intros Hok Hr Hreg. destruct (unregistered v q r Hok Hr Hreg) as [Ho Hw].
  pose proof (unheld v q r Hok Hr Ho) as Hun. pose proof Hok as [].
  assert (Hmono : forall x, reg v x -> reg (register q v) x).
  { unfold reg. cbn. intros x Hx. rewrite fmap_app. set_solver. }
  split; try done.
  - cbn. apply sorted_snoc; [done|]. intros t x Hin. destruct (ok_tree0 t x Hin). lia.
  - intros tid x. cbn. rewrite elem_of_app, list_elem_of_singleton. intros [Hin|[= -> ->]].
    + destruct (ok_tree0 tid x Hin) as (Hl & r0 & Hr0 & Ht). split; [lia|]. exists r0. split; [|done].
      apply lookup_alter_Some. exists r0. split; [done|]. rewrite decide_False; [done|]. intros ->. apply Hreg, reg_elem. by exists tid.
    + split; [lia|]. exists (r <| v_tid := v_last v + 1 |>). split; [|done]. apply lookup_alter_Some. exists r.
      by rewrite decide_True.
  - cbn. rewrite length_app. cbn. lia.
  - intros x Hx. apply Hmono. by apply ok_waiting0.
  - intros o l x Hl Hx. destruct (ok_held0 o l x Hl Hx) as (Hrx & r0 & Hr0 & Ho0). split; [by apply Hmono|].
    exists r0. split; [|done]. apply lookup_alter_Some. exists r0. split; [done|]. rewrite decide_False; [done|].
    intros ->. by eapply Hun.
  - intros x r0 o. cbn. rewrite lookup_alter_Some. intros (r1 & Hr1 & ->) Ho1. apply (ok_session0 x r1); [done|].
    by case_decide.
  - intros x r0. cbn. rewrite lookup_alter_Some. intros (r1 & Hr1 & ->) Ho1. apply (ok_queued0 x r1); [done|].
    by case_decide.
  - intros x r0. cbn. rewrite lookup_alter_Some. intros Hx (r1 & Hr1 & ->). pose proof (ok_target0 x r1 Hx Hr1).
    by case_decide.
  - intros x r0. cbn. rewrite lookup_alter_Some. intros (r1 & Hr1 & ->). pose proof (ok_kref0 x r1 Hr1). by case_decide.
Qed.

Lemma length_remove_entry q tid l :
  StronglySorted Z.lt (fst <$> l) -> (tid, q) ∈ l -> (forall t, (t, q) ∈ l -> t = tid) ->
  length l = S (length (remove_entry q l)).
Proof.
  induction l as [|[t x] l IH]; [set_solver|]. cbn [fmap list_fmap fst]. intros Hs Hin Hu.
  apply StronglySorted_inv in Hs as [Hs Hf]. rewrite Forall_forall in Hf. unfold remove_entry in *. rewrite filter_cons.
  case_decide as Hd; cbn in Hd.
  - cbn [length]. f_equal. apply IH; [done| |set_solver]. apply elem_of_cons in Hin as [[= -> ->]|]; [by destruct Hd|done].
  - subst x. cbn [length]. f_equal. assert (t = tid) as -> by (apply Hu; set_solver).
    clear -Hu Hf. assert (Hno : forall e, e ∈ l -> e.2 <> q).
    { intros [t x] He Hx. cbn in Hx. subst x. assert (t = tid) as -> by (apply Hu; set_solver).
      specialize (Hf tid). assert (tid < tid); [|lia]. apply Hf, list_elem_of_fmap. by exists (tid, q). }
    clear Hu Hf. induction l as [|e l IH]; [done|]. rewrite filter_cons_True by (apply Hno; set_solver). cbn. f_equal.
    apply IH. set_solver.
Qed.

Lemma reg_erase v q x : reg (erase q v) x <-> x <> q /\ reg v x.
Proof.
  rewrite !reg_elem. unfold erase. cbn. setoid_rewrite elem_of_remove_entry. cbn. naive_solver.
Qed.

Lemma erase_ok v q r :
  view_ok v -> v_reqs v !! q = Some r -> v_osd r = None -> reg v q -> q ∉ waiting v -> view_ok (erase q v).
Proof.
  intros Hok Hr Ho Hreg Hw. pose proof (unheld v q r Hok Hr Ho) as Hun. pose proof Hok as []. split; try done.
  - cbn. by apply sorted_remove_entry.
  - intros tid x. cbn. rewrite elem_of_remove_entry. intros [_ Hin]. by apply ok_tree0.
  - cbn. apply reg_elem in Hreg as [tid Hin]. rewrite ok_num0, (length_remove_entry q tid (v_tree v)); [lia|done|done|].
    intros t Ht. destruct (ok_tree0 tid q Hin) as (_ & r1 & Hr1 & <-), (ok_tree0 t q Ht) as (_ & r2 & Hr2 & <-). congruence.
  - intros x Hx. apply reg_erase. split; [|by apply ok_waiting0]. by intros ->.
  - intros o l x Hl Hx. destruct (ok_held0 o l x Hl Hx) as (Hrx & Hr0). split; [|done]. apply reg_erase. split; [|done].
    intros ->. by eapply Hun.
Qed.

Lemma set_kref_ok v q k : view_ok v -> 0 < k -> view_ok (set_kref q k v).
Proof.
  intros Hok Hk. pose proof Hok as [].
  assert (Hv : forall x r, v_reqs v !! x = Some r -> exists r', v_reqs (set_kref q k v) !! x = Some r' /\ v_tid r' = v_tid r /\ v_osd r' = v_osd r).
  { intros x r Hr. exists (if decide (x = q) then r <| v_kref := k |> else r). split; [|by case_decide].
    apply lookup_alter_Some. by exists r. }
  assert (Hb : forall x r', v_reqs (set_kref q k v) !! x = Some r' ->
    exists r, v_reqs v !! x = Some r /\ v_osd r' = v_osd r /\ (0 < v_kref r -> 0 < v_kref r')).
  { intros x r'. cbn. rewrite lookup_alter_Some. intros (r & Hr & ->). exists r. split; [done|]. by case_decide. }
  split; try done.
  - intros tid x Hin. destruct (ok_tree0 tid x Hin) as (Hl & r & Hr & <-). split; [done|].
    destruct (Hv x r Hr) as (r' & Hr' & Ht & _). by exists r'.
  - intros o l x Hl Hx. destruct (ok_held0 o l x Hl Hx) as (Hrx & r & Hr & Ho). split; [done|].
    destruct (Hv x r Hr) as (r' & Hr' & _ & Ho'). exists r'. by rewrite Ho'.
  - intros x r' o Hr' Ho. destruct (Hb x r' Hr') as (r & Hr & Hoo & _). apply (ok_session0 x r); [done|congruence].
  - intros x r' Hr' Ho. destruct (Hb x r' Hr') as (r & Hr & Hoo & _). apply (ok_queued0 x r); [done|congruence].
  - intros x r' Hx Hr'. destruct (Hb x r' Hr') as (r & Hr & Hoo & _). rewrite Hoo. by apply (ok_target0 x r).
  - intros x r' Hr'. destruct (Hb x r' Hr') as (r & Hr & _ & Hkk). by apply Hkk, (ok_kref0 x r).
Qed.

Lemma free_ok v q : view_ok v -> ~ reg v q -> view_ok (free q v).
Proof.
  intros Hok Hn. pose proof Hok as []. split; try done.
  - intros tid x Hin. destruct (ok_tree0 tid x Hin) as (Hl & r & Hr & Ht). split; [done|]. exists r. split; [|done].
    cbn. rewrite lookup_delete_ne; [done|]. intros ->. apply Hn, reg_elem. by exists tid.
  - intros o l x Hl Hx. destruct (ok_held0 o l x Hl Hx) as (Hrx & r & Hr & Ho). split; [done|]. exists r. split; [|done].
    cbn. rewrite lookup_delete_ne; [done|]. by intros ->.
  - intros x r o. cbn. rewrite lookup_delete_Some. intros [_ Hr]. by apply ok_session0.
  - intros x r. cbn. rewrite lookup_delete_Some. intros [_ Hr]. by apply ok_queued0.
  - intros x r. cbn. rewrite lookup_delete_Some. intros Hx [_ Hr]. by apply (ok_target0 x r).
  - intros x r. cbn. rewrite lookup_delete_Some. intros [_ Hr]. by apply (ok_kref0 x r).
Qed.

Lemma make_idle_ok v o : view_ok v -> v_osds v !! o = Some [] -> o ∉ v_idle v -> view_ok (make_idle o v).
Proof.
  intros [] Ho Hi. split; try done. destruct ok_idle0 as [Hn Hs]. cbn. split.
  - apply NoDup_app. split; [done|]. split; [set_solver|apply NoDup_singleton].
  - intros o'. rewrite elem_of_app, list_elem_of_singleton. intros [?| ->]; [by apply Hs|done].
Qed.

Lemma remove_osd_ok v o : view_ok v -> v_osds v !! o = Some [] -> view_ok (remove_osd o v).
Proof.
  intros [] Ho. split; try done.
  - intros o' l x. cbn. rewrite lookup_delete_Some. intros [_ Hl]. by apply ok_held0.
  - intros x r o' Hr Ho'. destruct (ok_session0 x r o' Hr Ho') as (l & Hl & Hin). exists l. cbn. split; [|done].
    rewrite lookup_delete_ne; [done|]. intros ->. rewrite Ho in Hl. injection Hl as <-. set_solver.
  - intros o' l. cbn. rewrite lookup_delete_Some. intros [_ Hl]. by eapply ok_session_nodup0.
  - destruct ok_idle0 as [Hn Hs]. cbn. split; [by apply NoDup_rem|]. intros o'. rewrite elem_of_rem. intros [Hne Hi].
    rewrite lookup_delete_ne by done. by apply Hs.
Qed.

(** A request moved to another place. *)
Lemma move_ok v q a b d :
  view_ok v -> reg v q -> a ++ b ++ d ≡ₚ q :: rem q (waiting v) ->
  (forall x r, x ∈ a ++ b -> v_reqs v !! x = Some r -> v_osd r <> None) -> view_ok (relist a b d v).
Proof.
  intros Hok Hreg Hp Ht. apply relist_ok; [done| | | |done].
  - rewrite Hp. constructor; [rewrite elem_of_rem; by intros [? _]|]. apply NoDup_rem, (ok_lists v Hok).
  - intros x. rewrite Hp, elem_of_cons, elem_of_rem. intros [->|[_ Hx]]; [done|by apply (ok_waiting v Hok)].
  - intros x Hx. rewrite Hp, elem_of_cons, elem_of_rem. destruct (decide (x = q)); [by left|by right].
Qed.

(** Sent: to the end of the requests in flight. *)
Lemma sent_ok v q r :
  view_ok v -> v_reqs v !! q = Some r -> v_osd r <> None -> reg v q ->
  view_ok (relist (rem q (v_lru v) ++ [q]) (rem q (v_unsent v)) (rem q (v_notarget v)) v).
Proof.
  intros Hok Hr Ho Hreg. apply (move_ok v q); [done|done| |].
  - unfold waiting. rewrite !rem_app, <- app_assoc. cbn. by rewrite <- Permutation_middle.
  - intros x r' Hx Hr'. destruct (decide (x = q)) as [->|Hne]; [congruence|]. apply (ok_target v Hok x r'); [|done].
    rewrite !elem_of_app, !elem_of_rem, list_elem_of_singleton in Hx. rewrite elem_of_app. tauto.
Qed.

(** Put aside, keeping its session; at the head or at the end. *)
Lemma aside_ok v q d :
  view_ok v -> reg v q -> d ≡ₚ q :: rem q (v_notarget v) -> view_ok (relist (rem q (v_lru v)) (rem q (v_unsent v)) d v).
Proof.
  intros Hok Hreg Hd. apply (move_ok v q); [done|done| |].
  - unfold waiting. rewrite !rem_app, Hd, !(app_assoc (rem q (v_lru v))). by rewrite <- Permutation_middle.
  - intros x r' Hx Hr'. apply (ok_target v Hok x r'); [|done].
    rewrite !elem_of_app, !elem_of_rem in Hx. rewrite elem_of_app. tauto.
Qed.
