(* ===== verification/OsdClientInv.v ===== *)
(** * The OSD client keeps its registry

    The handlers of OsdClient.v, run on a client whose registry is well formed
    (OsdRegistry.v), return, do to the registry what the operations of
    OsdRegistry.v do, and leave it well formed; and when a handler is done, no
    request is left waiting to be sent.  Lingering requests are left out (see
    OsdLimits.v).  The client relies on the placement code through the class
    [Placement]. *)
From stdpp Require Import gmap sets sorting.
From S2P Require Import Prelude.
From S2P Require Import Wire.
From S2P Require Import RbTree.
From S2P Require Import OsdMap.
From S2P Require Import OsdMapInv.
From S2P Require Import PgMapping.
From S2P Require Import MsgCursor.
From S2P Require Import Msgr.
From S2P Require Import OsdReq.
From S2P Require Import OsdMsg.
From S2P Require Import OsdClient.
From S2P Require Import OsdRegistry.
Local Open Scope Z_scope.
Local Open Scope ceph_scope.
Local Open Scope osdc_scope.

(** ** The view of a client *)
Definition rv (r : osd_request) : rview := RView (q_tid r) (q_osd r) (q_kref r).
Definition view_of (c : osd_client) : view :=
  View (oc_requests c) (oc_last_tid c) (oc_num_requests c) (rv <$> oc_reqs c) (o_requests <$> oc_osds c)
    (oc_osd_lru c) (oc_req_lru c) (oc_req_unsent c) (oc_req_notarget c).

(** ** Messages that can be sent *)
Definition fits (buf : list Z) (p n : Z) : Prop := 0 <= p /\ p + n <= Z.of_nat (length buf).

Record sendable (x : ceph_osd_request) : Prop := {
  se_epoch : fits (iov_base (m_front (r_request x))) (r_request_osdmap_epoch x) 4;
  se_flags : fits (iov_base (m_front (r_request x))) (r_request_flags x) 4;
  se_pool : fits (iov_base (m_front (r_request x))) (r_request_pool x) 8;
  se_pgid : fits (iov_base (m_front (r_request x))) (r_request_pgid x) 12;
  se_attempts : fits (iov_base (m_front (r_request x))) (r_request_attempts x) 8;
  se_version : fits (iov_base (m_front (r_request x))) (r_request_reassert_version x) 12;
  se_base : 0 <= oid_name_len (r_base_oid x) <= CEPH_MAX_OID_NAME_LEN;
  se_target : 0 <= oid_name_len (r_target_oid x) <= CEPH_MAX_OID_NAME_LEN;
  se_base_oid : length (oid_name (r_base_oid x)) = Z.to_nat CEPH_MAX_OID_NAME_LEN;
  se_target_oid : length (oid_name (r_target_oid x)) = Z.to_nat CEPH_MAX_OID_NAME_LEN;
  se_ops : 0 <= r_num_ops x }.

Lemma write_fits buf p s :
  fits buf p (zlen s) -> exists buf', write_bytes buf p s = Ret buf' /\ length buf' = length buf.
Proof.
  intros [Hp Hl]. destruct (write_bytes_total buf p s Hp Hl) as [buf' E]. exists buf'. split; [done|].
  by apply write_bytes_spec in E as (? & _).
Qed.

Lemma fill_request_ok epoch pgid x :
  sendable x ->
  exists buf, fill_request epoch pgid x = Ret (x <| r_request ::= fun m => m <| m_front ::= fun v => Kvec buf (iov_len v) |> |>) /\
    length buf = length (iov_base (m_front (r_request x))).
Proof.
  intros [He Hf Hp Hg Ha Hv _ _ _ _ _]. unfold fill_request, ceph_encode_64, ceph_encode_32, ceph_encode_copy. cbv zeta.
  set (b := iov_base _) in *.
  destruct (write_fits b (r_request_osdmap_epoch x) (le_bytes 4 epoch)) as (b1 & -> & L1); [by rewrite length_le_bytes|].
  rewrite bind_Ret_eq. unfold fits in *. rewrite <- L1 in Hf, Hp, Hg, Ha, Hv |- *.
  destruct (write_fits b1 (r_request_flags x) (le_bytes 4 (r_flags x))) as (b2 & -> & L2); [by rewrite length_le_bytes|].
  rewrite bind_Ret_eq. rewrite <- L2 in Hp, Hg, Ha, Hv |- *.
  destruct (write_fits b2 (r_request_pool x) (le_bytes 8 (u64 (r_target_pool x)))) as (b3 & -> & L3); [by rewrite length_le_bytes|].
  rewrite bind_Ret_eq. rewrite <- L3 in Hg, Ha, Hv |- *.
  destruct (write_fits b3 (r_request_pgid x) (le_bytes 8 (u64 (pool pgid)))) as (b4 & -> & L4); [rewrite length_le_bytes; split; lia|].
  rewrite !bind_Ret_eq, length_le_bytes. rewrite <- L4 in Hg, Ha, Hv |- *.
  destruct (write_fits b4 (r_request_pgid x + 8) (le_bytes 4 (u32 (seed pgid)))) as (b5 & E5 & L5); [rewrite length_le_bytes; split; lia|].
  change (Z.of_nat 8) with 8. rewrite E5, !bind_Ret_eq. rewrite <- L5 in Ha, Hv |- *.
  destruct (write_fits b5 (r_request_attempts x) (le_bytes 8 1)) as (b6 & -> & L6); [by rewrite length_le_bytes|].
  rewrite bind_Ret_eq. rewrite <- L6 in Hv |- *.
  match goal with |- context [write_bytes b6 ?p ?s] => destruct (write_fits b6 p s) as (b7 & -> & L7) end;
    [by rewrite length_app, !length_le_bytes|].
  exists b7. rewrite bind_Ret_eq. split; [done|]. congruence.
Qed.

Definition front_of (x : ceph_osd_request) : list Z :=
  take (Z.to_nat (iov_len (m_front (r_request x)))) (iov_base (m_front (r_request x))).

(** Changes of a request that leave its message as it was. *)
Lemma sendable_eq x y :
  iov_base (m_front (r_request y)) = iov_base (m_front (r_request x)) \/
    length (iov_base (m_front (r_request y))) = length (iov_base (m_front (r_request x))) ->
  (r_request_osdmap_epoch y, r_request_flags y, r_request_pool y, r_request_pgid y, r_request_attempts y,
     r_request_reassert_version y, r_base_oid y, r_target_oid y, r_num_ops y) =
  (r_request_osdmap_epoch x, r_request_flags x, r_request_pool x, r_request_pgid x, r_request_attempts x,
     r_request_reassert_version x, r_base_oid x, r_target_oid x, r_num_ops x) ->
  sendable x -> sendable y.
Proof.
  intros Hb [= E1 E2 E3 E4 E5 E6 E7 E8 E9] [].
  assert (Hl : length (iov_base (m_front (r_request y))) = length (iov_base (m_front (r_request x)))) by (destruct Hb; congruence).
  unfold fits in *. split; unfold fits; rewrite ?Hl, ?E1, ?E2, ?E3, ?E4, ?E5, ?E6, ?E7, ?E8, ?E9; done.
Qed.

(** ** What the client needs of the placement code *)
Class Placement `{RbOps} (scratch : list Z) (fuel : nat) (garbage : list Z) (good : ceph_osdmap -> Prop) : Prop := {
  placement_map : forall m, good m -> osdmap_ok m;
  placement_pg : forall m p oid,
    good m -> 0 <= oid_name_len oid <= CEPH_MAX_OID_NAME_LEN -> length (oid_name oid) = Z.to_nat CEPH_MAX_OID_NAME_LEN ->
    (exists pg, ceph_oloc_oid_to_pg m p oid = Ret pg) \/ ceph_oloc_oid_to_pg m p oid = Err EIO;
  placement_acting : forall m pgid, good m ->
    exists acting num o m', calc_acting scratch fuel garbage m pgid = Ret (acting, num, o, m') /\ good m' /\
      om_osd_addr m' = om_osd_addr m /\ o < Z.of_nat (length (om_osd_addr m)) }.

Section Client.
Context {osd_idle_ttl HZ : Z} `{RbOps} {scratch : list Z} {fuel : nat} {garbage : list Z}.
Context {good : ceph_osdmap -> Prop} `{!Placement scratch fuel garbage good}.

Lemma set_same_pool x : x <| r_target_pool := r_target_pool x |> = x.
Proof. by destruct x. Qed.
Lemma set_same_oid x : x <| r_target_oid := r_target_oid x |> = x.
Proof. by destruct x. Qed.

Definition retarget (x : ceph_osd_request) (p : Z) (oid : ceph_object_id) : ceph_osd_request :=
  x <| r_target_pool := p |> <| r_target_oid := oid |>.

Lemma set_target_ok x :
  sendable x -> exists p oid b, set_target x = Ret (retarget x p oid, b) /\
    0 <= oid_name_len oid <= CEPH_MAX_OID_NAME_LEN /\ length (oid_name oid) = Z.to_nat CEPH_MAX_OID_NAME_LEN.
Proof.
  intros [_ _ _ _ _ _ Hb Ht Hlb Hlt _]. unfold set_target. cbv zeta.
  set (x1 := if r_target_pool x =? -1 then _ else x).
  assert (H1 : x1 = x <| r_target_pool := r_target_pool x1 |>) by (unfold x1; case_match; [done|by rewrite set_same_pool]).
  assert (r_target_oid x1 = r_target_oid x) as -> by (by rewrite H1).
  assert (r_base_oid x1 = r_base_oid x) as -> by (by rewrite H1).
  exists (r_target_pool x1). unfold CEPH_MAX_OID_NAME_LEN in *. destruct (oid_name_len (r_target_oid x) =? 0).
  - unfold ceph_oid_copy. rewrite bug_on_false, bind_Ret_eq
      by (rewrite u64_small by lia; unfold CEPH_MAX_OID_NAME_LEN; lia).
    destruct (write_fits (oid_name (r_target_oid x)) 0 (take (Z.to_nat (oid_name_len (r_base_oid x))) (oid_name (r_base_oid x))))
      as (b & E & Hl); [split; [lia|rewrite length_take; lia]|].
    rewrite E, !bind_Ret_eq. eexists _, _. split; [rewrite H1 at 1; reflexivity|]. cbn. split; [lia|congruence].
  - exists (r_target_oid x), (r_target_pool x =? -1). split; [|done]. unfold retarget. rewrite <- H1.
    assert (r_target_oid x = r_target_oid x1) as -> by (by rewrite H1). by rewrite set_same_oid.
Qed.

Lemma calc_request_pg_ok m x :
  good m -> sendable x ->
  exists p oid pg, __calc_request_pg m x = Ret (retarget x p oid, pg) /\
    sendable (retarget x p oid) /\ (forall e, pg = inr e -> e < 0).
Proof.
  intros Hm Hs. unfold __calc_request_pg. destruct (set_target_ok x Hs) as (p & oid & b & E & Ho & Hl).
  rewrite E, bind_Ret_eq. clear E. set (y := if _ && _ then _ else _).
  assert (Hy : exists p', y = retarget x p' oid).
  { unfold y, set_tier, retarget. repeat (case_match; try by eexists). }
  destruct Hy as (p' & ->). exists p', oid.
  assert (Hs' : sendable (retarget x p' oid)) by (destruct Hs; by split).
  destruct (placement_pg m p' oid Hm Ho Hl) as [[pg E]|E]; cbn; rewrite E.
  - by exists (inl pg).
  - exists (inr (- EIO)). split; [done|]. split; [done|]. by intros e' [= <-].
Qed.

(** ** Clients in order *)
Record rest_ok (c : osd_client) : Prop := {
  ro_linger : oc_req_linger c = [];
  ro_reqs : map_Forall (fun _ r => q_linger r = false /\ sendable (q_req r)) (oc_reqs c);
  ro_osds : map_Forall (fun _ x => o_linger_requests x = []) (oc_osds c);
  ro_map : exists m, oc_map c = Some m /\ good m /\
    map_Forall (fun o _ => 0 <= o < Z.of_nat (length (om_osd_addr m))) (oc_osds c) }.

Record client_ok (c : osd_client) : Prop := { co_view : view_ok (view_of c); co_rest : rest_ok c }.

(** ** Running the monad *)
Lemma run_bnd {A B} (m : OM A) (k : A -> OM B) c a c' : m c = Ret (a, c') -> obnd m k c = k a c'.
Proof. unfold obnd. by intros ->. Qed.
Lemma run_assoc {A B D} (m : OM A) (k : A -> OM B) (h : B -> OM D) c :
  obnd (obnd m k) h c = obnd m (fun a => obnd (k a) h) c.
Proof. unfold obnd. by destruct (m c) as [[]| |]. Qed.
Lemma run_modify {B} f (k : unit -> OM B) c : obnd (modify f) k c = k tt (f c).
Proof. done. Qed.
Lemma run_get {B} (k : osd_client -> OM B) c : obnd get_client k c = k c c.
Proof. done. Qed.
Lemma run_ret {A B} (a : A) (k : A -> OM B) c : obnd (oret a) k c = k a c.
Proof. done. Qed.
Lemma run_emit {B} e (k : unit -> OM B) c : obnd (emit e) k c = k tt (c <| oc_log ::= fun l => l ++ [e] |>).
Proof. done. Qed.
Lemma run_get_req {B} q (k : osd_request -> OM B) c r : oc_reqs c !! q = Some r -> obnd (get_req q) k c = k r c.
Proof. unfold obnd, get_req. by intros ->. Qed.
Lemma run_get_osd {B} o (k : ceph_osd -> OM B) c x : oc_osds c !! o = Some x -> obnd (get_osd_ o) k c = k x c.
Proof. unfold obnd, get_osd_. by intros ->. Qed.
Lemma run_mod_req_ q f c r :
  oc_reqs c !! q = Some r -> mod_req q f c = Ret (tt, c <| oc_reqs ::= insert q (f r) |>).
Proof. intros Hr. unfold mod_req. by rewrite (run_get_req q _ c r Hr). Qed.
Lemma run_mod_req {B} q f (k : unit -> OM B) c r :
  oc_reqs c !! q = Some r -> obnd (mod_req q f) k c = k tt (c <| oc_reqs ::= insert q (f r) |>).
Proof. intros Hr. apply run_bnd. by apply run_mod_req_. Qed.
Lemma run_mod_osd_ o f c x :
  oc_osds c !! o = Some x -> mod_osd o f c = Ret (tt, c <| oc_osds ::= insert o (f x) |>).
Proof. intros Hr. unfold mod_osd. by rewrite (run_get_osd o _ c x Hr). Qed.
Lemma run_mod_osd {B} o f (k : unit -> OM B) c x :
  oc_osds c !! o = Some x -> obnd (mod_osd o f) k c = k tt (c <| oc_osds ::= insert o (f x) |>).
Proof. intros Hr. apply run_bnd. by apply run_mod_osd_. Qed.

(** ** Views of changed clients *)
Lemma view_set_req c q r' :
  view_of (c <| oc_reqs ::= insert q r' |>) = (view_of c) <| v_reqs ::= insert q (rv r') |>.
Proof. unfold view_of. cbn. by rewrite fmap_insert. Qed.

Lemma view_ext v w :
  v_tree v = v_tree w -> v_last v = v_last w -> v_num v = v_num w -> v_reqs v = v_reqs w -> v_osds v = v_osds w ->
  v_idle v = v_idle w -> v_lru v = v_lru w -> v_unsent v = v_unsent w -> v_notarget v = v_notarget w -> v = w.
Proof. destruct v, w. cbn. by intros -> -> -> -> -> -> -> -> ->. Qed.

Lemma over_reqs f g v : f (v_reqs v) = g (v_reqs v) -> v <| v_reqs ::= f |> = v <| v_reqs ::= g |>.
Proof.
  intros E. change (v <| v_reqs ::= f |>) with (v <| v_reqs := f (v_reqs v) |>). by rewrite E.
Qed.
Lemma over_reqs_id f v : f (v_reqs v) = v_reqs v -> v <| v_reqs ::= f |> = v.
Proof.
  intros E. change (v <| v_reqs ::= f |>) with (v <| v_reqs := f (v_reqs v) |>). rewrite E. by destruct v.
Qed.

Lemma view_req c q r : oc_reqs c !! q = Some r -> v_reqs (view_of c) !! q = Some (rv r).
Proof. intros Hr. unfold view_of. cbn. by rewrite lookup_fmap, Hr. Qed.

Lemma view_osd c o x : oc_osds c !! o = Some x -> v_osds (view_of c) !! o = Some (o_requests x).
Proof. intros Hr. unfold view_of. cbn. by rewrite lookup_fmap, Hr. Qed.

Lemma view_same_req c q r r' :
  oc_reqs c !! q = Some r -> rv r' = rv r -> view_of (c <| oc_reqs ::= insert q r' |>) = view_of c.
Proof.
  intros Hr E. rewrite view_set_req. apply over_reqs_id, insert_id. rewrite E. by apply view_req.
Qed.

Lemma view_alter_req c q r f r' :
  oc_reqs c !! q = Some r -> rv r' = f (rv r) ->
  view_of (c <| oc_reqs ::= insert q r' |>) = (view_of c) <| v_reqs ::= alter f q |>.
Proof.
  intros Hr E. rewrite view_set_req. apply over_reqs. rewrite E. apply map_eq. intros j.
  destruct (decide (q = j)) as [<-|Hne].
  - by rewrite lookup_alter_eq, lookup_insert_eq, (view_req c q r Hr).
  - by rewrite lookup_alter_ne, lookup_insert_ne by done.
Qed.

Lemma view_same_osd c o x x' :
  oc_osds c !! o = Some x -> o_requests x' = o_requests x -> view_of (c <| oc_osds ::= insert o x' |>) = view_of c.
Proof.
  intros Hr E. unfold view_of. change (oc_osds (c <| oc_osds ::= insert o x' |>)) with (<[o := x']> (oc_osds c)).
  rewrite fmap_insert, insert_id; [done|]. by rewrite lookup_fmap, Hr, E.
Qed.

Lemma rest_set_req c q r' :
  rest_ok c -> q_linger r' = false -> sendable (q_req r') -> rest_ok (c <| oc_reqs ::= insert q r' |>).
Proof. intros [] Hl Hs. split; try done. cbn. by apply map_Forall_insert_2. Qed.

Lemma rest_set_osd c o x x' :
  rest_ok c -> oc_osds c !! o = Some x -> o_linger_requests x' = [] -> rest_ok (c <| oc_osds ::= insert o x' |>).
Proof.
  intros [Hl Hr Ho (m & Hm & Hg & Ha)] Hx Hx'. split; try done; cbn.
  - by apply map_Forall_insert_2.
  - exists m. split; [done|]. split; [done|]. apply map_Forall_insert_2; [|done]. exact (Ha o x Hx).
Qed.

Lemma registered_reg c q : registered q c = true <-> reg (view_of c) q.
Proof. unfold registered, mem, reg. cbn. by rewrite bool_decide_eq_true. Qed.

Lemma on_linger_none c q : map_Forall (fun _ x => o_linger_requests x = []) (oc_osds c) -> on_linger_osd q c = false.
Proof.
  intros Ho. unfold on_linger_osd. apply not_true_is_false. rewrite existsb_exists. intros ([o x] & Hin & Hm).
  apply list_elem_of_In, elem_of_map_to_list in Hin. specialize (Ho o x Hin). cbn in Ho. unfold mem in Hm.
  rewrite Ho in Hm. by apply bool_decide_eq_true in Hm as ?%not_elem_of_nil.
Qed.

Lemma on_osd_none c q : (forall o x, oc_osds c !! o = Some x -> q ∉ o_requests x) -> on_osd q c = false.
Proof.
  intros Ho. unfold on_osd. apply not_true_is_false. rewrite existsb_exists. intros ([o x] & Hin & Hm).
  apply list_elem_of_In, elem_of_map_to_list in Hin. unfold mem in Hm. apply bool_decide_eq_true in Hm. by eapply Ho.
Qed.

(** ** References *)
Definition put_req (q : nat) (r : osd_request) (c : osd_client) : osd_client :=
  if q_kref r - 1 =? 0
  then c <| oc_reqs ::= delete q |> <| oc_log ::= fun l => (l ++ [MsgRevokeIncoming q]) ++ [ReqFreed q] |>
  else c <| oc_reqs ::= insert q (r <| q_kref ::= Z.pred |>) |>.

Lemma run_put q c r : oc_reqs c !! q = Some r -> ceph_osdc_put_request q c = Ret (tt, put_req q r c).
Proof.
  intros Hr. unfold ceph_osdc_put_request, put_req. rewrite (run_get_req q _ c r Hr). by destruct (q_kref r - 1 =? 0).
Qed.

Lemma put_req_ok q c r :
  client_ok c -> oc_reqs c !! q = Some r -> ~ reg (view_of c) q \/ 1 < q_kref r -> client_ok (put_req q r c).
Proof.
  intros [Hv Hr] Hq Hn. pose proof (ok_kref _ Hv q _ (view_req c q r Hq)) as Hk. cbn in Hk.
  destruct (ro_reqs c Hr q r Hq) as [Hl Hs]. unfold put_req. case_Zb.
  - split.
    + assert (view_of (c <| oc_reqs ::= delete q |> <| oc_log ::= fun l => (l ++ [MsgRevokeIncoming q]) ++ [ReqFreed q] |>) =
        free q (view_of c)) as -> by (unfold view_of, free; cbn; by rewrite fmap_delete).
      apply free_ok; [done|]. destruct Hn; [done|lia].
    + destruct Hr. split; try done. cbn. by apply map_Forall_delete.
  - split; [|by apply rest_set_req].
    rewrite (view_alter_req c q r (fun x => x <| v_kref := q_kref r - 1 |>)) by done.
    apply (set_kref_ok (view_of c) q (q_kref r - 1)); [done|lia].
Qed.

Lemma run_get_request {B} q (k : unit -> OM B) c r :
  oc_reqs c !! q = Some r -> obnd (ceph_osdc_get_request q) k c = k tt (c <| oc_reqs ::= insert q (r <| q_kref ::= Z.succ |>) |>).
Proof. apply run_mod_req. Qed.

Lemma get_req_ok q c r :
  client_ok c -> oc_reqs c !! q = Some r -> client_ok (c <| oc_reqs ::= insert q (r <| q_kref ::= Z.succ |>) |>).
Proof.
  intros [Hv Hr] Hq. pose proof (ok_kref _ Hv q _ (view_req c q r Hq)) as Hk. cbn in Hk.
  destruct (ro_reqs c Hr q r Hq) as [Hl Hs]. split; [|by apply rest_set_req].
  rewrite (view_alter_req c q r (fun x => x <| v_kref := q_kref r + 1 |>)) by done.
  apply (set_kref_ok (view_of c) q (q_kref r + 1)); [done|lia].
Qed.

(** ** Unregistering *)

(** A session that holds [q] is not idle. *)
Lemma held_not_idle v o l q : view_ok v -> v_osds v !! o = Some l -> q ∈ l -> o ∉ v_idle v.
Proof.
  intros Hok Hl Hin Hi. destruct (ok_idle v Hok) as [_ Hs]. rewrite (Hs o Hi) in Hl. injection Hl as <-. set_solver.
Qed.

(** Leaving the session [o], which may become idle. *)
Lemma maybe_move_run c o x :
  oc_osds c !! o = Some x -> o_linger_requests x = [] -> (o ∉ oc_osd_lru c) ->
  exists ttl, maybe_move_osd_to_lru osd_idle_ttl HZ o c =
    Ret (tt, if is_nil (o_requests x)
             then c <| oc_osd_lru ::= fun l => l ++ [o] |> <| oc_osds ::= insert o (x <| o_lru_ttl := ttl |>) |> else c).
Proof.
  intros Hx Hlx Hi. unfold maybe_move_osd_to_lru. rewrite (run_get_osd o _ c x Hx), Hlx. cbn [is_nil].
  rewrite andb_true_r. destruct (is_nil (o_requests x)); [|by exists 0].
  unfold __move_osd_to_lru. rewrite run_get. unfold mem. rewrite bool_decide_eq_false_2 by done.
  rewrite run_modify, (run_mod_osd_ o _ _ x) by done. by eexists.
Qed.

Lemma idle_session_ok c o x ttl :
  client_ok c -> oc_osds c !! o = Some x -> (o ∉ oc_osd_lru c) ->
  client_ok (if is_nil (o_requests x)
             then c <| oc_osd_lru ::= fun l => l ++ [o] |> <| oc_osds ::= insert o (x <| o_lru_ttl := ttl |>) |> else c).
Proof.
  intros [Hv Hr] Hx Hi. destruct (o_requests x) as [|y l] eqn:El; [|done]. cbn [is_nil].
  set (c1 := c <| oc_osd_lru ::= fun l => l ++ [o] |>). split.
  - rewrite (view_same_osd c1 o x) by done. apply (make_idle_ok (view_of c) o); [done| |done].
    by rewrite (view_osd c o x Hx), El.
  - apply (rest_set_osd c1 o x); [by destruct Hr|done|]. exact (ro_osds c Hr o x Hx).
Qed.

Lemma log_ok f c : client_ok c -> client_ok (c <| oc_log ::= f |>).
Proof. intros [Hv []]. by split; [|split]. Qed.

(** A request out of the tree, of its session and of the lists. *)
Definition detach (q : nat) (r : osd_request) (c : osd_client) : osd_client :=
  c <| oc_requests ::= remove_entry q |> <| oc_num_requests ::= Z.pred |>
    <| oc_osds ::= fmap (fun o : ceph_osd => o <| o_requests ::= rem q |>) |>
    <| oc_reqs ::= insert q (r <| q_osd := None |>) |>
    <| oc_req_lru ::= rem q |> <| oc_req_unsent ::= rem q |> <| oc_req_notarget ::= rem q |>.

Lemma detach_view q r c : oc_reqs c !! q = Some r -> view_of (detach q r c) = erase q (unlink q (view_of c)).
Proof.
  intros Hr. apply view_ext; try reflexivity.
  - change (rv <$> <[q := r <| q_osd := None |>]> (oc_reqs c) = alter (fun r : rview => r <| v_osd := None |>) q (rv <$> oc_reqs c)).
    rewrite fmap_insert. apply map_eq. intros j. destruct (decide (q = j)) as [<-|Hne].
    + by rewrite lookup_insert_eq, lookup_alter_eq, lookup_fmap, Hr.
    + by rewrite lookup_insert_ne, lookup_alter_ne by done.
  - change (o_requests <$> ((fun o : ceph_osd => o <| o_requests ::= rem q |>) <$> oc_osds c) = rem q <$> (o_requests <$> oc_osds c)).
    by rewrite <- !map_fmap_compose.
Qed.

Lemma detach_ok q r c :
  client_ok c -> oc_reqs c !! q = Some r -> reg (view_of c) q ->
  client_ok (detach q r c) /\ ~ reg (view_of (detach q r c)) q.
Proof.
  intros [Hv Hr] Hq Hreg. rewrite detach_view by done. split; [split|].
  - rewrite detach_view by done. apply (erase_ok _ q ((rv r) <| v_osd := None |>)).
    + by apply unlink_ok.
    + cbn. apply lookup_alter_Some. exists (rv r). rewrite decide_True by done. split; [by apply view_req|done].
    + done.
    + exact Hreg.
    + rewrite waiting_unlink, elem_of_rem. by intros [? _].
  - destruct (ro_reqs c Hr q r Hq) as [Hl Hs]. destruct Hr as [Hl0 Hr0 Ho0 (m & Hm & Hg & Ha)]. split; try done; cbn.
    + by apply map_Forall_insert_2.
    + intros o x. rewrite lookup_fmap_Some. intros (x0 & <- & Hx0). exact (Ho0 o x0 Hx0).
    + exists m. split; [done|]. split; [done|]. intros o x. rewrite lookup_fmap_Some. intros (x0 & <- & Hx0). exact (Ha o x0 Hx0).
  - rewrite reg_erase. by intros [? _].
Qed.

(** With no session, only the tree and the lists change. *)
Lemma fmap_rem_id (q : nat) (m : gmap Z ceph_osd) :
  (forall o x, m !! o = Some x -> q ∉ o_requests x) -> (fun o : ceph_osd => o <| o_requests ::= rem q |>) <$> m = m.
Proof.
  intros Hm. apply map_eq. intros o. rewrite lookup_fmap. destruct (m !! o) as [x|] eqn:E; [|done]. cbn [fmap option_fmap option_map].
  f_equal. specialize (Hm o x E). destruct x. cbn in Hm |- *. unfold over. by rewrite rem_not_in.
Qed.

Lemma unheld_osds c q r :
  view_ok (view_of c) -> oc_reqs c !! q = Some r -> q_osd r = None -> forall o x, oc_osds c !! o = Some x -> q ∉ o_requests x.
Proof.
  intros Hv Hr Ho o x Hx. apply (unheld (view_of c) q (rv r) Hv (view_req c q r Hr) Ho o). by apply view_osd.
Qed.

Definition detach0 (q : nat) (c : osd_client) : osd_client :=
  c <| oc_requests ::= remove_entry q |> <| oc_num_requests ::= Z.pred |>
    <| oc_req_lru ::= rem q |> <| oc_req_unsent ::= rem q |> <| oc_req_notarget ::= rem q |>.

Lemma set_reqs_osds c : c <| oc_reqs := oc_reqs c |> = c /\ c <| oc_osds := oc_osds c |> = c.
Proof. by destruct c. Qed.

Lemma detach_none q r c :
  view_ok (view_of c) -> oc_reqs c !! q = Some r -> q_osd r = None -> detach q r c = detach0 q c.
Proof.
  intros Hv Hr Ho. pose proof (fmap_rem_id q (oc_osds c) (unheld_osds c q r Hv Hr Ho)) as E1.
  assert (E2 : <[q := r <| q_osd := None |>]> (oc_reqs c) = oc_reqs c).
  { apply insert_id. rewrite Hr. f_equal. destruct r. cbn in Ho. by subst. }
  change (detach q r c) with
    (detach0 q (c <| oc_osds := (fun o : ceph_osd => o <| o_requests ::= rem q |>) <$> oc_osds c |>
                  <| oc_reqs := <[q := r <| q_osd := None |>]> (oc_reqs c) |>)).
  rewrite E1, E2. by destruct c.
Qed.

Lemma log_id c : c <| oc_log ::= fun l => l |> = c.
Proof. by destruct c. Qed.

Lemma unregister_run c q r :
  client_ok c -> oc_reqs c !! q = Some r -> reg (view_of c) q ->
  exists cd f, __unregister_request osd_idle_ttl HZ q c = Ret (tt, (put_req q (r <| q_osd := None |>) cd) <| oc_log ::= f |>) /\
    client_ok cd /\ oc_reqs cd = <[q := r <| q_osd := None |>]> (oc_reqs c) /\ ~ reg (view_of cd) q /\
    oc_req_unsent cd = rem q (oc_req_unsent c) /\ oc_map cd = oc_map c /\ oc_last_tid cd = oc_last_tid c.
Proof.
  intros Hok Hq Hreg. destruct (detach_ok q r c Hok Hq Hreg) as [Hd Hnr]. pose proof Hok as [Hv Hr].
  unfold __unregister_request. rewrite run_get, (proj2 (registered_reg c q) Hreg). cbn [negb].
  rewrite run_modify, (run_get_req q _ _ r) by done.
  assert (Hend : forall (b : bool) c1 c2, c1 = c2 -> oc_reqs c1 !! q = Some (r <| q_osd := None |>) -> exists f,
    obnd (ceph_osdc_put_request q) (fun _ => if b then emit TimeoutCancelled else oret tt) c1 =
    Ret (tt, (put_req q (r <| q_osd := None |>) c2) <| oc_log ::= f |>)).
  { intros b c1 c2 -> H1. rewrite (run_bnd _ _ _ _ _ (run_put q c2 _ H1)). destruct b; [by eexists|].
    exists (fun l => l). by rewrite log_id. }
  destruct (q_osd r) as [o|] eqn:Eo.
  - destruct (ok_session _ Hv q (rv r) o (view_req c q r Hq) Eo) as (l & Hl & Hin).
    unfold view_of in Hl. cbn -[fmap] in Hl. apply lookup_fmap_Some in Hl as (x & <- & Hx).
    pose proof (held_not_idle _ o _ q Hv (view_osd c o x Hx) Hin) as Hi.
    set (x1 := x <| o_requests ::= rem q |>). set (c0 := c <| oc_log ::= fun l => l ++ [MsgRevoke q] |>).
    assert (Hx1 : oc_osds (detach q r c0) !! o = Some x1) by (cbn -[fmap insert]; by rewrite lookup_fmap, Hx).
    assert (Hd0 : client_ok (detach q r c0)) by exact (log_ok (fun l => l ++ [MsgRevoke q]) _ Hd).
    rewrite !run_assoc, run_emit, run_assoc. unfold osd_item_del. rewrite run_modify, run_assoc.
    match goal with |- context [obnd (maybe_move_osd_to_lru _ _ _) _ ?cc] =>
      destruct (maybe_move_run cc o x1 Hx1 (ro_osds c Hr o x Hx) Hi) as [ttl Em]; rewrite (run_bnd _ _ _ _ _ Em); clear Em end.
    rewrite run_assoc, run_get.
    assert (Hfl : map_Forall (fun _ x => o_linger_requests x = []) (oc_osds (detach q r c0))) by apply (ro_osds _ (co_rest _ Hd0)).
    pose proof (idle_session_ok (detach q r c0) o x1 ttl Hd0 Hx1 Hi) as Hidle.
    set (cd := if is_nil (o_requests x1) then _ else detach q r c0) in Hidle.
    assert (Hcd : oc_reqs cd = <[q := r <| q_osd := None |>]> (oc_reqs c) /\ oc_requests cd = oc_requests (detach q r c0) /\
      oc_req_unsent cd = rem q (oc_req_unsent c) /\ oc_map cd = oc_map c /\ oc_last_tid cd = oc_last_tid c)
      by (unfold cd; by destruct (is_nil _)).
    destruct Hcd as (C1 & C2 & C3). exists cd. rewrite on_linger_none.
    + rewrite (run_mod_req q _ _ _ r) by (by destruct (is_nil (o_requests x1))). unfold lru_item_del. rewrite run_modify.
      destruct (Hend (oc_num_requests c - 1 =? 0) cd cd eq_refl) as [f Ef]; [by rewrite C1, lookup_insert_eq|].
      exists f. split; [|split; [done|split; [done|split; [|done]]]].
      * rewrite <- Ef. f_equal. unfold cd. by destruct (is_nil (o_requests x1)).
      * intros Hrg. apply Hnr. unfold reg in *. cbn -[detach] in Hrg |- *. by rewrite C2 in Hrg.
    + destruct (is_nil (o_requests x1)); [|done]. apply map_Forall_insert_2; [|done]. exact (ro_osds c Hr o x Hx).
  - rewrite run_ret. unfold lru_item_del. rewrite run_modify.
    assert (Er : r <| q_osd := None |> = r) by (destruct r; cbn in *; by subst).
    destruct (Hend (oc_num_requests c - 1 =? 0) _ (detach0 q c) eq_refl) as [f Ef]; [cbn; by rewrite Er|].
    exists (detach0 q c), f. split; [exact Ef|]. rewrite <- (detach_none q r c Hv Hq Eo).
    split; [exact Hd|]. split; [done|]. split; [exact Hnr|]. done.
Qed.

(** ** Registering *)
Lemma insert_entry_last tid q l :
  (forall t x, (t, x) ∈ l -> t < tid) -> insert_entry tid q l = Ret (l ++ [(tid, q)]).
Proof.
  induction l as [|[t x] l IH]; [done|]. intros Hl. cbn. assert (t < tid) by (apply (Hl t x); set_solver).
  rewrite (proj2 (Z.ltb_ge tid t)), (proj2 (Z.ltb_lt t tid)) by lia. rewrite IH; [done|]. intros t' x' Hin. apply (Hl t' x'). set_solver.
Qed.

Lemma set_reqs_eq c m m' : m = m' -> c <| oc_reqs := m |> = c <| oc_reqs := m' |>.
Proof. by intros ->. Qed.

Definition with_tid (tid : Z) (r : osd_request) : osd_request :=
  r <| q_tid := tid |>
    <| q_req ::= fun x => x <| r_request ::= fun m => m <| m_hdr ::= fun h => h <| h_tid := tid |> |> |> |>.

Lemma register_run c q r :
  client_ok c -> oc_reqs c !! q = Some r -> ~ reg (view_of c) q -> 0 <= oc_last_tid c < 2 ^ 64 - 1 ->
  exists c', __register_request q c = Ret (tt, c') /\ client_ok c' /\ reg (view_of c') q /\
    oc_reqs c' = <[q := (with_tid (oc_last_tid c + 1) r) <| q_kref ::= Z.succ |>]> (oc_reqs c) /\
    oc_req_unsent c' = oc_req_unsent c /\ oc_map c' = oc_map c /\ oc_last_tid c' = oc_last_tid c + 1.
Proof.
  intros [Hv Hr] Hq Hn Ht. destruct (ro_reqs c Hr q r Hq) as [Hl Hs].
  pose proof (ok_kref _ Hv q _ (view_req c q r Hq)) as Hk. cbn in Hk.
  unfold __register_request. rewrite run_modify.
  change (c <| oc_last_tid ::= fun t => u64 (t + 1) |>) with (c <| oc_last_tid := u64 (oc_last_tid c + 1) |>).
  rewrite u64_small, run_get by lia. set (tid := oc_last_tid c + 1).
  change (oc_last_tid (c <| oc_last_tid := tid |>)) with tid. cbv zeta. rewrite (run_mod_req q _ _ _ r) by done.
  unfold __insert_request. rewrite run_assoc, (run_get_req q _ _ (with_tid tid r)) by (cbn -[insert]; by rewrite lookup_insert_eq).
  rewrite run_assoc, run_get, run_assoc.
  change (q_tid (with_tid tid r)) with tid.
  match goal with |- context [insert_entry tid q (oc_requests ?cc)] => change (oc_requests cc) with (oc_requests c) end.
  rewrite insert_entry_last by (intros t x Hin; destruct (ok_tree _ Hv t x Hin); cbn in *; lia).
  rewrite (run_bnd (olift (Ret _)) _ _ _ _ eq_refl), run_modify.
  rewrite (run_get_request q _ _ (with_tid tid r)) by (cbn -[insert]; by rewrite lookup_insert_eq). rewrite run_modify.
  set (r' := (with_tid tid r) <| q_kref ::= Z.succ |>).
  assert (Hfin : forall c' lg, c' = c <| oc_last_tid := tid |> <| oc_reqs ::= insert q r' |>
    <| oc_requests ::= fun l => l ++ [(tid, q)] |> <| oc_num_requests ::= Z.succ |> <| oc_log := lg |> ->
    client_ok c' /\ reg (view_of c') q /\ oc_reqs c' = <[q := r']> (oc_reqs c) /\
    oc_req_unsent c' = oc_req_unsent c /\ oc_map c' = oc_map c /\ oc_last_tid c' = tid).
  { intros c' lg ->. split; [split|split; [|done]].
    - set (v' := set_kref q (q_kref r + 1) (register q (view_of c))).
      assert (E : view_of (c <| oc_last_tid := tid |> <| oc_reqs ::= insert q r' |> <| oc_requests ::= fun l => l ++ [(tid, q)] |>
        <| oc_num_requests ::= Z.succ |> <| oc_log := lg |>) = v').
      { apply view_ext; try reflexivity.
        change (rv <$> <[q := r']> (oc_reqs c) = v_reqs v'). rewrite fmap_insert. apply map_eq. intros j.
        change (v_reqs v') with (alter (fun x : rview => x <| v_kref := q_kref r + 1 |>) q
          (alter (fun x : rview => x <| v_tid := tid |>) q (rv <$> oc_reqs c))).
        destruct (decide (q = j)) as [<-|Hne].
        - by rewrite lookup_insert_eq, !lookup_alter_eq, lookup_fmap, Hq.
        - by rewrite lookup_insert_ne, !lookup_alter_ne by done. }
      rewrite E. apply set_kref_ok; [|lia]. by eapply register_ok; [|apply view_req|].
    - assert (Hs' : sendable (q_req r')) by (apply (sendable_eq (q_req r)); [by left|done|done]).
      destruct Hr as [Hr1 Hr2 Hr3 Hr4]. split; try done. cbn -[insert]. by apply map_Forall_insert_2.
    - unfold reg. cbn. rewrite fmap_app. set_solver. }
  pose proof (insert_insert_eq (oc_reqs c) q r' (with_tid tid r)) as Eins.
  destruct (oc_num_requests _ + 1 =? 1); (eexists; split; [reflexivity|]).
  - apply (Hfin _ (oc_log c ++ [TimeoutScheduled])). exact (set_reqs_eq (c <| oc_last_tid := tid |>
    <| oc_requests ::= fun l => l ++ [(tid, q)] |> <| oc_num_requests ::= Z.succ |> <| oc_log := oc_log c ++ [TimeoutScheduled] |>) _ _ Eins).
  - apply (Hfin _ (oc_log c)). exact (set_reqs_eq (c <| oc_last_tid := tid |>
    <| oc_requests ::= fun l => l ++ [(tid, q)] |> <| oc_num_requests ::= Z.succ |> <| oc_log := oc_log c |>) _ _ Eins).
Qed.

(** ** Sending *)
Definition filled (r : osd_request) (buf : list Z) (stamp sent : Z) : osd_request :=
  r <| q_req ::= fun x => x <| r_request ::= fun m => m <| m_front ::= fun v => Kvec buf (iov_len v) |> <| m_kref ::= Z.succ |> |> |>
    <| q_stamp := stamp |> <| q_sent := sent |>.

Lemma send_run c q r o :
  client_ok c -> oc_reqs c !! q = Some r -> q_osd r = Some o ->
  exists c' buf stamp sent front, __send_request q c = Ret (tt, c') /\ client_ok c' /\
    oc_reqs c' = <[q := filled r buf stamp sent]> (oc_reqs c) /\
    oc_req_unsent c' = rem q (oc_req_unsent c) /\ oc_map c' = oc_map c /\ oc_last_tid c' = oc_last_tid c /\
    oc_requests c' = oc_requests c /\ oc_log c' = oc_log c ++ [ConSend o q (q_tid r) front].
Proof.
  intros [Hv Hr] Hq Ho. destruct (ro_map c Hr) as (m & Hm & Hg & Ha). destruct (ro_reqs c Hr q r Hq) as [Hl Hs].
  destruct (ok_session _ Hv q (rv r) o (view_req c q r Hq) Ho) as (l & Hlo & Hin).
  unfold view_of in Hlo. cbn -[fmap] in Hlo. apply lookup_fmap_Some in Hlo as (x & <- & Hx).
  assert (Hreg : reg (view_of c) q) by (by destruct (ok_held _ Hv o _ q (view_osd c o x Hx) Hin)).
  destruct (fill_request_ok (om_epoch m) (q_pgid r) (q_req r) Hs) as (buf & Ef & Hlb).
  unfold __send_request. rewrite run_get, Hm. cbn [deref]. rewrite (run_bnd (olift (Ret _)) _ _ _ _ eq_refl).
  rewrite (run_get_req q _ c r Hq), Ho. cbn [deref]. rewrite (run_bnd (olift (Ret _)) _ _ _ _ eq_refl).
  rewrite Ef, (run_bnd (olift (Ret _)) _ _ _ _ eq_refl), (run_mod_req q _ _ _ r) by done.
  unfold to_req_lru, lru_item_del. rewrite run_assoc, run_modify, run_modify, (run_get_osd o _ _ x) by done.
  match goal with |- context [obnd (mod_req q ?f) _ ?cc] => rewrite (run_mod_req q f _ cc
    (r <| q_req := (q_req r) <| r_request ::= fun m => m <| m_front ::= fun v => Kvec buf (iov_len v) |> |> |> <| q_stamp := oc_jiffies c |>)) end;
    [|cbn -[insert]; by rewrite lookup_insert_eq].
  set (r' := filled r buf (oc_jiffies c) (u32 (o_incarnation x))).
  match goal with |- context [emit ?e ?cc] => set (c1 := cc); set (ev := e) end.
  assert (E1 : c1 = c <| oc_req_lru ::= fun l => rem q l ++ [q] |> <| oc_req_unsent ::= rem q |> <| oc_req_notarget ::= rem q |>
                      <| oc_reqs := <[q := r']> (oc_reqs c) |>).
  { unfold c1. rewrite <- (insert_insert_eq (oc_reqs c) q r'
      (r <| q_req := (q_req r) <| r_request ::= fun m => m <| m_front ::= fun v => Kvec buf (iov_len v) |> |> |> <| q_stamp := oc_jiffies c |>)).
    reflexivity. }
  exists (c1 <| oc_log ::= fun l => l ++ [ev] |>), buf, (oc_jiffies c), (u32 (o_incarnation x)).
  eexists. split; [reflexivity|]. split; [apply log_ok|rewrite E1; by repeat (split; [done|])].
  rewrite E1. clear c1 ev E1. split.
  - assert (E : view_of (c <| oc_req_lru ::= fun l => rem q l ++ [q] |> <| oc_req_unsent ::= rem q |> <| oc_req_notarget ::= rem q |>
                      <| oc_reqs := <[q := r']> (oc_reqs c) |>) =
      relist (rem q (oc_req_lru c) ++ [q]) (rem q (oc_req_unsent c)) (rem q (oc_req_notarget c)) (view_of c)).
    { apply view_ext; try reflexivity. change (rv <$> <[q := r']> (oc_reqs c) = rv <$> oc_reqs c).
      rewrite fmap_insert, insert_id; [done|]. by rewrite lookup_fmap, Hq. }
    rewrite E. apply (sent_ok (view_of c) q (rv r)); [done|by apply view_req| |done]. cbn. by rewrite Ho.
  - assert (Hs' : sendable (q_req r')) by (apply (sendable_eq (q_req r)); [by right|done|done]).
    destruct Hr as [Hr1 Hr2 Hr3 Hr4]. split; try done. cbn -[insert]. by apply map_Forall_insert_2.
Qed.

(** [e] is the sending of [q] to its session. *)
Definition sends_req (reqs : gmap nat rview) (q : nat) (e : effect) : Prop :=
  exists r o front, reqs !! q = Some r /\ v_osd r = Some o /\ e = ConSend o q (v_tid r) front.

Lemma send_each l c :
  client_ok c -> NoDup l -> (forall q, q ∈ l -> q ∈ oc_req_unsent c) ->
  exists c' sends, for_each l __send_request c = Ret (tt, c') /\ client_ok c' /\
    (forall q, q ∈ oc_req_unsent c' <-> q ∈ oc_req_unsent c /\ q ∉ l) /\
    rv <$> oc_reqs c' = rv <$> oc_reqs c /\ oc_map c' = oc_map c /\
    oc_last_tid c' = oc_last_tid c /\ oc_requests c' = oc_requests c /\ oc_log c' = oc_log c ++ sends /\
    Forall2 (sends_req (rv <$> oc_reqs c)) l sends.
Proof.
  revert c. induction l as [|q l IH]; intros c Hok Hnd Hin.
  { exists c, []. rewrite app_nil_r. split; [done|]. split; [done|]. split; [set_solver|]. done. }
  apply NoDup_cons in Hnd as [Hql Hnd]. assert (Hq : q ∈ oc_req_unsent c) by set_solver.
  pose proof (co_view c Hok) as Hv.
  assert (Hreg : reg (view_of c) q) by (apply (ok_waiting _ Hv); unfold waiting; cbn; set_solver).
  destruct (reg_lookup _ q Hv Hreg) as (x & Hx). cbn -[fmap] in Hx. apply lookup_fmap_Some in Hx as (r & <- & Hr).
  pose proof (ok_target _ Hv q (rv r)) as Ho. cbn in Ho. specialize (Ho ltac:(set_solver) ltac:(by apply view_req)).
  destruct (q_osd r) as [o|] eqn:Eo; [|done]. clear Ho.
  destruct (send_run c q r o Hok Hr Eo) as (c1 & buf & stamp & sent & front & E1 & Hok1 & Hr1 & Hu1 & Hm1 & Hl1 & Ht1 & Hlog1).
  assert (Hrv : rv <$> oc_reqs c1 = rv <$> oc_reqs c).
  { rewrite Hr1, fmap_insert, insert_id; [done|]. by rewrite lookup_fmap, Hr. }
  destruct (IH c1 Hok1 Hnd) as (c' & sends & E' & Hok' & Hu' & Hrv' & Hm' & Hl' & Ht' & Hlog' & Hs').
  { intros y Hy. rewrite Hu1, elem_of_rem. split; [by intros ->|set_solver]. }
  exists c', (ConSend o q (q_tid r) front :: sends). cbn [for_each]. rewrite (run_bnd _ _ _ _ _ E1).
  split; [done|]. split; [done|]. split; [intros y; rewrite Hu', Hu1, elem_of_rem; set_solver|].
  split; [congruence|]. split; [congruence|]. split; [congruence|]. split; [congruence|].
  split; [rewrite Hlog', Hlog1, <- app_assoc; done|]. constructor; [|by rewrite <- Hrv].
  exists (rv r), o, front. split; [by rewrite lookup_fmap, Hr|]. done.
Qed.

(** Everything that waits to be sent is sent, in order. *)
Lemma send_queued_run c :
  client_ok c ->
  exists c' sends, __send_queued c = Ret (tt, c') /\ client_ok c' /\ oc_req_unsent c' = [] /\
    rv <$> oc_reqs c' = rv <$> oc_reqs c /\ oc_map c' = oc_map c /\
    oc_last_tid c' = oc_last_tid c /\ oc_requests c' = oc_requests c /\ oc_log c' = oc_log c ++ sends /\
    Forall2 (sends_req (rv <$> oc_reqs c)) (oc_req_unsent c) sends.
Proof.
  intros Hok. unfold __send_queued. rewrite run_get.
  assert (Hnd : NoDup (oc_req_unsent c)).
  { pose proof (ok_lists _ (co_view c Hok)) as Hn. unfold waiting in Hn. cbn in Hn.
    apply NoDup_app in Hn as (_ & _ & Hn). by apply NoDup_app in Hn as (Hn & _). }
  destruct (send_each (oc_req_unsent c) c Hok Hnd) as (c' & sends & E & Hok' & Hu & Hrest); [done|].
  exists c', sends. split; [done|]. split; [done|]. split; [|done].
  destruct (oc_req_unsent c') as [|y l]; [done|]. exfalso. destruct (proj1 (Hu y)) as [? Hn]; [set_solver|done].
Qed.

(** ** Mapping *)
Lemma enqueue_run c q r o x :
  oc_reqs c !! q = Some r -> q_osd r = Some o -> oc_osds c !! o = Some x ->
  (forall o x, oc_osds c !! o = Some x -> q ∉ o_requests x) ->
  __enqueue_request q c = Ret (tt, c <| oc_osd_lru ::= rem o |> <| oc_osds ::= insert o (x <| o_requests ::= fun l => l ++ [q] |>) |>
    <| oc_req_lru ::= rem q |> <| oc_req_unsent ::= fun l => rem q l ++ [q] |> <| oc_req_notarget ::= rem q |>).
Proof.
  intros Hr Ho Hx Hun. unfold __enqueue_request. rewrite (run_get_req q _ c r Hr), Ho.
  unfold __remove_osd_from_lru. rewrite run_modify. unfold osd_item_add. rewrite run_assoc, run_get, on_osd_none by done.
  rewrite (run_mod_osd o _ _ _ x) by done. reflexivity.
Qed.

(** The request out of its session and of the lists. *)
Definition unlinked (q : nat) (r : osd_request) (c : osd_client) : osd_client :=
  c <| oc_osds ::= fmap (fun o : ceph_osd => o <| o_requests ::= rem q |>) |>
    <| oc_reqs ::= insert q (r <| q_osd := None |>) |>
    <| oc_req_lru ::= rem q |> <| oc_req_unsent ::= rem q |> <| oc_req_notarget ::= rem q |>.

Lemma unlinked_view q r r0 c :
  oc_reqs c !! q = Some r0 -> q_tid r = q_tid r0 -> q_kref r = q_kref r0 ->
  view_of (unlinked q r c) = unlink q (view_of c).
Proof.
  intros Hr Ht Hk. apply view_ext; try reflexivity.
  - change (rv <$> <[q := r <| q_osd := None |>]> (oc_reqs c) = alter (fun r : rview => r <| v_osd := None |>) q (rv <$> oc_reqs c)).
    rewrite fmap_insert. apply map_eq. intros j. destruct (decide (q = j)) as [<-|Hne].
    + rewrite lookup_insert_eq, lookup_alter_eq, lookup_fmap, Hr. cbn. unfold rv. cbn. by rewrite Ht, Hk.
    + by rewrite lookup_insert_ne, lookup_alter_ne by done.
  - change (o_requests <$> ((fun o : ceph_osd => o <| o_requests ::= rem q |>) <$> oc_osds c) = rem q <$> (o_requests <$> oc_osds c)).
    by rewrite <- !map_fmap_compose.
Qed.

Lemma unlinked_ok q r r0 c :
  client_ok c -> oc_reqs c !! q = Some r0 -> q_tid r = q_tid r0 -> q_kref r = q_kref r0 ->
  q_linger r = false -> sendable (q_req r) ->
  client_ok (unlinked q r c).
Proof.
  intros [Hv Hr] Hq Ht Hk Hlr Hsr. split; [rewrite (unlinked_view q r r0) by done; by apply unlink_ok|].
  destruct Hr as [Hl0 Hr0 Ho0 (m & Hm & Hg & Ha)]. split; try done; cbn -[insert fmap].
  - by apply map_Forall_insert_2.
  - intros o x. rewrite lookup_fmap_Some. intros (x0 & <- & Hx0). exact (Ho0 o x0 Hx0).
  - exists m. split; [done|]. split; [done|]. intros o x. rewrite lookup_fmap_Some. intros (x0 & <- & Hx0). exact (Ha o x0 Hx0).
Qed.

Lemma fmap_linger_id (q : nat) (m : gmap Z ceph_osd) :
  map_Forall (fun _ x => o_linger_requests x = []) m -> (fun o : ceph_osd => o <| o_linger_requests ::= rem q |>) <$> m = m.
Proof.
  intros Hm. apply map_eq. intros o. rewrite lookup_fmap. destruct (m !! o) as [x|] eqn:E; [|done]. cbn [fmap option_fmap option_map].
  f_equal. specialize (Hm o x E). destruct x. cbn in Hm |- *. unfold over. by rewrite Hm.
Qed.

(** What __map_request does to a request before it looks for the new session. *)
Definition leave_session (q : nat) (r : osd_request) : OM unit :=
  if bool_decide (is_Some (q_osd r)) then
    _ ⟸ __cancel_request q;
    _ ⟸ osd_item_del q;
    _ ⟸ linger_osd_item_del q;
    mod_req q (fun r => r <| q_osd := None |>)
  else oret tt.

Definition left_session (q : nat) (r : osd_request) (lg : list effect) (c : osd_client) : osd_client :=
  c <| oc_osds := (fun o : ceph_osd => o <| o_requests ::= rem q |>) <$> oc_osds c |>
    <| oc_reqs := <[q := r]> (oc_reqs c) |> <| oc_log := lg |>.

Lemma leave_run c q r :
  client_ok c -> oc_reqs c !! q = Some r ->
  exists sent lg, leave_session q r c = Ret (tt, left_session q (r <| q_sent := sent |> <| q_osd := None |>) lg c).
Proof.
  intros [Hv Hr] Hq. unfold leave_session. destruct (q_osd r) as [o|] eqn:Eo.
  - rewrite bool_decide_eq_true_2 by done. unfold __cancel_request. rewrite run_assoc, (run_get_req q _ c r Hq), Eo.
    rewrite (bool_decide_eq_true_2 (is_Some (Some o))), andb_true_r by done.
    assert (Hend : forall c1 r1 sent, oc_reqs c1 = <[q := r1]> (oc_reqs c) -> oc_osds c1 = oc_osds c -> r1 = r <| q_sent := sent |> ->
      (_ ⟸ osd_item_del q; _ ⟸ linger_osd_item_del q; mod_req q (fun r => r <| q_osd := None |>)) c1 =
      Ret (tt, c1 <| oc_osds := (fun o : ceph_osd => o <| o_requests ::= rem q |>) <$> oc_osds c |>
                  <| oc_reqs := <[q := r1 <| q_osd := None |>]> (oc_reqs c) |>)).
    { intros c1 r1 sent E1 E2 E3. unfold osd_item_del, linger_osd_item_del. rewrite !run_modify.
      rewrite (run_mod_req_ q _ _ r1) by (change (oc_reqs c1 !! q = Some r1); by rewrite E1, lookup_insert_eq).
      rewrite <- (insert_insert_eq (oc_reqs c) q _ r1), <- E1, <- E2.
      rewrite <- (fmap_linger_id q (_ <$> oc_osds c1)); [done|]. rewrite E2.
      intros o' x'. rewrite lookup_fmap_Some. intros (x0 & <- & Hx0). exact (ro_osds c Hr o' x0 Hx0). }
    destruct (negb (q_sent r =? 0)).
    + rewrite run_assoc, run_emit, (run_mod_req q _ _ _ r) by done.
      rewrite (Hend _ (r <| q_sent := 0 |>) 0); [|done..]. by eexists 0, (oc_log c ++ [MsgRevoke q]).
    + rewrite run_ret. exists (q_sent r), (oc_log c). assert (Er : r <| q_sent := q_sent r |> = r) by (by destruct r). rewrite Er.
      rewrite (Hend c r (q_sent r)); [by destruct c|by rewrite insert_id|done|done].
  - rewrite bool_decide_eq_false_2 by (by intros []). exists (q_sent r), (oc_log c). unfold left_session.
    assert (Er : r <| q_sent := q_sent r |> <| q_osd := None |> = r) by (destruct r; cbn in *; by subst).
    rewrite Er, insert_id, fmap_rem_id by (done || by apply (unheld_osds c q r)). by destruct c.
Qed.

Lemma rem_rem {A} `{EqDecision A} (x : A) l : rem x (rem x l) = rem x l.
Proof. apply rem_not_in. rewrite elem_of_rem. by intros [? _]. Qed.

(** The request [q], which was [r], has become [rF] and is last in the queue of
    the session [xF] of [o]. *)
Lemma linked_ok c q r r6 rF o l xF cF :
  let cu := unlinked q r6 c in
  client_ok cu -> oc_reqs c !! q = Some r -> q_tid r6 = q_tid r -> q_kref r6 = q_kref r -> reg (view_of c) q ->
  default [] (o_requests <$> oc_osds cu !! o) = l ->
  rv rF = (rv r) <| v_osd := Some o |> -> q_linger rF = false -> sendable (q_req rF) ->
  o_requests xF = l ++ [q] -> o_linger_requests xF = [] ->
  (exists m, oc_map c = Some m /\ 0 <= o < Z.of_nat (length (om_osd_addr m))) ->
  (oc_requests cF, oc_last_tid cF, oc_num_requests cF, oc_req_linger cF, oc_map cF) =
    (oc_requests c, oc_last_tid c, oc_num_requests c, oc_req_linger c, oc_map c) ->
  oc_reqs cF = <[q := rF]> (oc_reqs c) -> oc_osds cF = <[o := xF]> (oc_osds cu) ->
  (oc_req_lru cF, oc_req_unsent cF, oc_req_notarget cF, oc_osd_lru cF) =
    (rem q (oc_req_lru c), rem q (oc_req_unsent c) ++ [q], rem q (oc_req_notarget c), rem o (oc_osd_lru c)) ->
  client_ok cF.
Proof.
  intros cu [Hvu Hru] Hq Ht Hk Hreg Hl HrF HlF HsF HxF HxFl (m & Hm & Ho) [= F1 F2 F3 F4 F5] F6 F7 [= F8 F9 F10 F11]. split.
  - assert (E : view_of cF = attach q o l (view_of cu)).
    { apply view_ext; try (unfold cu, unlinked; cbn -[insert fmap]; congruence).
      - change (rv <$> oc_reqs cF = alter (fun r : rview => r <| v_osd := Some o |>) q (rv <$> <[q := r6 <| q_osd := None |>]> (oc_reqs c))).
        rewrite F6, !fmap_insert, HrF. apply map_eq. intros j. destruct (decide (q = j)) as [<-|Hne].
        + rewrite lookup_insert_eq, lookup_alter_eq, lookup_insert_eq. cbn. unfold rv. cbn. by rewrite Ht, Hk.
        + by rewrite lookup_insert_ne, lookup_alter_ne, lookup_insert_ne by done.
      - change (o_requests <$> oc_osds cF = <[o := l ++ [q]]> (o_requests <$> oc_osds cu)). by rewrite F7, fmap_insert, HxF. }
    rewrite E. apply (attach_ok _ q ((rv r) <| v_osd := None |>)); [done| | |done| |].
    + exact Hreg.
    + change (v_reqs (view_of cu)) with (rv <$> <[q := r6 <| q_osd := None |>]> (oc_reqs c)).
      rewrite fmap_insert, lookup_insert_eq. unfold rv. cbn. by rewrite Ht, Hk.
    + unfold waiting. cbn. rewrite !elem_of_app, !elem_of_rem. naive_solver.
    + change (v_osds (view_of cu)) with (o_requests <$> oc_osds cu). by rewrite lookup_fmap.
  - destruct Hru as [R1 R2 R3 (m' & Hm' & Hg & Ha)]. cbn in Hm'. rewrite Hm in Hm'. injection Hm' as <-.
    split; [by rewrite F4| | |exists m].
    + rewrite F6. intros j rj. rewrite lookup_insert_Some. intros [[<- <-]|[Hne Hj]]; [done|]. apply (R2 j rj).
      cbn -[insert]. by rewrite lookup_insert_ne.
    + rewrite F7. by apply map_Forall_insert_2.
    + rewrite F5, F7. split; [done|]. split; [done|]. by apply map_Forall_insert_2.
Qed.

Lemma move_run c q r osd_ok o m :
  client_ok c -> oc_reqs c !! q = Some r -> reg (view_of c) q -> oc_map c = Some m ->
  o < Z.of_nat (length (om_osd_addr m)) ->
  exists rc c' r', move_request osd_ok q o c = Ret (rc, c') /\ client_ok c' /\ rc <> 0 /\
    oc_requests c' = oc_requests c /\ oc_last_tid c' = oc_last_tid c /\ oc_map c' = oc_map c /\
    oc_reqs c' = <[q := r']> (oc_reqs c) /\ q_kref r' = q_kref r /\
    (rc <= 0 \/ q_osd r' = None -> forall x, x ∈ oc_req_unsent c' -> x ∈ oc_req_unsent c).
Proof.
  intros Hok Hq Hreg Hm Ho. pose proof Hok as [Hv Hr]. destruct (ro_reqs c Hr q r Hq) as [Hl Hs].
  destruct (leave_run c q r Hok Hq) as (sent & lg & El). unfold move_request. rewrite (run_get_req q _ c r Hq).
  fold (leave_session q r). rewrite (run_bnd _ _ _ _ _ El), run_get. clear El.
  set (r6 := r <| q_sent := sent |> <| q_osd := None |>). set (cl := left_session q r6 lg c).
  set (cu := unlinked q (r <| q_sent := sent |>) c).
  assert (Hcu : client_ok cu) by (by apply (unlinked_ok q _ r c)).
  assert (Hr6 : oc_reqs cl !! q = Some r6) by (cbn -[insert]; by rewrite lookup_insert_eq).
  assert (Hun : forall o x, oc_osds cl !! o = Some x -> q ∉ o_requests x).
  { intros o' x'. cbn -[fmap]. rewrite lookup_fmap_Some. intros (x0 & <- & _). cbn. rewrite elem_of_rem. by intros [? _]. }
  set (rF := r6 <| q_osd := Some o |>).
  assert (Haside : forall d, d ≡ₚ q :: rem q (oc_req_notarget c) ->
    client_ok (cl <| oc_req_lru ::= rem q |> <| oc_req_unsent ::= rem q |> <| oc_req_notarget := d |>)).
  { intros d Hd. destruct Hcu as [Hvu [R1 R2 R3 R4]]. split; [|by split].
    match goal with |- view_ok (view_of ?cc) => assert (E : view_of cc =
      relist (rem q (v_lru (view_of cu))) (rem q (v_unsent (view_of cu))) d (view_of cu)) end.
    { apply view_ext; try reflexivity; unfold cu, unlinked; cbn; by rewrite rem_rem. }
    rewrite E. apply (aside_ok (view_of cu) q d); [done|exact Hreg|]. cbn. by rewrite rem_rem. }
  unfold __lookup_osd. destruct (oc_osds cl !! o) as [x|] eqn:Ex.
  - rewrite (run_mod_req q _ _ _ r6) by done. change (r6 <| q_osd := Some o |>) with rF.
    assert (HqF : oc_reqs (cl <| oc_reqs ::= insert q rF |>) !! q = Some rF) by (cbn -[insert]; by rewrite lookup_insert_eq).
    rewrite (run_bnd _ _ _ _ _ (enqueue_run (cl <| oc_reqs ::= insert q rF |>) q rF o x HqF eq_refl Ex Hun)).
    eexists 1, _, rF. split; [reflexivity|]. split; [|split; [done|repeat (split; [done|])]].
    + eapply (linked_ok c q r (r <| q_sent := sent |>) rF o (o_requests x) (x <| o_requests ::= fun l => l ++ [q] |>)); try done.
      * by change (oc_osds (unlinked q _ c)) with (oc_osds cl); rewrite Ex.
      * exact (ro_osds _ (co_rest _ Hcu) o x Ex).
      * exists m. split; [done|]. destruct (ro_map _ (co_rest _ Hcu)) as (m' & Hm' & _ & Ha). cbn in Hm'. rewrite Hm in Hm'.
        injection Hm' as <-. exact (Ha o x Ex).
      * cbn -[insert]. by rewrite insert_insert_eq.
    + split; [cbn -[insert]; by rewrite insert_insert_eq|]. split; [done|]. intros [?|?]; [lia|done].
  - destruct (o <? 0) eqn:Eo; [|destruct osd_ok; cbn [negb]].
    + unfold __enqueue_request. rewrite run_assoc, (run_get_req q _ cl r6 Hr6). change (q_osd r6) with (@None Z). cbv iota.
      unfold to_req_notarget, lru_item_del. rewrite run_assoc, !run_modify. eexists 1, _, r6. split; [reflexivity|].
      split; [|split; [done|do 5 (split; [done|])]].
      * apply (Haside (rem q (oc_req_notarget c) ++ [q])). by rewrite <- Permutation_cons_append.
      * intros _ y. cbn. rewrite elem_of_rem. by intros [_ ?].
    + apply Z.ltb_ge in Eo. rewrite (run_mod_req q _ _ _ r6) by done. change (r6 <| q_osd := Some o |>) with rF.
      unfold __insert_osd. rewrite run_assoc, run_get.
      change (oc_osds (cl <| oc_reqs ::= insert q rF |>)) with (oc_osds cl). rewrite Ex, run_modify.
      destruct (rd_total (om_osd_addr m) o) as [addr Ea]; [lia|].
      unfold osd_addr. rewrite run_assoc, run_get, run_assoc.
      match goal with |- context [deref (oc_map ?cc)] => change (oc_map cc) with (oc_map c) end.
      rewrite Hm. cbn [deref]. rewrite (run_bnd (olift (Ret _)) _ _ _ _ eq_refl), Ea, (run_bnd (olift (Ret _)) _ _ _ _ eq_refl).
      unfold osd_con_open. rewrite run_assoc, (run_mod_osd o _ _ _ create_osd) by (cbn -[insert fmap]; by rewrite lookup_insert_eq).
      rewrite run_emit. set (xN := create_osd <| o_peer_addr := addr |> <| o_opened := false |>).
      match goal with |- context [obnd (__enqueue_request q) _ ?cc] => set (cn := cc) end.
      assert (Hon : oc_osds cn = <[o := xN]> (oc_osds cl)) by (cbn -[insert fmap]; by rewrite insert_insert_eq).
      assert (Hrn : oc_reqs cn !! q = Some rF) by (cbn -[insert fmap]; by rewrite lookup_insert_eq).
      assert (Hun' : forall o x, oc_osds cn !! o = Some x -> q ∉ o_requests x).
      { intros o' x'. rewrite Hon, lookup_insert_Some. intros [[<- <-]|[_ Hx']]; [apply not_elem_of_nil|by eapply Hun]. }
      rewrite (run_bnd _ _ _ _ _ (enqueue_run cn q rF o xN Hrn eq_refl ltac:(by rewrite Hon, lookup_insert_eq) Hun')).
      eexists 1, _, rF. split; [reflexivity|]. split; [|split; [done|repeat (split; [done|])]].
      * eapply (linked_ok c q r (r <| q_sent := sent |>) rF o [] (xN <| o_requests ::= fun l => l ++ [q] |>)); try done.
        -- by change (oc_osds (unlinked q _ c)) with (oc_osds cl); rewrite Ex.
        -- exists m. split; [done|lia].
        -- cbn -[insert]. by rewrite insert_insert_eq.
        -- change (oc_osds (unlinked q _ c)) with (oc_osds cl).
           rewrite <- (insert_insert_eq (oc_osds cl) o _ xN), <- Hon. done.
      * split; [cbn -[insert]; by rewrite insert_insert_eq|]. split; [done|]. intros [?|?]; [lia|done].
    + unfold to_req_notarget_head, lru_item_del. rewrite run_assoc, !run_modify. eexists (- ENOMEM), _, r6. split; [reflexivity|].
      split; [|split; [done|do 5 (split; [done|])]].
      * by apply (Haside (q :: rem q (oc_req_notarget c))).
      * intros _ y. cbn. rewrite elem_of_rem. by intros [_ ?].
Qed.

Lemma mod_ok c q r r' :
  client_ok c -> oc_reqs c !! q = Some r -> rv r' = rv r -> q_linger r' = false -> sendable (q_req r') ->
  client_ok (c <| oc_reqs ::= insert q r' |>).
Proof. intros [Hv Hr] Hq E Hl Hs. split; [by rewrite (view_same_req c q r)|by apply rest_set_req]. Qed.

Lemma set_map_ok c m m' :
  client_ok c -> oc_map c = Some m -> good m' -> om_osd_addr m' = om_osd_addr m -> client_ok (c <| oc_map := Some m' |>).
Proof.
  intros [Hv [R1 R2 R3 (m0 & Hm0 & Hg & Ha)]] Hm Hg' Haddr. split; [done|]. split; try done. exists m'. split; [done|].
  split; [done|]. rewrite Haddr. rewrite Hm in Hm0. by injection Hm0 as <-.
Qed.

Lemma map_run c q r osd_ok force :
  client_ok c -> oc_reqs c !! q = Some r -> reg (view_of c) q ->
  exists rc c' r', __map_request scratch fuel garbage osd_ok q force c = Ret (rc, c') /\ client_ok c' /\
    oc_requests c' = oc_requests c /\ oc_last_tid c' = oc_last_tid c /\
    oc_reqs c' !! q = Some r' /\ q_kref r' = q_kref r /\ (forall j, j <> q -> oc_reqs c' !! j = oc_reqs c !! j) /\
    (rc <= 0 \/ q_osd r' = None -> forall x, x ∈ oc_req_unsent c' -> x ∈ oc_req_unsent c).
Proof.
  intros Hok Hq Hreg. pose proof Hok as [Hv Hr]. destruct (ro_reqs c Hr q r Hq) as [Hl Hs].
  destruct (ro_map c Hr) as (m & Hm & Hg & Ha).
  unfold __map_request. rewrite run_get, Hm. cbn [deref]. rewrite (run_bnd (olift (Ret _)) _ _ _ _ eq_refl).
  rewrite (run_get_req q _ c r Hq). destruct (calc_request_pg_ok m (q_req r) Hg Hs) as (p & oid & pg & Ec & Hs' & Hneg).
  rewrite Ec, (run_bnd (olift (Ret _)) _ _ _ _ eq_refl), (run_mod_req q _ _ _ r) by done. cbv beta iota.
  set (r1 := r <| q_req := retarget (q_req r) p oid |>). set (c1 := c <| oc_reqs ::= insert q r1 |>).
  assert (Hok1 : client_ok c1) by (by apply (mod_ok c q r)).
  assert (Hq1 : oc_reqs c1 !! q = Some r1) by (cbn -[insert]; by rewrite lookup_insert_eq).
  destruct pg as [pgid|e].
  - rewrite (run_mod_req q _ _ _ r1) by done.
    destruct (placement_acting m pgid Hg) as (acting & num & o & m' & Eact & Hg' & Haddr & Ho).
    rewrite Eact, (run_bnd (olift (Ret _)) _ _ _ _ eq_refl), run_modify. cbv beta iota zeta.
    set (r2 := r1 <| q_pgid := pgid |>). set (c3 := c1 <| oc_reqs ::= insert q r2 |> <| oc_map := Some m' |>).
    assert (Hok3 : client_ok c3).
    { apply (set_map_ok (c1 <| oc_reqs ::= insert q r2 |>) m m'); [by apply (mod_ok c1 q r1)|done..]. }
    assert (Hq3 : oc_reqs c3 !! q = Some r2) by (cbn -[insert]; by rewrite lookup_insert_eq).
    rewrite (run_get_req q _ c3 r2 Hq3), (run_mod_req q _ _ _ r2 Hq3). cbv beta.
    set (paused := __req_should_be_paused c r2). set (r3 := r2 <| q_paused := paused |>).
    set (c4 := c3 <| oc_reqs ::= insert q r3 |>).
    assert (Hok4 : client_ok c4) by (by apply (mod_ok c3 q r2)).
    assert (Hq4 : oc_reqs c4 !! q = Some r3) by (cbn -[insert]; by rewrite lookup_insert_eq).
    assert (Hj4 : forall j, j <> q -> oc_reqs c4 !! j = oc_reqs c !! j) by (intros j Hj; cbn -[insert]; by rewrite !lookup_insert_ne).
    match goal with |- context [obnd ?m _ c4] => assert (Hsame : exists b, m c4 = Ret (b, c4)) end.
    { destruct (negb _ && bool_decide (q_osd r2 = Some o)) eqn:Eb; [|by eexists]. apply andb_prop in Eb as [_ Eb].
      apply bool_decide_eq_true in Eb. destruct (ok_session _ (co_view _ Hok4) q (rv r3) o (view_req c4 q r3 Hq4) Eb) as (l & Hlo & _).
      change (v_osds (view_of c4)) with (o_requests <$> oc_osds c4) in Hlo. apply lookup_fmap_Some in Hlo as (x & _ & Hx).
      rewrite (run_get_osd o _ c4 x Hx). by eexists. }
    destruct Hsame as [b Hb]. rewrite (run_bnd _ _ _ _ _ Hb). clear Hb. destruct (b || _ || paused).
    + exists 0, c4, r3. do 4 (split; [done|]). split; [done|]. split; [done|]. split; [done|]. done.
    + rewrite (run_mod_req q _ _ _ r3 Hq4).
      match goal with |- context [insert q ?x] => set (r4 := x) end.
      set (c5 := c4 <| oc_reqs ::= insert q r4 |>).
      assert (Hok5 : client_ok c5) by (by apply (mod_ok c4 q r3)).
      assert (Hq5 : oc_reqs c5 !! q = Some r4) by (cbn -[insert]; by rewrite lookup_insert_eq).
      destruct (move_run c5 q r4 osd_ok o m' Hok5 Hq5 Hreg eq_refl) as (rc & c' & r' & E' & Hok' & _ & Hrq & Hlt & _ & Hrs & Hk & Hu);
        [by rewrite Haddr|].
      exists rc, c', r'. split; [exact E'|]. split; [done|]. split; [done|]. split; [done|].
      split; [rewrite Hrs; by rewrite lookup_insert_eq|]. split; [done|]. split; [|done].
      intros j Hj. rewrite Hrs, lookup_insert_ne by done. unfold c5. cbn -[insert c4]. rewrite lookup_insert_ne by done. by apply Hj4.
  - unfold to_req_notarget_head, lru_item_del. rewrite run_assoc, !run_modify. eexists e, _, r1. split; [reflexivity|]. split.
    + destruct Hok1 as [Hv1 [R1 R2 R3 R4]]. split; [|by split].
      apply (aside_ok (view_of c1) q (q :: rem q (oc_req_notarget c1))); [done|exact Hreg|done].
    + do 2 (split; [done|]). split; [done|]. split; [done|]. split; [intros j Hj; cbn -[insert]; by rewrite lookup_insert_ne|].
      intros _ y. cbn. rewrite elem_of_rem. by intros [_ ?].
Qed.

(** ** Starting and cancelling *)
Lemma no_unsent c c' : oc_req_unsent c = [] -> (forall x, x ∈ oc_req_unsent c' -> x ∈ oc_req_unsent c) -> oc_req_unsent c' = [].
Proof. intros E Hs. destruct (oc_req_unsent c') as [|y l]; [done|]. specialize (Hs y). rewrite E in Hs. set_solver. Qed.

Lemma put_req_fields q r c :
  oc_req_unsent (put_req q r c) = oc_req_unsent c /\ oc_map (put_req q r c) = oc_map c /\
  oc_last_tid (put_req q r c) = oc_last_tid c /\ oc_requests (put_req q r c) = oc_requests c /\
  (1 < q_kref r -> oc_reqs (put_req q r c) !! q = Some (r <| q_kref ::= Z.pred |>)).
Proof.
  unfold put_req. destruct (Z.eqb_spec (q_kref r - 1) 0); do 4 (split; [done|]); [lia|].
  intros _. cbn -[insert]. by rewrite lookup_insert_eq.
Qed.

(** __unregister_request, for a request that someone else refers to. *)
Lemma unregister_ok c q r :
  client_ok c -> oc_reqs c !! q = Some r ->
  exists c', __unregister_request osd_idle_ttl HZ q c = Ret (tt, c') /\ client_ok c' /\ ~ reg (view_of c') q /\
    oc_last_tid c' = oc_last_tid c /\ (forall x, x ∈ oc_req_unsent c' -> x ∈ oc_req_unsent c) /\
    (1 < q_kref r -> exists r', oc_reqs c' !! q = Some r' /\ q_kref r - 1 <= q_kref r').
Proof.
  intros Hok Hq. destruct (registered q c) eqn:Ereg.
  - apply registered_reg in Ereg. destruct (unregister_run c q r Hok Hq Ereg) as (cd & f & E & Hd & Hrd & Hn & Hu & Hm & Hl).
    destruct (put_req_fields q (r <| q_osd := None |>) cd) as (P1 & P2 & P3 & P4 & P5).
    eexists. split; [exact E|]. split; [|split; [|split; [|split]]].
    + apply log_ok, put_req_ok; [done|by rewrite Hrd, lookup_insert_eq|by left].
    + unfold reg in *. cbn -[put_req] in *. by rewrite P4.
    + change (oc_last_tid (put_req q (r <| q_osd := None |>) cd) = oc_last_tid c). congruence.
    + intros y. change (y ∈ oc_req_unsent (put_req q (r <| q_osd := None |>) cd) -> y ∈ oc_req_unsent c).
      rewrite P1, Hu, elem_of_rem. by intros [_ ?].
    + intros Hk. eexists. split; [exact (P5 Hk)|]. cbn. lia.
  - exists c. unfold __unregister_request. rewrite run_get, Ereg. cbn [negb]. do 2 (split; [done|]).
    split; [intros ?%registered_reg; congruence|]. do 2 (split; [done|]). intros Hk. exists r. split; [done|lia].
Qed.

Lemma start_run c q r osd_ok nofail :
  client_ok c -> oc_reqs c !! q = Some r -> ~ reg (view_of c) q -> 0 <= oc_last_tid c < 2 ^ 64 - 1 -> oc_req_unsent c = [] ->
  exists rc c' r', __ceph_osdc_start_request osd_idle_ttl HZ scratch fuel garbage osd_ok q nofail c = Ret (rc, c') /\
    client_ok c' /\ oc_req_unsent c' = [] /\ oc_last_tid c' = oc_last_tid c + 1 /\ (nofail = true -> rc = 0) /\
    oc_reqs c' !! q = Some r' /\ (~ reg (view_of c') q \/ 1 < q_kref r') /\ (rc = 0 -> reg (view_of c') q).
Proof.
  intros Hok Hq Hn Ht Hu. pose proof (ok_kref _ (co_view _ Hok) q _ (view_req c q r Hq)) as Hk. cbn in Hk.
  destruct (register_run c q r Hok Hq Hn Ht) as (c1 & E1 & Hok1 & Hreg1 & Hr1 & Hu1 & Hm1 & Hl1).
  unfold __ceph_osdc_start_request. rewrite (run_bnd _ _ _ _ _ E1).
  set (r1 := (with_tid (oc_last_tid c + 1) r) <| q_kref ::= Z.succ |>) in *.
  assert (Hq1 : oc_reqs c1 !! q = Some r1) by (by rewrite Hr1, lookup_insert_eq).
  destruct (ro_reqs c1 (co_rest _ Hok1) q r1 Hq1) as [Hlr Hsr].
  rewrite (run_mod_req q _ _ _ r1) by done. set (r2 := r1 <| q_sent := 0 |> <| q_got_reply := false |>).
  set (c2 := c1 <| oc_reqs ::= insert q r2 |>).
  assert (Hok2 : client_ok c2) by (by apply (mod_ok c1 q r1)).
  assert (Hq2 : oc_reqs c2 !! q = Some r2) by (cbn -[insert]; by rewrite lookup_insert_eq).
  destruct (map_run c2 q r2 osd_ok false Hok2 Hq2 Hreg1) as (rc & c3 & r3 & E3 & Hok3 & Hrq3 & Hl3 & Hq3 & Hk3 & _ & Hu3).
  rewrite (run_bnd _ _ _ _ _ E3).
  assert (Hreg3 : reg (view_of c3) q) by (unfold reg; cbn; rewrite Hrq3; exact Hreg1).
  assert (Hk3' : 1 < q_kref r3) by (rewrite Hk3; cbn; lia).
  assert (Hu2 : oc_req_unsent c2 = []) by (change (oc_req_unsent c1 = []); congruence).
  assert (Hl3' : oc_last_tid c3 = oc_last_tid c + 1) by (rewrite Hl3; exact Hl1).
  destruct (Z.ltb_spec rc 0) as [Hrc|Hrc].
  - assert (Hu3' : oc_req_unsent c3 = []) by (apply (no_unsent c2); [done|]; apply Hu3; left; lia).
    destruct nofail.
    + exists 0, c3, r3. do 6 (split; [done|]). split; [by right|done].
    + destruct (unregister_ok c3 q r3 Hok3 Hq3) as (c4 & E4 & Hok4 & Hn4 & Hl4 & Hu4 & Ha4).
      destruct (Ha4 Hk3') as (r4 & Hq4 & _). rewrite (run_bnd _ _ _ _ _ E4). exists rc, c4, r4. split; [done|]. split; [done|].
      split; [by apply (no_unsent c3)|]. split; [congruence|]. split; [done|]. split; [done|]. split; [by left|lia].
  - rewrite (run_get_req q _ c3 r3 Hq3). destruct (q_osd r3) as [o|] eqn:Eo.
    + destruct (send_queued_run c3 Hok3) as (c4 & sends & E4 & Hok4 & Hu4 & Hrv4 & _ & Hl4 & Hrq4 & _).
      rewrite (run_bnd _ _ _ _ _ E4).
      assert (Hx : (rv <$> oc_reqs c4) !! q = Some (rv r3)) by (by rewrite Hrv4, lookup_fmap, Hq3).
      apply lookup_fmap_Some in Hx as (r4 & Hrv & Hq4). exists 0, c4, r4. split; [done|]. split; [done|]. split; [done|].
      split; [congruence|]. split; [done|]. split; [done|]. injection Hrv as _ _ Hkk.
      split; [right; lia|]. intros _. unfold reg. cbn. rewrite Hrq4. exact Hreg3.
    + rewrite run_emit. exists 0, (c3 <| oc_log ::= fun l => l ++ [RequestNextMap] |>), r3. split; [done|].
      split; [by apply log_ok|]. split; [apply (no_unsent c2); [done|]; apply Hu3; by right|]. do 3 (split; [done|]).
      split; [by right|done].
Qed.

Lemma cancel_run c q r :
  client_ok c -> oc_reqs c !! q = Some r -> oc_req_unsent c = [] ->
  exists c', ceph_osdc_cancel_request osd_idle_ttl HZ q c = Ret (tt, c') /\ client_ok c' /\ oc_req_unsent c' = [] /\
    oc_last_tid c' = oc_last_tid c /\ ~ reg (view_of c') q.
Proof.
  intros Hok Hq Hu. destruct (ro_reqs c (co_rest _ Hok) q r Hq) as [Hl _].
  unfold ceph_osdc_cancel_request. rewrite (run_get_req q _ c r Hq), Hl, run_ret.
  destruct (unregister_ok c q r Hok Hq) as (c' & E & Hok' & Hn & Hlt & Hu' & _). exists c'. split; [done|]. split; [done|].
  split; [by apply (no_unsent c)|done].
Qed.

(** ** Resets *)

(** What stays when a session is reset or removed. *)
Record same_registry (c c' : osd_client) : Prop := {
  sg_rv : rv <$> oc_reqs c' = rv <$> oc_reqs c;
  sg_unsent : oc_req_unsent c' = oc_req_unsent c;
  sg_lru : oc_req_lru c' = oc_req_lru c;
  sg_map : oc_map c' = oc_map c;
  sg_last : oc_last_tid c' = oc_last_tid c;
  sg_tree : oc_requests c' = oc_requests c;
  sg_jiffies : oc_jiffies c' = oc_jiffies c }.

Lemma same_registry_refl c : same_registry c c.
Proof. by split. Qed.
Lemma same_registry_trans c1 c2 c3 : same_registry c1 c2 -> same_registry c2 c3 -> same_registry c1 c3.
Proof. intros [] []. split; congruence. Qed.

Lemma same_registry_req c c' q r :
  same_registry c c' -> oc_reqs c !! q = Some r -> exists r', oc_reqs c' !! q = Some r' /\ rv r' = rv r.
Proof.
  intros [Hrv _ _ _ _ _] Hq. assert (Hx : (rv <$> oc_reqs c') !! q = Some (rv r)) by (by rewrite Hrv, lookup_fmap, Hq).
  apply lookup_fmap_Some in Hx as (r' & E & Hr'). by exists r'.
Qed.

Lemma remove_osd_run c o x :
  client_ok c -> oc_osds c !! o = Some x -> o_requests x = [] ->
  exists c', __remove_osd o c = Ret (tt, c') /\ client_ok c' /\ same_registry c c' /\
    oc_osds c' = delete o (oc_osds c) /\ oc_osd_lru c' = rem o (oc_osd_lru c).
Proof.
  intros [Hv Hr] Hx Hnil. unfold __remove_osd. rewrite (run_get_osd o _ c x Hx), run_modify, run_emit.
  assert (Hc : client_ok (c <| oc_osds ::= delete o |> <| oc_osd_lru ::= rem o |>)).
  { split.
    - assert (E : view_of (c <| oc_osds ::= delete o |> <| oc_osd_lru ::= rem o |>) = remove_osd o (view_of c)).
      { apply view_ext; try reflexivity. change (o_requests <$> delete o (oc_osds c) = delete o (o_requests <$> oc_osds c)).
        by rewrite fmap_delete. }
      rewrite E. apply remove_osd_ok; [done|]. by rewrite (view_osd c o x Hx), Hnil.
    - destruct Hr as [R1 R2 R3 (m & Hm & Hg & Ha)]. split; try done; [by apply map_Forall_delete|]. exists m.
      split; [done|]. split; [done|]. by apply map_Forall_delete. }
  unfold put_osd. destruct (_ && _); (eexists; split; [reflexivity|]); (split; [|split; [|done]]); try (by split).
  - exact (log_ok (fun l => (l ++ [ConClose o]) ++ [OsdFreed o]) _ Hc).
  - exact (log_ok (fun l => l ++ [ConClose o]) _ Hc).
Qed.

Lemma touch_run stamp l c :
  client_ok c -> (forall q, q ∈ l -> is_Some (oc_reqs c !! q)) ->
  exists c', for_each l (fun q => mod_req q (fun r => r <| q_stamp := stamp |>)) c = Ret (tt, c') /\ client_ok c' /\
    same_registry c c' /\ oc_osds c' = oc_osds c.
Proof.
  revert c. induction l as [|q l IH]; intros c Hok Hl; [by exists c|]. cbn [for_each].
  destruct (Hl q ltac:(set_solver)) as [r Hq]. rewrite (run_mod_req q _ _ _ r Hq).
  destruct (ro_reqs c (co_rest _ Hok) q r Hq) as [Hlr Hsr]. set (c1 := c <| oc_reqs ::= insert q (r <| q_stamp := stamp |>) |>).
  assert (Hok1 : client_ok c1) by (by apply (mod_ok c q r)).
  destruct (IH c1 Hok1) as (c' & E & Hok' & Hsg & Ho').
  { intros y Hy. destruct (decide (y = q)) as [->|Hne]; cbn -[insert]; [by rewrite lookup_insert_eq|].
    rewrite lookup_insert_ne by done. apply Hl. set_solver. }
  exists c'. split; [done|]. split; [done|]. split; [|by rewrite Ho']. eapply same_registry_trans; [|done]. split; try done.
  cbn -[insert fmap]. rewrite fmap_insert, insert_id; [done|]. by rewrite lookup_fmap, Hq.
Qed.

Lemma osd_mod_ok c o x x' :
  client_ok c -> oc_osds c !! o = Some x -> o_requests x' = o_requests x -> o_linger_requests x' = [] ->
  client_ok (c <| oc_osds ::= insert o x' |>) /\ same_registry c (c <| oc_osds ::= insert o x' |>).
Proof. intros [Hv Hr] Hx E El. split; [split; [by rewrite (view_same_osd c o x)|by apply (rest_set_osd c o x)]|by split]. Qed.

Lemma reset_run c o x :
  client_ok c -> oc_osds c !! o = Some x ->
  exists rc c', __reset_osd o c = Ret (rc, c') /\ client_ok c' /\ same_registry c c' /\
    (forall o', o' <> o -> oc_osds c' !! o' = oc_osds c !! o') /\
    (rc = 0 -> exists x' addr, oc_osds c' !! o = Some x' /\ o_requests x' = o_requests x /\ oc_reqs c' = oc_reqs c /\
                 oc_log c' = oc_log c ++ [ConClose o; ConOpen o addr]) /\
    (o_opened x = true -> o_requests x <> [] -> rc = 0).
Proof.
  intros Hok Hx. pose proof Hok as [Hv Hr]. pose proof (ro_osds c Hr o x Hx) as Hlx. cbn in Hlx.
  destruct (ro_map c Hr) as (m & Hm & Hg & Ha). specialize (Ha o x Hx). cbn in Ha.
  unfold __reset_osd. rewrite (run_get_osd o _ c x Hx), Hlx. cbn [is_nil]. rewrite andb_true_r.
  destruct (o_requests x) as [|y l] eqn:El; cbn [is_nil].
  { destruct (remove_osd_run c o x Hok Hx El) as (c' & E & Hok' & Hsg & Ho' & _). rewrite (run_bnd _ _ _ _ _ E).
    exists (- ENODEV), c'. split; [done|]. split; [done|]. split; [done|]. split; [|done].
    intros o' Hne. by rewrite Ho', lookup_delete_ne. }
  destruct (rd_total (om_osd_addr m) o) as [addr Ea]; [lia|].
  unfold osd_addr. rewrite run_assoc, run_get, run_assoc, Hm. cbn [deref].
  rewrite (run_bnd (olift (Ret _)) _ _ _ _ eq_refl), Ea, (run_bnd (olift (Ret _)) _ _ _ _ eq_refl).
  destruct (bool_decide _ && negb (o_opened x)) eqn:Eop.
  - apply andb_true_iff in Eop as [_ Eop]. rewrite run_get. destruct (touch_run (oc_jiffies c) (y :: l) c Hok) as (c' & E & Hok' & Hsg & Ho').
    { intros q Hq. rewrite <- El in Hq. destruct (ok_held _ Hv o _ q (view_osd c o x Hx) Hq) as (_ & rq & Hrq & _).
      change (v_reqs (view_of c)) with (rv <$> oc_reqs c) in Hrq. apply lookup_fmap_Some in Hrq as (r & _ & Hr'). by exists r. }
    rewrite (run_bnd _ _ _ _ _ E). exists (- EAGAIN), c'. do 3 (split; [done|]). split; [by intros; rewrite Ho'|].
    split; [done|]. intros Eo. by rewrite Eo in Eop.
  - unfold osd_con_close, osd_con_open. rewrite run_assoc, (run_mod_osd o _ _ _ x) by done. rewrite run_emit.
    rewrite run_assoc, (run_mod_osd o _ _ _ (x <| o_opened := false |>)) by (cbn -[insert]; by rewrite lookup_insert_eq).
    rewrite run_emit. rewrite (run_mod_osd o _ _ _ (x <| o_opened := false |> <| o_peer_addr := addr |> <| o_opened := false |>))
      by (cbn -[insert]; by rewrite lookup_insert_eq).
    match goal with |- context [oret 0 ?cc] => set (c' := cc) end.
    set (x' := x <| o_opened := false |> <| o_peer_addr := addr |> <| o_opened := false |> <| o_incarnation ::= fun i => s32 (i + 1) |>).
    set (lg := oc_log c ++ [ConClose o; ConOpen o addr]).
    assert (Ec : c' = c <| oc_osds ::= insert o x' |> <| oc_log ::= fun _ => lg |>).
    { transitivity (c <| oc_osds := <[o := x']> (oc_osds c) |> <| oc_log := lg |>); [|done].
      rewrite <- (insert_insert_eq (oc_osds c) o x' (x <| o_opened := false |>)).
      rewrite <- (insert_insert_eq (<[o := x <| o_opened := false |>]> (oc_osds c)) o x'
        (x <| o_opened := false |> <| o_peer_addr := addr |> <| o_opened := false |>)).
      assert (El' : lg = (oc_log c ++ [ConClose o]) ++ [ConOpen o addr]) by (by rewrite <- app_assoc).
      rewrite El'. reflexivity. }
    exists 0, c'. split; [done|]. rewrite Ec. destruct (osd_mod_ok c o x x' Hok Hx eq_refl Hlx) as [Hok' Hsg].
    split; [by apply log_ok|]. split; [by destruct Hsg|]. split; [intros o' Hne; cbn -[insert]; by rewrite lookup_insert_ne|].
    split; [|done]. intros _. exists x', addr. cbn -[insert x']. rewrite lookup_insert_eq. split; [done|]. split; [exact El|done].
Qed.

End Client.
