(* ===== verification/OsdSafe.v ===== *)
(** * Decoding replies stays inside the message

    The decoders of OsdReply.v, up to the redirect, read only bytes of the
    front of the message: each read is covered by a check of the bytes left. *)
From S2P Require Import Prelude.
From S2P Require Import Wire.
From S2P Require Import OsdMap.
From S2P Require Import OsdMapDecode.
From S2P Require Import OsdReq.
From S2P Require Import OsdMsg.
From S2P Require Import OsdReply.
Local Open Scope Z_scope.
Local Open Scope ceph_scope.

Section Safe.
Context (buf : list Z) {S : Type}.

(** With [n] bytes left, [m] does not fault, and leaves at least [k] bytes
    when it returns. *)
Definition dsafe {A} (n : Z) (m : dec S A) (k : Z) : Prop := forall s,
  0 <= d_pos s -> d_pos s + n <= zlen buf ->
  match m s with
  | (Ret _, s') => 0 <= d_pos s' /\ d_pos s' + k <= zlen buf
  | (Err _, _) => True
  | (Fault _, _) => False
  end.

Lemma dsafe_ret {A} (a : A) n : dsafe n (dret a) n.
Proof. by intros s. Qed.

Lemma dsafe_err {A} e n k : dsafe n (derr (A := A) e) k.
Proof. by intros s. Qed.

Lemma dsafe_bind {A B} n j k (m : dec S A) (f : A -> dec S B) :
  dsafe n m j -> (forall a, dsafe j (f a) k) -> dsafe n (dbind m f) k.
Proof.
  intros Hm Hf s Hp Hn. specialize (Hm s Hp Hn). unfold dbind. destruct (m s) as [[a|e|x] s']; [|done|done].
  destruct Hm as [Hp' Hn']. by apply Hf.
Qed.

Lemma dsafe_weaken {A} n n' (m : dec S A) k : n <= n' -> dsafe n m k -> dsafe n' m k.
Proof. intros Hl Hm s Hp Hn. apply Hm; [done|lia]. Qed.

Lemma dsafe_get_pos n : dsafe n get_pos n.
Proof. by intros s. Qed.

Lemma dsafe_need end_ n err : end_ <= zlen buf -> dsafe 0 (ceph_decode_need (S := S) end_ n err) n.
Proof.
  intros He s Hp _. unfold ceph_decode_need, dbind, get_pos, ceph_has_room. cbn.
  destruct (Z.leb_spec (d_pos s) end_), (Z.leb_spec n (end_ - d_pos s)); cbn; try done. lia.
Qed.

Lemma dsafe_skip n k : 0 <= n -> dsafe (n + k) (skip (S := S) n) k.
Proof. intros Hn s Hp Hl. cbn. lia. Qed.

Lemma read_bytes_total n p : 0 <= p -> p + Z.of_nat n <= zlen buf -> exists l, read_bytes buf n p = Ret l.
Proof.
  revert p. induction n as [|n IH]; intros p Hp Hl; [by eexists|]. cbn [read_bytes].
  destruct (rd_total buf p) as [b ->]; [lia|]. destruct (IH (p + 1)) as [l ->]; [lia|lia|]. by eexists.
Qed.

Lemma dsafe_copy n k : 0 <= n -> 0 <= k -> dsafe (n + k) (ceph_decode_copy (S := S) buf n) k.
Proof.
  intros Hn Hk s Hp Hl. unfold ceph_decode_copy, dbind, get_pos, dlift, skip, dret.
  destruct (read_bytes_total (Z.to_nat n) (d_pos s)) as [l ->]; [done|lia|]. cbn. lia.
Qed.

Lemma dsafe_32 k : 0 <= k -> dsafe (4 + k) (ceph_decode_32 (S := S) buf) k.
Proof. intros Hk. eapply dsafe_bind; [by apply dsafe_copy|]. intros. apply dsafe_ret. Qed.

Lemma dsafe_64 k : 0 <= k -> dsafe (8 + k) (ceph_decode_64 (S := S) buf) k.
Proof. intros Hk. eapply dsafe_bind; [by apply dsafe_copy|]. intros. apply dsafe_ret. Qed.

Lemma dsafe_8 k : 0 <= k -> dsafe (1 + k) (ceph_decode_8 (S := S) buf) k.
Proof. intros Hk. eapply dsafe_bind; [by apply dsafe_copy|]. intros. apply dsafe_ret. Qed.
End Safe.

(** A length that is an int, compared as a size_t. *)
Lemma dsafe_name {S} buf end_ n :
  end_ <= zlen buf -> end_ < 2 ^ 31 ->
  dsafe (S := S) buf 0 (_ ⇐ ceph_decode_need end_ (u64 (s32 n)) EINVAL; skip (s32 n)) 0.
Proof.
  intros He Hm s Hp _. pose proof (s32_range n) as Hn. unfold ceph_decode_need, dbind, get_pos, ceph_has_room. cbn.
  destruct (Z.leb_spec (d_pos s) end_), (Z.leb_spec (u64 (s32 n)) (end_ - d_pos s)) as [Hu|]; cbn; try done.
  destruct (Z.le_gt_cases 0 (s32 n)) as [H0|H0]; [rewrite u64_small in Hu by lia; lia|]. exfalso.
  unfold u64 in Hu. rewrite <- (Z_mod_plus_full _ 1), Z.mod_small in Hu by lia. lia.
Qed.

Lemma dbind_assoc {S A B D} (m : dec S A) (f : A -> dec S B) (g : B -> dec S D) s :
  dbind (dbind m f) g s = dbind m (fun a => dbind (f a) g) s.
Proof. unfold dbind. by destruct (m s) as [[] ?]. Qed.

Lemma dsafe_assoc {S A B D} buf n k (m : dec S A) (f : A -> dec S B) (g : B -> dec S D) :
  dsafe buf n (dbind (dbind m f) g) k -> dsafe buf n (dbind m (fun a => dbind (f a) g)) k.
Proof. intros Hs s Hp Hn. rewrite <- dbind_assoc. by apply Hs. Qed.

Section Reply.
Context (buf : list Z) (end_ : Z) (Hend : end_ <= zlen buf) (Hmax : end_ < 2 ^ 31).

Lemma dsafe_pgid : dsafe buf 0 (ceph_decode_pgid buf end_) 0.
Proof.
  intros s Hp _. unfold ceph_decode_pgid, dbind at 1, get_pos. unfold ceph_has_room.
  destruct (Z.leb_spec (d_pos s) end_), (Z.leb_spec (1 + 8 + 4 + 4) (end_ - d_pos s)); cbn [andb negb]; try done.
  revert s Hp H H0. intros s Hp H H0. eapply (dsafe_bind buf (1 + (8 + (4 + (4 + 0)))) _ 0); [apply dsafe_8; lia| |done|lia].
  intros v. destruct (1 <? v); [apply dsafe_err|]. eapply dsafe_bind; [apply dsafe_64; lia|]. intros pl.
  eapply dsafe_bind; [apply dsafe_32; lia|]. intros sd. eapply dsafe_bind; [by apply dsafe_skip|]. intros _. apply dsafe_ret.
Qed.

Lemma dsafe_head : dsafe buf 0 (decode_head buf end_) 0.
Proof.
  unfold decode_head. eapply dsafe_bind; [by apply dsafe_need|]. intros _. eapply dsafe_bind; [apply (dsafe_32 buf 0); lia|]. intros n.
  apply dsafe_assoc. eapply dsafe_bind; [by apply dsafe_name|]. intros _. eapply dsafe_bind; [apply dsafe_pgid|]. intros _.
  eapply dsafe_bind; [by apply dsafe_need|]. intros _.
  apply (dsafe_weaken buf (8 + (4 + (4 + (8 + (4 + 0)))))); [lia|]. eapply dsafe_bind; [apply dsafe_64; lia|]. intros fl.
  eapply dsafe_bind; [apply dsafe_32; lia|]. intros re.
  eapply dsafe_bind; [apply dsafe_32; lia|]. intros ep. eapply dsafe_bind; [apply dsafe_64; lia|]. intros ve.
  eapply dsafe_bind; [apply dsafe_32; lia|]. intros _. apply dsafe_ret.
Qed.

Lemma dsafe_lens n k : 0 <= k -> dsafe buf (Z.of_nat n * sizeof_osd_op + k) (decode_lens buf n) k.
Proof.
  intros Hk. induction n as [|n IH]; [apply dsafe_ret|]. cbn [decode_lens].
  eapply (dsafe_weaken buf ((sizeof_osd_op - 4) + (4 + (Z.of_nat n * sizeof_osd_op + k)))); [lia|].
  eapply dsafe_bind; [by apply dsafe_skip|]. intros _. eapply dsafe_bind; [apply dsafe_32; unfold sizeof_osd_op; lia|]. intros len.
  eapply dsafe_bind; [exact IH|]. intros l. apply dsafe_ret.
Qed.

Lemma dsafe_results n k : 0 <= k -> dsafe buf (Z.of_nat n * 4 + k) (decode_results buf n) k.
Proof.
  intros Hk. induction n as [|n IH]; [apply dsafe_ret|]. cbn [decode_results].
  eapply (dsafe_weaken buf (4 + (Z.of_nat n * 4 + k))); [lia|].
  eapply dsafe_bind; [apply dsafe_32; lia|]. intros r. eapply dsafe_bind; [exact IH|]. intros l. apply dsafe_ret.
Qed.

Lemma dsafe_ops num_ops : 0 <= num_ops -> dsafe buf 0 (decode_ops buf end_ num_ops) 0.
Proof.
  intros H0. unfold decode_ops. eapply dsafe_bind; [by apply dsafe_need|]. intros _.
  eapply dsafe_bind; [apply (dsafe_32 buf 0); lia|]. intros n. destruct (_ <? n); [apply dsafe_err|].
  destruct (Z.eqb_spec n num_ops) as [->|]; [|apply dsafe_err]. cbn [negb].
  eapply dsafe_bind; [by apply dsafe_need|]. intros _. eapply dsafe_weaken; [|by apply (dsafe_lens _ 0)]. rewrite Z2Nat.id by done. lia.
Qed.

Lemma dsafe_op_results num_ops : 0 <= num_ops -> dsafe buf 0 (decode_op_results buf end_ num_ops) 0.
Proof.
  intros H0. unfold decode_op_results. eapply dsafe_bind; [by apply dsafe_need|]. intros _.
  eapply dsafe_bind; [apply (dsafe_32 buf (num_ops * 4)); lia|]. intros _. eapply dsafe_weaken; [|by apply (dsafe_results _ 0)]. lia.
Qed.

(** Decoders run from a position inside the message. *)
Definition inside (p : Z) : Prop := 0 <= p <= zlen buf.

Lemma decode_at_safe {A} (m : dec ceph_osdmap A) p :
  dsafe buf 0 m 0 -> inside p ->
  (exists e, decode_at m p = Err e) \/ exists a p', decode_at m p = Ret (a, p') /\ inside p'.
Proof.
  intros Hm Hp. unfold inside in *. specialize (Hm (Dst p 0%nat zero_osdmap)). cbn in Hm. unfold decode_at.
  destruct (m _) as [[a|e|f] s']; [right; exists a, (d_pos s'); split; [done|lia]|left; by exists e|]. destruct Hm; lia.
Qed.
End Reply.
