(* ===== verification/OsdHandlers.v ===== *)
(** * The handlers of the OSD client

    Every handler of net/ceph/osd_client.c, run on a client in order, returns
    and leaves the client in order with nothing waiting to be sent: requests
    that start, end or are cancelled, replies, connections that are reset,
    timeouts and new maps, in any sequence.  After a reset the requests of the
    session are sent again in their order. *)
From stdpp Require Import gmap sets sorting.
From S2P Require Import Prelude.
From S2P Require Import Wire.
From S2P Require Import RbTree.
From S2P Require Import OsdMap.
From S2P Require Import OsdMapDecode.
From S2P Require Import OsdMapInv.
From S2P Require Import PgMapping.
From S2P Require Import MsgCursor.
From S2P Require Import Msgr.
From S2P Require Import OsdReq.
From S2P Require Import OsdMsg.
From S2P Require Import OsdClient.
From S2P Require Import OsdReply.
From S2P Require Import OsdRegistry.
From S2P Require Import OsdClientInv.
From S2P Require Import OsdSafe.
Local Open Scope Z_scope.
Local Open Scope ceph_scope.
Local Open Scope osdc_scope.

(** ** Lists without some elements *)
Definition minus (l k : list nat) : list nat := filter (fun x => x ∉ k) l.

Lemma elem_of_minus x l k : x ∈ minus l k <-> (x ∉ k) /\ x ∈ l.
Proof. unfold minus. by rewrite list_elem_of_filter. Qed.

Lemma minus_nil l : minus l [] = l.
Proof.
  unfold minus. induction l as [|x l IH]; [done|]. rewrite filter_cons_True by apply not_elem_of_nil. by rewrite IH.
Qed.

Lemma rem_minus q l k : rem q (minus l k) = minus l (k ++ [q]).
Proof.
  unfold rem, minus. rewrite list_filter_filter. apply list_filter_iff. intros x.
  rewrite elem_of_app, list_elem_of_singleton. tauto.
Qed.

Lemma minus_app a b k : minus (a ++ b) k = minus a k ++ minus b k.
Proof. apply filter_app. Qed.

(** Requests with a session taken to the front of the queue. *)
Lemma resend_ok v k :
  view_ok v -> NoDup k ->
  (forall q, q ∈ k -> reg v q /\ forall r, v_reqs v !! q = Some r -> v_osd r <> None) ->
  view_ok (relist (minus (v_lru v) k) (k ++ minus (v_unsent v) k) (minus (v_notarget v) k) v).
Proof.
  intros Hok Hnd Hk.
  assert (Hp : minus (v_lru v) k ++ (k ++ minus (v_unsent v) k) ++ minus (v_notarget v) k ≡ₚ k ++ minus (waiting v) k).
  { unfold waiting. rewrite !minus_app, <- (app_assoc k), (app_assoc (minus (v_lru v) k) k).
    rewrite (Permutation_app_comm (minus (v_lru v) k) k). by rewrite <- app_assoc. }
  apply relist_ok; [done| | | |].
  - rewrite Hp. apply NoDup_app. split; [done|]. split; [|apply NoDup_filter, (ok_lists v Hok)].
    intros q Hq Hm. by apply elem_of_minus in Hm as [? _].
  - intros q. rewrite Hp, elem_of_app, elem_of_minus. intros [Hq|[_ Hq]]; [by apply Hk|by apply (ok_waiting v Hok)].
  - intros q Hq. rewrite Hp, elem_of_app, elem_of_minus. destruct (decide (q ∈ k)); [by left|by right].
  - intros q r Hq Hr. destruct (decide (q ∈ k)) as [Hin|Hout]; [by apply (Hk q Hin)|]. apply (ok_target v Hok q r); [|done].
    rewrite !elem_of_app, !elem_of_minus in Hq. rewrite elem_of_app. tauto.
Qed.

Section Client.
Context (osd_idle_ttl osd_keepalive_timeout HZ : Z) `{RbOps} (scratch : list Z) (fuel : nat) (garbage : list Z).
Context (good : ceph_osdmap -> Prop) `{!Placement scratch fuel garbage good}.

Local Abbreviation client_ok := (@client_ok good).

(** ** Sessions that are reset *)

(** [c] after the requests [k] were taken out of the lists, and marked. *)
Record collected (c : osd_client) (k : list nat) (c' : osd_client) : Prop := {
  cl_lists : (oc_req_lru c', oc_req_unsent c', oc_req_notarget c') =
    (minus (oc_req_lru c) k, minus (oc_req_unsent c) k, minus (oc_req_notarget c) k);
  cl_rv : rv <$> oc_reqs c' = rv <$> oc_reqs c;
  cl_sent : q_sent <$> oc_reqs c' = q_sent <$> oc_reqs c;
  cl_reqs : map_Forall (fun _ r => q_linger r = false /\ sendable (q_req r)) (oc_reqs c');
  cl_rest : (oc_requests c', oc_last_tid c', oc_num_requests c', oc_osds c', oc_osd_lru c', oc_req_linger c', oc_map c', oc_log c') =
    (oc_requests c, oc_last_tid c, oc_num_requests c, oc_osds c, oc_osd_lru c, oc_req_linger c, oc_map c, oc_log c) }.

(** The requests that were sent, up to the first that was not. *)
Fixpoint sent_prefix (sent : nat -> bool) (l : list nat) : list nat :=
  match l with
  | [] => []
  | q :: l => if sent q then q :: sent_prefix sent l else []
  end.

Definition was_sent (c : osd_client) (q : nat) : bool :=
  match q_sent <$> oc_reqs c !! q with Some s => negb (s =? 0) | None => false end.

Lemma collect_run c l : forall k c1,
  collected c k c1 -> (forall q, q ∈ l -> is_Some (oc_reqs c !! q)) ->
  exists c', collect_sent l k [] c1 = Ret ((k ++ sent_prefix (was_sent c) l, []), c') /\
    collected c (k ++ sent_prefix (was_sent c) l) c'.
Proof.
  induction l as [|q l IH]; intros k c1 Hc Hl; [exists c1; by rewrite app_nil_r|].
  destruct (Hl q ltac:(set_solver)) as [r Hr]. cbn [collect_sent sent_prefix].
  assert (H1 : exists r1, oc_reqs c1 !! q = Some r1 /\ q_sent r1 = q_sent r).
  { assert (Hx : (q_sent <$> oc_reqs c1) !! q = Some (q_sent r)) by (by rewrite (cl_sent c k c1 Hc), lookup_fmap, Hr).
    apply lookup_fmap_Some in Hx as (r1 & E & Hr1). by exists r1. }
  destruct H1 as (r1 & Hr1 & Es). rewrite (run_get_req q _ c1 r1 Hr1), Es.
  assert (Ew : was_sent c q = negb (q_sent r =? 0)) by (unfold was_sent; by rewrite Hr).
  rewrite Ew. destruct (q_sent r =? 0); cbn [negb]; [exists c1; by rewrite app_nil_r|].
  destruct Hc as [[= L1 L2 L3] Hrv Hse Hrq Hrest]. destruct (Hrq q r1 Hr1) as [Hlg Hsd].
  rewrite Hlg. cbn [negb]. unfold lru_item_del. rewrite run_modify, (run_mod_req q _ _ _ r1) by done.
  match goal with |- context [collect_sent l _ _ ?cc] => set (c2 := cc) end.
  destruct (IH (k ++ [q]) c2) as (c' & E & Hc').
  - split; [| | | |done].
    + cbn. by rewrite L1, L2, L3, !rem_minus.
    + cbn -[insert fmap]. rewrite fmap_insert, insert_id; [done|]. by rewrite lookup_fmap, Hr1.
    + cbn -[insert fmap]. rewrite fmap_insert, insert_id; [done|]. by rewrite lookup_fmap, Hr1.
    + cbn -[insert]. apply map_Forall_insert_2; [|done]. split; [done|]. apply (sendable_eq (q_req r1)); [by left|done|done].
  - intros y Hy. apply Hl. set_solver.
  - exists c'. rewrite E. by rewrite <- app_assoc in Hc' |- *.
Qed.

Lemma sent_prefix_sub f l : sublist (sent_prefix f l) l.
Proof. induction l as [|q l IH]; cbn; [done|]. case_match; [by constructor|apply sublist_nil_l]. Qed.

Lemma kick_osd_run c o x :
  client_ok c -> oc_osds c !! o = Some x ->
  exists c', __kick_osd_requests osd_idle_ttl HZ o c = Ret (tt, c') /\ client_ok c' /\
    oc_last_tid c' = oc_last_tid c /\ oc_requests c' = oc_requests c /\ oc_map c' = oc_map c /\
    rv <$> oc_reqs c' = rv <$> oc_reqs c /\
    ((oc_req_unsent c' = oc_req_unsent c /\ (o_opened x = false \/ o_requests x = [])) \/
     exists addr, oc_log c' = oc_log c ++ [ConClose o; ConOpen o addr] /\
       oc_req_unsent c' = sent_prefix (was_sent c) (o_requests x) ++ minus (oc_req_unsent c) (sent_prefix (was_sent c) (o_requests x))).
Proof.
  intros Hok Hx. destruct (reset_run c o x Hok Hx) as (rc & c1 & E1 & Hok1 & Hsg & _ & H0 & Hz).
  unfold __kick_osd_requests. rewrite (run_bnd _ _ _ _ _ E1). destruct Hsg as [S1 S2 S3 S4 S5 S6 S7].
  destruct (Z.eqb_spec rc 0) as [->|Hne]; cbn [negb].
  2: { exists c1. do 6 (split; [done|]). left. split; [done|]. destruct (o_opened x); [right|by left].
       destruct (o_requests x); [done|]. destruct Hne. by apply Hz. }
  destruct (H0 eq_refl) as (x1 & addr & Hx1 & Er1 & Hq1 & Hlog1). clear H0.
  pose proof Hok1 as [Hv1 Hr1]. rewrite (run_get_osd o _ c1 x1 Hx1).
  assert (Hheld : forall q, q ∈ o_requests x1 -> is_Some (oc_reqs c1 !! q)).
  { intros q Hq. destruct (ok_held _ Hv1 o _ q (view_osd c1 o x1 Hx1) Hq) as (_ & rq & Hrq & _).
    change (v_reqs (view_of c1)) with (rv <$> oc_reqs c1) in Hrq. apply lookup_fmap_Some in Hrq as (r & _ & Hr'). by exists r. }
  destruct (collect_run c1 (o_requests x1) [] c1) as (c2 & E2 & Hc2).
  { split; try done; [by rewrite !minus_nil|apply (ro_reqs _ Hr1)]. }
  { done. }
  rewrite (run_bnd _ _ _ _ _ E2). cbn [app]. set (resend := sent_prefix (was_sent c1) (o_requests x1)) in *.
  destruct Hc2 as [[= L1 L2 L3] Hrv Hse Hrq [= T1 T2 T3 T4 T5 T6 T7 T8]]. cbn [app] in *. rewrite run_modify.
  rewrite (run_get_osd o _ _ x1) by (change (oc_osds c2 !! o = Some x1); by rewrite T4).
  rewrite (ro_osds _ Hr1 o x1 Hx1). cbn [for_each]. rewrite run_ret.
  assert (Hws : was_sent c1 = was_sent c) by (unfold was_sent; by rewrite Hq1).
  eexists. split; [reflexivity|].
  assert (Hsub : forall q, q ∈ resend -> q ∈ o_requests x1).
  { intros q Hq. eapply sublist_subseteq; [apply sent_prefix_sub|exact Hq]. }
  split; [split|].
  - match goal with |- view_ok (view_of ?cc) => assert (E : view_of cc =
      relist (minus (oc_req_lru c1) resend) (resend ++ minus (oc_req_unsent c1) resend) (minus (oc_req_notarget c1) resend) (view_of c1)) end.
    { apply view_ext; cbn -[fmap]; rewrite ?T1, ?T2, ?T3, ?T4, ?T5, ?L1, ?L2, ?L3; done. }
    rewrite E. apply resend_ok; [done| |].
    + eapply sublist_NoDup; [exact (ok_session_nodup _ Hv1 o _ (view_osd c1 o x1 Hx1))|apply sent_prefix_sub].
    + intros q Hq. destruct (ok_held _ Hv1 o _ q (view_osd c1 o x1 Hx1) (Hsub q Hq)) as (Hreg & r & Hr & Ho).
      split; [done|]. intros r' Hr'. congruence.
  - destruct Hr1 as [R1 R2 R3 R4]. split; cbn; rewrite ?T4, ?T6, ?T7; done.
  - split; [cbn; congruence|]. split; [cbn; congruence|]. split; [cbn; congruence|]. split; [cbn -[fmap]; congruence|].
    right. exists addr. cbn. rewrite T8, L2, S2. unfold resend. rewrite Hws, Er1. done.
Qed.

Lemma osd_reset_run c o x :
  client_ok c -> oc_osds c !! o = Some x ->
  exists c', osd_reset osd_idle_ttl HZ o c = Ret (tt, c') /\ client_ok c' /\ oc_req_unsent c' = [] /\ oc_last_tid c' = oc_last_tid c.
Proof.
  intros Hok Hx. destruct (kick_osd_run c o x Hok Hx) as (c1 & E1 & Hok1 & Hl1 & _).
  unfold osd_reset. rewrite (run_bnd _ _ _ _ _ E1).
  destruct (send_queued_run c1 Hok1) as (c2 & sends & E2 & Hok2 & Hu2 & _ & _ & Hl2 & _). exists c2.
  do 3 (split; [done|]). congruence.
Qed.

(** ** New maps *)
Lemma osd_up_total m o :
  osdmap_ok m -> 0 <= o < Z.of_nat (length (om_osd_addr m)) ->
  exists b, ceph_osd_is_up m o = Ret b /\ exists a, ceph_osd_addr m o = Ret (Some a).
Proof.
  intros Hm Ho. pose proof (ok_max m Hm). pose proof (ok_state m Hm). pose proof (ok_addr m Hm).
  destruct (rd_total (om_osd_state m) o) as [st Est]; [lia|]. destruct (rd_total (om_osd_addr m) o) as [a Ea]; [lia|].
  unfold ceph_osd_addr. rewrite u32_small by lia. rewrite (proj2 (Z.leb_gt _ _)), Ea by lia. cbn.
  unfold ceph_osd_is_up, ceph_osd_exists. rewrite (proj2 (Z.leb_le 0 o)), (proj2 (Z.ltb_lt o _)), Est by lia. cbn.
  destruct (negb _); cbn; by eauto.
Qed.

Lemma reset_changed_run c o x :
  client_ok c -> oc_osds c !! o = Some x ->
  exists c', reset_changed o c = Ret (tt, c') /\ client_ok c' /\ same_registry c c' /\
    (forall o', o' <> o -> oc_osds c' !! o' = oc_osds c !! o').
Proof.
  intros Hok Hx. destruct (ro_map c (co_rest _ Hok)) as (m & Hm & Hg & Ha). specialize (Ha o x Hx). cbn in Ha.
  destruct (osd_up_total m o (placement_map m Hg) Ha) as (up & Eu & a & Ea).
  unfold reset_changed. rewrite run_get, Hm. cbn [deref]. rewrite (run_bnd (olift (Ret _)) _ _ _ _ eq_refl).
  rewrite (run_get_osd o _ c x Hx), Eu, (run_bnd (olift (Ret _)) _ _ _ _ eq_refl).
  match goal with |- context [obnd ?k _ c] => assert (Hs : exists b, k c = Ret (b, c)) end.
  { destruct up; [|by eexists]. rewrite Ea, (run_bnd (olift (Ret _)) _ _ _ _ eq_refl). cbn [deref].
    rewrite (run_bnd (olift (Ret _)) _ _ _ _ eq_refl). by eexists. }
  destruct Hs as [b Hb]. rewrite (run_bnd _ _ _ _ _ Hb). destruct b.
  - exists c. do 2 (split; [done|]). split; [apply same_registry_refl|done].
  - destruct (reset_run c o x Hok Hx) as (rc & c' & E & Hok' & Hsg & Ho' & _). rewrite (run_bnd _ _ _ _ _ E).
    by exists c'.
Qed.

Lemma reset_each l c :
  client_ok c -> NoDup l -> (forall o, o ∈ l -> is_Some (oc_osds c !! o)) ->
  exists c', for_each l reset_changed c = Ret (tt, c') /\ client_ok c' /\ same_registry c c'.
Proof.
  revert c. induction l as [|o l IH]; intros c Hok Hnd Hl; [exists c; split; [done|]; split; [done|apply same_registry_refl]|].
  apply NoDup_cons in Hnd as [Ho Hnd]. destruct (Hl o ltac:(set_solver)) as [x Hx].
  destruct (reset_changed_run c o x Hok Hx) as (c1 & E1 & Hok1 & Hs1 & Ho1).
  destruct (IH c1 Hok1 Hnd) as (c' & E' & Hok' & Hs').
  { intros o' Ho'. rewrite Ho1 by (intros ->; done). apply Hl. set_solver. }
  exists c'. cbn [for_each]. rewrite (run_bnd _ _ _ _ _ E1). split; [done|]. split; [done|]. by eapply same_registry_trans.
Qed.

Lemma reset_changed_osds_run c :
  client_ok c -> exists c', reset_changed_osds c = Ret (tt, c') /\ client_ok c' /\ same_registry c c'.
Proof.
  intros Hok. unfold reset_changed_osds. rewrite run_get. apply reset_each; [done| |].
  - unfold sorted_osds. rewrite merge_sort_Permutation. apply NoDup_fst_map_to_list.
  - intros o. unfold sorted_osds. rewrite merge_sort_Permutation, list_elem_of_fmap. intros ([o' x] & -> & Hin).
    apply elem_of_map_to_list in Hin. by exists x.
Qed.

Lemma kick_request_run c q r osd_ok force fw n :
  client_ok c -> oc_reqs c !! q = Some r -> reg (view_of c) q ->
  exists n' c', kick_request osd_idle_ttl HZ scratch fuel garbage osd_ok force fw q n c = Ret (n', c') /\ client_ok c' /\
    oc_requests c' = oc_requests c /\ oc_last_tid c' = oc_last_tid c.
Proof.
  intros Hok Hq Hreg. destruct (ro_reqs c (co_rest _ Hok) q r Hq) as [Hl Hs].
  unfold kick_request. rewrite (run_get_req q _ c r Hq), run_get, Hl. cbn [andb].
  match goal with |- context [__map_request _ _ _ _ q ?b] =>
    destruct (map_run c q r osd_ok b Hok Hq Hreg) as (rc & c1 & r1 & E1 & Hok1 & Ht1 & Hl1 & Hq1 & _) end.
  rewrite (run_bnd _ _ _ _ _ E1). destruct (rc <? 0); [by exists n, c1|]. rewrite (run_get_req q _ c1 r1 Hq1).
  destruct (q_osd r1); [|by exists (n + 1), c1]. destruct ((0 <? rc) && negb (q_linger r1)); [|by exists n, c1].
  rewrite (run_mod_req q _ _ _ r1) by done. eexists n, _. split; [reflexivity|]. split; [|done].
  destruct (ro_reqs c1 (co_rest _ Hok1) q r1 Hq1) as [Hl1' Hs1].
  apply (mod_ok c1 q r1); [done|done|done|done|]. apply (sendable_eq (q_req r1)); [by left|done|done].
Qed.

Lemma kick_registered_run osd_ok force fw l : forall c n,
  client_ok c -> (forall q, q ∈ l -> reg (view_of c) q) ->
  exists n' c', kick_registered osd_idle_ttl HZ scratch fuel garbage osd_ok force fw l n c = Ret (n', c') /\ client_ok c' /\
    oc_requests c' = oc_requests c /\ oc_last_tid c' = oc_last_tid c.
Proof.
  induction l as [|q l IH]; intros c n Hok Hl; [by exists n, c|]. cbn [kick_registered].
  assert (Hreg : reg (view_of c) q) by (apply Hl; set_solver).
  destruct (reg_lookup _ q (co_view _ Hok) Hreg) as (x & Hx).
  change (v_reqs (view_of c)) with (rv <$> oc_reqs c) in Hx. apply lookup_fmap_Some in Hx as (r & _ & Hq).
  destruct (kick_request_run c q r osd_ok force fw n Hok Hq Hreg) as (n1 & c1 & E1 & Hok1 & Ht1 & Hl1).
  rewrite (run_bnd _ _ _ _ _ E1). destruct (IH c1 n1 Hok1) as (n' & c' & E' & Hok' & Ht' & Hl').
  { intros y Hy. unfold reg. cbn. rewrite Ht1. apply Hl. set_solver. }
  exists n', c'. do 2 (split; [done|]). split; congruence.
Qed.

Lemma kick_requests_run osd_ok force fw c :
  client_ok c ->
  exists c', kick_requests osd_idle_ttl HZ scratch fuel garbage osd_ok force fw c = Ret (tt, c') /\ client_ok c' /\
    oc_requests c' = oc_requests c /\ oc_last_tid c' = oc_last_tid c.
Proof.
  intros Hok. unfold kick_requests. rewrite run_get.
  destruct (kick_registered_run osd_ok force fw (snd <$> oc_requests c) c 0 Hok) as (n1 & c1 & E1 & Hok1 & Ht1 & Hl1); [done|].
  rewrite (run_bnd _ _ _ _ _ E1), run_get, (ro_linger c1 (co_rest _ Hok1)). cbn [kick_linger]. rewrite run_ret.
  destruct (reset_changed_osds_run c1 Hok1) as (c2 & E2 & Hok2 & [_ _ _ _ Hl2 Ht2 _]). rewrite (run_bnd _ _ _ _ _ E2).
  destruct (n1 =? 0); (eexists; split; [reflexivity|]).
  - split; [done|]. split; congruence.
  - split; [by apply log_ok|]. split; cbn; congruence.
Qed.

(** A map that covers the sessions. *)
Definition covers (c : osd_client) (m : ceph_osdmap) : Prop :=
  good m /\ map_Forall (fun o _ => 0 <= o < Z.of_nat (length (om_osd_addr m))) (oc_osds c).

Lemma kick_map_run osd_ok force fw m c :
  client_ok c -> covers c m ->
  exists c', kick_requests osd_idle_ttl HZ scratch fuel garbage osd_ok force fw (c <| oc_map := Some m |>) = Ret (tt, c') /\
    client_ok c' /\ oc_last_tid c' = oc_last_tid c.
Proof.
  intros [Hv [R1 R2 R3 _]] [Hg Hc].
  assert (Hok : client_ok (c <| oc_map := Some m |>)) by (split; [done|]; split; try done; by exists m).
  destruct (kick_requests_run osd_ok force fw _ Hok) as (c1 & E1 & Hok1 & _ & Hl1). by exists c1.
Qed.

(** ** Timeouts *)
Lemma slow_osds_run keepalive c l : forall slow,
  client_ok c -> (forall q, q ∈ l -> q ∈ oc_req_lru c) -> exists slow', slow_osds keepalive l slow c = Ret (slow', c).
Proof.
  induction l as [|q l IH]; intros slow Hok Hl; [by exists slow|]. cbn [slow_osds]. rewrite run_get.
  assert (Hq : q ∈ oc_req_lru c) by (apply Hl; set_solver). pose proof (co_view _ Hok) as Hv.
  assert (Hreg : reg (view_of c) q) by (apply (ok_waiting _ Hv); unfold waiting; cbn; set_solver).
  destruct (reg_lookup _ q Hv Hreg) as (x & Hx).
  change (v_reqs (view_of c)) with (rv <$> oc_reqs c) in Hx. apply lookup_fmap_Some in Hx as (r & _ & Hr).
  rewrite (run_get_req q _ c r Hr). case_match; [by eexists|].
  pose proof (ok_target _ Hv q (rv r)) as Ho. cbn in Ho. specialize (Ho ltac:(set_solver) ltac:(by apply view_req)).
  destruct (q_osd r) as [o|]; [|done]. apply IH; [done|]. set_solver.
Qed.

Lemma log_eq c f g : f (oc_log c) = g (oc_log c) -> c <| oc_log ::= f |> = c <| oc_log ::= g |>.
Proof. destruct c. unfold over. cbn. by intros ->. Qed.

Lemma emit_each c (f : Z -> effect) l :
  client_ok c -> exists lg, for_each l (fun o => emit (f o)) c = Ret (tt, c <| oc_log ::= fun x => x ++ lg |>).
Proof.
  revert c. induction l as [|o l IH]; intros c Hok.
  - exists []. cbn. unfold oret. do 2 f_equal. rewrite <- (log_id c) at 1. apply log_eq. by rewrite app_nil_r.
  - cbn [for_each]. rewrite run_emit. destruct (IH (c <| oc_log ::= fun l => l ++ [f o] |>)) as [lg E]; [by apply log_ok|].
    exists ([f o] ++ lg). rewrite E. do 2 f_equal.
    transitivity (c <| oc_log ::= fun x => (x ++ [f o]) ++ lg |>); [by destruct c|]. apply log_eq. by rewrite <- app_assoc.
Qed.

Lemma handle_timeout_run c :
  client_ok c -> exists c', handle_timeout osd_keepalive_timeout HZ c = Ret (tt, c') /\ client_ok c' /\
    oc_req_unsent c' = [] /\ oc_last_tid c' = oc_last_tid c.
Proof.
  intros Hok. unfold handle_timeout. rewrite run_emit, run_get. set (c1 := c <| oc_log ::= _ |>).
  assert (Hok1 : client_ok c1) by (by apply log_ok).
  destruct (slow_osds_run (osd_keepalive_timeout * HZ) c1 (oc_req_lru c1) [] Hok1) as [slow Es]; [done|].
  rewrite (run_bnd _ _ _ _ _ Es). destruct (emit_each c1 ConKeepalive slow Hok1) as [lg El]. rewrite (run_bnd _ _ _ _ _ El), run_emit.
  match goal with |- context [__send_queued ?cc] => set (c2 := cc) end.
  assert (Hok2 : client_ok c2) by (by apply log_ok, log_ok).
  destruct (send_queued_run c2 Hok2) as (c3 & sends & E3 & Hok3 & Hu3 & _ & _ & Hl3 & _). by exists c3.
Qed.

Lemma remove_old_run l : forall c,
  client_ok c -> NoDup l -> (forall o, o ∈ l -> o ∈ oc_osd_lru c) ->
  exists c', remove_old l c = Ret (tt, c') /\ client_ok c' /\ same_registry c c'.
Proof.
  induction l as [|o l IH]; intros c Hok Hnd Hl; [exists c; split; [done|]; split; [done|apply same_registry_refl]|].
  apply NoDup_cons in Hnd as [Ho Hnd]. destruct (ok_idle _ (co_view _ Hok)) as [_ Hi].
  specialize (Hi o ltac:(apply Hl; set_solver)). change (v_osds (view_of c)) with (o_requests <$> oc_osds c) in Hi.
  apply lookup_fmap_Some in Hi as (x & Hnil & Hx). cbn [remove_old]. rewrite run_get, (run_get_osd o _ c x Hx).
  case_match; [exists c; split; [done|]; split; [done|apply same_registry_refl]|].
  destruct (remove_osd_run c o x Hok Hx Hnil) as (c1 & E1 & Hok1 & Hs1 & _ & Hlru). rewrite (run_bnd _ _ _ _ _ E1).
  destruct (IH c1 Hok1 Hnd) as (c' & E' & Hok' & Hs').
  { intros y Hy. rewrite Hlru, elem_of_rem. split; [by intros ->|]. apply Hl. set_solver. }
  exists c'. split; [done|]. split; [done|]. by eapply same_registry_trans.
Qed.

(** ** Replies *)

(** [m] returns from [c], in a way that [Q] describes. *)
Definition yields {A} (m : OM A) (c : osd_client) (Q : A -> osd_client -> Prop) : Prop :=
  exists a c', m c = Ret (a, c') /\ Q a c'.

Lemma yields_ret {A} (a : A) c (Q : A -> osd_client -> Prop) : Q a c -> yields (oret a) c Q.
Proof. by exists a, c. Qed.

Lemma yields_bnd {A B} (m : OM A) (k : A -> OM B) c (P : A -> osd_client -> Prop) (Q : B -> osd_client -> Prop) :
  yields m c P -> (forall a c', P a c' -> yields (k a) c' Q) -> yields (obnd m k) c Q.
Proof. intros (a & c' & E & HP) Hk. destruct (Hk a c' HP) as (b & d & E' & HQ). exists b, d. by rewrite (run_bnd _ _ _ _ _ E). Qed.

Lemma yields_run {A B} (m : OM A) (k : A -> OM B) c a c' Q : m c = Ret (a, c') -> yields (k a) c' Q -> yields (obnd m k) c Q.
Proof. intros E (b & d & E' & HQ). exists b, d. by rewrite (run_bnd _ _ _ _ _ E). Qed.

Lemma yields_mono {A} (m : OM A) c (P Q : A -> osd_client -> Prop) :
  yields m c P -> (forall a c', P a c' -> Q a c') -> yields m c Q.
Proof. intros (a & c' & E & HP) HPQ. exists a, c'. auto. Qed.

Lemma yields_if {A} (b : bool) (m n : OM A) c Q : yields m c Q -> yields n c Q -> yields (if b then m else n) c Q.
Proof. by destruct b. Qed.

(** [q] is referred to by the handler, besides the registry. *)
Record held (tid : Z) (q : nat) (c : osd_client) : Prop := {
  hd_ok : client_ok c;
  hd_unsent : oc_req_unsent c = [];
  hd_tid : oc_last_tid c = tid;
  hd_req : exists r, oc_reqs c !! q = Some r /\ (~ reg (view_of c) q \/ 1 < q_kref r) }.

Abbreviation yields_held m c tid q := (yields m c (fun (_ : unit) => held tid q)).

Lemma held_step {B} tid q c (m : OM unit) (k : unit -> OM B) Q :
  yields_held m c tid q -> (forall c', held tid q c' -> yields (k tt) c' Q) -> yields (obnd m k) c Q.
Proof. intros Hm Hk. eapply yields_bnd; [exact Hm|]. intros [] c' Hc. by apply Hk. Qed.

Lemma held_emit tid q c e : held tid q c -> yields_held (emit e) c tid q.
Proof. intros []. eexists _, _. split; [reflexivity|]. split; try done. by apply log_ok. Qed.

Lemma held_mod tid q c f :
  (forall r, rv (f r) = rv r /\ q_linger (f r) = q_linger r /\ (sendable (q_req r) -> sendable (q_req (f r)))) ->
  held tid q c -> yields_held (mod_req q f) c tid q.
Proof.
  intros Hf [Hok Hu Ht (r & Hq & Hk)]. destruct (Hf r) as (Hv & Hl & Hs).
  destruct (ro_reqs c (co_rest _ Hok) q r Hq) as [Hlr Hsr]. eexists _, _. rewrite (run_mod_req_ q f c r Hq). split; [reflexivity|].
  split; [apply (mod_ok c q r); [done|done|done|congruence|by apply Hs]|done|done|]. exists (f r). cbn -[insert].
  rewrite lookup_insert_eq. split; [done|]. injection Hv as _ _ ->. exact Hk.
Qed.

Lemma held_unregister tid q c :
  held tid q c -> yields (__unregister_request osd_idle_ttl HZ q) c (fun _ c' => held tid q c' /\ ~ reg (view_of c') q).
Proof.
  intros [Hok Hu Ht (r & Hq & Hk)]. destruct (unregister_ok (osd_idle_ttl := osd_idle_ttl) (HZ := HZ) c q r Hok Hq)
    as (c' & E & Hok' & Hn & Ht' & Hu' & Hr'). exists tt, c'. split; [done|]. split; [|done].
  split; [done|by apply (no_unsent c)|congruence|]. destruct Hk as [Hk|Hk].
  - exists r. split; [|by left]. unfold __unregister_request in E. rewrite run_get in E.
    destruct (registered q c) eqn:Er; [by apply registered_reg in Er|]. injection E as <-. done.
  - destruct (Hr' Hk) as (r' & Hq' & _). exists r'. split; [done|by left].
Qed.

(** The reference is dropped. *)
Definition settled (lo hi : Z) (c : osd_client) : Prop :=
  client_ok c /\ oc_req_unsent c = [] /\ lo <= oc_last_tid c <= hi.

Lemma settled_mono tid c : settled tid tid c -> settled tid (tid + 1) c.
Proof. intros (? & ? & ?). split; [done|]. split; [done|lia]. Qed.

Lemma held_put tid q c : held tid q c -> yields (ceph_osdc_put_request q) c (fun _ => settled tid tid).
Proof.
  intros [Hok Hu Ht (r & Hq & Hk)]. exists tt, (put_req q r c). rewrite (run_put q c r Hq). split; [done|].
  destruct (put_req_fields q r c) as (P1 & _ & P3 & _). unfold settled. rewrite P1, P3. split; [by apply put_req_ok|]. split; [done|lia].
Qed.

Lemma held_get_req {B} tid q c (k : osd_request -> OM B) Q :
  held tid q c -> (forall r, oc_reqs c !! q = Some r -> yields (k r) c Q) -> yields (obnd (get_req q) k) c Q.
Proof.
  intros [_ _ _ (r & Hq & _)] Hk. destruct (Hk r Hq) as (b & c' & E & HQ). exists b, c'. by rewrite (run_get_req q k c r Hq).
Qed.

Lemma held_complete tid q c : held tid q c -> yields_held (complete_reply q) c tid q.
Proof. intros Hh. apply (held_get_req tid); [done|]. intros r _. apply yields_if; by apply held_emit. Qed.

Lemma bad_put_run tid q c : held tid q c -> yields (bad_put osd_idle_ttl HZ q) c (fun _ => settled tid tid).
Proof.
  intros Hh. unfold bad_put. eapply yields_bnd; [apply (held_mod tid); [done|done]|]. intros [] c1 H1.
  eapply yields_bnd; [by apply (held_unregister tid)|]. intros [] c2 [H2 _].
  eapply yields_bnd; [by apply (held_complete tid)|]. intros [] c3 H3.
  eapply yields_bnd; [by apply (held_emit tid)|]. intros [] c4 H4.
  eapply yields_bnd; [by apply held_put|]. intros [] c5 (H5 & H6 & H7). eexists _, _. split; [reflexivity|].
  split; [by apply log_ok|done].
Qed.

Lemma redirect_run tid q c osd_ok pool :
  held tid q c -> 0 <= tid < 2 ^ 64 - 1 -> ~ reg (view_of c) q ->
  yields (_ ⟸ mod_req q (fun r => r <| q_req ::= fun x => x <| r_target_pool := pool |> |>);
          err ⟸ __ceph_osdc_start_request osd_idle_ttl HZ scratch fuel garbage osd_ok q true;
          if negb (err =? 0) then ofault BugOn else ceph_osdc_put_request q) c (fun _ => settled tid (tid + 1)).
Proof.
  intros [Hok Hu Htid (r & Hq & _)] Ht Hn. rewrite <- Htid in Ht |- *.
  destruct (ro_reqs c (co_rest _ Hok) q r Hq) as [Hl Hs].
  eapply yields_run; [by apply (run_mod_req_ q _ c r)|]. set (r1 := r <| q_req ::= fun x => x <| r_target_pool := pool |> |>).
  set (c1 := c <| oc_reqs ::= insert q r1 |>).
  assert (Hok1 : client_ok c1).
  { apply (mod_ok c q r); [done|done|done|done|]. apply (sendable_eq (q_req r)); [by left|done|done]. }
  assert (Hq1 : oc_reqs c1 !! q = Some r1) by (cbn -[insert]; by rewrite lookup_insert_eq).
  destruct (start_run (osd_idle_ttl := osd_idle_ttl) (HZ := HZ) c1 q r1 osd_ok true Hok1 Hq1 Hn Ht Hu)
    as (rc & c2 & r2 & E2 & Hok2 & Hu2 & Ht2 & Hrc & Hq2 & Hk2 & _).
  eapply yields_run; [exact E2|]. rewrite (Hrc eq_refl). cbn [negb Z.eqb].
  change (oc_last_tid c2 = oc_last_tid c + 1) in Ht2.
  destruct (held_put (oc_last_tid c + 1) q c2) as (u & c3 & E3 & Hok3 & Hu3 & Ht3); [split; [done|done|done|by exists r2]|].
  exists u, c3. split; [done|]. split; [done|]. split; [done|lia].
Qed.

Lemma finish_reply_run tid q c osd_ok h bytes redirect :
  held tid q c -> 0 <= tid < 2 ^ 64 - 1 ->
  yields (finish_reply osd_idle_ttl HZ scratch fuel garbage osd_ok q h bytes redirect) c (fun _ => settled tid (tid + 1)).
Proof.
  intros Hh Ht. unfold finish_reply. destruct (negb (redirect =? -1)).
  - eapply yields_bnd; [by apply (held_unregister tid)|]. intros [] c1 [H1 Hn1]. by apply redirect_run.
  - apply (yields_mono _ _ (fun _ => settled tid tid)); [|intros _ c'; apply settled_mono].
    apply (held_get_req tid); [done|]. intros r Hq. cbv zeta.
    set (ondisk := has_flag _ _). destruct (q_got_reply r && negb ondisk); [by apply held_put|].
    assert (Hl : q_linger r = false) by (apply (ro_reqs c (co_rest _ (hd_ok _ _ _ Hh)) q r Hq)).
    apply (held_step tid q); [apply yields_if; [by apply yields_ret|apply held_mod; [|done]]|].
    { intros x. split; [done|]. split; [done|]. intros Hs. apply (sendable_eq (q_req x)); [by left|done|done]. }
    intros c1 H1. rewrite Hl. cbn [andb]. apply (held_step tid q); [by apply yields_ret|]. intros c2 H2.
    apply (held_step tid q); [apply yields_if; [|by apply yields_ret]|].
    { destruct (held_unregister tid q c2 H2) as (u & c' & E & Hh' & _). by exists u, c'. }
    intros c3 H3. apply (held_step tid q); [apply yields_if; [by apply yields_ret|]|].
    { apply (held_step tid q); [apply yields_if; [by apply held_emit|by apply yields_ret]|].
      intros c4 H4. by apply held_complete. }
    intros c4 H4. apply (held_step tid q); [apply yields_if; [|by apply yields_ret]|].
    { apply (held_step tid q); [apply yields_if; [by apply held_emit|by apply yields_ret]|].
      intros c5 H5. by apply held_emit. }
    intros c5 H5. by apply held_put.
Qed.

(** The redirect of a reply; only its decoder may read outside the message. *)
Definition reply_redirect (msg : ceph_msg) (num_ops : Z) : outcome Z :=
  let buf := iov_base (m_front msg) in
  let end_ := iov_len (m_front msg) in
  '(_, p) ← decode_at (decode_head buf end_) 0;
  '(_, p) ← decode_at (decode_ops buf end_ num_ops) p;
  '(_, p) ← decode_at (decode_op_results buf end_ num_ops) p;
  '(redirect, _) ← decode_at (decode_redirect buf end_ (h_version (m_hdr msg))) p;
  Ret redirect.

Definition faults {A} (o : outcome A) : bool := match o with Fault _ => true | _ => false end.

(** A reply the messenger may hand over. *)
Record good_reply (c : osd_client) (msg : ceph_msg) : Prop := {
  gr_front : 0 <= iov_len (m_front msg) <= zlen (iov_base (m_front msg));
  gr_int : iov_len (m_front msg) < 2 ^ 31;
  gr_redirect : forall q r, __lookup_request c (h_tid (m_hdr msg)) = Some q -> oc_reqs c !! q = Some r ->
    faults (reply_redirect msg (r_num_ops (q_req r))) = false }.

Lemma lookup_reg c tid q : __lookup_request c tid = Some q -> reg (view_of c) q.
Proof.
  unfold __lookup_request. destruct (List.find _ _) as [[t x]|] eqn:E; [|done]. intros [= <-].
  apply find_some in E as [Hin _]. apply reg_elem. exists t. by apply list_elem_of_In.
Qed.

(** From the lookup on: the request is referred to, and the rest of the
    message is decoded. *)
Lemma handle_reply_run tid osd_ok msg c :
  settled tid tid c -> 0 <= tid < 2 ^ 64 - 1 -> good_reply c msg ->
  yields (handle_reply osd_idle_ttl HZ scratch fuel garbage osd_ok msg) c (fun _ => settled tid (tid + 1)).
Proof.
  intros (Hok & Hu & Ht) Hmax [Hf Hi Hr].
  assert (Hbad : forall c', settled tid tid c' -> yields (emit Corrupt) c' (fun _ => settled tid (tid + 1))).
  { intros c' (A & B & D). eexists _, _. split; [reflexivity|]. split; [by apply log_ok|]. split; [done|cbn; lia]. }
  assert (Hbp : forall q c', held tid q c' -> yields (bad_put osd_idle_ttl HZ q) c' (fun _ => settled tid (tid + 1))).
  { intros q c' Hh. eapply yields_mono; [by apply bad_put_run|]. intros ? c2. apply settled_mono. }
  unfold handle_reply. unfold reply_redirect in Hr. cbv zeta in *. set (buf := iov_base _) in *. set (end_ := iov_len _) in *.
  destruct (decode_at_safe buf (decode_head buf end_) 0) as [[e ->]|(h & p1 & E1 & H1)];
    [apply dsafe_head; lia|unfold inside; lia|by apply Hbad|]. rewrite E1 in Hr |- *.
  eapply yields_run; [reflexivity|]. destruct (__lookup_request c (h_tid (m_hdr msg))) as [q|] eqn:Eq; [|by apply Hbad].
  destruct (reg_lookup _ q (co_view _ Hok) (lookup_reg c _ q Eq)) as (x & Hx).
  change (v_reqs (view_of c)) with (rv <$> oc_reqs c) in Hx. apply lookup_fmap_Some in Hx as (r & _ & Hq).
  specialize (Hr q r eq_refl Hq). rewrite bind_Ret_eq in Hr.
  pose proof (ok_kref _ (co_view _ Hok) q _ (view_req c q r Hq)) as Hk. cbn in Hk.
  destruct (ro_reqs c (co_rest _ Hok) q r Hq) as [_ Hs]. pose proof (se_ops _ Hs) as Hops.
  set (r1 := r <| q_kref ::= Z.succ |>). set (c1 := c <| oc_reqs ::= insert q r1 |>).
  assert (Hq1 : oc_reqs c1 !! q = Some r1) by (cbn -[insert]; by rewrite lookup_insert_eq).
  assert (Hh1 : held tid q c1) by (split; [by apply get_req_ok|done|cbn; lia|exists r1; split; [done|right; cbn; lia]]).
  eapply yields_run; [by apply (run_mod_req_ q _ c r)|]. 
  eapply (yields_run _ _ c1 r1 c1); [unfold get_req; by rewrite Hq1|].
  change (r_num_ops (q_req r1)) with (r_num_ops (q_req r)).
  destruct (decode_at_safe buf (decode_ops buf end_ (r_num_ops (q_req r))) p1) as [[e ->]|(lens & p2 & E2 & H2)];
    [apply dsafe_ops; lia|done|by apply Hbp|]. rewrite E2 in Hr |- *. rewrite bind_Ret_eq in Hr.
  apply (held_step tid q); [by apply held_mod|]. intros c2 Hh2. destruct (negb _); [by apply Hbp|].
  destruct (decode_at_safe buf (decode_op_results buf end_ (r_num_ops (q_req r))) p2) as [[e ->]|(results & p3 & E3 & H3)];
    [apply dsafe_op_results; lia|done|by apply Hbp|]. rewrite E3 in Hr |- *. rewrite bind_Ret_eq in Hr.
  apply (held_step tid q); [by apply held_mod|]. intros c3 Hh3.
  destruct (decode_at (decode_redirect _ _ _) p3) as [[redirect p4]|e|f]; [by apply finish_reply_run|by apply Hbp|done].
Qed.

(** ** Maps *)
Section HandleMap.
Context (buf : list Z) (end_ : Z) (kmalloc_ok : nat -> Z -> bool) (osd_ok : bool).

Abbreviation kick := (kick_requests osd_idle_ttl HZ scratch fuel garbage osd_ok).

(** Every map of the message that the client takes decodes, when its turn
    comes, to a map in order that covers the sessions; and there is no error
    after an incremental map was taken. *)
Fixpoint inc_good (n : nat) (p : Z) (newmap was_full : bool) (c : osd_client) : Prop :=
  match n with
  | O => True
  | S n =>
      match decode_at (decode_map_head buf end_) p with
      | Fault _ => False
      | Err _ => newmap = false
      | Ret ((epoch, maplen), p) =>
          match oc_map c with
          | Some map =>
              if u32 (om_epoch map + 1) =? epoch then
                match osdmap_apply_incremental buf kmalloc_ok (p + maplen) (Dst p 0%nat map) with
                | (Fault _, _) => False
                | (Err _, s) => newmap = false /\ covers c (d_obj s)
                | (Ret new, s) =>
                    let new := default (d_obj s) new in
                    let c1 := c <| oc_map := Some new |> in
                    covers c new /\
                    forall c', kick false (was_full || is_full c1) c1 = Ret (tt, c') ->
                      inc_good n (p + maplen) true (was_full || is_full c1) c'
                end
              else inc_good n (p + maplen) newmap was_full c
          | None => inc_good n (p + maplen) newmap was_full c
          end
      end
  end.

Lemma set_map_covers c m : client_ok c -> covers c m -> client_ok (c <| oc_map := Some m |>).
Proof. intros [Hv [R1 R2 R3 _]] [Hg Hc]. split; [done|]. split; try done. by exists m. Qed.

(** In order, with the transaction ids of before, and nothing to send unless
    a map was taken. *)
Definition ordered (tid : Z) (newmap : bool) (c : osd_client) : Prop :=
  client_ok c /\ oc_last_tid c = tid /\ (newmap = false -> oc_req_unsent c = []).

Definition taken {A B} (r : option (bool * A * B)) : bool := match r with Some (b, _, _) => b | None => false end.

Lemma inc_maps_run tid n : forall p newmap was_full c,
  ordered tid newmap c -> inc_good n p newmap was_full c ->
  yields (inc_maps osd_idle_ttl HZ scratch fuel garbage buf end_ kmalloc_ok osd_ok n p newmap was_full) c
    (fun r => ordered tid (taken r)).
Proof.
  induction n as [|n IH]; intros p newmap was_full c (Hok & Ht & Hu) Hg; [by apply yields_ret|]. cbn [inc_good inc_maps] in *.
  destruct (decode_at _ p) as [[[epoch maplen] p1]|e|f]; [|apply yields_ret; by rewrite Hg in Hu|done].
  eapply yields_run; [reflexivity|]. destruct (oc_map c) as [map|]; [|by apply IH].
  destruct (_ =? epoch); [|by apply IH]. destruct (osdmap_apply_incremental _ _ _ _) as [[new|e|f] s]; [| |done].
  - destruct Hg as [Hc Hg]. set (c1 := c <| oc_map := Some (default (d_obj s) new) |>) in *.
    destruct (kick_map_run osd_ok false (was_full || is_full c1) _ c Hok Hc) as (c2 & E2 & Hok2 & Ht2).
    eapply (yields_run _ _ _ tt c1); [done|]. eapply yields_run; [reflexivity|]. eapply yields_run; [exact E2|].
    apply IH; [split; [done|split; [congruence|done]]|by apply Hg].
  - destruct Hg as [-> Hc]. eapply yields_run; [reflexivity|]. apply yields_ret. split; [by apply set_map_covers|]. split; [done|by apply Hu].
Qed.

(** The last full map, if it is newer. *)
Fixpoint full_good (n : nat) (p : Z) (c : osd_client) : Prop :=
  match n with
  | O => True
  | S n =>
      match decode_at (decode_map_head buf end_) p with
      | Fault _ => False
      | Err _ => True
      | Ret ((epoch, maplen), p) =>
          if (0 <? n)%nat || match oc_map c with Some map => epoch <=? om_epoch map | None => false end
          then full_good n (p + maplen) c
          else
            match ceph_osdmap_decode buf kmalloc_ok (p + maplen) (Dst p 0%nat zero_osdmap) with
            | (Fault _, _) => False
            | (Err _, _) => True
            | (Ret new, _) => covers c new
            end
      end
  end.

Lemma full_maps_run tid n : forall p was_full c,
  ordered tid false c -> full_good n p c ->
  yields (full_maps osd_idle_ttl HZ scratch fuel garbage buf end_ kmalloc_ok osd_ok n p was_full) c
    (fun r => ordered tid (match r with Some _ => true | None => false end)).
Proof.
  induction n as [|n IH]; intros p was_full c (Hok & Ht & Hu) Hg; [by apply yields_ret|]. cbn [full_good full_maps] in *.
  destruct (decode_at _ p) as [[[epoch maplen] p1]|e|f]; [|by apply yields_ret|done].
  eapply yields_run; [reflexivity|]. destruct ((0 <? n)%nat || _) eqn:El; [by apply IH|].
  assert (n = 0%nat) as -> by (destruct n; done).
  destruct (ceph_osdmap_decode _ _ _ _) as [[new|e|f] s]; [|by apply yields_ret|done].
  set (c1 := c <| oc_map := Some new |>) in *. eapply (yields_run _ _ _ tt c1); [done|]. eapply yields_run; [reflexivity|].
  match goal with |- context [kick_requests _ _ _ _ _ _ ?b ?fw] => destruct (kick_map_run osd_ok b fw _ c Hok Hg) as (c2 & E2 & Hok2 & Ht2) end.
  eapply yields_run; [exact E2|]. apply yields_ret. split; [done|]. split; [congruence|done].
Qed.

(** The message as a whole. *)
Definition good_maps (c : osd_client) : Prop :=
  match decode_at (_ ⇐ ceph_decode_need end_ 16 EINVAL; ceph_decode_copy buf 16) 0 with
  | Fault _ => False
  | Err _ => True
  | Ret (fsid, p) =>
      forall ok c1, ceph_check_fsid fsid c = Ret (ok, c1) -> 0 <= ok ->
      let c2 := c1 <| oc_log ::= fun l => l ++ [DownWrite] |> in
      match decode_at (ceph_decode_32_safe buf end_ EINVAL) p with
      | Fault _ => False
      | Err _ => True
      | Ret (nr_maps, p) =>
          inc_good (Z.to_nat nr_maps) p false (is_full c2) c2 /\
          forall p' wf c3,
            inc_maps osd_idle_ttl HZ scratch fuel garbage buf end_ kmalloc_ok osd_ok (Z.to_nat nr_maps) p false (is_full c2) c2 =
              Ret (Some (false, p', wf), c3) ->
            match decode_at (ceph_decode_32_safe buf end_ EINVAL) p' with
            | Fault _ => False
            | Err _ => True
            | Ret (nr_maps, p) => full_good (Z.to_nat nr_maps) p c3
            end
      end
  end.

Lemma map_bad_run tid c : ordered tid false c -> yields map_bad c (fun _ => settled tid tid).
Proof.
  intros (Hok & Ht & Hu). eexists _, _. split; [reflexivity|]. split; [by apply log_ok, log_ok|].
  split; [by apply Hu|cbn; lia].
Qed.

Lemma map_done_run tid c : ordered tid true c -> yields map_done c (fun _ => settled tid tid).
Proof.
  intros (Hok & Ht & _). destruct (ro_map c (co_rest _ Hok)) as (m & Hm & _). unfold map_done.
  eapply yields_run; [reflexivity|]. eapply yields_run; [reflexivity|]. change (oc_map (_ <| oc_log ::= _ |>)) with (oc_map c).
  rewrite Hm. eapply yields_run; [reflexivity|]. eapply yields_run; [reflexivity|].
  match goal with |- yields _ ?cc _ => assert (Hok1 : client_ok cc /\ oc_last_tid cc = tid) by (split; [by apply log_ok, log_ok|done]) end.
  eapply (yields_bnd _ _ _ (fun _ c' => client_ok c' /\ oc_last_tid c' = tid)).
  { apply yields_if; [|by apply yields_ret]. eexists _, _. split; [reflexivity|]. split; [apply log_ok, Hok1|apply Hok1]. }
  intros [] c2 [Hok2 Ht2]. destruct (send_queued_run c2 Hok2) as (c3 & sends & E3 & Hok3 & Hu3 & _ & _ & Hl3 & _).
  eapply yields_run; [exact E3|]. eexists _, _. split; [reflexivity|]. split; [by apply log_ok|]. split; [done|cbn; lia].
Qed.

Lemma check_fsid_run tid fsid c :
  settled tid tid c -> exists ok c', ceph_check_fsid fsid c = Ret (ok, c') /\ settled tid tid c'.
Proof.
  intros (Hok & Hu & Ht). unfold ceph_check_fsid. rewrite run_get. case_match; [by eexists _, c|].
  eexists _, _. split; [reflexivity|]. split; [destruct Hok as [Hv []]; by split; [|split]|done].
Qed.

Lemma handle_map_run tid c :
  settled tid tid c -> good_maps c ->
  yields (ceph_osdc_handle_map osd_idle_ttl HZ scratch fuel garbage buf end_ kmalloc_ok osd_ok) c (fun _ => settled tid tid).
Proof.
  assert (Hord : forall c', settled tid tid c' -> ordered tid false c') by (intros c' (? & ? & ?); split; [done|]; split; [lia|done]).
  intros Hset Hg. unfold ceph_osdc_handle_map, good_maps, or_bad in *.
  destruct (decode_at (dbind _ _) 0) as [[fsid p]|e|f]; [|by apply map_bad_run, Hord|done].
  destruct (check_fsid_run tid fsid c Hset) as (ok & c1 & E1 & Hset1). eapply yields_run; [exact E1|].
  destruct (Z.ltb_spec ok 0) as [Hneg|Hpos]; [by apply yields_ret|]. specialize (Hg ok c1 E1 Hpos). cbv zeta in Hg.
  eapply yields_run; [reflexivity|]. eapply yields_run; [reflexivity|]. set (c2 := c1 <| oc_log ::= _ |>) in *.
  assert (Hset2 : settled tid tid c2) by (destruct Hset1 as (? & ? & ?); split; [by apply log_ok|done]).
  destruct (decode_at _ p) as [[nr p2]|e|f]; [|by apply map_bad_run, Hord|done]. destruct Hg as [Hinc Hfull].
  destruct (inc_maps_run tid (Z.to_nat nr) p2 false (is_full c2) c2 (Hord _ Hset2) Hinc) as (r & c3 & E3 & H3).
  eapply yields_run; [exact E3|]. destruct r as [[[[] p3] wf]|]; [by apply map_done_run| |by apply map_bad_run].
  specialize (Hfull p3 wf c3 E3). destruct (decode_at _ p3) as [[nf p4]|e|f]; [|by apply map_bad_run|done].
  destruct (full_maps_run tid (Z.to_nat nf) p4 wf c3 H3 Hfull) as (r & c4 & E4 & H4). eapply yields_run; [exact E4|].
  destruct r as [u|]; [|by apply map_bad_run]. eapply yields_run; [reflexivity|].
  destruct (ro_map c4 (co_rest _ (proj1 H4))) as (m & -> & _). by apply map_done_run.
Qed.
End HandleMap.

End Client.
