(* ===== verification/OsdPlace.v ===== *)
(** * The placement code, as the OSD client uses it

    Discharges the interface [Placement] of OsdClientInv.v with the placement
    code of PgMapping.v: on maps whose pools are replicated with generated
    chooseleaf firstn rules, whose pg_temp lists fit the arrays and whose
    primary_temp OSDs exist, the mapping always returns and yields an OSD of the
    map or none. *)
From stdpp Require Import gmap.
From S2P Require Import Prelude.
From S2P Require Import Hash.
From S2P Require Import Crush.
From S2P Require Import Mapper.
From S2P Require Import Firstn.
From S2P Require Import CrushTotal.
From S2P Require Import CrushRule.
From S2P Require Import RbTree.
From S2P Require Import OsdMap.
From S2P Require Import OsdMapDecode.
From S2P Require Import OsdMapInv.
From S2P Require Import PgMapping.
From S2P Require Import PgActing.
From S2P Require Import OsdClient.
From S2P Require Import OsdClientInv.
Local Open Scope Z_scope.
Local Open Scope ceph_scope.

(** The pool [pi] of [map], placed with the CRUSH map [c]. *)
Record pool_placed (rank : Z -> nat) (H : nat) (maxsize : Z) (c : crush_map) (scratch : list Z) (fuel : nat)
    (garbage : list Z) (map : ceph_osdmap) (pi : pg_pool_info) : Prop := {
  pp_type : pi_type pi = CEPH_POOL_TYPE_REP;
  pp_rule : exists ruleno root type,
    crush_find_rule c (pi_crush_ruleset pi) (pi_type pi) (pi_size pi) = Ret ruleno /\
    rule_setting (om_osd_weight map) (om_max_osd map) (Z.min (pi_size pi) CEPH_PG_MAX_SIZE)
      c CRUSH_RULE_CHOOSELEAF_FIRSTN ruleno root 0 type garbage scratch }.

(** Maps that are placed with [c], up to its permutation caches. *)
Record placed (rank : Z -> nat) (H : nat) (maxsize : Z) (c : crush_map) (scratch : list Z) (fuel : nat)
    (garbage : list Z) (map : ceph_osdmap) : Prop := {
  pl_ok : osdmap_ok map;
  pl_crush : exists c1, om_crush map = Some c1 /\ CrushTotal.good c c1;
  pl_pools : forall id path pi, lookup_pg_pool (om_pg_pools map) id = Some (path, pi) ->
    pool_placed rank H maxsize c scratch fuel garbage map pi;
  pl_temp : forall k pg, pg_temp_map (om_pg_temp map) !! k = Some pg -> (length (pt_osds pg) <= 16)%nat;
  pl_primary : forall k pg, primary_temp_map (om_primary_temp map) !! k = Some pg -> pr_osd pg < om_max_osd map }.

Section Place.
Context `{RbOps} (rank : Z -> nat) (height : nat) (maxsize : Z) (c : crush_map) (scratch : list Z) (fuel : nat) (garbage : list Z).
Context (Hmap : map_ok rank height maxsize c) (Htun : firstn_tunables_ok fuel height maxsize c)
  (Hlen : CEPH_PG_MAX_SIZE <= Z.of_nat (length garbage)).

Abbreviation placed := (placed rank height maxsize c scratch fuel garbage).

Lemma find_rule_same c1 a t s : same_map c c1 -> crush_find_rule c1 a t s = crush_find_rule c a t s.
Proof.
  intros Hs. assert (Er : rules c1 = rules c /\ max_rules c1 = max_rules c) by (destruct Hs as [_ ->]; done).
  destruct Er as [Er Em]. unfold crush_find_rule. rewrite Em. generalize 0.
  induction (Z.to_nat (max_rules c)) as [|n IH]; intros i; [done|]. cbn [find_rule_loop]. rewrite Er.
  destruct (rd (rules c) i) as [[r|]| |]; cbn; rewrite ?IH; done.
Qed.

Lemma placed_raw map pi pps :
  placed map -> pool_placed rank height maxsize c scratch fuel garbage map pi ->
  exists osds n c', pg_to_raw_osds map scratch fuel pi pps garbage = Ret (osds, n, set_crush map (Some c')) /\
    CrushTotal.good c c'.
Proof.
  intros [Hok (c1 & Hc & Hg) _ _ _] [_ (ruleno & root & type & Hr & Hset)].
  destruct (firstn_rule_separates rank height maxsize c (om_osd_weight map) (om_max_osd map) (s32 pps)
    (Z.min (pi_size pi) CEPH_PG_MAX_SIZE) fuel ruleno root 0 type garbage scratch Hmap Hset Htun)
    as (osds1 & n & Hrun & Hn & _).
  destruct (Hrun c1 Hg) as (c' & Hg' & Hdo). pose proof (rt_no _ _ _ _ _ _ _ _ _ _ _ Hset) as Hno.
  exists osds1, n, c'. split; [|done]. unfold pg_to_raw_osds, do_crush. rewrite Hc. cbn [deref obind].
  rewrite find_rule_same, Hr by apply Hg. cbn [obind].
  rewrite (proj2 (Z.ltb_ge ruleno 0)) by lia. rewrite (proj2 (Z.ltb_ge CEPH_PG_MAX_SIZE _)) by lia.
  cbn [bug_on obind]. rewrite (s32_small (om_max_osd map)) by (pose proof (ok_max _ Hok); lia).
  rewrite Hdo. cbn [obind]. by rewrite (proj2 (Z.ltb_ge n 0)) by lia.
Qed.

Lemma placed_set_crush map c' : placed map -> CrushTotal.good c c' -> placed (set_crush map (Some c')).
Proof.
  intros [Hok Hc Hp Ht Hr] Hg. split; [by apply set_crush_ok|by exists c'| |done|done].
  intros id path pi Hl. destruct (Hp id path pi Hl) as [Htype Hrule]. by split.
Qed.

(** The primary is an OSD of the map, or none. *)
Lemma first_up_bound map l : osdmap_ok map -> Forall (fun o => is_osd o -> 0 <= o < om_max_osd map) l -> first_up l < om_max_osd map.
Proof.
  intros Hok Hl. unfold first_up, first_of. pose proof (ok_max _ Hok).
  destruct (list_find is_osd l) as [[i o]|] eqn:E; [|cbn; lia].
  apply list_find_Some in E as (Ho & Hi & _). cbn. rewrite Forall_forall in Hl. apply (Hl o); [|done].
  by eapply list_elem_of_lookup_2.
Qed.

Lemma acting_primary_bound map pi pgid raw :
  placed map -> acting_primary map pi true pgid raw < om_max_osd map.
Proof.
  intros [Hok _ _ _ Hprim]. pose proof (ok_max _ Hok) as Hm. unfold acting_primary, primary_of.
  destruct (primary_temp_of map pi pgid) as [pr|] eqn:Ep; [by eapply Hprim|].
  destruct (temp_of map pi pgid) as [pg|]; [apply first_up_bound; [done|apply up_set_range]|].
  unfold up_primary, first_of. destruct (preferred _ _ _) as [[k o]|] eqn:E; [|cbn; lia]. apply preferred_lookup in E.
  cbn. cbn [up_set] in E. apply list_elem_of_lookup_2 in E. unfold up_only in E.
  apply list_elem_of_filter in E as [Ho _]. apply osd_up_range in Ho. lia.
Qed.

Lemma acting_fits map pi pgid osds1 n :
  placed map -> 0 <= n <= Z.of_nat (length garbage) -> length osds1 = length garbage ->
  (length (acting_set map pi true pgid (slice osds1 0 n)) <= length garbage)%nat.
Proof.
  intros [Hok _ _ Ht _] Hn Hl. unfold acting_set, acting_of, CEPH_PG_MAX_SIZE in *.
  assert (Hf : forall l, (length (up_set map true l) <= length l)%nat) by (intros l; apply length_filter).
  destruct (temp_of map pi pgid) as [pg|] eqn:E; [pose proof (Ht _ _ E); specialize (Hf (pt_osds pg)); lia|].
  rewrite up_ordered_perm. specialize (Hf (slice osds1 0 n)). assert (length (slice osds1 0 n) <= length osds1)%nat; [|lia].
  unfold slice. rewrite length_take, length_drop. lia.
Qed.

Lemma placed_acting map pgid :
  placed map ->
  exists acting num o map', calc_acting scratch fuel garbage map pgid = Ret (acting, num, o, map') /\ placed map' /\
    om_osd_addr map' = om_osd_addr map /\ o < Z.of_nat (length (om_osd_addr map)).
Proof.
  intros Hpl. pose proof (pl_ok _ _ _ _ _ _ _ _ Hpl) as Hok. unfold calc_acting. rewrite (ok_addr _ Hok).
  pose proof (ok_max _ Hok). destruct (lookup_pg_pool (om_pg_pools map) (pool pgid)) as [[path pi]|] eqn:El.
  - pose proof (pl_pools _ _ _ _ _ _ _ _ Hpl _ _ _ El) as Hpp.
    destruct (placed_raw map pi (calc_pps pi pgid) Hpl Hpp) as (osds1 & n & c' & Hraw & Hg).
    destruct (pg_to_raw_osds_spec _ _ _ _ _ _ _ _ _ Hlen Hraw) as (Hn & Hl1 & _).
    destruct (acting_from_raw map Hok scratch fuel pgid path pi true garbage osds1 n (set_crush map (Some c')) Hlen El)
      as (osds' & Hrun & _).
    { unfold ceph_can_shift_osds. by rewrite (pp_type _ _ _ _ _ _ _ _ _ Hpp). }
    { exact Hraw. }
    { apply acting_fits; [done|lia|done]. }
    rewrite Hrun. eexists _, _, _, _. split; [reflexivity|]. split; [by apply placed_set_crush|]. split; [done|].
    by apply acting_primary_bound.
  - unfold ceph_calc_pg_acting. rewrite El. eexists _, _, _, map. split; [reflexivity|]. split; [done|]. split; [done|lia].
Qed.

(** The interface the client relies on. *)
#[export] Instance placed_placement : Placement scratch fuel garbage placed.
Proof.
  split; [intros m Hm; apply Hm| |intros; by apply placed_acting].
  intros m p oid _ Hn Hl. unfold ceph_oloc_oid_to_pg, CEPH_MAX_OID_NAME_LEN in *.
  destruct (lookup_pg_pool _ p) as [[path pi]|]; [left|by right].
  destruct (ceph_str_hash_reads_declared_bytes (pi_object_hash pi) (take (Z.to_nat (oid_name_len oid)) (oid_name oid))
    (drop (Z.to_nat (oid_name_len oid)) (oid_name oid))) as (h & _ & E & _); [rewrite length_take; lia|].
  rewrite take_drop, length_take in E. replace (Z.of_nat (Z.to_nat (oid_name_len oid) `min` length (oid_name oid)))
    with (oid_name_len oid) in E by lia. rewrite E. by eexists.
Qed.
End Place.
