(* ===== verification/OsdTrace.v ===== *)
(** * The OSD client over time

    The events an OSD client meets, in any order: requests are made, started,
    cancelled and released, replies and maps arrive, connections open and are
    reset, the timers fire.  From a client in order every event that may occur
    returns, and leaves a client in order with nothing waiting to be sent; so
    no request with a session is ever forgotten. *)
From stdpp Require Import gmap sets sorting.
From S2P Require Import Prelude.
From S2P Require Import Wire.
From S2P Require Import Crush.
From S2P Require Import Mapper.
From S2P Require Import Firstn.
From S2P Require Import CrushTotal.
From S2P Require Import CrushRule.
From S2P Require Import RbTree.
From S2P Require Import OsdMap.
From S2P Require Import OsdMapDecode.
From S2P Require Import OsdMapInv.
From S2P Require Import PgMapping.
From S2P Require Import PgActing.
From S2P Require Import MsgCursor.
From S2P Require Import Msgr.
From S2P Require Import OsdReq.
From S2P Require Import OsdMsg.
From S2P Require Import OsdClient.
From S2P Require Import OsdReply.
From S2P Require Import OsdRegistry.
From S2P Require Import OsdClientInv.
From S2P Require Import OsdHandlers.
From S2P Require Import OsdPlace.
Local Open Scope Z_scope.
Local Open Scope ceph_scope.
Local Open Scope osdc_scope.

Inductive event : Type :=
  | ENew (q : nat) (r : osd_request)
  | EGet (q : nat)
  | EPut (q : nat)
  | EStart (osd_ok : bool) (q : nat) (nofail : bool)
  | ECancel (q : nat)
  | EReply (osd_ok : bool) (msg : ceph_msg)
  | EMap (osd_ok : bool) (kmalloc_ok : nat -> Z -> bool) (buf : list Z) (end_ : Z)
  | EReset (o : Z)
  | EOpened (o : Z)
  | ETimeout
  | EOsdsTimeout
  | ETick (now : Z).

Section Client.
Context (osd_idle_ttl osd_keepalive_timeout HZ : Z) `{RbOps} (scratch : list Z) (fuel : nat) (garbage : list Z).
Context (good : ceph_osdmap -> Prop) `{!Placement scratch fuel garbage good}.

Local Abbreviation client_ok := (@client_ok good).

Definition run_event (e : event) : OM unit :=
  match e with
  | ENew q r => modify (fun c => c <| oc_reqs ::= insert q r |>)
  | EGet q => ceph_osdc_get_request q
  | EPut q => ceph_osdc_put_request q
  | EStart osd_ok q nofail =>
      _ ⟸ ceph_osdc_start_request osd_idle_ttl HZ scratch fuel garbage osd_ok q nofail; oret tt
  | ECancel q => ceph_osdc_cancel_request osd_idle_ttl HZ q
  | EReply osd_ok msg => handle_reply osd_idle_ttl HZ scratch fuel garbage osd_ok msg
  | EMap osd_ok kmalloc_ok buf end_ =>
      ceph_osdc_handle_map osd_idle_ttl HZ scratch fuel garbage buf end_ kmalloc_ok osd_ok
  | EReset o => osd_reset osd_idle_ttl HZ o
  | EOpened o => mod_osd o (fun x => x <| o_opened := true |>)
  | ETimeout => handle_timeout osd_keepalive_timeout HZ
  | EOsdsTimeout => handle_osds_timeout
  | ETick now => modify (fun c => c <| oc_jiffies := now |>)
  end.

(** When an event may occur: a request that is used exists, it is started
    while it is not registered, and who drops a reference had one. *)
Definition allowed (e : event) (c : osd_client) : Prop :=
  match e with
  | ENew q r => oc_reqs c !! q = None /\ q_osd r = None /\ q_linger r = false /\ 0 < q_kref r /\ sendable (q_req r)
  | EGet q => is_Some (oc_reqs c !! q)
  | EPut q => exists r, oc_reqs c !! q = Some r /\ (registered q c = false \/ 1 < q_kref r)
  | EStart _ q _ => is_Some (oc_reqs c !! q) /\ registered q c = false
  | ECancel q => is_Some (oc_reqs c !! q)
  | EReply _ msg => good_reply c msg
  | EMap osd_ok kmalloc_ok buf end_ => good_maps osd_idle_ttl HZ scratch fuel garbage good buf end_ kmalloc_ok osd_ok c
  | EReset o | EOpened o => is_Some (oc_osds c !! o)
  | ETimeout | EOsdsTimeout | ETick _ => True
  end.

Lemma not_reg c q : registered q c = false -> ~ reg (view_of c) q.
Proof. intros E Hr. apply registered_reg in Hr. congruence. Qed.

(** A request that is new is in no list. *)
Lemma new_ok c q r :
  client_ok c -> allowed (ENew q r) c -> client_ok (c <| oc_reqs ::= insert q r |>).
Proof.
  intros [Hv [R1 R2 R3 R4]] (Hq & Ho & Hl & Hk & Hs).
  assert (Hn : v_reqs (view_of c) !! q = None) by (cbn -[fmap]; by rewrite lookup_fmap, Hq).
  split; [|split; try done; cbn -[insert]; by apply map_Forall_insert_2].
  set (v := view_of c) in *.
  assert (view_of (c <| oc_reqs ::= insert q r |>) = v <| v_reqs ::= insert q (rv r) |>) as ->
    by (apply view_ext; try done; cbn -[insert fmap]; by rewrite fmap_insert).
  assert (Hne : forall x y, v_reqs v !! x = Some y -> <[q := rv r]> (v_reqs v) !! x = Some y).
  { intros x y Hx. rewrite lookup_insert_ne; [done|]. intros ->. congruence. }
  assert (Hinv : forall x y, <[q := rv r]> (v_reqs v) !! x = Some y -> x = q /\ y = rv r \/ v_reqs v !! x = Some y).
  { intros x y Hx. apply lookup_insert_Some in Hx as [[-> <-]|[_ Hx]]; [by left|by right]. }
  destruct Hv as [V1 V2 V3 V4 V5 V6 V7 V8 V9 V10 V11 V12]. split; try done; cbn -[insert].
  - intros tid x Hx. destruct (V2 tid x Hx) as (? & y & Hy & ?). split; [done|]. exists y. auto.
  - intros o l x Hl' Hx. destruct (V6 o l x Hl' Hx) as (? & y & Hy & ?). split; [done|]. exists y. auto.
  - intros x y o Hx Hy. apply Hinv in Hx as [[-> ->]|Hx]; [cbn in Hy; congruence|]. by eapply V7.
  - intros x y Hx Hy. apply Hinv in Hx as [[-> ->]|Hx]; [by destruct Hy|]. by eapply V9.
  - intros x y Hx Hy. apply Hinv in Hy as [[-> ->]|Hy]; [|by eapply V10].
    destruct (reg_lookup v q) as [y Hy]; [by split|apply V5; unfold waiting; set_solver|congruence].
  - intros x y Hx. apply Hinv in Hx as [[-> ->]|Hx]; [done|]. by eapply V12.
Qed.

Abbreviation settled := (settled good).

(** One event. *)
Lemma event_run e c tid :
  settled tid tid c -> 0 <= tid < 2 ^ 64 - 1 -> allowed e c ->
  exists c', run_event e c = Ret (tt, c') /\ settled tid (tid + 1) c'.
Proof.
  intros Hset Ht Ha. pose proof Hset as (Hok & Hu & Htid). assert (Etid : oc_last_tid c = tid) by lia.
  assert (Hkeep : forall c', client_ok c' -> oc_req_unsent c' = [] -> oc_last_tid c' = oc_last_tid c -> settled tid (tid + 1) c').
  { intros c' A B D. split; [done|]. split; [done|lia]. }
  destruct e as [q r|q|q|osd_ok q nofail|q|osd_ok msg|osd_ok km buf end_|o|o| | |now]; cbn [run_event].
  - eexists. split; [reflexivity|]. apply Hkeep; [by apply new_ok|done|done].
  - destruct Ha as [r Hq]. eexists. split; [by apply (run_mod_req_ q _ c r)|]. apply Hkeep; [by apply get_req_ok|done|done].
  - destruct Ha as (r & Hq & Hk). destruct (held_put good tid q c) as (u & c' & E & H'); [|destruct u].
    { split; [done|done|done|]. exists r. split; [done|]. destruct Hk as [?%not_reg|?]; auto. }
    exists c'. split; [done|by apply settled_mono].
  - destruct Ha as [[r Hq] Hn]. apply not_reg in Hn. rewrite <- Etid in Ht.
    destruct (start_run (osd_idle_ttl := osd_idle_ttl) (HZ := HZ) c q r osd_ok nofail Hok Hq Hn Ht Hu)
      as (rc & c' & r' & E & Hok' & Hu' & Ht' & _). exists c'. unfold ceph_osdc_start_request.
    rewrite (run_bnd _ _ _ _ _ E). split; [done|]. split; [done|]. split; [done|lia].
  - destruct Ha as [r Hq]. destruct (cancel_run (osd_idle_ttl := osd_idle_ttl) (HZ := HZ) c q r Hok Hq Hu)
      as (c' & E & Hok' & Hu' & Ht' & _). exists c'. split; [done|]. by apply Hkeep.
  - destruct (handle_reply_run osd_idle_ttl HZ scratch fuel garbage good tid osd_ok msg c Hset Ht Ha) as ([] & c' & E & H').
    by exists c'.
  - destruct (handle_map_run osd_idle_ttl HZ scratch fuel garbage good buf end_ km osd_ok tid c Hset Ha) as ([] & c' & E & H').
    exists c'. split; [done|]. by apply settled_mono.
  - destruct Ha as [x Hx]. destruct (osd_reset_run osd_idle_ttl HZ scratch fuel garbage good c o x Hok Hx) as (c' & E & Hok' & Hu' & Ht').
    exists c'. split; [done|]. by apply Hkeep.
  - destruct Ha as [x Hx]. eexists. split; [by apply (run_mod_osd_ o _ c x)|].
    apply Hkeep; [|exact Hu|done]. apply (osd_mod_ok c o x); [done|done|done|exact (ro_osds c (co_rest _ Hok) o x Hx)].
  - destruct (handle_timeout_run osd_keepalive_timeout HZ scratch fuel garbage good c Hok) as (c' & E & Hok' & Hu' & Ht').
    exists c'. split; [done|]. by apply Hkeep.
  - destruct (remove_old_run scratch fuel garbage good (oc_osd_lru c) c Hok) as (c' & E & Hok' & Hsg);
      [apply (ok_idle _ (co_view _ Hok))|done|]. exists c'. split; [exact E|]. destruct Hsg. apply Hkeep; congruence.
  - eexists. split; [reflexivity|]. apply Hkeep; [destruct Hok as [Hv []]; by split; [|split]|done|done].
Qed.

(** Events one after the other, each allowed when it occurs. *)
Inductive trace (c : osd_client) : list event -> osd_client -> Prop :=
  | trace_start : trace c [] c
  | trace_step es c1 e c2 : trace c es c1 -> allowed e c1 -> run_event e c1 = Ret (tt, c2) -> trace c (es ++ [e]) c2.

Lemma trace_settled c es c' tid :
  settled tid tid c -> 0 <= tid -> tid + Z.of_nat (length es) < 2 ^ 64 -> trace c es c' ->
  settled tid (tid + Z.of_nat (length es)) c'.
Proof.
  intros Hs Ht Hl Htr. induction Htr as [|es c1 e c2 Htr IH Ha Hr].
  - destruct Hs as (? & ? & ?). split; [done|]. split; [done|cbn; lia].
  - rewrite length_app in Hl |- *. cbn in Hl |- *. destruct IH as (Hok & Hu & Ht1); [lia|].
    destruct (event_run e c1 (oc_last_tid c1)) as (c3 & E & Hok3 & Hu3 & Ht3); [split; [done|]; split; [done|lia]|lia|done|].
    rewrite Hr in E. injection E as ->. split; [done|]. split; [done|lia].
Qed.

Lemma find_sorted (l : list (Z * nat)) t q :
  StronglySorted Z.lt (fst <$> l) -> (t, q) ∈ l -> List.find (fun '(x, _) => x =? t) l = Some (t, q).
Proof.
  induction l as [|[t' q'] l IH]; [by rewrite elem_of_nil|]. cbn. intros [Hs Hf]%StronglySorted_inv Hin.
  apply elem_of_cons in Hin as [[= <- <-]|Hin]; [by rewrite Z.eqb_refl|]. rewrite Forall_forall in Hf.
  assert (t' < t) by (apply Hf, list_elem_of_fmap; by exists (t, q)). rewrite (proj2 (Z.eqb_neq t' t)) by lia. by apply IH.
Qed.


Lemma sent_prefix_all f l : (forall q, q ∈ l -> f q = true) -> sent_prefix f l = l.
Proof. induction l as [|q l IH]; intros Hl; [done|]. cbn. rewrite Hl, IH; [done| |]; set_solver. Qed.

Lemma Forall2_elem {A B} (P Q : A -> B -> Prop) l k :
  Forall2 P l k -> (forall a b, a ∈ l -> P a b -> Q a b) -> Forall2 Q l k.
Proof. induction 1 as [|a b l k HP _ IH]; intros Hq; [done|]. constructor; [apply Hq; set_solver|]. apply IH. set_solver. Qed.

End Client.

(** ** An example *)
Definition example_placed : ceph_osdmap -> Prop := placed example_rank 2 3 example_map (repeat 0 48) 30 (repeat 0 16).

Lemma example_is_placed : example_placed (PgActing.example_osdmap []).
Proof.
  split.
  - apply example_osdmap_ok.
  - exists example_map. split; [done|]. eapply CrushTotal.good_refl, example_map_ok.
  - intros id path pi Hl. destruct (example_replicated []) as [_ _ _ H4 H5 H6 _ _].
    assert (pi = PgActing.example_pool) as ->; [|split; [done|]; by exists 0, (-1), 1].
    unfold lookup_pg_pool in Hl. cbn in Hl. repeat case_match; simplify_eq; done.
  - intros k pg Hk. assert (pg = PgTemp (Pg 1 5) []) as ->; [|cbn; lia].
    unfold pg_temp_map in Hk. cbn in Hk. apply lookup_insert_Some in Hk as [[_ <-]|[_ Hk]]; [done|]. by rewrite lookup_empty in Hk.
  - intros k pg Hk. unfold primary_temp_map in Hk. cbn in Hk. by rewrite lookup_empty in Hk.
Qed.

(** A read of an object of pool 1, and a client with no requests. *)
Definition built_request : ceph_osd_request :=
  match ceph_osdc_build_request 12 true ((example_request (set_object_name example_name)) <| r_base_pool := 1 |>) 0 None (2 ^ 64 - 2) None with
  | Ret x => x
  | _ => example_request no_oid
  end.
Definition built : osd_request :=
  OReq built_request 0 None (Pg 0 0) (repeat 0 16) 0 0 false 0 [] [] false false 1 true false 0.
Definition idle_client : osd_client :=
  OsdClient (Some (PgActing.example_osdmap [])) ∅ [] 0 ∅ [] [] [] [] [] 0 0 true [] [].

Lemma built_sendable : sendable built_request.
Proof. split; unfold fits; vm_compute; intuition congruence. Qed.

Lemma idle_client_ok : @client_ok example_placed idle_client.
Proof.
  split.
  - split; cbn; try done; try (by intros; set_solver); try apply NoDup_nil_2; try constructor; try (by intros ? ? []).
    all: try (intros; by rewrite ?lookup_empty, ?fmap_empty in *).
    all: [> constructor|by intros ? ?%elem_of_nil].
  - split; try done. exists (PgActing.example_osdmap []). split; [done|]. split; [apply example_is_placed|done].
Qed.

Abbreviation example_run e := (run_event 60 5 100 (repeat 0 48) 30 (repeat 0 16) e).
Abbreviation example_trace := (trace 60 5 100 (repeat 0 48) 30 (repeat 0 16) example_placed).

(** What a run leaves. *)
Definition after (e : event) (c : osd_client) : osd_client := match example_run e c with Ret (_, c) => c | _ => c end.

Definition returns (e : event) (c : osd_client) : bool := match example_run e c with Ret _ => true | _ => false end.

Lemma after_run e c : returns e c = true -> example_run e c = Ret (tt, after e c).
Proof. unfold returns, after. by destruct (example_run e c) as [[[] c']| |]. Qed.

(** A request that was made and sent. *)
Definition sent_client : osd_client := after (EStart true 0%nat false) (after (ENew 0%nat built) idle_client).

Instance example_placement : Placement (repeat 0 48) 30 (repeat 0 16) example_placed.
Proof. apply placed_placement; [exact example_map_ok|split; cbn; lia|done]. Qed.

Lemma sent_client_trace : example_trace idle_client [ENew 0%nat built; EStart true 0%nat false] sent_client.
Proof.
  apply (trace_step _ _ _ _ _ _ _ _ [ENew 0%nat built] (after (ENew 0%nat built) idle_client)).
  - apply (trace_step _ _ _ _ _ _ _ _ [] idle_client); [constructor| |reflexivity].
    split; [done|]. do 3 (split; [done|]). apply built_sendable.
  - split; [by eexists|done].
  - apply after_run. vm_compute. reflexivity.
Qed.


(** The peer answered, before the connection is reset. *)
Definition opened_client : osd_client := after (EOpened 2) sent_client.

Lemma opened_client_ok : @client_ok example_placed opened_client /\ oc_req_unsent opened_client = [].
Proof.
  destruct (trace_settled 60 5 100 (repeat 0 48) 30 (repeat 0 16) example_placed idle_client
    [ENew 0%nat built; EStart true 0%nat false; EOpened 2] opened_client 0) as (Hok & Hu & _); [|lia|cbn; lia| |exact (conj Hok Hu)].
  - split; [apply idle_client_ok|]. done.
  - apply (trace_step _ _ _ _ _ _ _ _ [ENew 0%nat built; EStart true 0%nat false] sent_client);
      [apply sent_client_trace| |apply after_run; vm_compute; reflexivity].
    cbn [allowed]. apply not_eq_None_Some. vm_compute. discriminate.
Qed.

