(* ===== verification/OsdLimits.v ===== *)
(** * What the OSD client does not guarantee

    Runs of the client of OsdClient.v and OsdReply.v that end badly, evaluated. *)
From stdpp Require Import gmap.
From S2P Require Import Prelude.
From S2P Require Import Wire.
From S2P Require Import RbTree.
From S2P Require Import OsdMap.
From S2P Require Import OsdMapDecode.
From S2P Require Import PgMapping.
From S2P Require Import PgActing.
From S2P Require Import OsdReq.
From S2P Require Import OsdClient.
From S2P Require Import OsdReply.
From S2P Require Import OsdTrace.
Local Open Scope Z_scope.
Local Open Scope ceph_scope.
Local Open Scope osdc_scope.

Definition run_on {A B} (m : OM A) (c : osd_client) (f : osd_client -> B) : option B :=
  match m c with Ret (_, c') => Some (f c') | _ => None end.

Definition is_send (e : effect) : bool := match e with ConSend _ _ _ _ => true | _ => false end.
Definition sends (c : osd_client) : nat := length (filter is_send (oc_log c)).

(** The map of the example with OSD 2 down. *)
Definition map_2_down : ceph_osdmap := set_state (PgActing.example_osdmap []) [3; 1; 1; 3; 3; 3].
Definition set_map (m : ceph_osdmap) : OM unit := modify (fun c => c <| oc_map := Some m |>).
Abbreviation kick := (kick_requests 60 100 (repeat 0 48) 30 (repeat 0 16) true false false).

(** The request was sent, lingers, and was acknowledged. *)
Definition lingers : OM unit :=
  _ ⟸ ceph_osdc_set_request_linger 0; _ ⟸ __register_linger_request 0; __unregister_request 60 100 0.

(** A lingering request whose OSD goes down is mapped to another one and
    queued; then __unregister_linger_request takes it out of the queue again: it
    is registered, has a session, waits in no list, and is not sent. *)
Theorem kick_requests_forgets_linger :
  run_on (_ ⟸ lingers; _ ⟸ set_map map_2_down; _ ⟸ kick; __send_queued) sent_client
    (fun c => (registered 0 c, q_osd <$> oc_reqs c !! 0%nat, oc_req_lru c ++ oc_req_unsent c ++ oc_req_notarget c, (sends c - sends sent_client)%nat))
  = Some (true, Some (Some 0), [], 0%nat).
Proof. vm_compute. reflexivity. Qed.

(** The placement group of the request. *)
Definition request_pg : ceph_pg :=
  match oc_reqs sent_client !! 0%nat with
  | Some r => Pg (pool (q_pgid r)) (u32 (ceph_stable_mod (s32 (seed (q_pgid r))) 8 7))
  | None => Pg 0 0
  end.

(** primary_temp comes from the wire and is used as an index of osd_addr: with
    OSD 99 as the primary of a group, mapping a request to it reads outside the
    array of 6. *)
Theorem map_request_trusts_primary_temp :
  (_ ⟸ set_map (set_primary_temp (PgActing.example_osdmap []) (Node Black Nil (PrimaryTemp request_pg 99) Nil));
   _ ⟸ modify (fun c => c <| oc_reqs := {[ 0%nat := built ]} |>);
   ceph_osdc_start_request 60 100 (repeat 0 48) 30 (repeat 0 16) true 0 false) idle_client
  = Fault OutOfBounds.
Proof. vm_compute. reflexivity. Qed.

(** A map with fewer OSDs that also pauses reads: the request keeps its session
    with OSD 2, and __reset_osd looks up the address of OSD 2 in an array of 2. *)
Definition small_paused_map : ceph_osdmap :=
  set_flags_max (set_osds (PgActing.example_osdmap []) 2 [3; 3] [0x10000; 0x10000] (repeat (repeat 0 136) 2)) CEPH_OSDMAP_PAUSERD 1.

Theorem reset_osd_reads_past_addresses :
  (_ ⟸ set_map (set_affinity small_paused_map None); kick) sent_client = Fault OutOfBounds.
Proof. vm_compute. reflexivity. Qed.

(** A request that moves to another OSD while its old one stays up leaves the
    old session without requests, and out of the list of idle sessions: it is
    never closed. *)
Theorem moved_request_leaves_session :
  run_on (_ ⟸ set_map (set_pg_temp (PgActing.example_osdmap []) (Node Black Nil (PgTemp request_pg [4; 3]) Nil)); _ ⟸ kick; __send_queued)
    sent_client (fun c => (o_requests <$> oc_osds c !! 2, o_requests <$> oc_osds c !! 4, oc_osd_lru c))
  = Some (Some [], Some [0%nat], []).
Proof. vm_compute. reflexivity. Qed.

(** The session of a connection that never got as far as an authorizer is
    closed when it is idle for too long, but its memory is not freed. *)
Theorem put_osd_leaks_without_authorizer :
  run_on (_ ⟸ ceph_osdc_cancel_request 60 100 0; _ ⟸ modify (fun c => c <| oc_jiffies := 60 * 100 |>); handle_osds_timeout)
    sent_client (fun c => (bool_decide (oc_osds c !! 2 = None), drop (length (oc_log sent_client)) (oc_log c)))
  = Some (true, [MsgRevoke 0; TimeoutCancelled; ConClose 2]).
Proof. vm_compute. reflexivity. Qed.

(** A map message too short for an fsid: map_sem is released without having been
    taken. *)
Theorem handle_map_releases_untaken_lock :
  run_on (ceph_osdc_handle_map 60 100 (repeat 0 48) 30 (repeat 0 16) [] 0 (fun _ _ => true) true) idle_client oc_log
  = Some [Corrupt; UpWrite].
Proof. vm_compute. reflexivity. Qed.
