(* ===== verification/StateM.v ===== *)
(** * A state monad with faults, and its program logic

    The file system code reports errors as return values and keeps going with
    the state it has reached, so an operation of it is a function from a state
    to a value and a new state; only undefined behaviour ([Fault]) has no result.
    [wp m Q s] says that [m] runs from [s] without a fault and that its result and
    final state satisfy [Q]: total correctness, the specifications of the
    operations are stated with it and compose along [sbind]. *)
From S2P Require Import Prelude.
#[local] Open Scope Z_scope.
#[local] Open Scope ceph_scope.

Section Monad.
Context {S : Type}.

Definition ST (A : Type) : Type := S -> outcome (A * S).
Definition sret {A} (a : A) : ST A := fun s => Ret (a, s).
Definition sbind {A B} (m : ST A) (k : A -> ST B) : ST B := fun s => '(a, s) ← m s; k a s.
Definition sfault {A} (f : fault) : ST A := fun _ => Fault f.
(** A computation that reads no state: its errors are not those of a return
    value, so they are lifted only where the source cannot return them. *)
Definition slift {A} (o : outcome A) : ST A := fun s => a ← o; Ret (a, s).
Definition sget : ST S := fun s => Ret (s, s).
Definition smod (f : S -> S) : ST unit := fun s => Ret (tt, f s).

Fixpoint sfor {A} (l : list A) (f : A -> ST unit) : ST unit :=
  match l with
  | [] => sret tt
  | x :: l => sbind (f x) (fun _ => sfor l f)
  end.

Fixpoint srepeat (n : nat) (m : ST unit) : ST unit :=
  match n with
  | O => sret tt
  | Datatypes.S n => sbind m (fun _ => srepeat n m)
  end.

(** ** Total correctness *)
Definition wp {A} (m : ST A) (Q : A -> S -> Prop) (s : S) : Prop :=
  match m s with
  | Ret (a, s') => Q a s'
  | _ => False
  end.

Lemma wp_ret {A} (a : A) Q s : Q a s -> wp (sret a) Q s.
Proof. done. Qed.

Lemma wp_get Q s : Q s s -> wp sget Q s.
Proof. done. Qed.

Lemma wp_mod f Q s : Q tt (f s) -> wp (smod f) Q s.
Proof. done. Qed.

Lemma wp_lift {A} (o : outcome A) a Q s : o = Ret a -> Q a s -> wp (slift o) Q s.
Proof. intros -> ?. done. Qed.

Lemma wp_bind {A B} (m : ST A) (k : A -> ST B) Q s :
  wp m (fun a s' => wp (k a) Q s') s -> wp (sbind m k) Q s.
Proof. unfold wp, sbind. destruct (m s) as [[a s']| |]; done. Qed.

Lemma wp_mono {A} (m : ST A) (P Q : A -> S -> Prop) s :
  wp m P s -> (forall a s', P a s' -> Q a s') -> wp m Q s.
Proof. unfold wp. destruct (m s) as [[a s']| |]; naive_solver. Qed.

Lemma wp_run {A} (m : ST A) Q s : wp m Q s <-> exists a s', m s = Ret (a, s') /\ Q a s'.
Proof.
  unfold wp. destruct (m s) as [[a s']| |].
  - split; [by eauto|]. by intros (? & ? & [= <- <-] & ?).
  - split; [done|]. by intros (? & ? & ? & ?).
  - split; [done|]. by intros (? & ? & ? & ?).
Qed.

(** A loop over a list keeps an invariant indexed by what is left of it. *)
Lemma wp_for {A} (l : list A) f (I : list A -> S -> Prop) (Q : unit -> S -> Prop) s :
  I l s -> (forall s, I [] s -> Q tt s) ->
  (forall x l s, I (x :: l) s -> wp (f x) (fun _ s => I l s) s) -> wp (sfor l f) Q s.
Proof.
  intros HI HQ Hf. revert s HI. induction l as [|x l IH]; intros s HI; cbn [sfor]; [by apply wp_ret, HQ|].
  apply wp_bind. eapply wp_mono; [by apply Hf|]. intros ? s'. apply IH.
Qed.

Lemma wp_repeat (n : nat) m (I : nat -> S -> Prop) (Q : unit -> S -> Prop) s :
  I n s -> (forall s, I 0%nat s -> Q tt s) ->
  (forall n s, I (Datatypes.S n) s -> wp m (fun _ s => I n s) s) -> wp (srepeat n m) Q s.
Proof.
  intros HI HQ Hf. revert s HI. induction n as [|n IH]; intros s HI; cbn [srepeat]; [by apply wp_ret, HQ|].
  apply wp_bind. eapply wp_mono; [by apply Hf|]. intros ? s'. apply IH.
Qed.

End Monad.
Arguments ST : clear implicits.

Declare Scope st_scope.
Delimit Scope st_scope with st.
Notation "x ↢ m ; k" := (sbind m (fun x => k)) (at level 20, m at level 100, k at level 200, right associativity) : st_scope.
Notation "' p ↢ m ; k" := (sbind m (fun x => match x with p => k end))
  (at level 20, p pattern, m at level 100, k at level 200, right associativity) : st_scope.

(** [wp_step] runs the administrative steps of a program: returns, reads and
    writes of the state. *)
Ltac wp_step :=
  lazymatch goal with
  | |- wp (sbind _ _) _ _ => apply wp_bind
  | |- wp (sret _) _ _ => apply wp_ret
  | |- wp sget _ _ => apply wp_get
  | |- wp (smod _) _ _ => apply wp_mod
  end; cbv beta.
Ltac wp_steps := repeat wp_step.
