(* ===== verification/Buffer.v ===== *)
(** * Memory of the file system client: buffers and strings

    src/net/ceph/buffer.c and src/include/linux/ceph/buffer.h: reference counted
    buffers.  [mem] holds the buffers and the strings that are allocated, by
    address, and counts the index nodes (struct ceph_inode_xattr) that are; an
    access through a pointer to memory that was freed, or outside the object it
    points into, is [Fault OutOfBounds].  [kmalloc_ok] says which allocations
    succeed.  Bytes of a buffer that were not written yet are 0. *)
From S2P Require Import Prelude.
From S2P Require Import Wire.
From S2P Require Import StateM.
From stdpp Require Import gmap.
#[local] Open Scope Z_scope.
#[local] Open Scope ceph_scope.
#[local] Open Scope st_scope.

(** struct ceph_buffer: [b_base] is what [vec.iov_base] points to *)
Record ceph_buffer := CephBuffer { b_kref : Z; b_base : list Z; b_iov_len : Z; b_alloc_len : Z }.
#[global] Instance eta_ceph_buffer : Eta ceph_buffer :=
  fun b => CephBuffer (b_kref b) (b_base b) (b_iov_len b) (b_alloc_len b).

Record mem := Mem {
  m_bufs : gmap nat ceph_buffer;
  m_strs : gmap nat (list Z);
  m_nodes : Z;
  m_next : nat;
  m_allocs : nat }.
#[global] Instance eta_mem : Eta mem := fun m => Mem (m_bufs m) (m_strs m) (m_nodes m) (m_next m) (m_allocs m).

(** A [const char *]: into a buffer, a string of its own, or the literal empty
    string *)
Inductive cptr := PBuf (b : nat) (off : Z) | PStr (i : nat) | PNul.
#[global] Instance cptr_eq_dec : EqDecision cptr.
Proof. solve_decision. Defined.

(** The bytes from a pointer to the end of its object. *)
Definition bytes_at (m : mem) (p : cptr) : outcome (list Z) :=
  match p with
  | PBuf b off =>
      match m_bufs m !! b with
      | Some x => if (0 <=? off) && (off <=? Z.of_nat (length (b_base x))) then Ret (drop (Z.to_nat off) (b_base x))
                  else Fault OutOfBounds
      | None => Fault OutOfBounds
      end
  | PStr i => match m_strs m !! i with Some l => Ret l | None => Fault OutOfBounds end
  | PNul => Ret [0]
  end.

(** What a memcpy of [n] bytes reads; a negative [n] is a huge size_t. *)
Definition read_at (m : mem) (p : cptr) (n : Z) : outcome (list Z) :=
  l ← bytes_at m p;
  if (0 <=? n) && (n <=? Z.of_nat (length l)) then Ret (take (Z.to_nat n) l) else Fault OutOfBounds.

Section Alloc.
Context (kmalloc_ok : nat -> Z -> bool).

Definition kalloc (size : Z) : ST mem bool := fun m =>
  Ret ((size =? 0) || kmalloc_ok (m_allocs m) size, m <| m_allocs ::= S |>).

(** kmemdup *)
Definition kmemdup (l : list Z) : ST mem (option cptr) :=
  ok ↢ kalloc (Z.of_nat (length l));
  if (ok : bool) then
    m ↢ sget;
    _ ↢ smod (fun m => m <| m_strs ::= insert (m_next m) l |> <| m_next ::= S |>);
    sret (Some (PStr (m_next m)))
  else sret None.

(** kfree of a string: only the start of an allocated object can be freed *)
Definition kfree (p : cptr) : ST mem unit :=
  match p with
  | PStr i =>
      m ↢ sget;
      match m_strs m !! i with
      | Some _ => smod (fun m => m <| m_strs ::= delete i |>)
      | None => sfault OutOfBounds
      end
  | _ => sfault OutOfBounds
  end.
(** kfree(NULL) does nothing. *)
Definition kfree_opt (p : option cptr) : ST mem unit :=
  match p with Some p => kfree p | None => sret tt end.

(** An index node: kmalloc(sizeof(struct ceph_inode_xattr)) and its kfree *)
Definition node_size : Z := 64.
Definition knode : ST mem bool :=
  ok ↢ kalloc node_size;
  if (ok : bool) then _ ↢ smod (fun m => m <| m_nodes ::= Z.succ |>); sret true else sret false.
Definition kfree_node : ST mem unit := smod (fun m => m <| m_nodes ::= Z.pred |>).

(** ** Buffers *)
Definition ceph_buffer_new (len : Z) : ST mem (option nat) :=
  ok ↢ kalloc 32;
  if negb ok then sret None
  else
    ok ↢ kalloc len;
    if negb ok then sret None
    else
      m ↢ sget;
      let b := CephBuffer 1 (replicate (Z.to_nat len) 0) len len in
      _ ↢ smod (fun m => m <| m_bufs ::= insert (m_next m) b |> <| m_next ::= S |>);
      sret (Some (m_next m)).

Definition get_buf (i : nat) : ST mem ceph_buffer := fun m =>
  match m_bufs m !! i with Some b => Ret (b, m) | None => Fault OutOfBounds end.
Definition put_buf (i : nat) (b : ceph_buffer) : ST mem unit := smod (fun m => m <| m_bufs ::= insert i b |>).

Definition ceph_buffer_release (i : nat) : ST mem unit := smod (fun m => m <| m_bufs ::= delete i |>).
Definition ceph_buffer_get (i : nat) : ST mem nat :=
  b ↢ get_buf i; _ ↢ put_buf i (b <| b_kref ::= Z.succ |>); sret i.
Definition ceph_buffer_put (i : nat) : ST mem unit :=
  b ↢ get_buf i;
  if b_kref b - 1 =? 0 then ceph_buffer_release i else put_buf i (b <| b_kref ::= Z.pred |>).

(** memcpy into a buffer *)
Definition buf_write (i : nat) (off : Z) (l : list Z) : ST mem unit :=
  b ↢ get_buf i;
  base ↢ slift (write_bytes (b_base b) off l);
  put_buf i (b <| b_base := base |>).

(** A buffer decoded from the bytes [buf] of a message: the error code and the
    buffer, and the position after it.  [*b] is NULL when the allocation fails. *)
Definition ceph_decode_buffer (buf : list Z) (p end_ : Z) : ST mem (Z * option nat * Z) :=
  if negb (ceph_has_room p end_ 4) then sret (- EINVAL, None, p)
  else
    l ↢ slift (read_bytes buf 4 p);
    let len := le_val l in
    let p := p + 4 in
    if negb (ceph_has_room p end_ len) then sret (- EINVAL, None, p)
    else
      b ↢ ceph_buffer_new len;
      match b with
      | None => sret (- ENOMEM, None, p)
      | Some i =>
          data ↢ slift (read_bytes buf (Z.to_nat len) p);
          _ ↢ buf_write i 0 data;
          sret (0, Some i, p + len)
      end.
End Alloc.
