(* ===== verification/VXattr.v ===== *)
(** * Virtual extended attributes

    The tables and callbacks of src/fs/ceph/xattr.c that show the layout of a
    file and the recursive statistics of a directory as attributes named
    "ceph.*".  A callback gets the size of the caller's buffer and gives its
    return value and the bytes it stored at the start of the buffer. *)
From S2P Require Import Prelude.
From S2P Require Import Wire.
From S2P Require Import RbTree.
From S2P Require Import OsdMap.
From S2P Require Import FileLayout.
From Stdlib Require Import String Ascii.
#[local] Open Scope Z_scope.
#[local] Open Scope ceph_scope.

(** ** Text *)
Definition text (s : string) : list Z := (fun a => Z.of_N (N_of_ascii a)) <$> list_ascii_of_string s.

(** The digits of "%llu", most significant first. *)
Fixpoint dec_loop (fuel : nat) (n : Z) (acc : list Z) : list Z :=
  match fuel with
  | O => acc
  | S fuel =>
      let acc := 48 + n mod 10 :: acc in
      if n / 10 =? 0 then acc else dec_loop fuel (n / 10) acc
  end.
(** "%lld" of a 64-bit argument *)
Definition fmt_lld (x : Z) : list Z :=
  let v := s64 x in if v <? 0 then 45 :: dec_loop 20 (- v) [] else dec_loop 20 v [].

(** The text up to its terminating 0. *)
Fixpoint c_str (l : list Z) : list Z :=
  match l with
  | [] => []
  | b :: l => if b =? 0 then [] else b :: c_str l
  end.

(** strncmp: it reads no byte after the first difference or the first 0; the
    count is a size_t, so that a negative one never runs out. *)
Fixpoint strncmp (a b : list Z) (n : Z) : outcome Z :=
  if n =? 0 then Ret 0
  else
    match a, b with
    | x :: a, y :: b => if x =? y then if x =? 0 then Ret 0 else strncmp a b (n - 1) else Ret (x - y)
    | _, _ => Fault OutOfBounds
    end.

(** The text a callback prints and the size of its buffer: snprintf's return
    value and what it stored. *)
Definition snprintf (size : Z) (out : list Z) : Z * list Z :=
  (Z.of_nat (List.length out), if size =? 0 then [] else take (Z.to_nat (size - 1)) out ++ [0]).

(** ** What the callbacks read of the inode *)
Record vlayout := VLayout {
  vl_layout : ceph_file_layout;
  vl_cas_hash : Z;
  vl_object_stripe_unit : Z;
  vl_unused : Z;
  vl_pg_pool : Z }.

Inductive itype := IDir | IReg | IOther.

Record vinode := VInode {
  vi_type : itype;
  vi_layout : vlayout;
  vi_rctime : timespec;
  vi_rbytes : Z; vi_rfiles : Z; vi_rsubdirs : Z;
  vi_files : Z; vi_subdirs : Z }.

Record ceph_vxattr := VXattr {
  vx_name : list Z;
  vx_getxattr_cb : ceph_osdmap -> vinode -> Z -> Z * list Z;
  vx_readonly : bool;
  vx_hidden : bool;
  vx_exists_cb : option (vinode -> bool) }.
(** sizeof of the name: with its terminating 0 *)
Definition vx_name_size (v : ceph_vxattr) : Z := Z.of_nat (List.length (vx_name v)) + 1.

(** ** Layouts *)
Definition layout_words (l : vlayout) : list Z :=
  [fl_stripe_unit (vl_layout l); fl_stripe_count (vl_layout l); fl_object_size (vl_layout l); vl_cas_hash l;
   vl_object_stripe_unit l; vl_unused l; vl_pg_pool l].

(** Any byte of the struct: each field is four of them. *)
Definition ceph_vxattrcb_layout_exists (ci : vinode) : bool :=
  existsb (fun b => negb (b =? 0)) (List.concat (le_bytes 4 <$> layout_words (vi_layout ci))).

Definition layout_su (ci : vinode) : Z := s32 (fl_stripe_unit (vl_layout (vi_layout ci))).
Definition layout_stripe_count (ci : vinode) : Z := s32 (fl_stripe_count (vl_layout (vi_layout ci))).
Definition layout_object_size (ci : vinode) : Z := s32 (fl_object_size (vl_layout (vi_layout ci))).
Definition layout_pg_pool (ci : vinode) : Z := s32 (vl_pg_pool (vi_layout ci)).

Definition layout_text (ci : vinode) : list Z :=
  text "stripe_unit=" ++ fmt_lld (layout_su ci) ++ text " stripe_count=" ++ fmt_lld (layout_stripe_count ci) ++
  text " object_size=" ++ fmt_lld (layout_object_size ci) ++ text " pool=".

Definition pool_name `{RbOps} (map : ceph_osdmap) (ci : vinode) : option (list Z) :=
  c_str <$> ceph_pg_pool_name_by_id map (u64 (layout_pg_pool ci)).

Section Callbacks.
Context `{RbOps}.

Definition ceph_vxattrcb_layout (map : ceph_osdmap) (ci : vinode) (size : Z) : Z * list Z :=
  match pool_name map ci with
  | Some name =>
      let buf := layout_text ci in
      let ret := Z.of_nat (List.length buf) in
      let len := Z.of_nat (List.length name) in
      if size =? 0 then (ret + len, [])
      else if size <? ret + len then (- ERANGE, [])
      else (ret + len, buf ++ name)
  | None =>
      let buf := layout_text ci ++ fmt_lld (layout_pg_pool ci) in
      let ret := Z.of_nat (List.length buf) in
      if size =? 0 then (ret, []) else if ret <=? size then (ret, buf) else (- ERANGE, [])
  end.

Definition ceph_vxattrcb_layout_stripe_unit (map : ceph_osdmap) (ci : vinode) (size : Z) : Z * list Z :=
  snprintf size (fmt_lld (layout_su ci)).
Definition ceph_vxattrcb_layout_stripe_count (map : ceph_osdmap) (ci : vinode) (size : Z) : Z * list Z :=
  snprintf size (fmt_lld (layout_stripe_count ci)).
Definition ceph_vxattrcb_layout_object_size (map : ceph_osdmap) (ci : vinode) (size : Z) : Z * list Z :=
  snprintf size (fmt_lld (layout_object_size ci)).
Definition ceph_vxattrcb_layout_pool (map : ceph_osdmap) (ci : vinode) (size : Z) : Z * list Z :=
  match pool_name map ci with
  | Some name => snprintf size name
  | None => snprintf size (fmt_lld (layout_pg_pool ci))
  end.

(** ** Directories *)
Definition ceph_vxattrcb_dir_entries (map : ceph_osdmap) (ci : vinode) (size : Z) : Z * list Z :=
  snprintf size (fmt_lld (u64 (vi_files ci + vi_subdirs ci))).
Definition ceph_vxattrcb_dir_files (map : ceph_osdmap) (ci : vinode) (size : Z) : Z * list Z :=
  snprintf size (fmt_lld (vi_files ci)).
Definition ceph_vxattrcb_dir_subdirs (map : ceph_osdmap) (ci : vinode) (size : Z) : Z * list Z :=
  snprintf size (fmt_lld (vi_subdirs ci)).
Definition ceph_vxattrcb_dir_rentries (map : ceph_osdmap) (ci : vinode) (size : Z) : Z * list Z :=
  snprintf size (fmt_lld (u64 (vi_rfiles ci + vi_rsubdirs ci))).
Definition ceph_vxattrcb_dir_rfiles (map : ceph_osdmap) (ci : vinode) (size : Z) : Z * list Z :=
  snprintf size (fmt_lld (vi_rfiles ci)).
Definition ceph_vxattrcb_dir_rsubdirs (map : ceph_osdmap) (ci : vinode) (size : Z) : Z * list Z :=
  snprintf size (fmt_lld (vi_rsubdirs ci)).
Definition ceph_vxattrcb_dir_rbytes (map : ceph_osdmap) (ci : vinode) (size : Z) : Z * list Z :=
  snprintf size (fmt_lld (vi_rbytes ci)).
(** The format is "%ld.09%ld". *)
Definition ceph_vxattrcb_dir_rctime (map : ceph_osdmap) (ci : vinode) (size : Z) : Z * list Z :=
  snprintf size (fmt_lld (tv_sec (vi_rctime ci)) ++ text ".09" ++ fmt_lld (tv_nsec (vi_rctime ci))).

(** ** Tables *)
Definition XATTR_CEPH_PREFIX : list Z := text "ceph.".

Definition XATTR_NAME_CEPH (type name : string) (cb : ceph_osdmap -> vinode -> Z -> Z * list Z) : ceph_vxattr :=
  VXattr (XATTR_CEPH_PREFIX ++ text type ++ text "." ++ text name) cb true false None.
Definition XATTR_LAYOUT_FIELD (type name field : string) (cb : ceph_osdmap -> vinode -> Z -> Z * list Z) : ceph_vxattr :=
  VXattr (XATTR_CEPH_PREFIX ++ text type ++ text "." ++ text name ++ text "." ++ text field) cb false true
    (Some ceph_vxattrcb_layout_exists).

Definition ceph_dir_vxattrs : list ceph_vxattr :=
  [VXattr (text "ceph.dir.layout") ceph_vxattrcb_layout false true (Some ceph_vxattrcb_layout_exists);
   XATTR_LAYOUT_FIELD "dir" "layout" "stripe_unit" ceph_vxattrcb_layout_stripe_unit;
   XATTR_LAYOUT_FIELD "dir" "layout" "stripe_count" ceph_vxattrcb_layout_stripe_count;
   XATTR_LAYOUT_FIELD "dir" "layout" "object_size" ceph_vxattrcb_layout_object_size;
   XATTR_LAYOUT_FIELD "dir" "layout" "pool" ceph_vxattrcb_layout_pool;
   XATTR_NAME_CEPH "dir" "entries" ceph_vxattrcb_dir_entries;
   XATTR_NAME_CEPH "dir" "files" ceph_vxattrcb_dir_files;
   XATTR_NAME_CEPH "dir" "subdirs" ceph_vxattrcb_dir_subdirs;
   XATTR_NAME_CEPH "dir" "rentries" ceph_vxattrcb_dir_rentries;
   XATTR_NAME_CEPH "dir" "rfiles" ceph_vxattrcb_dir_rfiles;
   XATTR_NAME_CEPH "dir" "rsubdirs" ceph_vxattrcb_dir_rsubdirs;
   XATTR_NAME_CEPH "dir" "rbytes" ceph_vxattrcb_dir_rbytes;
   XATTR_NAME_CEPH "dir" "rctime" ceph_vxattrcb_dir_rctime].

Definition ceph_file_vxattrs : list ceph_vxattr :=
  [VXattr (text "ceph.file.layout") ceph_vxattrcb_layout false true (Some ceph_vxattrcb_layout_exists);
   XATTR_LAYOUT_FIELD "file" "layout" "stripe_unit" ceph_vxattrcb_layout_stripe_unit;
   XATTR_LAYOUT_FIELD "file" "layout" "stripe_count" ceph_vxattrcb_layout_stripe_count;
   XATTR_LAYOUT_FIELD "file" "layout" "object_size" ceph_vxattrcb_layout_object_size;
   XATTR_LAYOUT_FIELD "file" "layout" "pool" ceph_vxattrcb_layout_pool].

(** NULL is the empty table. *)
Definition ceph_inode_vxattrs (ci : vinode) : list ceph_vxattr :=
  match vi_type ci with
  | IDir => ceph_dir_vxattrs
  | IReg => ceph_file_vxattrs
  | IOther => []
  end.

Definition vxattrs_name_size (l : list ceph_vxattr) : Z :=
  foldr (fun v size => if vx_hidden v then size else vx_name_size v + size) 0 l.

(** The sizes ceph_xattr_init computes and ceph_vxattrs_name_size returns. *)
Definition ceph_xattr_init : Z * Z := (vxattrs_name_size ceph_dir_vxattrs, vxattrs_name_size ceph_file_vxattrs).
(** The module's exit resets them. *)
Definition ceph_xattr_exit : Z * Z := (0, 0).

Definition ceph_vxattrs_name_size (ci : vinode) : Z :=
  match vi_type ci with
  | IDir => fst ceph_xattr_init
  | IReg => snd ceph_xattr_init
  | IOther => 0
  end.

Definition ceph_match_vxattr (ci : vinode) (name : list Z) : option ceph_vxattr :=
  List.find (fun v => bool_decide (vx_name v = name)) (ceph_inode_vxattrs ci).

Definition vx_exists (v : ceph_vxattr) (ci : vinode) : bool :=
  match vx_exists_cb v with Some cb => cb ci | None => true end.

(** ** Names *)
(** [!strncmp(name, prefix, strlen(prefix))] on a C string *)
Definition has_prefix (prefix name : list Z) : bool :=
  match strncmp (name ++ [0]) (prefix ++ [0]) (Z.of_nat (List.length prefix)) with
  | Ret c => c =? 0
  | _ => false
  end.

Definition ceph_is_valid_xattr (name : list Z) : bool :=
  has_prefix XATTR_CEPH_PREFIX name || has_prefix (text "security.") name ||
  has_prefix (text "trusted.") name || has_prefix (text "user.") name.

End Callbacks.
