(* ===== verification/Xattr.v ===== *)
(** * Extended attributes

    src/fs/ceph/xattr.c: the MDS sends the attributes of an inode as a blob
    (a count, then each name and each value with its length before it).  The
    client keeps the blob, and on first use parses it into a tree whose nodes
    point into it ([__build_xattrs]).  With the capability Xx it changes the tree,
    and writes the tree into a preallocated blob when the change is flushed
    ([__ceph_build_xattrs_blob]).  The blob is also replaced by newer ones from
    the MDS ([fill_inode_xattrs], [handle_cap_grant_xattrs]).

    i_ceph_lock is dropped while memory is allocated and while a request is at
    the MDS.  An operation runs with a list of windows: what the other threads
    do to the state each time the lock is released, one after the other (nothing,
    when the list is used up).  The capabilities of the inode are seen through
    the interface [Caps]. *)
From S2P Require Import Prelude.
From S2P Require Import Wire.
From S2P Require Import RbTree.
From S2P Require Import StateM.
From S2P Require Import Buffer.
From S2P Require Import OsdMap.
From S2P Require Import FileLayout.
From S2P Require Import VXattr.
From stdpp Require Import gmap.
#[local] Open Scope Z_scope.
#[local] Open Scope ceph_scope.
#[local] Open Scope st_scope.

Definition ENODATA : Z := 61.
Definition EOPNOTSUPP : Z := 95.
Definition EROFS : Z := 30.
Definition XATTR_CREATE : Z := 1.
Definition XATTR_REPLACE : Z := 2.
Definition CEPH_XATTR_REMOVE : Z := 2 ^ 31.

(** What the attributes need of the inode's capabilities. *)
Class Caps := {
  caps : Type;
  (** __ceph_caps_issued *)
  caps_issued : caps -> Z;
  (** __ceph_caps_issued_mask, which moves caps in their sessions' LRU lists *)
  caps_issued_mask : Z -> caps -> bool * caps;
  (** issued | implemented | __ceph_caps_dirty *)
  caps_held : caps -> Z;
  (** __ceph_mark_dirty_caps *)
  mark_dirty_caps : Z -> caps -> caps }.

(** struct ceph_inode_xattr: the node is the place in the tree *)
Record ceph_inode_xattr := InodeXattr {
  x_name : cptr;
  x_name_len : Z;
  x_val : cptr;
  x_val_len : Z;
  x_dirty : Z;
  x_should_free_name : bool;
  x_should_free_val : bool }.
#[global] Instance eta_ceph_inode_xattr : Eta ceph_inode_xattr := fun x =>
  InodeXattr (x_name x) (x_name_len x) (x_val x) (x_val_len x) (x_dirty x) (x_should_free_name x) (x_should_free_val x).

(** struct ceph_inode_xattrs_info *)
Record ceph_inode_xattrs_info := XattrsInfo {
  i_blob : option nat;
  i_prealloc_blob : option nat;
  i_index : tree ceph_inode_xattr;
  i_dirty : bool;
  i_count : Z;
  i_names_size : Z;
  i_vals_size : Z;
  i_version : Z;
  i_index_version : Z }.
#[global] Instance eta_xattrs_info : Eta ceph_inode_xattrs_info := fun x =>
  XattrsInfo (i_blob x) (i_prealloc_blob x) (i_index x) (i_dirty x) (i_count x) (i_names_size x) (i_vals_size x)
    (i_version x) (i_index_version x).

(** The requests sent to the MDS: the value is the page list. *)
Inductive xreq :=
  | GetattrReq (mask : Z)
  | SetxattrReq (flags : Z) (path2 : option (list Z)) (value : option (list Z))
  | RmxattrReq (path2 : option (list Z)).

Section Xattr.
Context `{RbOps} `{Caps} (kmalloc_ok : nat -> Z -> bool).

Record xstate := XState {
  xs_x : ceph_inode_xattrs_info;
  xs_mem : mem;
  xs_caps : caps;
  xs_log : list xreq }.
#[global] Instance eta_xstate : Eta xstate := fun s => XState (xs_x s) (xs_mem s) (xs_caps s) (xs_log s).

Definition window : Type := xstate -> xstate.
Definition XM (A : Type) : Type := ST (list window * xstate) A.

Definition getx : XM ceph_inode_xattrs_info := fun w => Ret (xs_x (snd w), w).
Definition getmem : XM mem := fun w => Ret (xs_mem (snd w), w).
Definition gets : XM xstate := fun w => Ret (snd w, w).
Definition modx (f : ceph_inode_xattrs_info -> ceph_inode_xattrs_info) : XM unit :=
  smod (fun '(ws, s) => (ws, s <| xs_x ::= f |>)).
Definition mods (f : xstate -> xstate) : XM unit := smod (fun '(ws, s) => (ws, f s)).
Definition on_mem {A} (m : ST mem A) : XM A := fun '(ws, s) =>
  '(a, mm) ← m (xs_mem s); Ret (a, (ws, s <| xs_mem := mm |>)).
(** spin_unlock ... spin_lock *)
Definition unlocked : XM unit := fun '(ws, s) =>
  match ws with
  | [] => Ret (tt, ([], s))
  | w :: ws => Ret (tt, (ws, w s))
  end.

(** ** The index *)
(** The descent of a lookup or an insertion: where it stops, and the node there
    that compares equal, if any. *)
Fixpoint descend {V} (cmp : V -> outcome Z) (t : tree V) (p : path) : outcome (path * option V) :=
  match t with
  | Nil => Ret (p, None)
  | Node _ l v r =>
      c ← cmp v;
      if c <? 0 then descend cmp l (p ++ [L])
      else if 0 <? c then descend cmp r (p ++ [R])
      else Ret (p, Some v)
  end.

(** rb_link_node at the leaf a descent reached *)
Fixpoint link_at {V} (p : path) (v : V) (t : tree V) {struct t} : tree V :=
  match t, p with
  | Nil, _ => Node Red Nil v Nil
  | Node c l w r, [] => Node c l w r
  | Node c l w r, L :: p => Node c (link_at p v l) w r
  | Node c l w r, R :: p => Node c l w (link_at p v r)
  end.

(** The comparison of [__set_xattr]. *)
Definition set_cmp (m : mem) (name : cptr) (name_len : Z) (x : ceph_inode_xattr) : outcome Z :=
  a ← bytes_at m name;
  b ← bytes_at m (x_name x);
  c ← strncmp a b (Z.min name_len (x_name_len x));
  if negb (c =? 0) then Ret c else Ret (name_len - x_name_len x).

(** The comparison of [__get_xattr]; the name is a C string. *)
Definition get_cmp (m : mem) (name : list Z) (x : ceph_inode_xattr) : outcome Z :=
  b ← bytes_at m (x_name x);
  c ← strncmp (name ++ [0]) b (x_name_len x);
  Ret (if (c =? 0) && (x_name_len x <? Z.of_nat (length name)) then 1 else c).

Definition free_strings (x : ceph_inode_xattr) : XM unit :=
  _ ↢ (if x_should_free_name x then on_mem (kfree (x_name x)) else sret tt);
  if x_should_free_val x then on_mem (kfree (x_val x)) else sret tt.

Definition __free_xattr (x : ceph_inode_xattr) : XM unit := _ ↢ free_strings x; on_mem kfree_node.

(** The node is given by its place, NULL by [None]. *)
Definition __remove_xattr (xattr : option (path * ceph_inode_xattr)) : XM Z :=
  match xattr with
  | None => sret (- ENODATA)
  | Some (p, x) =>
      _ ↢ modx (fun i => i <| i_index ::= rb_erase p |>);
      _ ↢ free_strings x;
      _ ↢ modx (fun i => i <| i_names_size ::= fun n => s32 (n - x_name_len x) |>
                          <| i_vals_size ::= fun n => s32 (n - x_val_len x) |>
                          <| i_count ::= fun n => s32 (n - 1) |>);
      _ ↢ on_mem kfree_node;
      sret 0
  end.

(** [*newxattr] is a node the caller allocated; it goes into the tree or is
    freed, except on the early returns. *)
Definition __set_xattr (name : cptr) (name_len : Z) (val : option cptr) (val_len flags update_xattr : Z) : XM Z :=
  i ↢ getx;
  m ↢ getmem;
  '(p, xattr) ↢ slift (descend (set_cmp m name name_len) (i_index i) []);
  let err := if update_xattr =? 0 then 0
             else match xattr with
                  | Some _ => if Z.testbit flags 0 then - EEXIST else 0
                  | None => if Z.testbit flags 1 then - ENODATA else 0
                  end in
  if negb (err =? 0) then
    _ ↢ on_mem (kfree name); _ ↢ on_mem (kfree_opt val); sret err
  else if update_xattr <? 0 then
    _ ↢ match xattr with
        | Some x => _ ↢ __remove_xattr (Some (p, x)); sret tt
        | None => sret tt
        end;
    _ ↢ on_mem (kfree name); sret 0
  else
    let upd := negb (update_xattr =? 0) in
    let fill x := x <| x_val := default PNul val |> <| x_val_len := val_len |> <| x_dirty := update_xattr |>
                    <| x_should_free_val := bool_decide (is_Some val) && upd |> in
    match xattr with
    | None =>
        let x := fill (InodeXattr name name_len PNul 0 0 upd false) in
        _ ↢ modx (fun i => i <| i_count ::= fun n => s32 (n + 1) |>
                            <| i_names_size ::= fun n => s32 (n + name_len) |>
                            <| i_vals_size ::= fun n => s32 (n + val_len) |>);
        _ ↢ modx (fun i => i <| i_index ::= fun t => rb_insert_color p (link_at p x t) |>);
        sret 0
    | Some x =>
        _ ↢ on_mem kfree_node;
        _ ↢ (if x_should_free_val x then on_mem (kfree (x_val x)) else sret tt);
        _ ↢ (if upd then on_mem (kfree name) else sret tt);
        _ ↢ modx (fun i => i <| i_names_size ::= fun n => s32 (s32 (n - x_name_len x) + name_len) |>
                            <| i_vals_size ::= fun n => s32 (s32 (n - x_val_len x) + val_len) |>);
        _ ↢ modx (fun i => i <| i_index ::= update_path p (fill x) |>);
        sret 0
    end.

Definition __get_xattr (name : list Z) : XM (option (path * ceph_inode_xattr)) :=
  i ↢ getx;
  m ↢ getmem;
  '(p, x) ↢ slift (descend (get_cmp m name) (i_index i) []);
  sret (pair p <$> x).

Definition __remove_xattr_by_name (name : list Z) : XM Z :=
  xattr ↢ __get_xattr name; __remove_xattr xattr.

(** The nodes from rb_first to the last one; [dest] is the caller's buffer and
    the position in it. *)
Fixpoint copy_names (l : list ceph_inode_xattr) (m : mem) (dest : list Z) (pos : Z) : outcome (list Z * Z) :=
  match l with
  | [] => Ret (dest, pos)
  | x :: l =>
      name ← read_at m (x_name x) (x_name_len x);
      dest ← write_bytes dest pos name;
      dest ← wr dest (pos + x_name_len x) 0;
      copy_names l m dest (pos + x_name_len x + 1)
  end.
Definition __copy_xattr_names (dest : list Z) (pos : Z) : XM (list Z * Z) :=
  i ↢ getx; m ↢ getmem; slift (copy_names (inorder (i_index i)) m dest pos).

Definition __ceph_destroy_xattrs : XM unit :=
  i ↢ getx;
  _ ↢ sfor (inorder (i_index i)) __free_xattr;
  modx (fun i => i <| i_names_size := 0 |> <| i_vals_size := 0 |> <| i_index_version := 0 |> <| i_count := 0 |>
                   <| i_index := Nil |>).

(** ** From the blob to the index *)
(** ceph_decode_32_safe at [p] in the blob [b]: [None] for [goto bad] *)
Definition blob_decode_32 (b : nat) (p end_ : Z) : XM (option Z) :=
  if ceph_has_room p end_ 4
  then m ↢ getmem; l ↢ slift (read_at m (PBuf b p) 4); sret (Some (le_val l))
  else sret None.

(** while (numattr--): [n] nodes are left; the error code, and for [goto bad] the
    number of nodes that are freed there *)
Fixpoint build_loop (n : nat) (b : nat) (p end_ err : Z) : XM (Z * option nat) :=
  match n with
  | O => sret (err, None)
  | S n =>
      namelen ↢ blob_decode_32 b p end_;
      match namelen with
      | None => sret (err, Some n)
      | Some namelen =>
          let name := p + 4 in
          let p := p + 4 + namelen in
          len ↢ blob_decode_32 b p end_;
          match len with
          | None => sret (err, Some n)
          | Some len =>
              let val := p + 4 in
              let p := p + 4 + len in
              err ↢ __set_xattr (PBuf b name) (s32 namelen) (Some (PBuf b val)) (s32 len) 0 0;
              if err <? 0 then sret (err, Some n) else build_loop n b p end_ err
          end
      end
  end.

(** The nodes of xattrs[]: whether all were allocated, and how many were. *)
Fixpoint alloc_nodes (n : nat) : XM (bool * nat) :=
  match n with
  | O => sret (true, 0%nat)
  | S n =>
      ok ↢ on_mem (knode kmalloc_ok);
      if (ok : bool) then '(all, k) ↢ alloc_nodes n; sret (all, S k) else sret (false, 0%nat)
  end.

(** bad: the nodes left in xattrs[] are freed *)
Definition build_bad (n : nat) (err : Z) : XM Z :=
  _ ↢ srepeat n (on_mem kfree_node);
  _ ↢ modx (fun i => i <| i_names_size := 0 |>);
  sret err.

Definition build_done (err : Z) : XM Z :=
  _ ↢ modx (fun i => i <| i_index_version := i_version i |> <| i_dirty := false |>);
  sret err.

(** start: ...; [goto start] when the version has changed *)
Fixpoint build_start (fuel : nat) (err : Z) : XM Z :=
  match fuel with
  | O => sfault OutOfFuel
  | S fuel =>
      i ↢ getx;
      match i_blob i with
      | None => build_done err
      | Some b =>
          buf ↢ on_mem (get_buf b);
          if 4 <? b_iov_len buf then
            let end_ := b_iov_len buf in
            numattr ↢ blob_decode_32 b 0 end_;
            match numattr with
            | None => build_bad 0 err
            | Some numattr =>
                let xattr_version := s32 (i_version i) in
                ok ↢ on_mem (kalloc kmalloc_ok (numattr * 8));
                '(all, k) ↢ (if (ok : bool) then alloc_nodes (Z.to_nat numattr) else sret (false, 0%nat));
                _ ↢ unlocked;
                if negb all then build_bad k (- ENOMEM)
                else
                  i ↢ getx;
                  if negb (i_version i =? u64 xattr_version) then
                    _ ↢ srepeat (Z.to_nat numattr) (on_mem kfree_node);
                    build_start fuel (- ENOMEM)
                  else
                    '(err, bad) ↢ build_loop (Z.to_nat numattr) b 4 end_ (- EIO);
                    match bad with
                    | Some n => build_bad n err
                    | None => build_done err
                    end
            end
          else build_done err
      end
  end.

Definition __build_xattrs : XM Z :=
  i ↢ getx;
  if i_version i <=? i_index_version i then sret 0
  else
    _ ↢ __ceph_destroy_xattrs;
    fun w => build_start (S (length (fst w))) 0 w.

(** ** From the index to the blob *)
Definition __get_required_blob_size (i : ceph_inode_xattrs_info) (name_size val_size : Z) : Z :=
  let size := s32 (4 + i_count i * (4 + 4) + i_names_size i + i_vals_size i) in
  if name_size =? 0 then size else s32 (size + (4 + 4 + name_size + val_size)).

Fixpoint write_attrs (l : list ceph_inode_xattr) (b : nat) (pos : Z) : XM Z :=
  match l with
  | [] => sret pos
  | x :: l =>
      _ ↢ on_mem (buf_write b pos (le_bytes 4 (u32 (x_name_len x))));
      m ↢ getmem;
      name ↢ slift (read_at m (x_name x) (x_name_len x));
      _ ↢ on_mem (buf_write b (pos + 4) name);
      let pos := pos + 4 + x_name_len x in
      _ ↢ on_mem (buf_write b pos (le_bytes 4 (u32 (x_val_len x))));
      m ↢ getmem;
      val ↢ slift (read_at m (x_val x) (x_val_len x));
      _ ↢ on_mem (buf_write b (pos + 4) val);
      write_attrs l b (pos + 4 + x_val_len x)
  end.

(** alloc_len is a size_t: [need] is converted to it in the comparison. *)
Definition __ceph_build_xattrs_blob : XM unit :=
  i ↢ getx;
  if i_dirty i then
    let need := __get_required_blob_size i 0 0 in
    b ↢ slift (deref (i_prealloc_blob i));
    buf ↢ on_mem (get_buf b);
    _ ↢ slift (bug_on (b_alloc_len buf <? u64 need));
    _ ↢ on_mem (buf_write b 0 (le_bytes 4 (u32 (i_count i))));
    dest ↢ write_attrs (inorder (i_index i)) b 4;
    buf ↢ on_mem (get_buf b);
    _ ↢ on_mem (put_buf b (buf <| b_iov_len := dest |>));
    _ ↢ match i_blob i with Some o => on_mem (ceph_buffer_put o) | None => sret tt end;
    modx (fun i => i <| i_blob := Some b |> <| i_prealloc_blob := None |> <| i_dirty := false |>
                     <| i_version ::= fun v => u64 (v + 1) |>)
  else sret tt.

(** ** Updates from the MDS *)
(** fill_inode: the inode in a reply, with its attributes *)
Definition fill_inode_xattrs (xattr_version : Z) (xattr_data : list Z) : XM unit :=
  let xattr_len := Z.of_nat (length xattr_data) in
  xattr_blob ↢ (if 4 <? xattr_len then on_mem (ceph_buffer_new kmalloc_ok xattr_len) else sret None);
  s ↢ gets;
  let i := xs_x s in
  if ((i_version i =? 0) || (Z.land (caps_held (xs_caps s)) CEPH_CAP_XATTR_EXCL =? 0)) && (i_version i <? xattr_version)
  then
    _ ↢ match i_blob i with Some o => on_mem (ceph_buffer_put o) | None => sret tt end;
    _ ↢ match xattr_blob with Some b => on_mem (buf_write b 0 xattr_data) | None => sret tt end;
    modx (fun i => i <| i_blob := xattr_blob |> <| i_version := xattr_version |>)
  else
    match xattr_blob with Some b => on_mem (ceph_buffer_put b) | None => sret tt end.

(** handle_cap_grant: a capability message; its middle section is [xattr_buf],
    and the capabilities implemented or dirty are [issued] *)
Definition handle_cap_grant_xattrs (issued xattr_len xattr_version : Z) (xattr_buf : option nat) : XM unit :=
  if (Z.land issued CEPH_CAP_XATTR_EXCL =? 0) && negb (xattr_len =? 0) then
    i ↢ getx;
    if i_version i <? xattr_version then
      _ ↢ match i_blob i with Some o => on_mem (ceph_buffer_put o) | None => sret tt end;
      b ↢ slift (deref xattr_buf);
      b ↢ on_mem (ceph_buffer_get b);
      modx (fun i => i <| i_blob := Some b |> <| i_version := xattr_version |>)
    else sret tt
  else sret tt.

(** __send_cap: the blob of a flush is used after the lock was dropped *)
Definition send_cap_xattrs : XM (option (list Z)) :=
  _ ↢ __ceph_build_xattrs_blob;
  i ↢ getx;
  _ ↢ unlocked;
  match i_blob i with
  | None => sret None
  | Some b => b ↢ on_mem (ceph_buffer_get b);
              buf ↢ on_mem (get_buf b);
              sret (Some (take (Z.to_nat (b_iov_len buf)) (b_base buf)))
  end.

(** ceph_destroy_inode *)
Definition destroy_inode_xattrs : XM unit :=
  _ ↢ __ceph_destroy_xattrs;
  i ↢ getx;
  _ ↢ match i_blob i with Some o => on_mem (ceph_buffer_put o) | None => sret tt end;
  match i_prealloc_blob i with Some o => on_mem (ceph_buffer_put o) | None => sret tt end.

(** ** The operations of the inode *)
Definition log (r : xreq) : XM unit := mods (fun s => s <| xs_log ::= fun l => l ++ [r] |>).

(** ceph_do_getattr with [force]: a request, and its result [mds] *)
Definition do_getattr (mask mds : Z) : XM Z := _ ↢ log (GetattrReq mask); _ ↢ unlocked; sret mds.

Definition issued_mask (mask : Z) : XM bool :=
  s ↢ gets;
  let '(ok, c) := caps_issued_mask mask (xs_caps s) in
  _ ↢ mods (fun s => s <| xs_caps := c |>); sret ok.

(** [if (version == 0 || !__ceph_caps_issued_mask(...)) ceph_do_getattr(...)] *)
Definition fetch_xattrs (mds : Z) : XM Z :=
  i ↢ getx;
  ok ↢ (if i_version i =? 0 then sret false else issued_mask CEPH_CAP_XATTR_SHARED);
  if (ok : bool) then sret 0 else do_getattr CEPH_CAP_XATTR_SHARED mds.

(** [value] is the caller's buffer: NULL and empty when the size is 0. *)
Definition ceph_getxattr (map : ceph_osdmap) (ci : vinode) (mds : Z) (name value : list Z) : XM (Z * list Z) :=
  let size := Z.of_nat (length value) in
  if negb (ceph_is_valid_xattr name) then sret (- ENODATA, value)
  else
    match List.find (fun v => vx_exists v ci) (option_list (ceph_match_vxattr ci name)) with
    | Some v => let '(r, out) := vx_getxattr_cb v map ci size in
                out ↢ slift (write_bytes value 0 out); sret (r, out)
    | None =>
        err ↢ fetch_xattrs mds;
        if negb (err =? 0) then sret (err, value)
        else
          err ↢ __build_xattrs;
          if err <? 0 then sret (err, value)
          else
            xattr ↢ __get_xattr name;
            match xattr with
            | None => sret (- ENODATA, value)
            | Some (_, x) =>
                if negb (size =? 0) && (size <? u64 (x_val_len x)) then sret (- ERANGE, value)
                else if size =? 0 then sret (x_val_len x, value)
                else
                  m ↢ getmem;
                  l ↢ slift (read_at m (x_val x) (x_val_len x));
                  value ↢ slift (write_bytes value 0 l);
                  sret (x_val_len x, value)
            end
    end.

(** The names of the virtual attributes that are not hidden. *)
Fixpoint copy_vxattrs (l : list ceph_vxattr) (ci : vinode) (names : list Z) (pos err : Z) : outcome (Z * list Z) :=
  match l with
  | [] => Ret (err, names)
  | v :: l =>
      if negb (vx_hidden v) && vx_exists v ci then
        let len := Z.of_nat (length (vx_name v)) in
        names ← write_bytes names pos (vx_name v ++ [0]);
        copy_vxattrs l ci names (pos + len + 1) (err + len + 1)
      else copy_vxattrs l ci names pos err
  end.

Definition ceph_listxattr (ci : vinode) (mds : Z) (names : list Z) : XM (Z * list Z) :=
  let size := Z.of_nat (length names) in
  err ↢ fetch_xattrs mds;
  if negb (err =? 0) then sret (err, names)
  else
    err ↢ __build_xattrs;
    if err <? 0 then sret (err, names)
    else
      i ↢ getx;
      let vir_namelen := u32 (ceph_vxattrs_name_size ci) in
      let namelen := u32 (i_names_size i + i_count i) in
      if negb (size =? 0) && (size <? u32 (vir_namelen + namelen)) then sret (- ERANGE, names)
      else if size =? 0 then sret (s32 (namelen + vir_namelen), names)
      else
        '(names, pos) ↢ __copy_xattr_names names 0;
        slift (copy_vxattrs (ceph_inode_vxattrs ci) ci names pos (s32 namelen)).

(** A request to the MDS: [mds] is its result.  The copy of the name may fail,
    and its failure is not checked. *)
Definition path2_of (p : option cptr) (m : mem) : option (list Z) :=
  match p with
  | Some p => match bytes_at m p with Ret l => Some l | _ => None end
  | None => None
  end.

(** kmalloc of the page list and of the pages [size] bytes need *)
Definition alloc_pagelist (size : Z) : XM bool :=
  ok ↢ on_mem (kalloc kmalloc_ok 56);
  if negb ok then sret false
  else
    (fix pages (n : nat) : XM bool :=
       match n with
       | O => sret true
       | S n => ok ↢ on_mem (kalloc kmalloc_ok 4096); if (ok : bool) then pages n else sret false
       end) (Z.to_nat ((size + 4095) / 4096)).

(** ceph_mdsc_create_request, which may run out of memory; then the request is
    sent, with a copy of the name, and the caller waits *)
Definition do_request (req : option (list Z) -> xreq) (mds : Z) (name : list Z) : XM Z :=
  ok ↢ on_mem (kalloc kmalloc_ok 512);
  if negb ok then sret (- ENOMEM)
  else
    p ↢ on_mem (kmemdup kmalloc_ok (name ++ [0]));
    m ↢ getmem;
    _ ↢ log (req (path2_of p m));
    _ ↢ unlocked;
    _ ↢ on_mem (kfree_opt p);
    sret mds.

Definition ceph_sync_setxattr (mds : Z) (name : list Z) (value : option (list Z)) (flags : Z) : XM Z :=
  match value with
  | Some v =>
      ok ↢ alloc_pagelist (Z.of_nat (length v));
      if negb ok then sret (- ENOMEM) else do_request (fun p => SetxattrReq flags p value) mds name
  | None => do_request (fun p => SetxattrReq (Z.lor flags CEPH_XATTR_REMOVE) p None) mds name
  end.

Definition ceph_send_removexattr (mds : Z) (name : list Z) : XM Z := do_request RmxattrReq mds name.

(** The part of a change that both operations share, from retry: to the point
    where the blob is large enough: [DoSync], [NoMem], or [Ready]. *)
Inductive prep := DoSync | NoMem | Ready.

Fixpoint prepare (fuel : nat) (name_size val_size : Z) : XM prep :=
  match fuel with
  | O => sfault OutOfFuel
  | S fuel =>
      s ↢ gets;
      if (i_version (xs_x s) =? 0) || (Z.land (caps_issued (xs_caps s)) CEPH_CAP_XATTR_EXCL =? 0)
      then _ ↢ unlocked; sret DoSync
      else
        _ ↢ __build_xattrs;
        i ↢ getx;
        let required := __get_required_blob_size i name_size val_size in
        small ↢ match i_prealloc_blob i with
                | None => sret true
                | Some b => buf ↢ on_mem (get_buf b); sret (b_alloc_len buf <? u64 required)
                end;
        if (small : bool) then
          _ ↢ unlocked;
          blob ↢ on_mem (ceph_buffer_new kmalloc_ok (u64 required));
          match blob with
          | None => sret NoMem
          | Some b =>
              i ↢ getx;
              _ ↢ match i_prealloc_blob i with Some o => on_mem (ceph_buffer_put o) | None => sret tt end;
              _ ↢ modx (fun i => i <| i_prealloc_blob := Some b |>);
              prepare fuel name_size val_size
          end
        else sret Ready
  end.

(** The preallocated blob is too small once for an index that could not be
    built, once when it was, and again each time other threads ran. *)
Definition prepare_fuel (ws : list window) : nat := 3 + 2 * length ws.

Definition mark_dirty : XM unit :=
  _ ↢ mods (fun s => s <| xs_caps ::= mark_dirty_caps CEPH_CAP_XATTR_EXCL |>);
  modx (fun i => i <| i_dirty := true |>).

Definition ceph_setxattr (ci : vinode) (snap : bool) (mds : Z) (name : list Z) (value : option (list Z)) (flags : Z)
  : XM Z :=
  let name_len := Z.of_nat (length name) in
  let val_len := Z.of_nat (length (default [] value)) in
  if snap then sret (- EROFS)
  else if negb (ceph_is_valid_xattr name) then sret (- EOPNOTSUPP)
  else if existsb vx_readonly (option_list (ceph_match_vxattr ci name)) then sret (- EOPNOTSUPP)
  else if has_prefix XATTR_CEPH_PREFIX name then ceph_sync_setxattr mds name value flags
  else
    newname ↢ on_mem (kmemdup kmalloc_ok (name ++ [0]));
    match newname with
    | None => sret (- ENOMEM)
    | Some newname =>
        newval ↢ (if val_len =? 0 then sret (Some None)
                  else v ↢ on_mem (kmemdup kmalloc_ok (default [] value)); sret (Some <$> v));
        match newval with
        | None => _ ↢ on_mem (kfree newname); sret (- ENOMEM)
        | Some newval =>
            let free_all err := _ ↢ on_mem (kfree newname); _ ↢ on_mem (kfree_opt newval); sret err in
            ok ↢ on_mem (knode kmalloc_ok);
            if negb ok then free_all (- ENOMEM)
            else
              r ↢ (fun w => prepare (prepare_fuel (fst w)) name_len val_len w);
              match r with
              | DoSync =>
                  err ↢ ceph_sync_setxattr mds name value flags;
                  _ ↢ on_mem kfree_node; free_all err
              | NoMem => _ ↢ on_mem kfree_node; free_all (- ENOMEM)
              | Ready =>
                  err ↢ __set_xattr newname name_len newval val_len flags (match value with Some _ => 1 | None => -1 end);
                  _ ↢ (if err =? 0 then mark_dirty else sret tt);
                  sret err
              end
        end
    end.

Definition ceph_removexattr (ci : vinode) (snap : bool) (mds : Z) (name : list Z) : XM Z :=
  if snap then sret (- EROFS)
  else if negb (ceph_is_valid_xattr name) then sret (- EOPNOTSUPP)
  else if existsb vx_readonly (option_list (ceph_match_vxattr ci name)) then sret (- EOPNOTSUPP)
  else if has_prefix XATTR_CEPH_PREFIX name then ceph_send_removexattr mds name
  else
    r ↢ (fun w => prepare (prepare_fuel (fst w)) 0 0 w);
    match r with
    | DoSync => ceph_send_removexattr mds name
    | NoMem => sret (- ENOMEM)
    | Ready =>
        err ↢ __remove_xattr_by_name name;
        _ ↢ mark_dirty;
        sret err
    end.

End Xattr.
