(* ===== verification/XattrIndex.v ===== *)
(** * The index of extended attributes as a finite map

    Proofs about the tree of Xattr.v.  Names are compared with strncmp and then
    by length; on names without a 0 byte this is the lexicographic order
    ([strncmp_lex]).  [attrs m t] is the list of the pairs (name, value) that the
    nodes of [t] point to in memory [m], in order; the descents find a name in it,
    and an insertion, a store and an erasure change it as a sorted association
    list. *)
From S2P Require Import Prelude.
From S2P Require Import Wire.
From S2P Require Import RbTree.
From S2P Require Import StateM.
From S2P Require Import Buffer.
From S2P Require Import OsdMap.
From S2P Require Import FileLayout.
From S2P Require Import VXattr.
From S2P Require Import Xattr.
From stdpp Require Import fin_maps gmap sorting.
#[local] Open Scope Z_scope.
#[local] Open Scope ceph_scope.
#[local] Open Scope st_scope.

(** ** The order of names *)
Fixpoint lexcmp (a b : list Z) : Z :=
  match a, b with
  | [], [] => 0
  | [], _ :: _ => -1
  | _ :: _, [] => 1
  | x :: a, y :: b => if x =? y then lexcmp a b else x - y
  end.
Definition lex_lt (a b : list Z) : Prop := lexcmp a b < 0.

Lemma lexcmp_opp a b : Z.sgn (lexcmp a b) = - Z.sgn (lexcmp b a).
Proof.
  revert b. induction a as [|x a IH]; intros [|y b]; cbn; try done.
  rewrite (Z.eqb_sym y x). destruct (Z.eqb_spec x y); [apply IH|]. lia.
Qed.

Lemma lexcmp_eq a b : lexcmp a b = 0 <-> a = b.
Proof.
  revert b. induction a as [|x a IH]; intros [|y b]; cbn; try (split; congruence || lia).
  destruct (Z.eqb_spec x y) as [->|Hne].
  - rewrite IH. split; congruence.
  - split; [lia|congruence].
Qed.

Lemma lexcmp_trans a b c : lexcmp a b < 0 -> lexcmp b c < 0 -> lexcmp a c < 0.
Proof.
  revert b c. induction a as [|x a IH]; intros [|y b] [|z c]; cbn; try lia.
  destruct (Z.eqb_spec x y) as [Exy|], (Z.eqb_spec y z) as [Eyz|], (Z.eqb_spec x z); try lia. apply IH.
Qed.

#[global] Instance lex_strict : StrictOrder lex_lt.
Proof.
  split; [|intros a b c; apply lexcmp_trans].
  intros a. unfold complement, lex_lt. rewrite (proj2 (lexcmp_eq a a)) by done. lia.
Qed.

Lemma lex_total a b : lex_lt a b \/ a = b \/ lex_lt b a.
Proof.
  unfold lex_lt. pose proof (lexcmp_opp a b). destruct (Z.lt_trichotomy (lexcmp a b) 0) as [?|[?|?]]; [by left| |lia].
  right. left. by apply lexcmp_eq.
Qed.

(** A name as the attributes have it: bytes other than 0. *)
Definition nul_free (a : list Z) : Prop := Forall (fun b => 0 < b < 256) a.

(** strncmp up to the shorter length, then the lengths: the lexicographic
    order, whatever follows the names in memory. *)
Lemma strncmp_lex k n ra rb :
  nul_free k -> nul_free n ->
  exists c, strncmp (k ++ ra) (n ++ rb) (Z.min (Z.of_nat (length k)) (Z.of_nat (length n))) = Ret c /\
  Z.sgn (if negb (c =? 0) then c else Z.of_nat (length k) - Z.of_nat (length n)) = Z.sgn (lexcmp k n).
Proof.
  intros Hk. revert n. induction Hk as [|x k Hx Hk IH]; intros n Hn.
  - exists 0. rewrite Z.min_l by (cbn; lia). cbn [app length]. split; [by destruct ra|]. cbn.
    destruct n; cbn; lia.
  - destruct Hn as [|y n Hy Hn].
    + exists 0. rewrite Z.min_r by (cbn; lia). split; [done|]. cbn. lia.
    + specialize (IH n Hn) as (c & E & Es). cbn [app strncmp lexcmp length].
      destruct (Z.eqb_spec (Z.min (Z.of_nat (S (length k))) (Z.of_nat (S (length n)))) 0); [lia|].
      destruct (Z.eqb_spec x y) as [->|Hne].
      * destruct (Z.eqb_spec y 0); [lia|]. exists c.
        replace (Z.min _ _ - 1) with (Z.min (Z.of_nat (length k)) (Z.of_nat (length n))) by lia.
        split; [done|]. rewrite <- Es. destruct (c =? 0); cbn [negb]; lia.
      * exists (x - y). split; [done|]. destruct (Z.eqb_spec (x - y) 0); cbn [negb]; lia.
Qed.

(** The comparison of [__get_xattr]: a C string with a name of the index. *)
Lemma strncmp_cstr_lex k n rb :
  nul_free k -> nul_free n ->
  exists c, strncmp (k ++ [0]) (n ++ rb) (Z.of_nat (length n)) = Ret c /\
  Z.sgn (if (c =? 0) && (Z.of_nat (length n) <? Z.of_nat (length k)) then 1 else c) = Z.sgn (lexcmp k n).
Proof.
  intros Hk. revert n. induction Hk as [|x k Hx Hk IH]; intros n Hn.
  - destruct Hn as [|y n Hy Hn]; cbn [app strncmp length lexcmp].
    + by exists 0.
    + destruct (Z.eqb_spec (Z.of_nat (S (length n))) 0); [lia|]. destruct (Z.eqb_spec 0 y); [lia|].
      exists (0 - y). split; [done|]. destruct (Z.eqb_spec (0 - y) 0); [lia|]. cbn [andb]. lia.
  - destruct Hn as [|y n Hy Hn]; cbn [app strncmp length lexcmp].
    + exists 0. by rewrite Z.eqb_refl.
    + specialize (IH n Hn) as (c & E & Es).
      destruct (Z.eqb_spec (Z.of_nat (S (length n))) 0); [lia|].
      destruct (Z.eqb_spec x y) as [->|Hne].
      * destruct (Z.eqb_spec y 0); [lia|]. exists c.
        replace (Z.of_nat (S (length n)) - 1) with (Z.of_nat (length n)) by lia. split; [done|]. rewrite <- Es.
        rewrite !Nat2Z.inj_succ. f_equal. destruct (c =? 0); cbn [andb]; [|done].
        destruct (Z.ltb_spec (Z.succ (Z.of_nat (length n))) (Z.succ (Z.of_nat (length k)))),
          (Z.ltb_spec (Z.of_nat (length n)) (Z.of_nat (length k))); lia.
      * exists (x - y). split; [done|]. destruct (Z.eqb_spec (x - y) 0); [lia|]. done.
Qed.

(** ** Descents *)
Section Descents.
Context {V : Type} (f : V -> outcome Z) (c : list Z -> V -> Z) (k : list Z).

Definition agrees (v : V) : Prop := exists z, f v = Ret z /\ Z.sgn z = Z.sgn (c k v).

(** A descent with a comparison that reads memory stops where the descents of
    RbTree.v do. *)
Lemma descend_search t p :
  Forall agrees (inorder t) ->
  (exists q v, descend f t p = Ret (p ++ q, Some v) /\ search c t k p = Some (p ++ q, v)) \/
  (exists q, descend f t p = Ret (p ++ q, None) /\ search c t k p = None /\
     forall new, link c t k new p = Some (link_at q new t, p ++ q)).
Proof.
  revert p. induction t as [|col l IHl v r IHr]; intros p; cbn [inorder descend search link].
  { intros _. right. exists []. by rewrite app_nil_r. }
  intros [Hl [(z & -> & Hz) Hr]%Forall_cons]%Forall_app. cbn [obind].
  destruct (Z.ltb_spec z 0), (Z.ltb_spec (c k v) 0); try lia.
  - destruct (IHl (p ++ [L]) Hl) as [(q & w & -> & ->)|(q & -> & -> & Hlk)].
    + left. exists (L :: q), w. by rewrite <- app_assoc.
    + right. exists (L :: q). rewrite <- app_assoc. split_and!; try done. intros new. rewrite Hlk. cbn.
      by rewrite <- app_assoc.
  - destruct (Z.ltb_spec 0 z), (Z.ltb_spec 0 (c k v)); try lia.
    + destruct (IHr (p ++ [R]) Hr) as [(q & w & -> & ->)|(q & -> & -> & Hlk)].
      * left. exists (R :: q), w. by rewrite <- app_assoc.
      * right. exists (R :: q). rewrite <- app_assoc. split_and!; try done. intros new. rewrite Hlk. cbn.
        by rewrite <- app_assoc.
    + left. exists [], v. by rewrite app_nil_r.
Qed.
End Descents.

(** ** Memory *)
Lemma read_at_Ret m p n l :
  read_at m p n = Ret l <-> exists rest, bytes_at m p = Ret (l ++ rest) /\ n = Z.of_nat (length l).
Proof.
  unfold read_at. destruct (bytes_at m p) as [a|e|f]; cbn [obind].
  2-3: by split; [|intros (? & ? & ?)].
  split.
  - repeat case_Zb; try done. intros [= <-]. exists (drop (Z.to_nat n) a). rewrite take_drop. split; [done|].
    rewrite length_take. lia.
  - intros (rest & [= ->] & ->). rewrite length_app. repeat case_Zb; try lia.
    by rewrite Nat2Z.id, take_app_length.
Qed.

(** The objects an access through [p] depends on are the same in [m'] as in [m]. *)
Definition same_object (m m' : mem) (p : cptr) : Prop :=
  match p with
  | PBuf b _ => b_base <$> m_bufs m' !! b = b_base <$> m_bufs m !! b
  | PStr i => m_strs m' !! i = m_strs m !! i
  | PNul => True
  end.

Lemma bytes_at_same m m' p : same_object m m' p -> bytes_at m' p = bytes_at m p.
Proof.
  destruct p as [b off|i|]; cbn; [|by intros ->|done].
  destruct (m_bufs m' !! b), (m_bufs m !! b); cbn; try done. by intros [= ->].
Qed.

Lemma read_at_same m m' p n : same_object m m' p -> read_at m' p n = read_at m p n.
Proof. intros Hs. unfold read_at. by rewrite (bytes_at_same m m' p Hs). Qed.

(** ** Nodes *)
Definition name_of (m : mem) (x : ceph_inode_xattr) : list Z :=
  match read_at m (x_name x) (x_name_len x) with Ret l => l | _ => [] end.
Definition val_of (m : mem) (x : ceph_inode_xattr) : list Z :=
  match read_at m (x_val x) (x_val_len x) with Ret l => l | _ => [] end.

(** The strings a node owns: those it frees. *)
Definition ptr_ids (p : cptr) : list nat := match p with PStr i => [i] | _ => [] end.
Definition free_ids (free : bool) (p : cptr) : list nat := if free then ptr_ids p else [].
Definition owned (x : ceph_inode_xattr) : list nat :=
  free_ids (x_should_free_name x) (x_name x) ++ free_ids (x_should_free_val x) (x_val x).
Definition owned_all (l : list ceph_inode_xattr) : list nat := mbind owned l.

(** A pointer that a node frees is a string; one it does not free points into
    the blob, or to the empty literal. *)
Definition ptr_ok (free : bool) (blob : option nat) (p : cptr) : Prop :=
  match p with
  | PStr _ => free = true
  | PBuf b _ => free = false /\ blob = Some b
  | PNul => free = false
  end.

Record entry_ok (m : mem) (blob : option nat) (x : ceph_inode_xattr) : Prop := {
  e_name : read_at m (x_name x) (x_name_len x) = Ret (name_of m x);
  e_nul : nul_free (name_of m x);
  e_val : read_at m (x_val x) (x_val_len x) = Ret (val_of m x);
  e_fname : ptr_ok (x_should_free_name x) blob (x_name x);
  e_fval : ptr_ok (x_should_free_val x) blob (x_val x) }.

(** The strings of the nodes are allocated and none is owned twice. *)
Definition frees_ok (x : ceph_inode_xattr) : Prop :=
  (x_should_free_name x = true -> exists i, x_name x = PStr i) /\
  (x_should_free_val x = true -> exists i, x_val x = PStr i).
Record owns (m : mem) (l : list ceph_inode_xattr) : Prop := {
  o_frees : Forall frees_ok l;
  o_nodup : NoDup (owned_all l);
  o_live : forall i, i ∈ owned_all l -> is_Some (m_strs m !! i) }.

(** The nodes in order: sorted by name, each of them readable. *)
Definition by_name (m : mem) : relation ceph_inode_xattr := fun x y => lex_lt (name_of m x) (name_of m y).
Definition nodes_ok (m : mem) (blob : option nat) (l : list ceph_inode_xattr) : Prop :=
  StronglySorted (by_name m) l /\ Forall (entry_ok m blob) l.

Definition pairs (m : mem) (l : list ceph_inode_xattr) : list (list Z * list Z) :=
  (fun x => (name_of m x, val_of m x)) <$> l.

(** The memory the nodes of a current index depend on. *)
Definition same_for (m m' : mem) (blob : option nat) (ids : list nat) : Prop :=
  (forall b, blob = Some b -> b_base <$> m_bufs m' !! b = b_base <$> m_bufs m !! b) /\
  (forall i, i ∈ ids -> m_strs m' !! i = m_strs m !! i).

Lemma entry_same m m' blob x :
  entry_ok m blob x -> same_for m m' blob (owned x) ->
  entry_ok m' blob x /\ name_of m' x = name_of m x /\ val_of m' x = val_of m x.
Proof.
  intros [Hn Hz Hv Hfn Hfv] [Hb Hs].
  assert (Sn : same_object m m' (x_name x)).
  { unfold owned, free_ids in Hs. destruct (x_name x) as [b o|i|]; cbn in *; [|apply Hs; rewrite Hfn; set_solver|done].
    apply Hb. by destruct Hfn. }
  assert (Sv : same_object m m' (x_val x)).
  { unfold owned, free_ids in Hs. destruct (x_val x) as [b o|i|]; cbn in *; [|apply Hs; rewrite Hfv; set_solver|done].
    apply Hb. by destruct Hfv. }
  assert (En : name_of m' x = name_of m x) by (unfold name_of; by rewrite (read_at_same m m' _ _ Sn)).
  assert (Ev : val_of m' x = val_of m x) by (unfold val_of; by rewrite (read_at_same m m' _ _ Sv)).
  split_and!; [|done|done]. constructor; rewrite ?En, ?Ev; try done.
  - by rewrite (read_at_same m m' _ _ Sn).
  - by rewrite (read_at_same m m' _ _ Sv).
Qed.

Lemma owned_all_elem l x i : x ∈ l -> i ∈ owned x -> i ∈ owned_all l.
Proof. intros Hx Hi. unfold owned_all. apply list_elem_of_bind. by exists x. Qed.

Lemma owned_all_app l1 l2 : owned_all (l1 ++ l2) = owned_all l1 ++ owned_all l2.
Proof. unfold owned_all. by rewrite bind_app. Qed.

(** Nodes are left alone by changes of memory they do not depend on. *)
Lemma nodes_same m m' blob l :
  nodes_ok m blob l -> same_for m m' blob (owned_all l) -> nodes_ok m' blob l /\ pairs m' l = pairs m l.
Proof.
  intros [Hs He] Hsame.
  assert (Hx : forall x, x ∈ l -> entry_ok m' blob x /\ name_of m' x = name_of m x /\ val_of m' x = val_of m x).
  { intros x Hx. apply (proj1 (Forall_forall _ _) He) in Hx as Hex. apply (entry_same m); [done|].
    destruct Hsame as [Hb Hids]. split; [done|]. intros i Hi. apply Hids. by eapply owned_all_elem. }
  split; [split|].
  - clear He Hsame. induction Hs as [|x l Hl IH Hall]; constructor.
    + apply IH. intros y Hy. apply Hx. by right.
    + apply Forall_forall. intros y Hy. unfold by_name. destruct (Hx x) as (_ & -> & _); [by left|].
      destruct (Hx y) as (_ & -> & _); [by right|]. by apply (proj1 (Forall_forall _ _) Hall).
  - apply Forall_forall. intros x Hxx. by destruct (Hx x Hxx).
  - unfold pairs. apply list_fmap_ext. intros i x Hi. apply list_elem_of_lookup_2 in Hi.
    by destruct (Hx x Hi) as (_ & -> & ->).
Qed.

Lemma nodes_app m blob l1 l2 :
  nodes_ok m blob (l1 ++ l2) <->
  nodes_ok m blob l1 /\ nodes_ok m blob l2 /\ forall x y, x ∈ l1 -> y ∈ l2 -> by_name m x y.
Proof.
  unfold nodes_ok, by_name. rewrite (sorted_app (name_of m) lex_lt l1 l2), Forall_app. tauto.
Qed.

Lemma nodes_cons m blob x l :
  nodes_ok m blob (x :: l) <-> entry_ok m blob x /\ nodes_ok m blob l /\ forall y, y ∈ l -> by_name m x y.
Proof.
  unfold nodes_ok. rewrite Forall_cons. split.
  - intros [[H1 H2]%StronglySorted_inv [H3 H4]]. split_and!; try done. by apply Forall_forall.
  - intros (H1 & [H2 H3] & H4). split; [|done]. constructor; [done|]. by apply Forall_forall.
Qed.

Lemma nodes_middle m blob l1 x l2 :
  nodes_ok m blob (l1 ++ x :: l2) <->
  nodes_ok m blob (l1 ++ l2) /\ entry_ok m blob x /\
  (forall y, y ∈ l1 -> by_name m y x) /\ (forall y, y ∈ l2 -> by_name m x y).
Proof.
  rewrite !nodes_app, nodes_cons. split.
  - intros (H1 & (H2 & H3 & H4) & H5). split_and!; try done; intros; apply H5; set_solver.
  - intros ((H1 & H2 & H3) & H4 & H5 & H6). split_and!; try done.
    intros a b Ha [->|Hb]%elem_of_cons; auto.
Qed.

Lemma pairs_app m l1 l2 : pairs m (l1 ++ l2) = pairs m l1 ++ pairs m l2.
Proof. apply fmap_app. Qed.

Lemma pairs_elem m l a : a ∈ pairs m l <-> exists x, x ∈ l /\ a = (name_of m x, val_of m x).
Proof. unfold pairs. rewrite list_elem_of_fmap. naive_solver. Qed.

(** ** Sorted association lists: the abstract attributes *)
Fixpoint put (k v : list Z) (l : list (list Z * list Z)) : list (list Z * list Z) :=
  match l with
  | [] => [(k, v)]
  | (n, w) :: l' =>
      if lexcmp k n <? 0 then (k, v) :: l
      else if 0 <? lexcmp k n then (n, w) :: put k v l'
      else (k, v) :: l'
  end.
Definition del (k : list Z) (l : list (list Z * list Z)) : list (list Z * list Z) := filter (fun a => a.1 <> k) l.
Definition look (k : list Z) (l : list (list Z * list Z)) : option (list Z) :=
  snd <$> List.find (fun a => bool_decide (a.1 = k)) l.

Definition names_size (l : list (list Z * list Z)) : Z := foldr (fun a n => Z.of_nat (length a.1) + n) 0 l.
Definition vals_size (l : list (list Z * list Z)) : Z := foldr (fun a n => Z.of_nat (length a.2) + n) 0 l.
(** The length of the blob that holds the attributes. *)
Definition blob_size (l : list (list Z * list Z)) : Z := 4 + 8 * Z.of_nat (length l) + names_size l + vals_size l.

Lemma sizes_app l1 l2 :
  names_size (l1 ++ l2) = names_size l1 + names_size l2 /\ vals_size (l1 ++ l2) = vals_size l1 + vals_size l2.
Proof. unfold names_size, vals_size. induction l1 as [|a l1 [IH1 IH2]]; cbn; [done|]. rewrite IH1, IH2. lia. Qed.

Lemma sizes_nonneg l : 0 <= names_size l /\ 0 <= vals_size l.
Proof. unfold names_size, vals_size. induction l as [|a l IH]; cbn; lia. Qed.

Lemma lexcmp_gt k n : lex_lt n k -> 0 < lexcmp k n.
Proof. unfold lex_lt. pose proof (lexcmp_opp k n). lia. Qed.
Lemma lexcmp_refl k : lexcmp k k = 0.
Proof. by apply lexcmp_eq. Qed.

Lemma put_new k v l1 l2 :
  (forall a, a ∈ l1 -> lex_lt a.1 k) -> (forall a, a ∈ l2 -> lex_lt k a.1) -> put k v (l1 ++ l2) = l1 ++ (k, v) :: l2.
Proof.
  intros H1 H2. induction l1 as [|[n w] l1 IH]; cbn.
  - destruct l2 as [|[n w] l2]; [done|]. cbn. specialize (H2 (n, w) ltac:(by left)). unfold lex_lt in H2. cbn in H2.
    case_Zb; [done|lia].
  - specialize (H1 (n, w) ltac:(by left)) as Hn. apply lexcmp_gt in Hn. cbn in Hn. repeat case_Zb; try lia.
    rewrite IH; [done|]. intros a Ha. apply H1. by right.
Qed.

Lemma put_found k v w l1 l2 :
  (forall a, a ∈ l1 -> lex_lt a.1 k) -> put k v (l1 ++ (k, w) :: l2) = l1 ++ (k, v) :: l2.
Proof.
  intros H1. induction l1 as [|[n u] l1 IH]; cbn; [by rewrite lexcmp_refl|].
  specialize (H1 (n, u) ltac:(by left)) as Hn. apply lexcmp_gt in Hn. cbn in Hn. repeat case_Zb; try lia.
  rewrite IH; [done|]. intros a Ha. apply H1. by right.
Qed.

Lemma del_none k l : (forall a, a ∈ l -> a.1 <> k) -> del k l = l.
Proof.
  unfold del. induction l as [|a l IH]; intros Hl; [done|]. rewrite filter_cons_True by (apply Hl; by left).
  rewrite IH; [done|]. intros b Hb. apply Hl. by right.
Qed.

Lemma del_found k w l1 l2 :
  (forall a, a ∈ l1 -> a.1 <> k) -> (forall a, a ∈ l2 -> a.1 <> k) -> del k (l1 ++ (k, w) :: l2) = l1 ++ l2.
Proof.
  intros H1 H2. unfold del. rewrite filter_app, filter_cons_False by (cbn; tauto).
  fold (del k l1) (del k l2). by rewrite !del_none.
Qed.

Lemma look_found k w l1 l2 :
  (forall a, a ∈ l1 -> a.1 <> k) -> look k (l1 ++ (k, w) :: l2) = Some w.
Proof.
  intros H1. unfold look. induction l1 as [|[n u] l1 IH]; cbn.
  - by rewrite bool_decide_true.
  - rewrite bool_decide_false by (apply (H1 (n, u)); by left). apply IH. intros a Ha. apply H1. by right.
Qed.

Lemma look_None k l : (forall a, a ∈ l -> a.1 <> k) -> look k l = None.
Proof.
  intros Hl. unfold look. induction l as [|[n u] l IH]; cbn; [done|].
  rewrite bool_decide_false by (apply (Hl (n, u)); by left). apply IH. intros a Ha. apply Hl. by right.
Qed.

(** ** The index *)
Section Index.
Context `{RbOps}.

Definition key_cmp (m : mem) (k : list Z) (x : ceph_inode_xattr) : Z := lexcmp k (name_of m x).

Lemma key_cmp_gt m k x : 0 < key_cmp m k x <-> lex_lt (name_of m x) k.
Proof. unfold key_cmp, lex_lt. pose proof (lexcmp_opp k (name_of m x)). lia. Qed.

Lemma set_cmp_agrees m blob name k rest x :
  bytes_at m name = Ret (k ++ rest) -> nul_free k -> entry_ok m blob x ->
  agrees (set_cmp m name (Z.of_nat (length k))) (key_cmp m) k x.
Proof.
  intros Hk Hz [(r & Hb & Hl)%read_at_Ret Hn _ _ _]. unfold agrees, set_cmp, key_cmp. rewrite Hk, Hb, Hl. cbn [obind].
  destruct (strncmp_lex k (name_of m x) rest r Hz Hn) as (c & -> & Hc). cbn [obind].
  exists (if negb (c =? 0) then c else Z.of_nat (length k) - Z.of_nat (length (name_of m x))).
  split; [by destruct (c =? 0)|done].
Qed.

Lemma get_cmp_agrees m blob k x :
  nul_free k -> entry_ok m blob x -> agrees (get_cmp m k) (key_cmp m) k x.
Proof.
  intros Hz [(r & Hb & Hl)%read_at_Ret Hn _ _ _]. unfold agrees, get_cmp, key_cmp. rewrite Hb, Hl. cbn [obind].
  destruct (strncmp_cstr_lex k (name_of m x) r Hz Hn) as (c & -> & Hc). cbn [obind]. by eexists.
Qed.

(** A descent finds the node with the name, or the place for it. *)
Lemma index_descend f m blob t k :
  nodes_ok m blob (inorder t) -> nul_free k -> (forall x, entry_ok m blob x -> agrees f (key_cmp m) k x) ->
  (exists q x, descend f t [] = Ret (q, Some x) /\ at_path q t = Some x /\ name_of m x = k) \/
  (exists q, descend f t [] = Ret (q, None) /\ forall new, exists l1 l2, inorder t = l1 ++ l2 /\
     inorder (link_at q new t) = l1 ++ new :: l2 /\
     (forall x, x ∈ l1 -> lex_lt (name_of m x) k) /\ (forall x, x ∈ l2 -> lex_lt k (name_of m x))).
Proof.
  intros [Hs He] Hk Hf.
  assert (Ho : ordered (name_of m) lex_lt nul_free t).
  { split; [done|]. eapply Forall_impl; [exact He|]. by intros x []. }
  assert (Hag : Forall (agrees f (key_cmp m) k) (inorder t)) by (eapply Forall_impl; [exact He|exact Hf]).
  assert (Hgt : forall k x, nul_free k -> nul_free (name_of m x) -> 0 < key_cmp m k x <-> lex_lt (name_of m x) k)
    by (intros; apply key_cmp_gt).
  assert (Hlt : forall k x, nul_free k -> nul_free (name_of m x) -> key_cmp m k x < 0 <-> lex_lt k (name_of m x))
    by done.
  destruct (descend_search f (key_cmp m) k t [] Hag) as [(q & x & -> & Hse)|(q & -> & Hse & Hl)]; [left|right].
  - exists q, x. split; [done|].
    pose proof (search_spec (name_of m) lex_lt (key_cmp m) lex_total nul_free Hlt Hgt t k [] Ho Hk) as Hsp.
    rewrite Hse in Hsp. destruct Hsp as [(q' & E & Hq) Hn]. cbn in E. by subst q'.
  - exists q. split; [done|]. intros new.
    pose proof (link_spec (name_of m) lex_lt (key_cmp m) lex_total nul_free Hlt Hgt t k new [] Ho Hk) as Hsp.
    rewrite Hl in Hsp. cbn in Hsp. exact Hsp.
Qed.

(** The nodes around one with name [k] have other names. *)
Lemma around m blob l1 x l2 :
  nodes_ok m blob (l1 ++ x :: l2) ->
  (forall a, a ∈ pairs m l1 -> lex_lt a.1 (name_of m x)) /\ (forall a, a ∈ pairs m l2 -> lex_lt (name_of m x) a.1).
Proof.
  intros (_ & _ & H1 & H2)%nodes_middle. split; intros a (y & Hy & ->)%pairs_elem; cbn; [by apply H1|by apply H2].
Qed.

Lemma lex_ne a b : lex_lt a b -> a <> b /\ b <> a.
Proof. intros Hlt. split; intros ->; by apply (irreflexivity lex_lt) in Hlt. Qed.

(** Replacing a node by one with the same name, in a memory that is the same
    for the others. *)
Lemma nodes_replace m m' blob l1 x l2 w :
  nodes_ok m blob (l1 ++ x :: l2) -> same_for m m' blob (owned_all (l1 ++ l2)) ->
  entry_ok m' blob w -> name_of m' w = name_of m x ->
  nodes_ok m' blob (l1 ++ w :: l2) /\
  pairs m' (l1 ++ w :: l2) = put (name_of m x) (val_of m' w) (pairs m (l1 ++ x :: l2)).
Proof.
  intros Hok Hsame Hw Hn. pose proof (around _ _ _ _ _ Hok) as [A1 A2].
  pose proof Hok as (Hrest & Hx & H1 & H2)%nodes_middle.
  destruct (nodes_same m m' blob (l1 ++ l2) Hrest Hsame) as [Hrest' Hp]. rewrite !pairs_app in Hp.
  apply app_inj_1 in Hp as [Hp1 Hp2]; [|unfold pairs; by rewrite !length_fmap].
  rewrite !pairs_app. cbn [pairs fmap list_fmap]. fold (pairs m l2) (pairs m' l2). rewrite Hp1, Hp2, Hn.
  split; [|by rewrite put_found].
  apply nodes_middle. split_and!; [done|done| |].
  - intros y Hy. unfold by_name. rewrite Hn. assert ((name_of m' y, val_of m' y) ∈ pairs m' l1) as Hin
      by (apply pairs_elem; by exists y). rewrite Hp1 in Hin. apply (A1 _ Hin).
  - intros y Hy. unfold by_name. rewrite Hn. assert ((name_of m' y, val_of m' y) ∈ pairs m' l2) as Hin
      by (apply pairs_elem; by exists y). rewrite Hp2 in Hin. apply (A2 _ Hin).
Qed.

Lemma nodes_insert m blob l1 w l2 :
  nodes_ok m blob (l1 ++ l2) -> entry_ok m blob w ->
  (forall x, x ∈ l1 -> lex_lt (name_of m x) (name_of m w)) -> (forall x, x ∈ l2 -> lex_lt (name_of m w) (name_of m x)) ->
  nodes_ok m blob (l1 ++ w :: l2) /\
  pairs m (l1 ++ w :: l2) = put (name_of m w) (val_of m w) (pairs m (l1 ++ l2)).
Proof.
  intros Hok Hw H1 H2. split; [by apply nodes_middle|]. rewrite !pairs_app. cbn [pairs fmap list_fmap].
  rewrite put_new; [done| |]; intros a (y & Hy & ->)%pairs_elem; cbn; auto.
Qed.

Lemma nodes_erase m m' blob l1 x l2 :
  nodes_ok m blob (l1 ++ x :: l2) -> same_for m m' blob (owned_all (l1 ++ l2)) ->
  nodes_ok m' blob (l1 ++ l2) /\ pairs m' (l1 ++ l2) = del (name_of m x) (pairs m (l1 ++ x :: l2)).
Proof.
  intros Hok Hsame. pose proof (around _ _ _ _ _ Hok) as [A1 A2].
  pose proof Hok as (Hrest & Hx & H1 & H2)%nodes_middle.
  destruct (nodes_same m m' blob (l1 ++ l2) Hrest Hsame) as [Hrest' ->]. split; [done|].
  rewrite !pairs_app. cbn [pairs fmap list_fmap]. rewrite del_found; [done| |].
  - intros a Ha. by destruct (lex_ne _ _ (A1 a Ha)).
  - intros a Ha. by destruct (lex_ne _ _ (A2 a Ha)).
Qed.
End Index.
