(* ===== verification/XattrOps.v ===== *)
(** * Specifications of the operations on the index

    [indexed i m l]: in memory [m] the tree of [i] is a well-formed index of the
    sorted attribute list [l], and the counters of [i] are those of [l].  Each
    operation on the tree takes [l] to the list the corresponding operation on
    association lists gives, frees the strings it must free, and leaves the rest
    of the state ([rest]) and the strings of others ([private]) alone.  [spare]
    counts the index nodes that are allocated but not in the tree. *)
From S2P Require Import Prelude.
From S2P Require Import Wire.
From S2P Require Import RbTree.
From S2P Require Import StateM.
From S2P Require Import Buffer.
From S2P Require Import OsdMap.
From S2P Require Import FileLayout.
From S2P Require Import VXattr.
From S2P Require Import Xattr.
From S2P Require Import XattrIndex.
From stdpp Require Import fin_maps gmap sorting.
#[local] Open Scope Z_scope.
#[local] Open Scope ceph_scope.
#[local] Open Scope st_scope.

Record indexed (i : ceph_inode_xattrs_info) (m : mem) (l : list (list Z * list Z)) : Prop := {
  ix_ok : nodes_ok m (i_blob i) (inorder (i_index i));
  ix_owns : owns m (inorder (i_index i));
  ix_pairs : pairs m (inorder (i_index i)) = l;
  ix_count : i_count i = Z.of_nat (length l);
  ix_names : i_names_size i = names_size l;
  ix_vals : i_vals_size i = vals_size l;
  ix_size : blob_size l < 2 ^ 31 }.

(** ** Freeing strings *)
Definition del_strs (ids : list nat) (m : mem) : mem := m <| m_strs ::= fun t => foldr delete t ids |>.

Lemma del_strs_lookup ids m i :
  m_strs (del_strs ids m) !! i = if decide (i ∈ ids) then None else m_strs m !! i.
Proof.
  destruct m as [bufs strs nodes next allocs]. unfold del_strs. cbn.
  induction ids as [|j ids IH]; cbn; [by rewrite decide_False by set_solver|].
  destruct (decide (i = j)) as [->|Hne].
  - by rewrite lookup_delete_eq, decide_True by set_solver.
  - rewrite lookup_delete_ne, IH by done. apply decide_ext. set_solver.
Qed.

Lemma del_strs_app a b m : del_strs b (del_strs a m) = del_strs (a ++ b) m.
Proof.
  assert (E : m_strs (del_strs b (del_strs a m)) = m_strs (del_strs (a ++ b) m)).
  { apply map_eq. intros i. rewrite !del_strs_lookup. repeat case_decide; set_solver. }
  destruct m as [bufs strs nodes next allocs]. unfold del_strs, over in *. cbn in *. by rewrite E.
Qed.

Lemma del_strs_same ids m blob keep : (forall i, i ∈ keep -> i ∉ ids) -> same_for m (del_strs ids m) blob keep.
Proof.
  intros Hd. split; [by destruct m|]. intros i Hi. rewrite del_strs_lookup, decide_False; auto.
Qed.

Lemma owns_same m m' l : owns m l -> (forall i, i ∈ owned_all l -> m_strs m' !! i = m_strs m !! i) -> owns m' l.
Proof. intros [H1 H2 H3] Hs. split; [done|done|]. intros i Hi. rewrite Hs by done. auto. Qed.

Lemma owned_all_middle l1 x l2 : owned_all (l1 ++ x :: l2) ≡ₚ owned x ++ owned_all (l1 ++ l2).
Proof.
  unfold owned_all. rewrite !bind_app. cbn. rewrite (Permutation_app_comm (owned x)), app_assoc.
  by rewrite Permutation_app_comm.
Qed.

Lemma owns_middle m l1 x l2 :
  owns m (l1 ++ x :: l2) <->
  owns m (l1 ++ l2) /\ frees_ok x /\ NoDup (owned x) /\ (forall i, i ∈ owned x -> is_Some (m_strs m !! i)) /\
  (forall i, i ∈ owned x -> i ∉ owned_all (l1 ++ l2)).
Proof.
  pose proof (owned_all_middle l1 x l2) as Hp. split.
  - intros [H1 H2 H3]. rewrite Hp in H2. apply NoDup_app in H2 as (H4 & H5 & H6).
    apply Forall_app in H1 as [? [? ?]%Forall_cons]. split_and!; try done.
    + split; [by apply Forall_app|done|]. intros i Hi. apply H3. rewrite Hp. set_solver.
    + intros i Hi. apply H3. rewrite Hp. set_solver.
  - intros ([H1 H2 H3] & Hx & Hn & Hl & Hd). apply Forall_app in H1 as [? ?]. split.
    + apply Forall_app. auto.
    + rewrite Hp. apply NoDup_app. auto.
    + intros i. rewrite Hp, elem_of_app. naive_solver.
Qed.

Section Ops.
Context `{RbOps} `{Caps}.

Definition rest (s : xstate) :=
  let i := xs_x s in
  let m := xs_mem s in
  (i_blob i, i_prealloc_blob i, i_dirty i, i_version i, i_index_version i, (m_bufs m, m_next m, m_allocs m),
   xs_caps s, xs_log s).

(** A string that is allocated and that no node owns. *)
Definition private (s : xstate) (i : nat) (v : list Z) : Prop :=
  m_strs (xs_mem s) !! i = Some v /\ i ∉ owned_all (inorder (i_index (xs_x s))).

Definition spare (s : xstate) : Z := m_nodes (xs_mem s) - Z.of_nat (length (inorder (i_index (xs_x s)))).

(** ** Rules for the steps on memory *)
Lemma wp_on_mem {A} (f : ST mem A) Q ws s :
  wp f (fun a m => Q a (ws, s <| xs_mem := m |>)) (xs_mem s) -> wp (on_mem f) Q (ws, s).
Proof. unfold wp, on_mem. by destruct (f (xs_mem s)) as [[a m]| |]. Qed.

Lemma wp_getx Q ws s : Q (xs_x s) (ws, s) -> wp getx Q (ws, s).
Proof. done. Qed.
Lemma wp_getmem Q ws s : Q (xs_mem s) (ws, s) -> wp getmem Q (ws, s).
Proof. done. Qed.
Lemma wp_gets Q ws s : Q s (ws, s) -> wp gets Q (ws, s).
Proof. done. Qed.

Lemma xs_mem_id (s : xstate) : s <| xs_mem := xs_mem s |> = s.
Proof. by destruct s. Qed.

Lemma wp_kfree p ids (Q : unit -> mem -> Prop) m :
  ptr_ids p = ids -> ids <> [] -> (forall i, i ∈ ids -> is_Some (m_strs m !! i)) -> Q tt (del_strs ids m) ->
  wp (kfree p) Q m.
Proof.
  intros <- Hne Hl HQ. destruct p as [| i |]; cbn in *; [done| |done]. unfold kfree, wp, sbind, sget. cbn.
  destruct (Hl i ltac:(set_solver)) as [v ->]. cbn. done.
Qed.

(** [if (free) kfree(p)] *)
Lemma wp_free_if (free : bool) p (Q : unit -> list window * xstate -> Prop) ws s :
  (free = true -> exists i, p = PStr i) -> (forall i, i ∈ free_ids free p -> is_Some (m_strs (xs_mem s) !! i)) ->
  Q tt (ws, s <| xs_mem ::= del_strs (free_ids free p) |>) ->
  wp (if free then on_mem (kfree p) else sret tt) Q (ws, s).
Proof.
  intros Hp Hl HQ. destruct free.
  - apply wp_on_mem. destruct (Hp eq_refl) as [i ->]. by eapply wp_kfree.
  - apply wp_ret. destruct s as [x [] c l]. exact HQ.
Qed.

Lemma wp_kfree_node (Q : unit -> list window * xstate -> Prop) ws s :
  Q tt (ws, s <| xs_mem ::= fun m => m <| m_nodes ::= Z.pred |> |>) -> wp (on_mem kfree_node) Q (ws, s).
Proof. intros HQ. by apply wp_on_mem. Qed.

Lemma wp_free_strings x (Q : unit -> list window * xstate -> Prop) ws s :
  frees_ok x -> NoDup (owned x) -> (forall i, i ∈ owned x -> is_Some (m_strs (xs_mem s) !! i)) ->
  Q tt (ws, s <| xs_mem ::= del_strs (owned x) |>) -> wp (free_strings x) Q (ws, s).
Proof.
  intros [Hn Hv] Hnd Hl HQ. unfold free_strings, owned in *. apply NoDup_app in Hnd as (_ & Hd & _).
  apply wp_bind, wp_free_if; [done|intros i Hi; apply Hl; set_solver|].
  apply wp_free_if; [done| |].
  - intros i Hi. change (xs_mem _) with (del_strs (free_ids (x_should_free_name x) (x_name x)) (xs_mem s)).
    rewrite del_strs_lookup, decide_False; [apply Hl; set_solver|]. intros Hin. by eapply Hd.
  - match goal with |- Q tt (_, ?a) => match type of HQ with Q tt (_, ?b) => replace a with b; [done|] end end.
    unfold over. cbn [xs_x xs_mem xs_caps xs_log]. by rewrite del_strs_app.
Qed.

(** From [s] to [s']: the index holds [l'], [d] more nodes are spare, and
    nothing else has changed but the strings [ids] and those of the index. *)
Record steps (s s' : xstate) (ids : list nat) (l' : list (list Z * list Z)) (d : Z) : Prop := {
  st_indexed : indexed (xs_x s') (xs_mem s') l';
  st_rest : rest s' = rest s;
  st_spare : spare s' = spare s + d;
  st_private : forall i v, private s i v -> i ∉ ids -> private s' i v;
  st_dom : forall i, is_Some (m_strs (xs_mem s') !! i) -> is_Some (m_strs (xs_mem s) !! i) }.

Lemma del_strs_dom ids m i : is_Some (m_strs (del_strs ids m) !! i) -> is_Some (m_strs m !! i).
Proof. rewrite del_strs_lookup. case_decide; [by intros []|done]. Qed.

Lemma entry_lens m blob x : entry_ok m blob x ->
  x_name_len x = Z.of_nat (length (name_of m x)) /\ x_val_len x = Z.of_nat (length (val_of m x)).
Proof. intros [(r & _ & E1)%read_at_Ret _ (r' & _ & E2)%read_at_Ret _ _]. done. Qed.

Lemma sizes_middle l1 a l2 :
  names_size (l1 ++ a :: l2) = names_size (l1 ++ l2) + Z.of_nat (length a.1) /\
  vals_size (l1 ++ a :: l2) = vals_size (l1 ++ l2) + Z.of_nat (length a.2) /\
  Z.of_nat (length (l1 ++ a :: l2)) = Z.of_nat (length (l1 ++ l2)) + 1.
Proof.
  destruct (sizes_app l1 (a :: l2)) as [-> ->], (sizes_app l1 l2) as [-> ->]. rewrite !length_app.
  unfold names_size, vals_size. cbn. lia.
Qed.

Lemma blob_size_bounds l :
  0 <= names_size l <= blob_size l /\ 0 <= vals_size l <= blob_size l /\ 0 <= Z.of_nat (length l) <= blob_size l.
Proof. pose proof (sizes_nonneg l). unfold blob_size. lia. Qed.

Lemma wp_remove_xattr p x l ws s :
  indexed (xs_x s) (xs_mem s) l -> at_path p (i_index (xs_x s)) = Some x ->
  wp (__remove_xattr (Some (p, x)))
    (fun r w => r = 0 /\ exists s', w = (ws, s') /\ steps s s' [] (del (name_of (xs_mem s) x) l) 0) (ws, s).
Proof.
  intros [Hok Hown Hp Hc Hn Hv Hsz] Hx. pose proof (inorder_path _ _ _ Hx) as Hin.
  set (l1 := before p (i_index (xs_x s))) in *. set (l2 := after p (i_index (xs_x s))) in *.
  rewrite Hin in Hok, Hown, Hp.
  pose proof Hown as (Hown' & Hf & Hnd & Hl & Hd)%owns_middle.
  pose proof Hok as (_ & He & _ & _)%nodes_middle. destruct (entry_lens _ _ _ He) as [En Ev].
  set (m' := (del_strs (owned x) (xs_mem s)) <| m_nodes ::= Z.pred |>).
  assert (Hsame : same_for (xs_mem s) m' (i_blob (xs_x s)) (owned_all (l1 ++ l2))).
  { apply del_strs_same. intros i Hi Hx'. by apply (Hd i). }
  destruct (nodes_erase _ _ _ _ _ _ Hok Hsame) as [Hok' Hp'].
  pose proof (rb_erase_inorder _ _ _ _ Hx) as Hin'. fold l1 l2 in Hin'.
  assert (Ed : del (name_of (xs_mem s) x) l = pairs m' (l1 ++ l2)) by (by rewrite Hp', Hp).
  assert (El : l = pairs (xs_mem s) l1 ++ (name_of (xs_mem s) x, val_of (xs_mem s) x) :: pairs (xs_mem s) l2)
    by (rewrite <- Hp; apply pairs_app).
  assert (Ed' : pairs m' (l1 ++ l2) = pairs (xs_mem s) l1 ++ pairs (xs_mem s) l2).
  { rewrite <- pairs_app. pose proof Hok as (Hr & _)%nodes_middle. by apply (nodes_same _ m' (i_blob (xs_x s))). }
  rewrite Ed. destruct (sizes_middle (pairs (xs_mem s) l1) (name_of (xs_mem s) x, val_of (xs_mem s) x)
    (pairs (xs_mem s) l2)) as (S1 & S2 & S3). rewrite <- El, <- Ed' in S1, S2, S3. cbn in S1, S2, S3.
  pose proof (blob_size_bounds l). pose proof (sizes_nonneg (pairs m' (l1 ++ l2))).
  cbn [__remove_xattr]. apply wp_bind. unfold modx. apply wp_mod. cbv beta.
  apply wp_bind, wp_free_strings; [done|done|done|]. apply wp_bind, wp_mod, wp_bind, wp_kfree_node, wp_ret.
  split; [done|]. eexists. split; [done|]. unfold over. cbn [xs_x xs_mem xs_caps xs_log].
  match goal with |- context [Mem ?a ?b ?c ?d ?e] => change (Mem a b c d e) with m' end.
  split.
  - split; cbn [xs_x xs_mem i_index i_count i_names_size i_vals_size i_blob m_strs]; rewrite ?Hin'; try done.
    + apply (owns_same (xs_mem s)); [done|]. by destruct Hsame.
    + rewrite Hc, S3, s32_small; lia.
    + rewrite Hn, S1, En, s32_small; lia.
    + rewrite Hv, S2, Ev, s32_small; lia.
    + unfold blob_size in *. lia.
  - done.
  - unfold spare. cbn [xs_x xs_mem i_index m_nodes]. rewrite Hin', Hin. unfold m', del_strs, over. cbn.
    rewrite !length_app. cbn. lia.
  - intros i v [Hi Hno] _. unfold private in *. cbn [xs_x xs_mem i_index m_strs]. rewrite Hin'.
    rewrite Hin, owned_all_middle in Hno. split; [|set_solver].
    change (m_strs m') with (m_strs (del_strs (owned x) (xs_mem s))). rewrite del_strs_lookup, decide_False; set_solver.
  - intros i. apply (del_strs_dom (owned x)).
Qed.

(** Freeing strings nobody owns leaves the index alone. *)
Lemma steps_free s l ids :
  indexed (xs_x s) (xs_mem s) l -> (forall i, i ∈ ids -> i ∉ owned_all (inorder (i_index (xs_x s)))) ->
  steps s (s <| xs_mem ::= del_strs ids |>) ids l 0.
Proof.
  intros [Hok Hown Hp Hc Hn Hv Hsz] Hd.
  assert (Hsame : same_for (xs_mem s) (del_strs ids (xs_mem s)) (i_blob (xs_x s)) (owned_all (inorder (i_index (xs_x s))))).
  { apply del_strs_same. intros i Hi Hi'. by apply (Hd i). }
  destruct (nodes_same _ _ _ _ Hok Hsame) as [Hok' Hp'].
  split; unfold over; cbn [xs_x xs_mem xs_caps xs_log].
  - split; try done; [|by rewrite Hp']. apply (owns_same (xs_mem s)); [done|]. by destruct Hsame.
  - done.
  - unfold spare. cbn [xs_x xs_mem]. change (m_nodes (del_strs ids (xs_mem s))) with (m_nodes (xs_mem s)). lia.
  - intros i v [Hi Hno] Hni. unfold private. cbn [xs_x xs_mem]. rewrite del_strs_lookup, decide_False; done.
  - intros i. apply del_strs_dom.
Qed.

Lemma steps_trans s s1 s2 ids1 ids2 l1 l2 d1 d2 :
  steps s s1 ids1 l1 d1 -> steps s1 s2 ids2 l2 d2 -> steps s s2 (ids1 ++ ids2) l2 (d1 + d2).
Proof.
  intros [_ R1 S1 P1 D1] [I2 R2 S2 P2 D2]. split; [done|by rewrite R2|lia| |auto].
  intros i v Hp Hi. apply P2; [apply P1|]; set_solver.
Qed.

(** ** [__set_xattr]

    The caller passes a name [k], followed by [tl] in memory, and a value [v];
    with [upd] it gives up the strings they are in. *)
Section SetXattr.
Context (ws : list window) (s : xstate) (l : list (list Z * list Z)).
Context (name : cptr) (k tl : list Z) (val : option cptr) (v : list Z) (upd : bool) (flags : Z).

Definition has_val : bool := bool_decide (is_Some val) && upd.
Definition given : list nat := free_ids upd name ++ free_ids has_val (default PNul val).

Hypothesis Hix : indexed (xs_x s) (xs_mem s) l.
Hypothesis Hk : nul_free k.
Hypothesis Hname : bytes_at (xs_mem s) name = Ret (k ++ tl).
Hypothesis Hval : read_at (xs_mem s) (default PNul val) (Z.of_nat (length v)) = Ret v.
Hypothesis Hpn : ptr_ok upd (i_blob (xs_x s)) name.
Hypothesis Hpv : ptr_ok has_val (i_blob (xs_x s)) (default PNul val).
Hypothesis Hnd : NoDup given.
Hypothesis Hlive : forall i, i ∈ given -> is_Some (m_strs (xs_mem s) !! i).
Hypothesis Hfresh : forall i, i ∈ given -> i ∉ owned_all (inorder (i_index (xs_x s))).

Definition update_xattr : Z := if upd then 1 else 0.

(** The node after the assignments at the end of the function. *)
Definition filled (x : ceph_inode_xattr) : ceph_inode_xattr :=
  x <| x_val := default PNul val |> <| x_val_len := Z.of_nat (length v) |> <| x_dirty := update_xattr |>
    <| x_should_free_val := has_val |>.
Definition new_node : ceph_inode_xattr := filled (InodeXattr name (Z.of_nat (length k)) PNul 0 0 upd false).

Lemma name_read : read_at (xs_mem s) name (Z.of_nat (length k)) = Ret k.
Proof. apply read_at_Ret. by exists tl. Qed.

Lemma new_node_ok :
  entry_ok (xs_mem s) (i_blob (xs_x s)) new_node /\ name_of (xs_mem s) new_node = k /\
  val_of (xs_mem s) new_node = v /\ owned new_node = given.
Proof.
  assert (En : name_of (xs_mem s) new_node = k) by (unfold name_of; cbn; by rewrite name_read).
  assert (Ev : val_of (xs_mem s) new_node = v) by (unfold val_of; cbn; by rewrite Hval).
  split_and!; [|done|done|done]. constructor; rewrite ?En, ?Ev; cbn; try done. apply name_read.
Qed.

Lemma ptr_ids_frees free blob p : ptr_ok free blob p -> free = true -> exists i, p = PStr i.
Proof. destruct p as [b o|i|]; cbn; [by intros [-> _]|by eexists|by intros ->]. Qed.

(** A new name is linked at the leaf. *)
Lemma link_new q l1 l2 :
  inorder (i_index (xs_x s)) = l1 ++ l2 -> inorder (link_at q new_node (i_index (xs_x s))) = l1 ++ new_node :: l2 ->
  (forall x, x ∈ l1 -> lex_lt (name_of (xs_mem s) x) k) -> (forall x, x ∈ l2 -> lex_lt k (name_of (xs_mem s) x)) ->
  blob_size (put k v l) < 2 ^ 31 ->
  steps s (s <| xs_x ::= fun i => (i <| i_count ::= fun n => s32 (n + 1) |>
                                     <| i_names_size ::= fun n => s32 (n + Z.of_nat (length k)) |>
                                     <| i_vals_size ::= fun n => s32 (n + Z.of_nat (length v)) |>
                                     <| i_index ::= fun t => rb_insert_color q (link_at q new_node t) |>) |>)
    given (put k v l) (-1).
Proof.
  destruct Hix as [Hok Hown Hp Hc Hn Hv Hsz]. intros Hin Hin' H1 H2 Hsz'.
  destruct new_node_ok as (He & En & Ev & Eo).
  rewrite Hin in Hok, Hown, Hp.
  destruct (nodes_insert (xs_mem s) (i_blob (xs_x s)) l1 new_node l2 Hok He) as [Hok' Hp']; [by rewrite En|by rewrite En|].
  rewrite Hp, En, Ev in Hp'.
  destruct (sizes_middle (pairs (xs_mem s) l1) (k, v) (pairs (xs_mem s) l2)) as (S1 & S2 & S3).
  assert (E2 : put k v l = pairs (xs_mem s) l1 ++ (k, v) :: pairs (xs_mem s) l2).
  { rewrite <- Hp', pairs_app. cbn [pairs fmap list_fmap]. by rewrite En, Ev. }
  rewrite <- E2, <- pairs_app, Hp in S1, S2, S3. cbn [fst snd] in S1, S2, S3.
  pose proof (blob_size_bounds (put k v l)).
  unfold over. split; cbn [xs_x xs_mem xs_caps xs_log].
  - split; cbn [xs_x xs_mem i_index i_count i_names_size i_vals_size i_blob]; rewrite ?rb_insert_color_inorder, ?Hin'; try done.
    + apply owns_middle. rewrite Eo. split_and!; try done.
      * split; cbn; [by apply (ptr_ids_frees upd (i_blob (xs_x s)))|by apply (ptr_ids_frees has_val (i_blob (xs_x s)))].
      * intros i Hi. rewrite <- Hin. auto.
    + rewrite Hc, s32_small; lia.
    + rewrite Hn, s32_small; lia.
    + rewrite Hv, s32_small; lia.
  - done.
  - unfold spare. cbn [xs_x xs_mem i_index]. rewrite rb_insert_color_inorder, Hin', Hin, !length_app. cbn. lia.
  - intros i w [Hi Hno] Hg. unfold private in *. cbn [xs_x xs_mem i_index]. rewrite rb_insert_color_inorder, Hin'.
    split; [done|]. rewrite owned_all_middle, Eo, <- Hin. set_solver.
  - done.
Qed.

(** The memory after a value was replaced: the node the caller allocated, the
    old value and the caller's copy of the name are freed. *)
Definition freed_by (x : ceph_inode_xattr) : list nat :=
  free_ids (x_should_free_val x) (x_val x) ++ free_ids upd name.
Definition replaced (x : ceph_inode_xattr) : mem :=
  del_strs (freed_by x) ((xs_mem s) <| m_nodes ::= Z.pred |>).

Lemma filled_ok x :
  entry_ok (xs_mem s) (i_blob (xs_x s)) x -> x ∈ inorder (i_index (xs_x s)) ->
  entry_ok (replaced x) (i_blob (xs_x s)) (filled x) /\ name_of (replaced x) (filled x) = name_of (xs_mem s) x /\
  val_of (replaced x) (filled x) = v.
Proof.
  intros He Hx. destruct Hix as [_ [_ Hno _] _ _ _ _ _].
  apply list_elem_of_split in Hx as (l1 & l2 & Hin). rewrite Hin in Hno.
  rewrite owned_all_middle in Hno. apply NoDup_app in Hno as (Hox & _ & _).
  unfold owned in Hox. apply NoDup_app in Hox as (_ & Hox & _).
  assert (Hin' : forall i, i ∈ owned x -> i ∉ given).
  { intros i Hi Hg. apply (Hfresh i Hg). rewrite Hin, owned_all_middle. set_solver. }
  unfold given in Hnd, Hin'. apply NoDup_app in Hnd as (_ & Hdg & _). destruct He as [Hn Hz Hv Hfn Hfv].
  assert (Sn : same_object (xs_mem s) (replaced x) (x_name x)).
  { destruct (x_name x) as [b o|i|] eqn:En; [done| |done]. cbn in Hfn. unfold same_object, replaced.
    rewrite del_strs_lookup, decide_False; [done|]. unfold freed_by. intros [Hi|Hi]%elem_of_app.
    - apply (Hox i); [rewrite Hfn; cbn; set_solver|done].
    - apply (Hin' i); [unfold owned; rewrite En, Hfn; cbn; set_solver|set_solver]. }
  assert (Sv : same_object (xs_mem s) (replaced x) (default PNul val)).
  { destruct (default PNul val) as [b o|i|] eqn:Ed; [done| |done]. cbn in Hpv. unfold same_object, replaced.
    rewrite del_strs_lookup, decide_False; [done|]. unfold freed_by. intros [Hi|Hi]%elem_of_app.
    - apply (Hin' i); [unfold owned, free_ids in *; set_solver|rewrite Hpv; cbn; set_solver].
    - apply (Hdg i); [done|rewrite Hpv; cbn; set_solver]. }
  assert (En : name_of (replaced x) (filled x) = name_of (xs_mem s) x).
  { unfold name_of. cbn. by rewrite (read_at_same _ _ _ _ Sn). }
  assert (Ev : val_of (replaced x) (filled x) = v).
  { unfold val_of. cbn. by rewrite (read_at_same _ _ _ _ Sv), Hval. }
  split_and!; [|done|done]. constructor; rewrite ?En, ?Ev; cbn; try done.
  - by rewrite (read_at_same _ _ _ _ Sn).
  - by rewrite (read_at_same _ _ _ _ Sv), Hval.
Qed.

(** The strings the node owns afterwards. *)
Lemma owned_filled x :
  x ∈ inorder (i_index (xs_x s)) -> forall i, i ∈ owned (filled x) ->
  (i ∉ freed_by x) /\ is_Some (m_strs (xs_mem s) !! i) /\ (i ∈ owned x \/ i ∈ given) /\ NoDup (owned (filled x)).
Proof.
  intros Hx i Hi. destruct Hix as [_ [_ Hno Hl] _ _ _ _ _].
  apply list_elem_of_split in Hx as (l1 & l2 & Hin). rewrite Hin in Hno, Hl. rewrite owned_all_middle in Hno.
  apply NoDup_app in Hno as (Hox & _ & _). unfold owned in Hox. apply NoDup_app in Hox as (Hx1 & Hx2 & _).
  assert (Hgx : forall j, j ∈ owned x -> j ∉ given).
  { intros j Hj Hg. apply (Hfresh j Hg). rewrite Hin, owned_all_middle. set_solver. }
  change (owned (filled x)) with (free_ids (x_should_free_name x) (x_name x) ++ free_ids has_val (default PNul val)) in *.
  unfold given in Hnd, Hgx |- *. apply NoDup_app in Hnd as (_ & Hd1 & Hd2). unfold freed_by, owned in *.
  assert (Hlx : forall j, j ∈ owned x -> is_Some (m_strs (xs_mem s) !! j)).
  { intros j Hj. apply Hl. rewrite owned_all_middle. set_solver. }
  unfold owned in Hlx. split_and!.
  - apply elem_of_app in Hi as [Hi|Hi]; rewrite elem_of_app; intros [?|?]; set_solver.
  - apply elem_of_app in Hi as [Hi|Hi]; [apply Hlx|apply Hlive]; unfold given; set_solver.
  - set_solver.
  - apply NoDup_app. split_and!; [done| |done]. intros j Hj Hj'. set_solver.
Qed.

(** A length taken out of a sum and another one put in. *)
Lemma s32_swap r a b : 0 <= r -> 0 <= a -> 0 <= b -> r + a < 2 ^ 31 -> r + b < 2 ^ 31 -> s32 (s32 (r + a - a) + b) = r + b.
Proof. intros. rewrite (s32_small (r + a - a)), s32_small; lia. Qed.

(** A name that is there gets the new value. *)
Lemma replace_val q x :
  at_path q (i_index (xs_x s)) = Some x -> name_of (xs_mem s) x = k -> blob_size (put k v l) < 2 ^ 31 ->
  steps s (s <| xs_mem := replaced x |>
             <| xs_x ::= fun i => (i <| i_names_size ::= fun n => s32 (s32 (n - x_name_len x) + Z.of_nat (length k)) |>
                                     <| i_vals_size ::= fun n => s32 (s32 (n - x_val_len x) + Z.of_nat (length v)) |>
                                     <| i_index ::= update_path q (filled x) |>) |>)
    given (put k v l) (-1).
Proof.
  intros Hx Ek Hsz'. pose proof (inorder_path _ _ _ Hx) as Hin.
  set (l1 := before q (i_index (xs_x s))) in *. set (l2 := after q (i_index (xs_x s))) in *.
  pose proof Hix as [Hok Hown Hp Hc Hn Hv Hsz]. rewrite Hin in Hok, Hown, Hp.
  pose proof Hok as (Hr & He & _ & _)%nodes_middle. pose proof Hown as (Ho' & Hf & Hox & Hol & Hod)%owns_middle.
  destruct (filled_ok x He) as (Hw & Enw & Evw); [rewrite Hin; set_solver|].
  destruct (entry_lens _ _ _ He) as [El1 El2]. rewrite Ek in El1.
  assert (Hgx : forall i, i ∈ owned x \/ i ∈ owned_all (l1 ++ l2) -> i ∉ given).
  { intros i Hi Hg. apply (Hfresh i Hg). by rewrite Hin, owned_all_middle, elem_of_app. }
  assert (Hkeep : forall i, i ∉ owned x -> i ∉ given -> i ∉ freed_by x) by (unfold freed_by, owned, given; set_solver).
  pose proof (owned_filled x ltac:(rewrite Hin; set_solver)) as Hof.
  assert (Hsame : same_for (xs_mem s) (replaced x) (i_blob (xs_x s)) (owned_all (l1 ++ l2))).
  { split; [done|]. intros i Hi. unfold replaced. rewrite del_strs_lookup, decide_False; [done|].
    apply Hkeep; [intros Hi'; by apply (Hod i)|by apply Hgx; right]. }
  destruct (nodes_replace _ _ _ _ _ _ _ Hok Hsame Hw Enw) as [Hok' Hp']. rewrite Hp, Ek, Evw in Hp'.
  pose proof (inorder_update _ _ _ (filled x) Hx) as Hin'. fold l1 l2 in Hin'.
  assert (Hlen : length (put k v l) = length l) by (rewrite <- Hp', <- Hp; unfold pairs; by rewrite !length_fmap, !length_app).
  destruct (sizes_middle (pairs (xs_mem s) l1) (k, val_of (xs_mem s) x) (pairs (xs_mem s) l2)) as (S1 & S2 & _).
  destruct (sizes_middle (pairs (xs_mem s) l1) (k, v) (pairs (xs_mem s) l2)) as (T1 & T2 & _).
  assert (E1 : l = pairs (xs_mem s) l1 ++ (k, val_of (xs_mem s) x) :: pairs (xs_mem s) l2)
    by (rewrite <- Hp, <- Ek; apply pairs_app).
  assert (E2 : put k v l = pairs (xs_mem s) l1 ++ (k, v) :: pairs (xs_mem s) l2).
  { rewrite E1, put_found; [done|]. rewrite <- Ek. apply (around _ _ _ _ _ Hok). }
  rewrite <- E1 in S1, S2. rewrite <- E2 in T1, T2. cbn [fst snd] in *.
  pose proof (blob_size_bounds (put k v l)). pose proof (blob_size_bounds l).
  pose proof (sizes_nonneg (pairs (xs_mem s) l1 ++ pairs (xs_mem s) l2)).
  unfold over. split; cbn [xs_x xs_mem xs_caps xs_log].
  - split; cbn [xs_x xs_mem i_index i_count i_names_size i_vals_size i_blob]; rewrite ?Hin'; try done.
    + apply owns_middle. split_and!.
      * apply (owns_same (xs_mem s)); [done|]. by destruct Hsame.
      * split; [by destruct Hf|]. by apply (ptr_ids_frees has_val (i_blob (xs_x s))).
      * destruct (owned (filled x)) as [|i o] eqn:Eo; [constructor|]. rewrite <- Eo in *. apply (Hof i). rewrite Eo. by left.
      * intros i Hi. unfold replaced. destruct (Hof i Hi) as (? & ? & _). by rewrite del_strs_lookup, decide_False.
      * intros i Hi. destruct (Hof i Hi) as (_ & _ & [?|Hg] & _); [by apply Hod|]. intros Hi'. by apply (Hgx i); [right|].
    + by rewrite Hlen.
    + rewrite Hn, T1, S1, El1. apply s32_swap; lia.
    + rewrite Hv, T2, S2, El2. apply s32_swap; lia.
  - done.
  - unfold spare. cbn [xs_x xs_mem i_index]. rewrite Hin', Hin. unfold replaced, del_strs, over. cbn.
    rewrite !length_app. cbn. lia.
  - intros i w [Hi Hno] Hg. unfold private in *. cbn [xs_x xs_mem i_index]. rewrite Hin'.
    rewrite Hin, owned_all_middle in Hno. unfold replaced.
    rewrite elem_of_app in Hno. rewrite del_strs_lookup, decide_False by (apply Hkeep; tauto).
    split; [done|]. rewrite owned_all_middle. intros [Hi'|Hi']%elem_of_app; [|tauto].
    destruct (Hof i Hi') as (_ & _ & [?|?] & _); tauto.
  - intros i. apply (del_strs_dom (freed_by x)).
Qed.

Lemma descend_cases :
  (exists q x, descend (set_cmp (xs_mem s) name (Z.of_nat (length k))) (i_index (xs_x s)) [] = Ret (q, Some x) /\
     at_path q (i_index (xs_x s)) = Some x /\ name_of (xs_mem s) x = k /\ look k l = Some (val_of (xs_mem s) x)) \/
  (exists q, descend (set_cmp (xs_mem s) name (Z.of_nat (length k))) (i_index (xs_x s)) [] = Ret (q, None) /\
     look k l = None /\ forall new, exists l1 l2, inorder (i_index (xs_x s)) = l1 ++ l2 /\
     inorder (link_at q new (i_index (xs_x s))) = l1 ++ new :: l2 /\
     (forall x, x ∈ l1 -> lex_lt (name_of (xs_mem s) x) k) /\ (forall x, x ∈ l2 -> lex_lt k (name_of (xs_mem s) x))).
Proof.
  destruct Hix as [Hok _ Hp _ _ _ _].
  destruct (index_descend (set_cmp (xs_mem s) name (Z.of_nat (length k))) _ _ _ k Hok Hk)
    as [(q & x & Hd & Hq & Hx)|(q & Hd & Hl)].
  { intros x. by eapply set_cmp_agrees. }
  - left. exists q, x. split_and!; try done. pose proof (inorder_path _ _ _ Hq) as Hin. rewrite Hin in Hok, Hp.
    rewrite <- Hp, pairs_app. cbn [pairs fmap list_fmap]. rewrite Hx. apply look_found. intros a Ha.
    rewrite <- Hx. by destruct (lex_ne _ _ (proj1 (around _ _ _ _ _ Hok) a Ha)).
  - right. exists q. split_and!; try done. destruct (Hl new_node) as (l1 & l2 & Hin & _ & H1 & H2).
    rewrite <- Hp. apply look_None. intros a (x & Hx & ->)%pairs_elem. cbn. rewrite Hin in Hx.
    apply elem_of_app in Hx as [Hx|Hx]; [by destruct (lex_ne _ _ (H1 x Hx))|by destruct (lex_ne _ _ (H2 x Hx))].
Qed.

Definition no_conflict : Prop :=
  match look k l with Some _ => Z.testbit flags 0 = false | None => Z.testbit flags 1 = false end.

Lemma err_none (x : option ceph_inode_xattr) :
  (upd = true -> match x with Some _ => Z.testbit flags 0 = false | None => Z.testbit flags 1 = false end) ->
  (if update_xattr =? 0 then 0
   else match x with
        | Some _ => if Z.testbit flags 0 then - EEXIST else 0
        | None => if Z.testbit flags 1 then - ENODATA else 0
        end) = 0.
Proof.
  unfold update_xattr. destruct upd; [|done]. intros Hc. specialize (Hc eq_refl). destruct x; by rewrite Hc.
Qed.

(** The attribute is set. *)
Lemma wp_set_put :
  (upd = true -> no_conflict) -> blob_size (put k v l) < 2 ^ 31 ->
  wp (__set_xattr name (Z.of_nat (length k)) val (Z.of_nat (length v)) flags update_xattr)
    (fun r w => r = 0 /\ exists s', w = (ws, s') /\ steps s s' given (put k v l) (-1)) (ws, s).
Proof.
  intros Hc Hsz. unfold __set_xattr. apply wp_bind, wp_getx, wp_bind, wp_getmem.
  unfold no_conflict in Hc. destruct descend_cases as [(q & x & Hd & Hq & Hx & Hl)|(q & Hd & Hl & Hlk)];
    rewrite Hl in Hc; apply wp_bind; (eapply wp_lift; [exact Hd|]); cbv beta iota zeta.
  - rewrite (err_none (Some x)) by done. change (negb (0 =? 0)) with false. cbv iota.
    replace (update_xattr <? 0) with false by (unfold update_xattr; by destruct upd). cbv iota.
    pose proof (inorder_path _ _ _ Hq) as Hin. destruct Hix as [Hok [Hf Hno Hol] _ _ _ _ _]. rewrite Hin in Hok, Hf, Hno, Hol.
    apply Forall_app in Hf as [_ [[_ Hfv] _]%Forall_cons].
    replace (negb (update_xattr =? 0)) with upd by (unfold update_xattr; by destruct upd).
    apply wp_bind, wp_kfree_node, wp_bind, wp_free_if; [done| |].
    { intros i Hi. apply Hol. rewrite owned_all_middle. unfold owned. set_solver. }
    apply wp_bind, wp_free_if; [by apply (ptr_ids_frees upd (i_blob (xs_x s)))| |].
    { intros i Hi. assert (Hig : i ∈ given) by (unfold given; set_solver).
      change (xs_mem _) with (del_strs (free_ids (x_should_free_val x) (x_val x)) ((xs_mem s) <| m_nodes ::= Z.pred |>)).
      rewrite del_strs_lookup, decide_False; [by apply Hlive|]. intros Hi'. apply (Hfresh i Hig).
      rewrite Hin, owned_all_middle. unfold owned. set_solver. }
    apply wp_bind. unfold modx. apply wp_mod, wp_bind, wp_mod, wp_ret. split; [done|]. eexists. split; [done|].
    pose proof (replace_val q x Hq Hx Hsz) as Hst. unfold replaced, freed_by in Hst. rewrite <- del_strs_app in Hst.
    unfold over in Hst |- *. exact Hst.
  - rewrite (err_none None) by done. change (negb (0 =? 0)) with false. cbv iota.
    replace (update_xattr <? 0) with false by (unfold update_xattr; by destruct upd). cbv iota.
    replace (negb (update_xattr =? 0)) with upd by (unfold update_xattr; by destruct upd).
    apply wp_bind. unfold modx. apply wp_mod, wp_bind, wp_mod, wp_ret. split; [done|]. eexists. split; [done|].
    destruct (Hlk new_node) as (l1 & l2 & Hin & Hin' & H1 & H2). exact (link_new q l1 l2 Hin Hin' H1 H2 Hsz).
Qed.

(** A flag that does not fit: the strings are freed, the node is not. *)
Lemma wp_set_conflict u :
  upd = true -> u = 1 \/ u = -1 -> (is_Some val -> has_val = true) -> ~ no_conflict ->
  wp (__set_xattr name (Z.of_nat (length k)) val (Z.of_nat (length v)) flags u)
    (fun r w => r = match look k l with Some _ => - EEXIST | None => - ENODATA end /\
       exists s', w = (ws, s') /\ steps s s' given l 0) (ws, s).
Proof.
  intros Hu Hu' Hhv Hc. unfold __set_xattr. apply wp_bind, wp_getx, wp_bind, wp_getmem.
  assert (E0 : (u =? 0) = false) by (destruct Hu' as [-> | ->]; done).
  assert (Hbit : exists q x, descend (set_cmp (xs_mem s) name (Z.of_nat (length k))) (i_index (xs_x s)) [] = Ret (q, x) /\
    match x with
    | Some _ => if Z.testbit flags 0 then - EEXIST else 0
    | None => if Z.testbit flags 1 then - ENODATA else 0
    end = match look k l with Some _ => - EEXIST | None => - ENODATA end).
  { unfold no_conflict in Hc. destruct descend_cases as [(q & x & Hd & _ & _ & Hl)|(q & Hd & Hl & _)]; rewrite Hl in Hc |- *.
    - exists q, (Some x). split; [done|]. by destruct (Z.testbit flags 0).
    - exists q, None. split; [done|]. by destruct (Z.testbit flags 1). }
  destruct Hbit as (q & x & Hd & He). apply wp_bind. eapply wp_lift; [exact Hd|]. cbv beta iota zeta. rewrite E0, He.
  assert (Hne : negb (match look k l with Some _ => - EEXIST | None => - ENODATA end =? 0) = true) by (by destruct (look k l)).
  rewrite Hne. unfold given in Hnd, Hlive, Hfresh |- *. rewrite Hu in *. pose proof Hnd as (_ & Hdis & _)%NoDup_app.
  destruct (ptr_ids_frees _ _ _ Hpn eq_refl) as [i ->].
  apply wp_bind, wp_on_mem, (wp_kfree _ [i]); [done|done|intros j Hj; apply Hlive; cbn; set_solver|].
  apply wp_bind, wp_on_mem. unfold kfree_opt.
  pose proof (steps_free s l _ Hix Hfresh) as Hst. cbn [free_ids ptr_ids app] in Hst.
  destruct val as [p|].
  - rewrite (Hhv ltac:(done)) in Hlive, Hpv, Hdis, Hst |- *. destruct (ptr_ids_frees _ _ _ Hpv eq_refl) as [j Ej]. cbn in Ej. subst p.
    apply (wp_kfree _ [j]); [done|done| |].
    + intros j' Hj'. change (xs_mem _) with (del_strs [i] (xs_mem s)). rewrite del_strs_lookup, decide_False.
      * apply Hlive. cbn. set_solver.
      * intros Hin. by apply (Hdis j').
    + assert (Hst2 : steps s (s <| xs_mem ::= del_strs ([i] ++ [j]) |>) ([i] ++ [j]) l 0) by exact Hst.
      unfold over in Hst2. rewrite <- del_strs_app in Hst2. apply wp_ret. split; [done|]. by eexists.
  - replace (free_ids has_val (default PNul None)) with (@nil nat) in Hst |- * by (by destruct has_val).
    apply wp_ret. split; [done|]. eexists. split; [done|]. exact Hst.
Qed.

(** With a NULL value the attribute is removed. *)
Lemma wp_set_remove :
  upd = true -> val = None -> no_conflict ->
  wp (__set_xattr name (Z.of_nat (length k)) val (Z.of_nat (length v)) flags (-1))
    (fun r w => r = 0 /\ exists s', w = (ws, s') /\ steps s s' given (del k l) 0) (ws, s).
Proof.
  intros Hu Hv Hc. unfold __set_xattr. apply wp_bind, wp_getx, wp_bind, wp_getmem.
  assert (Hg : given = free_ids true name) by (unfold given, has_val; rewrite Hu, Hv; apply app_nil_r).
  rewrite Hg in *. unfold no_conflict in Hc. rewrite Hu in Hpn. destruct (ptr_ids_frees _ _ _ Hpn eq_refl) as [i Ei].
  assert (Hfree : forall s1 l', steps s s1 [] l' 0 -> wp (_ ↢ on_mem (kfree name); sret 0)
    (fun r w => r = 0 /\ exists s', w = (ws, s') /\ steps s s' (free_ids true name) l' 0) (ws, s1)).
  { intros s1 l' Hst. destruct (Hlive i) as [b Hb]; [rewrite Ei; cbn; set_solver|].
    destruct (st_private _ _ _ _ _ Hst i b) as [Hb1 Hb2]; [|set_solver|].
    { split; [done|]. apply Hfresh. rewrite Ei. cbn. set_solver. }
    rewrite Ei. apply wp_bind, wp_on_mem, (wp_kfree _ [i]); [done|done| |].
    { intros j ->%list_elem_of_singleton. by eexists. }
    apply wp_ret. split; [done|]. eexists. split; [done|]. 
    apply (steps_trans s s1 _ [] [i] l' l' 0 0 Hst). apply (steps_free s1 l' [i]); [apply Hst|]. by intros j ->%list_elem_of_singleton. }
  destruct descend_cases as [(q & x & Hd & Hq & Hx & Hl)|(q & Hd & Hl & Hlk)]; rewrite Hl in Hc; apply wp_bind;
    (eapply wp_lift; [exact Hd|]); cbv beta iota zeta; change (-1 =? 0) with false; change (-1 <? 0) with true; rewrite Hc;
    change (negb (0 =? 0)) with false; cbv iota; apply wp_bind.
  - apply wp_bind. eapply wp_mono; [by apply wp_remove_xattr|]. cbv beta. intros r w (-> & s1 & -> & Hst). apply wp_ret.
    rewrite Hx in Hst. by apply Hfree.
  - apply wp_ret, Hfree. rewrite del_none.
    + split; [done|done|lia|done|done].
    + intros a Ha Ek. destruct Hix as [Hok _ Hp _ _ _ _]. rewrite <- Hp in Ha. apply pairs_elem in Ha as (x & Hx & ->).
      destruct (Hlk new_node) as (l1 & l2 & Hin & _ & H1 & H2). rewrite Hin in Hx. cbn in Ek.
      apply elem_of_app in Hx as [Hx|Hx]; [by destruct (lex_ne _ _ (H1 x Hx))|by destruct (lex_ne _ _ (H2 x Hx))].
Qed.
End SetXattr.

(** ** Lookups *)
Lemma get_cases s l k :
  indexed (xs_x s) (xs_mem s) l -> nul_free k ->
  (exists q x, descend (get_cmp (xs_mem s) k) (i_index (xs_x s)) [] = Ret (q, Some x) /\
     at_path q (i_index (xs_x s)) = Some x /\ name_of (xs_mem s) x = k /\ look k l = Some (val_of (xs_mem s) x) /\
     entry_ok (xs_mem s) (i_blob (xs_x s)) x) \/
  (exists q, descend (get_cmp (xs_mem s) k) (i_index (xs_x s)) [] = Ret (q, None) /\ look k l = None).
Proof.
  intros [Hok _ Hp _ _ _ _] Hk.
  destruct (index_descend (get_cmp (xs_mem s) k) _ _ _ k Hok Hk) as [(q & x & Hd & Hq & Hx)|(q & Hd & Hl)].
  { intros x. by eapply get_cmp_agrees. }
  - left. exists q, x. pose proof (inorder_path _ _ _ Hq) as Hin. rewrite Hin in Hok, Hp. split_and!; try done.
    + rewrite <- Hp, pairs_app. cbn [pairs fmap list_fmap]. rewrite Hx. apply look_found. intros a Ha.
      rewrite <- Hx. by destruct (lex_ne _ _ (proj1 (around _ _ _ _ _ Hok) a Ha)).
    + by apply nodes_middle in Hok as (_ & ? & _).
  - right. exists q. split; [done|]. destruct (Hl (InodeXattr PNul 0 PNul 0 0 false false)) as (l1 & l2 & Hin & _ & H1 & H2).
    rewrite <- Hp. apply look_None. intros a (x & Hx & ->)%pairs_elem. cbn. rewrite Hin in Hx.
    apply elem_of_app in Hx as [Hx|Hx]; [by destruct (lex_ne _ _ (H1 x Hx))|by destruct (lex_ne _ _ (H2 x Hx))].
Qed.

(** [__get_xattr] changes nothing and finds the attribute. *)
Lemma wp_get_xattr ws s l k :
  indexed (xs_x s) (xs_mem s) l -> nul_free k ->
  wp (__get_xattr k) (fun r w => w = (ws, s) /\
    match r with
    | Some (q, x) => at_path q (i_index (xs_x s)) = Some x /\ name_of (xs_mem s) x = k /\
        look k l = Some (val_of (xs_mem s) x) /\ entry_ok (xs_mem s) (i_blob (xs_x s)) x
    | None => look k l = None
    end) (ws, s).
Proof.
  intros Hix Hk. unfold __get_xattr. apply wp_bind, wp_getx, wp_bind, wp_getmem, wp_bind.
  destruct (get_cases s l k Hix Hk) as [(q & x & Hd & Hq & Hx & Hl & He)|(q & Hd & Hl)];
    (eapply wp_lift; [exact Hd|]); cbv beta iota; apply wp_ret; done.
Qed.

(** [__remove_xattr_by_name] *)
Lemma wp_remove_by_name ws s l k :
  indexed (xs_x s) (xs_mem s) l -> nul_free k ->
  wp (__remove_xattr_by_name k) (fun r w => r = (match look k l with Some _ => 0 | None => - ENODATA end) /\
    exists s', w = (ws, s') /\ steps s s' [] (del k l) 0) (ws, s).
Proof.
  intros Hix Hk. unfold __remove_xattr_by_name. apply wp_bind. eapply wp_mono; [by apply wp_get_xattr|].
  intros [[q x]|] w [-> Hr].
  - destruct Hr as (Hq & Hx & Hl & _). rewrite Hl, <- Hx. by apply wp_remove_xattr.
  - rewrite Hr. cbn [__remove_xattr]. apply wp_ret. split; [done|]. eexists. split; [done|]. rewrite del_none.
    + split; [done|done|lia|done|done].
    + intros a Ha Ek. unfold look in Hr. apply fmap_None in Hr. apply list_elem_of_In in Ha.
      pose proof (find_none _ _ Hr a Ha) as Hf. cbn in Hf. by rewrite bool_decide_true in Hf.
Qed.
End Ops.
