(* ===== verification/XattrBlob.v ===== *)
(** * The blob of extended attributes

    [blob_of l] is the wire format of an attribute list; [parse l] the sorted list
    an index built from it holds (a name that comes twice has its last value).
    [__build_xattrs] takes a blob that holds [l] to an index of [parse l], and
    [__ceph_build_xattrs_blob] writes an index of [l] as [blob_of l]. *)
From S2P Require Import Prelude.
From S2P Require Import Wire.
From S2P Require Import RbTree.
From S2P Require Import StateM.
From S2P Require Import Buffer.
From S2P Require Import OsdMap.
From S2P Require Import FileLayout.
From S2P Require Import VXattr.
From S2P Require Import Xattr.
From S2P Require Import XattrIndex.
From S2P Require Import XattrOps.
From stdpp Require Import fin_maps gmap sorting.
#[local] Open Scope Z_scope.
#[local] Open Scope ceph_scope.
#[local] Open Scope st_scope.

Definition len32 (l : list Z) : list Z := le_bytes 4 (Z.of_nat (length l)).
Definition enc_attr (a : list Z * list Z) : list Z := len32 a.1 ++ a.1 ++ len32 a.2 ++ a.2.
Definition enc_attrs (l : list (list Z * list Z)) : list Z := mbind enc_attr l.
Definition blob_of (l : list (list Z * list Z)) : list Z := le_bytes 4 (Z.of_nat (length l)) ++ enc_attrs l.

Definition put_all (acc l : list (list Z * list Z)) : list (list Z * list Z) := foldl (fun acc a => put a.1 a.2 acc) acc l.
Definition parse (l : list (list Z * list Z)) : list (list Z * list Z) := put_all [] l.

Lemma enc_attr_length a : Z.of_nat (length (enc_attr a)) = 8 + Z.of_nat (length a.1) + Z.of_nat (length a.2).
Proof. unfold enc_attr, len32. rewrite !length_app, !length_le_bytes. lia. Qed.

Lemma blob_size_cons a l : blob_size (a :: l) = 8 + Z.of_nat (length a.1) + Z.of_nat (length a.2) + blob_size l.
Proof. unfold blob_size, names_size, vals_size. cbn. lia. Qed.

Lemma enc_attrs_length l : Z.of_nat (length (enc_attrs l)) = blob_size l - 4.
Proof.
  induction l as [|a l IH]; [done|]. change (enc_attrs (a :: l)) with (enc_attr a ++ enc_attrs l).
  rewrite length_app, blob_size_cons, Nat2Z.inj_add, enc_attr_length. lia.
Qed.

Lemma blob_of_length l : Z.of_nat (length (blob_of l)) = blob_size l.
Proof. unfold blob_of. rewrite length_app, length_le_bytes. pose proof (enc_attrs_length l). lia. Qed.

Lemma put_size k v l : blob_size (put k v l) <= blob_size l + 8 + Z.of_nat (length k) + Z.of_nat (length v).
Proof.
  induction l as [|[n w] l IH]; cbn [put]; [rewrite blob_size_cons; cbn; lia|].
  repeat case_Zb; rewrite ?blob_size_cons in *; cbn [fst snd] in *; lia.
Qed.

(** The attributes the MDS sent, as they stand in the blob.  A blob of four bytes
    or none at all holds no attribute. *)
Definition attr_list (l : list (list Z * list Z)) : Prop :=
  Forall (fun a => nul_free a.1) l /\ blob_size l < 2 ^ 31.
Definition blob_holds (m : mem) (blob : option nat) (l : list (list Z * list Z)) : Prop :=
  match blob with
  | None => l = []
  | Some b => exists buf, m_bufs m !! b = Some buf /\ Z.of_nat (length (b_base buf)) = b_alloc_len buf /\
      0 <= b_iov_len buf <= b_alloc_len buf /\
      if 4 <? b_iov_len buf then take (Z.to_nat (b_iov_len buf)) (b_base buf) = blob_of l /\ l <> [] else l = []
  end.

Section Blob.
Context `{RbOps} `{Caps} (kmalloc_ok : nat -> Z -> bool).

(** ** Reading *)
Lemma bytes_at_split m b buf pre tl :
  m_bufs m !! b = Some buf -> b_base buf = pre ++ tl -> bytes_at m (PBuf b (Z.of_nat (length pre))) = Ret tl.
Proof.
  intros Hb Hs. cbn. rewrite Hb, Hs, length_app, Nat2Z.id, drop_app_length. repeat case_Zb; try lia. done.
Qed.

Lemma wp_decode_32 (Q : option Z -> list window * xstate -> Prop) ws s b buf pre x tl end_ :
  m_bufs (xs_mem s) !! b = Some buf -> b_base buf = pre ++ le_bytes 4 x ++ tl -> 0 <= x < 2 ^ 32 ->
  Z.of_nat (length pre) + 4 <= end_ -> Q (Some x) (ws, s) -> wp (blob_decode_32 b (Z.of_nat (length pre)) end_) Q (ws, s).
Proof.
  intros Hb Hs Hx Hp HQ. unfold blob_decode_32. replace (ceph_has_room _ _ _) with true.
  2:{ unfold ceph_has_room. repeat case_Zb; lia. }
  apply wp_bind, wp_getmem, wp_bind. eapply wp_lift.
  - apply read_at_Ret. exists tl. split; [by eapply bytes_at_split|]. by rewrite length_le_bytes.
  - apply wp_ret. by rewrite le_val_le_bytes.
Qed.

(** ** Parsing *)
Lemma steps_refl s l : indexed (xs_x s) (xs_mem s) l -> steps s s [] l 0.
Proof. intros Hi. split; [done|done|lia|done|done]. Qed.

Lemma rest_bufs s s' : rest s' = rest s -> m_bufs (xs_mem s') = m_bufs (xs_mem s) /\ i_blob (xs_x s') = i_blob (xs_x s).
Proof. unfold rest. by intros [= -> _ _ _ _ -> _ _ _ _]. Qed.

(** One attribute of the blob goes into the index. *)
Lemma wp_set_parsed ws s acc b buf pre n v tl :
  indexed (xs_x s) (xs_mem s) acc -> i_blob (xs_x s) = Some b -> m_bufs (xs_mem s) !! b = Some buf ->
  b_base buf = pre ++ enc_attr (n, v) ++ tl -> nul_free n -> blob_size (put n v acc) < 2 ^ 31 ->
  wp (__set_xattr (PBuf b (Z.of_nat (length pre) + 4)) (Z.of_nat (length n))
        (Some (PBuf b (Z.of_nat (length pre) + 4 + Z.of_nat (length n) + 4))) (Z.of_nat (length v)) 0 0)
    (fun r w => r = 0 /\ exists s', w = (ws, s') /\ steps s s' [] (put n v acc) (-1)) (ws, s).
Proof.
  intros Hix Hblob Hb Hs Hn Hsz.
  assert (E1 : b_base buf = (pre ++ len32 n) ++ n ++ len32 v ++ v ++ tl) by (rewrite Hs; unfold enc_attr; cbn; by rewrite <- !app_assoc).
  assert (E2 : b_base buf = (pre ++ len32 n ++ n ++ len32 v) ++ v ++ tl) by (rewrite E1, <- !app_assoc; done).
  pose proof (bytes_at_split (xs_mem s) b buf _ _ Hb E1) as B1. pose proof (bytes_at_split (xs_mem s) b buf _ _ Hb E2) as B2.
  unfold len32 in B1, B2. rewrite !length_app, !length_le_bytes in B1. rewrite !length_app, !length_le_bytes in B2.
  replace (Z.of_nat (length pre + 4)) with (Z.of_nat (length pre) + 4) in B1 by lia.
  replace (Z.of_nat (length pre + (4 + (length n + 4)))) with (Z.of_nat (length pre) + 4 + Z.of_nat (length n) + 4) in B2 by lia.
  refine (wp_set_put ws s acc _ n _ (Some _) v false 0 Hix Hn B1 _ _ _ _ _ _ _ Hsz).
  - apply read_at_Ret. by eexists.
  - cbn. by rewrite Hblob.
  - cbn. by rewrite Hblob.
  - constructor.
  - intros i Hi. by apply elem_of_nil in Hi.
  - intros i Hi. by apply elem_of_nil in Hi.
  - done.
Qed.

Lemma wp_build_loop ws b buf tl : forall l s acc pre err,
  indexed (xs_x s) (xs_mem s) acc -> i_blob (xs_x s) = Some b -> m_bufs (xs_mem s) !! b = Some buf ->
  b_base buf = pre ++ enc_attrs l ++ tl -> Forall (fun a => nul_free a.1) l ->
  blob_size acc + (blob_size l - 4) < 2 ^ 31 ->
  wp (build_loop (length l) b (Z.of_nat (length pre)) (Z.of_nat (length pre) + Z.of_nat (length (enc_attrs l))) err)
    (fun r w => r = (match l with [] => err | _ => 0 end, None) /\
       exists s', w = (ws, s') /\ steps s s' [] (put_all acc l) (- Z.of_nat (length l))) (ws, s).
Proof.
  induction l as [|[n v] l IH]; intros s acc pre err Hix Hblob Hb Hs Hl Hsz; cbn [build_loop length].
  { apply wp_ret. split; [done|]. exists s. split; [done|]. by apply steps_refl. }
  apply Forall_cons in Hl as [Hn Hl]. rewrite blob_size_cons in Hsz. cbn [fst snd] in Hsz, Hn.
  pose proof (put_size n v acc) as Hput. pose proof (blob_size_bounds acc). pose proof (blob_size_bounds l).
  assert (Hel : enc_attrs ((n, v) :: l) = enc_attr (n, v) ++ enc_attrs l) by done.
  rewrite Hel, <- app_assoc in Hs. rewrite Hel, length_app, Nat2Z.inj_add, enc_attr_length. cbn [fst snd].
  set (end_ := Z.of_nat (length pre) + _). unfold enc_attr in Hs. cbn [fst snd] in Hs. rewrite <- !app_assoc in Hs.
  assert (4 <= blob_size l) by (unfold blob_size in *; lia). assert (4 <= blob_size acc) by (unfold blob_size in *; lia).
  apply wp_bind. eapply wp_decode_32; [exact Hb|exact Hs|lia|lia|]. cbv beta iota zeta.
  apply wp_bind. replace (Z.of_nat (length pre) + 4 + Z.of_nat (length n)) with (Z.of_nat (length (pre ++ len32 n ++ n)))
    by (unfold len32; rewrite !length_app, length_le_bytes; lia).
  eapply wp_decode_32; [exact Hb|rewrite Hs, <- !app_assoc; reflexivity|lia| |].
  { unfold len32. rewrite !length_app, length_le_bytes. lia. }
  cbv beta iota zeta. rewrite !s32_small by lia.
  replace (Z.of_nat (length (pre ++ len32 n ++ n))) with (Z.of_nat (length pre) + 4 + Z.of_nat (length n))
    by (unfold len32; rewrite !length_app, length_le_bytes; lia).
  apply wp_bind. eapply wp_mono; [apply (wp_set_parsed ws s acc b buf pre n v (enc_attrs l ++ tl)); try done|].
  { unfold enc_attr. cbn [fst snd]. by rewrite <- !app_assoc. }
  { lia. }
  intros r w (-> & s1 & -> & Hst). change (0 <? 0) with false. cbv iota.
  destruct (rest_bufs s s1 (st_rest _ _ _ _ _ Hst)) as [Eb Ebl].
  specialize (IH s1 (put n v acc) (pre ++ enc_attr (n, v)) 0). rewrite Eb, Ebl in IH.
  rewrite length_app, Nat2Z.inj_add, enc_attr_length in IH. cbn [fst snd] in IH.
  replace (Z.of_nat (length pre) + 4 + Z.of_nat (length n) + 4 + Z.of_nat (length v))
    with (Z.of_nat (length pre) + (8 + Z.of_nat (length n) + Z.of_nat (length v))) by lia.
  replace end_ with (Z.of_nat (length pre) + (8 + Z.of_nat (length n) + Z.of_nat (length v)) + Z.of_nat (length (enc_attrs l)))
    by (unfold end_; lia).
  eapply wp_mono; [apply IH; try done|].
  - apply Hst.
  - rewrite Hs. unfold enc_attr. cbn [fst snd]. by rewrite <- !app_assoc.
  - lia.
  - intros r w (-> & s2 & -> & Hst2). split; [by destruct l|]. exists s2. split; [done|].
    replace (- Z.of_nat (S (length l))) with (-1 + - Z.of_nat (length l)) by lia.
    by apply (steps_trans s s1 s2 [] [] _ _ _ _ Hst).
Qed.

(** ** The invariant

    [inv s l]: the attributes of the inode are [l].  The index is current when its
    version is that of the blob; otherwise the blob holds them.  When the index
    has changes that were not flushed ([i_dirty]) it is current, the preallocated
    blob is large enough for it, and the capability Xx is held or dirty. *)
Definition current (s : xstate) : bool := i_index_version (xs_x s) =? i_version (xs_x s).

Record inv (s : xstate) (l : list (list Z * list Z)) : Prop := {
  v_bufs : forall b buf, m_bufs (xs_mem s) !! b = Some buf ->
    (b < m_next (xs_mem s))%nat /\ 0 < b_kref buf /\ Z.of_nat (length (b_base buf)) = b_alloc_len buf /\
    0 <= b_iov_len buf <= b_alloc_len buf;
  v_strs : forall i, is_Some (m_strs (xs_mem s) !! i) -> (i < m_next (xs_mem s))%nat;
  v_blob : forall b, i_blob (xs_x s) = Some b -> is_Some (m_bufs (xs_mem s) !! b);
  v_prealloc : forall b, i_prealloc_blob (xs_x s) = Some b ->
    is_Some (m_bufs (xs_mem s) !! b) /\ i_blob (xs_x s) <> Some b;
  v_owns : owns (xs_mem s) (inorder (i_index (xs_x s)));
  v_version : 0 <= i_index_version (xs_x s) <= i_version (xs_x s) /\ i_version (xs_x s) < 2 ^ 31;
  v_abs : if current s then indexed (xs_x s) (xs_mem s) l
          else exists l0, attr_list l0 /\ blob_holds (xs_mem s) (i_blob (xs_x s)) l0 /\ l = parse l0;
  v_dirty : i_dirty (xs_x s) = true -> current s = true /\
    exists b buf, i_prealloc_blob (xs_x s) = Some b /\ m_bufs (xs_mem s) !! b = Some buf /\ blob_size l <= b_alloc_len buf;
  v_caps : i_dirty (xs_x s) = true -> Z.land (caps_held (xs_caps s)) CEPH_CAP_XATTR_EXCL <> 0 /\ 0 < i_version (xs_x s) }.

(** What other threads may do while the lock is free: the index, its strings
    and the preallocated blob stay, and the blob only changes with its version. *)
Record frame (s s' : xstate) : Prop := {
  f_index : i_index (xs_x s') = i_index (xs_x s);
  f_index_version : i_index_version (xs_x s') = i_index_version (xs_x s);
  f_counts : i_count (xs_x s') = i_count (xs_x s) /\ i_names_size (xs_x s') = i_names_size (xs_x s) /\
    i_vals_size (xs_x s') = i_vals_size (xs_x s) /\ i_dirty (xs_x s') = i_dirty (xs_x s);
  f_prealloc : i_prealloc_blob (xs_x s') = i_prealloc_blob (xs_x s);
  f_strs : m_strs (xs_mem s') = m_strs (xs_mem s);
  f_nodes : m_nodes (xs_mem s') = m_nodes (xs_mem s);
  f_next : (m_next (xs_mem s) <= m_next (xs_mem s'))%nat;
  f_version : i_version (xs_x s) <= i_version (xs_x s');
  f_blob : i_version (xs_x s') = i_version (xs_x s) ->
    i_blob (xs_x s') = i_blob (xs_x s) /\
    forall b, i_blob (xs_x s) = Some b -> m_bufs (xs_mem s') !! b = m_bufs (xs_mem s) !! b }.

(** [G] holds of the attributes before and after. *)
Definition rely (G : list (list Z * list Z) -> Prop) (w : window) : Prop := forall s l,
  inv s l -> G l ->
  exists l', inv (w s) l' /\ G l' /\ frame s (w s).

Lemma indexed_other i i' m m' l :
  indexed i m l -> i_blob i' = i_blob i -> i_index i' = i_index i -> i_count i' = i_count i ->
  i_names_size i' = i_names_size i -> i_vals_size i' = i_vals_size i ->
  same_for m m' (i_blob i) (owned_all (inorder (i_index i))) -> indexed i' m' l.
Proof.
  intros [Hok Ho Hp Hc Hn Hv Hsz] E1 E2 E3 E4 E5 Hsame.
  destruct (nodes_same _ _ _ _ Hok Hsame) as [Hok' Hp'].
  split; rewrite ?E1, ?E2, ?E3, ?E4, ?E5; try done.
  - apply (owns_same m); [done|]. by destruct Hsame.
  - by rewrite Hp'.
Qed.

Lemma indexed_frame i i' m m' l :
  indexed i m l -> i_blob i' = i_blob i -> i_index i' = i_index i -> i_count i' = i_count i ->
  i_names_size i' = i_names_size i -> i_vals_size i' = i_vals_size i ->
  (forall b, i_blob i = Some b -> b_base <$> m_bufs m' !! b = b_base <$> m_bufs m !! b) -> m_strs m' = m_strs m ->
  indexed i' m' l.
Proof. intros Hix E1 E2 E3 E4 E5 Hb Hs. apply (indexed_other i i' m); try done. split; [done|by rewrite Hs]. Qed.

(** More or fewer spare nodes, and the count of allocations, are of no
    consequence. *)
Record bumped (s s' : xstate) (d : Z) : Prop := {
  bp_x : xs_x s' = xs_x s;
  bp_bufs : m_bufs (xs_mem s') = m_bufs (xs_mem s);
  bp_strs : m_strs (xs_mem s') = m_strs (xs_mem s);
  bp_next : m_next (xs_mem s') = m_next (xs_mem s);
  bp_nodes : m_nodes (xs_mem s') = m_nodes (xs_mem s) + d;
  bp_caps : xs_caps s' = xs_caps s;
  bp_log : xs_log s' = xs_log s }.

Lemma bumped_refl s : bumped s s 0.
Proof. split; done || lia. Qed.

Lemma bumped_trans s s1 s2 d1 d2 : bumped s s1 d1 -> bumped s1 s2 d2 -> bumped s s2 (d1 + d2).
Proof. intros [] []. split; try congruence. lia. Qed.

Lemma bumped_inv s s' d l : bumped s s' d -> inv s l -> inv s' l.
Proof.
  intros [Ex Eb Es En _ Ecp _] [V1 V2 V3 V4 V5 V6 V7 V8 V9].
  assert (Ec : current s' = current s) by (unfold current; by rewrite Ex).
  split; rewrite ?Ex, ?Eb, ?Es, ?En, ?Ec, ?Ecp; try done.
  - apply (owns_same (xs_mem s)); [done|]. by rewrite Es.
  - destruct (current s).
    + apply (indexed_frame (xs_x s) _ (xs_mem s)); try done. by rewrite Eb.
    + destruct V7 as (l0 & Hl & Hb & ->). exists l0. split_and!; try done. unfold blob_holds in *. by rewrite Eb.
Qed.

Lemma frame_refl s : frame s s.
Proof. split; done || lia. Qed.

Lemma wp_kalloc sz ws s (Q : bool -> list window * xstate -> Prop) :
  (forall ok s', bumped s s' 0 -> ((forall n z, kmalloc_ok n z = true) -> ok = true) -> Q ok (ws, s')) ->
  wp (on_mem (kalloc kmalloc_ok sz)) Q (ws, s).
Proof.
  intros HQ. apply wp_on_mem. unfold wp, kalloc. apply HQ; [split; cbn; done || lia|]. intros Hk. rewrite Hk. apply orb_true_r.
Qed.

Lemma wp_knode ws s (Q : bool -> list window * xstate -> Prop) :
  (forall ok s', bumped s s' (if ok : bool then 1 else 0) -> ((forall n z, kmalloc_ok n z = true) -> ok = true) -> Q ok (ws, s')) ->
  wp (on_mem (knode kmalloc_ok)) Q (ws, s).
Proof.
  intros HQ. apply wp_on_mem. unfold knode, wp, sbind, kalloc. cbn [obind].
  destruct (kmalloc_ok _ _) eqn:E; cbn; apply HQ; try (split; cbn; done || lia); try done.
  by intros Hk; rewrite Hk in E.
Qed.

Lemma wp_alloc_nodes n ws : forall s (Q : bool * nat -> list window * xstate -> Prop),
  (forall all k s', bumped s s' (Z.of_nat k) -> (all = true -> k = n) ->
     ((forall n z, kmalloc_ok n z = true) -> all = true) -> Q (all, k) (ws, s')) ->
  wp (alloc_nodes kmalloc_ok n) Q (ws, s).
Proof.
  induction n as [|n IH]; intros s Q HQ; cbn [alloc_nodes].
  { apply wp_ret, HQ; [apply bumped_refl|done|done]. }
  apply wp_bind, wp_knode. intros [|] s1 H1 Hk1.
  - apply wp_bind, IH. intros all k s2 H2 Hk Hall. apply wp_ret, HQ; [|naive_solver lia|done].
    replace (Z.of_nat (S k)) with (1 + Z.of_nat k) by lia. by eapply bumped_trans.
  - apply wp_ret, HQ; [done|done|]. intros Hk. by specialize (Hk1 Hk).
Qed.

Lemma wp_free_nodes n ws s (Q : unit -> list window * xstate -> Prop) :
  (forall s', bumped s s' (- Z.of_nat n) -> Q tt (ws, s')) -> wp (srepeat n (on_mem kfree_node)) Q (ws, s).
Proof.
  revert s. induction n as [|n IH]; intros s HQ; cbn [srepeat]; [apply wp_ret, HQ, bumped_refl|].
  apply wp_bind, wp_kfree_node, IH. intros s' Hs. apply HQ.
  replace (- Z.of_nat (S n)) with (-1 + - Z.of_nat n) by lia. eapply bumped_trans; [|exact Hs]. split; cbn; done || lia.
Qed.

Lemma wp_unlocked G ws s l (Q : unit -> list window * xstate -> Prop) :
  Forall (rely G) ws -> inv s l -> G l ->
  (forall ws' s' l', Forall (rely G) ws' -> (length ws' < length ws)%nat \/ ws' = [] /\ s' = s -> inv s' l' ->
     G l' -> frame s s' -> (ws = [] -> ws' = [] /\ s' = s /\ l' = l) -> Q tt (ws', s')) ->
  wp unlocked Q (ws, s).
Proof.
  intros Hws Hi Hsz HQ. destruct Hws as [|w ws Hw Hws]; unfold wp, unlocked.
  - apply (HQ [] s l); auto. apply frame_refl.
  - destruct (Hw s l Hi Hsz) as (l' & Hi' & Hsz' & Hf). by apply (HQ ws (w s) l'); auto.
Qed.

(** ** Destroying the index *)
Record freed (s s' : xstate) (ids : list nat) (n : Z) : Prop := {
  fr_x : xs_x s' = xs_x s;
  fr_mem : (m_bufs (xs_mem s'), m_next (xs_mem s'), m_allocs (xs_mem s')) =
           (m_bufs (xs_mem s), m_next (xs_mem s), m_allocs (xs_mem s));
  fr_strs : forall i, m_strs (xs_mem s') !! i = if decide (i ∈ ids) then None else m_strs (xs_mem s) !! i;
  fr_nodes : m_nodes (xs_mem s') = m_nodes (xs_mem s) - n;
  fr_caps : xs_caps s' = xs_caps s;
  fr_log : xs_log s' = xs_log s }.

Lemma wp_free_all l ws : forall s (Q : unit -> list window * xstate -> Prop),
  owns (xs_mem s) l -> (forall s', freed s s' (owned_all l) (Z.of_nat (length l)) -> Q tt (ws, s')) ->
  wp (sfor l __free_xattr) Q (ws, s).
Proof.
  induction l as [|x l IH]; intros s Q Ho HQ; cbn [sfor].
  { apply wp_ret, HQ. split; try done. cbn. lia. }
  pose proof Ho as (Ho' & Hf & Hnd & Hl & Hd)%(owns_middle _ []). cbn [app] in *.
  apply wp_bind. unfold __free_xattr. apply wp_bind, wp_free_strings; [done..|]. apply wp_kfree_node, IH.
  - apply (owns_same (xs_mem s)); [done|]. intros i Hi.
    change (m_strs (del_strs (owned x) (xs_mem s)) !! i = m_strs (xs_mem s) !! i).
    rewrite del_strs_lookup, decide_False; [done|]. intros Hx. by apply (Hd i).
  - intros s' [E1 E2 E3 E4 E5 E6]. apply HQ. split; try done.
    + change (forall i, m_strs (xs_mem s') !! i =
        if decide (i ∈ owned_all l) then None else m_strs (del_strs (owned x) (xs_mem s)) !! i) in E3.
      intros i. rewrite E3, del_strs_lookup. change (owned_all (x :: l)) with (owned x ++ owned_all l).
      repeat case_decide; set_solver.
    + rewrite E4. cbn [length]. unfold over, del_strs. cbn. lia.
Qed.

(** The state after [__ceph_destroy_xattrs]. *)
Definition no_index (i : ceph_inode_xattrs_info) : ceph_inode_xattrs_info :=
  i <| i_names_size := 0 |> <| i_vals_size := 0 |> <| i_index_version := 0 |> <| i_count := 0 |> <| i_index := Nil |>.

Lemma wp_destroy ws s (Q : unit -> list window * xstate -> Prop) :
  owns (xs_mem s) (inorder (i_index (xs_x s))) ->
  (forall s1, freed s s1 (owned_all (inorder (i_index (xs_x s)))) (Z.of_nat (length (inorder (i_index (xs_x s))))) ->
     Q tt (ws, s1 <| xs_x ::= no_index |>)) ->
  wp __ceph_destroy_xattrs Q (ws, s).
Proof.
  intros Ho HQ. unfold __ceph_destroy_xattrs. apply wp_bind, wp_getx, wp_bind, wp_free_all; [done|].
  intros s1 Hf. unfold modx. apply wp_mod. by apply HQ.
Qed.

Lemma owns_nil m : owns m [].
Proof. split; [constructor|constructor|]. by intros i ?%elem_of_nil. Qed.

Lemma indexed_nil i m : i_index i = Nil -> i_count i = 0 -> i_names_size i = 0 -> i_vals_size i = 0 -> indexed i m [].
Proof.
  intros E1 E2 E3 E4. split; rewrite ?E1; try done; [by split; constructor|apply owns_nil].
Qed.

(** An inode whose index was destroyed and is not built yet. *)
Record unbuilt (s : xstate) (l : list (list Z * list Z)) : Prop := {
  ub_inv : inv s l;
  ub_index : i_index (xs_x s) = Nil;
  ub_counts : i_count (xs_x s) = 0 /\ i_names_size (xs_x s) = 0 /\ i_vals_size (xs_x s) = 0;
  ub_version : i_index_version (xs_x s) = 0 /\ 0 < i_version (xs_x s) }.

Lemma unbuilt_stale s l : unbuilt s l -> current s = false /\ i_dirty (xs_x s) = false /\
  exists l0, attr_list l0 /\ blob_holds (xs_mem s) (i_blob (xs_x s)) l0 /\ l = parse l0.
Proof.
  intros [Hi _ _ [E1 E2]]. assert (Hc : current s = false) by (unfold current; rewrite E1; by apply Z.eqb_neq; lia).
  pose proof (v_abs _ _ Hi) as Ha. rewrite Hc in Ha. split_and!; try done.
  destruct (i_dirty (xs_x s)) eqn:Ed; [|done]. apply (v_dirty _ _ Hi) in Ed as [Hc' _]. congruence.
Qed.

Lemma destroy_unbuilt s l s1 :
  inv s l -> current s = false ->
  freed s s1 (owned_all (inorder (i_index (xs_x s)))) (Z.of_nat (length (inorder (i_index (xs_x s))))) ->
  let s' := s1 <| xs_x ::= no_index |> in
  unbuilt s' l /\ spare s' = spare s /\ (forall i v, private s i v -> private s' i v) /\
  xs_caps s' = xs_caps s /\ xs_log s' = xs_log s /\ i_prealloc_blob (xs_x s') = i_prealloc_blob (xs_x s) /\
  m_bufs (xs_mem s') = m_bufs (xs_mem s) /\ m_next (xs_mem s') = m_next (xs_mem s).
Proof.
  intros [V1 V2 V3 V4 V5 V6 V7 V8 V9] Hc [E1 [= E2 E3 E4] E5 E6 E7 E8] s'. rewrite Hc in V7.
  assert (Hv : i_index_version (xs_x s) <> i_version (xs_x s)) by (unfold current in Hc; by apply Z.eqb_neq in Hc).
  assert (Hx : xs_x s' = no_index (xs_x s)) by (unfold s'; cbn; by rewrite E1).
  assert (Hm : xs_mem s' = xs_mem s1) by done.
  assert (Hc' : current s' = false) by (unfold current; rewrite Hx; apply Z.eqb_neq; cbn; lia).
  split_and!; try done; rewrite ?Hm, ?E2, ?E3; try done.
  - split; rewrite ?Hx; try done; [|cbn; lia].
    split; rewrite ?Hx, ?Hm, ?E2, ?E3, ?Hc'; cbn; try done.
    + intros i [v Hi]. rewrite E5 in Hi. case_decide; [done|]. apply V2. by eexists.
    + apply owns_nil.
    + lia.
    + destruct V7 as (l0 & Hl & Hb & ->). exists l0. split_and!; try done. unfold blob_holds in *. by rewrite E2.
    + intros Hd. apply V8 in Hd as [Hd _]. congruence.
    + intros Hd. apply V8 in Hd as [Hd _]. congruence.
  - unfold spare. rewrite Hx, Hm, E6. cbn. lia.
  - intros i v [Hi Hno]. unfold private. rewrite Hx, Hm, E5, decide_False by done. cbn. split; [done|by intros ?%elem_of_nil].
  - by rewrite Hx.
Qed.
(** ** Building the index *)
Definition no_failure : Prop := forall n z, kmalloc_ok n z = true.

(** After [__build_xattrs]: the attributes are still described by the state, the
    index is current unless memory ran out, and without interference they are
    the same attributes. *)
Record after_build (G : list (list Z * list Z) -> Prop) (ws : list window) (s : xstate) (l : list (list Z * list Z)) (err r : Z)
    (ws' : list window) (s' : xstate) (l' : list (list Z * list Z)) : Prop := {
  ab_rely : Forall (rely G) ws';
  ab_windows : (length ws' <= length ws)%nat;
  ab_inv : inv s' l';
  ab_size : G l';
  ab_spare : spare s' = spare s;
  ab_private : forall i v, private s i v -> private s' i v;
  ab_prealloc : i_prealloc_blob (xs_x s') = i_prealloc_blob (xs_x s);
  ab_result : r = 0 \/ r = - ENOMEM;
  ab_current : r = 0 -> current s' = true;
  ab_memory : no_failure -> current s' = true;
  ab_alone : ws = [] -> ws' = [] /\ l' = l /\ xs_caps s' = xs_caps s /\ xs_log s' = xs_log s /\
    (no_failure -> err = 0 -> r = 0) /\ i_version (xs_x s') = i_version (xs_x s) /\ i_dirty (xs_x s') = i_dirty (xs_x s);
  ab_noop : current s = true -> s' = s;
  ab_version : i_version (xs_x s) <= i_version (xs_x s') }.

Lemma unbuilt_frame s s' l l' : unbuilt s l -> frame s s' -> inv s' l' -> unbuilt s' l'.
Proof.
  intros [_ E1 E2 E3] [F1 F2 (F3 & F4 & F5 & _) _ _ _ _ F6 _] Hi. split; [done|by rewrite F1|by rewrite F3, F4, F5|].
  rewrite F2. lia.
Qed.

Lemma frame_private s s' : frame s s' -> spare s' = spare s /\ forall i v, private s i v -> private s' i v.
Proof.
  intros [F1 _ _ _ F5 F6 _ _ _]. unfold spare, private. by rewrite F1, F5, F6.
Qed.

Lemma bumped_unbuilt s s' d l : bumped s s' d -> unbuilt s l -> unbuilt s' l.
Proof.
  intros Hb [Hi E1 E2 E3]. pose proof (bumped_inv _ _ _ _ Hb Hi). destruct Hb as [Ex _ _ _ _ _ _].
  split; rewrite ?Ex; done.
Qed.

Lemma bumped_spare s s' d : bumped s s' d -> spare s' = spare s + d /\ forall i v, private s i v -> private s' i v.
Proof. intros [Ex _ Es _ En _ _]. unfold spare, private. rewrite Ex, Es, En. split; [lia|done]. Qed.

(** An index of [l] that was just built becomes current. *)
Lemma done_inv s s2 l l2 :
  inv s2 l2 -> rest s = rest s2 -> indexed (xs_x s) (xs_mem s) l ->
  (forall i, is_Some (m_strs (xs_mem s) !! i) -> is_Some (m_strs (xs_mem s2) !! i)) ->
  let s' := s <| xs_x ::= fun i => i <| i_index_version := i_version i |> <| i_dirty := false |> |> in
  inv s' l /\ current s' = true.
Proof.
  intros [V1 V2 V3 V4 V5 V6 V7 V8 V9] Hr Hix Hdom s'. unfold rest in Hr.
  injection Hr as R1 R2 R3 R4 R5 R6 R7 R8 R9 R10.
  assert (Hc : current s' = true) by (apply Z.eqb_refl). split; [|done].
  split; rewrite ?Hc; unfold s', over; cbn; rewrite ?R1, ?R2, ?R4, ?R6, ?R7; try done.
  - intros i Hi. by apply V2, Hdom.
  - apply Hix.
  - lia.
  - by apply (indexed_frame (xs_x s) _ (xs_mem s)).
Qed.

Lemma blob_empty m blob l : blob_holds m blob l ->
  match blob with None => True | Some b => exists buf, m_bufs m !! b = Some buf /\ b_iov_len buf <= 4 end -> l = [].
Proof.
  destruct blob as [b|]; [|done]. intros (buf & Hb & _ & _ & Hif) (buf' & Hb' & Hle). rewrite Hb in Hb'. injection Hb' as <-.
  destruct (Z.ltb_spec 4 (b_iov_len buf)); [lia|done].
Qed.

(** The blob has nothing to parse. *)
Lemma wp_done_empty G ws s l err :
  unbuilt s l -> G l -> Forall (rely G) ws -> err = 0 \/ err = - ENOMEM ->
  match i_blob (xs_x s) with None => True | Some b => exists buf, m_bufs (xs_mem s) !! b = Some buf /\ b_iov_len buf <= 4 end ->
  wp (build_done err) (fun r w => exists ws' s' l', w = (ws', s') /\ after_build G ws s l err r ws' s' l') (ws, s).
Proof.
  intros Hu Hsz Hws Herr Hb. destruct (unbuilt_stale _ _ Hu) as (Hst & Hnd & l0 & _ & Hl0 & El).
  rewrite (blob_empty _ _ _ Hl0 Hb) in El. change (parse []) with (@nil (list Z * list Z)) in El.
  destruct Hu as [Hi E1 (E2 & E3 & E4) E5].
  destruct (done_inv s s l l Hi eq_refl) as [Hi' Hc]; [rewrite El; by apply indexed_nil|done|].
  unfold build_done. apply wp_bind, wp_mod, wp_ret. eexists ws, _, l. split; [done|]. split; try done. by rewrite Hst.
Qed.

Lemma blob_front base n l : take n base = blob_of l -> exists tl, base = le_bytes 4 (Z.of_nat (length l)) ++ enc_attrs l ++ tl.
Proof.
  intros Ht. exists (drop n base). rewrite <- (take_drop n base) at 1. rewrite Ht. unfold blob_of. by rewrite <- app_assoc.
Qed.
(** The nodes are allocated and the blob is still the one that was looked at. *)
Lemma wp_parse ws s l l0 b buf :
  unbuilt s l -> i_blob (xs_x s) = Some b -> m_bufs (xs_mem s) !! b = Some buf -> attr_list l0 -> l0 <> [] -> l = parse l0 ->
  take (Z.to_nat (b_iov_len buf)) (b_base buf) = blob_of l0 -> b_iov_len buf = blob_size l0 ->
  wp ('(err, bad) ↢ build_loop (Z.to_nat (Z.of_nat (length l0))) b 4 (b_iov_len buf) (- EIO);
      match bad with Some n => build_bad n err | None => build_done err end)
    (fun r w => r = 0 /\ exists s', w = (ws, s') /\ inv s' l /\ current s' = true /\
       spare s' = spare s - Z.of_nat (length l0) /\ (forall i v, private s i v -> private s' i v) /\
       i_prealloc_blob (xs_x s') = i_prealloc_blob (xs_x s) /\ xs_caps s' = xs_caps s /\ xs_log s' = xs_log s /\
       i_version (xs_x s') = i_version (xs_x s) /\ i_dirty (xs_x s') = false) (ws, s).
Proof.
  intros Hu Hblob Hb [Hn Hsz] Hne -> Ht Hlen. destruct (blob_front _ _ _ Ht) as [tl Hbase].
  pose proof Hu as [Hi E1 (E2 & E3 & E4) E5]. rewrite Nat2Z.id.
  pose proof (wp_build_loop ws b buf tl l0 s [] (le_bytes 4 (Z.of_nat (length l0))) (- EIO)
    (indexed_nil _ _ E1 E2 E3 E4) Hblob Hb Hbase Hn) as Hloop.
  rewrite length_le_bytes, enc_attrs_length in Hloop. change (Z.of_nat 4) with 4 in Hloop.
  rewrite Hlen. replace (4 + (blob_size l0 - 4)) with (blob_size l0) in Hloop by lia.
  apply wp_bind. eapply wp_mono; [apply Hloop; change (blob_size []) with 4; lia|].
  intros r w (-> & s1 & -> & Hst). destruct l0 as [|a l0]; [done|]. cbv beta iota.
  destruct (done_inv s1 s (parse (a :: l0)) _ Hi (st_rest _ _ _ _ _ Hst) (st_indexed _ _ _ _ _ Hst) (st_dom _ _ _ _ _ Hst))
    as [Hi' Hc].
  unfold build_done. apply wp_bind, wp_mod, wp_ret. split; [done|]. eexists. split; [done|].
  pose proof (st_rest _ _ _ _ _ Hst) as Hr. unfold rest in Hr. injection Hr as R1 R2 R3 R4 R5 R6 R7 R8 R9 R10.
  split_and!; try done.
  - exact (st_spare _ _ _ _ _ Hst).
  - intros i v Hp. apply (st_private _ _ _ _ _ Hst i v Hp). by intros ?%elem_of_nil.
Qed.

(** Two lists in the same blob have the same length. *)
Lemma blob_same m b buf l l' :
  m_bufs m !! b = Some buf -> 4 < b_iov_len buf -> take (Z.to_nat (b_iov_len buf)) (b_base buf) = blob_of l ->
  blob_holds m (Some b) l' -> attr_list l -> attr_list l' ->
  l' <> [] /\ take (Z.to_nat (b_iov_len buf)) (b_base buf) = blob_of l' /\ length l' = length l.
Proof.
  intros Hb Hgt Ht (buf' & Hb' & _ & _ & Hif) [_ Hs] [_ Hs']. rewrite Hb in Hb'. injection Hb' as <-.
  destruct (Z.ltb_spec 4 (b_iov_len buf)) as [_|?]; [|lia]. destruct Hif as [Ht' Hne]. split_and!; try done.
  pose proof (blob_size_bounds l). pose proof (blob_size_bounds l'). rewrite Ht in Ht'. unfold blob_of in Ht'.
  apply app_inj_1 in Ht' as [Hh _]; [|by rewrite !length_le_bytes]. apply (f_equal le_val) in Hh.
  rewrite !le_val_le_bytes in Hh by (change (256 ^ Z.of_nat 4) with (2 ^ 32); lia). lia.
Qed.

Lemma version_check x : 0 <= x < 2 ^ 31 -> u64 (s32 x) = x.
Proof. intros. rewrite s32_small, u64_small; lia. Qed.

Lemma wp_build_start G fuel : forall ws s l err,
  (length ws < fuel)%nat -> unbuilt s l -> G l -> Forall (rely G) ws ->
  err = 0 \/ err = - ENOMEM ->
  wp (build_start kmalloc_ok fuel err)
    (fun r w => exists ws' s' l', w = (ws', s') /\ after_build G ws s l err r ws' s' l') (ws, s).
Proof.
  induction fuel as [|fuel IH]; intros ws s l err Hf Hu Hsz Hws Herr; [lia|]. cbn [build_start].
  apply wp_bind, wp_getx. destruct (i_blob (xs_x s)) as [b|] eqn:Hblob; [|apply wp_done_empty; by rewrite ?Hblob].
  destruct (v_blob _ _ (ub_inv _ _ Hu) b Hblob) as [buf Hb].
  apply wp_bind, wp_on_mem. unfold get_buf at 1, wp at 1. rewrite Hb, xs_mem_id.
  destruct (Z.ltb_spec 4 (b_iov_len buf)) as [Hgt|Hle]; [|apply wp_done_empty; rewrite ?Hblob; eauto].
  destruct (unbuilt_stale _ _ Hu) as (Hst & Hnd & l0 & [Hn0 Hsz0] & Hl0 & El).
  pose proof Hl0 as Hl0'. rewrite Hblob in Hl0. destruct Hl0 as (buf' & Hb' & Hal & Hiov & Hif). rewrite Hb in Hb'.
  injection Hb' as <-. destruct (Z.ltb_spec 4 (b_iov_len buf)) as [_|?]; [|lia]. destruct Hif as [Ht Hne].
  destruct (blob_front _ _ _ Ht) as [tl Hbase].
  assert (Hlen : b_iov_len buf = blob_size l0).
  { rewrite <- blob_of_length, <- Ht, length_take. lia. }
  pose proof (blob_size_bounds l0) as Hbb.
  apply wp_bind. change 0 with (Z.of_nat (length (@nil Z))). eapply wp_decode_32; [exact Hb|exact Hbase|lia|cbn; lia|].
  cbv beta iota zeta. apply wp_bind, wp_kalloc. intros ok s1 B1 Hok1. apply wp_bind.
  set (Q := fun _ => _). assert (HQ : forall all k s2, bumped s s2 (Z.of_nat k) -> (all = true -> k = length l0) ->
    (no_failure -> all = true) -> Q (all, k) (ws, s2)).
  2:{ destruct ok.
      - apply wp_alloc_nodes. intros all k s2 B2 Hk Hall. apply HQ; [|by rewrite Nat2Z.id in Hk|done].
        replace (Z.of_nat k) with (0 + Z.of_nat k) by lia. by eapply bumped_trans.
      - apply wp_ret, HQ; [done|done|]. intros Hnf. by specialize (Hok1 Hnf). }
  intros all k s2 B2 Hk Hall. unfold Q. clear Q. destruct (bumped_spare _ _ _ B2) as [Hsp2 Hpr2].
  pose proof (bumped_unbuilt _ _ _ _ B2 Hu) as Hu2.
  apply wp_bind, (wp_unlocked G ws s2 l); [done|by apply ub_inv|done|]. intros ws3 s3 l3 Hws3 Hlen3 Hi3 Hsz3 Hf3 Halone.
  pose proof (unbuilt_frame _ _ _ _ Hu2 Hf3 Hi3) as Hu3. destruct (frame_private _ _ Hf3) as [Hsp3 Hpr3].
  assert (Hlw : (length ws3 <= length ws)%nat) by (destruct Hlen3 as [?|[-> _]]; [lia|cbn; lia]).
  destruct all; cbn [negb].
  2:{ unfold build_bad. apply wp_bind, wp_free_nodes. intros s4 B4. apply wp_bind, wp_mod, wp_ret.
      destruct (bumped_spare _ _ _ B4) as [Hsp4 Hpr4]. pose proof (bumped_unbuilt _ _ _ _ B4 Hu3) as Hu4.
      eexists ws3, _, l3. split; [done|].
      assert (Es : s4 <| xs_x ::= fun i => i <| i_names_size := 0 |> |> = s4).
      { destruct Hu4 as [_ _ (_ & E3 & _) _]. destruct s4 as [[] ? ? ?]. cbn in E3. by rewrite <- E3. }
      rewrite Es. split; try done.
      - apply Hu4.
      - lia.
      - auto.
      - rewrite (bp_x _ _ _ B4), (f_prealloc _ _ Hf3), (bp_x _ _ _ B2). done.
      - by right.
      - intros Hnf. by specialize (Hall Hnf).
      - intros ->. destruct (Halone eq_refl) as (-> & -> & ->). split_and!; try done.
        + by rewrite (bp_caps _ _ _ B4), (bp_caps _ _ _ B2).
        + by rewrite (bp_log _ _ _ B4), (bp_log _ _ _ B2).
        + intros Hnf. by specialize (Hall Hnf).
        + by rewrite (bp_x _ _ _ B4), (bp_x _ _ _ B2).
        + by rewrite (bp_x _ _ _ B4), (bp_x _ _ _ B2).
      - by rewrite Hst.
      - pose proof (f_version _ _ Hf3). rewrite (bp_x _ _ _ B4). rewrite (bp_x _ _ _ B2) in *. lia. }
  rewrite (Hk eq_refl) in *. clear Hk Hall k.
  pose proof (v_version _ _ (ub_inv _ _ Hu)) as Hv. rewrite version_check by lia. apply wp_bind, wp_getx.
  assert (Ex2 : xs_x s2 = xs_x s) by apply B2.
  destruct (Z.eqb_spec (i_version (xs_x s3)) (i_version (xs_x s))) as [Ev|Ev]; cbn [negb].
  - rewrite <- Ex2 in Ev. destruct (f_blob _ _ Hf3 Ev) as [Eb Ebuf]. rewrite Ex2 in Eb, Ebuf. rewrite Hblob in Eb.
    specialize (Ebuf b Hblob). rewrite (bp_bufs _ _ _ B2), Hb in Ebuf.
    destruct (unbuilt_stale _ _ Hu3) as (_ & _ & l0' & Ha' & Hl' & El').
    destruct (blob_same _ _ _ l0 l0' Ebuf Hgt Ht ltac:(by rewrite <- Eb) (conj Hn0 Hsz0) Ha') as (Hne' & Ht' & Elen).
    rewrite <- Elen in Hsp2 |- *.
    eapply wp_mono; [apply (wp_parse ws3 s3 l3 l0' b buf); try done|].
    { by rewrite <- blob_of_length, <- Ht', Ht, blob_of_length. }
    intros r w (-> & s4 & -> & Hi4 & Hc4 & Hsp4 & Hpr4 & Hpa4 & Hcp4 & Hlg4 & Hver4 & Hdi4). exists ws3, s4, l3. split; [done|].
    split; try done.
    + lia.
    + auto.
    + by rewrite Hpa4, (f_prealloc _ _ Hf3), Ex2.
    + by left.
    + intros ->. destruct (Halone eq_refl) as (-> & -> & ->). split_and!; try done.
      * by rewrite Hcp4, (bp_caps _ _ _ B2).
      * by rewrite Hlg4, (bp_log _ _ _ B2).
      * by rewrite Hver4, (bp_x _ _ _ B2).
      * by rewrite Hdi4, Hnd.
    + by rewrite Hst.
    + rewrite Hver4, Ev, Ex2. lia.
  - assert (Hlt : (length ws3 < length ws)%nat).
    { destruct Hlen3 as [?|[_ ->]]; [done|]. by rewrite Ex2 in Ev. }
    rewrite Nat2Z.id. apply wp_bind, wp_free_nodes. intros s4 B4. destruct (bumped_spare _ _ _ B4) as [Hsp4 Hpr4].
    eapply wp_mono; [apply (IH ws3 s4 l3 (- ENOMEM)); [lia|by apply (bumped_unbuilt s3 s4 _ _ B4)|done|done|by right]|].
    cbv beta. intros r w (ws5 & s5 & l5 & -> & [A1 A2 A3 A4 A5 A6 A7 A8 A9 A10 A11 _ A13]). exists ws5, s5, l5. split; [done|].
    split; try done.
    + lia.
    + lia.
    + auto.
    + by rewrite A7, (bp_x _ _ _ B4), (f_prealloc _ _ Hf3), Ex2.
    + intros ->. cbn in Hlt. lia.
    + by rewrite Hst.
    + pose proof (f_version _ _ Hf3). rewrite (bp_x _ _ _ B4) in A13. rewrite Ex2 in *. lia.
Qed.
(** [__build_xattrs] leaves an inode whose index is current, or reports that
    memory ran out. *)
Lemma wp_build_xattrs G ws s l :
  inv s l -> G l -> Forall (rely G) ws ->
  wp (__build_xattrs kmalloc_ok)
    (fun r w => exists ws' s' l', w = (ws', s') /\ after_build G ws s l 0 r ws' s' l') (ws, s).
Proof.
  intros Hi Hsz Hws. unfold __build_xattrs. apply wp_bind, wp_getx. pose proof (v_version _ _ Hi) as Hv.
  destruct (Z.leb_spec (i_version (xs_x s)) (i_index_version (xs_x s))) as [Hle|Hgt].
  - assert (Hc : current s = true) by (apply Z.eqb_eq; lia). apply wp_ret. exists ws, s, l. split; [done|]. split; auto 10; lia.
  - assert (Hc : current s = false) by (apply Z.eqb_neq; lia). apply wp_bind, wp_destroy; [apply Hi|]. intros s1 Hf.
    destruct (destroy_unbuilt _ _ _ Hi Hc Hf) as (Hu & Hsp & Hpr & Hcp & Hlg & Hpa & _).
    eapply wp_mono; [apply (wp_build_start G _ ws _ l 0); [cbn [fst]; lia|done|done|done|by left]|].
    cbv beta. intros r w (ws' & s' & l' & -> & [A1 A2 A3 A4 A5 A6 A7 A8 A9 A10 A11 _ A13]). exists ws', s', l'. split; [done|].
    split; try done.
    + by rewrite A5.
    + auto.
    + by rewrite A7.
    + intros E. destruct (A11 E) as (? & ? & Ec & El & ? & Ev & Ed). rewrite Ec, El, Ev, Ed, Hcp, Hlg. cbn.
      by rewrite (fr_x _ _ _ _ Hf).
    + by rewrite Hc.
    + etrans; [|exact A13]. cbn. rewrite (fr_x _ _ _ _ Hf). lia.
Qed.

(** ** Writing the blob *)
Lemma write_bytes_app l : forall pre mid tl, length mid = length l ->
  write_bytes (pre ++ mid ++ tl) (Z.of_nat (length pre)) l = Ret (pre ++ l ++ tl).
Proof.
  induction l as [|x l IH]; intros pre mid tl Hl; [by destruct mid|]. destruct mid as [|y mid]; [done|].
  cbn [write_bytes]. rewrite wr_total by (rewrite !length_app; cbn; lia). cbn [obind].
  rewrite Nat2Z.id, insert_app_r_alt by lia. rewrite Nat.sub_diag. cbn [app insert list_insert].
  change (pre ++ x :: mid ++ tl) with (pre ++ [x] ++ mid ++ tl). rewrite app_assoc.
  replace (Z.of_nat (length pre) + 1) with (Z.of_nat (length (pre ++ [x]))) by (rewrite length_app; cbn; lia).
  rewrite IH by (cbn in Hl; lia). by rewrite <- app_assoc.
Qed.

(** Only the bytes of buffer [b] differ. *)
Definition set_base (b : nat) (base : list Z) (m : mem) : mem := m <| m_bufs ::= alter (fun x => x <| b_base := base |>) b |>.

Lemma set_base_read b base m p n : (forall off, p <> PBuf b off) -> read_at (set_base b base m) p n = read_at m p n.
Proof.
  intros Hp. apply read_at_same. destruct p as [b' off|i|]; cbn; [|done|done].
  rewrite lookup_alter_ne; [done|]. intros ->. by eapply Hp.
Qed.

Lemma set_base_lookup b base m buf :
  m_bufs m !! b = Some buf -> m_bufs (set_base b base m) !! b = Some (buf <| b_base := base |>).
Proof. intros Hb. unfold set_base, over. cbn. by rewrite lookup_alter_eq, Hb. Qed.

(** The buffer holds [pre ++ mid ++ tl], and [mid] is overwritten by [l]. *)
Lemma wp_buf_write ws s b buf pre mid tl l (Q : unit -> list window * xstate -> Prop) :
  m_bufs (xs_mem s) !! b = Some buf -> length mid = length l ->
  Q tt (ws, s <| xs_mem ::= set_base b (pre ++ l ++ tl) |>) ->
  wp (on_mem (buf_write b (Z.of_nat (length pre)) l)) Q (ws, s <| xs_mem ::= set_base b (pre ++ mid ++ tl) |>).
Proof.
  intros Hb Hl HQ. apply wp_on_mem. unfold buf_write. apply wp_bind.
  change (xs_mem (over _ _ s)) with (set_base b (pre ++ mid ++ tl) (xs_mem s)).
  unfold get_buf, wp at 1. rewrite (set_base_lookup b _ _ _ Hb).
  apply wp_bind. eapply wp_lift; [by apply write_bytes_app|]. unfold put_buf. apply wp_mod.
  match goal with |- Q tt (_, ?x) => match type of HQ with Q tt (_, ?y) => replace x with y; [done|] end end.
  unfold set_base, over. cbn. do 2 f_equal. apply map_eq. intros j. destruct (decide (j = b)) as [->|Hne].
  - by rewrite lookup_insert_eq, lookup_alter_eq, Hb.
  - by rewrite lookup_insert_ne, !lookup_alter_ne.
Qed.

Lemma split_len {A} (l : list A) a b : (length l = a + b)%nat -> exists l1 l2, l = l1 ++ l2 /\ length l1 = a /\ length l2 = b.
Proof. intros Hl. exists (take a l), (drop a l). rewrite take_drop, length_take, length_drop. split_and!; [done|lia|lia]. Qed.

Lemma set_base_same b buf m : m_bufs m !! b = Some buf -> set_base b (b_base buf) m = m.
Proof.
  intros Hb. destruct m as [bufs strs nodes next allocs]. unfold set_base, over. cbn in *. f_equal.
  apply map_eq. intros j. destruct (decide (j = b)) as [->|Hne]; [|by rewrite lookup_alter_ne].
  rewrite lookup_alter_eq, Hb. by destruct buf.
Qed.

Lemma enc_name_ok m blob b x base : entry_ok m blob x -> blob <> Some b ->
  read_at (set_base b base m) (x_name x) (x_name_len x) = Ret (name_of m x) /\
  read_at (set_base b base m) (x_val x) (x_val_len x) = Ret (val_of m x).
Proof.
  intros [H1 _ H3 H4 H5] Hne. rewrite !set_base_read; [done| |].
  - intros off Eq. rewrite Eq in H5. cbn in H5. by destruct H5.
  - intros off Eq. rewrite Eq in H4. cbn in H4. by destruct H4.
Qed.

Lemma wp_write_attrs ws s b blob buf : m_bufs (xs_mem s) !! b = Some buf -> blob <> Some b -> forall xs pre mid tl,
  Forall (entry_ok (xs_mem s) blob) xs -> length mid = length (enc_attrs (pairs (xs_mem s) xs)) ->
  blob_size (pairs (xs_mem s) xs) < 2 ^ 31 ->
  wp (write_attrs xs b (Z.of_nat (length pre)))
    (fun r w => r = Z.of_nat (length (pre ++ mid)) /\
       w = (ws, s <| xs_mem ::= set_base b (pre ++ enc_attrs (pairs (xs_mem s) xs) ++ tl) |>))
    (ws, s <| xs_mem ::= set_base b (pre ++ mid ++ tl) |>).
Proof.
  intros Hb Hne. induction xs as [|x xs IH]; intros pre mid tl He Hl Hsz; cbn [write_attrs].
  { apply wp_ret. destruct mid; [|done]. by rewrite app_nil_r. }
  apply Forall_cons in He as [Hx He]. destruct (entry_lens _ _ _ Hx) as [En Ev].
  change (pairs (xs_mem s) (x :: xs)) with ((name_of (xs_mem s) x, val_of (xs_mem s) x) :: pairs (xs_mem s) xs) in *.
  set (n := name_of (xs_mem s) x) in *. set (v := val_of (xs_mem s) x) in *. set (ps := pairs (xs_mem s) xs) in *.
  change (enc_attrs ((n, v) :: ps)) with (enc_attr (n, v) ++ enc_attrs ps) in *. unfold enc_attr in *. cbn [fst snd] in *.
  rewrite blob_size_cons in Hsz. cbn [fst snd] in Hsz. pose proof (blob_size_bounds ps) as Hps.
  rewrite !length_app in Hl. unfold len32 in Hl at 1 2. rewrite !length_le_bytes in Hl. rewrite <- !Nat.add_assoc in Hl.
  apply split_len in Hl as (m1 & r1 & -> & L1 & (m2 & r2 & -> & L2 & (m3 & r3 & -> & L3 & (m4 & r4 & -> & L4 & L5)%split_len)%split_len)%split_len).
  rewrite En, Ev, !u32_small by lia. fold (len32 n) (len32 v).
  assert (Ln : length (len32 n) = 4%nat) by apply length_le_bytes. assert (Lv : length (len32 v) = 4%nat) by apply length_le_bytes.
  apply wp_bind. rewrite <- !app_assoc. eapply wp_buf_write; [exact Hb|lia|].
  apply wp_bind, wp_getmem, wp_bind.
  eapply wp_lift; [rewrite <- En; by apply (enc_name_ok _ blob)|]. fold n. apply wp_bind.
  replace (Z.of_nat (length pre) + 4) with (Z.of_nat (length (pre ++ len32 n))) by (rewrite length_app; lia).
  rewrite (app_assoc pre (len32 n) (m2 ++ _)). eapply wp_buf_write; [exact Hb|lia|]. cbv zeta. apply wp_bind.
  rewrite (app_assoc _ n (m3 ++ _)). replace (Z.of_nat (length (pre ++ len32 n)) + Z.of_nat (length n))
    with (Z.of_nat (length ((pre ++ len32 n) ++ n))) by (rewrite (length_app _ n); lia).
  eapply wp_buf_write; [exact Hb|lia|]. apply wp_bind, wp_getmem, wp_bind.
  eapply wp_lift; [rewrite <- Ev; by apply (enc_name_ok _ blob)|]. fold v. apply wp_bind.
  replace (Z.of_nat (length ((pre ++ len32 n) ++ n)) + 4) with (Z.of_nat (length (((pre ++ len32 n) ++ n) ++ len32 v)))
    by (rewrite (length_app _ (len32 v)); lia).
  rewrite (app_assoc _ (len32 v) (m4 ++ _)). eapply wp_buf_write; [exact Hb|lia|]. rewrite (app_assoc _ v (r4 ++ _)).
  replace (Z.of_nat (length (((pre ++ len32 n) ++ n) ++ len32 v)) + Z.of_nat (length v))
    with (Z.of_nat (length ((((pre ++ len32 n) ++ n) ++ len32 v) ++ v))) by (rewrite (length_app _ v); lia).
  eapply wp_mono; [apply IH; [done|done|lia]|]. cbv beta. intros r w [-> ->]. split.
  - rewrite !length_app. lia.
  - by rewrite <- !app_assoc.
Qed.
(** A sorted list is what parsing its encoding gives. *)
Lemma put_all_sorted l : forall acc,
  StronglySorted (fun a b => lex_lt a.1 b.1) l -> (forall a b, a ∈ acc -> b ∈ l -> lex_lt a.1 b.1) ->
  put_all acc l = acc ++ l.
Proof.
  induction l as [|[k v] l IH]; intros acc Hs Hacc; cbn; [by rewrite app_nil_r|].
  apply StronglySorted_inv in Hs as [Hs Hk]. pose proof (put_new k v acc []) as Hp. rewrite app_nil_r in Hp.
  cbn. rewrite Hp; [|by intros a Ha; apply (Hacc a (k, v)); [|left]|by intros a ?%elem_of_nil].
  change (put_all (acc ++ [(k, v)]) l = acc ++ (k, v) :: l). rewrite IH; [by rewrite <- app_assoc|done|].
  intros a b [Ha|Ha%list_elem_of_singleton]%elem_of_app Hb; [apply Hacc; [done|by right]|subst a].
  by apply (proj1 (Forall_forall _ _) Hk).
Qed.

Lemma indexed_list i m l :
  indexed i m l -> parse l = l /\ attr_list l /\ StronglySorted (fun a b => lex_lt a.1 b.1) l.
Proof.
  intros [[Hs He] _ Hp _ _ _ Hsz]. rewrite <- Hp in Hsz |- *. clear Hp.
  assert (Hso : StronglySorted (fun a b => lex_lt a.1 b.1) (pairs m (inorder (i_index i)))).
  { clear He Hsz. induction Hs as [|x xs Hs IH Hx]; cbn; constructor; [done|]. apply Forall_fmap. exact Hx. }
  split_and!; [|split; [|done]|done].
  - apply (put_all_sorted _ []); [done|]. by intros a b ?%elem_of_nil.
  - apply Forall_fmap. eapply Forall_impl; [exact He|]. by intros x [].
Qed.

Lemma wp_get_buf ws s b buf (Q : ceph_buffer -> list window * xstate -> Prop) :
  m_bufs (xs_mem s) !! b = Some buf -> Q buf (ws, s) -> wp (on_mem (get_buf b)) Q (ws, s).
Proof. intros Hb HQ. apply wp_on_mem. unfold get_buf, wp. by rewrite Hb, xs_mem_id. Qed.

(** One reference to the buffer [o] less. *)
Record unref (o : nat) (x : ceph_buffer) (m m' : mem) : Prop := {
  ur_other : forall j, j <> o -> m_bufs m' !! j = m_bufs m !! j;
  ur_kref : forall y, m_bufs m' !! o = Some y -> y = x <| b_kref ::= Z.pred |> /\ 0 < b_kref y;
  ur_rest : m_strs m' = m_strs m /\ m_nodes m' = m_nodes m /\ m_next m' = m_next m }.

Lemma wp_buffer_put ws s o x (Q : unit -> list window * xstate -> Prop) :
  m_bufs (xs_mem s) !! o = Some x -> 0 < b_kref x ->
  (forall m', unref o x (xs_mem s) m' -> Q tt (ws, s <| xs_mem := m' |>)) -> wp (on_mem (ceph_buffer_put o)) Q (ws, s).
Proof.
  intros Ho Hk HQ. apply wp_on_mem. unfold ceph_buffer_put. apply wp_bind. unfold get_buf, wp at 1. rewrite Ho.
  destruct (Z.eqb_spec (b_kref x - 1) 0) as [E|E].
  - unfold ceph_buffer_release. apply wp_mod. apply HQ. split; [|intros y; cbn; by rewrite lookup_delete_eq|done].
    intros j Hj. cbn. by rewrite lookup_delete_ne.
  - unfold put_buf. apply wp_mod. apply HQ. split; [| |done].
    + intros j Hj. cbn. by rewrite lookup_insert_ne.
    + intros y. cbn. rewrite lookup_insert_eq. intros [= <-]. cbn. split; [done|lia].
Qed.

(** [if (ci->i_xattrs.blob) ceph_buffer_put(...)] *)
Lemma wp_put_opt ws s (ob : option nat) (Q : unit -> list window * xstate -> Prop) :
  (forall o, ob = Some o -> exists x, m_bufs (xs_mem s) !! o = Some x /\ 0 < b_kref x) ->
  (forall m', m_strs m' = m_strs (xs_mem s) -> m_nodes m' = m_nodes (xs_mem s) -> m_next m' = m_next (xs_mem s) ->
     (forall j y, m_bufs m' !! j = Some y ->
        exists x, m_bufs (xs_mem s) !! j = Some x /\ b_base y = b_base x /\ b_iov_len y = b_iov_len x /\
          b_alloc_len y = b_alloc_len x /\ (0 < b_kref x -> 0 < b_kref y)) ->
     (forall j, ob <> Some j -> m_bufs m' !! j = m_bufs (xs_mem s) !! j) ->
     Q tt (ws, s <| xs_mem := m' |>)) ->
  wp (match ob with Some o => on_mem (ceph_buffer_put o) | None => sret tt end) Q (ws, s).
Proof.
  intros Hob HQ. destruct ob as [o|].
  - destruct (Hob o eq_refl) as (x & Hx & Hk). apply (wp_buffer_put ws s o x Q Hx Hk). intros m' [U1 U2 (U3 & U4 & U5)].
    apply HQ; try done.
    + intros j y Hy. destruct (decide (j = o)) as [->|Hne]; [|rewrite U1 in Hy by done; by exists y].
      destruct (U2 y Hy) as [-> Hky]. exists x. by split_and!.
    + intros j Hj. apply U1. congruence.
  - apply wp_ret. rewrite <- (xs_mem_id s). apply HQ; try done. intros j y Hy. by exists y.
Qed.
Lemma required_size i m l : indexed i m l ->
  __get_required_blob_size i 0 0 = blob_size l /\
  forall n v, 0 < n -> 0 <= v -> blob_size l + 8 + n + v < 2 ^ 31 ->
    __get_required_blob_size i n v = blob_size l + 8 + n + v.
Proof.
  intros [_ _ _ Hc Hn Hv Hsz]. unfold __get_required_blob_size. rewrite Hc, Hn, Hv.
  pose proof (blob_size_bounds l). unfold blob_size in *.
  replace (4 + Z.of_nat (length l) * (4 + 4) + names_size l + vals_size l) with
    (4 + 8 * Z.of_nat (length l) + names_size l + vals_size l) by lia.
  rewrite s32_small by lia. split; [done|]. intros n v Hn0 Hv0 Hs. destruct (Z.eqb_spec n 0); [lia|]. rewrite s32_small; lia.
Qed.

(** The memory after the index was written to [b] and the old blob dropped. *)
Record written (s : xstate) (b : nat) (l : list (list Z * list Z)) (m : mem) : Prop := {
  w_strs : m_strs m = m_strs (xs_mem s);
  w_nodes : m_nodes m = m_nodes (xs_mem s);
  w_next : m_next m = m_next (xs_mem s);
  w_bufs : forall j y, m_bufs m !! j = Some y -> j <> b -> exists x, m_bufs (xs_mem s) !! j = Some x /\
    b_base y = b_base x /\ b_iov_len y = b_iov_len x /\ b_alloc_len y = b_alloc_len x /\ (0 < b_kref x -> 0 < b_kref y);
  w_blob : exists x y, m_bufs (xs_mem s) !! b = Some x /\ m_bufs m !! b = Some y /\ b_kref y = b_kref x /\
    b_alloc_len y = b_alloc_len x /\ length (b_base y) = length (b_base x) /\ b_iov_len y = blob_size l /\
    take (Z.to_nat (b_iov_len y)) (b_base y) = blob_of l }.

Definition flushed (b : nat) (i : ceph_inode_xattrs_info) : ceph_inode_xattrs_info :=
  i <| i_blob := Some b |> <| i_prealloc_blob := None |> <| i_dirty := false |> <| i_version ::= fun v => u64 (v + 1) |>.

Lemma blob_holds_encoded m b y l :
  m_bufs m !! b = Some y -> Z.of_nat (length (b_base y)) = b_alloc_len y -> 0 <= b_iov_len y <= b_alloc_len y ->
  b_iov_len y = blob_size l -> take (Z.to_nat (b_iov_len y)) (b_base y) = blob_of l -> blob_holds m (Some b) l.
Proof.
  intros Hb Hl Hi Es Ht. exists y. split_and!; try done || lia. pose proof (sizes_nonneg l). unfold blob_size in Es.
  destruct (Z.ltb_spec 4 (b_iov_len y)).
  - split; [done|]. intros ->. cbn in Es. lia.
  - destruct l; [done|]. cbn [length] in Es. lia.
Qed.

Lemma flushed_inv s l b m :
  inv s l -> i_dirty (xs_x s) = true -> i_prealloc_blob (xs_x s) = Some b -> i_version (xs_x s) + 1 < 2 ^ 31 ->
  written s b l m ->
  let s' := s <| xs_mem := m |> <| xs_x ::= flushed b |> in
  inv s' l /\ current s' = false /\ spare s' = spare s /\ (forall i v, private s i v -> private s' i v).
Proof.
  intros [V1 V2 V3 V4 V5 V6 V7 V8 V9] Hd Hp Hv [W1 W2 W3 W4 W5] s'. destruct (V8 Hd) as [Hc _]. rewrite Hc in V7.
  unfold current in Hc. apply Z.eqb_eq in Hc. destruct (indexed_list _ _ _ V7) as (Hpar & Hatt & _).
  assert (Ev : i_version (xs_x s') = i_version (xs_x s) + 1) by (unfold s'; cbn; rewrite u64_small; lia).
  assert (Hc' : current s' = false) by (unfold current; rewrite Ev; apply Z.eqb_neq; cbn; lia).
  destruct W5 as (x & y & Hx & Hy & K1 & K2 & K3 & K4 & K5). destruct (V1 b x Hx) as (N1 & N2 & N3 & N4).
  destruct (V8 Hd) as (_ & b' & buf & Hb' & Hbuf & Hfit). assert (b' = b) as -> by congruence.
  assert (buf = x) as -> by congruence. assert (Hy2 : 0 <= b_iov_len y <= b_alloc_len y).
  { rewrite K4, K2. pose proof (blob_size_bounds l). lia. }
  split_and!; try done.
  - split; rewrite ?Hc'; unfold s', over; cbn; rewrite ?W3, ?W1; try done.
    + intros j z Hz. destruct (decide (j = b)) as [->|Hne].
      * assert (z = y) as -> by congruence. rewrite K1, K2 in *. rewrite K3. split_and!; done || lia.
      * destruct (W4 j z Hz Hne) as (u & Hu & Q1 & Q2 & Q3 & Q4). destruct (V1 j u Hu) as (M1 & M2 & M3 & M4).
        rewrite Q1, Q2, Q3. split_and!; auto; lia.
    + intros j [= <-]. by eexists.
    + by apply (owns_same (xs_mem s)); [|rewrite W1].
    + rewrite u64_small by lia. lia.
    + exists l. split_and!; try done. apply (blob_holds_encoded m b y l Hy); try done. rewrite K3, K2. done.
  - unfold spare, s'. cbn. by rewrite W2.
  - intros i v. unfold private, s'. cbn. by rewrite W1.
Qed.

(** The index is written as [blob_of l], byte for byte, and becomes the blob. *)
Lemma wp_build_blob ws s l :
  inv s l -> i_dirty (xs_x s) = true -> i_version (xs_x s) + 1 < 2 ^ 31 ->
  wp __ceph_build_xattrs_blob
    (fun _ w => exists b m, i_prealloc_blob (xs_x s) = Some b /\ written s b l m /\
       w = (ws, s <| xs_mem := m |> <| xs_x ::= flushed b |>)) (ws, s).
Proof.
  intros Hi Hd Hv. destruct (v_dirty _ _ Hi Hd) as (Hc & b & buf & Hp & Hb & Hfit). pose proof (v_abs _ _ Hi) as Hix.
  rewrite Hc in Hix. destruct (required_size _ _ _ Hix) as [Hneed _]. pose proof (ix_size _ _ _ Hix) as Hsz.
  destruct (v_prealloc _ _ Hi b Hp) as [_ Hnb]. destruct (v_bufs _ _ Hi b buf Hb) as (N1 & N2 & N3 & N4).
  pose proof (blob_size_bounds l) as Hbs. pose proof (ix_count _ _ _ Hix) as Hcount.
  assert (Hs4 : exists m0 mid tl, b_base buf = m0 ++ mid ++ tl /\ length m0 = 4%nat /\ length mid = length (enc_attrs l)).
  { destruct (split_len (b_base buf) 4 (length (b_base buf) - 4)) as (m0 & r & E & L0 & Lr);
      [unfold blob_size in *; pose proof (sizes_nonneg l); lia|].
    pose proof (enc_attrs_length l). destruct (split_len r (length (enc_attrs l)) (length r - length (enc_attrs l)))
      as (mid & tl & E2 & Lm & _); [lia|]. exists m0, mid, tl. by rewrite E, E2. }
  destruct Hs4 as (m0 & mid & tl & Hbase & L0 & Lm).
  unfold __ceph_build_xattrs_blob. apply wp_bind, wp_getx. rewrite Hd, Hp. cbv zeta.
  apply wp_bind, (wp_lift _ b); [done|]. apply wp_bind, (wp_get_buf ws s b buf); [done|].
  apply wp_bind, (wp_lift _ tt).
  { rewrite Hneed, u64_small by lia. unfold bug_on. destruct (Z.ltb_spec (b_alloc_len buf) (blob_size l)); [lia|done]. }
  assert (Es : s = s <| xs_mem ::= set_base b ([] ++ m0 ++ mid ++ tl) |>).
  { cbn [app]. rewrite <- Hbase. destruct s as [i m c lg]. unfold over. cbn. by rewrite set_base_same. }
  apply wp_bind. rewrite Es at 2. change 0 with (Z.of_nat (length (@nil Z))).
  eapply wp_buf_write; [exact Hb|by rewrite length_le_bytes|]. cbn [app]. apply wp_bind.
  rewrite Hcount, u32_small by lia. set (h := le_bytes 4 (Z.of_nat (length l))).
  change 4 with (Z.of_nat 4). rewrite <- (length_le_bytes 4 (Z.of_nat (length l))). fold h.
  assert (Hpairs : pairs (xs_mem s) (inorder (i_index (xs_x s))) = l) by apply Hix.
  eapply wp_mono; [apply (wp_write_attrs ws s b (i_blob (xs_x s)) buf Hb Hnb); rewrite ?Hpairs; [|done|done]|].
  { apply Hix. }
  cbv beta. rewrite Hpairs. intros r w [-> ->]. apply wp_bind. eapply wp_get_buf; [apply (set_base_lookup b _ _ _ Hb)|].
  assert (Hlen : Z.of_nat (length (h ++ mid)) = blob_size l).
  { rewrite length_app, Lm. unfold h. rewrite length_le_bytes. pose proof (enc_attrs_length l). lia. }
  rewrite Hlen. apply wp_bind, wp_on_mem. unfold put_buf. apply wp_mod. apply wp_bind.
  set (nb := CephBuffer (b_kref buf) (h ++ enc_attrs l ++ tl) (blob_size l) (b_alloc_len buf)).
  match goal with |- wp _ _ (_, ?x) => set (s2 := x) end.
  assert (Hl1 : forall j, m_bufs (xs_mem s2) !! j = if decide (j = b) then Some nb else m_bufs (xs_mem s) !! j).
  { intros j. unfold s2. cbn. case_decide as Hj; [subst j; apply lookup_insert_eq|].
    by rewrite lookup_insert_ne, lookup_alter_ne. }
  apply wp_put_opt.
  { intros o Ho. destruct (v_blob _ _ Hi o Ho) as [x Hx]. exists x. rewrite Hl1, decide_False by congruence. split; [done|].
    apply (v_bufs _ _ Hi o x Hx). }
  intros m' M1 M2 M3 M4 M5. unfold modx. apply wp_mod. exists b, m'. split; [done|]. split; [|done]. split; try done.
  - intros j y Hy Hj. destruct (M4 j y Hy) as (x & Hx & Hr). rewrite Hl1, decide_False in Hx by done. by exists x.
  - exists buf, nb. rewrite M5, Hl1, decide_True by done. split_and!; try done.
    + unfold nb. cbn [b_base]. rewrite Hbase, !length_app, L0, Lm. unfold h. by rewrite length_le_bytes.
    + unfold nb. cbn [b_iov_len b_base]. rewrite <- Hlen, Nat2Z.id, app_assoc. rewrite length_app, Lm, <- length_app. by rewrite take_app_length.
Qed.
End Blob.
