(* ===== verification/XattrRefine.v ===== *)
(** * Extended attributes refine an association list

    The operations of src/fs/ceph/xattr.c on an inode whose attributes are the
    sorted list [l] ([inv s l]): what they return and what the attributes are
    afterwards is what [spec_get], [spec_list], [spec_set] and [spec_remove] say of
    [l].  The windows satisfy [rely]: other threads may replace the blob by a
    newer one from the MDS and change the capabilities, but leave the index of a
    thread that waits alone. *)
From S2P Require Import Prelude.
From S2P Require Import Wire.
From S2P Require Import RbTree.
From S2P Require Import StateM.
From S2P Require Import Buffer.
From S2P Require Import OsdMap.
From S2P Require Import FileLayout.
From S2P Require Import VXattr.
From S2P Require Import Xattr.
From S2P Require Import XattrIndex.
From S2P Require Import XattrOps.
From S2P Require Import XattrBlob.
From stdpp Require Import fin_maps gmap sorting.
#[local] Open Scope Z_scope.
#[local] Open Scope ceph_scope.
#[local] Open Scope st_scope.

(** What the interface to the capabilities promises: the LRU lists and the dirty
    mask have no part in what is issued, and a dirty capability is held. *)
Class CapsLaws `{Caps} : Prop := {
  touch_issued : forall m c, caps_issued (snd (caps_issued_mask m c)) = caps_issued c;
  touch_mask : forall m m' c, fst (caps_issued_mask m' (snd (caps_issued_mask m c))) = fst (caps_issued_mask m' c);
  touch_held : forall m c, caps_held (snd (caps_issued_mask m c)) = caps_held c;
  dirty_issued : forall m c, caps_issued (mark_dirty_caps m c) = caps_issued c;
  dirty_mask : forall m m' c, fst (caps_issued_mask m' (mark_dirty_caps m c)) = fst (caps_issued_mask m' c);
  dirty_held : forall m c, Z.land (caps_held (mark_dirty_caps m c)) m = m;
  issued_held : forall m c, Z.land (caps_issued c) m <> 0 -> Z.land (caps_held c) m <> 0 }.

(** ** The specification *)
Definition spec_get (l : list (list Z * list Z)) (name value : list Z) : Z * list Z :=
  let size := Z.of_nat (length value) in
  match look name l with
  | None => (- ENODATA, value)
  | Some v =>
      let n := Z.of_nat (length v) in
      if size =? 0 then (n, value)
      else if size <? n then (- ERANGE, value)
      else (n, v ++ drop (length v) value)
  end.

Definition spec_set (l : list (list Z * list Z)) (name : list Z) (value : option (list Z)) (flags : Z)
  : Z * list (list Z * list Z) :=
  match look name l with
  | Some _ => if Z.testbit flags 0 then (- EEXIST, l)
              else (0, match value with Some v => put name v l | None => del name l end)
  | None => if Z.testbit flags 1 then (- ENODATA, l)
            else (0, match value with Some v => put name v l | None => l end)
  end.

Definition spec_remove (l : list (list Z * list Z)) (name : list Z) : Z * list (list Z * list Z) :=
  match look name l with
  | Some _ => (0, del name l)
  | None => (- ENODATA, l)
  end.

Section Refine.
Context `{RbOps} `{CapsLaws} (kmalloc_ok : nat -> Z -> bool).

(** ** A current index is not touched by other threads *)
Lemma frame_current s s' l l' :
  inv s l -> inv s' l' -> frame s s' -> current s = true -> current s' = true -> l' = l.
Proof.
  intros Hi Hi' Hf Hc Hc'. pose proof (v_abs _ _ Hi) as Hx. pose proof (v_abs _ _ Hi') as Hx'. rewrite Hc in Hx. rewrite Hc' in Hx'.
  apply Z.eqb_eq in Hc, Hc'. destruct Hf as [F1 F2 _ _ F5 _ _ _ F9].
  destruct F9 as [Eb Ebuf]; [congruence|]. destruct Hx as [Hok _ Hp _ _ _ _], Hx' as [_ _ Hp' _ _ _ _].
  rewrite <- Hp, <- Hp', F1. apply (nodes_same _ _ (i_blob (xs_x s)) _ Hok). split; [|by rewrite F5].
  intros b Hb. by rewrite (Ebuf b Hb).
Qed.

(** ** The preallocated blob *)
Lemma wp_buffer_new len ws s (Q : option nat -> list window * xstate -> Prop) :
  0 <= len ->
  (forall s', bumped s s' 0 -> ~ no_failure kmalloc_ok -> Q None (ws, s')) ->
  (forall s1, bumped s s1 0 ->
     Q (Some (m_next (xs_mem s))) (ws, s1 <| xs_mem ::= fun m => m
       <| m_bufs ::= insert (m_next (xs_mem s)) (CephBuffer 1 (replicate (Z.to_nat len) 0) len len) |> <| m_next ::= S |> |>)) ->
  wp (on_mem (ceph_buffer_new kmalloc_ok len)) Q (ws, s).
Proof.
  intros Hlen HN HS. apply wp_on_mem. unfold ceph_buffer_new. apply wp_bind. unfold kalloc at 1, wp at 1.
  destruct (kmalloc_ok (m_allocs (xs_mem s)) 32) eqn:E1; cbn [negb orb Z.eqb].
  2:{ apply wp_ret, HN; [split; cbn; done || lia|]. intros Hn. by rewrite Hn in E1. }
  apply wp_bind. unfold kalloc at 1, wp at 1. set (m1 := over m_allocs S (xs_mem s)).
  destruct ((len =? 0) || kmalloc_ok (m_allocs m1) len) eqn:E2; cbn [negb].
  - apply wp_bind, wp_get, wp_bind, wp_mod, wp_ret.
    assert (B : bumped s (s <| xs_mem ::= fun m => m <| m_allocs ::= S |> <| m_allocs ::= S |> |>) 0)
      by (split; cbn; done || lia).
    exact (HS _ B).
  - apply wp_ret, HN; [split; cbn; done || lia|]. intros Hn. rewrite Hn, orb_true_r in E2. done.
Qed.

Definition fits (s : xstate) (n : Z) : Prop :=
  exists b buf, i_prealloc_blob (xs_x s) = Some b /\ m_bufs (xs_mem s) !! b = Some buf /\ n <= b_alloc_len buf.

(** A new blob of [len] bytes takes the place of the preallocated one. *)
Lemma new_prealloc s l len m' b :
  inv s l -> b = m_next (xs_mem s) -> 0 <= len -> (i_dirty (xs_x s) = true -> blob_size l <= len) ->
  let s1 := s <| xs_mem ::= fun m => m <| m_bufs ::= insert b (CephBuffer 1 (replicate (Z.to_nat len) 0) len len) |> <| m_next ::= S |> |> in
  m_strs m' = m_strs (xs_mem s1) -> m_nodes m' = m_nodes (xs_mem s1) -> m_next m' = m_next (xs_mem s1) ->
  (forall j y, m_bufs m' !! j = Some y ->
        exists x, m_bufs (xs_mem s1) !! j = Some x /\ b_base y = b_base x /\ b_iov_len y = b_iov_len x /\
          b_alloc_len y = b_alloc_len x /\ (0 < b_kref x -> 0 < b_kref y)) ->
  (forall j, i_prealloc_blob (xs_x s) <> Some j -> m_bufs m' !! j = m_bufs (xs_mem s1) !! j) ->
  let s' := s1 <| xs_mem := m' |> <| xs_x ::= fun i => i <| i_prealloc_blob := Some b |> |> in
  inv s' l /\ current s' = current s /\ fits s' len /\ spare s' = spare s /\ (forall i v, private s i v -> private s' i v).
Proof.
  intros [V1 V2 V3 V4 V5 V6 V7 V8 V9] -> Hlen Hd s1 M1 M2 M3 M4 M5 s'.
  assert (Hb1 : forall j, m_bufs (xs_mem s1) !! j = if decide (j = m_next (xs_mem s))
     then Some (CephBuffer 1 (replicate (Z.to_nat len) 0) len len) else m_bufs (xs_mem s) !! j).
  { intros j. unfold s1, over. cbn. case_decide; [subst; apply lookup_insert_eq|by apply lookup_insert_ne]. }
  assert (Hfresh : forall j x, m_bufs (xs_mem s) !! j = Some x -> j <> m_next (xs_mem s)).
  { intros j x Hj. destruct (V1 j x Hj) as [? _]. lia. }
  assert (Hnew : m_bufs m' !! m_next (xs_mem s) = Some (CephBuffer 1 (replicate (Z.to_nat len) 0) len len)).
  { rewrite M5, Hb1, decide_True; [done|done|]. intros Ep. destruct (V4 _ Ep) as [[x Hx] _]. by apply (Hfresh _ _ Hx). }
  assert (Hold : forall b, i_blob (xs_x s) = Some b -> m_bufs m' !! b = m_bufs (xs_mem s) !! b).
  { intros b Hb. destruct (V3 b Hb) as [x Hx]. rewrite M5, Hb1, decide_False; [done|by eapply Hfresh|].
    intros Ep. by apply (V4 b Ep). }
  split_and!; try done.
  - split; unfold s', over; cbn; rewrite ?M1, ?M3; try done.
    + intros j y Hy. destruct (M4 j y Hy) as (x & Hx & E1 & E2 & E3 & E4). rewrite Hb1 in Hx. unfold s1, over. cbn.
      case_decide as Hj.
      * injection Hx as <-. subst j. rewrite E1, E2, E3. cbn in *. rewrite length_replicate. split_and!; auto; lia.
      * destruct (V1 j x Hx) as (? & ? & ? & ?). rewrite E1, E2, E3. split_and!; auto; lia.
    + unfold s1, over. cbn. intros i Hi. specialize (V2 i Hi). lia.
    + intros b Hb. rewrite (Hold b Hb). auto.
    + intros b [= <-]. split; [by eexists|]. intros Eb. destruct (V3 _ Eb) as [x Hx]. by apply (Hfresh _ _ Hx).
    + apply (owns_same (xs_mem s)); [done|]. by rewrite M1.
    + change (current _) with (current s). destruct (current s).
      * apply (indexed_frame (xs_x s) _ (xs_mem s)); try done. intros b Hb. by rewrite (Hold b Hb).
      * destruct V7 as (l0 & Ha & Hb & ->). exists l0. split_and!; try done. unfold blob_holds in *.
        destruct (i_blob (xs_x s)) as [b|]; [|done]. by rewrite (Hold b eq_refl).
    + intros Hdd. destruct (V8 Hdd) as [Hc _]. split; [done|]. exists (m_next (xs_mem s)). eexists. split_and!; [done|exact Hnew|].
      cbn. auto.
  - exists (m_next (xs_mem s)). eexists. split_and!; [done|exact Hnew|done].
  - unfold spare, s'. cbn. by rewrite M2.
  - intros i v. unfold private, s'. cbn. by rewrite M1.
Qed.
(** After the preparation of a change.  [Ready]: the index is current and the
    preallocated blob has room for the attribute that is added. *)
Record after_prepare (G : list (list Z * list Z) -> Prop) (extra : Z) (ws : list window) (s : xstate) (l : list (list Z * list Z)) (r : prep)
    (ws' : list window) (s' : xstate) (l' : list (list Z * list Z)) : Prop := {
  ap_rely : Forall (rely G) ws';
  ap_inv : inv s' l';
  ap_size : G l';
  ap_spare : spare s' = spare s;
  ap_private : forall i v, private s i v -> private s' i v;
  ap_ready : r = Ready -> current s' = true /\ fits s' (blob_size l' + extra) /\ 0 < i_version (xs_x s');
  ap_memory : no_failure kmalloc_ok -> r <> NoMem;
  ap_alone : ws = [] -> ws' = [] /\ l' = l /\ xs_caps s' = xs_caps s /\ xs_log s' = xs_log s /\
    i_version (xs_x s') = i_version (xs_x s) /\ i_dirty (xs_x s') = i_dirty (xs_x s) /\
    (i_version (xs_x s) <> 0 -> Z.land (caps_issued (xs_caps s)) CEPH_CAP_XATTR_EXCL <> 0 ->
     no_failure kmalloc_ok -> r = Ready) }.

(** What the preparation of an attribute of [n] and [v] bytes reserves. *)
Definition room (n v : Z) : Z := if n =? 0 then 0 else 8 + n + v.

Lemma required_room i m l n v : indexed i m l -> 0 <= n -> 0 <= v -> blob_size l + room n v < 2 ^ 31 ->
  u64 (__get_required_blob_size i n v) = blob_size l + room n v /\ 0 <= room n v.
Proof.
  intros Hix Hn Hv. destruct (required_size _ _ _ Hix) as [E0 E1]. pose proof (blob_size_bounds l). unfold room.
  destruct (Z.eqb_spec n 0) as [->|Hne]; intros Hsz.
  - replace (__get_required_blob_size i 0 v) with (__get_required_blob_size i 0 0) by done. rewrite E0, u64_small; lia.
  - rewrite E1, u64_small; lia.
Qed.

Lemma wp_prepare (G : list (list Z * list Z) -> Prop) n v fuel : (forall l, G l -> blob_size l + room n v < 2 ^ 31) -> 0 <= n -> 0 <= v -> no_failure kmalloc_ok -> forall ws s l,
  (length ws + 2 <= fuel)%nat \/ (ws = [] /\ (1 <= fuel)%nat /\ current s = true /\ fits s (blob_size l + room n v)) ->
  inv s l -> G l -> Forall (rely G) ws ->
  wp (prepare kmalloc_ok fuel n v)
    (fun r w => exists ws' s' l', w = (ws', s') /\ after_prepare G (room n v) ws s l r ws' s' l') (ws, s).
Proof.
  intros HG Hn Hv Hmem. induction fuel as [|fuel IH]; intros ws s l Hfuel Hi Hsz Hws; [lia|]. cbn [prepare].
  apply wp_bind, wp_gets.
  destruct ((i_version (xs_x s) =? 0) || (Z.land (caps_issued (xs_caps s)) CEPH_CAP_XATTR_EXCL =? 0)) eqn:Hloc.
  { apply wp_bind, (wp_unlocked G ws s l); [done|done|done|]. intros ws1 s1 l1 Hws1 _ Hi1 Hsz1 Hf1 Halone.
    destruct (frame_private _ _ Hf1) as [Hsp1 Hpr1]. apply wp_ret. exists ws1, s1, l1. split; [done|]. split; try done.
    intros Hw. destruct (Halone Hw) as (-> & -> & ->). split_and!; try done. intros Hv0 Hc0.
    apply orb_true_iff in Hloc as [?%Z.eqb_eq|?%Z.eqb_eq]; done. }
  apply wp_bind. eapply wp_mono; [by apply (wp_build_xattrs kmalloc_ok G ws s l)|].
  cbv beta. intros r w (ws1 & s1 & l1 & -> & [A1 A2 A3 A4 A5 A6 A7 A8 A9 A10 A11 A12 A13]).
  specialize (A10 Hmem). apply wp_bind, wp_getx. pose proof (v_abs _ _ A3) as Hix1. rewrite A10 in Hix1.
  destruct (required_room _ _ _ n v Hix1 Hn Hv (HG l1 A4)) as [Hreq Hroom]. cbv zeta. rewrite Hreq.
  pose proof (blob_size_bounds l1) as Hbs1.
  apply wp_bind. match goal with |- wp _ ?R _ => set (Q := R) end.
  assert (HQ : forall small : bool, (small = false -> fits s1 (blob_size l1 + room n v)) ->
    (fits s1 (blob_size l1 + room n v) -> small = false) -> Q small (ws1, s1)).
  2:{ destruct (i_prealloc_blob (xs_x s1)) as [b|] eqn:Hp.
      - destruct (v_prealloc _ _ A3 b Hp) as [[buf Hb] _]. apply wp_bind, (wp_get_buf ws1 s1 b buf); [done|].
        apply wp_ret, HQ.
        + intros Hlt%Z.ltb_ge. by exists b, buf.
        + intros (b' & buf' & Hp' & Hb' & Hle). apply Z.ltb_ge. congruence.
      - apply wp_ret, HQ; [done|]. intros (b & buf & Hp' & _). congruence. }
  intros small Hsmall Hsmall'. unfold Q. clear Q. destruct small.
  2:{ apply wp_ret. exists ws1, s1, l1. split; [done|]. split; try done.
      - intros _. split; [done|]. split; [by apply Hsmall|]. pose proof (v_version _ _ Hi). apply orb_false_iff in Hloc as [Hv0%Z.eqb_neq _]. lia.
      - intros Hw. by destruct (A11 Hw) as (? & ? & ? & ? & _ & ? & ?). }
  destruct Hfuel as [Hfuel|(-> & Hfuel & Hcur & Hfit)].
  2:{ destruct (A11 eq_refl) as (-> & -> & _).
      rewrite (A12 Hcur) in Hsmall'. by specialize (Hsmall' Hfit). }
  apply wp_bind, (wp_unlocked G ws1 s1 l1); [done|done|done|]. intros ws2 s2 l2 Hws2 Hlen2 Hi2 Hsz2 Hf2 Halone2.
  destruct (frame_private _ _ Hf2) as [Hsp2 Hpr2].
  pose proof (HG l1 A4) as Hsz1. apply wp_bind, wp_buffer_new; [lia|by intros s3 _ Hnf|]. intros s3 B3. apply wp_bind, wp_getx.
  pose proof (bumped_inv _ _ _ _ B3 Hi2) as Hi3. destruct (bumped_spare _ _ _ B3) as [Hsp3 Hpr3].
  rewrite <- (bp_next _ _ _ B3). set (len := blob_size l1 + room n v).
  assert (Hd3 : i_dirty (xs_x s3) = true -> blob_size l2 <= len).
  { intros Hd. rewrite (bp_x _ _ _ B3) in Hd. destruct (v_dirty _ _ Hi2 Hd) as [Hc2 _].
    rewrite (frame_current s1 s2 l1 l2); try done. unfold len. lia. }
  apply wp_bind, wp_put_opt.
  { intros o Ho. change (i_prealloc_blob (xs_x _)) with (i_prealloc_blob (xs_x s3)) in Ho.
    destruct (v_prealloc _ _ Hi3 o Ho) as [[x Hx] _]. exists x. destruct (v_bufs _ _ Hi3 o x Hx) as (Hlt & Hk & _).
    split; [|done]. cbn. rewrite lookup_insert_ne by lia. done. }
  intros m' M1 M2 M3 M4 M5.
  destruct (new_prealloc s3 l2 len m' _ Hi3 eq_refl ltac:(unfold len; lia) Hd3 M1 M2 M3 M4 M5) as (Hi4 & Hc4 & Hf4 & Hsp4 & Hpr4).
  apply wp_bind. unfold modx. apply wp_mod.
  eapply wp_mono; [eapply (IH ws2 _ l2); [|exact Hi4|done|done]|].
  - destruct (decide (ws = [])) as [->|Hne].
    + destruct (A11 eq_refl) as (-> & -> & _). destruct (Halone2 eq_refl) as (-> & -> & ->). right.
      split_and!; [done|cbn in Hfuel; lia| |exact Hf4]. rewrite Hc4. unfold current. by rewrite (bp_x _ _ _ B3).
    + left. destruct Hlen2 as [?|[-> _]]; [lia|]. destruct ws; [done|]. cbn in *. lia.
  - cbv beta. intros r' w' (ws5 & s5 & l5 & -> & [P1 P2 P3 P4 P5 P6 P7 P8]). exists ws5, s5, l5. split; [done|].
    split; try done.
    + lia.
    + auto 10.
    + intros ->. destruct (A11 eq_refl) as (-> & -> & C1 & C2 & _ & C0 & D0). destruct (Halone2 eq_refl) as (-> & -> & ->).
      destruct (P8 eq_refl) as (-> & -> & C3 & C4 & C6 & D6 & C5). split_and!; try done.
      * rewrite C3. cbn. by rewrite (bp_caps _ _ _ B3), C1.
      * rewrite C4. cbn. by rewrite (bp_log _ _ _ B3), C2.
      * rewrite C6. cbn. by rewrite (bp_x _ _ _ B3), C0.
      * rewrite D6. cbn. by rewrite (bp_x _ _ _ B3), D0.
      * intros Hv0 Hc0. apply C5.
        -- cbn. by rewrite (bp_x _ _ _ B3), C0.
        -- cbn. by rewrite (bp_caps _ _ _ B3), C1.
Qed.
(** ** Copies of names and values *)
(** A string was allocated: [i] is private and the rest is as before. *)
Record duped (s s' : xstate) (i : nat) (v : list Z) : Prop := {
  du_fresh : m_strs (xs_mem s) !! i = None;
  du_private : private s' i v;
  du_keep : forall j w, private s j w -> private s' j w;
  du_inv : forall l, inv s l -> inv s' l;
  du_x : xs_x s' = xs_x s;
  du_spare : spare s' = spare s;
  du_caps : xs_caps s' = xs_caps s;
  du_log : xs_log s' = xs_log s }.

Lemma wp_kmemdup v l ws s (Q : option cptr -> list window * xstate -> Prop) :
  no_failure kmalloc_ok -> inv s l ->
  (forall i s', duped s s' i v -> Q (Some (PStr i)) (ws, s')) -> wp (on_mem (kmemdup kmalloc_ok v)) Q (ws, s).
Proof.
  intros Hmem Hi HQ. apply wp_on_mem. unfold kmemdup. apply wp_bind. unfold kalloc, wp at 1. rewrite Hmem, orb_true_r.
  apply wp_bind, wp_get, wp_bind, wp_mod, wp_ret. apply HQ. pose proof Hi as [_ V2 _ _ _ _ _ _ _].
  set (i := m_next (xs_mem s)).
  assert (Hfr : m_strs (xs_mem s) !! i = None).
  { destruct (m_strs (xs_mem s) !! i) eqn:E; [|done]. assert (i < i)%nat; [|lia]. apply V2. by eexists. }
  assert (Hno : i ∉ owned_all (inorder (i_index (xs_x s)))).
  { intros Hin. destruct (o_live _ _ (v_owns _ _ Hi) i Hin) as [x Hx]. congruence. }
  split; try done.
  - split; [|done]. cbn. by rewrite lookup_insert_eq.
  - intros j w [Hj Hnj]. split; [|done]. cbn. fold i. rewrite lookup_insert_ne; [done|]. congruence.
  - clear Hi V2. intros l' [V1 V2 V3 V4 V5 V6 V7 V8 V9].
    assert (Hsame : forall j, j ∈ owned_all (inorder (i_index (xs_x s))) ->
      <[i := v]> (m_strs (xs_mem s)) !! j = m_strs (xs_mem s) !! j).
    { intros j Hj. apply lookup_insert_ne. congruence. }
    split; cbn; try done.
    + intros b buf Hb. destruct (V1 b buf Hb) as (? & ? & ? & ?). split_and!; done || lia.
    + intros j [w Hj]. fold i in Hj |- *. destruct (decide (j = i)) as [->|Hne]; [lia|]. rewrite lookup_insert_ne in Hj by done.
      assert (j < i)%nat; [|lia]. apply V2. by eexists.
    + apply (owns_same (xs_mem s)); [done|exact Hsame].
    + change (current _) with (current s). destruct (current s); [|done].
      apply (indexed_other (xs_x s) _ (xs_mem s)); done.
Qed.
(** ** Changes *)
Lemma steps_inv s s' ids l l' d :
  inv s l -> current s = true -> steps s s' ids l' d -> fits s (blob_size l') ->
  inv s' l' /\ current s' = true /\ fits s' (blob_size l') /\ xs_caps s' = xs_caps s /\ xs_log s' = xs_log s /\
  i_version (xs_x s') = i_version (xs_x s) /\ i_dirty (xs_x s') = i_dirty (xs_x s).
Proof.
  intros [V1 V2 V3 V4 V5 V6 V7 V8 V9] Hc [S1 S2 S3 S4 S5] Hf. unfold rest in S2.
  injection S2 as R1 R2 R3 R4 R5 R6 R7 R8 R9 R10.
  assert (Hc' : current s' = true) by (unfold current in *; by rewrite R4, R5).
  assert (Hf' : fits s' (blob_size l')) by (unfold fits; by rewrite R2, R6).
  split_and!; try done. split; rewrite ?R1, ?R2, ?R4, ?R5, ?R6, ?R7, ?R9, ?Hc'; try done.
  - intros i Hi. by apply V2, S5.
  - apply S1.
  - by rewrite R3.
Qed.

(** [__ceph_mark_dirty_caps] and [dirty = true] *)
Definition dirtied (s : xstate) : xstate :=
  s <| xs_caps ::= mark_dirty_caps CEPH_CAP_XATTR_EXCL |> <| xs_x ::= fun i => i <| i_dirty := true |> |>.

Lemma dirtied_inv s l : inv s l -> current s = true -> fits s (blob_size l) -> 0 < i_version (xs_x s) ->
  inv (dirtied s) l /\ current (dirtied s) = true /\ fits (dirtied s) (blob_size l) /\ spare (dirtied s) = spare s.
Proof.
  intros [V1 V2 V3 V4 V5 V6 V7 V8 V9] Hc Hf Hv. rewrite Hc in V7. split_and!; try done. split; try done.
  - change (current (dirtied s)) with (current s). rewrite Hc.
    by apply (indexed_frame (xs_x s) _ (xs_mem s)).
  - intros _. cbn. by rewrite dirty_held.
Qed.

Lemma fits_le s a b : fits s a -> b <= a -> fits s b.
Proof. intros (i & buf & Hp & Hb & Hle) Hab. exists i, buf. split_and!; try done. lia. Qed.

Lemma del_size k l : blob_size (del k l) <= blob_size l.
Proof.
  unfold del. induction l as [|a l IH]; [done|]. rewrite blob_size_cons.
  destruct (decide (a.1 <> k)).
  - rewrite filter_cons_True by done. rewrite blob_size_cons. lia.
  - rewrite filter_cons_False by done. lia.
Qed.

(** What [ceph_setxattr] passes to [__set_xattr] in the prepared state. *)
Section Change.
Context (ws : list window) (s : xstate) (l : list (list Z * list Z)) (name : list Z) (value : option (list Z)) (flags : Z).
Context (i : nat) (j : option nat).
Let v := default [] value.
Hypothesis Hi : inv s l.
Hypothesis Hc : current s = true.
Hypothesis Hname : nul_free name.
Hypothesis Hn : private s i (name ++ [0]).
Hypothesis Hj : match j with
  | Some j => private s j v /\ j <> i /\ v <> []
  | None => v = []
  end.
Hypothesis Hfit : fits s (blob_size l + (8 + Z.of_nat (length name) + Z.of_nat (length v))).
Hypothesis Hsz : blob_size l + (8 + Z.of_nat (length name) + Z.of_nat (length v)) < 2 ^ 31.

Definition strings : list nat := i :: option_list j.

(** The change happens, or the flags are in its way. *)
Lemma wp_set_local :
  wp (__set_xattr (PStr i) (Z.of_nat (length name)) (PStr <$> j) (Z.of_nat (length v)) flags
        (match value with Some _ => 1 | None => -1 end))
    (fun r w => exists s', w = (ws, s') /\ r = fst (spec_set l name value flags) /\
       steps s s' strings (snd (spec_set l name value flags))
         (if bool_decide (r = 0 /\ is_Some value) then -1 else 0)) (ws, s).
Proof.
  pose proof (v_abs _ _ Hi) as Hix. rewrite Hc in Hix. destruct Hn as [Hn1 Hn2].
  assert (Hg : given (PStr i) (PStr <$> j) true = strings).
  { unfold given, strings, has_val. by destruct j. }
  assert (B : bytes_at (xs_mem s) (PStr i) = Ret (name ++ [0])) by (cbn; by rewrite Hn1).
  assert (R : read_at (xs_mem s) (default PNul (PStr <$> j)) (Z.of_nat (length v)) = Ret v).
  { apply read_at_Ret. destruct j as [j'|]; cbn.
    - destruct Hj as ([-> _] & _). exists []. by rewrite app_nil_r.
    - rewrite Hj. by exists [0]. }
  assert (P2 : ptr_ok (has_val (PStr <$> j) true) (i_blob (xs_x s)) (default PNul (PStr <$> j))) by (by destruct j).
  assert (ND : NoDup (given (PStr i) (PStr <$> j) true)).
  { rewrite Hg. unfold strings. destruct j as [j'|]; cbn; repeat constructor; set_solver. }
  assert (LV : forall x, x ∈ given (PStr i) (PStr <$> j) true -> is_Some (m_strs (xs_mem s) !! x)).
  { rewrite Hg. unfold strings. intros x [->|Hx]%elem_of_cons; [by eexists|].
    destruct j as [j'|]; cbn in Hx; [|set_solver]. apply list_elem_of_singleton in Hx as ->. destruct Hj as ([? _] & _). by eexists. }
  assert (FR : forall x, x ∈ given (PStr i) (PStr <$> j) true -> x ∉ owned_all (inorder (i_index (xs_x s)))).
  { rewrite Hg. unfold strings. intros x [->|Hx]%elem_of_cons; [done|].
    destruct j as [j'|]; cbn in Hx; [|set_solver]. apply list_elem_of_singleton in Hx as ->. by destruct Hj as ([_ ?] & _). }
  assert (Hsp : no_conflict l name flags <-> fst (spec_set l name value flags) = 0).
  { unfold no_conflict, spec_set. destruct (look name l); [destruct (Z.testbit flags 0)|destruct (Z.testbit flags 1)]; done. }
  pose proof (put_size name v l) as Hps.
  destruct (decide (fst (spec_set l name value flags) = 0)) as [E0|E0].
  - assert (Hnc : no_conflict l name flags) by by apply Hsp.
    destruct value as [v'|] eqn:Ev.
    + eapply wp_mono; [apply (wp_set_put ws s l (PStr i) name [0] (PStr <$> j) v true flags); try done; lia|].
      cbv beta. intros r w (-> & s' & -> & Hst). exists s'. split; [done|]. split; [done|]. rewrite Hg in Hst.
      rewrite bool_decide_true by done. replace (snd _) with (put name v l); [done|].
      unfold spec_set, no_conflict in *. destruct (look name l); by rewrite Hnc.
    + assert (j = None) as Ej by (destruct j; [by destruct Hj as (_ & _ & []) | done]).
      eapply wp_mono; [apply (wp_set_remove ws s l (PStr i) name [0] (PStr <$> j) v true flags); try done; by rewrite Ej|].
      cbv beta. intros r w (-> & s' & -> & Hst). exists s'. split; [done|]. split; [done|]. rewrite Hg in Hst.
      rewrite bool_decide_false by (by intros [_ [? ?]]). replace (snd _) with (del name l); [done|].
      unfold spec_set, no_conflict in *. destruct (look name l) eqn:El; rewrite Hnc; [done|]. cbn.
      apply del_none. intros a Ha Ea. unfold look in El. apply fmap_None in El. apply list_elem_of_In in Ha.
      pose proof (find_none _ _ El a Ha) as Hf. cbn in Hf. by rewrite bool_decide_true in Hf.
  - assert (Hnc : ~ no_conflict l name flags) by by rewrite Hsp.
    eapply wp_mono; [apply (wp_set_conflict ws s l (PStr i) name [0] (PStr <$> j) v true flags); try done|].
    + destruct value; auto.
    + intros Hs. unfold has_val. by rewrite bool_decide_true.
    + cbv beta. intros r w (-> & s' & -> & Hst). exists s'. split; [done|]. rewrite Hg in Hst.
      assert (Er : match look name l with Some _ => - EEXIST | None => - ENODATA end = fst (spec_set l name value flags) /\
        snd (spec_set l name value flags) = l).
      { unfold spec_set, no_conflict in *. destruct (look name l); [destruct (Z.testbit flags 0)|destruct (Z.testbit flags 1)]; done. }
      destruct Er as [<- ->]. split; [done|]. rewrite bool_decide_false; [done|]. intros [E1 _]. by destruct (look name l).
Qed.
End Change.
End Refine.
