(* ===== verification/XattrClient.v ===== *)
(** * The operations on extended attributes, against their specification

    [ceph_getxattr], [ceph_listxattr], [ceph_setxattr] and [ceph_removexattr] as a
    whole: guards, preparation, retries, the change and the request to the MDS. *)
From S2P Require Import Prelude.
From S2P Require Import Wire.
From S2P Require Import RbTree.
From S2P Require Import StateM.
From S2P Require Import Buffer.
From S2P Require Import OsdMap.
From S2P Require Import FileLayout.
From S2P Require Import VXattr.
From S2P Require Import Xattr.
From S2P Require Import XattrIndex.
From S2P Require Import XattrOps.
From S2P Require Import XattrBlob.
From S2P Require Import XattrRefine.
From stdpp Require Import fin_maps gmap sorting.
#[local] Open Scope Z_scope.
#[local] Open Scope ceph_scope.
#[local] Open Scope st_scope.

(** A name that is kept by this client, not by a virtual attribute or the MDS. *)
Definition local (name : list Z) : Prop :=
  nul_free name /\ ceph_is_valid_xattr name = true /\ has_prefix XATTR_CEPH_PREFIX name = false.

Lemma local_not_virtual `{RbOps} ci name : local name -> ceph_match_vxattr ci name = None.
Proof.
  intros (_ & _ & Hp). unfold ceph_match_vxattr.
  destruct (List.find _ (ceph_inode_vxattrs ci)) as [v|] eqn:E; [|done].
  apply find_some in E as [Hin Hv%bool_decide_eq_true].
  assert (Hall : forallb (fun v => has_prefix XATTR_CEPH_PREFIX (vx_name v)) (ceph_inode_vxattrs ci) = true).
  { unfold ceph_inode_vxattrs. by destruct (vi_type ci). }
  rewrite forallb_forall in Hall. specialize (Hall v Hin). congruence.
Qed.

Lemma local_nonempty name : local name -> 0 < Z.of_nat (length name).
Proof. intros (_ & Hv & _). destruct name; [by vm_compute in Hv|cbn; lia]. Qed.

Lemma look_del k l : look k l = None -> del k l = l.
Proof.
  intros Hl. apply del_none. intros a Ha Ea. unfold look in Hl. apply fmap_None in Hl. apply list_elem_of_In in Ha.
  pose proof (find_none _ _ Hl a Ha) as Hf. cbn in Hf. by rewrite bool_decide_true in Hf.
Qed.

Lemma look_size k l v : look k l = Some v -> Z.of_nat (length v) <= blob_size l.
Proof.
  unfold look. intros ([n w] & Hf & ->)%fmap_Some. apply find_some in Hf as [Hin%list_elem_of_In _].
  apply list_elem_of_split in Hin as (l1 & l2 & ->). destruct (sizes_middle l1 (n, w) l2) as (_ & E & _).
  pose proof (blob_size_bounds (l1 ++ (n, w) :: l2)). pose proof (sizes_nonneg (l1 ++ l2)). cbn in *. lia.
Qed.

Section Client.
Context `{RbOps} `{CapsLaws} (kmalloc_ok : nat -> Z -> bool).
Hypothesis Hmem : no_failure kmalloc_ok.

Lemma wp_prep n v ws s (Q : prep -> list window * xstate -> Prop) :
  wp (prepare kmalloc_ok (prepare_fuel ws) n v) Q (ws, s) ->
  wp (fun w => prepare kmalloc_ok (prepare_fuel (fst w)) n v w) Q (ws, s).
Proof. unfold wp. cbn [fst]. exact (fun H => H). Qed.

(** The blob of the attributes is shorter than 2^31 bytes. *)
Lemma put_all_size l : forall acc, blob_size (put_all acc l) <= blob_size acc + (blob_size l - 4).
Proof.
  induction l as [|[k v] l IH]; intros acc.
  - change (put_all acc []) with acc. change (blob_size []) with 4. lia.
  - change (put_all acc ((k, v) :: l)) with (put_all (put k v acc) l). rewrite blob_size_cons. cbn [fst snd].
    pose proof (IH (put k v acc)). pose proof (put_size k v acc). lia.
Qed.

Lemma inv_size l s : inv s l -> blob_size l < 2 ^ 31.
Proof.
  intros Hi. pose proof (v_abs _ _ Hi) as Ha. destruct (current s); [apply Ha|]. destruct Ha as (l0 & [_ Hs] & _ & ->).
  pose proof (put_all_size l0 []) as Hp. change (blob_size []) with 4 in Hp. unfold parse. lia.
Qed.

(** ** Strings of the caller *)
Lemma del_private s l i v :
  inv s l -> private s i v ->
  let s' := s <| xs_mem ::= del_strs [i] |> in
  inv s' l /\ spare s' = spare s /\ (forall j w, private s j w -> j <> i -> private s' j w).
Proof.
  intros [V1 V2 V3 V4 V5 V6 V7 V8 V9] [Hi Hno] s'.
  assert (Hsame : forall j, j <> i -> m_strs (del_strs [i] (xs_mem s)) !! j = m_strs (xs_mem s) !! j).
  { intros j Hj. rewrite del_strs_lookup, decide_False; [done|]. set_solver. }
  assert (Hown : forall j, j ∈ owned_all (inorder (i_index (xs_x s))) ->
    m_strs (del_strs [i] (xs_mem s)) !! j = m_strs (xs_mem s) !! j).
  { intros j Hj. apply Hsame. by intros ->. }
  split_and!.
  - split; try done.
    + intros j Hj. apply V2. by apply (del_strs_dom [i]).
    + by apply (owns_same (xs_mem s)).
    + change (current s') with (current s). destruct (current s); [|done].
      by apply (indexed_other (xs_x s) _ (xs_mem s)).
  - done.
  - intros j w [Hj Hnj] Hne. split; [|done]. unfold s', over. cbn [xs_mem]. by rewrite Hsame.
Qed.

Lemma wp_kfree_private ws s l i v (Q : unit -> list window * xstate -> Prop) :
  inv s l -> private s i v ->
  (forall s', inv s' l -> spare s' = spare s -> (forall j w, private s j w -> j <> i -> private s' j w) ->
     xs_caps s' = xs_caps s -> xs_log s' = xs_log s -> xs_x s' = xs_x s -> Q tt (ws, s')) ->
  wp (on_mem (kfree (PStr i))) Q (ws, s).
Proof.
  intros Hi Hp HQ. destruct (del_private s l i v Hi Hp) as (Hi' & Hs & Hk).
  apply wp_on_mem, (wp_kfree _ [i]); [done|done| |].
  - intros j ->%list_elem_of_singleton. destruct Hp as [? _]. by eexists.
  - apply HQ; [exact Hi'|exact Hs|exact Hk|done|done|done].
Qed.

Lemma log_inv s l r : inv s l -> inv (s <| xs_log ::= fun l => l ++ [r] |>) l.
Proof. intros []. by split. Qed.

(** ** A request to the MDS *)
Lemma wp_do_request (G : list (list Z * list Z) -> Prop) req mds name ws s l :
  inv s l -> G l -> Forall (rely G) ws ->
  wp (do_request kmalloc_ok req mds name)
    (fun r w => r = mds /\ exists ws' s' l', w = (ws', s') /\ inv s' l' /\ G l' /\ spare s' = spare s /\
       (forall i v, private s i v -> private s' i v) /\
       (ws = [] -> l' = l /\ xs_log s' = xs_log s ++ [req (Some (name ++ [0]))])) (ws, s).
Proof.
  intros Hi Hsz Hws. unfold do_request. apply wp_bind, wp_kalloc. intros ok s1 B1 Hok. rewrite (Hok Hmem). cbn [negb].
  pose proof (bumped_inv _ _ _ _ B1 Hi) as Hi1. destruct (bumped_spare _ _ _ B1) as [Sp1 Pr1].
  apply wp_bind, (wp_kmemdup kmalloc_ok _ l); [done|done|]. intros i s2 D2. pose proof (du_inv _ _ _ _ D2 l Hi1) as Hi2.
  apply wp_bind, wp_getmem, wp_bind. unfold log, mods. apply wp_mod.
  set (s3 := s2 <| xs_log ::= _ |>). assert (Hi3 : inv s3 l) by (by apply log_inv).
  assert (Hp3 : private s3 i (name ++ [0])) by apply D2.
  apply wp_bind, (wp_unlocked G ws s3 l); [done|done|done|]. intros ws4 s4 l4 Hws4 _ Hi4 Hsz4 Hf4 Halone.
  destruct (frame_private _ _ Hf4) as [Sp4 Pr4]. unfold kfree_opt.
  apply wp_bind, (wp_kfree_private ws4 s4 l4 i (name ++ [0])); [done|auto|]. intros s5 Hi5 Sp5 Pr5 _ Lg5 _. apply wp_ret.
  split; [done|]. exists ws4, s5, l4. split; [done|]. split; [done|]. split; [done|]. split; [|split].
  - rewrite Sp5, Sp4. change (spare s3) with (spare s2). rewrite (du_spare _ _ _ _ D2). lia.
  - intros j w Hj. apply Pr5.
    + apply Pr4. change (private s2 j w). by apply D2, Pr1.
    + intros ->. apply Pr1 in Hj as [Hj _]. pose proof (du_fresh _ _ _ _ D2). congruence.
  - intros ->. destruct (Halone eq_refl) as (-> & -> & ->). split; [done|]. rewrite Lg5. unfold s3, path2_of. cbn.
    destruct (du_private _ _ _ _ D2) as [-> _]. by rewrite (du_log _ _ _ _ D2), (bp_log _ _ _ B1).
Qed.

Lemma wp_alloc_pagelist sz ws s (Q : bool -> list window * xstate -> Prop) :
  (forall s', bumped s s' 0 -> Q true (ws, s')) -> wp (alloc_pagelist kmalloc_ok sz) Q (ws, s).
Proof.
  intros HQ. unfold alloc_pagelist. apply wp_bind, wp_kalloc. intros ok s1 B1 Hok. rewrite (Hok Hmem). cbn [negb].
  assert (HQ1 : forall s', bumped s1 s' 0 -> Q true (ws, s')) by (intros s' B; apply HQ; exact (bumped_trans _ _ _ 0 0 B1 B)).
  clear HQ B1 s Hok ok. revert s1 HQ1. induction (Z.to_nat ((sz + 4095) / 4096)) as [|n IH]; intros s HQ.
  - apply wp_ret, HQ, bumped_refl.
  - apply wp_bind, wp_kalloc. intros ok s1 B1 Hok. rewrite (Hok Hmem). apply IH. intros s2 B2. apply HQ.
    exact (bumped_trans _ _ _ 0 0 B1 B2).
Qed.

(** The request for a change: the value, or the flag that removes the name. *)
Definition set_request (value : option (list Z)) (flags : Z) (p : option (list Z)) : xreq :=
  match value with
  | Some _ => SetxattrReq flags p value
  | None => SetxattrReq (Z.lor flags CEPH_XATTR_REMOVE) p None
  end.

Lemma wp_sync_setxattr (G : list (list Z * list Z) -> Prop) mds name value flags ws s l :
  inv s l -> G l -> Forall (rely G) ws ->
  wp (ceph_sync_setxattr kmalloc_ok mds name value flags)
    (fun r w => r = mds /\ exists ws' s' l', w = (ws', s') /\ inv s' l' /\ G l' /\ spare s' = spare s /\
       (forall i v, private s i v -> private s' i v) /\
       (ws = [] -> l' = l /\ xs_log s' = xs_log s ++ [set_request value flags (Some (name ++ [0]))])) (ws, s).
Proof.
  intros Hi Hsz Hws. unfold ceph_sync_setxattr. destruct value as [v|]; [|by apply (wp_do_request G)].
  apply wp_bind, wp_alloc_pagelist. intros s1 B1. cbn [negb]. destruct (bumped_spare _ _ _ B1) as [Sp1 Pr1].
  eapply wp_mono; [apply (wp_do_request G _ _ _ ws s1 l); [by eapply bumped_inv|done|done]|].
  cbv beta. intros r w (-> & ws' & s' & l' & -> & Hi' & HG' & Sp & Pr & Hal). split; [done|]. exists ws', s', l'.
  split_and!; try done; [lia|auto|]. intros E. rewrite <- (bp_log _ _ _ B1). auto.
Qed.

(** ** [ceph_setxattr] *)
(** What the state shows of the versions, the capabilities and the requests. *)
Definition same_view (s s' : xstate) : Prop :=
  i_version (xs_x s') = i_version (xs_x s) /\ caps_issued (xs_caps s') = caps_issued (xs_caps s) /\
  (forall m, fst (caps_issued_mask m (xs_caps s')) = fst (caps_issued_mask m (xs_caps s))) /\ xs_log s' = xs_log s.

Lemma same_view_trans s s1 s2 : same_view s s1 -> same_view s1 s2 -> same_view s s2.
Proof. intros (? & ? & Hm & ?) (? & ? & Hm' & ?). split_and!; congruence. Qed.

(** A reader also leaves the dirty flag alone. *)
Definition quiet (s s' : xstate) : Prop := same_view s s' /\ i_dirty (xs_x s') = i_dirty (xs_x s).

Definition exclusive (s : xstate) : Prop :=
  i_version (xs_x s) <> 0 /\ Z.land (caps_issued (xs_caps s)) CEPH_CAP_XATTR_EXCL <> 0 /\
  fst (caps_issued_mask CEPH_CAP_XATTR_SHARED (xs_caps s)) = true.

(** The change took place at one moment, on the attributes [l1] of that moment. *)
Record changed (G : list (list Z * list Z) -> Prop) (ws : list window) (s : xstate) (l : list (list Z * list Z)) (spec : list (list Z * list Z) -> Z * list (list Z * list Z))
    (leak : Z) (force : bool) (r : Z) (s' : xstate) (l' : list (list Z * list Z)) : Prop := {
  ch_spec : exists l1, (r, l') = spec l1 /\ G l1 /\ (ws = [] -> l1 = l);
  ch_spare : spare s' = spare s + leak;
  ch_view : ws = [] -> same_view s s' /\ i_dirty (xs_x s') = force || (r =? 0) || i_dirty (xs_x s) }.

(** The change was sent to the MDS instead. *)
Record deferred (G : list (list Z * list Z) -> Prop) (ws : list window) (s : xstate) (l : list (list Z * list Z)) (req : xreq) (mds r : Z)
    (s' : xstate) (l' : list (list Z * list Z)) : Prop := {
  de_result : r = mds;
  de_attrs : G l';
  de_spare : spare s' = spare s;
  de_alone : ws = [] -> l' = l /\ xs_log s' = xs_log s ++ [req] /\ ~ exclusive s }.

Lemma dup_value v ws s l (Q : option (option cptr) -> list window * xstate -> Prop) :
  inv s l ->
  (forall j s', inv s' l -> (forall i w, private s i w -> private s' i w) -> spare s' = spare s ->
     quiet s s' -> match j with
                       | Some j => private s' j v /\ m_strs (xs_mem s) !! j = None /\ v <> []
                       | None => v = []
                       end -> Q (Some (PStr <$> j)) (ws, s')) ->
  wp (if Z.of_nat (length v) =? 0 then sret (Some None)
      else p ↢ on_mem (kmemdup kmalloc_ok v); sret (Some <$> p)) Q (ws, s).
Proof.
  intros Hi HQ. destruct (Z.eqb_spec (Z.of_nat (length v)) 0) as [E|E].
  - apply wp_ret, (HQ None); try done. destruct v; [done|cbn in E; lia].
  - apply wp_bind, (wp_kmemdup kmalloc_ok _ l); [done|done|]. intros j s' D. apply wp_ret, (HQ (Some j)).
    + by apply D.
    + by apply D.
    + by apply D.
    + unfold quiet, same_view. by rewrite (du_x _ _ _ _ D), (du_caps _ _ _ _ D), (du_log _ _ _ _ D).
    + split_and!; [apply D|apply D|]. intros ->. by cbn in E.
Qed.

Lemma spec_set_size l name value flags :
  blob_size (snd (spec_set l name value flags)) <=
  blob_size l + (8 + Z.of_nat (length name) + Z.of_nat (length (default [] value))).
Proof.
  pose proof (put_size name (default [] value) l). pose proof (del_size name l). unfold spec_set.
  destruct value as [v|]; cbn [from_option id] in *;
    destruct (look name l); [destruct (Z.testbit flags 0)|destruct (Z.testbit flags 1)|destruct (Z.testbit flags 0)|destruct (Z.testbit flags 1)];
    cbn [snd]; lia.
Qed.

(** [ceph_setxattr] of a name of this client: the attribute is changed under the
    lock as the flags allow, or the request is sent to the MDS. *)
Lemma wp_setxattr (G : list (list Z * list Z) -> Prop) ci mds name value flags ws s l :
  let extra := room (Z.of_nat (length name)) (Z.of_nat (length (default [] value))) in
  (forall l, G l -> blob_size l + extra < 2 ^ 31) -> local name -> inv s l ->
  G l -> Forall (rely G) ws ->
  wp (ceph_setxattr kmalloc_ok ci false mds name value flags)
    (fun r w => exists ws' s' l', w = (ws', s') /\ inv s' l' /\
       (changed G ws s l (fun l => spec_set l name value flags) (if bool_decide (r = 0 /\ is_Some value) then 0 else 1) false r s' l' \/
        deferred G ws s l (set_request value flags (Some (name ++ [0]))) mds r s' l')) (ws, s).
Proof.
  intros extra HG Hloc Hi Hsz Hws. pose proof (local_nonempty _ Hloc) as Hpos. unfold ceph_setxattr. cbv zeta.
  pose proof Hloc as (Hnul & Hval & Hpre). rewrite Hval, Hpre, (local_not_virtual ci name Hloc). cbn [negb option_list existsb].
  set (v := default [] value) in *.
  apply wp_bind, (wp_kmemdup kmalloc_ok _ l); [done|done|]. intros i s1 D1. pose proof (du_inv _ _ _ _ D1 l Hi) as Hi1.
  apply wp_bind, (dup_value v ws s1 l); [done|]. intros j s2 Hi2 Pr2 Sp2 [Vw2 Xd2] Hj2.
  apply wp_bind, wp_knode. intros ok s3 B3 Hok. rewrite (Hok Hmem) in *. cbn [negb].
  pose proof (bumped_inv _ _ _ _ B3 Hi2) as Hi3. destruct (bumped_spare _ _ _ B3) as [Sp3 Pr3].
  assert (Hn3 : private s3 i (name ++ [0])) by (apply Pr3, Pr2; apply D1).
  assert (Hij : match j with Some j => j <> i | None => True end).
  { destruct j as [j|]; [|done]. intros ->. destruct Hj2 as (_ & Hno & _). destruct (du_private _ _ _ _ D1). congruence. }
  apply wp_bind, wp_prep. eapply wp_mono.
  { apply (wp_prepare kmalloc_ok G (Z.of_nat (length name)) (Z.of_nat (length v)) (prepare_fuel ws) HG ltac:(lia) ltac:(lia) Hmem ws s3 l);
      [left; unfold prepare_fuel; lia|done|done|done]. }
  cbv beta. intros r w (ws4 & s4 & l4 & -> & [P1 P2 P3 P4 P5 P6 P7 P8]).
  assert (Hn4 : private s4 i (name ++ [0])) by auto.
  assert (Hj4 : match j with Some j => private s4 j v /\ j <> i /\ v <> [] | None => v = [] end).
  { destruct j as [j|]; [|done]. destruct Hj2 as (? & _ & ?). split_and!; auto. }
  assert (Sp4 : spare s4 = spare s + 1) by (rewrite P4, Sp3, Sp2, (du_spare _ _ _ _ D1); done).
  assert (Vw4 : ws = [] -> same_view s s4).
  { intros ->. destruct (P8 eq_refl) as (_ & _ & C1 & C2 & C3 & _). destruct Vw2 as (W1 & W2 & W3 & W4).
    rewrite (du_x _ _ _ _ D1) in W1. rewrite (du_caps _ _ _ _ D1) in W2, W3. rewrite (du_log _ _ _ _ D1) in W4.
    unfold same_view. rewrite C1, C2, C3, (bp_caps _ _ _ B3), (bp_log _ _ _ B3), (bp_x _ _ _ B3). done. }
  assert (Di4 : ws = [] -> i_dirty (xs_x s4) = i_dirty (xs_x s)).
  { intros ->. destruct (P8 eq_refl) as (_ & _ & _ & _ & _ & C1 & _). by rewrite C1, (bp_x _ _ _ B3), Xd2, (du_x _ _ _ _ D1). }
  assert (Hfree : forall err (Q : Z -> list window * xstate -> Prop) ws5 s5 l5,
    inv s5 l5 -> (forall j w, private s4 j w -> private s5 j w) ->
    (forall s', inv s' l5 -> spare s' = spare s5 -> xs_log s' = xs_log s5 -> Q err (ws5, s')) ->
    wp (_ ↢ on_mem (kfree (PStr i)); _ ↢ on_mem (kfree_opt (PStr <$> j)); sret err) Q (ws5, s5)).
  { intros err Q ws5 s5 l5 Hi5 Pr5 HQ. apply wp_bind, (wp_kfree_private ws5 s5 l5 i (name ++ [0])); [done|auto|].
    intros s6 Hi6 Sp6 Pr6 _ Lg6 _. apply wp_bind. destruct j as [j|]; cbn [fmap option_fmap option_map kfree_opt].
    - destruct Hj4 as (Hp & Hne & _). apply (wp_kfree_private ws5 s6 l5 j v); [done|auto|].
      intros s7 Hi7 Sp7 _ _ Lg7 _. apply wp_ret, HQ; congruence.
    - apply wp_on_mem, wp_ret, wp_ret. rewrite xs_mem_id. by apply HQ. }
  destruct r.
  - apply wp_bind. eapply wp_mono; [by apply (wp_sync_setxattr G mds name value flags ws4 s4 l4)|].
    cbv beta. intros r w (-> & ws5 & s5 & l5 & -> & Hi5 & HG5 & Sp5 & Pr5 & Al5). apply wp_bind, wp_kfree_node.
    set (s6 := s5 <| xs_mem ::= _ |>). assert (B6 : bumped s5 s6 (-1)) by (split; cbn; done || lia).
    destruct (bumped_spare _ _ _ B6) as [Sp6 Pr6].
    apply (Hfree _ _ ws5 s6 l5); [by eapply bumped_inv|auto|]. intros s7 Hi7 Sp7 Lg7.
    exists ws5, s7, l5. split; [done|]. split; [done|]. right. split; [done|done|lia|]. intros Hw.
    destruct (P8 Hw) as (-> & -> & C1 & C2 & C3 & D4 & C4). destruct (Al5 eq_refl) as [-> Lg5]. split; [done|].
    destruct (Vw4 Hw) as (W1 & W2 & W3 & W4). split.
    + rewrite Lg7. change (xs_log s6) with (xs_log s5). by rewrite Lg5, W4.
    + intros (E1 & E2 & _). rewrite <- C3, W1, <- C1, W2 in C4. by specialize (C4 E1 E2 Hmem).
  - by specialize (P7 Hmem).
  - destruct (P6 eq_refl) as (Hc4 & Hf4 & Hv4). apply wp_bind.
    assert (Er : extra = 8 + Z.of_nat (length name) + Z.of_nat (length v)).
    { unfold extra, room. destruct (Z.eqb_spec (Z.of_nat (length name)) 0); lia. }
    pose proof (HG l4 P3) as Hz4. fold extra in Hf4. rewrite Er in Hf4, Hz4.
    eapply wp_mono; [by apply (wp_set_local kmalloc_ok ws4 s4 l4 name value flags i j P2 Hc4 Hnul Hn4 Hj4)|].
    cbv beta. intros r w (s5 & -> & -> & Hst). set (sp := spec_set l4 name value flags) in *.
    assert (Hle : blob_size (snd sp) <= blob_size l4 + (8 + Z.of_nat (length name) + Z.of_nat (length v))).
    { apply spec_set_size. }
    destruct (steps_inv s4 s5 _ _ _ _ P2 Hc4 Hst) as (Hi5 & Hc5 & Hf5 & Cp5 & Lg5 & Ve5 & Di5).
    { by eapply fits_le. }
    assert (Vw5 : ws = [] -> same_view s s5).
    { intros Hw. apply (same_view_trans s s4); [auto|]. unfold same_view. by rewrite Cp5, Lg5, Ve5. }
    pose proof (st_spare _ _ _ _ _ Hst) as Sp5.
    assert (Hch : forall s', spare s' = spare s5 -> same_view s5 s' -> i_dirty (xs_x s') = (fst sp =? 0) || i_dirty (xs_x s5) ->
      changed G ws s l (fun l => spec_set l name value flags) (if bool_decide (fst sp = 0 /\ is_Some value) then 0 else 1) false (fst sp) s' (snd sp)).
    { intros s' Hs' Hv' Hd'. split.
      - exists l4. split; [symmetry; apply surjective_pairing|]. split; [done|]. intros Hw. by destruct (P8 Hw) as (_ & -> & _).
      - rewrite Hs', Sp5, Sp4. destruct (bool_decide _); lia.
      - intros Hw. split; [apply (same_view_trans s s5); auto|]. rewrite Hd', Di5, (Di4 Hw). done. }
    apply wp_bind. destruct (fst sp =? 0) eqn:E0.
    + unfold mark_dirty, mods, modx. apply wp_bind, wp_mod, wp_mod, wp_ret.
      destruct (dirtied_inv s5 _ Hi5 Hc5 Hf5 ltac:(by rewrite Ve5)) as (Hi6 & _ & _ & Sp6).
      exists ws4, (dirtied s5), (snd sp). split; [done|]. split; [done|]. left. apply Hch; [done| |done].
      unfold same_view, dirtied. cbn. rewrite dirty_issued. split_and!; try done. intros m. apply dirty_mask.
    + apply wp_ret, wp_ret. exists ws4, s5, (snd sp). split; [done|]. split; [done|]. left. by apply Hch.
Qed.

(** ** [ceph_removexattr] *)
Lemma spec_remove_size l name : blob_size (snd (spec_remove l name)) <= blob_size l.
Proof. pose proof (del_size name l). unfold spec_remove. by destruct (look name l). Qed.

Lemma wp_removexattr (G : list (list Z * list Z) -> Prop) ci mds name ws s l :
  (forall l, G l -> blob_size l + 0 < 2 ^ 31) -> local name -> inv s l -> G l -> Forall (rely G) ws ->
  wp (ceph_removexattr kmalloc_ok ci false mds name)
    (fun r w => exists ws' s' l', w = (ws', s') /\ inv s' l' /\
       (changed G ws s l (fun l => spec_remove l name) 0 true r s' l' \/
        deferred G ws s l (RmxattrReq (Some (name ++ [0]))) mds r s' l')) (ws, s).
Proof.
  intros HG Hloc Hi Hsz Hws. unfold ceph_removexattr. pose proof Hloc as (Hnul & Hval & Hpre).
  rewrite Hval, Hpre, (local_not_virtual ci name Hloc). cbn [negb option_list existsb].
  apply wp_bind, wp_prep. eapply wp_mono.
  { apply (wp_prepare kmalloc_ok G 0 0 (prepare_fuel ws) HG ltac:(lia) ltac:(lia) Hmem ws s l);
      [left; unfold prepare_fuel; lia|done|done|done]. }
  cbv beta. intros r w (ws4 & s4 & l4 & -> & [P1 P2 P3 P4 P5 P6 P7 P8]). change (room 0 0) with 0 in *.
  destruct r.
  - eapply wp_mono; [by apply (wp_do_request G RmxattrReq mds name ws4 s4 l4)|].
    cbv beta. intros r w (-> & ws5 & s5 & l5 & -> & Hi5 & HG5 & Sp5 & Pr5 & Al5).
    exists ws5, s5, l5. split; [done|]. split; [done|]. right. split; [done|done|lia|]. intros Hw.
    destruct (P8 Hw) as (-> & -> & C1 & C2 & C3 & D4 & C4). destruct (Al5 eq_refl) as [-> Lg5]. split; [done|]. split.
    + by rewrite Lg5, C2.
    + intros (E1 & E2 & _). by specialize (C4 E1 E2 Hmem).
  - by specialize (P7 Hmem).
  - destruct (P6 eq_refl) as (Hc4 & Hf4 & Hv4). rewrite Z.add_0_r in Hf4. pose proof (v_abs _ _ P2) as Hix. rewrite Hc4 in Hix.
    apply wp_bind. eapply wp_mono; [by apply (wp_remove_by_name ws4 s4 l4 name)|].
    cbv beta. intros r w (-> & s5 & -> & Hst).
    assert (Hsp : (match look name l4 with Some _ => 0 | None => - ENODATA end, del name l4) = spec_remove l4 name).
    { unfold spec_remove. destruct (look name l4) eqn:El; [done|]. f_equal. by apply look_del. }
    destruct (steps_inv s4 s5 _ _ _ _ P2 Hc4 Hst) as (Hi5 & Hc5 & Hf5 & Cp5 & Lg5 & Ve5 & Di5).
    { eapply fits_le; [exact Hf4|apply del_size]. }
    destruct (dirtied_inv s5 _ Hi5 Hc5 Hf5 ltac:(by rewrite Ve5)) as (Hi6 & _ & _ & Sp6). pose proof (st_spare _ _ _ _ _ Hst) as Sp5.
    unfold mark_dirty, mods, modx. apply wp_bind, wp_bind, wp_mod, wp_mod, wp_ret.
    exists ws4, (dirtied s5), (del name l4). split; [done|]. split; [done|]. left. split.
    + exists l4. split; [done|]. split; [done|]. intros Hw. by destruct (P8 Hw) as (_ & -> & _).
    + rewrite Sp6. lia.
    + intros Hw. destruct (P8 Hw) as (_ & _ & C1 & C2 & C3 & _ & _). unfold same_view, dirtied. cbn.
      rewrite dirty_issued, Cp5, C1, Ve5, C3, Lg5, C2. split_and!; try done. intros m. by rewrite dirty_mask.
Qed.

(** ** [ceph_getxattr] *)
(** The attributes are there, or are fetched: the MDS's error, or an inode that
    is ready for [__build_xattrs]. *)
Lemma wp_fetch (G : list (list Z * list Z) -> Prop) mds ws s l (Q : Z -> list window * xstate -> Prop) :
  inv s l -> G l -> Forall (rely G) ws ->
  (forall r ws' s' l', Forall (rely G) ws' -> inv s' l' -> G l' -> spare s' = spare s ->
     r = 0 \/ r = mds -> (ws = [] -> ws' = [] /\ l' = l /\ (exclusive s -> r = 0 /\ quiet s s')) -> Q r (ws', s')) ->
  wp (fetch_xattrs mds) Q (ws, s).
Proof.
  intros Hi Hsz Hws HQ. unfold fetch_xattrs. apply wp_bind, wp_getx.
  assert (Hget : ~ exclusive s -> forall s1, inv s1 l -> spare s1 = spare s -> wp (do_getattr CEPH_CAP_XATTR_SHARED mds) Q (ws, s1)).
  { intros Hne s1 Hi1 Sp1. unfold do_getattr, log, mods. apply wp_bind, wp_mod. set (s2 := s1 <| xs_log ::= _ |>).
    apply wp_bind, (wp_unlocked G ws s2 l); [done|by apply log_inv|done|]. intros ws3 s3 l3 Hws3 _ Hi3 Hsz3 Hf3 Hal.
    destruct (frame_private _ _ Hf3) as [Sp3 _]. apply wp_ret, (HQ mds ws3 s3 l3); try done; [by rewrite Sp3|by right|].
    intros Hw. destruct (Hal Hw) as (-> & _ & ->). done. }
  destruct (Z.eqb_spec (i_version (xs_x s)) 0) as [E0|E0].
  - apply wp_bind, wp_ret, Hget; [by intros [? _]|done|done].
  - unfold issued_mask. apply wp_bind, wp_bind, wp_gets.
    destruct (caps_issued_mask CEPH_CAP_XATTR_SHARED (xs_caps s)) as [ok c] eqn:Em. unfold mods. apply wp_bind, wp_mod, wp_ret.
    set (s1 := s <| xs_caps := c |>).
    assert (Ec : c = snd (caps_issued_mask CEPH_CAP_XATTR_SHARED (xs_caps s))) by (by rewrite Em).
    assert (Hi1 : inv s1 l).
    { destruct Hi as [V1 V2 V3 V4 V5 V6 V7 V8 V9]. split; try done. cbn. by rewrite Ec, touch_held. }
    destruct ok.
    + apply wp_ret, (HQ 0 ws s1 l); try done; [by left|]. intros Hw. split; [done|]. split; [done|]. intros Hex. split; [done|].
      unfold quiet, same_view. cbn. rewrite Ec, touch_issued. split_and!; try done. intros m. apply touch_mask.
    + apply Hget; [|done|done]. intros (_ & _ & Hm). by rewrite Em in Hm.
Qed.

Lemma write_front l value : (length l <= length value)%nat -> write_bytes value 0 l = Ret (l ++ drop (length l) value).
Proof.
  intros Hl. pose proof (write_bytes_app l [] (take (length l) value) (drop (length l) value)) as Hw.
  cbn [app length] in Hw. rewrite take_drop in Hw. apply Hw. rewrite length_take. lia.
Qed.

(** The value of the attribute, or why there is none. *)
Lemma wp_getxattr (G : list (list Z * list Z) -> Prop) map ci mds name value ws s l :
  local name -> inv s l -> G l -> Forall (rely G) ws ->
  wp (ceph_getxattr kmalloc_ok map ci mds name value)
    (fun r w => exists ws' s' l', w = (ws', s') /\ inv s' l' /\ G l' /\ spare s' = spare s /\ (ws = [] -> l' = l) /\
       (r = spec_get l' name value \/ r = (mds, value) \/ r = (- ENOMEM, value)) /\
       (ws = [] -> exclusive s -> r = spec_get l name value /\ quiet s s')) (ws, s).
Proof.
  intros Hloc Hi Hsz Hws. unfold ceph_getxattr. cbv zeta. pose proof Hloc as (Hnul & Hval & Hpre).
  rewrite Hval, (local_not_virtual ci name Hloc). cbn [negb option_list List.find].
  apply wp_bind, (wp_fetch G mds ws s l); [done|done|done|]. intros r1 ws1 s1 l1 Hws1 Hi1 Hsz1 Sp1 Hr1 Al1.
  destruct (Z.eqb_spec r1 0) as [->|Hne]; cbn [negb].
  2:{ apply wp_ret. exists ws1, s1, l1. split_and!; try done.
      - intros Hw. by destruct (Al1 Hw) as (_ & -> & _).
      - destruct Hr1 as [?| ->]; [done|]. by right; left.
      - intros Hw Hex. destruct (Al1 Hw) as (_ & _ & Hx). by destruct (Hx Hex). }
  apply wp_bind. eapply wp_mono; [by apply (wp_build_xattrs kmalloc_ok G ws1 s1 l1)|].
  cbv beta. intros r w (ws2 & s2 & l2 & -> & [A1 A2 A3 A4 A5 A6 A7 A8 A9 A10 A11 A12 A13]). specialize (A10 Hmem).
  assert (Al2 : ws = [] -> l2 = l /\ r = 0 /\ (exclusive s -> quiet s s2)).
  { intros Hw. destruct (Al1 Hw) as (-> & -> & Hx). destruct (A11 eq_refl) as (-> & -> & C1 & C2 & C3 & C4 & D4).
    split_and!; auto. intros Hex. destruct (Hx Hex) as [_ [(W1 & W2 & W3 & W4) W5]]. unfold quiet, same_view.
    by rewrite C1, C2, C4, D4. }
  assert (Hend : forall out, out = spec_get l2 name value -> exists ws' s' l', (ws2, s2) = (ws', s') /\ inv s' l' /\ G l' /\
    spare s' = spare s /\ (ws = [] -> l' = l) /\ (out = spec_get l' name value \/ out = (mds, value) \/ out = (- ENOMEM, value)) /\
    (ws = [] -> exclusive s -> out = spec_get l name value /\ quiet s s')).
  { intros out ->. exists ws2, s2, l2. split_and!; try done; [by rewrite A5|intros Hw; by destruct (Al2 Hw)|by left|].
    intros Hw Hex. destruct (Al2 Hw) as (-> & _ & Hv). auto. }
  destruct (Z.ltb_spec r 0) as [Hlt|Hge].
  { apply wp_ret. exists ws2, s2, l2. split_and!; try done; [by rewrite A5|intros Hw; by destruct (Al2 Hw)| |].
    - destruct A8 as [?| ->]; [lia|]. by right; right.
    - intros Hw. destruct (Al2 Hw) as (_ & -> & _). lia. }
  pose proof (v_abs _ _ A3) as Hix. rewrite A10 in Hix. pose proof (ix_size _ _ _ Hix) as Hs2.
  apply wp_bind. eapply wp_mono; [by apply (wp_get_xattr ws2 s2 l2 name)|]. cbv beta. intros [[q x]|] w [-> Hx].
  2:{ apply wp_ret, Hend. unfold spec_get. by rewrite Hx. }
  destruct Hx as (Hq & Hn & Hl & He). destruct (entry_lens _ _ _ He) as [_ Ev]. rewrite Ev.
  assert (Hvl : 0 <= Z.of_nat (length (val_of (xs_mem s2) x)) < 2 ^ 31).
  { split; [lia|]. pose proof (look_size _ _ _ Hl). lia. }
  rewrite u64_small by lia. assert (Hsg : spec_get l2 name value = _) by (unfold spec_get; rewrite Hl; reflexivity).
  cbv zeta in Hsg.
  destruct (Z.eqb_spec (Z.of_nat (length value)) 0) as [Ez|Ez]; cbn [negb andb].
  - apply wp_ret, Hend. by rewrite Hsg.
  - destruct (Z.ltb_spec (Z.of_nat (length value)) (Z.of_nat (length (val_of (xs_mem s2) x)))) as [Hlt|Hge2].
    + apply wp_ret, Hend. by rewrite Hsg.
    + apply wp_bind, wp_getmem, wp_bind. eapply wp_lift; [rewrite <- Ev; apply He|].
      apply wp_bind. eapply wp_lift; [apply write_front; lia|]. apply wp_ret, Hend. by rewrite Hsg.
Qed.

(** ** [ceph_listxattr] *)
(** The names in order, then those of the virtual attributes that are shown. *)
Definition shown (ci : vinode) : list ceph_vxattr :=
  List.filter (fun v => negb (vx_hidden v) && vx_exists v ci) (ceph_inode_vxattrs ci).
Definition listing (l : list (list Z * list Z)) (ci : vinode) : list Z :=
  mbind (fun a => a.1 ++ [0]) l ++ mbind (fun v => vx_name v ++ [0]) (shown ci).

Definition spec_list (l : list (list Z * list Z)) (ci : vinode) (names : list Z) : Z * list Z :=
  let size := Z.of_nat (length names) in
  let n := Z.of_nat (length (listing l ci)) in
  if size =? 0 then (n, names)
  else if size <? n then (- ERANGE, names)
  else (n, listing l ci ++ drop (length (listing l ci)) names).

Lemma names_length l : Z.of_nat (length (mbind (fun a : list Z * list Z => a.1 ++ [0]) l)) = names_size l + Z.of_nat (length l).
Proof.
  induction l as [|a l IH]; [done|]. change (mbind _ (a :: l)) with ((a.1 ++ [0]) ++ mbind (fun a : list Z * list Z => a.1 ++ [0]) l).
  change (names_size (a :: l)) with (Z.of_nat (length a.1) + names_size l). rewrite !length_app. cbn [length]. lia.
Qed.

Lemma shown_length ci : Z.of_nat (length (mbind (fun v => vx_name v ++ [0]) (shown ci))) = ceph_vxattrs_name_size ci /\
  0 <= ceph_vxattrs_name_size ci < 1024.
Proof. unfold shown, ceph_vxattrs_name_size, ceph_inode_vxattrs. destruct (vi_type ci); by vm_compute. Qed.

(** The copy of the names, into a buffer [pre ++ mid ++ tl] whose [mid] has the
    right length. *)
Lemma copy_names_app m blob xs : forall pre mid tl,
  Forall (entry_ok m blob) xs -> length mid = length (mbind (fun a : list Z * list Z => a.1 ++ [0]) (pairs m xs)) ->
  copy_names xs m (pre ++ mid ++ tl) (Z.of_nat (length pre)) =
  Ret (pre ++ mbind (fun a : list Z * list Z => a.1 ++ [0]) (pairs m xs) ++ tl, Z.of_nat (length (pre ++ mid))).
Proof.
  induction xs as [|x xs IH]; intros pre mid tl He Hl; cbn [copy_names].
  { destruct mid; [|done]. by rewrite app_nil_r. }
  apply Forall_cons in He as [Hx He]. destruct (entry_lens _ _ _ Hx) as [En _].
  change (mbind (fun a : list Z * list Z => a.1 ++ [0]) (pairs m (x :: xs)))
    with ((name_of m x ++ [0]) ++ mbind (fun a : list Z * list Z => a.1 ++ [0]) (pairs m xs)) in *.
  rewrite length_app in Hl. apply split_len in Hl as (m1 & r & -> & L1 & L2). rewrite length_app in L1. cbn [length] in L1.
  apply split_len in L1 as (m2 & z & -> & L3 & L4). destruct z as [|z []]; [done| |done].
  rewrite (e_name _ _ _ Hx). cbn [obind]. rewrite <- !app_assoc. rewrite write_bytes_app by done. cbn [obind].
  rewrite wr_total; [|rewrite !length_app; cbn [length]; lia]. cbn [obind]. rewrite En.
  replace (Z.to_nat (Z.of_nat (length pre) + Z.of_nat (length (name_of m x)))) with (length (pre ++ name_of m x))
    by (rewrite length_app; lia).
  rewrite (app_assoc pre (name_of m x)), insert_app_r_alt, Nat.sub_diag by lia. cbn [app insert list_insert].
  replace (Z.of_nat (length pre) + Z.of_nat (length (name_of m x)) + 1) with (Z.of_nat (length ((pre ++ name_of m x) ++ [0])))
    by (rewrite !length_app; cbn [length]; lia).
  change (0 :: r ++ tl) with ([0] ++ r ++ tl). rewrite (app_assoc (pre ++ name_of m x) [0]).
  rewrite IH by done. f_equal. f_equal; [by rewrite <- !app_assoc|]. rewrite !length_app. cbn [length]. lia.
Qed.

Lemma copy_vxattrs_app ci vs : forall pre mid tl err,
  length mid = length (mbind (fun v => vx_name v ++ [0]) (List.filter (fun v => negb (vx_hidden v) && vx_exists v ci) vs)) ->
  copy_vxattrs vs ci (pre ++ mid ++ tl) (Z.of_nat (length pre)) err =
  Ret (err + Z.of_nat (length mid),
       pre ++ mbind (fun v => vx_name v ++ [0]) (List.filter (fun v => negb (vx_hidden v) && vx_exists v ci) vs) ++ tl).
Proof.
  induction vs as [|v vs IH]; intros pre mid tl err Hl; cbn [copy_vxattrs List.filter].
  { destruct mid; [|done]. by rewrite Z.add_0_r. }
  cbn [List.filter] in Hl. destruct (negb (vx_hidden v) && vx_exists v ci); [|by apply IH].
  match type of Hl with _ = length (mbind ?f (v :: ?t)) => change (mbind f (v :: t)) with (f v ++ mbind f t) in * end.
  cbv beta in *. rewrite length_app in Hl. apply split_len in Hl as (m1 & r & -> & L1 & L2).
  rewrite <- app_assoc, write_bytes_app by done. cbn [obind].
  replace (Z.of_nat (length pre) + Z.of_nat (length (vx_name v)) + 1) with (Z.of_nat (length (pre ++ vx_name v ++ [0])))
    by (rewrite !length_app; cbn [length]; lia).
  rewrite (app_assoc pre (vx_name v ++ [0])), IH by done. f_equal. f_equal.
  - rewrite length_app in *. cbn [length] in *. lia.
  - by rewrite <- !app_assoc.
Qed.

(** All names with their terminating 0, or why there are none. *)
Lemma wp_listxattr (G : list (list Z * list Z) -> Prop) ci mds names ws s l :
  (forall l, G l -> blob_size l + 1024 < 2 ^ 31) -> inv s l -> G l -> Forall (rely G) ws ->
  wp (ceph_listxattr kmalloc_ok ci mds names)
    (fun r w => exists ws' s' l', w = (ws', s') /\ inv s' l' /\ G l' /\ spare s' = spare s /\ (ws = [] -> l' = l) /\
       (r = spec_list l' ci names \/ r = (mds, names) \/ r = (- ENOMEM, names)) /\
       (ws = [] -> exclusive s -> r = spec_list l ci names /\ quiet s s')) (ws, s).
Proof.
  intros HG Hi Hsz Hws. unfold ceph_listxattr. cbv zeta.
  apply wp_bind, (wp_fetch G mds ws s l); [done|done|done|]. intros r1 ws1 s1 l1 Hws1 Hi1 Hsz1 Sp1 Hr1 Al1.
  destruct (Z.eqb_spec r1 0) as [->|Hne]; cbn [negb].
  2:{ apply wp_ret. exists ws1, s1, l1. split_and!; try done.
      - intros Hw. by destruct (Al1 Hw) as (_ & -> & _).
      - destruct Hr1 as [?| ->]; [done|]. by right; left.
      - intros Hw Hex. destruct (Al1 Hw) as (_ & _ & Hx). by destruct (Hx Hex). }
  apply wp_bind. eapply wp_mono; [by apply (wp_build_xattrs kmalloc_ok G ws1 s1 l1)|].
  cbv beta. intros r w (ws2 & s2 & l2 & -> & [A1 A2 A3 A4 A5 A6 A7 A8 A9 A10 A11 A12 A13]). specialize (A10 Hmem).
  assert (Al2 : ws = [] -> l2 = l /\ r = 0 /\ (exclusive s -> quiet s s2)).
  { intros Hw. destruct (Al1 Hw) as (-> & -> & Hx). destruct (A11 eq_refl) as (-> & -> & C1 & C2 & C3 & C4 & D4).
    split_and!; auto. intros Hex. destruct (Hx Hex) as [_ [(W1 & W2 & W3 & W4) W5]]. unfold quiet, same_view.
    by rewrite C1, C2, C4, D4. }
  assert (Hend : forall out, out = spec_list l2 ci names -> exists ws' s' l', (ws2, s2) = (ws', s') /\ inv s' l' /\ G l' /\
    spare s' = spare s /\ (ws = [] -> l' = l) /\ (out = spec_list l' ci names \/ out = (mds, names) \/ out = (- ENOMEM, names)) /\
    (ws = [] -> exclusive s -> out = spec_list l ci names /\ quiet s s')).
  { intros out ->. exists ws2, s2, l2. split_and!; try done; [by rewrite A5|intros Hw; by destruct (Al2 Hw)|by left|].
    intros Hw Hex. destruct (Al2 Hw) as (-> & _ & Hv). auto. }
  destruct (Z.ltb_spec r 0) as [Hlt|Hge].
  { apply wp_ret. exists ws2, s2, l2. split_and!; try done; [by rewrite A5|intros Hw; by destruct (Al2 Hw)| |].
    - destruct A8 as [?| ->]; [lia|]. by right; right.
    - intros Hw. destruct (Al2 Hw) as (_ & -> & _). lia. }
  pose proof (v_abs _ _ A3) as Hix. rewrite A10 in Hix. apply wp_bind, wp_getx.
  rewrite (ix_names _ _ _ Hix), (ix_count _ _ _ Hix). destruct (shown_length ci) as [Hsh Hvir]. pose proof (names_length l2) as Hnl.
  pose proof (blob_size_bounds l2) as Hbs. pose proof (sizes_nonneg l2) as Hnn.
  assert (Hlen : Z.of_nat (length (listing l2 ci)) = names_size l2 + Z.of_nat (length l2) + ceph_vxattrs_name_size ci).
  { unfold listing. rewrite length_app. lia. }
  assert (Hbig : names_size l2 + Z.of_nat (length l2) + ceph_vxattrs_name_size ci < 2 ^ 31) by (pose proof (HG l2 A4); unfold blob_size in *; lia).
  rewrite !u32_small by (rewrite ?u32_small; lia). rewrite !s32_small by lia.
  assert (Hsl : spec_list l2 ci names = _) by (unfold spec_list; reflexivity). cbv zeta in Hsl.
  replace (ceph_vxattrs_name_size ci + (names_size l2 + Z.of_nat (length l2))) with (Z.of_nat (length (listing l2 ci))) by lia.
  replace (names_size l2 + Z.of_nat (length l2) + ceph_vxattrs_name_size ci) with (Z.of_nat (length (listing l2 ci))) by lia.
  destruct (Z.eqb_spec (Z.of_nat (length names)) 0) as [Ez|Ez]; cbn [negb andb].
  { apply wp_ret, Hend. by rewrite Hsl. }
  destruct (Z.ltb_spec (Z.of_nat (length names)) (Z.of_nat (length (listing l2 ci)))) as [Hlt|Hge2].
  { apply wp_ret, Hend. by rewrite Hsl. }
  set (n1 := mbind (fun a : list Z * list Z => a.1 ++ [0]) l2) in *.
  set (n2 := mbind (fun v => vx_name v ++ [0]) (shown ci)) in *.
  destruct (split_len names (length n1) (length names - length n1)) as (m1 & r' & Em & L1 & Lr); [unfold listing in *; rewrite length_app in *; lia|].
  destruct (split_len r' (length n2) (length r' - length n2)) as (m2 & tl & Er & L2 & _).
  { subst names. unfold listing in *. rewrite !length_app in *. lia. }
  assert (Hpairs : pairs (xs_mem s2) (inorder (i_index (xs_x s2))) = l2) by apply Hix.
  apply wp_bind. unfold __copy_xattr_names. apply wp_bind, wp_getx, wp_bind, wp_getmem.
  pose proof (copy_names_app (xs_mem s2) (i_blob (xs_x s2)) (inorder (i_index (xs_x s2))) [] m1 r') as Hcp.
  rewrite Hpairs in Hcp. fold n1 in Hcp. cbn [app length] in Hcp. rewrite <- Em in Hcp.
  eapply wp_lift; [apply Hcp; [apply Hix|done]|]. rewrite L1, Er.
  pose proof (copy_vxattrs_app ci (ceph_inode_vxattrs ci) n1 m2 tl (names_size l2 + Z.of_nat (length l2))) as Hcv.
  fold (shown ci) in Hcv. fold n2 in Hcv. eapply wp_lift; [apply Hcv; exact L2|]. apply Hend. rewrite Hsl. unfold listing. fold n1 n2.
  rewrite L2. f_equal; [rewrite length_app; lia|]. rewrite Em, Er, <- app_assoc. do 2 f_equal.
  rewrite length_app, <- L1, <- L2, <- length_app, app_assoc, drop_app_length. done.
Qed.
End Client.
