(* ===== verification/XattrTrace.v ===== *)
(** * Extended attributes: updates from the MDS, flushes, and runs

    A blob from the MDS and a change of capabilities are windows the operations
    tolerate ([fill_rely], [caps_rely]).  A flush sends [blob_of l].  While the
    client has the capability Xx, any sequence of operations gives the results
    that the association list gives, and updates from the MDS are ignored. *)
From S2P Require Import Prelude.
From S2P Require Import Wire.
From S2P Require Import RbTree.
From S2P Require Import StateM.
From S2P Require Import Buffer.
From S2P Require Import OsdMap.
From S2P Require Import FileLayout.
From S2P Require Import PgActing.
From S2P Require Import VXattr.
From S2P Require Import Xattr.
From S2P Require Import XattrIndex.
From S2P Require Import XattrOps.
From S2P Require Import XattrBlob.
From S2P Require Import XattrRefine.
From S2P Require Import XattrClient.
From stdpp Require Import fin_maps gmap sorting.
#[local] Open Scope Z_scope.
#[local] Open Scope ceph_scope.
#[local] Open Scope st_scope.

Section Trace.
Context `{RbOps} `{CapsLaws} (kmalloc_ok : nat -> Z -> bool).
Hypothesis Hmem : no_failure kmalloc_ok.

(** ** Updates from the MDS *)
(** A newer blob is taken unless this client's attributes are the valid ones. *)
Definition takes_update (s : xstate) (version : Z) : bool :=
  ((i_version (xs_x s) =? 0) || (Z.land (caps_held (xs_caps s)) CEPH_CAP_XATTR_EXCL =? 0)) && (i_version (xs_x s) <? version).

Lemma takes_not_dirty s l version : inv s l -> takes_update s version = true ->
  i_dirty (xs_x s) = false /\ i_version (xs_x s) < version.
Proof.
  intros Hi [Ht Hlt%Z.ltb_lt]%andb_true_iff. split; [|done]. destruct (i_dirty (xs_x s)) eqn:Ed; [|done].
  destruct (v_caps _ _ Hi Ed) as [Hh Hv]. apply orb_true_iff in Ht as [?%Z.eqb_eq|?%Z.eqb_eq]; [lia|done].
Qed.

(** The memory after a new buffer was filled and old ones were dropped. *)
Record replaced_blob (s : xstate) (nb : option nat) (d : list Z) (m : mem) : Prop := {
  rb_strs : m_strs m = m_strs (xs_mem s);
  rb_nodes : m_nodes m = m_nodes (xs_mem s);
  rb_next : (m_next (xs_mem s) <= m_next m)%nat;
  rb_bufs : forall j y, m_bufs m !! j = Some y ->
    (j < m_next m)%nat /\ 0 < b_kref y /\ Z.of_nat (length (b_base y)) = b_alloc_len y /\ 0 <= b_iov_len y <= b_alloc_len y;
  rb_prealloc : forall b, i_prealloc_blob (xs_x s) = Some b -> is_Some (m_bufs m !! b) /\ nb <> Some b;
  rb_new : forall b, nb = Some b -> exists y, m_bufs m !! b = Some y /\ b_base y = d /\
    b_iov_len y = Z.of_nat (length d) /\ b_alloc_len y = Z.of_nat (length d) }.

Lemma update_inv s l l0 version nb m :
  inv s l -> takes_update s version = true -> version < 2 ^ 31 -> attr_list l0 ->
  match nb with Some _ => l0 <> [] | None => l0 = [] end -> replaced_blob s nb (blob_of l0) m ->
  let s' := s <| xs_mem := m |> <| xs_x ::= fun i => i <| i_blob := nb |> <| i_version := version |> |> in
  inv s' (parse l0) /\ frame s s'.
Proof.
  intros Hi Ht Hv Ha Hnb [R1 R2 R3 R4 R5 R6] s'. destruct (takes_not_dirty _ _ _ Hi Ht) as [Hd Hlt].
  destruct Hi as [V1 V2 V3 V4 V5 V6 V7 V8 V9].
  assert (Hc : current s' = false) by (apply Z.eqb_neq; cbn; lia).
  split.
  - split; rewrite ?Hc; unfold s', over; cbn; try done.
    + intros i Hi. rewrite R1 in Hi. specialize (V2 i Hi). lia.
    + intros b ->. destruct (R6 b eq_refl) as (y & Hy & _). by eexists.
    + apply (owns_same (xs_mem s)); [done|]. by rewrite R1.
    + lia.
    + exists l0. split_and!; try done. destruct nb as [b|]; [|done]. destruct (R6 b eq_refl) as (y & Hy & Eb & Ei & El).
      assert (4 < blob_size l0).
      { destruct l0 as [|a l0]; [done|]. rewrite blob_size_cons. pose proof (blob_size_bounds l0). unfold blob_size in *. lia. }
      exists y. rewrite Eb, Ei, El, blob_of_length. split_and!; try done; try lia. destruct (Z.ltb_spec 4 (blob_size l0)); [|lia].
      split; [|done]. rewrite <- blob_of_length, Nat2Z.id, firstn_all. done.
    + congruence.
    + congruence.
  - split; unfold s', over; cbn; try done; lia.
Qed.

Lemma wp_buf_write0 ws s b x d (Q : unit -> list window * xstate -> Prop) :
  m_bufs (xs_mem s) !! b = Some x -> length (b_base x) = length d ->
  Q tt (ws, s <| xs_mem ::= set_base b d |>) -> wp (on_mem (buf_write b 0 d)) Q (ws, s).
Proof.
  intros Hb Hl HQ. assert (Es : s = s <| xs_mem ::= set_base b ([] ++ b_base x ++ []) |>).
  { cbn [app]. rewrite app_nil_r. destruct s as [i m c lg]. unfold over. cbn. by rewrite set_base_same. }
  rewrite Es. change 0 with (Z.of_nat (length (@nil Z))). apply (wp_buf_write ws s b x); [done|done|].
  cbn [app]. by rewrite app_nil_r.
Qed.

Lemma spec_fill ws s l l0 version :
  inv s l -> 0 <= version < 2 ^ 31 -> attr_list l0 ->
  wp (fill_inode_xattrs kmalloc_ok version (blob_of l0))
    (fun _ w => exists s', w = (ws, s') /\ inv s' (if takes_update s version then parse l0 else l) /\ frame s s' /\
       xs_caps s' = xs_caps s /\ xs_log s' = xs_log s /\
       (takes_update s version = false -> i_version (xs_x s') = i_version (xs_x s))) (ws, s).
Proof.
  intros Hi Hv Ha. unfold fill_inode_xattrs. cbv zeta. rewrite blob_of_length. apply wp_bind.
  match goal with |- wp _ ?R _ => set (Q := R) end.
  assert (HN : l0 = [] -> Q None (ws, s)).
  { intros E0. unfold Q. clear Q. apply wp_bind, wp_gets. fold (takes_update s version).
    destruct (takes_update s version) eqn:Ht.
    - apply wp_bind, wp_put_opt.
      { intros o Ho. destruct (v_blob _ _ Hi o Ho) as [x Hx]. exists x. split; [done|]. apply (v_bufs _ _ Hi o x Hx). }
      intros m' M1 M2 M3 M4 M5. apply wp_bind, wp_ret. unfold modx. apply wp_mod.
      destruct (update_inv s l l0 version None m') as [Hi' Hf']; try done; try lia; [|by eexists].
      split; try done; [lia| |].
      + intros j y Hy. destruct (M4 j y Hy) as (x & Hx & E1 & E2 & E3 & E4). destruct (v_bufs _ _ Hi j x Hx) as (? & ? & ? & ?).
        rewrite E1, E2, E3, M3. auto.
      + intros b Hb. destruct (v_prealloc _ _ Hi b Hb) as [Hs Hne]. split; [|done]. by rewrite M5.
    - apply wp_ret. exists s. by split_and!; try apply frame_refl. }
  destruct (Z.ltb_spec 4 (blob_size l0)) as [Hgt|Hle].
  2:{ apply wp_ret, HN. destruct l0 as [|a l0]; [done|]. rewrite blob_size_cons in Hle. pose proof (blob_size_bounds l0).
      unfold blob_size in *. lia. }
  clear HN. apply (wp_buffer_new kmalloc_ok); [lia|by intros s' _ Hnf|]. intros s1 B1. unfold Q. clear Q.
  set (nb := m_next (xs_mem s)). set (len := blob_size l0) in *. set (z := CephBuffer 1 _ len len). set (s2 := s1 <| xs_mem ::= _ |>).
  pose proof (bumped_inv _ _ _ _ B1 Hi) as Hi1.
  assert (Hl2 : forall j, m_bufs (xs_mem s2) !! j = if decide (j = nb) then Some z else m_bufs (xs_mem s) !! j).
  { intros j. unfold s2, over. cbn. rewrite (bp_bufs _ _ _ B1). case_decide; [subst; apply lookup_insert_eq|by apply lookup_insert_ne]. }
  assert (Hfresh : forall j x, m_bufs (xs_mem s) !! j = Some x -> j <> nb).
  { intros j x Hj. destruct (v_bufs _ _ Hi j x Hj) as [? _]. unfold nb. lia. }
  assert (Hx2 : xs_x s2 = xs_x s) by (unfold s2; cbn; apply B1).
  assert (Hc2 : xs_caps s2 = xs_caps s) by (unfold s2; cbn; apply B1).
  assert (Hg2 : xs_log s2 = xs_log s) by (unfold s2; cbn; apply B1).
  assert (Hn2 : m_next (xs_mem s2) = S nb) by (unfold s2, nb; cbn; by rewrite (bp_next _ _ _ B1)).
  assert (Hs2 : m_strs (xs_mem s2) = m_strs (xs_mem s)) by (unfold s2; cbn; apply B1).
  assert (Hd2 : m_nodes (xs_mem s2) = m_nodes (xs_mem s)) by (unfold s2; cbn; rewrite (bp_nodes _ _ _ B1); lia).
  clearbody s2.
  apply wp_bind, wp_gets. rewrite Hx2, Hc2. fold (takes_update s version). destruct (takes_update s version) eqn:Ht.
  - apply wp_bind, wp_put_opt.
    { intros o Ho. destruct (v_blob _ _ Hi o Ho) as [x Hx]. exists x. rewrite Hl2, decide_False by (by eapply Hfresh). split; [done|].
      apply (v_bufs _ _ Hi o x Hx). }
    intros m' M1 M2 M3 M4 M5. assert (Hnb : m_bufs m' !! nb = Some z).
    { rewrite M5, Hl2, decide_True; [done|done|]. intros Eb. destruct (v_blob _ _ Hi nb Eb) as [x Hx]. by apply (Hfresh nb x). }
    apply wp_bind. eapply (wp_buf_write0 _ _ nb z); [exact Hnb|unfold z, len; cbn; rewrite length_replicate, <- (blob_of_length l0); apply Nat2Z.id|].
    unfold modx. apply wp_mod. set (m3 := set_base nb (blob_of l0) m').
    assert (Hb3 : forall j, m_bufs m3 !! j = if decide (j = nb) then Some (z <| b_base := blob_of l0 |>) else m_bufs m' !! j).
    { intros j. unfold m3. case_decide as Hj; [subst j; by apply set_base_lookup|]. unfold set_base, over. cbn. by apply lookup_alter_ne. }
    assert (Hr : replaced_blob s (Some nb) (blob_of l0) m3).
    { pose proof (blob_of_length l0) as Hbl. split; unfold m3, set_base, over; cbn; rewrite ?M1, ?M2, ?M3, ?Hs2, ?Hd2, ?Hn2; try done.
      - unfold nb. lia.
      - intros j y Hy. change (m_bufs m3 !! j = Some y) in Hy. rewrite Hb3 in Hy. case_decide as Hj.
        + injection Hy as <-. subst j. cbn. fold len in Hbl. split_and!; [lia|lia|exact Hbl|lia|lia].
        + destruct (M4 j y Hy) as (x & Hx & E1 & E2 & E3 & E4). rewrite Hl2, decide_False in Hx by done.
          destruct (v_bufs _ _ Hi j x Hx) as (? & ? & ? & ?). rewrite E1, E2, E3. split_and!; auto; unfold nb; lia.
      - intros b Hb. destruct (v_prealloc _ _ Hi b Hb) as [[x Hx] Hne]. pose proof (Hfresh b x Hx). split; [|congruence].
        change (is_Some (m_bufs m3 !! b)). rewrite Hb3, decide_False, M5, Hl2, decide_False by done. by eexists.
      - intros b [= <-]. exists (z <| b_base := blob_of l0 |>). split.
        + change (m_bufs m3 !! nb = Some (z <| b_base := blob_of l0 |>)). by rewrite Hb3, decide_True.
        + split_and!; [done|symmetry; exact Hbl|symmetry; exact Hbl]. }
    destruct (update_inv s l l0 version (Some nb) m3) as [Hi' Hf']; try done; try lia.
    { intros ->. unfold len in Hgt. by vm_compute in Hgt. }
    assert (Es : s <| xs_mem := m3 |> <| xs_x ::= fun i => i <| i_blob := Some nb |> <| i_version := version |> |> =
      s2 <| xs_mem := m' |> <| xs_mem ::= set_base nb (blob_of l0) |> <| xs_x ::= fun i => i <| i_blob := Some nb |> <| i_version := version |> |>).
    { unfold over. cbn. by rewrite Hx2, Hc2, Hg2. }
    rewrite Es in Hi', Hf'. eexists. split; [done|]. by split_and!.
  - apply (wp_buffer_put ws s2 nb z); [by rewrite Hl2, decide_True|done|]. intros m' [U1 U2 (U3 & U4 & U5)].
    assert (Hdel : m_bufs m' = m_bufs (xs_mem s)).
    { apply map_eq. intros j. destruct (decide (j = nb)) as [->|Hj]; [|by rewrite U1, Hl2, decide_False].
      destruct (m_bufs m' !! nb) as [y|] eqn:Hy; [destruct (U2 y eq_refl) as [-> Hk]; by cbn in Hk|].
      symmetry. destruct (m_bufs (xs_mem s) !! nb) as [x|] eqn:Hx; [by destruct (Hfresh nb x Hx)|done]. }
    eexists. split; [done|]. split_and!; try done.
    + destruct Hi as [V1 V2 V3 V4 V5 V6 V7 V8 V9].
      split; unfold over; cbn; rewrite ?Hx2, ?Hc2, ?Hdel, ?U3, ?Hs2, ?U5, ?Hn2; try done.
      * intros j y Hy. destruct (V1 j y Hy) as (? & ? & ? & ?). split_and!; try done; try lia; unfold nb; lia.
      * intros i Hj. specialize (V2 i Hj). unfold nb. lia.
      * apply (owns_same (xs_mem s)); [done|]. by rewrite U3, Hs2.
      * change (current _) with (current s). destruct (current s).
        -- apply (indexed_frame (xs_x s) _ (xs_mem s)); try done; [by rewrite Hdel|by rewrite U3, Hs2].
        -- destruct V7 as (l1 & ? & Hb & ->). exists l1. split_and!; try done. unfold blob_holds in *. by rewrite Hdel.
    + split; unfold over; cbn; rewrite ?Hx2, ?U3, ?Hs2, ?U4, ?Hd2, ?U5, ?Hn2; try done; unfold nb; try lia; by rewrite Hdel.
    + unfold over. cbn. by rewrite Hx2.
Qed.
(** What other threads do while an operation waits: a reply of the MDS with the
    attributes is handled, or the capabilities change. *)
Inductive xevent :=
  | EFill (version : Z) (attrs : list (list Z * list Z))
  | ECaps (f : caps -> caps).

Definition happen (e : xevent) : window := fun s =>
  match e with
  | EFill version attrs =>
      match fill_inode_xattrs kmalloc_ok version (blob_of attrs) ([], s) with
      | Ret (_, (_, s')) => s'
      | _ => s
      end
  | ECaps f => s <| xs_caps ::= f |>
  end.

(** A blob from the MDS is well formed, and a capability under which changes
    are kept stays held until they are flushed. *)
Definition sound (e : xevent) : Prop :=
  match e with
  | EFill version attrs => 0 <= version < 2 ^ 31 /\ attr_list attrs
  | ECaps f => forall c, Z.land (caps_held c) CEPH_CAP_XATTR_EXCL <> 0 -> Z.land (caps_held (f c)) CEPH_CAP_XATTR_EXCL <> 0
  end.

(** The attributes of the inode at the start, or those of one of the events. *)
Definition seen (l : list (list Z * list Z)) (es : list xevent) (l' : list (list Z * list Z)) : Prop :=
  l' = l \/ exists version attrs, EFill version attrs ∈ es /\ l' = parse attrs.

Lemma happen_rely l0 es e : e ∈ es -> sound e -> rely (seen l0 es) (happen e).
Proof.
  destruct e as [version attrs|f]; intros Hin Hs s l Hi Hsz.
  - destruct Hs as [Hv Ha].
    destruct (proj1 (wp_run _ _ _) (spec_fill [] s l attrs version Hi Hv Ha)) as (r & w & Hr & s' & -> & Hi' & Hf & _).
    unfold happen. rewrite Hr. eexists. split; [exact Hi'|]. split; [|done]. destruct (takes_update s version); [|done].
    right. by exists version, attrs.
  - exists l. split; [|split; [done|by split]]. destruct Hi as [V1 V2 V3 V4 V5 V6 V7 V8 V9]. split; try done.
    intros Hd. destruct (V9 Hd). split; [by apply Hs|done].
Qed.

Lemma happen_all l es : Forall sound es -> Forall (rely (seen l es)) (happen <$> es).
Proof.
  intros Hes. apply Forall_fmap, Forall_forall. intros e He. apply happen_rely; [done|]. rewrite Forall_forall in Hes. auto.
Qed.

Lemma parse_size l : blob_size (parse l) <= blob_size l.
Proof. pose proof (put_all_size l []) as Hp. change (blob_size []) with 4 in Hp. unfold parse. lia. Qed.

(** ** Flushes *)
(** One more reference to a buffer changes nothing for the attributes. *)
Lemma ref_inv s l b x : inv s l -> m_bufs (xs_mem s) !! b = Some x ->
  let s' := s <| xs_mem ::= fun m => m <| m_bufs ::= insert b (x <| b_kref ::= Z.succ |>) |> |> in
  inv s' l /\ spare s' = spare s /\ (forall i v, private s i v -> private s' i v).
Proof.
  intros [V1 V2 V3 V4 V5 V6 V7 V8 V9] Hb s'.
  assert (Hl : forall j, m_bufs (xs_mem s') !! j = if decide (j = b) then Some (x <| b_kref ::= Z.succ |>) else m_bufs (xs_mem s) !! j).
  { intros j. unfold s', over. cbn. case_decide; [subst; apply lookup_insert_eq|by apply lookup_insert_ne]. }
  assert (Hs : forall j, is_Some (m_bufs (xs_mem s) !! j) -> is_Some (m_bufs (xs_mem s') !! j)).
  { intros j. rewrite Hl. by case_decide. }
  assert (Hc : current s' = current s) by done.
  split; [|done]. split; rewrite ?Hc; try done.
  - intros j y. rewrite Hl. case_decide as Hj; [|apply V1]. intros [= <-]. subst j.
    destruct (V1 b x Hb) as (? & ? & ? & ?). cbn. split_and!; try done; lia.
  - intros j Hj. apply Hs, V3, Hj.
  - intros j Hj. destruct (V4 j Hj). auto.
  - by apply (owns_same (xs_mem s)).
  - destruct (current s).
    + apply (indexed_other (xs_x s) _ (xs_mem s)); try done. split; [|done]. intros j _. rewrite Hl. case_decide; [subst|done].
      by rewrite Hb.
    + destruct V7 as (l0 & Ha & Hh & ->). exists l0. split_and!; try done. change (i_blob (xs_x s')) with (i_blob (xs_x s)).
      destruct (i_blob (xs_x s)) as [o|]; [|done]. destruct Hh as (y & Hy & Hr). unfold blob_holds. rewrite Hl.
      case_decide; [|by exists y]. subst o. assert (y = x) as -> by congruence. by exists (x <| b_kref ::= Z.succ |>).
  - intros Hd. destruct (V8 Hd) as (? & o & y & Ho & Hy & Hf). split; [done|]. exists o.
    rewrite Hl. case_decide; [|by exists y]. subst o. assert (y = x) as -> by congruence. by exists (x <| b_kref ::= Z.succ |>).
Qed.

(** A flush sends the attributes; the blob it sends is then the one of the inode. *)
Lemma wp_send_cap s l :
  inv s l -> i_dirty (xs_x s) = true -> i_version (xs_x s) + 1 < 2 ^ 31 ->
  wp send_cap_xattrs
    (fun r w => exists s', w = ([], s') /\ r = Some (blob_of l) /\ inv s' l /\ i_dirty (xs_x s') = false /\
       i_version (xs_x s') = i_version (xs_x s) + 1 /\ xs_caps s' = xs_caps s /\ xs_log s' = xs_log s /\ spare s' = spare s)
    ([], s).
Proof.
  intros Hi Hd Hv. unfold send_cap_xattrs. apply wp_bind. eapply wp_mono; [by apply wp_build_blob|].
  cbv beta. intros ? w (b & m & Hp & Hw & ->). destruct (flushed_inv s l b m Hi Hd Hp Hv Hw) as (Hi1 & _ & Sp1 & _).
  set (s1 := s <| xs_mem := m |> <| xs_x ::= flushed b |>) in *.
  destruct (w_blob _ _ _ _ Hw) as (_ & y & _ & Hy & _ & _ & _ & _ & Ht).
  apply wp_bind, wp_getx, wp_bind. unfold wp at 1, unlocked. change (i_blob (xs_x s1)) with (Some b). cbv match.
  apply wp_bind, wp_on_mem. unfold ceph_buffer_get, get_buf, put_buf. apply wp_bind. unfold wp at 1. cbn [xs_mem].
  change (m_bufs (xs_mem s1) !! b) with (m_bufs m !! b). rewrite Hy. apply wp_bind, wp_mod, wp_ret.
  destruct (ref_inv s1 l b y Hi1 Hy) as (Hi2 & Sp2 & _).
  apply wp_bind, (wp_get_buf _ _ b (y <| b_kref ::= Z.succ |>)); [unfold over; cbn; apply lookup_insert_eq|].
  apply wp_ret. eexists. split; [done|]. split; [by rewrite <- Ht|]. split; [exact Hi2|].
  split_and!; try done. unfold over, flushed; cbn. destruct (v_version _ _ Hi). rewrite u64_small; lia.
Qed.
(** ** Sequences of operations *)
Inductive xop :=
  | XGet (ci : vinode) (name value : list Z)
  | XList (ci : vinode) (names : list Z)
  | XSet (ci : vinode) (name : list Z) (value : option (list Z)) (flags : Z)
  | XRemove (ci : vinode) (name : list Z)
  | XFlush
  | XUpdate (version : Z) (attrs : list (list Z * list Z)).

Inductive xres :=
  | RBytes (r : Z * list Z)
  | RCode (r : Z)
  | RBlob (b : option (list Z))
  | RDone.

(** [map] and [mds] are read by virtual attributes and by requests only. *)
Definition run_op (map : ceph_osdmap) (mds : Z) (o : xop) : XM xres :=
  match o with
  | XGet ci name value => r ↢ ceph_getxattr kmalloc_ok map ci mds name value; sret (RBytes r)
  | XList ci names => r ↢ ceph_listxattr kmalloc_ok ci mds names; sret (RBytes r)
  | XSet ci name value flags => r ↢ ceph_setxattr kmalloc_ok ci false mds name value flags; sret (RCode r)
  | XRemove ci name => r ↢ ceph_removexattr kmalloc_ok ci false mds name; sret (RCode r)
  | XFlush => r ↢ send_cap_xattrs; sret (RBlob r)
  | XUpdate version attrs => _ ↢ fill_inode_xattrs kmalloc_ok version (blob_of attrs); sret RDone
  end.

(** Each operation runs alone: the other threads do nothing while it waits. *)
Fixpoint run_ops (map : ceph_osdmap) (mds : Z) (os : list xop) (s : xstate) : outcome (list xres * xstate) :=
  match os with
  | [] => Ret ([], s)
  | o :: os =>
      '(r, (_, s)) ← run_op map mds o ([], s);
      '(rs, s) ← run_ops map mds os s;
      Ret (r :: rs, s)
  end.

(** The specification: the attributes, the version of the last flush and
    whether there were changes since. *)
Record attrs_view := AttrsView {
  a_attrs : list (list Z * list Z);
  a_version : Z;
  a_dirty : bool }.

Definition spec_op (o : xop) (a : attrs_view) : xres * attrs_view :=
  match o with
  | XGet _ name value => (RBytes (spec_get (a_attrs a) name value), a)
  | XList ci names => (RBytes (spec_list (a_attrs a) ci names), a)
  | XSet _ name value flags =>
      let '(r, l) := spec_set (a_attrs a) name value flags in (RCode r, AttrsView l (a_version a) ((r =? 0) || a_dirty a))
  | XRemove _ name => let '(r, l) := spec_remove (a_attrs a) name in (RCode r, AttrsView l (a_version a) true)
  | XFlush => (RBlob (Some (blob_of (a_attrs a))), AttrsView (a_attrs a) (a_version a + 1) false)
  | XUpdate _ _ => (RDone, a)
  end.

Fixpoint spec_ops (os : list xop) (a : attrs_view) : list xres * attrs_view :=
  match os with
  | [] => ([], a)
  | o :: os => let '(r, a) := spec_op o a in let '(rs, a) := spec_ops os a in (r :: rs, a)
  end.

(** Names are those of this client, sizes and versions stay below 2^31, a flush
    has something to flush, and an update has a well formed blob. *)
Definition allowed (o : xop) (a : attrs_view) : Prop :=
  match o with
  | XGet _ name _ => local name
  | XList _ _ => blob_size (a_attrs a) + 1024 < 2 ^ 31
  | XSet _ name value _ => local name /\
      blob_size (a_attrs a) + room (Z.of_nat (length name)) (Z.of_nat (length (default [] value))) < 2 ^ 31
  | XRemove _ name => local name
  | XFlush => a_dirty a = true /\ a_version a + 1 < 2 ^ 31
  | XUpdate version attrs => 0 <= version < 2 ^ 31 /\ attr_list attrs
  end.

Fixpoint all_allowed (os : list xop) (a : attrs_view) : Prop :=
  match os with
  | [] => True
  | o :: os => allowed o a /\ all_allowed os (snd (spec_op o a))
  end.

(** The inode shows [a] to a client that has the capability Xx. *)
Record shows (s : xstate) (a : attrs_view) : Prop := {
  sh_inv : inv s (a_attrs a);
  sh_version : i_version (xs_x s) = a_version a;
  sh_dirty : i_dirty (xs_x s) = a_dirty a;
  sh_excl : exclusive s }.

Lemma same_view_exclusive s s' : same_view s s' -> exclusive s -> exclusive s'.
Proof. intros (E1 & E2 & E3 & _) (? & ? & ?). unfold exclusive. by rewrite E1, E2, E3. Qed.

Lemma quiet_shows s s' a : shows s a -> inv s' (a_attrs a) -> quiet s s' -> shows s' a.
Proof.
  intros [V1 V2 V3 V4] Hi [Hv Hd]. split; [done| | |by eapply same_view_exclusive].
  - destruct Hv as [-> _]. done.
  - congruence.
Qed.

Lemma changed_shows s a spec leak force r s' l' :
  shows s a -> inv s' l' -> changed (eq (a_attrs a)) [] s (a_attrs a) spec leak force r s' l' ->
  (r, l') = spec (a_attrs a) /\ shows s' (AttrsView l' (a_version a) (force || (r =? 0) || a_dirty a)).
Proof.
  intros [V1 V2 V3 V4] Hi [(l1 & Hs & _ & Hl) _ Hv]. rewrite (Hl eq_refl) in Hs. destruct (Hv eq_refl) as [Hw Hd].
  split; [done|]. split; [done| | |by eapply same_view_exclusive].
  - destruct Hw as [-> _]. done.
  - cbn. by rewrite Hd, V3.
Qed.

Lemma run_op_spec map mds o s a :
  shows s a -> allowed o a ->
  wp (run_op map mds o) (fun r w => exists ws s', w = (ws, s') /\ r = fst (spec_op o a) /\ shows s' (snd (spec_op o a))) ([], s).
Proof.
  intros Hs Ha. pose proof Hs as [V1 V2 V3 V4]. destruct o as [ci name value|ci names|ci name value flags|ci name| |version attrs];
    cbn [run_op allowed spec_op] in *; apply wp_bind.
  - eapply wp_mono; [by apply (wp_getxattr kmalloc_ok Hmem (eq (a_attrs a)) map ci mds name value [] s)|].
    cbv beta. intros r w (ws' & s' & l' & -> & Hi & _ & _ & El & _ & Hx). rewrite (El eq_refl) in Hi.
    destruct (Hx eq_refl V4) as [-> Hq]. apply wp_ret. exists ws', s'. split_and!; try done. by eapply quiet_shows.
  - eapply wp_mono; [apply (wp_listxattr kmalloc_ok Hmem (eq (a_attrs a)) ci mds names [] s (a_attrs a)); try done; by intros ? <-|].
    cbv beta. intros r w (ws' & s' & l' & -> & Hi & _ & _ & El & _ & Hx). rewrite (El eq_refl) in Hi.
    destruct (Hx eq_refl V4) as [-> Hq]. apply wp_ret. exists ws', s'. split_and!; try done. by eapply quiet_shows.
  - destruct Ha as [Hl Hz]. eapply wp_mono; [apply (wp_setxattr kmalloc_ok Hmem (eq (a_attrs a)) ci mds name value flags [] s (a_attrs a)); try done; by intros ? <-|].
    cbv beta. intros r w (ws' & s' & l' & -> & Hi & [Hc|[_ _ _ Hd]]); [|by destruct (Hd eq_refl) as (_ & _ & [])].
    destruct (changed_shows _ _ _ _ _ _ _ _ Hs Hi Hc) as [<- Hv]. apply wp_ret. by exists ws', s'.
  - eapply wp_mono; [apply (wp_removexattr kmalloc_ok Hmem (eq (a_attrs a)) ci mds name [] s (a_attrs a)); [intros ? <-; pose proof (inv_size _ _ V1); lia|done|done|done|done]|].
    cbv beta. intros r w (ws' & s' & l' & -> & Hi & [Hc|[_ _ _ Hd]]); [|by destruct (Hd eq_refl) as (_ & _ & [])].
    destruct (changed_shows _ _ _ _ _ _ _ _ Hs Hi Hc) as [<- Hv]. apply wp_ret. by exists ws', s'.
  - destruct Ha as [Hd Hv]. eapply wp_mono; [apply (wp_send_cap s (a_attrs a)); congruence|].
    cbv beta. intros r w (s' & -> & -> & Hi & Hd' & Hv' & Hc & Hl & _). apply wp_ret. exists [], s'. split; [done|]. split; [done|].
    split; [done|cbn; congruence|done|]. destruct V4 as (? & ? & ?). unfold exclusive. rewrite Hc, Hv'. split_and!; try done.
    pose proof (v_version _ _ V1). lia.
  - destruct Ha as [Hv Hl]. eapply wp_mono; [by apply (spec_fill [] s (a_attrs a) attrs version)|].
    cbv beta. intros r w (s' & -> & Hi & Hf & Hc & Hlg & Hver). apply wp_ret. exists [], s'. split; [done|]. split; [done|].
    assert (Ht : takes_update s version = false).
    { destruct V4 as (E1 & E2%issued_held & _). unfold takes_update. apply Z.eqb_neq in E1, E2. by rewrite E1, E2. }
    rewrite Ht in Hi. specialize (Hver Ht). destruct (f_counts _ _ Hf) as (_ & _ & _ & Hdi).
    split; [done|cbn; congruence|cbn; congruence|]. unfold exclusive. by rewrite Hver, Hc.
Qed.



End Trace.

(** ** Witnesses: capabilities as the masks issued and dirty *)
#[local, refine] Instance plain_caps : Caps := {|
  caps := Z * Z;
  caps_issued := fst;
  caps_issued_mask := fun m c => (Z.land (fst c) m =? m, c);
  caps_held := fun c => Z.lor (fst c) (snd c);
  mark_dirty_caps := fun m c => (fst c, Z.lor (snd c) m) |}.
Proof. Defined.

#[local] Instance plain_caps_laws : CapsLaws.
Proof.
  split; try done.
  - intros m [i d]. cbn. apply Z.bits_inj'. intros n Hn. rewrite Z.land_spec, !Z.lor_spec.
    destruct (Z.testbit i n), (Z.testbit d n), (Z.testbit m n); done.
  - intros m [i d] Hi E. apply Hi. cbn in *. apply Z.bits_inj'. intros n Hn. apply (f_equal (fun z => Z.testbit z n)) in E.
    rewrite Z.land_spec, Z.lor_spec, Z.bits_0 in E. rewrite Z.land_spec, Z.bits_0. destruct (Z.testbit i n), (Z.testbit m n); done.
Qed.

Definition inode_with (issued : Z) : xstate :=
  XState (XattrsInfo None None Nil false 0 0 0 1 1) (Mem ∅ ∅ 0 0 0) (issued, 0) [].
Definition empty_inode : xstate := inode_with (Z.lor CEPH_CAP_XATTR_SHARED CEPH_CAP_XATTR_EXCL).

Lemma empty_inv issued : inv (inode_with issued) [].
Proof.
  assert (Hix : indexed (xs_x (inode_with issued)) (xs_mem (inode_with issued)) []).
  { split; try done; [split; constructor|]. split; [constructor|constructor|]. intros i Hi. by apply elem_of_nil in Hi. }
  split; try done; try apply Hix. intros i [x Hx]. cbn in Hx. by rewrite lookup_empty in Hx.
Qed.

Definition example_ci : vinode := VInode IReg (VLayout (Layout 0 0 0) 0 0 0 0) (Timespec 0 0) 0 0 0 0 0.
Definition user_a : list Z := map Z.of_nat [117; 115; 101; 114; 46; 97]%nat.
Definition user_b : list Z := map Z.of_nat [117; 115; 101; 114; 46; 98]%nat.

Definition example_ops : list xop :=
  [XSet example_ci user_b (Some [7; 8]) 0; XSet example_ci user_a (Some [9]) 1; XFlush; XGet example_ci user_b (replicate 4 0);
   XUpdate 40 [(user_a, [1; 2; 3])]; XSet example_ci user_a (Some [5]) 1; XSet example_ci user_a (Some [6]) 2;
   XRemove example_ci user_b; XList example_ci (replicate 9 0); XFlush; XGet example_ci user_a []].


Definition example_events : list xevent :=
  [EFill 5 [(user_a, [1])]; ECaps (mark_dirty_caps CEPH_CAP_XATTR_EXCL); EFill 6 [(user_b, [2])]].

Lemma example_sound : Forall sound example_events.
Proof. repeat constructor; try done. intros c _. by rewrite dirty_held. Qed.


