(* ===== verification/XattrLimits.v ===== *)
(** * What extended attributes rely on

    The conditions of the theorems on extended attributes are needed: without
    memory, with threads that change the index while another builds it, with a
    blob that is cut short or with versions of 2^31 and above, the code loses
    attributes, reads freed memory, writes past the caller's buffer or does not
    end. *)
From S2P Require Import Prelude.
From S2P Require Import Wire.
From S2P Require Import RbTree.
From S2P Require Import StateM.
From S2P Require Import Buffer.
From S2P Require Import OsdMap.
From S2P Require Import FileLayout.
From S2P Require Import PgActing.
From S2P Require Import VXattr.
From S2P Require Import Xattr.
From S2P Require Import XattrIndex.
From S2P Require Import XattrOps.
From S2P Require Import XattrBlob.
From S2P Require Import XattrRefine.
From S2P Require Import XattrClient.
From S2P Require Import XattrTrace.
From stdpp Require Import gmap.
#[local] Open Scope Z_scope.
#[local] Open Scope ceph_scope.
#[local] Open Scope st_scope.
#[local] Existing Instance plain_caps.

(** An inode that holds Xx, with the blob [d] of the given version. *)
Definition inode_of (version : Z) (d : list Z) : xstate :=
  XState (XattrsInfo (Some 0%nat) None Nil false 0 0 0 version 0)
    (Mem {[0%nat := CephBuffer 1 d (Z.of_nat (length d)) (Z.of_nat (length d))]} ∅ 0 1 0)
    (Z.lor CEPH_CAP_XATTR_SHARED CEPH_CAP_XATTR_EXCL, 0) [].
Definition user_c : list Z := map Z.of_nat [117; 115; 101; 114; 46; 99]%nat.
Definition two_attrs : list (list Z * list Z) := [(user_a, [1]); (user_b, [2])].
Definition memory : nat -> Z -> bool := fun _ _ => true.

(** What a run returns, without the state. *)
Definition result {A} (m : XM A) (ws : list window) (s : xstate) : outcome A := '(a, _) ← m (ws, s); Ret a.

(** An operation of another thread, run while this one waits. *)
Definition other {A} (m : XM A) : window := fun s =>
  match m ([], s) with Ret (_, (_, s')) => s' | _ => s end.

(** [ceph_setxattr] does not look at the error of [__build_xattrs]: when the
    tree cannot be built, it adds the attribute to an empty one, and the next
    flush drops all other attributes. *)
Theorem setxattr_drops_attributes :
  result (r ↢ ceph_setxattr (fun n _ => negb ((n =? 3)%nat || (n =? 6)%nat)) example_ci false 0 user_c (Some [3]) 0;
          b ↢ send_cap_xattrs; sret (r, b)) [] (inode_of 1 (blob_of two_attrs)) =
    Ret (0, Some (blob_of [(user_c, [3])])).
Proof. vm_compute. reflexivity. Qed.

(** Two threads build the tree at once.  The one that lost the race replays the
    blob over the tree of the other, which has been changed since: the change is
    undone and no longer marked dirty. *)
Theorem build_race_undoes_setxattr :
  result (ceph_getxattr memory (PgActing.example_osdmap []) example_ci 0 user_a [0])
    [other (ceph_setxattr memory example_ci false 0 user_a (Some [9]) 0)] (inode_of 1 (blob_of two_attrs)) = Ret (1, [1]) /\
  result (_ ↢ ceph_getxattr memory (PgActing.example_osdmap []) example_ci 0 user_a [0]; i ↢ getx; sret (i_dirty i))
    [other (ceph_setxattr memory example_ci false 0 user_a (Some [9]) 0)] (inode_of 1 (blob_of two_attrs)) = Ret false.
Proof. vm_compute. done. Qed.

(** While a thread waits for the memory of the tree, another one builds it and
    then a newer blob arrives.  The first one starts again without emptying the
    tree, whose nodes point into the blob that was freed. *)
Theorem build_retry_reads_freed_blob :
  result (ceph_getxattr memory (PgActing.example_osdmap []) example_ci 0 user_a [0])
    [other (_ ↢ ceph_getxattr memory (PgActing.example_osdmap []) example_ci 0 user_a [0];
            _ ↢ mods (fun s => s <| xs_caps := ((CEPH_CAP_XATTR_SHARED, 0) : caps) |>);
            fill_inode_xattrs memory 2 (blob_of two_attrs))] (inode_of 1 (blob_of two_attrs)) = Fault OutOfBounds.
Proof. vm_compute. reflexivity. Qed.

(** A blob that ends after its first attribute: names_size is 0 although the tree
    has a name, and [ceph_listxattr] copies the name past the end of a buffer of the
    size it asked for. *)
Theorem truncated_blob_overruns_list :
  result (ceph_listxattr memory example_ci 0 []) [] (inode_of 1 (take 20 (blob_of two_attrs))) = Ret (1, []) /\
  result (ceph_listxattr memory example_ci 0 [0]) [] (inode_of 1 (take 20 (blob_of two_attrs))) = Fault OutOfBounds.
Proof. vm_compute. done. Qed.

(** The version is kept in an int while the tree is built: from 2^31 on it never
    compares equal again, and the function starts over for ever. *)
Theorem large_version_never_builds fuel :
  build_start memory fuel 0 ([], inode_of (2 ^ 31) (blob_of two_attrs)) = Fault OutOfFuel.
Proof.
  set (s0 := inode_of (2 ^ 31) (blob_of two_attrs)).
  assert (Hgen : forall fuel err strs nodes next allocs,
    build_start memory fuel err ([], s0 <| xs_mem := Mem (m_bufs (xs_mem s0)) strs nodes next allocs |>) = Fault OutOfFuel).
  { clear fuel. induction fuel as [|fuel IH]; intros err strs nodes next allocs; [done|].
    cbn [build_start]. revert IH. generalize (build_start memory fuel) as rec. intros rec IH. vm_compute. apply IH. }
  apply (Hgen fuel 0 ∅ 0 1%nat 0%nat).
Qed.
