(* ===== verification/Snap.v ===== *)
(** * Snapshot realms

    src/fs/ceph/snap.c: a realm is a part of the file hierarchy whose files
    share their snapshots.  The realms form a tree; the snapshot context of a
    realm has its own snapshots, those of earlier parents, and those of its
    parent taken since it is the parent.  The MDS sends traces of realm records
    from a realm up to the root ([ceph_update_snap_trace]).

    Realms live in a store under the address that stands for their pointer (the
    inode number, which is unique among the realms); a realm that was freed is
    not in the store, so that using it is a fault.  Snapshot contexts are counted
    references into a store of their own. *)
From S2P Require Import Prelude.
From S2P Require Import Wire.
From S2P Require Import RbTree.
From S2P Require Import StateM.
From S2P Require Import OsdReq.
From stdpp Require Import gmap sorting.
#[local] Open Scope Z_scope.
#[local] Open Scope ceph_scope.
#[local] Open Scope st_scope.

Record ceph_snap_realm := SnapRealm {
  sr_ino : Z;
  sr_nref : Z;
  sr_created : Z;
  sr_seq : Z;
  sr_parent_ino : Z;
  sr_parent_since : Z;
  sr_prior_parent_snaps : option (list Z);
  sr_num_prior_parent_snaps : Z;
  sr_snaps : option (list Z);
  sr_num_snaps : Z;
  sr_parent : option Z;
  sr_children : list Z;
  sr_cached_context : option nat;
  sr_inodes_with_caps : list Z }.
#[global] Instance eta_snap_realm : Eta ceph_snap_realm := fun r =>
  SnapRealm (sr_ino r) (sr_nref r) (sr_created r) (sr_seq r) (sr_parent_ino r) (sr_parent_since r)
    (sr_prior_parent_snaps r) (sr_num_prior_parent_snaps r) (sr_snaps r) (sr_num_snaps r) (sr_parent r)
    (sr_children r) (sr_cached_context r) (sr_inodes_with_caps r).

(** The realms of the MDS client: the tree mdsc->snap_realms, the store, the list
    mdsc->snap_empty, the contexts, the inodes in memory with their i_snap_realm,
    and the inodes whose snapshots were queued. *)
Record snap_state := SnapState {
  sn_tree : tree Z;
  sn_realms : gmap Z ceph_snap_realm;
  sn_empty : list Z;
  sn_ctx : gmap nat ceph_snap_context;
  sn_next : nat;
  sn_allocs : nat;
  sn_inodes : gmap Z (option Z);
  sn_queued : list Z }.
#[global] Instance eta_snap_state : Eta snap_state := fun s =>
  SnapState (sn_tree s) (sn_realms s) (sn_empty s) (sn_ctx s) (sn_next s) (sn_allocs s) (sn_inodes s) (sn_queued s).

Section Snap.
Context `{RbOps} (kmalloc_ok : nat -> Z -> bool).

Definition salloc (size : Z) : ST snap_state bool := fun s =>
  Ret (kmalloc_ok (sn_allocs s) size, s <| sn_allocs ::= S |>).

(** ** Pointers *)
Definition get_realm (p : Z) : ST snap_state ceph_snap_realm :=
  s ↢ sget; match sn_realms s !! p with Some r => sret r | None => sfault OutOfBounds end.
Definition set_realm (p : Z) (r : ceph_snap_realm) : ST snap_state unit := smod (fun s => s <| sn_realms ::= insert p r |>).
Definition mod_realm (p : Z) (f : ceph_snap_realm -> ceph_snap_realm) : ST snap_state unit :=
  r ↢ get_realm p; set_realm p (f r).

Definition get_ctx (i : nat) : ST snap_state ceph_snap_context :=
  s ↢ sget; match sn_ctx s !! i with Some c => sret c | None => sfault OutOfBounds end.
(** ceph_get_snap_context and ceph_put_snap_context of a pointer *)
Definition ctx_get (c : option nat) : ST snap_state (option nat) :=
  match c with
  | None => sret None
  | Some i => sc ↢ get_ctx i;
              _ ↢ smod (fun s => s <| sn_ctx ::= fun m => match ceph_get_snap_context (Some sc) with Some sc => <[i := sc]> m | None => m end |>);
              sret (Some i)
  end.
Definition ctx_put (c : option nat) : ST snap_state unit :=
  match c with
  | None => sret tt
  | Some i => sc ↢ get_ctx i;
              smod (fun s => s <| sn_ctx ::= match fst (ceph_put_snap_context (Some sc)) with Some sc => insert i sc | None => delete i end |>)
  end.

Definition realm_cmp (ino : Z) (r : Z) : Z := ino - r.

Definition unlink (p : Z) : list Z -> list Z := List.filter (fun q => negb (q =? p)).

(** ** References *)
Definition ceph_get_snap_realm (p : Z) : ST snap_state unit :=
  r ↢ get_realm p;
  _ ↢ (if sr_nref r =? 0 then smod (fun s => s <| sn_empty ::= unlink p |>) else sret tt);
  mod_realm p (fun r => r <| sr_nref ::= fun n => s32 (n + 1) |>).

Definition __insert_snap_realm (p : Z) : ST snap_state unit :=
  s ↢ sget;
  match tree_insert realm_cmp (sn_tree s) p p with
  | Ret t => smod (fun s => s <| sn_tree := t |>)
  | _ => sfault BugOn
  end.

(** None: -ENOMEM *)
Definition ceph_create_snap_realm (ino : Z) : ST snap_state (option Z) :=
  ok ↢ salloc 176;
  if negb ok then sret None
  else
    _ ↢ set_realm ino (SnapRealm ino 0 0 0 0 0 None 0 None 0 None [] None []);
    _ ↢ __insert_snap_realm ino;
    sret (Some ino).

Definition ceph_lookup_snap_realm (ino : Z) : ST snap_state (option Z) :=
  s ↢ sget; sret (snd <$> tree_lookup realm_cmp (sn_tree s) ino).

(** [put] is __put_snap_realm, with which it is mutually recursive. *)
Definition __destroy_snap_realm (put : Z -> ST snap_state unit) (p : Z) : ST snap_state unit :=
  r ↢ get_realm p;
  s ↢ sget;
  _ ↢ match tree_lookup realm_cmp (sn_tree s) p with
      | Some (q, _) => smod (fun s => s <| sn_tree ::= rb_erase q |>)
      | None => sfault OutOfBounds
      end;
  _ ↢ match sr_parent r with
      | Some q => _ ↢ mod_realm q (fun r => r <| sr_children ::= unlink p |>); put q
      | None => sret tt
      end;
  _ ↢ ctx_put (sr_cached_context r);
  smod (fun s => s <| sn_realms ::= delete p |>).

(** [fuel] bounds the way up to the root. *)
Fixpoint __put_snap_realm (fuel : nat) (p : Z) : ST snap_state unit :=
  match fuel with
  | O => sfault OutOfFuel
  | S fuel =>
      r ↢ get_realm p;
      _ ↢ mod_realm p (fun r => r <| sr_nref ::= fun n => s32 (n - 1) |>);
      if s32 (sr_nref r - 1) =? 0 then __destroy_snap_realm (__put_snap_realm fuel) p else sret tt
  end.

Definition realm_fuel (s : snap_state) : nat := S (size (sn_realms s)).
Definition __put (p : Z) : ST snap_state unit := fun s => __put_snap_realm (realm_fuel s) p s.

(** [trylock]: whether snap_rwsem could be taken; a caller that holds it fails to *)
Definition ceph_put_snap_realm (trylock : bool) (p : Z) : ST snap_state unit :=
  r ↢ get_realm p;
  _ ↢ mod_realm p (fun r => r <| sr_nref ::= fun n => s32 (n - 1) |>);
  if negb (s32 (sr_nref r - 1) =? 0) then sret tt
  else if trylock then __destroy_snap_realm __put p
  else smod (fun s => s <| sn_empty ::= cons p |>).

Fixpoint cleanup_loop (fuel : nat) : ST snap_state unit :=
  s ↢ sget;
  match sn_empty s with
  | [] => sret tt
  | p :: _ =>
      match fuel with
      | O => sfault OutOfFuel
      | S fuel =>
          _ ↢ smod (fun s => s <| sn_empty ::= unlink p |>);
          _ ↢ __destroy_snap_realm __put p;
          cleanup_loop fuel
      end
  end.
Definition __cleanup_empty_realms : ST snap_state unit := fun s => cleanup_loop (length (sn_empty s)) s.
Definition ceph_cleanup_empty_realms : ST snap_state unit := __cleanup_empty_realms.

(** 1 when the parent was changed, 0 when not, or an error *)
Definition adjust_snap_realm_parent (p parentino : Z) : ST snap_state Z :=
  r ↢ get_realm p;
  if sr_parent_ino r =? parentino then sret 0
  else
    parent ↢ ceph_lookup_snap_realm parentino;
    parent ↢ match parent with Some q => sret (Some q) | None => ceph_create_snap_realm parentino end;
    match parent with
    | None => sret (- ENOMEM)
    | Some q =>
        r ↢ get_realm p;
        _ ↢ match sr_parent r with
            | Some o => _ ↢ mod_realm o (fun r => r <| sr_children ::= unlink p |>); ceph_put_snap_realm false o
            | None => sret tt
            end;
        _ ↢ mod_realm p (fun r => r <| sr_parent_ino := parentino |> <| sr_parent := Some q |>);
        _ ↢ ceph_get_snap_realm q;
        _ ↢ mod_realm q (fun r => r <| sr_children ::= cons p |>);
        sret 1
    end.

(** ** Snapshot contexts *)
Definition cmpu64_rev (a b : Z) : Z := if a <? b then 1 else if b <? a then -1 else 0.
Definition not_before (a b : Z) : Prop := cmpu64_rev a b <= 0.
#[global] Instance not_before_dec : RelDecision not_before := fun a b => decide (cmpu64_rev a b <= 0).

(** memcpy of [n] words from an array that may be NULL *)
Definition read_array (a : option (list Z)) (n : Z) : outcome (list Z) :=
  if n =? 0 then Ret []
  else l ← deref a; if Z.of_nat (length l) <? n then Fault OutOfBounds else Ret (take (Z.to_nat n) l).

Definition build_fail (p err : Z) : ST snap_state Z :=
  r ↢ get_realm p;
  _ ↢ match sr_cached_context r with
      | Some c => _ ↢ ctx_put (Some c); mod_realm p (fun r => r <| sr_cached_context := None |>)
      | None => sret tt
      end;
  sret err.

(** The new context of a realm, [pc] that of its parent; the array of the new
    context has [num] entries. *)
Definition fill_context (r : ceph_snap_realm) (pc : option ceph_snap_context) (num : Z) : outcome ceph_snap_context :=
  let inherited := match pc with
                   | Some c => List.filter (fun s => sr_parent_since r <=? s) (sc_snaps c)
                   | None => []
                   end in
  let seq := match pc with Some c => Z.max (sr_seq r) (sc_seq c) | None => sr_seq r end in
  own ← read_array (sr_snaps r) (sr_num_snaps r);
  prior ← read_array (sr_prior_parent_snaps r) (sr_num_prior_parent_snaps r);
  let snaps := inherited ++ own ++ prior in
  if num <? Z.of_nat (length snaps) then Fault OutOfBounds
  else Ret (SnapContext 1 seq (merge_sort not_before snaps)).

(** [fuel] bounds the way up to a realm that has a context. *)
Fixpoint build_snap_context (fuel : nat) (p : Z) : ST snap_state Z :=
  match fuel with
  | O => sfault OutOfFuel
  | S fuel =>
      r ↢ get_realm p;
      err ↢ match sr_parent r with
            | Some q =>
                pr ↢ get_realm q;
                match sr_cached_context pr with Some _ => sret 0 | None => build_snap_context fuel q end
            | None => sret 0
            end;
      if negb (err =? 0) then build_fail p err
      else
        pc ↢ match sr_parent r with
             | Some q => pr ↢ get_realm q; i ↢ slift (deref (sr_cached_context pr)); c ↢ get_ctx i; sret (Some c)
             | None => sret None
             end;
        let num := u32 (u32 (sr_num_prior_parent_snaps r + sr_num_snaps r) +
                        match pc with Some c => Z.of_nat (length (sc_snaps c)) | None => 0 end) in
        r ↢ get_realm p;
        unchanged ↢ match sr_cached_context r with
                    | Some i =>
                        c ↢ get_ctx i;
                        sret ((sc_seq c =? sr_seq r) && match pc with Some pc => sc_seq pc <=? sc_seq c | None => true end)
                    | None => sret false
                    end;
        if (unchanged : bool) then sret 0
        else if (2 ^ 64 - 1 - 24) / 8 <? num then build_fail p (- ENOMEM)
        else
          ok ↢ salloc (24 + 8 * num);
          if negb ok then build_fail p (- ENOMEM)
          else
            c ↢ slift (fill_context r pc num);
            s ↢ sget;
            let i := sn_next s in
            _ ↢ smod (fun s => s <| sn_ctx ::= insert i c |> <| sn_next ::= S |>);
            _ ↢ ctx_put (sr_cached_context r);
            _ ↢ mod_realm p (fun r => r <| sr_cached_context := Some i |>);
            sret 0
  end.
Definition build (p : Z) : ST snap_state Z := fun s => build_snap_context (realm_fuel s) p s.

(** [fuel] bounds the depth of the hierarchy below the realm. *)
Fixpoint rebuild_snap_realms (fuel : nat) (p : Z) : ST snap_state unit :=
  match fuel with
  | O => sfault OutOfFuel
  | S fuel =>
      _ ↢ build p;
      r ↢ get_realm p;
      sfor (sr_children r) (rebuild_snap_realms fuel)
  end.

(** ** Traces from the MDS *)
Definition get_le (msg : list Z) (p : Z) (n : nat) : outcome Z := l ← read_bytes msg n p; Ret (le_val l).

Fixpoint words_at (msg : list Z) (p : Z) (n : nat) : outcome (list Z) :=
  match n with
  | O => Ret []
  | S n => x ← get_le msg p 8; l ← words_at msg (p + 8) n; Ret (x :: l)
  end.
(** An array that does not lie in the message is not read word by word. *)
Definition read_words (msg : list Z) (p n : Z) : outcome (list Z) :=
  if (0 <? n) && ((p <? 0) || (Z.of_nat (length msg) <? p + 8 * n)) then Fault OutOfBounds
  else words_at msg p (Z.to_nat n).

(** None: no memory, the old array is freed nonetheless *)
Definition dup_array (msg : list Z) (src num : Z) : ST snap_state (option (option (list Z))) :=
  if num =? 0 then sret (Some None)
  else
    ok ↢ salloc (8 * num);
    if negb ok then sret None
    else l ↢ slift (read_words msg src num); sret (Some (Some l)).

(** struct ceph_mds_snap_realm at [p], 48 bytes *)
Record snap_record := SnapRecord {
  ri_ino : Z; ri_created : Z; ri_parent : Z; ri_parent_since : Z; ri_seq : Z; ri_num_snaps : Z; ri_num_prior : Z }.
Definition read_record (msg : list Z) (p : Z) : outcome snap_record :=
  ino ← get_le msg p 8;
  created ← get_le msg (p + 8) 8;
  parent ← get_le msg (p + 16) 8;
  since ← get_le msg (p + 24) 8;
  seq ← get_le msg (p + 32) 8;
  n ← get_le msg (p + 40) 4;
  k ← get_le msg (p + 44) 4;
  Ret (SnapRecord ino created parent since seq n k).

(** The update of one realm: an error, or whether contexts are to be rebuilt and
    whether the realm has new snapshots. *)
Definition update_realm (msg : list Z) (snaps : Z) (ri : snap_record) (p : Z) (invalidate : bool)
  : ST snap_state (Z + bool * bool) :=
  err ↢ adjust_snap_realm_parent p (ri_parent ri);
  if err <? 0 then sret (inl err)
  else
    let invalidate := invalidate || negb (err =? 0) in
    r ↢ get_realm p;
    if sr_seq r <? ri_seq ri then
      _ ↢ mod_realm p (fun r => r <| sr_seq := ri_seq ri |> <| sr_created := ri_created ri |>
                                  <| sr_parent_since := ri_parent_since ri |> <| sr_num_snaps := ri_num_snaps ri |>);
      a ↢ dup_array msg snaps (ri_num_snaps ri);
      _ ↢ mod_realm p (fun r => r <| sr_snaps := default None a |>);
      match a with
      | None => sret (inl (- ENOMEM))
      | Some _ =>
          _ ↢ mod_realm p (fun r => r <| sr_num_prior_parent_snaps := ri_num_prior ri |>);
          b ↢ dup_array msg (snaps + 8 * ri_num_snaps ri) (ri_num_prior ri);
          _ ↢ mod_realm p (fun r => r <| sr_prior_parent_snaps := default None b |>);
          match b with
          | None => sret (inl (- ENOMEM))
          | Some _ => sret (inr (true, true))
          end
      end
    else
      match sr_cached_context r with
      | None => sret (inr (true, false))
      | Some _ => sret (inr (invalidate, false))
      end.

(** more: one record after the other; an error, or the last realm, whether
    contexts are to be rebuilt, and the realms with new snapshots.  Adding a realm
    twice would corrupt their list. *)
Fixpoint trace_loop (fuel : nat) (msg : list Z) (p : Z) (invalidate : bool) (dirty : list Z)
  : ST snap_state (Z + Z * bool * list Z) :=
  match fuel with
  | O => sfault OutOfFuel
  | S fuel =>
      let e := Z.of_nat (length msg) in
      if negb (ceph_has_room p e 48) then sret (inl (- EINVAL))
      else
        ri ↢ slift (read_record msg p);
        let p := p + 48 in
        if negb (ceph_has_room p e (8 * u32 (ri_num_snaps ri + ri_num_prior ri))) then sret (inl (- EINVAL))
        else
          let snaps := p in
          let p := p + 8 * ri_num_snaps ri + 8 * ri_num_prior ri in
          realm ↢ ceph_lookup_snap_realm (ri_ino ri);
          realm ↢ match realm with Some q => sret (Some q) | None => ceph_create_snap_realm (ri_ino ri) end;
          match realm with
          | None => sret (inl (- ENOMEM))
          | Some q =>
              res ↢ update_realm msg snaps ri q invalidate;
              match res with
              | inl err => sret (inl err)
              | inr (invalidate, new) =>
                  _ ↢ slift (bug_on (new && bool_decide (q ∈ dirty)));
                  let dirty := if (new : bool) then q :: dirty else dirty in
                  if p <? e then trace_loop fuel msg p invalidate dirty else sret (inr (q, invalidate, dirty))
              end
          end
  end.

(** The inodes of the realm, then its children are queued before the others. *)
Definition queue_realm_cap_snaps (p : Z) (dirty : list Z) : ST snap_state (list Z) :=
  r ↢ get_realm p;
  _ ↢ smod (fun s => s <| sn_queued ::= fun l => l ++ sr_inodes_with_caps r |>);
  sret (rev (sr_children r) ++ List.filter (fun q => negb (bool_decide (q ∈ p :: sr_children r))) dirty).

Fixpoint queue_loop (fuel : nat) (dirty : list Z) : ST snap_state unit :=
  match dirty with
  | [] => sret tt
  | p :: _ =>
      match fuel with
      | O => sfault OutOfFuel
      | S fuel => dirty ↢ queue_realm_cap_snaps p dirty; queue_loop fuel dirty
      end
  end.

(** A realm is queued once for itself and once for each ancestor. *)
Definition queue_fuel (s : snap_state) : nat := S (size (sn_realms s)) * S (size (sn_realms s)).

(** The fuel of the trace is enough for one record of 48 bytes after the other. *)
Definition ceph_update_snap_trace (msg : list Z) (p : Z) : ST snap_state Z :=
  res ↢ trace_loop (S (length msg)) msg p false [];
  match res with
  | inl err => sret err
  | inr (q, invalidate, dirty) =>
      _ ↢ (if (invalidate : bool) then (fun s => rebuild_snap_realms (realm_fuel s) q s) else sret tt);
      _ ↢ (fun s => queue_loop (queue_fuel s) dirty s);
      _ ↢ __cleanup_empty_realms;
      sret 0
  end.

(** ** Notifications *)
Definition CEPH_SNAP_OP_SPLIT : Z := 3.

(** An inode with capabilities goes to the new realm, unless its realm is newer
    than that. *)
Definition split_inode (p created ino : Z) : ST snap_state unit :=
  s ↢ sget;
  match sn_inodes s !! ino with
  | Some (Some old) =>
      o ↢ get_realm old;
      if created <? sr_created o then sret tt
      else
        _ ↢ mod_realm old (fun r => r <| sr_inodes_with_caps ::= unlink ino |>);
        _ ↢ mod_realm p (fun r => r <| sr_inodes_with_caps ::= cons ino |>);
        _ ↢ smod (fun s => s <| sn_inodes ::= insert ino (Some p) |>);
        _ ↢ ceph_get_snap_realm p;
        ceph_put_snap_realm false old
  | _ => sret tt
  end.

Definition split_child (p ino : Z) : ST snap_state unit :=
  child ↢ ceph_lookup_snap_realm ino;
  match child with
  | Some c => r ↢ get_realm p; _ ↢ adjust_snap_realm_parent c (sr_ino r); sret tt
  | None => sret tt
  end.

(** The lists of a split, at [p]: the position behind them and the new realm.
    None: the message is corrupt, or there is no memory *)
Definition split_realm (msg : list Z) (split p num_inos num_realms : Z) : ST snap_state (option (Z * Z)) :=
  let inos := p in
  let realms := p + 8 * num_inos in
  let p := p + 8 * num_inos + 8 * num_realms in
  if negb (ceph_has_room p (Z.of_nat (length msg)) 48) then sret None
  else
    ri ↢ slift (read_record msg p);
    realm ↢ ceph_lookup_snap_realm split;
    realm ↢ match realm with Some q => sret (Some q) | None => ceph_create_snap_realm split end;
    match realm with
    | None => sret None
    | Some q =>
        _ ↢ ceph_get_snap_realm q;
        l ↢ slift (read_words msg inos num_inos);
        _ ↢ sfor l (split_inode q (ri_created ri));
        l ↢ slift (read_words msg realms num_realms);
        _ ↢ sfor l (split_child q);
        sret (Some (p, q))
    end.

(** The message up to flush_snaps, which is about the inodes.  The result says
    whether the message was good. *)
Definition ceph_handle_snap (msg : list Z) : ST snap_state bool :=
  if Z.of_nat (length msg) <? 24 then sret false
  else
    op ↢ slift (get_le msg 0 4);
    split ↢ slift (get_le msg 4 8);
    num_inos ↢ slift (get_le msg 12 4);
    num_realms ↢ slift (get_le msg 16 4);
    if op =? CEPH_SNAP_OP_SPLIT then
      res ↢ split_realm msg split 24 (s32 num_inos) (s32 num_realms);
      match res with
      | None => sret false
      | Some (p, q) =>
          _ ↢ ceph_update_snap_trace msg p;
          _ ↢ ceph_put_snap_realm false q;
          _ ↢ __cleanup_empty_realms;
          sret true
      end
    else
      _ ↢ ceph_update_snap_trace msg 24;
      _ ↢ __cleanup_empty_realms;
      sret true.

End Snap.
