(* ===== verification/SnapTree.v ===== *)
(** * The snapshot contexts of the realms

    [context_of h p]: the context that realm [p] should have in the hierarchy [h],
    by recursion towards the root.  [rebuild_snap_realms] gives every realm below
    its argument this context, when a realm whose snapshots have changed has a new
    sequence number. *)
From S2P Require Import Prelude.
From S2P Require Import Wire.
From S2P Require Import RbTree.
From S2P Require Import StateM.
From S2P Require Import OsdReq.
From S2P Require Import Snap.
From stdpp Require Import fin_maps gmap sorting.
#[local] Open Scope Z_scope.
#[local] Open Scope ceph_scope.
#[local] Open Scope st_scope.

(** The realms without their contexts. *)
Definition bare (r : ceph_snap_realm) : ceph_snap_realm := r <| sr_cached_context := None |>.
Definition hierarchy (s : snap_state) : gmap Z ceph_snap_realm := bare <$> sn_realms s.

Definition words (a : option (list Z)) (n : Z) : list Z := if n =? 0 then [] else take (Z.to_nat n) (default [] a).
Definition own_snaps (r : ceph_snap_realm) : list Z :=
  words (sr_snaps r) (sr_num_snaps r) ++ words (sr_prior_parent_snaps r) (sr_num_prior_parent_snaps r).

(** Sequence number and snapshots, newest first. *)
Definition merge_context (r : ceph_snap_realm) (pc : option (Z * list Z)) : Z * list Z :=
  match pc with
  | None => (sr_seq r, merge_sort not_before (own_snaps r))
  | Some (seq, snaps) =>
      (Z.max (sr_seq r) seq, merge_sort not_before (List.filter (fun s => sr_parent_since r <=? s) snaps ++ own_snaps r))
  end.

Fixpoint context_of (depth : nat) (h : gmap Z ceph_snap_realm) (p : Z) : option (Z * list Z) :=
  match depth, h !! p with
  | S depth, Some r =>
      match sr_parent r with
      | None => Some (merge_context r None)
      | Some q => (fun pc => merge_context r (Some pc)) <$> context_of depth h q
      end
  | _, _ => None
  end.

(** What is cached for a realm. *)
Definition view (c : ceph_snap_context) : Z * list Z := (sc_seq c, sc_snaps c).
Definition cached (s : snap_state) (p : Z) : option (Z * list Z) :=
  match sn_realms s !! p with
  | Some r => match sr_cached_context r with Some i => view <$> sn_ctx s !! i | None => None end
  | None => None
  end.

(** ** Well-formed realms *)
Definition array_ok (a : option (list Z)) (n : Z) : Prop := 0 <= n < 2 ^ 32 /\ (0 < n -> exists l, a = Some l /\ n <= Z.of_nat (length l)).

(** [level] increases from a realm to its children. *)
Record realms_wf (level : Z -> nat) (s : snap_state) : Prop := {
  rw_level : forall p r, sn_realms s !! p = Some r -> (level p < size (sn_realms s))%nat;
  rw_parent : forall p r q, sn_realms s !! p = Some r -> sr_parent r = Some q ->
    (exists rq, sn_realms s !! q = Some rq /\ p ∈ sr_children rq) /\ (level q < level p)%nat;
  rw_children : forall p r c, sn_realms s !! p = Some r -> c ∈ sr_children r ->
    exists rc, sn_realms s !! c = Some rc /\ sr_parent rc = Some p;
  rw_arrays : forall p r, sn_realms s !! p = Some r ->
    array_ok (sr_snaps r) (sr_num_snaps r) /\ array_ok (sr_prior_parent_snaps r) (sr_num_prior_parent_snaps r);
  rw_ctx : forall p r i, sn_realms s !! p = Some r -> sr_cached_context r = Some i ->
    (i < sn_next s)%nat /\ exists c, sn_ctx s !! i = Some c /\ 0 < sc_nref c;
  rw_inj : forall p q r r' i, sn_realms s !! p = Some r -> sn_realms s !! q = Some r' ->
    sr_cached_context r = Some i -> sr_cached_context r' = Some i -> p = q }.

Lemma read_array_words a n : array_ok a n -> read_array a n = Ret (words a n) /\ Z.of_nat (length (words a n)) = n.
Proof.
  intros [Hn Ha]. unfold read_array, words. destruct (Z.eqb_spec n 0) as [->|Hne]; [done|].
  destruct Ha as (l & -> & Hl); [lia|]. cbn. destruct (Z.ltb_spec (Z.of_nat (length l)) n); [lia|]. split; [done|].
  rewrite length_take. lia.
Qed.

Lemma filter_length_le {A} (f : A -> bool) l : (length (List.filter f l) <= length l)%nat.
Proof. induction l as [|x l IH]; cbn; [done|]. destruct (f x); cbn; lia. Qed.

Lemma fill_context_spec r pc num :
  array_ok (sr_snaps r) (sr_num_snaps r) -> array_ok (sr_prior_parent_snaps r) (sr_num_prior_parent_snaps r) ->
  num = sr_num_prior_parent_snaps r + sr_num_snaps r + match pc with Some c => Z.of_nat (length (sc_snaps c)) | None => 0 end ->
  exists c, fill_context r pc num = Ret c /\ view c = merge_context r (view <$> pc) /\ sc_nref c = 1.
Proof.
  intros [Ho Lo]%read_array_words [Hp Lp]%read_array_words ->. unfold fill_context. rewrite Ho, Hp. cbn [obind].
  match goal with |- context [if ?b then _ else _] => destruct b eqn:Hlt end.
  - apply Z.ltb_lt in Hlt. rewrite !length_app in Hlt. destruct pc as [c|]; cbn in Hlt; [|lia].
    pose proof (filter_length_le (fun s => sr_parent_since r <=? s) (sc_snaps c)). lia.
  - eexists. split; [done|]. split; [|done]. unfold view, merge_context, own_snaps. by destruct pc as [c|].
Qed.

(** ** One realm *)
Section Build.
Context `{RbOps} (kmalloc_ok : nat -> Z -> bool).
Hypothesis Hmem : forall n z, kmalloc_ok n z = true.

Lemma wp_get_realm s p r (Q : ceph_snap_realm -> snap_state -> Prop) :
  sn_realms s !! p = Some r -> Q r s -> wp (get_realm p) Q s.
Proof. intros Hp HQ. unfold get_realm, wp, sbind, sget. cbn. by rewrite Hp. Qed.

Lemma wp_get_ctx s i c (Q : ceph_snap_context -> snap_state -> Prop) :
  sn_ctx s !! i = Some c -> Q c s -> wp (get_ctx i) Q s.
Proof. intros Hp HQ. unfold get_ctx, wp, sbind, sget. cbn. by rewrite Hp. Qed.

(** Only the context of [p] has changed, and it is [v]. *)
Record rebuilt (level : Z -> nat) (s : snap_state) (p : Z) (v : Z * list Z) (s' : snap_state) : Prop := {
  rb_wf : realms_wf level s';
  rb_hier : hierarchy s' = hierarchy s;
  rb_cached : cached s' p = Some v;
  rb_other : forall q, q <> p -> cached s' q = cached s q;
  rb_frame : sn_tree s' = sn_tree s /\ sn_empty s' = sn_empty s /\ sn_inodes s' = sn_inodes s /\ sn_queued s' = sn_queued s }.

Lemma hierarchy_lookup s p : hierarchy s !! p = bare <$> sn_realms s !! p.
Proof. unfold hierarchy. by rewrite lookup_fmap. Qed.

Lemma bare_fields r r' : bare r = bare r' ->
  sr_parent r = sr_parent r' /\ sr_children r = sr_children r' /\ sr_snaps r = sr_snaps r' /\ sr_num_snaps r = sr_num_snaps r' /\
  sr_prior_parent_snaps r = sr_prior_parent_snaps r' /\ sr_num_prior_parent_snaps r = sr_num_prior_parent_snaps r'.
Proof. intros E. repeat split; match goal with |- ?f r = _ => exact (f_equal f E) end. Qed.

(** A context is stored in place of the old one. *)
Lemma store_context level s p r c v :
  realms_wf level s -> sn_realms s !! p = Some r -> 0 < sc_nref c -> view c = v ->
  wp (_ ↢ smod (fun s0 => s0 <| sn_ctx ::= insert (sn_next s) c |> <| sn_next ::= S |>);
      _ ↢ ctx_put (sr_cached_context r);
      _ ↢ mod_realm p (fun r => r <| sr_cached_context := Some (sn_next s) |>);
      sret 0) (fun err s' => err = 0 /\ rebuilt level s p v s') s.
Proof.
  intros [W1 W2 W3 W4 W5 W6] Hp Hc Hv. set (i := sn_next s). apply wp_bind, wp_mod. set (s1 := s <| sn_ctx ::= _ |> <| sn_next ::= S |>).
  apply wp_bind. match goal with |- wp _ ?R _ => set (Q := R) end.
  (* the contexts after the old one was dropped *)
  assert (HQ : forall m : gmap nat ceph_snap_context, m !! i = Some c ->
    (forall j, Some j <> sr_cached_context r -> m !! j = sn_ctx s1 !! j) -> Q tt (s1 <| sn_ctx := m |>)).
  { intros m Hi Hm. unfold Q. clear Q. apply wp_bind. unfold mod_realm. apply wp_bind, (wp_get_realm _ p r); [done|].
    unfold set_realm. apply wp_mod, wp_ret. split; [done|]. set (s' := over sn_realms _ _).
    set (r' := r <| sr_cached_context := Some i |>).
    assert (Hl : forall q, sn_realms s' !! q = if decide (q = p) then Some r' else sn_realms s !! q).
    { intros q. unfold s', over. cbn. case_decide; [subst; apply lookup_insert_eq|by apply lookup_insert_ne]. }
    assert (Hsize : size (sn_realms s') = size (sn_realms s)).
    { unfold s', over. cbn. apply map_size_insert_Some. by eexists. }
    assert (Hk : forall q rq, sn_realms s' !! q = Some rq -> exists rq0, sn_realms s !! q = Some rq0 /\ bare rq = bare rq0 /\
      (q <> p -> rq = rq0)).
    { intros q rq. rewrite Hl. case_decide; [|by exists rq]. intros [= <-]. subst q. exists r. by split_and!. }
    assert (Hold : forall q rq j, sn_realms s !! q = Some rq -> q <> p -> sr_cached_context rq = Some j ->
      m !! j = sn_ctx s !! j /\ j <> i).
    { intros q rq j Hq Hne Hj. assert (j <> i) by (destruct (W5 q rq j Hq Hj); unfold i; lia). split; [|done].
      rewrite Hm; [unfold s1, over; cbn; by apply lookup_insert_ne|]. intros Ej. apply Hne. by apply (W6 q p rq r j). }
    split.
    - split.
      + intros q rq Hq. rewrite Hsize. destruct (Hk q rq Hq) as (rq0 & Hq0 & _). by eapply W1.
      + intros q rq q' Hq Hpar. destruct (Hk q rq Hq) as (rq0 & Hq0 & Eb & _). destruct (bare_fields _ _ Eb) as (E1 & _).
        rewrite E1 in Hpar. destruct (W2 q rq0 q' Hq0 Hpar) as [(x & Hx & Hin) ?]. split; [|done]. rewrite Hl.
        case_decide as D; [|by exists x]. subst q'. exists r'. assert (x = r) as -> by congruence. done.
      + intros q rq k Hq Hkk. destruct (Hk q rq Hq) as (rq0 & Hq0 & Eb & _). destruct (bare_fields _ _ Eb) as (_ & E2 & _).
        rewrite E2 in Hkk. destruct (W3 q rq0 k Hq0 Hkk) as (rc & Hrc & Hpc). rewrite Hl. case_decide; [|by exists rc].
        subst k. exists r'. split; [done|]. change (sr_parent r') with (sr_parent r). congruence.
      + intros q rq Hq. destruct (Hk q rq Hq) as (rq0 & Hq0 & Eb & _). destruct (bare_fields _ _ Eb) as (_ & _ & -> & -> & -> & ->).
        by apply (W4 q).
      + intros q rq j Hq Hj. rewrite Hl in Hq. case_decide as Hqp.
        * injection Hq as <-. cbn in Hj. injection Hj as <-. unfold s', over, s1, i. cbn. split; [lia|]. by exists c.
        * destruct (Hold q rq j Hq Hqp Hj) as [E _]. destruct (W5 q rq j Hq Hj) as (? & c0 & Hc0 & ?).
          unfold s', over, s1. cbn. split; [lia|]. exists c0. by rewrite E.
      + intros q q' rq rq' j Hq Hq' Hj Hj'. rewrite Hl in Hq, Hq'.
        destruct (decide (q = p)) as [D1|D1], (decide (q' = p)) as [D2|D2]; [congruence| | |by apply (W6 q q' rq rq' j)].
        * injection Hq as <-. cbn in Hj. injection Hj as <-. by destruct (Hold q' rq' i Hq' D2 Hj').
        * injection Hq' as <-. cbn in Hj'. injection Hj' as <-. by destruct (Hold q rq i Hq D1 Hj).
    - apply map_eq. intros q. rewrite !hierarchy_lookup, Hl. case_decide; [subst; by rewrite Hp|done].
    - unfold cached. rewrite Hl, decide_True by done. unfold s', over. cbn. by rewrite Hi, <- Hv.
    - intros q Hq. unfold cached. rewrite Hl, decide_False by done. destruct (sn_realms s !! q) as [rq|] eqn:Eq; [|done].
      destruct (sr_cached_context rq) as [j|] eqn:Ej; [|done]. destruct (Hold q rq j Eq Hq Ej) as [E _].
      unfold s', over. cbn. by rewrite E.
    - done. }
  unfold ctx_put. destruct (sr_cached_context r) as [j|] eqn:Ej.
  - destruct (W5 p r j Hp Ej) as (Hlt & c0 & Hc0 & Hk0). assert (j <> i) by (unfold i; lia).
    assert (Hj1 : sn_ctx s1 !! j = Some c0) by (unfold s1, over; cbn; by rewrite lookup_insert_ne).
    assert (Hi1 : sn_ctx s1 !! i = Some c) by (unfold s1, over; cbn; apply lookup_insert_eq).
    apply wp_bind, (wp_get_ctx _ j c0); [done|]. apply wp_mod.
    match goal with |- Q tt (over sn_ctx ?f s1) => change (Q tt (s1 <| sn_ctx := f (sn_ctx s1) |>)) end.
    apply HQ; destruct (fst (ceph_put_snap_context (Some c0))); intros; rewrite ?lookup_insert_ne, ?lookup_delete_ne by congruence; done.
  - apply wp_ret. assert (E : s1 = s1 <| sn_ctx := sn_ctx s1 |>) by (by destruct s1). rewrite E. apply HQ; [|done].
    unfold s1, over. cbn. apply lookup_insert_eq.
Qed.

Definition parent_view (s : snap_state) (r : ceph_snap_realm) : option (Z * list Z) :=
  match sr_parent r with Some q => cached s q | None => None end.

Lemma cached_inv s p v : cached s p = Some v ->
  exists r i c, sn_realms s !! p = Some r /\ sr_cached_context r = Some i /\ sn_ctx s !! i = Some c /\ view c = v.
Proof.
  unfold cached. destruct (sn_realms s !! p) as [r|]; [|done]. destruct (sr_cached_context r) as [i|] eqn:Ei; [|done].
  destruct (sn_ctx s !! i) as [c|] eqn:Ec; [|done]. intros [= <-]. by exists r, i, c.
Qed.

Lemma wf_allocs level s f : realms_wf level s -> realms_wf level (s <| sn_allocs ::= f |>).
Proof. intros []. by split. Qed.

(** The context of one realm, when its parent has one. *)
Lemma wp_build level n p s r :
  realms_wf level s -> sn_realms s !! p = Some r ->
  (forall q, sr_parent r = Some q -> is_Some (cached s q)) ->
  sr_num_prior_parent_snaps r + sr_num_snaps r +
    match parent_view s r with Some v => Z.of_nat (length (snd v)) | None => 0 end < 2 ^ 32 ->
  (forall v, cached s p = Some v -> fst v = sr_seq r ->
     match parent_view s r with Some pv => fst pv <= fst v | None => True end -> v = merge_context r (parent_view s r)) ->
  wp (build_snap_context kmalloc_ok (S n) p) (fun err s' => err = 0 /\ rebuilt level s p (merge_context r (parent_view s r)) s') s.
Proof.
  intros Hw Hp Hpar Hnum Hfresh. destruct (rw_arrays _ _ Hw p r Hp) as [Ho Hpr]. cbn [build_snap_context].
  apply wp_bind, (wp_get_realm s p r _ Hp), wp_bind.
  match goal with |- wp _ ?R _ => set (Q := R) end. assert (HQ : Q 0 s).
  2:{ destruct (sr_parent r) as [q|] eqn:Eq; [|by apply wp_ret]. destruct (Hpar q eq_refl) as [v Hv].
      destruct (cached_inv _ _ _ Hv) as (rq & i & c & Hq & Hi & _). apply wp_bind, (wp_get_realm s q rq _ Hq). rewrite Hi. by apply wp_ret. }
  unfold Q. clear Q. cbn [negb Z.eqb]. apply wp_bind.
  match goal with |- wp _ ?R _ => set (Q := R) end.
  assert (HQ : forall pc, view <$> pc = parent_view s r -> Q pc s).
  2:{ unfold parent_view in HQ. destruct (sr_parent r) as [q|] eqn:Eq; [|by apply wp_ret, HQ].
      destruct (Hpar q eq_refl) as [v Hv]. destruct (cached_inv _ _ _ Hv) as (rq & i & c & Hq & Hi & Hc & Ev).
      apply wp_bind, (wp_get_realm s q rq _ Hq), wp_bind. eapply wp_lift; [by rewrite Hi|]. apply wp_bind, (wp_get_ctx s i c _ Hc), wp_ret, HQ.
      by rewrite Hv, <- Ev. }
  intros pc Hpc. unfold Q. clear Q. rewrite <- Hpc in *. apply wp_bind, (wp_get_realm s p r _ Hp).
  assert (Hn : u32 (u32 (sr_num_prior_parent_snaps r + sr_num_snaps r) +
    match pc with Some c => Z.of_nat (length (sc_snaps c)) | None => 0 end) =
    sr_num_prior_parent_snaps r + sr_num_snaps r + match pc with Some c => Z.of_nat (length (sc_snaps c)) | None => 0 end).
  { destruct Ho as [? _], Hpr as [? _]. destruct pc as [c|]; cbn in Hnum; rewrite !u32_small; rewrite ?u32_small; lia. }
  cbv zeta. rewrite Hn. clear Hn. set (num := _ + match pc with Some c => _ | None => 0 end).
  assert (Hnum' : 0 <= num < 2 ^ 32).
  { unfold num. destruct Ho as [? _], Hpr as [? _]. destruct pc as [c|]; cbn in Hnum; lia. }
  apply wp_bind. match goal with |- wp _ ?R _ => set (Q := R) end.
  assert (HQ : (exists v, cached s p = Some v /\ v = merge_context r (view <$> pc)) -> Q true s).
  { intros (v & Hv & ->). unfold Q. apply wp_ret. split; [done|]. by split. }
  assert (HQf : Q false s).
  { unfold Q. clear Q HQ. cbv match. destruct (Z.ltb_spec ((2 ^ 64 - 1 - 24) / 8) num) as [Hlt|_]; [exfalso; assert ((2 ^ 64 - 1 - 24) / 8 > 2 ^ 32) by reflexivity; lia|].
    apply wp_bind. unfold salloc, wp at 1. rewrite Hmem. cbn [negb]. set (s1 := s <| sn_allocs ::= S |>).
    destruct (fill_context_spec r pc num Ho Hpr eq_refl) as (c & Hc & Hv & Hk).
    apply wp_bind. eapply wp_lift; [exact Hc|]. apply wp_bind, wp_get. cbv beta zeta.
    eapply wp_mono; [apply (store_context level s1 p r c (merge_context r (view <$> pc)) (wf_allocs _ _ _ Hw) Hp); [lia|exact Hv]|].
    cbv beta. intros err s' [-> [R1 R2 R3 R4 R5]]. by split. }
  destruct (sr_cached_context r) as [i|] eqn:Ei; [|by apply wp_ret].
  destruct (rw_ctx _ _ Hw p r i Hp Ei) as (_ & c & Hc & _). apply wp_bind, (wp_get_ctx s i c _ Hc), wp_ret.
  assert (Hv : cached s p = Some (view c)) by (unfold cached; by rewrite Hp, Ei, Hc).
  destruct (_ && _) eqn:Eu; [|done]. apply andb_true_iff in Eu as [E1%Z.eqb_eq E2]. apply HQ. exists (view c). split; [done|].
  apply Hfresh; [done|done|]. destruct pc as [pc|]; [|done]. by apply Z.leb_le in E2.
Qed.

(** ** All realms below one *)
Inductive below (h : gmap Z ceph_snap_realm) (p : Z) : Z -> Prop :=
  | below_refl : below h p p
  | below_step c r q : h !! c = Some r -> sr_parent r = Some p -> below h c q -> below h p q.

Section Rebuild.
Context (level : Z -> nat) (s0 : snap_state).
Hypothesis Hwf : realms_wf level s0.
#[local] Abbreviation h := (hierarchy s0).
Definition spec (p : Z) : option (Z * list Z) := context_of (size (sn_realms s0)) (hierarchy s0) p.

(** A realm whose context would be taken for current has a current one. *)
Definition seq_changes : Prop := forall p r v, h !! p = Some r -> cached s0 p = Some v -> fst v = sr_seq r ->
  (forall q pv, sr_parent r = Some q -> spec q = Some pv -> fst pv <= fst v) -> spec p = Some v.
(** The snapshots of a realm and its parent can be counted in 32 bits. *)
Definition countable_snaps : Prop := forall p r, h !! p = Some r ->
  sr_num_prior_parent_snaps r + sr_num_snaps r +
    match sr_parent r with Some q => match spec q with Some v => Z.of_nat (length (snd v)) | None => 0 end | None => 0 end < 2 ^ 32.
Hypothesis Hseq : seq_changes.
Hypothesis Hcount : countable_snaps.

Lemma context_of_S n m p r : sn_realms s0 !! p = Some r -> (level p < n)%nat -> (level p < m)%nat ->
  context_of n h p = context_of m h p /\ is_Some (context_of n h p).
Proof.
  revert m p r. induction n as [|n IH]; intros m p r Hp Hn Hm; [lia|]. destruct m as [|m]; [lia|].
  cbn [context_of]. rewrite hierarchy_lookup, Hp. cbn. destruct (sr_parent r) as [q|] eqn:Eq; [|done].
  destruct (rw_parent _ _ Hwf p r q Hp Eq) as [(rq & Hq & _) Hlev].
  destruct (IH m q rq Hq ltac:(lia) ltac:(lia)) as [-> [v Hv]]. split; [done|]. rewrite Hv. by eexists.
Qed.

Lemma spec_unfold p r : sn_realms s0 !! p = Some r ->
  spec p = Some (merge_context r (match sr_parent r with Some q => spec q | None => None end)).
Proof.
  intros Hp. pose proof (rw_level _ _ Hwf p r Hp) as Hlev. unfold spec.
  destruct (context_of_S (size (sn_realms s0)) (S (size (sn_realms s0))) p r Hp ltac:(lia) ltac:(lia)) as [-> _].
  cbn [context_of]. rewrite hierarchy_lookup, Hp. cbn [fmap option_fmap option_map].
  change (sr_parent (bare r)) with (sr_parent r). destruct (sr_parent r) as [q|] eqn:Eq; [|done].
  destruct (rw_parent _ _ Hwf p r q Hp Eq) as [(rq & Hq & _) Hl].
  destruct (context_of_S (size (sn_realms s0)) (S (size (sn_realms s0))) q rq Hq ltac:(lia) ltac:(lia)) as [_ [v Hv]].
  rewrite Hv. done.
Qed.

(** The contexts are the ones at the start, or those of the specification. *)
Record between (s : snap_state) : Prop := {
  bt_wf : realms_wf level s;
  bt_hier : hierarchy s = h;
  bt_cached : forall p, cached s p = cached s0 p \/ cached s p = spec p }.

Definition keeps (s s' : snap_state) : Prop := forall p, cached s p = spec p -> cached s' p = spec p.

Lemma between_realm s p r : between s -> sn_realms s !! p = Some r ->
  exists r0, sn_realms s0 !! p = Some r0 /\ bare r = bare r0.
Proof.
  intros Hb Hp. pose proof (f_equal (fun m => m !! p) (bt_hier _ Hb)) as E. cbn in E.
  rewrite !hierarchy_lookup, Hp in E. cbn [fmap option_fmap option_map] in E.
  destruct (sn_realms s0 !! p) as [r0|]; [|done]. exists r0. split; [done|]. by apply (inj Some).
Qed.

Lemma merge_bare r r0 pc : bare r = bare r0 -> merge_context r pc = merge_context r0 pc.
Proof. intros E. change (merge_context r pc) with (merge_context (bare r) pc). by rewrite E. Qed.

Lemma between_build n p s r :
  between s -> sn_realms s !! p = Some r -> (forall q, sr_parent r = Some q -> cached s q = spec q) ->
  wp (build_snap_context kmalloc_ok (S n) p) (fun _ s' => between s' /\ keeps s s' /\ cached s' p = spec p) s.
Proof.
  intros Hb Hp Hpar. destruct (between_realm _ _ _ Hb Hp) as (r0 & Hp0 & Er). pose proof (spec_unfold p r0 Hp0) as Hsp.
  assert (Epar : sr_parent r = sr_parent r0) by (by apply bare_fields in Er as [-> _]).
  assert (Epv : parent_view s r = match sr_parent r0 with Some q => spec q | None => None end).
  { unfold parent_view. rewrite <- Epar. destruct (sr_parent r) as [q|]; [by apply Hpar|done]. }
  rewrite <- (merge_bare r r0), <- Epv in Hsp by done.
  eapply wp_mono; [apply (wp_build level n p s r (bt_wf _ Hb) Hp)|].
  - intros q Hq. rewrite (Hpar q Hq). rewrite Epar in Hq. destruct (rw_parent _ _ Hwf p r0 q Hp0 Hq) as [(rq & Hrq & _) _].
    rewrite (spec_unfold q rq Hrq). by eexists.
  - rewrite Epv. pose proof (Hcount p (bare r0)) as Hc. rewrite hierarchy_lookup, Hp0 in Hc. specialize (Hc eq_refl).
    cbn in Hc. apply bare_fields in Er as (_ & _ & _ & -> & _ & ->). by destruct (sr_parent r0).
  - intros v Hv Hfst Hle. destruct (bt_cached _ Hb p) as [E|E]; [|congruence]. rewrite Hv in E.
    enough (spec p = Some v) by congruence. apply (Hseq p (bare r0)); [by rewrite hierarchy_lookup, Hp0|done| |].
    + rewrite Hfst. exact (f_equal sr_seq Er).
    + intros q pv Hq Hpv. rewrite Epv in Hle. cbn in Hq. rewrite Hq, Hpv in Hle. done.
  - cbv beta. intros err s' [_ [R1 R2 R3 R4 R5]]. rewrite <- Hsp in R3.
    assert (Hother : forall q, q = p \/ cached s' q = cached s q) by (intros q; destruct (decide (q = p)); auto).
    split_and!; [|intros q Hq; destruct (Hother q) as [->| ->]; auto|done].
    split; [done|by rewrite R2; apply Hb|]. intros q. destruct (Hother q) as [->| ->]; [auto|]. by apply Hb.
Qed.

Lemma between_rebuild n : forall p s r,
  between s -> sn_realms s !! p = Some r -> (size (sn_realms s0) < n + level p)%nat ->
  (forall q, sr_parent r = Some q -> cached s q = spec q) ->
  wp (rebuild_snap_realms kmalloc_ok n p)
    (fun _ s' => between s' /\ keeps s s' /\ forall q, below h p q -> cached s' q = spec q) s.
Proof.
  induction n as [|n IH]; intros p s r Hb Hp Hn Hpar.
  { destruct (between_realm _ _ _ Hb Hp) as (r0 & Hp0 & _). pose proof (rw_level _ _ Hwf p r0 Hp0). lia. }
  cbn [rebuild_snap_realms]. apply wp_bind. unfold build. change (wp (build_snap_context kmalloc_ok (realm_fuel s) p)
    (fun _ s' => wp (r ↢ get_realm p; sfor (sr_children r) (rebuild_snap_realms kmalloc_ok n)) (fun _ s' => between s' /\ keeps s s' /\
       forall q, below h p q -> cached s' q = spec q) s') s).
  eapply wp_mono; [by apply (between_build _ p s r)|]. cbv beta. intros _ s1 (Hb1 & Hk1 & Hc1).
  assert (Hr1 : exists r1, sn_realms s1 !! p = Some r1 /\ bare r1 = bare r).
  { pose proof (f_equal (fun m => m !! p) (bt_hier _ Hb1)) as E. rewrite <- (bt_hier _ Hb) in E. cbn in E.
    rewrite !hierarchy_lookup, Hp in E. cbn [fmap option_fmap option_map] in E. destruct (sn_realms s1 !! p) as [r1|]; [|done].
    exists r1. split; [done|]. by apply (inj Some). }
  destruct Hr1 as (r1 & Hp1 & Er1). apply wp_bind, (wp_get_realm s1 p r1 _ Hp1).
  apply (wp_for _ _ (fun rest s' => between s' /\ keeps s1 s' /\ exists pre, sr_children r1 = pre ++ rest /\
    forall c q, c ∈ pre -> below h c q -> cached s' q = spec q)).
  - split_and!; [done|by intros q|]. exists []. split; [done|]. intros c q Hc. by apply elem_of_nil in Hc.
  - intros s' (Hb' & Hk' & pre & Epre & Hpre). rewrite app_nil_r in Epre. split; [done|]. split; [intros q Hq; auto|].
    intros q Hq. destruct Hq as [|c rc q Hc Hpc Hq]; [by apply Hk'|]. apply (Hpre c); [|done].
    rewrite hierarchy_lookup in Hc. destruct (sn_realms s0 !! c) as [rc0|] eqn:Ec; [|done].
    assert (rc = bare rc0) as -> by (by apply (inj Some)). cbn in Hpc. destruct (rw_parent _ _ Hwf c rc0 p Ec Hpc) as [(rp & Hrp & Hin) _]. rewrite <- Epre.
    destruct (between_realm _ _ _ Hb1 Hp1) as (rp' & Hrp' & Eb). apply bare_fields in Eb as (_ & -> & _). congruence.
  - intros c rest s' (Hb' & Hk' & pre & Epre & Hpre).
    destruct (rw_children _ _ (bt_wf _ Hb1) p r1 c Hp1) as (rc1 & Hrc1 & Hpc1); [rewrite Epre; set_solver|].
    destruct (between_realm _ _ _ Hb1 Hrc1) as (rc0 & Hrc0 & Ec0). assert (Hpc0 : sr_parent rc0 = Some p).
    { apply bare_fields in Ec0 as [<- _]. done. }
    assert (Hrc : exists rc, sn_realms s' !! c = Some rc /\ sr_parent rc = Some p).
    { pose proof (f_equal (fun m => m !! c) (bt_hier _ Hb')) as E. cbn in E. rewrite !hierarchy_lookup, Hrc0 in E.
      cbn [fmap option_fmap option_map] in E. destruct (sn_realms s' !! c) as [rc|]; [|done]. exists rc. split; [done|].
      assert (Eb : bare rc = bare rc0) by (by apply (inj Some)). apply bare_fields in Eb as [-> _]. done. }
    destruct Hrc as (rc & Hrc & Hpc). destruct (rw_parent _ _ Hwf c rc0 p Hrc0 Hpc0) as [_ Hlev].
    eapply wp_mono; [apply (IH c s' rc Hb' Hrc); [lia|]|].
    + intros q Hq. assert (q = p) as -> by congruence. by apply Hk'.
    + cbv beta. intros _ s2 (Hb2 & Hk2 & Hbel). split; [done|]. split; [intros q Hq; auto|].
      exists (pre ++ [c]). rewrite <- app_assoc. split; [done|]. intros c' q [Hin| ->%list_elem_of_singleton]%elem_of_app Hq; [|auto].
      apply Hk2, (Hpre c'); done.
Qed.
End Rebuild.

End Build.

(** ** Examples *)
(** A root with two snapshots, a directory split off after the first, and one
    below it; no contexts yet. *)
Definition example_realm (ino seq since : Z) (prior snaps : list Z) (parent : option Z) (children : list Z) : ceph_snap_realm :=
  SnapRealm ino (Z.of_nat (length children)) 0 seq (default 0 parent) since (Some prior) (Z.of_nat (length prior))
    (Some snaps) (Z.of_nat (length snaps)) parent children None [].
Definition example_realms : snap_state :=
  SnapState Nil
    (<[1 := example_realm 1 9 0 [] [9; 4] None [2]]> (<[2 := example_realm 2 12 5 [4] [12; 11] (Some 1) [3]]>
      (<[3 := example_realm 3 7 10 [] [7] (Some 2) []]> ∅)))
    [] ∅ 0 0 ∅ [].

Definition example_level (p : Z) : nat := Z.to_nat (p - 1).

Lemma example_lookup p r : sn_realms example_realms !! p = Some r ->
  p = 1 /\ r = example_realm 1 9 0 [] [9; 4] None [2] \/ p = 2 /\ r = example_realm 2 12 5 [4] [12; 11] (Some 1) [3] \/
  p = 3 /\ r = example_realm 3 7 10 [] [7] (Some 2) [].
Proof.
  cbn. intros [[<- <-]|[_ [[<- <-]|[_ [[<- <-]|[_ Hp]]%lookup_insert_Some]]%lookup_insert_Some]]%lookup_insert_Some; auto.
  by rewrite lookup_empty in Hp.
Qed.

Lemma example_wf : realms_wf example_level example_realms.
Proof.
  split.
  - intros p r [[-> ->]|[[-> ->]|[-> ->]]]%example_lookup; apply Nat.ltb_lt; vm_compute; reflexivity.
  - intros p r q [[-> ->]|[[-> ->]|[-> ->]]]%example_lookup; cbn; intros [= <-]; (split; [|unfold example_level; lia]); eexists; (split; [reflexivity|]); set_solver.
  - intros p r c [[-> ->]|[[-> ->]|[-> ->]]]%example_lookup; cbn; intros Hc;
      try (apply list_elem_of_singleton in Hc as ->; eexists; by split); by apply elem_of_nil in Hc.
  - intros p r [[-> ->]|[[-> ->]|[-> ->]]]%example_lookup; cbn; unfold array_ok; repeat split; try lia; intros; try lia;
      eexists; (split; [done|]); cbn; lia.
  - intros p r i [[-> ->]|[[-> ->]|[-> ->]]]%example_lookup; done.
  - intros p q r r' i [[-> ->]|[[-> ->]|[-> ->]]]%example_lookup; done.
Qed.


(** The contexts: the directory inherits 9 but not 4 from the root, and keeps 4
    from an earlier parent; the realm below inherits 12 and 11. *)
Lemma example_contexts :
  spec example_realms 1 = Some (9, [9; 4]) /\ spec example_realms 2 = Some (12, [12; 11; 9; 4]) /\
  spec example_realms 3 = Some (12, [12; 11; 7]).
Proof. vm_compute. done. Qed.

(** ** Limits *)
(** One record of a trace. *)
Definition record_bytes (ino created parent since seq num_snaps num_prior : Z) (words : list Z) : list Z :=
  le_bytes 8 ino ++ le_bytes 8 created ++ le_bytes 8 parent ++ le_bytes 8 since ++ le_bytes 8 seq ++
  le_bytes 4 num_snaps ++ le_bytes 4 num_prior ++ mbind (le_bytes 8) words.
Definition no_realms : snap_state := SnapState Nil ∅ [] ∅ 0 0 ∅ [].
Definition snap_result {A} (m : ST snap_state A) (s : snap_state) : outcome A := '(a, _) ← m s; Ret a.

(** The counts of a record are added in 32 bits: a record that claims 2^32
    snapshots passes the check, and its array is read past the message. *)
Theorem snap_trace_counts_wrap :
  snap_result (ceph_update_snap_trace (fun _ _ => true) (record_bytes 1 0 0 0 5 (2 ^ 32 - 1) 1 []) 0) no_realms = Fault OutOfBounds.
Proof. vm_compute. reflexivity. Qed.

(** Two records that make each other's realm their parent: the recursion of
    build_snap_context does not end. *)
Theorem snap_trace_cycle_recurses :
  snap_result (ceph_update_snap_trace (fun _ _ => true) (record_bytes 1 0 2 0 5 0 0 [] ++ record_bytes 2 0 1 0 5 0 0 []) 0) no_realms
    = Fault OutOfFuel.
Proof. vm_compute. reflexivity. Qed.

(** When the array of a realm cannot be allocated, the count is kept: the next
    trace copies it from NULL. *)
Theorem snap_trace_copies_null :
  snap_result (r ↢ ceph_update_snap_trace (fun n _ => negb (n =? 1)%nat) (record_bytes 1 0 0 0 5 1 0 [3]) 0;
               _ ↢ ceph_update_snap_trace (fun n _ => negb (n =? 1)%nat) (record_bytes 1 0 0 0 5 1 0 [3]) 0; sret r) no_realms
    = Fault NullPointer.
Proof. vm_compute. reflexivity. Qed.

(** A realm gets another parent, with the same sequence number: its context is
    taken for current, and the snapshots of the new parent are missing. *)
Theorem moved_realm_keeps_context :
  snap_result (_ ↢ ceph_update_snap_trace (fun _ _ => true) (record_bytes 3 0 1 0 7 1 0 [7] ++ record_bytes 1 0 0 0 5 1 0 [4]) 0;
               _ ↢ ceph_update_snap_trace (fun _ _ => true) (record_bytes 3 0 2 0 7 1 0 [7] ++ record_bytes 2 0 0 0 6 1 0 [6]) 0;
               s ↢ sget; sret (cached s 3, spec s 3)) no_realms = Ret (Some (7, [7; 4]), Some (7, [7; 6])).
Proof. vm_compute. reflexivity. Qed.
