(* ===== verification/CapPool.v ===== *)
(** * Cap reservations

    src/fs/ceph/caps.c, the first part: the pool of struct ceph_cap.  A request
    reserves the structures that its reply may need, so that handling the reply
    allocates nothing; structures that are put back stay in the pool while it is
    small.

    A structure is its address.  The addresses handed out are never reused after a
    free, so that a structure that was freed can be told from a new one. *)
From S2P Require Import Prelude.
From S2P Require Import StateM.
From stdpp Require Import gmap.
#[local] Open Scope Z_scope.
#[local] Open Scope ceph_scope.
#[local] Open Scope st_scope.

(** The fields caps_* of struct ceph_mds_client. *)
Record cap_pool := CapPool {
  caps_list : list nat;
  caps_total_count : Z;
  caps_use_count : Z;
  caps_reserve_count : Z;
  caps_avail_count : Z;
  caps_min_count : Z;
  pool_next : nat;
  pool_allocs : nat }.
#[global] Instance eta_cap_pool : Eta cap_pool := fun p =>
  CapPool (caps_list p) (caps_total_count p) (caps_use_count p) (caps_reserve_count p) (caps_avail_count p)
    (caps_min_count p) (pool_next p) (pool_allocs p).

Section CapPool.
Context (cap_alloc_ok : nat -> bool).

(** kmem_cache_alloc(ceph_cap_cachep) *)
Definition pool_alloc : ST cap_pool (option nat) := fun p =>
  if cap_alloc_ok (pool_allocs p) then Ret (Some (pool_next p), p <| pool_next ::= S |> <| pool_allocs ::= S |>)
  else Ret (None, p <| pool_allocs ::= S |>).

Definition ceph_caps_init (p : cap_pool) : cap_pool := p <| caps_list := [] |>.

Definition ceph_caps_finalize (p : cap_pool) : cap_pool :=
  p <| caps_list := [] |> <| caps_total_count := 0 |> <| caps_avail_count := 0 |> <| caps_use_count := 0 |>
    <| caps_reserve_count := 0 |> <| caps_min_count := 0 |>.

Definition ceph_adjust_min_caps (delta : Z) : ST cap_pool unit :=
  _ ↢ smod (fun p => p <| caps_min_count ::= fun n => s32 (n + delta) |>);
  p ↢ sget;
  slift (bug_on (caps_min_count p <? 0)).

(** The BUG_ON that every operation ends with *)
Definition check_counts : ST cap_pool unit :=
  p ↢ sget;
  slift (bug_on (negb (caps_total_count p =? s32 (s32 (caps_use_count p + caps_reserve_count p) + caps_avail_count p)))).

(** for (i = have; i < need; i++): the structures allocated, newest first *)
Fixpoint alloc_caps (n : nat) (newcaps : list nat) : ST cap_pool (list nat) :=
  match n with
  | O => sret newcaps
  | S n => c ↢ pool_alloc;
           match c with
           | None => sret newcaps
           | Some c => alloc_caps n (c :: newcaps)
           end
  end.

(** The result is the new ctx->count. *)
Definition ceph_reserve_caps (need : Z) : ST cap_pool Z :=
  p ↢ sget;
  let have := if need <=? caps_avail_count p then need else caps_avail_count p in
  _ ↢ smod (fun p => p <| caps_avail_count ::= fun n => s32 (n - have) |> <| caps_reserve_count ::= fun n => s32 (n + have) |>);
  _ ↢ check_counts;
  newcaps ↢ alloc_caps (Z.to_nat (need - have)) [];
  let alloc := Z.of_nat (length newcaps) in
  _ ↢ smod (fun p => p <| caps_total_count ::= fun n => s32 (n + alloc) |>
                       <| caps_reserve_count ::= fun n => s32 (n + alloc) |>
                       <| caps_list ::= app newcaps |>);
  _ ↢ check_counts;
  sret need.

Definition ceph_unreserve_caps (count : Z) : ST cap_pool Z :=
  if count =? 0 then sret 0
  else
    p ↢ sget;
    _ ↢ slift (bug_on (caps_reserve_count p <? count));
    _ ↢ smod (fun p => p <| caps_reserve_count ::= fun n => s32 (n - count) |> <| caps_avail_count ::= fun n => s32 (n + count) |>);
    _ ↢ check_counts;
    sret 0.

(** [ctx] is the count of the reservation; the result is the structure and the new
    count. *)
Definition ceph_get_cap (ctx : option Z) : ST cap_pool (option nat * option Z) :=
  match ctx with
  | None =>
      c ↢ pool_alloc;
      match c with
      | None => sret (None, None)
      | Some c =>
          _ ↢ smod (fun p => p <| caps_use_count ::= fun n => s32 (n + 1) |> <| caps_total_count ::= fun n => s32 (n + 1) |>);
          sret (Some c, None)
      end
  | Some count =>
      p ↢ sget;
      _ ↢ slift (bug_on (count =? 0));
      _ ↢ slift (bug_on (caps_reserve_count p <? count));
      match caps_list p with
      | [] => sfault BugOn
      | cap :: l =>
          _ ↢ smod (fun p => p <| caps_reserve_count ::= fun n => s32 (n - 1) |> <| caps_use_count ::= fun n => s32 (n + 1) |>
                               <| caps_list := l |>);
          _ ↢ check_counts;
          sret (Some cap, Some (s32 (count - 1)))
      end
  end.

Definition ceph_put_cap (cap : nat) : ST cap_pool unit :=
  _ ↢ smod (fun p => p <| caps_use_count ::= fun n => s32 (n - 1) |>);
  p ↢ sget;
  _ ↢ (if s32 (caps_reserve_count p + caps_min_count p) <=? caps_avail_count p
       then smod (fun p => p <| caps_total_count ::= fun n => s32 (n - 1) |>)
       else smod (fun p => p <| caps_avail_count ::= fun n => s32 (n + 1) |> <| caps_list ::= cons cap |>));
  check_counts.

(** total, avail, used, reserved, min *)
Definition ceph_reservation_status (p : cap_pool) : Z * Z * Z * Z * Z :=
  (caps_total_count p, caps_avail_count p, caps_use_count p, caps_reserve_count p, caps_min_count p).

(** ** Clients of the pool

    The pool with the reservations of its clients (their ctx->count) and the
    structures in use. *)
Record clients := Clients {
  cl_pool : cap_pool;
  cl_ctx : list Z;
  cl_used : list nat }.

Inductive pool_event :=
  | EReserve (i : nat) (need : Z)
  | EUnreserve (i : nat)
  | EGet (i : nat)
  | EGetPlain
  | EPut (cap : nat).

Definition use_cap (c : option nat) (used : list nat) : list nat :=
  match c with Some c => c :: used | None => used end.

Definition pool_step (e : pool_event) (s : clients) : outcome clients :=
  match e with
  | EReserve i need => '(n, p) ← ceph_reserve_caps need (cl_pool s); Ret (Clients p (<[i := n]> (cl_ctx s)) (cl_used s))
  | EUnreserve i => n ← deref (cl_ctx s !! i); '(n, p) ← ceph_unreserve_caps n (cl_pool s); Ret (Clients p (<[i := n]> (cl_ctx s)) (cl_used s))
  | EGet i => n ← deref (cl_ctx s !! i); '((c, n'), p) ← ceph_get_cap (Some n) (cl_pool s);
              Ret (Clients p (<[i := default n n']> (cl_ctx s)) (use_cap c (cl_used s)))
  | EGetPlain => '((c, _), p) ← ceph_get_cap None (cl_pool s); Ret (Clients p (cl_ctx s) (use_cap c (cl_used s)))
  | EPut c => '(_, p) ← ceph_put_cap c (cl_pool s); Ret (Clients p (cl_ctx s) (List.filter (fun d => negb (d =? c)%nat) (cl_used s)))
  end.

(** A client reserves with an empty context, takes what it has reserved, and puts
    what it has taken; there are fewer than 2^31 structures. *)
Definition pool_allowed (e : pool_event) (s : clients) : Prop :=
  match e with
  | EReserve i need => cl_ctx s !! i = Some 0 /\ 0 <= need /\ caps_total_count (cl_pool s) + need < 2 ^ 31
  | EUnreserve i => is_Some (cl_ctx s !! i)
  | EGet i => exists n, cl_ctx s !! i = Some n /\ 0 < n
  | EGetPlain => caps_total_count (cl_pool s) + 1 < 2 ^ 31
  | EPut c => c ∈ cl_used s
  end.

Fixpoint pool_run (es : list pool_event) (s : clients) : outcome clients :=
  match es with
  | [] => Ret s
  | e :: es => s ← pool_step e s; pool_run es s
  end.

Fixpoint pool_allowed_run (es : list pool_event) (s : clients) : Prop :=
  match es with
  | [] => True
  | e :: es => pool_allowed e s /\ forall s', pool_step e s = Ret s' -> pool_allowed_run es s'
  end.

(** The invariant: the counts are those of the structures, the reservations are
    backed by structures of the list, and nothing is in two places. *)
Record pool_inv (s : clients) : Prop := {
  pi_total : caps_total_count (cl_pool s) = caps_use_count (cl_pool s) + caps_reserve_count (cl_pool s) + caps_avail_count (cl_pool s);
  pi_max : caps_total_count (cl_pool s) < 2 ^ 31;
  pi_avail : 0 <= caps_avail_count (cl_pool s);
  pi_use : caps_use_count (cl_pool s) = Z.of_nat (length (cl_used s));
  pi_list : Z.of_nat (length (caps_list (cl_pool s))) = caps_reserve_count (cl_pool s) + caps_avail_count (cl_pool s);
  pi_reserve : caps_reserve_count (cl_pool s) = foldr Z.add 0 (cl_ctx s);
  pi_ctx : Forall (fun n => 0 <= n) (cl_ctx s);
  pi_NoDup : NoDup (caps_list (cl_pool s) ++ cl_used s);
  pi_next : Forall (fun c => c < pool_next (cl_pool s))%nat (caps_list (cl_pool s) ++ cl_used s) }.

(** ** Sums *)
Lemma sum_nonneg l : Forall (fun n => 0 <= n) l -> 0 <= foldr Z.add 0 l.
Proof. induction 1; cbn; lia. Qed.

Lemma sum_insert l i n m : l !! i = Some n -> foldr Z.add 0 (<[i := m]> l) = foldr Z.add 0 l - n + m.
Proof.
  revert i. induction l as [|x l IH]; intros [|i]; cbn; try done.
  - intros [= ->]. lia.
  - intros Hi. change (x + foldr Z.add 0 (<[i := m]> l) = x + foldr Z.add 0 l - n + m). rewrite (IH i Hi). lia.
Qed.

Lemma sum_lookup l i n : Forall (fun n => 0 <= n) l -> l !! i = Some n -> 0 <= n <= foldr Z.add 0 l.
Proof.
  intros Hl. revert i. induction Hl as [|x l Hx Hl IH]; intros [|i]; cbn; try done.
  - intros [= ->]. pose proof (sum_nonneg l Hl). lia.
  - intros Hi. pose proof (IH i Hi). lia.
Qed.

(** ** Operations *)
Section Ops.
Context (alloc_works : forall n, cap_alloc_ok n = true).

(** The structures an allocation loop adds are new. *)
Lemma wp_alloc_caps n l p (Q : list nat -> cap_pool -> Prop) :
  (forall new k a, length new = n -> NoDup new -> Forall (fun c => pool_next p <= c < k)%nat new -> (pool_next p <= k)%nat ->
     Q (new ++ l) (p <| pool_next := k |> <| pool_allocs := a |>)) ->
  wp (alloc_caps n l) Q p.
Proof.
  revert l p. induction n as [|n IH]; intros l p HQ.
  - apply wp_ret. specialize (HQ [] (pool_next p) (pool_allocs p)). destruct p. apply HQ; [done|constructor|constructor|done].
  - cbn. apply wp_bind. unfold pool_alloc, wp. rewrite alloc_works. cbn. apply (IH (pool_next p :: l)).
    intros new k a Hlen Hnd Hnew Hk. cbn in Hnew, Hk. specialize (HQ (new ++ [pool_next p]) k a).
    rewrite <- app_assoc in HQ. cbn in HQ. destruct p as [ls t u r av m nx al]. cbn in *. apply HQ.
    + rewrite length_app. cbn. lia.
    + apply NoDup_app. split; [done|]. split; [|apply NoDup_singleton].
      intros x Hx ->%list_elem_of_singleton. rewrite Forall_forall in Hnew. specialize (Hnew _ Hx). lia.
    + apply Forall_app. split; [eapply Forall_impl; [done|]; cbn; lia|]. repeat constructor; lia.
    + lia.
Qed.

Lemma wp_check_counts p (Q : unit -> cap_pool -> Prop) :
  caps_total_count p = s32 (s32 (caps_use_count p + caps_reserve_count p) + caps_avail_count p) -> Q tt p -> wp check_counts Q p.
Proof.
  intros Hc HQ. unfold check_counts. wp_steps. apply wp_lift with tt; [|done].
  rewrite Hc, Z.eqb_refl. done.
Qed.
(** The counts fit in 32 bits. *)
Ltac pool_arith :=
  repeat match goal with
  | |- context [s32 ?x] => lazymatch x with context [s32 _] => fail | _ => rewrite (s32_small x) by lia end
  end; lia.

Lemma reserve_caps_ok i need s : pool_inv s -> pool_allowed (EReserve i need) s ->
  exists s', pool_step (EReserve i need) s = Ret s' /\ pool_inv s'.
Proof.
  intros [Ht Hm Ha Hu Hl Hr Hc Hn Hx] (Hi & Hneed & Hmax). cbn [pool_step].
  pose proof (sum_nonneg _ Hc) as Hr0. rewrite <- Hr in Hr0.
  enough (H : wp (ceph_reserve_caps need) (fun n p => pool_inv (Clients p (<[i := n]> (cl_ctx s)) (cl_used s))) (cl_pool s)).
  { apply wp_run in H as (n & p & -> & Hinv). eexists. split; [reflexivity|done]. }
  unfold ceph_reserve_caps. wp_steps. set (have := if need <=? _ then _ else _).
  assert (Hh : 0 <= have <= need /\ have <= caps_avail_count (cl_pool s)) by (unfold have; case_Zb; lia).
  apply wp_check_counts; [cbn; pool_arith|]. wp_steps. apply wp_alloc_caps. intros new k a Hlen Hnd Hnew Hk. cbn in Hnew, Hk.
  wp_steps. rewrite app_nil_r. apply wp_check_counts; [cbn; pool_arith|]. wp_steps. split; cbn.
  - pool_arith.
  - pool_arith.
  - pool_arith.
  - done.
  - rewrite length_app. pool_arith.
  - rewrite (sum_insert _ _ 0) by done. pool_arith.
  - by apply Forall_insert.
  - rewrite <- app_assoc. apply NoDup_app. split; [done|]. split; [|done]. intros c Hin1 Hin2.
    rewrite Forall_forall in Hnew, Hx. specialize (Hnew _ Hin1). specialize (Hx _ Hin2). cbn in Hx. lia.
  - rewrite <- app_assoc. apply Forall_app. split; [eapply Forall_impl; [done|]; cbn; lia|].
    eapply Forall_impl; [done|]. cbn. lia.
Qed.

Lemma unreserve_ok i s : pool_inv s -> pool_allowed (EUnreserve i) s ->
  exists s', pool_step (EUnreserve i) s = Ret s' /\ pool_inv s'.
Proof.
  intros [Ht Hm Ha Hu Hl Hr Hc Hn Hx] [n Hi]. cbn [pool_step]. rewrite Hi. cbn [deref obind].
  pose proof (sum_lookup _ _ _ Hc Hi) as Hle. rewrite <- Hr in Hle.
  enough (H : wp (ceph_unreserve_caps n) (fun n p => pool_inv (Clients p (<[i := n]> (cl_ctx s)) (cl_used s))) (cl_pool s)).
  { apply wp_run in H as (m & p & -> & Hinv). eexists. split; [reflexivity|done]. }
  unfold ceph_unreserve_caps. case_Zb.
  - subst n. apply wp_ret. rewrite list_insert_id by done. by split.
  - wp_steps. apply wp_lift with tt; [by case_Zb; [lia|]|]. wp_steps. apply wp_check_counts; [cbn; pool_arith|]. wp_steps.
    split; cbn; try done; try pool_arith.
    + rewrite (sum_insert _ _ n) by done. pool_arith.
    + by apply Forall_insert.
Qed.

Lemma get_ok i s : pool_inv s -> pool_allowed (EGet i) s ->
  exists s', pool_step (EGet i) s = Ret s' /\ pool_inv s'.
Proof.
  intros [Ht Hm Ha Hu Hl Hr Hc Hn Hx] (n & Hi & Hpos). cbn [pool_step]. rewrite Hi. cbn [deref obind].
  pose proof (sum_lookup _ _ _ Hc Hi) as Hle. rewrite <- Hr in Hle.
  enough (H : wp (ceph_get_cap (Some n)) (fun r p => pool_inv (Clients p (<[i := default n (snd r)]> (cl_ctx s)) (use_cap (fst r) (cl_used s)))) (cl_pool s)).
  { apply wp_run in H as ([c m] & p & -> & Hinv). eexists. split; [reflexivity|done]. }
  unfold ceph_get_cap. wp_steps. apply wp_lift with tt; [by case_Zb; [lia|]|]. wp_steps.
  apply wp_lift with tt; [by case_Zb; [lia|]|].
  destruct (caps_list (cl_pool s)) as [|c l] eqn:El; [cbn in Hl; lia|]. cbn in Hl. wp_steps.
  apply wp_check_counts; [cbn; pool_arith|]. wp_steps. split; cbn; try pool_arith.
  - rewrite (sum_insert _ _ n) by done. pool_arith.
  - apply Forall_insert; [done|]. pool_arith.
  - by rewrite <- Permutation_middle.
  - by rewrite <- Permutation_middle.
Qed.

Lemma get_plain_ok s : pool_inv s -> pool_allowed EGetPlain s ->
  exists s', pool_step EGetPlain s = Ret s' /\ pool_inv s'.
Proof.
  intros [Ht Hm Ha Hu Hl Hr Hc Hn Hx] Hmax. cbn in Hmax. pose proof (sum_nonneg _ Hc) as Hr0. rewrite <- Hr in Hr0.
  cbn. unfold sbind, pool_alloc. rewrite alloc_works. cbn.
  eexists. split; [reflexivity|]. split; cbn; try done; try pool_arith.
  - rewrite <- Permutation_middle. constructor; [|done]. intros Hin. rewrite Forall_forall in Hx. specialize (Hx _ Hin). cbn in Hx. lia.
  - rewrite <- Permutation_middle. constructor; [lia|]. eapply Forall_impl; [done|]. cbn. lia.
Qed.

Lemma used_split c (l : list nat) : NoDup l -> c ∈ l -> l ≡ₚ c :: List.filter (fun d => negb (d =? c)%nat) l.
Proof.
  induction 1 as [|x l Hx Hl IH]; [by intros ?%elem_of_nil|]. intros [->|Hc]%elem_of_cons; cbn.
  - rewrite Nat.eqb_refl. cbn. f_equiv. clear -Hx. induction l as [|y l IH]; [done|]. cbn.
    apply not_elem_of_cons in Hx as [Hy Hx]. destruct (Nat.eqb_spec y x); [by subst|]. cbn. f_equiv. by apply IH.
  - destruct (Nat.eqb_spec x c) as [->|]; [done|]. cbn. rewrite (IH Hc) at 1. apply Permutation_swap.
Qed.

Lemma put_ok c s : pool_inv s -> pool_allowed (EPut c) s ->
  exists s', pool_step (EPut c) s = Ret s' /\ pool_inv s'.
Proof.
  intros [Ht Hm Ha Hu Hl Hr Hc Hn Hx] Hin. cbn in Hin. pose proof (sum_nonneg _ Hc) as Hr0. rewrite <- Hr in Hr0. cbn [pool_step].
  pose proof (used_split c _ (proj2 (proj2 (proj1 (NoDup_app _ _) Hn))) Hin) as Hperm. set (l' := List.filter _ _) in *.
  assert (Hlen : length (cl_used s) = S (length l')) by (by rewrite Hperm).
  rewrite Hperm, <- Permutation_middle in Hn, Hx.
  enough (H : wp (ceph_put_cap c) (fun _ p => pool_inv (Clients p (cl_ctx s) l')) (cl_pool s)).
  { apply wp_run in H as ([] & p & -> & Hinv). eexists. split; [reflexivity|done]. }
  unfold ceph_put_cap. wp_steps. case_match; wp_steps; (apply wp_check_counts; [cbn; pool_arith|]); split; cbn; try done; try pool_arith.
  - by inversion_clear Hn.
  - by inversion_clear Hx.
Qed.

Lemma pool_step_ok e s : pool_inv s -> pool_allowed e s -> exists s', pool_step e s = Ret s' /\ pool_inv s'.
Proof. destruct e; auto using reserve_caps_ok, unreserve_ok, get_ok, get_plain_ok, put_ok. Qed.

End Ops.
End CapPool.

Definition empty_pool : cap_pool := CapPool [] 0 0 0 0 0 0 0.

Lemma empty_pool_inv n : pool_inv (Clients empty_pool (replicate n 0) []).
Proof.
  split; cbn; try lia; try constructor.
  - induction n; cbn; lia.
  - by apply Forall_replicate.
Qed.


(** ** Limits

    When an allocation fails, the context is still given the count it asked for:
    taking a structure of a reservation of two, of which one was allocated, is a
    BUG, although there is one. *)
Lemma short_reservation_bugs :
  pool_run (fun n => (n =? 0)%nat) [EReserve 0 2; EGet 0] (Clients empty_pool [0] []) = Fault BugOn.
Proof. vm_compute. reflexivity. Qed.

(** Undoing such a reservation does the same. *)
Lemma short_unreserve_bugs :
  pool_run (fun n => (n =? 0)%nat) [EReserve 0 2; EUnreserve 0] (Clients empty_pool [0] []) = Fault BugOn.
Proof. vm_compute. reflexivity. Qed.
