(* ===== verification/Caps.v ===== *)
(** * Capabilities

    src/fs/ceph/caps.c: what the MDSs allow the client to do with an inode.  An
    inode has a cap from each of some MDSs; a cap has the bits that are issued and
    those that are implemented, the ones the client may still be using while they
    are revoked.  One cap, the auth cap, is from the authoritative MDS.  Open files
    and buffers hold references to bits ([__ceph_caps_used]); metadata that was
    changed is dirty, then flushing, until the MDS acknowledges it.

    A cap structure is kept in the tree of its inode, under the rank of its MDS,
    and knows its address, by which the lists of its session know it.  A pointer to
    the auth cap is its rank.  The lists that link inodes are lists of inode
    numbers.  Snapshot contexts are immutable: a reference is the address and the
    sequence number, and references are not counted here.  Cap snapshots are
    values in the list of their inode, known by a number. *)
From S2P Require Import Prelude.
From S2P Require Import RbTree.
From S2P Require Import StateM.
From S2P Require Import FileLayout.
From S2P Require Import CapPool.
From stdpp Require Import gmap.
#[local] Open Scope Z_scope.
#[local] Open Scope ceph_scope.
#[local] Open Scope st_scope.

(** ** Constants *)
Definition CEPH_CAP_BITS : nat := 22.
Definition CEPH_CAP_LINK_SHARED : Z := Z.shiftl 1 4.
Definition CEPH_CAP_LINK_EXCL : Z := Z.shiftl 2 4.
Definition or_all (l : list Z) : Z := foldr Z.lor 0 l.
Definition CEPH_CAP_ANY_SHARED : Z := or_all [CEPH_CAP_AUTH_SHARED; CEPH_CAP_LINK_SHARED; CEPH_CAP_XATTR_SHARED; CEPH_CAP_FILE_SHARED].
Definition CEPH_CAP_ANY_RD : Z := or_all [CEPH_CAP_ANY_SHARED; CEPH_CAP_FILE_RD; CEPH_CAP_FILE_CACHE].
Definition CEPH_CAP_ANY_EXCL : Z := or_all [CEPH_CAP_AUTH_EXCL; CEPH_CAP_LINK_EXCL; CEPH_CAP_XATTR_EXCL; CEPH_CAP_FILE_EXCL].
Definition CEPH_CAP_ANY_FILE_RD : Z := or_all [CEPH_CAP_FILE_RD; CEPH_CAP_FILE_CACHE; CEPH_CAP_FILE_SHARED].
Definition CEPH_CAP_ANY_FILE_WR : Z := or_all [CEPH_CAP_FILE_WR; CEPH_CAP_FILE_BUFFER; CEPH_CAP_FILE_EXCL].
Definition CEPH_CAP_ANY_WR : Z := Z.lor CEPH_CAP_ANY_EXCL CEPH_CAP_ANY_FILE_WR.
Definition CEPH_CAP_ANY : Z := or_all [CEPH_CAP_ANY_RD; CEPH_CAP_ANY_EXCL; CEPH_CAP_ANY_FILE_WR; CEPH_CAP_FILE_LAZYIO; CEPH_CAP_PIN].
Definition CEPH_CAP_FLAG_AUTH : Z := 1.
Definition CEPH_CAP_FLAG_RELEASE : Z := 2.
Definition CHECK_CAPS_NODELAY : Z := 1.
Definition CHECK_CAPS_AUTHONLY : Z := 2.
Definition CHECK_CAPS_FLUSH : Z := 4.
Definition CEPH_I_NODELAY : Z := 4.
Definition CEPH_I_FLUSH : Z := 8.
Definition CEPH_I_NOFLUSH : Z := 16.
Definition I_DIRTY_SYNC : Z := 1.
Definition I_DIRTY_DATASYNC : Z := 2.
Definition CEPH_CAP_OP_GRANT : Z := 0.
Definition CEPH_CAP_OP_REVOKE : Z := 1.
Definition CEPH_CAP_OP_TRUNC : Z := 2.
Definition CEPH_CAP_OP_EXPORT : Z := 3.
Definition CEPH_CAP_OP_IMPORT : Z := 4.
Definition CEPH_CAP_OP_UPDATE : Z := 5.
Definition CEPH_CAP_OP_FLUSH : Z := 7.
Definition CEPH_CAP_OP_FLUSH_ACK : Z := 8.
Definition CEPH_CAP_OP_FLUSHSNAP : Z := 9.
Definition CEPH_CAP_OP_FLUSHSNAP_ACK : Z := 10.
Definition CEPH_MDS_SESSION_OPEN : Z := 3.
Definition CEPH_NOSNAP : Z := 2 ^ 64 - 2.
(** with pages of 4096 bytes *)
Definition CEPH_CAPS_PER_RELEASE : Z := (4096 - 4) / 24.

(** [any m1 m2] is the C condition (m1 & m2); [without m1 m2] is m1 & ~m2. *)
Definition any (m1 m2 : Z) : bool := negb (Z.land m1 m2 =? 0).
Definition without (m1 m2 : Z) : Z := Z.land m1 (Z.lnot m2).

Definition ceph_seq_cmp (a b : Z) : Z := s32 (s32 a - s32 b).
Definition time_lt (a b : Z) : bool := s64 (a - b) <? 0.
Definition timespec : Type := Z * Z.
Definition timespec_compare (a b : timespec) : Z :=
  if fst a <? fst b then -1 else if fst b <? fst a then 1 else snd a - snd b.

(** ** Interfaces

    The extended attributes, which are flushed with the caps (Xattr.v), and the
    snapshot realms (Snap.v). *)
Class CapXattrs := {
  xattrs : Type;
  (** __ceph_build_xattrs_blob *)
  build_blob : xattrs -> xattrs;
  blob_of : xattrs -> option (list Z);
  version_of : xattrs -> Z;
  (** a newer blob from the MDS *)
  set_blob : Z -> list Z -> xattrs -> xattrs }.

(** struct ceph_snap_context: address and seq *)
Definition snapc : Type := nat * Z.

Class Realms := {
  realms : Type;
  (** ci->i_snap_realm *)
  realm_of : Z -> realms -> option Z;
  (** its cached_context *)
  realm_context : Z -> realms -> option snapc;
  (** looks a realm up, takes a reference and links the inode; nothing if there is no such realm *)
  join_realm : Z -> Z -> realms -> outcome realms;
  (** unlinks the inode from its realm and drops the reference *)
  leave_realm : Z -> realms -> outcome realms;
  (** ceph_update_snap_trace, of the bytes at a position *)
  update_trace : list Z -> Z -> realms -> outcome realms }.

(** ** Data *)
Record ceph_cap := Cap {
  c_ptr : nat;
  c_mds : Z;
  c_cap_id : Z;
  c_issued : Z;
  c_implemented : Z;
  c_mds_wanted : Z;
  c_seq : Z;
  c_issue_seq : Z;
  c_mseq : Z;
  c_cap_gen : Z }.
#[global] Instance eta_ceph_cap : Eta ceph_cap := fun c =>
  Cap (c_ptr c) (c_mds c) (c_cap_id c) (c_issued c) (c_implemented c) (c_mds_wanted c) (c_seq c) (c_issue_seq c) (c_mseq c) (c_cap_gen c).

(** [k_flushing] is the session whose list s_cap_snaps_flushing has it. *)
Record ceph_cap_snap := CapSnap {
  k_id : nat;
  k_flushing : option Z;
  k_follows : Z;
  k_flush_tid : Z;
  k_issued : Z;
  k_dirty : Z;
  k_context : snapc;
  k_mode : Z;
  k_uid : Z;
  k_gid : Z;
  k_xattr_blob : option (list Z);
  k_xattr_version : Z;
  k_size : Z;
  k_mtime : timespec;
  k_atime : timespec;
  k_ctime : timespec;
  k_time_warp_seq : Z;
  k_writing : bool;
  k_dirty_pages : Z }.
#[global] Instance eta_ceph_cap_snap : Eta ceph_cap_snap := fun k =>
  CapSnap (k_id k) (k_flushing k) (k_follows k) (k_flush_tid k) (k_issued k) (k_dirty k) (k_context k) (k_mode k) (k_uid k) (k_gid k)
    (k_xattr_blob k) (k_xattr_version k) (k_size k) (k_mtime k) (k_atime k) (k_ctime k) (k_time_warp_seq k) (k_writing k) (k_dirty_pages k).

Section Inode.
Context `{CapXattrs}.

(** struct ceph_inode_info and the inode in it.  [ci_flushing_item] is the session
    whose list s_cap_flushing links the inode. *)
Record ceph_inode_info := InodeInfo {
  ci_snap : Z;
  ci_time_warp_seq : Z;
  ci_flags : Z;
  ci_release_count : Z;
  ci_layout : ceph_file_layout;
  ci_xattrs : xattrs;
  ci_caps : tree ceph_cap;
  ci_auth_cap : option Z;
  ci_dirty_caps : Z;
  ci_flushing_caps : Z;
  ci_flushing_item : option Z;
  ci_cap_flush_seq : Z;
  ci_cap_flush_last_tid : Z;
  ci_cap_flush_tid : list Z;
  ci_hold_caps_min : Z;
  ci_hold_caps_max : Z;
  ci_cap_snaps : list ceph_cap_snap;
  ci_head_snapc : option snapc;
  ci_snap_caps : Z;
  ci_nr_by_mode : list Z;
  ci_truncate_seq : Z;
  ci_truncate_size : Z;
  ci_truncate_pending : Z;
  ci_max_size : Z;
  ci_reported_size : Z;
  ci_wanted_max_size : Z;
  ci_requested_max_size : Z;
  ci_pin_ref : Z;
  ci_rd_ref : Z;
  ci_rdcache_ref : Z;
  ci_wr_ref : Z;
  ci_wb_ref : Z;
  ci_wrbuffer_ref : Z;
  ci_wrbuffer_ref_head : Z;
  ci_shared_gen : Z;
  ci_rdcache_gen : Z;
  ci_rdcache_revoking : Z;
  ci_snap_realm_counter : Z;
  vi_count : Z;
  vi_size : Z;
  vi_blocks : Z;
  vi_mtime : timespec;
  vi_atime : timespec;
  vi_ctime : timespec;
  vi_uid : Z;
  vi_gid : Z;
  vi_mode : Z;
  vi_nlink : Z;
  vi_nrpages : Z;
  vi_mapped : bool }.
#[global] Instance eta_ceph_inode_info : Eta ceph_inode_info := fun c =>
  InodeInfo (ci_snap c) (ci_time_warp_seq c) (ci_flags c) (ci_release_count c) (ci_layout c) (ci_xattrs c) (ci_caps c) (ci_auth_cap c)
    (ci_dirty_caps c) (ci_flushing_caps c) (ci_flushing_item c) (ci_cap_flush_seq c) (ci_cap_flush_last_tid c) (ci_cap_flush_tid c)
    (ci_hold_caps_min c) (ci_hold_caps_max c) (ci_cap_snaps c) (ci_head_snapc c) (ci_snap_caps c) (ci_nr_by_mode c)
    (ci_truncate_seq c) (ci_truncate_size c) (ci_truncate_pending c) (ci_max_size c) (ci_reported_size c) (ci_wanted_max_size c)
    (ci_requested_max_size c) (ci_pin_ref c) (ci_rd_ref c) (ci_rdcache_ref c) (ci_wr_ref c) (ci_wb_ref c) (ci_wrbuffer_ref c)
    (ci_wrbuffer_ref_head c) (ci_shared_gen c) (ci_rdcache_gen c) (ci_rdcache_revoking c) (ci_snap_realm_counter c) (vi_count c)
    (vi_size c) (vi_blocks c) (vi_mtime c) (vi_atime c) (vi_ctime c) (vi_uid c) (vi_gid c) (vi_mode c) (vi_nlink c) (vi_nrpages c)
    (vi_mapped c).

(** One struct ceph_mds_cap_item: ino, cap_id, migrate_seq, seq *)
Definition cap_item : Type := Z * Z * Z * Z.

(** struct ceph_mds_session, the fields about caps.  An entry of s_caps is the
    address of a cap and its cap->ci. *)
Record ceph_mds_session := MdsSession {
  s_state : Z;
  s_seq : Z;
  s_cap_gen : Z;
  s_cap_ttl : Z;
  s_caps : list (nat * option Z);
  s_nr_caps : Z;
  s_trim_caps : Z;
  s_num_cap_releases : Z;
  s_cap_reconnect : bool;
  s_cap_iterator : option nat;
  s_cap_releases : list (list cap_item);
  s_cap_releases_done : list (list cap_item);
  s_cap_flushing : list Z;
  s_cap_snaps_flushing : list (Z * nat) }.
#[global] Instance eta_ceph_mds_session : Eta ceph_mds_session := fun s =>
  MdsSession (s_state s) (s_seq s) (s_cap_gen s) (s_cap_ttl s) (s_caps s) (s_nr_caps s) (s_trim_caps s) (s_num_cap_releases s) (s_cap_reconnect s)
    (s_cap_iterator s) (s_cap_releases s) (s_cap_releases_done s) (s_cap_flushing s) (s_cap_snaps_flushing s).

(** The message of send_cap_msg: struct ceph_mds_caps, the tid of the header and
    the middle *)
Record cap_msg := CapMsg {
  m_ino : Z;
  m_cap_id : Z;
  m_op : Z;
  m_caps : Z;
  m_wanted : Z;
  m_dirty : Z;
  m_seq : Z;
  m_tid : Z;
  m_issue_seq : Z;
  m_mseq : Z;
  m_size : Z;
  m_max_size : Z;
  m_mtime : timespec;
  m_atime : timespec;
  m_time_warp_seq : Z;
  m_uid : Z;
  m_gid : Z;
  m_mode : Z;
  m_xattr_version : Z;
  m_xattrs : option (list Z);
  m_follows : Z }.

Inductive sent :=
  | SentCaps (mds : Z) (m : cap_msg)
  | SentReleases (mds : Z) (items : list cap_item).

(** Work queued for an inode *)
Inductive cap_work := QueueInvalidate (ino : Z) | QueueWriteback (ino : Z) | QueueVmtruncate (ino : Z) | InvalidateAliases (ino : Z) | WakeUp (ino : Z).
End Inode.
Arguments ceph_inode_info {_}.
Arguments InodeInfo {_}.

Section Caps.
Context `{RbOps} `{CapXattrs} `{Realms}.

(** The MDS client: inodes and sessions, the realms, the pool of cap structures,
    the lists of the client, and what was sent and queued.  The counters number the
    allocations, the attempts to take a lock, and the times the lock of an inode was
    released. *)
Record caps_state := CapsState {
  cs_inodes : gmap Z ceph_inode_info;
  cs_sessions : gmap Z ceph_mds_session;
  cs_realms : realms;
  cs_pool : cap_pool;
  cs_delay : list Z;
  cs_dirty : list Z;
  cs_flush_seq : Z;
  cs_num_flushing : Z;
  cs_snap_flush : list Z;
  cs_stopping : bool;
  cs_jiffies : Z;
  cs_sent : list sent;
  cs_work : list cap_work;
  cs_next_snap : nat;
  cs_allocs : nat;
  cs_trylocks : nat;
  cs_unlocks : nat }.
#[global] Instance eta_caps_state : Eta caps_state := fun s =>
  CapsState (cs_inodes s) (cs_sessions s) (cs_realms s) (cs_pool s) (cs_delay s) (cs_dirty s) (cs_flush_seq s) (cs_num_flushing s)
    (cs_snap_flush s) (cs_stopping s) (cs_jiffies s) (cs_sent s) (cs_work s) (cs_next_snap s) (cs_allocs s) (cs_trylocks s) (cs_unlocks s).

(** What is not in this code: allocations, locks, other threads while the lock of
    an inode is free, page invalidation (the pages that are left), the rounding of
    timers, mount options, and the sessions of export targets.  [retries] is how
    often a loop that waits for other threads may start again, beyond the rounds it
    needs when they leave it alone. *)
Class CapsEnv := {
  msg_ok : nat -> bool;
  cap_ok : nat -> bool;
  trylock : nat -> bool;
  others : nat -> caps_state -> caps_state;
  pages_left : nat -> Z -> Z;
  round_jiffies : Z -> Z;
  HZ : Z;
  caps_wanted_delay_min : Z;
  caps_wanted_delay_max : Z;
  cap_release_safety : Z;
  open_target : Z -> option ceph_mds_session;
  retries : nat }.
Context `{CapsEnv}.

Definition M (A : Type) : Type := ST caps_state A.

Definition get_ci (ino : Z) : M ceph_inode_info :=
  s ↢ sget; match cs_inodes s !! ino with Some ci => sret ci | None => sfault NullPointer end.
Definition set_ci (ino : Z) (ci : ceph_inode_info) : M unit := smod (fun s => s <| cs_inodes ::= insert ino ci |>).
Definition mod_ci (ino : Z) (f : ceph_inode_info -> ceph_inode_info) : M unit := ci ↢ get_ci ino; set_ci ino (f ci).
Definition get_session (mds : Z) : M ceph_mds_session :=
  s ↢ sget; match cs_sessions s !! mds with Some x => sret x | None => sfault NullPointer end.
Definition mod_session (mds : Z) (f : ceph_mds_session -> ceph_mds_session) : M unit :=
  x ↢ get_session mds; smod (fun s => s <| cs_sessions ::= insert mds (f x) |>).
Definition in_pool {A} (m : ST cap_pool A) : M A := fun s => '(a, p) ← m (cs_pool s); Ret (a, s <| cs_pool := p |>).
Definition in_realms (f : realms -> outcome realms) : M unit := fun s => r ← f (cs_realms s); Ret (tt, s <| cs_realms := r |>).
Definition queue_work (w : cap_work) : M unit := smod (fun s => s <| cs_work ::= fun l => l ++ [w] |>).
(** spin_unlock of i_ceph_lock, before it is taken again *)
Definition unlocked : M unit := smod (fun s => others (cs_unlocks s) (s <| cs_unlocks ::= S |>)).
Definition try_lock : M bool := fun s => Ret (trylock (cs_trylocks s), s <| cs_trylocks ::= S |>).
Definition ihold (ino : Z) : M unit := mod_ci ino (fun ci => ci <| vi_count ::= fun n => s32 (n + 1) |>).
Definition iput (ino : Z) : M unit := mod_ci ino (fun ci => ci <| vi_count ::= fun n => s32 (n - 1) |>).

Definition list_unlink (ino : Z) : list Z -> list Z := List.filter (fun i => negb (i =? ino)).
Definition linked (ino : Z) (l : list Z) : bool := existsb (Z.eqb ino) l.

(** ** Caps of an inode *)
Definition cap_cmp (mds : Z) (c : ceph_cap) : Z := mds - c_mds c.

Definition __get_cap_for_mds (ci : ceph_inode_info) (mds : Z) : option ceph_cap := snd <$> tree_lookup cap_cmp (ci_caps ci) mds.

(** A store to a cap of the inode *)
Definition put_cap (c : ceph_cap) (ci : ceph_inode_info) : ceph_inode_info :=
  match tree_lookup cap_cmp (ci_caps ci) (c_mds c) with
  | Some (p, _) => ci <| ci_caps ::= update_path p c |>
  | None => ci
  end.
Definition mod_cap (ino mds : Z) (f : ceph_cap -> ceph_cap) : M unit :=
  ci ↢ get_ci ino;
  match __get_cap_for_mds ci mds with
  | Some c => set_ci ino (put_cap (f c) ci)
  | None => sfault NullPointer
  end.
Definition auth_cap (ci : ceph_inode_info) : option ceph_cap :=
  match ci_auth_cap ci with Some mds => __get_cap_for_mds ci mds | None => None end.
Definition is_auth (ci : ceph_inode_info) (c : ceph_cap) : bool :=
  match ci_auth_cap ci with Some mds => mds =? c_mds c | None => false end.

Fixpoint get_cap_mds (l : list ceph_cap) (mds : Z) : Z :=
  match l with
  | [] => mds
  | c :: l => if any (c_issued c) (or_all [CEPH_CAP_FILE_WR; CEPH_CAP_FILE_BUFFER; CEPH_CAP_FILE_EXCL]) then c_mds c else get_cap_mds l (c_mds c)
  end.
Definition __ceph_get_cap_mds (ci : ceph_inode_info) : Z := get_cap_mds (inorder (ci_caps ci)) (-1).

Definition __insert_cap_node (ci : ceph_inode_info) (c : ceph_cap) : outcome ceph_inode_info :=
  match tree_insert cap_cmp (ci_caps ci) (c_mds c) c with
  | Ret t => Ret (ci <| ci_caps := t |>)
  | _ => Fault BugOn
  end.

(** ** Validity, and the bits that are issued *)
Definition __cap_is_valid (s : caps_state) (c : ceph_cap) : bool :=
  match cs_sessions s !! c_mds c with
  | Some x => negb ((c_cap_gen c <? s_cap_gen x) || negb (time_lt (cs_jiffies s) (s_cap_ttl x)))
  | None => false
  end.

Definition valid_caps (s : caps_state) (ci : ceph_inode_info) : list ceph_cap := List.filter (__cap_is_valid s) (inorder (ci_caps ci)).

(** The bits issued and the bits implemented *)
Definition __ceph_caps_issued (s : caps_state) (ci : ceph_inode_info) : Z * Z :=
  let have := fold_left (fun have c => Z.lor have (c_issued c)) (valid_caps s ci) (ci_snap_caps ci) in
  let implemented := fold_left (fun impl c => Z.lor impl (c_implemented c)) (valid_caps s ci) 0 in
  (match auth_cap ci with
   | Some c => Z.land have (Z.lor (Z.lnot (c_implemented c)) (c_issued c))
   | None => have
   end, implemented).

Definition __ceph_caps_issued_other (s : caps_state) (ci : ceph_inode_info) (ocap : ceph_cap) : Z :=
  fold_left (fun have c => if c_mds c =? c_mds ocap then have else Z.lor have (c_issued c)) (valid_caps s ci) (ci_snap_caps ci).

(** [ocap]: the rank of the cap to leave out *)
Definition __ceph_caps_revoking_other (ci : ceph_inode_info) (ocap : option Z) (mask : Z) : bool :=
  existsb (fun c => negb (bool_decide (ocap = Some (c_mds c))) && any (without (c_implemented c) (c_issued c)) mask) (inorder (ci_caps ci)).
Definition ceph_caps_revoking (ci : ceph_inode_info) (mask : Z) : bool := __ceph_caps_revoking_other ci None mask.

Definition __ceph_caps_used (ci : ceph_inode_info) : Z :=
  or_all [if ci_pin_ref ci =? 0 then 0 else CEPH_CAP_PIN;
          if ci_rd_ref ci =? 0 then 0 else CEPH_CAP_FILE_RD;
          if (ci_rdcache_ref ci =? 0) && (vi_nrpages ci =? 0) then 0 else CEPH_CAP_FILE_CACHE;
          if ci_wr_ref ci =? 0 then 0 else CEPH_CAP_FILE_WR;
          if (ci_wb_ref ci =? 0) && (ci_wrbuffer_ref ci =? 0) then 0 else CEPH_CAP_FILE_BUFFER].

Definition __ceph_caps_file_wanted (ci : ceph_inode_info) : Z :=
  or_all (imap (fun mode n => if n =? 0 then 0 else ceph_caps_for_mode (Z.of_nat mode)) (ci_nr_by_mode ci)).

Definition __ceph_caps_wanted (ci : ceph_inode_info) : Z :=
  let w := Z.lor (__ceph_caps_file_wanted ci) (__ceph_caps_used ci) in
  if any w CEPH_CAP_FILE_BUFFER then Z.lor w CEPH_CAP_FILE_EXCL else w.

Definition __ceph_caps_mds_wanted (s : caps_state) (ci : ceph_inode_info) : Z :=
  fold_left (fun w c => Z.lor w (if is_auth ci c then c_mds_wanted c else without (c_mds_wanted c) CEPH_CAP_ANY_FILE_WR)) (valid_caps s ci) 0.

Definition __ceph_caps_dirty (ci : ceph_inode_info) : Z := Z.lor (ci_dirty_caps ci) (ci_flushing_caps ci).
Definition __ceph_is_any_caps (ci : ceph_inode_info) : bool := match ci_caps ci with Nil => false | _ => true end.
Definition __ceph_is_any_real_caps (ci : ceph_inode_info) : bool := __ceph_is_any_caps ci.
Definition __ceph_have_pending_cap_snap (ci : ceph_inode_info) : bool :=
  match last (ci_cap_snaps ci) with Some k => k_writing k | None => false end.

(** ** The LRU lists of the sessions *)
Definition __touch_cap (c : ceph_cap) : M unit :=
  x ↢ get_session (c_mds c);
  match s_cap_iterator x with
  | Some _ => sret tt
  | None => mod_session (c_mds c) (fun x => x <| s_caps ::= fun l =>
              List.filter (fun e => negb (fst e =? c_ptr c)%nat) l ++ List.filter (fun e => (fst e =? c_ptr c)%nat) l |>)
  end.

(** The scan of __ceph_caps_issued_mask: the caps to touch, this one first and then
    those before it, or None *)
Fixpoint scan_mask (s : caps_state) (mask have : Z) (before l : list ceph_cap) : option (list ceph_cap) :=
  match l with
  | [] => None
  | c :: l =>
      if negb (__cap_is_valid s c) then scan_mask s mask have before l
      else if Z.land (c_issued c) mask =? mask then Some [c]
      else if Z.land (Z.lor have (c_issued c)) mask =? mask then Some (c :: before)
      else scan_mask s mask (Z.lor have (c_issued c)) (before ++ [c]) l
  end.

Definition __ceph_caps_issued_mask (ino mask : Z) (touch : bool) : M bool :=
  ci ↢ get_ci ino;
  if Z.land (ci_snap_caps ci) mask =? mask then sret true
  else
    s ↢ sget;
    match scan_mask s mask (ci_snap_caps ci) [] (inorder (ci_caps ci)) with
    | None => sret false
    | Some l => _ ↢ (if touch then sfor l __touch_cap else sret tt); sret true
    end.

(** ** Delayed work *)
Definition __cap_set_timeouts (ino : Z) : M unit :=
  s ↢ sget;
  mod_ci ino (fun ci => ci <| ci_hold_caps_min := u64 (round_jiffies (u64 (cs_jiffies s + caps_wanted_delay_min * HZ))) |>
                           <| ci_hold_caps_max := u64 (round_jiffies (u64 (cs_jiffies s + caps_wanted_delay_max * HZ))) |>).

Definition __cap_delay_requeue (ino : Z) : M unit :=
  _ ↢ __cap_set_timeouts ino;
  s ↢ sget;
  ci ↢ get_ci ino;
  if cs_stopping s then sret tt
  else if linked ino (cs_delay s) && any (ci_flags ci) CEPH_I_FLUSH then sret tt
  else smod (fun s => s <| cs_delay ::= fun l => list_unlink ino l ++ [ino] |>).

Definition __cap_delay_requeue_front (ino : Z) : M unit :=
  _ ↢ mod_ci ino (fun ci => ci <| ci_flags ::= Z.lor CEPH_I_FLUSH |>);
  smod (fun s => s <| cs_delay ::= fun l => ino :: list_unlink ino l |>).

Definition __cap_delay_cancel (ino : Z) : M unit := smod (fun s => s <| cs_delay ::= list_unlink ino |>).

Definition S_ISDIR (mode : Z) : bool := Z.land mode 61440 =? 16384.

Definition __check_cap_issue (ino issued : Z) : M unit :=
  s ↢ sget;
  ci ↢ get_ci ino;
  let had := fst (__ceph_caps_issued s ci) in
  let cache := Z.lor CEPH_CAP_FILE_CACHE CEPH_CAP_FILE_LAZYIO in
  _ ↢ (if any issued cache && negb (any had cache) then mod_ci ino (fun ci => ci <| ci_rdcache_gen ::= fun g => u32 (g + 1) |>) else sret tt);
  if any issued CEPH_CAP_FILE_SHARED && negb (any had CEPH_CAP_FILE_SHARED) then
    _ ↢ mod_ci ino (fun ci => ci <| ci_shared_gen ::= fun g => u32 (g + 1) |>);
    if S_ISDIR (vi_mode ci) then mod_ci ino (fun ci => ci <| ci_release_count ::= fun n => s32 (n + 1) |>) else sret tt
  else sret tt.

(** ** Adding and removing caps *)

(** The cap from this MDS, new or not: its address is taken from [new_cap].  The
    fields of a new structure that are not set here are set below, and read before
    that only with no bit issued. *)
Definition find_or_insert_cap (ino mds seq mseq issued flags : Z) (new_cap : option nat) : M (Z * Z * Z * Z * option nat) :=
  ci ↢ get_ci ino;
  match __get_cap_for_mds ci mds with
  | None =>
      match new_cap with
      | None => sfault NullPointer
      | Some p =>
          ci ↢ slift (__insert_cap_node ci (Cap p mds 0 0 0 0 0 0 0 0));
          _ ↢ set_ci ino ci;
          _ ↢ mod_session mds (fun x => x <| s_caps ::= fun l => l ++ [(p, Some ino)] |> <| s_nr_caps ::= fun n => s32 (n + 1) |>);
          sret (seq, mseq, issued, flags, None)
      end
  | Some c =>
      if ceph_seq_cmp seq (c_seq c) <=? 0
      then sret (c_seq c, c_mseq c, Z.lor issued (c_issued c), Z.lor flags CEPH_CAP_FLAG_AUTH, new_cap)
      else sret (seq, mseq, issued, flags, new_cap)
  end.

(** The auth cap is replaced by one of a later migration. *)
Definition set_auth_cap (ino mds wanted mseq flags : Z) : M unit :=
  ci ↢ get_ci ino;
  if any flags CEPH_CAP_FLAG_AUTH then
    let change := match auth_cap ci with None => true | Some a => ceph_seq_cmp (c_mseq a) mseq <? 0 end in
    if (change : bool) then
      _ ↢ mod_ci ino (fun ci => ci <| ci_auth_cap := Some mds |>);
      mod_cap ino mds (fun c => c <| c_mds_wanted := s32 wanted |>)
    else sret tt
  else sret tt.

(** The result is *new_cap. *)
Definition ceph_add_cap (ino mds cap_id fmode issued wanted seq mseq realmino flags : Z) (new_cap : option nat) : M (option nat) :=
  let wanted := if fmode <? 0 then wanted else Z.lor wanted (ceph_caps_for_mode fmode) in
  '(seq, mseq, issued, flags, new_cap) ↢ find_or_insert_cap ino mds seq mseq issued flags new_cap;
  s ↢ sget;
  _ ↢ match realm_of ino (cs_realms s) with
      | None => in_realms (join_realm ino realmino)
      | Some _ => sret tt
      end;
  _ ↢ __check_cap_issue ino issued;
  ci ↢ get_ci ino;
  let actual_wanted := __ceph_caps_wanted ci in
  _ ↢ (if negb (without wanted actual_wanted =? 0) || any (without issued actual_wanted) CEPH_CAP_ANY_WR
       then __cap_delay_requeue ino else sret tt);
  _ ↢ set_auth_cap ino mds wanted mseq flags;
  x ↢ get_session mds;
  _ ↢ mod_cap ino mds (fun c =>
        c <| c_cap_id := cap_id |> <| c_issued := s32 issued |> <| c_implemented := s32 (Z.lor (c_implemented c) issued) |>
          <| c_mds_wanted := s32 (if 0 <? ceph_seq_cmp mseq (c_mseq c) then wanted else Z.lor (c_mds_wanted c) wanted) |>
          <| c_seq := seq |> <| c_issue_seq := seq |> <| c_mseq := mseq |> <| c_cap_gen := s_cap_gen x |>);
  _ ↢ (if fmode <? 0 then sret tt
       else ci ↢ get_ci ino;
            n ↢ slift (rd (ci_nr_by_mode ci) fmode);
            l ↢ slift (wr (ci_nr_by_mode ci) fmode (s32 (n + 1)));
            mod_ci ino (fun ci => ci <| ci_nr_by_mode := l |>));
  sret new_cap.

Definition __queue_cap_release (mds ino cap_id migrate_seq issue_seq : Z) : M unit :=
  x ↢ get_session mds;
  _ ↢ slift (bug_on (s_num_cap_releases x =? 0));
  match s_cap_releases x with
  | [] => sfault OutOfBounds
  | msg :: l =>
      _ ↢ slift (bug_on (4096 <? 4 + 24 * Z.of_nat (length msg) + 24));
      let msg := msg ++ [(ino, cap_id, migrate_seq, issue_seq)] in
      let full := Z.of_nat (length msg) =? CEPH_CAPS_PER_RELEASE in
      mod_session mds (fun x => x <| s_num_cap_releases ::= fun n => s32 (n - 1) |>
                                  <| s_cap_releases := if full then l else msg :: l |>
                                  <| s_cap_releases_done ::= fun d => if full then d ++ [msg] else d |>)
  end.

(** rb_erase of a cap of the inode *)
Definition erase_cap (mds : Z) (ci : ceph_inode_info) : ceph_inode_info :=
  match tree_lookup cap_cmp (ci_caps ci) mds with
  | Some (p, _) => ci <| ci_caps ::= rb_erase p |>
  | None => ci
  end.

Definition drop_entry (p : nat) : list (nat * option Z) -> list (nat * option Z) := List.filter (fun e => negb (fst e =? p)%nat).
(** cap->ci = NULL *)
Definition orphan (p : nat) : list (nat * option Z) -> list (nat * option Z) := map (fun e => if (fst e =? p)%nat then (fst e, None) else e).

Definition __ceph_remove_cap (ino mds : Z) (queue_release : bool) : M unit :=
  ci ↢ get_ci ino;
  match __get_cap_for_mds ci mds with
  | None => sfault NullPointer
  | Some c =>
      x ↢ get_session mds;
      _ ↢ (if queue_release && (negb (s_cap_reconnect x) || (c_cap_gen c =? s_cap_gen x))
           then __queue_cap_release mds ino (c_cap_id c) (c_mseq c) (c_issue_seq c) else sret tt);
      let removed := negb (bool_decide (s_cap_iterator x = Some (c_ptr c))) in
      _ ↢ (if removed then mod_session mds (fun x => x <| s_caps ::= drop_entry (c_ptr c) |> <| s_nr_caps ::= fun n => s32 (n - 1) |>)
           else mod_session mds (fun x => x <| s_caps ::= orphan (c_ptr c) |>));
      _ ↢ mod_ci ino (fun ci => (erase_cap mds ci) <| ci_auth_cap := if is_auth ci c then None else ci_auth_cap ci |>);
      _ ↢ (if removed then in_pool (ceph_put_cap (c_ptr c)) else sret tt);
      ci ↢ get_ci ino;
      s ↢ sget;
      _ ↢ match realm_of ino (cs_realms s) with
          | Some _ =>
              if __ceph_is_any_caps ci then sret tt
              else _ ↢ mod_ci ino (fun ci => ci <| ci_snap_realm_counter ::= fun n => s32 (n + 1) |>);
                   in_realms (leave_realm ino)
          | None => sret tt
          end;
      if __ceph_is_any_real_caps ci then sret tt else __cap_delay_cancel ino
  end.

Definition ceph_queue_caps_release (ino : Z) : M unit :=
  ci ↢ get_ci ino;
  sfor (inorder (ci_caps ci)) (fun c => __ceph_remove_cap ino (c_mds c) true).

(** ** Release messages (mds_client.c) *)

(** while (session->s_num_cap_releases < session->s_nr_caps + extra) *)
Fixpoint add_release_msgs (fuel : nat) (mds extra : Z) : M bool :=
  x ↢ get_session mds;
  if s_num_cap_releases x <? s32 (s_nr_caps x + extra) then
    match fuel with
    | O => sfault OutOfFuel
    | S fuel =>
        s ↢ sget;
        _ ↢ smod (fun s => s <| cs_allocs ::= S |>);
        if msg_ok (cs_allocs s) then
          _ ↢ mod_session mds (fun x => x <| s_cap_releases ::= cons [] |> <| s_num_cap_releases ::= fun n => s32 (n + CEPH_CAPS_PER_RELEASE) |>);
          add_release_msgs fuel mds extra
        else sret false
    end
  else sret true.

Definition release_fuel (x : ceph_mds_session) (extra : Z) : nat := Z.to_nat (s_nr_caps x + extra - s_num_cap_releases x).

(** A partial message was at the head of the list, and is still behind the
    [added] new ones. *)
Definition move_partial (added : nat) (x : ceph_mds_session) : ceph_mds_session :=
  match s_cap_releases x !! added with
  | None => x
  | Some m => x <| s_cap_releases ::= delete added |> <| s_cap_releases_done ::= fun d => d ++ [m] |>
                <| s_num_cap_releases ::= fun n => s32 (n - (CEPH_CAPS_PER_RELEASE - Z.of_nat (length m))) |>
  end.

Definition ceph_add_cap_releases (mds : Z) : M Z :=
  x ↢ get_session mds;
  let num := match s_cap_releases x with m :: _ => Z.of_nat (length m) | [] => 0 end in
  let extra := if num =? 0 then cap_release_safety else cap_release_safety + CEPH_CAPS_PER_RELEASE - num in
  ok ↢ add_release_msgs (release_fuel x extra) mds extra;
  if negb ok then sret (- ENOMEM)
  else
    x' ↢ get_session mds;
    _ ↢ (if num =? 0 then sret tt else mod_session mds (move_partial (length (s_cap_releases x') - length (s_cap_releases x))));
    sret 0.

Definition ceph_send_cap_releases (mds : Z) : M unit :=
  x ↢ get_session mds;
  _ ↢ mod_session mds (fun x => x <| s_cap_releases_done := [] |>);
  smod (fun s => s <| cs_sent ::= fun l => l ++ map (SentReleases mds) (s_cap_releases_done x) |>).
End Caps.
Arguments caps_state {_ _}.
Arguments CapsState {_ _}.
Arguments CapsEnv {_ _}.
Arguments M {_ _}.
