(* ===== verification/CapsFlush.v ===== *)
(** * Sending caps

    src/fs/ceph/caps.c, second part: the messages to the MDS, dirty and flushing
    metadata, and the function that compares what is used and wanted with what is
    held ([ceph_check_caps]). *)
From S2P Require Import Prelude.
From S2P Require Import RbTree.
From S2P Require Import StateM.
From S2P Require Import FileLayout.
From S2P Require Import CapPool.
From S2P Require Import Caps.
From stdpp Require Import gmap.
#[local] Open Scope Z_scope.
#[local] Open Scope ceph_scope.
#[local] Open Scope st_scope.

Section CapsFlush.
Context `{RbOps} `{CapXattrs} `{Realms} `{!CapsEnv}.

(** ** Messages *)

(** ceph_msg_new, the fields of the message (cpu_to_le), ceph_con_send *)
Definition send_cap_msg (mds : Z) (m : cap_msg) : M Z :=
  s ↢ sget;
  _ ↢ smod (fun s => s <| cs_allocs ::= S |>);
  if negb (msg_ok (cs_allocs s)) then sret (- ENOMEM)
  else
    _ ↢ smod (fun s => s <| cs_sent ::= fun l => l ++ [SentCaps mds (CapMsg
           (u64 (m_ino m)) (u64 (m_cap_id m)) (u32 (m_op m)) (u32 (m_caps m)) (u32 (m_wanted m)) (u32 (m_dirty m)) (u32 (m_seq m))
           (u64 (m_tid m)) (u32 (m_issue_seq m)) (u32 (m_mseq m)) (u64 (m_size m)) (u64 (m_max_size m))
           (u32 (fst (m_mtime m)), u32 (snd (m_mtime m))) (u32 (fst (m_atime m)), u32 (snd (m_atime m))) (u32 (m_time_warp_seq m))
           (u32 (m_uid m)) (u32 (m_gid m)) (u32 (m_mode m)) (u64 (m_xattr_version m)) (m_xattrs m) (u64 (m_follows m)))] |>);
    sret 0.

(** for (i = 0; i < CEPH_CAP_BITS; i++) if (flushing & (1 << i)) ... *)
Definition stamp_tids (flushing tid : Z) (tids : list Z) : list Z := imap (fun i t => if Z.testbit flushing (Z.of_nat i) then tid else t) tids.

(** The result is whether the release was delayed, and the tid of the flush. *)
Definition __send_cap (ino mds op used want retain flushing : Z) : M (bool * option Z) :=
  ci ↢ get_ci ino;
  match __get_cap_for_mds ci mds with
  | None => sfault NullPointer
  | Some cap =>
      s ↢ sget;
      let revoking := without (c_implemented cap) (c_issued cap) in
      let retain := without retain revoking in
      _ ↢ slift (bug_on (Z.land retain CEPH_CAP_PIN =? 0));
      let delayed := negb (any (ci_flags ci) CEPH_I_NODELAY) && time_lt (cs_jiffies s) (ci_hold_caps_min ci) in
      let want := if delayed then Z.lor want (c_mds_wanted cap) else want in
      let retain := if delayed then Z.lor retain (c_issued cap) else retain in
      let issued := Z.land (c_issued cap) retain in
      let wake := negb (without (c_implemented cap) issued =? 0) in
      let implemented := Z.land (c_implemented cap) (Z.lor issued used) in
      let cap' := cap <| c_issued := issued |> <| c_implemented := implemented |> <| c_mds_wanted := want |> in
      let ci := (put_cap cap' ci) <| ci_flags ::= fun f => without f (Z.lor CEPH_I_NODELAY CEPH_I_FLUSH) |> in
      let flush := negb (flushing =? 0) in
      let flush_tid := u16 (ci_cap_flush_last_tid ci + 1) in
      let ci := if flush then ci <| ci_cap_flush_last_tid := flush_tid |> <| ci_cap_flush_tid ::= stamp_tids flushing flush_tid |> else ci in
      follows ↢ (if flush then match ci_head_snapc ci with Some sc => sret (snd sc) | None => sfault NullPointer end else sret 0);
      let ci := ci <| ci_reported_size := vi_size ci |> <| ci_requested_max_size := ci_wanted_max_size ci |> in
      let xattr := any flushing CEPH_CAP_XATTR_EXCL in
      let ci := if xattr then ci <| ci_xattrs ::= build_blob |> else ci in
      _ ↢ set_ci ino ci;
      _ ↢ unlocked;
      ret ↢ send_cap_msg mds (CapMsg ino (c_cap_id cap) op implemented want flushing (c_seq cap) (if flush then flush_tid else 0)
              (c_issue_seq cap) (c_mseq cap) (vi_size ci) (ci_wanted_max_size ci) (vi_mtime ci) (vi_atime ci) (ci_time_warp_seq ci)
              (vi_uid ci) (vi_gid ci) (vi_mode ci) (if xattr then version_of (ci_xattrs ci) else 0)
              (if xattr then blob_of (ci_xattrs ci) else None) follows);
      _ ↢ (if wake then queue_work (WakeUp ino) else sret tt);
      sret (delayed || (ret <? 0), if flush then Some flush_tid else None)
  end.

(** ** Cap snapshots *)
Definition snap_unlink (ino : Z) (id : nat) : list (Z * nat) -> list (Z * nat) := List.filter (fun e => negb ((fst e =? ino) && (snd e =? id)%nat)).
Definition mod_snap (ino : Z) (id : nat) (f : ceph_cap_snap -> ceph_cap_snap) : M unit :=
  mod_ci ino (fun ci => ci <| ci_cap_snaps ::= map (fun k => if (k_id k =? id)%nat then f k else k) |>).

(** list_del_init of flushing_item *)
Definition unlink_flushing_snap (ino : Z) (k : ceph_cap_snap) : M unit :=
  match k_flushing k with
  | Some mds => mod_session mds (fun x => x <| s_cap_snaps_flushing ::= snap_unlink ino (k_id k) |>)
  | None => sret tt
  end.

(** list_for_each_entry of __ceph_flush_snaps: the snapshot that is sent next
    ([SendSnap]), nothing, because the list ends or a snapshot must wait
    ([SnapsDone]), or nothing, because there is no auth cap ([NoAuth]). *)
Inductive next := SendSnap (k : ceph_cap_snap) | SnapsDone | NoAuth.

Fixpoint next_snap (l : list ceph_cap_snap) (auth again : bool) (next_follows : Z) : outcome next :=
  match l with
  | [] => Ret SnapsDone
  | k :: l =>
      if k_follows k <? next_follows then next_snap l auth again next_follows
      else if negb (k_dirty_pages k =? 0) || k_writing k then Ret SnapsDone
      else
        _ ← bug_on (k_dirty k =? 0);
        if negb auth then Ret NoAuth
        else if negb again && bool_decide (is_Some (k_flushing k)) then next_snap l auth again next_follows
        else Ret (SendSnap k)
  end.

Definition send_cap_snap (ino mds : Z) (mseq : Z) (k : ceph_cap_snap) : M unit :=
  ci ↢ get_ci ino;
  let tid := u16 (ci_cap_flush_last_tid ci + 1) in
  _ ↢ mod_ci ino (fun ci => ci <| ci_cap_flush_last_tid := tid |>);
  _ ↢ unlink_flushing_snap ino k;
  _ ↢ mod_session mds (fun x => x <| s_cap_snaps_flushing ::= fun l => l ++ [(ino, k_id k)] |>);
  _ ↢ mod_snap ino (k_id k) (fun k => k <| k_flush_tid := tid |> <| k_flushing := Some mds |>);
  _ ↢ unlocked;
  _ ↢ send_cap_msg mds (CapMsg ino 0 CEPH_CAP_OP_FLUSHSNAP (k_issued k) 0 (k_dirty k) 0 tid 0 mseq (k_size k) 0 (k_mtime k) (k_atime k)
        (k_time_warp_seq k) (k_uid k) (k_gid k) (k_mode k) (k_xattr_version k) (k_xattr_blob k) (k_follows k));
  sret tt.

(** [session] is the session whose mutex is held; the result is the new one.  When
    it is not the one of the auth cap, its mutex is released and the session is
    looked up with the lock free. *)
Fixpoint flush_snaps_loop (fuel : nat) (ino : Z) (again : bool) (session : option Z) (next_follows : Z) : M (option Z) :=
  ci ↢ get_ci ino;
  n ↢ slift (next_snap (ci_cap_snaps ci) (bool_decide (is_Some (auth_cap ci))) again next_follows);
  match n, auth_cap ci with
  | SendSnap k, Some cap =>
      match fuel with
      | O => sfault OutOfFuel
      | S fuel =>
          if bool_decide (session = Some (c_mds cap)) then
            _ ↢ send_cap_snap ino (c_mds cap) (c_mseq cap) k;
            flush_snaps_loop fuel ino again session (u64 (k_follows k + 1))
          else
            _ ↢ unlocked;
            s ↢ sget;
            flush_snaps_loop fuel ino again (match cs_sessions s !! c_mds cap with Some _ => Some (c_mds cap) | None => None end) next_follows
      end
  | NoAuth, _ => sret session
  | _, _ =>
      _ ↢ smod (fun s => s <| cs_snap_flush ::= list_unlink ino |>);
      sret session
  end.

(** At most a lookup of the session and then one message per snapshot. *)
Definition __ceph_flush_snaps (ino : Z) (session : option Z) (again : bool) : M (option Z) :=
  ci ↢ get_ci ino;
  flush_snaps_loop (2 + 2 * length (ci_cap_snaps ci) + retries) ino again session 0.

Definition ceph_flush_snaps (ino : Z) : M unit := _ ↢ __ceph_flush_snaps ino None false; sret tt.

(** ** Dirty and flushing metadata *)

(** The result is the flags for __mark_inode_dirty. *)
Definition __ceph_mark_dirty_caps (ino mask : Z) : M Z :=
  ci ↢ get_ci ino;
  let was := ci_dirty_caps ci in
  _ ↢ mod_ci ino (fun ci => ci <| ci_dirty_caps ::= fun d => u32 (Z.lor d mask) |>);
  s ↢ sget;
  dirty ↢ (if was =? 0 then
             _ ↢ match ci_head_snapc ci with
                 | Some _ => sret tt
                 | None =>
                     match realm_of ino (cs_realms s) with
                     | None => sfault NullPointer
                     | Some _ => mod_ci ino (fun ci => ci <| ci_head_snapc := realm_context ino (cs_realms s) |>)
                     end
                 end;
             _ ↢ slift (bug_on (linked ino (cs_dirty s)));
             _ ↢ smod (fun s => s <| cs_dirty ::= cons ino |>);
             if ci_flushing_caps ci =? 0 then _ ↢ ihold ino; sret I_DIRTY_SYNC else sret 0
           else sret 0);
  s ↢ sget;
  _ ↢ slift (bug_on (negb (linked ino (cs_dirty s))));
  let dirty := if any (Z.lor was (ci_flushing_caps ci)) CEPH_CAP_FILE_BUFFER && any mask CEPH_CAP_FILE_BUFFER
               then Z.lor dirty I_DIRTY_DATASYNC else dirty in
  _ ↢ __cap_delay_requeue ino;
  sret dirty.

(** list_move_tail of i_flushing_item to the list of a session *)
Definition move_flushing (ino mds : Z) : M unit :=
  ci ↢ get_ci ino;
  _ ↢ match ci_flushing_item ci with
      | Some old => mod_session old (fun x => x <| s_cap_flushing ::= list_unlink ino |>)
      | None => sret tt
      end;
  _ ↢ mod_session mds (fun x => x <| s_cap_flushing ::= fun l => l ++ [ino] |>);
  mod_ci ino (fun ci => ci <| ci_flushing_item := Some mds |>).

Definition __mark_caps_flushing (ino mds : Z) : M Z :=
  ci ↢ get_ci ino;
  s ↢ sget;
  _ ↢ slift (bug_on (ci_dirty_caps ci =? 0));
  _ ↢ slift (bug_on (negb (linked ino (cs_dirty s))));
  let flushing := ci_dirty_caps ci in
  let flush_seq := u64 (cs_flush_seq s + 1) in
  _ ↢ mod_ci ino (fun ci => ci <| ci_flushing_caps ::= fun f => Z.lor f flushing |> <| ci_dirty_caps := 0 |> <| ci_cap_flush_seq := flush_seq |>);
  _ ↢ smod (fun s => s <| cs_dirty ::= list_unlink ino |> <| cs_flush_seq := flush_seq |>);
  _ ↢ match ci_flushing_item ci with
      | None => smod (fun s => s <| cs_num_flushing ::= fun n => s32 (n + 1) |>)
      | Some _ => sret tt
      end;
  _ ↢ move_flushing ino mds;
  sret (s32 flushing).

(** ** Checking caps *)

(** 0: the pages are gone; -1 *)
Definition try_nonblocking_invalidate (ino : Z) : M Z :=
  ci ↢ get_ci ino;
  s ↢ sget;
  _ ↢ mod_ci ino (fun ci => ci <| vi_nrpages ::= pages_left (cs_unlocks s) |>);
  _ ↢ unlocked;
  ci' ↢ get_ci ino;
  if (vi_nrpages ci' =? 0) && (ci_rdcache_gen ci =? ci_rdcache_gen ci') then
    _ ↢ mod_ci ino (fun ci => ci <| ci_rdcache_revoking := u32 (ci_rdcache_gen ci' - 1) |>);
    sret 0
  else sret (-1).

(** The local variables of ceph_check_caps that survive a retry.  [k_session] is
    the session whose mutex is held. *)
Record check := Check {
  k_session : option Z;
  k_snap_rwsem : bool;
  k_mds : Z;
  k_tried_invalidate : bool;
  k_delayed : Z;
  k_force_requeue : bool;
  k_queue_invalidate : bool }.
#[global] Instance eta_check : Eta check := fun k =>
  Check (k_session k) (k_snap_rwsem k) (k_mds k) (k_tried_invalidate k) (k_delayed k) (k_force_requeue k) (k_queue_invalidate k).

(** The caps to keep *)
Definition caps_to_retain (stopping : bool) (ci : ceph_inode_info) (want : Z) : Z :=
  let retain := Z.lor want CEPH_CAP_PIN in
  if negb stopping && (0 <? vi_nlink ci) then
    if negb (want =? 0) then Z.lor retain CEPH_CAP_ANY
    else
      let retain := Z.lor retain CEPH_CAP_ANY_SHARED in
      if ci_max_size ci =? 0 then Z.lor retain CEPH_CAP_ANY_RD else retain
  else retain.

(** What the scan of the caps does with one of them: nothing, put it off, or ack *)
Inductive verdict := Good | Delay | Ack.

Definition check_cap (now flags : Z) (is_delayed : bool) (ci : ceph_inode_info) (used want retain : Z) (cap : ceph_cap) : verdict :=
  let auth := is_auth ci cap in
  let cap_used := match auth_cap ci with Some a => if auth then used else without used (c_issued a) | None => used end in
  let revoking := without (c_implemented cap) (c_issued cap) in
  if auth && any (c_issued cap) CEPH_CAP_FILE_WR &&
     (((ci_max_size ci <? ci_wanted_max_size ci) && (ci_requested_max_size ci <? ci_wanted_max_size ci)) ||
      ((ci_max_size ci <=? u64 (vi_size ci * 2)) && (u64 (ci_reported_size ci * 2) <? ci_max_size ci))) then Ack
  else if auth && any flags CHECK_CAPS_FLUSH && negb (ci_dirty_caps ci =? 0) then Ack
  else if negb (revoking =? 0) && (Z.land revoking cap_used =? 0) then Ack
  else if negb (without want (Z.lor (c_mds_wanted cap) (c_issued cap)) =? 0) then Ack
  else if (without (c_issued cap) retain =? 0) && (c_mds_wanted cap =? want) then Good
  else if is_delayed then Ack
  else if negb (any (ci_flags ci) CEPH_I_NODELAY) && time_lt now (ci_hold_caps_max ci) then Delay
  else Ack.

(** The for loop over the caps, to the first that is to be sent: the number of
    those put off, and that cap *)
Fixpoint scan_caps (now flags mds : Z) (is_delayed : bool) (ci : ceph_inode_info) (used want retain : Z) (l : list ceph_cap) (delayed : Z)
  : Z * option ceph_cap :=
  match l with
  | [] => (delayed, None)
  | cap :: l =>
      let continue := scan_caps now flags mds is_delayed ci used want retain l in
      if (c_mds cap <=? mds) || (any flags CHECK_CAPS_AUTHONLY && negb (is_auth ci cap)) then continue delayed
      else
        match check_cap now flags is_delayed ci used want retain cap with
        | Good => continue delayed
        | Delay => continue (delayed + 1)
        | Ack => if any (ci_flags ci) CEPH_I_NOFLUSH then continue delayed else (delayed, Some cap)
        end
  end.

(** The locks for sending [cap]; false: i_ceph_lock was released for one of them. *)
Definition take_locks (cap : ceph_cap) (k : check) : M (bool * check) :=
  let mine := bool_decide (k_session k = Some (c_mds cap)) in
  ok ↢ (if mine then sret true else try_lock);
  if negb ok then
    _ ↢ unlocked;
    sret (false, k <| k_session := Some (c_mds cap) |> <| k_snap_rwsem := false |>)
  else
    let k := k <| k_session := Some (c_mds cap) |> in
    ok ↢ (if k_snap_rwsem k then sret true else try_lock);
    if negb ok then
      _ ↢ unlocked;
      sret (false, k <| k_snap_rwsem := true |>)
    else sret (true, k <| k_snap_rwsem := true |>).

(** The end of ceph_check_caps *)
Definition check_finish (ino : Z) (is_delayed : bool) (delayed : Z) (k : check) : M unit :=
  let force_requeue := k_force_requeue k || (negb (delayed =? 0) && is_delayed) in
  _ ↢ (if (delayed =? 0) && negb is_delayed then __cap_delay_cancel ino
       else if negb is_delayed || force_requeue then __cap_delay_requeue ino
       else sret tt);
  if k_queue_invalidate k then queue_work (QueueInvalidate ino) else sret tt.

Definition cache_caps : Z := Z.lor CEPH_CAP_FILE_CACHE CEPH_CAP_FILE_LAZYIO.

(** Tries to invalidate the pages, once; the loop then starts again. *)
Definition check_invalidate (ino revoking : Z) (k : check) : M check :=
  r ↢ try_nonblocking_invalidate ino;
  let k := k <| k_tried_invalidate := true |> in
  if r <? 0 then
    if any revoking cache_caps then
      _ ↢ mod_ci ino (fun ci => ci <| ci_rdcache_revoking := ci_rdcache_gen ci |>);
      sret (k <| k_queue_invalidate := true |>)
    else
      _ ↢ __cap_set_timeouts ino;
      sret (k <| k_force_requeue := true |>)
  else sret k.

(** retry_locked *)
Fixpoint check_loop (fuel : nat) (ino flags : Z) (is_delayed : bool) (k : check) : M unit :=
  ci ↢ get_ci ino;
  s ↢ sget;
  let file_wanted := __ceph_caps_file_wanted ci in
  let used := __ceph_caps_used ci in
  let want := Z.lor file_wanted used in
  let '(issued, implemented) := __ceph_caps_issued s ci in
  let revoking := without implemented issued in
  let retain := caps_to_retain (cs_stopping s) ci want in
  if (negb is_delayed || cs_stopping s) && (ci_wrbuffer_ref ci =? 0) && negb (vi_nrpages ci =? 0) &&
     ((file_wanted =? 0) || any revoking cache_caps) && negb (k_tried_invalidate k) then
    match fuel with
    | O => sfault OutOfFuel
    | S fuel => k ↢ check_invalidate ino revoking k; check_loop fuel ino flags is_delayed k
    end
  else
    match scan_caps (cs_jiffies s) flags (k_mds k) is_delayed ci used want retain (inorder (ci_caps ci)) 0 with
    | (delayed, None) => check_finish ino is_delayed (k_delayed k + delayed) k
    | (delayed, Some cap) =>
        match fuel with
        | O => sfault OutOfFuel
        | S fuel =>
            let k := k <| k_delayed ::= fun n => s32 (n + delayed) |> in
            '(ok, k) ↢ take_locks cap k;
            if negb ok then check_loop fuel ino flags is_delayed k
            else
              flushing ↢ (if is_auth ci cap && negb (ci_dirty_caps ci =? 0) then __mark_caps_flushing ino (c_mds cap) else sret 0);
              let cap_used := match auth_cap ci with Some a => if is_auth ci cap then used else without used (c_issued a) | None => used end in
              '(d, _) ↢ __send_cap ino (c_mds cap) CEPH_CAP_OP_UPDATE cap_used want retain flushing;
              check_loop fuel ino flags is_delayed (k <| k_mds := c_mds cap |> <| k_delayed ::= fun n => s32 (n + Z.b2z d) |>)
        end
    end.

(** Each cap is sent at most once, after at most two failed attempts to take locks;
    the pages are invalidated once. *)
Definition check_fuel (ci : ceph_inode_info) : nat := 2 + 3 * length (inorder (ci_caps ci)) + retries.

Definition ceph_check_caps (ino flags : Z) (session : option Z) : M unit :=
  s ↢ sget;
  ci ↢ get_ci ino;
  let is_delayed := any flags CHECK_CAPS_NODELAY || cs_stopping s in
  let flags := if any (ci_flags ci) CEPH_I_FLUSH then Z.lor flags CHECK_CAPS_FLUSH else flags in
  session ↢ match ci_cap_snaps ci with [] => sret session | _ => __ceph_flush_snaps ino session false end;
  ci ↢ get_ci ino;
  check_loop (check_fuel ci) ino flags is_delayed (Check session false (-1) false 0 false false).

(** ** Flushing *)

(** The result is what is being flushed, and the tid if a flush was sent.
    [session] is the session whose mutex is held. *)
Fixpoint try_flush_loop (fuel : nat) (ino : Z) (session : option Z) : M (Z * option Z) :=
  ci ↢ get_ci ino;
  if any (ci_flags ci) CEPH_I_NOFLUSH then sret (0, None)
  else
    match (if ci_dirty_caps ci =? 0 then None else auth_cap ci) with
    | None => sret (0, None)
    | Some cap =>
        if bool_decide (session = Some (c_mds cap)) then
          x ↢ get_session (c_mds cap);
          if s_state x <? CEPH_MDS_SESSION_OPEN then sret (0, None)
          else
            let used := __ceph_caps_used ci in
            let want := __ceph_caps_wanted ci in
            flushing ↢ __mark_caps_flushing ino (c_mds cap);
            '(delayed, tid) ↢ __send_cap ino (c_mds cap) CEPH_CAP_OP_FLUSH used want (Z.lor (c_issued cap) (c_implemented cap)) flushing;
            _ ↢ (if (delayed : bool) then __cap_delay_requeue ino else sret tt);
            sret (flushing, tid)
        else
          match fuel with
          | O => sfault OutOfFuel
          | S fuel => _ ↢ unlocked; try_flush_loop fuel ino (Some (c_mds cap))
          end
    end.

Definition try_flush_caps (ino : Z) : M (Z * option Z) := try_flush_loop (S retries) ino None.

Fixpoint bits_flushed (flushing tid : Z) (i : nat) (tids : list Z) : bool :=
  match tids with
  | [] => true
  | t :: tids => negb (Z.testbit flushing (Z.of_nat i) && (t <=? tid)) && bits_flushed flushing tid (S i) tids
  end.
Definition caps_are_flushed (ci : ceph_inode_info) (tid : Z) : bool := bits_flushed (ci_flushing_caps ci) tid 0 (ci_cap_flush_tid ci).

(** ceph_write_inode without the wait: the tid to wait for, if any *)
Definition ceph_write_inode (ino : Z) (wait : bool) : M (option Z) :=
  if wait then
    '(dirty, tid) ↢ try_flush_caps ino;
    sret (if dirty =? 0 then None else tid)
  else
    ci ↢ get_ci ino;
    _ ↢ (if __ceph_caps_dirty ci =? 0 then sret tt else __cap_delay_requeue_front ino);
    sret None.

(** ceph_fsync after the data was written: whether it waits, and for which tid *)
Definition fsync_metadata (ino : Z) (datasync : bool) : M (option Z) :=
  '(dirty, tid) ↢ try_flush_caps ino;
  sret (if negb datasync && negb (without dirty CEPH_CAP_ANY_FILE_WR =? 0) then tid else None).

(** ** Resending after an MDS has recovered *)
Definition pair_eqb (e f : Z * nat) : bool := (fst e =? fst f) && (snd e =? snd f)%nat.

(** list_for_each_entry: the next entry is read after the body has run. *)
Fixpoint entry_after {A} (eqb : A -> A -> bool) (e : A) (l : list A) : option A :=
  match l with
  | [] => None
  | x :: l => if eqb e x then hd_error l else entry_after eqb e l
  end.

Fixpoint kick_snaps_loop (fuel : nat) (mds : Z) (e : option (Z * nat)) : M unit :=
  match e with
  | None => sret tt
  | Some (ino, id) =>
      match fuel with
      | O => sfault OutOfFuel
      | S fuel =>
          ci ↢ get_ci ino;
          _ ↢ (if bool_decide (ci_auth_cap ci = Some mds) then _ ↢ __ceph_flush_snaps ino (Some mds) true; sret tt else sret tt);
          x ↢ get_session mds;
          kick_snaps_loop fuel mds (entry_after pair_eqb (ino, id) (s_cap_snaps_flushing x))
      end
  end.
Definition kick_flushing_capsnaps (mds : Z) : M unit :=
  x ↢ get_session mds;
  kick_snaps_loop (S (length (s_cap_snaps_flushing x))) mds (hd_error (s_cap_snaps_flushing x)).

(** __send_cap of what is being flushed *)
Definition resend_flush (ino mds : Z) : M unit :=
  ci ↢ get_ci ino;
  match __get_cap_for_mds ci mds with
  | None => sfault NullPointer
  | Some cap =>
      '(delayed, _) ↢ __send_cap ino mds CEPH_CAP_OP_FLUSH (__ceph_caps_used ci) (__ceph_caps_wanted ci) (Z.lor (c_issued cap) (c_implemented cap))
        (s32 (ci_flushing_caps ci));
      if (delayed : bool) then __cap_delay_requeue ino else sret tt
  end.

Fixpoint kick_caps_loop (fuel : nat) (mds : Z) (e : option Z) : M unit :=
  match e with
  | None => sret tt
  | Some ino =>
      match fuel with
      | O => sfault OutOfFuel
      | S fuel =>
          ci ↢ get_ci ino;
          _ ↢ (if bool_decide (ci_auth_cap ci = Some mds) then resend_flush ino mds else sret tt);
          x ↢ get_session mds;
          kick_caps_loop fuel mds (entry_after Z.eqb ino (s_cap_flushing x))
      end
  end.
Definition ceph_kick_flushing_caps (mds : Z) : M unit :=
  _ ↢ kick_flushing_capsnaps mds;
  x ↢ get_session mds;
  kick_caps_loop (S (length (s_cap_flushing x))) mds (hd_error (s_cap_flushing x)).

(** [cap] is the auth cap as it was before the cap snapshots were sent. *)
Definition kick_flushing_inode_caps (ino mds : Z) : M unit :=
  ci ↢ get_ci ino;
  let cap := ci_auth_cap ci in
  _ ↢ __ceph_flush_snaps ino (Some mds) true;
  ci ↢ get_ci ino;
  if ci_flushing_caps ci =? 0 then sret tt
  else
    match cap with
    | None => sfault NullPointer
    | Some amds => _ ↢ move_flushing ino amds; resend_flush ino amds
    end.

(** ** Delayed and dirty caps *)

(** while (1); [fuel] is for the inodes of the list and those that are queued again *)
Fixpoint check_delayed_loop (fuel : nat) : M unit :=
  s ↢ sget;
  match cs_delay s with
  | [] => sret tt
  | ino :: _ =>
      ci ↢ get_ci ino;
      if negb (any (ci_flags ci) CEPH_I_FLUSH) && time_lt (cs_jiffies s) (ci_hold_caps_max ci) then sret tt
      else
        match fuel with
        | O => sfault OutOfFuel
        | S fuel =>
            _ ↢ smod (fun s => s <| cs_delay ::= list_unlink ino |>);
            _ ↢ ceph_check_caps ino CHECK_CAPS_NODELAY None;
            check_delayed_loop fuel
        end
  end.
Definition ceph_check_delayed_caps : M unit := fun s => check_delayed_loop (length (cs_delay s)) s.

Fixpoint flush_dirty_loop (fuel : nat) : M unit :=
  s ↢ sget;
  match cs_dirty s with
  | [] => sret tt
  | ino :: _ =>
      match fuel with
      | O => sfault OutOfFuel
      | S fuel =>
          _ ↢ ihold ino;
          _ ↢ ceph_check_caps ino (Z.lor CHECK_CAPS_NODELAY CHECK_CAPS_FLUSH) None;
          _ ↢ iput ino;
          flush_dirty_loop fuel
      end
  end.
Definition ceph_flush_dirty_caps : M unit := fun s => flush_dirty_loop (length (cs_dirty s)) s.
End CapsFlush.
