(* ===== verification/CapsRefs.v ===== *)
(** * References to caps, and cap snapshots

    src/fs/ceph/caps.c, third part: readers and writers take references to the bits
    they use and drop them again; open files; releases that ride on requests.  With
    it the cap snapshots of src/fs/ceph/snap.c, and how src/fs/ceph/inode.c takes
    over size and times from the MDS. *)
From S2P Require Import Prelude.
From S2P Require Import RbTree.
From S2P Require Import StateM.
From S2P Require Import FileLayout.
From S2P Require Import CapPool.
From S2P Require Import Caps.
From S2P Require Import CapsFlush.
From stdpp Require Import gmap.
#[local] Open Scope Z_scope.
#[local] Open Scope ceph_scope.
#[local] Open Scope st_scope.

Definition EBADF : Z := 9.

Section CapsRefs.
Context `{RbOps} `{CapXattrs} `{Realms} `{!CapsEnv}.

(** ** References *)
Definition incr (b : bool) (n : Z) : Z := if b then s32 (n + 1) else n.
Definition decr (b : bool) (n : Z) : Z := if b then s32 (n - 1) else n.

Definition take_refs (got : Z) (ci : ceph_inode_info) : ceph_inode_info :=
  ci <| ci_pin_ref ::= incr (any got CEPH_CAP_PIN) |>
     <| ci_rd_ref ::= incr (any got CEPH_CAP_FILE_RD) |>
     <| ci_rdcache_ref ::= incr (any got CEPH_CAP_FILE_CACHE) |>
     <| ci_wr_ref ::= incr (any got CEPH_CAP_FILE_WR) |>
     <| vi_count ::= incr (any got CEPH_CAP_FILE_BUFFER && (ci_wb_ref ci =? 0)) |>
     <| ci_wb_ref ::= incr (any got CEPH_CAP_FILE_BUFFER) |>.
Definition __take_cap_refs (ino got : Z) : M unit := mod_ci ino (take_refs got).

(** inode.c; the pages are written and truncated while the lock is free *)
Fixpoint pending_loop (fuel : nat) (ino : Z) : M unit :=
  ci ↢ get_ci ino;
  if ci_truncate_pending ci =? 0 then sret tt
  else
    match fuel with
    | O => sfault OutOfFuel
    | S fuel =>
        if ci_wrbuffer_ref_head ci <? ci_wrbuffer_ref ci then _ ↢ unlocked; pending_loop fuel ino
        else
          _ ↢ unlocked;
          ci' ↢ get_ci ino;
          if ci_truncate_size ci =? ci_truncate_size ci' then
            _ ↢ mod_ci ino (fun ci => ci <| ci_truncate_pending := 0 |>);
            _ ↢ (if ci_wrbuffer_ref ci =? 0 then ceph_check_caps ino CHECK_CAPS_AUTHONLY None else sret tt);
            queue_work (WakeUp ino)
          else pending_loop fuel ino
    end.
Definition __ceph_do_pending_vmtruncate (ino : Z) : M unit := pending_loop (2 + retries) ino.

(** while (ci->i_truncate_pending) *)
Fixpoint finish_truncate (fuel : nat) (ino : Z) : M unit :=
  ci ↢ get_ci ino;
  if ci_truncate_pending ci =? 0 then sret tt
  else
    match fuel with
    | O => sfault OutOfFuel
    | S fuel => _ ↢ unlocked; _ ↢ __ceph_do_pending_vmtruncate ino; finish_truncate fuel ino
    end.

(** What a try finds: the file is not open (-EBADF), the caps were taken, the
    caller must ask for a larger max_size, or it must wait. *)
Inductive got := BadFile | Got (caps : Z) | CheckMax | Wait.

Definition try_get_cap_refs (ino need want endoff : Z) : M got :=
  ci ↢ get_ci ino;
  if Z.land (__ceph_caps_file_wanted ci) need =? 0 then sret BadFile
  else
    _ ↢ finish_truncate (S retries) ino;
    ci ↢ get_ci ino;
    s ↢ sget;
    let '(have, implemented) := __ceph_caps_issued s ci in
    let writing := any (Z.land have need) CEPH_CAP_FILE_WR in
    if writing && (0 <=? endoff) && (s64 (ci_max_size ci) <? endoff)
    then sret (if ci_requested_max_size ci <? endoff then CheckMax else Wait)
    else if writing && __ceph_have_pending_cap_snap ci then sret Wait
    else if Z.land have need =? need then
      let not_ := without want (Z.land have need) in
      let revoking := without implemented have in
      if Z.land revoking not_ =? 0 then
        let g := Z.lor need (Z.land have want) in
        _ ↢ __take_cap_refs ino g;
        sret (Got g)
      else sret Wait
    else sret Wait.

Definition check_max_size (ino endoff : Z) : M unit :=
  _ ↢ mod_ci ino (fun ci => if (ci_max_size ci <=? u64 endoff) && (ci_wanted_max_size ci <? u64 endoff)
                            then ci <| ci_wanted_max_size := u64 endoff |> else ci);
  ci ↢ get_ci ino;
  let check := match auth_cap ci with
               | Some a => any (c_issued a) CEPH_CAP_FILE_WR && (ci_max_size ci <? ci_wanted_max_size ci)
                           && (ci_requested_max_size ci <? ci_wanted_max_size ci)
               | None => false
               end in
  if check then ceph_check_caps ino CHECK_CAPS_AUTHONLY None else sret tt.

(** One round of ceph_get_caps: the condition of the wait is tried once *)
Definition ceph_get_caps (ino need want endoff : Z) : M got :=
  _ ↢ (if 0 <? endoff then check_max_size ino endoff else sret tt);
  try_get_cap_refs ino need want endoff.

Definition ceph_get_cap_refs (ino caps : Z) : M unit := __take_cap_refs ino caps.

(** ** Cap snapshots (snap.c) *)

(** The result says whether the snapshot can be flushed.  list_add_tail of an inode
    that is in the list already breaks the list. *)
Definition __ceph_finish_cap_snap (ino : Z) (k : ceph_cap_snap) : M bool :=
  ci ↢ get_ci ino;
  _ ↢ slift (bug_on (k_writing k));
  _ ↢ mod_snap ino (k_id k) (fun k => k <| k_size := vi_size ci |> <| k_mtime := vi_mtime ci |> <| k_atime := vi_atime ci |>
        <| k_ctime := vi_ctime ci |> <| k_time_warp_seq := ci_time_warp_seq ci |>);
  if negb (k_dirty_pages k =? 0) then sret false
  else
    s ↢ sget;
    if linked ino (cs_snap_flush s) then sfault OutOfBounds
    else
      _ ↢ smod (fun s => s <| cs_snap_flush ::= fun l => l ++ [ino] |>);
      sret true.

Definition ceph_queue_cap_snap (ino : Z) : M unit :=
  s ↢ sget;
  _ ↢ smod (fun s => s <| cs_allocs ::= S |>);
  if negb (msg_ok (cs_allocs s)) then sret tt
  else
    ci ↢ get_ci ino;
    let used := __ceph_caps_used ci in
    let dirty := __ceph_caps_dirty ci in
    let dirty := if any used CEPH_CAP_FILE_WR then Z.lor dirty CEPH_CAP_FILE_WR else dirty in
    if __ceph_have_pending_cap_snap ci then sret tt
    else if any dirty (or_all [CEPH_CAP_AUTH_EXCL; CEPH_CAP_XATTR_EXCL; CEPH_CAP_FILE_EXCL; CEPH_CAP_FILE_WR]) then
      sc ↢ match ci_head_snapc ci, realm_context ino (cs_realms s) with
           | Some sc, _ => sret sc
           | None, Some sc => sret sc
           | None, None => sfault NullPointer
           end;
      _ ↢ match realm_of ino (cs_realms s) with Some _ => sret tt | None => sfault NullPointer end;
      _ ↢ ihold ino;
      let xattr := any dirty CEPH_CAP_XATTR_EXCL in
      _ ↢ (if xattr then mod_ci ino (fun ci => ci <| ci_xattrs ::= build_blob |>) else sret tt);
      ci ↢ get_ci ino;
      let k := CapSnap (cs_next_snap s) None (snd sc) 0 (fst (__ceph_caps_issued s ci)) (s32 dirty) sc (vi_mode ci) (vi_uid ci) (vi_gid ci)
        (if xattr then blob_of (ci_xattrs ci) else None) (if xattr then version_of (ci_xattrs ci) else 0) 0 (0, 0) (0, 0) (0, 0) 0
        (any used CEPH_CAP_FILE_WR) (ci_wrbuffer_ref_head ci) in
      _ ↢ smod (fun s => s <| cs_next_snap ::= S |>);
      _ ↢ mod_ci ino (fun ci => ci <| ci_wrbuffer_ref_head := 0 |> <| ci_head_snapc := realm_context ino (cs_realms s) |>
                                   <| ci_cap_snaps ::= fun l => l ++ [k] |>);
      if any used CEPH_CAP_FILE_WR then sret tt else _ ↢ __ceph_finish_cap_snap ino k; sret tt
    else sret tt.

(** ** Dropping references *)

(** A reference of a write: the first cap snapshot was waiting for it, perhaps.
    The result says whether the snapshot can be flushed now, and whether threads
    are woken up. *)
Definition finish_write (ino : Z) : M (bool * bool) :=
  ci ↢ get_ci ino;
  match ci_cap_snaps ci with
  | k :: _ =>
      if k_writing k then
        _ ↢ mod_snap ino (k_id k) (fun k => k <| k_writing := false |>);
        f ↢ __ceph_finish_cap_snap ino (k <| k_writing := false |>);
        sret (f, true)
      else sret (false, false)
  | [] => sret (false, false)
  end.

Definition drop_refs (had : Z) (ci : ceph_inode_info) : ceph_inode_info :=
  ci <| ci_pin_ref ::= decr (any had CEPH_CAP_PIN) |>
     <| ci_rd_ref ::= decr (any had CEPH_CAP_FILE_RD) |>
     <| ci_rdcache_ref ::= decr (any had CEPH_CAP_FILE_CACHE) |>
     <| ci_wb_ref ::= decr (any had CEPH_CAP_FILE_BUFFER) |>
     <| ci_wr_ref ::= decr (any had CEPH_CAP_FILE_WR) |>.

Definition ceph_put_cap_refs (ino had : Z) : M unit :=
  _ ↢ mod_ci ino (drop_refs had);
  ci ↢ get_ci ino;
  let put := any had CEPH_CAP_FILE_BUFFER && (ci_wb_ref ci =? 0) in
  let last_wr := any had CEPH_CAP_FILE_WR && (ci_wr_ref ci =? 0) in
  let last := (any had CEPH_CAP_FILE_RD && (ci_rd_ref ci =? 0)) || (any had CEPH_CAP_FILE_CACHE && (ci_rdcache_ref ci =? 0)) || put || last_wr in
  '(flushsnaps, wake) ↢ (if last_wr then finish_write ino else sret (false, false));
  _ ↢ (if last && negb flushsnaps then ceph_check_caps ino 0 None
       else if (flushsnaps : bool) then ceph_flush_snaps ino else sret tt);
  _ ↢ (if (wake : bool) then queue_work (WakeUp ino) else sret tt);
  if put then iput ino else sret tt.

(** The pages of the head, or of the cap snapshot with this context *)
Definition put_pages (ino nr : Z) (sc : snapc) : M (bool * bool) :=
  ci ↢ get_ci ino;
  if bool_decide (fst <$> ci_head_snapc ci = Some (fst sc)) then
    _ ↢ mod_ci ino (fun ci =>
          let ci := ci <| ci_wrbuffer_ref_head ::= fun n => s32 (n - nr) |> in
          if (ci_wrbuffer_ref_head ci =? 0) && (ci_dirty_caps ci =? 0) && (ci_flushing_caps ci =? 0) then ci <| ci_head_snapc := None |> else ci);
    sret (false, false)
  else
    match List.find (fun k => (fst (k_context k) =? fst sc)%nat) (ci_cap_snaps ci) with
    | None => sfault BugOn
    | Some k =>
        let pages := s32 (k_dirty_pages k - nr) in
        let complete := pages =? 0 in
        let drop := complete && (k_dirty k =? 0) in
        _ ↢ mod_snap ino (k_id k) (fun k => k <| k_dirty_pages := pages |>);
        _ ↢ (if drop then
               _ ↢ unlink_flushing_snap ino k;
               mod_ci ino (fun ci => ci <| ci_cap_snaps ::= List.filter (fun j => negb (k_id j =? k_id k)%nat) |>)
             else sret tt);
        sret (complete, drop)
    end.

Definition ceph_put_wrbuffer_cap_refs (ino nr : Z) (sc : snapc) : M unit :=
  _ ↢ mod_ci ino (fun ci => ci <| ci_wrbuffer_ref ::= fun n => s32 (n - nr) |>);
  ci ↢ get_ci ino;
  let last := ci_wrbuffer_ref ci =? 0 in
  '(complete, drop) ↢ put_pages ino nr sc;
  _ ↢ (if last then _ ↢ ceph_check_caps ino CHECK_CAPS_AUTHONLY None; iput ino
       else if (complete : bool) then _ ↢ ceph_flush_snaps ino; queue_work (WakeUp ino)
       else sret tt);
  if (drop : bool) then iput ino else sret tt.

Definition ceph_put_fmode (ino fmode : Z) : M unit :=
  ci ↢ get_ci ino;
  n ↢ slift (rd (ci_nr_by_mode ci) fmode);
  _ ↢ slift (bug_on (n =? 0));
  l ↢ slift (wr (ci_nr_by_mode ci) fmode (s32 (n - 1)));
  _ ↢ mod_ci ino (fun ci => ci <| ci_nr_by_mode := l |>);
  if (s32 (n - 1) =? 0) && (ci_snap ci =? CEPH_NOSNAP) then ceph_check_caps ino 0 None else sret tt.

(** ** Releases in requests *)

(** struct ceph_mds_request_release *)
Record request_release := RequestRelease {
  rel_ino : Z;
  rel_cap_id : Z;
  rel_seq : Z;
  rel_issue_seq : Z;
  rel_mseq : Z;
  rel_caps : Z;
  rel_wanted : Z }.

Definition ceph_encode_inode_release (ino mds drop unless : Z) (force : bool) : M (option request_release) :=
  ci ↢ get_ci ino;
  s ↢ sget;
  let drop := without drop (Z.lor (__ceph_caps_used ci) (__ceph_caps_dirty ci)) in
  match __get_cap_for_mds ci mds with
  | None => sret None
  | Some cap =>
      let droppable := any (c_issued cap) drop && negb (any (c_issued cap) unless) in
      if __cap_is_valid s cap && (force || droppable) then
        let cap :=
          if droppable then
            let wanted := __ceph_caps_wanted ci in
            let wanted := if any (ci_flags ci) CEPH_I_NODELAY then wanted else Z.lor wanted (c_mds_wanted cap) in
            cap <| c_issued ::= fun i => without i drop |> <| c_implemented ::= fun i => without i drop |> <| c_mds_wanted := wanted |>
          else cap in
        _ ↢ set_ci ino (put_cap cap ci);
        sret (Some (RequestRelease ino (c_cap_id cap) (c_seq cap) (c_issue_seq cap) (c_mseq cap) (u32 (c_implemented cap)) (u32 (c_mds_wanted cap))))
      else sret None
  end.

(** ** Size and times from the MDS (inode.c) *)

(** The result says whether a truncation is to be queued. *)
Definition ceph_fill_file_size (issued truncate_seq truncate_size size : Z) (ci : ceph_inode_info) : bool * ceph_inode_info :=
  let '(trunc, ci) :=
    if (0 <? ceph_seq_cmp truncate_seq (ci_truncate_seq ci)) || ((truncate_seq =? ci_truncate_seq ci) && (u64 (vi_size ci) <? size)) then
      let ci := ci <| vi_size := s64 size |> <| vi_blocks := Z.shiftr (u64 (size + 511)) 9 |> <| ci_reported_size := size |> in
      if truncate_seq =? ci_truncate_seq ci then (false, ci)
      else
        let trunc := any issued (Z.lor CEPH_CAP_FILE_CACHE CEPH_CAP_FILE_BUFFER) || vi_mapped ci || negb (__ceph_caps_file_wanted ci =? 0) in
        (trunc, ci <| ci_truncate_seq := truncate_seq |> <| ci_truncate_pending ::= fun n => if trunc then s32 (n + 1) else n |>)
    else (false, ci) in
  (trunc, if (0 <=? ceph_seq_cmp truncate_seq (ci_truncate_seq ci)) && negb (ci_truncate_size ci =? truncate_size)
          then ci <| ci_truncate_size := truncate_size |> else ci).

Definition later (a b : timespec) : timespec := if 0 <? timespec_compare a b then a else b.

Definition ceph_fill_file_time (issued time_warp_seq : Z) (ctime mtime atime : timespec) (ci : ceph_inode_info) : ceph_inode_info :=
  if any issued (or_all [CEPH_CAP_FILE_EXCL; CEPH_CAP_FILE_WR; CEPH_CAP_FILE_BUFFER; CEPH_CAP_AUTH_EXCL; CEPH_CAP_XATTR_EXCL]) then
    let ci := ci <| vi_ctime ::= later ctime |> in
    if 0 <? ceph_seq_cmp (u32 time_warp_seq) (ci_time_warp_seq ci) then
      ci <| vi_mtime := mtime |> <| vi_atime := atime |> <| ci_time_warp_seq := u32 time_warp_seq |>
    else if time_warp_seq =? ci_time_warp_seq ci then ci <| vi_mtime ::= later mtime |> <| vi_atime ::= later atime |>
    else ci
  else if 0 <=? ceph_seq_cmp (u32 time_warp_seq) (ci_time_warp_seq ci) then
    ci <| vi_ctime := ctime |> <| vi_mtime := mtime |> <| vi_atime := atime |> <| ci_time_warp_seq := u32 time_warp_seq |>
  else ci.
End CapsRefs.
