(* ===== verification/CapsMsg.v ===== *)
(** * Cap messages from the MDS

    src/fs/ceph/caps.c, last part: the handlers of grants, revocations, acks,
    truncations and migrations, and [ceph_handle_caps], on the bytes of a
    message. *)
From S2P Require Import Prelude.
From S2P Require Import Wire.
From S2P Require Import RbTree.
From S2P Require Import StateM.
From S2P Require Import FileLayout.
From S2P Require Import CapPool.
From S2P Require Import Caps.
From S2P Require Import CapsFlush.
From S2P Require Import CapsRefs.
From stdpp Require Import gmap.
#[local] Open Scope Z_scope.
#[local] Open Scope ceph_scope.
#[local] Open Scope st_scope.

(** struct ceph_mds_caps, with the fields that the client reads *)
Record ceph_mds_caps := MdsCaps {
  h_op : Z;
  h_ino : Z;
  h_realm : Z;
  h_cap_id : Z;
  h_seq : Z;
  h_caps : Z;
  h_wanted : Z;
  h_dirty : Z;
  h_migrate_seq : Z;
  h_snap_follows : Z;
  h_snap_trace_len : Z;
  h_uid : Z;
  h_gid : Z;
  h_mode : Z;
  h_nlink : Z;
  h_xattr_len : Z;
  h_xattr_version : Z;
  h_size : Z;
  h_max_size : Z;
  h_truncate_size : Z;
  h_truncate_seq : Z;
  h_mtime : timespec;
  h_atime : timespec;
  h_ctime : timespec;
  h_layout : ceph_file_layout;
  h_time_warp_seq : Z }.

Definition sizeof_caps : Z := 176.
Definition le_at (msg : list Z) (off : Z) (n : nat) : outcome Z := l ← read_bytes msg n off; Ret (le_val l).
Definition timespec_at (msg : list Z) (off : Z) : outcome timespec := s ← le_at msg off 4; n ← le_at msg (off + 4) 4; Ret (s, n).

Definition read_caps (msg : list Z) : outcome ceph_mds_caps :=
  op ← le_at msg 0 4; ino ← le_at msg 4 8; realm ← le_at msg 12 8; cap_id ← le_at msg 20 8;
  seq ← le_at msg 28 4; caps ← le_at msg 36 4; wanted ← le_at msg 40 4; dirty ← le_at msg 44 4;
  mseq ← le_at msg 48 4; follows ← le_at msg 52 8; trace_len ← le_at msg 60 4;
  uid ← le_at msg 64 4; gid ← le_at msg 68 4; mode ← le_at msg 72 4; nlink ← le_at msg 76 4;
  xattr_len ← le_at msg 80 4; xattr_version ← le_at msg 84 8;
  size ← le_at msg 92 8; max_size ← le_at msg 100 8; truncate_size ← le_at msg 108 8; truncate_seq ← le_at msg 116 4;
  mtime ← timespec_at msg 120; atime ← timespec_at msg 128; ctime ← timespec_at msg 136;
  su ← le_at msg 144 4; sc ← le_at msg 148 4; os ← le_at msg 152 4; warp ← le_at msg 172 4;
  Ret (MdsCaps op ino realm cap_id seq caps wanted dirty mseq follows trace_len uid gid mode nlink xattr_len xattr_version
         size max_size truncate_size truncate_seq mtime atime ctime (Layout su sc os) warp).

(** struct ceph_mds_cap_peer *)
Record cap_peer := CapPeer {
  p_cap_id : Z;
  p_seq : Z;
  p_mseq : Z;
  p_mds : Z;
  p_flags : Z }.

Definition read_peer (msg : list Z) (off : Z) : outcome cap_peer :=
  cap_id ← le_at msg off 8; seq ← le_at msg (off + 8) 4; mseq ← le_at msg (off + 12) 4; mds ← le_at msg (off + 16) 4; flags ← le_at msg (off + 20) 1;
  Ret (CapPeer cap_id seq mseq (s32 mds) flags).

Section CapsMsg.
Context `{RbOps} `{CapXattrs} `{Realms} `{!CapsEnv}.

(** ** Grants and revocations *)

(** Metadata that the message has, unless the client is allowed to change it: the
    new inode, and whether the last link is gone *)
Definition grant_auth (h : ceph_mds_caps) (newcaps issued : Z) (ci : ceph_inode_info) : ceph_inode_info :=
  if any newcaps CEPH_CAP_AUTH_SHARED && negb (any issued CEPH_CAP_AUTH_EXCL)
  then ci <| vi_mode := u16 (h_mode h) |> <| vi_uid := h_uid h |> <| vi_gid := h_gid h |> else ci.
Definition grant_link (h : ceph_mds_caps) (newcaps issued : Z) (ci : ceph_inode_info) : bool * ceph_inode_info :=
  if any newcaps CEPH_CAP_AUTH_SHARED && negb (any issued CEPH_CAP_LINK_EXCL)
  then ((h_nlink h =? 0) && any newcaps (Z.lor CEPH_CAP_LINK_SHARED CEPH_CAP_LINK_EXCL), ci <| vi_nlink := h_nlink h |>) else (false, ci).
Definition grant_xattrs (h : ceph_mds_caps) (issued : Z) (xattr_buf : option (list Z)) (ci : ceph_inode_info) : outcome ceph_inode_info :=
  if negb (any issued CEPH_CAP_XATTR_EXCL) && negb (h_xattr_len h =? 0) && (version_of (ci_xattrs ci) <? h_xattr_version h)
  then b ← deref xattr_buf; Ret (ci <| ci_xattrs ::= set_blob (h_xattr_version h) b |>)
  else Ret ci.
Definition grant_times (h : ceph_mds_caps) (newcaps issued : Z) (ci : ceph_inode_info) : ceph_inode_info :=
  if any newcaps CEPH_CAP_ANY_RD then ceph_fill_file_time issued (h_time_warp_seq h) (h_ctime h) (h_mtime h) (h_atime h) ci else ci.
(** The size: whether to truncate, and whether to wake up *)
Definition grant_size (h : ceph_mds_caps) (mds newcaps issued : Z) (ci : ceph_inode_info) : bool * bool * ceph_inode_info :=
  if any newcaps (Z.lor CEPH_CAP_ANY_FILE_RD CEPH_CAP_ANY_FILE_WR) then
    let '(trunc, ci) := ceph_fill_file_size issued (h_truncate_seq h) (h_truncate_size h) (h_size h) (ci <| ci_layout := h_layout h |>) in
    if bool_decide (ci_auth_cap ci = Some mds) && negb (h_max_size h =? ci_max_size ci) then
      let ci := ci <| ci_max_size := h_max_size h |> in
      (trunc, true, if ci_wanted_max_size ci <=? h_max_size h then ci <| ci_wanted_max_size := 0 |> <| ci_requested_max_size := 0 |> else ci)
    else (trunc, false, ci)
  else (false, false, ci).

Inductive check_req := CheckNone | CheckAuth | CheckAll.

(** Revocation, no change, or grant: whether to write pages back, whether to wake
    up, what to check (or [None]: as before), and the cap *)
Definition grant_bits (ci : ceph_inode_info) (newcaps : Z) (queue_invalidate : bool) (cap : ceph_cap) : bool * bool * option check_req * ceph_cap :=
  let revoking := without (c_issued cap) newcaps in
  let cap' := cap <| c_issued := newcaps |> <| c_implemented ::= fun i => Z.lor i newcaps |> in
  if negb (revoking =? 0) then
    if any (Z.land revoking (__ceph_caps_used ci)) CEPH_CAP_FILE_BUFFER then (true, false, None, cap')
    else if (revoking =? CEPH_CAP_FILE_CACHE) && negb (any newcaps CEPH_CAP_FILE_LAZYIO) && queue_invalidate then (false, false, None, cap')
    else (false, false, Some (if is_auth ci cap then CheckAuth else CheckAll), cap')
  else if c_issued cap =? newcaps then (false, false, None, cap)
  else (false, true, if is_auth ci cap && __ceph_caps_revoking_other ci (Some (c_mds cap)) newcaps then Some CheckAll else None, cap').

(** CACHE is revoked and there are no dirty pages: the pages are invalidated, or an
    invalidation is to be queued. *)
Definition revoke_cache (ino newcaps : Z) (cap : ceph_cap) : M bool :=
  ci ↢ get_ci ino;
  if any (without (c_issued cap) newcaps) CEPH_CAP_FILE_CACHE && negb (any newcaps CEPH_CAP_FILE_LAZYIO) && (ci_wrbuffer_ref ci =? 0) then
    r ↢ try_nonblocking_invalidate ino;
    if r =? 0 then sret false
    else
      ci ↢ get_ci ino;
      if ci_rdcache_revoking ci =? ci_rdcache_gen ci then sret false
      else _ ↢ mod_ci ino (fun ci => ci <| ci_rdcache_revoking := ci_rdcache_gen ci |>); sret true
  else sret false.

(** The snaptrace of an import: [trace] is the message and the end of the trace in it *)
Definition import_trace (ino mds : Z) (trace : list Z * Z) : M unit :=
  _ ↢ (if Z.of_nat (length (fst trace)) <? snd trace then sfault OutOfBounds
       else in_realms (update_trace (take (Z.to_nat (snd trace)) (fst trace)) sizeof_caps));
  kick_flushing_inode_caps ino mds.

Definition when (b : bool) (m : M unit) : M unit := if b then m else sret tt.

(** [issued]: what the client had before *)
Definition handle_cap_grant (ino : Z) (h : ceph_mds_caps) (trace : list Z * Z) (xattr_buf : option (list Z)) (mds issued : Z) : M unit :=
  ci ↢ get_ci ino;
  match __get_cap_for_mds ci mds with
  | None => sfault NullPointer
  | Some cap =>
      let old := ceph_seq_cmp (s32 (h_seq h)) (c_seq cap) <=? 0 in
      let seq := if old then c_seq cap else h_seq h in
      let newcaps := if old then Z.lor (s32 (h_caps h)) (c_issued cap) else s32 (h_caps h) in
      queue_invalidate ↢ revoke_cache ino newcaps cap;
      x ↢ get_session mds;
      _ ↢ mod_cap ino mds (fun c => c <| c_cap_gen := s_cap_gen x |> <| c_seq := seq |>);
      _ ↢ __check_cap_issue ino newcaps;
      _ ↢ mod_ci ino (grant_auth h newcaps issued);
      ci ↢ get_ci ino;
      let '(deleted, ci) := grant_link h newcaps issued ci in
      ci ↢ slift (grant_xattrs h issued xattr_buf ci);
      let '(trunc, wake, ci) := grant_size h mds newcaps issued (grant_times h newcaps issued ci) in
      _ ↢ set_ci ino ci;
      let import := h_op h =? CEPH_CAP_OP_IMPORT in
      let check := if negb (__ceph_caps_wanted ci =? h_wanted h) && import then CheckAuth else CheckNone in
      match __get_cap_for_mds ci mds with
      | None => sfault NullPointer
      | Some cap =>
          let '(writeback, wake', check', cap) := grant_bits ci newcaps queue_invalidate cap in
          let check := default check check' in
          _ ↢ set_ci ino (put_cap cap ci);
          _ ↢ slift (bug_on (negb (without (c_issued cap) (c_implemented cap) =? 0)));
          _ ↢ unlocked;
          _ ↢ when import (import_trace ino mds trace);
          _ ↢ when trunc (queue_work (QueueVmtruncate ino));
          _ ↢ when writeback (queue_work (QueueWriteback ino));
          _ ↢ when queue_invalidate (queue_work (QueueInvalidate ino));
          _ ↢ when deleted (queue_work (InvalidateAliases ino));
          _ ↢ when (wake || wake' || (import && negb (without newcaps issued =? 0))) (queue_work (WakeUp ino));
          match check with
          | CheckNone => sret tt
          | CheckAuth => ceph_check_caps ino (Z.lor CHECK_CAPS_NODELAY CHECK_CAPS_AUTHONLY) (Some mds)
          | CheckAll => ceph_check_caps ino CHECK_CAPS_NODELAY (Some mds)
          end
      end
  end.

(** ** Acks *)
Definition cleaned_bits (dirty tid : Z) (tids : list Z) : Z :=
  or_all (imap (fun i t => if Z.testbit dirty (Z.of_nat i) && (u16 tid =? t) then Z.shiftl 1 (Z.of_nat i) else 0) tids).

(** list_del_init of i_flushing_item *)
Definition unlink_flushing (ino : Z) : M unit :=
  ci ↢ get_ci ino;
  _ ↢ match ci_flushing_item ci with
      | Some m => mod_session m (fun x => x <| s_cap_flushing ::= list_unlink ino |>)
      | None => sret tt
      end;
  mod_ci ino (fun ci => ci <| ci_flushing_item := None |>).

Definition handle_cap_flush_ack (ino flush_tid : Z) (h : ceph_mds_caps) : M unit :=
  ci ↢ get_ci ino;
  let cleaned := cleaned_bits (s32 (h_dirty h)) flush_tid (ci_cap_flush_tid ci) in
  let flushing := without (ci_flushing_caps ci) cleaned in
  if ci_flushing_caps ci =? flushing then sret tt
  else
    _ ↢ mod_ci ino (fun ci => ci <| ci_flushing_caps := flushing |>);
    drop ↢ (if flushing =? 0 then
              _ ↢ unlink_flushing ino;
              _ ↢ smod (fun s => s <| cs_num_flushing ::= fun n => s32 (n - 1) |>);
              s ↢ sget;
              if ci_dirty_caps ci =? 0 then
                _ ↢ slift (bug_on (linked ino (cs_dirty s)));
                _ ↢ (if ci_wrbuffer_ref_head ci =? 0 then
                       match ci_head_snapc ci with
                       | None => sfault BugOn
                       | Some _ => mod_ci ino (fun ci => ci <| ci_head_snapc := None |>)
                       end
                     else sret tt);
                sret true
              else _ ↢ slift (bug_on (negb (linked ino (cs_dirty s)))); sret false
            else sret false);
    _ ↢ queue_work (WakeUp ino);
    if (drop : bool) then iput ino else sret tt.

Definition handle_cap_flushsnap_ack (ino flush_tid : Z) (h : ceph_mds_caps) : M unit :=
  ci ↢ get_ci ino;
  match List.find (fun k => k_follows k =? h_snap_follows h) (ci_cap_snaps ci) with
  | Some k =>
      if negb (k_flush_tid k =? flush_tid) then sret tt
      else
        _ ↢ unlink_flushing_snap ino k;
        _ ↢ mod_ci ino (fun ci => ci <| ci_cap_snaps ::= List.filter (fun j => negb (k_id j =? k_id k)%nat) |>);
        iput ino
  | None => sret tt
  end.

Definition handle_cap_trunc (ino : Z) (h : ceph_mds_caps) : M unit :=
  ci ↢ get_ci ino;
  s ↢ sget;
  let '(issued, implemented) := __ceph_caps_issued s ci in
  let '(trunc, ci) := ceph_fill_file_size (or_all [issued; implemented; __ceph_caps_dirty ci]) (h_truncate_seq h) (h_truncate_size h) (h_size h) ci in
  _ ↢ set_ci ino ci;
  when trunc (queue_work (QueueVmtruncate ino)).

(** ** Migration *)

(** The cap of the target is brought up to what the peer says. *)
Definition update_target (ino mds issued : Z) (p : cap_peer) (tcap : ceph_cap) : M unit :=
  if negb (c_cap_id tcap =? p_cap_id p) || (ceph_seq_cmp (c_seq tcap) (p_seq p) <? 0) then
    _ ↢ mod_cap ino (p_mds p) (fun c => c <| c_cap_id := p_cap_id p |> <| c_seq := u32 (p_seq p - 1) |> <| c_issue_seq := u32 (p_seq p - 1) |>
          <| c_mseq := p_mseq p |> <| c_issued ::= Z.lor issued |> <| c_implemented ::= Z.lor issued |>);
    _ ↢ mod_ci ino (fun ci => if bool_decide (ci_auth_cap ci = Some mds) then ci <| ci_auth_cap := Some (p_mds p) |> else ci);
    ci ↢ get_ci ino;
    if negb (ci_flushing_caps ci =? 0) && bool_decide (ci_auth_cap ci = Some (p_mds p)) then move_flushing ino (p_mds p) else sret tt
  else sret tt.

(** [tsession]: the session of the target is open, with the structure for its cap *)
Fixpoint export_loop (fuel : nat) (ino mds : Z) (h : ceph_mds_caps) (p : option cap_peer) (tsession : bool) (new_cap : option nat) : M (option nat) :=
  ci ↢ get_ci ino;
  match __get_cap_for_mds ci mds with
  | None => sret new_cap
  | Some cap =>
      if negb (c_cap_id cap =? h_cap_id h) then sret new_cap
      else
        match p with
        | None => _ ↢ __ceph_remove_cap ino mds false; sret new_cap
        | Some p =>
            if p_mds p <? 0 then _ ↢ __ceph_remove_cap ino mds false; sret new_cap
            else
              match __get_cap_for_mds ci (p_mds p) with
              | Some tcap =>
                  _ ↢ update_target ino mds (c_issued cap) p tcap;
                  _ ↢ __ceph_remove_cap ino mds false;
                  sret new_cap
              | None =>
                  if tsession then
                    let flag := if is_auth ci cap then CEPH_CAP_FLAG_AUTH else 0 in
                    new_cap ↢ ceph_add_cap ino (p_mds p) (p_cap_id p) (-1) (c_issued cap) 0 (u32 (p_seq p - 1)) (p_mseq p) (2 ^ 64 - 1) flag new_cap;
                    _ ↢ __ceph_remove_cap ino mds false;
                    sret new_cap
                  else
                    match fuel with
                    | O => sfault OutOfFuel
                    | S fuel =>
                        _ ↢ unlocked;
                        match open_target (p_mds p) with
                        | Some x =>
                            _ ↢ smod (fun s => s <| cs_sessions ::= fun m => match m !! p_mds p with Some _ => m | None => <[p_mds p := x]> m end |>);
                            _ ↢ ceph_add_cap_releases (p_mds p);
                            '(new_cap, _) ↢ in_pool (ceph_get_cap cap_ok None);
                            export_loop fuel ino mds h (Some p) true new_cap
                        | None => export_loop fuel ino mds h None false new_cap
                        end
                    end
              end
        end
  end.

Definition handle_cap_export (ino mds : Z) (h : ceph_mds_caps) (p : option cap_peer) : M unit :=
  new_cap ↢ export_loop (S retries) ino mds h p false None;
  match new_cap with
  | Some c => in_pool (ceph_put_cap c)
  | None => sret tt
  end.

(** The structure for a new cap; the loop goes on until there is memory. *)
Fixpoint import_cap (fuel : nat) (ino mds : Z) (new_cap : option nat) : M (option nat) :=
  ci ↢ get_ci ino;
  match __get_cap_for_mds ci mds, new_cap with
  | None, Some c => sret (Some c)
  | None, None =>
      match fuel with
      | O => sfault OutOfFuel
      | S fuel => _ ↢ unlocked; '(c, _) ↢ in_pool (ceph_get_cap cap_ok None); import_cap fuel ino mds c
      end
  | Some _, Some c => _ ↢ in_pool (ceph_put_cap c); sret None
  | Some _, None => sret None
  end.

(** The result is *old_issued. *)
Definition handle_cap_import (ino mds : Z) (h : ceph_mds_caps) (p : option cap_peer) : M Z :=
  new_cap ↢ import_cap (S retries) ino mds None;
  ci ↢ get_ci ino;
  s ↢ sget;
  let issued := Z.lor (snd (__ceph_caps_issued s ci)) (__ceph_caps_dirty ci) in
  _ ↢ ceph_add_cap ino mds (h_cap_id h) (-1) (h_caps h) (h_wanted h) (h_seq h) (h_migrate_seq h) (h_realm h) CEPH_CAP_FLAG_AUTH new_cap;
  ci ↢ get_ci ino;
  _ ↢ match p with
      | Some p =>
          if p_mds p <? 0 then sret tt
          else
            match __get_cap_for_mds ci (p_mds p) with
            | Some ocap => if c_cap_id ocap =? p_cap_id p then __ceph_remove_cap ino (p_mds p) (any (p_flags p) CEPH_CAP_FLAG_RELEASE) else sret tt
            | None => sret tt
            end
      | None => sret tt
      end;
  _ ↢ mod_ci ino (fun ci => ci <| ci_wanted_max_size := 0 |> <| ci_requested_max_size := 0 |>);
  sret issued.

(** ** Messages *)

(** The fixed part, and the peer of a migration; [None]: the message is corrupt *)
Definition decode_caps (version : Z) (msg : list Z) : outcome (option (ceph_mds_caps * option cap_peer)) :=
  let end_ := Z.of_nat (length msg) in
  if end_ <? sizeof_caps then Ret None
  else
    h ← read_caps msg;
    let p := sizeof_caps + h_snap_trace_len h in
    if 2 <=? version then
      if negb (ceph_has_room p end_ 4) then Ret None
      else
        flock_len ← le_at msg p 4;
        let p := p + 4 in
        if end_ <? p + flock_len then Ret None
        else if 3 <=? version then
          let q := p + flock_len in
          if h_op h =? CEPH_CAP_OP_IMPORT then
            if end_ <? q + 21 then Ret None else peer ← read_peer msg q; Ret (Some (h, Some peer))
          else if h_op h =? CEPH_CAP_OP_EXPORT then peer ← read_peer msg 92; Ret (Some (h, Some peer))
          else Ret (Some (h, None))
        else Ret (Some (h, None))
    else Ret (Some (h, None)).

Definition flush_releases (mds : Z) : M unit := _ ↢ ceph_add_cap_releases mds; ceph_send_cap_releases mds.

(** The messages that need a cap *)
Definition handle_with_cap (ino mds tid : Z) (h : ceph_mds_caps) (middle : option (list Z)) : M unit :=
  ci ↢ get_ci ino;
  match __get_cap_for_mds ci mds with
  | None => flush_releases mds
  | Some _ =>
      if (h_op h =? CEPH_CAP_OP_REVOKE) || (h_op h =? CEPH_CAP_OP_GRANT) then
        s ↢ sget;
        let issued := Z.lor (snd (__ceph_caps_issued s ci)) (__ceph_caps_dirty ci) in
        handle_cap_grant ino h ([], 0) middle mds issued
      else if h_op h =? CEPH_CAP_OP_FLUSH_ACK then handle_cap_flush_ack ino tid h
      else if h_op h =? CEPH_CAP_OP_TRUNC then handle_cap_trunc ino h
      else sret tt
  end.

Definition handle_inode_caps (ino mds tid : Z) (h : ceph_mds_caps) (peer : option cap_peer) (msg : list Z) (middle : option (list Z)) : M unit :=
  if h_op h =? CEPH_CAP_OP_FLUSHSNAP_ACK then handle_cap_flushsnap_ack ino tid h
  else if h_op h =? CEPH_CAP_OP_EXPORT then handle_cap_export ino mds h peer
  else if h_op h =? CEPH_CAP_OP_IMPORT then
    issued ↢ handle_cap_import ino mds h peer;
    handle_cap_grant ino h (msg, sizeof_caps + h_snap_trace_len h) middle mds issued
  else handle_with_cap ino mds tid h middle.

(** [tid] and [version] are from the header of the message. *)
Definition ceph_handle_caps (mds tid version : Z) (msg : list Z) (middle : option (list Z)) : M unit :=
  d ↢ slift (decode_caps version msg);
  match d with
  | None => sret tt
  | Some (h, peer) =>
      _ ↢ mod_session mds (fun x => x <| s_seq ::= fun n => u64 (n + 1) |>);
      _ ↢ (if h_op h =? CEPH_CAP_OP_IMPORT then _ ↢ ceph_add_cap_releases mds; sret tt else sret tt);
      s ↢ sget;
      match cs_inodes s !! h_ino h with
      | None =>
          _ ↢ (if h_op h =? CEPH_CAP_OP_IMPORT then __queue_cap_release mds (h_ino h) (h_cap_id h) (h_migrate_seq h) (h_seq h) else sret tt);
          flush_releases mds
      | Some _ =>
          _ ↢ ihold (h_ino h);
          _ ↢ handle_inode_caps (h_ino h) mds tid h peer msg middle;
          iput (h_ino h)
      end
  end.
End CapsMsg.
