(* ===== verification/CapsInv.v ===== *)
(** * Caps in use are held

    The invariant of the capabilities: the bits issued are implemented, and every
    bit that a reference, a page or a buffer uses is implemented by some cap, that
    is, the client has not told the MDS that it has given it up.  It holds over
    whatever other threads do while the lock of an inode is free, as long as they
    keep it as well. *)
From S2P Require Import Prelude.
From S2P Require Import RbTree.
From S2P Require Import StateM.
From S2P Require Import FileLayout.
From S2P Require Import CapPool.
From S2P Require Import Caps.
From S2P Require Import CapsFlush.
From S2P Require Import CapsRefs.
From S2P Require Import CapsMsg.
From stdpp Require Import gmap.
#[local] Open Scope Z_scope.
#[local] Open Scope ceph_scope.
#[local] Open Scope st_scope.

(** ** Sets of bits *)
Definition sub (a b : Z) : Prop := forall i, 0 <= i -> Z.testbit a i = true -> Z.testbit b i = true.
Notation "a ⊑ b" := (sub a b) (at level 70) : ceph_scope.

#[global] Instance sub_preorder : PreOrder sub.
Proof. split; [intros a i; auto|intros a b c Hab Hbc i Hi Ha; auto]. Qed.

Lemma zero_bits a : a = 0 <-> forall i, 0 <= i -> Z.testbit a i = false.
Proof. split; [intros -> i _; apply Z.bits_0|]. intros Ha. apply Z.bits_inj'. intros i Hi. by rewrite Ha, Z.bits_0. Qed.

Lemma without_bit a b i : 0 <= i -> Z.testbit (without a b) i = Z.testbit a i && negb (Z.testbit b i).
Proof. intros. unfold without. by rewrite Z.land_spec, Z.lnot_spec by done. Qed.

Lemma sub_without a b : without a b = 0 <-> a ⊑ b.
Proof.
  rewrite zero_bits. split; intros H i Hi; specialize (H i Hi); rewrite without_bit in * by done;
    destruct (Z.testbit a i), (Z.testbit b i); naive_solver.
Qed.

Lemma land_zero a b : Z.land a b = 0 <-> forall i, 0 <= i -> Z.testbit a i = true -> Z.testbit b i = false.
Proof.
  rewrite zero_bits. split; intros H i Hi; specialize (H i Hi); rewrite Z.land_spec in *; destruct (Z.testbit a i), (Z.testbit b i); naive_solver.
Qed.

Lemma any_false a b : any a b = false <-> forall i, 0 <= i -> Z.testbit a i = true -> Z.testbit b i = false.
Proof. unfold any. rewrite negb_false_iff, Z.eqb_eq. apply land_zero. Qed.

(** [bits] proves inclusions of sets of bits. *)
Ltac bits_norm :=
  repeat match goal with
  | H : context [Z.testbit (without ?a ?b) ?i] |- _ => rewrite (without_bit a b i) in H by assumption
  | H : context [Z.testbit (Z.land ?a ?b) ?i] |- _ => rewrite (Z.land_spec a b i) in H
  | H : context [Z.testbit (Z.lor ?a ?b) ?i] |- _ => rewrite (Z.lor_spec a b i) in H
  | H : context [Z.testbit (Z.lnot ?a) ?i] |- _ => rewrite (Z.lnot_spec a i) in H by assumption
  | |- context [Z.testbit (without ?a ?b) ?i] => rewrite (without_bit a b i) by assumption
  | |- context [Z.testbit (Z.land ?a ?b) ?i] => rewrite (Z.land_spec a b i)
  | |- context [Z.testbit (Z.lor ?a ?b) ?i] => rewrite (Z.lor_spec a b i)
  | |- context [Z.testbit (Z.lnot ?a) ?i] => rewrite (Z.lnot_spec a i) by assumption
  end.
Ltac bits_cases :=
  repeat match goal with
  | H : context [Z.testbit ?a ?i] |- _ => destruct (Z.testbit a i); cbn [negb andb orb] in *
  | |- context [Z.testbit ?a ?i] => destruct (Z.testbit a i); cbn [negb andb orb] in *
  end.
Ltac bits :=
  repeat match goal with
  | H : _ ⊑ _ |- _ => revert H
  end; clear; intros;
  let i := fresh "i" in let Hi := fresh "Hi" in
  intros i Hi;
  repeat match goal with
  | H : _ ⊑ _ |- _ => specialize (H i Hi)
  end;
  bits_norm; bits_cases;
  repeat match goal with
  | H : true = true -> _ |- _ => specialize (H eq_refl)
  | H : false = true -> _ |- _ => clear H
  end; try discriminate; auto; try congruence.

(** ** Programs that may run out of fuel

    The loops that take locks in the wrong order start again when another thread
    has changed what they saw, so that they end only when other threads leave them
    alone.  [wpf] is total correctness but for that. *)
Section Wpf.
Context {S : Type}.

Definition wpf {A} (m : ST S A) (Q : A -> S -> Prop) (s : S) : Prop :=
  match m s with
  | Ret (a, s') => Q a s'
  | Fault OutOfFuel => True
  | _ => False
  end.

Lemma wpf_ret {A} (a : A) (Q : A -> S -> Prop) s : Q a s -> wpf (sret a) Q s.
Proof. done. Qed.
Lemma wpf_get (Q : S -> S -> Prop) s : Q s s -> wpf sget Q s.
Proof. done. Qed.
Lemma wpf_mod f (Q : unit -> S -> Prop) s : Q tt (f s) -> wpf (smod f) Q s.
Proof. done. Qed.
Lemma wpf_fuel {A} (Q : A -> S -> Prop) s : wpf (sfault OutOfFuel) Q s.
Proof. done. Qed.
Lemma wpf_lift {A} (o : outcome A) a (Q : A -> S -> Prop) s : o = Ret a -> Q a s -> wpf (slift o) Q s.
Proof. by intros ->. Qed.
Lemma wpf_bind {A B} (m : ST S A) (k : A -> ST S B) (Q : B -> S -> Prop) s :
  wpf m (fun a s' => wpf (k a) Q s') s -> wpf (sbind m k) Q s.
Proof. unfold wpf, sbind. by destruct (m s) as [[a s']| |[]]. Qed.
Lemma wpf_mono {A} (m : ST S A) (P Q : A -> S -> Prop) s : wpf m P s -> (forall a s', P a s' -> Q a s') -> wpf m Q s.
Proof. unfold wpf. destruct (m s) as [[a s']| |[]]; naive_solver. Qed.
Lemma wpf_assoc {A B C} (m : ST S A) (f : A -> ST S B) (k : B -> ST S C) (Q : C -> S -> Prop) s :
  wpf (sbind (sbind m f) k) Q s -> wpf (sbind m (fun a => sbind (f a) k)) Q s.
Proof. unfold wpf, sbind. by destruct (m s) as [[a s']| |]. Qed.
Lemma wpf_for {A} (l : list A) f (I : S -> Prop) (Q : unit -> S -> Prop) s :
  I s -> (forall s, I s -> Q tt s) -> (forall x s, x ∈ l -> I s -> wpf (f x) (fun _ s => I s) s) -> wpf (sfor l f) Q s.
Proof.
  intros HI HQ Hf. revert s HI. induction l as [|x l IH]; intros s HI; cbn [sfor]; [by apply wpf_ret, HQ|].
  apply wpf_bind. eapply wpf_mono; [apply Hf; [by left|done]|]. intros ? s'. apply IH. intros y s1 Hy. apply Hf. by right.
Qed.
End Wpf.

Ltac wpf_step :=
  lazymatch goal with
  | |- wpf (sbind _ _) _ _ => apply wpf_bind
  | |- wpf (sret _) _ _ => apply wpf_ret
  | |- wpf sget _ _ => apply wpf_get
  | |- wpf (smod _) _ _ => apply wpf_mod
  end; cbv beta.
Ltac wpf_steps := repeat wpf_step.

(** ** The caps of an inode *)
Section Map.
Context `{RbOps} `{CapXattrs}.

Definition all_ranks (m : Z) : Prop := True.
Definition caps_ordered (ci : ceph_inode_info) : Prop := ordered c_mds Z.lt all_ranks (ci_caps ci).
Definition cmap (ci : ceph_inode_info) : gmap Z ceph_cap := tree_map c_mds (ci_caps ci).

Lemma cap_cmp_lt m c : all_ranks m -> all_ranks (c_mds c) -> cap_cmp m c < 0 <-> m < c_mds c.
Proof. unfold cap_cmp. lia. Qed.
Lemma cap_cmp_gt m c : all_ranks m -> all_ranks (c_mds c) -> 0 < cap_cmp m c <-> c_mds c < m.
Proof. unfold cap_cmp. lia. Qed.

Lemma get_cap_cmap ci mds : caps_ordered ci -> __get_cap_for_mds ci mds = cmap ci !! mds.
Proof.
  intros Ho. unfold __get_cap_for_mds, cmap.
  by apply (lookup_refines c_mds Z.lt cap_cmp Z.lt_trichotomy all_ranks cap_cmp_lt cap_cmp_gt).
Qed.

Lemma cmap_in ci mds c : caps_ordered ci -> cmap ci !! mds = Some c <-> c ∈ inorder (ci_caps ci) /\ c_mds c = mds.
Proof. intros Ho. by apply (tree_map_lookup c_mds Z.lt all_ranks). Qed.

Lemma cmap_key ci mds c : caps_ordered ci -> cmap ci !! mds = Some c -> c_mds c = mds.
Proof. intros Ho. rewrite cmap_in by done. tauto. Qed.

Lemma put_cap_cmap ci c c0 :
  caps_ordered ci -> cmap ci !! c_mds c = Some c0 -> caps_ordered (put_cap c ci) /\ cmap (put_cap c ci) = <[c_mds c := c]> (cmap ci).
Proof.
  intros Ho Hc. unfold put_cap. rewrite <- get_cap_cmap in Hc by done. unfold __get_cap_for_mds in Hc.
  destruct (tree_lookup cap_cmp (ci_caps ci) (c_mds c)) as [[p c1]|] eqn:E; [|done]. cbn in Hc.
  apply (update_refines c_mds Z.lt cap_cmp Z.lt_trichotomy all_ranks cap_cmp_lt cap_cmp_gt) with (k := c_mds c) (v := c1); done.
Qed.

Lemma erase_cap_cmap ci mds :
  caps_ordered ci -> caps_ordered (erase_cap mds ci) /\ cmap (erase_cap mds ci) = delete mds (cmap ci).
Proof.
  intros Ho. unfold erase_cap. destruct (tree_lookup cap_cmp (ci_caps ci) mds) as [[p c1]|] eqn:E.
  - by apply (erase_refines c_mds Z.lt cap_cmp Z.lt_trichotomy all_ranks cap_cmp_lt cap_cmp_gt) with (v := c1).
  - split; [done|]. rewrite delete_id; [done|]. rewrite <- get_cap_cmap by done. unfold __get_cap_for_mds. by rewrite E.
Qed.

Lemma insert_cap_cmap ci c :
  caps_ordered ci -> cmap ci !! c_mds c = None ->
  exists ci', __insert_cap_node ci c = Ret ci' /\ caps_ordered ci' /\ cmap ci' = <[c_mds c := c]> (cmap ci) /\
    exists t, ci' = ci <| ci_caps := t |>.
Proof.
  intros Ho Hc. unfold __insert_cap_node.
  pose proof (insert_refines c_mds Z.lt cap_cmp Z.lt_trichotomy all_ranks cap_cmp_lt cap_cmp_gt (ci_caps ci) (c_mds c) c Ho I eq_refl) as Hi.
  unfold cmap in Hc. rewrite Hc in Hi. destruct Hi as (t & -> & Ht & Hm). by exists (ci <| ci_caps := t |>); repeat split; try apply Ht; try exists t.
Qed.
End Map.

(** ** The invariant *)
Section Inv.
Context `{RbOps} `{CapXattrs} `{Realms} `{!CapsEnv}.

(** Some cap implements the bit, or it belongs to a snapshot. *)
Definition holds (ci : ceph_inode_info) (i : Z) : Prop :=
  Z.testbit (ci_snap_caps ci) i = true \/ exists mds c, cmap ci !! mds = Some c /\ Z.testbit (c_implemented c) i = true.

(** [has]: the sessions there are; [dirtied]: the inode is in the list cap_dirty *)
Record inode_inv (has : Z -> Prop) (dirtied : bool) (ci : ceph_inode_info) : Prop := {
  iv_ordered : caps_ordered ci;
  iv_bits : forall mds c, cmap ci !! mds = Some c -> c_issued c ⊑ c_implemented c;
  iv_pin : forall mds c, cmap ci !! mds = Some c -> CEPH_CAP_PIN ⊑ c_issued c;
  iv_session : forall mds c, cmap ci !! mds = Some c -> has mds;
  iv_auth : forall mds, ci_auth_cap ci = Some mds -> is_Some (cmap ci !! mds);
  iv_used : forall i, 0 <= i -> Z.testbit (__ceph_caps_used ci) i = true -> holds ci i;
  iv_head : __ceph_caps_dirty ci <> 0 -> is_Some (ci_head_snapc ci);
  iv_dirty : dirtied = negb (ci_dirty_caps ci =? 0);
  iv_range : 0 <= ci_dirty_caps ci < 2 ^ 32;
  iv_item : forall mds, ci_flushing_item ci = Some mds -> has mds;
  iv_snaps : Forall (fun k => k_dirty k <> 0 /\ forall mds, k_flushing k = Some mds -> has mds) (ci_cap_snaps ci) }.

Definition has_session (s : caps_state) (mds : Z) : Prop := is_Some (cs_sessions s !! mds).
Definition inv (s : caps_state) : Prop :=
  forall ino ci, cs_inodes s !! ino = Some ci -> inode_inv (has_session s) (linked ino (cs_dirty s)) ci.

(** No cap is gone. *)
Definition more_caps (ci ci' : ceph_inode_info) : Prop := forall mds, is_Some (cmap ci !! mds) -> is_Some (cmap ci' !! mds).

Lemma more_caps_refl ci : more_caps ci ci.
Proof. by intros m. Qed.
#[local] Hint Resolve more_caps_refl : core.

(** A step keeps the invariant, the inodes, their caps, and the sessions. *)
Record keeps (s s' : caps_state) : Prop := {
  kp_inv : inv s';
  kp_inode : forall ino, is_Some (cs_inodes s !! ino) -> is_Some (cs_inodes s' !! ino);
  kp_caps : forall ino ci, cs_inodes s !! ino = Some ci -> exists ci', cs_inodes s' !! ino = Some ci' /\ more_caps ci ci';
  kp_session : forall mds, has_session s mds -> has_session s' mds }.

Lemma keeps_refl s : inv s -> keeps s s.
Proof. intros Hinv. split; [done|done| |done]. intros ino ci Hci. by exists ci. Qed.
Lemma keeps_trans s1 s2 s3 : keeps s1 s2 -> keeps s2 s3 -> keeps s1 s3.
Proof.
  intros [] [? ? Hc ?]. split; auto. intros ino ci (ci2 & (ci3 & Hci3 & Hm3)%Hc & Hm2)%kp_caps0. exists ci3. split; [done|]. intros m Hm. auto.
Qed.

(** ** What the invariant does not depend on *)
Definition vital (ci : ceph_inode_info) :=
  (ci_caps ci, ci_auth_cap ci, ci_dirty_caps ci, ci_flushing_caps ci, ci_flushing_item ci, ci_cap_snaps ci, ci_head_snapc ci, ci_snap_caps ci,
   __ceph_caps_used ci).

Lemma inode_inv_vital has d ci ci' : vital ci' = vital ci -> inode_inv has d ci -> inode_inv has d ci'.
Proof.
  unfold vital. intros [= E1 E2 E3 E4 E5 E6 E7 E8 E9]. intros [].
  split; unfold caps_ordered, holds, cmap, __ceph_caps_dirty in *; setoid_rewrite E1 || idtac; rewrite ?E1, ?E2, ?E3, ?E4, ?E5, ?E6, ?E7, ?E8, ?E9; done.
Qed.

Lemma inode_inv_has (has has' : Z -> Prop) d ci : (forall m, has m -> has' m) -> inode_inv has d ci -> inode_inv has' d ci.
Proof. intros Hh []. split; eauto. eapply Forall_impl; [done|]. cbn. intros k [? ?]. split; eauto. Qed.

Lemma keeps_set s ino ci ci' :
  inv s -> cs_inodes s !! ino = Some ci -> more_caps ci ci' -> inode_inv (has_session s) (linked ino (cs_dirty s)) ci' ->
  keeps s (s <| cs_inodes ::= insert ino ci' |>).
Proof.
  intros Hinv Hci Hm Hci'. split.
  - intros j cj. cbn. intros [[<- <-]|[Hne Hj]]%lookup_insert_Some; [done|]. by apply Hinv.
  - intros j Hj. cbn. destruct (decide (ino = j)) as [->|]; [by rewrite lookup_insert_eq|by rewrite lookup_insert_ne].
  - intros j cj Hj. cbn. destruct (decide (ino = j)) as [->|]; [rewrite lookup_insert_eq|rewrite lookup_insert_ne by done].
    + exists ci'. split; [done|]. by rewrite Hci in Hj; injection Hj as <-.
    + by exists cj.
  - done.
Qed.

(** A change of the state outside the inodes, the sessions and the dirty list *)
Lemma keeps_same s s' : inv s -> cs_inodes s' = cs_inodes s -> cs_sessions s' = cs_sessions s -> cs_dirty s' = cs_dirty s -> keeps s s'.
Proof. intros Hinv E1 E2 E3. split; unfold inv, has_session; rewrite ?E1, ?E2, ?E3; auto. intros ino ci Hci. by exists ci. Qed.

(** ** Primitives *)
Lemma wpf_get_ci ino s ci (Q : ceph_inode_info -> caps_state -> Prop) : cs_inodes s !! ino = Some ci -> Q ci s -> wpf (get_ci ino) Q s.
Proof. intros Hci HQ. unfold get_ci. wpf_steps. by rewrite Hci. Qed.

Lemma wpf_mod_ci ino s ci f (Q : unit -> caps_state -> Prop) :
  cs_inodes s !! ino = Some ci -> Q tt (s <| cs_inodes ::= insert ino (f ci) |>) -> wpf (mod_ci ino f) Q s.
Proof. intros Hci HQ. unfold mod_ci. apply wpf_bind. by apply (wpf_get_ci _ _ ci). Qed.

Lemma wpf_get_session m s x (Q : ceph_mds_session -> caps_state -> Prop) : cs_sessions s !! m = Some x -> Q x s -> wpf (get_session m) Q s.
Proof. intros Hx HQ. unfold get_session. wpf_steps. by rewrite Hx. Qed.

Lemma wpf_mod_session m s f (Q : unit -> caps_state -> Prop) :
  inv s -> has_session s m -> (forall x, keeps s (s <| cs_sessions ::= insert m x |>) -> Q tt (s <| cs_sessions ::= insert m x |>)) -> wpf (mod_session m f) Q s.
Proof.
  intros Hinv [x Hx] HQ. unfold mod_session. apply wpf_bind, (wpf_get_session _ _ x); [done|]. wpf_steps. apply HQ.
  assert (Hh : forall j, has_session s j -> has_session (s <| cs_sessions ::= insert m (f x) |>) j).
  { intros j Hj. unfold has_session. cbn. destruct (decide (m = j)) as [->|]; [by rewrite lookup_insert_eq|by rewrite lookup_insert_ne]. }
  split; [|done| |done].
  - intros ino ci Hci. eapply inode_inv_has; [exact Hh|]. by apply Hinv.
  - intros ino ci Hci. by exists ci.
Qed.

(** An operation on an inode keeps the invariant. *)
Definition safe {A} (ino : Z) (m : M A) : Prop :=
  forall s, inv s -> is_Some (cs_inodes s !! ino) -> wpf m (fun _ s' => keeps s s') s.

Lemma wpf_safe {A} ino (m : M A) s (Q : A -> caps_state -> Prop) :
  safe ino m -> inv s -> is_Some (cs_inodes s !! ino) -> (forall a s', keeps s s' -> Q a s') -> wpf m Q s.
Proof. intros Hm Hinv Hi HQ. eapply wpf_mono; [by apply Hm|done]. Qed.

Lemma safe_pure {A} ino (a : A) : safe ino (sret a).
Proof. intros s Hinv _. apply wpf_ret. by apply keeps_refl. Qed.

Lemma safe_fuel {A} ino : safe (A := A) ino (sfault OutOfFuel).
Proof. by intros s _ _. Qed.

Lemma safe_seq {A B} ino (m : M A) (k : A -> M B) : safe ino m -> (forall a, safe ino (k a)) -> safe ino (sbind m k).
Proof.
  intros Hm Hk s Hinv Hi. apply wpf_bind. apply (wpf_safe ino); [done|done|done|]. intros a s1 K1.
  apply (wpf_safe ino); [done|by apply K1|by apply K1|]. intros b s2 K2. by eapply keeps_trans.
Qed.

Lemma safe_if {A} ino (b : bool) (m1 m2 : M A) : safe ino m1 -> safe ino m2 -> safe ino (if b then m1 else m2).
Proof. by destruct b. Qed.

Lemma safe_get {A} ino (m : caps_state -> M A) : (forall s, safe ino (m s)) -> safe ino (sbind sget m).
Proof. intros Hm s Hinv Hi. wpf_steps. by apply Hm. Qed.

(** Reading an inode, and going on with it *)
Lemma safe_get_ci {A} ino (k : ceph_inode_info -> M A) :
  (forall s ci, inv s -> cs_inodes s !! ino = Some ci -> wpf (k ci) (fun _ s' => keeps s s') s) -> safe ino (sbind (get_ci ino) k).
Proof. intros Hk s Hinv [ci Hci]. apply wpf_bind, (wpf_get_ci _ _ ci); [done|]. by apply Hk. Qed.

Lemma safe_mod_vital ino f : (forall ci, vital (f ci) = vital ci) -> safe ino (mod_ci ino f).
Proof.
  intros Hf s Hinv [ci Hci]. apply (wpf_mod_ci _ _ ci); [done|]. eapply keeps_set; [done|done| |].
  - intros m. unfold cmap. by injection (Hf ci) as -> _.
  - eapply inode_inv_vital; [apply Hf|]. by apply Hinv.
Qed.

Lemma safe_mod_same ino f :
  (forall s, cs_inodes (f s) = cs_inodes s) -> (forall s, cs_sessions (f s) = cs_sessions s) -> (forall s, cs_dirty (f s) = cs_dirty s) ->
  safe ino (smod f).
Proof. intros H1' H2' H3' s Hinv _. wpf_steps. by apply keeps_same. Qed.

Lemma safe_send_cap_msg ino mds m : safe ino (send_cap_msg mds m).
Proof.
  intros s Hinv _. unfold send_cap_msg. wpf_steps. destruct (negb _); wpf_steps; by apply keeps_same.
Qed.

Lemma safe_queue_work ino w : safe ino (queue_work w).
Proof. by apply safe_mod_same. Qed.

Lemma safe_try_lock ino : safe ino try_lock.
Proof. intros s Hinv _. by apply (keeps_same s). Qed.

Lemma safe_set_timeouts ino : safe ino (__cap_set_timeouts ino).
Proof. apply safe_get. intros s. by apply safe_mod_vital. Qed.

Lemma safe_delay_requeue ino : safe ino (__cap_delay_requeue ino).
Proof.
  unfold __cap_delay_requeue. apply safe_seq; [apply safe_set_timeouts|]. intros _. apply safe_get. intros s0.
  apply safe_get_ci. intros s ci Hinv Hci. repeat case_match; wpf_steps; by apply keeps_same.
Qed.

Lemma safe_delay_cancel ino : safe ino (__cap_delay_cancel ino).
Proof. by apply safe_mod_same. Qed.

(** ** Other threads *)
Context (Hothers : forall n s, inv s -> keeps s (others n s)).
Context (Hpages : forall n, pages_left n 0 = 0).

Lemma safe_unlocked ino : safe ino unlocked.
Proof.
  intros s Hinv _. unfold unlocked. wpf_steps. set (s1 := s <| cs_unlocks ::= S |>).
  assert (keeps s s1) as K by (by apply keeps_same). eapply keeps_trans; [exact K|]. apply Hothers, K.
Qed.
End Inv.
