(* ===== verification/CapsSafe.v ===== *)
(** * Sending keeps what is used

    The functions of CapsFlush.v keep the invariant of CapsInv.v: they give up only
    bits that nobody uses. *)
From S2P Require Import Prelude.
From S2P Require Import RbTree.
From S2P Require Import StateM.
From S2P Require Import FileLayout.
From S2P Require Import CapPool.
From S2P Require Import Caps.
From S2P Require Import CapsFlush.
From S2P Require Import CapsRefs.
From S2P Require Import CapsMsg.
From S2P Require Import CapsInv.
From stdpp Require Import gmap.
#[local] Open Scope Z_scope.
#[local] Open Scope ceph_scope.
#[local] Open Scope st_scope.

Section Safe.
Context `{RbOps} `{CapXattrs} `{Realms} `{!CapsEnv}.

(** ** Changing a cap *)
Lemma put_cap_rest c ci :
  let ci' := put_cap c ci in
  ci_auth_cap ci' = ci_auth_cap ci /\ ci_dirty_caps ci' = ci_dirty_caps ci /\ ci_flushing_caps ci' = ci_flushing_caps ci /\
  ci_flushing_item ci' = ci_flushing_item ci /\ ci_cap_snaps ci' = ci_cap_snaps ci /\ ci_head_snapc ci' = ci_head_snapc ci /\
  ci_snap_caps ci' = ci_snap_caps ci /\ __ceph_caps_used ci' = __ceph_caps_used ci.
Proof. unfold put_cap. by destruct (tree_lookup _ _ _) as [[p c1]|]. Qed.

(** A cap may lose a bit that is used if another has it. *)
Lemma inv_put_cap has d ci c c0 :
  inode_inv has d ci -> cmap ci !! c_mds c = Some c0 -> c_issued c ⊑ c_implemented c -> CEPH_CAP_PIN ⊑ c_issued c ->
  (forall i, 0 <= i -> Z.testbit (__ceph_caps_used ci) i = true -> Z.testbit (c_implemented c0) i = true ->
     Z.testbit (c_implemented c) i = true \/ exists m c', m <> c_mds c /\ cmap ci !! m = Some c' /\ Z.testbit (c_implemented c') i = true) ->
  inode_inv has d (put_cap c ci).
Proof.
  intros Hiv Hc0 Hbits Hpin Hkeep. destruct (put_cap_cmap ci c c0) as [Ho Hm]; [apply Hiv|done|].
  destruct (put_cap_rest c ci) as (E1 & E2 & E3 & E4 & E5 & E6 & E7 & E8). destruct Hiv as [I1 I2 I3 I4 I5 I6 I7 I8 Ir I9 I10].
  assert (Hall : forall (P : Z -> ceph_cap -> Prop), P (c_mds c) c -> (forall m c', cmap ci !! m = Some c' -> P m c') ->
    forall m c', cmap (put_cap c ci) !! m = Some c' -> P m c').
  { intros P Hp Hr m c'. rewrite Hm. intros [[<- <-]|[_ Hl]]%lookup_insert_Some; auto. }
  split; unfold __ceph_caps_dirty in *; rewrite ?E1, ?E2, ?E3, ?E4, ?E5, ?E6; try done.
  - by apply (Hall (fun _ c => c_issued c ⊑ c_implemented c)).
  - by apply (Hall (fun _ c => CEPH_CAP_PIN ⊑ c_issued c)).
  - apply (Hall (fun m _ => has m)); [|done]. by apply (I4 _ c0).
  - intros m Hm'. rewrite Hm. destruct (decide (c_mds c = m)) as [->|]; [by rewrite lookup_insert_eq|]. rewrite lookup_insert_ne by done. by apply I5.
  - rewrite E8. intros i Hi Hu. unfold holds. rewrite E7, Hm. destruct (I6 i Hi Hu) as [?|(m & c' & Hc' & Hb)]; [by left|]. right.
    destruct (decide (m = c_mds c)) as [->|Hne].
    + rewrite Hc0 in Hc'. injection Hc' as <-. destruct (Hkeep i Hi Hu Hb) as [?|(m & c' & Hne & ? & ?)].
      * exists (c_mds c), c. by rewrite lookup_insert_eq.
      * exists m, c'. by rewrite lookup_insert_ne.
    + exists m, c'. by rewrite lookup_insert_ne.
Qed.

Lemma more_put_cap ci c c0 : caps_ordered ci -> cmap ci !! c_mds c = Some c0 -> more_caps ci (put_cap c ci).
Proof.
  intros Ho Hc m Hm. destruct (put_cap_cmap ci c c0 Ho Hc) as [_ ->].
  destruct (decide (c_mds c = m)) as [->|]; [by rewrite lookup_insert_eq|by rewrite lookup_insert_ne].
Qed.

(** The bits of a cap that others need not hold: the ones [__send_cap] is told are
    used, unless another cap has them. *)
Definition spared (ci : ceph_inode_info) (mds used : Z) : Prop :=
  forall i, 0 <= i -> Z.testbit (__ceph_caps_used ci) i = true -> Z.testbit used i = true \/
    exists m c, m <> mds /\ cmap ci !! m = Some c /\ Z.testbit (c_implemented c) i = true.

Context (Hothers : forall n s, inv s -> keeps s (others n s)).
Context (Hpages : forall n, pages_left n 0 = 0).

Lemma pin_land a : CEPH_CAP_PIN ⊑ a <-> Z.land a CEPH_CAP_PIN <> 0.
Proof.
  change CEPH_CAP_PIN with 1. split.
  - intros Hs E. apply land_zero with (i := 0) in E; [done|done|]. apply Hs; done.
  - intros Hne i Hi Hb. assert (i = 0) as ->.
    { destruct (decide (i = 0)); [done|]. rewrite (Z.bits_above_log2 1 i) in Hb; [done|lia|]. change (Z.log2 1) with 0. lia. }
    destruct (Z.testbit a 0) eqn:E; [done|]. destruct Hne. apply land_zero. intros j Hj Ha.
    destruct (decide (j = 0)) as [->|]; [congruence|]. apply Z.bits_above_log2; [lia|]. change (Z.log2 1) with 0. lia.
Qed.

Lemma wpf_send_cap ino mds op used want retain flushing s ci c :
  inv s -> cs_inodes s !! ino = Some ci -> cmap ci !! mds = Some c -> CEPH_CAP_PIN ⊑ retain ->
  (flushing <> 0 -> is_Some (ci_head_snapc ci)) -> spared ci mds used ->
  wpf (__send_cap ino mds op used want retain flushing) (fun _ s' => keeps s s') s.
Proof.
  intros Hinv Hci Hc Hpin Hhead Hsp. pose proof (Hinv _ _ Hci) as Hiv. pose proof (iv_ordered _ _ _ Hiv) as Ho.
  pose proof (cmap_key _ _ _ Ho Hc) as Hk. pose proof (iv_bits _ _ _ Hiv _ _ Hc) as Hb. pose proof (iv_pin _ _ _ Hiv _ _ Hc) as Hp.
  unfold __send_cap. apply wpf_bind, (wpf_get_ci _ _ ci); [done|]. rewrite get_cap_cmap, Hc by done. wpf_steps.
  set (retain1 := without retain _). assert (Hpin1 : CEPH_CAP_PIN ⊑ retain1) by (unfold retain1; bits).
  apply wpf_lift with tt. { rewrite (proj2 (Z.eqb_neq _ _)); [done|]. by apply pin_land. }
  set (delayed := negb _ && _). set (retain2 := if delayed then Z.lor retain1 _ else _).
  assert (Hpin2 : CEPH_CAP_PIN ⊑ retain2) by (unfold retain2; destruct delayed; [bits|done]).
  set (want' := if delayed then _ else want). set (issued := Z.land (c_issued c) retain2).
  assert (Hi1 : issued ⊑ c_issued c) by (unfold issued; bits). assert (Hi2 : CEPH_CAP_PIN ⊑ issued) by (unfold issued; bits).
  set (impl := Z.land (c_implemented c) _). assert (Hi3 : issued ⊑ impl) by (unfold impl; bits). set (cap' := c <| c_issued := issued |> <| c_implemented := impl |> <| c_mds_wanted := want' |>).
  set (ci1 := (put_cap cap' ci) <| ci_flags ::= _ |>). set (tid := u16 _).
  set (ci2 := if negb (flushing =? 0) then _ else ci1).
  assert (Hiv1 : inode_inv (has_session s) (linked ino (cs_dirty s)) (put_cap cap' ci)).
  { apply (inv_put_cap _ _ _ _ c).
    - done.
    - change (c_mds cap') with (c_mds c). by rewrite Hk.
    - exact Hi3.
    - exact Hi2.
    - intros i Hi Hu Hci0. change (c_implemented cap') with impl. change (c_mds cap') with (c_mds c). rewrite Hk.
      destruct (Hsp i Hi Hu) as [Hui|Hm]; [left|by right]. unfold impl. rewrite Z.land_spec, Z.lor_spec, Hci0, Hui, orb_true_r. done. }
  assert (Hhead2 : ci_head_snapc ci2 = ci_head_snapc ci).
  { destruct (put_cap_rest cap' ci) as (_ & _ & _ & _ & _ & E & _). unfold ci2, ci1. destruct (negb (flushing =? 0)); apply E. }
  apply wpf_bind. apply wpf_mono with (P := fun _ s' => s' = s).
  { destruct (Z.eqb_spec flushing 0); cbn [negb]; [by apply wpf_ret|]. rewrite Hhead2. destruct (Hhead n) as [sc ->]. by apply wpf_ret. }
  intros follows ? ->. cbv zeta. set (ci3 := ci2 <| ci_reported_size := _ |> <| ci_requested_max_size := _ |>).
  set (ci4 := if any flushing CEPH_CAP_XATTR_EXCL then _ else ci3).
  assert (Hv4 : vital ci4 = vital (put_cap cap' ci)) by (unfold ci4, ci3, ci2, ci1; by destruct (any flushing CEPH_CAP_XATTR_EXCL), (negb (flushing =? 0))).
  pose proof (inode_inv_vital _ _ _ _ Hv4 Hiv1) as Hiv4.
  assert (Hm4 : more_caps ci ci4).
  { intros m Hm. unfold cmap. injection Hv4 as -> _. apply (more_put_cap _ _ c); [done| |done]. change (c_mds cap') with (c_mds c). by rewrite Hk. }
  clearbody ci4. unfold set_ci. apply wpf_bind, wpf_mod. cbv beta.
  pose proof (keeps_set _ _ _ _ Hinv Hci Hm4 Hiv4) as K1.
  apply (wpf_safe ino); [|apply K1|apply K1; by eexists|intros ? s' K2; by eapply keeps_trans].
  apply safe_seq; [by apply safe_unlocked|]. intros _.
  apply safe_seq; [apply safe_send_cap_msg|]. intros ret. apply safe_seq; [|intros _; apply safe_pure].
  apply safe_if; [apply safe_queue_work|apply safe_pure].
Qed.

(** ** Dirty and flushing *)
Lemma linked_unlink ino j l : linked j (list_unlink ino l) = negb (j =? ino) && linked j l.
Proof.
  unfold linked, list_unlink. induction l as [|x l IH]; cbn; [by rewrite andb_false_r|].
  destruct (Z.eqb_spec x ino); cbn; rewrite IH; destruct (Z.eqb_spec j ino), (Z.eqb_spec j x); subst; try done; congruence.
Qed.

(** A change of one inode and of its place in the dirty list *)
Lemma keeps_inode s s' ino ci ci' :
  inv s -> cs_inodes s !! ino = Some ci -> cs_inodes s' = <[ino := ci']> (cs_inodes s) -> cs_sessions s' = cs_sessions s ->
  (forall j, j <> ino -> linked j (cs_dirty s') = linked j (cs_dirty s)) -> more_caps ci ci' ->
  inode_inv (has_session s) (linked ino (cs_dirty s')) ci' -> keeps s s'.
Proof.
  intros Hinv Hci E1 E2 Hd Hm Hci'. assert (Hh : forall m, has_session s m -> has_session s' m) by (intros m; unfold has_session; by rewrite E2).
  split; [|..].
  - intros j cj. rewrite E1. intros [[<- <-]|[Hne Hj]]%lookup_insert_Some; eapply inode_inv_has; eauto. rewrite Hd by done. by apply Hinv.
  - intros j Hj. rewrite E1. destruct (decide (ino = j)) as [->|]; [by rewrite lookup_insert_eq|by rewrite lookup_insert_ne].
  - intros j cj Hj. rewrite E1. destruct (decide (ino = j)) as [->|]; [rewrite lookup_insert_eq|rewrite lookup_insert_ne by done].
    + exists ci'. split; [done|]. by rewrite Hci in Hj; injection Hj as <-.
    + exists cj. split; [done|by intros m].
  - done.
Qed.

(** What the senders look at is as before. *)
Definition same_caps (ci ci' : ceph_inode_info) : Prop :=
  ci_caps ci' = ci_caps ci /\ ci_auth_cap ci' = ci_auth_cap ci /\ ci_head_snapc ci' = ci_head_snapc ci /\ ci_snap_caps ci' = ci_snap_caps ci /\
  __ceph_caps_used ci' = __ceph_caps_used ci.

Lemma wpf_move_flushing ino mds s ci :
  inv s -> cs_inodes s !! ino = Some ci -> has_session s mds ->
  wpf (move_flushing ino mds) (fun _ s' => keeps s s' /\ exists ci', cs_inodes s' !! ino = Some ci' /\ same_caps ci ci' /\
    ci_flushing_caps ci' = ci_flushing_caps ci) s.
Proof.
  intros Hinv Hci Hm. unfold move_flushing. apply wpf_bind, (wpf_get_ci _ _ ci); [done|].
  apply wpf_bind. apply wpf_mono with (P := fun _ s' => keeps s s' /\ cs_inodes s' = cs_inodes s).
  { destruct (ci_flushing_item ci) as [old|] eqn:E; [|apply wpf_ret; split; [by apply keeps_refl|done]].
    apply wpf_mod_session; [done|by apply (iv_item _ _ _ (Hinv _ _ Hci))|]. by intros x K. }
  intros _ s1 [K1 E1]. apply wpf_bind. apply wpf_mod_session; [apply K1|by apply K1|]. intros x K2.
  set (s2 := s1 <| cs_sessions ::= insert mds x |>) in *. assert (Hci2 : cs_inodes s2 !! ino = Some ci) by (cbn; by rewrite E1).
  apply (wpf_mod_ci _ _ ci); [done|]. split.
  - eapply keeps_trans; [exact K1|]. eapply keeps_trans; [exact K2|]. eapply keeps_set; [apply K2|done|by intros m|].
    pose proof (kp_inv _ _ K2 _ _ Hci2) as Hiv. destruct Hiv. split; try done. intros m [= <-]. apply K2. by apply K1.
  - eexists. split; [cbn; by rewrite lookup_insert_eq|]. done.
Qed.

Lemma wpf_mark_flushing ino mds s ci :
  inv s -> cs_inodes s !! ino = Some ci -> has_session s mds -> ci_dirty_caps ci <> 0 ->
  wpf (__mark_caps_flushing ino mds) (fun f s' => f = s32 (ci_dirty_caps ci) /\ keeps s s' /\
    exists ci', cs_inodes s' !! ino = Some ci' /\ same_caps ci ci') s.
Proof.
  intros Hinv Hci Hm Hd. pose proof (Hinv _ _ Hci) as Hiv. unfold __mark_caps_flushing.
  apply wpf_bind, (wpf_get_ci _ _ ci); [done|]. wpf_steps. apply wpf_lift with tt; [by rewrite (proj2 (Z.eqb_neq _ _)) by done|].
  wpf_steps. apply wpf_lift with tt. { rewrite (iv_dirty _ _ _ Hiv), (proj2 (Z.eqb_neq _ _)) by done. done. }
  apply wpf_bind, (wpf_mod_ci _ _ ci); [done|]. wpf_steps. cbv zeta.
  set (ci1 := ci <| ci_flushing_caps ::= _ |> <| ci_dirty_caps := 0 |> <| ci_cap_flush_seq := _ |>).
  set (s1 := s <| cs_inodes ::= insert ino ci1 |> <| cs_dirty ::= list_unlink ino |> <| cs_flush_seq := _ |>).
  assert (K1 : keeps s s1).
  { apply (keeps_inode _ _ ino ci ci1); [done|done|done|done| |by intros m|].
    - intros j Hj. change (cs_dirty s1) with (list_unlink ino (cs_dirty s)). rewrite linked_unlink, (proj2 (Z.eqb_neq _ _)) by done. done.
    - change (cs_dirty s1) with (list_unlink ino (cs_dirty s)). rewrite linked_unlink, Z.eqb_refl. cbn [negb andb].
      destruct Hiv as [I1 I2 I3 I4 I5 I6 I7 I8 Ir I9 I10]. split; try done. intros _. apply I7. unfold __ceph_caps_dirty. intros E%Z.lor_eq_0_iff. tauto. }
  assert (Hci1 : cs_inodes s1 !! ino = Some ci1) by (cbn; by rewrite lookup_insert_eq). clearbody s1.
  apply wpf_mono with (P := fun _ s' => keeps s1 s' /\ cs_inodes s' = cs_inodes s1).
  { destruct (ci_flushing_item ci); wpf_steps; (split; [|done]); by apply keeps_same; try apply K1. }
  intros _ s2 [K2 E2]. apply wpf_bind. rewrite <- E2 in Hci1. eapply wpf_mono.
  { apply (wpf_move_flushing ino mds s2 ci1); [apply K2|done|by apply K2, K1]. }
  cbv beta. intros _ s3 (K3 & ci3 & Hci3 & Hs3 & _). apply wpf_ret. split; [done|]. split; [eauto using keeps_trans|].
  exists ci3. split; [done|]. destruct Hs3 as (? & ? & ? & ? & ?). repeat split; etransitivity; eauto.
Qed.

(** ** Cap snapshots *)
Lemma next_snap_ok l auth again nf :
  Forall (fun k => k_dirty k <> 0) l -> exists n, next_snap l auth again nf = Ret n /\ forall k, n = SendSnap k -> k ∈ l /\ auth = true.
Proof.
  induction 1 as [|k l Hk Hl (n & IH & Hn)]; cbn [next_snap]; [by exists SnapsDone|].
  assert (Hrec : exists n0, next_snap l auth again nf = Ret n0 /\ forall k0, n0 = SendSnap k0 -> k0 ∈ k :: l /\ auth = true).
  { exists n. split; [done|]. intros k0 E. destruct (Hn k0 E). split; [by right|done]. }
  destruct (_ <? _); [done|]. destruct (negb _ || _); [by exists SnapsDone|]. rewrite (proj2 (Z.eqb_neq _ _)) by done. cbn.
  destruct auth; cbn [negb]; [|by exists NoAuth]. destruct (negb again && _); [done|]. exists (SendSnap k). split; [done|].
  intros k0 [= <-]. split; [by left|done].
Qed.

Lemma keeps_mod_snap s ino ci id f :
  inv s -> cs_inodes s !! ino = Some ci -> (forall k, k_dirty (f k) = k_dirty k) -> (forall k, k_flushing (f k) = k_flushing k) ->
  keeps s (s <| cs_inodes ::= insert ino (ci <| ci_cap_snaps ::= map (fun k => if (k_id k =? id)%nat then f k else k) |>) |>).
Proof.
  intros Hinv Hci Hf1 Hf2. eapply keeps_set; [done|done|by intros m|].
  destruct (Hinv _ _ Hci) as [I1 I2 I3 I4 I5 I6 I7 I8 Ir I9 I10]. split; try done.
  cbn. rewrite Forall_map. eapply Forall_impl; [exact I10|]. cbn. intros k [Hk1 Hk2]. destruct (_ =? _)%nat; [|done].
  rewrite Hf1, Hf2. done.
Qed.

Lemma wpf_send_cap_snap ino mds mseq k s :
  inv s -> is_Some (cs_inodes s !! ino) -> has_session s mds -> (forall m, k_flushing k = Some m -> has_session s m) ->
  wpf (send_cap_snap ino mds mseq k) (fun _ s' => keeps s s') s.
Proof.
  intros Hinv Hi Hm Hk. unfold send_cap_snap. destruct Hi as [ci Hci]. apply wpf_bind, (wpf_get_ci _ _ ci); [done|]. cbv zeta.
  apply wpf_bind. apply (wpf_safe ino); [by apply safe_mod_vital|done|by eexists|]. intros _ s1 K1.
  apply wpf_bind. apply wpf_mono with (P := fun _ s' => keeps s1 s').
  { unfold unlink_flushing_snap. destruct (k_flushing k) as [m|]; [|by apply wpf_ret, keeps_refl, K1].
    apply wpf_mod_session; [apply K1|by apply K1, Hk|]. by intros x K. }
  intros _ s2 K2. apply wpf_bind. apply wpf_mod_session; [apply K2|by apply K2, K1|]. intros x K3.
  set (s3 := s2 <| cs_sessions ::= insert mds x |>) in *. clearbody s3.
  assert (K : keeps s s3) by eauto using keeps_trans. apply wpf_bind.
  apply wpf_mono with (P := fun _ s' => keeps s3 s').
  { destruct (kp_inode _ _ K ino) as [ci3 Hci3]; [by eexists|]. unfold mod_snap. apply (wpf_mod_ci _ _ ci3); [done|].
    eapply keeps_set; [apply K|done|by intros m|]. destruct (kp_inv _ _ K _ _ Hci3) as [I1 I2 I3 I4 I5 I6 I7 I8 Ir I9 I10]. split; try done.
    cbn. rewrite Forall_map. eapply Forall_impl; [exact I10|]. cbn. intros k' [Hk1 Hk2]. destruct (_ =? _)%nat; [|done].
    split; [done|]. cbn. intros m [= <-]. by apply K. }
  intros _ s4 K4. assert (K' : keeps s s4) by eauto using keeps_trans.
  apply (wpf_safe ino); [|apply K'|apply K'; by eexists|intros ? s5 K5; by eapply keeps_trans].
  apply safe_seq; [by apply safe_unlocked|]. intros _. apply safe_seq; [apply safe_send_cap_msg|]. intros _. apply safe_pure.
Qed.

Lemma auth_cap_cmap ci : caps_ordered ci -> auth_cap ci = match ci_auth_cap ci with Some m => cmap ci !! m | None => None end.
Proof. intros Ho. unfold auth_cap. destruct (ci_auth_cap ci); [by apply get_cap_cmap|done]. Qed.

Lemma auth_cap_lookup has d ci a : inode_inv has d ci -> auth_cap ci = Some a -> cmap ci !! c_mds a = Some a /\ ci_auth_cap ci = Some (c_mds a) /\ has (c_mds a).
Proof.
  intros Hiv. rewrite auth_cap_cmap by apply Hiv. destruct (ci_auth_cap ci) as [m|]; [|done]. intros Hm.
  rewrite (cmap_key _ _ _ (iv_ordered _ _ _ Hiv) Hm) in *. split; [done|]. split; [done|]. by eapply iv_session.
Qed.

Lemma safe_flush_snaps_loop fuel ino again session nf : safe ino (flush_snaps_loop fuel ino again session nf).
Proof.
  revert session nf. induction fuel as [|fuel IH]; intros session nf; cbn [flush_snaps_loop]; apply safe_get_ci; intros s ci Hinv Hci;
    pose proof (Hinv _ _ Hci) as Hiv; pose proof (iv_snaps _ _ _ Hiv) as Hsn.
  all: apply wpf_bind; destruct (next_snap_ok (ci_cap_snaps ci) (bool_decide (is_Some (auth_cap ci))) again nf) as (n & Hn & Hk);
    [eapply Forall_impl; [exact Hsn|]; by intros k []|apply wpf_lift with n; [done|]].
  all: assert (Hdone : forall v, wpf (sbind (smod (fun s => s <| cs_snap_flush ::= list_unlink ino |>)) (fun _ => sret (v : option Z))) (fun _ s' => keeps s s') s)
    by (intros v; wpf_steps; by apply keeps_same).
  all: destruct n as [k| |]; [destruct (auth_cap ci) as [cap|] eqn:Ea; [|by apply Hdone]|by apply Hdone|by apply wpf_ret, keeps_refl].
  - apply wpf_fuel.
  - destruct (Hk k eq_refl) as [Hin _]. rewrite Forall_forall in Hsn. destruct (Hsn _ Hin) as [_ Hfl].
    destruct (auth_cap_lookup _ _ _ _ Hiv Ea) as (_ & _ & Hs). destruct (bool_decide (session = Some (c_mds cap))).
    + apply wpf_bind. eapply wpf_mono; [by apply wpf_send_cap_snap; [|eexists| |]|]. cbv beta. intros _ s1 K1.
      apply (wpf_safe ino); [apply IH|apply K1|apply K1; by eexists|]. intros ? s2 K2. by eapply keeps_trans.
    + apply (wpf_safe ino); [|done|by eexists|done]. apply safe_seq; [by apply safe_unlocked|]. intros _. apply safe_get. intros s1. apply IH.
Qed.

Lemma safe_flush_snaps ino session again : safe ino (__ceph_flush_snaps ino session again).
Proof. apply safe_get_ci. intros s ci Hinv Hci. apply safe_flush_snaps_loop; [done|by eexists]. Qed.

(** ** Fewer references *)
Definition vital_but_used (ci : ceph_inode_info) :=
  (ci_caps ci, ci_auth_cap ci, ci_dirty_caps ci, ci_flushing_caps ci, ci_flushing_item ci, ci_cap_snaps ci, ci_head_snapc ci, ci_snap_caps ci).

(** References may be dropped, and taken to what the inode holds. *)
Lemma inode_inv_used has d ci ci' :
  vital_but_used ci' = vital_but_used ci ->
  (forall i, 0 <= i -> Z.testbit (__ceph_caps_used ci') i = true -> Z.testbit (__ceph_caps_used ci) i = true \/ holds ci i) ->
  inode_inv has d ci -> inode_inv has d ci'.
Proof.
  unfold vital_but_used. intros [= E1 E2 E3 E4 E5 E6 E7 E8] Hu [I1 I2 I3 I4 I5 I6 I7 I8 Ir I9 I10].
  assert (Em : cmap ci' = cmap ci) by (unfold cmap; by rewrite E1).
  split; unfold caps_ordered, __ceph_caps_dirty in *; rewrite ?E1, ?Em, ?E2, ?E3, ?E4, ?E5, ?E6, ?E7; try done.
  intros i Hi Hb. unfold holds. rewrite E8, Em. by destruct (Hu i Hi Hb) as [?%I6|?].
Qed.

Lemma or_all_bit l i : Z.testbit (or_all l) i = existsb (fun m => Z.testbit m i) l.
Proof. unfold or_all. induction l as [|m l IH]; cbn; [apply Z.bits_0|]. by rewrite Z.lor_spec, IH. Qed.

Lemma zero_bit (b : bool) m i : Z.testbit (if b then 0 else m) i = negb b && Z.testbit m i.
Proof. destruct b; cbn [negb andb]; [apply Z.bits_0|done]. Qed.

Lemma used_bit ci i : Z.testbit (__ceph_caps_used ci) i =
  (negb (ci_pin_ref ci =? 0) && Z.testbit CEPH_CAP_PIN i) || (negb (ci_rd_ref ci =? 0) && Z.testbit CEPH_CAP_FILE_RD i) ||
  (negb ((ci_rdcache_ref ci =? 0) && (vi_nrpages ci =? 0)) && Z.testbit CEPH_CAP_FILE_CACHE i) ||
  (negb (ci_wr_ref ci =? 0) && Z.testbit CEPH_CAP_FILE_WR i) ||
  (negb ((ci_wb_ref ci =? 0) && (ci_wrbuffer_ref ci =? 0)) && Z.testbit CEPH_CAP_FILE_BUFFER i).
Proof. unfold __ceph_caps_used. rewrite or_all_bit. cbn [existsb]. rewrite !zero_bit, orb_false_r, !orb_assoc. done. Qed.

Lemma used_sub ci ci' :
  (ci_pin_ref ci = 0 -> ci_pin_ref ci' = 0) -> (ci_rd_ref ci = 0 -> ci_rd_ref ci' = 0) ->
  (ci_rdcache_ref ci = 0 -> vi_nrpages ci = 0 -> ci_rdcache_ref ci' = 0 /\ vi_nrpages ci' = 0) ->
  (ci_wr_ref ci = 0 -> ci_wr_ref ci' = 0) ->
  (ci_wb_ref ci = 0 -> ci_wrbuffer_ref ci = 0 -> ci_wb_ref ci' = 0 /\ ci_wrbuffer_ref ci' = 0) ->
  __ceph_caps_used ci' ⊑ __ceph_caps_used ci.
Proof.
  intros H1' H2' H3' H4' H5' i Hi. rewrite !used_bit.
  generalize (Z.testbit CEPH_CAP_PIN i), (Z.testbit CEPH_CAP_FILE_RD i), (Z.testbit CEPH_CAP_FILE_CACHE i), (Z.testbit CEPH_CAP_FILE_WR i), (Z.testbit CEPH_CAP_FILE_BUFFER i).
  intros b1 b2 b3 b4 b5 Hb.
  repeat match type of Hb with _ || _ = true => apply orb_true_iff in Hb as [Hb|Hb] end;
    apply andb_true_iff in Hb as [Hb ->]; rewrite ?andb_true_r.
  - destruct (Z.eqb_spec (ci_pin_ref ci) 0) as [E|]; [rewrite (H1' E) in Hb; done|done].
  - destruct (Z.eqb_spec (ci_rd_ref ci) 0) as [E|]; [rewrite (H2' E) in Hb; done|]. by rewrite !orb_true_r.
  - destruct ((ci_rdcache_ref ci =? 0) && (vi_nrpages ci =? 0)) eqn:E; [|by rewrite !orb_true_r].
    apply andb_true_iff in E as [E1%Z.eqb_eq E2%Z.eqb_eq]. destruct (H3' E1 E2) as [E3 E4]. by rewrite E3, E4 in Hb.
  - destruct (Z.eqb_spec (ci_wr_ref ci) 0) as [E|]; [rewrite (H4' E) in Hb; done|]. by rewrite !orb_true_r.
  - destruct ((ci_wb_ref ci =? 0) && (ci_wrbuffer_ref ci =? 0)) eqn:E; [|by rewrite !orb_true_r].
    apply andb_true_iff in E as [E1%Z.eqb_eq E2%Z.eqb_eq]. destruct (H5' E1 E2) as [E3 E4]. by rewrite E3, E4 in Hb.
Qed.

Lemma safe_invalidate ino : safe ino (try_nonblocking_invalidate ino).
Proof.
  unfold try_nonblocking_invalidate. apply safe_get_ci. intros s ci Hinv Hci. wpf_steps.
  apply (wpf_mod_ci _ _ ci); [done|]. set (ci1 := ci <| vi_nrpages ::= _ |>).
  assert (K1 : keeps s (s <| cs_inodes ::= insert ino ci1 |>)).
  { eapply keeps_set; [done|done|by intros m|]. apply (inode_inv_used _ _ ci); [done| |by apply Hinv]. intros i Hi Hu. left. revert i Hi Hu.
    apply used_sub; try done. intros E1 E2. split; [done|]. change (pages_left (cs_unlocks s) (vi_nrpages ci) = 0). rewrite E2. apply Hpages. }
  set (s1 := s <| cs_inodes ::= _ |>) in *. clearbody s1.
  apply (wpf_safe ino); [|apply K1|apply K1; by eexists|intros ? s2 K2; by eapply keeps_trans].
  apply safe_seq; [by apply safe_unlocked|]. intros _. apply safe_get_ci. intros s2 ci2 Hinv2 Hci2.
  apply (wpf_safe ino); [|done|by eexists|done]. apply safe_if; [|apply safe_pure].
  apply safe_seq; [by apply safe_mod_vital|]. intros _. apply safe_pure.
Qed.

(** ** ceph_check_caps *)
Lemma safe_check_invalidate ino revoking k : safe ino (check_invalidate ino revoking k).
Proof.
  unfold check_invalidate. apply safe_seq; [apply safe_invalidate|]. intros r. apply safe_if; [|apply safe_pure].
  apply safe_if; (apply safe_seq; [|intros _; apply safe_pure]); [by apply safe_mod_vital|apply safe_set_timeouts].
Qed.

Lemma safe_check_finish ino d n k : safe ino (check_finish ino d n k).
Proof.
  unfold check_finish. apply safe_seq; [|intros _; apply safe_if; [apply safe_queue_work|apply safe_pure]].
  repeat apply safe_if; auto using safe_delay_cancel, safe_delay_requeue, safe_pure.
Qed.

Lemma wpf_take_locks ino cap k s :
  inv s -> is_Some (cs_inodes s !! ino) ->
  wpf (take_locks cap k) (fun r s' => keeps s s' /\ (fst r = true -> cs_inodes s' = cs_inodes s)) s.
Proof.
  intros Hinv Hi. unfold take_locks.
  assert (Htry : forall (b : bool) s, inv s -> wpf (if b then sret true else try_lock) (fun _ s' => keeps s s' /\ cs_inodes s' = cs_inodes s) s).
  { intros b s0 Hinv0. destruct b; [apply wpf_ret; split; [by apply keeps_refl|done]|]. split; [by apply keeps_same|done]. }
  assert (Hdrop : forall s1 (k' : check), keeps s s1 -> wpf (sbind unlocked (fun _ => sret (false, k'))) (fun r s' => keeps s s' /\ (fst r = true -> cs_inodes s' = cs_inodes s)) s1).
  { intros s1 k' K1. apply wpf_bind, (wpf_safe ino); [by apply safe_unlocked|apply K1|by apply K1|]. intros _ s2 K2. apply wpf_ret.
    split; [by eapply keeps_trans|done]. }
  apply wpf_bind. eapply wpf_mono; [by apply Htry|]. cbv beta. intros ok s1 [K1 E1]. destruct ok; cbn [negb]; [|by apply Hdrop].
  cbv zeta. apply wpf_bind. eapply wpf_mono; [apply Htry; apply K1|]. cbv beta. intros ok s2 [K2 E2].
  destruct ok; cbn [negb]; [|apply Hdrop; by eapply keeps_trans]. apply wpf_ret. split; [by eapply keeps_trans|]. intros _. congruence.
Qed.

Lemma scan_caps_in now flags mds d ci used want retain l n m cap :
  scan_caps now flags mds d ci used want retain l n = (m, Some cap) -> cap ∈ l /\ mds < c_mds cap.
Proof.
  revert n. induction l as [|c l IH]; intros n; cbn [scan_caps]; [done|].
  assert (Hrec : forall n, scan_caps now flags mds d ci used want retain l n = (m, Some cap) -> cap ∈ c :: l /\ mds < c_mds cap)
    by (intros n' [??]%IH; split; [by right|done]).
  destruct (Z.leb_spec (c_mds c) mds); cbn [orb]; [apply Hrec|]. destruct (_ && _); [apply Hrec|]. destruct (check_cap _ _ _ _ _ _ _ _); try apply Hrec.
  destruct (any _ _); [apply Hrec|]. intros [= <- <-]. split; [by left|done].
Qed.

Lemma sub_lor_l p a b : p ⊑ a -> p ⊑ Z.lor a b.
Proof. intros. bits. Qed.

Lemma retain_pin b ci want : CEPH_CAP_PIN ⊑ caps_to_retain b ci want.
Proof.
  assert (Hp : CEPH_CAP_PIN ⊑ Z.lor want CEPH_CAP_PIN) by bits.
  unfold caps_to_retain. repeat case_match; repeat (exact Hp || apply sub_lor_l).
Qed.

(** The bits [ceph_check_caps] does not count as used by a cap are those of the
    auth cap. *)
Definition used_by (ci : ceph_inode_info) (cap : ceph_cap) : Z :=
  match auth_cap ci with Some a => if is_auth ci cap then __ceph_caps_used ci else without (__ceph_caps_used ci) (c_issued a) | None => __ceph_caps_used ci end.

Lemma spared_used_by has d ci cap : inode_inv has d ci -> cmap ci !! c_mds cap = Some cap -> spared ci (c_mds cap) (used_by ci cap).
Proof.
  intros Hiv Hc i Hi Hu. unfold used_by. destruct (auth_cap ci) as [a|] eqn:Ea; [|by left].
  destruct (auth_cap_lookup _ _ _ _ Hiv Ea) as (Ha & Hauth & _). unfold is_auth. rewrite Hauth.
  destruct (Z.eqb_spec (c_mds a) (c_mds cap)); [by left|]. rewrite without_bit, Hu by done. cbn [andb].
  destruct (Z.testbit (c_issued a) i) eqn:E; [right|by left]. exists (c_mds a), a. split; [done|]. split; [done|].
  by apply (iv_bits _ _ _ Hiv _ _ Ha).
Qed.

Lemma spared_same ci ci' mds used : same_caps ci ci' -> spared ci mds used -> spared ci' mds used.
Proof.
  intros (E1 & E2 & E3 & E4 & E5) Hsp i Hi. rewrite E5. intros Hu. unfold cmap. rewrite E1. by apply Hsp.
Qed.

Lemma wpf_ack ino s ci cap want retain :
  inv s -> cs_inodes s !! ino = Some ci -> cap ∈ inorder (ci_caps ci) -> CEPH_CAP_PIN ⊑ retain ->
  wpf (flushing ↢ (if is_auth ci cap && negb (ci_dirty_caps ci =? 0) then __mark_caps_flushing ino (c_mds cap) else sret 0);
       __send_cap ino (c_mds cap) CEPH_CAP_OP_UPDATE (used_by ci cap) want retain flushing) (fun _ s' => keeps s s') s.
Proof.
  intros Hinv Hci Hin Hpin. pose proof (Hinv _ _ Hci) as Hiv.
  assert (Hc : cmap ci !! c_mds cap = Some cap) by (apply cmap_in; [apply Hiv|done]). apply wpf_bind.
  apply wpf_mono with (P := fun f s' => keeps s s' /\ exists ci', cs_inodes s' !! ino = Some ci' /\ same_caps ci ci' /\ (f <> 0 -> is_Some (ci_head_snapc ci'))).
  { destruct (is_auth ci cap && negb (ci_dirty_caps ci =? 0)) eqn:E.
    - apply andb_true_iff in E as [_ E%negb_true_iff%Z.eqb_neq]. eapply wpf_mono; [apply (wpf_mark_flushing ino _ s ci); [done|done| |done]|].
      + by apply (iv_session _ _ _ Hiv _ _ Hc).
      + cbv beta. intros f s' (-> & K & ci' & Hci' & Hs). split; [done|]. exists ci'. split; [done|]. split; [done|]. intros _.
        destruct Hs as (_ & _ & -> & _). apply (iv_head _ _ _ Hiv). unfold __ceph_caps_dirty. intros [? ?]%Z.lor_eq_0_iff. done.
    - apply wpf_ret. split; [by apply keeps_refl|]. exists ci. done. }
  intros f s1 (K1 & ci1 & Hci1 & Hs1 & Hhead). pose proof Hs1 as (E1 & _). eapply wpf_mono.
  { apply (wpf_send_cap ino (c_mds cap) _ _ _ _ _ s1 ci1 cap); [apply K1|done| |done|done|].
    - unfold cmap. by rewrite E1.
    - eapply spared_same; [done|]. by eapply spared_used_by. }
  cbv beta. intros _ s2 K2. by eapply keeps_trans.
Qed.

Lemma safe_check_loop fuel ino flags d k : safe ino (check_loop fuel ino flags d k).
Proof.
  revert k. induction fuel as [|fuel IH]; intros k; cbn [check_loop]; apply safe_get_ci; intros s ci Hinv Hci; wpf_steps;
    destruct (__ceph_caps_issued s ci) as [issued implemented]; cbv zeta; set (retain := caps_to_retain _ _ _); set (inval := _ && negb (k_tried_invalidate k)).
  all: destruct inval; [|destruct (scan_caps _ _ _ _ _ _ _ _ _ _) as [n [cap|]] eqn:Es; [|by apply safe_check_finish; [|eexists]]].
  1, 2: apply wpf_fuel.
  - apply (wpf_safe ino); [|done|by eexists|done]. apply safe_seq; [apply safe_check_invalidate|]. intros k'. apply IH.
  - apply scan_caps_in in Es as [Hin _]. apply wpf_bind. eapply wpf_mono; [by apply (wpf_take_locks ino); [|eexists]|].
    cbv beta. intros [ok k'] s1 [K1 E1]. destruct ok; cbn [negb].
    + specialize (E1 eq_refl). assert (Hci1 : cs_inodes s1 !! ino = Some ci) by (by rewrite E1).
      apply (wpf_assoc _ (fun f => __send_cap ino (c_mds cap) CEPH_CAP_OP_UPDATE (used_by ci cap)
        (Z.lor (__ceph_caps_file_wanted ci) (__ceph_caps_used ci)) retain f)).
      apply wpf_bind. eapply wpf_mono; [apply (wpf_ack ino s1 ci cap); [apply K1|done|done|apply retain_pin]|].
      cbv beta. intros [dl tid] s2 K2. assert (K : keeps s s2) by eauto using keeps_trans.
      apply (wpf_safe ino); [apply IH|apply K|apply K; by eexists|]. intros ? s3 K3. by eapply keeps_trans.
    + apply (wpf_safe ino); [apply IH|apply K1|apply K1; by eexists|]. intros ? s2 K2. by eapply keeps_trans.
Qed.

Lemma safe_check_caps ino flags session : safe ino (ceph_check_caps ino flags session).
Proof.
  unfold ceph_check_caps. apply safe_get. intros s0. apply safe_get_ci. intros s ci Hinv Hci. cbv zeta.
  apply (wpf_safe ino); [|done|by eexists|done]. apply safe_seq; [destruct (ci_cap_snaps ci); [apply safe_pure|apply safe_flush_snaps]|].
  intros session'. apply safe_get_ci. intros s1 ci1 Hinv1 Hci1. apply safe_check_loop; [done|by eexists].
Qed.
End Safe.
