(* ===== verification/CapsTrace.v ===== *)
(** * Sequences of cap operations

    Every operation on an inode, among other threads that do the same, keeps the
    invariant of CapsInv.v: flushes, references, open files, releases in requests,
    and messages from the MDS. *)
From S2P Require Import Prelude.
From S2P Require Import RbTree.
From S2P Require Import StateM.
From S2P Require Import FileLayout.
From S2P Require Import CapPool.
From S2P Require Import Caps.
From S2P Require Import CapsFlush.
From S2P Require Import CapsRefs.
From S2P Require Import CapsMsg.
From S2P Require Import CapsInv.
From S2P Require Import CapsSafe.
From stdpp Require Import gmap.
#[local] Open Scope Z_scope.
#[local] Open Scope ceph_scope.
#[local] Open Scope st_scope.

Section Trace.
Context `{RbOps} `{CapXattrs} `{Realms} `{!CapsEnv}.
Context (Hothers : forall n s, inv s -> keeps s (others n s)).
Context (Hpages : forall n, pages_left n 0 = 0).

Lemma spared_used ci mds : spared ci mds (__ceph_caps_used ci).
Proof. intros i Hi Hu. by left. Qed.

Lemma sub_pin_held has d ci mds c : inode_inv has d ci -> cmap ci !! mds = Some c -> CEPH_CAP_PIN ⊑ Z.lor (c_issued c) (c_implemented c).
Proof. intros Hiv Hc. apply sub_lor_l. by eapply iv_pin. Qed.

(** After a safe operation the rest runs from a state with the invariant. *)
Lemma wpf_then {A B} ino (m : M A) (k : A -> M B) s s0 :
  keeps s0 s -> is_Some (cs_inodes s0 !! ino) -> wpf m (fun _ s' => keeps s s') s -> (forall a, safe ino (k a)) ->
  wpf (sbind m k) (fun _ s' => keeps s0 s') s.
Proof.
  intros K0 Hi Hm Hk. apply wpf_bind. eapply wpf_mono; [exact Hm|]. cbv beta. intros a s1 K1. assert (K : keeps s0 s1) by eauto using keeps_trans.
  apply (wpf_safe ino); [apply Hk|apply K|by apply K|]. intros b s2 K2. by eapply keeps_trans.
Qed.

(** ** Flushing *)
Lemma safe_try_flush_loop fuel ino session : safe ino (try_flush_loop fuel ino session).
Proof.
  revert session. induction fuel as [|fuel IH]; intros session; cbn [try_flush_loop]; apply safe_get_ci; intros s ci Hinv Hci;
    pose proof (Hinv _ _ Hci) as Hiv.
  all: destruct (any _ _); [by apply wpf_ret, keeps_refl|]; destruct (Z.eqb_spec (ci_dirty_caps ci) 0) as [|Hd]; [by apply wpf_ret, keeps_refl|].
  all: destruct (auth_cap ci) as [cap|] eqn:Ea; [|by apply wpf_ret, keeps_refl]; destruct (auth_cap_lookup _ _ _ _ Hiv Ea) as (Hc & _ & Hs).
  all: destruct (bool_decide (session = Some (c_mds cap))).
  2: apply wpf_fuel.
  3: { apply (wpf_safe ino); [|done|by eexists|done]. apply safe_seq; [by apply safe_unlocked|]. intros _. apply IH. }
  all: destruct Hs as [x Hx]; apply wpf_bind, (wpf_get_session _ _ x); [done|]; destruct (s_state x <? _); [by apply wpf_ret, keeps_refl|].
  all: cbv zeta; apply wpf_bind; eapply wpf_mono; [by apply (wpf_mark_flushing ino (c_mds cap) s ci); [| |eexists|]|]; cbv beta;
    intros f s1 (-> & K1 & ci1 & Hci1 & Hs1).
  all: eapply (wpf_then ino); [exact K1|by eexists| |intros [dl tid]; apply safe_seq; [|intros _; apply safe_pure];
    apply safe_if; [apply safe_delay_requeue|apply safe_pure]].
  all: destruct Hs1 as (E1 & E2 & E3 & E4 & E5); apply (wpf_send_cap Hothers ino (c_mds cap) _ _ _ _ _ s1 ci1 cap); [apply K1|done| | | |].
  1, 5: unfold cmap; by rewrite E1.
  1, 4: by eapply sub_pin_held.
  1, 3: intros _; rewrite E3; apply (iv_head _ _ _ Hiv); unfold __ceph_caps_dirty; intros [? ?]%Z.lor_eq_0_iff; done.
  all: rewrite <- E5; apply spared_used.
Qed.

Lemma safe_try_flush ino : safe ino (try_flush_caps ino).
Proof. apply safe_try_flush_loop. Qed.

Lemma safe_write_inode ino wait : safe ino (ceph_write_inode ino wait).
Proof.
  unfold ceph_write_inode. apply safe_if.
  - apply safe_seq; [apply safe_try_flush|]. intros [d t]. apply safe_pure.
  - apply safe_get_ci. intros s ci Hinv Hci. apply (wpf_safe ino); [|done|by eexists|done].
    apply safe_seq; [|intros _; apply safe_pure]. apply safe_if; [apply safe_pure|]. unfold __cap_delay_requeue_front.
    apply safe_seq; [by apply safe_mod_vital|]. intros _. by apply safe_mod_same.
Qed.

Lemma lor_mask_range a mask : 0 <= a < 2 ^ 32 -> 0 < mask < 2 ^ 32 -> 0 < u32 (Z.lor a mask) < 2 ^ 32.
Proof.
  intros Ha Hmask. assert (Hne : Z.lor a mask <> 0) by (intros [??]%Z.lor_eq_0_iff; lia).
  assert (Hnn : 0 <= Z.lor a mask) by (apply Z.lor_nonneg; lia).
  assert (Hlt : Z.lor a mask < 2 ^ 32).
  { destruct (decide (a = 0)) as [->|]; [rewrite Z.lor_0_l; lia|]. apply Z.log2_lt_pow2; [lia|]. rewrite Z.log2_lor by lia.
    apply Z.max_lub_lt; apply Z.log2_lt_pow2; lia. }
  rewrite u32_small; lia.
Qed.

Lemma wpf_mark_dirty ino mask s :
  inv s -> is_Some (cs_inodes s !! ino) -> 0 < mask < 2 ^ 32 -> is_Some (realm_of ino (cs_realms s)) -> is_Some (realm_context ino (cs_realms s)) ->
  wpf (__ceph_mark_dirty_caps ino mask) (fun _ s' => keeps s s') s.
Proof.
  intros Hinv [ci Hci] Hmask [r Hr] [sc Hsc]. pose proof (Hinv _ _ Hci) as Hiv. pose proof (iv_range _ _ _ Hiv) as Hrange.
  pose proof (lor_mask_range (ci_dirty_caps ci) mask Hrange Hmask) as Hdirty.
  unfold __ceph_mark_dirty_caps. apply wpf_bind, (wpf_get_ci _ _ ci); [done|]. cbv zeta. apply wpf_bind, (wpf_mod_ci _ _ ci); [done|]. wpf_steps.
  set (ci1 := ci <| ci_dirty_caps ::= _ |>). set (d' := u32 (Z.lor (ci_dirty_caps ci) mask)) in *.
  set (s1 := s <| cs_inodes ::= insert ino ci1 |>). change (ci_dirty_caps ci1) with d' in *.
  assert (Hlast : forall s' (n : Z), keeps s s' -> linked ino (cs_dirty s') = true ->
    wpf (s ↢ sget; _ ↢ slift (bug_on (negb (linked ino (cs_dirty s)))); _ ↢ __cap_delay_requeue ino; sret n) (fun _ s' => keeps s s') s').
  { intros s' n K Hl. wpf_steps. apply wpf_lift with tt; [by rewrite Hl|]. apply (wpf_safe ino); [|apply K|apply K; by eexists|intros ? ? K2; by eapply keeps_trans].
    apply safe_seq; [apply safe_delay_requeue|]. intros _. apply safe_pure. }
  destruct (Z.eqb_spec (ci_dirty_caps ci) 0) as [E0|Hne].
  - apply wpf_bind. set (ci2 := match ci_head_snapc ci with Some _ => ci1 | None => ci1 <| ci_head_snapc := realm_context ino (cs_realms s) |> end).
    set (s2 := match ci_head_snapc ci with Some _ => s1 | None => s1 <| cs_inodes ::= insert ino ci2 |> end).
    apply wpf_mono with (P := fun _ s' => s' = s2).
    { change (cs_realms s1) with (cs_realms s). rewrite Hr. unfold s2, ci2. destruct (ci_head_snapc ci); [by apply wpf_ret|].
      apply (wpf_mod_ci _ _ ci1); [|done]. cbn. by rewrite lookup_insert_eq. }
    intros _ ? ->. apply wpf_bind, wpf_lift with tt. { change (cs_dirty s1) with (cs_dirty s). rewrite (iv_dirty _ _ _ Hiv), E0. done. }
    wpf_steps. set (s3 := s2 <| cs_dirty ::= cons ino |>).
    assert (K3 : keeps s s3).
    { apply (keeps_inode _ _ ino ci ci2); [done|done| | | | |].
      - unfold s3, s2, s1, ci2. destruct (ci_head_snapc ci); [done|]. cbn. by rewrite insert_insert_eq.
      - unfold s3, s2. by destruct (ci_head_snapc ci).
      - intros j Hj. transitivity (linked j (ino :: cs_dirty s)); [unfold s3, s2; by destruct (ci_head_snapc ci)|]. unfold linked. cbn.
        by rewrite (proj2 (Z.eqb_neq _ _)).
      - intros m. unfold ci2. by destruct (ci_head_snapc ci).
      - replace (linked ino (cs_dirty s3)) with true.
        2:{ symmetry. transitivity (linked ino (ino :: cs_dirty s)); [unfold s3, s2; by destruct (ci_head_snapc ci)|]. unfold linked. cbn. by rewrite Z.eqb_refl. }
        destruct Hiv as [I1 I2 I3 I4 I5 I6 I7 I8 Ir I9 I10].
        unfold ci2. destruct (ci_head_snapc ci) as [h|] eqn:Eh; split; try done.
        all: first [change (0 <= d' < 2 ^ 32); lia|change (true = negb (d' =? 0)); rewrite (proj2 (Z.eqb_neq _ _)) by lia; done|intros _; by exists sc]. }
    assert (Hl3 : linked ino (cs_dirty s3) = true).
    { transitivity (linked ino (ino :: cs_dirty s)); [unfold s3, s2; by destruct (ci_head_snapc ci)|]. unfold linked. cbn. by rewrite Z.eqb_refl. }
    destruct (kp_inode _ _ K3 ino) as [ci3 Hci3]; [by eexists|]. clearbody s3.
    destruct (ci_flushing_caps ci =? 0); [|apply wpf_ret; by apply Hlast].
    apply wpf_bind. unfold ihold. apply (wpf_mod_ci _ _ ci3); [done|]. apply wpf_ret.
    apply Hlast; [|done]. eapply keeps_trans; [exact K3|]. eapply keeps_set; [apply K3|done|by intros m|].
    eapply inode_inv_vital; [|by apply (kp_inv _ _ K3 _ _ Hci3)]. done.
  - apply wpf_ret. apply Hlast.
    + eapply keeps_set; [done|done|by intros m|]. rewrite (iv_dirty _ _ _ Hiv), (proj2 (Z.eqb_neq _ _)) by done. cbn [negb].
      destruct Hiv as [I1 I2 I3 I4 I5 I6 I7 I8 Ir I9 I10]. split; try done.
      * intros _. apply I7. unfold __ceph_caps_dirty. intros [? ?]%Z.lor_eq_0_iff. done.
      * change (true = negb (d' =? 0)). rewrite (proj2 (Z.eqb_neq _ _)) by lia. done.
      * change (0 <= d' < 2 ^ 32). lia.
    + change (linked ino (cs_dirty s) = true). rewrite (iv_dirty _ _ _ Hiv), (proj2 (Z.eqb_neq _ _)) by done. done.
Qed.

(** ** Taking references *)
Lemma fold_lor_bit {A} (f : A -> Z) l a i :
  Z.testbit (fold_left (fun h c => Z.lor h (f c)) l a) i = Z.testbit a i || existsb (fun c => Z.testbit (f c) i) l.
Proof.
  revert a. induction l as [|c l IH]; intros a; cbn [fold_left existsb]; [by rewrite orb_false_r|]. by rewrite IH, Z.lor_spec, orb_assoc.
Qed.

(** What is issued is held. *)
Lemma issued_held has d s ci i : inode_inv has d ci -> 0 <= i -> Z.testbit (fst (__ceph_caps_issued s ci)) i = true -> holds ci i.
Proof.
  intros Hiv Hi Hb. unfold __ceph_caps_issued in Hb. cbn [fst] in Hb.
  assert (Hf : Z.testbit (fold_left (fun have c => Z.lor have (c_issued c)) (valid_caps s ci) (ci_snap_caps ci)) i = true).
  { destruct (auth_cap ci); [|done]. rewrite Z.land_spec in Hb. by apply andb_true_iff in Hb as [? _]. }
  rewrite (fold_lor_bit c_issued) in Hf. apply orb_true_iff in Hf as [?|(c & Hin & Hc)%existsb_exists]; [by left|right].
  unfold valid_caps in Hin. apply filter_In in Hin as [Hin _]. exists (c_mds c), c.
  assert (Hm : cmap ci !! c_mds c = Some c) by (apply cmap_in; [apply Hiv|split; [by apply list_elem_of_In|done]]).
  split; [done|]. by apply (iv_bits _ _ _ Hiv _ _ Hm).
Qed.

Lemma land_bit_any got m i : Z.testbit m i = true -> 0 <= i -> any got m = true -> (forall j, 0 <= j -> Z.testbit m j = true -> j = i) -> Z.testbit got i = true.
Proof.
  intros Hm Hi Hany Hone. destruct (Z.testbit got i) eqn:E; [done|]. enough (any got m = false) by congruence. apply any_false. intros j Hj Hg.
  destruct (Z.testbit m j) eqn:Ej; [|done]. by rewrite (Hone j Hj Ej), E in Hg.
Qed.

Lemma one_bit k i j : 0 <= k -> 0 <= i -> 0 <= j -> Z.testbit (2 ^ k) i = true -> Z.testbit (2 ^ k) j = true -> j = i.
Proof. intros Hk Hi Hj. rewrite !Z.pow2_bits_eqb by done. intros ->%Z.eqb_eq ->%Z.eqb_eq. done. Qed.

(** The bits used after references were taken *)
Lemma used_take got ci i :
  0 <= i -> Z.testbit (__ceph_caps_used (take_refs got ci)) i = true -> Z.testbit (__ceph_caps_used ci) i = true \/ Z.testbit got i = true.
Proof.
  intros Hi. rewrite !used_bit.
  assert (Hcase : forall m k (n : Z), 0 <= k -> m = 2 ^ k -> negb (incr (any got m) n =? 0) && Z.testbit m i = true ->
    negb (n =? 0) && Z.testbit m i = true \/ Z.testbit got i = true).
  { intros m k n Hk -> [Hn Hm]%andb_true_iff. rewrite Hm, andb_true_r. unfold incr in Hn. destruct (any got (2 ^ k)) eqn:E; [right|by left].
    eapply land_bit_any; [exact Hm|done|done|]. intros j Hj Hjm. by apply (one_bit k). }
  intros Hb. repeat match type of Hb with _ || _ = true => apply orb_true_iff in Hb as [Hb|Hb] end.
  - destruct (Hcase CEPH_CAP_PIN 0 (ci_pin_ref ci)) as [->|?]; auto; try done.
  - destruct (Hcase CEPH_CAP_FILE_RD 11 (ci_rd_ref ci)) as [->|?]; auto; try done. left. by rewrite !orb_true_r.
  - apply andb_true_iff in Hb as [Hb Hm]. rewrite negb_andb in Hb. apply orb_true_iff in Hb as [Hb|Hb].
    + destruct (Hcase CEPH_CAP_FILE_CACHE 10 (ci_rdcache_ref ci)) as [E|?]; auto; try done; [by rewrite Hm, andb_true_r|].
      left. apply andb_true_iff in E as [E ->]. rewrite !negb_andb, E, !orb_true_r. done.
    + left. rewrite !negb_andb, Hm. change (negb (vi_nrpages ci =? 0) = true) in Hb. rewrite Hb, !orb_true_r. done.
  - destruct (Hcase CEPH_CAP_FILE_WR 12 (ci_wr_ref ci)) as [->|?]; auto; try done. left. by rewrite !orb_true_r.
  - apply andb_true_iff in Hb as [Hb Hm]. rewrite negb_andb in Hb. apply orb_true_iff in Hb as [Hb|Hb].
    + destruct (Hcase CEPH_CAP_FILE_BUFFER 13 (ci_wb_ref ci)) as [E|?]; auto; try done; [by rewrite Hm, andb_true_r|].
      left. apply andb_true_iff in E as [E ->]. rewrite !negb_andb, E, !orb_true_r. done.
    + left. rewrite !negb_andb, Hm. change (negb (ci_wrbuffer_ref ci =? 0) = true) in Hb. rewrite Hb, !orb_true_r. done.
Qed.

Lemma wpf_take_refs ino got s ci :
  inv s -> cs_inodes s !! ino = Some ci -> (forall i, 0 <= i -> Z.testbit got i = true -> holds ci i) ->
  wpf (__take_cap_refs ino got) (fun _ s' => keeps s s') s.
Proof.
  intros Hinv Hci Hg. unfold __take_cap_refs. apply (wpf_mod_ci _ _ ci); [done|]. eapply keeps_set; [done|done|by intros m|].
  apply (inode_inv_used _ _ ci); [done| |by apply Hinv]. intros i Hi [?|?]%used_take; auto.
Qed.

Lemma safe_pending_loop fuel ino : safe ino (pending_loop fuel ino).
Proof.
  induction fuel as [|fuel IH]; cbn [pending_loop]; apply safe_get_ci; intros s ci Hinv Hci; (destruct (_ =? 0); [by apply wpf_ret, keeps_refl|]).
  - apply wpf_fuel.
  - apply (wpf_safe ino); [|done|by eexists|done]. apply safe_if; (apply safe_seq; [by apply safe_unlocked|]; intros _); [apply IH|].
    apply safe_get_ci. intros s1 ci1 Hinv1 Hci1. apply (wpf_safe ino); [|done|by eexists|done]. apply safe_if; [|apply IH].
    apply safe_seq; [by apply safe_mod_vital|]. intros _. apply safe_seq; [|intros _; apply safe_queue_work].
    apply safe_if; [by apply safe_check_caps|apply safe_pure].
Qed.

Lemma safe_finish_truncate fuel ino : safe ino (finish_truncate fuel ino).
Proof.
  induction fuel as [|fuel IH]; cbn [finish_truncate]; apply safe_get_ci; intros s ci Hinv Hci; (destruct (_ =? 0); [by apply wpf_ret, keeps_refl|]).
  - apply wpf_fuel.
  - apply (wpf_safe ino); [|done|by eexists|done]. apply safe_seq; [by apply safe_unlocked|]. intros _.
    apply safe_seq; [apply safe_pending_loop|]. intros _. apply IH.
Qed.

Lemma safe_try_get_cap_refs ino need want endoff : safe ino (try_get_cap_refs ino need want endoff).
Proof.
  unfold try_get_cap_refs. apply safe_get_ci. intros s ci Hinv Hci. apply (wpf_safe ino); [|done|by eexists|done].
  apply safe_if; [apply safe_pure|]. apply safe_seq; [apply safe_finish_truncate|]. intros _. clear s ci Hinv Hci.
  apply safe_get_ci. intros s ci Hinv Hci. wpf_steps. destruct (__ceph_caps_issued s ci) as [have impl] eqn:Eh. cbv zeta.
  destruct (_ && _ && _); [by apply wpf_ret, keeps_refl|]. destruct (_ && __ceph_have_pending_cap_snap ci); [by apply wpf_ret, keeps_refl|].
  destruct (Z.eqb_spec (Z.land have need) need) as [En|]; [|by apply wpf_ret, keeps_refl]. destruct (_ =? 0); [|by apply wpf_ret, keeps_refl].
  apply wpf_bind. eapply wpf_mono; [apply (wpf_take_refs ino _ s ci); [done|done|]|].
  - intros i Hi Hb. apply (issued_held _ _ s ci i (Hinv _ _ Hci) Hi). rewrite Eh. cbn [fst].
    rewrite <- En, Z.lor_spec, !Z.land_spec in Hb. by destruct (Z.testbit have i).
  - cbv beta. intros _ s' K. by apply wpf_ret.
Qed.

Lemma safe_get_caps ino need want endoff : safe ino (ceph_get_caps ino need want endoff).
Proof.
  unfold ceph_get_caps. apply safe_seq; [|intros _; apply safe_try_get_cap_refs]. apply safe_if; [|apply safe_pure].
  unfold check_max_size. apply safe_seq; [apply safe_mod_vital; intros ci; by destruct (_ && _)|]. intros _.
  apply safe_get_ci. intros s ci Hinv Hci. apply (wpf_safe ino); [|done|by eexists|done]. apply safe_if; [by apply safe_check_caps|apply safe_pure].
Qed.

(** ** Dropping references *)
Definition has_refs (had : Z) (ci : ceph_inode_info) : Prop :=
  (any had CEPH_CAP_PIN = true -> ci_pin_ref ci <> 0) /\ (any had CEPH_CAP_FILE_RD = true -> ci_rd_ref ci <> 0) /\
  (any had CEPH_CAP_FILE_CACHE = true -> ci_rdcache_ref ci <> 0) /\ (any had CEPH_CAP_FILE_BUFFER = true -> ci_wb_ref ci <> 0) /\
  (any had CEPH_CAP_FILE_WR = true -> ci_wr_ref ci <> 0).

Lemma used_drop had ci : has_refs had ci -> __ceph_caps_used (drop_refs had ci) ⊑ __ceph_caps_used ci.
Proof.
  intros (H1' & H2' & H3' & H4' & H5').
  assert (Hd : forall b n, (b = true -> n <> 0) -> n = 0 -> decr b n = 0) by (intros [] n Hn E; cbn; [by destruct (Hn eq_refl)|done]).
  apply used_sub; intros; try split; try (apply Hd; auto); done.
Qed.

Lemma wpf_finish_write ino s ci :
  inv s -> cs_inodes s !! ino = Some ci ->
  (forall k l, ci_cap_snaps ci = k :: l -> k_writing k = true -> k_dirty_pages k = 0 -> linked ino (cs_snap_flush s) = false) ->
  wpf (finish_write ino) (fun _ s' => keeps s s') s.
Proof.
  intros Hinv Hci Hl. unfold finish_write. apply wpf_bind, (wpf_get_ci _ _ ci); [done|]. destruct (ci_cap_snaps ci) as [|k l] eqn:Ek; [by apply wpf_ret, keeps_refl|].
  destruct (k_writing k) eqn:Ew; [|by apply wpf_ret, keeps_refl]. specialize (Hl k l eq_refl Ew).
  apply wpf_bind. unfold mod_snap at 1. apply (wpf_mod_ci _ _ ci); [done|].
  set (ci1 := ci <| ci_cap_snaps ::= _ |>). set (s1 := s <| cs_inodes ::= insert ino ci1 |>).
  assert (K1 : keeps s s1) by (by apply keeps_mod_snap).
  assert (Hci1 : cs_inodes s1 !! ino = Some ci1) by (cbn; by rewrite lookup_insert_eq). unfold __ceph_finish_cap_snap.
  apply wpf_bind, wpf_bind, (wpf_get_ci _ _ ci1); [done|]. apply wpf_bind, wpf_lift with tt; [done|].
  apply wpf_bind. unfold mod_snap. apply (wpf_mod_ci _ _ ci1); [done|].
  set (ci2 := ci1 <| ci_cap_snaps ::= _ |>). set (s2 := s1 <| cs_inodes ::= insert ino ci2 |>).
  assert (K2 : keeps s1 s2) by (apply keeps_mod_snap; [apply K1|done|done|done]).
  destruct (Z.eqb_spec (k_dirty_pages (k <| k_writing := false |>)) 0) as [Ep|]; cbn [negb]; [|wpf_steps; by eapply keeps_trans].
  wpf_steps. change (cs_snap_flush s2) with (cs_snap_flush s). rewrite (Hl Ep). wpf_steps.
  eapply keeps_trans; [exact K1|]. eapply keeps_trans; [exact K2|]. apply keeps_same; [apply K2|done|done|done].
Qed.

Lemma wpf_put_cap_refs ino had s ci :
  inv s -> cs_inodes s !! ino = Some ci -> has_refs had ci ->
  (forall k l, ci_cap_snaps ci = k :: l -> k_writing k = true -> k_dirty_pages k = 0 -> linked ino (cs_snap_flush s) = false) ->
  wpf (ceph_put_cap_refs ino had) (fun _ s' => keeps s s') s.
Proof.
  intros Hinv Hci Hrefs Hl. unfold ceph_put_cap_refs. apply wpf_bind, (wpf_mod_ci _ _ ci); [done|].
  set (ci1 := drop_refs had ci). set (s1 := s <| cs_inodes ::= insert ino ci1 |>).
  assert (K1 : keeps s s1).
  { eapply keeps_set; [done|done|by intros m|]. apply (inode_inv_used _ _ ci); [done| |by apply Hinv]. intros i Hi Hu. left. revert i Hi Hu. by apply used_drop. }
  assert (Hci1 : cs_inodes s1 !! ino = Some ci1) by (cbn; by rewrite lookup_insert_eq).
  apply wpf_bind, (wpf_get_ci _ _ ci1); [done|]. cbv zeta. eapply (wpf_then ino); [exact K1|by eexists| |].
  - destruct (_ && (ci_wr_ref ci1 =? 0)); [|apply wpf_ret, keeps_refl, K1]. by apply (wpf_finish_write ino s1 ci1); [apply K1| |].
  - intros [flushsnaps wake]. apply safe_seq.
    { destruct (_ && negb flushsnaps); [by apply safe_check_caps|]. destruct flushsnaps; [|apply safe_pure].
      apply safe_seq; [by apply safe_flush_snaps|]. intros _. apply safe_pure. }
    intros _. apply safe_seq; [destruct wake; [apply safe_queue_work|apply safe_pure]|]. intros _.
    apply safe_if; [by apply safe_mod_vital|apply safe_pure].
Qed.

Lemma inode_inv_clean has d ci :
  inode_inv has d ci -> __ceph_caps_dirty ci = 0 -> inode_inv has d (ci <| ci_head_snapc := None |>).
Proof. intros [] Hd. by split. Qed.

(** Pages of the head, or of a cap snapshot, were written. *)
Lemma wpf_put_pages ino nr sc s ci :
  inv s -> cs_inodes s !! ino = Some ci ->
  fst <$> ci_head_snapc ci = Some (fst sc) \/ (exists k, k ∈ ci_cap_snaps ci /\ fst (k_context k) = fst sc) ->
  wpf (put_pages ino nr sc) (fun _ s' => keeps s s') s.
Proof.
  intros Hinv Hci Hsc. pose proof (Hinv _ _ Hci) as Hiv. unfold put_pages. apply wpf_bind, (wpf_get_ci _ _ ci); [done|]. case_bool_decide as Hh.
  - apply wpf_bind, (wpf_mod_ci _ _ ci); [done|]. apply wpf_ret. cbv zeta.
    assert (Hiv1 : inode_inv (has_session s) (linked ino (cs_dirty s)) (ci <| ci_wrbuffer_ref_head ::= fun n => s32 (n - nr) |>)) by (by apply (inode_inv_vital _ _ ci)).
    eapply keeps_set; [done|done|intros m; by destruct (_ && _)|]. destruct (_ && _) eqn:E; [|done].
    apply andb_prop in E as [[_ E1%Z.eqb_eq]%andb_prop E2%Z.eqb_eq]. apply inode_inv_clean; [done|]. unfold __ceph_caps_dirty. by rewrite E1, E2.
  - destruct Hsc as [?|(k0 & Hk0 & Ek0)]; [done|]. destruct (List.find _ _) as [k|] eqn:Ef.
    2: { rewrite list_elem_of_In in Hk0. apply (List.find_none _ _ Ef) in Hk0. by rewrite Ek0, Nat.eqb_refl in Hk0. }
    apply List.find_some in Ef as [Hk _]. pose proof (iv_snaps _ _ _ Hiv) as Hsn. rewrite List.Forall_forall in Hsn. destruct (Hsn k Hk) as [Hkd _].
    cbv zeta. rewrite (proj2 (Z.eqb_neq _ _) Hkd), andb_false_r. apply wpf_bind. unfold mod_snap. apply (wpf_mod_ci _ _ ci); [done|].
    apply wpf_bind, wpf_ret, wpf_ret. by apply keeps_mod_snap.
Qed.

Lemma wpf_put_wrbuffer ino nr sc s ci :
  inv s -> cs_inodes s !! ino = Some ci -> ci_wrbuffer_ref ci <> 0 ->
  fst <$> ci_head_snapc ci = Some (fst sc) \/ (exists k, k ∈ ci_cap_snaps ci /\ fst (k_context k) = fst sc) ->
  wpf (ceph_put_wrbuffer_cap_refs ino nr sc) (fun _ s' => keeps s s') s.
Proof.
  intros Hinv Hci Hne Hsc. unfold ceph_put_wrbuffer_cap_refs. apply wpf_bind, (wpf_mod_ci _ _ ci); [done|].
  set (ci1 := ci <| ci_wrbuffer_ref ::= _ |>). set (s1 := s <| cs_inodes ::= insert ino ci1 |>).
  assert (K1 : keeps s s1).
  { eapply keeps_set; [done|done|by intros m|]. apply (inode_inv_used _ _ ci); [done| |by apply Hinv]. intros i Hi Hu. left. revert i Hi Hu. by apply used_sub. }
  assert (Hci1 : cs_inodes s1 !! ino = Some ci1) by (cbn; by rewrite lookup_insert_eq).
  apply wpf_bind, (wpf_get_ci _ _ ci1); [done|]. cbv zeta. eapply (wpf_then ino); [exact K1|by eexists|by apply (wpf_put_pages ino nr sc s1 ci1); [apply K1| |]|].
  intros [complete drop]. apply safe_seq; [|intros _; apply safe_if; [by apply safe_mod_vital|apply safe_pure]].
  apply safe_if; [apply safe_seq; [by apply safe_check_caps|intros _; by apply safe_mod_vital]|]. apply safe_if; [|apply safe_pure].
  apply safe_seq; [|intros _; apply safe_queue_work]. unfold ceph_flush_snaps. apply safe_seq; [by apply safe_flush_snaps|]. intros _. apply safe_pure.
Qed.

Lemma safe_get_fmode ino l : safe ino (mod_ci ino (fun ci => ci <| ci_nr_by_mode := l |>)).
Proof. by apply safe_mod_vital. Qed.

Lemma wpf_put_fmode ino fmode s ci n :
  inv s -> cs_inodes s !! ino = Some ci -> 0 <= fmode -> ci_nr_by_mode ci !! Z.to_nat fmode = Some n -> n <> 0 ->
  wpf (ceph_put_fmode ino fmode) (fun _ s' => keeps s s') s.
Proof.
  intros Hinv Hci Hf Hn Hne. unfold ceph_put_fmode. apply wpf_bind, (wpf_get_ci _ _ ci); [done|].
  apply wpf_bind, wpf_lift with n; [unfold rd; rewrite (proj2 (Z.ltb_ge _ _)) by done; by rewrite Hn|].
  apply wpf_bind, wpf_lift with tt; [by rewrite (proj2 (Z.eqb_neq _ _))|].
  assert (Hlen : (Z.to_nat fmode < length (ci_nr_by_mode ci))%nat) by (by apply lookup_lt_is_Some; eexists).
  apply wpf_bind, wpf_lift with (<[Z.to_nat fmode := s32 (n - 1)]> (ci_nr_by_mode ci)).
  { unfold wr. rewrite (proj2 (Z.leb_le _ _)), (proj2 (Z.ltb_lt _ _)) by lia. done. }
  apply (wpf_safe ino); [|done|by eexists|done]. apply safe_seq; [apply safe_get_fmode|]. intros _. apply safe_if; [by apply safe_check_caps|apply safe_pure].
Qed.

Lemma wpf_encode_release ino mds drop unless force s ci :
  inv s -> cs_inodes s !! ino = Some ci -> Z.land drop CEPH_CAP_PIN = 0 ->
  wpf (ceph_encode_inode_release ino mds drop unless force) (fun _ s' => keeps s s') s.
Proof.
  intros Hinv Hci Hdrop. pose proof (Hinv _ _ Hci) as Hiv. unfold ceph_encode_inode_release. apply wpf_bind, (wpf_get_ci _ _ ci); [done|]. wpf_steps. cbv zeta.
  rewrite get_cap_cmap by apply Hiv. destruct (cmap ci !! mds) as [c|] eqn:Ec; [|by apply wpf_ret, keeps_refl].
  destruct (_ && _); [|by apply wpf_ret, keeps_refl]. pose proof (cmap_key _ _ _ (iv_ordered _ _ _ Hiv) Ec) as Hk.
  set (drop' := without drop _). set (droppable := _ && negb (any (c_issued c) unless)).
  set (cap' := if droppable then _ else c). unfold set_ci. wpf_steps.
  assert (Hk' : c_mds cap' = mds) by (unfold cap'; by destruct droppable).
  eapply keeps_set; [done|done|apply (more_put_cap _ _ c); [apply Hiv|by rewrite Hk']|].
  pose proof (iv_bits _ _ _ Hiv _ _ Ec) as Hb. pose proof (iv_pin _ _ _ Hiv _ _ Ec) as Hp.
  assert (Hpd : CEPH_CAP_PIN ⊑ without (c_issued c) drop').
  { intros i Hi Hpi. unfold drop'. rewrite !without_bit by done. rewrite (Hp i Hi Hpi).
    destruct (Z.testbit drop i) eqn:E; [|done]. pose proof (proj1 (land_zero _ _) Hdrop i Hi E). congruence. }
  apply (inv_put_cap _ _ _ _ c); [done|by rewrite Hk'| | |].
  - unfold cap'. destruct droppable; [|done]. change (without (c_issued c) drop' ⊑ without (c_implemented c) drop'). clear -Hb. bits.
  - unfold cap'. destruct droppable; [|done]. exact Hpd.
  - intros i Hi Hu Hc0. left. unfold cap'. destruct droppable; [|done]. change (Z.testbit (without (c_implemented c) drop') i = true).
    unfold drop'. rewrite !without_bit, Hc0, Z.lor_spec, Hu by done. by rewrite andb_false_r.
Qed.

(** ** Messages *)
Lemma safe_check_cap_issue ino issued : safe ino (__check_cap_issue ino issued).
Proof.
  unfold __check_cap_issue. apply safe_get. intros s0. apply safe_get_ci. intros s ci Hinv Hci. cbv zeta. apply (wpf_safe ino); [|done|by eexists|done].
  apply safe_seq; [apply safe_if; [by apply safe_mod_vital|apply safe_pure]|]. intros _. apply safe_if; [|apply safe_pure].
  apply safe_seq; [by apply safe_mod_vital|]. intros _. apply safe_if; [by apply safe_mod_vital|apply safe_pure].
Qed.

Lemma safe_when ino b w : safe ino (when b (queue_work w)).
Proof. destruct b; [apply safe_queue_work|apply safe_pure]. Qed.

Lemma safe_revoke_cache ino newcaps cap : safe ino (revoke_cache ino newcaps cap).
Proof.
  unfold revoke_cache. apply safe_get_ci. intros s ci Hinv Hci. apply (wpf_safe ino); [|done|by eexists|done]. apply safe_if; [|apply safe_pure].
  apply safe_seq; [by apply safe_invalidate|]. intros r. apply safe_if; [apply safe_pure|]. apply safe_get_ci. intros s1 ci1 Hinv1 Hci1.
  apply (wpf_safe ino); [|done|by eexists|done]. apply safe_if; [apply safe_pure|]. apply safe_seq; [by apply safe_mod_vital|]. intros _. apply safe_pure.
Qed.

Lemma wpf_mod_cap ino mds f s ci c :
  inv s -> cs_inodes s !! ino = Some ci -> cmap ci !! mds = Some c ->
  c_mds (f c) = c_mds c -> c_issued (f c) = c_issued c -> c_implemented (f c) = c_implemented c ->
  wpf (mod_cap ino mds f) (fun _ s' => keeps s s') s.
Proof.
  intros Hinv Hci Hc E1 E2 E3. pose proof (Hinv _ _ Hci) as Hiv. pose proof (cmap_key _ _ _ (iv_ordered _ _ _ Hiv) Hc) as Hk.
  unfold mod_cap. apply wpf_bind, (wpf_get_ci _ _ ci); [done|]. rewrite get_cap_cmap, Hc by apply Hiv. unfold set_ci. wpf_steps.
  assert (Hl : cmap ci !! c_mds (f c) = Some c) by (by rewrite E1, Hk).
  eapply keeps_set; [done|done|apply (more_put_cap _ _ c); [apply Hiv|done]|].
  apply (inv_put_cap _ _ _ _ c); [done|done| | |].
  - rewrite E2, E3. by eapply iv_bits.
  - rewrite E2. by eapply iv_pin.
  - intros i Hi Hu Hb. left. by rewrite E3.
Qed.

(** What a message changes besides the caps is not vital. *)
Lemma vital_grant_auth h n i ci : vital (grant_auth h n i ci) = vital ci.
Proof. unfold grant_auth. by destruct (_ && _). Qed.
Lemma vital_grant_link h n i ci : vital (snd (grant_link h n i ci)) = vital ci.
Proof. unfold grant_link. by destruct (_ && _). Qed.
Lemma vital_grant_times h n i ci : vital (grant_times h n i ci) = vital ci.
Proof. unfold grant_times, ceph_fill_file_time. by repeat case_match. Qed.
Lemma vital_fill_size issued ts tz z ci : vital (snd (ceph_fill_file_size issued ts tz z ci)) = vital ci.
Proof. unfold ceph_fill_file_size. destruct (_ || _); [destruct (ts =? _)|]; destruct (_ && _); done. Qed.
Lemma vital_grant_size h m n i ci : vital (snd (grant_size h m n i ci)) = vital ci.
Proof.
  unfold grant_size. destruct (any _ _); [|done].
  pose proof (vital_fill_size i (h_truncate_seq h) (h_truncate_size h) (h_size h) (ci <| ci_layout := h_layout h |>)) as Hv.
  destruct (ceph_fill_file_size _ _ _ _ _) as [t ci1]. cbn [snd] in Hv. transitivity (vital ci1); [|done].
  destruct (bool_decide _ && _); [|done]. cbn [snd]. by destruct (_ <=? _).
Qed.

(** The message has the pin bit, and the attributes it speaks of. *)
Definition sane_grant (h : ceph_mds_caps) (middle : option (list Z)) : Prop :=
  CEPH_CAP_PIN ⊑ s32 (h_caps h) /\ h_op h <> CEPH_CAP_OP_IMPORT /\ (h_xattr_len h <> 0 -> is_Some middle).

Lemma grant_xattrs_ok h issued middle ci : (h_xattr_len h <> 0 -> is_Some middle) -> exists ci', grant_xattrs h issued middle ci = Ret ci' /\ vital ci' = vital ci.
Proof.
  intros Hm. unfold grant_xattrs. destruct (negb (any _ _)); cbn [andb]; [|by exists ci]. destruct (Z.eqb_spec (h_xattr_len h) 0); cbn [negb andb]; [by exists ci|].
  destruct (_ <? _); [|by exists ci]. destruct (Hm n) as [b ->]. cbn. by eexists.
Qed.

(** The bits that are revoked stay implemented. *)
Lemma grant_bits_ok ci newcaps qi c r :
  grant_bits ci newcaps qi c = r -> c_issued c ⊑ c_implemented c -> CEPH_CAP_PIN ⊑ c_issued c -> CEPH_CAP_PIN ⊑ newcaps ->
  c_mds r.2 = c_mds c /\ c_issued r.2 ⊑ c_implemented r.2 /\ CEPH_CAP_PIN ⊑ c_issued r.2 /\ c_implemented c ⊑ c_implemented r.2.
Proof.
  intros <- Hb Hp Hn.
  assert (Hnew : let c' := c <| c_issued := newcaps |> <| c_implemented ::= fun i => Z.lor i newcaps |> in
    c_mds c' = c_mds c /\ c_issued c' ⊑ c_implemented c' /\ CEPH_CAP_PIN ⊑ c_issued c' /\ c_implemented c ⊑ c_implemented c').
  { cbn. split; [done|]. split; [bits|]. split; [done|bits]. }
  unfold grant_bits. repeat case_match; try exact Hnew. by repeat split.
Qed.

(** What follows the change of the caps *)
Lemma safe_grant_finish ino mds h trace newcaps issued trunc writeback qi deleted wake check :
  h_op h <> CEPH_CAP_OP_IMPORT ->
  safe ino (_ ↢ unlocked;
    _ ↢ when (h_op h =? CEPH_CAP_OP_IMPORT) (import_trace ino mds trace);
    _ ↢ when trunc (queue_work (QueueVmtruncate ino));
    _ ↢ when writeback (queue_work (QueueWriteback ino));
    _ ↢ when qi (queue_work (QueueInvalidate ino));
    _ ↢ when deleted (queue_work (InvalidateAliases ino));
    _ ↢ when (wake || ((h_op h =? CEPH_CAP_OP_IMPORT) && negb (without newcaps issued =? 0))) (queue_work (WakeUp ino));
    match check with
    | CheckNone => sret tt
    | CheckAuth => ceph_check_caps ino (Z.lor CHECK_CAPS_NODELAY CHECK_CAPS_AUTHONLY) (Some mds)
    | CheckAll => ceph_check_caps ino CHECK_CAPS_NODELAY (Some mds)
    end).
Proof.
  intros Hop. rewrite (proj2 (Z.eqb_neq _ _)) by done. apply safe_seq; [by apply safe_unlocked|]. intros _. apply safe_seq; [apply safe_pure|]. intros _.
  do 5 (apply safe_seq; [apply safe_when|]; intros _). destruct check; [apply safe_pure|by apply safe_check_caps|by apply safe_check_caps].
Qed.

Lemma wpf_handle_cap_grant ino h trace middle mds issued s ci c :
  inv s -> cs_inodes s !! ino = Some ci -> cmap ci !! mds = Some c -> sane_grant h middle ->
  wpf (handle_cap_grant ino h trace middle mds issued) (fun _ s' => keeps s s') s.
Proof.
  intros Hinv Hci Hc (Hpin & Hop & Hmid). pose proof (Hinv _ _ Hci) as Hiv. unfold handle_cap_grant.
  apply wpf_bind, (wpf_get_ci _ _ ci); [done|]. rewrite get_cap_cmap, Hc by apply Hiv. cbv zeta.
  set (old := _ <=? 0). set (newcaps := if old then Z.lor _ _ else _).
  assert (Hpn : CEPH_CAP_PIN ⊑ newcaps) by (unfold newcaps; destruct old; [by apply sub_lor_l|done]).
  assert (Hcap : forall s', keeps s s' -> exists ci' c', cs_inodes s' !! ino = Some ci' /\ cmap ci' !! mds = Some c' /\ inode_inv (has_session s') (linked ino (cs_dirty s')) ci').
  { intros s' K. destruct (kp_caps _ _ K _ _ Hci) as (ci' & Hci' & Hm). destruct (Hm mds) as [c' Hc']; [by eexists|]. exists ci', c'. split; [done|].
    split; [done|]. by apply (kp_inv _ _ K). }
  apply wpf_bind. apply (wpf_safe ino); [apply safe_revoke_cache|done|by eexists|]. intros qi s1 K1.
  destruct (Hcap s1 K1) as (ci1 & c1 & Hci1 & Hc1 & Hiv1). destruct (iv_session _ _ _ Hiv1 _ _ Hc1) as [x Hx].
  apply wpf_bind, (wpf_get_session _ _ x); [done|]. apply wpf_bind. eapply wpf_mono; [by apply (wpf_mod_cap ino mds _ s1 ci1 c1); [apply K1|..]|].
  cbv beta. intros _ s2 K2. assert (K2' : keeps s s2) by eauto using keeps_trans.
  apply wpf_bind. apply (wpf_safe ino); [apply safe_check_cap_issue|apply K2|apply K2'; by eexists|]. intros _ s3 K3.
  assert (K3' : keeps s s3) by eauto using keeps_trans. apply wpf_bind.
  apply (wpf_safe ino); [apply safe_mod_vital, vital_grant_auth|apply K3|apply K3'; by eexists|]. intros _ s4 K4.
  assert (K4' : keeps s s4) by eauto using keeps_trans. clear K1 K2 K2' K3 K3' K4 Hci1 Hc1 Hiv1 Hx.
  destruct (Hcap s4 K4') as (ci4 & c4 & Hci4 & Hc4 & Hiv4). apply wpf_bind, (wpf_get_ci _ _ ci4); [done|].
  destruct (grant_link h newcaps issued ci4) as [deleted ci5] eqn:E5. pose proof (vital_grant_link h newcaps issued ci4) as Hv5. rewrite E5 in Hv5. cbn [snd] in Hv5.
  destruct (grant_xattrs_ok h issued middle ci5 Hmid) as (ci6 & E6 & Hv6). apply wpf_bind, wpf_lift with ci6; [done|].
  destruct (grant_size h mds newcaps issued (grant_times h newcaps issued ci6)) as [[trunc wake] ci7] eqn:E7.
  pose proof (vital_grant_size h mds newcaps issued (grant_times h newcaps issued ci6)) as Hv7. rewrite E7, vital_grant_times in Hv7. cbn [snd] in Hv7.
  assert (Hv : vital ci7 = vital ci4) by congruence. clear E5 E6 E7 Hv5 Hv6 Hv7.
  assert (Hm7 : cmap ci7 = cmap ci4) by (unfold cmap; by injection Hv as ->). pose proof (inode_inv_vital _ _ _ _ Hv Hiv4) as Hiv7.
  assert (K7 : keeps s4 (s4 <| cs_inodes ::= insert ino ci7 |>)) by (eapply keeps_set; [apply K4'|done|intros m; by rewrite Hm7|done]).
  apply wpf_bind. unfold set_ci at 1. apply wpf_mod. set (s5 := s4 <| cs_inodes ::= insert ino ci7 |>) in *.
  assert (Hci7 : cs_inodes s5 !! ino = Some ci7) by (cbn; by rewrite lookup_insert_eq). assert (K5' : keeps s s5) by eauto using keeps_trans.
  assert (Hiv7' : inode_inv (has_session s5) (linked ino (cs_dirty s5)) ci7) by exact Hiv7. clearbody s5.
  rewrite get_cap_cmap, Hm7, Hc4 by apply Hiv7. destruct (grant_bits ci7 newcaps qi c4) as [[[writeback wake'] check'] c8] eqn:E8.
  assert (Hk4 : c_mds c4 = mds) by (eapply cmap_key; [apply Hiv4|done]). rewrite <- Hm7 in Hc4.
  assert (Hc8 : c_mds c8 = mds /\ c_issued c8 ⊑ c_implemented c8 /\ CEPH_CAP_PIN ⊑ c_issued c8 /\ c_implemented c4 ⊑ c_implemented c8).
  { rewrite <- Hk4. apply (grant_bits_ok _ _ _ _ _ E8); [by eapply iv_bits|by eapply iv_pin|done]. }
  destruct Hc8 as (Hk8 & Hb8 & Hp8 & Hi8). apply wpf_bind. unfold set_ci. apply wpf_mod.
  assert (K8 : keeps s5 (s5 <| cs_inodes ::= insert ino (put_cap c8 ci7) |>)).
  { eapply keeps_set; [apply K5'|done|apply (more_put_cap _ _ c4); [apply Hiv7|by rewrite Hk8]|].
    apply (inv_put_cap _ _ _ _ c4); [done|by rewrite Hk8|done|done|]. intros i Hi _ Hb. left. by apply Hi8. }
  set (s8 := s5 <| cs_inodes ::= _ |>) in *. assert (K8' : keeps s s8) by eauto using keeps_trans. clearbody s8.
  apply wpf_bind, wpf_lift with tt; [by rewrite (proj2 (sub_without _ _) Hb8)|].
  apply (wpf_safe ino); [|apply K8|apply K8'; by eexists|intros ? ? K9; by eapply keeps_trans].
  by apply safe_grant_finish.
Qed.

Lemma safe_set_ino ino (f : caps_state -> ceph_inode_info -> ceph_inode_info) s ci :
  inv s -> cs_inodes s !! ino = Some ci -> vital (f s ci) = vital ci -> keeps s (s <| cs_inodes ::= insert ino (f s ci) |>).
Proof.
  intros Hinv Hci Hv. eapply keeps_set; [done|done|intros m; unfold cmap; by injection Hv as ->|]. eapply inode_inv_vital; [exact Hv|by apply Hinv].
Qed.

(** The caps that a flush covers are clean: what is left of the flush *)
Lemma inode_inv_flushed has d ci fl :
  inode_inv has d ci -> ci_flushing_caps ci <> 0 -> inode_inv has d (ci <| ci_flushing_caps := fl |>).
Proof.
  intros [] Hf. split; try done. intros _. apply iv_head. unfold __ceph_caps_dirty. intros [? ?]%Z.lor_eq_0_iff. done.
Qed.

Lemma inode_inv_unlinked has d ci : inode_inv has d ci -> inode_inv has d (ci <| ci_flushing_item := None |>).
Proof. intros []. by split. Qed.

Lemma wpf_unlink_flushing ino s ci :
  inv s -> cs_inodes s !! ino = Some ci ->
  wpf (unlink_flushing ino) (fun _ s' => keeps s s' /\ cs_inodes s' !! ino = Some (ci <| ci_flushing_item := None |>) /\ cs_dirty s' = cs_dirty s) s.
Proof.
  intros Hinv Hci. pose proof (Hinv _ _ Hci) as Hiv. unfold unlink_flushing. apply wpf_bind, (wpf_get_ci _ _ ci); [done|].
  apply wpf_bind. eapply wpf_mono with (P := fun _ s1 => keeps s s1 /\ cs_inodes s1 !! ino = Some ci /\ cs_dirty s1 = cs_dirty s).
  { destruct (ci_flushing_item ci) as [m|] eqn:E; [|by apply wpf_ret; split; [apply keeps_refl|]].
    apply wpf_mod_session; [done|by eapply iv_item|]. by intros x K. }
  intros _ s1 (K & Hci1 & Hd). apply (wpf_mod_ci _ _ ci); [done|]. split; [|by cbn; rewrite lookup_insert_eq].
  eapply keeps_trans; [exact K|]. eapply keeps_set; [apply K|done|by intros m|]. apply inode_inv_unlinked. by apply (kp_inv _ _ K).
Qed.

Lemma safe_handle_flush_ack ino tid h : safe ino (handle_cap_flush_ack ino tid h).
Proof.
  unfold handle_cap_flush_ack. apply safe_get_ci. intros s ci Hinv Hci. pose proof (Hinv _ _ Hci) as Hiv. cbv zeta.
  set (fl := without _ _). destruct (Z.eqb_spec (ci_flushing_caps ci) fl) as [|Hne]; [by apply wpf_ret, keeps_refl|].
  assert (Hf : ci_flushing_caps ci <> 0) by (intros E; apply Hne; unfold fl; by rewrite E).
  apply wpf_bind, (wpf_mod_ci _ _ ci); [done|]. set (ci1 := ci <| ci_flushing_caps := fl |>). set (s1 := s <| cs_inodes ::= insert ino ci1 |>).
  assert (K1 : keeps s s1) by (eapply keeps_set; [done|done|by intros m|by apply inode_inv_flushed]).
  assert (Hci1 : cs_inodes s1 !! ino = Some ci1) by (cbn; by rewrite lookup_insert_eq). assert (Hd1 : cs_dirty s1 = cs_dirty s) by done. clearbody s1.
  eapply (wpf_then ino); [exact K1|by eexists| |].
  2: { intros drop. apply safe_seq; [apply safe_queue_work|]. intros _. apply safe_if; [by apply safe_mod_vital|apply safe_pure]. }
  destruct (Z.eqb_spec fl 0) as [Hz|]; [|by apply wpf_ret, keeps_refl, K1]. apply wpf_bind.
  eapply wpf_mono; [by apply (wpf_unlink_flushing ino s1 ci1); [apply K1|]|]. cbv beta. intros _ s2 (K2 & Hci2 & Hd2). wpf_steps.
  set (s3 := s2 <| cs_num_flushing ::= _ |>). assert (K3 : keeps s2 s3) by (apply keeps_same; [apply K2|done..]).
  assert (Hd3 : linked ino (cs_dirty s3) = negb (ci_dirty_caps ci =? 0)) by (change (linked ino (cs_dirty s2) = negb (ci_dirty_caps ci =? 0)); rewrite Hd2, Hd1; apply Hiv).
  assert (Hci3 : cs_inodes s3 !! ino = Some (ci1 <| ci_flushing_item := None |>)) by done. assert (K13 : keeps s1 s3) by eauto using keeps_trans. clearbody s3.
  destruct (Z.eqb_spec (ci_dirty_caps ci) 0) as [Hd|Hd].
  - apply wpf_bind, wpf_lift with tt; [by rewrite Hd3|]. apply wpf_bind. eapply wpf_mono with (P := fun _ s4 => keeps s1 s4); [|intros ? s4 K4; by apply wpf_ret].
    destruct (_ =? 0); [|by apply wpf_ret]. destruct (iv_head _ _ _ Hiv) as [sc ->]; [unfold __ceph_caps_dirty; intros [? ?]%Z.lor_eq_0_iff; done|].
    apply (wpf_mod_ci _ _ (ci1 <| ci_flushing_item := None |>)); [done|]. eapply keeps_trans; [exact K13|].
    eapply keeps_set; [apply K13|done|by intros m|]. apply inode_inv_clean; [by apply K13|]. unfold __ceph_caps_dirty. cbn. by rewrite Hd, Hz.
  - apply wpf_bind, wpf_lift with tt; [by rewrite Hd3|]. by apply wpf_ret.
Qed.

Lemma safe_handle_trunc ino h : safe ino (handle_cap_trunc ino h).
Proof.
  unfold handle_cap_trunc. apply safe_get_ci. intros s ci Hinv Hci. wpf_steps. destruct (__ceph_caps_issued s ci) as [i j].
  pose proof (vital_fill_size (or_all [i; j; __ceph_caps_dirty ci]) (h_truncate_seq h) (h_truncate_size h) (h_size h) ci) as Hv.
  destruct (ceph_fill_file_size _ _ _ _ _) as [t ci1]. cbn [snd] in Hv. unfold set_ci. wpf_steps.
  assert (K : keeps s (s <| cs_inodes ::= insert ino ci1 |>)) by (by apply (safe_set_ino ino (fun _ _ => ci1) s ci)).
  apply (wpf_safe ino); [apply safe_when|apply K|apply K; by eexists|]. intros ? ? K2. by eapply keeps_trans.
Qed.

Lemma safe_handle_flushsnap_ack ino tid h : safe ino (handle_cap_flushsnap_ack ino tid h).
Proof.
  unfold handle_cap_flushsnap_ack. apply safe_get_ci. intros s ci Hinv Hci. pose proof (Hinv _ _ Hci) as Hiv.
  destruct (List.find _ _) as [k|] eqn:E; [|by apply wpf_ret, keeps_refl]. destruct (negb _); [by apply wpf_ret, keeps_refl|].
  apply List.find_some in E as [Hk _]. pose proof (iv_snaps _ _ _ Hiv) as Hsn. rewrite List.Forall_forall in Hsn. destruct (Hsn k Hk) as [_ Hm].
  eapply (wpf_then ino); [by apply keeps_refl|by eexists| |].
  - unfold unlink_flushing_snap. destruct (k_flushing k) as [m|]; [|by apply wpf_ret, keeps_refl]. apply wpf_mod_session; [done|by apply Hm|]. by intros x K.
  - intros _. apply safe_seq; [|intros _; by apply safe_mod_vital]. clear Hinv Hci Hiv. intros s1 Hinv1 [ci1 Hci1].
    apply (wpf_mod_ci _ _ ci1); [done|]. eapply keeps_set; [done|done|by intros m|]. destruct (Hinv1 _ _ Hci1) as [I1 I2 I3 I4 I5 I6 I7 I8 Ir I9 I10]. split; try done.
    cbn. rewrite List.Forall_forall in *. intros j [Hj _]%List.filter_In. by apply I10.
Qed.
End Trace.
