(* ===== verification/CapsAdd.v ===== *)
(** * New caps

    [ceph_add_cap] keeps the invariant of CapsInv.v: a cap that is new, or that the
    MDS issues again, with the pin bit. *)
From S2P Require Import Prelude.
From S2P Require Import RbTree.
From S2P Require Import StateM.
From S2P Require Import FileLayout.
From S2P Require Import CapPool.
From S2P Require Import Caps.
From S2P Require Import CapsFlush.
From S2P Require Import CapsRefs.
From S2P Require Import CapsMsg.
From S2P Require Import CapsInv.
From S2P Require Import CapsSafe.
From S2P Require Import CapsTrace.
From stdpp Require Import gmap.
#[local] Open Scope Z_scope.
#[local] Open Scope ceph_scope.
#[local] Open Scope st_scope.

(** A conversion to int keeps 32 bits. *)
Lemma s32_bit x i : 0 <= i < 32 -> Z.testbit (s32 x) i = Z.testbit x i.
Proof.
  intros Hi. rewrite <- (Z.mod_pow2_bits_low (s32 x) 32), <- (Z.mod_pow2_bits_low x 32) by lia. f_equal.
  unfold s32. rewrite Zminus_mod_idemp_l. f_equal. lia.
Qed.

Lemma s32_bit_high x i : 31 <= i -> Z.testbit (s32 x) i = Z.testbit x 31.
Proof.
  intros Hi. rewrite <- (s32_bit x 31) by lia. pose proof (s32_range x) as Hr.
  assert (Hsign : forall j, 31 <= j -> Z.testbit (s32 x) j = (s32 x <? 0)).
  { intros j Hj. assert (H2 : 2 ^ 31 <= 2 ^ j) by (apply Z.pow_le_mono_r; lia). destruct (Z.ltb_spec (s32 x) 0) as [Hneg|].
    - apply Z.bits_above_log2_neg; [done|]. destruct (Z.eq_dec (Z.pred (- s32 x)) 0) as [->|]; [cbn; lia|]. apply Z.log2_lt_pow2; lia.
    - destruct (Z.eq_dec (s32 x) 0) as [->|]; [apply Z.bits_0|]. apply Z.bits_above_log2; [done|]. apply Z.log2_lt_pow2; lia. }
  by rewrite !Hsign by lia.
Qed.

Lemma s32_mono a b : a ⊑ b -> s32 a ⊑ s32 b.
Proof.
  intros Hs i Hi. destruct (Z_lt_ge_dec i 32); [rewrite !s32_bit by lia; by apply Hs|]. rewrite !s32_bit_high by lia. apply Hs. lia.
Qed.

Lemma sub_lor_r a b : a ⊑ Z.lor b a.
Proof. bits. Qed.

Section Add.
Context `{RbOps} `{CapXattrs} `{Realms} `{!CapsEnv}.

(** ** A cap is put into the tree *)
Record with_cap (mds : Z) (c : ceph_cap) (ci ci' : ceph_inode_info) : Prop := {
  wc_ordered : caps_ordered ci';
  wc_cmap : cmap ci' = <[mds := c]> (cmap ci);
  wc_auth : ci_auth_cap ci' = ci_auth_cap ci \/ ci_auth_cap ci' = Some mds;
  wc_rest : (ci_dirty_caps ci', ci_flushing_caps ci', ci_flushing_item ci', ci_cap_snaps ci', ci_head_snapc ci', ci_snap_caps ci', __ceph_caps_used ci',
             ci_nr_by_mode ci')
          = (ci_dirty_caps ci, ci_flushing_caps ci, ci_flushing_item ci, ci_cap_snaps ci, ci_head_snapc ci, ci_snap_caps ci, __ceph_caps_used ci,
             ci_nr_by_mode ci) }.

Lemma used_low ci i : 0 <= i -> Z.testbit (__ceph_caps_used ci) i = true -> i < 32.
Proof.
  intros Hi Hu. destruct (Z_lt_ge_dec i 32) as [|Hge]; [done|]. exfalso.
  assert (Hs : __ceph_caps_used ci ⊑ Z.ones 32).
  { clear. intros i Hi. rewrite used_bit. rewrite Z.testbit_ones_nonneg by lia. destruct (Z.ltb_spec i 32) as [|Hge]; [done|].
    assert (forall n, 0 < n < 2 ^ 32 -> Z.testbit n i = false) as Hb.
    { intros n Hn. apply Z.bits_above_log2; [lia|]. apply Z.log2_lt_pow2; [lia|]. apply Z.lt_le_trans with (2 ^ 32); [lia|]. apply Z.pow_le_mono_r; lia. }
    rewrite !Hb by done. rewrite !andb_false_r. done. }
  specialize (Hs i Hi Hu). rewrite Z.testbit_ones_nonneg in Hs by lia. apply Z.ltb_lt in Hs. lia.
Qed.

Lemma inode_inv_with has d mds c ci ci' :
  inode_inv has d ci -> with_cap mds c ci ci' -> has mds -> c_issued c ⊑ c_implemented c -> CEPH_CAP_PIN ⊑ c_issued c ->
  (forall c0 i, cmap ci !! mds = Some c0 -> 0 <= i < 32 -> Z.testbit (c_implemented c0) i = true -> Z.testbit (c_implemented c) i = true) ->
  inode_inv has d ci'.
Proof.
  intros [I1 I2 I3 I4 I5 I6 I7 I8 Ir I9 I10] [W1 W2 W3 W4] Hs Hb Hp Hk. injection W4 as E1 E2 E3 E4 E5 E6 E7 E8.
  assert (Hall : forall (P : Z -> ceph_cap -> Prop), P mds c -> (forall m c', cmap ci !! m = Some c' -> P m c') ->
    forall m c', cmap ci' !! m = Some c' -> P m c').
  { intros P H1' H2' m c'. rewrite W2. intros [[<- <-]|[_ Hl]]%lookup_insert_Some; auto. }
  split; unfold __ceph_caps_dirty in *; rewrite ?E1, ?E2, ?E3, ?E4, ?E5; try done.
  - by apply (Hall (fun _ c => c_issued c ⊑ c_implemented c)).
  - by apply (Hall (fun _ c => CEPH_CAP_PIN ⊑ c_issued c)).
  - by apply (Hall (fun m _ => has m)).
  - intros m Hm. rewrite W2, lookup_insert_is_Some. destruct (decide (mds = m)); [by left|right]. split; [done|].
    apply I5. destruct W3 as [<-|E]; [done|congruence].
  - intros i Hi Hu. assert (Hlow : i < 32) by (by apply (used_low ci')). rewrite E7 in Hu. unfold holds. rewrite E6, W2.
    destruct (I6 i Hi Hu) as [?|(m & c' & Hc' & Hbit)]; [by left|right]. destruct (decide (mds = m)) as [<-|].
    + exists mds, c. rewrite lookup_insert_eq. split; [done|]. by apply (Hk c').
    + exists m, c'. by rewrite lookup_insert_ne.
Qed.

(** ** The steps of ceph_add_cap *)
Section Steps.
Context (ino mds : Z) (s0 : caps_state) (ci0 : ceph_inode_info).
Context (Hinv : inv s0) (Hci : cs_inodes s0 !! ino = Some ci0) (Hs : has_session s0 mds).

(** The cap that is there while the fields are set *)
Definition drafted (s : caps_state) : Prop :=
  (exists ci c, cs_inodes s = <[ino := ci]> (cs_inodes s0) /\ with_cap mds c ci0 ci /\ c_mds c = mds /\
     forall c0, cmap ci0 !! mds = Some c0 -> c_implemented c = c_implemented c0) /\
  (forall m, has_session s0 m -> has_session s m) /\ cs_dirty s = cs_dirty s0.

Definition drafts {A} (m : M A) : Prop := forall s, drafted s -> wpf m (fun _ s' => drafted s') s.

Lemma drafts_bind {A B} (m : M A) (k : A -> M B) : drafts m -> (forall a, drafts (k a)) -> drafts (sbind m k).
Proof. intros Hm Hk s Hd. apply wpf_bind. eapply wpf_mono; [by apply Hm|]. intros a s'. apply Hk. Qed.
Lemma drafts_ret {A} (a : A) : drafts (sret a).
Proof. by intros s Hd. Qed.
Lemma drafts_if {A} (b : bool) (m1 m2 : M A) : drafts m1 -> drafts m2 -> drafts (if b then m1 else m2).
Proof. by destruct b. Qed.
Lemma drafts_get {A} (k : caps_state -> M A) : (forall s, drafts (k s)) -> drafts (sbind sget k).
Proof. intros Hk s Hd. wpf_steps. by apply Hk. Qed.
Lemma drafts_same f :
  (forall s, cs_inodes (f s) = cs_inodes s) -> (forall s, cs_sessions (f s) = cs_sessions s) -> (forall s, cs_dirty (f s) = cs_dirty s) -> drafts (smod f).
Proof. intros E1 E2 E3 s Hd. wpf_steps. unfold drafted, has_session in *. by rewrite E1, E2, E3. Qed.

Lemma drafted_ci s : drafted s -> exists ci c, cs_inodes s !! ino = Some ci /\ with_cap mds c ci0 ci /\ c_mds c = mds /\
  (forall c0, cmap ci0 !! mds = Some c0 -> c_implemented c = c_implemented c0).
Proof. intros [(ci & c & E & ?) _]. exists ci, c. by rewrite E, lookup_insert_eq. Qed.

Lemma drafts_get_ci {A} (k : ceph_inode_info -> M A) : (forall ci, drafts (k ci)) -> drafts (sbind (get_ci ino) k).
Proof. intros Hk s Hd. destruct (drafted_ci s Hd) as (ci & c & Hc & _). apply wpf_bind, (wpf_get_ci _ _ ci); [done|]. by apply Hk. Qed.

Lemma drafted_set s ci c :
  drafted s -> with_cap mds c ci0 ci -> c_mds c = mds -> (forall c0, cmap ci0 !! mds = Some c0 -> c_implemented c = c_implemented c0) ->
  drafted (s <| cs_inodes ::= insert ino ci |>).
Proof.
  intros [(ci1 & c1 & E & _) Hr] Hw Hc Hi. split; [|done]. exists ci, c. split; [|done]. cbn. by rewrite E, insert_insert_eq.
Qed.

Lemma drafts_mod f :
  (forall ci, vital (f ci) = vital ci) -> (forall ci, ci_nr_by_mode (f ci) = ci_nr_by_mode ci) -> drafts (mod_ci ino f).
Proof.
  intros Hv Hn s Hd. destruct (drafted_ci s Hd) as (ci & c & Hc & [W1 W2 W3 W4] & Hm & Hi). apply (wpf_mod_ci _ _ ci); [done|].
  apply (drafted_set s _ c); [done| |done|done]. pose proof (Hv ci) as V. unfold vital in V. injection V as V1 V2 V3 V4 V5 V6 V7 V8 V9.
  split; unfold caps_ordered, cmap in *; rewrite ?V1, ?V2, ?V3, ?V4, ?V5, ?V6, ?V7, ?V8, ?V9, ?Hn; done.
Qed.

Lemma drafts_check_issue issued : drafts (__check_cap_issue ino issued).
Proof.
  unfold __check_cap_issue. apply drafts_get. intros s1. apply drafts_get_ci. intros ci. cbv zeta.
  apply drafts_bind; [apply drafts_if; [by apply drafts_mod|apply drafts_ret]|]. intros _. apply drafts_if; [|apply drafts_ret].
  apply drafts_bind; [by apply drafts_mod|]. intros _. apply drafts_if; [by apply drafts_mod|apply drafts_ret].
Qed.

Lemma drafts_delay : drafts (__cap_delay_requeue ino).
Proof.
  unfold __cap_delay_requeue, __cap_set_timeouts. apply drafts_bind; [apply drafts_get; intros s1; by apply drafts_mod|]. intros _.
  apply drafts_get. intros s1. apply drafts_get_ci. intros ci. repeat (apply drafts_if; [apply drafts_ret|]). by apply drafts_same.
Qed.

Lemma drafts_auth wanted mseq flags : drafts (set_auth_cap ino mds wanted mseq flags).
Proof.
  unfold set_auth_cap. apply drafts_get_ci. intros ci1. apply drafts_if; [|apply drafts_ret]. cbv zeta. apply drafts_if; [|apply drafts_ret].
  intros s Hd. destruct (drafted_ci s Hd) as (ci & c & Hc & [W1 W2 W3 W4] & Hm & Hi). apply wpf_bind, (wpf_mod_ci _ _ ci); [done|].
  set (ci2 := ci <| ci_auth_cap := Some mds |>). set (s2 := s <| cs_inodes ::= insert ino ci2 |>).
  assert (Hd2 : drafted s2) by (apply (drafted_set s _ c); [done|split; [done|done|by right|done]|done|done]).
  assert (Hc2 : cs_inodes s2 !! ino = Some ci2) by (cbn; by rewrite lookup_insert_eq).
  assert (Hl2 : cmap ci2 !! mds = Some c) by (change (cmap ci !! mds = Some c); by rewrite W2, lookup_insert_eq).
  unfold mod_cap. apply wpf_bind, (wpf_get_ci _ _ ci2); [done|]. rewrite get_cap_cmap, Hl2 by done. unfold set_ci. apply wpf_mod.
  set (c3 := c <| c_mds_wanted := s32 wanted |>). destruct (put_cap_cmap ci2 c3 c) as [Ho Hm3]; [done|by change (c_mds c3) with (c_mds c); rewrite Hm|].
  destruct (put_cap_rest c3 ci2) as (E1 & E2 & E3 & E4 & E5 & E6 & E7 & E8).
  apply (drafted_set s2 _ c3); [done| |done|done]. split; [done| | |].
  - rewrite Hm3. change (c_mds c3) with (c_mds c). rewrite Hm. change (cmap ci2) with (cmap ci). by rewrite W2, insert_insert_eq.
  - right. by rewrite E1.
  - rewrite E2, E3, E4, E5, E6, E7, E8. unfold put_cap. destruct (tree_lookup _ _ _) as [[]|]; exact W4.
Qed.
End Steps.

(** The cap of this MDS is found, or a new one is inserted. *)
Lemma wpf_find_or_insert ino mds seq mseq issued flags new_cap s ci :
  inv s -> cs_inodes s !! ino = Some ci -> has_session s mds -> (cmap ci !! mds = None -> is_Some new_cap) -> CEPH_CAP_PIN ⊑ issued ->
  wpf (find_or_insert_cap ino mds seq mseq issued flags new_cap)
    (fun r s' => drafted ino mds s ci s' /\ CEPH_CAP_PIN ⊑ r.1.1.2 /\ cs_realms s' = cs_realms s) s.
Proof.
  intros Hinv Hci Hs Hnew Hpin. pose proof (Hinv _ _ Hci) as Hiv. unfold find_or_insert_cap. apply wpf_bind, (wpf_get_ci _ _ ci); [done|].
  rewrite get_cap_cmap by apply Hiv. destruct (cmap ci !! mds) as [c|] eqn:Ec.
  - assert (Hd : drafted ino mds s ci s).
    { split; [|done]. exists ci, c. split; [by rewrite insert_id|]. split; [|split; [by eapply cmap_key; [apply Hiv|]|congruence]].
      split; [apply Hiv|by rewrite insert_id|by left|done]. }
    destruct (_ <=? 0); apply wpf_ret; (split; [done|]); (split; [|done]); cbn; [by apply sub_lor_l|done].
  - destruct (Hnew eq_refl) as [p ->]. set (c := Cap p mds 0 0 0 0 0 0 0 0).
    destruct (insert_cap_cmap ci c) as (ci1 & E1 & Ho1 & Hm1 & t & Et); [apply Hiv|done|].
    apply wpf_bind, wpf_lift with ci1; [done|]. unfold set_ci. apply wpf_bind, wpf_mod. apply wpf_bind. unfold mod_session.
    destruct Hs as [x Hx]. apply wpf_bind, (wpf_get_session _ _ x); [done|]. apply wpf_mod, wpf_ret. split; [|done].
    split; [|split; [|done]].
    + exists ci1, c. split; [done|]. split; [|split; [done|congruence]]. split; [done|done|left; by rewrite Et|by rewrite Et].
    + intros m Hm. unfold has_session. cbn. destruct (decide (mds = m)) as [->|]; [by rewrite lookup_insert_eq|by rewrite lookup_insert_ne].
Qed.

(** The fields of the cap are set. *)
Lemma wpf_set_cap ino mds f s ci s1 :
  inv s -> cs_inodes s !! ino = Some ci -> has_session s mds -> drafted ino mds s ci s1 ->
  (forall c, c_mds (f c) = c_mds c) -> (forall c, CEPH_CAP_PIN ⊑ c_issued (f c)) -> (forall c, c_issued (f c) ⊑ c_implemented (f c)) ->
  (forall c i, 0 <= i < 32 -> Z.testbit (c_implemented c) i = true -> Z.testbit (c_implemented (f c)) i = true) ->
  wpf (mod_cap ino mds f) (fun _ s' => keeps s s' /\ exists ci', cs_inodes s' !! ino = Some ci' /\ ci_nr_by_mode ci' = ci_nr_by_mode ci) s1.
Proof.
  intros Hinv Hci Hs [(ci1 & c & E & [W1 W2 W3 W4] & Hm & Hi) [Hss Hd]] F1 F2 F3 F4. unfold mod_cap.
  apply wpf_bind, (wpf_get_ci _ _ ci1); [by rewrite E, lookup_insert_eq|]. rewrite get_cap_cmap, W2, lookup_insert_eq by done. unfold set_ci. apply wpf_mod.
  destruct (put_cap_cmap ci1 (f c) c) as [Ho Hm3]; [done|by rewrite F1, Hm, W2, lookup_insert_eq|].
  destruct (put_cap_rest (f c) ci1) as (E1 & E2 & E3 & E4 & E5 & E6 & E7 & E8). injection W4 as V1 V2 V3 V4 V5 V6 V7 V8.
  set (ci2 := put_cap (f c) ci1) in *. assert (En : ci_nr_by_mode ci2 = ci_nr_by_mode ci).
  { unfold ci2, put_cap. destruct (tree_lookup _ _ _) as [[]|]; exact V8. }
  assert (Hw : with_cap mds (f c) ci ci2).
  { split; [done| | |congruence]. - rewrite Hm3, F1, Hm, W2. by rewrite insert_insert_eq. - by rewrite E1. }
  assert (Hiv2 : inode_inv (has_session s) (linked ino (cs_dirty s)) ci2).
  { apply (inode_inv_with _ _ mds (f c) ci); auto. intros c0 i Hc0 Hr Hb. apply F4; [done|]. by rewrite (Hi c0 Hc0). }
  split; [|exists ci2; split; [cbn; by rewrite lookup_insert_eq|done]]. split.
  - intros j cj. cbn. rewrite E, insert_insert_eq. intros Hj. eapply inode_inv_has; [exact Hss|]. rewrite Hd.
    apply lookup_insert_Some in Hj as [[<- <-]|[_ Hj]]; [done|]. by apply Hinv.
  - intros j Hj. cbn. rewrite E, insert_insert_eq, lookup_insert_is_Some. destruct (decide (ino = j)); [by left|by right].
  - intros j cj Hj. cbn. rewrite E, insert_insert_eq. destruct (decide (ino = j)) as [<-|].
    + exists ci2. rewrite lookup_insert_eq. split; [done|]. rewrite Hci in Hj. injection Hj as <-. intros m Hmm. rewrite (wc_cmap _ _ _ _ Hw), lookup_insert_is_Some.
      destruct (decide (mds = m)); [by left|by right].
    + exists cj. rewrite lookup_insert_ne by done. split; [done|]. by intros m.
  - done.
Qed.

Lemma wpf_add_cap ino mds cap_id fmode issued wanted seq mseq realmino flags new_cap s ci :
  inv s -> cs_inodes s !! ino = Some ci -> has_session s mds -> (cmap ci !! mds = None -> is_Some new_cap) -> CEPH_CAP_PIN ⊑ issued ->
  (0 <= fmode -> is_Some (ci_nr_by_mode ci !! Z.to_nat fmode)) -> (exists r, join_realm ino realmino (cs_realms s) = Ret r) ->
  wpf (ceph_add_cap ino mds cap_id fmode issued wanted seq mseq realmino flags new_cap) (fun _ s' => keeps s s') s.
Proof.
  intros Hinv Hci Hs Hnew Hpin Hmode [r Hr]. unfold ceph_add_cap. cbv zeta. apply wpf_bind.
  eapply wpf_mono; [by apply (wpf_find_or_insert ino mds seq mseq issued flags new_cap s ci)|].
  cbv beta. intros [[[[seq' mseq'] issued'] flags'] new'] s1 (Hd1 & Hpin' & Er). cbn in Hpin'. apply wpf_bind, wpf_get, wpf_bind.
  apply wpf_mono with (P := fun _ s' => drafted ino mds s ci s').
  { destruct (realm_of ino (cs_realms s1)); [by apply wpf_ret|]. unfold wpf, in_realms. rewrite Er, Hr. exact Hd1. }
  intros _ s2 Hd2. apply wpf_bind. eapply wpf_mono; [by apply (drafts_check_issue ino mds s ci)|]. cbv beta. clear s1 Hd1 Er. intros _ s3 Hd3.
  destruct (drafted_ci _ _ _ _ _ Hd3) as (ci3 & c3 & Hci3 & _). apply wpf_bind, (wpf_get_ci _ _ ci3); [done|]. apply wpf_bind.
  eapply wpf_mono; [apply (drafts_if ino mds s ci); [by apply drafts_delay|apply drafts_ret|done]|]. cbv beta. intros _ s4 Hd4. apply wpf_bind.
  eapply wpf_mono; [by apply (drafts_auth ino mds s ci)|]. cbv beta. intros _ s5 Hd5.
  destruct (proj1 (proj2 Hd5) mds Hs) as [x Hx]. apply wpf_bind, (wpf_get_session _ _ x); [done|]. apply wpf_bind.
  eapply wpf_mono; [apply (wpf_set_cap ino mds _ s ci s5); [done|done|done|done|done| | |]|].
  - intros c i Hi Hp. cbn. assert (i = 0) as -> by (by apply (one_bit 0 0 i)). rewrite s32_bit by lia. by apply Hpin'.
  - intros c. cbn. apply s32_mono, sub_lor_r.
  - intros c i Hi Hb. cbn. by rewrite s32_bit, Z.lor_spec, Hb by done.
  - cbv beta. intros _ s6 (K6 & ci6 & Hci6 & En). apply wpf_bind. eapply wpf_mono with (P := fun _ s' => keeps s s'); [|intros ? s7 K7; by apply wpf_ret].
    destruct (Z.ltb_spec fmode 0) as [|Hf]; [by apply wpf_ret|]. destruct (Hmode Hf) as [n Hn].
    apply wpf_bind, (wpf_get_ci _ _ ci6); [done|]. rewrite En. apply wpf_bind, wpf_lift with n; [unfold rd; rewrite (proj2 (Z.ltb_ge _ _)) by done; by rewrite Hn|].
    assert (Hlen : (Z.to_nat fmode < length (ci_nr_by_mode ci))%nat) by (by apply lookup_lt_is_Some; eexists).
    apply wpf_bind, wpf_lift with (<[Z.to_nat fmode := s32 (n + 1)]> (ci_nr_by_mode ci)).
    { unfold wr. rewrite (proj2 (Z.leb_le _ _)), (proj2 (Z.ltb_lt _ _)) by lia. done. }
    apply (wpf_safe ino); [by apply safe_mod_vital|apply K6|by eexists|]. intros ? s7 K7. by eapply keeps_trans.
Qed.
End Add.
