(* ===== verification/CapsDemo.v ===== *)
(** * The capabilities of a concrete client

    The interface to the snapshot realms is implemented by the realms of Snap.v;
    with it, a small client on which the theorems are tried. *)
From S2P Require Import Prelude.
From S2P Require Import Wire.
From S2P Require Import RbTree.
From S2P Require Import StateM.
From S2P Require Import FileLayout.
From S2P Require Import OsdReq.
From S2P Require Import Snap.
From S2P Require Import CapPool.
From S2P Require Import Caps.
From S2P Require Import CapsFlush.
From S2P Require Import CapsRefs.
From S2P Require Import CapsInv.
From S2P Require Import CapsAdd.
From stdpp Require Import gmap.
#[local] Open Scope Z_scope.
#[local] Open Scope ceph_scope.
#[local] Open Scope st_scope.

(** ** The realms of Snap.v *)
Section SnapRealms.
Context `{RbOps} (kmalloc_ok : nat -> Z -> bool) (put_trylock : bool).

Definition snap_realm_of (ino : Z) (s : snap_state) : option Z := default None (sn_inodes s !! ino).

Definition snap_context (ino : Z) (s : snap_state) : option snapc :=
  match snap_realm_of ino s with
  | Some p =>
      match sn_realms s !! p with
      | Some r =>
          match sr_cached_context r with
          | Some i => match sn_ctx s !! i with Some sc => Some (i, sc_seq sc) | None => None end
          | None => None
          end
      | None => None
      end
  | None => None
  end.

(** The inode enters the realm, if there is one. *)
Definition snap_join (ino realmino : Z) : ST snap_state unit :=
  realm ↢ ceph_lookup_snap_realm realmino;
  match realm with
  | Some p =>
      _ ↢ ceph_get_snap_realm p;
      _ ↢ smod (fun s => s <| sn_inodes ::= insert ino (Some p) |>);
      mod_realm p (fun r => r <| sr_inodes_with_caps ::= cons ino |>)
  | None => sret tt
  end.

Definition snap_leave (ino : Z) : ST snap_state unit :=
  s ↢ sget;
  match snap_realm_of ino s with
  | Some p =>
      _ ↢ mod_realm p (fun r => r <| sr_inodes_with_caps ::= unlink ino |>);
      _ ↢ smod (fun s => s <| sn_inodes ::= insert ino None |>);
      ceph_put_snap_realm put_trylock p
  | None => sret tt
  end.

Definition state_after {A} (m : ST snap_state A) (s : snap_state) : outcome snap_state := '(_, s) ← m s; Ret s.

Definition snap_realms : Realms := {|
  realms := snap_state;
  realm_of := snap_realm_of;
  realm_context := snap_context;
  join_realm := fun ino realmino => state_after (snap_join ino realmino);
  leave_realm := fun ino => state_after (snap_leave ino);
  update_trace := fun msg p => state_after (ceph_update_snap_trace kmalloc_ok msg p) |}.
End SnapRealms.

(** ** A client with one session and one inode

    The first attempt to take a lock fails. *)
Definition demo_xattrs : CapXattrs := {|
  xattrs := Z * option (list Z);
  build_blob := fun x => (Z.succ (fst x), Some []);
  blob_of := snd;
  version_of := fst;
  set_blob := fun v b _ => (v, Some b) |}.
#[local] Existing Instance demo_xattrs.
#[local] Instance demo_realms : Realms := snap_realms (fun _ _ => true) true.
#[local] Instance demo_env : CapsEnv := {|
  msg_ok := fun _ => true;
  cap_ok := fun _ => true;
  trylock := fun n => negb (n =? 0)%nat;
  others := fun _ s => s;
  pages_left := fun _ _ => 0;
  round_jiffies := fun j => j;
  HZ := 250;
  caps_wanted_delay_min := 5;
  caps_wanted_delay_max := 60;
  cap_release_safety := 340;
  open_target := fun _ => None;
  retries := 0 |}.

Definition demo_snap : snap_state :=
  SnapState (Node Black Nil 1 Nil) {[1 := SnapRealm 1 1 0 0 0 0 None 0 None 0 None [] (Some 0%nat) []]} [] {[0%nat := SnapContext 1 5 []]} 1 0 ∅ [].
Definition demo_inode : ceph_inode_info :=
  InodeInfo CEPH_NOSNAP 0 0 0 (Layout 0 0 0) (0, None) Nil None 0 0 None 0 0 (repeat 0 CEPH_CAP_BITS) 0 0 [] None 0 [0; 0; 0; 0; 0]
    0 0 0 4096 0 0 0 0 0 0 0 0 0 0 0 0 0 0 1 0 0 (0, 0) (0, 0) (0, 0) 0 0 0 0 0 false.
Definition demo_state : caps_state :=
  CapsState {[2 := demo_inode]} {[0 := MdsSession CEPH_MDS_SESSION_OPEN 0 1 1000 [] 0 0 0 false None [] [] [] []]} demo_snap
    (CapPool [] 0 0 0 0 0 0 0) [] [] 0 0 [] false 10 [] [] 0 0 0 0.

Definition demo_bits : Z := or_all [CEPH_CAP_PIN; CEPH_CAP_FILE_RD; CEPH_CAP_FILE_WR; CEPH_CAP_FILE_BUFFER].
Lemma demo_quiet n s : others n s = s.
Proof. done. Qed.
Lemma demo_pages n : pages_left n 0 = 0.
Proof. done. Qed.
Lemma demo_others n s : inv s -> keeps s (others n s).
Proof. apply keeps_refl. Qed.

Lemma demo_inv : inv demo_state.
Proof.
  intros ino ci. cbn. rewrite lookup_singleton_Some. intros [<- <-]. split; try done.
  - split; constructor.
  - intros i Hi Hu. by rewrite Z.bits_0 in Hu.
Qed.

Lemma found {A} (o : option A) : match o with Some _ => true | None => false end = true -> is_Some o.
Proof. by destruct o. Qed.
(** With a cap that reads, writes and buffers *)
Definition demo_capped : caps_state :=
  match ceph_add_cap 2 0 77 2 demo_bits 0 1 0 1 CEPH_CAP_FLAG_AUTH (Some 0%nat) demo_state with Ret (_, s) => s | _ => demo_state end.

Lemma demo_pin : CEPH_CAP_PIN ⊑ demo_bits.
Proof. unfold demo_bits, or_all. cbn [foldr]. bits. Qed.

Lemma demo_capped_inv : inv demo_capped.
Proof.
  assert (Hw : wpf (ceph_add_cap 2 0 77 2 demo_bits 0 1 0 1 CEPH_CAP_FLAG_AUTH (Some 0%nat)) (fun _ s' => keeps demo_state s') demo_state).
  { apply (wpf_add_cap _ _ _ _ _ _ _ _ _ _ _ _ demo_inode); [exact demo_inv|done|by apply found; vm_compute|by eexists|exact demo_pin|by eexists|].
    exists (match state_after (snap_join 2 1) demo_snap with Ret r => r | _ => demo_snap end). vm_compute. reflexivity. }
  unfold demo_capped. unfold wpf in Hw. destruct (ceph_add_cap _ _ _ _ _ _ _ _ _ _ _ demo_state) as [[a s']| |]; [apply Hw|exact demo_inv|exact demo_inv].
Qed.
