(* ===== verification/CapsEnd.v ===== *)
(** * ceph_check_caps ends

    The loop starts again whenever a lock had to be taken in the wrong order, and
    after every message; the caps are visited by increasing rank.  When no other
    thread intervenes, it ends: with the fuel of CapsFlush.v, the function returns. *)
From S2P Require Import Prelude.
From S2P Require Import RbTree.
From S2P Require Import StateM.
From S2P Require Import FileLayout.
From S2P Require Import CapPool.
From S2P Require Import Caps.
From S2P Require Import CapsFlush.
From S2P Require Import CapsInv.
From S2P Require Import CapsSafe.
From S2P Require Import CapsDemo.
From stdpp Require Import gmap.
#[local] Open Scope Z_scope.
#[local] Open Scope ceph_scope.
#[local] Open Scope st_scope.

Section End.
Context `{RbOps} `{CapXattrs} `{Realms} `{!CapsEnv}.
Context (Hquiet : forall n s, others n s = s) (Hpages : forall n, pages_left n 0 = 0).

(** ** What the steps leave as it was *)
Definition ranks (ci : ceph_inode_info) : list Z := c_mds <$> inorder (ci_caps ci).
Definition unflushed (ci : ceph_inode_info) : nat := length (List.filter (fun k => negb (bool_decide (is_Some (k_flushing k)))) (ci_cap_snaps ci)).

Definition calmed (ci ci' : ceph_inode_info) : Prop :=
  ranks ci' = ranks ci /\ ci_auth_cap ci' = ci_auth_cap ci /\ ci_cap_snaps ci' = ci_cap_snaps ci.
#[local] Instance calmed_refl : Reflexive calmed.
Proof. by intros ci. Qed.
#[local] Instance calmed_trans : Transitive calmed.
Proof. intros a b c (?&?&?) (?&?&?). split; [congruence|]. split; congruence. Qed.

(** From this state the program does not run out of fuel, and the caps of the inode
    are from the same ranks. *)
Definition calm_at {A} (ino : Z) (s : caps_state) (m : M A) : Prop :=
  match m s with
  | Ret (_, s') => forall ci, cs_inodes s !! ino = Some ci -> exists ci', cs_inodes s' !! ino = Some ci' /\ calmed ci ci'
  | Fault OutOfFuel => False
  | _ => True
  end.
Definition calm {A} (ino : Z) (m : M A) : Prop := forall s, calm_at ino s m.

Lemma calm_ret {A} ino (a : A) : calm ino (sret a).
Proof. intros s ci Hci. by exists ci. Qed.
Lemma calm_fault {A} ino f : f <> OutOfFuel -> calm (A := A) ino (sfault f).
Proof. intros Hf s. unfold calm_at. by destruct f. Qed.
Lemma calm_bind_at {A B} ino s (m : M A) (k : A -> M B) : calm_at ino s m -> (forall a, calm ino (k a)) -> calm_at ino s (sbind m k).
Proof.
  unfold calm_at, sbind. intros Hm Hk. destruct (m s) as [[a s1]| |]; cbn; [|done|done]. specialize (Hk a s1). unfold calm_at in Hk.
  destruct (k a s1) as [[b s2]| |]; [|done|done]. intros ci (ci1 & (ci2 & Hci2 & H2')%Hk & H1')%Hm. exists ci2. split; [done|]. by etransitivity.
Qed.
Lemma calm_bind {A B} ino (m : M A) (k : A -> M B) : calm ino m -> (forall a, calm ino (k a)) -> calm ino (sbind m k).
Proof. intros Hm Hk s. by apply calm_bind_at. Qed.
Lemma calm_if {A} ino (b : bool) (m1 m2 : M A) : calm ino m1 -> calm ino m2 -> calm ino (if b then m1 else m2).
Proof. by destruct b. Qed.
Lemma calm_get_at {A} ino s (k : caps_state -> M A) : calm_at ino s (k s) -> calm_at ino s (sbind sget k).
Proof. done. Qed.
Lemma calm_get {A} ino (k : caps_state -> M A) : (forall s, calm ino (k s)) -> calm ino (sbind sget k).
Proof. intros Hk s. apply calm_get_at, Hk. Qed.
Lemma calm_ret_at {A B} ino s (a : A) (k : A -> M B) : calm_at ino s (k a) -> calm_at ino s (sbind (sret a) k).
Proof. done. Qed.
Lemma calm_bug_at {A} ino s b (k : unit -> M A) : calm_at ino s (k tt) -> calm_at ino s (sbind (slift (bug_on b)) k).
Proof. by destruct b. Qed.
Lemma calm_read_at {A} ino s (k : ceph_inode_info -> M A) :
  (forall ci, cs_inodes s !! ino = Some ci -> calm_at ino s (k ci)) -> calm_at ino s (sbind (get_ci ino) k).
Proof.
  intros Hk. assert (Hg : get_ci ino s = match cs_inodes s !! ino with Some ci => Ret (ci, s) | None => Fault NullPointer end).
  { unfold get_ci, sbind, sget. cbn. by destruct (cs_inodes s !! ino). }
  unfold calm_at, sbind. rewrite Hg. destruct (cs_inodes s !! ino) as [ci|] eqn:E; [|done]. cbn. specialize (Hk ci eq_refl). unfold calm_at in Hk. by rewrite E in Hk.
Qed.
Lemma calm_set_at ino s ci ci' : cs_inodes s !! ino = Some ci -> calmed ci ci' -> calm_at ino s (set_ci ino ci').
Proof. intros Hci Hc ci0 Hci0. exists ci'. cbn. rewrite lookup_insert_eq. split; [done|]. congruence. Qed.
Lemma calm_mod_ci ino f : (forall ci, calmed ci (f ci)) -> calm ino (mod_ci ino f).
Proof. intros Hf s. apply calm_read_at. intros ci Hci. by eapply calm_set_at. Qed.
Lemma calm_mod ino f : (forall s, cs_inodes (f s) = cs_inodes s) -> calm ino (smod f).
Proof. intros Hf s ci Hci. exists ci. by rewrite Hf. Qed.
Lemma calm_mod_session ino m f : calm ino (mod_session m f).
Proof.
  intros s. unfold calm_at, mod_session, sbind, get_session, sbind, sget. cbn. destruct (cs_sessions s !! m); [|done]. cbn. intros ci Hci. by exists ci.
Qed.
Lemma calm_unlocked ino : calm ino unlocked.
Proof. apply calm_mod. intros s. by rewrite Hquiet. Qed.
Lemma calm_send_msg ino mds m : calm ino (send_cap_msg mds m).
Proof.
  unfold send_cap_msg. apply calm_get. intros s. apply calm_bind; [by apply calm_mod|]. intros _. apply calm_if; [apply calm_ret|].
  apply calm_bind; [by apply calm_mod|]. intros _. apply calm_ret.
Qed.
#[local] Hint Resolve calm_ret calm_mod_session calm_unlocked calm_send_msg : core.

(** ** The steps of the loop *)
Lemma search_cmp {V K} (cmp : K -> V -> Z) t k p q v : search cmp t k p = Some (q, v) -> cmp k v = 0.
Proof.
  revert p. induction t as [|c l IHl w r IHr]; intros p; cbn [search]; [done|]. destruct (Z.ltb_spec (cmp k w) 0); [by apply IHl|].
  destruct (Z.ltb_spec 0 (cmp k w)); [by apply IHr|]. intros [= <- <-]. lia.
Qed.

Lemma ranks_put c ci : ranks (put_cap c ci) = ranks ci.
Proof.
  unfold put_cap. destruct (tree_lookup cap_cmp (ci_caps ci) (c_mds c)) as [[p c1]|] eqn:E; [|done]. unfold ranks. cbn.
  pose proof (tree_lookup_at _ _ _ _ _ E) as Ha. pose proof (search_cmp _ _ _ _ _ _ E) as Hk. unfold cap_cmp in Hk.
  rewrite (inorder_update _ _ _ _ Ha), (inorder_path _ _ _ Ha), !fmap_app. cbn. do 2 f_equal. lia.
Qed.

Lemma calmed_put c ci : calmed ci (put_cap c ci).
Proof. destruct (put_cap_rest c ci) as (E1 & _ & _ & _ & E5 & _). split; [apply ranks_put|]. done. Qed.

Lemma calm_send_cap ino mds op used want retain flushing : calm ino (__send_cap ino mds op used want retain flushing).
Proof.
  intros s. unfold __send_cap. apply calm_read_at. intros ci Hci. destruct (__get_cap_for_mds ci mds) as [cap|]; [|by apply calm_fault].
  apply calm_get_at. cbv zeta. apply calm_bug_at. set (c' := cap <| c_issued := _ |> <| c_implemented := _ |> <| c_mds_wanted := _ |>).
  set (ci1 := (put_cap c' ci) <| ci_flags ::= _ |>). set (ci2 := if negb (flushing =? 0) then ci1 <| ci_cap_flush_last_tid := _ |> <| ci_cap_flush_tid ::= _ |> else ci1).
  assert (H2' : calmed ci ci2) by (etransitivity; [apply (calmed_put c')|]; unfold ci2; destruct (negb (flushing =? 0)); by repeat split). clearbody ci2.
  assert (Hrest : forall follows ci3 k, calmed ci2 ci3 -> (forall r, calm ino (k r)) ->
    calm_at ino s (_ ↢ set_ci ino ci3; _ ↢ unlocked; r ↢ send_cap_msg mds (follows : cap_msg); (k r : M (bool * option Z)))).
  { intros m ci3 k Hc Hk. apply calm_bind_at; [eapply calm_set_at; [done|by etransitivity]|]. intros _. apply calm_bind; [done|]. intros _. by apply calm_bind. }
  assert (Hlast : forall b (r : bool * option Z), calm ino (_ ↢ (if b : bool then queue_work (WakeUp ino) else sret tt); sret r)).
  { intros b r. apply calm_bind; [apply calm_if; [by apply calm_mod|done]|done]. }
  destruct (negb (flushing =? 0)); [destruct (ci_head_snapc ci2) as [sc|]; [|exact I]|]; apply calm_ret_at, Hrest; try (intros r; apply Hlast); destruct (any flushing CEPH_CAP_XATTR_EXCL); by repeat split.
Qed.

Lemma calm_move_flushing ino mds : calm ino (move_flushing ino mds).
Proof.
  intros s. unfold move_flushing. apply calm_read_at. intros ci Hci. apply calm_bind_at; [by destruct (ci_flushing_item ci); [apply calm_mod_session|apply calm_ret]|].
  intros _. apply calm_bind; [done|]. intros _. by apply calm_mod_ci.
Qed.

Lemma calm_mark_flushing ino mds : calm ino (__mark_caps_flushing ino mds).
Proof.
  intros s. unfold __mark_caps_flushing. apply calm_read_at. intros ci Hci. apply calm_get_at, calm_bug_at, calm_bug_at. cbv zeta.
  apply calm_bind_at; [by apply calm_mod_ci|]. intros _. apply calm_bind; [by apply calm_mod|]. intros _.
  apply calm_bind; [destruct (ci_flushing_item ci); [done|by apply calm_mod]|]. intros _. apply calm_bind; [apply calm_move_flushing|done].
Qed.

Lemma calm_check_invalidate ino revoking k : calm ino (check_invalidate ino revoking k).
Proof.
  assert (Hread : forall A (f : ceph_inode_info -> M A), (forall ci, calm ino (f ci)) -> calm ino (sbind (get_ci ino) f)).
  { intros A f Hf s. apply calm_read_at. intros ci _. apply Hf. }
  unfold check_invalidate, try_nonblocking_invalidate. apply calm_bind.
  - apply Hread. intros ci. apply calm_get. intros s. apply calm_bind; [by apply calm_mod_ci|]. intros _. apply calm_bind; [done|]. intros _.
    apply Hread. intros ci1. apply calm_if; [|done]. apply calm_bind; [by apply calm_mod_ci|done].
  - intros r. cbv zeta. apply calm_if; [|done]. apply calm_if; (apply calm_bind; [|done]); [by apply calm_mod_ci|].
    unfold __cap_set_timeouts. apply calm_get. intros s. by apply calm_mod_ci.
Qed.

Lemma calm_check_finish ino d n k : calm ino (check_finish ino d n k).
Proof.
  assert (Hrq : calm ino (__cap_delay_requeue ino)).
  { unfold __cap_delay_requeue, __cap_set_timeouts. apply calm_bind; [apply calm_get; intros s; by apply calm_mod_ci|]. intros _. apply calm_get. intros s s1.
    apply calm_read_at. intros ci _. repeat (apply calm_if; [done|]). by apply calm_mod. }
  unfold check_finish. apply calm_bind; [|intros _; apply calm_if; [by apply calm_mod|done]]. apply calm_if; [by apply calm_mod|]. by apply calm_if.
Qed.

(** ** The loop *)
Definition ends {A} (m : M A) (s : caps_state) : Prop := m s <> Fault OutOfFuel.

Lemma ends_bind {A B} (m : M A) (k : A -> M B) s : ends m s -> (forall a s', m s = Ret (a, s') -> ends (k a) s') -> ends (sbind m k) s.
Proof. unfold ends, sbind. intros Hm Hk. destruct (m s) as [[a s']| |]; cbn; [by apply Hk|done|intros [= ->]; done]. Qed.

Lemma calm_ends {A} ino (m : M A) s : calm ino m -> ends m s.
Proof. intros Hm E. specialize (Hm s). unfold calm_at in Hm. by rewrite E in Hm. Qed.

Lemma calm_Ret {A} ino (m : M A) s a s' ci :
  calm ino m -> m s = Ret (a, s') -> cs_inodes s !! ino = Some ci -> exists ci', cs_inodes s' !! ino = Some ci' /\ calmed ci ci'.
Proof. intros Hm E. specialize (Hm s). unfold calm_at in Hm. rewrite E in Hm. apply Hm. Qed.

Lemma wpf_Ret {A} (m : M A) Q s a s' : wpf m Q s -> m s = Ret (a, s') -> Q a s'.
Proof. unfold wpf. intros Hw E. by rewrite E in Hw. Qed.

Lemma quiet_keeps n s : inv s -> keeps s (others n s).
Proof. intros Hinv. rewrite Hquiet. by apply keeps_refl. Qed.

(** What the loop computes from the state before it acts *)
Definition wants_invalidate (s : caps_state) (d : bool) (k : check) (ci : ceph_inode_info) : bool :=
  (negb d || cs_stopping s) && (ci_wrbuffer_ref ci =? 0) && negb (vi_nrpages ci =? 0) &&
  ((__ceph_caps_file_wanted ci =? 0) || any (without (snd (__ceph_caps_issued s ci)) (fst (__ceph_caps_issued s ci))) cache_caps) && negb (k_tried_invalidate k).
Definition scanned (s : caps_state) (flags : Z) (d : bool) (k : check) (ci : ceph_inode_info) : Z * option ceph_cap :=
  let want := Z.lor (__ceph_caps_file_wanted ci) (__ceph_caps_used ci) in
  scan_caps (cs_jiffies s) flags (k_mds k) d ci (__ceph_caps_used ci) want (caps_to_retain (cs_stopping s) ci want) (inorder (ci_caps ci)) 0.

(** The caps still to be visited, and the locks that are held for the next of them *)
Definition todo (k : check) (ci : ceph_inode_info) : nat := length (List.filter (fun m => k_mds k <? m) (ranks ci)).
Definition progress (s : caps_state) (flags : Z) (d : bool) (k : check) (ci : ceph_inode_info) : nat :=
  if wants_invalidate s d k ci then 0
  else
    match snd (scanned s flags d k ci) with
    | Some cap => if bool_decide (k_session k = Some (c_mds cap)) then (if k_snap_rwsem k then 2 else 1) else 0
    | None => 0
    end%nat.
Definition untried (k : check) : nat := if k_tried_invalidate k then 0 else 1.

Lemma progress_le s flags d k ci : (progress s flags d k ci <= 2)%nat.
Proof. unfold progress. repeat case_match; lia. Qed.

Lemma filter_length_lt (l : list Z) a b : a < b -> b ∈ l -> (length (List.filter (fun m => b <? m)%Z l) < length (List.filter (fun m => a <? m)%Z l))%nat.
Proof.
  intros Hab. induction l as [|x l IH]; [by intros ?%elem_of_nil|]. intros Hin. cbn.
  assert (Hle : forall l, (length (List.filter (fun m => b <? m)%Z l) <= length (List.filter (fun m => a <? m)%Z l))%nat).
  { clear -Hab. induction l as [|x l IH]; [done|]. cbn. destruct (Z.ltb_spec b x), (Z.ltb_spec a x); cbn; lia. }
  apply elem_of_cons in Hin as [<-|Hin].
  - rewrite Z.ltb_irrefl, (proj2 (Z.ltb_lt _ _) Hab). cbn. specialize (Hle l). lia.
  - specialize (IH Hin). destruct (Z.ltb_spec b x), (Z.ltb_spec a x); cbn; lia.
Qed.

Lemma todo_next k ci ci' cap :
  ranks ci' = ranks ci -> cap ∈ inorder (ci_caps ci) -> k_mds k < c_mds cap -> (todo (k <| k_mds := c_mds cap |>) ci' < todo k ci)%nat.
Proof. intros E Hin Hlt. unfold todo. rewrite E. apply (filter_length_lt (ranks ci) (k_mds k) (c_mds cap)); [done|]. unfold ranks. by apply list_elem_of_fmap_2. Qed.

Lemma scan_after now flags mds d ci used want retain l n m cap :
  scan_caps now flags mds d ci used want retain l n = (m, Some cap) -> cap ∈ l /\ mds < c_mds cap.
Proof.
  revert n. induction l as [|c l IH]; intros n; cbn [scan_caps]; [done|].
  assert (Hrec : forall n, scan_caps now flags mds d ci used want retain l n = (m, Some cap) -> cap ∈ c :: l /\ mds < c_mds cap).
  { intros n' [? ?]%IH. split; [by right|done]. }
  destruct (Z.leb_spec (c_mds c) mds); cbn [orb]; [apply Hrec|]. destruct (_ && _); [apply Hrec|].
  destruct (check_cap _ _ _ _ _ _ _ c); [apply Hrec|apply Hrec|]. destruct (any _ _); [apply Hrec|]. intros [= _ <-]. split; [by left|done].
Qed.

(** The state of the locks after an attempt *)
Lemma take_locks_quiet cap k s :
  exists ok k' s', take_locks cap k s = Ret ((ok, k'), s') /\
    cs_inodes s' = cs_inodes s /\ cs_sessions s' = cs_sessions s /\ cs_jiffies s' = cs_jiffies s /\ cs_stopping s' = cs_stopping s /\
    k_mds k' = k_mds k /\ k_tried_invalidate k' = k_tried_invalidate k /\ k_session k' = Some (c_mds cap) /\
    (ok = false -> (k_session k <> Some (c_mds cap) /\ k_snap_rwsem k' = false) \/ (k_snap_rwsem k = false /\ k_snap_rwsem k' = true)).
Proof.
  assert (Hl : forall b s, exists ok s', (if b : bool then sret true else try_lock) s = Ret (ok, s') /\ (b = true -> ok = true) /\
    cs_inodes s' = cs_inodes s /\ cs_sessions s' = cs_sessions s /\ cs_jiffies s' = cs_jiffies s /\ cs_stopping s' = cs_stopping s).
  { intros [] s1; [by exists true, s1|]. by exists (trylock (cs_trylocks s1)), (s1 <| cs_trylocks ::= S |>). }
  assert (Hu : forall s, exists s', unlocked s = Ret (tt, s') /\
    cs_inodes s' = cs_inodes s /\ cs_sessions s' = cs_sessions s /\ cs_jiffies s' = cs_jiffies s /\ cs_stopping s' = cs_stopping s).
  { intros s1. exists (s1 <| cs_unlocks ::= S |>). unfold unlocked, smod. by rewrite Hquiet. }
  unfold take_locks. destruct (Hl (bool_decide (k_session k = Some (c_mds cap))) s) as (ok & s1 & E1 & M1 & ? & ? & ? & ?).
  unfold sbind at 1. rewrite E1. cbn [obind]. destruct ok; cbn [negb].
  - cbv zeta. destruct (Hl (k_snap_rwsem k) s1) as (ok2 & s2 & E2 & M2 & ? & ? & ? & ?). unfold sbind at 1.
    change (k_snap_rwsem (k <| k_session := Some (c_mds cap) |>)) with (k_snap_rwsem k). rewrite E2. cbn [obind]. destruct ok2; cbn [negb].
    + do 3 eexists. split; [done|]. repeat (split; [congruence|]). repeat (split; [done|]). done.
    + destruct (Hu s2) as (s3 & E3 & ? & ? & ? & ?). unfold sbind. rewrite E3. do 3 eexists. split; [done|]. repeat (split; [congruence|]).
      repeat (split; [done|]). intros _. right. split; [|done]. destruct (k_snap_rwsem k); [by discriminate M2|done].
  - destruct (Hu s1) as (s3 & E3 & ? & ? & ? & ?). unfold sbind. rewrite E3. do 3 eexists. split; [done|]. repeat (split; [congruence|]).
    repeat (split; [done|]). intros _. left. split; [|done]. intros E. by rewrite bool_decide_true in M1 by done; discriminate M1.
Qed.

(** One round *)
Definition ack_cap (ino : Z) (s : caps_state) (ci : ceph_inode_info) (cap : ceph_cap) : M (bool * option Z) :=
  let want := Z.lor (__ceph_caps_file_wanted ci) (__ceph_caps_used ci) in
  flushing ↢ (if is_auth ci cap && negb (ci_dirty_caps ci =? 0) then __mark_caps_flushing ino (c_mds cap) else sret 0);
  __send_cap ino (c_mds cap) CEPH_CAP_OP_UPDATE (used_by ci cap) want (caps_to_retain (cs_stopping s) ci want) flushing.

Definition round (ino flags : Z) (d : bool) (k : check) (s : caps_state) (ci : ceph_inode_info) (again : check -> M unit) : M unit :=
  if wants_invalidate s d k ci
  then k ↢ check_invalidate ino (without (snd (__ceph_caps_issued s ci)) (fst (__ceph_caps_issued s ci))) k; again k
  else
    match scanned s flags d k ci with
    | (n, None) => check_finish ino d (k_delayed k + n) k
    | (n, Some cap) =>
        '(ok, k) ↢ take_locks cap (k <| k_delayed ::= fun m => s32 (m + n) |>);
        if negb ok then again k
        else '(dl, _) ↢ ack_cap ino s ci cap; again (k <| k_mds := c_mds cap |> <| k_delayed ::= fun n => s32 (n + Z.b2z dl) |>)
    end.

Lemma get_ci_at {A} ino s ci (k : ceph_inode_info -> M A) : cs_inodes s !! ino = Some ci -> sbind (get_ci ino) k s = k ci s.
Proof. intros Hci. unfold sbind, get_ci, sbind, sget. cbn. by rewrite Hci. Qed.

Lemma sbind_assoc {A B C} (m : M A) (f : A -> M B) (g : B -> M C) s : sbind (sbind m f) g s = sbind m (fun a => sbind (f a) g) s.
Proof. unfold sbind. by destruct (m s) as [[]| |]. Qed.

Lemma sbind_ext {A B} (m : M A) (f g : A -> M B) s : (forall a s, f a s = g a s) -> sbind m f s = sbind m g s.
Proof. intros E. unfold sbind. destruct (m s) as [[a s']| |]; cbn; [apply E|done|done]. Qed.

Lemma check_loop_round fuel ino flags d k s ci : cs_inodes s !! ino = Some ci ->
  check_loop (S fuel) ino flags d k s = round ino flags d k s ci (check_loop fuel ino flags d) s.
Proof.
  intros Hci. cbn [check_loop]. rewrite (get_ci_at _ _ ci) by done. unfold sbind at 1. cbn [obind sget]. unfold round, wants_invalidate, scanned.
  destruct (__ceph_caps_issued s ci) as [issued implemented]. cbv zeta. cbn [fst snd]. destruct (_ && negb (k_tried_invalidate k)); [done|].
  destruct (scan_caps _ _ _ _ _ _ _ _ _ _) as [n [cap|]]; [|done]. apply sbind_ext. intros [ok k'] s1. destruct (negb ok); [done|].
  unfold ack_cap. cbv zeta. rewrite sbind_assoc. done.
Qed.

Lemma check_loop_last ino flags d k s ci : cs_inodes s !! ino = Some ci -> wants_invalidate s d k ci = false -> snd (scanned s flags d k ci) = None ->
  ends (check_loop 0 ino flags d k) s.
Proof.
  intros Hci Hw Hs. unfold ends. cbn [check_loop]. rewrite (get_ci_at _ _ ci) by done. unfold sbind at 1. cbn [obind sget]. unfold wants_invalidate, scanned in *.
  destruct (__ceph_caps_issued s ci) as [issued implemented]. cbv zeta. cbn [fst snd] in *. rewrite Hw. destruct (scan_caps _ _ _ _ _ _ _ _ _ _) as [n [cap|]]; [done|].
  apply (calm_ends ino), calm_check_finish.
Qed.

Lemma calm_ack ino s ci cap : calm ino (ack_cap ino s ci cap).
Proof. unfold ack_cap. cbv zeta. apply calm_bind; [apply calm_if; [apply calm_mark_flushing|done]|]. intros f. apply calm_send_cap. Qed.

Lemma check_invalidate_k ino revoking k s k' s' :
  check_invalidate ino revoking k s = Ret (k', s') -> k_tried_invalidate k' = true /\ k_mds k' = k_mds k.
Proof.
  unfold check_invalidate. unfold sbind at 1. destruct (try_nonblocking_invalidate ino s) as [[r s1]| |]; cbn [obind]; [|done|done]. cbv zeta.
  destruct (r <? 0); [|by intros [= <- <-]]. destruct (any _ _); unfold sbind; [destruct (mod_ci _ _ s1) as [[]| |]|destruct (__cap_set_timeouts _ s1) as [[]| |]];
    try done; by intros [= <- <-].
Qed.

Definition loop_ok (ino flags : Z) (d : bool) (again : check -> M unit) (fuel : nat) : Prop :=
  forall k s ci, inv s -> cs_inodes s !! ino = Some ci -> (untried k + 3 * todo k ci <= fuel + progress s flags d k ci)%nat -> ends (again k) s.

(** The locks are taken, or the loop starts again with one more of them. *)
Lemma round_acks ino flags d k s ci again fuel n cap :
  loop_ok ino flags d again fuel -> inv s -> cs_inodes s !! ino = Some ci -> wants_invalidate s d k ci = false -> scanned s flags d k ci = (n, Some cap) ->
  (untried k + 3 * todo k ci <= S fuel + progress s flags d k ci)%nat -> ends (round ino flags d k s ci again) s.
Proof.
  intros IH Hinv Hci Hw Es Hm. unfold round. rewrite Hw, Es. pose proof (scan_after _ _ _ _ _ _ _ _ _ _ _ _ Es) as [Hin Hlt].
  set (k1 := k <| k_delayed ::= _ |>). destruct (take_locks_quiet cap k1 s) as (ok & k2 & s2 & E & E1 & E2 & E3 & E4 & E5 & E6 & E7 & Hl).
  unfold ends, sbind. rewrite E. cbn [obind].
  assert (K2 : keeps s s2).
  { pose proof (wpf_Ret _ _ _ _ _ (wpf_take_locks quiet_keeps ino cap k1 s Hinv (ex_intro _ _ Hci)) E) as [K _]. exact K. }
  assert (Hci2 : cs_inodes s2 !! ino = Some ci) by (by rewrite E1). assert (Hun : untried k2 = untried k) by (unfold untried; by rewrite E6).
  assert (Htd : todo k2 ci = todo k ci) by (unfold todo; by rewrite E5).
  assert (Hw2 : wants_invalidate s2 d k2 ci = false) by (rewrite <- Hw; unfold wants_invalidate, __ceph_caps_issued, valid_caps, __cap_is_valid; by rewrite E2, E3, E4, E6).
  assert (Es2 : scanned s2 flags d k2 ci = (n, Some cap)) by (rewrite <- Es; unfold scanned; by rewrite E3, E4, E5).
  pose proof (progress_le s flags d k ci) as Hp2. destruct ok; cbn [negb].
  - apply (ends_bind (ack_cap ino s ci cap)); [apply (calm_ends ino), calm_ack|]. intros [dl tid] s3 E8.
    destruct (calm_Ret ino _ _ _ _ ci (calm_ack ino s ci cap) E8 Hci2) as (ci3 & Hci3 & Hr & _).
    assert (K3 : keeps s2 s3).
    { refine (wpf_Ret _ (fun _ s' => keeps s2 s') _ _ _ _ E8). unfold ack_cap. cbv zeta. apply (wpf_ack quiet_keeps); [apply K2|done|done|apply retain_pin]. }
    apply (IH _ _ ci3); [apply K3|done|]. set (k3 := k2 <| k_mds := c_mds cap |> <| k_delayed ::= _ |>).
    assert (Hun3 : untried k3 = untried k) by done. assert (Htd3 : (todo k3 ci3 < todo k ci)%nat) by (by apply (todo_next k ci ci3)). lia.
  - apply (IH _ _ ci); [apply K2|done|]. rewrite Hun, Htd. unfold progress in Hm |- *. rewrite Hw, Es in Hm. rewrite Hw2, Es2. cbn [snd] in *.
    rewrite (bool_decide_true (k_session k2 = Some (c_mds cap))) by done.
    destruct (Hl eq_refl) as [[Hs ->]|[Hs ->]].
    + rewrite (bool_decide_false (k_session k = Some (c_mds cap))) in Hm by done. lia.
    + change (k_snap_rwsem k1) with (k_snap_rwsem k) in Hs. rewrite Hs in Hm. destruct (bool_decide _); lia.
Qed.

Lemma check_loop_ends fuel ino flags d : loop_ok ino flags d (check_loop fuel ino flags d) fuel.
Proof.
  induction fuel as [|fuel IH]; intros k s ci Hinv Hci Hm; destruct (wants_invalidate s d k ci) eqn:Hw.
  - exfalso. unfold progress in Hm. rewrite Hw in Hm. unfold untried in Hm. unfold wants_invalidate in Hw.
    destruct (k_tried_invalidate k); [by rewrite andb_false_r in Hw|lia].
  - destruct (scanned s flags d k ci) as [n [cap|]] eqn:Es; [|by apply (check_loop_last _ _ _ _ _ ci); [| |rewrite Es]]. exfalso.
    pose proof (scan_after _ _ _ _ _ _ _ _ _ _ _ _ Es) as [Hin Hlt]. pose proof (todo_next k ci ci cap eq_refl Hin Hlt). pose proof (progress_le s flags d k ci). lia.
  - unfold ends. rewrite (check_loop_round _ _ _ _ _ _ ci) by done. unfold round. rewrite Hw. unfold progress in Hm. rewrite Hw in Hm.
    apply ends_bind; [apply (calm_ends ino), calm_check_invalidate|]. intros k1 s1 E1.
    destruct (calm_Ret ino _ _ _ _ ci (calm_check_invalidate ino _ k) E1 Hci) as (ci1 & Hci1 & Hr & _).
    assert (K1 : keeps s s1) by (refine (wpf_Ret _ (fun _ s' => keeps s s') _ _ _ _ E1); by apply (safe_check_invalidate quiet_keeps Hpages); [|eexists]).
    destruct (check_invalidate_k _ _ _ _ _ _ E1) as [Ht Hmds]. apply (IH _ _ ci1); [apply K1|done|].
    assert (Hun : untried k = 1%nat) by (unfold untried; unfold wants_invalidate in Hw; destruct (k_tried_invalidate k); [by rewrite andb_false_r in Hw|done]).
    unfold untried, todo in *. rewrite Ht, Hmds, Hr. lia.
  - unfold ends. rewrite (check_loop_round _ _ _ _ _ _ ci) by done.
    destruct (scanned s flags d k ci) as [n [cap|]] eqn:Es; [by eapply round_acks|]. unfold round. rewrite Hw, Es. apply (calm_ends ino), calm_check_finish.
Qed.

(** ** Cap snapshots *)
Definition marked (id : nat) (f : ceph_cap_snap -> ceph_cap_snap) : list ceph_cap_snap -> list ceph_cap_snap := map (fun k => if (k_id k =? id)%nat then f k else k).
Definition idle (k : ceph_cap_snap) : bool := negb (bool_decide (is_Some (k_flushing k))).

Lemma marked_fewer id f l k :
  (forall j, idle (f j) = false) -> k ∈ l -> k_id k = id -> idle k = true -> (length (List.filter idle (marked id f l)) < length (List.filter idle l))%nat.
Proof.
  intros Hf Hin Hid Hk.
  assert (Hle : forall l, (length (List.filter idle (marked id f l)) <= length (List.filter idle l))%nat).
  { clear -Hf. induction l as [|j l IH]; [done|]. cbn. destruct (_ =? _)%nat; [rewrite Hf|]; destruct (idle j); cbn; lia. }
  induction l as [|j l IH]; [by apply elem_of_nil in Hin|]. cbn. apply elem_of_cons in Hin as [<-|Hin].
  - rewrite Hid, Nat.eqb_refl, Hf, Hk. cbn. specialize (Hle l). lia.
  - specialize (IH Hin). destruct (_ =? _)%nat; [rewrite Hf|]; destruct (idle j); cbn; lia.
Qed.

(** The snapshot that is sent counts as flushing afterwards. *)
Lemma send_cap_snap_quiet ino mds mseq k s ci :
  cs_inodes s !! ino = Some ci -> k ∈ ci_cap_snaps ci -> idle k = true ->
  ends (send_cap_snap ino mds mseq k) s /\
  forall a s', send_cap_snap ino mds mseq k s = Ret (a, s') ->
    exists ci', cs_inodes s' !! ino = Some ci' /\ ranks ci' = ranks ci /\ ci_auth_cap ci' = ci_auth_cap ci /\ (unflushed ci' < unflushed ci)%nat.
Proof.
  intros Hci Hk Hi. unfold ends, send_cap_snap. rewrite (get_ci_at _ _ ci) by done. cbv zeta.
  set (tid := u16 _). set (mark := mod_snap ino (k_id k) _). set (m := CapMsg _ _ _ _ _ _ _ _ _ _ _ _ _ _ _ _ _ _ _ _ _).
  set (before := _ ↢ mod_ci ino (fun ci => ci <| ci_cap_flush_last_tid := tid |>); _ ↢ unlink_flushing_snap ino k;
                 mod_session mds (fun x => x <| s_cap_snaps_flushing ::= fun l => l ++ [(ino, k_id k)] |>)).
  set (behind := _ ↢ unlocked; _ ↢ send_cap_msg mds m; sret tt).
  assert (Hb : calm ino before).
  { unfold before, unlink_flushing_snap. apply calm_bind; [by apply calm_mod_ci|]. intros _. apply calm_bind; [by destruct (k_flushing k)|done]. }
  assert (Ha : calm ino behind) by (unfold behind; apply calm_bind; [done|]; intros _; by apply calm_bind).
  assert (E : (_ ↢ mod_ci ino (fun ci => ci <| ci_cap_flush_last_tid := tid |>); _ ↢ unlink_flushing_snap ino k;
     _ ↢ mod_session mds (fun x => x <| s_cap_snaps_flushing ::= fun l => l ++ [(ino, k_id k)] |>); _ ↢ mark; behind) s = (_ ↢ before; _ ↢ mark; behind) s).
  { unfold before. rewrite sbind_assoc. apply sbind_ext. intros ? s0. by rewrite sbind_assoc. }
  rewrite E. clear E. unfold sbind at 1 3. pose proof (calm_ends ino before s Hb) as Hbe. unfold ends in Hbe.
  destruct (before s) as [[[] s1]| |] eqn:E1; cbn [obind]; [|done|split; [|done]; by intros [= ->]].
  destruct (calm_Ret ino _ _ _ _ ci Hb E1 Hci) as (ci1 & Hci1 & Er1 & Ea1 & Es1).
  set (ci2 := ci1 <| ci_cap_snaps ::= marked (k_id k) (fun k => k <| k_flush_tid := tid |> <| k_flushing := Some mds |>) |>).
  assert (E2 : mark s1 = Ret (tt, s1 <| cs_inodes ::= insert ino ci2 |>)) by (unfold mark, mod_snap, mod_ci; by rewrite (get_ci_at _ _ ci1)).
  unfold sbind at 1 2. rewrite E2. cbn [obind]. set (s2 := s1 <| cs_inodes ::= _ |>).
  assert (Hci2 : cs_inodes s2 !! ino = Some ci2) by (cbn; by rewrite lookup_insert_eq).
  split; [by apply (calm_ends ino)|]. intros a s3 E3. destruct (calm_Ret ino _ _ _ _ ci2 Ha E3 Hci2) as (ci3 & Hci3 & Er3 & Ea3 & Es3).
  exists ci3. split; [done|]. split; [by rewrite Er3|]. split; [by rewrite Ea3|]. unfold unflushed. rewrite Es3, <- Es1. change (ci_cap_snaps ci2) with (marked (k_id k) (fun k => k <| k_flush_tid := tid |> <| k_flushing := Some mds |>) (ci_cap_snaps ci1)).
  apply (marked_fewer _ _ _ k); [done|by rewrite Es1|done|done].
Qed.

Lemma next_snap_idle l auth nf k : next_snap l auth false nf = Ret (SendSnap k) -> k ∈ l /\ idle k = true.
Proof.
  induction l as [|j l IH]; cbn [next_snap]; [done|]. assert (Hrec : next_snap l auth false nf = Ret (SendSnap k) -> k ∈ j :: l /\ idle k = true).
  { intros [? ?]%IH. split; [by right|done]. }
  destruct (_ <? _); [done|]. destruct (negb _ || _); [done|]. destruct (k_dirty j =? 0); [done|]. cbn. destruct (negb auth); [done|].
  case_bool_decide as Hf; [done|]. intros [= ->]. split; [by left|]. unfold idle. by rewrite bool_decide_false.
Qed.

Lemma next_snap_fuel l auth again nf : next_snap l auth again nf <> Fault OutOfFuel.
Proof.
  induction l as [|j l IH]; cbn [next_snap]; [done|]. destruct (_ <? _); [done|]. destruct (negb _ || _); [done|]. destruct (k_dirty j =? 0); [done|]. cbn.
  destruct (negb auth); [done|]. by destruct (negb again && _).
Qed.

Lemma idle_unflushed ci k : k ∈ ci_cap_snaps ci -> idle k = true -> (0 < unflushed ci)%nat.
Proof.
  intros Hk Hi. change (0 < length (List.filter idle (ci_cap_snaps ci)))%nat. assert (Hin : List.In k (List.filter idle (ci_cap_snaps ci))) by (apply List.filter_In; by rewrite <- list_elem_of_In).
  destruct (List.filter idle _); [done|cbn; lia].
Qed.

Definition mismatch (session : option Z) (ci : ceph_inode_info) : nat := if bool_decide (session = ci_auth_cap ci) then 0 else 1.

Lemma flush_snaps_ends fuel ino session nf s ci :
  inv s -> cs_inodes s !! ino = Some ci -> (unflushed ci + mismatch session ci <= fuel)%nat -> ends (flush_snaps_loop fuel ino false session nf) s.
Proof.
  revert session nf s ci. induction fuel as [|fuel IH]; intros session nf s ci Hinv Hci Hm; pose proof (Hinv _ _ Hci) as Hiv;
    cbn [flush_snaps_loop]; unfold ends; rewrite (get_ci_at _ _ ci) by done; unfold sbind at 1.
  all: destruct (next_snap _ _ _ _) as [n| |f] eqn:En; cbn [slift obind]; [|done|intros [= ->]; revert En; by apply next_snap_fuel].
  all: destruct n as [k| |]; [|done|done]; apply next_snap_idle in En as [Hk Hi]; destruct (auth_cap ci) as [cap|] eqn:Ea; [|done].
  all: assert (Hpos : (0 < unflushed ci)%nat) by (by apply (idle_unflushed ci k)).
  1: lia.
  destruct (auth_cap_lookup _ _ _ _ Hiv Ea) as (Hc & Hauth & Hs). unfold mismatch in Hm. rewrite Hauth in Hm. case_bool_decide as Hse.
  - destruct (send_cap_snap_quiet ino (c_mds cap) (c_mseq cap) k s ci Hci Hk Hi) as [He Hr]. apply ends_bind; [done|]. intros a s1 E1.
    destruct (Hr a s1 E1) as (ci1 & Hci1 & _ & Ha1 & Hlt). apply (IH _ _ _ ci1); [|done|unfold mismatch; rewrite Ha1, Hauth, bool_decide_true by done; lia].
    refine (kp_inv _ _ (wpf_Ret _ (fun _ s' => keeps s s') _ _ _ _ E1)). apply (wpf_send_cap_snap quiet_keeps); [done|by eexists|done|].
    pose proof (iv_snaps _ _ _ Hiv) as Hsn. rewrite Forall_forall in Hsn. by apply Hsn.
  - apply ends_bind; [apply (calm_ends ino), calm_unlocked|]. intros a s1 E1. unfold unlocked, smod in E1. rewrite Hquiet in E1. injection E1 as <- <-.
    unfold ends, sbind at 1. cbn [sget obind].
    change (cs_sessions (s <| cs_unlocks ::= S |>)) with (cs_sessions s). destruct Hs as [x Hx]. rewrite Hx.
    apply (IH _ _ _ ci); [|done|unfold mismatch; rewrite Hauth, bool_decide_true by done; lia]. by apply (keeps_same s).
Qed.

Lemma check_caps_ends ino flags session s : inv s -> is_Some (cs_inodes s !! ino) -> ends (ceph_check_caps ino flags session) s.
Proof.
  intros Hinv [ci Hci]. unfold ends, ceph_check_caps. unfold sbind at 1. cbn [sget obind]. rewrite (get_ci_at _ _ ci) by done. cbv zeta.
  set (fl := if any _ _ then _ else flags). apply ends_bind.
  - destruct (ci_cap_snaps ci) eqn:Ek; [done|]. unfold __ceph_flush_snaps, ends. rewrite (get_ci_at _ _ ci) by done.
    apply (flush_snaps_ends _ _ _ _ _ ci); [done|done|]. unfold mismatch, unflushed. pose proof (List.filter_length_le (fun k => negb (bool_decide (is_Some (k_flushing k)))) (ci_cap_snaps ci)).
    destruct (bool_decide _); lia.
  - intros session' s1 E1.
    assert (K1 : keeps s s1).
    { refine (wpf_Ret _ (fun _ s' => keeps s s') _ _ _ _ E1). destruct (ci_cap_snaps ci); [by apply (safe_pure ino); [|eexists]|by apply (safe_flush_snaps quiet_keeps); [|eexists]]. }
    destruct (kp_inode _ _ K1 ino) as [ci1 Hci1]; [by eexists|]. unfold ends. rewrite (get_ci_at _ _ ci1) by done.
    apply (check_loop_ends _ _ _ _ _ _ ci1); [apply K1|done|]. unfold check_fuel, untried, todo. cbn [k_tried_invalidate].
    pose proof (List.filter_length_le (fun m => -1 <? m) (ranks ci1)) as Hle. unfold ranks in Hle at 2. rewrite length_fmap in Hle. cbn [k_mds]. lia.
Qed.
End End.

(** C4: With enough fuel for three rounds per cap, [ceph_check_caps] returns, from
    any state with the invariant and whatever the attempts to take locks give, as
    long as no other thread changes the inode while its lock is free: it restarts
    for the mutex of a session, for snap_rwsem and for an invalidation of pages,
    but it visits the caps by increasing rank and keeps the locks that it has got.
    It fails no assertion, and the invariant holds afterwards. *)
Theorem ceph_check_caps_returns `{RbOps} `{CapXattrs} `{Realms} `{!CapsEnv}
    (Hquiet : forall n s, others n s = s) (Hpages : forall n, pages_left n 0 = 0) ino flags session s :
  inv s -> is_Some (cs_inodes s !! ino) -> exists s', ceph_check_caps ino flags session s = Ret (tt, s') /\ keeps s s'.
Proof.
  intros Hinv Hi. pose proof (check_caps_ends Hquiet Hpages ino flags session s Hinv Hi) as He. unfold ends in He.
  pose proof (safe_check_caps (quiet_keeps Hquiet) Hpages ino flags session s Hinv Hi) as Hw. unfold wpf in Hw.
  destruct (ceph_check_caps ino flags session s) as [[[] s']| |[]]; try done. by exists s'.
Qed.

#[local] Existing Instances demo_xattrs demo_realms demo_env.

(** The caps of a file that is not open any more are given up. *)
Lemma ceph_check_caps_returns_witness :
  exists s, ceph_check_caps 2 CHECK_CAPS_NODELAY None demo_capped = Ret (tt, s) /\ keeps demo_capped s.
Proof.
  apply (ceph_check_caps_returns demo_quiet demo_pages 2 CHECK_CAPS_NODELAY None demo_capped demo_capped_inv).
  apply found. vm_compute. reflexivity.
Defined.
