(* ===== verification/CapsOps.v ===== *)
(** * The capabilities, operation by operation

    What the file system, the delayed work and the MDS may ask for, in any order:
    whoever uses a bit holds a cap with it, and nothing goes wrong. *)
From S2P Require Import Prelude.
From S2P Require Import Wire.
From S2P Require Import RbTree.
From S2P Require Import StateM.
From S2P Require Import FileLayout.
From S2P Require Import CapPool.
From S2P Require Import Caps.
From S2P Require Import CapsFlush.
From S2P Require Import CapsRefs.
From S2P Require Import CapsMsg.
From S2P Require Import CapsInv.
From S2P Require Import CapsSafe.
From S2P Require Import CapsTrace.
From S2P Require Import CapsAdd.
From S2P Require Import CapsDemo.
From stdpp Require Import gmap.
#[local] Open Scope Z_scope.
#[local] Open Scope ceph_scope.
#[local] Open Scope st_scope.

(** ** A message is read within its bytes *)
Lemma le_at_ok msg off n : Forall byte msg -> 0 <= off -> off + Z.of_nat n <= Z.of_nat (length msg) -> exists v, le_at msg off n = Ret v /\ 0 <= v.
Proof.
  intros Hb Ho Hn. unfold le_at. rewrite read_bytes_Ret by done. eexists. split; [done|]. apply le_val_range. unfold slice. by apply Forall_take, Forall_drop.
Qed.

Ltac read_field := match goal with
  | |- context [le_at ?m ?o ?n] => destruct (le_at_ok m o n) as (? & -> & ?); [done|lia|lia|]; cbn [obind]
  end.

Lemma read_caps_ok msg : Forall byte msg -> sizeof_caps <= Z.of_nat (length msg) -> exists h, read_caps msg = Ret h /\ 0 <= h_snap_trace_len h.
Proof.
  unfold sizeof_caps. intros Hb Hl. unfold read_caps, timespec_at. repeat read_field. eexists. split; [done|]. done.
Qed.

(** Whatever the bytes and the version, the decoder stays within them. *)
Lemma decode_caps_ok version msg : Forall byte msg -> exists d, decode_caps version msg = Ret d.
Proof.
  intros Hb. unfold decode_caps. cbv zeta. destruct (Z.ltb_spec (Z.of_nat (length msg)) sizeof_caps) as [|Hl]; [by eexists|].
  destruct (read_caps_ok msg Hb Hl) as (h & -> & Ht). cbn [obind]. unfold sizeof_caps in *. destruct (2 <=? version); [|by eexists].
  unfold ceph_has_room. destruct (Z.leb_spec (176 + h_snap_trace_len h) (Z.of_nat (length msg))); [|by eexists].
  destruct (Z.leb_spec 4 (Z.of_nat (length msg) - (176 + h_snap_trace_len h))); [|by eexists]. cbn [andb negb].
  read_field. destruct (_ <? _); [by eexists|]. destruct (3 <=? version); [|by eexists]. unfold read_peer.
  destruct (_ =? CEPH_CAP_OP_IMPORT).
  - destruct (Z.ltb_spec (Z.of_nat (length msg)) (176 + h_snap_trace_len h + 4 + x + 21)); [by eexists|]. repeat read_field. by eexists.
  - destruct (_ =? CEPH_CAP_OP_EXPORT); [|by eexists]. repeat read_field. by eexists.
Qed.

(** What a message must hold: its fixed part, and from version 2 on the snap trace
    and the locks with their lengths, and in an import of version 3 the peer *)
Definition word_at (msg : list Z) (off : Z) : Z := le_val (slice msg off 4).
Definition caps_fit (version : Z) (msg : list Z) : Prop :=
  let len := Z.of_nat (length msg) in
  let trace_end := sizeof_caps + word_at msg 60 in
  let locks_end := trace_end + 4 + word_at msg trace_end in
  sizeof_caps <= len /\
  (2 <= version -> trace_end + 4 <= len /\ locks_end <= len) /\
  (3 <= version -> word_at msg 0 = CEPH_CAP_OP_IMPORT -> locks_end + 21 <= len).

Lemma le_at_val msg off n : 0 <= off -> off + Z.of_nat n <= Z.of_nat (length msg) -> le_at msg off n = Ret (le_val (slice msg off (Z.of_nat n))).
Proof. intros. unfold le_at. by rewrite read_bytes_Ret. Qed.

Lemma read_caps_val msg h :
  sizeof_caps <= Z.of_nat (length msg) -> read_caps msg = Ret h -> h_op h = word_at msg 0 /\ h_snap_trace_len h = word_at msg 60.
Proof.
  unfold sizeof_caps. intros Hl. unfold read_caps, timespec_at. rewrite !le_at_val by lia. cbn [obind]. intros [= <-]. done.
Qed.

Lemma decode_caps_fit version msg d : Forall byte msg -> decode_caps version msg = Ret d -> is_Some d <-> caps_fit version msg.
Proof.
  intros Hb. unfold decode_caps, caps_fit. cbv zeta. destruct (Z.ltb_spec (Z.of_nat (length msg)) sizeof_caps) as [|Hl].
  { intros [= <-]. split; [by intros [? ?]|lia]. }
  destruct (read_caps_ok msg Hb Hl) as (h & Eh & Ht). destruct (read_caps_val msg h Hl Eh) as [Eo Et]. rewrite Eh. cbn [obind]. rewrite <- Et, <- Eo. unfold sizeof_caps in *.
  destruct (Z.leb_spec 2 version) as [Hv|]; [|intros [= <-]; split; [split; [done|]; split; lia|by eexists]].
  unfold ceph_has_room. destruct (Z.leb_spec (176 + h_snap_trace_len h) (Z.of_nat (length msg))); cbn [andb negb].
  2: { intros [= <-]. split; [by intros [? ?]|]. intros (_ & H2 & _). specialize (H2 Hv). lia. }
  destruct (Z.leb_spec 4 (Z.of_nat (length msg) - (176 + h_snap_trace_len h))); cbn [negb].
  2: { intros [= <-]. split; [by intros [? ?]|]. intros (_ & H2 & _). specialize (H2 Hv). lia. }
  rewrite le_at_val by lia. cbn [obind]. change (le_val (slice msg (176 + h_snap_trace_len h) (Z.of_nat 4))) with (word_at msg (176 + h_snap_trace_len h)).
  set (fl := word_at msg (176 + h_snap_trace_len h)). destruct (Z.ltb_spec (Z.of_nat (length msg)) (176 + h_snap_trace_len h + 4 + fl)).
  { intros [= <-]. split; [by intros [? ?]|]. intros (_ & H2 & _). specialize (H2 Hv). lia. }
  assert (Hfl : 0 <= fl) by (apply le_val_range, slice_byte; done).
  destruct (Z.leb_spec 3 version) as [Hv3|]; [|intros [= <-]; split; [intros _; repeat split; lia|by eexists]].
  unfold read_peer. destruct (Z.eqb_spec (h_op h) CEPH_CAP_OP_IMPORT) as [Ei|Ei].
  - destruct (Z.ltb_spec (Z.of_nat (length msg)) (176 + h_snap_trace_len h + 4 + fl + 21)).
    { intros [= <-]. split; [by intros [? ?]|]. intros (_ & _ & H3). specialize (H3 Hv3 Ei). lia. }
    repeat read_field. intros [= <-]. split; [intros _; repeat split; lia|by eexists].
  - destruct (_ =? CEPH_CAP_OP_EXPORT); [repeat read_field|]; intros [= <-]; (split; [intros _; split; [lia|]; split; [lia|done]|by eexists]).
Qed.

Section Ops.
Context `{RbOps} `{CapXattrs} `{Realms} `{!CapsEnv}.

(** ** Sessions *)
Lemma wpf_session_step {A} mds f (k : M A) s s0 :
  keeps s0 s -> has_session s mds -> (forall s', keeps s0 s' -> has_session s' mds -> wpf k (fun _ s'' => keeps s0 s'') s') ->
  wpf (_ ↢ mod_session mds f; k) (fun _ s' => keeps s0 s') s.
Proof.
  intros K Hs Hk. apply wpf_bind, wpf_mod_session; [apply K|done|]. intros x K1. apply Hk; [by eapply keeps_trans|]. by apply K1.
Qed.

Lemma wpf_add_release_msgs fuel mds extra s :
  inv s -> has_session s mds -> wpf (add_release_msgs fuel mds extra) (fun _ s' => keeps s s') s.
Proof.
  revert s. induction fuel as [|fuel IH]; intros s Hinv [x Hx]; cbn [add_release_msgs]; apply wpf_bind, (wpf_get_session _ _ x); try done;
    (destruct (_ <? _); [|by apply wpf_ret, keeps_refl]); [apply wpf_fuel|]. wpf_steps.
  set (s1 := s <| cs_allocs ::= S |>). assert (K1 : keeps s s1) by (by apply keeps_same). destruct (msg_ok _); [|by apply wpf_ret].
  apply wpf_session_step; [done|by exists x|]. intros s2 K2 Hs2. eapply wpf_mono; [apply IH; [apply K2|done]|]. intros b s3 K3. by eapply keeps_trans.
Qed.

Lemma wpf_send_releases mds s s0 : keeps s0 s -> has_session s mds -> wpf (ceph_send_cap_releases mds) (fun _ s' => keeps s0 s') s.
Proof.
  intros K [x Hx]. unfold ceph_send_cap_releases. apply wpf_bind, (wpf_get_session _ _ x); [done|]. apply wpf_session_step; [done|by exists x|].
  intros s2 K2 _. apply wpf_mod. eapply keeps_trans; [exact K2|]. apply keeps_same; [apply K2|done..].
Qed.

Lemma wpf_flush_releases mds s : inv s -> has_session s mds -> wpf (flush_releases mds) (fun _ s' => keeps s s') s.
Proof.
  intros Hinv Hs. unfold flush_releases. apply wpf_bind. apply wpf_mono with (P := fun _ s' => keeps s s').
  - destruct Hs as [x Hx]. unfold ceph_add_cap_releases. apply wpf_bind, (wpf_get_session _ _ x); [done|]. cbv zeta. apply wpf_bind.
    eapply wpf_mono; [apply wpf_add_release_msgs; [done|by exists x]|]. cbv beta. intros ok s1 K1. destruct (negb ok); [by apply wpf_ret|].
    destruct (kp_session _ _ K1 mds) as [y Hy]; [by exists x|]. apply wpf_bind, (wpf_get_session _ _ y); [done|].
    destruct (_ =? 0); [by apply wpf_bind, wpf_ret, wpf_ret|]. apply wpf_session_step; [done|by exists y|]. intros s2 K2 _. by apply wpf_ret.
  - intros _ s1 K1. apply wpf_send_releases; [done|]. by apply K1.
Qed.

(** ** Operations

    [OpMessage] is a message from the MDS, on its bytes; migrations are not among
    them. *)
Inductive cap_op :=
  | OpAddCap (ino mds cap_id fmode issued wanted seq mseq realmino flags : Z) (new_cap : option nat)
  | OpCheckCaps (ino flags : Z) (session : option Z)
  | OpTryFlush (ino : Z)
  | OpWriteInode (ino : Z) (wait : bool)
  | OpMarkDirty (ino mask : Z)
  | OpGetCaps (ino need want endoff : Z)
  | OpPutRefs (ino had : Z)
  | OpPutPages (ino nr : Z) (sc : snapc)
  | OpCloseFile (ino fmode : Z)
  | OpRelease (ino mds drop unless : Z) (force : bool)
  | OpMessage (mds tid version : Z) (msg : list Z) (middle : option (list Z)).

Definition and_done {A} (m : M A) : M unit := _ ↢ m; sret tt.

Definition run_op (op : cap_op) : M unit :=
  match op with
  | OpAddCap ino mds cap_id fmode issued wanted seq mseq realmino flags new_cap =>
      and_done (ceph_add_cap ino mds cap_id fmode issued wanted seq mseq realmino flags new_cap)
  | OpCheckCaps ino flags session => and_done (ceph_check_caps ino flags session)
  | OpTryFlush ino => and_done (try_flush_caps ino)
  | OpWriteInode ino wait => and_done (ceph_write_inode ino wait)
  | OpMarkDirty ino mask => and_done (__ceph_mark_dirty_caps ino mask)
  | OpGetCaps ino need want endoff => and_done (ceph_get_caps ino need want endoff)
  | OpPutRefs ino had => ceph_put_cap_refs ino had
  | OpPutPages ino nr sc => ceph_put_wrbuffer_cap_refs ino nr sc
  | OpCloseFile ino fmode => ceph_put_fmode ino fmode
  | OpRelease ino mds drop unless force => and_done (ceph_encode_inode_release ino mds drop unless force)
  | OpMessage mds tid version msg middle => ceph_handle_caps mds tid version msg middle
  end.

(** What the callers see to: who drops a reference has it, a file that is closed is
    open, the MDS issues the pin bit with every cap, and the caps that are marked
    dirty belong to an inode with a realm. *)
Definition on_inode (ino : Z) (P : ceph_inode_info -> Prop) (s : caps_state) : Prop :=
  exists ci, cs_inodes s !! ino = Some ci /\ P ci.

Definition allowed (op : cap_op) (s : caps_state) : Prop :=
  match op with
  | OpAddCap ino mds _ fmode issued _ _ _ realmino _ new_cap =>
      has_session s mds /\ CEPH_CAP_PIN ⊑ issued /\ (exists r, join_realm ino realmino (cs_realms s) = Ret r) /\
      on_inode ino (fun ci => (cmap ci !! mds = None -> is_Some new_cap) /\ (0 <= fmode -> is_Some (ci_nr_by_mode ci !! Z.to_nat fmode))) s
  | OpCheckCaps ino _ _ | OpTryFlush ino | OpWriteInode ino _ | OpGetCaps ino _ _ _ => is_Some (cs_inodes s !! ino)
  | OpMarkDirty ino mask =>
      is_Some (cs_inodes s !! ino) /\ 0 < mask < 2 ^ 32 /\ is_Some (realm_of ino (cs_realms s)) /\ is_Some (realm_context ino (cs_realms s))
  | OpPutRefs ino had =>
      on_inode ino (fun ci => has_refs had ci /\
        forall k l, ci_cap_snaps ci = k :: l -> k_writing k = true -> k_dirty_pages k = 0 -> linked ino (cs_snap_flush s) = false) s
  | OpPutPages ino nr sc =>
      on_inode ino (fun ci => ci_wrbuffer_ref ci <> 0 /\
        (fst <$> ci_head_snapc ci = Some (fst sc) \/ exists k, k ∈ ci_cap_snaps ci /\ fst (k_context k) = fst sc)) s
  | OpCloseFile ino fmode => 0 <= fmode /\ on_inode ino (fun ci => exists n, ci_nr_by_mode ci !! Z.to_nat fmode = Some n /\ n <> 0) s
  | OpRelease ino _ drop _ _ => Z.land drop CEPH_CAP_PIN = 0 /\ is_Some (cs_inodes s !! ino)
  | OpMessage mds _ version msg middle =>
      Forall byte msg /\ has_session s mds /\
      forall h p, decode_caps version msg = Ret (Some (h, p)) ->
        h_op h <> CEPH_CAP_OP_EXPORT /\ h_op h <> CEPH_CAP_OP_IMPORT /\
        (h_op h = CEPH_CAP_OP_GRANT \/ h_op h = CEPH_CAP_OP_REVOKE -> sane_grant h middle)
  end.

Context (Hothers : forall n s, inv s -> keeps s (others n s)).
Context (Hpages : forall n, pages_left n 0 = 0).

Lemma wpf_done {A} (m : M A) s : wpf m (fun _ s' => keeps s s') s -> wpf (and_done m) (fun _ s' => keeps s s') s.
Proof. intros Hm. apply wpf_bind. eapply wpf_mono; [exact Hm|]. intros a s' K. by apply wpf_ret. Qed.

(** A message for an inode *)
Lemma wpf_handle_inode_caps ino mds tid h p msg middle s :
  inv s -> is_Some (cs_inodes s !! ino) -> has_session s mds -> h_op h <> CEPH_CAP_OP_EXPORT -> h_op h <> CEPH_CAP_OP_IMPORT ->
  (h_op h = CEPH_CAP_OP_GRANT \/ h_op h = CEPH_CAP_OP_REVOKE -> sane_grant h middle) ->
  wpf (handle_inode_caps ino mds tid h p msg middle) (fun _ s' => keeps s s') s.
Proof.
  intros Hinv Hi Hs H1' H2' Hsane. unfold handle_inode_caps.
  destruct (_ =? CEPH_CAP_OP_FLUSHSNAP_ACK); [by apply safe_handle_flushsnap_ack|]. rewrite !(proj2 (Z.eqb_neq _ _)) by done.
  unfold handle_with_cap. destruct Hi as [ci Hci]. pose proof (Hinv _ _ Hci) as Hiv. apply wpf_bind, (wpf_get_ci _ _ ci); [done|].
  rewrite get_cap_cmap by apply Hiv. destruct (cmap ci !! mds) as [c|] eqn:Ec; [|by apply wpf_flush_releases].
  destruct (Z.eqb_spec (h_op h) CEPH_CAP_OP_REVOKE) as [E|_]; cbn [orb].
  - apply wpf_bind, wpf_get. apply (wpf_handle_cap_grant Hothers Hpages _ _ _ _ _ _ s ci c); auto.
  - destruct (Z.eqb_spec (h_op h) CEPH_CAP_OP_GRANT) as [E|_].
    + apply wpf_bind, wpf_get. apply (wpf_handle_cap_grant Hothers Hpages _ _ _ _ _ _ s ci c); auto.
    + destruct (_ =? _); [by apply safe_handle_flush_ack|]. destruct (_ =? _); [by apply safe_handle_trunc|]. by apply wpf_ret, keeps_refl.
Qed.

Lemma wpf_handle_caps mds tid version msg middle s :
  inv s -> allowed (OpMessage mds tid version msg middle) s -> wpf (ceph_handle_caps mds tid version msg middle) (fun _ s' => keeps s s') s.
Proof.
  intros Hinv (Hb & Hs & Hd). unfold ceph_handle_caps. destruct (decode_caps_ok version msg Hb) as [d Ed]. apply wpf_bind, wpf_lift with d; [done|].
  destruct d as [[h p]|]; [|by apply wpf_ret, keeps_refl]. destruct (Hd h p Ed) as (H1' & H2' & Hsane).
  rewrite (proj2 (Z.eqb_neq _ _) H2'). apply wpf_session_step; [by apply keeps_refl|done|]. intros s1 K1 Hs1. wpf_steps.
  apply wpf_mono with (P := fun _ s' => keeps s1 s'); [|intros ? s' K; by eapply keeps_trans].
  destruct (cs_inodes s1 !! h_ino h) as [ci|] eqn:Ei.
  - apply wpf_bind. apply (wpf_safe (h_ino h)); [by apply safe_mod_vital|apply K1|by eexists|]. intros _ s2 K2.
    eapply (wpf_then (h_ino h)); [exact K2|by eexists|apply wpf_handle_inode_caps; try done; [apply K2|apply K2; by eexists|by apply K2]|].
    intros _. by apply safe_mod_vital.
  - apply wpf_bind, wpf_ret, wpf_flush_releases; [apply K1|done].
Qed.

Lemma run_op_safe op s : inv s -> allowed op s -> wpf (run_op op) (fun _ s' => keeps s s') s.
Proof.
  intros Hinv Hop. destruct op; cbn [run_op]; try apply wpf_done.
  - destruct Hop as (Hs & Hp & Hj & ci & Hci & Hnew & Hm). by eapply wpf_add_cap.
  - by apply safe_check_caps.
  - by apply safe_try_flush.
  - by apply safe_write_inode.
  - destruct Hop as (Hi & Hm & Hr & Hc). by apply wpf_mark_dirty.
  - by apply safe_get_caps.
  - destruct Hop as (ci & Hci & Hr & Hl). by eapply wpf_put_cap_refs.
  - destruct Hop as (ci & Hci & Hr & Hl). by eapply wpf_put_wrbuffer.
  - destruct Hop as (Hf & ci & Hci & n & Hn & Hz). by eapply wpf_put_fmode.
  - destruct Hop as (Hd & ci & Hci). by eapply wpf_encode_release.
  - by apply wpf_handle_caps.
Qed.

Inductive cap_steps : caps_state -> caps_state -> Prop :=
  | steps_refl s : cap_steps s s
  | steps_op s1 s2 s3 op : cap_steps s1 s2 -> allowed op s2 -> run_op op s2 = Ret (tt, s3) -> cap_steps s1 s3.

Definition is_ret {A} (o : outcome A) : bool := match o with Ret _ => true | _ => false end.
Definition after_op (s : caps_state) (op : cap_op) : caps_state := match run_op op s with Ret (_, s') => s' | _ => s end.

Lemma steps_run s s' op : cap_steps s s' -> allowed op s' -> is_ret (run_op op s') = true -> cap_steps s (after_op s' op).
Proof.
  intros Hst Ha Hr. eapply steps_op; [exact Hst|exact Ha|]. unfold after_op. by destruct (run_op op s') as [[[] s'']| |].
Qed.

Lemma cap_steps_inv s s' : inv s -> cap_steps s s' -> inv s'.
Proof.
  intros Hinv. induction 1 as [|s1 s2 s3 op _ IH Ha Hr]; [done|]. pose proof (run_op_safe op s2 (IH Hinv) Ha) as Hw. unfold wpf in Hw. rewrite Hr in Hw.
  by apply Hw.
Qed.
End Ops.



(** ** A file that is written while its caps are revoked *)
#[local] Existing Instances demo_xattrs demo_realms demo_env.

Definition demo_revoke : list Z :=
  le_bytes 4 CEPH_CAP_OP_REVOKE ++ le_bytes 8 2 ++ repeat 0 16 ++ le_bytes 4 2 ++ repeat 0 4 ++ le_bytes 4 CEPH_CAP_PIN ++ repeat 0 136.
Definition demo_added : caps_state := after_op demo_state (OpAddCap 2 0 77 2 demo_bits 0 1 0 1 CEPH_CAP_FLAG_AUTH (Some 0%nat)).
Definition demo_taken : caps_state := after_op demo_added (OpGetCaps 2 CEPH_CAP_FILE_WR CEPH_CAP_FILE_BUFFER 0).
Definition demo_dirtied : caps_state := after_op demo_taken (OpMarkDirty 2 CEPH_CAP_FILE_WR).
Definition demo_revoked : caps_state := after_op demo_dirtied (OpMessage 0 0 1 demo_revoke None).

Lemma demo_bytes : Forall byte demo_revoke.
Proof. unfold demo_revoke. repeat apply Forall_app_2; try apply le_bytes_byte; try (apply Forall_replicate || apply List.Forall_forall; intros x ->%List.repeat_spec); done. Qed.

Lemma demo_decode : exists h, decode_caps 1 demo_revoke = Ret (Some (h, None)) /\ h_op h = CEPH_CAP_OP_REVOKE /\ h_caps h = CEPH_CAP_PIN /\ h_xattr_len h = 0.
Proof. eexists. split; [vm_compute; reflexivity|]. by repeat split. Qed.

Definition demo_now (s : caps_state) : ceph_inode_info := default demo_inode (cs_inodes s !! 2).

Lemma demo_steps : cap_steps demo_state demo_revoked.
Proof.
  assert (Hpin : forall a, CEPH_CAP_PIN ⊑ Z.lor CEPH_CAP_PIN a) by (intros a; bits).
  apply steps_run; [|split; [exact demo_bytes|]|vm_compute; reflexivity].
  2: { split; [by apply found; vm_compute|]. intros h p Hd. destruct demo_decode as (h0 & E0 & E1 & E2 & E3).
       rewrite E0 in Hd. injection Hd as <- _. rewrite E1. split; [done|]. split; [done|]. intros _. split; [rewrite E2; by apply sub_without|]. split; [by rewrite E1|by rewrite E3]. }
  apply steps_run; [|split; [by apply found; vm_compute|]|vm_compute; reflexivity].
  2: { split; [done|]. split; by apply found; vm_compute. }
  apply steps_run; [|by apply found; vm_compute|vm_compute; reflexivity].
  apply steps_run; [apply steps_refl| |vm_compute; reflexivity].
  split; [by apply found; vm_compute|]. split; [apply Hpin|]. split; [exists (match state_after (snap_join 2 1) demo_snap with Ret r => r | _ => demo_snap end); vm_compute; reflexivity|].
  exists (demo_now demo_state). split; [vm_compute; reflexivity|]. split; intros _; by apply found; vm_compute.
Qed.


