(* ===== verification/CapsLimits.v ===== *)
(** * What the capabilities do not stand

    Messages, failed allocations and orders of events that CapsOps.v leaves out, on
    concrete states: each lemma is one thing that goes wrong. *)
From S2P Require Import Prelude.
From S2P Require Import Wire.
From S2P Require Import RbTree.
From S2P Require Import StateM.
From S2P Require Import FileLayout.
From S2P Require Import CapPool.
From S2P Require Import Caps.
From S2P Require Import CapsFlush.
From S2P Require Import CapsRefs.
From S2P Require Import CapsMsg.
From S2P Require Import CapsDemo.
From stdpp Require Import gmap.
#[local] Open Scope Z_scope.
#[local] Open Scope ceph_scope.
#[local] Open Scope st_scope.
#[local] Existing Instance demo_xattrs.
#[local] Existing Instance demo_realms.

Definition fault_of {A} (o : outcome A) : option fault := match o with Fault f => Some f | _ => None end.

(** A cap message with the fields that matter here, from MDS 0 for inode 2 *)
Definition cap_bytes (op seq caps trace_len xattr_len xattr_version : Z) : list Z :=
  le_bytes 4 op ++ le_bytes 8 2 ++ le_bytes 8 1 ++ le_bytes 8 77 ++ le_bytes 4 seq ++ repeat 0 4 ++ le_bytes 4 caps ++ repeat 0 20 ++
  le_bytes 4 trace_len ++ repeat 0 16 ++ le_bytes 4 xattr_len ++ le_bytes 8 xattr_version ++ repeat 0 84.

Section Plenty.
#[local] Existing Instance demo_env.

(** A message that takes the pin bit back: [__send_cap] has a BUG_ON for it. *)
Lemma revoked_pin_bugs :
  fault_of (ceph_handle_caps 0 0 1 (cap_bytes CEPH_CAP_OP_REVOKE 2 0 0 0 0) None demo_capped) = Some BugOn.
Proof. vm_compute. reflexivity. Qed.

(** A message that announces attributes has no middle part. *)
Lemma xattrs_without_middle_crash :
  fault_of (ceph_handle_caps 0 0 1 (cap_bytes CEPH_CAP_OP_GRANT 2 CEPH_CAP_PIN 0 4 9) None demo_capped) = Some NullPointer.
Proof. vm_compute. reflexivity. Qed.

(** The length of the snap trace is checked in messages of version 2 and later only. *)
Lemma old_import_overreads :
  fault_of (ceph_handle_caps 0 0 1 (cap_bytes CEPH_CAP_OP_IMPORT 2 CEPH_CAP_PIN 1000 0 0) None demo_capped) = Some OutOfBounds.
Proof. vm_compute. reflexivity. Qed.

(** A cap snapshot of an inode that is in the list snap_flush_list already *)
Lemma second_cap_snap_breaks_list :
  fault_of ((_ ↢ __ceph_mark_dirty_caps 2 CEPH_CAP_FILE_EXCL; _ ↢ ceph_queue_cap_snap 2; ceph_queue_cap_snap 2) demo_capped) = Some OutOfBounds.
Proof. vm_compute. reflexivity. Qed.

(** Whoever flushes while a flush is under way is told that there is nothing to
    wait for. *)
Lemma flush_under_way_is_not_waited_for :
  (match (_ ↢ __ceph_mark_dirty_caps 2 CEPH_CAP_FILE_EXCL; _ ↢ try_flush_caps 2; r ↢ try_flush_caps 2; ci ↢ get_ci 2; sret (fst r, ci_flushing_caps ci)) demo_capped with
   | Ret (r, _) => Some r
   | _ => None
   end) = Some (0, CEPH_CAP_FILE_EXCL).
Proof. vm_compute. reflexivity. Qed.
End Plenty.

(** The number of links of a message counts with the shared cap of the owner and
    the mode, not with that of the links. *)
Lemma links_ignored h ci : grant_link h (Z.lor CEPH_CAP_PIN CEPH_CAP_LINK_SHARED) 0 ci = (false, ci).
Proof. reflexivity. Qed.

(** The first message cannot be allocated, the others can. *)
#[local] Instance short_env : CapsEnv := {|
  msg_ok := fun n => negb (n =? 0)%nat;
  cap_ok := fun _ => true;
  trylock := fun _ => true;
  others := fun _ s => s;
  pages_left := fun _ _ => 0;
  round_jiffies := fun j => j;
  HZ := 250;
  caps_wanted_delay_min := 5;
  caps_wanted_delay_max := 60;
  cap_release_safety := 340;
  open_target := fun _ => None;
  retries := 0 |}.

(** Dirty caps count as being flushed although nothing was sent, and no later flush
    sends them. *)
Lemma failed_flush_is_lost :
  (match (_ ↢ __ceph_mark_dirty_caps 2 CEPH_CAP_FILE_EXCL; _ ↢ try_flush_caps 2; _ ↢ try_flush_caps 2;
          _ ↢ ceph_check_caps 2 (Z.lor CHECK_CAPS_NODELAY CHECK_CAPS_FLUSH) None; ci ↢ get_ci 2; s ↢ sget;
          sret (ci_dirty_caps ci, ci_flushing_caps ci, List.filter (fun x => match x with SentCaps _ m => negb (m_dirty m =? 0) | _ => false end) (cs_sent s))) demo_capped with
   | Ret (r, _) => Some r
   | _ => None
   end) = Some (0, CEPH_CAP_FILE_EXCL, []).
Proof. vm_compute. reflexivity. Qed.
